(* ===== verification/_CoqProject ===== *)
-Q . S2P
Prelude.v
Streams.v
Base64.v
JsonWrite.v
JsonRead.v
JsonStruct.v
JsonCopy.v
JsonBinary.v
OutputBuf.v
ChannelOut.v
InputBuf.v
ChannelIn.v
Delivery.v
InputErrors.v
Events.v
EventProps.v
EventLoop.v
ContextQuery.v
ContextProps.v
ContextService.v
PathMap.v
PathNames.v
PathRules.v
PathService.v
Vm.v
VmProps.v
SigSets.v
Channel.v
ChannelProps.v
Protocol.v
ProtocolTables.v
ProtocolProps.v
ProtocolReplies.v
ProtocolClose.v
ProtocolHello.v
ProtocolFlaws.v
VirtualStreams.v
VirtualStreamRing.v
VirtualStreamProps.v
VirtualStreamRuns.v
VirtualStreamRefine.v
VirtualStreamFlaws.v
Errors.v
ErrorObjects.v
ErrorProps.v
ErrorOps.v
ErrorCounts.v
ErrorText.v
ErrorRead.v
ErrorRoundtrip.v
ErrorFlaws.v
Cache.v
CacheProps.v
CacheRuns.v
CacheRefine.v
CacheOps.v
ExprValue.v
ExprLex.v
Expr.v
ExprSpec.v
ExprNum.v
ExprOps.v
ExprTokens.v
ExprParse.v
ExprCorrect.v
ExprFlaws.v
Peers.v
PeerProps.v
PeerLists.v
PeerRefine.v
Locator.v
