(* ===== verification/Prelude.v ===== *)
(** * Verification of the TCF C core

    TCF (Target Communication Framework) agents and clients exchange messages over channels.  A
    message is a sequence of fields, most of them JSON; what carries it is a stream of symbols, the
    bytes 0 to 255 and the markers [MARKER_EOA] (end of a field), [MARKER_EOM] (end of a message) and
    [MARKER_EOS] (end of the stream).  This development models the parts of the program below in Rocq and proves them
    correct.  The definitions follow the C functions and keep their names.

    ** Parts and files

    - Signal sets (framework/sigsets.c): SigSets.v.
    - Streams (framework/streams.c, streams.h): Streams.v.  The C structures [InputStream] and
      [OutputStream], tables of callbacks, are the classes [InputStream] and [OutputStream]; the
      classes [InputStreamLaws] and [OutputStreamLaws] state what the readers and writers rely on.  The
      instances: byte arrays (Streams.v) and channels (ChannelOut.v, InputBuf.v with ChannelIn.v).
    - BASE64 (framework/base64.c): Base64.v.
    - JSON (framework/json.c): JsonWrite.v writers, JsonRead.v scalars and strings, JsonStruct.v
      arrays, objects, string arrays, binary data and [json_read_object]; JsonCopy.v and JsonBinary.v
      hold properties.  All of them work over any instance of the stream classes.
    - Output of a channel: OutputBuf.v is the queue of framework/outputbuf.c, ChannelOut.v the
      output callbacks of framework/channel_tcp.c: escape sequences, binary blocks, flushing.
    - Input of a channel: InputBuf.v is framework/inputbuf.c with the callbacks and the message events
      of channel_tcp.c.  ChannelIn.v proves the invariant and the laws of the input stream, Delivery.v
      the delivery of messages, InputErrors.v what a misbehaving peer can do.
    - Channels (framework/channel.c): Channel.v, the objects of all channels in a store, listeners,
      broadcast groups and locks; ChannelProps.v how computations on one channel act on the store, and
      broadcasting.
    - Protocol (framework/protocol.c): Protocol.v.  ProtocolTables.v refines the hash tables of
      handlers to lists, ProtocolProps.v is the dispatch of commands and events, ProtocolReplies.v commands to
      the peer and their replies, ProtocolClose.v the close of a channel, ProtocolHello.v the Hello
      messages, ProtocolFlaws.v concrete runs that break the protocol.
    - Event loop (framework/events.c): Events.v models the queues as linked lists in a heap of cells,
      EventProps.v proves the representation invariant, EventLoop.v the refinement of an abstract
      specification over plain lists.
    - Context queries (services/contextquery.c): ContextQuery.v parser, matching and commands,
      ContextProps.v grammar and meaning of queries, ContextService.v the commands.  What is read of a
      context is the class [QueryContext].
    - Path maps (services/pathmap.c): PathMap.v all operations, PathNames.v canonical file names,
      PathRules.v rules and mapping, PathService.v the commands.
    - DWARF expressions (services/vm.c): Vm.v the evaluator, VmProps.v its properties.
    - Streams service (services/streamsservice.c): VirtualStreams.v, streams with their ring buffers, clients
      and waiting requests in stores, and the commands; VirtualStreamRing.v the ring, VirtualStreamProps.v a
      specification as a text with readers, VirtualStreamRuns.v and VirtualStreamRefine.v its simulation,
      VirtualStreamFlaws.v concrete runs that break a stream.
    - Errors (framework/errors.c): Errors.v, error numbers, messages, and reports with counts of references; ErrorProps.v
      what a number means and the invariant, ErrorOps.v the operations, ErrorCounts.v histories of calls.
      ErrorObjects.v is the part of json.c that sends and receives reports, ErrorText.v their texts,
      ErrorRead.v the reader, ErrorRoundtrip.v both sides, ErrorFlaws.v what goes wrong.
    - Data caches (framework/cache.c): Cache.v, clients that run until some cache has no data and run again when it is
      notified.  CacheProps.v specifies clients and caches without the state of cache.c, CacheRuns.v is one run of a
      client, CacheRefine.v the simulation of notifications and events, CacheOps.v whole programs.
    - Expressions (services/expressions.c, [str_to_double] of framework/mdep.c), for an agent without symbols: ExprValue.v values and
      their conversions, ExprLex.v the reader of symbols, Expr.v the parser, which evaluates while it
      reads.  ExprSpec.v is the specification, expressions as trees with their values and their texts; ExprNum.v and ExprOps.v
      relate numbers and operators to it, ExprTokens.v and ExprParse.v reading and parsing, ExprCorrect.v whole texts;
      ExprFlaws.v has texts for which C differs.  Contexts, frames, registers, memory and callbacks are the class [ExprEnv].

    - Peers (framework/peer.c): Peers.v, the list of peers in memory, its listeners and its timer; PeerProps.v who owns which
      string, PeerLists.v the linked list and the calls of listeners, PeerRefine.v the refinement to a table.
    - Locator service (services/discovery.c): Locator.v, its commands "sync", "getPeers" and "getAgentID" and its listener, on the
      state of Peers with the streams as the world.

    A command such as PathMap "set" is the composition: the event loop dispatches
    [handle_channel_msg], [handle_protocol_message] finds its handler, the handler reads the fields of the message with the JSON readers from the
    input stream of the channel, changes its state, and writes a reply with the JSON writers to the output
    stream of the channel, whose queue holds the bytes until the socket takes them.  The theorems are
    composed in the same way: those about commands are proved for any streams with the laws, and the
    laws are proved for the streams of a channel and for byte arrays.

    ** Conventions

    - A C function on a state [S] is a function [S -> outcome A * S] (below).  [Throw] is a call
      of [exception], [Fault] a failed [assert] or undefined behaviour: an access out of bounds, a use of
      a freed or null pointer, a shift by a count out of range.  [NoFuel] is the end of the
      fuel of a loop; the theorems prove results, so they show that the fuel they name is enough.
    - Integers are [Z] with their wrap-around written out ([uwrap], [swrap]); signed overflow
      wraps, as the compilers the program is built with let it.  Pointers into buffers are offsets or list
      positions.  C strings are lists of bytes without the terminating zero.
    - Callbacks, file access, contexts, registers and the like are arguments of the definitions
      or fields of classes.  [clock_gettime] is an argument of the event functions; the
      handlers of the protocol and the listeners of channels are parameters that may change the whole
      state, channels included; the addresses of objects are numbers that are not used twice; the
      reads of the socket are the list [ib_net] of an input buffer; completions of writes are arguments of
      [output_queue_done].
    - History variables record what leaves the state: [oq_sent] (bytes given to the
      socket), [ps_events] (events of the PathMap service).
    - Calls of other threads are atomic steps, since they hold [event_lock].

    ** Theorems

    - Delivery of messages (Delivery.v): for any segmentation of the incoming bytes and any interleaving of
      the steps each message is handled exactly once and in order, nothing faults, every run is
      finite and a run that has not handled all messages can go on; what one channel writes is what
      the other end reads.  ChannelOut.v: the bytes on the wire are the escape encoding of the
      symbols written; a complete message is flushed by the posted events.  OutputBuf.v: the queue is
      a queue under any interleaving, and what a write error does.
    - Protocol: a command, an event or a reply reaches the handler the tables say, and what happens
      without one; tokens are fresh and the search for one ends; what a Hello says is what the peer
      knows afterwards; every waiting handler is told when a channel is closed, while handlers may throw, send commands to
      other channels and change what is not the table or the state of the channel ([polite]), and some of the commands they send are lost
      ([new_handler_dropped]); the tables refine lists.  Channels: a broadcast reaches exactly the members that listen; membership.
    - Event loop (EventLoop.v, EventProps.v): every enabled sequence of posts, cancellations and
      iterations runs without a fault and refines lists of events; each cell is in exactly one list
      and the timers are sorted; a timer whose time has come is dispatched in any
      run that goes on long enough, whatever its handlers and other threads post meanwhile: the number of iterations depends only on the
      events that were there.
    - JSON and BASE64: round trips for strings ([json_write_string] up to the first zero, [json_write_string_len] all of
      it), integers, binary data and BASE64, in any pieces; arrays
      and objects are read element by element; copies of values; wrap-around and bounds.
    - Context queries: the parser ends on every string, accepts every query of the documented grammar
      with the documented parts; for queries without "**" in front of other parts and without the quoted names "*" and "**" ([plain_query]) the
      matching is the documented meaning, and the command "query" replies with exactly the contexts that match.
      [context_query_divergences] shows what the code does with the others.
    - Path maps: canonical names agree with a reference definition over components; an update of a
      rule is well typed in that every field stands for the value of its attribute and no freed string is
      used; what mapping by a rule does; the commands "set" and "get" as a round trip, with the events.
    - DWARF expressions: the code of any arithmetic expression over the stack operations evaluates to
      its value or to its error; operands; values in pieces.
    - Virtual streams: a stream that can be read is a text that grows at its end and readers in it; every client
      gets the bytes in order and without gaps, the slowest one bounds what can be added, and reads wait at
      the end only.
    - Errors: a number keeps its code until one hundred messages later, and its text as long as no report is made of
      it, or its text is plain and its report is not filled by a client; reports are counted exactly; an
      error that is sent is the same error for the peer.
    - Caches: any sequence of clients, notifications and events runs without a failed assert and refines the specification;
      each client finishes once or waits, and the memory of its arguments is freed.  Clients do not notify caches
      themselves ([nested_notify_asserts] shows what happens then).
    - Expressions: the text of any expression of literals and operators, with spaces and parentheses
      where they are needed or wanted, evaluates to the value of the expression, or to its error.
    - Peers: any operations of clients and of the timer refine a table of peers by identifier; listeners are told of every
      change, the timer is posted once as long as there are peers, and the only strings that are lost are
      the identifiers of peers that were given another one ([sp_lost]); lookups.
    - Locator: the reply to "getPeers" has every peer of the table with its properties; the events of the listener.
    - Signal sets and byte array streams: membership, insertion, order; data written is read back
      and stays within the allocation.
    - Theorems about flaws ([hostile_peer], [eof_drops_messages], [context_query_divergences], [new_handler_dropped], [error_flaws],
      [vm_unsafe_operands], [unclosed_brace_endless], [json_binary_copy_broken], [json_write_char_markers]) state behaviour that the
      documentation or a comment denies.  The examples [path_map_flaws], [protocol_flaws], [virtual_stream_flaws] and
      [expressions_not_C] evaluate the definitions on single inputs.

    ** Bounds and fuel

    - [ULONG_DIGITS] (20 digits are enough for 64 bits), [LEB_BYTES] (12 bytes of a LEB128 number; more
      than ten shift out of 64 bits), [refill_bg] (3 rounds), [query_loop] (one more than the length of
      the string), [read_value] (two more than the length) are fixed by the definitions.
    - [es_fuel]: the walks along a list of the event loop take at most one step per cell of the
      heap; [ib_fuel]: the loops of the input buffer consume a byte of the ring in each step.
    - The JSON readers take their fuel as an argument; the theorems ask for more fuel than there are
      symbols in the text, or elements in it.  Strings are shorter than 2^32 where the code
      uses [unsigned] lengths.
    - The fuel of the protocol bounds the strings and arguments of one message; the walk of a list of handlers when a channel is
      closed has one step more than cells, as new cells are put in front of those to come.
      [token_fuel] is one more than the number of waiting handlers, and no token is tried twice before.  The
      tables have 159, 127 and 127 lists ([MEM_USAGE_FACTOR] is 32).
    - [code_fuel], one more than the number of messages, is enough for the chains of codes of errors, which
      end after one step as long as no report has the code of a message ([errors_ok]).
    - [expr_fuel] is more than the length of the text, and every loop of the parser reads a symbol in each step.  Two loops of the
      program do not end: one is [NoFuel] for every fuel ([unclosed_brace_endless]), the other is [None] of [power10] ([expressions_not_C]), whose
      33 steps are one more than an [int] has bits.
    - The fuel of the operations on peers is more than the number of peers and of listeners.
    - The fuel of a run of a client of caches bounds the number of listeners only.
    - The buffers of a channel have 4096 bytes, 128 times the [MEM_USAGE_FACTOR] of 32; [BA_BUF_SIZE]
      and [EVENT_BUF_SIZE] are those of the source.

    ** Not modelled

    - channel_tcp.c: connecting and closing, SSL, splicing of files; its exceptions and
      [channel_close] in [handle_channel_msg] are left to the caller.  The pipe and WebSocket transports,
      and discovery by UDP.  discovery.c: the command "redirect" and the registration of the commands.
    - json.c: doubles (printf and strtod of the C library), [json_splice_binary].  The commands of the services take
      [write_error_object] as a parameter.
    - channel.c: servers and transports, URLs, shutdown.  streamsservice.c: the registration of its commands.
    - expressions.c: symbols ([ENABLE_Symbols]), calls of functions of the target, and the commands of the service.  A [double] is
      computed as IEEE 754 says; conversions of doubles out of the range of integers are faults.
    - context.c, cpudefs.c, the services on top of
      debug information and contexts: candidates for later work.
    - The layers below (mdep.c, asyncreq.c, trace.c, system dependent directories), disassemblers and
      stack crawlers, programs, examples, tests and vendored code. *)

(** ** Shared vocabulary

    The outcome/state monad in which every C function is written, the wrap-around of C integer
    types, the marker constants of the TCF streams, generic list lemmas, and the automation
    ([run] tactic, [tcf] hint database) the component files use. *)

From Stdlib Require Export ZArith Lia List Sorted.
From stdpp Require Export base list gmap strings.

#[global] Open Scope Z_scope.

(** ** Outcomes and the state monad

    A C function that works on some state [S] is a function [S -> outcome A * S].  [Throw] is a
    call of [exception()] (framework/exceptions.c): control leaves the function through [longjmp]
    and the state keeps the changes made so far.  [Fault] is a failed [assert] or an access out
    of bounds.  [NoFuel] never stands for anything the program does: it marks that
    the bound given to a loop was too small. *)

Inductive outcome (A : Type) : Type :=
  | Val (a : A)
  | Throw (code : Z)
  | Fault
  | NoFuel.

Arguments Val {A} a.
Arguments Throw {A} code.
Arguments Fault {A}.
Arguments NoFuel {A}.

Definition M (S A : Type) : Type := S -> outcome A * S.

Definition ret {S A} (a : A) : M S A := fun s => (Val a, s).

Definition bind {S A B} (m : M S A) (k : A -> M S B) : M S B :=
  fun s => match m s with
           | (Val a, s1) => k a s1
           | (Throw e, s1) => (Throw e, s1)
           | (Fault, s1) => (Fault, s1)
           | (NoFuel, s1) => (NoFuel, s1)
           end.

Definition throw {S A} (e : Z) : M S A := fun s => (Throw e, s).
Definition fault {S A} : M S A := fun s => (Fault, s).
Definition nofuel {S A} : M S A := fun s => (NoFuel, s).
Definition gets {S A} (f : S -> A) : M S A := fun s => (Val (f s), s).
Definition modify {S} (f : S -> S) : M S unit := fun s => (Val tt, f s).
Definition put {S} (s' : S) : M S unit := fun _ => (Val tt, s').

(** A computation on a component of the state. *)
Definition zoom {S T A} (get : S -> T) (set : T -> S -> S) (m : M T A) : M S A :=
  fun s => let '(r, t) := m (get s) in (r, set t s).

(** [assert(b)]. *)
Definition cassert {S} (b : bool) : M S unit := if b then ret tt else fault.

Declare Scope tcf_scope.
Notation "'let!' x := m 'in' k" := (bind m (fun x => k))
  (at level 200, x pattern, m at level 100, k at level 200, right associativity) : tcf_scope.
Notation "m ;! k" := (bind m (fun _ => k))
  (at level 199, k at level 200, right associativity) : tcf_scope.
#[global] Open Scope tcf_scope.

(** Runs of a computation: it returns [a] in state [s'] / it throws [e] in state [s']. *)
Definition runs {S A} (m : M S A) (s : S) (a : A) (s' : S) : Prop := m s = (Val a, s').
Definition throws {S A} (m : M S A) (s : S) (e : Z) : Prop := fst (m s) = Throw e.

(** [set_trap]: [h] handles the exceptions of [m]. *)
Definition catch {S A} (m : M S A) (h : Z -> M S A) : M S A :=
  fun s => match m s with
           | (Throw e, s1) => h e s1
           | r => r
           end.

(** ** C integers *)

(** Conversion to an unsigned and to a two's complement signed type of [w] bits.  Signed
    arithmetic of the source that overflows is modelled as wrapping around. *)
Definition uwrap (w x : Z) : Z := x mod 2 ^ w.
Definition swrap (w x : Z) : Z := (x + 2 ^ (w - 1)) mod 2 ^ w - 2 ^ (w - 1).

Definition is_byte (x : Z) : Prop := 0 <= x < 256.
Definition is_byteb (x : Z) : bool := (0 <=? x) && (x <? 256).
Notation bytes := (Forall is_byte).

(** ** Markers and error codes (framework/streams.h, json.h, errors.h) *)

Definition MARKER_EOM : Z := -1.
Definition MARKER_EOS : Z := -2.
Definition MARKER_EOA : Z := 0.
Definition ESC : Z := 3.

Definition STD_ERR_BASE : Z := 0x20000.
Definition ERR_OTHER : Z := STD_ERR_BASE + 1.
Definition ERR_JSON_SYNTAX : Z := STD_ERR_BASE + 2.
Definition ERR_PROTOCOL : Z := STD_ERR_BASE + 3.
Definition ERR_BUFFER_OVERFLOW : Z := STD_ERR_BASE + 4.
Definition ERR_CHANNEL_CLOSED : Z := STD_ERR_BASE + 5.
Definition ERR_COMMAND_CANCELLED : Z := STD_ERR_BASE + 6.
Definition ERR_BASE64 : Z := STD_ERR_BASE + 8.
Definition ERR_EOF : Z := STD_ERR_BASE + 9.
Definition ERR_INV_CONTEXT : Z := STD_ERR_BASE + 16.
Definition ERR_INV_ADDRESS : Z := STD_ERR_BASE + 17.
Definition ERR_INV_DWARF : Z := STD_ERR_BASE + 21.
Definition ERR_UNSUPPORTED : Z := STD_ERR_BASE + 23.
Definition ERR_INV_COMMAND : Z := STD_ERR_BASE + 25.
Definition ERR_INV_TRANSPORT : Z := STD_ERR_BASE + 26.
Definition ERR_INV_CONT_OBJ : Z := STD_ERR_BASE + 29.

(** The code of a character constant of the source. *)
Definition chr (a : Ascii.ascii) : Z := Z.of_N (Ascii.N_of_ascii a).

(** The bytes of a C string literal, without the terminating zero. *)
Fixpoint str (s : string) : list Z :=
  match s with
  | EmptyString => []
  | String a s' => chr a :: str s'
  end.

(** ASCII codes of the characters the parsers test for, as numerals [lia] can read. *)
Notation ch_tab := 9 (only parsing).
Notation ch_lf := 10 (only parsing).
Notation ch_ff := 12 (only parsing).
Notation ch_cr := 13 (only parsing).
Notation ch_bs := 8 (only parsing).
Notation ch_space := 32 (only parsing).
Notation ch_quote := 34 (only parsing).
Notation ch_lpar := 40 (only parsing).
Notation ch_rpar := 41 (only parsing).
Notation ch_star := 42 (only parsing).
Notation ch_plus := 43 (only parsing).
Notation ch_comma := 44 (only parsing).
Notation ch_minus := 45 (only parsing).
Notation ch_dot := 46 (only parsing).
Notation ch_slash := 47 (only parsing).
Notation ch_0 := 48 (only parsing).
Notation ch_9 := 57 (only parsing).
Notation ch_colon := 58 (only parsing).
Notation ch_eq := 61 (only parsing).
Notation ch_A := 65 (only parsing).
Notation ch_C := 67 (only parsing).
Notation ch_E := 69 (only parsing).
Notation ch_F := 70 (only parsing).
Notation ch_N := 78 (only parsing).
Notation ch_P := 80 (only parsing).
Notation ch_R := 82 (only parsing).
Notation ch_Z := 90 (only parsing).
Notation ch_lbra := 91 (only parsing).
Notation ch_bslash := 92 (only parsing).
Notation ch_rbra := 93 (only parsing).
Notation ch_under := 95 (only parsing).
Notation ch_a := 97 (only parsing).
Notation ch_b := 98 (only parsing).
Notation ch_e := 101 (only parsing).
Notation ch_f := 102 (only parsing).
Notation ch_l := 108 (only parsing).
Notation ch_n := 110 (only parsing).
Notation ch_r := 114 (only parsing).
Notation ch_s := 115 (only parsing).
Notation ch_t := 116 (only parsing).
Notation ch_u := 117 (only parsing).
Notation ch_z := 122 (only parsing).
Notation ch_lcur := 123 (only parsing).
Notation ch_rcur := 125 (only parsing).

(** ** C strings *)

(** [*c] *)
Definition deref (c : list Z) : Z := hd 0 c.

(** The C string in a buffer. *)
Fixpoint cstr (buf : list Z) : list Z :=
  match buf with
  | [] => []
  | ch :: buf' => if ch =? 0 then [] else ch :: cstr buf'
  end.

(** ASCII [strcasecmp(a, b) == 0] and [strcmp(a, b) == 0]. *)
Definition to_lower (ch : Z) : Z := if (ch_A <=? ch) && (ch <=? ch_Z) then ch + 32 else ch.
Definition strcaseeq (a b : list Z) : bool := bool_decide (map to_lower a = map to_lower b).
Definition streq (a b : list Z) : bool := bool_decide (a = b).

Lemma cstr_nonzero v : Forall (fun ch => ch <> 0) v -> cstr (v ++ [0]) = v.
Proof. induction 1 as [|ch v Hch Hv IH]; cbn; [done|]. rewrite (proj2 (Z.eqb_neq ch 0)) by done. by rewrite IH. Qed.

Lemma cstr_id v : Forall (fun ch => ch <> 0) v -> cstr v = v.
Proof. induction 1 as [|ch v Hch Hv IH]; cbn; [done|]. rewrite (proj2 (Z.eqb_neq ch 0)) by done. by rewrite IH. Qed.

Lemma streq_spec a b : reflect (a = b) (streq a b).
Proof. unfold streq. apply bool_decide_reflect. Qed.

(** ** Running computations *)

Lemma runs_ret {S A} (a : A) (s : S) : runs (ret a) s a s.
Proof. done. Qed.

Lemma runs_bind {S A B} (m : M S A) (k : A -> M S B) s a s1 b s2 :
  runs m s a s1 -> runs (k a) s1 b s2 -> runs (bind m k) s b s2.
Proof. unfold runs, bind. by intros ->. Qed.

Lemma runs_bind_inv {S A B} (m : M S A) (k : A -> M S B) s b s2 :
  runs (bind m k) s b s2 -> exists a s1, runs m s a s1 /\ runs (k a) s1 b s2.
Proof.
  unfold runs, bind. destruct (m s) as [[a| | |] s1] eqn:E; intros H; try discriminate; eauto.
Qed.

Lemma bind_runs {S A B} (m : M S A) (k : A -> M S B) s a s1 :
  runs m s a s1 -> bind m k s = k a s1.
Proof. unfold runs, bind. by intros ->. Qed.

Lemma bind_throw {S A B} (m : M S A) (k : A -> M S B) s e :
  throws m s e -> throws (bind m k) s e.
Proof.
  unfold throws, bind. destruct (m s) as [[a| | |] s1]; simpl; intros H; congruence.
Qed.

Lemma bind_throw_k {S A B} (m : M S A) (k : A -> M S B) s a s1 e :
  runs m s a s1 -> throws (k a) s1 e -> throws (bind m k) s e.
Proof. intros H. unfold throws. by rewrite (bind_runs _ _ _ _ _ H). Qed.

Lemma bind_ret_r {S A} (m : M S A) s : bind m ret s = m s.
Proof. unfold bind. by destruct (m s) as [[a| | |] s1]. Qed.

Lemma bind_cong {S A B} (m1 m2 : M S A) (k : A -> M S B) s : m1 s = m2 s -> bind m1 k s = bind m2 k s.
Proof. unfold bind. by intros ->. Qed.

Lemma bind_ext {S A B} (m : M S A) (k1 k2 : A -> M S B) s :
  (forall a s1, k1 a s1 = k2 a s1) -> bind m k1 s = bind m k2 s.
Proof. intros H. unfold bind. by destruct (m s) as [[a| | |] s1]. Qed.

Lemma runs_zoom {S T A} (get : S -> T) (set : T -> S -> S) (m : M T A) s a t :
  runs m (get s) a t -> runs (zoom get set m) s a (set t s).
Proof. unfold runs, zoom. by intros ->. Qed.

Lemma runs_gets {S A} (f : S -> A) s : runs (gets f) s (f s) s.
Proof. done. Qed.

Lemma runs_modify {S} (f : S -> S) s : runs (modify f) s tt (f s).
Proof. done. Qed.

Lemma runs_cassert {S} (b : bool) (s : S) : b = true -> runs (cassert b) s tt s.
Proof. by intros ->. Qed.

Lemma runs_catch {S A} (m : M S A) h s a s1 : runs m s a s1 -> runs (catch m h) s a s1.
Proof. unfold runs, catch. by intros ->. Qed.

Lemma catch_throw {S A} (m : M S A) h s e s1 : m s = (Throw e, s1) -> catch m h s = h e s1.
Proof. unfold catch. by intros ->. Qed.

(** A run is unique: the monad is deterministic. *)
Lemma runs_det {S A} (m : M S A) s a b s1 s2 :
  runs m s a s1 -> runs m s b s2 -> a = b /\ s1 = s2.
Proof. unfold runs. intros -> H. by simplify_eq. Qed.

Create HintDb tcf.
#[export] Hint Resolve runs_ret runs_gets runs_modify runs_cassert : tcf.

(** ** Integers *)

Lemma uwrap_small w x : 0 <= x < 2 ^ w -> uwrap w x = x.
Proof. apply Z.mod_small. Qed.

Lemma uwrap_range w x : 0 <= w -> 0 <= uwrap w x < 2 ^ w.
Proof. intros. apply Z.mod_pos_bound. lia. Qed.

Lemma swrap_small w x : 0 < w -> - 2 ^ (w - 1) <= x < 2 ^ (w - 1) -> swrap w x = x.
Proof.
  intros Hw Hx. unfold swrap. rewrite Z.mod_small; [lia|].
  replace (2 ^ w) with (2 * 2 ^ (w - 1)); [lia|].
  rewrite <- Z.pow_succ_r by lia. f_equal. lia.
Qed.

Lemma swrap_range w x : 0 < w -> - 2 ^ (w - 1) <= swrap w x < 2 ^ (w - 1).
Proof.
  intros Hw. unfold swrap.
  assert (H2 : 2 ^ w = 2 * 2 ^ (w - 1)).
  { rewrite <- Z.pow_succ_r by lia. f_equal. lia. }
  pose proof (Z.mod_pos_bound (x + 2 ^ (w - 1)) (2 ^ w)). lia.
Qed.

Lemma uwrap_swrap w x : 0 < w -> uwrap w (swrap w x) = uwrap w x.
Proof.
  intros Hw. unfold uwrap, swrap. rewrite Zminus_mod_idemp_l. f_equal. lia.
Qed.

Lemma swrap_uwrap w x : 0 < w -> swrap w (uwrap w x) = swrap w x.
Proof. intros Hw. unfold uwrap, swrap. by rewrite Zplus_mod_idemp_l. Qed.

Lemma is_byteb_spec x : is_byteb x = true <-> is_byte x.
Proof. unfold is_byteb, is_byte. rewrite andb_true_iff. lia. Qed.

#[export] Instance is_byte_dec x : Decision (is_byte x).
Proof.
  refine (cast_if (decide (is_byteb x = true))); abstract (rewrite <- is_byteb_spec; done).
Defined.

Lemma chr_byte a : is_byte (chr a).
Proof. unfold chr, is_byte. pose proof (Ascii.N_ascii_bounded a). lia. Qed.

Lemma str_bytes s : bytes (str s).
Proof. induction s; constructor; auto using chr_byte. Qed.

#[export] Hint Resolve chr_byte str_bytes : tcf.

(** Facts about all bytes are checked by enumeration. *)
Lemma byte_forall (P : Z -> bool) :
  forallb (fun k => P (Z.of_nat k)) (seq 0 256) = true -> forall b, is_byte b -> P b = true.
Proof.
  intros H b Hb. rewrite forallb_forall in H. unfold is_byte in Hb.
  rewrite <- (Z2Nat.id b) by lia. apply H, in_seq. lia.
Qed.

(** Bit tests of a conjunction with a mask of ones. *)
Lemma land_ones_mod x n : 0 <= n -> Z.land x (Z.ones n) = x mod 2 ^ n.
Proof. apply Z.land_ones. Qed.

(** A number below [2^n] or-ed with a multiple of [2^n] is their sum. *)
Lemma lor_add n a b : 0 <= n -> 0 <= a < 2 ^ n -> Z.lor a (b * 2 ^ n) = a + b * 2 ^ n.
Proof.
  intros Hn Ha. rewrite <- Z.shiftl_mul_pow2 by done.
  rewrite <- Z.lxor_lor, <- Z.add_nocarry_lxor; try done;
    (apply Z.bits_inj'; intros i Hi; rewrite Z.land_spec, Z.bits_0;
     destruct (Z.ltb_spec i n);
     [ rewrite Z.shiftl_spec_low by done; apply andb_false_r
     | rewrite <- (Z.mod_small a (2 ^ n)) by done; rewrite Z.mod_pow2_bits_high by lia; done ]).
Qed.

(** ** Lists *)

Lemma Forall_app_inv {A} (P : A -> Prop) l k : Forall P (l ++ k) -> Forall P l /\ Forall P k.
Proof. by rewrite Forall_app. Qed.

Lemma take_drop_app {A} (n : nat) (l : list A) : take n l ++ drop n l = l.
Proof. apply take_drop. Qed.

Lemma take_plus {A} n m (l : list A) : take (n + m) l = take n l ++ take m (drop n l).
Proof.
  revert l. induction n as [|n IH]; intros l; [by rewrite drop_0|].
  destruct l; [by rewrite drop_nil, !take_nil|]. simpl. by rewrite IH.
Qed.

(** [memcpy]/loop helper: overwrite the elements of [l] from index [i] on with [x]. *)
Definition overwrite {A} (i : nat) (x l : list A) : list A :=
  take i l ++ x ++ drop (i + length x) l.

Lemma overwrite_length {A} i (x l : list A) :
  (i + length x <= length l)%nat -> length (overwrite i x l) = length l.
Proof.
  intros H. unfold overwrite. rewrite !length_app, length_take, length_drop. lia.
Qed.

(** ** Tactics *)

(** One step of a computation whose next action is known to run by a hypothesis or a hint. *)
Ltac step := eapply runs_bind; [solve [eauto with tcf]|]; cbn beta iota zeta.
Ltac steps := repeat step.

(** Linear arithmetic with [/] and [mod] by constants. *)
Ltac divlia := simpl Z.pow in *; simpl Z.sub in *; Z.div_mod_to_equations; lia.

(** Normal form of list concatenations in a hypothesis and in the goal. *)
Ltac norm_app_in H :=
  repeat first [progress rewrite <- (assoc_L (++)) in H | progress cbn [app] in H].
Ltac norm_app :=
  repeat first [progress rewrite <- (assoc_L (++)) | progress cbn [app]].

Ltac destruct_if :=
  match goal with
  | |- context [if ?b then _ else _] => destruct b eqn:?
  end.

(** Turns the boolean comparisons of the context into propositions. *)
Ltac bool_to_prop :=
  repeat match goal with
  | H : (_ && _) = true |- _ => apply andb_true_iff in H as [? ?]
  | H : (_ || _) = false |- _ => apply orb_false_iff in H as [? ?]
  | H : (_ && _) = false |- _ => apply andb_false_iff in H
  | H : (_ || _) = true |- _ => apply orb_true_iff in H
  | H : negb _ = true |- _ => apply negb_true_iff in H
  | H : negb _ = false |- _ => apply negb_false_iff in H
  | H : (_ =? _) = true |- _ => apply Z.eqb_eq in H
  | H : (_ =? _) = false |- _ => apply Z.eqb_neq in H
  | H : (_ <? _) = true |- _ => apply Z.ltb_lt in H
  | H : (_ <? _) = false |- _ => apply Z.ltb_ge in H
  | H : (_ <=? _) = true |- _ => apply Z.leb_le in H
  | H : (_ <=? _) = false |- _ => apply Z.leb_gt in H
  end.
