(* ===== verification/Streams.v ===== *)
(** * Streams (framework/streams.c, streams.h)

    [struct InputStream] and [struct OutputStream] are C interfaces: a window [cur, end) into a
    buffer that callers access directly, and callbacks for everything else.  They are the type
    classes [InputStream] and [OutputStream]; what an implementation promises its clients is in
    the classes [InputStreamLaws] and [OutputStreamLaws].  The functions of streams.c, the byte
    array streams and the forwarding stream follow. *)

From S2P Require Import Prelude.

(** ** Input streams *)

(** The fields of [struct InputStream]: the bytes of the window, [cur += n], and the callbacks. *)
Class InputStream (IS : Type) := {
  is_window : IS -> list Z;
  is_advance : nat -> IS -> IS;
  is_read : M IS Z;
  is_peek : M IS Z }.

(** [read_stream]: function and macro. *)
Definition read_stream `{InputStream IS} : M IS Z :=
  fun inp => match is_window inp with
             | b :: _ => (Val b, is_advance 1 inp)
             | [] => is_read inp
             end.

(** [peek_stream]: function and macro. *)
Definition peek_stream `{InputStream IS} : M IS Z :=
  fun inp => match is_window inp with
             | b :: _ => (Val b, inp)
             | [] => is_peek inp
             end.

(** [yields s l]: the symbols the client reads from [s] next are those of [l].  A symbol is a byte
    or one of the markers. *)
Class InputStreamLaws (IS : Type) `{InputStream IS} := {
  yields : IS -> list Z -> Prop;
  yields_read s x l :
    yields s (x :: l) -> is_window s = [] ->
    exists s', is_read s = (Val x, s') /\ yields s' l;
  yields_peek s x l :
    yields s (x :: l) -> is_window s = [] ->
    exists s', is_peek s = (Val x, s') /\ yields s' (x :: l);
  yields_window s x l b w :
    yields s (x :: l) -> is_window s = b :: w -> x = b;
  yields_advance s n l :
    yields s l -> (n <= length (is_window s))%nat -> (n <= length l)%nat ->
    yields (is_advance n s) (drop n l);
  window_advance s n :
    (n <= length (is_window s))%nat -> is_window (is_advance n s) = drop n (is_window s);
  yields_prefix s l k : yields s (l ++ k) -> yields s l }.

(** [m] consumes exactly [l] and returns [a], whatever follows as long as it satisfies [P]. *)
Definition reads `{InputStreamLaws IS} {A} (P : list Z -> Prop) (m : M IS A) (l : list Z) (a : A) : Prop :=
  forall s rest, P rest -> yields s (l ++ rest) ->
  exists s', runs m s a s' /\ yields s' rest.

(** ** Output streams *)

(** The fields of [struct OutputStream]; [os_null] is [cur == NULL], [os_room] is [end - cur],
    [os_store bs] stores [bs] at [cur] and advances [cur]. *)
Class OutputStream (OS : Type) := {
  supports_zero_copy : OS -> bool;
  os_null : OS -> bool;
  os_room : OS -> nat;
  os_store : list Z -> OS -> OS;
  os_write : Z -> M OS unit;
  os_write_block : list Z -> M OS unit }.

(** [write_stream]: function and macro. *)
Definition write_stream `{OutputStream OS} (b : Z) : M OS unit :=
  fun out =>
    if (b >? ESC) && (0 <? os_room out)%nat
    then (Val tt, os_store [uwrap 8 b] out)
    else os_write b out.

(** [write_block_stream]. *)
Definition write_block_stream `{OutputStream OS} (bs : list Z) : M OS unit := os_write_block bs.

(** The loop shared by [write_string] and [write_stringz] over the characters they emit. *)
Fixpoint write_chars `{OutputStream OS} (s : list Z) : M OS unit :=
  match s with
  | [] => ret tt
  | ch :: s' =>
      (fun out =>
         if negb (ch =? ESC) && (0 <? os_room out)%nat
         then (Val tt, os_store [ch] out)
         else os_write ch out) ;!
      write_chars s'
  end.

(** [write_string]: [s] is the string without its terminating zero. *)
Definition write_string `{OutputStream OS} (s : list Z) : M OS unit :=
  fun out => if os_null out then os_write_block s out else write_chars s out.

(** [write_stringz]: the terminating zero is written too. *)
Definition write_stringz `{OutputStream OS} (s : list Z) : M OS unit :=
  fun out => if os_null out then os_write_block (s ++ [0]) out else write_chars (s ++ [0]) out.

(** [emits o l]: the client has written the symbols [l] to [o] so far.  [os_sym] are the symbols
    the stream accepts: all bytes, and the markers on a channel. *)
Class OutputStreamLaws (OS : Type) `{OutputStream OS} := {
  emits : OS -> list Z -> Prop;
  os_sym : Z -> Prop;
  os_sym_byte b : is_byte b -> os_sym b;
  os_sym_range b : os_sym b -> is_byte b \/ b < 0;
  emits_write o l b :
    emits o l -> os_sym b -> exists o', os_write b o = (Val tt, o') /\ emits o' (l ++ [b]);
  emits_write_block o l bs :
    emits o l -> bytes bs -> exists o', os_write_block bs o = (Val tt, o') /\ emits o' (l ++ bs);
  emits_store o l bs :
    emits o l -> bytes bs -> Forall (fun b => b <> ESC) bs -> (length bs <= os_room o)%nat ->
    emits (os_store bs o) (l ++ bs) }.

(** [m] appends exactly the symbols [bs]. *)
Definition writes `{OutputStreamLaws OS} (m : M OS unit) (bs : list Z) : Prop :=
  forall o l, emits o l -> exists o', runs m o tt o' /\ emits o' (l ++ bs).

(** ** Byte array streams *)

(** [struct ByteArrayOutputStream]: [ba_buf] is the used part of [buf[256]], [ba_mem] the used
    part of [mem], [None] for a null pointer. *)
Record ByteArrayOutputStream := mkBAO {
  ba_buf : list Z;
  ba_mem : option (list Z);
  ba_pos : Z;
  ba_max : Z }.

Definition BA_BUF_SIZE : Z := 256.

Definition write_byte_array_output_stream (byte : Z) : M ByteArrayOutputStream unit :=
  fun b =>
    let ch := uwrap 8 byte in
    if ba_pos b <? BA_BUF_SIZE then
      (Val tt, mkBAO (take (Z.to_nat (ba_pos b)) (ba_buf b) ++ [ch]) (ba_mem b) (ba_pos b + 1) (ba_max b))
    else
      let '(mem, max) :=
        match ba_mem b with
        | None => (ba_buf b, ba_pos b * 2)
        | Some mem => (mem, if ba_pos b >=? ba_max b then ba_max b * 2 else ba_max b)
        end in
      (Val tt, mkBAO (ba_buf b) (Some (take (Z.to_nat (ba_pos b)) mem ++ [ch])) (ba_pos b + 1) max).

Fixpoint write_block_byte_array_output_stream (bs : list Z) : M ByteArrayOutputStream unit :=
  match bs with
  | [] => ret tt
  | b :: bs' => write_byte_array_output_stream b ;! write_block_byte_array_output_stream bs'
  end.

Definition create_byte_array_output_stream : ByteArrayOutputStream := mkBAO [] None 0 0.

(** The window fields stay null: every write goes through the callbacks. *)
#[export] Instance byte_array_output : OutputStream ByteArrayOutputStream := {
  supports_zero_copy _ := false;
  os_null _ := true;
  os_room _ := 0%nat;
  os_store _ o := o;
  os_write := write_byte_array_output_stream;
  os_write_block := write_block_byte_array_output_stream }.

Definition get_byte_array_output_stream_data : M ByteArrayOutputStream (list Z * Z) :=
  fun b =>
    let mem := match ba_mem b with
               | None => take (Z.to_nat (ba_pos b)) (ba_buf b)
               | Some mem => mem
               end in
    (Val (mem, ba_pos b), mkBAO (ba_buf b) None 0 0).

(** [struct ByteArrayInputStream]: the bytes between [cur] and [end]. *)
Record ByteArrayInputStream := mkBAI { bi_rest : list Z }.

Definition read_byte_array_input_stream : M ByteArrayInputStream Z :=
  fun b => match bi_rest b with
           | [] => (Val MARKER_EOS, b)
           | ch :: l => (Val ch, mkBAI l)
           end.

Definition peek_byte_array_input_stream : M ByteArrayInputStream Z :=
  fun b => match bi_rest b with
           | [] => (Val MARKER_EOS, b)
           | ch :: _ => (Val ch, b)
           end.

Definition create_byte_array_input_stream (data : list Z) : ByteArrayInputStream := mkBAI data.

#[export] Instance byte_array_input : InputStream ByteArrayInputStream := {
  is_window := bi_rest;
  is_advance n b := mkBAI (drop n (bi_rest b));
  is_read := read_byte_array_input_stream;
  is_peek := peek_byte_array_input_stream }.

(** ** Forwarding input stream *)

(** [struct ForwardingInputStream]: reading from it reads [inp] and copies to [out]. *)
Record ForwardingInputStream (IS OS : Type) := mkFwd { fw_inp : IS; fw_out : OS }.
Arguments mkFwd {IS OS} fw_inp fw_out.
Arguments fw_inp {IS OS} _.
Arguments fw_out {IS OS} _.

Definition fwd_inp {IS OS A} (m : M IS A) : M (ForwardingInputStream IS OS) A :=
  zoom fw_inp (fun i f => mkFwd i (fw_out f)) m.
Definition fwd_out {IS OS A} (m : M OS A) : M (ForwardingInputStream IS OS) A :=
  zoom fw_out (fun o f => mkFwd (fw_inp f) o) m.

Definition read_forwarding_input_stream `{InputStream IS} `{OutputStream OS} :
    M (ForwardingInputStream IS OS) Z :=
  let! ch := fwd_inp read_stream in
  (if negb (ch =? MARKER_EOS) then fwd_out (write_stream ch) else ret tt) ;!
  ret ch.

Definition peek_forwarding_input_stream `{InputStream IS} `{OutputStream OS} :
    M (ForwardingInputStream IS OS) Z := fwd_inp peek_stream.

(** The window of the forwarding stream itself stays empty. *)
#[export] Instance forwarding_input `{InputStream IS} `{OutputStream OS} :
    InputStream (ForwardingInputStream IS OS) := {
  is_window _ := [];
  is_advance _ f := f;
  is_read := read_forwarding_input_stream;
  is_peek := peek_forwarding_input_stream }.

(** ** Reading lemmas *)

Section Reading.
Context {IS : Type} {is_ops : InputStream IS} {is_laws : InputStreamLaws IS}.

Lemma read_stream_yields s x l :
  yields s (x :: l) -> exists s', runs read_stream s x s' /\ yields s' l.
Proof.
  intros Hy. unfold runs, read_stream. destruct (is_window s) as [|b w] eqn:Hw.
  - by apply yields_read.
  - pose proof (yields_window _ _ _ _ _ Hy Hw) as <-. eexists. split; [done|].
    apply (yields_advance s 1 (x :: l)); [done|rewrite Hw; simpl; lia|simpl; lia].
Qed.

Lemma peek_stream_yields s x l :
  yields s (x :: l) -> exists s', runs peek_stream s x s' /\ yields s' (x :: l).
Proof.
  intros Hy. unfold runs, peek_stream. destruct (is_window s) as [|b w] eqn:Hw.
  - by apply yields_peek.
  - pose proof (yields_window _ _ _ _ _ Hy Hw) as <-. eauto.
Qed.

Lemma reads_ret {A} P (a : A) : reads P (ret a) [] a.
Proof. intros s rest _ Hy. eexists; split; [apply runs_ret|done]. Qed.

Lemma reads_bind {A B} (P Q : list Z -> Prop) (m : M IS A) (k : A -> M IS B) l1 l2 a b :
  reads Q m l1 a -> (forall rest, P rest -> Q (l2 ++ rest)) -> reads P (k a) l2 b ->
  reads P (bind m k) (l1 ++ l2) b.
Proof.
  intros Hm HQ Hk s rest HP Hy. rewrite <- (assoc_L (++)) in Hy.
  destruct (Hm s (l2 ++ rest)) as (s1 & Hr1 & Hy1); auto.
  destruct (Hk s1 rest HP Hy1) as (s2 & Hr2 & Hy2).
  exists s2. split; [|done]. by eapply runs_bind.
Qed.

Lemma reads_read_stream P x : reads P read_stream [x] x.
Proof. intros s rest _ Hy. by apply read_stream_yields. Qed.

End Reading.

(** ** Writing lemmas *)

Section Writing.
Context {OS : Type} {os_ops : OutputStream OS} {os_laws : OutputStreamLaws OS}.

Lemma writes_ret : writes (ret tt) [].
Proof. intros o l He. exists o. by rewrite (right_id_L [] (++)). Qed.

Lemma writes_bind (m k : M OS unit) b1 b2 :
  writes m b1 -> writes k b2 -> writes (m ;! k) (b1 ++ b2).
Proof.
  intros Hm Hk o l He. destruct (Hm o l He) as (o1 & Hr1 & He1).
  destruct (Hk o1 _ He1) as (o2 & Hr2 & He2). exists o2. split.
  - by eapply runs_bind.
  - by rewrite (assoc_L (++)).
Qed.

Lemma writes_stream b : os_sym b -> writes (write_stream b) [b].
Proof.
  intros Hb o l He. unfold runs, write_stream. rewrite Z.gtb_ltb.
  destruct (Z.ltb_spec ESC b); simpl; [|by apply emits_write].
  destruct (Nat.ltb_spec 0 (os_room o)); [|by apply emits_write].
  assert (is_byte b) as Hb' by (destruct (os_sym_range b Hb); unfold ESC in *; [done|lia]).
  rewrite uwrap_small by (unfold is_byte in *; simpl; lia).
  eexists; split; [done|]. apply emits_store; [done|by apply Forall_singleton|apply Forall_singleton; lia|simpl; lia].
Qed.

Lemma writes_block bs : bytes bs -> writes (write_block_stream bs) bs.
Proof. intros Hb o l He. by apply emits_write_block. Qed.

Lemma writes_chars bs : bytes bs -> writes (write_chars bs) bs.
Proof.
  induction 1 as [|b bs Hb Hbs IH]; [apply writes_ret|].
  apply (writes_bind _ _ [b] bs); [|done]. intros o l He. unfold runs.
  destruct (Z.eqb_spec b ESC); simpl; [by apply emits_write; [|apply os_sym_byte]|].
  destruct (Nat.ltb_spec 0 (os_room o)); [|by apply emits_write; [|apply os_sym_byte]].
  eexists; split; [done|]. apply emits_store; [done|by apply Forall_singleton|apply Forall_singleton; lia|simpl; lia].
Qed.

Lemma writes_string bs : bytes bs -> writes (write_string bs) bs.
Proof.
  intros Hb o l He. unfold runs, write_string.
  destruct (os_null o); [by apply emits_write_block|by apply writes_chars].
Qed.

Lemma bytes_snoc bs b : bytes bs -> is_byte b -> bytes (bs ++ [b]).
Proof. intros. rewrite Forall_app. auto. Qed.

Lemma writes_stringz_lem bs : bytes bs -> writes (write_stringz bs) (bs ++ [0]).
Proof.
  intros Hb o l He. unfold runs, write_stringz.
  assert (bytes (bs ++ [0])) by (apply bytes_snoc; [done|unfold is_byte; lia]).
  destruct (os_null o); [by apply emits_write_block|by apply writes_chars].
Qed.
End Writing.

(** ** The byte array streams keep the promises of the interface *)

(** Well-formedness: the live array holds [pos] bytes, and a heap block is never overrun. *)
Definition ba_data (b : ByteArrayOutputStream) : list Z := default (ba_buf b) (ba_mem b).

Record ba_wf (b : ByteArrayOutputStream) : Prop := {
  ba_len : Z.of_nat (length (ba_data b)) = ba_pos b;
  ba_small : ba_pos b < BA_BUF_SIZE -> ba_mem b = None;
  ba_fixed : ba_mem b = None -> ba_pos b <= BA_BUF_SIZE;
  ba_alloc : is_Some (ba_mem b) -> BA_BUF_SIZE < ba_pos b <= ba_max b }.

Definition ba_emits (b : ByteArrayOutputStream) (l : list Z) : Prop := ba_wf b /\ ba_data b = l.

Lemma write_byte_array_correct b l byte :
  ba_emits b l -> is_byte byte ->
  exists b', write_byte_array_output_stream byte b = (Val tt, b') /\ ba_emits b' (l ++ [byte]).
Proof.
  intros [[Hlen Hs Hf Ha] <-] Hb. unfold write_byte_array_output_stream.
  rewrite uwrap_small by (unfold is_byte in *; simpl; lia).
  unfold ba_emits, ba_data in *. destruct b as [bf mem pos mx]; simpl in *.
  unfold BA_BUF_SIZE in *.
  destruct (Z.ltb_spec pos 256).
  - rewrite (Hs ltac:(lia)) in *. simpl in *. eexists; split; [done|]. rewrite take_ge by lia.
    split; [|done]. constructor; unfold ba_data; simpl; rewrite ?length_app; simpl; unfold BA_BUF_SIZE;
      intros; try lia; try done.
  - destruct mem as [mem|]; simpl in *; [specialize (Ha ltac:(done))|specialize (Hf eq_refl)];
      (eexists; split; [done|]); rewrite take_ge by lia; (split; [|done]);
      constructor; unfold ba_data; simpl; rewrite ?length_app, ?Z.geb_leb; simpl; unfold BA_BUF_SIZE;
      intros; try lia; try done.
    destruct (Z.leb_spec mx pos); lia.
Qed.

Lemma write_block_byte_array_correct bs b l :
  ba_emits b l -> bytes bs ->
  exists b', write_block_byte_array_output_stream bs b = (Val tt, b') /\ ba_emits b' (l ++ bs).
Proof.
  intros He Hbs. revert b l He. induction Hbs as [|x bs Hx Hbs IH]; intros b l He; simpl.
  { exists b. by rewrite (right_id_L [] (++)). }
  destruct (write_byte_array_correct b l x He Hx) as (b1 & H1 & He1).
  rewrite (bind_runs _ _ _ _ _ H1).
  destruct (IH b1 _ He1) as (b2 & H2 & He2). exists b2. by rewrite H2, <- (assoc_L (++)) in *.
Qed.

#[export] Program Instance byte_array_output_laws : OutputStreamLaws ByteArrayOutputStream := {
  emits := ba_emits;
  os_sym := is_byte }.
Next Obligation. auto. Qed.
Next Obligation. auto. Qed.
Next Obligation. intros. by apply write_byte_array_correct. Qed.
Next Obligation. intros. by apply write_block_byte_array_correct. Qed.
Next Obligation.
  intros o l bs He Hb _ Hl. cbn in Hl |- *. destruct bs; [|simpl in Hl; lia].
  by rewrite (right_id_L [] (++)).
Qed.

(** A byte array stream yields its bytes and then end-of-stream markers for ever. *)
Definition ba_yields (s : ByteArrayInputStream) (l : list Z) : Prop :=
  exists n, l `prefix_of` bi_rest s ++ replicate n MARKER_EOS.

#[export] Program Instance byte_array_input_laws : InputStreamLaws ByteArrayInputStream := {
  yields := ba_yields }.
Next Obligation.
  intros [r] x l (n & Hp) Hw. simpl in *. subst r. simpl in *.
  destruct n as [|n]; [by apply prefix_nil_inv in Hp|]. simpl in Hp.
  apply prefix_cons_inv_1 in Hp as ?. apply prefix_cons_inv_2 in Hp. subst x.
  eexists; split; [done|]. by exists n.
Qed.
Next Obligation.
  intros [r] x l (n & Hp) Hw. simpl in *. subst r. simpl in *.
  destruct n as [|n]; [by apply prefix_nil_inv in Hp|]. simpl in Hp.
  pose proof (prefix_cons_inv_1 _ _ _ _ Hp) as ->.
  eexists; split; [done|]. by exists (S n).
Qed.
Next Obligation.
  intros [r] x l b w (n & Hp) Hw. simpl in *. subst r. by apply prefix_cons_inv_1 in Hp.
Qed.
Next Obligation.
  intros [r] n l (m & k & Hk) Hn Hl. exists m. exists k. simpl in *.
  apply (f_equal (drop n)) in Hk. by rewrite !drop_app_le in Hk.
Qed.
Next Obligation. done. Qed.
Next Obligation.
  intros s l k (n & Hp). exists n. etrans; [|exact Hp]. by apply prefix_app_r.
Qed.

(** ** The forwarding stream *)

Section Forwarding.
Context {IS : Type} {is_ops : InputStream IS} {is_laws : InputStreamLaws IS}
  {OS : Type} {os_ops : OutputStream OS} {os_laws : OutputStreamLaws OS}.

(** Symbols that can be forwarded: accepted by the output, or the end-of-stream marker. *)
Definition fwd_sym (x : Z) : Prop := x = MARKER_EOS \/ os_sym x.

(** What is copied: everything but end-of-stream markers. *)
Definition copied (l : list Z) : list Z := filter (fun x => x <> MARKER_EOS) l.

Lemma read_forwarding_copies f x l acc :
  yields (fw_inp f) (x :: l) -> emits (fw_out f) acc -> fwd_sym x ->
  exists f', runs read_forwarding_input_stream f x f' /\
    yields (fw_inp f') l /\ emits (fw_out f') (acc ++ copied [x]).
Proof.
  intros Hy He Hx. destruct (read_stream_yields _ _ _ Hy) as (i' & Hr & Hy').
  unfold runs, read_forwarding_input_stream, fwd_inp, fwd_out.
  rewrite (bind_runs _ _ _ _ _ (runs_zoom fw_inp _ _ _ _ _ Hr)).
  unfold copied. destruct (Z.eqb_spec x MARKER_EOS) as [->|Hne]; simpl.
  - rewrite filter_cons_False by tauto. rewrite filter_nil, (right_id_L [] (++)).
    eexists; split; [done|]. done.
  - rewrite filter_cons_True, filter_nil by done.
    destruct (writes_stream x) with (o := fw_out f) (l := acc) as (o' & Hw & He');
      [by destruct Hx|done|].
    pose proof (runs_zoom fw_out (fun o g => mkFwd (fw_inp g) o) _ (mkFwd i' (fw_out f)) _ _ Hw) as Hz.
    rewrite (bind_runs _ _ _ _ _ Hz). eexists; split; [done|]. done.
Qed.

Definition fwd_yields (f : ForwardingInputStream IS OS) (l : list Z) : Prop :=
  yields (fw_inp f) l /\ (exists acc, emits (fw_out f) acc) /\ Forall fwd_sym l.

#[export] Program Instance forwarding_input_laws :
    InputStreamLaws (ForwardingInputStream IS OS) := { yields := fwd_yields }.
Next Obligation.
  intros s x l (Hy & [acc He] & Hf) _. inversion_clear Hf.
  destruct (read_forwarding_copies s x l acc) as (f' & Hr & Hy' & He'); [done..|].
  exists f'. split; [done|]. repeat split; eauto.
Qed.
Next Obligation.
  intros s x l (Hy & [acc He] & Hf) _.
  destruct (peek_stream_yields _ _ _ Hy) as (i' & Hr & Hy').
  eexists. split; [by apply runs_zoom|]. repeat split; simpl; eauto.
Qed.
Next Obligation. done. Qed.
Next Obligation. intros s n l Hy Hn _. simpl in Hn. by replace n with 0%nat by lia. Qed.
Next Obligation. intros s n Hn. simpl in *. by rewrite drop_nil. Qed.
Next Obligation.
  intros s l k (Hy & He & Hf%Forall_app). split; [by eapply yields_prefix|]. tauto.
Qed.

End Forwarding.

(** Reads [n] symbols one by one. *)
Fixpoint read_symbols `{InputStream IS} (n : nat) : M IS (list Z) :=
  match n with
  | O => ret []
  | S n' => let! x := read_stream in let! l := read_symbols n' in ret (x :: l)
  end.

Lemma reads_symbols `{InputStreamLaws IS} P l : reads P (read_symbols (length l)) l l.
Proof.
  induction l as [|x l IH]; simpl; [apply reads_ret|].
  apply (reads_bind P (fun _ => True) _ _ [x] l x); [apply reads_read_stream|done|].
  rewrite <- (app_nil_r l) at 2. eapply (reads_bind P P); [exact IH|done|apply reads_ret].
Qed.

(** Writes a sequence of blocks. *)
Fixpoint write_blocks `{OutputStream OS} (bss : list (list Z)) : M OS unit :=
  match bss with
  | [] => ret tt
  | bs :: bss' => write_block_stream bs ;! write_blocks bss'
  end.

Lemma writes_blocks `{OutputStreamLaws OS} bss :
  Forall (fun bs => bytes bs) bss -> writes (write_blocks bss) (concat bss).
Proof.
  induction 1; simpl; [apply writes_ret|]. apply writes_bind; [by apply writes_block|done].
Qed.

Lemma create_byte_array_emits : emits create_byte_array_output_stream [].
Proof. split; [|done]. constructor; simpl; intros; unfold BA_BUF_SIZE; try done; lia. Qed.

Lemma create_byte_array_yields data k :
  yields (create_byte_array_input_stream data) (data ++ replicate k MARKER_EOS).
Proof. by exists k. Qed.

Lemma get_byte_array_data o l :
  emits o l ->
  exists o', runs get_byte_array_output_stream_data o (l, Z.of_nat (length l)) o' /\
    ba_pos o' = 0 /\ ba_mem o' = None.
Proof.
  intros [[Hlen Hs Hf Ha] <-]. unfold runs, get_byte_array_output_stream_data, ba_data in *.
  destruct (ba_mem o) as [mem|] eqn:E; simpl in *.
  - rewrite Hlen. eauto.
  - rewrite take_ge, Hlen by lia. eauto.
Qed.

(** ** Properties *)

(** whatever blocks of bytes are written to a fresh byte array output stream, its buffer grows
    without overrunning its allocation, [get_byte_array_output_stream_data] returns exactly the
    bytes written and empties the stream, and a byte array input stream over that data delivers the
    same bytes and then end-of-stream. *)
Theorem byte_array_roundtrip bss :
  Forall (fun bs => bytes bs) bss ->
  let data := concat bss in
  exists o o' s,
    runs (write_blocks bss) create_byte_array_output_stream tt o /\ ba_wf o /\
    runs get_byte_array_output_stream_data o (data, Z.of_nat (length data)) o' /\
    ba_pos o' = 0 /\ ba_mem o' = None /\
    runs (read_symbols (length data + 1)) (create_byte_array_input_stream data)
      (data ++ [MARKER_EOS]) s.
Proof.
  intros Hb data. destruct (writes_blocks bss Hb _ [] create_byte_array_emits) as (o & Hw & He).
  destruct (get_byte_array_data o data He) as (o' & Hg & Hp & Hm).
  destruct (reads_symbols (fun _ => True) (data ++ [MARKER_EOS]) (create_byte_array_input_stream data) [])
    as (s & Hr & _); [done|rewrite app_nil_r; apply (create_byte_array_yields data 1)|].
  rewrite length_app in Hr. simpl in Hr. exists o, o', s. split; [done|]. split; [apply He|]. auto.
Qed.

Lemma byte_array_roundtrip_witness :
  let data := replicate 200 7 ++ replicate 120 200 in
  exists o o' s,
    runs (write_blocks [replicate 200 7; replicate 120 200]) create_byte_array_output_stream tt o /\
    ba_wf o /\
    runs get_byte_array_output_stream_data o (data, Z.of_nat (length data)) o' /\
    ba_pos o' = 0 /\ ba_mem o' = None /\
    runs (read_symbols (length data + 1)) (create_byte_array_input_stream data)
      (data ++ [MARKER_EOS]) s.
Proof.
  apply (byte_array_roundtrip [replicate 200 7; replicate 120 200]).
  repeat (apply Forall_cons; split; [apply Forall_replicate; unfold is_byte; lia|]).
  apply Forall_nil; done.
Defined.

(** reading through a forwarding stream delivers the symbols of the input stream, and copies
    every one of them except end-of-stream markers to the output stream, in order; for any
    implementations of the two streams. *)
Theorem forwarding_stream_copies `{InputStreamLaws IS, OutputStreamLaws OS}
    (f : ForwardingInputStream IS OS) l acc :
  yields (fw_inp f) l -> emits (fw_out f) acc -> Forall fwd_sym l ->
  exists f', runs (read_symbols (length l)) f l f' /\ emits (fw_out f') (acc ++ copied l).
Proof.
  revert f acc. induction l as [|x l IH]; intros f acc Hy He Hf; simpl.
  { exists f. unfold copied. rewrite filter_nil, (right_id_L [] (++)). by split. }
  apply Forall_cons in Hf as [Hx Hf].
  destruct (read_forwarding_copies f x l acc Hy He Hx) as (f1 & Hr & Hy1 & He1).
  destruct (IH f1 _ Hy1 He1 Hf) as (f2 & Hr2 & He2). exists f2. split.
  - eapply runs_bind; [exact Hr|]. eapply runs_bind; [exact Hr2|]. done.
  - unfold copied in *. rewrite <- (assoc_L (++)), <- filter_app in He2. done.
Qed.

Lemma forwarding_stream_copies_witness :
  exists f', runs (read_symbols 3)
      (mkFwd (create_byte_array_input_stream [1; 3]) create_byte_array_output_stream)
      [1; 3; MARKER_EOS] f' /\
    emits (fw_out f') ([] ++ copied [1; 3; MARKER_EOS]).
Proof.
  apply (forwarding_stream_copies
    (mkFwd (create_byte_array_input_stream [1; 3]) create_byte_array_output_stream)
    [1; 3; MARKER_EOS] []).
  - apply (create_byte_array_yields [1; 3] 1).
  - apply create_byte_array_emits.
  - repeat (apply Forall_cons; split; [first [by left|right; simpl; unfold is_byte; lia]|]).
    apply Forall_nil; done.
Defined.
