(* ===== verification/Base64.v ===== *)
(** * BASE64 (framework/base64.c)

    [write_base64] and [read_base64] over any output and input stream.  The reader stops at the
    first character outside of the alphabet, after padding, or when the buffer has no room for
    three more bytes; the lemmas describe all three. *)

From S2P Require Import Prelude Streams.

Definition int2char : list Z :=
  Eval cbv in str "ABCDEFGHIJKLMNOPQRSTUVWXYZabcdefghijklmnopqrstuvwxyz0123456789+/".

Definition char2int : list Z :=
  [ -1; -1; -1; -1; -1; -1; -1; -1;
    -1; -1; -1; -1; -1; -1; -1; -1;
    -1; -1; -1; -1; -1; -1; -1; -1;
    -1; -1; -1; -1; -1; -1; -1; -1;
    -1; -1; -1; -1; -1; -1; -1; -1;
    -1; -1; -1; 62; -1; -1; -1; 63;
    52; 53; 54; 55; 56; 57; 58; 59;
    60; 61; -1; -1; -1; -1; -1; -1;
    -1;  0;  1;  2;  3;  4;  5;  6;
     7;  8;  9; 10; 11; 12; 13; 14;
    15; 16; 17; 18; 19; 20; 21; 22;
    23; 24; 25; -1; -1; -1; -1; -1;
    -1; 26; 27; 28; 29; 30; 31; 32;
    33; 34; 35; 36; 37; 38; 39; 40;
    41; 42; 43; 44; 45; 46; 47; 48;
    49; 50; 51 ].

Definition OBF_SIZE : Z := 0x100.

(** [int2char[n]]; every index of the writer is below 64. *)
Definition i2c (n : Z) : Z := nth (Z.to_nat n) int2char 0.

(** The test [ch < 0 || ch >= ch_max || (n = char2int[ch]) < 0]: [None] when it holds, the value
    [n] otherwise. *)
Definition c2i (ch : Z) : option Z :=
  if (ch <? 0) || (ch >=? Z.of_nat (length char2int)) then None
  else let n := nth (Z.to_nat ch) char2int 0 in if n <? 0 then None else Some n.

(** The [while] loop of [write_base64]; [obf] is the used part of the staging buffer. *)
Fixpoint write_base64_loop `{OutputStream OS} (buf obf : list Z) : M OS unit :=
  let flush k obf :=
    if Z.of_nat (length obf) >=? OBF_SIZE
    then write_block_stream obf ;! k []
    else k obf in
  match buf with
  | [] => if (0 <? length obf)%nat then write_block_stream obf else ret tt
  | byte0 :: ([] as buf') =>
      flush (write_base64_loop buf')
        (obf ++ [i2c (Z.shiftr byte0 2); i2c (Z.land (Z.shiftl byte0 4) 0x3f); ch_eq; ch_eq])
  | byte0 :: byte1 :: ([] as buf') =>
      flush (write_base64_loop buf')
        (obf ++ [i2c (Z.shiftr byte0 2);
                 i2c (Z.lor (Z.land (Z.shiftl byte0 4) 0x3f) (Z.shiftr byte1 4));
                 i2c (Z.land (Z.shiftl byte1 2) 0x3f); ch_eq])
  | byte0 :: byte1 :: byte2 :: buf' =>
      flush (write_base64_loop buf')
        (obf ++ [i2c (Z.shiftr byte0 2);
                 i2c (Z.lor (Z.land (Z.shiftl byte0 4) 0x3f) (Z.shiftr byte1 4));
                 i2c (Z.lor (Z.land (Z.shiftl byte1 2) 0x3f) (Z.shiftr byte2 6));
                 i2c (Z.land byte2 0x3f)])
  end.

Definition write_base64 `{OutputStream OS} (buf : list Z) : M OS Z :=
  write_base64_loop buf [] ;!
  ret ((Z.of_nat (length buf) + 2) / 3 * 4).

(** The [while] loop of [read_base64]; [acc] is [buf[0 .. pos)]. *)
Fixpoint read_base64_loop `{InputStream IS} (fuel : nat) (buf_size : Z) (acc : list Z) :
    M IS (list Z) :=
  match fuel with
  | O => nofuel
  | S fuel' =>
      if negb (Z.of_nat (length acc) + 3 <=? buf_size) then ret acc
      else
        let! ch0 := peek_stream in
        match c2i ch0 with
        | None => ret acc
        | Some n0 =>
            read_stream ;!
            let! ch1 := read_stream in
            let! ch2 := read_stream in
            let! ch3 := read_stream in
            match c2i ch1 with
            | None => throw ERR_BASE64
            | Some n1 =>
                let acc := acc ++ [uwrap 8 (Z.lor (Z.shiftl n0 2) (Z.shiftr n1 4))] in
                if ch2 =? ch_eq then ret acc
                else
                  match c2i ch2 with
                  | None => throw ERR_BASE64
                  | Some n2 =>
                      let acc := acc ++ [uwrap 8 (Z.lor (Z.shiftl n1 4) (Z.shiftr n2 2))] in
                      if ch3 =? ch_eq then ret acc
                      else
                        match c2i ch3 with
                        | None => throw ERR_BASE64
                        | Some n3 =>
                            read_base64_loop fuel' buf_size
                              (acc ++ [uwrap 8 (Z.lor (Z.shiftl n2 6) n3)])
                        end
                  end
            end
        end
  end.

(** [read_base64]: the bytes stored in [buf]; every iteration that goes on stores three. *)
Definition read_base64 `{InputStream IS} (buf_size : Z) : M IS (list Z) :=
  cassert (buf_size >=? 3) ;!
  read_base64_loop (S (Z.to_nat buf_size)) buf_size [].

(** ** The encoding *)

(** The reference encoding: four characters per group of three bytes, [=] padding. *)
Fixpoint base64 (bs : list Z) : list Z :=
  match bs with
  | b0 :: b1 :: b2 :: bs' =>
      i2c (b0 / 4) :: i2c (b0 mod 4 * 16 + b1 / 16) :: i2c (b1 mod 16 * 4 + b2 / 64) ::
      i2c (b2 mod 64) :: base64 bs'
  | [b0; b1] => [i2c (b0 / 4); i2c (b0 mod 4 * 16 + b1 / 16); i2c (b1 mod 16 * 4); ch_eq]
  | [b0] => [i2c (b0 / 4); i2c (b0 mod 4 * 16); ch_eq; ch_eq]
  | [] => []
  end.

(** Induction on the groups of three. *)
Lemma group_ind (P : list Z -> Prop) :
  P [] -> (forall a, P [a]) -> (forall a b, P [a; b]) ->
  (forall a b c l, P l -> P (a :: b :: c :: l)) -> forall l, P l.
Proof.
  intros H0 H1 H2 H3 l. remember (length l) as n eqn:Hn. revert l Hn.
  induction (lt_wf n) as [n _ IH]. intros [|a [|b [|c l]]] ->; auto.
  apply H3, (IH (length l)); simpl; auto with lia.
Qed.

Lemma shl_mask b k : 0 <= k <= 6 -> Z.land (Z.shiftl b k) 0x3f = b mod 2 ^ (6 - k) * 2 ^ k.
Proof.
  intros Hk. change 0x3f with (Z.ones 6). rewrite Z.land_ones, Z.shiftl_mul_pow2 by lia.
  replace (2 ^ 6) with (2 ^ (6 - k) * 2 ^ k) by (rewrite <- Z.pow_add_r by lia; f_equal; lia).
  rewrite Z.mul_mod_distr_r by lia. done.
Qed.

Lemma lor_shl a b k : 0 <= k -> 0 <= b < 2 ^ k -> Z.lor (a * 2 ^ k) b = a * 2 ^ k + b.
Proof. intros. rewrite Z.lor_comm, lor_add by lia. lia. Qed.

Lemma mask6 b : Z.land b 0x3f = b mod 64.
Proof. change 0x3f with (Z.ones 6). by rewrite Z.land_ones. Qed.

(** The characters the writer computes with shifts and masks are those of the encoding. *)
Lemma sextet_01 b0 b1 : is_byte b1 ->
  Z.lor (Z.land (Z.shiftl b0 4) 0x3f) (Z.shiftr b1 4) = b0 mod 4 * 16 + b1 / 16.
Proof.
  intros Hb. unfold is_byte in Hb. rewrite shl_mask, Z.shiftr_div_pow2, lor_shl by divlia. done.
Qed.

Lemma sextet_12 b1 b2 : is_byte b2 ->
  Z.lor (Z.land (Z.shiftl b1 2) 0x3f) (Z.shiftr b2 6) = b1 mod 16 * 4 + b2 / 64.
Proof.
  intros Hb. unfold is_byte in Hb. rewrite shl_mask, Z.shiftr_div_pow2, lor_shl by divlia. done.
Qed.

Lemma c2i_i2c n : 0 <= n < 64 -> c2i (i2c n) = Some n.
Proof.
  intros Hn.
  assert (H : forallb (fun k => bool_decide (c2i (i2c (Z.of_nat k)) = Some (Z.of_nat k))) (seq 0 64) = true)
    by (vm_compute; done).
  rewrite forallb_forall in H. specialize (H (Z.to_nat n)).
  rewrite Z2Nat.id in H by lia. rewrite bool_decide_eq_true in H. apply H, in_seq. lia.
Qed.

Lemma i2c_not_pad n : 0 <= n < 64 -> i2c n <> ch_eq.
Proof. intros Hn He. pose proof (c2i_i2c n Hn) as H. by rewrite He in H. Qed.

Lemma i2c_byte n : 0 <= n < 64 -> is_byte (i2c n).
Proof.
  intros Hn. pose proof (c2i_i2c n Hn) as H. unfold c2i in H.
  destruct ((i2c n <? 0) || (i2c n >=? Z.of_nat (length char2int))) eqn:E; [done|].
  bool_to_prop. rewrite Z.geb_leb in *. bool_to_prop. simpl in *. unfold is_byte. lia.
Qed.

(** The bytes the reader reassembles. *)
Lemma octet n k a b : 0 <= k <= 8 -> 0 <= b < 2 ^ k -> 0 <= n -> n mod 2 ^ (8 - k) = a ->
  uwrap 8 (Z.lor (Z.shiftl n k) b) = a * 2 ^ k + b.
Proof.
  intros Hk Hb Hn <-. unfold uwrap. rewrite Z.shiftl_mul_pow2, lor_shl by lia.
  replace (2 ^ 8) with (2 ^ (8 - k) * 2 ^ k) by (rewrite <- Z.pow_add_r by lia; f_equal; lia).
  pose proof (Z.div_mod n (2 ^ (8 - k))).
  assert (0 < 2 ^ (8 - k)) by (apply Z.pow_pos_nonneg; lia).
  assert (0 < 2 ^ k) by (apply Z.pow_pos_nonneg; lia).
  symmetry. apply (Z.mod_unique _ _ (n / 2 ^ (8 - k))).
  - left. pose proof (Z.mod_pos_bound n (2 ^ (8 - k))). nia.
  - nia.
Qed.

(** ** Writing *)

Section Write.
Context {OS : Type} {os_ops : OutputStream OS} {os_laws : OutputStreamLaws OS}.

Lemma writes_base64_nil obf : bytes obf -> writes (write_base64_loop [] obf) obf.
Proof.
  intros Ho. cbn [write_base64_loop]. destruct (Nat.ltb_spec 0 (length obf)); [by apply writes_block|].
  destruct obf; [apply writes_ret|simpl in *; lia].
Qed.

(** The end of an iteration: the staging buffer is written out or kept, and the loop goes on. *)
Lemma writes_flush (k : list Z -> M OS unit) obf q l :
  bytes obf -> bytes q -> (forall o, bytes o -> writes (k o) (o ++ l)) ->
  writes (if Z.of_nat (length (obf ++ q)) >=? OBF_SIZE
          then write_block_stream (obf ++ q) ;! k [] else k (obf ++ q)) (obf ++ q ++ l).
Proof.
  intros Ho Hq Hk. assert (bytes (obf ++ q)) by (by apply Forall_app). rewrite (assoc_L (++)).
  destruct (_ >=? _); [|by apply Hk]. apply writes_bind; [by apply writes_block|]. by apply (Hk []).
Qed.

Lemma bytes_quad a b c d : 0 <= a < 64 -> 0 <= b < 64 -> is_byte c -> is_byte d ->
  bytes [i2c a; i2c b; c; d].
Proof. intros. by repeat (apply Forall_cons; split; [try apply i2c_byte; done|]). Qed.

Lemma writes_base64_loop bs : bytes bs ->
  forall obf, bytes obf -> writes (write_base64_loop bs obf) (obf ++ base64 bs).
Proof.
  assert (Hpad : is_byte ch_eq) by (unfold is_byte; lia).
  assert (Hnil : forall o, bytes o -> writes (write_base64_loop [] o) (o ++ []))
    by (intros; rewrite app_nil_r; by apply writes_base64_nil).
  induction bs as [|b0|b0 b1|b0 b1 b2 bs IH] using group_ind; intros Hb obf Ho;
    repeat match goal with H : bytes (_ :: _) |- _ => apply Forall_cons in H as [? H] end;
    cbn [base64].
  - by apply Hnil.
  - cbn [write_base64_loop]. rewrite shl_mask, Z.shiftr_div_pow2 by lia. simpl Z.sub. simpl Z.pow.
    apply (writes_flush (write_base64_loop []) obf [_; _; _; _] []); auto.
    unfold is_byte in *. apply bytes_quad; unfold is_byte; divlia.
  - cbn [write_base64_loop]. rewrite sextet_01, shl_mask, Z.shiftr_div_pow2 by (done || lia).
    simpl Z.sub. simpl Z.pow.
    apply (writes_flush (write_base64_loop []) obf [_; _; _; _] []); auto.
    unfold is_byte in *. apply bytes_quad; try apply i2c_byte; unfold is_byte; divlia.
  - cbn [write_base64_loop].
    rewrite sextet_01, sextet_12, mask6, Z.shiftr_div_pow2 by (done || lia). simpl Z.pow.
    apply (writes_flush (write_base64_loop bs) obf [_; _; _; _] (base64 bs)); auto.
    unfold is_byte in *. apply bytes_quad; try apply i2c_byte; unfold is_byte; divlia.
Qed.

Lemma writes_base64 bs (o : OS) l : bytes bs -> emits o l ->
  exists o', runs (write_base64 bs) o ((Z.of_nat (length bs) + 2) / 3 * 4) o' /\
    emits o' (l ++ base64 bs).
Proof.
  intros Hb He. destruct (writes_base64_loop bs Hb [] ltac:(done) o l He) as (o' & Hr & He').
  exists o'. split; [|done]. eapply runs_bind; [exact Hr|]. done.
Qed.
End Write.

(** The returned length is the number of characters written. *)
Lemma base64_length bs : Z.of_nat (length (base64 bs)) = (Z.of_nat (length bs) + 2) / 3 * 4.
Proof.
  induction bs as [|b0|b0 b1|b0 b1 b2 bs IH] using group_ind; try done.
  cbn [base64 length]. rewrite !Nat2Z.inj_succ, IH.
  replace (Z.succ (Z.succ (Z.succ (Z.of_nat (length bs)))) + 2)
    with (Z.of_nat (length bs) + 2 + 1 * 3) by lia.
  rewrite Z.div_add by lia. lia.
Qed.

(** ** Reading *)

Section Read.
Context {IS : Type} {is_ops : InputStream IS} {is_laws : InputStreamLaws IS}.

(** The head of an iteration: four characters are taken from the stream. *)
Lemma read_quad s c0 c1 c2 c3 l : yields s (c0 :: c1 :: c2 :: c3 :: l) ->
  exists s1 s2 s3 s4 s5, runs peek_stream s c0 s1 /\ runs read_stream s1 c0 s2 /\
    runs read_stream s2 c1 s3 /\ runs read_stream s3 c2 s4 /\ runs read_stream s4 c3 s5 /\
    yields s5 l.
Proof.
  intros Hy.
  destruct (peek_stream_yields _ _ _ Hy) as (s1 & R1 & Hy1).
  destruct (read_stream_yields _ _ _ Hy1) as (s2 & R2 & Hy2).
  destruct (read_stream_yields _ _ _ Hy2) as (s3 & R3 & Hy3).
  destruct (read_stream_yields _ _ _ Hy3) as (s4 & R4 & Hy4).
  destruct (read_stream_yields _ _ _ Hy4) as (s5 & R5 & Hy5). naive_solver.
Qed.

(** Number of bytes of an [n]-byte datum that are decoded into [room] bytes. *)
Definition decoded (n : nat) (room : Z) : nat := Nat.min n (Z.to_nat (room / 3 * 3)).

Lemma decoded_step n room : 3 <= room -> decoded (3 + n) room = (3 + decoded n (room - 3))%nat.
Proof.
  intros. unfold decoded. replace (room - 3) with (room + (-1) * 3) by lia.
  rewrite Z.div_add by lia. pose proof (Z.div_le_lower_bound room 3 1). lia.
Qed.

Lemma decoded_small n room : (n < 3)%nat -> 3 <= room -> decoded n room = n.
Proof. intros. unfold decoded. pose proof (Z.div_le_lower_bound room 3 1). lia. Qed.

Lemma decoded_none n room : 0 <= room < 3 -> decoded n room = 0%nat.
Proof. intros. unfold decoded. rewrite Z.div_small by lia. lia. Qed.

Lemma octet0 b0 b1 : is_byte b0 -> is_byte b1 ->
  uwrap 8 (Z.lor (Z.shiftl (b0 / 4) 2) (Z.shiftr (b0 mod 4 * 16 + b1 / 16) 4)) = b0.
Proof.
  unfold is_byte. intros. rewrite Z.shiftr_div_pow2 by lia.
  rewrite (octet _ _ (b0 / 4)) by divlia. divlia.
Qed.

Lemma octet1 b0 b1 b2 : is_byte b0 -> is_byte b1 -> is_byte b2 ->
  uwrap 8 (Z.lor (Z.shiftl (b0 mod 4 * 16 + b1 / 16) 4) (Z.shiftr (b1 mod 16 * 4 + b2 / 64) 2)) = b1.
Proof.
  unfold is_byte. intros. rewrite Z.shiftr_div_pow2 by lia.
  rewrite (octet _ _ (b1 / 16)) by divlia. divlia.
Qed.

Lemma octet2 b1 b2 : is_byte b1 -> is_byte b2 ->
  uwrap 8 (Z.lor (Z.shiftl (b1 mod 16 * 4 + b2 / 64) 6) (b2 mod 64)) = b2.
Proof. unfold is_byte. intros. rewrite (octet _ _ (b2 / 64)) by divlia. divlia. Qed.

(** Reading the encoding of [bs]: as many whole groups as fit into the buffer are decoded, and
    the rest of the encoding stays in the stream. *)
Lemma read_base64_loop_spec bs : bytes bs -> forall fuel size acc s q rest,
  Z.of_nat (length acc) <= size ->
  size - Z.of_nat (length acc) < 3 * Z.of_nat fuel ->
  c2i q = None -> yields s (base64 bs ++ q :: rest) ->
  let k := decoded (length bs) (size - Z.of_nat (length acc)) in
  exists s', runs (read_base64_loop fuel size acc) s (acc ++ take k bs) s' /\
    yields s' (base64 (drop k bs) ++ q :: rest).
Proof.
  induction bs as [|b0|b0 b1|b0 b1 b2 bs IH] using group_ind;
    intros Hb fuel size acc s q rest Hs Hf Hq Hy k;
    repeat match goal with H : bytes (_ :: _) |- _ => apply Forall_cons in H as [? H] end;
    (destruct fuel as [|fuel]; [lia|]); cbn [read_base64_loop];
    (destruct (Z.leb_spec (Z.of_nat (length acc) + 3) size) as [Hroom|Hroom]; cbn [negb];
     [|subst k; rewrite decoded_none, app_nil_r by lia; exists s; by split]).
  - subst k. destruct (peek_stream_yields _ _ _ Hy) as (s1 & R1 & Hy1).
    exists s1. split; [|by rewrite drop_nil].
    eapply runs_bind; [exact R1|]. rewrite Hq, take_nil, app_nil_r. done.
  - subst k. rewrite decoded_small by (simpl; lia).
    destruct (read_quad _ _ _ _ _ _ Hy) as (s1 & s2 & s3 & s4 & s5 & R1 & R2 & R3 & R4 & R5 & Hy5).
    exists s5. split; [|done]. eapply runs_bind; [exact R1|].
    rewrite c2i_i2c by (unfold is_byte in *; divlia).
    do 4 (eapply runs_bind; [eassumption|]). rewrite c2i_i2c by (unfold is_byte in *; divlia).
    cbn [Z.eqb Pos.eqb]. pose proof (octet0 b0 0) as Ho. rewrite Z.add_0_r in Ho.
    rewrite Ho by (unfold is_byte in *; lia). done.
  - subst k. rewrite decoded_small by (simpl; lia).
    destruct (read_quad _ _ _ _ _ _ Hy) as (s1 & s2 & s3 & s4 & s5 & R1 & R2 & R3 & R4 & R5 & Hy5).
    exists s5. split; [|done]. eapply runs_bind; [exact R1|].
    rewrite c2i_i2c by (unfold is_byte in *; divlia).
    do 4 (eapply runs_bind; [eassumption|]). rewrite c2i_i2c by (unfold is_byte in *; divlia).
    rewrite (proj2 (Z.eqb_neq _ _)) by (apply i2c_not_pad; unfold is_byte in *; divlia).
    rewrite c2i_i2c by (unfold is_byte in *; divlia). cbn [Z.eqb Pos.eqb].
    pose proof (octet1 b0 b1 0) as Ho. rewrite Z.add_0_r in Ho.
    rewrite octet0, Ho, <- (assoc_L (++)) by (unfold is_byte in *; lia). done.
  - subst k. cbn [length]. change (S (S (S (length bs)))) with (3 + length bs)%nat.
    rewrite decoded_step by lia.
    destruct (read_quad _ _ _ _ _ _ Hy) as (s1 & s2 & s3 & s4 & s5 & R1 & R2 & R3 & R4 & R5 & Hy5).
    destruct (IH ltac:(done) fuel size (acc ++ [b0; b1; b2]) s5 q rest) as (s6 & R6 & Hy6);
      rewrite ?length_app; simpl; try lia; try done.
    rewrite length_app in *. simpl in R6, Hy6.
    replace (size - Z.of_nat (length acc + 3)) with (size - Z.of_nat (length acc) - 3) in * by lia.
    exists s6. split; [|done]. eapply runs_bind; [exact R1|].
    rewrite c2i_i2c by (unfold is_byte in *; divlia).
    do 4 (eapply runs_bind; [eassumption|]). rewrite c2i_i2c by (unfold is_byte in *; divlia).
    do 2 (rewrite (proj2 (Z.eqb_neq _ _)) by (apply i2c_not_pad; unfold is_byte in *; divlia);
          rewrite c2i_i2c by (unfold is_byte in *; divlia)).
    rewrite octet0, octet1, octet2 by done.
    rewrite <- !(assoc_L (++)) in *. exact R6.
Qed.
End Read.

(** ** Safety of the reader on arbitrary input *)

Section Safety.
Context {IS : Type} {is_ops : InputStream IS}.

(** A stream whose callbacks terminate. *)
Definition total_stream : Prop :=
  forall s : IS, fst (is_read s) <> NoFuel /\ fst (is_peek s) <> NoFuel.

Lemma read_stream_total s : total_stream -> fst (read_stream s) <> NoFuel.
Proof. intros Ht. unfold read_stream. destruct (is_window s); [apply Ht|done]. Qed.

Lemma peek_stream_total s : total_stream -> fst (peek_stream s) <> NoFuel.
Proof. intros Ht. unfold peek_stream. destruct (is_window s); [apply Ht|done]. Qed.

(** What a run of the loop may end with: never out of fuel, and never more than [size] bytes. *)
Definition safe_result (size : Z) (r : outcome (list Z)) : Prop :=
  r <> NoFuel /\ forall a, r = Val a -> Z.of_nat (length a) <= size.

Lemma safe_bind {A} size (m : M IS A) (k : A -> M IS (list Z)) s :
  fst (m s) <> NoFuel -> (forall a s', safe_result size (fst (k a s'))) ->
  safe_result size (fst (bind m k s)).
Proof.
  unfold bind. intros Hm Hk. destruct (m s) as [[a|e| |] s1]; simpl in *; auto; by split.
Qed.

Lemma read_base64_loop_safe fuel size acc s :
  total_stream -> Z.of_nat (length acc) <= size ->
  size - Z.of_nat (length acc) < 3 * Z.of_nat fuel ->
  safe_result size (fst (read_base64_loop fuel size acc s)).
Proof.
  intros Ht. revert acc s. induction fuel as [|fuel IH]; intros acc s Ha Hf; [lia|].
  assert (Hret : forall x (t : IS), Z.of_nat (length x) <= size -> safe_result size (fst (ret x t)))
    by (intros x t Hx; split; [done|]; intros a [= <-]; done).
  assert (Hexc : forall (t : IS), safe_result size (fst (throw ERR_BASE64 t))) by (by split).
  cbn [read_base64_loop]. destruct (Z.leb_spec (Z.of_nat (length acc) + 3) size); cbn [negb]; [|by apply Hret].
  apply safe_bind; [by apply peek_stream_total|]. intros ch0 s0. destruct (c2i ch0); [|by apply Hret].
  do 4 (apply safe_bind; [by apply read_stream_total|]; intros ??).
  destruct (c2i _); [|apply Hexc]. cbn zeta. destruct (_ =? _).
  { apply Hret. rewrite length_app. simpl. lia. }
  destruct (c2i _); [|apply Hexc]. cbn zeta. destruct (_ =? _).
  { apply Hret. rewrite !length_app. simpl. lia. }
  destruct (c2i _); [|apply Hexc]. apply IH; rewrite !length_app; simpl; lia.
Qed.
End Safety.

(** ** Properties *)

(** [write_base64] emits an encoding whose length is its return value, on any output stream;
    [read_base64] on any input stream that delivers this encoding and then a character outside of
    the alphabet decodes it: as many whole groups as fit into its buffer are returned, and the
    stream is left at the encoding of the remaining bytes. *)
Theorem base64_roundtrip `{OutputStreamLaws OS, InputStreamLaws IS} bs (o : OS) l :
  bytes bs -> emits o l ->
  exists o' enc, runs (write_base64 bs) o (Z.of_nat (length enc)) o' /\ emits o' (l ++ enc) /\
    forall (s : IS) size q rest, 3 <= size -> c2i q = None -> yields s (enc ++ q :: rest) ->
    let k := decoded (length bs) size in
    exists s', runs (read_base64 size) s (take k bs) s' /\
      (length bs <= k -> yields s' (q :: rest))%nat /\
      yields s' (base64 (drop k bs) ++ q :: rest).
Proof.
  intros Hb He. destruct (writes_base64 bs o l Hb He) as (o' & Hr & He').
  exists o', (base64 bs). rewrite base64_length. split; [done|]. split; [done|].
  intros s size q rest Hs Hq Hy k.
  destruct (read_base64_loop_spec bs Hb (S (Z.to_nat size)) size [] s q rest)
    as (s' & R & Hy'); simpl; try lia; try done.
  rewrite Z.sub_0_r in *. exists s'. split; [|split; [|done]].
  - unfold read_base64. eapply runs_bind; [|exact R]. apply runs_cassert.
    rewrite Z.geb_leb. by apply Z.leb_le.
  - intros Hk. by rewrite drop_ge in Hy' by done.
Qed.

Lemma base64_roundtrip_witness :
  exists o' enc, runs (write_base64 [77; 97; 110; 255]) create_byte_array_output_stream
      (Z.of_nat (length enc)) o' /\ emits o' ([] ++ enc) /\
    forall (s : ByteArrayInputStream) size q rest,
      3 <= size -> c2i q = None -> yields s (enc ++ q :: rest) ->
    let k := decoded (length [77; 97; 110; 255]) size in
    exists s', runs (read_base64 size) s (take k [77; 97; 110; 255]) s' /\
      (length [77%Z; 97%Z; 110%Z; 255%Z] <= k -> yields s' (q :: rest))%nat /\
      yields s' (base64 (drop k [77; 97; 110; 255]) ++ q :: rest).
Proof.
  apply (base64_roundtrip [77; 97; 110; 255] create_byte_array_output_stream []).
  - repeat (apply Forall_cons; split; [unfold is_byte; lia|]). by apply Forall_nil.
  - apply create_byte_array_emits.
Defined.

(** C35: on any input, well-formed or not, [read_base64] terminates and never stores more bytes
    than its buffer holds. *)
Theorem read_base64_in_bounds `{InputStream IS} (s : IS) size :
  total_stream (IS := IS) -> 3 <= size ->
  fst (read_base64 size s) <> NoFuel /\
  forall a, fst (read_base64 size s) = Val a -> Z.of_nat (length a) <= size.
Proof.
  intros Ht Hs. unfold read_base64, bind, cassert.
  rewrite Z.geb_leb, (proj2 (Z.leb_le 3 size)) by done. cbn [ret].
  apply (read_base64_loop_safe (S (Z.to_nat size)) size [] s Ht); simpl; lia.
Qed.

Lemma read_base64_in_bounds_witness :
  let s := create_byte_array_input_stream (str "TWFu/w==") in
  fst (read_base64 3 s) <> NoFuel /\
  forall a, fst (read_base64 3 s) = Val a -> Z.of_nat (length a) <= 3.
Proof.
  intros s. apply (read_base64_in_bounds s 3); [|lia].
  intros [[|x r]]; split; simpl; discriminate.
Defined.

(** a group of four that starts with a character of the alphabet but has another one outside
    of it, where padding is not allowed either, raises [ERR_BASE64]. *)
Theorem read_base64_rejects `{InputStreamLaws IS} (s : IS) size c0 c1 c2 c3 rest n0 :
  3 <= size -> yields s (c0 :: c1 :: c2 :: c3 :: rest) -> c2i c0 = Some n0 ->
  c2i c1 = None \/
  (c2 <> ch_eq /\ (c2i c2 = None \/ (c3 <> ch_eq /\ c2i c3 = None))) ->
  throws (read_base64 size) s ERR_BASE64.
Proof.
  intros Hs Hy Hc0 Hbad. unfold read_base64. apply (bind_throw_k _ _ _ tt s).
  { apply runs_cassert. rewrite Z.geb_leb. by apply Z.leb_le. }
  cbn [read_base64_loop length]. rewrite (proj2 (Z.leb_le _ _)) by (simpl; lia). cbn [negb].
  destruct (read_quad _ _ _ _ _ _ Hy) as (s1 & s2 & s3 & s4 & s5 & R1 & R2 & R3 & R4 & R5 & _).
  eapply bind_throw_k; [exact R1|]. rewrite Hc0. do 4 (eapply bind_throw_k; [eassumption|]).
  destruct (c2i c1) as [n1|]; [|done]. destruct Hbad as [?|(Hp2 & Hbad)]; [done|].
  rewrite (proj2 (Z.eqb_neq c2 ch_eq)) by done.
  destruct (c2i c2) as [n2|]; [|done]. destruct Hbad as [?|(Hp3 & Hbad)]; [done|].
  rewrite (proj2 (Z.eqb_neq c3 ch_eq)) by done. by rewrite Hbad.
Qed.

Lemma read_base64_rejects_witness :
  throws (read_base64 3) (create_byte_array_input_stream (str "TW*u")) ERR_BASE64.
Proof.
  apply (read_base64_rejects (create_byte_array_input_stream (str "TW*u")) 3
    84 87 42 117 [] 19); [lia|exists 0%nat; by exists []|reflexivity|].
  right. split; [lia|]. left. reflexivity.
Defined.
