(* ===== verification/JsonWrite.v ===== *)
(** * JSON writers (framework/json.c, first half)

    Numbers, booleans, characters, strings and binary data, written to any output stream.  Each
    writer has a lemma of the form [writes (writer x) (text x)], where [text] is the JSON text or
    TCF extension it stands for; JsonRead.v proves that the readers invert these texts. *)

From S2P Require Import Prelude Streams Base64.

Definition ENCODING_BINARY : Z := 0.
Definition ENCODING_BASE64 : Z := 1.

(** The table [char_escaping]: control characters, the double quote, the backslash and DEL. *)
Definition char_escaping_table : list bool :=
  Eval cbv in
    map (fun n => (n <? 32)%nat || (n =? 34)%nat || (n =? 92)%nat || (n =? 127)%nat) (seq 0 256).

Definition char_escaping (ch : Z) : bool := nth (Z.to_nat ch) char_escaping_table false.

(** ** Numbers and booleans *)

(** The recursion on [n / 10]; twenty digits hold every 64-bit number. *)
Fixpoint json_write_ulong_rec `{OutputStream OS} (fuel : nat) (n : Z) : M OS unit :=
  match fuel with
  | O => nofuel
  | S fuel' =>
      if n >=? 10 then
        json_write_ulong_rec fuel' (n / 10) ;!
        write_stream (n mod 10 + ch_0)
      else write_stream (n + ch_0)
  end.

Definition ULONG_DIGITS : nat := 20.

Definition json_write_ulong `{OutputStream OS} (n : Z) : M OS unit :=
  json_write_ulong_rec ULONG_DIGITS n.

Definition json_write_long `{OutputStream OS} (n : Z) : M OS unit :=
  if n <? 0 then
    write_stream ch_minus ;!
    json_write_ulong (uwrap 64 (swrap 64 (- n)))
  else json_write_ulong (uwrap 64 n).

Definition json_write_uint64 `{OutputStream OS} (n : Z) : M OS unit :=
  json_write_ulong_rec ULONG_DIGITS n.

Definition json_write_int64 `{OutputStream OS} (n : Z) : M OS unit :=
  if n <? 0 then
    write_stream ch_minus ;!
    json_write_uint64 (uwrap 64 (swrap 64 (- n)))
  else json_write_uint64 (uwrap 64 n).

Definition json_write_boolean `{OutputStream OS} (b : bool) : M OS unit :=
  if b then write_string (str "true") else write_string (str "false").

(** ** Characters and strings *)

Definition hex_digit (n : Z) : Z :=
  let n := Z.land n 0xf in
  if n <? 10 then ch_0 + n else ch_A + (n - 10).

(** [write_escape_seq]: [n] is [ch & 0xff]. *)
Definition write_escape_seq `{OutputStream OS} (n : Z) : M OS unit :=
  if (n =? ch_quote) || (n =? ch_bslash) then
    write_stream ch_bslash ;! write_stream n
  else if n =? ch_bs then write_stream ch_bslash ;! write_stream ch_b
  else if n =? ch_ff then write_stream ch_bslash ;! write_stream ch_f
  else if n =? ch_lf then write_stream ch_bslash ;! write_stream ch_n
  else if n =? ch_cr then write_stream ch_bslash ;! write_stream ch_r
  else if n =? ch_tab then write_stream ch_bslash ;! write_stream ch_t
  else
    write_stream ch_bslash ;! write_stream ch_u ;! write_stream ch_0 ;! write_stream ch_0 ;!
    write_stream (hex_digit (Z.shiftr n 4)) ;! write_stream (hex_digit n).

(** [json_write_char]: [ch] is the byte; as a [char] argument of [write_stream] it is sign
    extended. *)
Definition json_write_char `{OutputStream OS} (ch : Z) : M OS unit :=
  if char_escaping ch then write_escape_seq ch
  else write_stream (swrap 8 ch).

(** The longest prefix without characters to escape, and what follows it. *)
Fixpoint span_plain (s : list Z) : list Z * list Z :=
  match s with
  | [] => ([], [])
  | ch :: s' =>
      if char_escaping ch then ([], s)
      else let '(p, r) := span_plain s' in (ch :: p, r)
  end.

(** A run of plain characters goes into the window when it fits, else through [write_block];
    [unsigned len] is 32 bits wide. *)
Definition write_plain `{OutputStream OS} (p : list Z) : M OS unit :=
  fun out =>
    let len := Z.to_nat (uwrap 32 (Z.of_nat (length p))) in
    if (len <=? os_room out)%nat
    then (Val tt, os_store (take len p) out)
    else os_write_block (take len p) out.

(** The loop of [json_write_string_len]; every round but the last consumes a character. *)
Fixpoint json_write_string_loop `{OutputStream OS} (fuel : nat) (s : list Z) : M OS unit :=
  match fuel with
  | O => nofuel
  | S fuel' =>
      match s with
      | [] => ret tt
      | _ =>
          let '(p, r) := span_plain s in
          (if (0 <? length p)%nat then write_plain p else ret tt) ;!
          match r with
          | [] => ret tt
          | ch :: r' => write_escape_seq ch ;! json_write_string_loop fuel' r'
          end
      end
  end.

(** The loop of [json_write_string], which stops at the first zero: it is marked in [char_escaping]. *)
Fixpoint json_write_cstr_loop `{OutputStream OS} (fuel : nat) (s : list Z) : M OS unit :=
  match fuel with
  | O => nofuel
  | S fuel' =>
      let '(p, r) := span_plain s in
      (if (0 <? length p)%nat then write_plain p else ret tt) ;!
      if deref r =? 0 then ret tt
      else write_escape_seq (deref r) ;! json_write_cstr_loop fuel' (tl r)
  end.

(** [json_write_string]: [None] is a null pointer, [s] the characters of the array; a zero ends the string, and one follows the array. *)
Definition json_write_string `{OutputStream OS} (str0 : option (list Z)) : M OS unit :=
  match str0 with
  | None => write_string (str "null")
  | Some s =>
      write_stream ch_quote ;!
      json_write_cstr_loop (S (length s)) s ;!
      write_stream ch_quote
  end.

(** [json_write_string_len]: the characters may include zeros. *)
Definition json_write_string_len `{OutputStream OS} (str0 : option (list Z)) : M OS unit :=
  match str0 with
  | None => write_string (str "null")
  | Some s =>
      write_stream ch_quote ;!
      json_write_string_loop (S (length s)) s ;!
      write_stream ch_quote
  end.

(** ** Binary data *)

(** [struct JsonWriteBinaryState] without the stream: [wb_buf] is [buf[0 .. rem)]. *)
Record JsonWriteBinaryState := mkWB {
  wb_encoding : Z;
  wb_buf : list Z;
  wb_size_start : Z;
  wb_size_done : Z }.

Definition json_write_binary_start `{OutputStream OS} (size : Z) : M OS JsonWriteBinaryState :=
  let! zc := gets supports_zero_copy in
  let enc := if zc && (size >? 0) then ENCODING_BINARY else ENCODING_BASE64 in
  (if enc =? ENCODING_BINARY then
     write_stream ch_lpar ;! json_write_ulong size ;! write_stream ch_rpar
   else write_stream ch_quote) ;!
  ret (mkWB enc [] size 0).

Definition json_write_binary_data `{OutputStream OS} (st : JsonWriteBinaryState) (data : list Z) :
    M OS JsonWriteBinaryState :=
  if (length data =? 0)%nat then ret st
  else if wb_encoding st =? ENCODING_BINARY then
    write_block_stream data ;!
    ret (mkWB (wb_encoding st) (wb_buf st) (wb_size_start st)
           (wb_size_done st + Z.of_nat (length data)))
  else
    (* Bytes that complete the pending group. *)
    let fill := if (0 <? length (wb_buf st))%nat
                then Nat.min (3 - length (wb_buf st)) (length data) else 0%nat in
    let buf := wb_buf st ++ take fill data in
    let data := drop fill data in
    let! buf :=
      (if (0 <? length (wb_buf st))%nat && (3 <=? length buf)%nat
       then write_base64 buf ;! ret [] else ret buf) in
    if (0 <? length data)%nat then
      cassert (length buf =? 0)%nat ;!
      let rem := (length data mod 3)%nat in
      let len := (length data - rem)%nat in
      write_base64 (take len data) ;!
      ret (mkWB (wb_encoding st) (drop len data) (wb_size_start st) (wb_size_done st + Z.of_nat len))
    else
      ret (mkWB (wb_encoding st) buf (wb_size_start st) (wb_size_done st)).

Definition json_write_binary_end `{OutputStream OS} (st : JsonWriteBinaryState) : M OS unit :=
  if wb_encoding st =? ENCODING_BINARY then
    cassert (wb_size_start st =? wb_size_done st)
  else
    (if (0 <? length (wb_buf st))%nat then write_base64 (wb_buf st) ;! ret tt else ret tt) ;!
    write_stream ch_quote.

Definition json_write_binary `{OutputStream OS} (data : option (list Z)) : M OS unit :=
  match data with
  | None => write_string (str "null")
  | Some data =>
      let! st := json_write_binary_start (Z.of_nat (length data)) in
      let! st := json_write_binary_data st data in
      json_write_binary_end st
  end.

(** [write_error_object] is an argument: ErrorObjects.v has it, on streams with the state of errors.c. *)
Definition write_errno `{OutputStream OS} (write_error_object : Z -> M OS unit) (err : Z) : M OS unit :=
  (if negb (err =? 0) then write_error_object err else ret tt) ;!
  write_stream 0.

(** ** The texts *)

(** Decimal digits, most significant first. *)
Fixpoint decimal (fuel : nat) (n : Z) : list Z :=
  match fuel with
  | O => []
  | S fuel' => if n <? 10 then [n + ch_0] else decimal fuel' (n / 10) ++ [n mod 10 + ch_0]
  end.

Definition ulong_text (n : Z) : list Z := decimal ULONG_DIGITS n.

Definition long_text (n : Z) : list Z :=
  if n <? 0 then ch_minus :: ulong_text (- n) else ulong_text n.

Definition boolean_text (b : bool) : list Z := if b then str "true" else str "false".

(** The escape sequence of a byte. *)
Definition escape_seq (n : Z) : list Z :=
  if (n =? ch_quote) || (n =? ch_bslash) then [ch_bslash; n]
  else if n =? ch_bs then [ch_bslash; ch_b]
  else if n =? ch_ff then [ch_bslash; ch_f]
  else if n =? ch_lf then [ch_bslash; ch_n]
  else if n =? ch_cr then [ch_bslash; ch_r]
  else if n =? ch_tab then [ch_bslash; ch_t]
  else [ch_bslash; ch_u; ch_0; ch_0; hex_digit (Z.shiftr n 4); hex_digit n].

Definition char_text (ch : Z) : list Z := if char_escaping ch then escape_seq ch else [ch].

Fixpoint chars_text (s : list Z) : list Z :=
  match s with
  | [] => []
  | ch :: s' => char_text ch ++ chars_text s'
  end.

Definition string_text (s : option (list Z)) : list Z :=
  match s with
  | None => str "null"
  | Some s => ch_quote :: chars_text s ++ [ch_quote]
  end.

(** Text of binary data: counted raw bytes on a stream with zero copy, else a BASE64 string. *)
Definition binary_text (zc : bool) (data : option (list Z)) : list Z :=
  match data with
  | None => str "null"
  | Some data =>
      if zc && (Z.of_nat (length data) >? 0)
      then ch_lpar :: ulong_text (Z.of_nat (length data)) ++ ch_rpar :: data
      else ch_quote :: base64 data ++ [ch_quote]
  end.

(** ** Writing the texts *)

Section Write.
Context {OS : Type} {os_ops : OutputStream OS} {os_laws : OutputStreamLaws OS}.

Lemma writes_byte b : is_byte b -> writes (write_stream b) [b].
Proof. intros. by apply writes_stream, os_sym_byte. Qed.

(** [write_stream] followed by a writer whose text is known. *)
Lemma writes_cons b (k : M OS unit) l :
  is_byte b -> writes k l -> writes (write_stream b ;! k) (b :: l).
Proof. intros. apply (writes_bind _ _ [b] l); [by apply writes_byte|done]. Qed.

Lemma writes_no_error werr : writes (write_errno werr 0) [0].
Proof. apply (writes_bind _ _ [] [0]); [apply writes_ret|apply writes_byte; unfold is_byte; lia]. Qed.

Lemma writes_ulong_rec fuel n : 0 <= n < 10 ^ Z.of_nat fuel -> (0 < fuel)%nat ->
  writes (json_write_ulong_rec fuel n) (decimal fuel n).
Proof.
  revert n. induction fuel as [|fuel IH]; intros n Hn Hf; [lia|].
  cbn [json_write_ulong_rec decimal]. rewrite Z.geb_leb.
  destruct (Z.leb_spec 10 n); [rewrite (proj2 (Z.ltb_ge n 10)) by lia|rewrite (proj2 (Z.ltb_lt n 10)) by lia].
  - apply writes_bind; [|apply writes_byte; unfold is_byte; divlia]. apply IH.
    + rewrite Nat2Z.inj_succ, Z.pow_succ_r in Hn by lia. divlia.
    + destruct fuel; [|lia]. simpl in Hn. lia.
  - apply writes_byte. unfold is_byte. lia.
Qed.

Lemma ulong_pow n : 0 <= n < 2 ^ 64 -> 0 <= n < 10 ^ Z.of_nat ULONG_DIGITS.
Proof. intros Hn. split; [lia|]. eapply Z.lt_trans; [apply Hn|]. by vm_compute. Qed.

Lemma writes_ulong n : 0 <= n < 2 ^ 64 -> writes (json_write_ulong n) (ulong_text n).
Proof. intros. apply writes_ulong_rec; [by apply ulong_pow|unfold ULONG_DIGITS; lia]. Qed.

(** The smallest number is its own negation; the conversion to unsigned gives its absolute value. *)
Lemma neg_unsigned n : - 2 ^ 63 <= n < 0 -> uwrap 64 (swrap 64 (- n)) = - n.
Proof. intros. rewrite uwrap_swrap by lia. apply uwrap_small. lia. Qed.

Lemma writes_long n : - 2 ^ 63 <= n < 2 ^ 63 -> writes (json_write_long n) (long_text n).
Proof.
  intros Hn. unfold json_write_long, long_text. destruct (Z.ltb_spec n 0).
  - rewrite neg_unsigned by lia. apply writes_cons; [unfold is_byte; lia|]. apply writes_ulong; lia.
  - rewrite uwrap_small by lia. apply writes_ulong; lia.
Qed.

Lemma writes_boolean b : writes (json_write_boolean b) (boolean_text b).
Proof. destruct b; apply writes_string, str_bytes. Qed.

Lemma hex_digit_byte n : is_byte (hex_digit n).
Proof.
  unfold hex_digit. change 0xf with (Z.ones 4). rewrite Z.land_ones by lia. unfold is_byte.
  destruct (Z.ltb_spec (n mod 2 ^ 4) 10); divlia.
Qed.

Lemma writes_escape_seq n : is_byte n -> writes (write_escape_seq n) (escape_seq n).
Proof.
  intros Hn. unfold write_escape_seq, escape_seq.
  repeat (destruct_if; [repeat apply writes_cons; try apply writes_byte; try done; unfold is_byte; lia|]).
  repeat apply writes_cons; try apply writes_byte; try apply hex_digit_byte; unfold is_byte; lia.
Qed.

Lemma chars_text_app s1 s2 : chars_text (s1 ++ s2) = chars_text s1 ++ chars_text s2.
Proof. induction s1; simpl; [done|]. by rewrite IHs1, (assoc_L (++)). Qed.

(** What [span_plain] returns. *)
Lemma span_plain_spec s p r : span_plain s = (p, r) ->
  s = p ++ r /\ chars_text p = p /\ Forall (fun b => char_escaping b = false) p /\
  match r with [] => True | ch :: _ => char_escaping ch = true end.
Proof.
  revert p r. induction s as [|ch s IH]; intros p r Hs; simpl in Hs; [by simplify_eq|].
  destruct (char_escaping ch) eqn:E; [simplify_eq; by repeat split|].
  destruct (span_plain s) as [p' r'] eqn:E'. simplify_eq.
  destruct (IH p' r eq_refl) as (-> & Hp & Hf & Hr). repeat split; auto.
  simpl. unfold char_text. by rewrite E, Hp.
Qed.

Lemma escaping_ESC b : is_byte b -> char_escaping b = false -> b <> ESC.
Proof. intros _ Hc ->. by vm_compute in Hc. Qed.

Lemma writes_plain p :
  bytes p -> Forall (fun b => char_escaping b = false) p -> Z.of_nat (length p) < 2 ^ 32 ->
  writes (write_plain p) p.
Proof.
  intros Hb Hp Hl o l He. unfold runs, write_plain.
  rewrite uwrap_small, Nat2Z.id, take_ge by lia.
  destruct (Nat.leb_spec (length p) (os_room o)); [|by apply emits_write_block].
  eexists; split; [done|]. apply emits_store; auto.
  rewrite Forall_forall in *. intros x Hx. by apply escaping_ESC; auto.
Qed.

Lemma writes_string_loop fuel s : (length s < fuel)%nat -> bytes s -> Z.of_nat (length s) < 2 ^ 32 ->
  writes (json_write_string_loop fuel s) (chars_text s).
Proof.
  revert s. induction fuel as [|fuel IH]; intros s Hf Hb Hl; [lia|].
  cbn [json_write_string_loop]. destruct s as [|c s0] eqn:Es; [apply writes_ret|]. rewrite <- Es in *.
  destruct (span_plain s) as [p r] eqn:E. apply span_plain_spec in E as (Hs & Hp & Hfp & Hr).
  rewrite Hs in Hb |- *. apply Forall_app in Hb as [Hbp Hbr]. rewrite chars_text_app, Hp.
  rewrite Hs, length_app in Hf, Hl. apply writes_bind.
  - destruct (Nat.ltb_spec 0 (length p)); [apply writes_plain; auto; lia|].
    destruct p; [apply writes_ret|simpl in *; lia].
  - destruct r as [|ch r]; [apply writes_ret|]. apply Forall_cons in Hbr as [Hch Hbr].
    cbn [chars_text]. unfold char_text. rewrite Hr. simpl in *.
    apply writes_bind; [by apply writes_escape_seq|]. apply IH; auto; lia.
Qed.

Lemma cstr_plain p r : Forall (fun b => char_escaping b = false) p -> cstr (p ++ r) = p ++ cstr r.
Proof.
  induction 1 as [|ch p Hch Hp IH]; [done|]. cbn [app cstr]. destruct (Z.eqb_spec ch 0) as [->|]; [by vm_compute in Hch|]. by rewrite IH.
Qed.

Lemma writes_cstr_loop fuel s : (length s < fuel)%nat -> bytes s -> Z.of_nat (length s) < 2 ^ 32 ->
  writes (json_write_cstr_loop fuel s) (chars_text (cstr s)).
Proof.
  revert s. induction fuel as [|fuel IH]; intros s Hf Hb Hl; [lia|]. cbn [json_write_cstr_loop].
  destruct (span_plain s) as [p r] eqn:E. apply span_plain_spec in E as (Hs & Hp & Hfp & Hr).
  rewrite Hs in Hb |- *. apply Forall_app in Hb as [Hbp Hbr]. rewrite cstr_plain, chars_text_app, Hp by done.
  rewrite Hs, length_app in Hf, Hl. apply writes_bind.
  - destruct (Nat.ltb_spec 0 (length p)); [apply writes_plain; auto; lia|].
    destruct p; [apply writes_ret|simpl in *; lia].
  - destruct r as [|ch r]; [apply writes_ret|]. cbn [deref hd tl cstr]. destruct (ch =? 0); [apply writes_ret|].
    apply Forall_cons in Hbr as [Hch Hbr]. cbn [chars_text]. unfold char_text. rewrite Hr. simpl in *.
    apply writes_bind; [by apply writes_escape_seq|]. apply IH; auto; lia.
Qed.

Lemma writes_json_cstr s : match s with None => True | Some s => bytes s /\ Z.of_nat (length s) < 2 ^ 32 end ->
  writes (json_write_string s) (string_text (option_map cstr s)).
Proof.
  destruct s as [s|]; [|intros _; apply writes_string, str_bytes]. intros [Hb Hl].
  apply writes_cons; [unfold is_byte; lia|].
  apply writes_bind; [apply writes_cstr_loop; auto; lia|apply writes_byte; unfold is_byte; lia].
Qed.

Lemma writes_json_string_len s : match s with None => True | Some s => bytes s /\ Z.of_nat (length s) < 2 ^ 32 end ->
  writes (json_write_string_len s) (string_text s).
Proof.
  destruct s as [s|]; [|intros _; apply writes_string, str_bytes]. intros [Hb Hl].
  apply writes_cons; [unfold is_byte; lia|].
  apply writes_bind; [apply writes_string_loop; auto; lia|apply writes_byte; unfold is_byte; lia].
Qed.

(** A C string that [json_write_string] can write. *)
Definition writable (s : list Z) : Prop := bytes s /\ Forall (fun ch => ch <> 0) s /\ Z.of_nat (length s) < 2 ^ 32.

Lemma writes_json_string s : match s with None => True | Some s => writable s end -> writes (json_write_string s) (string_text s).
Proof.
  intros Hs. assert (E : s = option_map cstr s) by (destruct s as [s|]; [cbn; destruct Hs as (_ & Hz & _); by rewrite cstr_id|done]).
  rewrite E at 2. apply writes_json_cstr. destruct s as [s|]; [|done]. by destruct Hs as (? & _ & ?).
Qed.

(** A text of the program. *)
Lemma str_writable t : forallb (fun ch => negb (ch =? 0)) (str t) = true -> Z.of_nat (length (str t)) < 2 ^ 32 -> writable (str t).
Proof.
  intros Hz Hl. split; [apply str_bytes|]. split; [|done]. apply Forall_forall. intros ch Hch. rewrite forallb_forall in Hz.
  apply list_elem_of_In, Hz in Hch. by apply negb_true_iff, Z.eqb_neq in Hch.
Qed.

(** The encoding is compositional on whole groups. *)
Lemma base64_app b1 b2 : (length b1 mod 3 = 0)%nat -> base64 (b1 ++ b2) = base64 b1 ++ base64 b2.
Proof.
  induction b1 as [|a|a b|a b c b1 IH] using group_ind; intros Hm; try done.
  cbn [base64 app]. rewrite IH; [done|].
  change (length (a :: b :: c :: b1)) with (1 * 3 + length b1)%nat in Hm.
  rewrite Nat.add_comm, Nat.Div0.mod_add in Hm. done.
Qed.

(** A BASE64 writer between two calls: less than a group is pending. *)
Definition wb_base64 (st : JsonWriteBinaryState) : Prop :=
  wb_encoding st = ENCODING_BASE64 /\ (length (wb_buf st) < 3)%nat /\ bytes (wb_buf st).

Lemma mod3_sub n : ((n - n mod 3) mod 3 = 0)%nat.
Proof.
  pose proof (Nat.div_mod_eq n 3). replace (n - n mod 3)%nat with (0 + n / 3 * 3)%nat by lia.
  by rewrite Nat.Div0.mod_add.
Qed.

Lemma runs_write_base64 bs (o : OS) l : bytes bs -> emits o l ->
  exists n o', runs (write_base64 bs) o n o' /\ emits o' (l ++ base64 bs).
Proof. intros Hb He. destruct (writes_base64 bs o l Hb He) as (o' & ? & ?). eauto. Qed.

(** The tail of [json_write_binary_data], with no group pending. *)
Lemma write_whole_groups enc ss sd data (o : OS) l :
  bytes data -> emits o l ->
  let rem := (length data mod 3)%nat in
  let len := (length data - rem)%nat in
  exists o', runs (write_base64 (take len data) ;!
      ret (mkWB enc (drop len data) ss (sd + Z.of_nat len))) o
    (mkWB enc (drop len data) ss (sd + Z.of_nat len)) o' /\
    emits o' (l ++ base64 (take len data)) /\
    (length (take len data) mod 3 = 0)%nat /\ (length (drop len data) < 3)%nat /\
    bytes (drop len data).
Proof.
  intros Hb He rem len.
  destruct (runs_write_base64 (take len data) o l) as (n & o' & R & He'); [by apply Forall_take|done|].
  pose proof (Nat.mod_upper_bound (length data) 3).
  assert (rem <= length data)%nat by (apply Nat.Div0.mod_le).
  exists o'. split; [by eapply runs_bind; [exact R|]|]. split; [done|].
  rewrite length_take, length_drop, Nat.min_l by lia.
  split; [apply mod3_sub|]. split; [subst len rem; lia|by apply Forall_drop].
Qed.

Lemma binary_data_base64 st data (o : OS) l :
  wb_base64 st -> bytes data -> emits o l ->
  exists st' o' d, runs (json_write_binary_data st data) o st' o' /\ emits o' (l ++ base64 d) /\
    wb_buf st ++ data = d ++ wb_buf st' /\ (length d mod 3 = 0)%nat /\ wb_base64 st'.
Proof.
  intros (Henc & Hlen & Hbuf) Hb He. unfold json_write_binary_data.
  destruct (Nat.eqb_spec (length data) 0) as [H0|H0].
  { apply nil_length_inv in H0 as ->. exists st, o, []. simpl. rewrite !app_nil_r. by repeat split. }
  rewrite Henc. cbn [Z.eqb ENCODING_BASE64 ENCODING_BINARY].
  destruct (Nat.ltb_spec 0 (length (wb_buf st))) as [Hp|Hp]; cbn [andb]; cycle 1.
  - (* Nothing pending. *)
    destruct (wb_buf st) as [|] eqn:Eb; [|simpl in *; lia].
    cbn [take drop app]. rewrite drop_0, take_0. cbn [app].
    destruct (write_whole_groups ENCODING_BASE64 (wb_size_start st) (wb_size_done st) data o l Hb He)
      as (o' & R & He' & Hm & Hd & Hbd).
    eexists _, o', (take _ data).
    split; [eapply runs_bind; [apply runs_ret|]; rewrite (proj2 (Nat.ltb_lt _ _)) by lia;
            eapply runs_bind; [by apply runs_cassert|exact R]|].
    split; [done|]. simpl. by rewrite take_drop.
  - set (fill := Nat.min (3 - length (wb_buf st)) (length data)).
    assert (Hfl : length (take fill data) = fill) by (rewrite length_take; lia).
    rewrite length_app, Hfl.
    assert (Hbf : bytes (wb_buf st ++ take fill data)) by (apply Forall_app; auto using Forall_take).
    destruct (Nat.leb_spec 3 (length (wb_buf st) + fill)) as [H3|H3].
    + (* The pending group is completed. *)
      destruct (runs_write_base64 _ o l Hbf He) as (n & o1 & R1 & He1).
      assert (Hm1 : (length (wb_buf st ++ take fill data) mod 3 = 0)%nat).
      { rewrite length_app, Hfl. by replace (length (wb_buf st) + fill)%nat with 3%nat by lia. }
      destruct (write_whole_groups ENCODING_BASE64 (wb_size_start st) (wb_size_done st)
        (drop fill data) o1 _ (Forall_drop _ fill _ Hb) He1) as (o2 & R2 & He2 & Hm2 & Hd2 & Hb2).
      destruct (Nat.ltb_spec 0 (length (drop fill data))) as [Hr|Hr].
      * eexists _, o2, ((wb_buf st ++ take fill data) ++ take _ (drop fill data)).
        split; [|split; [rewrite base64_app by done; rewrite (assoc_L (++)); exact He2|]].
        { eapply runs_bind; [eapply runs_bind; [exact R1|apply runs_ret]|].
          eapply runs_bind; [by apply runs_cassert|exact R2]. }
        split; [simpl; by rewrite <- !(assoc_L (++)), !take_drop|].
        split; [by rewrite length_app, Nat.Div0.add_mod, Hm1, Hm2|done].
      * eexists _, o1, (wb_buf st ++ take fill data).
        split; [|split; [exact He1|]].
        { eapply runs_bind; [eapply runs_bind; [exact R1|apply runs_ret]|].
          apply runs_ret. }
        simpl. rewrite app_nil_r, take_ge by (rewrite length_drop in Hr; lia).
        rewrite take_ge in Hm1 by (rewrite length_drop in Hr; lia).
        split; [done|]. split; [done|]. repeat split; simpl; [lia|constructor].
    + (* Still less than a group. *)
      assert (fill = length data) as Hfill by lia. clearbody fill. subst fill.
      rewrite take_ge, drop_ge in * by lia.
      eexists _, o, []. split; [eapply runs_bind; [apply runs_ret|]; apply runs_ret|].
      simpl. rewrite app_nil_r. split; [done|]. split; [done|]. split; [done|].
      repeat split; simpl; [rewrite length_app; lia|done].
Qed.

(** A client that delivers its data in several pieces. *)
Fixpoint write_binary_chunks (st : JsonWriteBinaryState) (chunks : list (list Z)) :
    M OS JsonWriteBinaryState :=
  match chunks with
  | [] => ret st
  | c :: chunks' => let! st := json_write_binary_data st c in write_binary_chunks st chunks'
  end.

Lemma chunks_base64 chunks : Forall (fun c => bytes c) chunks -> forall st (o : OS) l,
  wb_base64 st -> emits o l ->
  exists st' o' d, runs (write_binary_chunks st chunks) o st' o' /\ emits o' (l ++ base64 d) /\
    wb_buf st ++ concat chunks = d ++ wb_buf st' /\ (length d mod 3 = 0)%nat /\ wb_base64 st'.
Proof.
  induction 1 as [|c chunks Hc Hcs IH]; intros st o l Hst He;
    cbn [write_binary_chunks concat].
  { exists st, o, []. simpl. rewrite !app_nil_r. by repeat split; try apply Hst. }
  destruct (binary_data_base64 st c o l Hst Hc He) as (st1 & o1 & d1 & R1 & He1 & Heq1 & Hm1 & Hst1).
  destruct (IH st1 o1 _ Hst1 He1) as (st2 & o2 & d2 & R2 & He2 & Heq2 & Hm2 & Hst2).
  exists st2, o2, (d1 ++ d2). split; [by eapply runs_bind|].
  split; [by rewrite base64_app, (assoc_L (++)) by done|].
  split; [by rewrite (assoc_L (++)), Heq1, <- !(assoc_L (++)), Heq2|].
  split; [by rewrite length_app, Nat.Div0.add_mod, Hm1, Hm2|done].
Qed.

Lemma chunks_raw chunks : Forall (fun c => bytes c) chunks -> forall st (o : OS) l,
  wb_encoding st = ENCODING_BINARY -> emits o l ->
  exists o', runs (write_binary_chunks st chunks) o
      (mkWB ENCODING_BINARY (wb_buf st) (wb_size_start st)
         (wb_size_done st + Z.of_nat (length (concat chunks)))) o' /\
    emits o' (l ++ concat chunks).
Proof.
  induction 1 as [|c chunks Hc Hcs IH]; intros st o l Hst He; simpl.
  { exists o. rewrite app_nil_r, Z.add_0_r. split; [|done]. destruct st; simpl in *; subst. done. }
  unfold json_write_binary_data at 1. destruct (Nat.eqb_spec (length c) 0) as [H0|H0].
  { apply nil_length_inv in H0 as ->. destruct (IH st o l Hst He) as (o' & R & He').
    exists o'. split; [eapply runs_bind; [apply runs_ret|exact R]|done]. }
  rewrite Hst. cbn [Z.eqb ENCODING_BINARY].
  destruct (writes_block c Hc o l He) as (o1 & R1 & He1).
  destruct (IH (mkWB ENCODING_BINARY (wb_buf st) (wb_size_start st)
    (wb_size_done st + Z.of_nat (length c))) o1 _ eq_refl He1) as (o2 & R2 & He2).
  exists o2. rewrite length_app, Nat2Z.inj_add, Z.add_assoc, (assoc_L (++)). split; [|done].
  eapply runs_bind; [eapply runs_bind; [exact R1|apply runs_ret]|exact R2].
Qed.

Lemma binary_end_base64 st d (o : OS) l :
  wb_base64 st -> (length d mod 3 = 0)%nat -> emits o (l ++ base64 d) ->
  exists o', runs (json_write_binary_end st) o tt o' /\
    emits o' (l ++ base64 (d ++ wb_buf st) ++ [ch_quote]).
Proof.
  intros (Henc & Hlen & Hb) Hm He. unfold json_write_binary_end. rewrite Henc.
  cbn [Z.eqb ENCODING_BASE64 ENCODING_BINARY]. rewrite base64_app by done.
  assert (Hbuf : exists o1, runs (if (0 <? length (wb_buf st))%nat
      then write_base64 (wb_buf st) ;! ret tt else ret tt) o tt o1 /\
    emits o1 (l ++ base64 d ++ base64 (wb_buf st))).
  { destruct (Nat.ltb_spec 0 (length (wb_buf st))).
    - destruct (runs_write_base64 _ o _ Hb He) as (n & o1 & R1 & He1).
      exists o1. rewrite (assoc_L (++)). split; [eapply runs_bind; [exact R1|apply runs_ret]|done].
    - destruct (wb_buf st); [|simpl in *; lia]. exists o. simpl. rewrite app_nil_r. by split. }
  destruct Hbuf as (o1 & R1 & He1).
  destruct (writes_byte ch_quote ltac:(unfold is_byte; lia) o1 _ He1) as (o2 & R2 & He2).
  exists o2. split; [by eapply runs_bind|]. by rewrite <- !(assoc_L (++)) in *.
Qed.

(** The text of binary data written in pieces after [json_write_binary_start] with size [size]. *)
Definition binary_stream_text (zc : bool) (size : Z) (data : list Z) : list Z :=
  if zc && (size >? 0)
  then ch_lpar :: ulong_text size ++ ch_rpar :: data
  else ch_quote :: base64 data ++ [ch_quote].

Lemma binary_stream chunks size (o : OS) l :
  Forall (fun c => bytes c) chunks -> 0 <= size < 2 ^ 64 ->
  (size > 0 -> size = Z.of_nat (length (concat chunks))) -> emits o l ->
  exists o', runs (let! st := json_write_binary_start size in
                   let! st := write_binary_chunks st chunks in
                   json_write_binary_end st) o tt o' /\
    emits o' (l ++ binary_stream_text (supports_zero_copy o) size (concat chunks)).
Proof.
  intros Hc Hs Hsize He. unfold json_write_binary_start, binary_stream_text.
  set (zc := supports_zero_copy o && (size >? 0)).
  destruct zc eqn:Ezc; subst zc.
  - assert (writes (write_stream ch_lpar ;! json_write_ulong size ;! write_stream ch_rpar)
      (ch_lpar :: ulong_text size ++ [ch_rpar])) as Hw.
    { apply writes_cons; [unfold is_byte; lia|].
      apply writes_bind; [by apply writes_ulong|apply writes_byte; unfold is_byte; lia]. }
    destruct (Hw o l He) as (o1 & R1 & He1).
    destruct (chunks_raw chunks Hc (mkWB ENCODING_BINARY [] size 0) o1 _ eq_refl He1) as (o2 & R2 & He2).
    apply andb_true_iff in Ezc as Ezs. destruct Ezs as [Ez Hgt]. exists o2. split.
    + eapply runs_bind; [eapply runs_bind; [apply runs_gets|]|].
      * cbv beta zeta. rewrite ?Ezc. eapply runs_bind; [exact R1|apply runs_ret].
      * cbv beta zeta. rewrite ?Ezc. eapply runs_bind; [exact R2|]. apply runs_cassert. simpl.
        rewrite Z.gtb_ltb in Hgt. apply Z.ltb_lt in Hgt. rewrite <- Hsize by lia. apply Z.eqb_refl.
    + by norm_app_in He2.
  - destruct (writes_byte ch_quote ltac:(unfold is_byte; lia) o l He) as (o1 & R1 & He1).
    destruct (chunks_base64 chunks Hc (mkWB ENCODING_BASE64 [] size 0) o1 _
      ltac:(repeat split; [simpl; lia|constructor]) He1) as (st2 & o2 & d & R2 & He2 & Heq & Hm & Hst).
    destruct (binary_end_base64 st2 d o2 _ Hst Hm He2) as (o3 & R3 & He3). exists o3. split.
    + eapply runs_bind; [eapply runs_bind; [apply runs_gets|]|].
      * cbv beta zeta. rewrite ?Ezc. eapply runs_bind; [exact R1|apply runs_ret].
      * cbv beta zeta. rewrite ?Ezc. eapply runs_bind; [exact R2|exact R3].
    + simpl in Heq. rewrite Heq. by norm_app_in He3.
Qed.

Lemma json_write_binary_text data (o : OS) l :
  match data with None => True | Some d => bytes d /\ Z.of_nat (length d) < 2 ^ 64 end -> emits o l ->
  exists o', runs (json_write_binary data) o tt o' /\
    emits o' (l ++ binary_text (supports_zero_copy o) data).
Proof.
  destruct data as [d|]; intros Hd He; [|by apply writes_string; [apply str_bytes|]].
  destruct Hd as [Hb Hl].
  destruct (binary_stream [d] (Z.of_nat (length d)) o l) as (o' & R & He'); simpl; rewrite ?app_nil_r;
    auto; try lia.
  cbn [concat] in He'. rewrite app_nil_r in He'. exists o'. split; [|done]. unfold json_write_binary.
  apply runs_bind_inv in R as (st & o1 & R1 & R). apply runs_bind_inv in R as (st2 & o2 & R2 & R3).
  apply runs_bind_inv in R2 as (st3 & o3 & R2 & R4).
  destruct (runs_det _ _ _ _ _ _ R4 (runs_ret st3 o3)) as [-> ->].
  eapply runs_bind; [exact R1|]. by eapply runs_bind.
Qed.
End Write.
