(* ===== verification/JsonRead.v ===== *)
(** * JSON readers (framework/json.c, second half)

    The parser works on an input stream and on the static growing buffer [buf] of json.c; both are
    the state [Json].  [Json] is itself an input stream, so the lemmas of Streams.v apply.  Every
    loop takes its bound from [fuel]; the lemmas give the bound that suffices: more than the number
    of symbols the loop consumes. *)

From S2P Require Import Prelude Streams Base64 JsonWrite.

(** The stream, and the static variables: [js_buf] is [buf[0 .. buf_pos)], [js_size] is
    [buf_size], zero while [buf] is a null pointer. *)
Record Json (IS : Type) := mkJson { js_inp : IS; js_buf : list Z; js_size : N }.
Arguments mkJson {IS} js_inp js_buf js_size.
Arguments js_inp {IS} _.
Arguments js_buf {IS} _.
Arguments js_size {IS} _.

Definition on_inp {IS A} (m : M IS A) : M (Json IS) A :=
  zoom js_inp (fun i s => mkJson i (js_buf s) (js_size s)) m.

#[export] Instance json_stream `{InputStream IS} : InputStream (Json IS) := {
  is_window s := is_window (js_inp s);
  is_advance n s := mkJson (is_advance n (js_inp s)) (js_buf s) (js_size s);
  is_read := on_inp is_read;
  is_peek := on_inp is_peek }.

(** [isspace] in the C locale. *)
Definition isspace (ch : Z) : bool := (ch =? ch_space) || ((ch_tab <=? ch) && (ch <=? ch_cr)).

Definition is_digit (ch : Z) : bool := (ch_0 <=? ch) && (ch <=? ch_9).

Section Json.
Context {IS : Type} {is_ops : InputStream IS}.
Variable fuel : nat.

Notation J := (M (Json IS)).

(** The macro [ignore_whitespace]: [ch] is the character read last. *)
Fixpoint ignore_whitespace (n : nat) (ch : Z) : J Z :=
  match n with
  | O => nofuel
  | S n' => if (ch >? 0) && isspace ch
            then let! ch := read_stream in ignore_whitespace n' ch
            else ret ch
  end.

(** The macro [read_whitespace]. *)
Fixpoint read_whitespace (n : nat) : J unit :=
  match n with
  | O => nofuel
  | S n' => let! ch := peek_stream in
            if (ch >? 0) && isspace ch
            then read_stream ;! read_whitespace n'
            else ret tt
  end.

(** [json_peek]. *)
Fixpoint json_peek (n : nat) : J Z :=
  match n with
  | O => nofuel
  | S n' => let! ch := peek_stream in
            if (ch >? 0) && isspace ch
            then read_stream ;! json_peek n'
            else ret ch
  end.

(** The first two lines of most readers. *)
Definition read_token : J Z := let! ch := read_stream in ignore_whitespace fuel ch.

Definition check_char (ch exp : Z) : J unit :=
  if exp =? ch then ret tt else throw ERR_JSON_SYNTAX.

Definition json_test_char (x : Z) : J unit :=
  let! ch := read_stream in
  let! ch := (if negb (x =? MARKER_EOM) then ignore_whitespace fuel ch else ret ch) in
  check_char ch x.

Fixpoint json_test_chars (l : list Z) : J unit :=
  match l with
  | [] => ret tt
  | x :: l' => json_test_char x ;! json_test_chars l'
  end.

(** [buf_add]. *)
Definition buf_add (ch : Z) : J unit :=
  modify (fun s =>
    let size := if (js_size s <=? N.of_nat (length (js_buf s)))%N
                then (if js_size s =? 0 then 0x1000 else js_size s * 2)%N else js_size s in
    mkJson (js_inp s) (js_buf s ++ [uwrap 8 ch]) size).

Fixpoint buf_adds (l : list Z) : J unit :=
  match l with
  | [] => ret tt
  | ch :: l' => buf_add ch ;! buf_adds l'
  end.

(** [buf_pos = 0]. *)
Definition buf_reset : J unit := modify (fun s => mkJson (js_inp s) [] (js_size s)).

(** ** Strings *)

Definition read_hex_digit : J Z :=
  let! ch := read_stream in
  if (ch >=? ch_0) && (ch <=? ch_9) then ret (ch - ch_0)
  else if (ch >=? ch_A) && (ch <=? ch_F) then ret (ch - ch_A + 10)
  else if (ch >=? ch_a) && (ch <=? ch_f) then ret (ch - ch_a + 10)
  else throw ERR_JSON_SYNTAX.

Definition read_hex_char : J Z :=
  let! d3 := read_hex_digit in
  let! d2 := read_hex_digit in
  let! d1 := read_hex_digit in
  let! d0 := read_hex_digit in
  ret (Z.lor (Z.lor (Z.lor (Z.shiftl d3 12) (Z.shiftl d2 8)) (Z.shiftl d1 4)) d0).

(** The UTF-8 sequence [read_esc_char] stores for the character code [ch]. *)
Definition utf8_seq (ch : Z) : list Z :=
  if ch <? 0x80 then [ch]
  else if ch <? 0x800 then
    [uwrap 8 (Z.lor (Z.shiftr ch 6) 0xc0); uwrap 8 (Z.lor (Z.land ch 0x3f) 0x80)]
  else
    [uwrap 8 (Z.lor (Z.shiftr ch 12) 0xe0);
     uwrap 8 (Z.lor (Z.land (Z.shiftr ch 6) 0x3f) 0x80);
     uwrap 8 (Z.lor (Z.land ch 0x3f) 0x80)].

Definition read_esc_char : J (list Z) :=
  let! ch := read_stream in
  let! ch :=
    (if (ch =? ch_quote) || (ch =? ch_bslash) || (ch =? ch_slash) then ret ch
     else if ch =? ch_b then ret ch_bs
     else if ch =? ch_f then ret ch_ff
     else if ch =? ch_n then ret ch_lf
     else if ch =? ch_r then ret ch_cr
     else if ch =? ch_t then ret ch_tab
     else if ch =? ch_u then read_hex_char
     else throw ERR_JSON_SYNTAX) in
  ret (utf8_seq ch).

(** [if (i < size - 1) str[i] = ch; i++;] for each character: [i] is an [unsigned], [acc] the characters stored in [str]. *)
Definition str_put (size i ch : Z) (acc : list Z) : list Z :=
  if i <? size - 1 then take (Z.to_nat i) acc ++ ch :: drop (S (Z.to_nat i)) acc else acc.
Fixpoint str_puts (size i : Z) (l acc : list Z) : Z * list Z :=
  match l with
  | [] => (i, acc)
  | ch :: l' => str_puts size (uwrap 32 (i + 1)) l' (str_put size i ch acc)
  end.

(** The loop of [json_read_string], and the terminating zero. *)
Fixpoint json_read_string_loop (n : nat) (size : Z) (i : Z) (acc : list Z) : J (Z * list Z) :=
  match n with
  | O => nofuel
  | S n' =>
      let! ch := read_stream in
      if ch <? 0 then throw ERR_JSON_SYNTAX
      else if ch =? ch_quote then ret (swrap 32 i, take (Z.to_nat (if i <? size then i else size - 1)) acc)
      else
        let! l := (if ch =? ch_bslash then read_esc_char else ret [ch]) in
        let '(i, acc) := str_puts size i l acc in
        json_read_string_loop n' size i acc
  end.

(** [json_read_string]: the result and the characters stored before the terminating zero. *)
Definition json_read_string (size : Z) : J (Z * list Z) :=
  let! ch := read_token in
  if ch =? ch_n then
    json_test_chars [ch_u; ch_l; ch_l] ;!
    ret (-1, [])
  else if negb (ch =? ch_quote) then throw ERR_PROTOCOL
  else json_read_string_loop fuel size 0 [].

(** The loop of [json_read_alloc_string] and of [json_read_alloc_string_array]. *)
Fixpoint read_string_buf (n : nat) : J unit :=
  match n with
  | O => nofuel
  | S n' =>
      let! ch := read_stream in
      if ch <? 0 then throw ERR_JSON_SYNTAX
      else if ch =? ch_quote then ret tt
      else
        (if ch =? ch_bslash then let! l := read_esc_char in buf_adds l else buf_add ch) ;!
        read_string_buf n'
  end.

(** [json_read_alloc_string]: the allocated block, terminating zero included. *)
Definition json_read_alloc_string : J (option (list Z)) :=
  let! ch := read_token in
  if ch =? ch_n then
    json_test_chars [ch_u; ch_l; ch_l] ;!
    ret None
  else
    buf_reset ;!
    if negb (ch =? ch_quote) then throw ERR_PROTOCOL
    else
      read_string_buf fuel ;!
      buf_add 0 ;!
      let! b := gets js_buf in
      ret (Some b).

(** ** Booleans and integers *)

Definition json_read_boolean : J bool :=
  let! ch := read_token in
  if ch =? ch_t then json_test_chars [ch_r; ch_u; ch_e] ;! ret true
  else if ch =? ch_f then json_test_chars [ch_a; ch_l; ch_s; ch_e] ;! ret false
  else throw ERR_JSON_SYNTAX.

(** The digit loop of the integer readers; [wrap] is the conversion to the type of [res]. *)
Fixpoint read_digits (n : nat) (wrap : Z -> Z) (res : Z) : J Z :=
  match n with
  | O => nofuel
  | S n' =>
      let! ch := peek_stream in
      if (ch <? ch_0) || (ch >? ch_9) then ret res
      else read_stream ;! read_digits n' wrap (wrap (res * 10 + (ch - ch_0)))
  end.

(** The common part of the integer readers: the sign and the magnitude as computed in [wrap]. *)
Definition read_number (wrap : Z -> Z) : J (bool * Z) :=
  let! ch := read_token in
  let neg := ch =? ch_minus in
  let! ch := (if neg then read_stream else ret ch) in
  if (ch <? ch_0) || (ch >? ch_9) then throw ERR_JSON_SYNTAX
  else
    let! res := read_digits fuel wrap (ch - ch_0) in
    ret (neg, res).

Definition json_read_long : J Z :=
  let! (neg, res) := read_number (swrap 64) in
  ret (if neg : bool then swrap 64 (- res) else res).

Definition json_read_ulong : J Z :=
  let! (neg, res) := read_number (uwrap 64) in
  ret (if neg : bool then uwrap 64 (Z.lnot res + 1) else res).

Definition json_read_int64 : J Z :=
  let! (neg, res) := read_number (swrap 64) in
  ret (if neg : bool then swrap 64 (- res) else res).

Definition json_read_uint64 : J Z :=
  let! (neg, res) := read_number (uwrap 64) in
  ret (if neg : bool then uwrap 64 (Z.lnot res + 1) else res).

End Json.

(** ** Lemmas *)

#[export] Program Instance json_stream_laws `{InputStreamLaws IS} : InputStreamLaws (Json IS) := {
  yields s l := yields (js_inp s) l }.
Next Obligation.
  intros. simpl in *. unfold on_inp, zoom.
  edestruct (yields_read (js_inp s) x l) as (i & -> & ?); eauto.
Qed.
Next Obligation.
  intros. simpl in *. unfold on_inp, zoom.
  edestruct (yields_peek (js_inp s) x l) as (i & -> & ?); eauto.
Qed.
Next Obligation. intros. simpl in *. by eapply yields_window. Qed.
Next Obligation. intros. simpl in *. by apply yields_advance. Qed.
Next Obligation. intros. simpl in *. by apply window_advance. Qed.
Next Obligation. intros. simpl in *. by eapply yields_prefix. Qed.

(** The stream of a parser state delivers [l] next. *)
Notation jyields s l := (yields (js_inp s) l).

(** [m] consumes [l], returns [a], and appends [b] to the static buffer. *)
Definition jreads `{InputStreamLaws IS} {A} (P : list Z -> Prop) (m : M (Json IS) A)
    (l : list Z) (a : A) (b : list Z) : Prop :=
  forall s rest, P rest -> jyields s (l ++ rest) ->
  exists s', runs m s a s' /\ jyields s' rest /\ js_buf s' = js_buf s ++ b.

Section Lemmas.
Context {IS : Type} {is_ops : InputStream IS} {is_laws : InputStreamLaws IS}.
Implicit Types P Q : list Z -> Prop.

Lemma jreads_ret {A} P (a : A) : jreads P (ret a) [] a [].
Proof. intros s rest _ Hy. exists s. by rewrite app_nil_r. Qed.

Lemma jreads_bind {A B} P Q (m : M (Json IS) A) (k : A -> M (Json IS) B) l1 l2 a b d1 d2 :
  jreads Q m l1 a d1 -> (forall rest, P rest -> Q (l2 ++ rest)) -> jreads P (k a) l2 b d2 ->
  jreads P (bind m k) (l1 ++ l2) b (d1 ++ d2).
Proof.
  intros Hm HQ Hk s rest HP Hy. rewrite <- (assoc_L (++)) in Hy.
  destruct (Hm s (l2 ++ rest)) as (s1 & Hr1 & Hy1 & Hb1); auto.
  destruct (Hk s1 rest HP Hy1) as (s2 & Hr2 & Hy2 & Hb2).
  exists s2. split; [by eapply runs_bind|]. by rewrite Hb2, Hb1, (assoc_L (++)).
Qed.

(** Sequencing of computations whose only requirement is on the symbols they consume. *)
Lemma jreads_seq {A B} P (m : M (Json IS) A) (k : A -> M (Json IS) B) l1 l2 a b d1 d2 :
  jreads (fun _ => True) m l1 a d1 -> jreads P (k a) l2 b d2 ->
  jreads P (bind m k) (l1 ++ l2) b (d1 ++ d2).
Proof. intros Hm Hk. by eapply jreads_bind. Qed.

Lemma jreads_weaken {A} P Q (m : M (Json IS) A) l a b :
  jreads Q m l a b -> (forall rest, P rest -> Q rest) -> jreads P m l a b.
Proof. intros Hm HPQ s rest HP. apply Hm. auto. Qed.

Lemma jreads_stream P x : jreads P read_stream [x] x [].
Proof.
  intros s rest _ Hy. unfold runs, read_stream. cbn [is_window is_advance is_read json_stream].
  destruct (is_window (js_inp s)) as [|b w] eqn:Hw.
  - destruct (yields_read _ _ _ Hy Hw) as (i & Hr & Hy'). unfold on_inp, zoom. rewrite Hr.
    eexists; split; [done|]. by rewrite app_nil_r.
  - pose proof (yields_window _ _ _ _ _ Hy Hw) as <-. eexists; split; [done|]. simpl.
    rewrite app_nil_r. split; [|done]. apply (yields_advance _ 1 (x :: rest)); [done|rewrite Hw|]; simpl; lia.
Qed.

Lemma jpeek s x rest : jyields s (x :: rest) ->
  exists s', runs peek_stream s x s' /\ jyields s' (x :: rest) /\ js_buf s' = js_buf s.
Proof.
  intros Hy. unfold runs, peek_stream. cbn [is_window is_peek json_stream].
  destruct (is_window (js_inp s)) as [|b w] eqn:Hw.
  - destruct (yields_peek _ _ _ Hy Hw) as (i & Hr & Hy'). unfold on_inp, zoom. rewrite Hr. eauto.
  - pose proof (yields_window _ _ _ _ _ Hy Hw) as <-. eauto.
Qed.

(** A character at which [ignore_whitespace] stops. *)
Definition stops (c : Z) : Prop := (c >? 0) && isspace c = false.

Definition spaces (ws : list Z) : Prop := Forall (fun c => (c >? 0) && isspace c = true) ws.

Lemma jreads_ignore P n c0 ws c : stops c -> spaces (c0 :: ws) -> (S (length ws) < n)%nat ->
  jreads P (ignore_whitespace n c0) (ws ++ [c]) c [].
Proof.
  intros Hc. revert n c0. induction ws as [|c1 ws IH]; intros n c0 Hs Hn;
    (destruct n as [|n]; [simpl in *; lia|]); apply Forall_cons in Hs as [H0 Hs];
    cbn [ignore_whitespace]; rewrite H0.
  - eapply (jreads_seq P _ _ [c] [] c _ [] []); [apply jreads_stream|].
    destruct n; [simpl in *; lia|]. cbn [ignore_whitespace]. rewrite Hc. apply jreads_ret.
  - eapply (jreads_seq P _ _ [c1] (ws ++ [c]) c1 _ [] []); [apply jreads_stream|].
    apply IH; [done|simpl in *; lia].
Qed.

Lemma jreads_skip P n ws c : stops c -> spaces ws -> (length ws < n)%nat ->
  jreads P (let! ch := read_stream in ignore_whitespace n ch) (ws ++ [c]) c [].
Proof.
  intros Hc Hs Hn. destruct ws as [|c0 ws].
  - eapply (jreads_seq P _ _ [c] [] c _ [] []); [apply jreads_stream|].
    destruct n; [simpl in *; lia|]. cbn [ignore_whitespace]. rewrite Hc. apply jreads_ret.
  - eapply (jreads_seq P _ _ [c0] (ws ++ [c]) c0 _ [] []); [apply jreads_stream|].
    by apply jreads_ignore.
Qed.

Lemma jreads_token P fuel c : stops c -> (0 < fuel)%nat -> jreads P (read_token fuel) [c] c [].
Proof. intros. by apply (jreads_skip P fuel []); [| |simpl; lia]; [|constructor]. Qed.

Lemma check_char_refl c (s : Json IS) : runs (check_char c c) s tt s.
Proof. unfold check_char. by rewrite Z.eqb_refl. Qed.

Lemma jreads_test_char P fuel c : stops c -> c <> MARKER_EOM -> (0 < fuel)%nat ->
  jreads P (json_test_char fuel c) [c] tt [].
Proof.
  intros Hc Hm Hf. unfold json_test_char.
  eapply (jreads_seq P _ _ [c] [] c _ [] []); [apply jreads_stream|].
  rewrite (proj2 (Z.eqb_neq c MARKER_EOM)) by done. cbn [negb].
  eapply (jreads_seq P _ _ [] [] c _ [] []).
  - destruct fuel; [lia|]. cbn [ignore_whitespace]. rewrite Hc. apply jreads_ret.
  - unfold check_char. rewrite Z.eqb_refl. apply jreads_ret.
Qed.

(** The same for the end of a message, which is tested without looking for white space. *)
Lemma json_test_char_runs fuel c j r : stops c -> (0 < fuel)%nat -> yields (js_inp j) (c :: r) ->
  exists j', runs (json_test_char fuel c) j tt j' /\ yields (js_inp j') r.
Proof.
  intros Hc Hf Hyc. destruct (jreads_stream (fun _ => True) c j r I Hyc) as (j' & Rj & Yj & _). exists j'. split; [|exact Yj].
  eapply runs_bind; [exact Rj|]. unfold check_char. destruct fuel as [|n]; [lia|]. cbn [ignore_whitespace]. rewrite Hc.
  destruct (negb (c =? MARKER_EOM)); (eapply runs_bind; [apply runs_ret|]); by rewrite Z.eqb_refl.
Qed.

Lemma jreads_test_chars P fuel l : Forall (fun c => stops c /\ c <> MARKER_EOM) l -> (0 < fuel)%nat ->
  jreads P (json_test_chars fuel l) l tt [].
Proof.
  intros Hl Hf. induction Hl as [|c l [Hc Hm] Hl IH]; [apply jreads_ret|].
  cbn [json_test_chars]. eapply (jreads_seq P _ _ [c] l tt _ [] []); [by apply jreads_test_char|done].
Qed.

Lemma jreads_buf_add P ch : is_byte ch -> jreads P (buf_add ch) [] tt [ch].
Proof.
  intros Hb s rest _ Hy. eexists. split; [apply runs_modify|]. split; [done|].
  simpl. by rewrite uwrap_small by (unfold is_byte in *; simpl; lia).
Qed.

Lemma jreads_buf_adds P l : bytes l -> jreads P (buf_adds l) [] tt l.
Proof.
  induction 1 as [|c l Hc Hl IH]; [apply jreads_ret|].
  eapply (jreads_seq P _ _ [] [] tt _ [c] l); [by apply jreads_buf_add|done].
Qed.

(** *** Integers *)

(** The value of a decimal numeral: the reference for both [decimal] and the readers. *)
Definition digits_value (acc : Z) (l : list Z) : Z := fold_left (fun a c => a * 10 + (c - ch_0)) l acc.

Lemma digits_value_app acc l k : digits_value acc (l ++ k) = digits_value (digits_value acc l) k.
Proof. apply fold_left_app. Qed.

Lemma decimal_value fuel n : 0 <= n < 10 ^ Z.of_nat fuel -> (0 < fuel)%nat ->
  exists c l, decimal fuel n = c :: l /\ Forall (fun c => is_digit c = true) (c :: l) /\
    (length (c :: l) <= fuel)%nat /\ digits_value (c - ch_0) l = n.
Proof.
  revert n. induction fuel as [|fuel IH]; intros n Hn Hf; [lia|]. cbn [decimal].
  destruct (Z.ltb_spec n 10).
  - exists (n + ch_0), []. split; [done|]. split; [|simpl; split; [lia|unfold digits_value; simpl; lia]].
    apply Forall_singleton. unfold is_digit. apply andb_true_iff. lia.
  - destruct (IH (n / 10)) as (c & l & -> & Hd & Hl & Hv).
    + rewrite Nat2Z.inj_succ, Z.pow_succ_r in Hn by lia. divlia.
    + destruct fuel; [|lia]. simpl in Hn. lia.
    + exists c, (l ++ [n mod 10 + ch_0]). split; [done|].
      split; [|split; [simpl in *; rewrite length_app; simpl; lia|]].
      * rewrite app_comm_cons. apply Forall_app. split; [done|]. apply Forall_singleton.
        unfold is_digit. apply andb_true_iff. divlia.
      * rewrite digits_value_app, Hv. unfold digits_value. simpl. divlia.
Qed.

(** What may follow a number: a symbol that is not a digit. *)
Definition ends_number (rest : list Z) : Prop :=
  match rest with [] => False | c :: _ => is_digit c = false end.

Lemma not_digit c : (c <? ch_0) || (c >? ch_9) = negb (is_digit c).
Proof. unfold is_digit. by rewrite Z.gtb_ltb, negb_andb, !Z.ltb_antisym. Qed.

(** Digits accumulate as in [digits_value], up to the wrap-around of the result type. *)
Lemma jreads_digits (wrap : Z -> Z) n res l :
  (forall x y, wrap (wrap x * 10 + y) = wrap (x * 10 + y)) ->
  Forall (fun c => is_digit c = true) l -> (length l < n)%nat ->
  jreads ends_number (read_digits n wrap (wrap res)) l (wrap (digits_value res l)) [].
Proof.
  intros Hw Hl. revert n res. induction Hl as [|c l Hc Hl IH]; intros n res Hn;
    (destruct n as [|n]; [simpl in *; lia|]); intros s rest HP Hy; cbn [read_digits].
  - destruct rest as [|c rest]; [done|].
    destruct (jpeek _ _ _ Hy) as (s1 & R1 & Hy1 & Hb). exists s1. rewrite app_nil_r.
    split; [|done]. eapply runs_bind; [exact R1|]. rewrite not_digit, HP. done.
  - destruct (jpeek _ _ _ Hy) as (s1 & R1 & Hy1 & Hb).
    destruct (jreads_stream (fun _ => True) c s1 (l ++ rest)) as (s2 & R2 & Hy2 & Hb2); [done..|].
    rewrite app_nil_r in Hb2.
    destruct (IH n (res * 10 + (c - ch_0)) ltac:(simpl in *; lia) s2 rest HP Hy2)
      as (s3 & R3 & Hy3 & Hb3). rewrite app_nil_r in *.
    exists s3. split; [|by rewrite Hb3, Hb2, Hb]. eapply runs_bind; [exact R1|].
    rewrite not_digit, Hc. cbn [negb]. eapply runs_bind; [exact R2|]. rewrite Hw. exact R3.
Qed.

Lemma uwrap_step w x y : uwrap w (uwrap w x * 10 + y) = uwrap w (x * 10 + y).
Proof. unfold uwrap. by rewrite <- Zplus_mod_idemp_l, Zmult_mod_idemp_l, Zplus_mod_idemp_l. Qed.

Lemma swrap_step w x y : 0 < w -> swrap w (swrap w x * 10 + y) = swrap w (x * 10 + y).
Proof.
  intros Hw. rewrite <- (swrap_uwrap w (swrap w x * 10 + y)), <- (swrap_uwrap w (x * 10 + y)) by done.
  f_equal. rewrite <- uwrap_step, uwrap_swrap, uwrap_step by done. done.
Qed.

Lemma digit_stops c : is_digit c = true -> stops c.
Proof.
  unfold is_digit, stops, isspace. intros Hc. bool_to_prop.
  apply andb_false_iff. right. apply orb_false_iff. split; [lia|]. apply andb_false_iff. right. lia.
Qed.

(** A number without sign. *)
Lemma jreads_unsigned (wrap : Z -> Z) fuel n :
  (forall x y, wrap (wrap x * 10 + y) = wrap (x * 10 + y)) -> (forall d, 0 <= d < 10 -> wrap d = d) ->
  0 <= n < 2 ^ 64 -> (ULONG_DIGITS < fuel)%nat ->
  jreads ends_number (read_number fuel wrap) (ulong_text n) (false, wrap n) [].
Proof.
  intros Hw Hd Hn Hf.
  destruct (decimal_value ULONG_DIGITS n) as (c & l & Ht & Hdig & Hlen & Hv);
    [by apply ulong_pow|unfold ULONG_DIGITS; lia|].
  unfold ulong_text. rewrite Ht. apply Forall_cons in Hdig as [Hc Hl].
  assert (Hc' : 0 <= c - ch_0 < 10) by (unfold is_digit in Hc; bool_to_prop; lia).
  unfold read_number. eapply (jreads_seq _ _ _ [c] l c _ [] []).
  { apply jreads_token; [by apply digit_stops|lia]. }
  rewrite (proj2 (Z.eqb_neq c ch_minus)) by lia.
  eapply (jreads_seq _ _ _ [] l c _ [] []); [apply jreads_ret|].
  rewrite not_digit, Hc. cbn [negb]. rewrite <- (app_nil_r l).
  apply (jreads_bind _ ends_number _ _ l [] (wrap n) _ [] []); [|done|apply jreads_ret].
  pose proof (jreads_digits wrap fuel (c - ch_0) l Hw Hl ltac:(cbn [length] in Hlen; lia)) as J.
  rewrite Hd, Hv in J by done. exact J.
Qed.

(** A number after a minus sign. *)
Lemma jreads_negative (wrap : Z -> Z) fuel n :
  (forall x y, wrap (wrap x * 10 + y) = wrap (x * 10 + y)) -> (forall d, 0 <= d < 10 -> wrap d = d) ->
  0 <= n < 2 ^ 64 -> (ULONG_DIGITS < fuel)%nat ->
  jreads ends_number (read_number fuel wrap) (ch_minus :: ulong_text n) (true, wrap n) [].
Proof.
  intros Hw Hd Hn Hf.
  destruct (decimal_value ULONG_DIGITS n) as (c & l & Ht & Hdig & Hlen & Hv);
    [by apply ulong_pow|unfold ULONG_DIGITS; lia|].
  unfold ulong_text. rewrite Ht. apply Forall_cons in Hdig as [Hc Hl].
  assert (Hc' : 0 <= c - ch_0 < 10) by (unfold is_digit in Hc; bool_to_prop; lia).
  unfold read_number. eapply (jreads_seq _ _ _ [ch_minus] (c :: l) ch_minus _ [] []).
  { apply jreads_token; [done|lia]. }
  cbn [Z.eqb Pos.eqb].
  eapply (jreads_seq _ _ _ [c] l c _ [] []); [apply jreads_stream|].
  rewrite not_digit, Hc. cbn [negb]. rewrite <- (app_nil_r l).
  apply (jreads_bind _ ends_number _ _ l [] (wrap n) _ [] []); [|done|apply jreads_ret].
  pose proof (jreads_digits wrap fuel (c - ch_0) l Hw Hl ltac:(cbn [length] in Hlen; lia)) as J.
  rewrite Hd, Hv in J by done. exact J.
Qed.

Lemma jreads_long fuel n : - 2 ^ 63 <= n < 2 ^ 63 -> (ULONG_DIGITS < fuel)%nat ->
  jreads ends_number (json_read_long fuel) (long_text n) n [].
Proof.
  intros Hn Hf. unfold long_text.
  assert (forall d, 0 <= d < 10 -> swrap 64 d = d) by (intros; apply swrap_small; lia).
  assert (forall x y, swrap 64 (swrap 64 x * 10 + y) = swrap 64 (x * 10 + y))
    by (intros; apply swrap_step; lia).
  destruct (Z.ltb_spec n 0); unfold json_read_long.
  - rewrite <- (app_nil_r (_ :: _)).
    eapply (jreads_bind _ ends_number _ _ _ [] _ _ [] []); [apply jreads_negative; auto; lia|done|].
    cbn beta iota. replace (swrap 64 (- swrap 64 (- n))) with n; [apply jreads_ret|].
    rewrite <- (swrap_uwrap 64 (- _)) by lia.
    replace (uwrap 64 (- swrap 64 (- n))) with (uwrap 64 n).
    + rewrite swrap_uwrap, swrap_small by lia. done.
    + unfold uwrap. rewrite <- (Z.mul_1_l (swrap _ _)), <- Z.mul_opp_l, <- Zmult_mod_idemp_r.
      fold (uwrap 64 (swrap 64 (- n))). rewrite uwrap_swrap by lia. unfold uwrap.
      rewrite Zmult_mod_idemp_r. f_equal. lia.
  - rewrite <- (app_nil_r (ulong_text n)).
    eapply (jreads_bind _ ends_number _ _ _ [] _ _ [] []); [apply jreads_unsigned; auto; lia|done|].
    cbn beta iota. rewrite swrap_small by lia. apply jreads_ret.
Qed.

Lemma jreads_ulong fuel n : 0 <= n < 2 ^ 64 -> (ULONG_DIGITS < fuel)%nat ->
  jreads ends_number (json_read_ulong fuel) (ulong_text n) n [].
Proof.
  intros Hn Hf. unfold json_read_ulong. rewrite <- (app_nil_r (ulong_text n)).
  eapply (jreads_bind _ ends_number _ _ _ [] _ _ [] []);
    [apply jreads_unsigned; auto using uwrap_step; intros; apply uwrap_small; lia|done|].
  cbn beta iota. rewrite uwrap_small by lia. apply jreads_ret.
Qed.

Lemma jreads_boolean P fuel b : (0 < fuel)%nat ->
  jreads P (json_read_boolean fuel) (boolean_text b) b [].
Proof.
  intros Hf. unfold json_read_boolean. destruct b.
  - change (boolean_text true) with ([ch_t] ++ [ch_r; ch_u; ch_e]).
    eapply (jreads_seq P _ _ [ch_t] [ch_r; ch_u; ch_e] ch_t _ [] []); [by apply jreads_token|].
    cbn [Z.eqb Pos.eqb]. rewrite <- (app_nil_r [_; _; _]).
    eapply (jreads_seq P _ _ _ [] tt _ [] []); [|apply jreads_ret].
    apply jreads_test_chars; [|done]. repeat (apply Forall_cons; split; [by split|]). constructor.
  - change (boolean_text false) with ([ch_f] ++ [ch_a; ch_l; ch_s; ch_e]).
    eapply (jreads_seq P _ _ [ch_f] [ch_a; ch_l; ch_s; ch_e] ch_f _ [] []); [by apply jreads_token|].
    cbn [Z.eqb Pos.eqb]. rewrite <- (app_nil_r [_; _; _; _]).
    eapply (jreads_seq P _ _ _ [] tt _ [] []); [|apply jreads_ret].
    apply jreads_test_chars; [|done]. repeat (apply Forall_cons; split; [by split|]). constructor.
Qed.

(** *** Strings *)

Lemma jreads_hex_digit P d : 0 <= d < 16 -> jreads P read_hex_digit [hex_digit d] d [].
Proof.
  intros Hd. unfold read_hex_digit.
  eapply (jreads_seq P _ _ [hex_digit d] [] (hex_digit d) _ [] []); [apply jreads_stream|].
  assert (H : hex_digit d = if d <? 10 then ch_0 + d else ch_A + (d - 10)).
  { unfold hex_digit. change 0xf with (Z.ones 4). by rewrite Z.land_ones, Z.mod_small by lia. }
  rewrite H, !Z.geb_leb. destruct (Z.ltb_spec d 10).
  - rewrite (proj2 (Z.leb_le ch_0 (ch_0 + d))), (proj2 (Z.leb_le (ch_0 + d) ch_9)) by lia.
    cbn [andb]. replace (ch_0 + d - ch_0) with d by lia. apply jreads_ret.
  - rewrite (proj2 (Z.leb_gt (ch_A + (d - 10)) ch_9)), andb_false_r by lia.
    rewrite (proj2 (Z.leb_le ch_A (ch_A + (d - 10)))), (proj2 (Z.leb_le (ch_A + (d - 10)) ch_F)) by lia.
    cbn [andb]. replace (ch_A + (d - 10) - ch_A + 10) with d by lia. apply jreads_ret.
Qed.

(** The character code of four hexadecimal digits. *)
Definition hex_value (d3 d2 d1 d0 : Z) : Z :=
  Z.lor (Z.lor (Z.lor (Z.shiftl d3 12) (Z.shiftl d2 8)) (Z.shiftl d1 4)) d0.

Lemma jreads_hex_char P d3 d2 d1 d0 :
  0 <= d3 < 16 -> 0 <= d2 < 16 -> 0 <= d1 < 16 -> 0 <= d0 < 16 ->
  jreads P read_hex_char [hex_digit d3; hex_digit d2; hex_digit d1; hex_digit d0]
    (hex_value d3 d2 d1 d0) [].
Proof.
  intros. unfold read_hex_char.
  eapply (jreads_seq P _ _ [_] [_; _; _] d3 _ [] []); [by apply jreads_hex_digit|].
  eapply (jreads_seq P _ _ [_] [_; _] d2 _ [] []); [by apply jreads_hex_digit|].
  eapply (jreads_seq P _ _ [_] [_] d1 _ [] []); [by apply jreads_hex_digit|].
  eapply (jreads_seq P _ _ [_] [] d0 _ [] []); [by apply jreads_hex_digit|]. apply jreads_ret.
Qed.

(** What an escape sequence of the writer looks like: a backslash, then a body that
    [read_esc_char] turns back into the byte. *)
Lemma hex_digit_mask n : hex_digit (Z.land n 0xf) = hex_digit n.
Proof. unfold hex_digit. by rewrite <- Z.land_assoc. Qed.

Lemma escaped_small n : is_byte n -> char_escaping n = true -> n < 0x80.
Proof.
  intros Hn He. pose proof (byte_forall (fun n => implb (char_escaping n) (n <? 0x80)) ltac:(by vm_compute) n Hn) as H.
  simpl in H. rewrite He in H. simpl in H. lia.
Qed.

Lemma hex_value_byte n : is_byte n -> hex_value 0 0 (Z.shiftr n 4) (Z.land n 0xf) = n.
Proof.
  intros Hn. apply Z.eqb_eq.
  exact (byte_forall (fun n => hex_value 0 0 (Z.shiftr n 4) (Z.land n 0xf) =? n) ltac:(by vm_compute) n Hn).
Qed.

Lemma jreads_escape P n : is_byte n -> n < 0x80 ->
  exists body, escape_seq n = ch_bslash :: body /\ jreads P read_esc_char body [n] [].
Proof.
  intros Hn Hs.
  assert (Hu : utf8_seq n = [n]) by (unfold utf8_seq; by rewrite (proj2 (Z.ltb_lt n 0x80)) by lia).
  unfold escape_seq.
  destruct ((n =? ch_quote) || (n =? ch_bslash)) eqn:E.
  { eexists; split; [done|]. unfold read_esc_char.
    eapply (jreads_seq P _ _ [n] [] n _ [] []); [apply jreads_stream|].
    rewrite E. cbn [orb]. eapply (jreads_seq P _ _ [] [] n _ [] []); [apply jreads_ret|].
    rewrite Hu. apply jreads_ret. }
  repeat match goal with
  | |- context [if n =? ?m then _ else _] =>
      destruct (Z.eqb_spec n m) as [->|?];
      [eexists; split; [done|]; unfold read_esc_char;
       eapply (jreads_seq P _ _ [_] [] _ _ [] []); [apply jreads_stream|];
       cbn [Z.eqb Pos.eqb orb]; eapply (jreads_seq P _ _ [] [] m _ [] []); apply jreads_ret|]
  end.
  eexists; split; [done|]. unfold read_esc_char.
  eapply (jreads_seq P _ _ [ch_u] [ch_0; ch_0; _; _] ch_u _ [] []); [apply jreads_stream|].
  cbn [Z.eqb Pos.eqb orb]. rewrite <- (app_nil_r [_; _; _; _]).
  eapply (jreads_seq P _ _ _ [] n _ [] []); [|rewrite Hu; apply jreads_ret].
  rewrite <- (hex_value_byte n) at 3 by done. rewrite <- (hex_digit_mask n).
  apply (jreads_hex_char _ 0 0 (Z.shiftr n 4) (Z.land n 0xf)); try lia; unfold is_byte in *.
  - rewrite Z.shiftr_div_pow2 by lia. divlia.
  - change 0xf with (Z.ones 4). rewrite Z.land_ones by lia. divlia.
Qed.

(** One character of a string: the first symbol of its text is either the character itself, which
    is neither a quote nor a backslash, or a backslash. *)
Lemma char_text_cases ch : is_byte ch ->
  (char_text ch = [ch] /\ ch <> ch_quote /\ ch <> ch_bslash /\ 0 <= ch) \/
  (char_text ch = escape_seq ch /\ ch < 0x80).
Proof.
  intros Hb. unfold char_text. destruct (char_escaping ch) eqn:E.
  - right. split; [done|by apply escaped_small].
  - left. split; [done|]. repeat split; [| |unfold is_byte in *; lia]; intros ->; by vm_compute in E.
Qed.

(** The loop that reads a string into the static buffer. *)
Lemma jreads_string_buf P s n : bytes s -> (length s < n)%nat ->
  jreads P (read_string_buf n) (chars_text s ++ [ch_quote]) tt s.
Proof.
  intros Hb. revert n. induction Hb as [|ch s Hch Hb IH]; intros n Hn;
    (destruct n as [|n]; [simpl in *; lia|]); cbn [read_string_buf chars_text].
  - eapply (jreads_seq P _ _ [ch_quote] [] ch_quote _ [] []); [apply jreads_stream|]. apply jreads_ret.
  - specialize (IH n ltac:(simpl in *; lia)). rewrite <- (assoc_L (++)).
    destruct (char_text_cases ch Hch) as [(-> & Hq & Hs & H0)|(-> & Hlt)].
    + eapply (jreads_seq P _ _ [ch] _ ch _ [] (ch :: s)); [apply jreads_stream|].
      rewrite (proj2 (Z.ltb_ge ch 0)), (proj2 (Z.eqb_neq ch ch_quote)),
        (proj2 (Z.eqb_neq ch ch_bslash)) by done.
      eapply (jreads_seq P _ _ [] _ tt _ [ch] s); [by apply jreads_buf_add|done].
    + destruct (jreads_escape (fun _ => True) ch Hch Hlt) as (body & -> & Hbody).
      eapply (jreads_seq P _ _ [ch_bslash] (body ++ _) ch_bslash _ [] (ch :: s)); [apply jreads_stream|].
      cbn [Z.ltb Z.eqb Pos.eqb Z.compare]. eapply (jreads_seq P _ _ body _ tt _ [ch] s); [|done].
      rewrite <- (app_nil_r body). eapply (jreads_seq _ _ _ body [] [ch] _ [] [ch]); [done|].
      apply jreads_buf_adds. by apply Forall_singleton.
Qed.

Lemma jreads_null P fuel : (0 < fuel)%nat -> jreads P (json_test_chars fuel [ch_u; ch_l; ch_l]) [ch_u; ch_l; ch_l] tt [].
Proof. intros. apply jreads_test_chars; [|done]. by repeat (apply Forall_cons; split; [by split|]). Qed.

(** [json_read_alloc_string]: the block is the string and its terminating zero. *)
Lemma reads_alloc_string fuel so s rest :
  match so with None => True | Some t => bytes t /\ (length t < fuel)%nat end -> (0 < fuel)%nat ->
  jyields s (string_text so ++ rest) ->
  exists s', runs (json_read_alloc_string fuel) s (option_map (fun t => t ++ [0]) so) s' /\
    jyields s' rest.
Proof.
  intros Hso Hf Hy. unfold json_read_alloc_string. destruct so as [t|]; cbn [string_text option_map] in *.
  - destruct Hso as [Hb Hl].
    destruct (jreads_token (fun _ => True) fuel ch_quote ltac:(done) Hf s ((chars_text t ++ [ch_quote]) ++ rest))
      as (s1 & R1 & Hy1 & _); [done|done|].
    destruct (jreads_string_buf (fun _ => True) t fuel Hb Hl (mkJson (js_inp s1) [] (js_size s1)) rest)
      as (s2 & R2 & Hy2 & Hb2); [done|done|].
    destruct (jreads_buf_add (fun _ => True) 0 ltac:(unfold is_byte; lia) s2 rest I Hy2)
      as (s3 & R3 & Hy3 & Hb3).
    exists s3. split; [|done]. eapply runs_bind; [exact R1|]. cbn [Z.eqb Pos.eqb negb].
    eapply runs_bind; [apply runs_modify|]. eapply runs_bind; [exact R2|]. eapply runs_bind; [exact R3|].
    eapply runs_bind; [apply runs_gets|]. rewrite Hb3, Hb2. done.
  - destruct (jreads_token (fun _ => True) fuel ch_n ltac:(done) Hf s ([ch_u; ch_l; ch_l] ++ rest))
      as (s1 & R1 & Hy1 & _); [done|done|].
    destruct (jreads_null (fun _ => True) fuel Hf s1 rest I Hy1) as (s2 & R2 & Hy2 & _).
    exists s2. split; [|done]. eapply runs_bind; [exact R1|]. by eapply runs_bind; [exact R2|].
Qed.

(** [json_read_string]: the length is returned as an [int], and as much is stored as fits. *)
Lemma jreads_string_loop P t : bytes t -> forall n size i acc,
  (length t < n)%nat -> 1 <= size -> 0 <= i -> i + Z.of_nat (length t) < 2 ^ 32 -> Z.of_nat (length acc) = Z.min i (size - 1) ->
  jreads P (json_read_string_loop n size i acc) (chars_text t ++ [ch_quote])
    (swrap 32 (i + Z.of_nat (length t)), acc ++ take (Z.to_nat (size - 1 - i)) t) [].
Proof.
  induction 1 as [|ch t Hch Ht IH]; intros n size i acc Hn Hsize Hi Hmax Hacc;
    (destruct n as [|n]; [simpl in *; lia|]); cbn [json_read_string_loop chars_text].
  - eapply (jreads_seq P _ _ [ch_quote] [] ch_quote _ [] []); [apply jreads_stream|].
    cbn [Z.ltb Z.eqb Pos.eqb Z.compare]. rewrite take_nil, app_nil_r, Z.add_0_r. rewrite take_ge by (destruct (Z.ltb_spec i size); lia). apply jreads_ret.
  - cbn [length] in Hn, Hmax. assert (Eput : str_puts size i [ch] acc = (i + 1, acc ++ take (Z.to_nat (size - 1 - i)) [ch])).
    { cbn [str_puts]. rewrite uwrap_small by lia. f_equal. unfold str_put. destruct (Z.ltb_spec i (size - 1)).
      - rewrite take_ge, drop_ge by lia. replace (Z.to_nat (size - 1 - i)) with (S (Z.to_nat (size - 1 - (i + 1)))) by lia. cbn [take]. by rewrite take_nil.
      - replace (Z.to_nat (size - 1 - i)) with 0%nat by lia. by rewrite app_nil_r. }
    specialize (IH n size (i + 1) (acc ++ take (Z.to_nat (size - 1 - i)) [ch]) ltac:(lia) Hsize ltac:(lia) ltac:(lia)).
    rewrite length_app, length_take in IH. cbn [length] in IH. specialize (IH ltac:(lia)).
    replace (i + 1 + Z.of_nat (length t)) with (i + Z.of_nat (length (ch :: t))) in IH by (simpl; lia).
    replace ((acc ++ take (Z.to_nat (size - 1 - i)) [ch]) ++ take (Z.to_nat (size - 1 - (i + 1))) t)
      with (acc ++ take (Z.to_nat (size - 1 - i)) (ch :: t)) in IH; cycle 1.
    { rewrite <- (assoc_L (++)). f_equal. destruct (decide (0 < size - 1 - i)).
      - replace (Z.to_nat (size - 1 - i)) with (S (Z.to_nat (size - 1 - (i + 1)))) by lia.
        simpl. by rewrite take_nil.
      - replace (Z.to_nat (size - 1 - i)) with 0%nat by lia.
        by replace (Z.to_nat (size - 1 - (i + 1))) with 0%nat by lia. }
    rewrite <- (assoc_L (++)).
    destruct (char_text_cases ch Hch) as [(-> & Hq & Hs & H0)|(-> & Hlt)].
    + eapply (jreads_seq P _ _ [ch] _ ch _ [] []); [apply jreads_stream|].
      rewrite (proj2 (Z.ltb_ge ch 0)), (proj2 (Z.eqb_neq ch ch_quote)),
        (proj2 (Z.eqb_neq ch ch_bslash)) by done.
      eapply (jreads_seq P _ _ [] _ [ch] _ [] []); [apply jreads_ret|by rewrite Eput].
    + destruct (jreads_escape (fun _ => True) ch Hch Hlt) as (body & -> & Hbody).
      eapply (jreads_seq P _ _ [ch_bslash] (body ++ _) ch_bslash _ [] []); [apply jreads_stream|].
      cbn [Z.ltb Z.eqb Pos.eqb Z.compare].
      eapply (jreads_seq P _ _ body _ [ch] _ [] []); [done|by rewrite Eput].
Qed.
End Lemmas.

(** ** UTF-8 *)

(** A reference decoder for sequences of one to three bytes: the code and what follows. *)
Definition utf8_decode (l : list Z) : option (Z * list Z) :=
  match l with
  | b0 :: l0 =>
      if b0 <? 0x80 then Some (b0, l0)
      else match l0 with
           | b1 :: l1 =>
               if (0xc0 <=? b0) && (b0 <? 0xe0) && (b1 / 64 =? 2)
               then Some (b0 mod 32 * 64 + b1 mod 64, l1)
               else match l1 with
                    | b2 :: l2 =>
                        if (0xe0 <=? b0) && (b0 <? 0xf0) && (b1 / 64 =? 2) && (b2 / 64 =? 2)
                        then Some (b0 mod 16 * 4096 + b1 mod 64 * 64 + b2 mod 64, l2)
                        else None
                    | [] => None
                    end
           | [] => None
           end
  | [] => None
  end.

Lemma lor_hi a h k : 0 <= k -> 0 <= a < 2 ^ k -> Z.lor a (h * 2 ^ k) = a + h * 2 ^ k.
Proof. intros. by apply lor_add. Qed.

(** ** Properties *)

(** every 64-bit integer written by [json_write_long] or [json_write_ulong] (and by their
    [int64] variants), on any output stream, is read back unchanged by the corresponding reader
    from any input stream, when a symbol that is not a digit follows; the smallest negative number
    included. *)
Theorem json_integer_roundtrip `{OutputStreamLaws OS, InputStreamLaws IS} fuel n (o : OS) l :
  (ULONG_DIGITS < fuel)%nat -> emits o l ->
  (- 2 ^ 63 <= n < 2 ^ 63 -> exists o' text,
     runs (json_write_long n) o tt o' /\ runs (json_write_int64 n) o tt o' /\ emits o' (l ++ text) /\
     forall (s : Json IS) rest, ends_number rest -> jyields s (text ++ rest) ->
     exists s', runs (json_read_long fuel) s n s' /\ runs (json_read_int64 fuel) s n s' /\
       jyields s' rest) /\
  (0 <= n < 2 ^ 64 -> exists o' text,
     runs (json_write_ulong n) o tt o' /\ runs (json_write_uint64 n) o tt o' /\ emits o' (l ++ text) /\
     forall (s : Json IS) rest, ends_number rest -> jyields s (text ++ rest) ->
     exists s', runs (json_read_ulong fuel) s n s' /\ runs (json_read_uint64 fuel) s n s' /\
       jyields s' rest).
Proof.
  intros Hf He. split; intros Hn.
  - destruct (writes_long n Hn o l He) as (o' & R & He'). exists o', (long_text n).
    split; [done|]. split; [exact R|]. split; [done|]. intros s rest Hr Hy.
    destruct (jreads_long fuel n Hn Hf s rest Hr Hy) as (s' & R' & Hy' & _). eauto.
  - destruct (writes_ulong n Hn o l He) as (o' & R & He'). exists o', (ulong_text n).
    split; [done|]. split; [exact R|]. split; [done|]. intros s rest Hr Hy.
    destruct (jreads_ulong fuel n Hn Hf s rest Hr Hy) as (s' & R' & Hy' & _). eauto.
Qed.

(** The concrete streams of the witnesses. *)
Definition json_of (text : list Z) : Json ByteArrayInputStream :=
  mkJson (create_byte_array_input_stream text) [] 0%N.

Lemma json_integer_roundtrip_witness :
  exists o' text,
     runs (json_write_long (- 2 ^ 63)) create_byte_array_output_stream tt o' /\
     runs (json_write_int64 (- 2 ^ 63)) create_byte_array_output_stream tt o' /\
     emits o' ([] ++ text) /\
     forall (s : Json ByteArrayInputStream) rest, ends_number rest -> jyields s (text ++ rest) ->
     exists s', runs (json_read_long 30) s (- 2 ^ 63) s' /\ runs (json_read_int64 30) s (- 2 ^ 63) s' /\
       jyields s' rest.
Proof.
  refine (proj1 (json_integer_roundtrip 30 (- 2 ^ 63) create_byte_array_output_stream [] _ _) _);
    [unfold ULONG_DIGITS; lia|apply create_byte_array_emits|lia].
Defined.

(** any digit string is accepted by [json_read_ulong], however long: the result is the value
    of the numeral modulo [2^64], and exactly the digits are consumed. *)
Theorem json_read_ulong_wraps `{InputStreamLaws IS} fuel c l (s : Json IS) rest :
  Forall (fun c => is_digit c = true) (c :: l) -> (length (c :: l) < fuel)%nat ->
  ends_number rest -> jyields s (c :: l ++ rest) ->
  exists s', runs (json_read_ulong fuel) s (digits_value 0 (c :: l) mod 2 ^ 64) s' /\ jyields s' rest.
Proof.
  intros Hd Hl Hr Hy. apply Forall_cons in Hd as [Hc Hd].
  assert (Hc' : 0 <= c - ch_0 < 10) by (unfold is_digit in Hc; bool_to_prop; lia).
  destruct (jreads_token (fun _ => True) fuel c (digit_stops c Hc) ltac:(lia) s (l ++ rest))
    as (s1 & R1 & Hy1 & _); [done..|].
  destruct (jreads_digits (uwrap 64) fuel (c - ch_0) l (uwrap_step 64) Hd ltac:(simpl in *; lia) s1 rest Hr Hy1)
    as (s2 & R2 & Hy2 & _).
  exists s2. split; [|done]. unfold json_read_ulong, read_number.
  eapply (runs_bind _ _ _ (false, digits_value 0 (c :: l) mod 2 ^ 64) s2); [|apply runs_ret].
  eapply runs_bind; [exact R1|].
  rewrite (proj2 (Z.eqb_neq c ch_minus)) by lia. eapply runs_bind; [apply runs_ret|].
  rewrite not_digit, Hc. cbn [negb]. rewrite uwrap_small in R2 by lia.
  eapply runs_bind; [exact R2|]. unfold digits_value. simpl fold_left.
  replace (0 * 10 + (c - ch_0)) with (c - ch_0) by lia. apply runs_ret.
Qed.

Lemma json_read_ulong_wraps_witness :
  exists s', runs (json_read_ulong 30) (json_of (str "18446744073709551617,"))
    (digits_value 0 (str "18446744073709551617") mod 2 ^ 64) s' /\ jyields s' [ch_comma].
Proof.
  apply (json_read_ulong_wraps 30 49 (str "8446744073709551617")).
  - change (49 :: str "8446744073709551617") with (str "18446744073709551617").
    repeat (apply Forall_cons; split; [reflexivity|]). constructor.
  - simpl. lia.
  - reflexivity.
  - exists 0%nat. by exists [].
Defined.

Lemma jreads_json_string `{InputStreamLaws IS} fuel so size (s : Json IS) rest :
  match so with None => True | Some t => bytes t /\ (length t < fuel)%nat /\ Z.of_nat (length t) < 2 ^ 32 end ->
  (0 < fuel)%nat -> 1 <= size -> jyields s (string_text so ++ rest) ->
  exists s', runs (json_read_string fuel size) s
    (match so with None => (-1, []) | Some t => (swrap 32 (Z.of_nat (length t)), take (Z.to_nat (size - 1)) t) end) s' /\ jyields s' rest.
Proof.
  intros Hso Hf Hsize Hy. unfold json_read_string. destruct so as [t|]; cbn [string_text] in Hy.
  - destruct Hso as (Hb & Hl & Hmax).
    destruct (jreads_token (fun _ => True) fuel ch_quote ltac:(done) Hf s ((chars_text t ++ [ch_quote]) ++ rest))
      as (s1 & R1 & Hy1 & _); [done|done|].
    destruct (jreads_string_loop (fun _ => True) t Hb fuel size 0 [] Hl Hsize ltac:(lia) Hmax ltac:(cbn; lia) s1 rest I Hy1) as (s2 & R2 & Hy2 & _).
    rewrite Z.sub_0_r in R2. exists s2. split; [|done]. eapply runs_bind; [exact R1|]. exact R2.
  - destruct (jreads_token (fun _ => True) fuel ch_n ltac:(done) Hf s ([ch_u; ch_l; ch_l] ++ rest))
      as (s1 & R1 & Hy1 & _); [done|done|].
    destruct (jreads_null (fun _ => True) fuel Hf s1 rest I Hy1) as (s2 & R2 & Hy2 & _).
    exists s2. split; [|done]. eapply runs_bind; [exact R1|]. by eapply runs_bind; [exact R2|].
Qed.

Lemma cstr_prefix t : exists u, t = cstr t ++ u.
Proof. induction t as [|ch t [u Hu]]; [by exists []|]. cbn [cstr]. destruct (ch =? 0); [by eexists|]. exists u. by rewrite Hu at 1. Qed.

(** C17: [json_write_string] writes a string up to its first zero and [json_write_string_len] all of its
    bytes, zeros included, and both write a null pointer as null.  What they write is read back by [json_read_alloc_string], with
    a terminating zero; [json_read_string] stores as much of it as its buffer holds and returns its length as an [int], which is
    negative for a string of 2^31 bytes or more. *)
Theorem json_string_roundtrip `{OutputStreamLaws OS, InputStreamLaws IS} fuel so (o : OS) l :
  match so with
  | None => True
  | Some t => bytes t /\ (length t < fuel)%nat /\ Z.of_nat (length t) < 2 ^ 32
  end -> (0 < fuel)%nat -> emits o l ->
  exists o1 o2 text1 text2, runs (json_write_string so) o tt o1 /\ emits o1 (l ++ text1) /\
    runs (json_write_string_len so) o tt o2 /\ emits o2 (l ++ text2) /\
    forall x, x = (option_map cstr so, text1) \/ x = (so, text2) ->
    forall (s : Json IS) rest, jyields s (snd x ++ rest) ->
    (exists s', runs (json_read_alloc_string fuel) s (option_map (fun t => t ++ [0]) (fst x)) s' /\ jyields s' rest) /\
    forall size, 1 <= size -> exists s', runs (json_read_string fuel size) s
      (match fst x with
       | None => (-1, [])
       | Some t => (swrap 32 (Z.of_nat (length t)), take (Z.to_nat (size - 1)) t)
       end) s' /\ jyields s' rest.
Proof.
  intros Hso Hf He. assert (Hw : match so with None => True | Some s => bytes s /\ Z.of_nat (length s) < 2 ^ 32 end) by (destruct so; intuition).
  destruct (writes_json_cstr so Hw o l He) as (o1 & R1 & E1). destruct (writes_json_string_len so Hw o l He) as (o2 & R2 & E2).
  exists o1, o2, (string_text (option_map cstr so)), (string_text so). split_and!; [done..|].
  assert (Hc : match option_map cstr so with None => True | Some t => bytes t /\ (length t < fuel)%nat /\ Z.of_nat (length t) < 2 ^ 32 end).
  { destruct so as [t|]; [|done]. cbn. destruct (cstr_prefix t) as [u Hu]. destruct Hso as (Hb & Hl & Hm). rewrite Hu in Hb, Hl, Hm.
    rewrite length_app in Hl, Hm. apply Forall_app in Hb as [Hb _]. split_and!; [done|lia|lia]. }
  intros [so' text] Hx s rest Hy. cbn [fst snd] in *.
  assert (Hs : text = string_text so' /\ match so' with None => True | Some t => bytes t /\ (length t < fuel)%nat /\ Z.of_nat (length t) < 2 ^ 32 end)
    by (destruct Hx as [[= -> ->]|[= -> ->]]; done).
  destruct Hs as [-> Hs]. split; [apply reads_alloc_string; [destruct so'; intuition|done|done]|]. intros size Hsize. by apply jreads_json_string.
Qed.

Lemma json_string_roundtrip_witness :
  let t := [104; 34; 10; 0; 127; 200; 92] in
  exists o1 o2 text1 text2, runs (json_write_string (Some t)) create_byte_array_output_stream tt o1 /\ emits o1 ([] ++ text1) /\
    runs (json_write_string_len (Some t)) create_byte_array_output_stream tt o2 /\ emits o2 ([] ++ text2) /\
    forall x, x = (Some [104; 34; 10], text1) \/ x = (Some t, text2) ->
    forall (s : Json ByteArrayInputStream) rest, jyields s (snd x ++ rest) ->
    (exists s', runs (json_read_alloc_string 20) s (option_map (fun t => t ++ [0]) (fst x)) s' /\ jyields s' rest) /\
    forall size, 1 <= size -> exists s', runs (json_read_string 20 size) s
      (match fst x with
       | None => (-1, [])
       | Some t => (swrap 32 (Z.of_nat (length t)), take (Z.to_nat (size - 1)) t)
       end) s' /\ jyields s' rest.
Proof.
  apply (json_string_roundtrip 20 (Some [104; 34; 10; 0; 127; 200; 92]) create_byte_array_output_stream []);
    [|lia|apply create_byte_array_emits].
  split; [|simpl; lia]. repeat (apply Forall_cons; split; [unfold is_byte; lia|]). constructor.
Defined.

(** a [\uXXXX] escape, four hexadecimal digits of any 16-bit code, is turned into the UTF-8
    sequence of that code: the reference decoder recovers the code from the bytes. *)
Theorem json_unicode_escape `{InputStreamLaws IS} d3 d2 d1 d0 (s : Json IS) rest tail :
  0 <= d3 < 16 -> 0 <= d2 < 16 -> 0 <= d1 < 16 -> 0 <= d0 < 16 ->
  jyields s (ch_u :: map hex_digit [d3; d2; d1; d0] ++ rest) ->
  exists s' l, runs read_esc_char s l s' /\ jyields s' rest /\ bytes l /\
    utf8_decode (l ++ tail) = Some (d3 * 4096 + d2 * 256 + d1 * 16 + d0, tail).
Proof.
  intros Hd3 Hd2 Hd1 Hd0 Hy.
  assert (Hv : hex_value d3 d2 d1 d0 = d3 * 4096 + d2 * 256 + d1 * 16 + d0).
  { unfold hex_value. rewrite !Z.shiftl_mul_pow2 by lia.
    rewrite (Z.lor_comm (d3 * _)), (lor_hi (d2 * 2 ^ 8) d3 12) by lia.
    replace (d2 * 2 ^ 8 + d3 * 2 ^ 12) with ((d2 + d3 * 16) * 2 ^ 8) by lia.
    rewrite (Z.lor_comm (_ * 2 ^ 8)), (lor_hi (d1 * 2 ^ 4) _ 8) by lia.
    replace (d1 * 2 ^ 4 + (d2 + d3 * 16) * 2 ^ 8) with ((d1 + (d2 + d3 * 16) * 16) * 2 ^ 4) by lia.
    rewrite Z.lor_comm, (lor_hi d0 _ 4) by lia. lia. }
  set (v := d3 * 4096 + d2 * 256 + d1 * 16 + d0) in *.
  destruct (jreads_stream (fun _ => True) ch_u s _ I Hy) as (s1 & R1 & Hy1 & _).
  destruct (jreads_hex_char (fun _ => True) d3 d2 d1 d0 Hd3 Hd2 Hd1 Hd0 s1 rest I Hy1) as (s2 & R2 & Hy2 & _).
  exists s2, (utf8_seq v). split; [|split; [done|]].
  { unfold read_esc_char. eapply runs_bind; [exact R1|]. cbn [Z.eqb Pos.eqb orb].
    eapply runs_bind; [exact R2|]. rewrite Hv. apply runs_ret. }
  assert (Hr : 0 <= v < 65536) by (subst v; lia). clearbody v. clear - Hr.
  assert (Hc : forall x, 0 <= x -> uwrap 8 (Z.lor (Z.land x 0x3f) 0x80) = 128 + x mod 64).
  { intros x Hx. change 0x3f with (Z.ones 6). change 0x80 with (2 * 2 ^ 6).
    rewrite Z.land_ones, lor_hi, uwrap_small by divlia. divlia. }
  unfold utf8_seq. destruct (Z.ltb_spec v 0x80); [|destruct (Z.ltb_spec v 0x800)].
  - split; [apply Forall_singleton; unfold is_byte; lia|]. simpl. by rewrite (proj2 (Z.ltb_lt v 128)).
  - rewrite Hc, Z.shiftr_div_pow2 by lia. change 0xc0 with (6 * 2 ^ 5).
    rewrite (lor_hi (v / 2 ^ 6)), uwrap_small by divlia. simpl Z.pow. simpl Z.mul.
    split; [repeat (apply Forall_cons; split; [unfold is_byte; divlia|]); constructor|].
    cbn [app utf8_decode]. rewrite (proj2 (Z.ltb_ge _ 0x80)) by divlia.
    rewrite (proj2 (Z.leb_le 0xc0 _)), (proj2 (Z.ltb_lt _ 0xe0)), (proj2 (Z.eqb_eq _ 2)) by divlia.
    cbn [andb]. do 2 f_equal. divlia.
  - rewrite !Hc, !Z.shiftr_div_pow2 by (try apply Z.shiftr_nonneg; lia). change 0xe0 with (14 * 2 ^ 4).
    rewrite (lor_hi (v / 2 ^ 12)), uwrap_small by divlia. simpl Z.pow. simpl Z.mul.
    split; [repeat (apply Forall_cons; split; [unfold is_byte; divlia|]); constructor|].
    cbn [app utf8_decode]. rewrite (proj2 (Z.ltb_ge _ 0x80)) by divlia.
    rewrite (proj2 (Z.ltb_ge _ 0xe0)), andb_false_r by divlia. cbn [andb].
    rewrite (proj2 (Z.leb_le 0xe0 _)), (proj2 (Z.ltb_lt _ 0xf0)) by divlia.
    rewrite !(proj2 (Z.eqb_eq (_ / 64) 2)) by divlia.
    cbn [andb]. do 2 f_equal. divlia.
Qed.

Lemma json_unicode_escape_witness :
  exists s' l, runs read_esc_char (json_of (str "u20AC")) l s' /\ jyields s' [] /\ bytes l /\
    utf8_decode (l ++ []) = Some (2 * 4096 + 0 * 256 + 10 * 16 + 12, []).
Proof.
  apply (json_unicode_escape 2 0 10 12 (json_of (str "u20AC")) [] []); try lia.
  exists 0%nat. by exists [].
Defined.
