(* ===== verification/JsonStruct.v ===== *)
(** * JSON readers for structured data (framework/json.c)

    Arrays, objects, string arrays, binary data, and [json_read_object], which copies one value of
    any kind.  Client callbacks are arguments; their state [T] is the [void *] argument of the C
    interface. *)

From S2P Require Import Prelude Streams Base64 JsonWrite JsonRead.

Section Struct.
Context {IS : Type} {is_ops : InputStream IS}.
Variable fuel : nat.

Notation J := (M (Json IS)).

(** ** Arrays and objects *)

(** The loop of [json_read_array]. *)
Fixpoint json_read_array_loop {T} (n : nat) (call_back : T -> J T) (arg : T) : J T :=
  match n with
  | O => nofuel
  | S n' =>
      let! arg := call_back arg in
      let! ch := read_token fuel in
      if ch =? ch_comma then json_read_array_loop n' call_back arg
      else check_char ch ch_rbra ;! ret arg
  end.

(** [json_read_array]: the boolean is the C result, false for [null]. *)
Definition json_read_array {T} (call_back : T -> J T) (arg : T) : J (bool * T) :=
  let! ch := read_token fuel in
  if ch =? ch_n then
    json_test_chars fuel [ch_u; ch_l; ch_l] ;! ret (false, arg)
  else if negb (ch =? ch_lbra) then throw ERR_PROTOCOL
  else
    let! p := json_peek fuel in
    if p =? ch_rbra then read_stream ;! ret (true, arg)
    else let! arg := json_read_array_loop fuel call_back arg in ret (true, arg).

(** The loop of [json_read_struct]; the name buffer has 256 bytes. *)
Fixpoint json_read_struct_loop {T} (n : nat) (call_back : list Z -> T -> J T) (arg : T) : J T :=
  match n with
  | O => nofuel
  | S n' =>
      let! (_, nm) := json_read_string fuel 256 in
      read_whitespace fuel ;!
      json_test_char fuel ch_colon ;!
      let! arg := call_back nm arg in
      let! ch := read_token fuel in
      if ch =? ch_comma then json_read_struct_loop n' call_back arg
      else check_char ch ch_rcur ;! ret arg
  end.

Definition json_read_struct {T} (call_back : list Z -> T -> J T) (arg : T) : J (bool * T) :=
  let! ch := read_token fuel in
  if ch =? ch_n then
    json_test_chars fuel [ch_u; ch_l; ch_l] ;! ret (false, arg)
  else if negb (ch =? ch_lcur) then throw ERR_PROTOCOL
  else
    let! p := json_peek fuel in
    if p =? ch_rcur then read_stream ;! ret (true, arg)
    else let! arg := json_read_struct_loop fuel call_back arg in ret (true, arg).

(** The loop of [json_read_alloc_string_array]; [lens] is [len_buf[0 .. len_pos)]. *)
Fixpoint read_string_array_loop (n : nat) (lens : list Z) : J (list Z) :=
  match n with
  | O => nofuel
  | S n' =>
      let! ch := read_token fuel in
      let! len :=
        (if ch =? ch_n then
           json_test_chars fuel [ch_u; ch_l; ch_l] ;! ret 0
         else
           let! pos0 := gets (fun s => Z.of_nat (length (js_buf s))) in
           if negb (ch =? ch_quote) then throw ERR_PROTOCOL
           else
             read_string_buf fuel ;!
             let! pos := gets (fun s => Z.of_nat (length (js_buf s))) in
             ret (pos - pos0)) in
      buf_add 0 ;!
      let lens := lens ++ [len] in
      let! ch := read_token fuel in
      if ch =? ch_comma then read_string_array_loop n' lens
      else check_char ch ch_rbra ;! ret lens
  end.

(** The offsets [j] of the strings in the block. *)
Fixpoint string_offsets (j : Z) (lens : list Z) : list Z :=
  match lens with
  | [] => []
  | len :: lens' => j :: string_offsets (j + len + 1) lens'
  end.

(** [json_read_alloc_string_array]: [None] is a null pointer, else the offsets of the strings and
    the block of characters they point into; [*cnt] is the number of offsets. *)
Definition json_read_alloc_string_array : J (option (list Z * list Z)) :=
  let! ch := read_token fuel in
  if ch =? ch_n then
    json_test_chars fuel [ch_u; ch_l; ch_l] ;! ret None
  else if negb (ch =? ch_lbra) then throw ERR_PROTOCOL
  else
    buf_reset ;!
    let! p := json_peek fuel in
    let! lens := (if p =? ch_rbra then read_stream ;! ret []
                  else read_string_array_loop fuel []) in
    buf_add 0 ;!
    let! b := gets js_buf in
    ret (Some (string_offsets 0 lens, b)).

(** ** Binary data *)

(** [struct JsonReadBinaryState] without the stream; [rb_buf] is [buf[0 .. rem)]. *)
Record JsonReadBinaryState := mkRB {
  rb_encoding : Z;
  rb_size_start : Z;
  rb_size_done : Z;
  rb_buf : list Z }.

Definition json_read_binary_start : J JsonReadBinaryState :=
  let! ch := read_token fuel in
  if ch =? ch_lpar then
    let! size := json_read_ulong fuel in
    json_test_char fuel ch_rpar ;!
    ret (mkRB ENCODING_BINARY size 0 [])
  else if ch =? ch_quote then ret (mkRB ENCODING_BASE64 0 0 [])
  else if ch =? ch_n then
    json_test_chars fuel [ch_u; ch_l; ch_l] ;!
    ret (mkRB ENCODING_BINARY 0 0 [])
  else throw ERR_JSON_SYNTAX.

(** The loop of the binary encoding: blocks of the window, or single symbols. *)
Fixpoint read_raw_loop (n : nat) (len : nat) (acc : list Z) : J (list Z) :=
  match n with
  | O => nofuel
  | S n' =>
      if (length acc <? len)%nat then
        let! w := gets is_window in
        if (0 <? length w)%nat then
          let k := Nat.min (length w) (len - length acc) in
          modify (is_advance k) ;!
          read_raw_loop n' len (acc ++ take k w)
        else
          let! b := is_read in
          read_raw_loop n' len (acc ++ [uwrap 8 b])
      else ret acc
  end.

(** The loop of the BASE64 encoding; the boolean tells the early [return]. *)
Fixpoint read_base64_data_loop (n : nat) (rem : list Z) (len : nat) (acc : list Z) :
    J (bool * list Z * list Z) :=
  match n with
  | O => nofuel
  | S n' =>
      if (0 <? len)%nat then
        cassert (length rem <=? 3)%nat ;!
        let i := Nat.min (length rem) len in
        let acc := acc ++ take i rem in
        let len := (len - i)%nat in
        if (i <? length rem)%nat then
          (if (3 <? length rem)%nat then throw ERR_JSON_SYNTAX else ret tt) ;!
          ret (true, acc, drop i rem)
        else if (3 <=? len)%nat then
          let! d := read_base64 (Z.of_nat len) in
          if (length d =? 0)%nat then ret (false, acc, [])
          else read_base64_data_loop n' [] (len - length d)%nat (acc ++ d)
        else
          let! d := read_base64 3 in
          if (length d =? 0)%nat then ret (false, acc, [])
          else read_base64_data_loop n' d len acc
      else ret (false, acc, rem)
  end.

(** [json_read_binary_data]: the bytes stored in the client's buffer of [len] bytes. *)
Definition json_read_binary_data (st : JsonReadBinaryState) (len : nat) :
    J (list Z * JsonReadBinaryState) :=
  let upd st d := mkRB (rb_encoding st) (rb_size_start st)
                    (uwrap 64 (rb_size_done st + Z.of_nat (length d))) (rb_buf st) in
  if rb_encoding st =? ENCODING_BINARY then
    let left := Z.to_nat (uwrap 64 (rb_size_start st - rb_size_done st)) in
    let! d := read_raw_loop fuel (Nat.min len left) [] in
    ret (d, upd st d)
  else
    let! (early, d, rem) := read_base64_data_loop fuel (rb_buf st) len [] in
    let st := mkRB (rb_encoding st) (rb_size_start st) (rb_size_done st) rem in
    ret (d, if early : bool then st else upd st d).

Definition json_read_binary_end (st : JsonReadBinaryState) : J unit :=
  (if (0 <? length (rb_buf st))%nat then throw ERR_JSON_SYNTAX else ret tt) ;!
  if rb_encoding st =? ENCODING_BINARY
  then cassert (rb_size_start st =? rb_size_done st)
  else json_test_char fuel ch_quote.

(** [if (buf_pos >= buf_size) realloc_buf()]. *)
Definition buf_grow : J unit :=
  modify (fun s =>
    if (js_size s <=? N.of_nat (length (js_buf s)))%N
    then mkJson (js_inp s) (js_buf s) (if js_size s =? 0 then 0x1000 else js_size s * 2)%N
    else s).

(** The loop of [json_read_alloc_binary]. *)
Fixpoint read_alloc_binary_loop (n : nat) (st : JsonReadBinaryState) : J JsonReadBinaryState :=
  match n with
  | O => nofuel
  | S n' =>
      buf_grow ;!
      let! room := gets (fun s => (N.to_nat (js_size s) - length (js_buf s))%nat) in
      let! (d, st) := json_read_binary_data st room in
      if (length d =? 0)%nat then ret st
      else
        modify (fun s => mkJson (js_inp s) (js_buf s ++ d) (js_size s)) ;!
        read_alloc_binary_loop n' st
  end.

(** [json_read_alloc_binary]: the data and its size. *)
Definition json_read_alloc_binary : J (option (list Z) * Z) :=
  let! p := json_peek fuel in
  if p =? ch_n then
    read_stream ;!
    json_test_chars fuel [ch_u; ch_l; ch_l] ;!
    ret (None, 0)
  else
    let! st := json_read_binary_start in
    buf_reset ;!
    let! st := read_alloc_binary_loop fuel st in
    let! b := gets js_buf in
    cassert ((rb_size_start st <=? 0) || (Z.of_nat (length b) =? rb_size_start st)) ;!
    json_read_binary_end st ;!
    ret (Some b, Z.of_nat (length b)).

(** ** Copying one value *)

Definition skip_char : J Z :=
  let! ch := read_stream in
  if ch <? 0 then throw ERR_JSON_SYNTAX
  else buf_add ch ;! ret ch.

(** [check_char(skip_char(inp), x)] for each [x]. *)
Fixpoint skip_chars (l : list Z) : J unit :=
  match l with
  | [] => ret tt
  | x :: l' => (let! ch := skip_char in check_char ch x) ;! skip_chars l'
  end.

Fixpoint skip_string (n : nat) : J unit :=
  match n with
  | O => nofuel
  | S n' =>
      let! ch := read_stream in
      if ch <? 0 then throw ERR_JSON_SYNTAX
      else
        buf_add ch ;!
        if ch =? ch_quote then ret tt
        else (if ch =? ch_bslash then skip_char ;! ret tt else ret tt) ;! skip_string n'
  end.

(** The characters that continue a number. *)
Definition num_char (ch : Z) : bool :=
  is_digit ch || (ch =? ch_dot) || (ch =? ch_e) || (ch =? ch_E) || (ch =? ch_minus) || (ch =? ch_plus).

Fixpoint skip_number (n : nat) : J unit :=
  match n with
  | O => nofuel
  | S n' =>
      let! ch := peek_stream in
      if negb (num_char ch) then ret tt
      else skip_char ;! skip_number n'
  end.

(** The loop of the binary case; [size] counts down to zero. *)
Fixpoint skip_bytes (n : nat) (size : Z) : J unit :=
  match n with
  | O => nofuel
  | S n' =>
      if negb (size =? 0) then
        let! ch := read_stream in
        if ch <? 0 then throw ERR_JSON_SYNTAX
        else buf_add ch ;! skip_bytes n' (size - 1)
      else ret tt
  end.

(** The loop over the elements of an array; [skip] is [skip_object]. *)
Fixpoint skip_items (skip : J unit) (n : nat) : J unit :=
  match n with
  | O => nofuel
  | S n' =>
      skip ;!
      read_whitespace fuel ;!
      let! ch := skip_char in
      if ch =? ch_comma then skip_items skip n'
      else check_char ch ch_rbra
  end.

(** The loop over the members of an object. *)
Fixpoint skip_members (skip : J unit) (n : nat) : J unit :=
  match n with
  | O => nofuel
  | S n' =>
      skip ;!
      read_whitespace fuel ;!
      (let! ch := skip_char in check_char ch ch_colon) ;!
      skip ;!
      read_whitespace fuel ;!
      let! ch := skip_char in
      if ch =? ch_comma then skip_members skip n'
      else check_char ch ch_rcur
  end.

(** [skip_object]; [n] bounds the nesting depth. *)
Fixpoint skip_object (n : nat) : J unit :=
  match n with
  | O => nofuel
  | S n' =>
      read_whitespace fuel ;!
      let! ch := skip_char in
      if ch =? ch_n then skip_chars [ch_u; ch_l; ch_l]
      else if ch =? ch_f then skip_chars [ch_a; ch_l; ch_s; ch_e]
      else if ch =? ch_t then skip_chars [ch_r; ch_u; ch_e]
      else if ch =? ch_quote then skip_string fuel
      else if (ch =? ch_minus) || is_digit ch then skip_number fuel
      else if ch =? ch_lbra then
        let! p := json_peek fuel in
        if p =? ch_rbra then skip_char ;! ret tt
        else skip_items (skip_object n') fuel
      else if ch =? ch_lcur then
        let! p := json_peek fuel in
        if p =? ch_rcur then skip_char ;! ret tt
        else skip_members (skip_object n') fuel
      else if ch =? ch_lpar then
        let! size := json_read_ulong fuel in
        (let! ch := skip_char in check_char ch ch_rpar) ;!
        skip_bytes fuel size
      else throw ERR_JSON_SYNTAX
  end.

(** [json_read_object]: the block, terminating zero included. *)
Definition json_read_object : J (list Z) :=
  buf_reset ;!
  skip_object fuel ;!
  buf_add 0 ;!
  gets js_buf.

Definition json_skip_object : J unit :=
  buf_reset ;!
  skip_object fuel.

End Struct.

(** ** Lemmas *)

(** [m] consumes [l] and returns [a]; nothing is said about the static buffer, which callbacks are
    free to use. *)
Definition jtakes `{InputStreamLaws IS} {A} (P : list Z -> Prop) (m : M (Json IS) A)
    (l : list Z) (a : A) : Prop :=
  forall s rest, P rest -> jyields s (l ++ rest) ->
  exists s', runs m s a s' /\ jyields s' rest.

(** Text of a list of elements: they are separated by commas. *)
Fixpoint sep_text (l : list (list Z)) : list Z :=
  match l with
  | [] => []
  | [t] => t
  | t :: l' => t ++ ch_comma :: sep_text l'
  end.

Definition array_text (l : list (list Z)) : list Z := ch_lbra :: sep_text l ++ [ch_rbra].
Definition object_text (l : list (list Z)) : list Z := ch_lcur :: sep_text l ++ [ch_rcur].

(** What may follow an element: the separator or the end of the array or object. *)
Definition item_end (rest : list Z) : Prop :=
  match rest with
  | c :: _ => c = ch_comma \/ c = ch_rbra \/ c = ch_rcur
  | [] => False
  end.

(** A text that begins with a character that is neither white space nor a closing bracket. *)
Definition item_start (t : list Z) : Prop :=
  match t with
  | c :: _ => stops c /\ c <> ch_rbra /\ c <> ch_rcur
  | [] => False
  end.

Lemma item_end_number rest : item_end rest -> ends_number rest.
Proof. destruct rest as [|c rest]; [done|]. by intros [->|[->| ->]]. Qed.

(** A separator and the remaining elements, when there are any. *)
Definition more_text (l : list (list Z)) : list Z :=
  match l with [] => [] | _ => ch_comma :: sep_text l end.

Lemma sep_text_cons t l : sep_text (t :: l) = t ++ more_text l.
Proof. destruct l; [by rewrite app_nil_r|done]. Qed.

Lemma more_item_end l close rest : close = ch_rbra \/ close = ch_rcur ->
  item_end ((more_text l ++ [close]) ++ rest).
Proof. intros [-> | ->]; destruct l; simpl; auto. Qed.

Section StructLemmas.
Context {IS : Type} {is_ops : InputStream IS} {is_laws : InputStreamLaws IS}.
Implicit Types P Q : list Z -> Prop.

Lemma jtakes_of {A} P (m : M (Json IS) A) l a b : jreads P m l a b -> jtakes P m l a.
Proof. intros Hm s rest HP Hy. destruct (Hm s rest HP Hy) as (s' & ? & ? & ?). eauto. Qed.

Lemma jtakes_ret {A} P (a : A) : jtakes (IS := IS) P (ret a) [] a.
Proof. intros s rest _ Hy. by exists s. Qed.

Lemma jtakes_bind {A B} P Q (m : M (Json IS) A) (k : A -> M (Json IS) B) l1 l2 a b :
  jtakes Q m l1 a -> (forall rest, P rest -> Q (l2 ++ rest)) -> jtakes P (k a) l2 b ->
  jtakes P (bind m k) (l1 ++ l2) b.
Proof.
  intros Hm HQ Hk s rest HP Hy. rewrite <- (assoc_L (++)) in Hy.
  destruct (Hm s (l2 ++ rest)) as (s1 & Hr1 & Hy1); auto.
  destruct (Hk s1 rest HP Hy1) as (s2 & Hr2 & Hy2).
  exists s2. split; [by eapply runs_bind|done].
Qed.

Lemma jtakes_seq {A B} P (m : M (Json IS) A) (k : A -> M (Json IS) B) l1 l2 a b :
  jtakes (fun _ => True) m l1 a -> jtakes P (k a) l2 b -> jtakes P (bind m k) (l1 ++ l2) b.
Proof. intros Hm Hk. by eapply jtakes_bind. Qed.

Lemma jtakes_nil {A B} P (m : M (Json IS) A) (k : A -> M (Json IS) B) l a b :
  jtakes (fun _ => True) m [] a -> jtakes P (k a) l b -> jtakes P (bind m k) l b.
Proof. intros Hm Hk. by apply (jtakes_seq P m k [] l a b). Qed.

Lemma jtakes_token P fuel c : stops c -> (0 < fuel)%nat -> jtakes (IS := IS) P (read_token fuel) [c] c.
Proof. intros. eapply jtakes_of. by apply jreads_token. Qed.

Lemma jtakes_stream P c : jtakes (IS := IS) P read_stream [c] c.
Proof. eapply jtakes_of. by apply jreads_stream. Qed.

(** Looking at the next character, when it is not white space. *)
Lemma jpeek_token fuel s x rest : (0 < fuel)%nat -> stops x -> jyields s (x :: rest) ->
  exists s', runs (json_peek (IS := IS) fuel) s x s' /\ jyields s' (x :: rest) /\ js_buf s' = js_buf s.
Proof.
  intros Hf Hx Hy. destruct (jpeek s x rest Hy) as (s1 & R1 & Hy1 & Hb1).
  exists s1. split; [|done]. destruct fuel; [lia|]. cbn [json_peek].
  eapply runs_bind; [exact R1|]. by rewrite Hx.
Qed.

(** A closing bracket seen by [json_peek], or the beginning of an element. *)
Lemma jtakes_peek {A} P fuel c l (k : Z -> M (Json IS) A) a : (0 < fuel)%nat -> stops c ->
  jtakes P (k c) (c :: l) a -> jtakes P (bind (json_peek fuel) k) (c :: l) a.
Proof.
  intros Hf Hc Hk s rest HP Hy. destruct (jpeek_token fuel s c (l ++ rest) Hf Hc Hy) as (s1 & R1 & Hy1 & _).
  destruct (Hk s1 rest HP Hy1) as (s2 & R2 & Hy2). exists s2. split; [by eapply runs_bind|done].
Qed.

(** The part of the loops after the element: a separator and the remaining elements, or the closing
    bracket. *)
Lemma jtakes_more {A} P fuel (k1 k2 : M (Json IS) A) (close : Z) l a : (0 < fuel)%nat ->
  close = ch_rbra \/ close = ch_rcur ->
  (l <> [] -> jtakes P k1 (sep_text l ++ [close]) a) ->
  (l = [] -> jtakes P k2 [] a) ->
  jtakes P (let! ch := read_token fuel in if ch =? ch_comma then k1 else check_char ch close ;! k2)
    (more_text l ++ [close]) a.
Proof.
  intros Hf Hclose H1 H2. destruct l as [|x l].
  - eapply (jtakes_seq P _ _ [close] [] close); [apply jtakes_token; [by destruct Hclose as [-> | ->]|done]|].
    replace (close =? ch_comma) with false by (by destruct Hclose as [-> | ->]).
    eapply jtakes_nil; [|by apply H2]. intros s rest _ Hy. exists s. split; [apply check_char_refl|done].
  - eapply (jtakes_seq P _ _ [ch_comma] _ ch_comma); [by apply jtakes_token|]. by apply H1.
Qed.

Lemma fmap_nil_iff_ne {A B} (f : A -> B) l : map f l <> [] -> l <> [].
Proof. by destruct l. Qed.

Section Items.
Context {T X : Type} (text : X -> list Z) (step : T -> X -> T) (fuel : nat).
Hypothesis fuel_pos : (0 < fuel)%nat.

(** [json_read_array] calls [call_back] for each element, in order. *)
Lemma jtakes_array_loop P (call_back : T -> M (Json IS) T) xs : xs <> [] ->
  (forall t x, x ∈ xs -> jtakes item_end (call_back t) (text x) (step t x)) ->
  forall n t, (length xs <= n)%nat ->
  jtakes P (json_read_array_loop fuel n call_back t) (sep_text (map text xs) ++ [ch_rbra])
    (fold_left step xs t).
Proof.
  intros Hne Hcb. induction xs as [|x xs IH]; [done|]. intros n t Hn. destruct n as [|n]; [cbn [length] in Hn; lia|].
  cbn [json_read_array_loop fold_left map]. rewrite sep_text_cons, <- (assoc_L (++)).
  eapply (jtakes_bind P item_end); [apply Hcb; left|intros; apply more_item_end; auto|].
  apply jtakes_more; [done|auto|intros Hxs%fmap_nil_iff_ne|intros ->%map_eq_nil; apply jtakes_ret].
  apply IH; [done|intros; apply Hcb; by right|cbn [length] in Hn; lia].
Qed.

Lemma item_start_app t l : item_start t -> exists c t', t ++ l = c :: t' /\ stops c /\ c <> ch_rbra /\ c <> ch_rcur.
Proof. destruct t as [|c t]; [done|]. intros (? & ? & ?). by exists c, (t ++ l). Qed.

Lemma jtakes_array P (call_back : T -> M (Json IS) T) xs t : (length xs <= fuel)%nat ->
  (forall x, x ∈ xs -> item_start (text x)) ->
  (forall t x, x ∈ xs -> jtakes item_end (call_back t) (text x) (step t x)) ->
  jtakes P (json_read_array fuel call_back t) (array_text (map text xs)) (true, fold_left step xs t).
Proof.
  intros Hn Hst Hcb. unfold json_read_array, array_text.
  eapply (jtakes_seq P _ _ [ch_lbra] _ ch_lbra); [by apply jtakes_token|]. cbn [Z.eqb Pos.eqb negb].
  destruct xs as [|x xs].
  - cbn [map sep_text app]. apply jtakes_peek; [done..|]. cbn [Z.eqb Pos.eqb].
    eapply (jtakes_seq P _ _ [ch_rbra] [] ch_rbra); [apply jtakes_stream|apply jtakes_ret].
  - destruct (item_start_app (text x) (more_text (map text xs) ++ [ch_rbra]))
      as (c & t' & E & Hc & Hb & _); [apply Hst; left|].
    cbn [map]. rewrite sep_text_cons, <- (assoc_L (++)), E. apply jtakes_peek; [done..|].
    rewrite (proj2 (Z.eqb_neq c ch_rbra)) by done. rewrite <- E, (assoc_L (++)), <- sep_text_cons.
    rewrite <- (app_nil_r (_ ++ _)). eapply (jtakes_seq P); [by apply (jtakes_array_loop _ call_back (x :: xs))|apply jtakes_ret].
Qed.

(** Members of an object: a name and a value. *)
Context (name : X -> list Z).

Definition member_text (x : X) : list Z := string_text (Some (name x)) ++ ch_colon :: text x.

(** [json_read_string] with a buffer that may be shorter than the string. *)
Lemma jtakes_string P size nm : bytes nm -> (length nm < fuel)%nat -> Z.of_nat (length nm) < 2 ^ 32 -> 1 <= size ->
  jtakes (IS := IS) P (json_read_string fuel size) (string_text (Some nm))
    (swrap 32 (Z.of_nat (length nm)), take (Z.to_nat (size - 1)) nm).
Proof.
  intros Hb Hl Hm Hs. unfold json_read_string. cbn [string_text].
  eapply (jtakes_seq P _ _ [ch_quote] _ ch_quote); [by apply jtakes_token|].
  cbn [Z.eqb Pos.eqb negb]. eapply jtakes_of.
  pose proof (jreads_string_loop (IS := IS) P nm Hb fuel size 0 [] Hl Hs ltac:(lia) Hm ltac:(cbn; lia)) as J. by rewrite Z.sub_0_r in J.
Qed.

Lemma jtakes_white {A} P c l (k : unit -> M (Json IS) A) a : stops c ->
  jtakes P (k tt) (c :: l) a -> jtakes P (bind (read_whitespace fuel) k) (c :: l) a.
Proof.
  intros Hc Hk s rest HP Hy. destruct (jpeek s c (l ++ rest) Hy) as (s1 & R1 & Hy1 & _).
  destruct (Hk s1 rest HP Hy1) as (s2 & R2 & Hy2). exists s2. split; [|done].
  eapply runs_bind; [|exact R2]. destruct fuel; [lia|]. cbn [read_whitespace].
  eapply runs_bind; [exact R1|]. by rewrite Hc.
Qed.

(** [json_read_struct] calls [call_back] for each member with the first 255 bytes of its name. *)
Lemma jtakes_struct_loop P (call_back : list Z -> T -> M (Json IS) T) xs : xs <> [] ->
  (forall x, x ∈ xs -> bytes (name x) /\ (length (name x) < fuel)%nat /\ Z.of_nat (length (name x)) < 2 ^ 32) ->
  (forall t x, x ∈ xs -> jtakes item_end (call_back (take 255 (name x)) t) (text x) (step t x)) ->
  forall n t, (length xs <= n)%nat ->
  jtakes P (json_read_struct_loop fuel n call_back t) (sep_text (map member_text xs) ++ [ch_rcur])
    (fold_left step xs t).
Proof.
  intros Hne Hnm Hcb. induction xs as [|x xs IH]; [done|]. intros n t Hn. destruct n as [|n]; [cbn [length] in Hn; lia|].
  cbn [json_read_struct_loop fold_left map].
  rewrite sep_text_cons. unfold member_text at 1. rewrite <- !(assoc_L (++)).
  destruct (Hnm x ltac:(left)) as (Hb & Hl & Hmax).
  eapply (jtakes_seq P); [by apply jtakes_string; [..|lia]|]. cbn beta iota.
  cbn [app]. apply jtakes_white; [done|].
  eapply (jtakes_seq P _ _ [ch_colon] _ tt); [eapply jtakes_of; by apply jreads_test_char|].
  eapply (jtakes_bind P item_end).
  { change (Z.to_nat (256 - 1)) with 255%nat. apply Hcb. left. }
  { intros. apply more_item_end. auto. }
  apply jtakes_more; [done|auto|intros Hxs%fmap_nil_iff_ne|intros ->%map_eq_nil; apply jtakes_ret].
  apply IH; [done|intros; apply Hnm; by right|intros; apply Hcb; by right|cbn [length] in Hn; lia].
Qed.

Lemma jtakes_struct P (call_back : list Z -> T -> M (Json IS) T) xs t : (length xs <= fuel)%nat ->
  (forall x, x ∈ xs -> bytes (name x) /\ (length (name x) < fuel)%nat /\ Z.of_nat (length (name x)) < 2 ^ 32) ->
  (forall t x, x ∈ xs -> jtakes item_end (call_back (take 255 (name x)) t) (text x) (step t x)) ->
  jtakes P (json_read_struct fuel call_back t) (object_text (map member_text xs)) (true, fold_left step xs t).
Proof.
  intros Hn Hnm Hcb. unfold json_read_struct, object_text.
  eapply (jtakes_seq P _ _ [ch_lcur] _ ch_lcur); [by apply jtakes_token|]. cbn [Z.eqb Pos.eqb negb].
  destruct (decide (xs = [])) as [->|Hne].
  - cbn [map sep_text app]. apply jtakes_peek; [done..|]. cbn [Z.eqb Pos.eqb].
    eapply (jtakes_seq P _ _ [ch_rcur] [] ch_rcur); [apply jtakes_stream|apply jtakes_ret].
  - assert (exists l, sep_text (map member_text xs) ++ [ch_rcur] = ch_quote :: l) as [l E].
    { destruct xs as [|x xs]; [done|]. cbn [map]. rewrite sep_text_cons. unfold member_text at 1.
      cbn [string_text]. eexists. reflexivity. }
    rewrite E. apply jtakes_peek; [done..|]. cbn [Z.eqb Pos.eqb]. rewrite <- E, <- (app_nil_r (_ ++ _)).
    eapply (jtakes_seq P); [by apply jtakes_struct_loop|apply jtakes_ret].
Qed.
End Items.
End StructLemmas.

(** *** String arrays *)

(** The block [json_read_alloc_string_array] builds: every string is followed by a zero. *)
Definition string_block (l : list (option (list Z))) : list Z :=
  concat (map (fun so => default [] so ++ [0]) l).

Definition string_lens (l : list (option (list Z))) : list Z :=
  map (fun so => Z.of_nat (length (default [] so))) l.

Definition good_string (fuel : nat) (so : option (list Z)) : Prop :=
  bytes (default [] so) /\ (length (default [] so) < fuel)%nat.

Section StringArray.
Context {IS : Type} {is_ops : InputStream IS} {is_laws : InputStreamLaws IS}.
Variable fuel : nat.
Hypothesis fuel_pos : (0 < fuel)%nat.

Lemma string_array_loop_spec l : l <> [] -> Forall (good_string fuel) l -> forall n lens (s : Json IS) rest,
  (length l <= n)%nat -> jyields s (sep_text (map string_text l) ++ ch_rbra :: rest) ->
  exists s', runs (read_string_array_loop fuel n lens) s (lens ++ string_lens l) s' /\
    jyields s' rest /\ js_buf s' = js_buf s ++ string_block l.
Proof.
  induction l as [|so l IH]; [done|]. intros _ [[Hb Hl] Hgood]%Forall_cons n lens s rest Hn Hy.
  destruct n as [|n]; [cbn [length] in Hn; lia|]. cbn [read_string_array_loop].
  cbn [map] in Hy. rewrite sep_text_cons, <- (assoc_L (++)) in Hy.
  set (tail := more_text (map string_text l) ++ ch_rbra :: rest) in *.
  (* The string. *)
  assert (exists s1 s2 ch, runs (read_token fuel) s ch s1 /\
    runs (if ch =? ch_n then json_test_chars fuel [ch_u; ch_l; ch_l] ;! ret 0
          else let! pos0 := gets (fun s => Z.of_nat (length (js_buf s))) in
               if negb (ch =? ch_quote) then throw ERR_PROTOCOL
               else read_string_buf fuel ;!
                    let! pos := gets (fun s => Z.of_nat (length (js_buf s))) in ret (pos - pos0))
      s1 (Z.of_nat (length (default [] so))) s2 /\
    jyields s2 tail /\ js_buf s2 = js_buf s ++ default [] so) as (s1 & s2 & ch & R1 & R2 & Hy2 & Hb2).
  { destruct so as [t|]; cbn [string_text default] in *; unfold id in *.
    - norm_app_in Hy.
      destruct (jreads_token (fun _ => True) fuel ch_quote ltac:(done) fuel_pos s (chars_text t ++ ch_quote :: tail) I Hy)
        as (s1 & R1 & Hy1 & Hb1). rewrite app_nil_r in Hb1.
      change (ch_quote :: tail) with ([ch_quote] ++ tail) in Hy1. rewrite (assoc_L (++)) in Hy1.
      destruct (jreads_string_buf (fun _ => True) t fuel Hb Hl s1 tail I Hy1) as (s2 & R2 & Hy2 & Hb2).
      exists s1, s2, ch_quote. split; [done|]. split; [|by rewrite Hb2, Hb1].
      cbn [Z.eqb Pos.eqb negb]. eapply runs_bind; [apply runs_gets|]. eapply runs_bind; [exact R2|].
      eapply runs_bind; [apply runs_gets|]. rewrite Hb2, length_app.
      replace (Z.of_nat (length t)) with (Z.of_nat (length (js_buf s1) + length t) - Z.of_nat (length (js_buf s1))) by lia.
      apply runs_ret.
    - destruct (jreads_token (fun _ => True) fuel ch_n ltac:(done) fuel_pos s ([ch_u; ch_l; ch_l] ++ tail) I Hy)
        as (s1 & R1 & Hy1 & Hb1). rewrite app_nil_r in Hb1.
      destruct (jreads_null (fun _ => True) fuel fuel_pos s1 tail I Hy1) as (s2 & R2 & Hy2 & Hb2).
      rewrite app_nil_r in Hb2. exists s1, s2, ch_n. rewrite app_nil_r. split; [done|].
      split; [|by rewrite Hb2, Hb1]. cbn [Z.eqb Pos.eqb]. eapply runs_bind; [exact R2|apply runs_ret]. }
  destruct (jreads_buf_add (fun _ => True) 0 ltac:(done) s2 tail I Hy2) as (s3 & R3 & Hy3 & Hb3).
  assert (Hblock : js_buf s3 = js_buf s ++ (default [] so ++ [0])) by (by rewrite Hb3, Hb2, (assoc_L (++))).
  cut (exists s', runs (let! ch := read_token fuel in
      if ch =? ch_comma then read_string_array_loop fuel n (lens ++ [Z.of_nat (length (default [] so))])
      else check_char ch ch_rbra ;! ret (lens ++ [Z.of_nat (length (default [] so))])) s3
      (lens ++ string_lens (so :: l)) s' /\ jyields s' rest /\ js_buf s' = js_buf s3 ++ string_block l).
  { intros (s' & R & Hy' & Hb'). exists s'. split; [|split; [done|]].
    - eapply runs_bind; [exact R1|]. eapply runs_bind; [exact R2|]. eapply runs_bind; [exact R3|]. exact R.
    - rewrite Hb', Hblock, <- (assoc_L (++)). done. }
  change (string_lens (so :: l)) with ([Z.of_nat (length (default [] so))] ++ string_lens l).
  rewrite (assoc_L (++)). destruct l as [|so' l]; subst tail; cbn [map more_text app] in Hy3.
  - destruct (jreads_token (fun _ => True) fuel ch_rbra ltac:(done) fuel_pos s3 rest I Hy3) as (s4 & R4 & Hy4 & Hb4).
    exists s4. rewrite app_nil_r. split; [|by rewrite Hb4].
    eapply runs_bind; [exact R4|]. cbn [Z.eqb Pos.eqb]. eapply runs_bind; [apply check_char_refl|apply runs_ret].
  - destruct (jreads_token (fun _ => True) fuel ch_comma ltac:(done) fuel_pos s3 _ I Hy3) as (s4 & R4 & Hy4 & Hb4).
    rewrite app_nil_r in Hb4.
    destruct (IH ltac:(done) Hgood n (lens ++ [Z.of_nat (length (default [] so))]) s4 rest) as (s5 & R5 & Hy5 & Hb5);
      [cbn [length] in *; lia|done|].
    exists s5. split; [|split; [done|by rewrite Hb5, Hb4]]. by eapply runs_bind; [exact R4|].
Qed.

End StringArray.

Lemma string_offsets_length j lens : length (string_offsets j lens) = length lens.
Proof. revert j. induction lens as [|x lens IH]; intros j; [done|]. simpl. by rewrite IH. Qed.

(** The offsets lead to the strings. *)
Lemma string_offsets_block l : forall pre i so, l !! i = Some so ->
  exists off, string_offsets (Z.of_nat (length pre)) (string_lens l) !! i = Some (Z.of_nat off) /\
    take (S (length (default [] so))) (drop off (pre ++ string_block l ++ [0])) = default [] so ++ [0].
Proof.
  induction l as [|so' l IH]; [done|]. intros pre i so Hi.
  change (string_block (so' :: l)) with ((default [] so' ++ [0]) ++ string_block l).
  cbn [string_lens map string_offsets]. destruct i as [|i].
  - cbn in Hi. injection Hi as ->. exists (length pre). split; [done|].
    rewrite drop_app_length, <- (assoc_L (++)).
    replace (S (length (default [] so))) with (length (default [] so ++ [0])) by (rewrite length_app; simpl; lia).
    apply take_app_length.
  - destruct (IH (pre ++ default [] so' ++ [0]) i so Hi) as (off & Ho & Ht). exists off.
    rewrite !length_app in Ho. cbn [length] in Ho.
    replace (Z.of_nat (length pre) + Z.of_nat (length (default [] so')) + 1)
      with (Z.of_nat (length pre + (length (default [] so') + 1))) by lia.
    split; [exact Ho|]. rewrite <- Ht. by rewrite <- !(assoc_L (++)).
Qed.

(** ** Properties *)

(** [json_read_array] calls its callback exactly once for each element of an array, in order,
    each time with the stream at the element, and leaves the stream after the closing bracket;
    [json_read_struct] does the same for the members of an object, passing the first 255 bytes of the
    decoded name.  [elem] and [name] give the texts; the callbacks may use the parser in any way as
    long as they consume their own text. *)
Theorem json_read_items `{InputStreamLaws IS} {T X} (elem : X -> list Z) (name : X -> list Z)
    (next : T -> X -> T) fuel xs t (cb_a : T -> M (Json IS) T) (cb_s : list Z -> T -> M (Json IS) T)
    (s1 s2 : Json IS) rest :
  (0 < fuel)%nat -> (length xs <= fuel)%nat ->
  (forall x, x ∈ xs -> item_start (elem x) /\ bytes (name x) /\ (length (name x) < fuel)%nat /\ Z.of_nat (length (name x)) < 2 ^ 32) ->
  (forall t x, x ∈ xs -> jtakes item_end (cb_a t) (elem x) (next t x) /\
     jtakes item_end (cb_s (take 255 (name x)) t) (elem x) (next t x)) ->
  jyields s1 (array_text (map elem xs) ++ rest) ->
  jyields s2 (object_text (map (member_text elem name) xs) ++ rest) ->
  (exists s', runs (json_read_array fuel cb_a t) s1 (true, fold_left next xs t) s' /\ jyields s' rest) /\
  (exists s', runs (json_read_struct fuel cb_s t) s2 (true, fold_left next xs t) s' /\ jyields s' rest).
Proof.
  intros Hf Hn Hx Hcb Hy1 Hy2. split.
  - eapply (jtakes_array elem next fuel Hf (fun _ => True)); [done| | |done|exact Hy1].
    + intros x Hin. apply (Hx x Hin).
    + intros t' x Hin. apply (Hcb t' x Hin).
  - eapply (jtakes_struct elem next fuel Hf name (fun _ => True)); [done| | |done|exact Hy2].
    + intros x Hin. split; apply (Hx x Hin).
    + intros t' x Hin. apply (Hcb t' x Hin).
Qed.

(** Arrays and objects of integers, summed up. *)
Definition sum_member (fuel : nat) (t : Z) : M (Json ByteArrayInputStream) Z :=
  let! x := json_read_long fuel in ret (t + x).

Lemma sum_member_takes t x : - 2 ^ 63 <= x < 2 ^ 63 ->
  jtakes item_end (sum_member 30 t) (long_text x) (t + x).
Proof.
  intros Hx. rewrite <- (app_nil_r (long_text x)). eapply jtakes_bind; [| |apply jtakes_ret].
  - eapply jtakes_of. apply jreads_long; [done|unfold ULONG_DIGITS; lia].
  - intros rest. rewrite app_nil_l. apply item_end_number.
Qed.

Lemma json_read_items_witness :
  (exists s', runs (json_read_array 30 (sum_member 30) 0) (json_of (array_text [long_text 5; long_text (-7)] ++ []))
     (true, -2) s' /\ jyields s' []) /\
  (exists s', runs (json_read_struct 30 (fun _ => sum_member 30) 0)
     (json_of (object_text (map (member_text long_text (fun _ => [ch_a])) [5; -7]) ++ [])) (true, -2) s' /\
   jyields s' []).
Proof.
  refine (json_read_items long_text (fun _ => [ch_a]) Z.add 30 [5; -7] 0 (sum_member 30) (fun _ => sum_member 30)
    _ _ _ _ _ _ _ _ _).
  - lia.
  - simpl. lia.
  - intros x Hx. split; [|split; [by repeat constructor|simpl; lia]].
    rewrite !elem_of_cons, elem_of_nil in Hx. destruct Hx as [->|[->|[]]]; by vm_compute.
  - intros t x Hx.
    assert (- 2 ^ 63 <= x < 2 ^ 63) by
      (rewrite !elem_of_cons, elem_of_nil in Hx; destruct Hx as [->|[->|[]]]; lia).
    split; by apply sum_member_takes.
  - exists 0%nat. by exists [].
  - exists 0%nat. by exists [].
Defined.

(** [json_read_alloc_string_array] returns one offset per element of an array of strings; at the
    offset of an element the block holds the decoded string and a terminating zero.  A null element
    becomes the empty string. *)
Theorem json_string_array `{InputStreamLaws IS} fuel l (s : Json IS) rest :
  (0 < fuel)%nat -> (length l <= fuel)%nat -> Forall (good_string fuel) l ->
  jyields s (array_text (map string_text l) ++ rest) ->
  exists offs block s', runs (json_read_alloc_string_array fuel) s (Some (offs, block)) s' /\
    jyields s' rest /\ length offs = length l /\
    forall i so, l !! i = Some so ->
    exists off, offs !! i = Some (Z.of_nat off) /\
      take (S (length (default [] so))) (drop off block) = default [] so ++ [0].
Proof.
  intros Hf Hn Hgood Hy. exists (string_offsets 0 (string_lens l)), (string_block l ++ [0]).
  unfold json_read_alloc_string_array, array_text in *. norm_app_in Hy.
  destruct (jreads_token (fun _ => True) fuel ch_lbra ltac:(done) Hf s _ I Hy) as (s1 & R1 & Hy1 & _).
  set (s2 := mkJson (js_inp s1) [] (js_size s1)).
  assert (exists p s3, runs (json_peek fuel) s2 p s3 /\ js_buf s3 = [] /\
    exists s4, runs (if p =? ch_rbra then read_stream ;! ret [] else read_string_array_loop fuel fuel []) s3
      (string_lens l) s4 /\ jyields s4 rest /\ js_buf s4 = string_block l)
    as (p & s3 & R3 & Hb3 & s4 & R4 & Hy4 & Hb4).
  { destruct l as [|so l].
    - destruct (jpeek_token fuel s2 ch_rbra rest Hf ltac:(done) Hy1) as (s3 & R3 & Hy3 & Hb3).
      destruct (jreads_stream (fun _ => True) ch_rbra s3 rest I Hy3) as (s4 & R4 & Hy4 & Hb4).
      exists ch_rbra, s3. split; [done|]. split; [done|]. exists s4. cbn [Z.eqb Pos.eqb].
      split; [by eapply runs_bind; [exact R4|]|]. split; [done|]. by rewrite Hb4, Hb3.
    - assert (exists c t, sep_text (map string_text (so :: l)) ++ ch_rbra :: rest = c :: t /\ stops c /\ c <> ch_rbra)
        as (c & t & E & Hc & Hcb).
      { cbn [map]. rewrite sep_text_cons. destruct so; cbn [string_text]; by eexists _, _. }
      pose proof Hy1 as Hyc. rewrite E in Hyc.
      destruct (jpeek_token fuel s2 c t Hf Hc Hyc) as (s3 & R3 & Hy3 & Hb3). rewrite <- E in Hy3.
      destruct (string_array_loop_spec fuel Hf (so :: l) ltac:(done) Hgood fuel [] s3 rest Hn Hy3)
        as (s4 & R4 & Hy4 & Hb4).
      exists c, s3. split; [done|]. split; [done|]. exists s4. rewrite (proj2 (Z.eqb_neq c ch_rbra)) by done.
      split; [exact R4|]. split; [done|]. by rewrite Hb4, Hb3. }
  destruct (jreads_buf_add (fun _ => True) 0 ltac:(done) s4 rest I Hy4) as (s5 & R5 & Hy5 & Hb5).
  exists s5. split; [|split; [done|split]].
  - eapply runs_bind; [exact R1|]. cbn [Z.eqb Pos.eqb negb]. eapply runs_bind; [apply runs_modify|].
    eapply runs_bind; [exact R3|]. eapply runs_bind; [exact R4|]. eapply runs_bind; [exact R5|].
    eapply runs_bind; [apply runs_gets|]. by rewrite Hb5, Hb4.
  - rewrite string_offsets_length. apply length_map.
  - intros i so Hi. exact (string_offsets_block l [] i so Hi).
Qed.

Lemma json_string_array_witness :
  exists offs block s',
    runs (json_read_alloc_string_array 20) (json_of (array_text (map string_text [Some [104; 34]; None]) ++ []))
      (Some (offs, block)) s' /\
    jyields s' [] /\ length offs = 2%nat /\
    forall i so, [Some [104; 34]; None] !! i = Some so ->
    exists off, offs !! i = Some (Z.of_nat off) /\
      take (S (length (default [] so))) (drop off block) = default [] so ++ [0].
Proof.
  refine (json_string_array 20 [Some [104; 34]; None] _ [] _ _ _ _).
  - lia.
  - simpl. lia.
  - repeat constructor; simpl; lia.
  - exists 0%nat. by exists [].
Defined.
