(* ===== verification/JsonCopy.v ===== *)
(** * Copying a JSON value (framework/json.c, [json_read_object])

    The grammar of the values [skip_object] accepts, as a relation between a text and the copy the
    function leaves in the static buffer, and the theorem that it does so for every such text. *)

From S2P Require Import Prelude Streams Base64 JsonWrite JsonRead JsonStruct.

(** The part of a string after the opening quote. *)
Inductive string_rest : list Z -> Prop :=
  | str_end : string_rest [ch_quote]
  | str_plain c l : is_byte c -> c <> ch_quote -> c <> ch_bslash -> string_rest l -> string_rest (c :: l)
  | str_esc c l : is_byte c -> string_rest l -> string_rest (ch_bslash :: c :: l).

(** [jvalue b l o]: [l] is the text of a value and [o] its copy.  White space may surround
    punctuation and is not copied.  Binary values are allowed if [b]; of the size prefix of a
    binary value only the parentheses are copied. *)
Inductive jvalue (b : bool) : list Z -> list Z -> Prop :=
  | jv_null : jvalue b (str "null") (str "null")
  | jv_bool v : jvalue b (boolean_text v) (boolean_text v)
  | jv_string l : string_rest l -> jvalue b (ch_quote :: l) (ch_quote :: l)
  | jv_number c l : (c =? ch_minus) || is_digit c = true -> Forall (fun c => num_char c = true) l ->
      jvalue b (c :: l) (c :: l)
  | jv_binary data : b = true -> bytes data -> Z.of_nat (length data) < 2 ^ 64 ->
      jvalue b (ch_lpar :: ulong_text (Z.of_nat (length data)) ++ ch_rpar :: data)
        (ch_lpar :: ch_rpar :: data)
  | jv_array0 ws : spaces ws -> jvalue b (ch_lbra :: ws ++ [ch_rbra]) [ch_lbra; ch_rbra]
  | jv_array ws l o : spaces ws -> jitems b l o -> jvalue b (ch_lbra :: ws ++ l) (ch_lbra :: o)
  | jv_object0 ws : spaces ws -> jvalue b (ch_lcur :: ws ++ [ch_rcur]) [ch_lcur; ch_rcur]
  | jv_object ws l o : spaces ws -> jmembers b l o -> jvalue b (ch_lcur :: ws ++ l) (ch_lcur :: o)
with jitems (b : bool) : list Z -> list Z -> Prop :=
  | ji_last ws l o : jvalue b l o -> spaces ws -> jitems b (l ++ ws ++ [ch_rbra]) (o ++ [ch_rbra])
  | ji_more ws1 ws2 l o l' o' : jvalue b l o -> spaces ws1 -> spaces ws2 -> jitems b l' o' ->
      jitems b (l ++ ws1 ++ ch_comma :: ws2 ++ l') (o ++ ch_comma :: o')
with jmembers (b : bool) : list Z -> list Z -> Prop :=
  | jm_last ws1 ws2 ws3 k l o : string_rest k -> jvalue b l o -> spaces ws1 -> spaces ws2 -> spaces ws3 ->
      jmembers b ((ch_quote :: k) ++ ws1 ++ ch_colon :: ws2 ++ l ++ ws3 ++ [ch_rcur])
        ((ch_quote :: k) ++ ch_colon :: o ++ [ch_rcur])
  | jm_more ws1 ws2 ws3 ws4 k l o l' o' : string_rest k -> jvalue b l o ->
      spaces ws1 -> spaces ws2 -> spaces ws3 -> spaces ws4 -> jmembers b l' o' ->
      jmembers b ((ch_quote :: k) ++ ws1 ++ ch_colon :: ws2 ++ l ++ ws3 ++ ch_comma :: ws4 ++ l')
        ((ch_quote :: k) ++ ch_colon :: o ++ ch_comma :: o').

Scheme jvalue_mind := Minimality for jvalue Sort Prop
  with jitems_mind := Minimality for jitems Sort Prop
  with jmembers_mind := Minimality for jmembers Sort Prop.
Combined Scheme json_mind from jvalue_mind, jitems_mind, jmembers_mind.

(** What may follow a value: a symbol that does not continue a number. *)
Definition value_end (rest : list Z) : Prop :=
  match rest with [] => False | c :: _ => num_char c = false end.

(** ** Lemmas *)

Definition starts_stop (l : list Z) : Prop := exists c l', l = c :: l' /\ stops c.

Lemma jvalue_start b l o : jvalue b l o -> exists c l', l = c :: l' /\ stops c /\ c <> ch_rbra /\ c <> ch_rcur.
Proof.
  intros [|[]| |c l' Hc| | | | |]; try by (eexists _, _; split; [reflexivity|by split]).
  exists c, l'. split; [done|]. apply orb_true_iff in Hc as [->%Z.eqb_eq|Hc]; [done|].
  split; [by apply digit_stops|]. unfold is_digit in Hc. bool_to_prop. lia.
Qed.

Lemma jitems_start b l o : jitems b l o -> exists c l', l = c :: l' /\ stops c /\ c <> ch_rbra.
Proof.
  intros [ws l' o' (c & l1 & -> & Hc & Hb & _)%jvalue_start _|ws1 ws2 l' o' l2 o2 (c & l1 & -> & Hc & Hb & _)%jvalue_start _ _ _];
    eexists _, _; (split; [cbn [app]; reflexivity|done]).
Qed.

Lemma jmembers_start b l o : jmembers b l o -> exists l', l = ch_quote :: l'.
Proof. intros []; eexists; reflexivity. Qed.

Lemma space_value_end c l : (c >? 0) && isspace c = true -> value_end (c :: l).
Proof.
  unfold isspace, value_end, num_char, is_digit. intros [_ H]%andb_true_iff.
  apply orb_true_iff in H as [->%Z.eqb_eq|H]; [done|]. bool_to_prop.
  repeat (apply orb_false_iff; split); lia.
Qed.

Lemma spaces_value_end ws c l : spaces ws -> value_end [c] -> value_end (ws ++ c :: l).
Proof. destruct 1; [done|]. intros _. by apply space_value_end. Qed.

Section Copy.
Context {IS : Type} {is_ops : InputStream IS} {is_laws : InputStreamLaws IS}.
Variable fuel : nat.
Hypothesis fuel_pos : (0 < fuel)%nat.
Implicit Types P Q : list Z -> Prop.

Notation any := (fun _ : list Z => True).

(** White space is consumed, up to the next symbol. *)
Lemma jpeek_spaces n ws c (s : Json IS) rest : spaces ws -> stops c -> (length ws < n)%nat ->
  jyields s (ws ++ c :: rest) ->
  (exists s', runs (json_peek n) s c s' /\ jyields s' (c :: rest) /\ js_buf s' = js_buf s) /\
  (exists s', runs (read_whitespace n) s tt s' /\ jyields s' (c :: rest) /\ js_buf s' = js_buf s).
Proof.
  intros Hws Hc. revert n s. induction Hws as [|x ws Hx Hws IH]; intros n s Hn Hy;
    (destruct n as [|n]; [cbn [length] in Hn; lia|]); cbn [json_peek read_whitespace].
  - destruct (jpeek s c rest Hy) as (s1 & R1 & Hy1 & Hb1).
    split; (exists s1; split; [eapply runs_bind; [exact R1|]; by rewrite Hc|done]).
  - destruct (jpeek s x _ Hy) as (s1 & R1 & Hy1 & Hb1).
    destruct (jreads_stream any x s1 _ I Hy1) as (s2 & R2 & Hy2 & Hb2). rewrite app_nil_r in Hb2.
    destruct (IH n s2 ltac:(cbn [length] in Hn; lia) Hy2) as [(s3 & R3 & Hy3 & Hb3) (s4 & R4 & Hy4 & Hb4)].
    split; [exists s3|exists s4]; (split; [|split; [done|congruence]]);
      (eapply runs_bind; [exact R1|]; rewrite Hx; eapply runs_bind; [exact R2|done]).
Qed.

Lemma jreads_spaces {A} P ws c l (m : M (Json IS) A) a b : spaces ws -> stops c -> (length ws < fuel)%nat ->
  jreads P m (c :: l) a b -> jreads P (read_whitespace fuel ;! m) (ws ++ c :: l) a b.
Proof.
  intros Hws Hc Hf Hm s rest HP Hy. rewrite <- (assoc_L (++)) in Hy. cbn [app] in Hy.
  destruct (jpeek_spaces fuel ws c s (l ++ rest) Hws Hc Hf Hy) as [_ (s1 & R1 & Hy1 & Hb1)].
  destruct (Hm s1 rest HP Hy1) as (s2 & R2 & Hy2 & Hb2). exists s2. rewrite Hb2, Hb1.
  split; [by eapply runs_bind|done].
Qed.

Lemma jreads_peek_spaces {A} P ws c l (k : Z -> M (Json IS) A) a b : spaces ws -> stops c ->
  (length ws < fuel)%nat ->
  jreads P (k c) (c :: l) a b -> jreads P (bind (json_peek fuel) k) (ws ++ c :: l) a b.
Proof.
  intros Hws Hc Hf Hm s rest HP Hy. rewrite <- (assoc_L (++)) in Hy. cbn [app] in Hy.
  destruct (jpeek_spaces fuel ws c s (l ++ rest) Hws Hc Hf Hy) as [(s1 & R1 & Hy1 & Hb1) _].
  destruct (Hm s1 rest HP Hy1) as (s2 & R2 & Hy2 & Hb2). exists s2. rewrite Hb2, Hb1.
  split; [by eapply runs_bind|done].
Qed.

Lemma jreads_nil {A B} P (m : M (Json IS) A) (k : A -> M (Json IS) B) l a b d :
  jreads any m [] a [] -> jreads P (k a) l b d -> jreads P (bind m k) l b d.
Proof. intros Hm Hk. by apply (jreads_seq P m k [] l a b [] d). Qed.

Lemma jreads_tail {A} P (m k : M (Json IS) A) : m = k -> forall l a b, jreads P k l a b -> jreads P m l a b.
Proof. by intros ->. Qed.

Lemma jreads_check c P : jreads (IS := IS) P (check_char c c) [] tt [].
Proof. unfold check_char. rewrite Z.eqb_refl. apply jreads_ret. Qed.

(** One symbol is read and copied. *)
Lemma jreads_skip_char {A} P c l (k : Z -> M (Json IS) A) a b : is_byte c ->
  jreads P (k c) l a b -> jreads P (bind skip_char k) (c :: l) a (c :: b).
Proof.
  intros Hc Hk. apply (jreads_seq P skip_char k [c] l c a [c] b); [|done]. unfold skip_char.
  apply (jreads_seq _ _ _ [c] [] c c [] [c]); [apply jreads_stream|].
  rewrite (proj2 (Z.ltb_ge c 0)) by (unfold is_byte in Hc; lia).
  apply (jreads_seq _ _ _ [] [] tt c [c] []); [by apply jreads_buf_add|apply jreads_ret].
Qed.

Lemma jreads_check_skip {A} P c l (m : M (Json IS) A) a b : is_byte c ->
  jreads P m l a b -> jreads P ((let! ch := skip_char in check_char ch c) ;! m) (c :: l) a (c :: b).
Proof.
  intros Hc Hm. apply (jreads_seq P _ _ [c] l tt a [c] b); [|done].
  apply jreads_skip_char; [done|apply jreads_check].
Qed.

Lemma jreads_skip_chars P l : bytes l -> jreads (IS := IS) P (skip_chars l) l tt l.
Proof.
  induction 1 as [|c l Hc Hl IH]; [apply jreads_ret|]. by apply jreads_check_skip.
Qed.

Lemma jreads_skip_string P l : string_rest l -> forall n, (length l <= n)%nat ->
  jreads (IS := IS) P (skip_string n) l tt l.
Proof.
  induction 1 as [|c l Hc Hq Hs Hl IH|c l Hc Hl IH]; intros n Hn;
    (destruct n as [|n]; [cbn [length] in Hn; lia|]); cbn [skip_string].
  - apply (jreads_seq P _ _ [ch_quote] [] ch_quote tt [] [ch_quote]); [apply jreads_stream|].
    apply (jreads_seq P _ _ [] [] tt tt [ch_quote] []); [by apply jreads_buf_add|apply jreads_ret].
  - apply (jreads_seq P _ _ [c] l c tt [] (c :: l)); [apply jreads_stream|].
    rewrite (proj2 (Z.ltb_ge c 0)) by (unfold is_byte in Hc; lia).
    apply (jreads_seq P _ _ [] l tt tt [c] l); [by apply jreads_buf_add|].
    rewrite (proj2 (Z.eqb_neq c ch_quote)), (proj2 (Z.eqb_neq c ch_bslash)) by done.
    apply (jreads_nil P _ _ l tt tt l); [apply jreads_ret|apply IH; cbn [length] in Hn; lia].
  - apply (jreads_seq P _ _ [ch_bslash] (c :: l) ch_bslash tt [] (ch_bslash :: c :: l)); [apply jreads_stream|].
    cbn [Z.ltb Z.eqb Pos.eqb Z.compare].
    apply (jreads_seq P _ _ [] (c :: l) tt tt [ch_bslash] (c :: l)); [by apply jreads_buf_add|].
    apply (jreads_seq P _ _ [c] l tt tt [c] l); [|apply IH; cbn [length] in Hn; lia].
    apply jreads_skip_char; [done|apply jreads_ret].
Qed.

Lemma num_char_byte c : num_char c = true -> is_byte c.
Proof.
  unfold num_char, is_digit, is_byte. intros H.
  repeat (apply orb_true_iff in H as [H|H]); bool_to_prop; lia.
Qed.

Lemma jreads_skip_number l : Forall (fun c => num_char c = true) l -> forall n, (length l < n)%nat ->
  jreads (IS := IS) value_end (skip_number n) l tt l.
Proof.
  induction 1 as [|c l Hc Hl IH]; intros n Hn s rest HP Hy;
    (destruct n as [|n]; [cbn [length] in Hn; lia|]); cbn [skip_number].
  - destruct rest as [|c rest]; [done|]. destruct (jpeek s c rest Hy) as (s1 & R1 & Hy1 & Hb1).
    exists s1. rewrite app_nil_r. split; [|done]. eapply runs_bind; [exact R1|].
    simpl in HP. by rewrite HP.
  - destruct (jpeek s c _ Hy) as (s1 & R1 & Hy1 & Hb1).
    destruct (jreads_skip_char value_end c l (fun _ => skip_number n) tt l (num_char_byte c Hc)
      (IH n ltac:(cbn [length] in Hn; lia)) s1 rest HP Hy1) as (s2 & R2 & Hy2 & Hb2).
    exists s2. rewrite Hb2, Hb1. split; [|done]. eapply runs_bind; [exact R1|].
    rewrite Hc. exact R2.
Qed.

Lemma jreads_skip_bytes P l : bytes l -> forall n, (length l < n)%nat ->
  jreads (IS := IS) P (skip_bytes n (Z.of_nat (length l))) l tt l.
Proof.
  induction 1 as [|c l Hc Hl IH]; intros n Hn; (destruct n as [|n]; [cbn [length] in Hn; lia|]);
    cbn [skip_bytes].
  - apply jreads_ret.
  - rewrite (proj2 (Z.eqb_neq _ 0)) by (cbn [length]; lia). cbn [negb].
    apply (jreads_seq P _ _ [c] l c tt [] (c :: l)); [apply jreads_stream|].
    rewrite (proj2 (Z.ltb_ge c 0)) by (unfold is_byte in Hc; lia).
    apply (jreads_seq P _ _ [] l tt tt [c] l); [by apply jreads_buf_add|].
    replace (Z.of_nat (length (c :: l)) - 1) with (Z.of_nat (length l)) by (cbn [length]; lia).
    apply IH. cbn [length] in Hn. lia.
Qed.

(** The common beginning of [skip_object]: white space, and the first character. *)
Lemma jreads_skip_object P ws n c l a b : spaces ws -> (length ws < fuel)%nat -> stops c -> is_byte c ->
  jreads P (if c =? ch_n then skip_chars [ch_u; ch_l; ch_l]
      else if c =? ch_f then skip_chars [ch_a; ch_l; ch_s; ch_e]
      else if c =? ch_t then skip_chars [ch_r; ch_u; ch_e]
      else if c =? ch_quote then skip_string fuel
      else if (c =? ch_minus) || is_digit c then skip_number fuel
      else if c =? ch_lbra then
        let! p := json_peek fuel in
        if p =? ch_rbra then skip_char ;! ret tt
        else skip_items fuel (skip_object fuel n) fuel
      else if c =? ch_lcur then
        let! p := json_peek fuel in
        if p =? ch_rcur then skip_char ;! ret tt
        else skip_members fuel (skip_object fuel n) fuel
      else if c =? ch_lpar then
        let! size := json_read_ulong fuel in
        (let! ch := skip_char in check_char ch ch_rpar) ;!
        skip_bytes fuel size
      else throw ERR_JSON_SYNTAX) l a b ->
  jreads P (skip_object (IS := IS) fuel (S n)) (ws ++ c :: l) a (c :: b).
Proof.
  intros Hws Hf Hc Hb Hm. cbn [skip_object].
  apply jreads_spaces; [done..|]. by apply jreads_skip_char.
Qed.

(** Digits are none of the other characters [skip_object] tests for. *)
Lemma number_first c : (c =? ch_minus) || is_digit c = true ->
  is_byte c /\ stops c /\ c <> ch_n /\ c <> ch_f /\ c <> ch_t /\ c <> ch_quote.
Proof.
  intros H. apply orb_true_iff in H as [->%Z.eqb_eq|H]; [by repeat split|].
  pose proof (digit_stops c H). unfold is_digit in H. bool_to_prop. unfold is_byte.
  repeat split; try done; lia.
Qed.

Definition copies_value (l o : list Z) : Prop := forall ws n, spaces ws ->
  (length ws < fuel)%nat -> (length l < n)%nat -> (length l < fuel)%nat ->
  jreads (IS := IS) value_end (skip_object fuel n) (ws ++ l) tt o.

Definition copies_items (l o : list Z) : Prop := forall P ws n m, spaces ws ->
  (length ws < fuel)%nat -> (length l < n)%nat -> (length l < fuel)%nat -> (length l < m)%nat ->
  jreads (IS := IS) P (skip_items fuel (skip_object fuel n) m) (ws ++ l) tt o.

Definition copies_members (l o : list Z) : Prop := forall P ws n m, spaces ws ->
  (length ws < fuel)%nat -> (length l < n)%nat -> (length l < fuel)%nat -> (length l < m)%nat ->
  jreads (IS := IS) P (skip_members fuel (skip_object fuel n) m) (ws ++ l) tt o.

(** An array or an object with elements. *)
Lemma copies_bracket c close l0 (loop : M (Json IS) unit) ws l o : spaces ws -> (length ws < fuel)%nat ->
  stops c -> c <> close -> l0 = c :: l ->
  jreads value_end loop l0 tt o ->
  jreads value_end (let! p := json_peek fuel in if p =? close then skip_char ;! ret tt else loop)
    (ws ++ l0) tt o.
Proof.
  intros Hws Hf Hc Hcl -> Hl. apply jreads_peek_spaces; [done..|].
  by rewrite (proj2 (Z.eqb_neq c close)).
Qed.

Lemma copies_empty close (loop : M (Json IS) unit) ws : spaces ws -> (length ws < fuel)%nat ->
  stops close -> is_byte close ->
  jreads value_end (let! p := json_peek fuel in if p =? close then skip_char ;! ret tt else loop)
    (ws ++ [close]) tt [close].
Proof.
  intros Hws Hf Hc Hb. apply jreads_peek_spaces; [done..|]. rewrite Z.eqb_refl.
  apply jreads_skip_char; [done|apply jreads_ret].
Qed.

Hypothesis fuel_digits : (ULONG_DIGITS < fuel)%nat.

Lemma copies_binary data : bytes data -> Z.of_nat (length data) < 2 ^ 64 ->
  copies_value (ch_lpar :: ulong_text (Z.of_nat (length data)) ++ ch_rpar :: data) (ch_lpar :: ch_rpar :: data).
Proof.
  intros Hb Hl ws n Hws Hf Hn Hfl. destruct n as [|n]; [lia|].
  apply jreads_skip_object; [done..|]. cbn [Z.eqb Pos.eqb orb is_digit Z.leb Z.compare Pos.compare Pos.compare_cont andb].
  apply (jreads_bind value_end ends_number _ _ _ _ (Z.of_nat (length data)) tt [] (ch_rpar :: data));
    [apply jreads_ulong; [lia|done]|done|].
  apply jreads_check_skip; [done|]. apply jreads_skip_bytes; [done|].
  cbn [length] in Hfl. rewrite length_app in Hfl. cbn [length] in Hfl. lia.
Qed.

Ltac lens := repeat (rewrite length_app in * || cbn [length] in * ); lia.

(** A value, the white space after it, and the next punctuation character. *)
Lemma copies_next P ws n l o ws1 c l' o' (k : Z -> M (Json IS) unit) : copies_value l o ->
  spaces ws -> spaces ws1 -> stops c -> is_byte c -> value_end [c] ->
  (length ws < fuel)%nat -> (length ws1 < fuel)%nat -> (length l < n)%nat -> (length l < fuel)%nat ->
  jreads P (k c) l' tt o' ->
  jreads P (skip_object fuel n ;! read_whitespace fuel ;! let! ch := skip_char in k ch)
    (ws ++ l ++ ws1 ++ c :: l') tt (o ++ c :: o').
Proof.
  intros Hv Hws Hws1 Hc Hb He Hf Hf1 Hn Hl Hk. rewrite (assoc_L (++)).
  apply (jreads_bind P value_end _ _ (ws ++ l) (ws1 ++ c :: l') tt tt o (c :: o')); [by apply Hv| |].
  - intros rest _. rewrite <- (assoc_L (++)). cbn [app]. by apply spaces_value_end.
  - apply jreads_spaces; [done..|]. by apply jreads_skip_char.
Qed.

(** The same where the character is checked, and the name of a member before it. *)
Lemma copies_string k : string_rest k -> copies_value (ch_quote :: k) (ch_quote :: k).
Proof.
  intros Hs ws n Hws Hf Hn Hl. destruct n as [|n]; [lia|].
  apply jreads_skip_object; [done..|]. apply jreads_skip_string; [done|cbn [length] in Hl; lia].
Qed.

Lemma copies_name P ws n k ws1 l' o' (m : M (Json IS) unit) : string_rest k -> spaces ws -> spaces ws1 ->
  (length ws < fuel)%nat -> (length ws1 < fuel)%nat -> (S (length k) < n)%nat -> (S (length k) < fuel)%nat ->
  jreads P m l' tt o' ->
  jreads P (skip_object fuel n ;! read_whitespace fuel ;!
      (let! ch := skip_char in check_char ch ch_colon) ;! m)
    (ws ++ (ch_quote :: k) ++ ws1 ++ ch_colon :: l') tt ((ch_quote :: k) ++ ch_colon :: o').
Proof.
  intros Hk Hws Hws1 Hf Hf1 Hn Hl Hm. rewrite (assoc_L (++)).
  apply (jreads_bind P value_end _ _ (ws ++ ch_quote :: k) (ws1 ++ ch_colon :: l') tt tt (ch_quote :: k) (ch_colon :: o')).
  - by apply copies_string.
  - intros rest _. rewrite <- (assoc_L (++)). cbn [app]. by apply spaces_value_end.
  - apply jreads_spaces; [done..|]. by apply jreads_check_skip.
Qed.

Lemma copies_all b :
  (forall l o, jvalue b l o -> copies_value l o) /\
  (forall l o, jitems b l o -> copies_items l o) /\
  (forall l o, jmembers b l o -> copies_members l o).
Proof.
  apply json_mind.
  - intros ws n Hws Hf Hn Hl. destruct n as [|n]; [lia|]. change (str "null") with (ch_n :: [ch_u; ch_l; ch_l]).
    apply jreads_skip_object; [done..|]. apply jreads_skip_chars. by repeat constructor.
  - intros [] ws n Hws Hf Hn Hl; (destruct n as [|n]; [lia|]).
    + change (boolean_text true) with (ch_t :: [ch_r; ch_u; ch_e]).
      apply jreads_skip_object; [done..|]. apply jreads_skip_chars. by repeat constructor.
    + change (boolean_text false) with (ch_f :: [ch_a; ch_l; ch_s; ch_e]).
      apply jreads_skip_object; [done..|]. apply jreads_skip_chars. by repeat constructor.
  - apply copies_string.
  - intros c l Hc Hl ws n Hws Hf Hn Hll. destruct n as [|n]; [lia|].
    destruct (number_first c Hc) as (Hb & Hst & H1 & H2 & H3 & H4).
    apply jreads_skip_object; [done..|]. rewrite !(proj2 (Z.eqb_neq c _)), Hc by done.
    apply jreads_skip_number; [done|cbn [length] in Hll; lia].
  - intros data _ Hb Hl. by apply copies_binary.
  - intros ws Hs ws0 n Hws Hf Hn Hl. destruct n as [|n]; [lia|].
    apply jreads_skip_object; [done..|]. apply copies_empty; [done|lens|done..].
  - intros ws l o Hs Hi IH ws0 n Hws Hf Hn Hl. destruct n as [|n]; [lia|].
    destruct (jitems_start _ _ _ Hi) as (c & l' & E & Hc & Hcl).
    apply jreads_skip_object; [done..|]. cbn [Z.eqb Pos.eqb orb is_digit Z.leb Z.compare Pos.compare Pos.compare_cont andb].
    eapply copies_bracket; [done|lens|done..|]. apply (IH _ []); [constructor|lens..].
  - intros ws Hs ws0 n Hws Hf Hn Hl. destruct n as [|n]; [lia|].
    apply jreads_skip_object; [done..|]. apply copies_empty; [done|lens|done..].
  - intros ws l o Hs Hi IH ws0 n Hws Hf Hn Hl. destruct n as [|n]; [lia|].
    destruct (jmembers_start _ _ _ Hi) as (l' & E).
    apply jreads_skip_object; [done..|]. cbn [Z.eqb Pos.eqb orb is_digit Z.leb Z.compare Pos.compare Pos.compare_cont andb].
    eapply (copies_bracket ch_quote); [done|lens|done..|]. apply (IH _ []); [constructor|lens..].
  - intros ws1 l o _ IH Hs P ws n m Hws Hf Hn Hl Hm. destruct m as [|m]; [lia|].
    apply copies_next; [done..|lens|lens|lens|]. apply jreads_check.
  - intros ws1 ws2 l o l' o' _ IH Hs1 Hs2 _ IH' P ws n m Hws Hf Hn Hl Hm. destruct m as [|m]; [lia|].
    apply copies_next; [done..|lens|lens|lens|]. apply IH'; [done|lens..].
  - intros ws1 ws2 ws3 k l o Hk _ IH Hs1 Hs2 Hs3 P ws n m Hws Hf Hn Hl Hm. destruct m as [|m]; [lia|].
    apply copies_name; [done..|lens|lens|lens|].
    apply copies_next; [done..|lens|lens|lens|lens|]. apply jreads_check.
  - intros ws1 ws2 ws3 ws4 k l o l' o' Hk _ IH Hs1 Hs2 Hs3 Hs4 _ IH' P ws n m Hws Hf Hn Hl Hm.
    destruct m as [|m]; [lia|].
    apply copies_name; [done..|lens|lens|lens|].
    apply copies_next; [done..|lens|lens|lens|lens|]. apply IH'; [done|lens..].
Qed.
End Copy.

(** A copy without binary values is a text whose copy is itself. *)
Lemma copy_idempotent :
  (forall l o, jvalue false l o -> jvalue false o o) /\
  (forall l o, jitems false l o -> jitems false o o) /\
  (forall l o, jmembers false l o -> jmembers false o o).
Proof.
  assert (Hnil : spaces []) by constructor.
  apply json_mind; intros; try by constructor.
  - by apply (jv_array0 false []).
  - by apply (jv_array false []).
  - by apply (jv_object0 false []).
  - by apply (jv_object false []).
  - by apply (ji_last false []).
  - by apply (ji_more false [] []).
  - by apply (jm_last false [] [] []).
  - by apply (jm_more false [] [] [] []).
Qed.

(** [json_read_object] returns the copy and its terminating zero. *)
Lemma read_object_runs `{InputStreamLaws IS} fuel b l o ws (s : Json IS) rest :
  jvalue b l o -> spaces ws -> value_end rest ->
  (length ws < fuel)%nat -> (length l < fuel)%nat -> (ULONG_DIGITS < fuel)%nat ->
  jyields s (ws ++ l ++ rest) ->
  exists s', runs (json_read_object fuel) s (o ++ [0]) s' /\ jyields s' rest.
Proof.
  intros Hv Hws He Hf Hl Hd Hy. rewrite (assoc_L (++)) in Hy.
  destruct (copies_all fuel ltac:(lia) Hd b) as (Hc & _ & _).
  destruct (Hc l o Hv ws fuel Hws Hf Hl Hl (mkJson (js_inp s) [] (js_size s)) rest He Hy)
    as (s1 & R1 & Hy1 & Hb1).
  destruct (jreads_buf_add (fun _ => True) 0 ltac:(done) s1 rest I Hy1) as (s2 & R2 & Hy2 & Hb2).
  exists s2. split; [|done]. eapply runs_bind; [apply runs_modify|]. eapply runs_bind; [exact R1|].
  eapply runs_bind; [exact R2|]. unfold runs, gets. by rewrite Hb2, Hb1.
Qed.

(** ** Properties *)


(** A nested value with white space: [{"a": [1 , null]}]. *)
Definition copy_example : list Z :=
  ch_lcur :: [] ++ (ch_quote :: [ch_a; ch_quote]) ++ [] ++ ch_colon :: [ch_space] ++
    (ch_lbra :: [] ++ [ch_0 + 1] ++ [ch_space] ++ ch_comma :: [ch_space] ++ str "null" ++ [] ++ [ch_rbra])
    ++ [] ++ [ch_rcur].

Definition copy_example_out : list Z :=
  ch_lcur :: (ch_quote :: [ch_a; ch_quote]) ++ ch_colon ::
    (ch_lbra :: [ch_0 + 1] ++ ch_comma :: str "null" ++ [ch_rbra]) ++ [ch_rcur].

Lemma copy_example_value b : jvalue b copy_example copy_example_out.
Proof.
  assert (Hsp : spaces [ch_space]) by (by constructor). assert (Hnil : spaces []) by constructor.
  apply jv_object; [done|]. apply (jm_last b [] [ch_space] []); auto.
  { apply str_plain; [done..|]. constructor. }
  apply jv_array; [done|]. apply (ji_more b [ch_space] [ch_space]); auto.
  - by apply jv_number.
  - apply (ji_last b []); [apply jv_null|done].
Qed.


(** the copy of a counted binary value [(N)data] lacks the digits of the count, and is no JSON
    value any more: [json_read_object] on the copy raises [ERR_JSON_SYNTAX]. *)
Theorem json_binary_copy_broken `{InputStreamLaws IS} fuel data (s s0 : Json IS) rest rest0 :
  bytes data -> Z.of_nat (length data) < 2 ^ 64 -> value_end rest ->
  (length data + ULONG_DIGITS + 2 < fuel)%nat ->
  jyields s (ch_lpar :: ulong_text (Z.of_nat (length data)) ++ ch_rpar :: data ++ rest) ->
  jyields s0 (ch_lpar :: ch_rpar :: data ++ rest0) ->
  (exists s', runs (json_read_object fuel) s (ch_lpar :: ch_rpar :: data ++ [0]) s' /\ jyields s' rest) /\
  throws (json_read_object fuel) s0 ERR_JSON_SYNTAX.
Proof.
  intros Hb Hl He Hf Hy Hy0. split.
  - replace (ch_lpar :: _) with ((ch_lpar :: ulong_text (Z.of_nat (length data)) ++ ch_rpar :: data) ++ rest) in Hy
      by (cbn [app]; by rewrite <- (assoc_L (++))).
    assert (Hlen : (length (ulong_text (Z.of_nat (length data))) <= ULONG_DIGITS)%nat).
    { destruct (decimal_value ULONG_DIGITS (Z.of_nat (length data))) as (c & l & E & _ & Hlen & _);
        [apply ulong_pow; lia|unfold ULONG_DIGITS; lia|]. unfold ulong_text. rewrite E. exact Hlen. }
    pose proof (copies_binary fuel ltac:(lia) ltac:(lia) data Hb Hl [] fuel) as Hc.
    cbn [length app] in Hc. rewrite length_app in Hc. cbn [length] in Hc.
    destruct (Hc ltac:(constructor) ltac:(lia) ltac:(lia) ltac:(lia)
      (mkJson (js_inp s) [] (js_size s)) rest He Hy) as (s1 & R1 & Hy1 & Hb1).
    destruct (jreads_buf_add (fun _ => True) 0 ltac:(done) s1 rest I Hy1) as (s2 & R2 & Hy2 & Hb2).
    exists s2. split; [|done]. eapply runs_bind; [apply runs_modify|]. eapply runs_bind; [exact R1|].
    eapply runs_bind; [exact R2|]. unfold runs, gets. by rewrite Hb2, Hb1.
  - eapply bind_throw_k; [apply runs_modify|]. apply bind_throw.
    destruct fuel as [|fuel]; [lia|]. cbn [skip_object].
    destruct (jpeek_spaces (S fuel) ltac:(lia) (S fuel) [] ch_lpar (mkJson (js_inp s0) [] (js_size s0)) _
      ltac:(constructor) ltac:(done) ltac:(cbn; lia) Hy0) as [_ (s1 & R1 & Hy1 & _)].
    eapply bind_throw_k; [exact R1|].
    destruct (jreads_skip_char (S fuel) ltac:(lia) (fun _ => True) ch_lpar [] ret ch_lpar [] ltac:(done)
      ltac:(apply jreads_ret) s1 (ch_rpar :: data ++ rest0) I Hy1) as (s2 & R2 & Hy2 & _).
    unfold runs in R2. rewrite bind_ret_r in R2.
    eapply bind_throw_k; [exact R2|].
    cbn [Z.eqb Pos.eqb orb is_digit Z.leb Z.compare Pos.compare Pos.compare_cont andb].
    apply bind_throw. unfold json_read_ulong, read_number. apply bind_throw.
    destruct (jreads_token (fun _ => True) (S fuel) ch_rpar ltac:(done) ltac:(lia) s2 _ I Hy2) as (s3 & R3 & Hy3 & _).
    eapply bind_throw_k; [exact R3|]. eapply bind_throw_k; [apply runs_ret|]. done.
Qed.

Lemma json_binary_copy_broken_witness :
  (exists s', runs (json_read_object 30) (json_of (ch_lpar :: ulong_text 2 ++ ch_rpar :: [1; 2] ++ [ch_comma]))
     (ch_lpar :: ch_rpar :: [1; 2] ++ [0]) s' /\ jyields s' [ch_comma]) /\
  throws (json_read_object 30) (json_of (ch_lpar :: ch_rpar :: [1; 2] ++ [])) ERR_JSON_SYNTAX.
Proof.
  apply (json_binary_copy_broken 30 [1; 2] _ _ [ch_comma] []).
  - by repeat constructor.
  - simpl. lia.
  - reflexivity.
  - unfold ULONG_DIGITS. simpl. lia.
  - exists 0%nat. by exists [].
  - exists 0%nat. by exists [].
Defined.
