(* ===== verification/JsonBinary.v ===== *)
(** * Reading binary data (framework/json.c, [json_read_binary_*])

    The reader delivers the data of both encodings in pieces of any size; together with the writer
    of JsonWrite.v this gives the round trip of binary values. *)

From S2P Require Import Prelude Streams Base64 JsonWrite JsonRead JsonStruct.

(** The stream laws of a parser state whose static buffer is not touched: computations that only
    use the stream keep [js_buf] and [js_size]. *)
#[local] Program Definition json_frame_laws `{InputStreamLaws IS} (b : list Z) (z : N) :
    InputStreamLaws (Json IS) := {|
  yields s l := yields (js_inp s) l /\ js_buf s = b /\ js_size s = z |}.
Next Obligation.
  intros. simpl in *. destruct H1 as (Hy & Hb & Hz). unfold on_inp, zoom.
  edestruct (yields_read (js_inp s) x l) as (i & -> & ?); eauto.
Qed.
Next Obligation.
  intros. simpl in *. destruct H1 as (Hy & Hb & Hz). unfold on_inp, zoom.
  edestruct (yields_peek (js_inp s) x l) as (i & -> & ?); eauto.
Qed.
Next Obligation. intros. simpl in *. destruct H1 as (Hy & Hb & Hz). by eapply yields_window. Qed.
Next Obligation. intros. simpl in *. destruct H1 as (Hy & Hb & Hz). split; [by apply yields_advance|done]. Qed.
Next Obligation. intros. simpl in *. by apply window_advance. Qed.
Next Obligation. intros. simpl in *. destruct H1 as (Hy & Hb & Hz). split; [by eapply yields_prefix|done]. Qed.

(** A client that reads in several pieces. *)
Fixpoint read_binary_chunks `{InputStream IS} (fuel : nat) (st : JsonReadBinaryState) (lens : list nat) :
    M (Json IS) (list (list Z) * JsonReadBinaryState) :=
  match lens with
  | [] => ret ([], st)
  | len :: lens' =>
      let! (d, st) := json_read_binary_data fuel st len in
      let! (ds, st) := read_binary_chunks fuel st lens' in
      ret (d :: ds, st)
  end.

Section Binary.
Context {IS : Type} {is_ops : InputStream IS} {is_laws : InputStreamLaws IS}.
Variable fuel : nat.

(** What the window holds is what the stream delivers. *)
Lemma window_take k : forall (s : IS) l, yields s l -> (k <= length (is_window s))%nat -> (k <= length l)%nat ->
  take k (is_window s) = take k l.
Proof.
  induction k as [|k IH]; intros s l Hy Hw Hl; [done|].
  destruct l as [|x l]; [cbn [length] in Hl; lia|]. destruct (is_window s) as [|b w] eqn:E; [cbn in Hw; lia|].
  pose proof (yields_window _ _ _ _ _ Hy E) as <-. cbn [take]. f_equal.
  pose proof (yields_advance s 1 _ Hy ltac:(rewrite E; cbn; lia) ltac:(cbn; lia)) as Hy1.
  pose proof (window_advance s 1 ltac:(rewrite E; cbn; lia)) as Hw1. rewrite E in Hw1. cbn [drop] in Hw1, Hy1. rewrite drop_0 in Hw1, Hy1.
  rewrite <- Hw1. apply IH; [exact Hy1|rewrite Hw1; cbn [length] in Hw; lia|cbn [length] in Hl; lia].
Qed.

(** Parser states between which only the stream differs. *)
Definition same_buf (s s' : Json IS) : Prop := js_buf s' = js_buf s /\ js_size s' = js_size s.

Lemma read_raw_spec data : bytes data -> forall n len acc (s : Json IS) rest,
  jyields s (data ++ rest) -> (len <= length acc + length data)%nat -> (len < n + length acc)%nat ->
  (length acc <= len)%nat ->
  exists s', runs (read_raw_loop n len acc) s (acc ++ take (len - length acc) data) s' /\
    jyields s' (drop (len - length acc) data ++ rest) /\ same_buf s s'.
Proof.
  intros Hb n. revert data Hb.
  induction n as [|n IH]; intros data Hb len acc s rest Hy Hd Hn Ha; [lia|]. cbn [read_raw_loop].
  destruct (Nat.ltb_spec (length acc) len) as [Hlt|Hge]; cycle 1.
  { exists s. replace (len - length acc)%nat with 0%nat by lia. rewrite take_0, drop_0, app_nil_r. by repeat split. }
  destruct (is_window s) as [|b w] eqn:Ew; cbn [length Nat.ltb Nat.leb].
  - destruct data as [|x data]; [cbn [length] in Hd; lia|]. apply Forall_cons in Hb as [Hx Hb].
    destruct (yields_read (js_inp s) x (data ++ rest) Hy Ew) as (i & Ri & Hyi).
    destruct (IH data Hb len (acc ++ [x]) (mkJson i (js_buf s) (js_size s)) rest Hyi) as (s' & R & Hy' & Hs);
      [rewrite ?length_app; cbn [length] in *; lia..|].
    exists s'. rewrite length_app in R, Hy'. cbn [length] in R, Hy'.
    replace (len - length acc)%nat with (S (len - (length acc + 1))) by lia. cbn [take drop].
    split; [|done]. eapply runs_bind; [apply runs_gets|]. rewrite Ew. cbn [length Nat.ltb Nat.leb].
    eapply runs_bind.
    { unfold runs. cbn [is_read json_stream]. unfold on_inp, zoom. by rewrite Ri. }
    rewrite uwrap_small by (unfold is_byte in Hx; lia). by rewrite <- (assoc_L (++)) in R.
  - set (k := Nat.min (length (b :: w)) (len - length acc)).
    assert (Hk : (k <= length (is_window (js_inp s)))%nat) by (cbn [is_window json_stream] in Ew; rewrite Ew; lia).
    assert (Hk1 : (0 < k)%nat) by (subst k; cbn [length]; lia).
    assert (Hkd : (k <= length data)%nat) by lia.
    assert (Hw : take k (b :: w) = take k data).
    { cbn [is_window json_stream] in Ew. rewrite <- Ew, (window_take k (js_inp s) (data ++ rest) Hy Hk);
        [|rewrite length_app; lia]. by apply take_app_le. }
    destruct (IH (drop k data) ltac:(by apply Forall_drop) len (acc ++ take k data)
      (is_advance k s) rest) as (s' & R & Hy' & Hs).
    + cbn [js_inp is_advance json_stream]. rewrite <- drop_app_le by lia.
      apply yields_advance; [done|done|rewrite length_app; lia].
    + rewrite length_app, length_take, length_drop. lia.
    + rewrite length_app, length_take. lia.
    + rewrite length_app, length_take. lia.
    + exists s'. split; [|split; [|done]].
      * eapply runs_bind; [apply runs_gets|]. rewrite Ew. cbn [length Nat.ltb Nat.leb].
        eapply runs_bind; [apply runs_modify|]. fold (length w). change (S (length w)) with (length (b :: w)).
        fold k. rewrite Hw. rewrite length_app, length_take, <- (assoc_L (++)) in R.
        replace (take (len - length acc) data) with (take k data ++ take (len - (length acc + Nat.min k (length data))) (drop k data)); [exact R|].
        rewrite take_drop_commute. rewrite <- (take_drop k (take (len - length acc) data)).
        f_equal; [rewrite take_take; f_equal; lia|]. do 2 f_equal. lia.
      * rewrite length_app, length_take, drop_drop in Hy'.
        replace (k + (len - (length acc + Nat.min k (length data))))%nat with (len - length acc)%nat in Hy' by lia. done.
Qed.

(** One call of [read_base64] inside the reader. *)
Lemma read_base64_framed bs size (s : Json IS) rest : bytes bs -> 3 <= size ->
  jyields s (base64 bs ++ ch_quote :: rest) ->
  let k := decoded (length bs) size in
  exists s', runs (read_base64 size) s (take k bs) s' /\
    jyields s' (base64 (drop k bs) ++ ch_quote :: rest) /\ same_buf s s'.
Proof.
  intros Hb Hs Hy k.
  destruct (read_base64_loop_spec (is_laws := json_frame_laws (js_buf s) (js_size s))
    bs Hb (S (Z.to_nat size)) size [] s ch_quote rest) as (s' & R & Hy' & Hs');
    [cbn [length]; lia..|done|by repeat split|].
  cbn [length] in R, Hy'. rewrite Z.sub_0_r in R, Hy'. exists s'. split; [|by split].
  unfold read_base64. eapply runs_bind; [|exact R]. apply runs_cassert.
  rewrite Z.geb_leb. by apply Z.leb_le.
Qed.

Lemma decoded_pos n size : 3 <= size -> (0 < n)%nat -> (0 < decoded n size)%nat.
Proof. intros. unfold decoded. pose proof (Z.div_le_lower_bound size 3 1). lia. Qed.

Lemma decoded_le n size : 0 <= size -> (decoded n size <= n)%nat /\ Z.of_nat (decoded n size) <= size.
Proof. intros. unfold decoded. pose proof (Z.mul_div_le size 3). lia. Qed.

Lemma decoded_3 n : decoded n 3 = Nat.min n 3.
Proof. done. Qed.

Lemma length_zero {A} (l : list A) : (length l =? 0)%nat = true -> l = [].
Proof. intros H%Nat.eqb_eq. by apply nil_length_inv. Qed.

(** The BASE64 loop: [rem] and the encoding of [bs] are still to be delivered. *)
Lemma read_base64_data_spec n : forall rem bs len acc (s : Json IS) rest,
  bytes bs -> (length rem <= 3)%nat -> (2 * length (rem ++ bs) + (if decide (rem = []) then 1 else 0) < n)%nat ->
  jyields s (base64 bs ++ ch_quote :: rest) ->
  exists e rem' bs' s', runs (read_base64_data_loop n rem len acc) s (e, acc ++ take len (rem ++ bs), rem') s' /\
    jyields s' (base64 bs' ++ ch_quote :: rest) /\ same_buf s s' /\
    rem' ++ bs' = drop len (rem ++ bs) /\ bytes bs' /\ (length rem' <= 3)%nat.
Proof.
  induction n as [|n IH]; intros rem bs len acc s rest Hb Hr Hn Hy; [lia|]. cbn [read_base64_data_loop].
  destruct (Nat.ltb_spec 0 len) as [Hlen|Hlen]; cycle 1.
  { exists false, rem, bs, s. replace len with 0%nat by lia. rewrite take_0, drop_0, app_nil_r. by repeat split. }
  replace (length rem <=? 3)%nat with true by (symmetry; by apply Nat.leb_le).
  set (i := Nat.min (length rem) len).
  destruct (Nat.ltb_spec i (length rem)) as [Hi|Hi].
  { exists true, (drop i rem), bs, s. replace i with len in * by lia.
    rewrite take_app_le, drop_app_le by lia. rewrite length_drop.
    split; [|repeat split; auto; lia]. eapply runs_bind; [by apply runs_cassert|].
    eapply runs_bind; [|apply runs_ret]. by rewrite (proj2 (Nat.ltb_ge 3 (length rem))). }
  assert (Hi' : i = length rem) by lia. assert (Hle : (length rem <= len)%nat) by lia.
  rewrite (take_ge rem i) by lia. clearbody i. subst i.
  rewrite take_app_ge, drop_app_ge, (assoc_L (++)) by lia.
  set (len' := (len - length rem)%nat) in *. set (acc' := acc ++ rem).
  destruct (Nat.leb_spec 3 len') as [H3|H3].
  - destruct (read_base64_framed bs (Z.of_nat len') s rest Hb ltac:(lia) Hy) as (s1 & R1 & Hy1 & Hs1).
    set (k := decoded (length bs) (Z.of_nat len')) in *.
    destruct (decoded_le (length bs) (Z.of_nat len')) as [Hk1 Hk2]; [lia|]. fold k in Hk1, Hk2.
    assert (Hlk : length (take k bs) = k) by (rewrite length_take; lia).
    destruct (length (take k bs) =? 0)%nat eqn:E0.
    + apply length_zero in E0. rewrite E0 in Hlk. cbn [length] in Hlk.
      destruct bs as [|x bs]; [|pose proof (decoded_pos (length (x :: bs)) (Z.of_nat len') ltac:(lia) ltac:(cbn; lia)); fold k in H; lia].
      exists false, [], [], s1. rewrite take_nil, drop_nil, app_nil_r.
      rewrite drop_nil in Hy1. split; [|do 4 (split; [done|]); cbn; lia].
      eapply runs_bind; [by apply runs_cassert|]. eapply runs_bind; [exact R1|]. done.
    + apply Nat.eqb_neq in E0.
      destruct (IH [] (drop k bs) (len' - k)%nat (acc' ++ take k bs) s1 rest) as (e & rem' & bs' & s' & R & Hy' & Hs' & Heq & Hb' & Hr').
      * by apply Forall_drop.
      * cbn; lia.
      * cbn [app]. rewrite length_drop. rewrite length_app in Hn. rewrite decide_True by done. case_decide as Hrem; [subst rem; cbn [length] in Hn; lia|].
        destruct rem; [done|cbn [length] in Hn; lia].
      * done.
      * cbn [app] in R, Heq. exists e, rem', bs', s'. split; [|split; [done|split; [|split; [|done]]]].
        -- eapply runs_bind; [by apply runs_cassert|]. eapply runs_bind; [exact R1|].
           rewrite (proj2 (Nat.eqb_neq _ 0)) by done. rewrite Hlk.
           replace (take len' bs) with (take k bs ++ take (len' - k) (drop k bs)); [by rewrite (assoc_L (++))|].
           rewrite take_drop_commute. rewrite <- (take_drop k (take len' bs)), take_take.
           f_equal; f_equal; [lia|]. f_equal. lia.
        -- destruct Hs1, Hs'. split; congruence.
        -- rewrite Heq, drop_drop. f_equal. lia.
  - destruct (read_base64_framed bs 3 s rest Hb ltac:(lia) Hy) as (s1 & R1 & Hy1 & Hs1).
    rewrite decoded_3 in *. set (k := Nat.min (length bs) 3) in *.
    assert (Hlk : length (take k bs) = k) by (rewrite length_take; lia).
    destruct (length (take k bs) =? 0)%nat eqn:E0.
    + apply length_zero in E0. rewrite E0 in Hlk. cbn [length] in Hlk.
      destruct bs as [|x bs]; [|subst k; cbn [length] in *; lia].
      exists false, [], [], s1. rewrite take_nil, drop_nil, app_nil_r. rewrite drop_nil in Hy1.
      split; [|do 4 (split; [done|]); cbn; lia].
      eapply runs_bind; [by apply runs_cassert|]. eapply runs_bind; [exact R1|]. done.
    + apply Nat.eqb_neq in E0.
      destruct (IH (take k bs) (drop k bs) len' acc' s1 rest) as (e & rem' & bs' & s' & R & Hy' & Hs' & Heq & Hb' & Hr').
      * by apply Forall_drop.
      * lia.
      * rewrite take_drop. rewrite length_app in Hn. rewrite decide_False by (intros E; rewrite E in E0; done).
        case_decide as Hrem; [subst rem; cbn [length] in Hn; lia|].
        destruct rem; [done|cbn [length] in Hn; lia].
      * done.
      * rewrite take_drop in R, Heq. exists e, rem', bs', s'. split; [|split; [done|split; [|done]]].
        -- eapply runs_bind; [by apply runs_cassert|]. eapply runs_bind; [exact R1|].
           rewrite (proj2 (Nat.eqb_neq _ 0)) by done. exact R.
        -- destruct Hs1, Hs'. split; congruence.
Qed.

(** A reader state and a parser state from which the data [d] and then the symbols [rest] are still
    to be delivered. *)
Definition rb_ready (st : JsonReadBinaryState) (s : Json IS) (d rest : list Z) : Prop :=
  bytes d /\
  ((rb_encoding st = ENCODING_BINARY /\ rb_buf st = [] /\ jyields s (d ++ rest) /\
    0 <= rb_size_done st /\ rb_size_start st = rb_size_done st + Z.of_nat (length d) /\
    rb_size_start st < 2 ^ 64) \/
   (rb_encoding st = ENCODING_BASE64 /\ rb_size_start st = 0 /\ (length (rb_buf st) <= 3)%nat /\
    exists bs, d = rb_buf st ++ bs /\ jyields s (base64 bs ++ ch_quote :: rest))).

(** One call delivers the next [len] bytes, or what is left. *)
Lemma binary_data_spec st s d rest len : rb_ready st s d rest -> (2 * length d + 1 < fuel)%nat ->
  exists st' s', runs (json_read_binary_data fuel st len) s (take len d, st') s' /\
    rb_ready st' s' (drop len d) rest /\ same_buf s s' /\ rb_size_start st' = rb_size_start st.
Proof.
  intros (Hb & [(Henc & Hbuf & Hy & Hd & Hsz & Hlt)|(Henc & Hsz & Hlb & bs & -> & Hy)]) Hf;
    unfold json_read_binary_data; rewrite Henc; cbn [Z.eqb ENCODING_BINARY ENCODING_BASE64].
  - assert (Hleft : Z.to_nat (uwrap 64 (rb_size_start st - rb_size_done st)) = length d).
    { rewrite Hsz, Z.add_simpl_l, uwrap_small by lia. lia. }
    rewrite Hleft.
    destruct (read_raw_spec d Hb fuel (Nat.min len (length d)) [] s rest Hy) as (s' & R & Hy' & Hs);
      [cbn [length]; lia..|].
    cbn [length app] in R, Hy'. rewrite Nat.sub_0_r in R, Hy'.
    assert (Et : take (Nat.min len (length d)) d = take len d) by (by rewrite <- take_take, (take_ge d) by lia).
    assert (Ed : drop (Nat.min len (length d)) d = drop len d).
    { destruct (decide (len <= length d)%nat); [f_equal; lia|]. rewrite !drop_ge by lia. done. }
    rewrite Et in R. rewrite Ed in Hy'.
    eexists _, s'. split; [eapply runs_bind; [exact R|apply runs_ret]|]. split; [|done].
    split; [by apply Forall_drop|]. left. cbn [rb_encoding rb_buf rb_size_start rb_size_done].
    rewrite length_take, length_drop, uwrap_small by lia. do 3 (split; [done|]). lia.
  - apply Forall_app in Hb as [Hb1 Hb2].
    destruct (read_base64_data_spec fuel (rb_buf st) bs len [] s rest Hb2 Hlb) as
      (e & rem' & bs' & s' & R & Hy' & Hs & Heq & Hb' & Hr'); [case_decide; lia|done|].
    eexists _, s'. split; [eapply runs_bind; [exact R|apply runs_ret]|].
    split; [|split; [done|by destruct e]].
    split; [apply Forall_drop; by apply Forall_app|]. right.
    destruct e; cbn [rb_encoding rb_buf rb_size_start rb_size_done]; (do 3 (split; [done|]));
      (exists bs'; by rewrite Heq).
Qed.

Lemma binary_chunks_spec lens : forall st s d rest, rb_ready st s d rest -> (2 * length d + 1 < fuel)%nat ->
  exists ds st' s', runs (read_binary_chunks fuel st lens) s (ds, st') s' /\
    concat ds = take (list_sum lens) d /\ Forall2 (fun d' len => (length d' <= len)%nat) ds lens /\
    rb_ready st' s' (drop (list_sum lens) d) rest.
Proof.
  induction lens as [|len lens IH]; intros st s d rest Hr Hf; cbn [read_binary_chunks].
  - exists [], st, s. cbn [list_sum foldr]. rewrite take_0, drop_0. split; [done|]. split; [done|]. split; [constructor|done].
  - destruct (binary_data_spec st s d rest len Hr Hf) as (st1 & s1 & R1 & Hr1 & _).
    destruct (IH st1 s1 (drop len d) rest Hr1) as (ds & st2 & s2 & R2 & Hc & Hl & Hr2);
      [rewrite length_drop; lia|].
    exists (take len d :: ds), st2, s2. change (list_sum (len :: lens)) with (len + list_sum lens)%nat.
    split; [eapply runs_bind; [exact R1|]; by eapply runs_bind; [exact R2|]|].
    split; [|split; [|by rewrite <- drop_drop]].
    + cbn [concat]. by rewrite Hc, take_plus.
    + constructor; [rewrite length_take; lia|done].
Qed.

Hypothesis fuel_digits : (ULONG_DIGITS < fuel)%nat.

Lemma binary_end_spec st s rest : rb_ready st s [] rest ->
  exists s', runs (json_read_binary_end fuel st) s tt s' /\ jyields s' rest.
Proof.
  intros (_ & [(Henc & Hbuf & Hy & Hd & Hsz & Hlt)|(Henc & Hsz & Hlb & bs & E & Hy)]);
    unfold json_read_binary_end; rewrite Henc; cbn [Z.eqb ENCODING_BINARY ENCODING_BASE64].
  - exists s. split; [|done]. rewrite Hbuf. cbn [length Nat.ltb Nat.leb].
    eapply runs_bind; [apply runs_ret|]. apply runs_cassert. cbn [length] in Hsz. apply Z.eqb_eq. lia.
  - symmetry in E. apply app_eq_nil in E as [-> ->]. cbn [length Nat.ltb Nat.leb base64 app] in *.
    destruct (jreads_test_char (fun _ => True) fuel ch_quote ltac:(done) ltac:(done) ltac:(lia) s rest I Hy)
      as (s' & R & Hy' & _).
    exists s'. split; [|done]. by eapply runs_bind; [apply runs_ret|].
Qed.

Lemma binary_start_spec zc size d s rest :
  bytes d -> 0 <= size < 2 ^ 64 -> (zc && (size >? 0) = true -> size = Z.of_nat (length d)) ->
  jyields s (binary_stream_text zc size d ++ rest) ->
  exists st s', runs (json_read_binary_start fuel) s st s' /\ rb_ready st s' d rest /\
    (rb_size_start st = 0 \/ rb_size_start st = Z.of_nat (length d)).
Proof.
  intros Hb Hs Hsz Hy. unfold json_read_binary_start, binary_stream_text in *.
  destruct (zc && (size >? 0)) eqn:E.
  - specialize (Hsz eq_refl). subst size. norm_app_in Hy.
    destruct (jreads_token (fun _ => True) fuel ch_lpar ltac:(done) ltac:(lia) s _ I Hy) as (s1 & R1 & Hy1 & _).
    destruct (jreads_ulong fuel (Z.of_nat (length d)) ltac:(lia) fuel_digits s1 (ch_rpar :: d ++ rest) ltac:(done) Hy1) as (s2 & R2 & Hy2 & _).
    destruct (jreads_test_char (fun _ => True) fuel ch_rpar ltac:(done) ltac:(done) ltac:(lia) s2 (d ++ rest) I Hy2)
      as (s3 & R3 & Hy3 & _).
    eexists _, s3. split.
    + eapply runs_bind; [exact R1|]. eapply runs_bind; [exact R2|]. eapply runs_bind; [exact R3|]. apply runs_ret.
    + split; [|by right]. split; [done|]. left. cbn. do 3 (split; [done|]). lia.
  - norm_app_in Hy. destruct (jreads_token (fun _ => True) fuel ch_quote ltac:(done) ltac:(lia) s _ I Hy) as (s1 & R1 & Hy1 & _).
    eexists _, s1. split; [eapply runs_bind; [exact R1|apply runs_ret]|].
    split; [|by left]. split; [done|]. right. cbn. do 2 (split; [done|]). split; [lia|]. by exists d.
Qed.

(** Growing the static buffer makes room for at least one byte. *)
Lemma buf_grow_spec (s : Json IS) : (N.of_nat (length (js_buf s)) <= js_size s)%N ->
  exists s', runs buf_grow s tt s' /\ js_inp s' = js_inp s /\ js_buf s' = js_buf s /\
    (N.of_nat (length (js_buf s)) < js_size s')%N.
Proof.
  intros Hz. eexists. split; [apply runs_modify|].
  destruct (N.leb_spec (js_size s) (N.of_nat (length (js_buf s)))); [|by repeat split].
  cbn [js_inp js_buf js_size]. do 2 (split; [done|]). destruct (N.eqb_spec (js_size s) 0); lia.
Qed.

(** The loop of [json_read_alloc_binary]: the static buffer grows until all the data is in it. *)
Lemma alloc_loop_spec n : forall st s d rest, rb_ready st s d rest ->
  (length d < n)%nat -> (2 * length d + 1 < fuel)%nat ->
  (N.of_nat (length (js_buf s)) <= js_size s)%N ->
  exists st' s', runs (read_alloc_binary_loop fuel n st) s st' s' /\
    rb_ready st' s' [] rest /\ js_buf s' = js_buf s ++ d /\ rb_size_start st' = rb_size_start st.
Proof.
  induction n as [|n IH]; intros st s d rest Hr Hn Hf Hz; [lia|]. cbn [read_alloc_binary_loop].
  destruct (buf_grow_spec s Hz) as (s1 & Rg & Hi1 & Hb1 & Hz1).
  assert (Hr1 : rb_ready st s1 d rest) by (unfold rb_ready in *; by rewrite Hi1).
  set (room := (N.to_nat (js_size s1) - length (js_buf s1))%nat).
  assert (Hroom : (0 < room)%nat) by (subst room; rewrite Hb1; lia).
  destruct (binary_data_spec st s1 d rest room Hr1 Hf) as (st2 & s2 & R2 & Hr2 & (Hb2 & Hz2) & Hst2).
  destruct (length (take room d) =? 0)%nat eqn:E0.
  - apply length_zero in E0. destruct d as [|x d]; [|by destruct room; [lia|]].
    exists st2, s2. rewrite drop_nil in Hr2. rewrite app_nil_r, Hb2, Hb1. split; [|done].
    eapply runs_bind; [exact Rg|]. eapply runs_bind; [apply runs_gets|]. fold room.
    eapply runs_bind; [exact R2|]. by rewrite take_nil.
  - apply Nat.eqb_neq in E0.
    set (s3 := mkJson (js_inp s2) (js_buf s2 ++ take room d) (js_size s2)).
    destruct (IH st2 s3 (drop room d) rest) as (st4 & s4 & R4 & Hr4 & Hb4 & Hst4).
    + done.
    + rewrite length_drop. destruct d; [by rewrite take_nil in E0|cbn [length] in *; lia].
    + rewrite length_drop. lia.
    + subst s3. cbn [js_buf js_size]. rewrite length_app, Hb2, Hz2, length_take. subst room. lia.
    + exists st4, s4. split; [|split; [done|split; [|congruence]]].
      * eapply runs_bind; [exact Rg|]. eapply runs_bind; [apply runs_gets|]. fold room.
        eapply runs_bind; [exact R2|]. cbv beta iota. rewrite (proj2 (Nat.eqb_neq _ 0)) by done.
        eapply runs_bind; [apply runs_modify|]. exact R4.
      * rewrite Hb4. subst s3. cbn [js_buf]. by rewrite Hb2, Hb1, <- (assoc_L (++)), take_drop.
Qed.
End Binary.

(** ** Properties *)

(** C30: Binary data written through [json_write_binary_start], [json_write_binary_data] and
    [json_write_binary_end] in pieces of any sizes, on any output stream, is read back through the
    reading functions in pieces of any other sizes; each piece fits the buffer it is read into, and
    after the last byte [json_read_binary_end] succeeds.  The size announced at the start is the size
    of the data, or zero when it is not known. *)
Theorem json_binary_roundtrip `{OutputStreamLaws OS, InputStreamLaws IS} fuel size chunks lens (o : OS) l :
  Forall (fun c => bytes c) chunks -> 0 <= size < 2 ^ 64 ->
  (size > 0 -> size = Z.of_nat (length (concat chunks))) ->
  (ULONG_DIGITS < fuel)%nat -> (2 * length (concat chunks) + 1 < fuel)%nat -> emits o l ->
  exists o' text,
    runs (let! st := json_write_binary_start size in
          let! st := write_binary_chunks st chunks in
          json_write_binary_end st) o tt o' /\
    emits o' (l ++ text) /\
    forall (s : Json IS) rest, jyields s (text ++ rest) ->
    exists ds st' s',
      runs (let! st := json_read_binary_start fuel in read_binary_chunks fuel st lens) s (ds, st') s' /\
      concat ds = take (list_sum lens) (concat chunks) /\
      Forall2 (fun d len => (length d <= len)%nat) ds lens /\
      ((length (concat chunks) <= list_sum lens)%nat ->
       exists s2, runs (json_read_binary_end fuel st') s' tt s2 /\ jyields s2 rest).
Proof.
  intros Hc Hs Hsz Hd Hf He.
  destruct (binary_stream chunks size o l Hc Hs Hsz He) as (o' & R & He').
  eexists o', _. split; [exact R|]. split; [exact He'|]. intros s rest Hy.
  destruct (binary_start_spec fuel Hd (supports_zero_copy o) size (concat chunks) s rest)
    as (st & s1 & R1 & Hr1 & _); [..|exact Hy|].
  { by apply Forall_concat. }
  { done. }
  { intros [_ Hgt]%andb_true_iff. apply Hsz. by apply Z.gtb_gt. }
  destruct (binary_chunks_spec fuel lens st s1 _ _ Hr1 Hf) as (ds & st2 & s2 & R2 & Hcd & Hl & Hr2).
  exists ds, st2, s2. split; [by eapply runs_bind|]. split; [done|]. split; [done|].
  intros Hall. rewrite drop_ge in Hr2 by done. by apply (binary_end_spec fuel Hd).
Qed.

Lemma json_binary_roundtrip_witness :
  exists o' text,
    runs (let! st := json_write_binary_start 0 in
          let! st := write_binary_chunks st [[1; 2]; []; [3; 255]] in
          json_write_binary_end st) create_byte_array_output_stream tt o' /\
    emits o' ([] ++ text) /\
    forall (s : Json ByteArrayInputStream) rest, jyields s (text ++ rest) ->
    exists ds st' s',
      runs (let! st := json_read_binary_start 30 in read_binary_chunks 30 st [1; 3]%nat) s (ds, st') s' /\
      concat ds = [1; 2; 3; 255] /\
      Forall2 (fun d len => (length d <= len)%nat) ds [1; 3]%nat /\
      ((4 <= 4)%nat -> exists s2, runs (json_read_binary_end 30 st') s' tt s2 /\ jyields s2 rest).
Proof.
  refine (json_binary_roundtrip 30 0 [[1; 2]; []; [3; 255]] [1; 3]%nat create_byte_array_output_stream []
    _ _ _ _ _ _).
  - by repeat constructor.
  - lia.
  - lia.
  - unfold ULONG_DIGITS. lia.
  - simpl. lia.
  - apply create_byte_array_emits.
Defined.

(** [json_read_alloc_binary] returns exactly the data [json_write_binary] wrote, of any size,
    and its length; a null pointer is returned as a null pointer with size zero. *)
Theorem json_alloc_binary_roundtrip `{OutputStreamLaws OS, InputStreamLaws IS} fuel data (o : OS) l :
  match data with None => True | Some d => bytes d /\ Z.of_nat (length d) < 2 ^ 64 end ->
  (ULONG_DIGITS < fuel)%nat -> (2 * length (default [] data) + 1 < fuel)%nat -> emits o l ->
  exists o' text, runs (json_write_binary data) o tt o' /\ emits o' (l ++ text) /\
    forall (s : Json IS) rest, jyields s (text ++ rest) ->
    exists s', runs (json_read_alloc_binary fuel) s (data, Z.of_nat (length (default [] data))) s' /\
      jyields s' rest.
Proof.
  intros Hdata Hd Hf He. destruct (json_write_binary_text data o l Hdata He) as (o' & R & He').
  eexists o', _. split; [exact R|]. split; [exact He'|]. intros s rest Hy.
  unfold json_read_alloc_binary. destruct data as [d|]; cbn [binary_text default] in *; unfold id in *.
  - destruct Hdata as [Hb Hlt].
    set (zc := supports_zero_copy o) in *. set (n := Z.of_nat (length d)) in *.
    fold (binary_stream_text zc n d) in Hy.
    assert (exists c t, binary_stream_text zc n d ++ rest = c :: t /\ stops c /\ c <> ch_n) as (c & t & Et & Hc & Hcn).
    { unfold binary_stream_text. destruct_if; eexists _, _; (split; [cbn [app]; reflexivity|done]). }
    rewrite Et in Hy. destruct (jpeek_token fuel s c t ltac:(lia) Hc Hy) as (s1 & R1 & Hy1 & Hb1).
    rewrite <- Et in Hy1.
    destruct (binary_start_spec fuel Hd zc n d s1 rest) as (st & s2 & R2 & Hr2 & Hst); [done|lia|done|done|].
    destruct (alloc_loop_spec fuel Hd fuel st (mkJson (js_inp s2) [] (js_size s2)) d rest) as
      (st3 & s3 & R3 & Hr3 & Hb3 & Hst3); [exact Hr2|lia|lia|cbn; lia|].
    destruct (binary_end_spec fuel Hd st3 s3 rest Hr3) as (s4 & R4 & Hy4).
    exists s4. split; [|done]. eapply runs_bind; [exact R1|]. rewrite (proj2 (Z.eqb_neq c ch_n)) by done.
    eapply runs_bind; [exact R2|]. eapply runs_bind; [apply runs_modify|]. eapply runs_bind; [exact R3|].
    eapply runs_bind; [apply runs_gets|]. rewrite Hb3. cbn [js_buf app].
    eapply runs_bind; [apply runs_cassert|by eapply runs_bind; [exact R4|]].
    apply orb_true_iff. rewrite Hst3, Z.leb_le, Z.eqb_eq. lia.
  - destruct (jpeek_token fuel s ch_n _ ltac:(lia) ltac:(done) Hy) as (s1 & R1 & Hy1 & _).
    destruct (jreads_stream (fun _ => True) ch_n s1 _ I Hy1) as (s2 & R2 & Hy2 & _).
    destruct (jreads_null (fun _ => True) fuel ltac:(lia) s2 rest I Hy2) as (s3 & R3 & Hy3 & _).
    exists s3. split; [|done]. eapply runs_bind; [exact R1|]. eapply runs_bind; [exact R2|].
    by eapply runs_bind; [exact R3|].
Qed.

Lemma json_alloc_binary_roundtrip_witness :
  exists o' text, runs (json_write_binary (Some [7; 0; 200; 9])) create_byte_array_output_stream tt o' /\
    emits o' ([] ++ text) /\
    forall (s : Json ByteArrayInputStream) rest, jyields s (text ++ rest) ->
    exists s', runs (json_read_alloc_binary 30) s (Some [7; 0; 200; 9], 4) s' /\ jyields s' rest.
Proof.
  refine (json_alloc_binary_roundtrip 30 (Some [7; 0; 200; 9]) create_byte_array_output_stream [] _ _ _ _).
  - split; [by repeat constructor|simpl; lia].
  - unfold ULONG_DIGITS. lia.
  - simpl. lia.
  - apply create_byte_array_emits.
Defined.
