(* ===== verification/OutputBuf.v ===== *)
(** * Queue of output buffers (framework/outputbuf.c)

    A channel hands filled buffers to the queue; the buffer at the head of the queue is being written
    to the socket by an asynchronous request, whose completion calls [output_queue_done].  The list
    of [LINK] cells is a Rocq list, a buffer is the part [buf[0 .. buf_len)] of its array and
    [buf_pos]; the pool of free buffers is its size, since the contents of a pooled buffer are never
    read.  [oq_sent] is a history variable: the bytes the finished requests have transmitted. *)

From S2P Require Import Prelude.

(** [OUTPUT_QUEUE_BUF_SIZE], with [MEM_USAGE_FACTOR] 32. *)
Definition OUTPUT_QUEUE_BUF_SIZE : nat := 128 * 32.
Definition MAX_POOL_SIZE : nat := 32.

Record OutputBuffer := mkOB { ob_buf : list Z; ob_pos : nat }.

(** An outstanding write request: the data and the [MSG_MORE] flag. *)
Record WriteRequest := mkWR { wr_data : list Z; wr_more : bool }.

Record OutputQueue := mkOQ {
  oq_error : Z;
  oq_queue : list OutputBuffer;
  oq_pool : nat;
  oq_req : option WriteRequest;
  oq_sent : list Z }.

Notation Q := (M OutputQueue).

Definition set_queue (l : list OutputBuffer) (q : OutputQueue) : OutputQueue :=
  mkOQ (oq_error q) l (oq_pool q) (oq_req q) (oq_sent q).
Definition set_pool (n : nat) (q : OutputQueue) : OutputQueue :=
  mkOQ (oq_error q) (oq_queue q) n (oq_req q) (oq_sent q).
Definition set_req (r : option WriteRequest) (q : OutputQueue) : OutputQueue :=
  mkOQ (oq_error q) (oq_queue q) (oq_pool q) r (oq_sent q).
Definition set_error (e : Z) (q : OutputQueue) : OutputQueue :=
  mkOQ e (oq_queue q) (oq_pool q) (oq_req q) (oq_sent q).

Definition output_queue_ini : OutputQueue := mkOQ 0 [] 0 None [].

Definition output_queue_alloc_obuf : Q OutputBuffer :=
  let! pool := gets oq_pool in
  match pool with
  | O => ret (mkOB [] 0)
  | S n => modify (set_pool n) ;! ret (mkOB [] 0)
  end.

Definition output_queue_free_obuf (bf : OutputBuffer) : Q unit :=
  let! pool := gets oq_pool in
  if (pool <? MAX_POOL_SIZE)%nat then modify (set_pool (S pool)) else ret tt.

(** The queue's [post_io_request], as [post_write_request] of channel_tcp.c implements it for a
    socket: the request covers [buf[buf_pos .. buf_len)]. *)
Definition post_io_request (bf : OutputBuffer) : Q unit :=
  let! l := gets oq_queue in
  modify (set_req (Some (mkWR (drop (ob_pos bf) (ob_buf bf)) (1 <? length l)%nat))).

(** [queue.next != queue.prev]: the last buffer is not the one being written. *)
Definition last_pending (l : list OutputBuffer) : option (list OutputBuffer * OutputBuffer) :=
  if (1 <? length l)%nat then
    match last l with Some bf => Some (removelast l, bf) | None => None end
  else None.

(** [list_add_last] and the posting of the first request. *)
Definition enqueue (bf : OutputBuffer) : Q unit :=
  let! l := gets oq_queue in
  modify (set_queue (l ++ [bf])) ;!
  if (length l =? 0)%nat then post_io_request bf else ret tt.

Definition output_queue_add_obuf (bf : OutputBuffer) : Q unit :=
  let! l := gets oq_queue in
  let new := enqueue (mkOB (ob_buf bf) 0) in
  match last_pending l with
  | Some (l', bp) =>
      cassert (ob_pos bp =? 0)%nat ;!
      if (length (ob_buf bf) <=? OUTPUT_QUEUE_BUF_SIZE - length (ob_buf bp))%nat then
        modify (set_queue (l' ++ [mkOB (ob_buf bp ++ ob_buf bf) (ob_pos bp)])) ;!
        output_queue_free_obuf bf
      else new
  | None => new
  end.

(** The loop of [output_queue_add]. *)
Fixpoint output_queue_add_loop (n : nat) (buf : list Z) : Q unit :=
  match n with
  | O => nofuel
  | S n' =>
      if (0 <? length buf)%nat then
        let len := Nat.min (length buf) OUTPUT_QUEUE_BUF_SIZE in
        let! _ := output_queue_alloc_obuf in
        enqueue (mkOB (take len buf) 0) ;!
        output_queue_add_loop n' (drop len buf)
      else ret tt
  end.

Definition output_queue_add (buf : list Z) : Q unit :=
  let! e := gets oq_error in
  if negb (e =? 0) then ret tt
  else
    let! l := gets oq_queue in
    let! buf :=
      match last_pending l with
      | Some (l', bf) =>
          cassert (ob_pos bf =? 0)%nat ;!
          let gap := (OUTPUT_QUEUE_BUF_SIZE - length (ob_buf bf))%nat in
          if (0 <? gap)%nat then
            let len := Nat.min (length buf) gap in
            modify (set_queue (l' ++ [mkOB (ob_buf bf ++ take len buf) (ob_pos bf)])) ;!
            ret (drop len buf)
          else ret buf
      | None => ret buf
      end in
    output_queue_add_loop (S (length buf)) buf.

(** The loop of [output_queue_clear]. *)
Fixpoint output_queue_clear_loop (l : list OutputBuffer) : Q unit :=
  match l with
  | [] => ret tt
  | bf :: l' => modify (set_queue l') ;! output_queue_free_obuf bf ;! output_queue_clear_loop l'
  end.

Definition output_queue_clear : Q unit :=
  let! l := gets oq_queue in output_queue_clear_loop l.

(** The completion of a request that transmitted the first [size] bytes of its data, or failed;
    the first line is the effect of the socket on the history. *)
Definition output_queue_done (error : Z) (size : nat) : Q unit :=
  modify (fun q => mkOQ (oq_error q) (oq_queue q) (oq_pool q) None
            (oq_sent q ++ match oq_req q with
                          | Some r => if error =? 0 then take size (wr_data r) else []
                          | None => []
                          end)) ;!
  let! l := gets oq_queue in
  match l with
  | [] => fault
  | bf :: l' =>
      let! e := gets oq_error in
      cassert (e =? 0) ;!
      (if negb (error =? 0) then
         modify (set_error error) ;!
         output_queue_clear
       else
         let bf := mkOB (ob_buf bf) (ob_pos bf + size) in
         if (ob_pos bf <? length (ob_buf bf))%nat then modify (set_queue (bf :: l'))
         else modify (set_queue l') ;! output_queue_free_obuf bf) ;!
      let! l := gets oq_queue in
      match l with
      | [] => ret tt
      | bf :: _ => post_io_request bf
      end
  end.

(** ** Invariant *)

(** The bytes of the queue that are not yet known to be transmitted. *)
Definition pending_of (l : list OutputBuffer) : list Z :=
  concat (map (fun bf => drop (ob_pos bf) (ob_buf bf)) l).

Definition pending (q : OutputQueue) : list Z := pending_of (oq_queue q).

Definition ob_wf (bf : OutputBuffer) : Prop :=
  (ob_pos bf < length (ob_buf bf) <= OUTPUT_QUEUE_BUF_SIZE)%nat.

(** A request is outstanding exactly when the queue is not empty; it covers the rest of the first
    buffer, and the other buffers are untouched. *)
Definition oq_wf (q : OutputQueue) : Prop :=
  Forall ob_wf (oq_queue q) /\
  Forall (fun bf => ob_pos bf = 0%nat) (tail (oq_queue q)) /\
  option_map wr_data (oq_req q) =
    match oq_queue q with [] => None | bf :: _ => Some (drop (ob_pos bf) (ob_buf bf)) end.

Definition oq_ok (q : OutputQueue) : Prop := oq_error q = 0 /\ oq_wf q.

(** What does not change when buffers are added. *)
Definition oq_same (q q' : OutputQueue) : Prop := oq_sent q' = oq_sent q.

Lemma pending_of_app l k : pending_of (l ++ k) = pending_of l ++ pending_of k.
Proof. unfold pending_of. by rewrite map_app, concat_app. Qed.

Lemma last_pending_spec l l' bf : last_pending l = Some (l', bf) ->
  l = l' ++ [bf] /\ l' <> [].
Proof.
  unfold last_pending. destruct (Nat.ltb_spec 1 (length l)) as [Hl|]; [|done].
  destruct l as [|x l] using rev_ind; [done|]. rewrite last_snoc, removelast_last. intros [= <- <-].
  split; [done|]. rewrite length_app in Hl. cbn in Hl. intros ->. cbn in Hl. lia.
Qed.

Lemma runs_free bf q : exists n, runs (output_queue_free_obuf bf) q tt (set_pool n q).
Proof.
  unfold output_queue_free_obuf.
  destruct (oq_pool q <? MAX_POOL_SIZE)%nat eqn:E.
  - exists (S (oq_pool q)). eapply runs_bind; [apply runs_gets|]. by rewrite E.
  - exists (oq_pool q). eapply runs_bind; [apply runs_gets|]. rewrite E. unfold runs, ret, set_pool. by destruct q.
Qed.

Lemma runs_alloc q : exists n, runs output_queue_alloc_obuf q (mkOB [] 0) (set_pool n q).
Proof.
  unfold output_queue_alloc_obuf. destruct (oq_pool q) as [|n] eqn:E.
  - exists 0%nat. eapply runs_bind; [apply runs_gets|]. rewrite E. unfold runs, ret, set_pool. destruct q; simpl in *; congruence.
  - exists n. eapply runs_bind; [apply runs_gets|]. rewrite E. by eapply runs_bind; [apply runs_modify|].
Qed.

Lemma enqueue_spec data q : oq_ok q -> (0 < length data <= OUTPUT_QUEUE_BUF_SIZE)%nat ->
  exists q', runs (enqueue (mkOB data 0)) q tt q' /\ oq_ok q' /\ oq_same q q' /\
    pending q' = pending q ++ data.
Proof.
  intros (He & Hwf & Hpos & Hreq) Hl. unfold enqueue.
  assert (Hp : forall l, pending_of (l ++ [mkOB data 0]) = pending_of l ++ data).
  { intros l. rewrite pending_of_app. f_equal. unfold pending_of. cbn. by rewrite drop_0, app_nil_r. }
  destruct (oq_queue q) as [|bf l] eqn:E.
  - eexists. split.
    + eapply runs_bind; [apply runs_gets|]. rewrite E. eapply runs_bind; [apply runs_modify|].
      eapply runs_bind; [apply runs_gets|apply runs_modify].
    + split; [|split; [done|unfold pending; cbn; rewrite E; apply (Hp [])]].
      split; [done|]. cbn. split; [by constructor|]. by split.
  - eexists. split.
    + eapply runs_bind; [apply runs_gets|]. rewrite E. eapply runs_bind; [apply runs_modify|]. apply runs_ret.
    + split; [|split; [done|unfold pending; cbn; rewrite E; apply (Hp (bf :: l))]].
      split; [done|]. cbn. split; [|split; [|done]].
      * apply (Forall_app_2 _ (bf :: l)); [done|]. by constructor.
      * apply Forall_app_2; [done|]. by constructor.
Qed.

(** Appending to a last buffer that is not the first. *)
Lemma append_last_spec q l' bf data : oq_ok q -> last_pending (oq_queue q) = Some (l', bf) ->
  (length (ob_buf bf) + length data <= OUTPUT_QUEUE_BUF_SIZE)%nat ->
  let q' := set_queue (l' ++ [mkOB (ob_buf bf ++ data) (ob_pos bf)]) q in
  ob_pos bf = 0%nat /\ oq_ok q' /\ pending q' = pending q ++ data.
Proof.
  intros (He & Hwf & Hpos & Hreq) [Hl Hne]%last_pending_spec Hlen q'.
  destruct l' as [|hd l']; [done|]. rewrite Hl in *. cbn [tail app] in Hpos.
  apply Forall_app in Hpos as [Hpos1 Hpos2]. inversion Hpos2 as [|? ? Hp0 _]; subst.
  apply Forall_app in Hwf as [Hwf1 Hwf2]. inversion Hwf2 as [|? ? Hw _]; subst.
  split; [done|]. split.
  - split; [done|]. cbn. split; [|split; [|done]].
    + apply (Forall_app_2 _ (hd :: l')); [done|]. constructor; [|done].
      unfold ob_wf in *. cbn [ob_buf ob_pos]. rewrite length_app. lia.
    + apply Forall_app_2; [done|]. by constructor.
  - unfold pending. subst q'. cbn [oq_queue set_queue]. rewrite Hl, !pending_of_app, <- (assoc_L (++)).
    f_equal. unfold pending_of. cbn. by rewrite Hp0, !drop_0, !app_nil_r.
Qed.

(** Freeing a buffer changes the pool only. *)
Lemma oq_ok_pool n q : oq_ok q -> oq_ok (set_pool n q).
Proof. done. Qed.

Lemma add_obuf_spec data q pos : oq_ok q -> (0 < length data <= OUTPUT_QUEUE_BUF_SIZE)%nat ->
  exists q', runs (output_queue_add_obuf (mkOB data pos)) q tt q' /\ oq_ok q' /\ oq_same q q' /\
    pending q' = pending q ++ data.
Proof.
  intros Hok Hl. destruct (enqueue_spec data q Hok Hl) as (q1 & R1 & Hok1 & Hs1 & Hp1).
  assert (Hnew : exists q', runs (enqueue (mkOB data 0)) q tt q' /\ oq_ok q' /\ oq_same q q' /\
    pending q' = pending q ++ data) by eauto.
  unfold output_queue_add_obuf. cbn [ob_buf].
  destruct (last_pending (oq_queue q)) as [[l' bp]|] eqn:E.
  - destruct (length data <=? OUTPUT_QUEUE_BUF_SIZE - length (ob_buf bp))%nat eqn:Egap.
    + apply Nat.leb_le in Egap.
      destruct (append_last_spec q l' bp data Hok E ltac:(lia)) as (Hp0 & Hok2 & Hp2).
      set (q2 := set_queue (l' ++ [mkOB (ob_buf bp ++ data) (ob_pos bp)]) q) in *.
      destruct (runs_free (mkOB data pos) q2) as (n & R). exists (set_pool n q2).
      split; [|split; [by apply oq_ok_pool|by split]].
      eapply runs_bind; [apply runs_gets|]. rewrite E. eapply runs_bind; [by apply runs_cassert; rewrite Hp0|].
      apply Nat.leb_le in Egap. rewrite Egap. eapply runs_bind; [apply runs_modify|]. exact R.
    + destruct Hnew as (q2 & R2 & ?). exists q2. split; [|done].
      eapply runs_bind; [apply runs_gets|]. rewrite E. eapply runs_bind; [|rewrite Egap; exact R2].
      apply runs_cassert. apply last_pending_spec in E as [El Hne]. destruct Hok as (_ & _ & Hpos & _).
      rewrite El in Hpos. destruct l'; [done|]. cbn in Hpos. apply Forall_app in Hpos as [_ Hpos].
      inversion Hpos as [|? ? Hp0 _]; subst. by rewrite Hp0.
  - destruct Hnew as (q2 & R2 & ?). exists q2. split; [|done].
    eapply runs_bind; [apply runs_gets|]. by rewrite E.
Qed.

Lemma add_loop_spec n : forall data q, oq_ok q -> (length data < n)%nat ->
  exists q', runs (output_queue_add_loop n data) q tt q' /\ oq_ok q' /\ oq_same q q' /\
    pending q' = pending q ++ data.
Proof.
  induction n as [|n IH]; intros data q Hok Hn; [lia|]. cbn [output_queue_add_loop].
  destruct (Nat.ltb_spec 0 (length data)) as [Hl|Hl].
  - set (len := Nat.min (length data) OUTPUT_QUEUE_BUF_SIZE).
    assert (Hlen : (0 < len <= OUTPUT_QUEUE_BUF_SIZE)%nat) by (unfold OUTPUT_QUEUE_BUF_SIZE in *; lia).
    destruct (runs_alloc q) as (p & R0).
    destruct (enqueue_spec (take len data) (set_pool p q)) as (q1 & R1 & Hok1 & Hs1 & Hp1);
      [by apply oq_ok_pool|rewrite length_take; lia|].
    destruct (IH (drop len data) q1 Hok1) as (q2 & R2 & Hok2 & Hs2 & Hp2); [rewrite length_drop; lia|].
    exists q2. split; [|split; [done|split]].
    + eapply runs_bind; [exact R0|]. eapply runs_bind; [exact R1|exact R2].
    + unfold oq_same in *. by rewrite Hs2, Hs1.
    + rewrite Hp2, Hp1, <- (assoc_L (++)), take_drop. done.
  - destruct data; [|cbn in Hl; lia]. exists q. rewrite app_nil_r. by repeat split; try apply Hok.
Qed.

Lemma add_spec data q : oq_ok q ->
  exists q', runs (output_queue_add data) q tt q' /\ oq_ok q' /\ oq_same q q' /\
    pending q' = pending q ++ data.
Proof.
  intros Hok. pose proof Hok as [He _]. unfold output_queue_add.
  destruct (last_pending (oq_queue q)) as [[l' bf]|] eqn:E.
  - set (gap := (OUTPUT_QUEUE_BUF_SIZE - length (ob_buf bf))%nat).
    set (len := Nat.min (length data) gap).
    assert (Hbf : (length (ob_buf bf) <= OUTPUT_QUEUE_BUF_SIZE)%nat /\ ob_pos bf = 0%nat).
    { pose proof (last_pending_spec _ _ _ E) as [El Hne]. destruct Hok as (_ & Hwf & Hpos & _).
      rewrite El in Hwf, Hpos. apply Forall_app in Hwf as [_ Hwf]. inversion Hwf as [|? ? [_ Hw] _]; subst.
      destruct l'; [done|]. cbn in Hpos. apply Forall_app in Hpos as [_ Hpos]. by inversion Hpos. }
    destruct Hbf as [Hbl Hb0].
    destruct (append_last_spec q l' bf (take len data) Hok E) as (_ & Hok1 & Hp1);
      [rewrite length_take; lia|].
    set (q1 := set_queue _ q) in *.
    destruct (0 <? gap)%nat eqn:Egap.
    + destruct (add_loop_spec (S (length (drop len data))) (drop len data) q1 Hok1) as (q2 & R2 & Hok2 & Hs2 & Hp2); [lia|].
      exists q2. split; [|split; [done|split; [done|by rewrite Hp2, Hp1, <- (assoc_L (++)), take_drop]]].
      eapply runs_bind; [apply runs_gets|]. rewrite He. cbn [Z.eqb negb].
      eapply runs_bind; [apply runs_gets|]. rewrite E.
      eapply runs_bind; [|exact R2]. eapply runs_bind; [by apply runs_cassert; rewrite Hb0|].
      fold gap. rewrite Egap. eapply runs_bind; [apply runs_modify|]. apply runs_ret.
    + destruct (add_loop_spec (S (length data)) data q Hok) as (q2 & R2 & Hok2 & Hs2 & Hp2); [lia|].
      exists q2. split; [|done].
      eapply runs_bind; [apply runs_gets|]. rewrite He. cbn [Z.eqb negb].
      eapply runs_bind; [apply runs_gets|]. rewrite E.
      eapply runs_bind; [|exact R2]. eapply runs_bind; [by apply runs_cassert; rewrite Hb0|].
      fold gap. rewrite Egap. apply runs_ret.
  - destruct (add_loop_spec (S (length data)) data q Hok) as (q2 & R2 & Hok2 & Hs2 & Hp2); [lia|].
    exists q2. split; [|done].
    eapply runs_bind; [apply runs_gets|]. rewrite He. cbn [Z.eqb negb].
    eapply runs_bind; [apply runs_gets|]. rewrite E. by eapply runs_bind; [apply runs_ret|].
Qed.

(** A completed request: [size] more bytes are transmitted, and the rest is offered again. *)
Lemma done_spec q r size : oq_ok q -> oq_req q = Some r -> (size <= length (wr_data r))%nat ->
  exists q', runs (output_queue_done 0 size) q tt q' /\ oq_ok q' /\
    oq_sent q' = oq_sent q ++ take size (wr_data r) /\
    pending q = take size (wr_data r) ++ pending q'.
Proof.
  intros (He & Hwf & Hpos & Hreq) Hr Hsz. rewrite Hr in Hreq. cbn in Hreq.
  destruct (oq_queue q) as [|bf l] eqn:E; [done|]. injection Hreq as Hreq.
  apply Forall_cons in Hwf as [Hbf Hwf]. cbn in Hpos.
  set (bf' := mkOB (ob_buf bf) (ob_pos bf + size)).
  assert (Hpend : pending q = take size (wr_data r) ++ drop (ob_pos bf') (ob_buf bf') ++ pending_of l).
  { unfold pending. rewrite E. unfold pending_of. cbn [map concat bf' ob_pos ob_buf].
    rewrite Hreq, (assoc_L (++)), <- drop_drop, take_drop. done. }
  unfold output_queue_done.
  set (q1 := mkOQ (oq_error q) (oq_queue q) (oq_pool q) None (oq_sent q ++ take size (wr_data r))).
  destruct (ob_pos bf' <? length (ob_buf bf'))%nat eqn:Efin.
  - exists (set_req (Some (mkWR (drop (ob_pos bf') (ob_buf bf')) (1 <? length (bf' :: l))%nat)) (set_queue (bf' :: l) q1)).
    split; [|split; [|split; [done|exact Hpend]]].
    + eapply runs_bind; [apply runs_modify|]. rewrite Hr. cbn [Z.eqb]. fold q1.
      eapply runs_bind; [apply runs_gets|]. cbn [oq_queue q1]. rewrite E.
      eapply runs_bind; [apply runs_gets|]. eapply runs_bind; [apply runs_cassert; cbn; by rewrite He|].
      cbn [Z.eqb negb]. fold bf'. rewrite Efin.
      eapply runs_bind; [apply runs_modify|]. eapply runs_bind; [apply runs_gets|].
      eapply runs_bind; [apply runs_gets|]. apply runs_modify.
    + split; [done|]. apply Nat.ltb_lt in Efin. split; [constructor; [|done]|by split].
      destruct Hbf. split; [done|]. done.
  - destruct (runs_free bf' (set_queue l q1)) as (n & Rf).
    apply Nat.ltb_ge in Efin as Hfin.
    assert (Hd : drop (ob_pos bf') (ob_buf bf') = []) by (by apply drop_ge). rewrite Hd in Hpend.
    set (q2 := set_pool n (set_queue l q1)) in *.
    assert (R : runs (let! l := gets oq_queue in match l with [] => ret tt | bf :: _ => post_io_request bf end)
        q2 tt (match l with
               | [] => q2
               | b :: _ => set_req (Some (mkWR (drop (ob_pos b) (ob_buf b)) (1 <? length l)%nat)) q2
               end)).
    { eapply runs_bind; [apply runs_gets|]. cbn [q2 set_pool set_queue oq_queue].
      destruct l; [apply runs_ret|]. eapply runs_bind; [apply runs_gets|apply runs_modify]. }
    eexists. split; [|split; [|split]].
    + eapply runs_bind; [apply runs_modify|]. rewrite Hr. cbn [Z.eqb]. fold q1.
      eapply runs_bind; [apply runs_gets|]. cbn [oq_queue q1]. rewrite E.
      eapply runs_bind; [apply runs_gets|]. eapply runs_bind; [apply runs_cassert; cbn; by rewrite He|].
      cbn [Z.eqb negb]. fold bf'. rewrite Efin.
      eapply runs_bind; [eapply runs_bind; [apply runs_modify|exact Rf]|]. exact R.
    + destruct l; (split; [done|]); (split; [done|]); (split; [|done]); [done|].
      by apply Forall_cons in Hpos as [_ ?].
    + by destruct l.
    + rewrite Hpend. by destruct l.
Qed.

(** ** The queue as a transition system *)

Inductive oq_action :=
  | AAdd (data : list Z)
  | AAddBuf (data : list Z)
  | ADone (size : nat).

Definition oq_exec (a : oq_action) : Q unit :=
  match a with
  | AAdd data => output_queue_add data
  | AAddBuf data => output_queue_add_obuf (mkOB data 0)
  | ADone size => output_queue_done 0 size
  end.

(** Clients add buffers that are not empty; a request completes when there is one, and transmits
    no more than its data. *)
Definition oq_enabled (q : OutputQueue) (a : oq_action) : Prop :=
  match a with
  | AAdd _ => True
  | AAddBuf data => (0 < length data <= OUTPUT_QUEUE_BUF_SIZE)%nat
  | ADone size => exists r, oq_req q = Some r /\ (size <= length (wr_data r))%nat
  end.

Definition oq_added (a : oq_action) : list Z :=
  match a with AAdd data => data | AAddBuf data => data | ADone _ => [] end.

Inductive oq_reach : OutputQueue -> list Z -> Prop :=
  | oq_reach_ini : oq_reach output_queue_ini []
  | oq_reach_step q h a q' : oq_reach q h -> oq_enabled q a -> runs (oq_exec a) q tt q' ->
      oq_reach q' (h ++ oq_added a).

Lemma oq_exec_spec q a : oq_ok q -> oq_enabled q a ->
  exists q', runs (oq_exec a) q tt q' /\ oq_ok q' /\
    oq_sent q' ++ pending q' = (oq_sent q ++ pending q) ++ oq_added a.
Proof.
  intros Hok Ha. destruct a as [data|data|size]; cbn [oq_exec oq_added oq_enabled] in *.
  - destruct (add_spec data q Hok) as (q' & R & Hok' & Hs & Hp). exists q'.
    split; [done|]. split; [done|]. by rewrite Hp, Hs, (assoc_L (++)).
  - destruct (add_obuf_spec data q 0 Hok Ha) as (q' & R & Hok' & Hs & Hp). exists q'.
    split; [done|]. split; [done|]. by rewrite Hp, Hs, (assoc_L (++)).
  - destruct Ha as (r & Hr & Hsz). destruct (done_spec q r size Hok Hr Hsz) as (q' & R & Hok' & Hs & Hp).
    exists q'. split; [done|]. split; [done|]. by rewrite app_nil_r, Hs, Hp, (assoc_L (++)).
Qed.

Lemma oq_reach_inv q h : oq_reach q h -> oq_ok q /\ oq_sent q ++ pending q = h.
Proof.
  induction 1 as [|q h a q' _ [Hok IH] Ha R]; [by repeat split; try constructor|].
  destruct (oq_exec_spec q a Hok Ha) as (q2 & R2 & Hok2 & Hh).
  destruct (runs_det _ _ _ _ _ _ R R2) as [_ ->]. by rewrite Hh, IH.
Qed.

(** ** Properties *)

(** C20: the output queue is a FIFO of bytes.  After any sequence of [output_queue_add],
    [output_queue_add_obuf] and completions of write requests, the bytes transmitted and the bytes
    queued are together the bytes added, in order; a request is outstanding exactly when bytes are
    queued, and covers the next bytes to transmit and at least one; no buffer exceeds its size; and
    every operation that may happen next returns without failing an assertion. *)
Theorem output_queue_fifo q h :
  oq_reach q h ->
  oq_sent q ++ pending q = h /\
  match oq_req q with
  | None => pending q = []
  | Some r => wr_data r <> [] /\ wr_data r `prefix_of` pending q
  end /\
  Forall (fun bf => (length (ob_buf bf) <= OUTPUT_QUEUE_BUF_SIZE)%nat) (oq_queue q) /\
  forall a, oq_enabled q a -> exists q', runs (oq_exec a) q tt q'.
Proof.
  intros [Hok Hh]%oq_reach_inv. split; [done|]. pose proof Hok as (_ & Hwf & _ & Hreq). split; [|split].
  - unfold pending. destruct (oq_queue q) as [|bf l]; destruct (oq_req q) as [r|]; try done.
    injection Hreq as ->. split; [|by eexists].
    apply Forall_cons in Hwf as [[Hlt _] _]. intros Hn. apply (f_equal length) in Hn.
    rewrite length_drop in Hn. cbn in Hn. lia.
  - eapply Forall_impl; [exact Hwf|]. by intros bf [_ H].
  - intros a Ha. destruct (oq_exec_spec q a Hok Ha) as (q' & R & _). by exists q'.
Qed.

Lemma output_queue_fifo_witness :
  exists q, runs (oq_exec (ADone 1)) (snd (oq_exec (AAdd [1; 2; 3]) output_queue_ini)) tt q /\
  oq_sent q ++ pending q = [1; 2; 3] /\
  match oq_req q with
  | None => pending q = []
  | Some r => wr_data r <> [] /\ wr_data r `prefix_of` pending q
  end /\
  Forall (fun bf => (length (ob_buf bf) <= OUTPUT_QUEUE_BUF_SIZE)%nat) (oq_queue q) /\
  forall a, oq_enabled q a -> exists q', runs (oq_exec a) q tt q'.
Proof.
  eexists. split; [vm_compute; reflexivity|]. apply (output_queue_fifo _ ([] ++ [1; 2; 3] ++ [])).
  rewrite (assoc_L (++)). apply (oq_reach_step (snd (oq_exec (AAdd [1; 2; 3]) output_queue_ini)) _ (ADone 1)).
  - apply (oq_reach_step output_queue_ini [] (AAdd [1; 2; 3])); [constructor|done|reflexivity].
  - eexists. split; [vm_compute; reflexivity|]. cbn. lia.
  - reflexivity.
Defined.

Lemma clear_loop_spec l : forall q, oq_queue q = l ->
  exists n, runs (output_queue_clear_loop l) q tt (set_pool n (set_queue [] q)).
Proof.
  induction l as [|bf l IH]; intros q Hq; cbn [output_queue_clear_loop].
  - exists (oq_pool q). unfold runs, ret, set_pool, set_queue. destruct q; simpl in *. by subst.
  - destruct (runs_free bf (set_queue l q)) as (n & R).
    destruct (IH (set_pool n (set_queue l q)) eq_refl) as (n2 & R2). exists n2.
    eapply runs_bind; [apply runs_modify|]. by eapply runs_bind; [exact R|].
Qed.

(** a failed write empties the queue, keeps what was transmitted, posts no further request, and
    marks the queue: data added to it with [output_queue_add] is dropped from then on. *)
Theorem output_queue_error q h error size data :
  oq_reach q h -> oq_req q <> None -> error <> 0 ->
  exists q', runs (output_queue_done error size) q tt q' /\ oq_error q' = error /\
    oq_queue q' = [] /\ oq_req q' = None /\ oq_sent q' = oq_sent q /\
    runs (output_queue_add data) q' tt q'.
Proof.
  intros [(He & _ & _ & Hreq) _]%oq_reach_inv Hr Herr.
  destruct (oq_queue q) as [|bf l] eqn:E; [by destruct (oq_req q)|].
  set (q1 := mkOQ (oq_error q) (oq_queue q) (oq_pool q) None (oq_sent q ++ [])).
  destruct (clear_loop_spec (oq_queue (set_error error q1)) (set_error error q1) eq_refl) as (n & Rc).
  set (q2 := set_pool n (set_queue [] (set_error error q1))) in *.
  exists q2. split; [|repeat split].
  - unfold output_queue_done. eapply runs_bind; [apply runs_modify|].
    replace (match oq_req q with Some r => if error =? 0 then take size (wr_data r) else [] | None => [] end)
      with (@nil Z) by (rewrite (proj2 (Z.eqb_neq error 0)) by done; by destruct (oq_req q)).
    fold q1. eapply runs_bind; [apply runs_gets|]. cbn [q1 oq_queue]. rewrite E.
    eapply runs_bind; [apply runs_gets|]. eapply runs_bind; [apply runs_cassert; cbn; by rewrite He|].
    rewrite (proj2 (Z.eqb_neq error 0)) by done. cbn [negb].
    eapply runs_bind; [eapply runs_bind; [apply runs_modify|]; eapply runs_bind; [apply runs_gets|exact Rc]|].
    eapply runs_bind; [apply runs_gets|]. apply runs_ret.
  - cbn. by rewrite app_nil_r.
  - unfold output_queue_add. eapply runs_bind; [apply runs_gets|].
    cbn [q2 set_pool set_queue set_error oq_error]. by rewrite (proj2 (Z.eqb_neq error 0)) by done.
Qed.

Lemma output_queue_error_witness :
  exists q', runs (output_queue_done 32 0) (snd (oq_exec (AAdd [1; 2; 3]) output_queue_ini)) tt q' /\
    oq_error q' = 32 /\ oq_queue q' = [] /\ oq_req q' = None /\
    oq_sent q' = oq_sent (snd (oq_exec (AAdd [1; 2; 3]) output_queue_ini)) /\
    runs (output_queue_add [4]) q' tt q'.
Proof.
  apply (output_queue_error _ ([] ++ [1; 2; 3])).
  - apply (oq_reach_step output_queue_ini [] (AAdd [1; 2; 3])); [constructor|done|reflexivity].
  - discriminate.
  - discriminate.
Defined.
