(* ===== verification/ChannelOut.v ===== *)
(** * Output side of a channel (framework/channel_tcp.c)

    [tcp_write_stream] and [tcp_write_block_stream] encode symbols into the output buffer: bytes,
    escape sequences for [ESC] and the two markers, and blocks of binary data with a length prefix
    when the peer supports zero copy.  Full buffers go to the output queue.  The configuration is the
    one of Linux: [ENABLE_OutputQueue], buffers of 4096 bytes, no SSL. *)

From S2P Require Import Prelude Streams OutputBuf JsonWrite JsonRead.

(** [BUF_SIZE]; it is not greater than 0x4000, so the length prefix has two bytes. *)
Definition BUF_SIZE : nat := OUTPUT_QUEUE_BUF_SIZE.

(** The part of [struct ChannelTCP] and [struct Channel] the output uses.  [ct_obuf] is
    [obuf->buf[0 .. cur)], [ct_bin_block] the offset of [out_bin_block] in it; [ct_events] counts the
    posted flush events. *)
Record ChannelTCP := mkCT {
  ct_zero_copy : bool;
  ct_connected : bool;
  ct_out_errno : Z;
  ct_obuf : list Z;
  ct_bin_block : option nat;
  ct_flush_cnt : nat;
  ct_eom_cnt : nat;
  ct_events : nat;
  ct_lock_cnt : nat;
  ct_queue : OutputQueue }.

Notation C := (M ChannelTCP).

Definition ct_set_obuf (b : list Z) (c : ChannelTCP) : ChannelTCP :=
  mkCT (ct_zero_copy c) (ct_connected c) (ct_out_errno c) b (ct_bin_block c) (ct_flush_cnt c)
    (ct_eom_cnt c) (ct_events c) (ct_lock_cnt c) (ct_queue c).
Definition ct_set_bin (k : option nat) (c : ChannelTCP) : ChannelTCP :=
  mkCT (ct_zero_copy c) (ct_connected c) (ct_out_errno c) (ct_obuf c) k (ct_flush_cnt c)
    (ct_eom_cnt c) (ct_events c) (ct_lock_cnt c) (ct_queue c).
Definition ct_set_counts (flush eom events locks : nat) (c : ChannelTCP) : ChannelTCP :=
  mkCT (ct_zero_copy c) (ct_connected c) (ct_out_errno c) (ct_obuf c) (ct_bin_block c) flush
    eom events locks (ct_queue c).
Definition ct_set_queue (q : OutputQueue) (c : ChannelTCP) : ChannelTCP :=
  mkCT (ct_zero_copy c) (ct_connected c) (ct_out_errno c) (ct_obuf c) (ct_bin_block c) (ct_flush_cnt c)
    (ct_eom_cnt c) (ct_events c) (ct_lock_cnt c) q.

Definition on_queue {A} (m : M OutputQueue A) : C A := zoom ct_queue ct_set_queue m.

(** [*c->chan.out.cur++ = b]. *)
Definition put_byte (b : Z) : C unit :=
  let! buf := gets ct_obuf in
  if (length buf <? BUF_SIZE)%nat then modify (ct_set_obuf (buf ++ [uwrap 8 b])) else fault.

Definition tcp_flush_with_flags : C unit :=
  let! bin := gets ct_bin_block in
  cassert (match bin with None => true | Some _ => false end) ;!
  let! buf := gets ct_obuf in
  if (length buf =? 0)%nat then ret tt
  else
    let! connected := gets ct_connected in
    let! err := gets ct_out_errno in
    (if connected && (err =? 0) then
       on_queue (output_queue_add_obuf (mkOB buf 0)) ;!
       on_queue output_queue_alloc_obuf ;!
       ret tt
     else ret tt) ;!
    modify (ct_set_obuf []) ;!
    modify (fun c => ct_set_counts (ct_flush_cnt c) 0 (ct_events c) (ct_lock_cnt c) c).

(** [tcp_flush_event]; the delay on congestion is not modelled. *)
Definition tcp_flush_event : C unit :=
  modify (fun c => ct_set_counts (ct_flush_cnt c - 1) (ct_eom_cnt c) (ct_events c - 1) (ct_lock_cnt c) c) ;!
  let! cnt := gets ct_flush_cnt in
  let! eom := gets ct_eom_cnt in
  if (cnt =? 0)%nat then
    tcp_flush_with_flags ;!
    modify (fun c => ct_set_counts (ct_flush_cnt c) (ct_eom_cnt c) (ct_events c) (ct_lock_cnt c - 1) c)
  else if (3 <? eom)%nat then tcp_flush_with_flags
  else ret tt.

Definition tcp_bin_block_start : C unit :=
  put_byte ESC ;!
  put_byte 3 ;!
  put_byte 0 ;!
  put_byte 0 ;!
  modify (fun c => ct_set_bin (Some (length (ct_obuf c))) c).

(** The two bytes of the length prefix. *)
Definition bin_size_bytes (len : Z) : list Z :=
  [uwrap 8 (Z.lor (Z.land len 0x7f) 0x80); uwrap 8 (Z.shiftr len 7)].

Definition tcp_bin_block_end : C unit :=
  let! bin := gets ct_bin_block in
  match bin with
  | None => fault
  | Some k =>
      let! buf := gets ct_obuf in
      let len := (length buf - k)%nat in
      (if (len =? 0)%nat then modify (ct_set_obuf (take (length buf - 4) buf))
       else modify (ct_set_obuf (overwrite (k - 2) (bin_size_bytes (Z.of_nat len)) buf))) ;!
      modify (ct_set_bin None)
  end.

(** [if (cur == end) tcp_flush_with_flags(c, MSG_MORE)]. *)
Definition flush_if_full : C unit :=
  let! buf := gets ct_obuf in
  if (length buf =? BUF_SIZE)%nat then tcp_flush_with_flags else ret tt.

(** The bookkeeping of [MARKER_EOM]: the message will be flushed by an event. *)
Definition count_eom : C unit :=
  modify (fun c =>
    let post := (ct_flush_cnt c <? 2)%nat in
    ct_set_counts
      (if post then S (ct_flush_cnt c) else ct_flush_cnt c)
      (S (ct_eom_cnt c))
      (if post then S (ct_events c) else ct_events c)
      (if (ct_flush_cnt c =? 0)%nat then S (ct_lock_cnt c) else ct_lock_cnt c) c).

Definition tcp_write_stream (byte : Z) : C unit :=
  let! zc := gets ct_zero_copy in
  let! buf := gets ct_obuf in
  let! bin := gets ct_bin_block in
  if negb zc || (BUF_SIZE - 32 <=? length buf)%nat || (byte <? 0) then
    (match bin with Some _ => tcp_bin_block_end | None => ret tt end) ;!
    flush_if_full ;!
    if (byte <? 0) || (byte =? ESC) then
      put_byte ESC ;!
      let! esc := (if byte =? ESC then ret 0
                   else if byte =? MARKER_EOM then ret 1
                   else if byte =? MARKER_EOS then ret 2
                   else fault) in
      flush_if_full ;!
      put_byte esc ;!
      if byte =? MARKER_EOM then count_eom else ret tt
    else put_byte byte
  else
    (match bin with None => tcp_bin_block_start | Some _ => ret tt end) ;!
    put_byte byte.

(** The characters copied by the inner loop of [tcp_write_block_stream]: at most [n], none is [ESC]. *)
Fixpoint span_escape (n : nat) (src : list Z) : list Z :=
  match n, src with
  | S n', ch :: src' => if ch =? ESC then [] else ch :: span_escape n' src'
  | _, _ => []
  end.

Fixpoint write_block_loop (fuel : nat) (src : list Z) : C unit :=
  match fuel with
  | O => nofuel
  | S fuel' =>
      match src with
      | [] => ret tt
      | ch :: src' =>
          let! buf := gets ct_obuf in
          let! bin := gets ct_bin_block in
          let n := Nat.min (BUF_SIZE - length buf) (length src) in
          if (n =? 0)%nat then tcp_write_stream ch ;! write_block_loop fuel' src'
          else
            match bin with
            | Some _ =>
                modify (ct_set_obuf (buf ++ take n src)) ;!
                write_block_loop fuel' (drop n src)
            | None =>
                if negb (ch =? ESC) then
                  let d := span_escape n src in
                  modify (ct_set_obuf (buf ++ d)) ;!
                  write_block_loop fuel' (drop (length d) src)
                else tcp_write_stream ch ;! write_block_loop fuel' src'
            end
      end
  end.

Definition tcp_write_block_stream (bytes : list Z) : C unit :=
  write_block_loop (S (length bytes)) bytes.

(** The stream interface [start_channel] installs. *)
#[export] Instance tcp_output : OutputStream ChannelTCP := {
  supports_zero_copy := ct_zero_copy;
  os_null c := false;
  os_room c := (BUF_SIZE - length (ct_obuf c))%nat;
  os_store bs c := ct_set_obuf (ct_obuf c ++ bs) c;
  os_write := tcp_write_stream;
  os_write_block := tcp_write_block_stream }.

(** ** The wire format *)

(** A length prefix: seven bits per byte, least significant first; all but the last byte have the
    high bit set.  At most four bytes are used. *)
Fixpoint size_value (sz : list Z) : Z :=
  match sz with
  | [] => 0
  | b :: sz' => Z.land b 0x7f + 128 * size_value sz'
  end.

Fixpoint size_code (sz : list Z) : Prop :=
  match sz with
  | [] => False
  | [b] => 0 <= b < 128
  | b :: sz' => 128 <= b < 256 /\ size_code sz'
  end.

(** One encoded item, and the symbols it stands for. *)
Inductive wire_item : list Z -> list Z -> Prop :=
  | wi_plain b : is_byte b -> b <> ESC -> wire_item [b] [b]
  | wi_esc : wire_item [ESC; 0] [ESC]
  | wi_eom : wire_item [ESC; 1] [MARKER_EOM]
  | wi_eos : wire_item [ESC; 2] [MARKER_EOS]
  | wi_bin sz data : size_code sz -> (length sz <= 4)%nat -> size_value sz = Z.of_nat (length data) ->
      bytes data -> data <> [] -> wire_item (ESC :: 3 :: sz ++ data) data.

(** [wire w l]: the bytes [w] encode the symbols [l]. *)
Inductive wire : list Z -> list Z -> Prop :=
  | wire_nil : wire [] []
  | wire_cons i s w l : wire_item i s -> wire w l -> wire (i ++ w) (s ++ l).

Lemma wire_app w1 l1 w2 l2 : wire w1 l1 -> wire w2 l2 -> wire (w1 ++ w2) (l1 ++ l2).
Proof.
  induction 1 as [|i s w l Hi Hw IH]; intros H2; [done|]. rewrite <- !(assoc_L (++)).
  constructor; auto.
Qed.

Lemma wire_snoc w l i s : wire w l -> wire_item i s -> wire (w ++ i) (l ++ s).
Proof.
  intros Hw Hi. apply wire_app; [done|]. rewrite <- (app_nil_r i), <- (app_nil_r s).
  constructor; [done|constructor].
Qed.

Lemma wire_plain l : bytes l -> Forall (fun b => b <> ESC) l -> wire l l.
Proof.
  induction 1 as [|b l Hb Hl IH]; intros He; [constructor|]. apply Forall_cons in He as [He1 He2].
  apply (wire_cons [b] [b]); [by constructor|auto].
Qed.

(** ** Invariant *)

(** A channel in working order with no binary block open, that has put [w] on the wire: in the
    socket, the queue and the buffer. *)
Definition ct_live (c : ChannelTCP) : Prop :=
  ct_connected c = true /\ ct_out_errno c = 0 /\ oq_ok (ct_queue c) /\
  (length (ct_obuf c) <= BUF_SIZE)%nat.

Definition ct_out (c : ChannelTCP) : list Z := oq_sent (ct_queue c) ++ pending (ct_queue c).

Definition ct_closed (c : ChannelTCP) (w : list Z) : Prop :=
  ct_live c /\ ct_bin_block c = None /\ ct_out c ++ ct_obuf c = w.

(** The same with a binary block open: [data] follows the place holder of the length prefix. *)
Definition ct_open (c : ChannelTCP) (w data : list Z) : Prop :=
  ct_live c /\ ct_zero_copy c = true /\ bytes data /\
  exists pre, ct_bin_block c = Some (length pre + 4)%nat /\
    ct_obuf c = pre ++ [ESC; 3; 0; 0] ++ data /\ ct_out c ++ pre = w.

(** The symbols [l] have been written to [c]; a block is opened only to store data in it. *)
Definition ct_emits (c : ChannelTCP) (l : list Z) : Prop :=
  (exists w, ct_closed c w /\ wire w l) \/
  (exists w l0 data, ct_open c w data /\ data <> [] /\ wire w l0 /\ l = l0 ++ data).

Lemma put_byte_spec c w b : ct_closed c w -> (length (ct_obuf c) < BUF_SIZE)%nat -> is_byte b ->
  exists c', runs (put_byte b) c tt c' /\ ct_closed c' (w ++ [b]) /\
    ct_zero_copy c' = ct_zero_copy c /\ length (ct_obuf c') = S (length (ct_obuf c)).
Proof.
  intros ((Hc & He & Hq & Hl) & Hb & Hw) Hlt Hby. eexists. split; [|split; [|split]].
  - eapply runs_bind; [apply runs_gets|]. rewrite (proj2 (Nat.ltb_lt _ _)) by done. apply runs_modify.
  - split; [|split; [done|]].
    + split; [done|]. split; [done|]. split; [done|]. cbn [ct_obuf ct_set_obuf]. rewrite length_app. cbn [length]. lia.
    + unfold ct_out in *. cbn [ct_queue ct_obuf ct_set_obuf]. rewrite uwrap_small by (unfold is_byte in Hby; lia).
      by rewrite (assoc_L (++)), Hw.
  - done.
  - cbn [ct_obuf ct_set_obuf]. rewrite length_app. cbn [length]. lia.
Qed.

Lemma runs_on_queue {A} (m : M OutputQueue A) c a q :
  runs m (ct_queue c) a q -> runs (on_queue m) c a (ct_set_queue q c).
Proof. intros. by apply runs_zoom. Qed.

Lemma flush_spec c w : ct_closed c w ->
  exists c', runs tcp_flush_with_flags c tt c' /\ ct_closed c' w /\
    ct_zero_copy c' = ct_zero_copy c /\ ct_obuf c' = [].
Proof.
  intros ((Hc & He & Hq & Hl) & Hb & Hw). unfold tcp_flush_with_flags.
  destruct (length (ct_obuf c) =? 0)%nat eqn:E0.
  - apply Nat.eqb_eq in E0 as Hn. apply nil_length_inv in Hn. exists c. split; [|by split].
    eapply runs_bind; [apply runs_gets|]. rewrite Hb. eapply runs_bind; [by apply runs_cassert|].
    eapply runs_bind; [apply runs_gets|]. by rewrite E0.
  - apply Nat.eqb_neq in E0 as Hn.
    destruct (add_obuf_spec (ct_obuf c) (ct_queue c) 0 Hq) as (q1 & R1 & Hq1 & Hs1 & Hp1); [unfold BUF_SIZE in *; lia|].
    destruct (runs_alloc q1) as (n & R2).
    eexists. split; [|split; [|split]].
    + eapply runs_bind; [apply runs_gets|]. rewrite Hb. eapply runs_bind; [by apply runs_cassert|].
      eapply runs_bind; [apply runs_gets|]. rewrite E0.
      eapply runs_bind; [apply runs_gets|]. eapply runs_bind; [apply runs_gets|]. rewrite Hc, He. cbn [Z.eqb andb].
      eapply runs_bind.
      { eapply runs_bind; [apply runs_on_queue; exact R1|].
        eapply runs_bind; [apply runs_on_queue; exact R2|]. apply runs_ret. }
      eapply runs_bind; [apply runs_modify|]. apply runs_modify.
    + split; [|split; [done|]].
      * split; [done|]. split; [done|]. split; [done|]. cbn. lia.
      * unfold ct_out in *. cbn [ct_queue ct_obuf ct_set_obuf ct_set_counts ct_set_queue].
        rewrite app_nil_r. change (pending (set_pool n q1)) with (pending q1).
        change (oq_sent (set_pool n q1)) with (oq_sent q1). by rewrite Hp1, Hs1, (assoc_L (++)).
    + done.
    + done.
Qed.

(** Flushing keeps the number of posted events. *)
Lemma flush_counts c w : ct_closed c w ->
  exists c', runs tcp_flush_with_flags c tt c' /\ ct_closed c' w /\ ct_obuf c' = [] /\
    ct_flush_cnt c' = ct_flush_cnt c /\ ct_events c' = ct_events c.
Proof.
  intros Hcl. destruct (flush_spec c w Hcl) as (c' & R & Hcl' & _ & Hb). exists c'.
  split; [done|]. split; [done|]. split; [done|].
  unfold tcp_flush_with_flags in R. apply runs_bind_inv in R as (bin & c1 & R1 & R). injection R1 as <- <-.
  apply runs_bind_inv in R as (u & c1 & R1 & R). unfold cassert in R1.
  destruct (match ct_bin_block c with None => true | Some _ => false end); [|done]. injection R1 as _ <-.
  apply runs_bind_inv in R as (buf & c1 & R1 & R). injection R1 as <- <-.
  destruct (length (ct_obuf c) =? 0)%nat; [by injection R as <-|].
  apply runs_bind_inv in R as (x & c1 & R1 & R). injection R1 as <- <-.
  apply runs_bind_inv in R as (y & c1 & R1 & R). injection R1 as <- <-.
  apply runs_bind_inv in R as (z & c1 & R1 & R).
  apply runs_bind_inv in R as (z2 & c2 & R2 & R). injection R2 as _ <-. injection R as <-. cbn.
  destruct (ct_connected c && (ct_out_errno c =? 0)); [|by injection R1 as _ <-].
  apply runs_bind_inv in R1 as (z3 & c2 & R1 & R2).
  apply runs_bind_inv in R2 as (z4 & c3 & R2 & R3). injection R3 as _ <-.
  unfold on_queue, zoom, runs in R1, R2.
  destruct (output_queue_add_obuf _ _) as [o q]. destruct (output_queue_alloc_obuf _) as [o2 q2].
  by injection R1 as _ <-; injection R2 as _ <-.
Qed.

Lemma flush_if_full_spec c w : ct_closed c w ->
  exists c', runs flush_if_full c tt c' /\ ct_closed c' w /\
    ct_zero_copy c' = ct_zero_copy c /\ (length (ct_obuf c') < BUF_SIZE)%nat.
Proof.
  intros Hcl. unfold flush_if_full. destruct (length (ct_obuf c) =? BUF_SIZE)%nat eqn:E.
  - destruct (flush_spec c w Hcl) as (c' & R & Hcl' & Hz & Ho). exists c'.
    split; [eapply runs_bind; [apply runs_gets|]; by rewrite E|].
    split; [done|]. split; [done|]. rewrite Ho. unfold BUF_SIZE, OUTPUT_QUEUE_BUF_SIZE. cbn [length]. lia.
  - exists c. split; [eapply runs_bind; [apply runs_gets|]; by rewrite E|].
    apply Nat.eqb_neq in E. pose proof Hcl as ((_ & _ & _ & Hl) & _). split; [done|].
    split; [done|]. lia.
Qed.

(** The length prefix of a block that fits the buffer. *)
Lemma bin_size_bytes_code n : (0 < n <= BUF_SIZE)%nat ->
  let sz := bin_size_bytes (Z.of_nat n) in
  size_code sz /\ (length sz <= 4)%nat /\ size_value sz = Z.of_nat n /\ bytes sz.
Proof.
  intros Hn sz. subst sz. unfold bin_size_bytes. set (x := Z.of_nat n).
  assert (Hx : 0 < x < 2 ^ 14) by (subst x; unfold BUF_SIZE, OUTPUT_QUEUE_BUF_SIZE in *; lia).
  change 0x80 with (1 * 2 ^ 7). change 0x7f with (Z.ones 7).
  rewrite Z.land_ones, lor_add, Z.shiftr_div_pow2, !uwrap_small by divlia.
  cbn [size_code size_value length]. change 0x7f with (Z.ones 7). rewrite !Z.land_ones by lia.
  split; [divlia|]. split; [lia|]. split; [divlia|].
  repeat (apply Forall_cons; split; [unfold is_byte; divlia|]). constructor.
Qed.

Lemma overwrite_mid (pre hole data new : list Z) : length hole = length new ->
  overwrite (length pre) new (pre ++ hole ++ data) = pre ++ new ++ data.
Proof.
  intros Hl. unfold overwrite. rewrite take_app_length. f_equal. f_equal.
  rewrite <- Hl, <- drop_drop, drop_app_length, drop_app_length. done.
Qed.

(** Closing a block turns the data into a wire item. *)
Lemma bin_block_end_spec c w l0 data : ct_open c w data -> data <> [] -> wire w l0 ->
  exists c' w', runs tcp_bin_block_end c tt c' /\ ct_closed c' w' /\ wire w' (l0 ++ data) /\
    ct_zero_copy c' = ct_zero_copy c.
Proof.
  intros ((Hc & He & Hq & Hl) & Hz & Hd & pre & Hb & Ho & Hw) Hne Hwire.
  assert (Hlen : (length (ct_obuf c) = length pre + 4 + length data)%nat)
    by (rewrite Ho, !length_app; cbn [length]; lia).
  assert (Hd0 : (0 < length data)%nat) by (destruct data; [done|cbn [length]; lia]).
  destruct (bin_size_bytes_code (length data)) as (Hsc & Hsl & Hsv & Hsb); [lia|].
  set (sz := bin_size_bytes (Z.of_nat (length data))) in *.
  eexists (ct_set_bin None (ct_set_obuf (pre ++ [ESC; 3] ++ sz ++ data) c)), (w ++ ESC :: 3 :: sz ++ data).
  split; [|split; [|split; [|done]]].
  - unfold tcp_bin_block_end. eapply runs_bind; [apply runs_gets|]. rewrite Hb.
    eapply runs_bind; [apply runs_gets|]. rewrite Hlen.
    replace (length pre + 4 + length data - (length pre + 4))%nat with (length data) by lia.
    rewrite (proj2 (Nat.eqb_neq (length data) 0)) by lia.
    eapply runs_bind; [apply runs_modify|].
    replace (overwrite (length pre + 4 - 2) (bin_size_bytes (Z.of_nat (length data))) (ct_obuf c))
      with (pre ++ [ESC; 3] ++ sz ++ data); [apply runs_modify|].
    rewrite Ho. change ([ESC; 3; 0; 0] ++ data) with ([ESC; 3] ++ [0; 0] ++ data).
    rewrite !(assoc_L (++) pre). replace (length pre + 4 - 2)%nat with (length (pre ++ [ESC; 3]))
      by (rewrite length_app; cbn [length]; lia). by rewrite overwrite_mid.
  - split; [|split; [done|]].
    + split; [done|]. split; [done|]. split; [done|]. cbn [ct_obuf ct_set_bin ct_set_obuf].
      rewrite !length_app. change (length sz) with 2%nat. cbn [length]. lia.
    + unfold ct_out in *. cbn [ct_queue ct_obuf ct_set_bin ct_set_obuf]. by rewrite (assoc_L (++)), Hw.
  - apply wire_snoc; [done|]. by constructor.
Qed.

(** A block is opened when at least four bytes are free. *)
Lemma bin_block_start_spec c w : ct_closed c w -> ct_zero_copy c = true ->
  (length (ct_obuf c) + 4 <= BUF_SIZE)%nat ->
  exists c', runs tcp_bin_block_start c tt c' /\ ct_open c' w [] /\
    (length (ct_obuf c') = length (ct_obuf c) + 4)%nat.
Proof.
  intros Hcl Hz Hl.
  destruct (put_byte_spec c w ESC Hcl ltac:(lia) ltac:(done)) as (c1 & R1 & Hcl1 & Hz1 & Hl1).
  destruct (put_byte_spec c1 _ 3 Hcl1 ltac:(lia) ltac:(done)) as (c2 & R2 & Hcl2 & Hz2 & Hl2).
  destruct (put_byte_spec c2 _ 0 Hcl2 ltac:(lia) ltac:(done)) as (c3 & R3 & Hcl3 & Hz3 & Hl3).
  destruct (put_byte_spec c3 _ 0 Hcl3 ltac:(lia) ltac:(done)) as (c4 & R4 & Hcl4 & Hz4 & Hl4).
  exists (ct_set_bin (Some (length (ct_obuf c4))) c4). split; [|split].
  - unfold tcp_bin_block_start. do 4 (eapply runs_bind; [eassumption|]).
    apply (runs_modify (fun c => ct_set_bin (Some (length (ct_obuf c))) c)).
  - destruct Hcl4 as (Hlive & _ & Hw4). destruct Hcl as (_ & _ & Hw).
    split; [exact Hlive|]. split; [cbn; congruence|]. split; [constructor|].
    exists (ct_obuf c). cbn [ct_bin_block ct_obuf ct_set_bin]. split; [f_equal; lia|].
    assert (Hq : forall b d d', runs (put_byte b) d tt d' -> ct_queue d' = ct_queue d /\ ct_obuf d' = ct_obuf d ++ [uwrap 8 b]).
    { intros b d d' R. unfold put_byte in R. apply runs_bind_inv in R as (buf & d1 & Rg & R).
      injection Rg as <- <-. destruct (length _ <? BUF_SIZE)%nat; [|done]. by injection R as <-. }
    destruct (Hq _ _ _ R1) as [Q1 B1]. destruct (Hq _ _ _ R2) as [Q2 B2].
    destruct (Hq _ _ _ R3) as [Q3 B3]. destruct (Hq _ _ _ R4) as [Q4 B4].
    split; [by rewrite B4, B3, B2, B1, <- !(assoc_L (++))|].
    unfold ct_out in *. cbn [ct_queue ct_set_bin]. by rewrite Q4, Q3, Q2, Q1.
  - cbn [ct_obuf ct_set_bin]. lia.
Qed.

(** Data stored behind the place holder. *)
Lemma open_store c w data bs : ct_open c w data -> bytes bs ->
  (length bs <= BUF_SIZE - length (ct_obuf c))%nat ->
  ct_open (ct_set_obuf (ct_obuf c ++ bs) c) w (data ++ bs).
Proof.
  intros ((Hc & He & Hq & Hl) & Hz & Hd & pre & Hb & Ho & Hw) Hbs Hlen.
  split; [|split; [done|split; [by apply Forall_app|]]].
  - split; [done|]. split; [done|]. split; [done|]. cbn [ct_obuf ct_set_obuf]. rewrite length_app. lia.
  - exists pre. split; [done|]. split; [|done]. cbn [ct_obuf ct_set_obuf]. by rewrite Ho, <- !(assoc_L (++)).
Qed.

Lemma closed_store c w bs : ct_closed c w -> (length bs <= BUF_SIZE - length (ct_obuf c))%nat ->
  ct_closed (ct_set_obuf (ct_obuf c ++ bs) c) (w ++ bs).
Proof.
  intros ((Hc & He & Hq & Hl) & Hb & Hw) Hlen. split; [|split; [done|]].
  - split; [done|]. split; [done|]. split; [done|]. cbn [ct_obuf ct_set_obuf]. rewrite length_app. lia.
  - unfold ct_out in *. cbn [ct_queue ct_obuf ct_set_obuf]. by rewrite (assoc_L (++)), Hw.
Qed.

(** Symbols a channel transports. *)
Definition ct_sym (b : Z) : Prop := is_byte b \/ b = MARKER_EOM \/ b = MARKER_EOS.

(** Closing an open block, and making room for a byte. *)
Lemma settle_spec c l : ct_emits c l ->
  exists c' w, runs ((match ct_bin_block c with Some _ => tcp_bin_block_end | None => ret tt end) ;!
      flush_if_full) c tt c' /\ ct_closed c' w /\ wire w l /\ ct_zero_copy c' = ct_zero_copy c /\
      (length (ct_obuf c') < BUF_SIZE)%nat.
Proof.
  intros [(w & Hcl & Hw)|(w & l0 & data & Ho & Hne & Hw & ->)].
  - destruct (flush_if_full_spec c w Hcl) as (c' & R & Hcl' & Hz & Hl).
    exists c', w. pose proof Hcl as (_ & -> & _). split; [by eapply runs_bind; [apply runs_ret|]|done].
  - destruct (bin_block_end_spec c w l0 data Ho Hne Hw) as (c1 & w' & R1 & Hcl1 & Hw1 & Hz1).
    destruct (flush_if_full_spec c1 w' Hcl1) as (c' & R & Hcl' & Hz & Hl).
    exists c', w'. pose proof Ho as (_ & _ & _ & pre & -> & _).
    split; [by eapply runs_bind|]. split; [done|]. split; [done|]. split; [congruence|done].
Qed.

(** The bookkeeping of messages changes the counters only. *)
Lemma count_eom_spec c w : ct_closed c w ->
  exists c', runs count_eom c tt c' /\ ct_closed c' w.
Proof. intros Hcl. eexists. split; [apply runs_modify|]. exact Hcl. Qed.

(** [tcp_write_stream] appends one symbol. *)
Lemma tcp_write_spec c l b : ct_emits c l -> ct_sym b ->
  exists c', runs (tcp_write_stream b) c tt c' /\ ct_emits c' (l ++ [b]).
Proof.
  intros He Hb. unfold tcp_write_stream.
  destruct (negb (ct_zero_copy c) || (BUF_SIZE - 32 <=? length (ct_obuf c))%nat || (b <? 0)) eqn:Ecase.
  - destruct (settle_spec c l He) as (c1 & w & R1 & Hcl1 & Hw1 & _ & Hl1).
    apply runs_bind_inv in R1 as ([] & c0 & R0 & R1).
    assert (Hgo : forall m c', runs m c1 tt c' -> runs (
      let! zc := gets ct_zero_copy in let! buf := gets ct_obuf in let! bin := gets ct_bin_block in
      if negb zc || (BUF_SIZE - 32 <=? length buf)%nat || (b <? 0)
      then (match bin with Some _ => tcp_bin_block_end | None => ret tt end) ;! flush_if_full ;! m
      else (match bin with None => tcp_bin_block_start | Some _ => ret tt end) ;! put_byte b) c tt c').
    { intros m c' R. do 3 (eapply runs_bind; [apply runs_gets|]). rewrite Ecase.
      eapply runs_bind; [exact R0|]. by eapply runs_bind; [exact R1|]. }
    destruct ((b <? 0) || (b =? ESC)) eqn:Eesc.
    + destruct (put_byte_spec c1 w ESC Hcl1 Hl1 ltac:(done)) as (c2 & R2 & Hcl2 & _ & _).
      destruct (flush_if_full_spec c2 _ Hcl2) as (c3 & R3 & Hcl3 & _ & Hl3).
      assert (exists e, is_byte e /\ wire_item [ESC; e] [b] /\
        forall d : ChannelTCP, runs (if b =? ESC then ret 0 else if b =? MARKER_EOM then ret 1
          else if b =? MARKER_EOS then ret 2 else fault) d e d) as (e & Hbe & Hi & Re).
      { destruct Hb as [Hb|[->| ->]].
        - unfold is_byte in Hb. rewrite (proj2 (Z.ltb_ge b 0)) in Eesc by lia. cbn in Eesc.
          apply Z.eqb_eq in Eesc as ->. exists 0. split; [done|]. split; [constructor|]. intros d. apply runs_ret.
        - exists 1. split; [done|]. split; [constructor|]. intros d. apply runs_ret.
        - exists 2. split; [done|]. split; [constructor|]. intros d. apply runs_ret. }
      destruct (put_byte_spec c3 _ e Hcl3 Hl3 Hbe) as (c4 & R4 & Hcl4 & _ & _).
      rewrite <- (assoc_L (++)) in Hcl4.
      assert (exists c5, runs (if b =? MARKER_EOM then count_eom else ret tt) c4 tt c5 /\
        ct_closed c5 (w ++ [ESC; e])) as (c5 & R5 & Hcl5).
      { destruct (b =? MARKER_EOM); [by apply count_eom_spec|]. exists c4. by split. }
      exists c5. split.
      * apply Hgo. eapply runs_bind; [exact R2|]. eapply runs_bind; [apply Re|].
        eapply runs_bind; [exact R3|]. by eapply runs_bind; [exact R4|].
      * left. eexists. split; [exact Hcl5|]. by apply wire_snoc.
    + apply orb_false_iff in Eesc as [E1 E2]. apply Z.ltb_ge in E1. apply Z.eqb_neq in E2.
      assert (Hby : is_byte b) by (destruct Hb as [?|[->| ->]]; [done|unfold MARKER_EOM in E1; lia|unfold MARKER_EOS in E1; lia]).
      destruct (put_byte_spec c1 w b Hcl1 Hl1 Hby) as (c2 & R2 & Hcl2 & _ & _).
      exists c2. split; [by apply Hgo|]. left. eexists. split; [exact Hcl2|].
      apply wire_snoc; [done|]. by constructor.
  - apply orb_false_iff in Ecase as Ec. destruct Ec as [Ec Eneg]. apply orb_false_iff in Ec as [Ez Ef].
    apply negb_false_iff in Ez. apply Nat.leb_gt in Ef. apply Z.ltb_ge in Eneg.
    assert (Hby : is_byte b) by (destruct Hb as [?|[->| ->]]; [done|unfold MARKER_EOM in Eneg; lia|unfold MARKER_EOS in Eneg; lia]).
    assert (Hopen : exists c1 w l0 data, runs (match ct_bin_block c with None => tcp_bin_block_start | Some _ => ret tt end) c tt c1 /\
      ct_open c1 w data /\ wire w l0 /\ l = l0 ++ data /\ (length (ct_obuf c1) < BUF_SIZE)%nat).
    { destruct He as [(w & Hcl & Hw)|(w & l0 & data & Ho & Hne & Hw & ->)].
      - destruct (bin_block_start_spec c w Hcl Ez ltac:(unfold BUF_SIZE, OUTPUT_QUEUE_BUF_SIZE in *; lia)) as (c1 & R1 & Ho1 & Hl1).
        pose proof Hcl as (_ & -> & _). exists c1, w, l, []. rewrite app_nil_r. repeat (split; [done|]). lia.
      - pose proof Ho as (_ & _ & _ & pre & -> & _). exists c, w, l0, data. repeat (split; [done|]). lia. }
    destruct Hopen as (c1 & w & l0 & data & R1 & Ho1 & Hw1 & -> & Hl1).
    exists (ct_set_obuf (ct_obuf c1 ++ [b]) c1). split.
    + do 3 (eapply runs_bind; [apply runs_gets|]). rewrite Ecase. eapply runs_bind; [exact R1|].
      eapply runs_bind; [apply runs_gets|]. rewrite (proj2 (Nat.ltb_lt _ _)) by done.
      rewrite uwrap_small by (unfold is_byte in Hby; lia). apply runs_modify.
    + right. exists w, l0, (data ++ [b]). split; [apply open_store; [done|by constructor|cbn [length]; lia]|].
      split; [by destruct data|]. split; [done|]. by rewrite (assoc_L (++)).
Qed.

Lemma span_escape_spec n src : let d := span_escape n src in
  src = d ++ drop (length d) src /\ Forall (fun b => b <> ESC) d /\ (length d <= n)%nat.
Proof.
  revert src. induction n as [|n IH]; intros [|ch src]; cbn [span_escape length drop app]; try by repeat split; auto; lia.
  destruct (Z.eqb_spec ch ESC); [by repeat split; auto; cbn; lia|].
  destruct (IH src) as (H1 & H2 & H3). cbn [length drop app]. split; [by f_equal|].
  split; [by constructor|lia].
Qed.

Lemma emits_append c l bs : ct_emits c l -> bytes bs -> Forall (fun b => b <> ESC) bs ->
  (length bs <= BUF_SIZE - length (ct_obuf c))%nat ->
  ct_emits (ct_set_obuf (ct_obuf c ++ bs) c) (l ++ bs).
Proof.
  intros [(w & Hcl & Hw)|(w & l0 & data & Ho & Hne & Hw & ->)] Hb He Hl.
  - left. eexists. split; [by apply closed_store|]. apply wire_app; [done|by apply wire_plain].
  - right. exists w, l0, (data ++ bs). split; [by apply open_store|].
    split; [by destruct data|]. split; [done|by rewrite (assoc_L (++))].
Qed.

Lemma write_block_spec fuel : forall src c l, ct_emits c l -> bytes src -> (length src < fuel)%nat ->
  exists c', runs (write_block_loop fuel src) c tt c' /\ ct_emits c' (l ++ src).
Proof.
  induction fuel as [|fuel IH]; intros src c l He Hb Hf; [lia|]. cbn [write_block_loop].
  destruct src as [|ch src']; [exists c; by rewrite app_nil_r|]. set (src := ch :: src') in *.
  assert (Hch : is_byte ch /\ bytes src') by (by apply Forall_cons in Hb). destruct Hch as [Hch Hb'].
  assert (Hone : exists c', runs (tcp_write_stream ch ;! write_block_loop fuel src') c tt c' /\ ct_emits c' (l ++ src)).
  { destruct (tcp_write_spec c l ch He) as (c1 & R1 & He1); [by left|].
    destruct (IH src' c1 (l ++ [ch]) He1 Hb' ltac:(cbn [length src] in Hf; lia)) as (c2 & R2 & He2).
    exists c2. split; [by eapply runs_bind|]. by rewrite <- (assoc_L (++)) in He2. }
  set (n := Nat.min (BUF_SIZE - length (ct_obuf c)) (length src)).
  destruct (n =? 0)%nat eqn:En.
  { destruct Hone as (c' & R & ?). exists c'. split; [|done].
    do 2 (eapply runs_bind; [apply runs_gets|]). fold n. by rewrite En. }
  apply Nat.eqb_neq in En as Hn.
  destruct (ct_bin_block c) as [k|] eqn:Ebin.
  - destruct He as [(w & (_ & E & _) & _)|(w & l0 & data & Ho & Hne & Hw & ->)]; [congruence|].
    assert (Ho1 := open_store c w data (take n src) Ho ltac:(by apply Forall_take) ltac:(rewrite length_take; lia)).
    destruct (IH (drop n src) (ct_set_obuf (ct_obuf c ++ take n src) c) ((l0 ++ data) ++ take n src)) as (c2 & R2 & He2).
    + right. exists w, l0, (data ++ take n src). split; [done|]. split; [by destruct data|].
      split; [done|by rewrite (assoc_L (++))].
    + by apply Forall_drop.
    + rewrite length_drop. cbn [length src] in *. lia.
    + rewrite <- (assoc_L (++)), take_drop in He2. exists c2. split; [|done].
      do 2 (eapply runs_bind; [apply runs_gets|]). fold n. rewrite En, Ebin.
      eapply runs_bind; [apply runs_modify|]. exact R2.
  - destruct (Z.eqb_spec ch ESC) as [->|Hesc].
    { destruct Hone as (c' & R & ?). exists c'. split; [|done].
      do 2 (eapply runs_bind; [apply runs_gets|]). fold n. rewrite En, Ebin. exact R. }
    destruct (span_escape_spec n src) as (Hsp & Hne & Hln). set (d := span_escape n src) in *.
    assert (Hd0 : (0 < length d)%nat).
    { subst d. destruct n; [done|]. cbn [span_escape src]. rewrite (proj2 (Z.eqb_neq ch ESC)) by done. cbn. lia. }
    assert (Hbd : bytes d /\ bytes (drop (length d) src)) by (rewrite Hsp in Hb; by apply Forall_app in Hb).
    destruct Hbd as [Hbd Hbr].
    destruct (IH (drop (length d) src) (ct_set_obuf (ct_obuf c ++ d) c) (l ++ d)) as (c2 & R2 & He2).
    + apply emits_append; [done..|lia].
    + done.
    + rewrite length_drop. cbn [length src] in *. lia.
    + rewrite <- (assoc_L (++)), <- Hsp in He2. exists c2. split; [|done].
      do 2 (eapply runs_bind; [apply runs_gets|]). fold n. rewrite En, Ebin.
      cbn [negb]. fold d.
      eapply runs_bind; [apply runs_modify|]. exact R2.
Qed.

(** A channel satisfies the laws of output streams, so all the writers of the framework produce
    their texts on it. *)
#[export] Program Instance tcp_output_laws : OutputStreamLaws ChannelTCP := {
  emits := ct_emits;
  os_sym := ct_sym }.
Next Obligation. intros b Hb. by left. Qed.
Next Obligation. intros b [?|[->| ->]]; [by left|right; done..]. Qed.
Next Obligation. intros o l b He Hb. destruct (tcp_write_spec o l b He Hb) as (o' & R & ?). by exists o'. Qed.
Next Obligation.
  intros o l bs He Hb. destruct (write_block_spec (S (length bs)) bs o l He Hb) as (o' & R & ?); [lia|]. by exists o'.
Qed.
Next Obligation. intros o l bs He Hb Hne Hl. by apply emits_append. Qed.

Lemma sym_eom : os_sym (OS := ChannelTCP) MARKER_EOM.
Proof. change (ct_sym MARKER_EOM). right. by left. Qed.

Lemma sym_eos : os_sym (OS := ChannelTCP) MARKER_EOS.
Proof. change (ct_sym MARKER_EOS). right. by right. Qed.

(** A new channel, as [create_channel] leaves its output state, with the peer's zero copy option. *)
Definition new_output (zc : bool) : ChannelTCP :=
  mkCT zc true 0 [] None 0 0 0 0 output_queue_ini.

Lemma new_output_emits zc : ct_emits (new_output zc) [].
Proof.
  left. exists []. split; [|constructor]. split; [|done].
  split; [done|]. split; [done|]. split; [|cbn; lia]. split; [done|]. split; [constructor|]. by split; [constructor|].
Qed.

(** What the clients of a channel do to its output stream. *)
Inductive out_op :=
  | OpSym (b : Z)
  | OpBlock (bs : list Z)
  | OpString (s : list Z).

Definition out_exec (op : out_op) : C unit :=
  match op with
  | OpSym b => write_stream b
  | OpBlock bs => write_block_stream bs
  | OpString s => write_string s
  end.

Definition out_symbols (op : out_op) : list Z :=
  match op with OpSym b => [b] | OpBlock bs => bs | OpString s => s end.

Definition out_ok (op : out_op) : Prop :=
  match op with OpSym b => ct_sym b | OpBlock bs => bytes bs | OpString s => bytes s end.

Fixpoint out_run (ops : list out_op) : C unit :=
  match ops with
  | [] => ret tt
  | op :: ops' => out_exec op ;! out_run ops'
  end.

Lemma writes_ops ops : Forall out_ok ops -> writes (out_run ops) (concat (map out_symbols ops)).
Proof.
  induction 1 as [|op ops Hop Hops IH]; [apply writes_ret|]. apply writes_bind; [|done].
  destruct op; [by apply writes_stream|by apply writes_block|by apply writes_string].
Qed.

(** After an end of message no binary block is open. *)
Lemma emits_marker_closed c l b : ct_emits c (l ++ [b]) -> b < 0 -> exists w, ct_closed c w /\ wire w (l ++ [b]).
Proof.
  intros [Hcl|(w & l0 & data & (_ & _ & Hd & _) & Hne & _ & E)] Hb; [done|]. exfalso.
  destruct data as [|x data _] using rev_ind; [done|]. rewrite (assoc_L (++)) in E.
  apply app_inj_tail in E as [_ ->]. apply Forall_app in Hd as [_ Hx]. inversion Hx as [|? ? Hx' _]; subst.
  unfold is_byte in Hx'. lia.
Qed.

(** ** Properties *)

(** C19: whatever sequence of single symbols, blocks and strings a client writes to a new channel,
    with or without zero copy, ends after the end-of-message marker and a flush as bytes that are in
    the socket or in the output queue, and these bytes encode exactly the symbols written: [ESC] and
    the markers as escape sequences, binary blocks with a correct length prefix.  No write fails or
    leaves the buffer. *)
Theorem tcp_channel_wire zc ops :
  Forall out_ok ops ->
  exists c w, runs (out_run ops ;! write_stream MARKER_EOM ;! tcp_flush_with_flags) (new_output zc) tt c /\
    oq_sent (ct_queue c) ++ pending (ct_queue c) = w /\ ct_obuf c = [] /\
    wire w (concat (map out_symbols ops) ++ [MARKER_EOM]).
Proof.
  intros Hops.
  destruct (writes_ops ops Hops (new_output zc) [] (new_output_emits zc)) as (c1 & R1 & He1).
  destruct (writes_stream MARKER_EOM sym_eom c1 _ He1) as (c2 & R2 & He2).
  destruct (emits_marker_closed c2 _ _ He2) as (w & Hcl & Hw); [done|].
  destruct (flush_spec c2 w Hcl) as (c3 & R3 & (_ & _ & Ho) & _ & Hb3).
  exists c3, w. split; [eapply runs_bind; [exact R1|]; by eapply runs_bind; [exact R2|]|].
  unfold ct_out in Ho. rewrite Hb3, app_nil_r in Ho. done.
Qed.

Lemma tcp_channel_wire_witness :
  exists c w,
    runs (out_run [OpSym ch_a; OpBlock [3; 255]; OpString (str "x")] ;! write_stream MARKER_EOM ;! tcp_flush_with_flags)
      (new_output true) tt c /\
    oq_sent (ct_queue c) ++ pending (ct_queue c) = w /\ ct_obuf c = [] /\
    wire w ([ch_a; 3; 255; 120] ++ [MARKER_EOM]).
Proof.
  apply (tcp_channel_wire true [OpSym ch_a; OpBlock [3; 255]; OpString (str "x")]).
  apply Forall_cons; split; [left; unfold is_byte; lia|].
  apply Forall_cons; split; [repeat (apply Forall_cons; split; [unfold is_byte; lia|]); constructor|].
  apply Forall_cons; split; [apply str_bytes|constructor].
Defined.

(** a complete message does not stay in the buffer: when one or two flush events are posted, and
    they run, everything written is in the socket or in the output queue, and no event is left. *)
Theorem tcp_flush_events c l :
  ct_emits c (l ++ [MARKER_EOM]) -> ct_flush_cnt c = ct_events c -> (1 <= ct_events c <= 2)%nat ->
  exists c', runs (if (ct_events c =? 1)%nat then tcp_flush_event else tcp_flush_event ;! tcp_flush_event) c tt c' /\
    ct_obuf c' = [] /\ ct_events c' = 0%nat /\ ct_flush_cnt c' = 0%nat /\
    wire (oq_sent (ct_queue c') ++ pending (ct_queue c')) (l ++ [MARKER_EOM]).
Proof.
  intros He Hcnt Hev. destruct (emits_marker_closed c l _ He) as (w & Hcl & Hw); [done|].
  (* The last event flushes. *)
  assert (Hlast : forall c w, ct_closed c w -> ct_flush_cnt c = 1%nat -> ct_events c = 1%nat ->
    exists c', runs tcp_flush_event c tt c' /\ ct_obuf c' = [] /\ ct_events c' = 0%nat /\
      ct_flush_cnt c' = 0%nat /\ oq_sent (ct_queue c') ++ pending (ct_queue c') = w).
  { clear. intros c w Hcl Hf He.
    set (c1 := ct_set_counts 0 (ct_eom_cnt c) 0 (ct_lock_cnt c) c).
    destruct (flush_counts c1 w Hcl) as (c2 & R2 & (_ & _ & Ho) & Hb2 & Hf2 & He2).
    eexists. split; [|split; [|split; [|split]]].
    - unfold tcp_flush_event. eapply runs_bind; [apply runs_modify|]. rewrite Hf, He. fold c1.
      eapply runs_bind; [apply runs_gets|]. eapply runs_bind; [apply runs_gets|].
      cbn [ct_flush_cnt c1 ct_set_counts Nat.eqb]. eapply runs_bind; [exact R2|]. apply runs_modify.
    - exact Hb2.
    - exact He2.
    - exact Hf2.
    - unfold ct_out in Ho. by rewrite Hb2, app_nil_r in Ho. }
  destruct (ct_events c) as [|[|[|n]]] eqn:E; try lia; cbn [Nat.eqb].
  - destruct (Hlast c w Hcl Hcnt E) as (c' & R & ? & ? & ? & Hq). exists c'. by rewrite Hq.
  - set (c1 := ct_set_counts 1 (ct_eom_cnt c) 1 (ct_lock_cnt c) c).
    assert (exists c2, runs tcp_flush_event c tt c2 /\ ct_closed c2 w /\ ct_flush_cnt c2 = 1%nat /\ ct_events c2 = 1%nat)
      as (c2 & R2 & Hcl2 & Hf2 & He2).
    { destruct (3 <? ct_eom_cnt c)%nat eqn:Eom.
      - destruct (flush_counts c1 w Hcl) as (c2 & R2 & Hcl2 & _ & Hf2 & He2). exists c2. split; [|done].
        unfold tcp_flush_event. eapply runs_bind; [apply runs_modify|]. rewrite Hcnt, E. fold c1.
        eapply runs_bind; [apply runs_gets|]. eapply runs_bind; [apply runs_gets|].
        cbn [ct_flush_cnt ct_eom_cnt c1 ct_set_counts Nat.eqb]. by rewrite Eom.
      - exists c1. split; [|done].
        unfold tcp_flush_event. eapply runs_bind; [apply runs_modify|]. rewrite Hcnt, E. fold c1.
        eapply runs_bind; [apply runs_gets|]. eapply runs_bind; [apply runs_gets|].
        cbn [ct_flush_cnt ct_eom_cnt c1 ct_set_counts Nat.eqb]. by rewrite Eom. }
    destruct (Hlast c2 w Hcl2 Hf2 He2) as (c' & R & ? & ? & ? & Hq). exists c'. rewrite Hq. split; [by eapply runs_bind|done].
Qed.

Lemma tcp_flush_events_witness :
  exists c', runs (tcp_flush_event)
      (snd ((write_stream ch_a ;! write_stream MARKER_EOM) (new_output false))) tt c' /\
    ct_obuf c' = [] /\ ct_events c' = 0%nat /\ ct_flush_cnt c' = 0%nat /\
    wire (oq_sent (ct_queue c') ++ pending (ct_queue c')) ([ch_a] ++ [MARKER_EOM]).
Proof.
  refine (tcp_flush_events (snd ((write_stream ch_a ;! write_stream MARKER_EOM) (new_output false))) [ch_a] _ _ _).
  - left. exists [ch_a; ESC; 1]. split.
    + split; [|split; [reflexivity|reflexivity]].
      split; [reflexivity|]. split; [reflexivity|]. split; [|vm_compute; lia].
      split; [reflexivity|]. split; [constructor|]. split; [constructor|reflexivity].
    + apply (wire_cons [ch_a] [ch_a]); [constructor; [unfold is_byte; lia|discriminate]|].
      apply (wire_cons [ESC; 1] [MARKER_EOM] [] []); constructor.
  - reflexivity.
  - vm_compute. lia.
Defined.

(** [json_write_char] passes its [char] argument to [write_stream] sign extended, so on a channel
    the bytes 0xFF and 0xFE put the markers for the end of the message and the end of the stream on
    the wire, and the bytes from 0x80 to 0xFD fail the assertion in [tcp_write_stream]; bytes below
    0x80 arrive as they are, or as their escape sequences. *)
Theorem json_write_char_markers c l ch :
  ct_emits c l -> is_byte ch ->
  (ch = 255 -> exists c', runs (json_write_char ch) c tt c' /\ ct_emits c' (l ++ [MARKER_EOM])) /\
  (ch = 254 -> exists c', runs (json_write_char ch) c tt c' /\ ct_emits c' (l ++ [MARKER_EOS])) /\
  (128 <= ch <= 253 -> fst (json_write_char ch c) = Fault) /\
  (ch < 128 -> exists c', runs (json_write_char ch) c tt c' /\ ct_emits c' (l ++ char_text ch)).
Proof.
  intros He Hb.
  assert (Hesc : 128 <= ch -> char_escaping ch = false).
  { intros Hge. destruct (char_escaping ch) eqn:E; [|done]. apply escaped_small in E; [lia|done]. }
  split; [|split; [|split]].
  - intros ->. exact (writes_stream MARKER_EOM sym_eom c l He).
  - intros ->. exact (writes_stream MARKER_EOS sym_eos c l He).
  - intros Hr. unfold json_write_char. rewrite Hesc by lia.
    set (b := swrap 8 ch).
    assert (Hbv : b = ch - 256).
    { subst b. rewrite <- swrap_uwrap by lia. replace (uwrap 8 ch) with (uwrap 8 (ch - 256)).
      - rewrite swrap_uwrap, swrap_small by lia. done.
      - unfold uwrap. replace (ch - 256) with (ch + (-1) * 2 ^ 8) by lia. by rewrite Z.mod_add by lia. }
    unfold write_stream. rewrite Z.gtb_ltb, (proj2 (Z.ltb_ge ESC b)) by (unfold ESC; lia). cbn [andb].
    change (os_write b) with (tcp_write_stream b).
    destruct (settle_spec c l He) as (c1 & w & R1 & Hcl1 & _ & _ & Hl1).
    apply runs_bind_inv in R1 as ([] & c0 & R0 & R1).
    destruct (put_byte_spec c1 w ESC Hcl1 Hl1 ltac:(done)) as (c2 & R2 & _ & _ & _).
    unfold tcp_write_stream.
    do 3 (rewrite (bind_runs _ _ _ _ _ (runs_gets _ _))).
    rewrite (proj2 (Z.ltb_lt b 0)), orb_true_r by lia.
    rewrite (bind_runs _ _ _ _ _ R0), (bind_runs _ _ _ _ _ R1). cbn [orb].
    rewrite (bind_runs _ _ _ _ _ R2).
    rewrite (proj2 (Z.eqb_neq b ESC)), (proj2 (Z.eqb_neq b MARKER_EOM)), (proj2 (Z.eqb_neq b MARKER_EOS))
      by (unfold ESC, MARKER_EOM, MARKER_EOS; lia). done.
  - intros Hlt. unfold json_write_char, char_text. destruct (char_escaping ch).
    + exact (writes_escape_seq ch Hb c l He).
    + rewrite swrap_small by (unfold is_byte in Hb; lia).
      exact (writes_stream ch ltac:(by apply os_sym_byte) c l He).
Qed.

Lemma json_write_char_markers_witness :
  (255 = 255 -> exists c', runs (json_write_char 255) (new_output true) tt c' /\ ct_emits c' ([] ++ [MARKER_EOM])) /\
  (255 = 254 -> exists c', runs (json_write_char 255) (new_output true) tt c' /\ ct_emits c' ([] ++ [MARKER_EOS])) /\
  (128 <= 255 <= 253 -> fst (json_write_char 255 (new_output true)) = Fault) /\
  (255 < 128 -> exists c', runs (json_write_char 255) (new_output true) tt c' /\ ct_emits c' ([] ++ char_text 255)).
Proof.
  apply (json_write_char_markers (new_output true) [] 255).
  - apply new_output_emits.
  - unfold is_byte. lia.
Defined.
