(* ===== verification/InputBuf.v ===== *)
(** * Input buffer of a channel (framework/inputbuf.c, the callbacks of channel_tcp.c)

    The ring buffer a socket reads into.  [ibuf_read_done] scans new data to count messages,
    [ibuf_get_more] decodes it for the readers of the channel's [InputStream].  Pointers into the
    buffer are offsets.  The buffer's callbacks are those of channel_tcp.c: an asynchronous read
    request, the wait for its completion, and the event that handles a message.  The part of the peer
    is [ib_net]: the blocks the following reads of the socket return; after the last one the peer has
    closed the connection.  The configuration is the one of Linux: [ENABLE_ZeroCopy],
    [ENABLE_InputQueue], no SSL. *)

From S2P Require Import Prelude Streams.

(** ** State *)

Inductive HandleMsg := HandleMsgIdle | HandleMsgTriggered | HandleMsgActive.

#[export] Instance HandleMsg_eq_dec : EqDecision HandleMsg.
Proof. solve_decision. Defined.

(** [buf], whose length is [buf_size], [inp], and the window [stream->cur], [stream->end]. *)
Record Ring := mkRing { rb_buf : list Z; rb_inp : Z; rb_cur : Z; rb_end : Z }.

Definition rb_size (r : Ring) : Z := Z.of_nat (length (rb_buf r)).

(** [inp_esc], [inp_size_mode] and [inp_data_size], or [out_esc], [out_size_mode] and
    [out_data_size]. *)
Record BinState := mkBin { bs_esc : bool; bs_mode : Z; bs_size : Z }.

(** [eof], [long_msg], [message_count], [handling_msg], and the number of posted events
    [handle_channel_msg]. *)
Record MsgState := mkMsg {
  ms_eof : bool;
  ms_long : bool;
  ms_count : Z;
  ms_handling : HandleMsg;
  ms_events : Z }.

(** [ib_req] is the pending read request: [read_buf] and [read_buf_size]. *)
Record InputBuf := mkIB {
  ib_ring : Ring;
  ib_inp : BinState;
  ib_out : BinState;
  ib_msg : MsgState;
  ib_req : option (Z * Z);
  ib_net : list (list Z) }.

Notation B := (M InputBuf).

Definition set_ring (f : Ring -> Ring) (s : InputBuf) : InputBuf :=
  mkIB (f (ib_ring s)) (ib_inp s) (ib_out s) (ib_msg s) (ib_req s) (ib_net s).
Definition set_inp_state (d : BinState) (s : InputBuf) : InputBuf :=
  mkIB (ib_ring s) d (ib_out s) (ib_msg s) (ib_req s) (ib_net s).
Definition set_out_state (d : BinState) (s : InputBuf) : InputBuf :=
  mkIB (ib_ring s) (ib_inp s) d (ib_msg s) (ib_req s) (ib_net s).
Definition set_msg (f : MsgState -> MsgState) (s : InputBuf) : InputBuf :=
  mkIB (ib_ring s) (ib_inp s) (ib_out s) (f (ib_msg s)) (ib_req s) (ib_net s).
Definition set_req (q : option (Z * Z)) (s : InputBuf) : InputBuf :=
  mkIB (ib_ring s) (ib_inp s) (ib_out s) (ib_msg s) q (ib_net s).
Definition set_net (l : list (list Z)) (s : InputBuf) : InputBuf :=
  mkIB (ib_ring s) (ib_inp s) (ib_out s) (ib_msg s) (ib_req s) l.

Definition rb_set_buf (m : list Z) (r : Ring) : Ring := mkRing m (rb_inp r) (rb_cur r) (rb_end r).
Definition rb_set_inp (p : Z) (r : Ring) : Ring := mkRing (rb_buf r) p (rb_cur r) (rb_end r).
Definition rb_set_cur (p : Z) (r : Ring) : Ring := mkRing (rb_buf r) (rb_inp r) p (rb_end r).
Definition rb_set_end (p : Z) (r : Ring) : Ring := mkRing (rb_buf r) (rb_inp r) (rb_cur r) p.

Definition ms_set_eof (m : MsgState) : MsgState :=
  mkMsg true (ms_long m) (ms_count m) (ms_handling m) (ms_events m).
Definition ms_set_long (b : bool) (m : MsgState) : MsgState :=
  mkMsg (ms_eof m) b (ms_count m) (ms_handling m) (ms_events m).
Definition ms_set_count (n : Z) (m : MsgState) : MsgState :=
  mkMsg (ms_eof m) (ms_long m) n (ms_handling m) (ms_events m).
Definition ms_set_handling (h : HandleMsg) (m : MsgState) : MsgState :=
  mkMsg (ms_eof m) (ms_long m) (ms_count m) h (ms_events m).
Definition ms_add_events (n : Z) (m : MsgState) : MsgState :=
  mkMsg (ms_eof m) (ms_long m) (ms_count m) (ms_handling m) (ms_events m + n).

(** [*p]. *)
Definition load (p : Z) : B Z :=
  let! r := gets ib_ring in
  if (0 <=? p) && (p <? rb_size r) then
    match rb_buf r !! Z.to_nat p with Some b => ret b | None => fault end
  else fault.

(** ** The buffer's callbacks in channel_tcp.c *)

Definition tcp_post_read (buf size : Z) : B unit :=
  let! q := gets ib_req in
  match q with
  | Some _ => ret tt
  | None => modify (set_req (Some (buf, size)))
  end.

Definition tcp_trigger_message : B unit :=
  let! m := gets ib_msg in
  cassert (0 <? ms_count m) ;!
  if decide (ms_handling m = HandleMsgIdle) then
    modify (set_msg (fun m => ms_set_handling HandleMsgTriggered (ms_add_events 1 m)))
  else ret tt.

(** ** inputbuf.c *)

Definition ibuf_new_message : B unit :=
  modify (set_msg (fun m => ms_set_count (ms_count m + 1) m)) ;!
  tcp_trigger_message.

Definition ibuf_eof : B unit :=
  let! m := gets ib_msg in
  if ms_eof m then ret tt else modify (set_msg ms_set_eof) ;! ibuf_new_message.

Definition ibuf_free_size : B Z :=
  let! m := gets ib_msg in
  if ms_eof m then ret 0
  else
    let! r := gets ib_ring in
    (if rb_cur r =? rb_size r then
       cassert (rb_cur r =? rb_end r) ;! modify (set_ring (fun r => rb_set_cur 0 (rb_set_end 0 r)))
     else ret tt) ;!
    let! r := gets ib_ring in
    cassert ((0 <=? rb_inp r) && (rb_inp r <? rb_size r)) ;!
    if rb_cur r <=? rb_inp r then
      let size := rb_size r - rb_inp r in
      ret (if rb_cur r =? 0 then size - 1 else size)
    else ret (rb_cur r - rb_inp r - 1).

Definition ibuf_trigger_read : B unit :=
  let! size := ibuf_free_size in
  if 0 <? size then
    let! r := gets ib_ring in
    cassert (rb_inp r + size <=? rb_size r) ;!
    tcp_post_read (rb_inp r) size
  else ret tt.

(** One byte of the size of binary data: [size |= (ch & 0x7f) << (size_mode++ - 1) * 7]; the shifted
    operand has type [int]. *)
Definition size_byte (d : BinState) (ch : Z) : option BinState :=
  let n := (bs_mode d - 1) * 7 in
  if n <? 32 then
    Some (mkBin (bs_esc d) (if Z.land ch 0x80 =? 0 then 0 else bs_mode d + 1)
            (Z.lor (bs_size d) (uwrap 64 (swrap 32 (Z.shiftl (Z.land ch 0x7f) n)))))
  else None.

(** [if (inp == buf + buf_size) inp = buf]. *)
Definition wrap_ptr (r : Ring) (p : Z) : Z := if p =? rb_size r then 0 else p.

(** The loop of [ibuf_read_done] over [len] new bytes at [inp]. *)
Fixpoint read_done_loop (fuel : nat) (inp len : Z) : B Z :=
  match fuel with
  | O => nofuel
  | S fuel' =>
      if len <=? 0 then ret inp
      else
        let! d := gets ib_inp in
        let! r := gets ib_ring in
        if negb (bs_mode d =? 0) then
          cassert (negb (bs_esc d)) ;!
          let! ch := load inp in
          match size_byte d ch with
          | Some d' => modify (set_inp_state d') ;! read_done_loop fuel' (wrap_ptr r (inp + 1)) (len - 1)
          | None => fault
          end
        else if 0 <? bs_size d then
          cassert (negb (bs_esc d)) ;!
          let n := if bs_size d <? len then bs_size d else len in
          modify (set_inp_state (mkBin (bs_esc d) (bs_mode d) (bs_size d - n))) ;!
          read_done_loop fuel'
            (if rb_size r <=? inp + n then inp + n - rb_size r else inp + n) (len - n)
        else
          let! ch := load inp in
          let next := read_done_loop fuel' (wrap_ptr r (inp + 1)) (len - 1) in
          if bs_esc d then
            modify (set_inp_state (mkBin false (bs_mode d) (bs_size d))) ;!
            (if ch =? 0 then ret tt
             else if ch =? 1 then
               let! m := gets ib_msg in
               if ms_long m then
                 modify (set_msg (ms_set_long false)) ;! cassert (ms_count m =? 1)
               else ibuf_new_message
             else if ch =? 2 then ibuf_eof
             else if ch =? 3 then modify (set_inp_state (mkBin false 1 0))
             else ibuf_eof) ;!
            next
          else if ch =? ESC then
            modify (set_inp_state (mkBin true (bs_mode d) (bs_size d))) ;! next
          else next
  end.

(** [buf_size < 0x1000000]. *)
Definition MAX_BUF_SIZE : Z := 0x1000000.

(** The new contents of the buffer: [cur] moves to its beginning; the second half is not
    initialized (zeros here). *)
Definition grow_ring (r : Ring) : Ring :=
  let c := Z.to_nat (rb_cur r) in
  mkRing (drop c (rb_buf r) ++ take c (rb_buf r) ++ replicate (length (rb_buf r)) 0)
    (rb_size r - 1) 0 (rb_end r - rb_cur r).

Definition ibuf_read_done (len : Z) : B unit :=
  if len =? 0 then ibuf_eof
  else
    let! m := gets ib_msg in
    cassert (negb (ms_eof m)) ;!
    let! r := gets ib_ring in
    let! inp := read_done_loop (S (Z.to_nat len)) (rb_inp r) len in
    modify (set_ring (rb_set_inp inp)) ;!
    let! m := gets ib_msg in
    (if negb (ms_eof m) then
       let! free := ibuf_free_size in
       let! r := gets ib_ring in
       if (free =? 0) && (rb_size r <? MAX_BUF_SIZE) then modify (set_ring grow_ring) else ret tt
     else ret tt) ;!
    let! free := ibuf_free_size in
    if 0 <? free then ibuf_trigger_read
    else
      let! m := gets ib_msg in
      if ms_count m =? 0 then
        modify (set_msg (ms_set_long true)) ;! ibuf_new_message
      else ret tt.

(** Completion of the pending read, [tcp_channel_read_done] of an open channel: the socket has stored
    its next block, or what fits of it, at [read_buf]. *)
Definition tcp_channel_read_done : B unit :=
  let! q := gets ib_req in
  match q with
  | None => fault
  | Some (buf, size) =>
      let! net := gets ib_net in
      let block := match net with [] => [] | c :: _ => take (Z.to_nat size) c end in
      let rest := match net with [] => [] | c :: net' =>
                    match drop (Z.to_nat size) c with [] => net' | c' => c' :: net' end end in
      modify (set_net rest) ;!
      modify (set_ring (fun r => rb_set_buf (overwrite (Z.to_nat buf) block (rb_buf r)) r)) ;!
      modify (set_req None) ;!
      ibuf_read_done (Z.of_nat (length block))
  end.

(** [tcp_wait_read]: blocks until the read is complete. *)
Definition tcp_wait_read : B unit := tcp_channel_read_done.

(** [max] of [ibuf_get_more]: where the contiguous data that includes [out] ends. *)
Definition run_max (r : Ring) (out : Z) : Z :=
  if out + 1 <=? rb_inp r then rb_inp r else rb_size r.

(** [while (out != max && *out != ESC) out++]. *)
Fixpoint plain_run (n : nat) (l : list Z) : Z :=
  match n, l with
  | S n', b :: l' => if b =? ESC then 0 else 1 + plain_run n' l'
  | _, _ => 0
  end.

(** The reader takes the end of message mark. *)
Definition end_message : B unit :=
  modify (set_msg (fun m => ms_set_handling HandleMsgIdle (ms_set_count (ms_count m - 1) m))) ;!
  let! m := gets ib_msg in
  if negb (ms_count m =? 0) then tcp_trigger_message else ret tt.

(** [ibuf_get_more] at a byte [ch] of binary data at [out]. *)
Definition get_bin_data (peeking : bool) (out ch : Z) : B Z :=
  let! d := gets ib_out in
  cassert (negb (bs_esc d)) ;!
  let! r := gets ib_ring in
  let max := run_max r out in
  let n := if max - out <? bs_size d then max - out else bs_size d in
  modify (set_out_state (mkBin (bs_esc d) (bs_mode d) (bs_size d - n))) ;!
  modify (set_ring (fun r => rb_set_end (out + n) (rb_set_cur (if peeking then out else out + 1) r))) ;!
  ibuf_trigger_read ;!
  ret ch.

(** [ibuf_get_more] at the byte after [ESC], other than 3. *)
Definition get_escape (peeking : bool) (out ch : Z) : B Z :=
  let! sym := (if ch =? 0 then ret ESC
               else if ch =? 1 then (if peeking then ret tt else end_message) ;! ret MARKER_EOM
               else if ch =? 2 then ret MARKER_EOS
               else fault) in
  let! d := gets ib_out in
  (if peeking then ret tt else modify (set_out_state (mkBin false (bs_mode d) (bs_size d)))) ;!
  let out := if peeking then out else out + 1 in
  modify (set_ring (fun r => rb_set_end out (rb_set_cur out r))) ;!
  ibuf_trigger_read ;!
  ret sym.

(** [ibuf_get_more] at a plain byte: the window is the run of plain bytes that starts there. *)
Definition get_plain (peeking : bool) (out ch : Z) : B Z :=
  let! r := gets ib_ring in
  let max := run_max r out in
  let n := plain_run (Z.to_nat (max - (out + 1))) (drop (Z.to_nat (out + 1)) (rb_buf r)) in
  modify (set_ring (fun r => rb_set_end (out + 1 + n)
                               (rb_set_cur (if peeking then out else out + 1) r))) ;!
  ibuf_trigger_read ;!
  ret ch.

Fixpoint get_more_loop (fuel : nat) (peeking : bool) (out : Z) : B Z :=
  match fuel with
  | O => nofuel
  | S fuel' =>
      let! r := gets ib_ring in
      let out := wrap_ptr r out in
      if out =? rb_inp r then
        let! m := gets ib_msg in
        cassert (ms_long m || ms_eof m) ;!
        modify (set_ring (rb_set_cur out)) ;!
        if ms_eof m then ret MARKER_EOS
        else
          cassert (ms_count m =? 1) ;!
          ibuf_trigger_read ;!
          tcp_wait_read ;!
          let! r := gets ib_ring in
          get_more_loop fuel' peeking (rb_cur r)
      else
        let! ch := load out in
        let! d := gets ib_out in
        if negb (bs_mode d =? 0) then
          cassert (negb (bs_esc d)) ;!
          match size_byte d ch with
          | Some d' => modify (set_out_state d') ;! get_more_loop fuel' peeking (out + 1)
          | None => fault
          end
        else if 0 <? bs_size d then get_bin_data peeking out ch
        else if bs_esc d then
          if ch =? 3 then
            modify (set_out_state (mkBin false 1 0)) ;! get_more_loop fuel' peeking (out + 1)
          else get_escape peeking out ch
        else if negb (ch =? ESC) then get_plain peeking out ch
        else
          modify (set_out_state (mkBin true (bs_mode d) (bs_size d))) ;!
          get_more_loop fuel' peeking (out + 1)
  end.

(** Every iteration takes a byte of the buffer or waits for a block of the network. *)
Definition ib_fuel (s : InputBuf) : nat :=
  2 * (length (rb_buf (ib_ring s)) + length (concat (ib_net s))) + 2.

Definition ibuf_get_more (peeking : bool) : B Z :=
  let! m := gets ib_msg in
  let! r := gets ib_ring in
  cassert (0 <? ms_count m) ;!
  cassert (bool_decide (ms_handling m = HandleMsgActive)) ;!
  cassert ((0 <=? rb_cur r) && (rb_cur r <=? rb_size r)) ;!
  cassert (rb_cur r =? rb_end r) ;!
  let! fuel := gets ib_fuel in
  get_more_loop fuel peeking (rb_cur r).

(** [128 * MEM_USAGE_FACTOR]. *)
Definition IBUF_SIZE : nat := 128 * 32.

(** [ibuf_init] of a zeroed structure; the peer will send [net]. *)
Definition ibuf_init (net : list (list Z)) : InputBuf :=
  mkIB (mkRing (replicate IBUF_SIZE 0) 0 0 0) (mkBin false 0 0) (mkBin false 0 0)
    (mkMsg false false 0 HandleMsgIdle 0) None net.

Definition ibuf_flush : B unit :=
  modify (set_ring (fun r => rb_set_end (rb_inp r) (rb_set_cur (rb_inp r) r))) ;!
  modify (set_msg (ms_set_count 0)) ;!
  modify (fun s => set_out_state (mkBin (bs_esc (ib_out s)) 0 0) s) ;!
  modify (fun s => set_inp_state (mkBin (bs_esc (ib_inp s)) 0 0) s).

Definition ibuf_start_message : B Z :=
  let! m := gets ib_msg in
  cassert (bool_decide (ms_handling m = HandleMsgTriggered)) ;!
  if ms_count m =? 0 then modify (set_msg (ms_set_handling HandleMsgIdle)) ;! ret 0
  else if ms_eof m then modify (set_msg (ms_set_handling HandleMsgIdle)) ;! ret (-1)
  else modify (set_msg (ms_set_handling HandleMsgActive)) ;! ret 1.

(** ** The stream of the channel *)

(** The bytes at [a .. b). *)
Definition slice (m : list Z) (a b : Z) : list Z := take (Z.to_nat (b - a)) (drop (Z.to_nat a) m).

(** Pointers before the buffer have no data. *)
Definition ib_window (s : InputBuf) : list Z :=
  if 0 <=? rb_cur (ib_ring s) then slice (rb_buf (ib_ring s)) (rb_cur (ib_ring s)) (rb_end (ib_ring s))
  else [].

Definition tcp_read_stream : B Z :=
  let! r := gets ib_ring in
  if rb_cur r <? rb_end r then
    modify (set_ring (rb_set_cur (rb_cur r + 1))) ;! load (rb_cur r)
  else ibuf_get_more false.

Definition tcp_peek_stream : B Z :=
  let! r := gets ib_ring in
  if rb_cur r <? rb_end r then load (rb_cur r) else ibuf_get_more true.

#[export] Instance tcp_input : InputStream InputBuf := {
  is_window := ib_window;
  is_advance n s := set_ring (fun r => rb_set_cur (rb_cur r + Z.of_nat n) r) s;
  is_read := tcp_read_stream;
  is_peek := tcp_peek_stream }.

(** ** Messages *)

(** [handle_channel_msg]: [receive] is the protocol's handler; [None] is the case in which the
    channel is closed instead. *)
Definition handle_channel_msg {A} (receive : B A) : B (option A) :=
  modify (set_msg (ms_add_events (-1))) ;!
  let! m := gets ib_msg in
  cassert (bool_decide (ms_handling m = HandleMsgTriggered)) ;!
  cassert (negb (ms_count m =? 0)) ;!
  let! has_msg := ibuf_start_message in
  if has_msg <=? 0 then ret None
  else let! a := receive in ret (Some a).

(** [channel_check_pending] *)
Definition channel_check_pending : B unit :=
  let! m := gets ib_msg in
  if bool_decide (ms_handling m = HandleMsgIdle) && negb (ms_count m =? 0) then
    modify (set_msg (fun m => ms_set_handling HandleMsgTriggered (ms_add_events 1 m)))
  else ret tt.

(** [channel_get_message_count]. *)
Definition channel_get_message_count : B Z :=
  let! m := gets ib_msg in
  ret (if decide (ms_handling m = HandleMsgTriggered) then ms_count m else 0).
