(* ===== verification/ChannelIn.v ===== *)
(** * Properties of the input side of a channel (InputBuf.v)

    The ring buffer as a queue of bytes, the decoder both scans of the code follow, the invariant that
    connects the two, the laws of the channel's input stream, and the delivery of messages. *)

From S2P Require Import Prelude Streams OutputBuf ChannelOut InputBuf JsonWrite JsonRead.

(** ** Slices *)

Lemma slice_length m a b :
  0 <= a <= b -> b <= Z.of_nat (length m) -> Z.of_nat (length (slice m a b)) = b - a.
Proof. intros. unfold slice. rewrite length_take, length_drop. lia. Qed.

Lemma slice_nil m a b : b <= a -> slice m a b = [].
Proof. intros. unfold slice. by replace (Z.to_nat (b - a)) with 0%nat by lia. Qed.

Lemma slice_split m a b c : 0 <= a <= b -> b <= c -> slice m a c = slice m a b ++ slice m b c.
Proof.
  intros. unfold slice. replace (Z.to_nat (c - a)) with (Z.to_nat (b - a) + Z.to_nat (c - b))%nat by lia.
  rewrite take_plus, drop_drop. do 3 f_equal. lia.
Qed.

Lemma slice_lookup m a b ch l :
  0 <= a -> slice m a b = ch :: l -> m !! Z.to_nat a = Some ch.
Proof.
  intros Ha H. unfold slice in H.
  assert (drop (Z.to_nat a) m !! 0%nat = Some ch) as E.
  { destruct (drop (Z.to_nat a) m) as [|x d]; [by rewrite take_nil in H|].
    destruct (Z.to_nat (b - a)); simpl in H; simplify_eq. done. }
  rewrite lookup_drop, Nat.add_0_r in E. done.
Qed.

Lemma slice_cons m a b ch :
  0 <= a < b -> m !! Z.to_nat a = Some ch -> slice m a b = ch :: slice m (a + 1) b.
Proof.
  intros Ha H. unfold slice. replace (Z.to_nat (b - a)) with (S (Z.to_nat (b - (a + 1)))) by lia.
  rewrite (drop_S _ _ _ H). simpl. do 3 f_equal. lia.
Qed.

Lemma slice_bytes m a b : bytes m -> bytes (slice m a b).
Proof. intros. unfold slice. by apply Forall_take, Forall_drop. Qed.

Lemma slice_overwrite_before m x p a b :
  0 <= a -> b <= p -> p + Z.of_nat (length x) <= Z.of_nat (length m) ->
  slice (overwrite (Z.to_nat p) x m) a b = slice m a b.
Proof.
  intros. destruct (Z.le_gt_cases b a); [by rewrite !slice_nil by lia|].
  unfold slice, overwrite. rewrite drop_app_le by (rewrite length_take; lia).
  rewrite take_app_le by (rewrite length_drop, length_take; lia).
  rewrite <- (take_drop (Z.to_nat p) m) at 2.
  rewrite drop_app_le by (rewrite length_take; lia).
  by rewrite take_app_le by (rewrite length_drop, length_take; lia).
Qed.

Lemma slice_overwrite_at m x p :
  0 <= p -> p + Z.of_nat (length x) <= Z.of_nat (length m) ->
  slice (overwrite (Z.to_nat p) x m) p (p + Z.of_nat (length x)) = x.
Proof.
  intros. unfold slice, overwrite. rewrite drop_app_length' by (rewrite length_take; lia).
  apply take_app_length'. lia.
Qed.

Lemma slice_overwrite_after m x p a b :
  0 <= p -> p + Z.of_nat (length x) <= a -> p + Z.of_nat (length x) <= Z.of_nat (length m) ->
  slice (overwrite (Z.to_nat p) x m) a b = slice m a b.
Proof.
  intros. unfold slice, overwrite. f_equal. rewrite (assoc_L (++)).
  rewrite drop_app_ge by (rewrite length_app, length_take; lia).
  rewrite drop_drop. f_equal. rewrite length_app, length_take. lia.
Qed.

(** ** The ring as a queue *)

Definition ring_ok (r : Ring) : Prop :=
  2 <= rb_size r /\ 0 <= rb_inp r < rb_size r /\ 0 <= rb_cur r <= rb_size r /\ bytes (rb_buf r).

(** The bytes from [a] to [inp], around the end of the buffer where needed. *)
Definition ring_data (r : Ring) (a : Z) : list Z :=
  if a <=? rb_inp r then slice (rb_buf r) a (rb_inp r)
  else slice (rb_buf r) a (rb_size r) ++ slice (rb_buf r) 0 (rb_inp r).

(** A pending request covers free space only. *)
Definition req_ok (r : Ring) (q : option (Z * Z)) : Prop :=
  match q with
  | None => True
  | Some (p, n) => p = rb_inp r /\ 0 < n /\ rb_inp r + n <= rb_size r /\
      Z.of_nat (length (ring_data r (rb_cur r))) + n <= rb_size r - 1
  end.

Lemma ring_data_length r a :
  ring_ok r -> 0 <= a <= rb_size r ->
  Z.of_nat (length (ring_data r a)) = if a <=? rb_inp r then rb_inp r - a else rb_size r - a + rb_inp r.
Proof.
  intros (Hs & Hi & _ & _) Ha. unfold ring_data, rb_size in *. destruct (Z.leb_spec a (rb_inp r)).
  - apply slice_length; lia.
  - rewrite length_app, Nat2Z.inj_add, !slice_length by lia. lia.
Qed.

Lemma ring_data_wrap r a : ring_ok r -> ring_data r (wrap_ptr r a) = ring_data r a.
Proof.
  intros (Hs & Hi & _). unfold wrap_ptr. destruct (Z.eqb_spec a (rb_size r)) as [->|]; [|done].
  unfold ring_data. destruct (Z.leb_spec 0 (rb_inp r)); [|lia].
  destruct (Z.leb_spec (rb_size r) (rb_inp r)); [lia|]. by rewrite (slice_nil _ (rb_size r)) by lia.
Qed.

Lemma ring_data_nil r a :
  ring_ok r -> 0 <= a < rb_size r -> (ring_data r a = [] <-> a = rb_inp r).
Proof.
  intros Hr Ha. pose proof (ring_data_length r a Hr ltac:(lia)) as HL. split.
  - intros E. rewrite E in HL. destruct (Z.leb_spec a (rb_inp r)); cbn [length] in HL; destruct Hr; lia.
  - intros ->. rewrite Z.leb_refl in HL. destruct (ring_data r (rb_inp r)); [done|cbn [length] in HL; lia].
Qed.

(** The first byte of the data, and what follows it. *)
Lemma ring_data_cons r a :
  ring_ok r -> 0 <= a < rb_size r -> a <> rb_inp r ->
  exists ch, rb_buf r !! Z.to_nat a = Some ch /\ is_byte ch /\ ring_data r a = ch :: ring_data r (a + 1).
Proof.
  intros (Hs & Hi & Hc & Hb) Ha Hne.
  destruct (lookup_lt_is_Some_2 (rb_buf r) (Z.to_nat a)) as (ch & Hch); [unfold rb_size in *; lia|].
  exists ch. split; [done|]. split; [by eapply Forall_lookup_1|].
  unfold ring_data. destruct (Z.leb_spec a (rb_inp r)).
  - destruct (Z.leb_spec (a + 1) (rb_inp r)); [|lia]. apply slice_cons; [lia|done].
  - destruct (Z.leb_spec (a + 1) (rb_inp r)); [lia|].
    rewrite (slice_cons _ a _ ch) by (lia || done). done.
Qed.

(** A contiguous run at the front of the data. *)
Lemma ring_data_run r a b :
  ring_ok r -> 0 <= a <= b -> b <= (if a <=? rb_inp r then rb_inp r else rb_size r) ->
  ring_data r a = slice (rb_buf r) a b ++ ring_data r b.
Proof.
  intros (Hs & Hi & Hc & Hb) Ha Hle. unfold ring_data. destruct (Z.leb_spec a (rb_inp r)).
  - destruct (Z.leb_spec b (rb_inp r)); [|lia]. apply slice_split; lia.
  - destruct (Z.leb_spec b (rb_inp r)); [lia|]. rewrite (slice_split _ a b) by lia.
    by rewrite <- (assoc_L (++)).
Qed.

Lemma load_runs s p ch :
  0 <= p -> p < rb_size (ib_ring s) -> rb_buf (ib_ring s) !! Z.to_nat p = Some ch ->
  runs (load p) s ch s.
Proof.
  intros H0 H1 H. unfold runs, load, bind, gets.
  rewrite (proj2 (Z.leb_le _ _) H0), (proj2 (Z.ltb_lt _ _) H1), H. done.
Qed.

(** The ring after the socket has stored [x] at [inp] and [inp] has moved behind it. *)
Definition ring_push (x : list Z) (r : Ring) : Ring :=
  mkRing (overwrite (Z.to_nat (rb_inp r)) x (rb_buf r))
    (wrap_ptr r (rb_inp r + Z.of_nat (length x))) (rb_cur r) (rb_end r).

Lemma ring_push_size x r :
  ring_ok r -> rb_inp r + Z.of_nat (length x) <= rb_size r -> rb_size (ring_push x r) = rb_size r.
Proof.
  intros (Hs & Hi & _) Hx. unfold ring_push, rb_size in *. cbn. rewrite overwrite_length; lia.
Qed.

Lemma ring_push_ok x r :
  ring_ok r -> bytes x -> rb_inp r + Z.of_nat (length x) <= rb_size r -> ring_ok (ring_push x r).
Proof.
  intros Hr Hx Hl. pose proof (ring_push_size x r Hr Hl) as Hsz. destruct Hr as (Hs & Hi & Hc & Hb).
  unfold ring_ok. rewrite Hsz. cbn [rb_inp rb_cur rb_buf ring_push].
  split; [done|]. split; [|split; [done|]].
  - unfold wrap_ptr. destruct (Z.eqb_spec (rb_inp r + Z.of_nat (length x)) (rb_size r)); lia.
  - unfold overwrite. apply Forall_app. split; [by apply Forall_take|]. apply Forall_app.
    split; [done|by apply Forall_drop].
Qed.

Lemma ring_push_data x r a :
  ring_ok r -> 0 <= a <= rb_size r -> rb_inp r + Z.of_nat (length x) <= rb_size r ->
  Z.of_nat (length (ring_data r a)) + Z.of_nat (length x) <= rb_size r - 1 ->
  ring_data (ring_push x r) a = ring_data r a ++ x.
Proof.
  intros Hr Ha Hx Hl. rewrite ring_data_length in Hl by done.
  pose proof (ring_push_size x r Hr Hx) as Hsz. destruct Hr as (Hs & Hi & Hc & Hb).
  unfold ring_data. rewrite Hsz. cbn [ring_push rb_inp rb_buf]. unfold wrap_ptr.
  assert (Hm : rb_inp r + Z.of_nat (length x) <= Z.of_nat (length (rb_buf r))) by (unfold rb_size in *; lia).
  pose proof (slice_overwrite_at (rb_buf r) x (rb_inp r) ltac:(lia) Hm) as Hat.
  destruct (Z.leb_spec a (rb_inp r));
    destruct (Z.eqb_spec (rb_inp r + Z.of_nat (length x)) (rb_size r)) as [E|E].
  - destruct (Z.leb_spec a 0); [lia|]. rewrite (slice_nil _ 0 0), (right_id_L [] (++)) by lia.
    rewrite (slice_split _ a (rb_inp r)) by lia. rewrite <- E, Hat.
    by rewrite slice_overwrite_before by lia.
  - destruct (Z.leb_spec a (rb_inp r + Z.of_nat (length x))); [|lia].
    rewrite (slice_split _ a (rb_inp r)), Hat by lia. by rewrite slice_overwrite_before by lia.
  - lia.
  - destruct (Z.leb_spec a (rb_inp r + Z.of_nat (length x))); [lia|].
    rewrite slice_overwrite_after by lia. rewrite (slice_split _ 0 (rb_inp r)), Hat by lia.
    rewrite slice_overwrite_before by lia. by rewrite (assoc_L (++)).
Qed.

Lemma grow_ring_size r : rb_size (grow_ring r) = 2 * rb_size r.
Proof.
  unfold rb_size. cbn. rewrite !length_app, length_drop, length_take, length_replicate. lia.
Qed.

Lemma grow_ring_ok r : ring_ok r -> ring_ok (grow_ring r).
Proof.
  intros (Hs & Hi & Hc & Hb). unfold ring_ok. rewrite grow_ring_size. cbn [grow_ring rb_inp rb_cur rb_buf].
  split; [lia|]. split; [lia|]. split; [lia|].
  apply Forall_app. split; [by apply Forall_drop|]. apply Forall_app.
  split; [by apply Forall_take|]. apply Forall_replicate. unfold is_byte. lia.
Qed.

(** Growing the buffer keeps the data. *)
Lemma grow_ring_data r n :
  ring_ok r -> Z.of_nat (length (ring_data r (rb_cur r))) = rb_size r - 1 ->
  0 <= n -> n <= (if rb_cur r <=? rb_inp r then rb_inp r else rb_size r) - rb_cur r ->
  ring_data (grow_ring r) n = ring_data r (rb_cur r + n).
Proof.
  intros Hr Hf H0 Hn.
  assert (Hg : ring_data (grow_ring r) 0 = ring_data r (rb_cur r)).
  { rewrite ring_data_length in Hf by (destruct Hr as (?&?&?&?); done || lia).
    destruct Hr as (Hs & Hi & Hc & Hb).
    unfold ring_data at 1. cbn [grow_ring rb_inp rb_buf].
    destruct (Z.leb_spec 0 (rb_size r - 1)); [|lia]. unfold slice. cbn [Z.to_nat]. rewrite drop_0.
    rewrite (assoc_L (++)), take_app_le
      by (rewrite length_app, length_drop, length_take; unfold rb_size in *; lia).
    unfold ring_data. destruct (Z.leb_spec (rb_cur r) (rb_inp r)) as [Hle|Hle].
    - replace (rb_cur r) with 0 by lia. cbn [Z.to_nat]. rewrite drop_0, take_0, (right_id_L [] (++)).
      unfold slice. cbn [Z.to_nat]. rewrite drop_0. f_equal. lia.
    - unfold slice. cbn [Z.to_nat]. rewrite drop_0.
      rewrite (take_ge (drop _ _)) by (rewrite length_drop; unfold rb_size; lia).
      rewrite take_app_ge by (rewrite length_drop; unfold rb_size in *; lia). f_equal.
      rewrite take_take. f_equal. rewrite length_drop. unfold rb_size in *. lia. }
  pose proof (grow_ring_ok r Hr) as Hgr.
  destruct (Z.eqb_spec n 0) as [->|Hn0]; [by rewrite Z.add_0_r|].
  pose proof Hr as (Hs & Hi & Hc & Hb).
  rewrite (ring_data_run (grow_ring r) 0 n Hgr) in Hg;
    [|lia|rewrite ring_data_length in Hf by (done || lia); cbn [grow_ring rb_inp];
          destruct (Z.leb_spec 0 (rb_size r - 1)); [|lia];
          destruct (Z.leb_spec (rb_cur r) (rb_inp r)); lia].
  rewrite (ring_data_run r (rb_cur r) (rb_cur r + n) Hr) in Hg
    by (destruct (Z.leb_spec (rb_cur r) (rb_inp r)); lia).
  apply app_inj_1 in Hg; [by destruct Hg|].
  apply Nat2Z.inj. rewrite !slice_length; try lia.
  - destruct (Z.leb_spec (rb_cur r) (rb_inp r)); unfold rb_size in *; lia.
  - cbn. rewrite !length_app, length_drop, length_take, length_replicate. unfold rb_size in *.
    destruct (Z.leb_spec (rb_cur r) (rb_inp r)); lia.
Qed.

(** ** The decoder

    The automaton that both [ibuf_read_done] and [ibuf_get_more] follow. [None] is an invalid escape
    sequence, an empty block, or a size with too many bytes. *)

Definition dec_step (d : BinState) (b : Z) : option (BinState * list Z) :=
  if negb (bs_mode d =? 0) then
    if bs_esc d then None
    else match size_byte d b with
         | Some d' => if (bs_mode d' =? 0) && (bs_size d' =? 0) then None else Some (d', [])
         | None => None
         end
  else if 0 <? bs_size d then
    if bs_esc d then None else Some (mkBin false 0 (bs_size d - 1), [b])
  else if bs_esc d then
    if b =? 0 then Some (mkBin false 0 (bs_size d), [ESC])
    else if b =? 1 then Some (mkBin false 0 (bs_size d), [MARKER_EOM])
    else if b =? 2 then Some (mkBin false 0 (bs_size d), [MARKER_EOS])
    else if b =? 3 then Some (mkBin false 1 0, [])
    else None
  else if b =? ESC then Some (mkBin true 0 (bs_size d), [])
  else Some (mkBin false 0 (bs_size d), [b]).

(** The state between two items. *)
Definition dec_clean : BinState := mkBin false 0 0.

Fixpoint decode (d : BinState) (bs : list Z) : option (BinState * list Z) :=
  match bs with
  | [] => Some (d, [])
  | b :: bs' =>
      match dec_step d b with
      | None => None
      | Some (d1, o) => match decode d1 bs' with
                        | None => None
                        | Some (d2, l) => Some (d2, o ++ l)
                        end
      end
  end.

Lemma decode_app d x y d2 l :
  decode d (x ++ y) = Some (d2, l) <->
  exists d1 l1 l2, decode d x = Some (d1, l1) /\ decode d1 y = Some (d2, l2) /\ l = l1 ++ l2.
Proof.
  revert d l. induction x as [|b x IH]; intros d l; cbn [app decode].
  - split; [intros H; by exists d, [], l|]. intros (d1 & l1 & l2 & H1 & H2 & ->). by simplify_eq.
  - destruct (dec_step d b) as [[d1 o]|]; [|split; [done|intros (?&?&?&?&?); done]].
    destruct (decode d1 (x ++ y)) as [[d' l']|] eqn:E; split.
    + intros H. simplify_eq. apply IH in E as (d3 & l1 & l2 & H1 & H2 & ->).
      exists d3, (o ++ l1), l2. rewrite H1. by rewrite (assoc_L (++)).
    + intros (d3 & l1 & l2 & H1 & H2 & ->).
      destruct (decode d1 x) as [[d4 l4]|] eqn:E1; [|done]. simplify_eq.
      assert (decode d1 (x ++ y) = Some (d2, l4 ++ l2)) as E2.
      { apply IH. eauto 6. }
      rewrite E in E2. simplify_eq. by rewrite (assoc_L (++)).
    + done.
    + intros (d3 & l1 & l2 & H1 & H2 & ->).
      destruct (decode d1 x) as [[d4 l4]|] eqn:E1; [|done]. simplify_eq.
      assert (decode d1 (x ++ y) = Some (d2, l4 ++ l2)) as E2.
      { apply IH. eauto 6. }
      congruence.
Qed.

Lemma decode_join d x y d1 l1 d2 l2 :
  decode d x = Some (d1, l1) -> decode d1 y = Some (d2, l2) ->
  decode d (x ++ y) = Some (d2, l1 ++ l2).
Proof. intros H1 H2. apply decode_app. eauto 6. Qed.

(** Complete items are never without symbols. *)
Lemma decode_clean_nil d x : decode d x = Some (dec_clean, []) -> x = [].
Proof.
  destruct x as [|b y _] using rev_ind; [done|]. intros H. exfalso.
  apply decode_app in H as (d1 & l1 & l2 & _ & H & E). symmetry in E. apply app_nil in E as [_ ->].
  cbn [decode] in H. destruct (dec_step d1 b) as [[d2 o]|] eqn:Es; [|done].
  rewrite (right_id_L [] (++)) in H. injection H as -> ->. unfold dec_step in Es.
  destruct (negb (bs_mode d1 =? 0)).
  - destruct (bs_esc d1); [done|]. destruct (size_byte d1 b) as [d3|]; [|done].
    destruct ((bs_mode d3 =? 0) && (bs_size d3 =? 0)) eqn:Ed; [done|]. by simplify_eq.
  - revert Es. repeat destruct_if; intros; simplify_eq; done.
Qed.

(** Data bytes of a binary block. *)
Lemma decode_data x n :
  Z.of_nat (length x) <= n -> 
  decode (mkBin false 0 n) x = Some (mkBin false 0 (n - Z.of_nat (length x)), x).
Proof.
  revert n. induction x as [|b x IH]; intros n Hn; cbn [decode length].
  - by rewrite Z.sub_0_r.
  - cbn [length] in Hn. unfold dec_step. cbn [bs_mode bs_size bs_esc Z.eqb negb].
    destruct (Z.ltb_spec 0 n); [|lia]. rewrite IH by lia. do 3 f_equal. lia.
Qed.

(** A run without [ESC]. *)
Lemma decode_plain x n :
  n <= 0 -> Forall (fun b => b <> ESC) x -> decode (mkBin false 0 n) x = Some (mkBin false 0 n, x).
Proof.
  intros Hn. induction 1 as [|b x Hb Hx IH]; cbn [decode]; [done|].
  unfold dec_step. cbn [bs_mode bs_size bs_esc Z.eqb negb].
  destruct (Z.ltb_spec 0 n); [lia|]. destruct (Z.eqb_spec b ESC); [done|]. by rewrite IH.
Qed.

(** The size of a block: [k] bytes have been read, their value is [v]. *)
Lemma decode_size sz k v :
  size_code sz -> 0 <= k -> k + Z.of_nat (length sz) <= 4 -> 0 <= v < 2 ^ (7 * k) ->
  v + size_value sz * 2 ^ (7 * k) <> 0 ->
  decode (mkBin false (k + 1) v) sz = Some (mkBin false 0 (v + size_value sz * 2 ^ (7 * k)), []).
Proof.
  revert k v. induction sz as [|b sz IH]; intros k v Hsz Hk Hlen Hv Hnz; [done|].
  cbn [length] in Hlen.
  assert (Hb : is_byte b) by (destruct sz; unfold is_byte; cbn [size_code] in Hsz; lia).
  assert (Hm : 0 <= Z.land b 0x7f < 128).
  { change 0x7f with (Z.ones 7). rewrite Z.land_ones by lia. apply Z.mod_pos_bound. lia. }
  assert (Hk4 : k = 0 \/ k = 1 \/ k = 2 \/ k = 3) by lia.
  assert (Hp : 2 ^ (7 * k) <= 2 ^ 21) by (apply Z.pow_le_mono_r; lia).
  assert (Hsh : Z.lor v (uwrap 64 (swrap 32 (Z.shiftl (Z.land b 0x7f) (k * 7)))) =
                v + Z.land b 0x7f * 2 ^ (7 * k)).
  { rewrite Z.shiftl_mul_pow2 by lia. rewrite (Z.mul_comm k 7).
    assert (0 <= Z.land b 0x7f * 2 ^ (7 * k) < 2 ^ 28) by (change (2 ^ 28) with (128 * 2 ^ 21); nia).
    rewrite swrap_small by (change (2 ^ (32 - 1)) with (8 * 2 ^ 28); lia).
    rewrite uwrap_small by (change (2 ^ 64) with (2 ^ 36 * 2 ^ 28); lia).
    apply lor_add; lia. }
  cbn [decode]. unfold dec_step, size_byte. cbn [bs_mode bs_size bs_esc].
  destruct (Z.eqb_spec (k + 1) 0); [lia|]. cbn [negb].
  replace (k + 1 - 1) with k by lia. destruct (Z.ltb_spec (k * 7) 32); [|lia]. rewrite Hsh.
  destruct sz as [|b' sz].
  - cbn [size_code] in Hsz.
    assert (E : (Z.land b 0x80 =? 0) = true).
    { clear -Hsz. revert b Hsz.
      assert (forall b, is_byte b -> negb (b <? 128) || (Z.land b 0x80 =? 0) = true) as H.
      { apply byte_forall. by vm_compute. }
      intros b Hb. specialize (H b). destruct (Z.ltb_spec b 128); [|lia]. apply H. unfold is_byte. lia. }
    cbn [size_value] in *. rewrite E. cbn [bs_mode bs_size Z.eqb andb].
    destruct (Z.eqb_spec (v + Z.land b 0x7f * 2 ^ (7 * k)) 0); [lia|].
    cbn [decode app]. do 3 f_equal. lia.
  - destruct Hsz as [Hb1 Hsz].
    assert (E : (Z.land b 0x80 =? 0) = false).
    { clear -Hb Hb1. revert b Hb Hb1.
      assert (forall b, is_byte b -> (b <? 128) || negb (Z.land b 0x80 =? 0) = true) as H.
      { apply byte_forall. by vm_compute. }
      intros b Hb Hb1. specialize (H b Hb). destruct (Z.ltb_spec b 128); [lia|].
      by apply negb_true_iff in H. }
    assert (Hval : v + Z.land b 0x7f * 2 ^ (7 * k) + size_value (b' :: sz) * 2 ^ (7 * (k + 1)) =
      v + size_value (b :: b' :: sz) * 2 ^ (7 * k)).
    { change (size_value (b :: b' :: sz)) with (Z.land b 0x7f + 128 * size_value (b' :: sz)).
      replace (7 * (k + 1)) with (7 + 7 * k) by lia. rewrite Z.pow_add_r by lia. change (2 ^ 7) with 128. lia. }
    rewrite E. cbn [bs_mode bs_size]. destruct (Z.eqb_spec (k + 1 + 1) 0); [lia|]. cbn [andb].
    rewrite (IH (k + 1)); [|exact Hsz|lia|lia| |by rewrite Hval].
    + by rewrite Hval.
    + replace (7 * (k + 1)) with (7 + 7 * k) by lia. rewrite Z.pow_add_r by lia. change (2 ^ 7) with 128.
      nia.
Qed.

Lemma decode_wire_item w l : wire_item w l ->
  decode (mkBin false 0 0) w = Some (mkBin false 0 0, l).
Proof.
  destruct 1 as [b Hb He| | | |sz data Hsz Hl Hv Hd Hnn]; try done.
  - cbn. destruct (Z.eqb_spec b ESC); done.
  - change (ESC :: 3 :: sz ++ data) with ([ESC; 3] ++ sz ++ data).
    apply (decode_join _ _ _ (mkBin false 1 0) [] _ data); [done|].
    apply (decode_join _ _ _ (mkBin false 0 (Z.of_nat (length data))) [] _ data).
    + rewrite <- Hv. pose proof (decode_size sz 0 0 Hsz ltac:(lia)) as H.
      cbn [Z.add Z.mul] in H. rewrite Z.pow_0_r, Z.mul_1_r in H.
      apply H; try lia. destruct data; [done|cbn [length] in Hv; lia].
    + rewrite decode_data by lia. do 3 f_equal. lia.
Qed.

(** Decoding inverts the wire format. *)
Lemma decode_wire w l : wire w l -> decode (mkBin false 0 0) w = Some (mkBin false 0 0, l).
Proof.
  induction 1 as [|i s w l Hi Hw IH]; [done|].
  eapply decode_join; [by apply decode_wire_item|done].
Qed.

(** ** Counting messages *)

Definition msg_trigger (m : MsgState) : MsgState :=
  if decide (ms_handling m = HandleMsgIdle)
  then ms_set_handling HandleMsgTriggered (ms_add_events 1 m) else m.

Definition msg_new (m : MsgState) : MsgState := msg_trigger (ms_set_count (ms_count m + 1) m).

(** The effect of one decoded symbol. *)
Definition msg_note (m : MsgState) (x : Z) : MsgState :=
  if x =? MARKER_EOM then if ms_long m then ms_set_long false m else msg_new m else m.

Definition msg_notes (l : list Z) (m : MsgState) : MsgState := fold_left msg_note l m.

(** The number of end of message marks. *)
Definition eoms (l : list Z) : Z := Z.of_nat (length (filter (fun x => x = MARKER_EOM) l)).

Lemma eoms_app l k : eoms (l ++ k) = eoms l + eoms k.
Proof. unfold eoms. rewrite filter_app, length_app. lia. Qed.

Lemma eoms_nonneg l : 0 <= eoms l.
Proof. unfold eoms. lia. Qed.

Lemma eoms_cons x l : eoms (x :: l) = (if x =? MARKER_EOM then 1 else 0) + eoms l.
Proof.
  unfold eoms. rewrite filter_cons. destruct (Z.eqb_spec x MARKER_EOM); case_decide; try done.
  cbn [length]. lia.
Qed.

Lemma eoms_bytes l : bytes l -> eoms l = 0.
Proof.
  induction 1 as [|x l Hx Hl IH]; [done|]. rewrite eoms_cons, IH.
  destruct (Z.eqb_spec x MARKER_EOM); [|done]. unfold is_byte, MARKER_EOM in *. lia.
Qed.

(** What the message state satisfies between any two operations of an open connection. *)
Definition msg_ok (m : MsgState) : Prop :=
  ms_eof m = false /\ 0 <= ms_count m /\ (ms_long m = true -> ms_count m = 1) /\
  (ms_handling m = HandleMsgIdle <-> ms_count m = 0) /\
  ms_events m = (if decide (ms_handling m = HandleMsgTriggered) then 1 else 0).

(** Messages counted but not complete. *)
Definition long_count (m : MsgState) : Z := if ms_long m then 1 else 0.

(** [m2] is [m1] after [n] more ends of messages arrived. *)
Definition msg_later (n : Z) (m1 m2 : MsgState) : Prop :=
  msg_ok m2 /\ ms_count m2 - long_count m2 = ms_count m1 - long_count m1 + n /\
  ms_count m1 <= ms_count m2 /\
  (ms_handling m1 = HandleMsgActive -> ms_handling m2 = HandleMsgActive) /\
  (ms_handling m1 <> HandleMsgActive -> ms_handling m2 <> HandleMsgActive).

Ltac msg_solve :=
  repeat case_decide; simplify_eq; cbn in *; unfold msg_ok in *; cbn in *;
  repeat case_decide; simplify_eq; split_and!; try (split; intros; (done || lia || congruence));
  intros; try done; try lia; try congruence.

Lemma msg_later_refl m : msg_ok m -> msg_later 0 m m.
Proof. intros. unfold msg_later. split; [done|]. split; [lia|]. split; [lia|]. done. Qed.

Lemma msg_later_trans n1 n2 m1 m2 m3 :
  msg_later n1 m1 m2 -> msg_later n2 m2 m3 -> msg_later (n1 + n2) m1 m3.
Proof.
  intros (H1 & H2 & H3 & H4 & H5) (K1 & K2 & K3 & K4 & K5). unfold msg_later.
  split; [done|]. split; [lia|]. split; [lia|]. split; auto.
Qed.

Lemma msg_new_later m : msg_ok m -> ms_long m = false -> msg_later 1 m (msg_new m).
Proof.
  destruct m as [eof lng cnt h ev]. unfold msg_ok, msg_later, msg_new, msg_trigger, long_count. cbn.
  intros (He & Hc & Hl & Hi & Hev) Hlong. subst. destruct h; msg_solve.
Qed.

Lemma msg_note_later m x : msg_ok m -> msg_later (eoms [x]) m (msg_note m x).
Proof.
  intros Hm. rewrite eoms_cons. unfold msg_note. destruct (Z.eqb_spec x MARKER_EOM); [|by apply msg_later_refl].
  destruct (ms_long m) eqn:El; [|by apply msg_new_later].
  destruct m as [eof lng cnt h ev]. revert Hm. unfold msg_ok, msg_later, long_count. cbn in *. subst.
  intros (He & Hc & Hl & Hi & Hev). specialize (Hl eq_refl).
  split; [|split; [|split; [|done]]]; [|unfold eoms; cbn; lia|lia].
  unfold msg_ok. cbn. split_and!; intros; try done; auto.
Qed.

Lemma msg_notes_later l m : msg_ok m -> msg_later (eoms l) m (msg_notes l m).
Proof.
  revert m. induction l as [|x l IH]; intros m Hm; cbn [msg_notes fold_left]; [by apply msg_later_refl|].
  pose proof (msg_note_later m x Hm) as H. rewrite (eoms_app [x] l : eoms (x :: l) = _).
  eapply msg_later_trans; [exact H|]. apply IH, H.
Qed.

(** The message that does not fit into the buffer is counted before its end. *)
Lemma msg_long_later m :
  msg_ok m -> ms_count m = 0 -> msg_later 0 m (msg_new (ms_set_long true m)).
Proof.
  destruct m as [eof lng cnt h ev]. unfold msg_ok, msg_later, msg_new, msg_trigger, long_count. cbn.
  intros (He & Hc & Hl & Hi & Hev) H0. subst.
  destruct lng; [specialize (Hl eq_refl); lia|].
  destruct h; msg_solve.
Qed.

Lemma set_msg_id s : set_msg (fun m => m) s = s.
Proof. by destruct s. Qed.

Lemma trigger_runs s :
  0 < ms_count (ib_msg s) -> runs tcp_trigger_message s tt (set_msg msg_trigger s).
Proof.
  intros H. unfold runs, tcp_trigger_message, bind, gets, cassert.
  rewrite (proj2 (Z.ltb_lt _ _) H). unfold msg_trigger, set_msg. cbn.
  case_decide; [done|]. unfold ret. by destruct s.
Qed.

Lemma new_message_runs s :
  0 <= ms_count (ib_msg s) -> runs ibuf_new_message s tt (set_msg msg_new s).
Proof.
  intros H. unfold ibuf_new_message. eapply runs_bind; [apply runs_modify|].
  pose proof (trigger_runs (set_msg (fun m => ms_set_count (ms_count m + 1) m) s)) as Ht. cbn in Ht.
  specialize (Ht ltac:(lia)). exact Ht.
Qed.

(** The branch of [ibuf_read_done] for [ESC 1]. *)
Lemma note_eom_runs s :
  msg_ok (ib_msg s) ->
  runs (let! m := gets ib_msg in
        if ms_long m then modify (set_msg (ms_set_long false)) ;! cassert (ms_count m =? 1)
        else ibuf_new_message) s tt (set_msg (fun m => msg_note m MARKER_EOM) s).
Proof.
  intros (He & Hc & Hl & _). eapply runs_bind; [apply runs_gets|]. unfold msg_note, set_msg.
  destruct (ms_long (ib_msg s)) eqn:E.
  - eapply runs_bind; [apply runs_modify|]. apply runs_cassert. by rewrite (Hl eq_refl).
  - pose proof (new_message_runs s Hc) as H. exact H.
Qed.

(** ** Scanning new data *)

Notation no_eos := (Forall (fun x => x <> MARKER_EOS)).

Lemma msg_notes_bytes l m : bytes l -> msg_notes l m = m.
Proof.
  intros Hl. revert m. induction Hl as [|x l Hx Hl IH]; intros m; cbn [msg_notes fold_left]; [done|].
  assert (msg_note m x = m) as ->; [|apply IH].
  unfold msg_note. destruct (Z.eqb_spec x MARKER_EOM); [unfold is_byte, MARKER_EOM in *; lia|done].
Qed.

Lemma msg_notes_app l k m : msg_notes (l ++ k) m = msg_notes k (msg_notes l m).
Proof. apply fold_left_app. Qed.

Definition scanned (d : BinState) (l : list Z) (s : InputBuf) : InputBuf :=
  set_inp_state d (set_msg (msg_notes l) s).

Lemma scanned_scanned d1 l1 d2 l2 s : scanned d2 l2 (scanned d1 l1 s) = scanned d2 (l1 ++ l2) s.
Proof. unfold scanned, set_inp_state, set_msg. cbn. by rewrite msg_notes_app. Qed.

(** Bytes of binary data the scan skips are data for the decoder too. *)
Lemma decode_skip d x y d2 l :
  bs_mode d = 0 -> 0 < bs_size d -> x <> [] -> Z.of_nat (length x) <= bs_size d ->
  decode d (x ++ y) = Some (d2, l) ->
  bs_esc d = false /\
  exists l2, decode (mkBin (bs_esc d) (bs_mode d) (bs_size d - Z.of_nat (length x))) y = Some (d2, l2) /\
    l = x ++ l2.
Proof.
  destruct d as [e m n]. cbn [bs_mode bs_size bs_esc]. intros -> Hn Hx Hl Hd.
  assert (e = false) as ->.
  { destruct e; [|done]. destruct x as [|b x]; [done|]. cbn in Hd. unfold dec_step in Hd. cbn in Hd.
    by rewrite (proj2 (Z.ltb_lt _ _) Hn) in Hd. }
  split; [done|]. apply decode_app in Hd as (d1 & l1 & l2 & H1 & H2 & ->).
  rewrite decode_data in H1 by done. simplify_eq. eauto.
Qed.

(** One byte outside of sizes and data: what the body of the loop does with it. *)
Lemma scan_byte_runs s ch d1 o (next : B Z) a s' :
  bs_mode (ib_inp s) = 0 -> bs_size (ib_inp s) <= 0 -> is_byte ch -> msg_ok (ib_msg s) ->
  dec_step (ib_inp s) ch = Some (d1, o) -> no_eos o ->
  runs next (scanned d1 o s) a s' ->
  runs (let d := ib_inp s in
        if bs_esc d then
          modify (set_inp_state (mkBin false (bs_mode d) (bs_size d))) ;!
          (if ch =? 0 then ret tt
           else if ch =? 1 then
             let! m := gets ib_msg in
             if ms_long m then
               modify (set_msg (ms_set_long false)) ;! cassert (ms_count m =? 1)
             else ibuf_new_message
           else if ch =? 2 then ibuf_eof
           else if ch =? 3 then modify (set_inp_state (mkBin false 1 0))
           else ibuf_eof) ;!
          next
        else if ch =? ESC then
          modify (set_inp_state (mkBin true (bs_mode d) (bs_size d))) ;! next
        else next) s a s'.
Proof.
  intros Hmode Hsize Hb Hm Hstep Ho Hn. cbn zeta. unfold dec_step in Hstep. rewrite Hmode in *.
  destruct (Z.ltb_spec 0 (bs_size (ib_inp s))); [lia|]. cbn [Z.eqb negb] in Hstep.
  destruct (bs_esc (ib_inp s)) eqn:Ee.
  - eapply runs_bind; [apply runs_modify|].
    destruct (Z.eqb_spec ch 0); [simplify_eq; eapply runs_bind; [apply runs_ret|exact Hn]|].
    destruct (Z.eqb_spec ch 1).
    { simplify_eq. eapply runs_bind; [|exact Hn]. by apply note_eom_runs. }
    destruct (Z.eqb_spec ch 2).
    { simplify_eq. by apply Forall_cons in Ho as [Ho _]. }
    destruct (Z.eqb_spec ch 3); [|done]. simplify_eq.
    eapply runs_bind; [apply runs_modify|exact Hn].
  - destruct (Z.eqb_spec ch ESC); simplify_eq.
    + eapply runs_bind; [apply runs_modify|exact Hn].
    + assert (E : scanned (mkBin false 0 (bs_size (ib_inp s))) [ch] s = s).
      { unfold scanned, set_inp_state, set_msg. cbn. unfold msg_note.
        destruct (Z.eqb_spec ch MARKER_EOM); [unfold is_byte, MARKER_EOM in *; lia|].
        destruct s as [r [e m n1] od ms rq nt]. cbn in *. by subst. }
      by rewrite E in Hn.
Qed.

Lemma read_done_loop_runs fuel s p len d' syms :
  bytes (rb_buf (ib_ring s)) -> 0 <= p -> 0 < len -> p + len <= rb_size (ib_ring s) ->
  decode (ib_inp s) (slice (rb_buf (ib_ring s)) p (p + len)) = Some (d', syms) -> no_eos syms ->
  msg_ok (ib_msg s) -> (Z.to_nat len < fuel)%nat ->
  runs (read_done_loop fuel p len) s (wrap_ptr (ib_ring s) (p + len)) (scanned d' syms s).
Proof.
  revert s p len d' syms. induction fuel as [|fuel IH]; intros s p len d' syms Hbuf Hp Hlen Hsz Hd He Hm Hf;
    [lia|].
  assert (Hend : forall q (s1 : InputBuf), ib_ring s1 = ib_ring s ->
    runs (read_done_loop fuel q 0) s1 q s1) by (intros; destruct fuel; [lia|done]).
  cbn [read_done_loop]. destruct (Z.leb_spec len 0); [lia|].
  eapply runs_bind; [apply runs_gets|]. eapply runs_bind; [apply runs_gets|].
  (* the rest of the data after [n] bytes *)
  assert (Hrest : forall n d1 l1 l2, 0 < n <= len -> msg_ok (ib_msg (scanned d1 l1 s)) ->
    decode d1 (slice (rb_buf (ib_ring s)) (p + n) (p + len)) = Some (d', l2) -> no_eos l2 ->
    runs (read_done_loop fuel (wrap_ptr (ib_ring s) (p + n)) (len - n)) (scanned d1 l1 s)
      (wrap_ptr (ib_ring s) (p + len)) (scanned d' (l1 ++ l2) s)).
  { intros n d1 l1 l2 Hn Hm1 Hd1 Hl2. rewrite <- (scanned_scanned d1).
    destruct (Z.eqb_spec n len) as [->|Hne].
    - rewrite slice_nil in Hd1 by lia. cbn in Hd1. simplify_eq. rewrite Z.sub_diag.
      rewrite scanned_scanned, (right_id_L [] (++)). by apply Hend.
    - assert (Hw : wrap_ptr (ib_ring s) (p + n) = p + n).
      { unfold wrap_ptr. destruct (Z.eqb_spec (p + n) (rb_size (ib_ring s))); lia. }
      rewrite Hw. replace (p + len) with (p + n + (len - n)) by lia.
      apply (IH (scanned d1 l1 s)); cbn [scanned set_inp_state set_msg ib_ring ib_inp ib_msg]; try done; try lia.
      by replace (p + n + (len - n)) with (p + len) by lia. }
  destruct (lookup_lt_is_Some_2 (rb_buf (ib_ring s)) (Z.to_nat p)) as (ch & Hch);
    [unfold rb_size in *; lia|].
  assert (Hb : is_byte ch) by (by eapply Forall_lookup_1).
  assert (Hload : forall s1, ib_ring s1 = ib_ring s -> runs (load p) s1 ch s1).
  { intros s1 E. apply load_runs; [lia|rewrite E; lia|by rewrite E]. }
  pose proof (slice_cons _ p (p + len) ch ltac:(lia) Hch) as Hsl.
  destruct (Z.eqb_spec (bs_mode (ib_inp s)) 0) as [Hmode|Hmode]; cbn [negb].
  - destruct (Z.ltb_spec 0 (bs_size (ib_inp s))) as [Hs|Hs].
    + (* binary data *)
      set (n := if bs_size (ib_inp s) <? len then bs_size (ib_inp s) else len).
      assert (Hn : 0 < n <= len /\ n <= bs_size (ib_inp s)).
      { unfold n. destruct (Z.ltb_spec (bs_size (ib_inp s)) len); lia. }
      clearbody n. rewrite (slice_split _ p (p + n)) in Hd by lia.
      assert (Hln : Z.of_nat (length (slice (rb_buf (ib_ring s)) p (p + n))) = n).
      { rewrite slice_length; unfold rb_size in *; lia. }
      apply decode_skip in Hd as (Hesc & l2 & Hd2 & ->); [|done|done| |lia].
      2:{ intros E. rewrite E in Hln. cbn [length] in Hln. lia. }
      rewrite Hln in Hd2. rewrite Hesc in *. eapply runs_bind; [by apply runs_cassert|].
      eapply runs_bind; [apply runs_modify|].
      replace (if rb_size (ib_ring s) <=? p + n then p + n - rb_size (ib_ring s) else p + n)
        with (wrap_ptr (ib_ring s) (p + n)).
      2:{ unfold wrap_ptr. destruct (Z.eqb_spec (p + n) (rb_size (ib_ring s)));
          destruct (Z.leb_spec (rb_size (ib_ring s)) (p + n)); lia. }
      apply Forall_app_inv in He as [_ He].
      set (d1 := mkBin false (bs_mode (ib_inp s)) (bs_size (ib_inp s) - n)) in *.
      assert (E : set_inp_state d1 s = scanned d1 (slice (rb_buf (ib_ring s)) p (p + n)) s).
      { unfold scanned, set_inp_state, set_msg. cbn.
        by rewrite msg_notes_bytes by (by apply slice_bytes). }
      rewrite E. apply Hrest; [lia| |done|done]. rewrite <- E. done.
    + (* plain data and escapes *)
      rewrite Hsl in Hd. cbn [decode] in Hd.
      destruct (dec_step (ib_inp s) ch) as [[d1 o]|] eqn:Est; [|done].
      destruct (decode d1 (slice (rb_buf (ib_ring s)) (p + 1) (p + len))) as [[d2 l2]|] eqn:Ed2; [|done].
      simplify_eq. apply Forall_app_inv in He as [Ho He].
      eapply runs_bind; [by apply Hload|].
      eapply (scan_byte_runs s ch d1 o); try done.
      apply Hrest; [lia| |done|done]. apply msg_notes_later. done.
  - (* size *)
    rewrite Hsl in Hd. cbn [decode] in Hd. unfold dec_step in Hd.
    destruct (Z.eqb_spec (bs_mode (ib_inp s)) 0); [done|]. cbn [negb] in Hd.
    destruct (bs_esc (ib_inp s)) eqn:Ee; [done|]. eapply runs_bind; [by apply runs_cassert|].
    eapply runs_bind; [by apply Hload|].
    destruct (size_byte (ib_inp s) ch) as [d1|]; [|done].
    destruct ((bs_mode d1 =? 0) && (bs_size d1 =? 0)); [done|].
    destruct (decode d1 (slice (rb_buf (ib_ring s)) (p + 1) (p + len))) as [[d2 l2]|] eqn:Ed2; [|done].
    simplify_eq. eapply runs_bind; [apply runs_modify|].
    apply (Hrest 1 d1 [] l2); [lia|done|done|done].
Qed.

(** ** Free space and read requests *)

(** The window lies inside the contiguous data at [cur]. *)
Definition win_ok (r : Ring) : Prop :=
  rb_cur r <= rb_end r <= (if rb_cur r <=? rb_inp r then rb_inp r else rb_size r).

(** What [ibuf_free_size] relies on. *)
Definition cur_ok (r : Ring) : Prop := rb_cur r = rb_size r -> rb_end r = rb_size r.

Definition ring_free (r : Ring) : Z :=
  Z.min (rb_size r - rb_inp r) (rb_size r - 1 - Z.of_nat (length (ring_data r (rb_cur r)))).

Definition norm_ring (r : Ring) : Ring :=
  if rb_cur r =? rb_size r then rb_set_cur 0 (rb_set_end 0 r) else r.

(** [r2] is [r1] after [x] was read from the socket. *)
Definition fed (x : list Z) (r1 r2 : Ring) : Prop :=
  ring_ok r2 /\ cur_ok r2 /\ ring_data r2 (rb_cur r2) = ring_data r1 (rb_cur r1) ++ x /\
  (win_ok r1 -> win_ok r2 /\
     slice (rb_buf r2) (rb_cur r2) (rb_end r2) = slice (rb_buf r1) (rb_cur r1) (rb_end r1) /\
     ring_data r2 (rb_end r2) = ring_data r1 (rb_end r1) ++ x).

Lemma win_cur_ok r : ring_ok r -> win_ok r -> cur_ok r.
Proof.
  intros (Hs & Hi & Hc & _) Hw E. unfold win_ok in Hw.
  destruct (Z.leb_spec (rb_cur r) (rb_inp r)); lia.
Qed.

Lemma ring_data_ext r1 r2 a :
  rb_buf r1 = rb_buf r2 -> rb_inp r1 = rb_inp r2 -> ring_data r1 a = ring_data r2 a.
Proof. intros E1 E2. unfold ring_data, rb_size. by rewrite E1, E2. Qed.

Lemma norm_ring_size r : rb_size (norm_ring r) = rb_size r.
Proof. unfold norm_ring. by destruct_if. Qed.

Lemma norm_ring_fed r : ring_ok r -> cur_ok r -> fed [] r (norm_ring r).
Proof.
  intros Hr Hc. unfold fed. rewrite !(right_id_L [] (++)). unfold norm_ring.
  destruct (Z.eqb_spec (rb_cur r) (rb_size r)) as [E|E]; [|by split_and!; try done].
  pose proof (Hc E) as E2. pose proof (ring_data_wrap r (rb_size r) Hr) as Hw.
  unfold wrap_ptr in Hw. rewrite Z.eqb_refl in Hw.
  assert (Hd : ring_data (rb_set_cur 0 (rb_set_end 0 r)) 0 = ring_data r (rb_size r))
    by (rewrite <- Hw; by apply ring_data_ext).
  pose proof Hr as (Hs & Hi & _ & Hb). split_and!.
  - unfold ring_ok, rb_size in *. cbn. split_and!; done || lia.
  - intros ?. cbn in *. unfold rb_size in *. cbn in *. lia.
  - cbn [rb_set_cur rb_cur]. by rewrite Hd, E.
  - intros _. split_and!.
    + unfold win_ok. cbn. destruct (Z.leb_spec 0 (rb_inp r)); lia.
    + rewrite !slice_nil; [done|lia|cbn; lia].
    + cbn [rb_set_cur rb_set_end rb_end]. by rewrite Hd, E2.
Qed.

Lemma fed_trans x y r1 r2 r3 : fed x r1 r2 -> fed y r2 r3 -> fed (x ++ y) r1 r3.
Proof.
  intros (H1 & H2 & H3 & H4) (K1 & K2 & K3 & K4). split; [done|]. split; [done|].
  rewrite !(assoc_L (++)). split; [by rewrite K3, H3|]. intros Hw.
  destruct (H4 Hw) as (W1 & W2 & W3). destruct (K4 W1) as (V1 & V2 & V3).
  split; [done|]. by rewrite V2, W2, V3, W3.
Qed.

Lemma free_size_runs s :
  ring_ok (ib_ring s) -> cur_ok (ib_ring s) -> ms_eof (ib_msg s) = false ->
  runs ibuf_free_size s (ring_free (ib_ring s)) (set_ring norm_ring s).
Proof.
  intros Hr Hc He. pose proof (norm_ring_fed _ Hr Hc) as (Hr' & _ & Hd & _).
  rewrite (right_id_L [] (++)) in Hd.
  unfold ibuf_free_size. eapply runs_bind; [apply runs_gets|]. rewrite He.
  eapply runs_bind; [apply runs_gets|].
  apply (runs_bind _ _ _ tt (set_ring norm_ring s)).
  { unfold norm_ring, set_ring. destruct (Z.eqb_spec (rb_cur (ib_ring s)) (rb_size (ib_ring s))) as [E|E].
    - eapply runs_bind; [apply runs_cassert; rewrite (Hc E), E; apply Z.eqb_refl|done].
    - by destruct s. }
  eapply runs_bind; [apply runs_gets|]. cbn [set_ring ib_ring].
  unfold ring_free. rewrite <- Hd, <- (norm_ring_size (ib_ring s)).
  assert (Hi : rb_inp (ib_ring s) = rb_inp (norm_ring (ib_ring s))) by (unfold norm_ring; by destruct_if).
  rewrite Hi. pose proof (ring_data_length _ (rb_cur (norm_ring (ib_ring s))) Hr') as HL.
  assert (Hne : rb_cur (norm_ring (ib_ring s)) <> rb_size (norm_ring (ib_ring s))).
  { destruct Hr as (? & _). rewrite norm_ring_size. unfold norm_ring.
    destruct (Z.eqb_spec (rb_cur (ib_ring s)) (rb_size (ib_ring s))); cbn; lia. }
  destruct Hr' as (Hs & Hin & Hcu & _). rewrite HL by lia.
  eapply runs_bind; [apply runs_cassert; apply andb_true_iff; lia|].
  destruct (Z.leb_spec (rb_cur (norm_ring (ib_ring s))) (rb_inp (norm_ring (ib_ring s)))).
  - replace (Z.min _ _) with
      (if rb_cur (norm_ring (ib_ring s)) =? 0
       then rb_size (norm_ring (ib_ring s)) - rb_inp (norm_ring (ib_ring s)) - 1
       else rb_size (norm_ring (ib_ring s)) - rb_inp (norm_ring (ib_ring s))); [apply runs_ret|].
    destruct (Z.eqb_spec (rb_cur (norm_ring (ib_ring s))) 0); lia.
  - replace (Z.min _ _) with (rb_cur (norm_ring (ib_ring s)) - rb_inp (norm_ring (ib_ring s)) - 1) by lia.
    apply runs_ret.
Qed.

(** The request after [ibuf_trigger_read]. *)
Definition posted (s : InputBuf) : option (Z * Z) :=
  match ib_req s with
  | Some q => Some q
  | None => if 0 <? ring_free (ib_ring s) then Some (rb_inp (ib_ring s), ring_free (ib_ring s)) else None
  end.

Definition triggered (s : InputBuf) : InputBuf := set_req (posted s) (set_ring norm_ring s).

Lemma norm_ring_inp r : rb_inp (norm_ring r) = rb_inp r.
Proof. unfold norm_ring. by destruct_if. Qed.

Lemma norm_ring_idem r : 2 <= rb_size r -> norm_ring (norm_ring r) = norm_ring r.
Proof.
  intros H. unfold norm_ring at 1. destruct (Z.eqb_spec (rb_cur (norm_ring r)) (rb_size (norm_ring r))) as [E|E];
    [|done]. rewrite norm_ring_size in E. unfold norm_ring in E.
  destruct (Z.eqb_spec (rb_cur r) (rb_size r)); cbn in E; lia.
Qed.

Lemma ring_free_norm r : ring_ok r -> cur_ok r -> ring_free (norm_ring r) = ring_free r.
Proof.
  intros Hr Hc. pose proof (norm_ring_fed r Hr Hc) as (_ & _ & Hd & _).
  rewrite (right_id_L [] (++)) in Hd. unfold ring_free. by rewrite norm_ring_size, norm_ring_inp, Hd.
Qed.

Lemma trigger_read_runs s :
  ring_ok (ib_ring s) -> cur_ok (ib_ring s) -> ms_eof (ib_msg s) = false -> req_ok (ib_ring s) (ib_req s) ->
  runs ibuf_trigger_read s tt (triggered s).
Proof.
  intros Hr Hc He Hq. unfold ibuf_trigger_read. eapply runs_bind; [by apply free_size_runs|].
  unfold triggered, posted.
  destruct (Z.ltb_spec 0 (ring_free (ib_ring s))) as [Hf|Hf].
  - eapply runs_bind; [apply runs_gets|]. cbn [set_ring ib_ring]. rewrite norm_ring_inp, norm_ring_size.
    eapply runs_bind; [apply runs_cassert; apply Z.leb_le; unfold ring_free in *; lia|].
    unfold tcp_post_read. eapply runs_bind; [apply runs_gets|]. cbn [set_ring ib_req].
    destruct (ib_req s) eqn:E; [|apply runs_modify]. unfold set_req, set_ring. cbn. rewrite <- E. apply runs_ret.
  - destruct (ib_req s) eqn:E; unfold set_req, set_ring; cbn; rewrite <- E; apply runs_ret.
Qed.

(** A request stays valid when the reader moves on, and a posted one is valid. *)
Lemma req_ok_mono r1 r2 q :
  rb_inp r2 = rb_inp r1 -> rb_size r2 = rb_size r1 ->
  (length (ring_data r2 (rb_cur r2)) <= length (ring_data r1 (rb_cur r1)))%nat ->
  req_ok r1 q -> req_ok r2 q.
Proof. destruct q as [[p n]|]; [|done]. cbn. intros -> -> Hl (-> & ? & ? & ?). lia. Qed.

Lemma triggered_req_ok s :
  ring_ok (ib_ring s) -> cur_ok (ib_ring s) -> req_ok (ib_ring s) (ib_req s) ->
  req_ok (ib_ring (triggered s)) (ib_req (triggered s)) /\
  (ib_req (triggered s) = None -> ring_free (ib_ring s) <= 0).
Proof.
  intros Hr Hc Hq. pose proof (norm_ring_fed _ Hr Hc) as (_ & _ & Hd & _).
  rewrite (right_id_L [] (++)) in Hd. unfold triggered, posted. cbn [set_req set_ring ib_ring ib_req].
  destruct (ib_req s) as [q|] eqn:E.
  - split; [|done]. eapply req_ok_mono; [apply norm_ring_inp|apply norm_ring_size| |exact Hq].
    by rewrite Hd.
  - destruct (Z.ltb_spec 0 (ring_free (ib_ring s))); [|by split; [|lia]]. split; [|done].
    unfold req_ok. rewrite norm_ring_inp, norm_ring_size, Hd. unfold ring_free in *. lia.
Qed.

(** ** Completion of a read *)

Lemma grow_ring_fed r :
  ring_ok r -> rb_cur r <> rb_size r -> ring_free r = 0 -> fed [] r (grow_ring r).
Proof.
  intros Hr Hne Hf. pose proof Hr as (Hs & Hi & Hc & Hb). unfold fed. rewrite !(right_id_L [] (++)).
  assert (Hfull : Z.of_nat (length (ring_data r (rb_cur r))) = rb_size r - 1) by (unfold ring_free in Hf; lia).
  split; [by apply grow_ring_ok|]. split; [intros E; rewrite grow_ring_size in E; cbn in E; lia|].
  split; [change (rb_cur (grow_ring r)) with 0; rewrite grow_ring_data by
    (done || lia || destruct (Z.leb_spec (rb_cur r) (rb_inp r)); lia); f_equal; lia|].
  intros [Hw1 Hw2]. change (rb_cur (grow_ring r)) with 0.
  change (rb_end (grow_ring r)) with (rb_end r - rb_cur r).
  assert (Hdata : forall n, 0 <= n <= rb_end r - rb_cur r ->
    ring_data (grow_ring r) n = ring_data r (rb_cur r + n)).
  { intros n Hn. apply grow_ring_data; try done; lia. }
  assert (Hlen : rb_end r - rb_cur r <= rb_size r - 1).
  { destruct (Z.leb_spec (rb_cur r) (rb_inp r)); [lia|].
    rewrite ring_data_length in Hfull by (done || lia).
    destruct (Z.leb_spec (rb_cur r) (rb_inp r)); lia. }
  split_and!.
  - unfold win_ok. cbn. destruct (Z.leb_spec 0 (rb_size r - 1)); lia.
  - pose proof (Hdata 0 ltac:(lia)) as H0. rewrite Z.add_0_r in H0.
    rewrite (ring_data_run (grow_ring r) 0 (rb_end r - rb_cur r)) in H0;
      [|by apply grow_ring_ok|lia|cbn; destruct (Z.leb_spec 0 (rb_size r - 1)); lia].
    rewrite (ring_data_run r (rb_cur r) (rb_end r) Hr) in H0 by lia.
    rewrite Hdata in H0 by lia. replace (rb_cur r + (rb_end r - rb_cur r)) with (rb_end r) in H0 by lia.
    by apply app_inj_2 in H0 as [? _].
  - rewrite Hdata by lia. f_equal. lia.
Qed.

Lemma norm_ring_cur r : 2 <= rb_size r -> rb_cur (norm_ring r) <> rb_size (norm_ring r).
Proof.
  intros. rewrite norm_ring_size. unfold norm_ring. destruct (Z.eqb_spec (rb_cur r) (rb_size r)); cbn; lia.
Qed.

Lemma ring_push_fed x r :
  ring_ok r -> cur_ok r -> bytes x -> rb_inp r + Z.of_nat (length x) <= rb_size r ->
  Z.of_nat (length (ring_data r (rb_cur r))) + Z.of_nat (length x) <= rb_size r - 1 ->
  fed x r (ring_push x r).
Proof.
  intros Hr Hco Hx Hl Hd. pose proof Hr as (Hs & Hi & Hc & Hb). unfold fed.
  split; [by apply ring_push_ok|].
  split; [unfold cur_ok; rewrite ring_push_size by done; exact Hco|].
  split; [apply ring_push_data; done || lia|]. intros [Hw1 Hw2]. cbn [ring_push rb_cur rb_end].
  pose proof (ring_data_length r (rb_cur r) Hr ltac:(lia)) as HL. rewrite HL in Hd.
  pose proof (ring_push_size x r Hr Hl) as Hsz.
  split_and!.
  - unfold win_ok. rewrite Hsz. cbn [ring_push rb_cur rb_end rb_inp]. unfold wrap_ptr.
    destruct (Z.leb_spec (rb_cur r) (rb_inp r));
      destruct (Z.eqb_spec (rb_inp r + Z.of_nat (length x)) (rb_size r));
      repeat match goal with
      | |- context [?a <=? ?b] => destruct (Z.leb_spec a b)
      end; lia.
  - cbn [rb_buf]. destruct (Z.leb_spec (rb_cur r) (rb_inp r)).
    + apply slice_overwrite_before; unfold rb_size in *; lia.
    + apply slice_overwrite_after; unfold rb_size in *; lia.
  - apply ring_push_data; try done; [destruct (Z.leb_spec (rb_cur r) (rb_inp r)); lia|].
    assert (0 <= rb_end r <= rb_size r) by (destruct (Z.leb_spec (rb_cur r) (rb_inp r)); lia).
    rewrite ring_data_length by done.
    destruct (Z.leb_spec (rb_cur r) (rb_inp r)); destruct (Z.leb_spec (rb_end r) (rb_inp r)); lia.
Qed.

(** The end of [ibuf_read_done]: growing, the next request, or the start of a long message. *)
Definition read_done_tail : B unit :=
  let! m := gets ib_msg in
  (if negb (ms_eof m) then
     let! free := ibuf_free_size in
     let! r := gets ib_ring in
     if (free =? 0) && (rb_size r <? MAX_BUF_SIZE) then modify (set_ring grow_ring) else ret tt
   else ret tt) ;!
  let! free := ibuf_free_size in
  if 0 <? free then ibuf_trigger_read
  else
    let! m := gets ib_msg in
    if ms_count m =? 0 then
      modify (set_msg (ms_set_long true)) ;! ibuf_new_message
    else ret tt.

(** The states differ in the ring, the message counter and the request only. *)
Definition same_dec (s1 s2 : InputBuf) : Prop :=
  ib_inp s2 = ib_inp s1 /\ ib_out s2 = ib_out s1 /\ ib_net s2 = ib_net s1.

Lemma ring_free_nonneg r : ring_ok r -> 0 <= ring_free r.
Proof.
  intros Hr. unfold ring_free. rewrite ring_data_length by (done || destruct Hr as (?&?&?&?); lia).
  destruct Hr as (?&?&?&?). destruct (Z.leb_spec (rb_cur r) (rb_inp r)); lia.
Qed.

Lemma read_done_tail_runs s :
  ring_ok (ib_ring s) -> cur_ok (ib_ring s) -> msg_ok (ib_msg s) -> ib_req s = None ->
  exists s', runs read_done_tail s tt s' /\ fed [] (ib_ring s) (ib_ring s') /\ same_dec s s' /\
    msg_later 0 (ib_msg s) (ib_msg s') /\ req_ok (ib_ring s') (ib_req s') /\
    (ib_req s' = None -> 0 < ms_count (ib_msg s')).
Proof.
  intros Hr Hc Hm Hq. pose proof (proj1 Hm) as He.
  pose proof (norm_ring_fed _ Hr Hc) as Hn. pose proof Hn as (Hr1 & Hc1 & _).
  (* the state after growing *)
  assert (exists r, fed [] (ib_ring s) r /\ rb_cur r <> rb_size r /\
    runs (if negb (ms_eof (ib_msg s)) then
            let! free := ibuf_free_size in
            let! r := gets ib_ring in
            if (free =? 0) && (rb_size r <? MAX_BUF_SIZE) then modify (set_ring grow_ring) else ret tt
          else ret tt) s tt (set_ring (fun _ => r) s)) as (r & Hfed & Hne & Hrun).
  { rewrite He. cbn [negb].
    pose proof (norm_ring_cur (ib_ring s) (proj1 Hr)) as Hne.
    pose proof (free_size_runs s Hr Hc He) as Hfree.
    destruct ((ring_free (ib_ring s) =? 0) && (rb_size (norm_ring (ib_ring s)) <? MAX_BUF_SIZE)) eqn:E.
    - exists (grow_ring (norm_ring (ib_ring s))). bool_to_prop. split_and!.
      + apply (fed_trans [] [] _ _ _ Hn). apply grow_ring_fed; [done|done|].
        by rewrite ring_free_norm.
      + rewrite grow_ring_size. cbn. destruct Hr1. lia.
      + eapply runs_bind; [exact Hfree|]. eapply runs_bind; [apply runs_gets|]. cbn [set_ring ib_ring].
        rewrite (proj2 (Z.eqb_eq _ _) H), (proj2 (Z.ltb_lt _ _) H0). done.
    - exists (norm_ring (ib_ring s)). split_and!; [done|done|].
      eapply runs_bind; [exact Hfree|]. eapply runs_bind; [apply runs_gets|]. cbn [set_ring ib_ring].
      by rewrite E. }
  pose proof Hfed as (Hr2 & Hc2 & _).
  pose proof (norm_ring_fed r Hr2 Hc2) as Hn2.
  assert (Hnorm : norm_ring r = r) by (unfold norm_ring; by destruct (Z.eqb_spec (rb_cur r) (rb_size r))).
  set (s2 := set_ring (fun _ => r) s) in *.
  pose proof (free_size_runs s2 Hr2 Hc2 He) as Hfree.
  assert (set_ring norm_ring s2 = s2) as E2 by (unfold s2, set_ring; cbn; by rewrite Hnorm). rewrite E2 in Hfree.
  change (ib_ring s2) with r in Hfree.
  assert (Hstart : forall s', runs (if 0 <? ring_free r then ibuf_trigger_read
      else let! m := gets ib_msg in
           if ms_count m =? 0 then modify (set_msg (ms_set_long true)) ;! ibuf_new_message
           else ret tt) s2 tt s' -> runs read_done_tail s tt s').
  { intros s' H. unfold read_done_tail. eapply runs_bind; [apply runs_gets|].
    eapply runs_bind; [exact Hrun|]. eapply runs_bind; [exact Hfree|exact H]. }
  destruct (Z.ltb_spec 0 (ring_free r)) as [Hf|Hf].
  - exists (triggered s2). destruct (triggered_req_ok s2) as [Hreq Hnone]; [done|done| |].
    { change (ib_req s2) with (ib_req s). by rewrite Hq. }
    split_and!; [apply Hstart, trigger_read_runs; try done| |done|by apply msg_later_refl|done|].
    + change (ib_req s2) with (ib_req s). by rewrite Hq.
    + change (ib_ring (triggered s2)) with (norm_ring r). by rewrite Hnorm.
    + intros E. apply Hnone in E. change (ib_ring s2) with r in E. lia.
  - destruct (Z.eqb_spec (ms_count (ib_msg s)) 0) as [E|E].
    + exists (set_msg (fun m => msg_new (ms_set_long true m)) s2). split_and!.
      * apply Hstart. eapply runs_bind; [apply runs_gets|]. change (ib_msg s2) with (ib_msg s).
        rewrite (proj2 (Z.eqb_eq _ _) E). eapply runs_bind; [apply runs_modify|].
        refine (new_message_runs (set_msg (ms_set_long true) s2) _).
        change (0 <= ms_count (ib_msg s)). lia.
      * done.
      * done.
      * by apply msg_long_later.
      * cbn. by rewrite Hq.
      * intros _. cbn. unfold msg_new, msg_trigger. case_decide; cbn; lia.
    + exists s2. split_and!; [|done|done|by apply msg_later_refl|cbn; by rewrite Hq|].
      * apply Hstart. eapply runs_bind; [apply runs_gets|]. change (ib_msg s2) with (ib_msg s).
        rewrite (proj2 (Z.eqb_neq _ _) E). apply runs_ret.
      * intros _. change (ib_msg s2) with (ib_msg s). destruct Hm as (_ & ? & _). lia.
Qed.

(** ** The invariant of an open connection

    The reader has decoded everything before position [a]; [future] are the symbols it has still
    to see: those of the data in the buffer and those of the data the peer will send, at most [N] bytes. *)
Record ib_inv (N : nat) (s : InputBuf) (a : Z) (future : list Z) : Prop := {
  inv_bound : (length (concat (ib_net s)) <= N)%nat;
  inv_ring : ring_ok (ib_ring s);
  inv_cur : cur_ok (ib_ring s);
  inv_pos : 0 <= a <= rb_size (ib_ring s);
  inv_held : (length (ring_data (ib_ring s) a) <= length (ring_data (ib_ring s) (rb_cur (ib_ring s))))%nat;
  inv_req : req_ok (ib_ring s) (ib_req s);
  inv_msg : msg_ok (ib_msg s);
  inv_net : Forall (fun c => c <> [] /\ bytes c) (ib_net s);
  inv_dec : exists here there,
    decode (ib_out s) (ring_data (ib_ring s) a) = Some (ib_inp s, here) /\
    decode (ib_inp s) (concat (ib_net s)) = Some (dec_clean, there) /\
    future = here ++ there /\ no_eos future /\
    ms_count (ib_msg s) = eoms here + long_count (ib_msg s) }.

Section bounded.
Context (N : nat).
Notation ib_inv := (ib_inv N).

(** The socket delivers a block: what it stores, and what remains for the next reads. *)
Lemma net_block n c net :
  0 < n -> Forall (fun c => c <> [] /\ bytes c) (c :: net) ->
  let x := take (Z.to_nat n) c in
  let net' := match drop (Z.to_nat n) c with [] => net | c' => c' :: net end in
  x <> [] /\ bytes x /\ Z.of_nat (length x) <= n /\
  concat (c :: net) = x ++ concat net' /\ Forall (fun c => c <> [] /\ bytes c) net'.
Proof.
  intros Hn Hf x net'. apply Forall_cons in Hf as [[Hc Hb] Hf]. unfold x, net'. split_and!.
  - destruct c; [done|]. by destruct (Z.to_nat n) eqn:E; [lia|].
  - by apply Forall_take.
  - rewrite length_take. lia.
  - pose proof (take_drop (Z.to_nat n) c) as E. cbn [concat]. rewrite <- E at 1.
    destruct (drop (Z.to_nat n) c) as [|b d] eqn:Ed; cbn [concat]; [by rewrite (right_id_L [] (++))|].
    by rewrite <- (assoc_L (++)).
  - assert (Hd : bytes (drop (Z.to_nat n) c)) by (by apply Forall_drop).
    destruct (drop (Z.to_nat n) c); [done|]. by apply Forall_cons.
Qed.

Lemma ibuf_read_done_runs s x d syms :
  ring_ok (ib_ring s) -> cur_ok (ib_ring s) -> msg_ok (ib_msg s) -> ib_req s = None ->
  bytes x -> x <> [] -> rb_inp (ib_ring s) + Z.of_nat (length x) <= rb_size (ib_ring s) ->
  Z.of_nat (length (ring_data (ib_ring s) (rb_cur (ib_ring s)))) + Z.of_nat (length x)
    <= rb_size (ib_ring s) - 1 ->
  decode (ib_inp s) x = Some (d, syms) -> no_eos syms ->
  exists s', runs (ibuf_read_done (Z.of_nat (length x)))
      (set_ring (fun r => rb_set_buf (overwrite (Z.to_nat (rb_inp r)) x (rb_buf r)) r) s) tt s' /\
    fed x (ib_ring s) (ib_ring s') /\ ib_inp s' = d /\ ib_out s' = ib_out s /\ ib_net s' = ib_net s /\
    msg_later (eoms syms) (ib_msg s) (ib_msg s') /\ req_ok (ib_ring s') (ib_req s') /\
    (ib_req s' = None -> 0 < ms_count (ib_msg s')).
Proof.
  intros Hr Hc Hm Hq Hx Hne Hl Hd Hdec Hsy.
  pose proof (ring_push_fed x _ Hr Hc Hx Hl Hd) as Hfed. pose proof Hfed as (Hr1 & Hc1 & _).
  set (s1 := set_ring (fun r => rb_set_buf (overwrite (Z.to_nat (rb_inp r)) x (rb_buf r)) r) s).
  pose proof Hr as (Hs & Hi & Hcu & Hb).
  assert (Hlen : 0 < Z.of_nat (length x)) by (destruct x; [done|cbn [length]; lia]).
  assert (Hsz : rb_size (ib_ring s1) = rb_size (ib_ring s)).
  { unfold s1, rb_size in *. cbn. rewrite overwrite_length; lia. }
  set (s2 := set_ring (ring_push x) (scanned d syms s)).
  destruct (read_done_tail_runs s2) as (s' & Hrun & Hf & (E1 & E2 & E3) & Hml & Hrq & Hcnt).
  { done. } { done. } { apply msg_notes_later, Hm. } { done. }
  exists s'. split_and!; try done.
  - unfold ibuf_read_done. destruct (Z.eqb_spec (Z.of_nat (length x)) 0); [lia|].
    eapply runs_bind; [apply runs_gets|].
    eapply runs_bind; [apply runs_cassert; change (ib_msg s1) with (ib_msg s); by rewrite (proj1 Hm)|].
    eapply runs_bind; [apply runs_gets|]. change (rb_inp (ib_ring s1)) with (rb_inp (ib_ring s)).
    eapply runs_bind.
    { apply (read_done_loop_runs _ s1 _ _ d syms); try done; try lia.
      - apply (ring_push_ok x _ Hr Hx Hl).
      - change (rb_buf (ib_ring s1)) with (overwrite (Z.to_nat (rb_inp (ib_ring s))) x (rb_buf (ib_ring s))).
        rewrite slice_overwrite_at; [done|lia|unfold rb_size in *; lia]. }
    eapply runs_bind; [apply runs_modify|].
    assert (E : set_ring (rb_set_inp (wrap_ptr (ib_ring s1) (rb_inp (ib_ring s) + Z.of_nat (length x))))
      (scanned d syms s1) = s2).
    { assert (Hw : wrap_ptr (ib_ring s1) (rb_inp (ib_ring s) + Z.of_nat (length x)) =
        wrap_ptr (ib_ring s) (rb_inp (ib_ring s) + Z.of_nat (length x))) by (unfold wrap_ptr; by rewrite Hsz).
      by rewrite Hw. }
    rewrite E. exact Hrun.
  - rewrite <- (right_id_L [] (++) x). eapply fed_trans; [exact Hfed|exact Hf].
  - rewrite <- (Z.add_0_r (eoms syms)). eapply msg_later_trans; [|exact Hml]. by apply msg_notes_later.
Qed.

Lemma channel_read_done_runs s a future :
  ib_inv s a future -> ib_req s <> None -> ib_net s <> [] ->
  exists s' x n, runs tcp_channel_read_done s tt s' /\ x <> [] /\
    fed x (ib_ring s) (ib_ring s') /\ concat (ib_net s) = x ++ concat (ib_net s') /\
    ib_out s' = ib_out s /\ msg_later n (ib_msg s) (ib_msg s') /\
    (ib_req s' = None -> 0 < ms_count (ib_msg s')) /\
    (forall a', 0 <= a' <= rb_size (ib_ring s') ->
      ring_data (ib_ring s') a' = ring_data (ib_ring s) a ++ x -> ib_inv s' a' future).
Proof.
  intros [HN Hr Hc Hp Hh Hq Hm Hn (here & there & D1 & D2 & -> & Hsy & Hcnt)] Hreq Hnet.
  destruct (ib_req s) as [[p n]|] eqn:Eq; [|done]. destruct (ib_net s) as [|c net] eqn:En; [done|].
  destruct Hq as (-> & Hn0 & Hq1 & Hq2).
  destruct (net_block n c net Hn0 Hn) as (Hx & Hxb & Hxl & Hcat & Hn').
  set (x := take (Z.to_nat n) c) in *.
  set (net' := match drop (Z.to_nat n) c with [] => net | c' => c' :: net end) in *.
  rewrite Hcat in D2. apply decode_app in D2 as (d1 & l1 & l2 & D2 & D3 & ->).
  apply Forall_app in Hsy as [Hs1 Hs2]. apply Forall_app in Hs2 as [Hs2 Hs3].
  destruct (ibuf_read_done_runs (set_req None (set_net net' s)) x d1 l1)
    as (s' & Hrun & Hfed & E1 & E2 & E3 & Hml & Hrq & Hpos); try done; try (cbn; lia).
  exists s', x, (eoms l1). split_and!; try done.
  - unfold tcp_channel_read_done. eapply runs_bind; [apply runs_gets|]. rewrite Eq.
    eapply runs_bind; [apply runs_gets|]. rewrite En.
    eapply runs_bind; [apply runs_modify|]. eapply runs_bind; [apply runs_modify|].
    eapply runs_bind; [apply runs_modify|]. exact Hrun.
  - rewrite E3. exact Hcat.
  - intros a' Ha' Hd'. pose proof Hfed as (Hr' & Hc' & Hdc & _). constructor; try done.
    + rewrite Hcat, length_app in HN. rewrite E3. cbn [set_req set_net ib_net]. lia.
    + rewrite Hd', Hdc, !length_app. cbn [set_req set_net ib_ring]. lia.
    + apply Hml.
    + by rewrite E3.
    + exists (here ++ l1), l2. rewrite Hd', E1, E2, E3. cbn [set_req set_net ib_out ib_net]. split_and!.
      * by eapply decode_join.
      * done.
      * by rewrite (assoc_L (++)).
      * by rewrite !Forall_app.
      * rewrite eoms_app. destruct Hml as (_ & Hml & _). cbn [set_req set_net ib_msg] in Hml. lia.
Qed.

(** ** Reading *)

Lemma ib_window_slice s :
  ring_ok (ib_ring s) ->
  ib_window s = slice (rb_buf (ib_ring s)) (rb_cur (ib_ring s)) (rb_end (ib_ring s)).
Proof. intros (_ & _ & Hc & _). unfold ib_window. by rewrite (proj2 (Z.leb_le _ _)) by lia. Qed.

(** Between two calls of the stream functions; [future] starts with the bytes of the window. *)
Definition chan_inv (s : InputBuf) (future : list Z) : Prop :=
  win_ok (ib_ring s) /\
  exists fut, ib_inv s (rb_end (ib_ring s)) fut /\ future = ib_window s ++ fut.

Lemma ring_data_bound r a :
  ring_ok r -> 0 <= a <= rb_size r -> Z.of_nat (length (ring_data r a)) <= rb_size r - 1.
Proof.
  intros Hr Ha. rewrite ring_data_length by done. destruct Hr as (?&?&_).
  destruct (Z.leb_spec a (rb_inp r)); lia.
Qed.

Definition set_window (c e : Z) (s : InputBuf) : InputBuf :=
  set_ring (fun r => rb_set_end e (rb_set_cur c r)) s.

(** The end of a call: the window is [c .. e), and free space is given to the socket. *)
Lemma finish_runs s c e fut :
  ib_inv s e fut -> 0 <= c <= e ->
  e <= (if c <=? rb_inp (ib_ring s) then rb_inp (ib_ring s) else rb_size (ib_ring s)) ->
  (length (ring_data (ib_ring s) c) <= length (ring_data (ib_ring s) (rb_cur (ib_ring s))))%nat ->
  exists s', runs ibuf_trigger_read (set_window c e s) tt s' /\
    chan_inv s' (slice (rb_buf (ib_ring s)) c e ++ fut) /\ ib_msg s' = ib_msg s /\
    (ib_req s' = None ->
      Z.of_nat (length (ring_data (ib_ring s) c)) = rb_size (ib_ring s) - 1) /\
    ib_net s' = ib_net s.
Proof.
  intros [HN Hr Hc Hp Hh Hq Hm Hn Hd] Hce He Hl. pose proof Hr as (Hs & Hi & Hcu & Hb).
  set (s1 := set_window c e s).
  assert (Hcs : c <= rb_size (ib_ring s)) by (destruct (Z.leb_spec c (rb_inp (ib_ring s))); lia).
  assert (Hr1 : ring_ok (ib_ring s1)) by (unfold ring_ok; cbn; unfold rb_size in *; cbn; split_and!; done || lia).
  assert (Hw1 : win_ok (ib_ring s1)) by (unfold win_ok; cbn; unfold rb_size in *; cbn; lia).
  pose proof (win_cur_ok _ Hr1 Hw1) as Hc1.
  assert (Hq1 : req_ok (ib_ring s1) (ib_req s1)) by (by eapply req_ok_mono; [| | |exact Hq]).
  pose proof (norm_ring_fed _ Hr1 Hc1) as (Hr2 & Hc2 & Hd2 & Hw). destruct (Hw Hw1) as (Hw2 & Hwin & Hend).
  rewrite (right_id_L [] (++)) in Hd2, Hend.
  destruct (triggered_req_ok s1 Hr1 Hc1 Hq1) as [Hq2 Hnone].
  assert (Hdat : forall a, ring_data (ib_ring s1) a = ring_data (ib_ring s) a) by (by intros; apply ring_data_ext).
  exists (triggered s1). split; [by apply trigger_read_runs; [| |apply Hm|]|]. split; [|split; [done|split; [|done]]].
  - split; [done|]. exists fut. split; [|f_equal; rewrite ib_window_slice by done; exact (eq_sym Hwin)].
    constructor; try done.
    + destruct Hw2 as [Hw21 Hw22]. destruct Hr2 as (? & ? & ? & ?).
      change (ib_ring (triggered s1)) with (norm_ring (ib_ring s1)).
      destruct (Z.leb_spec (rb_cur (norm_ring (ib_ring s1))) (rb_inp (norm_ring (ib_ring s1)))); lia.
    + change (ib_ring (triggered s1)) with (norm_ring (ib_ring s1)). rewrite Hend, Hd2, !Hdat.
      change (rb_end (ib_ring s1)) with e. change (rb_cur (ib_ring s1)) with c.
      rewrite (ring_data_run (ib_ring s) c e) by done. rewrite length_app. lia.
    + change (ib_ring (triggered s1)) with (norm_ring (ib_ring s1)). rewrite Hend, Hdat. exact Hd.
  - intros E. apply Hnone in E. unfold ring_free in E. rewrite Hdat in E.
    pose proof (ring_data_bound (ib_ring s) c Hr ltac:(lia)) as HB.
    change (rb_cur (ib_ring s1)) with c in E. change (rb_inp (ib_ring s1)) with (rb_inp (ib_ring s)) in E.
    change (rb_size (ib_ring s1)) with (rb_size (ib_ring s)) in E. lia.
Qed.

(** The reader decodes [bs], and takes the ends of messages in it off the counter. *)
Lemma inv_consume s a e bs d1 o m' future :
  ib_inv s a future -> ring_data (ib_ring s) a = bs ++ ring_data (ib_ring s) e ->
  0 <= e <= rb_size (ib_ring s) -> decode (ib_out s) bs = Some (d1, o) ->
  msg_ok m' -> ms_long m' = ms_long (ib_msg s) -> ms_count m' = ms_count (ib_msg s) - eoms o ->
  exists fut, future = o ++ fut /\ ib_inv (set_out_state d1 (set_msg (fun _ => m') s)) e fut.
Proof.
  intros [HN Hr Hc Hp Hh Hq Hm Hn (here & there & D1 & D2 & -> & Hsy & Hcnt)] Hd He Hdec Hm' Hl Hcn.
  rewrite Hd in D1. apply decode_app in D1 as (d2 & l1 & l2 & D1 & D3 & ->). simplify_eq.
  exists (l2 ++ there). rewrite <- (assoc_L (++)) in Hsy |- *. split; [done|].
  apply Forall_app_inv in Hsy as [_ Hsy]. constructor; try done.
  - cbn [set_out_state set_msg ib_ring]. rewrite Hd, length_app in Hh. lia.
  - exists l2, there. cbn [set_out_state set_msg ib_ring ib_out ib_inp ib_net ib_msg].
    split_and!; try done. rewrite eoms_app in Hcnt. unfold long_count in *. rewrite Hl. lia.
Qed.

Lemma inv_consume_same s a e bs d1 o future :
  ib_inv s a future -> ring_data (ib_ring s) a = bs ++ ring_data (ib_ring s) e ->
  0 <= e <= rb_size (ib_ring s) -> decode (ib_out s) bs = Some (d1, o) -> eoms o = 0 ->
  exists fut, future = o ++ fut /\ ib_inv (set_out_state d1 s) e fut.
Proof.
  intros Hi Hd He Hdec Ho.
  destruct (inv_consume s a e bs d1 o (ib_msg s) future Hi Hd He Hdec) as (fut & -> & Hf);
    [apply Hi|done|lia|].
  exists fut. split; [done|]. by destruct s.
Qed.

Lemma inv_wrap s a future : ib_inv s a future -> ib_inv s (wrap_ptr (ib_ring s) a) future.
Proof.
  intros [HN Hr Hc Hp Hh Hq Hm Hn Hd]. constructor; try done; rewrite ?ring_data_wrap; try done.
  unfold wrap_ptr. destruct Hr as (?&_). destruct_if; lia.
Qed.

Lemma plain_run_spec n l :
  0 <= plain_run n l <= Z.of_nat n /\ Forall (fun b => b <> ESC) (take (Z.to_nat (plain_run n l)) l).
Proof.
  revert l. induction n as [|n IH]; intros [|b l]; cbn [plain_run]; try (split; [lia|by rewrite ?take_nil]).
  destruct (Z.eqb_spec b ESC); [split; [lia|constructor]|].
  destruct (IH l) as [H1 H2]. split; [lia|].
  replace (Z.to_nat (1 + plain_run n l)) with (S (Z.to_nat (plain_run n l))) by lia. by constructor.
Qed.

(** A message is being read. *)
Definition active (s : InputBuf) : Prop :=
  ms_handling (ib_msg s) = HandleMsgActive /\ 0 < ms_count (ib_msg s).

(** The state after [x], followed by [fut], was read or peeked. *)
Definition read_post (peeking : bool) (x : Z) (fut : list Z) (s : InputBuf) : Prop :=
  if peeking then chan_inv s (x :: fut) /\ active s
  else chan_inv s fut /\
    if x =? MARKER_EOM then
      ms_handling (ib_msg s) <> HandleMsgActive /\ (ib_req s = None -> 0 < ms_count (ib_msg s)) /\
      ms_long (ib_msg s) = false
    else active s.

Lemma read_post_byte (peeking : bool) x fut s :
  is_byte x -> active s -> chan_inv s (if peeking then x :: fut else fut) -> read_post peeking x fut s.
Proof.
  intros Hx Ha Hi. unfold read_post. destruct peeking; [done|]. split; [done|].
  destruct (Z.eqb_spec x MARKER_EOM); [unfold is_byte, MARKER_EOM in *; lia|done].
Qed.

(** The contiguous run at [out], which has at least one byte. *)
Lemma run_max_spec r out :
  ring_ok r -> 0 <= out < rb_size r -> out <> rb_inp r ->
  run_max r out = (if out <=? rb_inp r then rb_inp r else rb_size r) /\ out + 1 <= run_max r out.
Proof.
  intros (Hs & Hi & _) Ho Hne. unfold run_max.
  destruct (Z.leb_spec (out + 1) (rb_inp r)); destruct (Z.leb_spec out (rb_inp r)); lia.
Qed.

(** The end of the two branches that open a window of [n] bytes at [out]. *)
Lemma window_runs (peeking : bool) s out n ch w fut :
  ib_inv s (out + n) fut -> 0 <= out -> 1 <= n -> out + n <= run_max (ib_ring s) out ->
  out < rb_size (ib_ring s) -> out <> rb_inp (ib_ring s) ->
  slice (rb_buf (ib_ring s)) out (out + n) = ch :: w -> is_byte ch -> active s ->
  (length (ring_data (ib_ring s) out) <= length (ring_data (ib_ring s) (rb_cur (ib_ring s))))%nat ->
  exists s', runs (modify (set_ring (fun r => rb_set_end (out + n)
                     (rb_set_cur (if peeking then out else out + 1) r))) ;!
                   ibuf_trigger_read ;! ret ch) s ch s' /\ read_post peeking ch (w ++ fut) s'.
Proof.
  intros Hi H0 Hn Hm Hlt Hne Hsl Hch Ha Hl. pose proof (inv_ring _ _ _ _ Hi) as Hr.
  destruct (run_max_spec _ out Hr ltac:(lia) Hne) as [Hmax _]. rewrite Hmax in Hm.
  destruct (ring_data_cons _ out Hr ltac:(lia) Hne) as (ch' & Hlook & _ & Hcons).
  assert (Hw : slice (rb_buf (ib_ring s)) (out + 1) (out + n) = w).
  { destruct (Z.eqb_spec n 1) as [->|].
    - rewrite (slice_cons _ out (out + 1) ch') in Hsl by (done || lia).
      rewrite slice_nil in Hsl |- * by lia. by simplify_eq.
    - rewrite (slice_cons _ out (out + n) ch') in Hsl by (done || lia). by simplify_eq. }
  destruct (finish_runs s (if peeking then out else out + 1) (out + n) fut Hi) as (s' & Hrun & Hinv & Hms & _).
  - destruct peeking; lia.
  - destruct Hr as (? & ? & _). destruct peeking; [done|].
    destruct (Z.leb_spec out (rb_inp (ib_ring s))); destruct (Z.leb_spec (out + 1) (rb_inp (ib_ring s))); lia.
  - destruct peeking; [done|]. rewrite Hcons in Hl. cbn [length] in Hl. lia.
  - exists s'. split.
    + eapply runs_bind; [apply runs_modify|]. eapply runs_bind; [exact Hrun|apply runs_ret].
    + apply read_post_byte; [done|by unfold active; rewrite Hms|].
      destruct peeking; [by rewrite Hsl in Hinv|by rewrite Hw in Hinv].
Qed.

Section at_byte.
  Context (s : InputBuf) (out ch : Z) (future : list Z) (peeking : bool).
  Context (Hinv : ib_inv s out future) (Hout : out < rb_size (ib_ring s)) (Hne : out <> rb_inp (ib_ring s)).
  Context (Hch : rb_buf (ib_ring s) !! Z.to_nat out = Some ch) (Hact : active s).

Lemma at_byte_facts :
  0 <= out /\ is_byte ch /\ ring_data (ib_ring s) out = ch :: ring_data (ib_ring s) (out + 1) /\
  exists d o, dec_step (ib_out s) ch = Some (d, o) /\ exists fut, future = o ++ fut.
Proof using Hinv Hout Hne Hch.
  destruct Hinv as [HN Hr Hc Hp Hh Hq Hm Hn (here & there & D1 & D2 & -> & Hsy & Hcnt)].
  destruct (ring_data_cons _ out Hr ltac:(lia) Hne) as (ch' & Hl & Hb & Hd).
  rewrite Hch in Hl. simplify_eq. split_and!; try done; [lia|].
  rewrite Hd in D1. cbn [decode] in D1. destruct (dec_step (ib_out s) ch') as [[d1 o]|]; [|done].
  destruct (decode d1 _) as [[d2 l]|]; [|done]. simplify_eq. exists d1, o. split; [done|].
  exists (l ++ there). by rewrite (assoc_L (++)).
Qed.

(** Decoding one byte that is neither data nor the end of a message. *)
Lemma at_byte_consume d o :
  dec_step (ib_out s) ch = Some (d, o) -> eoms o = 0 ->
  exists fut, future = o ++ fut /\ ib_inv (set_out_state d s) (out + 1) fut.
Proof using Hinv Hout Hne Hch.
  intros Hd Ho. destruct at_byte_facts as (H0 & Hb & Hdat & _).
  apply (inv_consume_same s out (out + 1) [ch]); [done|done|lia| |done].
  cbn [decode]. rewrite Hd. by rewrite (right_id_L [] (++)).
Qed.

Lemma get_bin_data_runs :
  bs_mode (ib_out s) = 0 -> 0 < bs_size (ib_out s) ->
  exists fut s', future = ch :: fut /\ runs (get_bin_data peeking out ch) s ch s' /\
    read_post peeking ch fut s'.
Proof using All.
  intros Hmode Hsize. destruct at_byte_facts as (H0 & Hb & Hdat & d & o & Hstep & _).
  pose proof (inv_ring _ _ _ _ Hinv) as Hr.
  destruct (run_max_spec _ out Hr ltac:(lia) Hne) as [Hmax Hmax1].
  unfold dec_step in Hstep. rewrite Hmode in Hstep. cbn [Z.eqb negb] in Hstep.
  rewrite (proj2 (Z.ltb_lt _ _) Hsize) in Hstep. destruct (bs_esc (ib_out s)) eqn:Hesc; [done|].
  set (n := if run_max (ib_ring s) out - out <? bs_size (ib_out s)
            then run_max (ib_ring s) out - out else bs_size (ib_out s)).
  assert (Hn : 1 <= n /\ out + n <= run_max (ib_ring s) out /\ n <= bs_size (ib_out s)).
  { unfold n. destruct (Z.ltb_spec (run_max (ib_ring s) out - out) (bs_size (ib_out s))); lia. }
  assert (Hms : run_max (ib_ring s) out <= rb_size (ib_ring s)).
  { rewrite Hmax. destruct Hr as (?&?&_). destruct_if; lia. }
  pose proof (slice_cons _ out (out + n) ch ltac:(lia) Hch) as Hsl.
  assert (Hbs : bytes (slice (rb_buf (ib_ring s)) out (out + n))) by apply slice_bytes, Hr.
  assert (Hlen : Z.of_nat (length (slice (rb_buf (ib_ring s)) out (out + n))) = n).
  { rewrite slice_length; unfold rb_size in *; lia. }
  destruct (inv_consume_same s out (out + n) (slice (rb_buf (ib_ring s)) out (out + n))
    (mkBin false 0 (bs_size (ib_out s) - n)) (slice (rb_buf (ib_ring s)) out (out + n)) future)
    as (fut & -> & Hi2); [done|apply ring_data_run; done || lia|lia| |by apply eoms_bytes|].
  { destruct (ib_out s) as [e m sz]. cbn in *. subst. rewrite decode_data by lia. by rewrite Hlen. }
  destruct (window_runs peeking (set_out_state (mkBin false 0 (bs_size (ib_out s) - n)) s) out n ch
    (slice (rb_buf (ib_ring s)) (out + 1) (out + n)) fut) as (s' & Hrun & Hpost); try done; try lia;
    [apply Hn|apply Hinv|].
  exists (slice (rb_buf (ib_ring s)) (out + 1) (out + n) ++ fut), s'. split_and!; [by rewrite Hsl| |done].
  unfold get_bin_data. eapply runs_bind; [apply runs_gets|]. rewrite Hesc.
  eapply runs_bind; [by apply runs_cassert|]. eapply runs_bind; [apply runs_gets|].
  eapply runs_bind; [apply runs_modify|]. rewrite Hmode. exact Hrun.
Qed.

Lemma get_plain_runs :
  bs_mode (ib_out s) = 0 -> bs_size (ib_out s) <= 0 -> bs_esc (ib_out s) = false -> ch <> ESC ->
  exists fut s', future = ch :: fut /\ runs (get_plain peeking out ch) s ch s' /\
    read_post peeking ch fut s'.
Proof using All.
  intros Hmode Hsize Hesc Hnesc. destruct at_byte_facts as (H0 & Hb & Hdat & _).
  pose proof (inv_ring _ _ _ _ Hinv) as Hr.
  destruct (run_max_spec _ out Hr ltac:(lia) Hne) as [Hmax Hmax1].
  assert (Hms : run_max (ib_ring s) out <= rb_size (ib_ring s)).
  { rewrite Hmax. destruct Hr as (?&?&_). destruct_if; lia. }
  set (k := plain_run (Z.to_nat (run_max (ib_ring s) out - (out + 1)))
              (drop (Z.to_nat (out + 1)) (rb_buf (ib_ring s)))).
  destruct (plain_run_spec (Z.to_nat (run_max (ib_ring s) out - (out + 1)))
    (drop (Z.to_nat (out + 1)) (rb_buf (ib_ring s)))) as [Hk Hplain]. fold k in Hk, Hplain.
  assert (Hle : out + (1 + k) <= run_max (ib_ring s) out) by lia.
  pose proof (slice_cons _ out (out + (1 + k)) ch ltac:(lia) Hch) as Hsl.
  assert (Hbs : bytes (slice (rb_buf (ib_ring s)) out (out + (1 + k)))) by apply slice_bytes, Hr.
  assert (Hp : Forall (fun b => b <> ESC) (slice (rb_buf (ib_ring s)) out (out + (1 + k)))).
  { rewrite Hsl. constructor; [done|]. unfold slice. by replace (out + (1 + k) - (out + 1)) with k by lia. }
  destruct (inv_consume_same s out (out + (1 + k)) (slice (rb_buf (ib_ring s)) out (out + (1 + k)))
    (ib_out s) (slice (rb_buf (ib_ring s)) out (out + (1 + k))) future)
    as (fut & -> & Hi2); [done|apply ring_data_run; done || lia|lia| |by apply eoms_bytes|].
  { destruct (ib_out s) as [e m sz]. cbn in *. subst. by apply decode_plain. }
  destruct (window_runs peeking (set_out_state (ib_out s) s) out (1 + k) ch
    (slice (rb_buf (ib_ring s)) (out + 1) (out + (1 + k))) fut) as (s' & Hrun & Hpost); try done; try lia;
    [apply Hinv|].
  exists (slice (rb_buf (ib_ring s)) (out + 1) (out + (1 + k)) ++ fut), s'. split_and!; [by rewrite Hsl| |done].
  unfold get_plain. eapply runs_bind; [apply runs_gets|]. fold k.
  replace (out + 1 + k) with (out + (1 + k)) by lia. revert Hrun. by destruct s.
Qed.
(** The message state after the end of the message was read. *)
Definition msg_ended (m : MsgState) : MsgState :=
  let m1 := ms_set_handling HandleMsgIdle (ms_set_count (ms_count m - 1) m) in
  if ms_count m1 =? 0 then m1 else msg_trigger m1.

Lemma msg_ended_ok m :
  msg_ok m -> ms_handling m = HandleMsgActive -> 0 < ms_count m -> ms_long m = false ->
  msg_ok (msg_ended m) /\ ms_long (msg_ended m) = false /\ ms_count (msg_ended m) = ms_count m - 1 /\
  ms_handling (msg_ended m) <> HandleMsgActive.
Proof.
  destruct m as [eof lng cnt h ev]. unfold msg_ok, msg_ended, msg_trigger. cbn.
  intros (He & Hc & Hl & Hi & Hev) -> Hpos ->. subst. cbn.
  destruct (Z.eqb_spec (cnt - 1) 0); repeat case_decide; simplify_eq; cbn; split_and!; intros; try done; lia.
Qed.

Lemma end_message_runs s1 :
  0 < ms_count (ib_msg s1) -> runs end_message s1 tt (set_msg msg_ended s1).
Proof.
  intros Hpos. unfold end_message. eapply runs_bind; [apply runs_modify|]. eapply runs_bind; [apply runs_gets|].
  unfold msg_ended. cbn [set_msg ib_msg ms_set_handling ms_set_count ms_count].
  destruct (Z.eqb_spec (ms_count (ib_msg s1) - 1) 0) as [E|E]; cbn [negb].
  - unfold set_msg. cbn. rewrite E. cbn. by rewrite <- E.
  - pose proof (trigger_runs (set_msg (fun m => ms_set_handling HandleMsgIdle
      (ms_set_count (ms_count m - 1) m)) s1)) as H.
    cbn in H. specialize (H ltac:(lia)). revert H. unfold set_msg. cbn.
    by rewrite (proj2 (Z.eqb_neq _ _) E).
Qed.

Lemma get_escape_runs :
  bs_mode (ib_out s) = 0 -> bs_size (ib_out s) <= 0 -> bs_esc (ib_out s) = true -> ch <> 3 ->
  exists x fut s', future = x :: fut /\ runs (get_escape peeking out ch) s x s' /\
    read_post peeking x fut s'.
Proof using All.
  intros Hmode Hsize Hesc Hn3. destruct at_byte_facts as (H0 & Hb & Hdat & d & o & Hstep & fut0 & Hfut).
  pose proof (inv_ring _ _ _ _ Hinv) as Hr. pose proof (inv_held _ _ _ _ Hinv) as Hheld.
  pose proof Hinv as [_ _ _ _ _ _ Hm _ (here & there & D1 & _ & Efut & Hsy & Hcnt)].
  assert (Hbound : forall c, 0 <= c <= rb_size (ib_ring s) ->
    c <= (if c <=? rb_inp (ib_ring s) then rb_inp (ib_ring s) else rb_size (ib_ring s))).
  { intros c Hc. destruct (Z.leb_spec c (rb_inp (ib_ring s))); lia. }
  (* the symbol *)
  assert (exists x, o = [x] /\ d = mkBin false (bs_mode (ib_out s)) (bs_size (ib_out s)) /\
    ((ch = 0 /\ x = ESC) \/ (ch = 1 /\ x = MARKER_EOM))) as (x & -> & -> & Hx).
  { unfold dec_step in Hstep. rewrite Hmode in *. destruct (Z.ltb_spec 0 (bs_size (ib_out s))); [lia|].
    rewrite Hesc in Hstep. cbn [Z.eqb negb] in Hstep.
    destruct (Z.eqb_spec ch 0); [simplify_eq; eauto 6|]. destruct (Z.eqb_spec ch 1); [simplify_eq; eauto 6|].
    destruct (Z.eqb_spec ch 2).
    - simplify_eq. by apply Forall_cons in Hsy as [Hsy _].
    - destruct (Z.eqb_spec ch 3); done. }
  assert (Hsym : forall s1, ib_out s1 = ib_out s ->
    runs (if ch =? 0 then ret ESC
          else if ch =? 1 then (if peeking then ret tt else end_message) ;! ret MARKER_EOM
          else if ch =? 2 then ret MARKER_EOS
          else fault) s1 x
      (if peeking then s1 else if x =? MARKER_EOM then set_msg msg_ended s1 else s1) \/
    ~ 0 < ms_count (ib_msg s1)).
  { intros s1 _. destruct (Z.ltb_spec 0 (ms_count (ib_msg s1))); [left|right; lia].
    destruct Hx as [[-> ->]|[-> ->]]; cbn [Z.eqb]; [destruct peeking; apply runs_ret|].
    destruct peeking; [eapply runs_bind; [apply runs_ret|apply runs_ret]|].
    eapply runs_bind; [by apply end_message_runs|apply runs_ret]. }
  destruct (Hsym s eq_refl) as [Hrun1|?]; [|by destruct Hact]. clear Hsym.
  destruct peeking eqn:Ep.
  - (* peeking: the position stays at [ch] *)
    destruct (finish_runs s out out future Hinv) as (s' & Hrun & Hi & Hms & _); [lia|apply Hbound; lia|done|].
    rewrite slice_nil in Hi by lia. exists x, fut0, s'. split_and!; [done| |].
    + unfold get_escape. eapply runs_bind; [exact Hrun1|]. eapply runs_bind; [apply runs_gets|].
      eapply runs_bind; [apply runs_ret|]. eapply runs_bind; [apply runs_modify|].
      eapply runs_bind; [exact Hrun|apply runs_ret].
    + unfold read_post. split; [by rewrite Hfut in Hi|]. unfold active. by rewrite Hms.
  - (* reading *)
    set (d1 := mkBin false (bs_mode (ib_out s)) (bs_size (ib_out s))) in *.
    set (m' := if x =? MARKER_EOM then msg_ended (ib_msg s) else ib_msg s).
    assert (Hlong : x = MARKER_EOM -> ms_long (ib_msg s) = false).
    { intros ->. destruct (ms_long (ib_msg s)) eqn:El; [|done]. destruct Hm as (_ & _ & Hm & _).
      specialize (Hm El). unfold long_count in Hcnt. rewrite El in Hcnt.
      rewrite Hdat in D1. cbn [decode] in D1. rewrite Hstep in D1. destruct (decode d1 _) as [[d2 l]|]; [|done].
      simplify_eq. rewrite eoms_app in Hcnt.
      pose proof (eoms_nonneg l). change (eoms [MARKER_EOM]) with 1 in Hcnt. lia. }
    assert (Hm' : msg_ok m' /\ ms_long m' = ms_long (ib_msg s) /\
      ms_count m' = ms_count (ib_msg s) - eoms [x]).
    { destruct Hx as [[-> ->]|[-> ->]].
      - change m' with (ib_msg s). split_and!; [done|done|]. change (eoms [ESC]) with 0. lia.
      - change m' with (msg_ended (ib_msg s)). destruct Hact as [Ha1 Ha2]. specialize (Hlong eq_refl).
        destruct (msg_ended_ok _ Hm Ha1 Ha2 Hlong) as (? & ? & ? & _).
        split_and!; [done|by rewrite Hlong|done]. }
    destruct Hm' as (Hm1 & Hm2 & Hm3).
    destruct (inv_consume s out (out + 1) [ch] d1 [x] m' future) as (fut & Ef & Hi2);
      [done|done|lia| |done|done|done|].
    { cbn [decode]. rewrite Hstep. by rewrite (right_id_L [] (++)). }
    set (s2 := set_out_state d1 (set_msg (fun _ => m') s)) in *.
    assert (Hheld2 : (length (ring_data (ib_ring s) (out + 1)) <
      length (ring_data (ib_ring s) (rb_cur (ib_ring s))))%nat).
    { rewrite Hdat in Hheld. cbn [length] in Hheld. lia. }
    destruct (finish_runs s2 (out + 1) (out + 1) fut Hi2) as (s' & Hrun & Hi & Hms & Hnone & _);
      [lia|apply Hbound; lia|change (ib_ring s2) with (ib_ring s); lia|].
    rewrite slice_nil in Hi by lia. exists x, fut, s'. split_and!; [done| |].
    + unfold get_escape. eapply runs_bind; [exact Hrun1|]. eapply runs_bind; [apply runs_gets|].
      eapply runs_bind; [apply runs_modify|]. eapply runs_bind; [apply runs_modify|].
      eapply runs_bind; [|apply runs_ret].
      destruct Hx as [[-> ->]|[-> ->]]; exact Hrun.
    + unfold read_post. split; [done|]. destruct (Z.eqb_spec x MARKER_EOM) as [->|Hxe].
      * rewrite Hms. change (ib_msg s2) with (msg_ended (ib_msg s)).
        destruct Hact as [Ha1 Ha2]. specialize (Hlong eq_refl).
        destruct (msg_ended_ok _ Hm Ha1 Ha2 Hlong) as (_ & Hl' & _ & Hh'). split_and!; [done| |done].
        intros E. apply Hnone in E. change (ib_ring s2) with (ib_ring s) in E.
        pose proof (ring_data_bound (ib_ring s) (rb_cur (ib_ring s)) Hr). destruct Hr as (?&?&?&?). lia.
      * unfold active. rewrite Hms. change (ib_msg s2) with (ib_msg s). done.
Qed.
End at_byte.

(** The buffer holds no data for the reader: it waits for the next block of the peer. *)
Lemma wait_runs s future :
  ib_inv s (rb_inp (ib_ring s)) future -> active s -> 0 < eoms future ->
  let s1 := set_ring (rb_set_cur (rb_inp (ib_ring s))) s in
  exists s', runs (ibuf_trigger_read ;! tcp_wait_read) s1 tt s' /\
    ms_long (ib_msg s) = true /\ ms_count (ib_msg s) = 1 /\
    ib_inv s' (rb_cur (ib_ring s')) future /\ active s' /\
    ring_data (ib_ring s') (rb_cur (ib_ring s')) <> [] /\
    concat (ib_net s) = ring_data (ib_ring s') (rb_cur (ib_ring s')) ++ concat (ib_net s').
Proof.
  intros Hinv [Ha1 Ha2] Heom s1. pose proof (inv_ring _ _ _ _ Hinv) as Hr. pose proof Hr as (Hs & Hi & Hcu & Hb).
  assert (Hnil : forall r, ring_ok r -> ring_data r (rb_inp r) = []).
  { intros r Hrr. apply (ring_data_nil r (rb_inp r) Hrr); [|done]. by destruct Hrr as (?&?&?). }
  pose proof Hinv as [_ _ _ _ _ Hq Hm Hn (here & there & D1 & D2 & -> & Hsy & Hcnt)].
  rewrite Hnil in D1 by done. cbn in D1. simplify_eq. cbn [app] in *.
  change (eoms []) with 0 in Hcnt. unfold long_count in Hcnt.
  destruct (ms_long (ib_msg s)) eqn:El; [|lia].
  assert (Hr1 : ring_ok (ib_ring s1)) by (unfold ring_ok, rb_size in *; cbn in *; split_and!; done || lia).
  assert (Hc1 : cur_ok (ib_ring s1)) by (intros E; cbn in E; unfold rb_size in *; cbn in *; lia).
  assert (Hd1 : forall a, ring_data (ib_ring s1) a = ring_data (ib_ring s) a) by (by intros; apply ring_data_ext).
  assert (Hq1 : req_ok (ib_ring s1) (ib_req s1)).
  { eapply req_ok_mono; [| | |exact Hq]; [done|done|].
    change (rb_cur (ib_ring s1)) with (rb_inp (ib_ring s)). rewrite Hd1, Hnil by done. cbn [length]. lia. }
  assert (Hinv1 : ib_inv s1 (rb_cur (ib_ring s1)) there).
  { constructor; try done; [apply Hinv|apply Hr1|]. exists [], there. rewrite Hd1.
    change (rb_cur (ib_ring s1)) with (rb_inp (ib_ring s)). rewrite Hnil by done.
    split_and!; try done; [cbn; congruence|]. unfold long_count. change (ib_msg s1) with (ib_msg s). by rewrite El. }
  pose proof (norm_ring_fed _ Hr1 Hc1) as (Hr2 & Hc2 & Hd2 & _). rewrite (right_id_L [] (++)) in Hd2.
  destruct (triggered_req_ok s1 Hr1 Hc1 Hq1) as [Hq2 Hnone].
  assert (Hinv2 : ib_inv (triggered s1) (rb_cur (ib_ring (triggered s1))) there).
  { constructor; try done; [apply Hinv|apply Hr2|].
    change (ib_ring (triggered s1)) with (norm_ring (ib_ring s1)). rewrite Hd2. apply Hinv1. }
  assert (Hfree : 0 < ring_free (ib_ring s1)).
  { unfold ring_free. change (rb_cur (ib_ring s1)) with (rb_inp (ib_ring s)). rewrite Hd1, Hnil by done.
    cbn. unfold rb_size in *. cbn. lia. }
  destruct (channel_read_done_runs (triggered s1) _ there Hinv2)
    as (s' & x & n & Hrun & Hx & Hfed & Hcat & _ & Hml & _ & Hnew).
  { intros E. apply Hnone in E. lia. }
  { intros E. change (ib_net (triggered s1)) with (ib_net s) in E. rewrite E in D2. cbn in D2.
    simplify_eq. by cbn in Heom. }
  destruct Hfed as (Hr' & Hc' & Hd' & _).
  assert (Hdx : ring_data (ib_ring (triggered s1)) (rb_cur (ib_ring (triggered s1))) = []).
  { change (ib_ring (triggered s1)) with (norm_ring (ib_ring s1)). rewrite Hd2, Hd1. by apply Hnil. }
  exists s'. split_and!; try done.
  - eapply runs_bind; [|exact Hrun]. apply trigger_read_runs; try done. apply Hm.
  - apply Hnew; [by destruct Hr' as (?&?&?&?)|done].
  - destruct Hml as (_ & _ & Hle & Hh & _). change (ib_msg (triggered s1)) with (ib_msg s) in *.
    split; [auto|lia].
  - rewrite Hd', Hdx. done.
  - rewrite Hd', Hdx. exact Hcat.
Qed.

(** One action of a computation whose end is still to be found. *)
Lemma runs_ex {A C} (m : B A) (k : A -> B C) s a s1 c (P : InputBuf -> Prop) :
  runs m s a s1 -> (exists s', runs (k a) s1 c s' /\ P s') -> exists s', runs (bind m k) s c s' /\ P s'.
Proof. intros H (s' & H1 & H2). exists s'. split; [by eapply runs_bind|done]. Qed.

Lemma get_more_loop_runs fuel peeking s out x fut0 :
  ib_inv s out (x :: fut0) -> active s -> 0 < eoms (x :: fut0) ->
  let data := ring_data (ib_ring s) out in
  (2 * (length data + length (concat (ib_net s))) + (if decide (data = []) then 1 else 0) < fuel)%nat ->
  exists s', runs (get_more_loop fuel peeking out) s x s' /\ read_post peeking x fut0 s'.
Proof.
  revert s out. induction fuel as [|fuel IH]; intros s out Hinv Hact Heom data Hfuel; [lia|].
  cbn [get_more_loop]. eapply runs_ex; [apply runs_gets|]. cbn zeta.
  pose proof (inv_ring _ _ _ _ Hinv) as Hr.
  pose proof (ring_data_wrap (ib_ring s) out Hr) as Hdw. unfold data in Hfuel. clear data.
  rewrite <- Hdw in Hfuel. pose proof (inv_wrap _ _ _ Hinv) as Hinv2.
  assert (Hp : 0 <= wrap_ptr (ib_ring s) out < rb_size (ib_ring s)).
  { pose proof (inv_pos _ _ _ _ Hinv). unfold wrap_ptr in *. destruct Hr as (?&_).
    destruct (Z.eqb_spec out (rb_size (ib_ring s))); lia. }
  clear Hinv Hdw. set (p := wrap_ptr (ib_ring s) out) in *. clearbody p. clear out.
  destruct (Z.eqb_spec p (rb_inp (ib_ring s))) as [->|Hne].
  { (* wait *)
    destruct (wait_runs s _ Hinv2 Hact Heom) as (s' & Hrun & Hl & Hc1 & Hi' & Ha' & Hd' & Hcat).
    eapply runs_ex; [apply runs_gets|]. rewrite Hl, Hc1.
    eapply runs_ex; [by apply runs_cassert|]. eapply runs_ex; [apply runs_modify|].
    rewrite (proj1 (inv_msg _ _ _ _ Hinv2)). eapply runs_ex; [by apply runs_cassert|].
    apply runs_bind_inv in Hrun as (u & s1 & Hrun1 & Hrun2). destruct u.
    eapply runs_ex; [exact Hrun1|]. eapply runs_ex; [exact Hrun2|]. eapply runs_ex; [apply runs_gets|].
    apply IH; try done. rewrite decide_False by done.
    rewrite (proj2 (ring_data_nil _ (rb_inp (ib_ring s)) Hr ltac:(lia)) eq_refl) in Hfuel.
    rewrite decide_True, Hcat, length_app in Hfuel by done. cbn [length] in Hfuel. lia. }
  destruct (ring_data_cons _ p Hr ltac:(lia) Hne) as (ch & Hch & Hb & Hd).
  rewrite Hd, decide_False in Hfuel by done. cbn [length] in Hfuel.
  eapply runs_ex; [apply load_runs; [lia|lia|exact Hch]|]. eapply runs_ex; [apply runs_gets|].
  destruct (at_byte_facts s p ch _ Hinv2 ltac:(lia) Hne Hch) as (_ & _ & _ & d & o & Hstep & _).
  (* bytes without a symbol: the loop goes on *)
  assert (Hnext : o = [] -> exists s', runs (get_more_loop fuel peeking (p + 1)) (set_out_state d s) x s' /\
    read_post peeking x fut0 s').
  { intros ->. destruct (at_byte_consume s p ch _ Hinv2 ltac:(lia) Hne Hch d [] Hstep eq_refl) as (fut & Ef & Hi2).
    cbn [app] in Ef. subst fut. apply IH; try done.
    change (ib_ring (set_out_state d s)) with (ib_ring s). change (ib_net (set_out_state d s)) with (ib_net s).
    destruct (decide _); lia. }
  unfold dec_step in Hstep.
  destruct (Z.eqb_spec (bs_mode (ib_out s)) 0) as [Hmode|Hmode]; cbn [negb] in *.
  - destruct (Z.ltb_spec 0 (bs_size (ib_out s))) as [Hs|Hs].
    { destruct (get_bin_data_runs s p ch _ peeking Hinv2 ltac:(lia) Hne Hch Hact Hmode Hs)
        as (fut & s' & Ef & Hrun & Hpost). simplify_eq. eauto. }
    destruct (bs_esc (ib_out s)) eqn:Hesc.
    + destruct (Z.eqb_spec ch 3) as [->|H3].
      { cbn in Hstep. simplify_eq. eapply runs_ex; [apply runs_modify|]. by apply Hnext. }
      destruct (get_escape_runs s p ch _ peeking Hinv2 ltac:(lia) Hne Hch Hact Hmode Hs Hesc H3)
        as (y & fut & s' & Ef & Hrun & Hpost). simplify_eq. eauto.
    + destruct (Z.eqb_spec ch ESC) as [->|He]; cbn [negb].
      { simplify_eq. eapply runs_ex; [apply runs_modify|]. rewrite Hmode. by apply Hnext. }
      destruct (get_plain_runs s p ch _ peeking Hinv2 ltac:(lia) Hne Hch Hact Hmode Hs Hesc He)
        as (fut & s' & Ef & Hrun & Hpost). simplify_eq. eauto.
  - destruct (bs_esc (ib_out s)) eqn:Hesc; [done|]. eapply runs_ex; [by apply runs_cassert|].
    destruct (size_byte (ib_out s) ch) as [d'|]; [|done].
    destruct ((bs_mode d' =? 0) && (bs_size d' =? 0)); [done|]. simplify_eq.
    eapply runs_ex; [apply runs_modify|]. by apply Hnext.
Qed.

(** A call of [ibuf_get_more] with an empty window. *)
Lemma get_more_runs peeking s x fut0 :
  chan_inv s (x :: fut0) -> ib_window s = [] -> active s -> 0 < eoms (x :: fut0) ->
  rb_cur (ib_ring s) = rb_end (ib_ring s) ->
  exists s', runs (ibuf_get_more peeking) s x s' /\ read_post peeking x fut0 s'.
Proof.
  intros (Hw & fut & Hinv & Ef) Hwin Hact Heom Hce. rewrite Hwin in Ef. cbn [app] in Ef. subst fut.
  pose proof (inv_ring _ _ _ _ Hinv) as (Hs & Hi & Hcu & Hb). destruct Hact as [Ha1 Ha2].
  unfold ibuf_get_more. eapply runs_ex; [apply runs_gets|]. eapply runs_ex; [apply runs_gets|].
  eapply runs_ex; [apply runs_cassert; lia|].
  eapply runs_ex; [apply runs_cassert; by apply bool_decide_eq_true_2|].
  eapply runs_ex; [apply runs_cassert; apply andb_true_iff; lia|].
  eapply runs_ex; [apply runs_cassert; lia|]. eapply runs_ex; [apply runs_gets|].
  rewrite Hce. apply get_more_loop_runs; try done.
  pose proof (ring_data_bound (ib_ring s) (rb_end (ib_ring s)) (inv_ring _ _ _ _ Hinv)) as HB.
  unfold ib_fuel, rb_size in *. destruct (decide _); lia.
Qed.

Lemma window_nil s :
  ring_ok (ib_ring s) -> win_ok (ib_ring s) -> ib_window s = [] -> rb_cur (ib_ring s) = rb_end (ib_ring s).
Proof.
  intros Hr [Hw1 Hw2] Hnil. rewrite ib_window_slice in Hnil by done. destruct Hr as (Hs & Hi & Hc & Hb).
  pose proof (slice_length (rb_buf (ib_ring s)) (rb_cur (ib_ring s)) (rb_end (ib_ring s)) ltac:(lia)) as HL.
  rewrite Hnil in HL. cbn [length] in HL. unfold rb_size in *.
  destruct (Z.leb_spec (rb_cur (ib_ring s)) (rb_inp (ib_ring s))); lia.
Qed.

End bounded.
