(* ===== verification/Delivery.v ===== *)
(** * Delivery of messages over a channel

    The laws of a channel's input stream (InputBuf.v), and what they give: every message the peer
    sends is handled once, complete and in order, for any segmentation of the data and any interleaving
    of socket reads and message handling; and what one channel writes (ChannelOut.v) another one reads. *)

From S2P Require Import Prelude Streams OutputBuf ChannelOut InputBuf ChannelIn JsonWrite JsonRead.

(** ** The laws of the stream *)

Lemma win_bytes s : ring_ok (ib_ring s) -> bytes (ib_window s).
Proof. intros Hr. rewrite ib_window_slice by done. apply slice_bytes, Hr. Qed.

Lemma chan_inv_ring N s f : chan_inv N s f -> ring_ok (ib_ring s).
Proof. intros (_ & fut & Hi & _). apply Hi. Qed.

(** Reading from the window. *)
Lemma chan_inv_advance N s f n :
  chan_inv N s f -> (n <= length (ib_window s))%nat ->
  chan_inv N (is_advance n s) (drop n f) /\ ib_window (is_advance n s) = drop n (ib_window s).
Proof.
  intros ([Hw1 Hw2] & fut & Hi & ->) Hn. pose proof Hi as [HN Hr Hc Hp Hh Hq Hm Hnet Hd].
  pose proof Hr as (Hs & Hin & Hcu & Hb).
  assert (Hlen : Z.of_nat (length (ib_window s)) = rb_end (ib_ring s) - rb_cur (ib_ring s)).
  { rewrite ib_window_slice by done. apply slice_length; [lia|]. unfold rb_size in *.
    destruct (Z.leb_spec (rb_cur (ib_ring s)) (rb_inp (ib_ring s))); lia. }
  set (c := rb_cur (ib_ring s) + Z.of_nat n).
  assert (Hcc : rb_cur (ib_ring s) <= c <= rb_end (ib_ring s)) by lia.
  assert (Hsz : c <= rb_size (ib_ring s)).
  { destruct (Z.leb_spec (rb_cur (ib_ring s)) (rb_inp (ib_ring s))); lia. }
  assert (Hwin : ib_window (is_advance n s) = drop n (ib_window s)).
  { rewrite (ib_window_slice s) by done. unfold ib_window. cbn. fold c. rewrite (proj2 (Z.leb_le 0 c)) by lia.
    rewrite (slice_split _ (rb_cur (ib_ring s)) c) by lia.
    symmetry. apply drop_app_length'. apply Nat2Z.inj. rewrite slice_length; unfold rb_size in *; lia. }
  assert (Hw : win_ok (ib_ring (is_advance n s))).
  { unfold win_ok. cbn. fold c. unfold rb_size in *. cbn. split; [lia|].
    destruct (Z.leb_spec (rb_cur (ib_ring s)) (rb_inp (ib_ring s)));
      destruct (Z.leb_spec c (rb_inp (ib_ring s))); lia. }
  assert (Hr' : ring_ok (ib_ring (is_advance n s))).
  { unfold ring_ok, rb_size in *. cbn. fold c. split_and!; done || lia. }
  assert (Hdat : forall a, ring_data (ib_ring (is_advance n s)) a = ring_data (ib_ring s) a).
  { intros a. by apply ring_data_ext. }
  pose proof (ring_data_run (ib_ring s) (rb_cur (ib_ring s)) c Hr ltac:(lia) ltac:(lia)) as H1.
  pose proof (ring_data_run (ib_ring (is_advance n s)) c (rb_end (ib_ring s)) Hr' ltac:(lia)) as H2.
  destruct Hw as [Hwa Hwb].
  specialize (H2 Hwb). rewrite !Hdat in H2.
  split; [|done]. split; [done|]. exists fut. split.
  - constructor; try done.
    + intros E. apply (win_cur_ok _ Hr'); [done|exact E].
    + change (rb_cur (ib_ring (is_advance n s))) with c. change (rb_end (ib_ring (is_advance n s))) with (rb_end (ib_ring s)).
      rewrite !Hdat, H2, length_app. lia.
    + apply (req_ok_mono (ib_ring s)); [done|done| |exact Hq].
      change (rb_cur (ib_ring (is_advance n s))) with c. rewrite Hdat, H1, length_app. lia.
  - rewrite Hwin. by rewrite drop_app_le.
Qed.

Section laws.
Context (T : list Z) (N : nat).

(** The reader of a message sees its bytes and then the mark; [T] is what follows the message. *)
Definition chan_yields (s : InputBuf) (l : list Z) : Prop :=
  (chan_inv N s T /\ l = [] /\ ms_handling (ib_msg s) <> HandleMsgActive /\
   (ib_req s = None -> 0 < ms_count (ib_msg s))) \/
  (active s /\ exists m, bytes m /\ chan_inv N s (m ++ MARKER_EOM :: T) /\ l `prefix_of` m ++ [MARKER_EOM]).

Lemma eoms_message m : 0 < eoms (m ++ MARKER_EOM :: T).
Proof. rewrite eoms_app, eoms_cons. rewrite Z.eqb_refl. pose proof (eoms_nonneg m). pose proof (eoms_nonneg T). lia. Qed.

Lemma chan_yields_cons s x l :
  chan_yields s (x :: l) ->
  active s /\ exists fut, chan_inv N s (x :: fut) /\ 0 < eoms (x :: fut) /\
    ((x = MARKER_EOM /\ l = [] /\ fut = T) \/
     (is_byte x /\ exists m, bytes m /\ fut = m ++ MARKER_EOM :: T /\ l `prefix_of` m ++ [MARKER_EOM])).
Proof.
  intros [(_ & ? & _)|(Ha & m & Hm & Hi & Hp)]; [done|]. split; [done|].
  pose proof (eoms_message m) as He. destruct m as [|y m]; cbn [app] in *.
  - exists T. destruct Hp as (k & Hk). cbn in Hk. simplify_eq. symmetry in H0. apply app_nil in H0 as [-> _].
    split_and!; [done|done|by left].
  - apply prefix_cons_inv_1 in Hp as Hxy. apply prefix_cons_inv_2 in Hp. subst y.
    apply Forall_cons in Hm as [Hx Hm]. exists (m ++ MARKER_EOM :: T). split_and!; [done|done|].
    right. eauto.
Qed.

Lemma stream_call s x l peeking :
  chan_yields s (x :: l) -> ib_window s = [] ->
  exists s', runs (ibuf_get_more peeking) s x s' /\ chan_yields s' (if peeking then x :: l else l).
Proof.
  intros Hy Hwin. pose proof Hy as Hy0. apply chan_yields_cons in Hy as (Ha & fut & Hi & He & Hx).
  pose proof Hi as (Hw & _). pose proof (chan_inv_ring _ _ _ Hi) as Hr.
  destruct (get_more_runs N peeking s x fut Hi Hwin Ha He (window_nil s Hr Hw Hwin)) as (s' & Hrun & Hpost).
  exists s'. split; [done|]. unfold read_post in Hpost. destruct peeking.
  - destruct Hpost as [Hi' Ha']. right. split; [done|].
    destruct Hx as [(-> & -> & ->)|(Hb & m & Hm & -> & Hp)].
    + exists []. split_and!; [constructor|done|done].
    + exists (x :: m). split_and!; [by constructor|done|by apply prefix_cons].
  - destruct Hpost as [Hi' Hpost]. destruct Hx as [(-> & -> & ->)|(Hb & m & Hm & -> & Hp)].
    + left. destruct Hpost as (? & ? & _). done.
    + right. destruct (Z.eqb_spec x MARKER_EOM); [unfold is_byte, MARKER_EOM in *; lia|]. eauto.
Qed.

Lemma tcp_stream_call s x l (peeking : bool) :
  chan_yields s (x :: l) -> ib_window s = [] ->
  exists s', (if peeking then tcp_peek_stream else tcp_read_stream) s = (Val x, s') /\
    chan_yields s' (if peeking then x :: l else l).
Proof.
  intros Hy Hwin. destruct (stream_call s x l peeking Hy Hwin) as (s' & Hrun & Hy').
  exists s'. split; [|done].
  apply chan_yields_cons in Hy as (_ & fut & Hi & _). pose proof Hi as (Hw & _).
  assert (E : (rb_cur (ib_ring s) <? rb_end (ib_ring s)) = false).
  { rewrite (window_nil s (chan_inv_ring _ _ _ Hi) Hw Hwin). apply Z.ltb_irrefl. }
  destruct peeking; unfold tcp_peek_stream, tcp_read_stream, bind, gets; by rewrite E.
Qed.

#[export] Program Instance tcp_input_laws : InputStreamLaws InputBuf := { yields := chan_yields }.
Next Obligation. intros s x l Hy Hw. by apply (tcp_stream_call s x l false). Qed.
Next Obligation. intros s x l Hy Hw. by apply (tcp_stream_call s x l true). Qed.
Next Obligation.
  intros s x l b w Hy Hw. apply chan_yields_cons in Hy as (_ & fut & (_ & f & _ & Hf) & _).
  change (is_window s) with (ib_window s) in Hw. rewrite Hw in Hf. cbn in Hf. congruence.
Qed.
Next Obligation.
  intros s n l Hy Hn Hl. change (is_window s) with (ib_window s) in Hn.
  destruct Hy as [(Hi & -> & Hh & Hq)|(Ha & m & Hm & Hi & Hp)].
  - cbn [length] in Hl. assert (n = 0%nat) as -> by lia. left.
    destruct (chan_inv_advance N s T 0 Hi ltac:(lia)) as [Hi' _]. by rewrite drop_0 in Hi'.
  - destruct (chan_inv_advance N s _ n Hi Hn) as [Hi' _]. right. split; [done|]. exists (drop n m).
    assert (Hnm : (n <= length m)%nat).
    { destruct (decide (n <= length m)%nat) as [|Hgt]; [done|]. exfalso.
      pose proof (win_bytes s (chan_inv_ring _ _ _ Hi)) as Hwb. pose proof Hi as (_ & f & _ & Hf).
      assert (Hlook : ib_window s !! length m = Some MARKER_EOM).
      { rewrite <- (lookup_app_l _ f) by lia. rewrite <- Hf, lookup_app_r by lia. by rewrite Nat.sub_diag. }
      apply (Forall_lookup_1 _ _ _ _ Hwb) in Hlook. unfold is_byte, MARKER_EOM in Hlook. lia. }
    split_and!; [by apply Forall_drop|by rewrite drop_app_le in Hi'|].
    destruct Hp as (k & Hk). exists k. rewrite <- !drop_app_le by done. by rewrite Hk.
Qed.
Next Obligation.
  intros s n Hn. unfold is_window, tcp_input in *. unfold ib_window in *. cbn.
  destruct (Z.leb_spec 0 (rb_cur (ib_ring s))) as [Hc|Hc].
  2:{ cbn [length] in Hn. assert (n = 0%nat) as -> by lia. by rewrite Z.add_0_r, (proj2 (Z.leb_gt _ _)). }
  rewrite (proj2 (Z.leb_le _ _)) by lia. unfold slice in *.
  rewrite skipn_firstn_comm. f_equal; [lia|]. rewrite drop_drop. f_equal. lia.
Qed.
Next Obligation.
  intros s l k [(Hi & E & Hh & Hq)|(Ha & m & Hm & Hi & Hp)].
  - left. apply app_nil in E as [-> _]. done.
  - right. split; [done|]. exists m. split_and!; [done|done|]. by eapply prefix_app_l.
Qed.
End laws.

(** ** Handling messages *)

(** [start_channel]: the channel posts its first read; the peer will send [net]. *)
Definition start_channel : B unit := ibuf_trigger_read.

(** What protocol handlers do: they read the fields of a message, and then its end. *)
Definition receive {A} (body : B A) : B A :=
  let! a := body in
  let! ch := read_stream in
  if ch =? MARKER_EOM then ret a else throw ERR_JSON_SYNTAX.

Section delivery.
Context {A : Type} (body : B A).

(** [body] reads the message [m] and returns [a], on any stream that obeys the laws of the channel. *)
Definition handles (m : list Z) (a : A) : Prop :=
  bytes m /\ forall T N, @reads InputBuf tcp_input (tcp_input_laws T N) A (fun rest => rest = [MARKER_EOM]) body m a.

(** The events of the dispatch thread: a read is complete; a message is handled. [acc] are the
    results of the messages handled so far. *)
Inductive in_step : InputBuf * list A -> InputBuf * list A -> Prop :=
  | step_read s acc s' :
      ib_req s <> None -> ib_net s <> [] -> runs tcp_channel_read_done s tt s' ->
      in_step (s, acc) (s', acc)
  | step_message s acc s' a :
      0 < ms_events (ib_msg s) -> runs (handle_channel_msg (receive body)) s (Some a) s' ->
      in_step (s, acc) (s', acc ++ [a]).

(** The symbols of a sequence of messages. *)
Definition stream_of (ms : list (list Z)) : list Z := concat (map (fun m => m ++ [MARKER_EOM]) ms).

(** Between two events: the messages [ms] are still to be handled, with results [ans]. *)
Definition chan_idle (ms : list (list Z)) (ans : list A) (s : InputBuf) : Prop :=
  Forall2 handles ms ans /\ chan_inv (length (concat (ib_net s))) s (stream_of ms) /\
  ms_handling (ib_msg s) <> HandleMsgActive /\ (ib_req s = None -> 0 < ms_count (ib_msg s)) /\
  (ms_long (ib_msg s) = true -> ring_data (ib_ring s) (rb_cur (ib_ring s)) <> []).

Lemma ib_inv_bound N N' s a f :
  ib_inv N s a f -> (length (concat (ib_net s)) <= N')%nat -> ib_inv N' s a f.
Proof. intros [] HN. by constructor. Qed.

Lemma chan_inv_bound N s f : chan_inv N s f -> chan_inv (length (concat (ib_net s))) s f.
Proof. intros (Hw & fut & Hi & ->). split; [done|]. exists fut. split; [by eapply ib_inv_bound|done]. Qed.

Lemma inv_set_msg N s a f m' :
  ib_inv N s a f -> msg_ok m' -> ms_long m' = ms_long (ib_msg s) -> ms_count m' = ms_count (ib_msg s) ->
  ib_inv N (set_msg (fun _ => m') s) a f.
Proof.
  intros [HN Hr Hc Hp Hh Hq Hm Hn (here & there & D1 & D2 & -> & Hsy & Hcnt)] Hm' Hl Hco.
  constructor; try done. exists here, there. split_and!; try done.
  cbn. unfold long_count in *. by rewrite Hl, Hco.
Qed.

(** A read step. *)
Lemma idle_read ms ans s :
  chan_idle ms ans s -> ib_req s <> None -> ib_net s <> [] ->
  exists s', runs tcp_channel_read_done s tt s' /\ chan_idle ms ans s' /\
    (length (concat (ib_net s')) < length (concat (ib_net s)))%nat.
Proof.
  intros (Hans & (Hw & fut & Hi & Ef) & Hh & Hreq & _) Hq Hn.
  destruct (channel_read_done_runs _ s _ fut Hi Hq Hn)
    as (s' & x & n & Hrun & Hx & Hfed & Hcat & Hout & Hml & Hreq' & Hnew).
  assert (Hlt : (length (concat (ib_net s')) < length (concat (ib_net s)))%nat).
  { rewrite Hcat, length_app. destruct x; [done|cbn [length]; lia]. }
  exists s'. split; [done|]. split; [|done]. pose proof Hfed as (Hr' & Hc' & Hd' & Hwin).
  destruct (Hwin Hw) as (Hw' & Hws & Hde). split; [done|]. split.
  - apply (chan_inv_bound (length (concat (ib_net s)))). split; [done|]. exists fut. split.
    + apply Hnew; [|done]. destruct Hw' as [Hw1 Hw2]. destruct Hr' as (?&?&?&?).
      destruct (Z.leb_spec (rb_cur (ib_ring s')) (rb_inp (ib_ring s'))); lia.
    + rewrite Ef. f_equal. rewrite !ib_window_slice by (done || apply Hi). done.
  - split; [by apply Hml|]. split; [done|]. intros _ E. rewrite Hd' in E. by apply app_nil in E as [_ ->].
Qed.

(** The reader of a message stops at its end. *)
Lemma receive_runs T N s m a :
  handles m a -> active s -> chan_inv N s (m ++ MARKER_EOM :: T) ->
  exists s', runs (receive body) s a s' /\ chan_inv N s' T /\ ms_handling (ib_msg s') <> HandleMsgActive /\
    (ib_req s' = None -> 0 < ms_count (ib_msg s')) /\ ms_long (ib_msg s') = false.
Proof.
  intros [Hm Hbody] Ha Hi.
  destruct (Hbody T N s [MARKER_EOM] eq_refl) as (s1 & Hrun1 & Hy).
  { right. split; [done|]. exists m. done. }
  apply chan_yields_cons in Hy as (Ha1 & fut & Hi1 & He & [(_ & _ & ->)|(Hx & _)]);
    [|unfold is_byte, MARKER_EOM in Hx; lia].
  pose proof Hi1 as (Hw & f & _ & Ef). pose proof (chan_inv_ring _ _ _ Hi1) as Hr.
  assert (Hwin : ib_window s1 = []).
  { pose proof (win_bytes s1 Hr) as Hb. destruct (ib_window s1) as [|b w]; [done|]. cbn in Ef. simplify_eq.
    apply Forall_cons in Hb as [Hb _]. unfold is_byte, MARKER_EOM in Hb. lia. }
  destruct (get_more_runs N false s1 MARKER_EOM T Hi1 Hwin Ha1 He (window_nil s1 Hr Hw Hwin))
    as (s2 & Hrun2 & Hi2 & Hh2 & Hq2 & Hl2).
  exists s2. split_and!; try done.
  unfold receive. eapply runs_bind; [exact Hrun1|]. apply (runs_bind _ _ _ MARKER_EOM s2); [|apply runs_ret].
  unfold runs, read_stream. change (is_window s1) with (ib_window s1). rewrite Hwin.
  change (is_read s1) with (tcp_read_stream s1). unfold tcp_read_stream, bind, gets.
  rewrite (window_nil s1 Hr Hw Hwin), Z.ltb_irrefl. exact Hrun2.
Qed.

(** A message step. *)
Lemma idle_message ms ans s :
  chan_idle ms ans s -> 0 < ms_events (ib_msg s) ->
  exists m ms' a ans' s', ms = m :: ms' /\ ans = a :: ans' /\
    runs (handle_channel_msg (receive body)) s (Some a) s' /\ chan_idle ms' ans' s' /\
    (length (concat (ib_net s')) <= length (concat (ib_net s)))%nat.
Proof.
  intros (Hans & Hi & Hh & Hreq & Hlong) Hev. pose proof Hi as (Hw & fut & Hib & Ef).
  pose proof (inv_msg _ _ _ _ Hib) as Hmok. pose proof Hmok as (He & Hc & Hl & Hid & Hevs).
  destruct (decide (ms_handling (ib_msg s) = HandleMsgTriggered)) as [Ht|]; [|lia].
  assert (Hpos : 0 < ms_count (ib_msg s)).
  { destruct (Z.eq_dec (ms_count (ib_msg s)) 0) as [E|]; [|lia]. apply Hid in E. congruence. }
  destruct ms as [|m ms'].
  { (* the counted message has a symbol in the stream *)
    exfalso. pose proof Hib as [_ Hr _ _ _ _ _ _ (here & there & D1 & D2 & E & _ & Hcnt)].
    cbn in Ef. symmetry in Ef. apply app_nil in Ef as [Ewin ->].
    symmetry in E. apply app_nil in E as [-> ->].
    change (eoms []) with 0 in Hcnt. unfold long_count in Hcnt.
    destruct (ms_long (ib_msg s)) eqn:El; [|lia]. apply (Hlong eq_refl).
    rewrite (window_nil s Hr Hw Ewin).
    pose proof (decode_join _ _ _ _ _ _ _ D1 D2) as D. by apply decode_clean_nil, app_nil in D as [-> _]. }
  inversion Hans as [|? a ? ans' Hma Hans']; subst. exists m, ms', a, ans'.
  set (m2 := mkMsg (ms_eof (ib_msg s)) (ms_long (ib_msg s)) (ms_count (ib_msg s)) HandleMsgActive
               (ms_events (ib_msg s) + -1)).
  set (s2 := set_msg (fun _ => m2) s).
  assert (Hi2 : chan_inv (length (concat (ib_net s))) s2 (m ++ MARKER_EOM :: stream_of ms')).
  { split; [done|]. exists fut. split.
    - apply inv_set_msg; try done. unfold msg_ok, m2. cbn. rewrite Hevs. split_and!; try done.
      split; [done|]. intros E. lia.
    - change (ib_window s2) with (ib_window s). rewrite <- Ef. unfold stream_of. cbn.
      by rewrite <- (assoc_L (++)). }
  destruct (receive_runs (stream_of ms') (length (concat (ib_net s))) s2 m a Hma) as (s' & Hrun & Hi' & Hh' & Hq' & Hl');
    [by split|done|].
  exists s'. split_and!; [done|done| | |].
  - unfold handle_channel_msg. eapply runs_bind; [apply runs_modify|]. eapply runs_bind; [apply runs_gets|].
    eapply runs_bind; [apply runs_cassert; by apply bool_decide_eq_true_2|].
    eapply runs_bind; [apply runs_cassert; cbn; by rewrite (proj2 (Z.eqb_neq _ _)) by lia|].
    eapply (runs_bind _ _ _ 1 s2); [|eapply runs_bind; [exact Hrun|apply runs_ret]].
    unfold ibuf_start_message. eapply runs_bind; [apply runs_gets|].
    eapply runs_bind; [apply runs_cassert; by apply bool_decide_eq_true_2|]. cbn [set_msg ib_msg ms_add_events ms_count ms_eof].
    rewrite (proj2 (Z.eqb_neq _ _)), He by lia. eapply runs_bind; [apply runs_modify|]. done.
  - split_and!; [done|by eapply chan_inv_bound|done|done|congruence].
  - destruct Hi' as (_ & f & Hi' & _). apply Hi'.
Qed.

(** The state after the connection is opened. *)
Definition connected (net : list (list Z)) : InputBuf := snd (start_channel (ibuf_init net)).

Lemma connected_idle net ms ans :
  Forall2 handles ms ans -> Forall (fun c => c <> [] /\ bytes c) net -> wire (concat net) (stream_of ms) ->
  runs start_channel (ibuf_init net) tt (connected net) /\ chan_idle ms ans (connected net) /\
  ib_net (connected net) = net.
Proof.
  intros Hans Hnet Hwire.
  assert (Hsize : rb_size (ib_ring (ibuf_init net)) = 4096) by done.
  assert (Hr : ring_ok (ib_ring (ibuf_init net))).
  { unfold ring_ok. rewrite Hsize. split_and!; [lia|done|done|done|done|].
    apply Forall_replicate. unfold is_byte. lia. }
  assert (Hno : no_eos (stream_of ms)).
  { clear -Hans. unfold stream_of. induction Hans as [|m a ms ans [Hm _] _ IH]; cbn; [constructor|].
    apply Forall_app. split; [|done]. apply Forall_app. split; [|by repeat constructor].
    eapply Forall_impl; [exact Hm|]. unfold is_byte, MARKER_EOS. lia. }
  assert (Hinv : ib_inv (length (concat net)) (ibuf_init net) 0 (stream_of ms)).
  { constructor; try done.
    exists [], (stream_of ms). split_and!; try done. by apply decode_wire. }
  destruct (finish_runs _ (ibuf_init net) 0 0 (stream_of ms) Hinv) as (s' & Hrun & Hi & Hms & Hnone & Hn);
    [lia|cbn; lia|done|].
  assert (E : connected net = s').
  { unfold connected, start_channel. unfold runs in Hrun.
    change (set_window 0 0 (ibuf_init net)) with (ibuf_init net) in Hrun. by rewrite Hrun. }
  rewrite E. change (set_window 0 0 (ibuf_init net)) with (ibuf_init net) in Hrun.
  rewrite slice_nil in Hi by lia. split; [done|]. split; [|by rewrite Hn].
  split_and!; [done|by eapply chan_inv_bound| | |]; rewrite ?Hms; [done| |done].
  intros E0. apply Hnone in E0. exfalso. revert E0. by rewrite Hsize.
Qed.
(** Every step keeps the invariant and makes progress. *)
Lemma in_step_inv ms rest s acc s' acc' :
  chan_idle ms rest s -> in_step (s, acc) (s', acc') ->
  exists ms' rest', chan_idle ms' rest' s' /\ acc' ++ rest' = acc ++ rest /\
    (length (concat (ib_net s')) + length ms' < length (concat (ib_net s)) + length ms)%nat.
Proof.
  intros Hi Hstep. inversion Hstep as [? ? ? Hq Hn Hr E1 E2|? ? ? a Hev Hr E1 E2]; subst.
  - destruct (idle_read ms rest s Hi Hq Hn) as (s2 & Hr2 & Hi2 & Hlt).
    destruct (runs_det _ _ _ _ _ _ Hr Hr2) as [_ ->]. exists ms, rest. split; [done|]. split; [done|lia].
  - destruct (idle_message ms rest s Hi Hev) as (m & ms' & a2 & ans' & s2 & -> & -> & Hr2 & Hi2 & Hle).
    destruct (runs_det _ _ _ _ _ _ Hr Hr2) as [Ea ->]. injection Ea as ->. exists ms', ans'.
    split; [done|]. split; [by rewrite <- (assoc_L (++))|cbn [length]; lia].
Qed.

Lemma in_steps_inv n ms rest s acc s' acc' :
  chan_idle ms rest s -> nsteps in_step n (s, acc) (s', acc') ->
  exists ms' rest', chan_idle ms' rest' s' /\ acc' ++ rest' = acc ++ rest /\
    (n + length (concat (ib_net s')) + length ms' <= length (concat (ib_net s)) + length ms)%nat.
Proof.
  revert ms rest s acc. induction n as [|n IH]; intros ms rest s acc Hi Hn.
  - inversion Hn; subst. exists ms, rest. split; [done|]. split; [done|lia].
  - inversion Hn as [|? ? [s1 acc1] ? Hst Hrest]; subst.
    destruct (in_step_inv _ _ _ _ _ _ Hi Hst) as (ms1 & rest1 & Hi1 & E1 & Hlt).
    destruct (IH _ _ _ _ Hi1 Hrest) as (ms2 & rest2 & Hi2 & E2 & Hle). exists ms2, rest2.
    split; [done|]. split; [congruence|lia].
Qed.

(** Some step is enabled as long as a message is missing. *)
Lemma idle_progress ms rest s :
  chan_idle ms rest s -> ms <> [] -> (ib_req s <> None /\ ib_net s <> []) \/ 0 < ms_events (ib_msg s).
Proof.
  intros (_ & (Hw & fut & Hi & Ef) & Hh & Hreq & _) Hms. pose proof (inv_msg _ _ _ _ Hi) as (_ & _ & _ & Hid & Hevs).
  pose proof (inv_ring _ _ _ _ Hi) as Hr.
  destruct (decide (ms_handling (ib_msg s) = HandleMsgTriggered)); [right; lia|]. left.
  assert (ms_handling (ib_msg s) = HandleMsgIdle) as Hidle by (by destruct (ms_handling (ib_msg s))).
  apply Hid in Hidle. split; [intros E; specialize (Hreq E); lia|].
  pose proof Hi as [_ _ _ _ _ _ _ _ (here & there & D1 & D2 & -> & _ & Hcnt)].
  intros E. rewrite E in D2. cbn in D2. injection D2 as _ <-. rewrite (right_id_L [] (++)) in Ef.
  assert (He : eoms (stream_of ms) = 0).
  { rewrite Ef, eoms_app, eoms_bytes by (by apply win_bytes).
    unfold long_count in Hcnt. pose proof (eoms_nonneg here). destruct (ms_long (ib_msg s)); lia. }
  destruct ms as [|m ms]; [done|]. change (stream_of (m :: ms)) with ((m ++ [MARKER_EOM]) ++ stream_of ms) in He.
  rewrite !eoms_app in He. pose proof (eoms_nonneg m). pose proof (eoms_nonneg (stream_of ms)).
  change (eoms [MARKER_EOM]) with 1 in He. lia.
Qed.
End delivery.

Lemma wire_bytes w l : wire w l -> bytes w.
Proof.
  assert (Hsz : forall sz, size_code sz -> bytes sz).
  { induction sz as [|b sz IH]; [done|]. cbn [size_code]. intros Hs. destruct sz as [|b' sz'].
    - constructor; [unfold is_byte; lia|constructor].
    - destruct Hs as [Hb Hs]. constructor; [unfold is_byte; lia|by apply IH]. }
  induction 1 as [|i s w l Hi Hw IH]; [constructor|]. apply Forall_app. split; [|done].
  destruct Hi; repeat (apply Forall_cons; split; [done || (unfold is_byte, ESC; lia)|]); try constructor.
  apply Forall_app. by split; [apply Hsz|].
Qed.

(** What holds in every state that a connection reaches. *)
Definition delivered {A} (body : B A) (net : list (list Z)) (ms : list (list Z)) (ans : list A)
    (n : nat) (s : InputBuf) (acc : list A) : Prop :=
  (exists rest, ans = acc ++ rest) /\
  (ib_req s <> None -> ib_net s <> [] -> exists s', runs tcp_channel_read_done s tt s') /\
  (0 < ms_events (ib_msg s) -> exists a s', runs (handle_channel_msg (receive body)) s (Some a) s') /\
  (n <= length (concat net) + length ms)%nat /\
  (acc = ans \/ (ib_req s <> None /\ ib_net s <> []) \/ 0 < ms_events (ib_msg s)).

Lemma delivery {A} (body : B A) net ms ans n s acc :
  Forall2 (handles body) ms ans -> Forall (fun c => c <> [] /\ bytes c) net ->
  wire (concat net) (stream_of ms) ->
  nsteps (in_step body) n (connected net, []) (s, acc) -> delivered body net ms ans n s acc.
Proof.
  intros Hans Hnet Hwire Hsteps.
  destruct (connected_idle body net ms ans Hans Hnet Hwire) as (_ & Hi0 & En).
  destruct (in_steps_inv body n ms ans _ _ _ _ Hi0 Hsteps) as (ms' & rest & Hi & Eacc & Hle).
  rewrite En in Hle. cbn [app] in Eacc. unfold delivered. split_and!.
  - exists rest. done.
  - intros Hq Hn. destruct (idle_read body ms' rest s Hi Hq Hn) as (s' & Hr & _). eauto.
  - intros Hev. destruct (idle_message body ms' rest s Hi Hev) as (m & ms2 & a & ans' & s' & _ & _ & Hr & _). eauto.
  - lia.
  - destruct ms' as [|m ms']; [left|right; by eapply idle_progress].
    destruct Hi as (Hans' & _). inversion Hans'; subst. by rewrite (right_id_L [] (++)).
Qed.

Lemma handles_symbols l : bytes l -> handles (read_symbols (length l)) l l.
Proof. intros Hb. split; [done|]. intros T N. apply (reads_symbols (IS := InputBuf)). Qed.

(** ** Properties *)

(** C1: a peer sends a sequence of messages, encoded as the wire format says, and its data arrives
    in blocks of any sizes.  Reads of the socket complete, and messages are handled, in any
    interleaving the posted events allow.  Then in every state that is reached the results of the
    handled messages are those of the first messages sent, in order; the next completion and the
    next event run without failing an assertion or leaving the buffer, whose size, contents and
    wrap-around they manage; no run has more steps than there are bytes and messages; and as long as a
    message has not been handled, some step can be taken. *)
Theorem input_delivers_messages {A} (body : B A) net ms ans n s acc :
  Forall2 (handles body) ms ans -> Forall (fun c => c <> [] /\ bytes c) net ->
  wire (concat net) (stream_of ms) ->
  nsteps (in_step body) n (connected net, []) (s, acc) ->
  (exists rest, ans = acc ++ rest) /\
  (ib_req s <> None -> ib_net s <> [] -> exists s', runs tcp_channel_read_done s tt s') /\
  (0 < ms_events (ib_msg s) -> exists a s', runs (handle_channel_msg (receive body)) s (Some a) s') /\
  (n <= length (concat net) + length ms)%nat /\
  (acc = ans \/ (ib_req s <> None /\ ib_net s <> []) \/ 0 < ms_events (ib_msg s)).
Proof. apply delivery. Qed.

Lemma input_delivers_messages_witness :
  let net := [[1; ESC; 0]; [ESC; 1]] in
  let s := snd (tcp_channel_read_done (connected net)) in
  (exists rest, [[1; ESC]] = [] ++ rest) /\
  (ib_req s <> None -> ib_net s <> [] -> exists s', runs tcp_channel_read_done s tt s') /\
  (0 < ms_events (ib_msg s) ->
    exists a s', runs (handle_channel_msg (receive (read_symbols 2))) s (Some a) s') /\
  (1 <= length (concat net) + 1)%nat /\
  ([] = [[1; ESC]] \/ (ib_req s <> None /\ ib_net s <> []) \/ 0 < ms_events (ib_msg s)).
Proof.
  intros net s.
  apply (input_delivers_messages (read_symbols 2) net [[1; ESC]] [[1; ESC]] 1 s []).
  - constructor; [apply (handles_symbols [1; ESC])|constructor].
    repeat (apply Forall_cons; split; [unfold is_byte, ESC; lia|]). apply Forall_nil; done.
  - repeat (apply Forall_cons; split; [split; [done|]|]); try apply Forall_nil; try done;
      repeat (apply Forall_cons; split; [unfold is_byte, ESC; lia|]); apply Forall_nil; done.
  - apply (wire_cons [1] [1] [ESC; 0; ESC; 1] [ESC; MARKER_EOM]); [constructor; [unfold is_byte; lia|done]|].
    apply (wire_cons [ESC; 0] [ESC] [ESC; 1] [MARKER_EOM]); [constructor|].
    apply (wire_cons [ESC; 1] [MARKER_EOM] [] []); constructor.
  - apply (nsteps_l _ _ _ (s, [])); [|constructor]. apply step_read; [vm_compute; discriminate|vm_compute; discriminate|].
    vm_compute. reflexivity.
Defined.

(** The operations that write bytes only. *)
Definition out_plain (op : out_op) : Prop :=
  match op with OpSym b => is_byte b | OpBlock bs => bytes bs | OpString s => bytes s end.

(** A sequence of messages, each with its end mark. *)
Definition message_ops (msgs : list (list out_op)) : list out_op :=
  concat (map (fun ops => ops ++ [OpSym MARKER_EOM]) msgs).
Definition message_symbols (ops : list out_op) : list Z := concat (map out_symbols ops).

Lemma message_ops_symbols msgs :
  message_symbols (message_ops msgs) = stream_of (map message_symbols msgs).
Proof.
  unfold message_ops, stream_of. induction msgs as [|ops msgs IH]; [done|]. cbn [map concat].
  unfold message_symbols in *. rewrite map_app, concat_app, IH. f_equal.
  by rewrite map_app, concat_app.
Qed.

Lemma message_ops_ok msgs : Forall (Forall out_plain) msgs -> Forall out_ok (message_ops msgs).
Proof.
  unfold message_ops. induction 1 as [|ops msgs Hops _ IH]; cbn; [constructor|].
  rewrite !Forall_app. split_and!; [|by constructor; [right; left|]|done].
  eapply Forall_impl; [exact Hops|]. intros [b|bs|bs] Hb; [by left|done|done].
Qed.

(** C2: what is written to a channel arrives at the other end.  For any messages, written in any way
    (symbols, blocks, strings) to a new channel with or without zero copy, the bytes the channel puts
    on the wire, cut into blocks in any way, make the input side of the peer's channel handle
    exactly these messages. *)
Theorem channel_transfers_messages {A} zc msgs (body : B A) ans :
  Forall (Forall out_plain) msgs -> Forall2 (handles body) (map message_symbols msgs) ans ->
  exists c, runs (out_run (message_ops msgs) ;! tcp_flush_with_flags) (new_output zc) tt c /\ ct_obuf c = [] /\
    forall net n s acc,
      concat net = oq_sent (ct_queue c) ++ pending (ct_queue c) -> Forall (fun b => b <> []) net ->
      nsteps (in_step body) n (connected net, []) (s, acc) ->
      delivered body net (map message_symbols msgs) ans n s acc.
Proof.
  intros Hops Hans.
  destruct (writes_ops _ (message_ops_ok msgs Hops) (new_output zc) [] (new_output_emits zc)) as (c1 & R1 & He1).
  cbn [app] in He1. change (concat (map out_symbols (message_ops msgs))) with (message_symbols (message_ops msgs)) in He1.
  rewrite message_ops_symbols in He1.
  assert (exists w, ct_closed c1 w /\ wire w (stream_of (map message_symbols msgs))) as (w & Hcl & Hw).
  { destruct msgs as [|ops msgs _] using rev_ind.
    - destruct He1 as [He1|(w & l0 & data & _ & Hne & _ & E)]; [done|]. symmetry in E. by apply app_nil in E as [_ ->].
    - unfold stream_of in *. rewrite !map_app, concat_app in *. cbn [map concat] in *.
      rewrite (right_id_L [] (++)), (assoc_L (++)) in *. by apply (emits_marker_closed c1). }
  destruct (flush_spec c1 w Hcl) as (c2 & R2 & (_ & _ & Ho) & _ & Hb2).
  exists c2. split; [by eapply runs_bind; [exact R1|]|]. split; [done|].
  unfold ct_out in Ho. rewrite Hb2, app_nil_r in Ho. rewrite Ho. intros net n s acc Enet Hne Hst.
  apply delivery; try done; [|by rewrite Enet].
  assert (Hb : bytes (concat net)) by (rewrite Enet; by eapply wire_bytes).
  clear -Hne Hb. induction Hne as [|b net Hb1 _ IH]; [constructor|]. cbn in Hb.
  apply Forall_app in Hb as [Hb2 Hb]. constructor; [done|by apply IH].
Qed.

Lemma channel_transfers_messages_witness :
  exists c, runs (out_run (message_ops [[OpSym 7; OpBlock [3; 200]]]) ;! tcp_flush_with_flags) (new_output true) tt c /\
    ct_obuf c = [] /\
    forall net n s acc,
      concat net = oq_sent (ct_queue c) ++ pending (ct_queue c) -> Forall (fun b => b <> []) net ->
      nsteps (in_step (read_symbols 3)) n (connected net, []) (s, acc) ->
      delivered (read_symbols 3) net [[7; 3; 200]] [[7; 3; 200]] n s acc.
Proof.
  apply (channel_transfers_messages true [[OpSym 7; OpBlock [3; 200]]] (read_symbols 3) [[7; 3; 200]]).
  - apply Forall_cons; split; [|constructor]. apply Forall_cons; split; [unfold out_plain, is_byte; lia|].
    apply Forall_cons; split; [|constructor]. repeat (apply Forall_cons; split; [unfold is_byte; lia|]). constructor.
  - apply Forall2_cons; split; [|constructor]. apply (handles_symbols [7; 3; 200]).
    repeat (apply Forall_cons; split; [unfold is_byte; lia|]). apply Forall_nil; done.
Defined.
