(* ===== verification/InputErrors.v ===== *)
(** * Errors on the input side of a channel

    What the end of the stream does to messages that have already arrived, and what a hostile peer
    can do: three inputs that violate assertions or the limits of the shift operator. *)

From S2P Require Import Prelude Streams InputBuf ChannelIn Delivery.

(** Runs of the loop on bytes whose values are known. *)
Lemma slice_load s p x i ch :
  slice (rb_buf (ib_ring s)) p (p + Z.of_nat (length x)) = x -> 0 <= p ->
  p + Z.of_nat (length x) <= rb_size (ib_ring s) -> x !! i = Some ch ->
  runs (load (p + Z.of_nat i)) s ch s.
Proof.
  intros Hx Hp Hl Hi. pose proof (lookup_lt_Some _ _ _ Hi) as Hlt. apply load_runs; [lia|lia|].
  assert (Hi2 : slice (rb_buf (ib_ring s)) p (p + Z.of_nat (length x)) !! i = Some ch) by (by rewrite Hx).
  unfold slice in Hi2. rewrite lookup_take_lt, lookup_drop in Hi2 by lia. rewrite <- Hi2. f_equal. lia.
Qed.

(** The state of a channel whose socket has just delivered [x], before it is scanned. *)
Record arrived (s : InputBuf) (x : list Z) : Prop := {
  ar_ring : ring_ok (ib_ring s);
  ar_clean : ib_inp s = dec_clean;
  ar_eof : ms_eof (ib_msg s) = false;
  ar_fits : rb_inp (ib_ring s) + Z.of_nat (length x) < rb_size (ib_ring s);
  ar_data : slice (rb_buf (ib_ring s)) (rb_inp (ib_ring s)) (rb_inp (ib_ring s) + Z.of_nat (length x)) = x }.

Section loop.
Context (s : InputBuf) (x : list Z) (Hs : arrived s x).

(** The loop from the [i]-th new byte on. *)
Definition rest_loop (i : nat) : B Z :=
  read_done_loop (S (length x) - i) (rb_inp (ib_ring s) + Z.of_nat i) (Z.of_nat (length x - i)).

Lemma read_done_start :
  x <> [] -> fst (rest_loop 0 s) = Fault -> fst (ibuf_read_done (Z.of_nat (length x)) s) = Fault.
Proof using Hs.
  intros Hx H. unfold ibuf_read_done. destruct (Z.eqb_spec (Z.of_nat (length x)) 0); [by destruct x|].
  rewrite (bind_runs _ _ _ _ _ (runs_gets _ _)), (ar_eof _ _ Hs). cbn [negb].
  rewrite (bind_runs _ _ _ _ _ (runs_cassert true s eq_refl)).
  rewrite (bind_runs _ _ _ _ _ (runs_gets _ _)). rewrite Nat2Z.id.
  unfold rest_loop in H. rewrite Z.add_0_r, !Nat.sub_0_r in H. unfold bind at 1.
  destruct (read_done_loop _ _ _ s) as [[| | |] s1]; by inversion H.
Qed.

(** One iteration of the loop at the [i]-th new byte. *)
Definition loop_body (ch : Z) (d : BinState) (next : B Z) : B Z :=
  if negb (bs_mode d =? 0) then
    cassert (negb (bs_esc d)) ;!
    match size_byte d ch with Some d' => modify (set_inp_state d') ;! next | None => fault end
  else if bs_esc d then
    modify (set_inp_state (mkBin false (bs_mode d) (bs_size d))) ;!
    (if ch =? 0 then ret tt
     else if ch =? 1 then
       let! m := gets ib_msg in
       if ms_long m then modify (set_msg (ms_set_long false)) ;! cassert (ms_count m =? 1)
       else ibuf_new_message
     else if ch =? 2 then ibuf_eof
     else if ch =? 3 then modify (set_inp_state (mkBin false 1 0))
     else ibuf_eof) ;!
    next
  else if ch =? ESC then modify (set_inp_state (mkBin true (bs_mode d) (bs_size d))) ;! next
  else next.

Lemma loop_step s1 i ch :
  ib_ring s1 = ib_ring s -> x !! i = Some ch -> bs_size (ib_inp s1) <= 0 \/ bs_mode (ib_inp s1) <> 0 ->
  rest_loop i s1 = loop_body ch (ib_inp s1) (rest_loop (S i)) s1.
Proof using Hs.
  intros Hr Hi Hd. pose proof (lookup_lt_Some _ _ _ Hi) as Hlt.
  pose proof (ar_ring _ _ Hs) as (? & ? & ? & ?). pose proof (ar_fits _ _ Hs).
  assert (Hload : runs (load (rb_inp (ib_ring s) + Z.of_nat i)) s1 ch s1).
  { apply (slice_load s1 _ x); rewrite ?Hr; [apply (ar_data _ _ Hs)|lia|lia|done]. }
  unfold rest_loop. replace (S (length x) - i)%nat with (S (S (length x) - S i)) by lia.
  cbn [read_done_loop]. destruct (Z.leb_spec (Z.of_nat (length x - i)) 0); [lia|].
  rewrite !(bind_runs _ _ _ _ _ (runs_gets _ _)). rewrite Hr.
  assert (Hw : wrap_ptr (ib_ring s) (rb_inp (ib_ring s) + Z.of_nat i + 1) = rb_inp (ib_ring s) + Z.of_nat (S i)).
  { unfold wrap_ptr. destruct (Z.eqb_spec (rb_inp (ib_ring s) + Z.of_nat i + 1) (rb_size (ib_ring s))); lia. }
  rewrite Hw. replace (Z.of_nat (length x - i) - 1) with (Z.of_nat (length x - S i)) by lia.
  unfold loop_body. destruct (negb (bs_mode (ib_inp s1) =? 0)) eqn:Em.
  - destruct (bs_esc (ib_inp s1)); [done|]. cbn [negb].
    rewrite !(bind_runs _ _ _ _ _ (runs_cassert true s1 eq_refl)). by rewrite (bind_runs _ _ _ _ _ Hload).
  - bool_to_prop. destruct (Z.ltb_spec 0 (bs_size (ib_inp s1))); [lia|]. by rewrite (bind_runs _ _ _ _ _ Hload).
Qed.
End loop.

(** One byte of a scan whose bytes are known. *)
Ltac scan Har i ch :=
  rewrite (loop_step _ _ Har _ i ch) by (done || (left; done) || (right; done)); cbn -[rest_loop].

(** A channel with a pending read, to which the peer sends [x] next; the scan of earlier data is
    between two items. *)
Record expecting (s : InputBuf) (x : list Z) : Prop := {
  ex_ring : ring_ok (ib_ring s);
  ex_req : exists n, ib_req s = Some (rb_inp (ib_ring s), n) /\ Z.of_nat (length x) <= n;
  ex_req_ok : req_ok (ib_ring s) (ib_req s);
  ex_fits : rb_inp (ib_ring s) + Z.of_nat (length x) < rb_size (ib_ring s);
  ex_bytes : bytes x;
  ex_clean : ib_inp s = dec_clean;
  ex_eof : ms_eof (ib_msg s) = false;
  ex_net : exists net, ib_net s = x :: net }.

(** The state after the socket has stored [x]. *)
Definition stored (x : list Z) (s : InputBuf) : InputBuf :=
  set_req None (set_ring (fun r => rb_set_buf (overwrite (Z.to_nat (rb_inp r)) x (rb_buf r)) r)
    (set_net (tail (ib_net s)) s)).

Lemma stored_size x s :
  ring_ok (ib_ring s) -> rb_inp (ib_ring s) + Z.of_nat (length x) < rb_size (ib_ring s) ->
  rb_size (ib_ring (stored x s)) = rb_size (ib_ring s).
Proof. intros (? & ? & _) ?. unfold rb_size in *. cbn. rewrite overwrite_length; lia. Qed.

Lemma expecting_runs s x :
  expecting s x -> tcp_channel_read_done s = ibuf_read_done (Z.of_nat (length x)) (stored x s) /\
    arrived (stored x s) x.
Proof.
  intros [Hr (n & Hq & Hn) _ Hf Hb Hc He (net & Hnet)]. pose proof Hr as (Hs & Hi & Hcu & Hbuf). split.
  - unfold tcp_channel_read_done. rewrite (bind_runs _ _ _ _ _ (runs_gets _ _)), Hq.
    rewrite (bind_runs _ _ _ _ _ (runs_gets _ _)), Hnet, drop_ge, take_ge by lia.
    rewrite !(bind_runs _ _ _ _ _ (runs_modify _ _)). f_equal. unfold stored. by rewrite Hnet.
  - pose proof (stored_size x s Hr Hf) as Hsz.
    constructor; try done; [| |].
    + unfold ring_ok. rewrite Hsz. split; [done|]. split; [exact Hi|]. split; [exact Hcu|].
      cbn. unfold overwrite. apply Forall_app. split; [by apply Forall_take|]. apply Forall_app.
      split; [done|by apply Forall_drop].
    + rewrite Hsz. exact Hf.
    + apply (slice_overwrite_at (rb_buf (ib_ring s)) x (rb_inp (ib_ring s))); [lia|]. unfold rb_size in Hf. lia.
Qed.

Lemma eof_active_runs s :
  ms_eof (ib_msg s) = false -> ms_handling (ib_msg s) = HandleMsgActive -> 0 <= ms_count (ib_msg s) ->
  runs ibuf_eof s tt (set_msg (fun m => ms_set_count (ms_count m + 1) (ms_set_eof m)) s).
Proof.
  intros He Hh Hc. unfold ibuf_eof. eapply runs_bind; [apply runs_gets|]. rewrite He.
  eapply runs_bind; [apply runs_modify|].
  pose proof (new_message_runs (set_msg ms_set_eof s) Hc) as H. unfold msg_new, msg_trigger in H.
  cbn in H. unfold set_msg in *. cbn in *. rewrite decide_False in H by (rewrite Hh; done). exact H.
Qed.

(** An end of stream mark inside a message that is being received in parts counts as a second
    message; the assertion at the end of the long message fails. *)
Lemma long_message_eos s :
  expecting s [ESC; 2; ESC; 1] -> ms_handling (ib_msg s) = HandleMsgActive ->
  ms_long (ib_msg s) = true -> ms_count (ib_msg s) = 1 ->
  fst (tcp_channel_read_done s) = Fault.
Proof.
  intros Hex Hh Hl Hcnt. pose proof (ex_eof _ _ Hex) as He. pose proof (ex_clean _ _ Hex) as Hcl.
  destruct (expecting_runs s _ Hex) as [-> Har].
  apply (read_done_start _ _ Har); [done|].
  set (s1 := stored [ESC; 2; ESC; 1] s) in *.
  assert (Hm : ib_msg s1 = mkMsg false true 1 HandleMsgActive (ms_events (ib_msg s))).
  { change (ib_msg s1) with (ib_msg s). destruct (ib_msg s). cbn in *. by subst. }
  assert (Hd : ib_inp s1 = dec_clean) by done.
  clearbody s1. clear Hex Hh Hl Hcnt He Hcl. destruct s1 as [r d od m q net]. cbn in Hm, Hd. subst m d.
  scan Har 0%nat ESC. scan Har 1%nat 2. erewrite bind_runs; [|by apply eof_active_runs].
  scan Har 2%nat ESC. scan Har 3%nat 1. done.
Qed.

Lemma size_next m n b :
  m <= 5 -> 128 <= b < 256 -> exists v, size_byte (mkBin false m n) b = Some (mkBin false (m + 1) v).
Proof.
  intros Hm Hb. unfold size_byte. cbn [bs_mode bs_esc bs_size].
  rewrite (proj2 (Z.ltb_lt _ _)) by lia. assert (E : (Z.land b 0x80 =? 0) = false); [|rewrite E; eauto].
  assert (forall b, is_byte b -> (b <? 128) || negb (Z.land b 0x80 =? 0) = true) as H.
  { apply byte_forall. by vm_compute. }
  specialize (H b ltac:(unfold is_byte; lia)). destruct (Z.ltb_spec b 128); [lia|]. by apply negb_true_iff in H.
Qed.

Ltac more_size H :=
  match goal with
  | |- context [size_byte (mkBin false ?m ?n) ?b] => 
      destruct (size_next m n b ltac:(lia) H) as (? & ->);
      let v := eval compute in (m + 1) in change (m + 1) with v
  end; cbn -[rest_loop].

(** A size with more than five bytes shifts an [int] by 35 bits. *)
Lemma long_size s b1 b2 b3 b4 b5 b :
  Forall (fun b => 128 <= b < 256) [b1; b2; b3; b4; b5] ->
  expecting s [ESC; 3; b1; b2; b3; b4; b5; b] -> fst (tcp_channel_read_done s) = Fault.
Proof.
  intros Hb Hex. pose proof (ex_clean _ _ Hex) as Hcl.
  destruct (expecting_runs s _ Hex) as [-> Har].
  apply (read_done_start _ _ Har); [done|].
  set (s1 := stored _ s) in *. assert (Hd : ib_inp s1 = dec_clean) by done. clearbody s1.
  destruct s1 as [r d od m q net]. cbn in Hd. subst d.
  rewrite !Forall_cons in Hb. destruct Hb as (H1 & H2 & H3 & H4 & H5 & _).
  scan Har 0%nat ESC. scan Har 1%nat 3.
  scan Har 2%nat b1. more_size H1.
  scan Har 3%nat b2. more_size H2.
  scan Har 4%nat b3. more_size H3.
  scan Har 5%nat b4. more_size H4.
  scan Har 6%nat b5. more_size H5.
  scan Har 7%nat b. done.
Qed.

(** The state after an invalid escape sequence was scanned: the end of the stream is noted. *)
Definition invalid_noted (s : InputBuf) : InputBuf :=
  set_ring (fun r => rb_set_inp (rb_inp r + 2) r)
    (set_msg (fun m => ms_set_count (ms_count m + 1) (ms_set_eof m)) s).

Lemma scan_invalid_escape s b :
  arrived s [ESC; b] -> 3 < b < 256 -> ms_handling (ib_msg s) = HandleMsgActive -> 0 < ms_count (ib_msg s) ->
  runs (ibuf_read_done 2) s tt (invalid_noted s).
Proof.
  intros Har Hb Hh Hc. pose proof (ar_eof _ _ Har) as He. pose proof (ar_clean _ _ Har) as Hcl.
  assert (Hloop : runs (rest_loop s [ESC; b] 0) s (rb_inp (ib_ring s) + 2)
    (set_msg (fun m => ms_set_count (ms_count m + 1) (ms_set_eof m)) s)).
  { unfold runs. rewrite (loop_step s _ Har s 0 ESC) by (done || (left; by rewrite Hcl)). rewrite Hcl.
    cbn -[rest_loop].
    rewrite (loop_step s _ Har _ 1 b) by (done || (left; done)). cbn -[rest_loop].
    rewrite !(proj2 (Z.eqb_neq _ _)) by lia.
    erewrite bind_runs; [|by apply eof_active_runs; [| |cbn; lia]].
    unfold rest_loop, ret. cbn. unfold set_msg, set_inp_state. cbn. destruct s. cbn in *. by subst. }
  unfold ibuf_read_done. cbn [Z.eqb]. eapply runs_bind; [apply runs_gets|]. rewrite He.
  eapply runs_bind; [by apply runs_cassert|]. eapply runs_bind; [apply runs_gets|].
  eapply runs_bind; [unfold rest_loop in Hloop; rewrite Z.add_0_r in Hloop; exact Hloop|].
  eapply runs_bind; [apply runs_modify|]. eapply runs_bind; [apply runs_gets|].
  eapply runs_bind; [apply runs_ret|]. eapply runs_bind; [unfold ibuf_free_size; eapply runs_bind; [apply runs_gets|apply runs_ret]|].
  cbn [Z.ltb Z.compare]. eapply runs_bind; [apply runs_gets|]. cbn. rewrite (proj2 (Z.eqb_neq _ _)) by lia. done.
Qed.

(** An invalid escape sequence in a message that is being received in parts reaches the reader. *)
Lemma long_message_escape s b :
  expecting s [ESC; b] -> 3 < b < 256 -> ms_handling (ib_msg s) = HandleMsgActive ->
  ms_long (ib_msg s) = true -> ms_count (ib_msg s) = 1 -> ib_out s = dec_clean ->
  rb_cur (ib_ring s) = rb_inp (ib_ring s) -> rb_end (ib_ring s) = rb_inp (ib_ring s) ->
  fst (ibuf_get_more false s) = Fault.
Proof.
  intros Hex Hb Hh Hl Hcnt Hout Hcur Hend.
  pose proof Hex as [Hr (n & Hq & Hn) Hqok Hf Hbytes Hc He (net & Hnet)]. pose proof Hr as (Hs & Hi & Hcu & Hbuf).
  destruct (expecting_runs s _ Hex) as [Erun Har].
  pose proof (scan_invalid_escape _ b Har Hb Hh ltac:(change (0 < ms_count (ib_msg s)); lia)) as Hscan.
  set (s4 := invalid_noted (stored [ESC; b] s)) in *.
  cbn [length Z.of_nat Pos.of_succ_nat Pos.succ] in Erun, Hf.
  pose proof (stored_size [ESC; b] s Hr Hf) as Hsz.
  assert (Hload : forall (i : nat) s5 c, ib_ring s5 = ib_ring s4 -> [ESC; b] !! i = Some c ->
    runs (load (rb_inp (ib_ring s) + Z.of_nat i)) s5 c s5).
  { intros i s5 c E Hc5. apply (slice_load s5 _ [ESC; b]); [|lia| |done]; rewrite E.
    - apply (ar_data _ _ Har).
    - change (rb_size (ib_ring s4)) with (rb_size (ib_ring (stored [ESC; b] s))). rewrite Hsz. cbn. lia. }
  assert (Hwrap : forall r p, rb_size r = rb_size (ib_ring s) -> p < rb_size (ib_ring s) -> wrap_ptr r p = p).
  { intros r p E Hp. unfold wrap_ptr. rewrite E. destruct (Z.eqb_spec p (rb_size (ib_ring s))); lia. }
  assert (Hfuel : exists f, ib_fuel s = S (S (S f))).
  { exists (2 * (length (rb_buf (ib_ring s)) + length (concat (ib_net s))) - 1)%nat. unfold ib_fuel, rb_size in *. lia. }
  destruct Hfuel as (f & Hfuel).
  unfold ibuf_get_more. do 2 rewrite (bind_runs _ _ _ _ _ (runs_gets _ _)).
  rewrite Hcnt, Hh, Hcur, Hend, Z.eqb_refl. cbn [Z.ltb Z.compare].
  rewrite bool_decide_eq_true_2 by done.
  rewrite (proj2 (Z.leb_le 0 _)), (proj2 (Z.leb_le _ (rb_size (ib_ring s)))) by lia. cbn [andb].
  do 4 rewrite (bind_runs _ _ _ _ _ (runs_cassert true s eq_refl)).
  rewrite (bind_runs _ _ _ _ _ (runs_gets _ _)), Hfuel.
  (* waiting *)
  cbn [get_more_loop]. rewrite (bind_runs _ _ _ _ _ (runs_gets _ _)). cbn zeta.
  rewrite Hwrap, Z.eqb_refl by (done || lia).
  rewrite (bind_runs _ _ _ _ _ (runs_gets _ _)), Hl. cbn [orb].
  rewrite (bind_runs _ _ _ _ _ (runs_cassert true s eq_refl)).
  assert (Esame : set_ring (rb_set_cur (rb_inp (ib_ring s))) s = s).
  { rewrite <- Hcur. destruct s as [[]]. done. }
  rewrite (bind_runs _ _ _ _ _ (runs_modify _ _)), Esame, He, Hcnt.
  rewrite (bind_runs _ _ _ _ _ (runs_cassert true s eq_refl)).
  assert (Htrig : triggered s = s).
  { unfold triggered, posted, norm_ring. rewrite Hq. destruct s as [r ? ? ? ? ?]. cbn in *. subst.
    unfold set_req, set_ring. cbn. destruct (Z.eqb_spec (rb_cur r) (rb_size r)); [lia|done]. }
  pose proof (trigger_read_runs s Hr ltac:(intros ?; lia) He Hqok) as Htr. rewrite Htrig in Htr.
  rewrite (bind_runs _ _ _ _ _ Htr).
  assert (Hwait : runs tcp_wait_read s tt s4) by (unfold runs, tcp_wait_read; by rewrite Erun).
  rewrite (bind_runs _ _ _ _ _ Hwait), (bind_runs _ _ _ _ _ (runs_gets _ _)).
  (* the two bytes *)
  assert (Hcur4 : rb_cur (ib_ring s4) = rb_inp (ib_ring s) + Z.of_nat 0) by (cbn; lia).
  assert (Hinp4 : rb_inp (ib_ring s4) = rb_inp (ib_ring s) + 2) by done.
  assert (Hsz4 : rb_size (ib_ring s4) = rb_size (ib_ring s)) by exact Hsz.
  assert (Hout4 : ib_out s4 = dec_clean) by exact Hout. clearbody s4.
  rewrite (bind_runs _ _ _ _ _ (runs_gets _ _)), Hcur4, Hwrap, Hinp4 by (done || lia).
  rewrite (proj2 (Z.eqb_neq _ _)) by lia.
  rewrite (bind_runs _ _ _ _ _ (Hload 0%nat s4 ESC eq_refl eq_refl)).
  rewrite (bind_runs _ _ _ _ _ (runs_gets _ _)), Hout4. cbn [dec_clean bs_mode bs_size bs_esc negb Z.eqb Z.ltb Z.compare].
  rewrite Z.eqb_refl. cbn [negb]. rewrite (bind_runs _ _ _ _ _ (runs_modify _ _)).
  set (s5 := set_out_state (mkBin true 0 0) s4). cbn [get_more_loop].
  rewrite (bind_runs _ _ _ _ _ (runs_gets _ _)). change (ib_ring s5) with (ib_ring s4).
  replace (rb_inp (ib_ring s) + Z.of_nat 0 + 1) with (rb_inp (ib_ring s) + Z.of_nat 1) by lia.
  cbn zeta. rewrite Hwrap, Hinp4 by (done || lia). rewrite (proj2 (Z.eqb_neq _ _)) by lia.
  rewrite (bind_runs _ _ _ _ _ (Hload 1%nat s5 b eq_refl eq_refl)).
  rewrite (bind_runs _ _ _ _ _ (runs_gets _ _)). cbn [s5 set_out_state ib_out bs_mode bs_size bs_esc negb Z.eqb Z.ltb Z.compare].
  rewrite (proj2 (Z.eqb_neq b 3)) by lia. unfold get_escape. rewrite !(proj2 (Z.eqb_neq b _)) by lia. done.
Qed.

(** ** Properties *)

(** C37: three inputs a peer can send to stop the agent.  While a message that does not fit into the
    buffer is being received, an end-of-stream mark followed by the end of the message fails the
    assertion on the number of messages in [ibuf_read_done], and an invalid escape sequence fails
    the assertion in [ibuf_get_more] that claims it cannot happen.  At any time, a size prefix of six
    bytes makes [ibuf_read_done] shift an [int] by more than its width. *)
Theorem hostile_peer s :
  (expecting s [ESC; 2; ESC; 1] -> ms_handling (ib_msg s) = HandleMsgActive ->
    ms_long (ib_msg s) = true -> ms_count (ib_msg s) = 1 -> fst (tcp_channel_read_done s) = Fault) /\
  (forall b, expecting s [ESC; b] -> 3 < b < 256 -> ms_handling (ib_msg s) = HandleMsgActive ->
    ms_long (ib_msg s) = true -> ms_count (ib_msg s) = 1 -> ib_out s = dec_clean ->
    rb_cur (ib_ring s) = rb_inp (ib_ring s) -> rb_end (ib_ring s) = rb_inp (ib_ring s) ->
    fst (ibuf_get_more false s) = Fault) /\
  (forall b1 b2 b3 b4 b5 b, Forall (fun b => 128 <= b < 256) [b1; b2; b3; b4; b5] ->
    expecting s [ESC; 3; b1; b2; b3; b4; b5; b] -> fst (tcp_channel_read_done s) = Fault).
Proof.
  split; [apply long_message_eos|]. split; [intros b; apply long_message_escape|].
  intros b1 b2 b3 b4 b5 b. apply long_size.
Qed.

(** A channel that receives a long message and waits for [x]. *)
Definition long_state (x : list Z) : InputBuf :=
  mkIB (mkRing (replicate 32 0) 5 5 5) dec_clean dec_clean (mkMsg false true 1 HandleMsgActive 0)
    (Some (5, 27)) [x].

Lemma long_state_expecting x : bytes x -> (length x <= 20)%nat -> expecting (long_state x) x.
Proof.
  intros Hx Hl. constructor; try done.
  - unfold ring_ok, rb_size. cbn. split_and!; try lia. repeat constructor; unfold is_byte; lia.
  - exists 27. split; [done|lia].
  - unfold rb_size. cbn. lia.
  - by exists [].
Qed.

Lemma hostile_peer_witness :
  fst (tcp_channel_read_done (long_state [ESC; 2; ESC; 1])) = Fault /\
  fst (ibuf_get_more false (long_state [ESC; 7])) = Fault /\
  fst (tcp_channel_read_done (long_state [ESC; 3; 129; 129; 129; 129; 129; 1])) = Fault.
Proof.
  split; [|split].
  - apply (proj1 (hostile_peer (long_state [ESC; 2; ESC; 1]))); try reflexivity.
    apply long_state_expecting; [|cbn; lia].
    repeat (apply Forall_cons; split; [unfold is_byte, ESC; lia|]). apply Forall_nil; done.
  - apply (proj1 (proj2 (hostile_peer (long_state [ESC; 7]))) 7); try reflexivity; [|lia].
    apply long_state_expecting; [|cbn; lia].
    repeat (apply Forall_cons; split; [unfold is_byte, ESC; lia|]). apply Forall_nil; done.
  - apply (proj2 (proj2 (hostile_peer (long_state [ESC; 3; 129; 129; 129; 129; 129; 1]))) 129 129 129 129 129 1).
    + repeat (apply Forall_cons; split; [lia|]). apply Forall_nil; done.
    + apply long_state_expecting; [|cbn; lia].
      repeat (apply Forall_cons; split; [unfold is_byte, ESC; lia|]). apply Forall_nil; done.
Defined.

(** the end of the stream overtakes the messages before it.  When the peer closes the connection
    while complete messages wait in the buffer, the messages stay counted, but the event that was
    posted for them closes the channel without handling any of them. *)
Theorem eof_drops_messages {A} (rcv : B A) s p n :
  ms_eof (ib_msg s) = false -> 0 < ms_count (ib_msg s) -> ms_handling (ib_msg s) = HandleMsgTriggered ->
  ib_req s = Some (p, n) -> ib_net s = [] ->
  exists s1 s2, runs tcp_channel_read_done s tt s1 /\ ib_ring s1 = ib_ring s /\
    ms_count (ib_msg s1) = ms_count (ib_msg s) + 1 /\ ms_events (ib_msg s1) = ms_events (ib_msg s) /\
    runs (handle_channel_msg rcv) s1 None s2 /\
    ib_ring s2 = ib_ring s /\ ms_handling (ib_msg s2) = HandleMsgIdle.
Proof.
  intros He Hc Hh Hq Hn.
  set (s1 := set_msg (fun m => ms_set_count (ms_count m + 1) (ms_set_eof m)) (set_req None s)).
  set (s2 := set_msg (fun m => ms_set_handling HandleMsgIdle (ms_add_events (-1) m)) s1).
  exists s1, s2. split_and!; try done.
  - unfold tcp_channel_read_done. eapply runs_bind; [apply runs_gets|]. rewrite Hq.
    eapply runs_bind; [apply runs_gets|]. rewrite Hn. eapply runs_bind; [apply runs_modify|].
    eapply runs_bind; [apply runs_modify|]. eapply runs_bind; [apply runs_modify|].
    unfold ibuf_read_done. cbn [length Z.of_nat Z.eqb]. unfold ibuf_eof.
    eapply runs_bind; [apply runs_gets|]. cbn. rewrite He. eapply runs_bind; [apply runs_modify|].
    assert (Hs : set_msg msg_new (set_msg ms_set_eof (set_req None (set_ring
      (fun r => rb_set_buf (overwrite (Z.to_nat p) [] (rb_buf r)) r) (set_net [] s)))) = s1).
    { unfold s1, set_msg, set_req, set_ring, set_net, msg_new, msg_trigger. cbn.
      rewrite decide_False by (rewrite Hh; done). destruct s as [[] ? ? ? ? ?]. cbn in *. subst. f_equal.
      unfold rb_set_buf, overwrite. cbn. f_equal. by rewrite Nat.add_0_r, take_drop. }
    rewrite <- Hs. refine (new_message_runs (set_msg ms_set_eof _) _). cbn. lia.
  - unfold handle_channel_msg. eapply runs_bind; [apply runs_modify|]. eapply runs_bind; [apply runs_gets|].
    eapply runs_bind; [apply runs_cassert; by apply bool_decide_eq_true_2|].
    eapply runs_bind; [apply runs_cassert; cbn; by rewrite (proj2 (Z.eqb_neq _ _)) by lia|].
    apply (runs_bind _ _ _ (-1) s2); [|apply runs_ret].
    unfold ibuf_start_message. eapply runs_bind; [apply runs_gets|].
    eapply runs_bind; [apply runs_cassert; by apply bool_decide_eq_true_2|]. cbn.
    rewrite (proj2 (Z.eqb_neq _ _)) by lia. eapply runs_bind; [apply runs_modify|]. done.
Qed.

Lemma eof_drops_messages_witness :
  let s := snd (tcp_channel_read_done (connected [[7; ESC; 1]])) in
  exists s1 s2, runs tcp_channel_read_done s tt s1 /\ ib_ring s1 = ib_ring s /\
    ms_count (ib_msg s1) = 1 + 1 /\ ms_events (ib_msg s1) = 1 /\
    runs (handle_channel_msg (read_symbols 1)) s1 None s2 /\
    ib_ring s2 = ib_ring s /\ ms_handling (ib_msg s2) = HandleMsgIdle.
Proof.
  intros s. apply (eof_drops_messages (read_symbols 1) s 3 4092); vm_compute; reflexivity.
Defined.
