(* ===== verification/Events.v ===== *)
(** * The event loop (framework/events.c)

    Queues of events, kept in linked lists of [event_node] cells: the queue of events posted by the
    dispatch thread, the queue of timed events, which other threads post to, and two lists of free cells.
    The cells live in a heap; reading a cell that is not allocated is a [Fault].  The calls of other
    threads are atomic, since they run under [event_lock].  The time [clock_gettime] returns is an
    argument of the operations that call it. *)

From S2P Require Import Prelude.

(** ** State *)

(** [struct timespec]: [tv_sec] and [tv_nsec]. *)
Record timespec := mkTime { tv_sec : Z; tv_nsec : Z }.

(** A cell; pointers are addresses, 0 is the null pointer. *)
Record event_node := mkNode {
  en_next : Z;
  en_runtime : timespec;
  en_handler : Z;
  en_arg : Z }.

(** The array [event_buf] holds the addresses 1 to [EVENT_BUF_SIZE]; [malloc] returns greater ones. *)
Definition EVENT_BUF_SIZE : Z := 0x200.

(** The static variables of events.c.  [es_waiting]: the dispatch thread is inside of the inner loop
    of [run_event_loop]; [es_event_cnt] and [es_last_tick] are local variables of that function. *)
Record EventState := mkES {
  es_heap : gmap Z event_node;
  es_free_queue : Z;
  es_free_bg_queue : Z;
  es_event_queue : Z;
  es_event_last : Z;
  es_timer_queue : Z;
  es_cancel : Z * Z;
  es_event_cnt : Z;
  es_last_tick : Z;
  es_timer_ms : Z;
  es_waiting : bool }.

Notation E := (M EventState).

Definition set_heap (h : gmap Z event_node) (s : EventState) : EventState :=
  mkES h (es_free_queue s) (es_free_bg_queue s) (es_event_queue s) (es_event_last s) (es_timer_queue s)
    (es_cancel s) (es_event_cnt s) (es_last_tick s) (es_timer_ms s) (es_waiting s).
Definition set_free_queue (p : Z) (s : EventState) : EventState :=
  mkES (es_heap s) p (es_free_bg_queue s) (es_event_queue s) (es_event_last s) (es_timer_queue s)
    (es_cancel s) (es_event_cnt s) (es_last_tick s) (es_timer_ms s) (es_waiting s).
Definition set_free_bg_queue (p : Z) (s : EventState) : EventState :=
  mkES (es_heap s) (es_free_queue s) p (es_event_queue s) (es_event_last s) (es_timer_queue s)
    (es_cancel s) (es_event_cnt s) (es_last_tick s) (es_timer_ms s) (es_waiting s).
Definition set_event_queue (p : Z) (s : EventState) : EventState :=
  mkES (es_heap s) (es_free_queue s) (es_free_bg_queue s) p (es_event_last s) (es_timer_queue s)
    (es_cancel s) (es_event_cnt s) (es_last_tick s) (es_timer_ms s) (es_waiting s).
Definition set_event_last (p : Z) (s : EventState) : EventState :=
  mkES (es_heap s) (es_free_queue s) (es_free_bg_queue s) (es_event_queue s) p (es_timer_queue s)
    (es_cancel s) (es_event_cnt s) (es_last_tick s) (es_timer_ms s) (es_waiting s).
Definition set_timer_queue (p : Z) (s : EventState) : EventState :=
  mkES (es_heap s) (es_free_queue s) (es_free_bg_queue s) (es_event_queue s) (es_event_last s) p
    (es_cancel s) (es_event_cnt s) (es_last_tick s) (es_timer_ms s) (es_waiting s).
Definition set_cancel (c : Z * Z) (s : EventState) : EventState :=
  mkES (es_heap s) (es_free_queue s) (es_free_bg_queue s) (es_event_queue s) (es_event_last s)
    (es_timer_queue s) c (es_event_cnt s) (es_last_tick s) (es_timer_ms s) (es_waiting s).
Definition set_loop (cnt tick : Z) (w : bool) (s : EventState) : EventState :=
  mkES (es_heap s) (es_free_queue s) (es_free_bg_queue s) (es_event_queue s) (es_event_last s)
    (es_timer_queue s) (es_cancel s) cnt tick (es_timer_ms s) w.

(** [*p], and [*p = n]. *)
Definition load_node (p : Z) : E event_node :=
  let! h := gets es_heap in
  match h !! p with Some n => ret n | None => fault end.
Definition store_node (p : Z) (n : event_node) : E unit :=
  let! _ := load_node p in modify (fun s => set_heap (<[p := n]> (es_heap s)) s).

Definition node_set_next (q : Z) (n : event_node) : event_node :=
  mkNode q (en_runtime n) (en_handler n) (en_arg n).
Definition store_next (p q : Z) : E unit :=
  let! n := load_node p in modify (fun s => set_heap (<[p := node_set_next q n]> (es_heap s)) s).

(** ** Time *)

Definition time_cmp (tv1 tv2 : timespec) : E Z :=
  cassert (tv_nsec tv1 <? 1000000000) ;!
  cassert (tv_nsec tv2 <? 1000000000) ;!
  ret (if tv_sec tv1 <? tv_sec tv2 then -1
       else if tv_sec tv2 <? tv_sec tv1 then 1
       else if tv_nsec tv1 <? tv_nsec tv2 then -1
       else if tv_nsec tv2 <? tv_nsec tv1 then 1
       else 0).

(** [usec] is an [unsigned long], so the arithmetic on it does not wrap. *)
Definition time_add_usec (tv : timespec) (usec : Z) : timespec :=
  let sec := tv_sec tv + usec / 1000000 in
  let nsec := tv_nsec tv + (usec mod 1000000) * 1000 in
  if 1000000000 <=? nsec then mkTime (sec + 1) (nsec - 1000000000) else mkTime sec nsec.

(** ** Cells *)

(** An address [malloc] may return: greater than all addresses in use. *)
Definition malloc_addr (h : gmap Z event_node) : Z :=
  1 + map_fold (fun p _ m => Z.max p m) EVENT_BUF_SIZE h.

Definition new_node : event_node := mkNode 0 (mkTime 0 0) 0 0.

(** [loc_alloc (sizeof(event_node))]; the contents are not initialized (zeros here). *)
Definition malloc_node : E Z :=
  let! h := gets es_heap in
  let p := malloc_addr h in
  modify (set_heap (<[p := new_node]> h)) ;! ret p.

Definition alloc_event_node : E Z :=
  let! p := gets es_free_queue in
  if negb (p =? 0) then
    let! n := load_node p in modify (set_free_queue (en_next n)) ;! ret p
  else malloc_node.

Definition alloc_event_node_bg : E Z :=
  let! p := gets es_free_bg_queue in
  if negb (p =? 0) then
    let! n := load_node p in modify (set_free_bg_queue (en_next n)) ;! ret p
  else malloc_node.

Definition free_event_node (p : Z) : E unit :=
  if (1 <=? p) && (p <? 1 + EVENT_BUF_SIZE) then
    let! q := gets es_free_queue in
    store_next p q ;! modify (set_free_queue p)
  else
    let! _ := load_node p in modify (fun s => set_heap (delete p (es_heap s)) s).

(** ** Posting *)

(** The search for the place of a timed event: [prev] and [next] of the source. *)
Fixpoint timer_search (fuel : nat) (rt : timespec) (prev next : Z) : E (Z * Z) :=
  match fuel with
  | O => nofuel
  | S fuel' =>
      if next =? 0 then ret (prev, next)
      else
        let! n := load_node next in
        let! c := time_cmp rt (en_runtime n) in
        if 0 <=? c then timer_search fuel' rt next (en_next n) else ret (prev, next)
  end.

(** A list of cells is not longer than the heap. *)
Definition es_fuel (s : EventState) : nat := S (size (es_heap s)).

(** The insertion of cell [ev] into the timer queue. *)
Definition timer_insert (ev : Z) (rt : timespec) (handler arg : Z) : E unit :=
  store_node ev (mkNode 0 rt handler arg) ;!
  let! fuel := gets es_fuel in
  let! tq := gets es_timer_queue in
  let! (prev, next) := timer_search fuel rt 0 tq in
  store_next ev next ;!
  if prev =? 0 then modify (set_timer_queue ev) else store_next prev ev.

(** Called by other threads at the time [now]. *)
Definition post_from_bg_thread (handler arg delay : Z) (now : timespec) : E unit :=
  let rt := time_add_usec now delay in
  let! c := gets es_cancel in
  if (fst c =? handler) && (snd c =? arg) then modify (set_cancel (0, snd c))
  else
    let! ev := alloc_event_node_bg in
    timer_insert ev rt handler arg.

(** The dispatch thread's part of [post_event_with_delay]. *)
Definition post_event_with_delay (handler arg delay : Z) (now : timespec) : E unit :=
  let rt := time_add_usec now delay in
  let! ev := alloc_event_node in
  timer_insert ev rt handler arg.

(** The dispatch thread's part of [post_event]; [tv_nsec] of a recycled cell keeps its value. *)
Definition post_event (handler arg : Z) : E unit :=
  let! ev := alloc_event_node in
  let! n := load_node ev in
  store_node ev (mkNode 0 (mkTime 0 (tv_nsec (en_runtime n))) handler arg) ;!
  let! q := gets es_event_queue in
  let! last := gets es_event_last in
  if q =? 0 then
    cassert (last =? 0) ;!
    modify (set_event_queue ev) ;!
    modify (set_event_last ev)
  else
    store_next last ev ;!
    modify (set_event_last ev).

(** ** Cancelling *)

(** Searches a list for an event; returns the cell before it, its address and contents. *)
Fixpoint find_event (fuel : nat) (handler arg prev ev : Z) : E (option (Z * Z * event_node)) :=
  match fuel with
  | O => nofuel
  | S fuel' =>
      if ev =? 0 then ret None
      else
        let! n := load_node ev in
        if (en_handler n =? handler) && (en_arg n =? arg) then ret (Some (prev, ev, n))
        else find_event fuel' handler arg ev (en_next n)
  end.

(** [cancel_event]: [None] stands for the wait for another thread to post the event. *)
Definition cancel_event (handler arg : Z) (wait : bool) : E (option Z) :=
  cassert (negb (handler =? 0)) ;!
  let! c := gets es_cancel in
  cassert (fst c =? 0) ;!
  let! fuel := gets es_fuel in
  let! q := gets es_event_queue in
  let! f := find_event fuel handler arg 0 q in
  match f with
  | Some (prev, ev, n) =>
      (if en_next n =? 0 then
         let! last := gets es_event_last in
         cassert (last =? ev) ;! modify (set_event_last prev)
       else ret tt) ;!
      (if prev =? 0 then modify (set_event_queue (en_next n)) else store_next prev (en_next n)) ;!
      free_event_node ev ;!
      ret (Some 1)
  | None =>
      let! tq := gets es_timer_queue in
      let! f := find_event fuel handler arg 0 tq in
      match f with
      | Some (prev, ev, n) =>
          (if prev =? 0 then modify (set_timer_queue (en_next n)) else store_next prev (en_next n)) ;!
          free_event_node ev ;!
          ret (Some 1)
      | None =>
          if negb wait then ret (Some 0)
          else modify (set_cancel (handler, arg)) ;! ret None
      end
  end.

(** ** The loop *)

(** Gives free cells to the other threads until they have two. *)
Fixpoint refill_bg (fuel : nat) : E unit :=
  match fuel with
  | O => nofuel
  | S fuel' =>
      let! f := gets es_free_queue in
      let! b := gets es_free_bg_queue in
      let! more :=
        (if f =? 0 then ret false
         else if b =? 0 then ret true
         else let! n := load_node b in ret (en_next n =? 0)) in
      if more then
        let! x := load_node f in
        modify (set_free_queue (en_next x)) ;!
        store_next f b ;!
        modify (set_free_bg_queue f) ;!
        refill_bg fuel'
      else ret tt
  end.

(** The due events at the front of the timer queue: the address of the last one. *)
Fixpoint due_events (fuel : nat) (now : timespec) (evlast ev : Z) : E Z :=
  match fuel with
  | O => nofuel
  | S fuel' =>
      if ev =? 0 then ret evlast
      else
        let! n := load_node ev in
        let! c := time_cmp (en_runtime n) now in
        if c <=? 0 then due_events fuel' now ev (en_next n) else ret evlast
  end.

(** One round of the inner loop at the time [now]; [false]: the thread waits on [event_cond]. *)
Definition timer_round (now : timespec) : E bool :=
  modify (fun s => set_loop (es_event_cnt s) (es_timer_ms s) (es_waiting s) s) ;!
  let! tq := gets es_timer_queue in
  let! q := gets es_event_queue in
  if negb (tq =? 0) then
    let! fuel := gets es_fuel in
    let! evlast := due_events fuel now 0 tq in
    if negb (evlast =? 0) then
      let! n := load_node evlast in
      modify (set_timer_queue (en_next n)) ;!
      store_next evlast q ;!
      (if q =? 0 then
         let! last := gets es_event_last in
         cassert (last =? 0) ;! modify (set_event_last evlast)
       else ret tt) ;!
      modify (set_event_queue tq) ;!
      ret true
    else ret (negb (q =? 0))
  else ret (negb (q =? 0)).

(** An iteration of [run_event_loop] up to the call of the handler: [None] when the thread waits,
    otherwise the cell of the event, which is not in any queue now. *)
Definition next_event (now : timespec) : E (option Z) :=
  let! s := gets (fun s => s) in
  let! go :=
    (if es_waiting s then timer_round now
     else if (es_event_queue s =? 0) || (100 <=? es_event_cnt s) ||
             ((1 <=? es_event_cnt s) && (100 <=? uwrap 32 (es_timer_ms s - es_last_tick s))) then
       modify (set_loop 0 (es_last_tick s) false) ;!
       refill_bg 3 ;!
       timer_round now
     else ret true) in
  modify (fun s => set_loop (es_event_cnt s) (es_last_tick s) (negb go) s) ;!
  if negb go then ret None
  else
    let! ev := gets es_event_queue in
    let! n := load_node ev in
    modify (set_event_queue (en_next n)) ;!
    (if en_next n =? 0 then
       let! last := gets es_event_last in
       cassert (last =? ev) ;! modify (set_event_last 0)
     else ret tt) ;!
    (if tv_sec (en_runtime n) =? 0 then
       modify (fun s => set_loop (es_event_cnt s + 1) (es_last_tick s) (es_waiting s) s)
     else ret tt) ;!
    ret (Some ev).

(** [ini_events_queue]: the cells of [event_buf] are linked in descending order. *)
Definition event_buf_cells : gmap Z event_node :=
  list_to_map (map (fun i => (Z.of_nat i, mkNode (Z.of_nat i - 1) (mkTime 0 0) 0 0))
                 (seq 1 (Z.to_nat EVENT_BUF_SIZE))).

Definition ini_events_queue : EventState :=
  mkES event_buf_cells EVENT_BUF_SIZE 0 0 0 0 (0, 0) 0 0 0 false.

(** ** Runs *)

(** What happens to the loop: calls of handlers and other functions of the dispatch thread ([Post],
    [PostDelay], [Cancel]), of other threads ([PostBg]; [post_event] is [PostBg] with no delay), the
    iterations of [run_event_loop] ([Next] up to the call of the handler, [Return] after it), and the
    millisecond timer. *)
Inductive loop_op :=
| Post (handler arg : Z)
| PostDelay (handler arg delay : Z) (now : timespec)
| PostBg (handler arg delay : Z) (now : timespec)
| Cancel (handler arg : Z) (wait : bool)
| Next (now : timespec)
| Return
| Tick.

Inductive loop_out :=
| NoOut
| Called (handler arg : Z)
| Waits
| Cancelled (r : option Z).

(** [ev]: the cell of the event whose handler runs, 0 when none does. *)
Definition loop_step (o : loop_op) (ev : Z) : E (loop_out * Z) :=
  match o with
  | Post h a => post_event h a ;! ret (NoOut, ev)
  | PostDelay h a d now => post_event_with_delay h a d now ;! ret (NoOut, ev)
  | PostBg h a d now => post_from_bg_thread h a d now ;! ret (NoOut, ev)
  | Cancel h a w => let! r := cancel_event h a w in ret (Cancelled r, ev)
  | Next now =>
      let! r := next_event now in
      match r with
      | Some ev => let! n := load_node ev in ret (Called (en_handler n) (en_arg n), ev)
      | None => ret (Waits, 0)
      end
  | Return => free_event_node ev ;! ret (NoOut, 0)
  | Tick =>
      modify (fun s => mkES (es_heap s) (es_free_queue s) (es_free_bg_queue s) (es_event_queue s)
        (es_event_last s) (es_timer_queue s) (es_cancel s) (es_event_cnt s) (es_last_tick s)
        (uwrap 32 (es_timer_ms s + 1)) (es_waiting s)) ;!
      ret (NoOut, ev)
  end.

Fixpoint loop_run (l : list loop_op) (ev : Z) : E (list loop_out * Z) :=
  match l with
  | [] => ret ([], ev)
  | o :: l' =>
      let! (x, ev') := loop_step o ev in
      let! (xs, ev'') := loop_run l' ev' in
      ret (x :: xs, ev'')
  end.
