(* ===== verification/EventProps.v ===== *)
(** * Properties of the event loop (Events.v)

    A specification of the event loop over plain lists, and the proof that the linked lists of events.c
    implement it: no access to a cell that is not allocated, no failed assertion, no leaked cell. *)

From stdpp Require Import gmultiset.
From S2P Require Import Prelude Events.

(** ** The specification *)

(** A pending event of the dispatch queue: whether it was timed, its handler and argument. *)
Notation qevent := (bool * (Z * Z))%type.
(** A timed event. *)
Notation tevent := (timespec * (Z * Z))%type.

Definition time_leb (a b : timespec) : bool :=
  (tv_sec a <? tv_sec b) || ((tv_sec a =? tv_sec b) && (tv_nsec a <=? tv_nsec b)).

Record Spec := mkSpec {
  sp_queue : list qevent;
  sp_timers : list tevent;
  sp_cancel : Z * Z;
  sp_cnt : Z;
  sp_tick : Z;
  sp_ms : Z;
  sp_waiting : bool }.

(** Timed events are kept in the order of their times, those of the same time in the order of
    posting. *)
Fixpoint timers_insert (e : tevent) (l : list tevent) : list tevent :=
  match l with
  | [] => [e]
  | x :: l' => if time_leb (fst x) (fst e) then x :: timers_insert e l' else e :: l
  end.

Fixpoint remove_first {A} (c : Z * Z) (l : list (A * (Z * Z))) : option (list (A * (Z * Z))) :=
  match l with
  | [] => None
  | x :: l' => if bool_decide (snd x = c) then Some l' else (x ::.) <$> remove_first c l'
  end.

(** The events that are due, and the others. *)
Fixpoint due (now : timespec) (l : list tevent) : list tevent :=
  match l with
  | [] => []
  | x :: l' => if time_leb (fst x) now then x :: due now l' else []
  end.

Definition sp_post (h a : Z) (s : Spec) : Spec :=
  mkSpec (sp_queue s ++ [(false, (h, a))]) (sp_timers s) (sp_cancel s) (sp_cnt s) (sp_tick s) (sp_ms s)
    (sp_waiting s).

Definition sp_post_delay (h a delay : Z) (now : timespec) (s : Spec) : Spec :=
  mkSpec (sp_queue s) (timers_insert (time_add_usec now delay, (h, a)) (sp_timers s)) (sp_cancel s)
    (sp_cnt s) (sp_tick s) (sp_ms s) (sp_waiting s).

Definition sp_post_bg (h a delay : Z) (now : timespec) (s : Spec) : Spec :=
  if bool_decide (sp_cancel s = (h, a)) then
    mkSpec (sp_queue s) (sp_timers s) (0, a) (sp_cnt s) (sp_tick s) (sp_ms s) (sp_waiting s)
  else sp_post_delay h a delay now s.

Definition sp_cancel_event (h a : Z) (wait : bool) (s : Spec) : option Z * Spec :=
  match remove_first (h, a) (sp_queue s) with
  | Some q => (Some 1, mkSpec q (sp_timers s) (sp_cancel s) (sp_cnt s) (sp_tick s) (sp_ms s) (sp_waiting s))
  | None =>
      match remove_first (h, a) (sp_timers s) with
      | Some t => (Some 1, mkSpec (sp_queue s) t (sp_cancel s) (sp_cnt s) (sp_tick s) (sp_ms s) (sp_waiting s))
      | None =>
          if wait then (None, mkSpec (sp_queue s) (sp_timers s) (h, a) (sp_cnt s) (sp_tick s) (sp_ms s) (sp_waiting s))
          else (Some 0, s)
      end
  end.

(** Due events go in front of the queue. *)
Definition sp_round (now : timespec) (s : Spec) : Spec :=
  let d := due now (sp_timers s) in
  mkSpec (map (fun e => (true, snd e)) d ++ sp_queue s) (drop (length d) (sp_timers s)) (sp_cancel s)
    (sp_cnt s) (sp_ms s) (sp_ms s) (sp_waiting s).

(** The timers are looked at when the queue is empty, after 100 events that were not timed, or
    after 100 milliseconds. *)
Definition sp_check (s : Spec) : bool :=
  bool_decide (sp_queue s = []) || (100 <=? sp_cnt s) ||
  ((1 <=? sp_cnt s) && (100 <=? uwrap 32 (sp_ms s - sp_tick s))).

Definition sp_take (s : Spec) : option qevent * Spec :=
  match sp_queue s with
  | [] => (None, mkSpec [] (sp_timers s) (sp_cancel s) (sp_cnt s) (sp_tick s) (sp_ms s) true)
  | e :: q => (Some e, mkSpec q (sp_timers s) (sp_cancel s) (if fst e then sp_cnt s else sp_cnt s + 1)
                         (sp_tick s) (sp_ms s) false)
  end.

Definition sp_next (now : timespec) (s : Spec) : option qevent * Spec :=
  sp_take
    (if sp_waiting s then sp_round now s
     else if sp_check s then
       sp_round now (mkSpec (sp_queue s) (sp_timers s) (sp_cancel s) 0 (sp_tick s) (sp_ms s) false)
     else s).

(** ** Lists of cells *)

Notation cell := (Z * event_node)%type.

(** The cells [l] are linked from [p] to [q]. *)
Fixpoint lseg (h : gmap Z event_node) (p : Z) (l : list cell) (q : Z) : Prop :=
  match l with
  | [] => p = q
  | (a, n) :: l' => p = a /\ 0 < a /\ h !! a = Some n /\ lseg h (en_next n) l' q
  end.

Notation addrs := (map fst : list cell -> list Z).

Lemma lseg_app h p l1 l2 q : lseg h p (l1 ++ l2) q <-> exists m, lseg h p l1 m /\ lseg h m l2 q.
Proof.
  revert p. induction l1 as [|[a n] l1 IH]; intros p; cbn [app lseg].
  - split; [intros H; by exists p|]. by intros (m & -> & H).
  - rewrite IH. split.
    + intros (-> & Ha & Hh & m & H1 & H2). exists m. done.
    + intros (m & (-> & Ha & Hh & H1) & H2). split_and!; try done. eauto.
Qed.

Lemma lseg_frame h h' p l q :
  (forall a, a ∈ addrs l -> h' !! a = h !! a) -> lseg h p l q -> lseg h' p l q.
Proof.
  revert p. induction l as [|[a n] l IH]; intros p Hf; cbn [lseg]; [done|].
  intros (-> & Ha & Hh & Hl). split_and!; [done|done| |].
  - rewrite Hf; [done|]. apply list_elem_of_here.
  - apply IH; [|done]. intros b Hb. apply Hf. by apply list_elem_of_further.
Qed.

Lemma lseg_insert h a n p l q : a ∉ addrs l -> lseg h p l q -> lseg (<[a := n]> h) p l q.
Proof. intros Ha. apply lseg_frame. intros b Hb. apply lookup_insert_ne. by intros ->. Qed.

Lemma lseg_delete h a p l q : a ∉ addrs l -> lseg h p l q -> lseg (delete a h) p l q.
Proof. intros Ha. apply lseg_frame. intros b Hb. apply lookup_delete_ne. by intros ->. Qed.

Lemma lseg_nil h p l : lseg h p l 0 -> (l = [] <-> p = 0).
Proof. destruct l as [|[a n] l]; cbn; [done|]. intros (-> & Ha & _). split; [done|lia]. Qed.

(** The heap consists of the cells [L]. *)
Definition owns (h : gmap Z event_node) (L : list Z) : Prop :=
  NoDup L /\ (forall p, is_Some (h !! p) <-> p ∈ L) /\ Forall (fun p => 0 < p) L.

#[export] Instance owns_proper h : Proper ((≡ₚ) ==> iff) (owns h).
Proof.
  intros L1 L2 HL. unfold owns. rewrite HL. split; intros (H1 & H2 & H3); split_and!; try done;
    intros p; rewrite H2; [by rewrite HL|by rewrite <- HL].
Qed.

Lemma owns_insert h L a n : owns h L -> a ∈ L -> owns (<[a := n]> h) L.
Proof.
  intros (H1 & H2 & H3) Ha. split_and!; try done. intros p. destruct (decide (a = p)) as [->|Hne].
  - rewrite lookup_insert_eq. split; [done|eauto].
  - by rewrite lookup_insert_ne.
Qed.

Lemma owns_new h L a n : owns h L -> h !! a = None -> 0 < a -> owns (<[a := n]> h) (a :: L).
Proof.
  intros (H1 & H2 & H3) Ha Hp. split_and!.
  - apply NoDup_cons. split; [|done]. rewrite <- H2, Ha. by intros [? ?].
  - intros p. rewrite elem_of_cons, <- H2. destruct (decide (a = p)) as [->|Hne].
    + rewrite lookup_insert_eq. split; [by left|eauto].
    + rewrite lookup_insert_ne by done. split; [by right|intros [|]; [congruence|done]].
  - by constructor.
Qed.

Lemma owns_delete h L a : owns h (a :: L) -> owns (delete a h) L.
Proof.
  intros (H1 & H2 & H3). apply NoDup_cons in H1 as [Ha H1]. apply Forall_cons in H3 as [_ H3].
  split_and!; try done. intros p. specialize (H2 p). rewrite elem_of_cons in H2.
  destruct (decide (a = p)) as [->|Hne].
  - rewrite lookup_delete_eq. split; [intros [? ?]; done|done].
  - rewrite lookup_delete_ne by done. rewrite H2. split; [intros [|]; [congruence|done]|by right].
Qed.

Lemma owns_size h L : owns h L -> size h = length L.
Proof.
  intros (H1 & H2 & _). rewrite <- size_dom.
  assert (dom h = list_to_set L) as ->.
  { apply set_eq. intros p. rewrite elem_of_dom, H2, elem_of_list_to_set. done. }
  rewrite size_list_to_set by done. done.
Qed.

Lemma malloc_addr_bound h p : is_Some (h !! p) -> p < malloc_addr h.
Proof.
  unfold malloc_addr. revert p.
  apply (map_fold_weak_ind (fun r (h : gmap Z event_node) => forall p, is_Some (h !! p) -> p < 1 + r)).
  - intros p [? H]. by rewrite lookup_empty in H.
  - intros i n m r Hi IH p Hp. destruct (decide (i = p)) as [->|Hne]; [lia|].
    rewrite lookup_insert_ne in Hp by done. specialize (IH p Hp). lia.
Qed.

Lemma malloc_addr_pos h : EVENT_BUF_SIZE < malloc_addr h.
Proof.
  unfold malloc_addr.
  apply (map_fold_weak_ind (fun r (h : gmap Z event_node) => EVENT_BUF_SIZE < 1 + r)); [lia|].
  intros. lia.
Qed.

(** ** Representation *)

Definition q_events (l : list cell) : list qevent :=
  map (fun c => (negb (tv_sec (en_runtime (snd c)) =? 0), (en_handler (snd c), en_arg (snd c)))) l.
Definition t_events (l : list cell) : list tevent :=
  map (fun c => (en_runtime (snd c), (en_handler (snd c), en_arg (snd c)))) l.

Definition time_ok (t : timespec) : Prop := tv_sec t <> 0 /\ tv_nsec t < 1000000000.

(** The address of the last cell of a list. *)
Definition last_addr (d : Z) (l : list cell) : Z := match last l with Some c => fst c | None => d end.
Definition head_addr (l : list cell) : Z := match l with c :: _ => fst c | [] => 0 end.

(** [lq], [lt], [lf] and [lb] are the cells of the two queues and the two free lists; [lr] are cells in
    no list. *)
Record rep (s : EventState) (lq lt lf lb : list cell) (lr : list Z) : Prop := {
  rp_owns : owns (es_heap s) (addrs lq ++ addrs lt ++ addrs lf ++ addrs lb ++ lr);
  rp_q : lseg (es_heap s) (es_event_queue s) lq 0;
  rp_t : lseg (es_heap s) (es_timer_queue s) lt 0;
  rp_f : lseg (es_heap s) (es_free_queue s) lf 0;
  rp_b : lseg (es_heap s) (es_free_bg_queue s) lb 0;
  rp_last : es_event_last s = last_addr 0 lq;
  rp_times : Forall (fun c => time_ok (en_runtime (snd c))) lt }.

(** The variables that are not lists. *)
Definition misc (s : EventState) : (Z * Z) * Z * Z * Z * bool :=
  (es_cancel s, es_event_cnt s, es_last_tick s, es_timer_ms s, es_waiting s).

Lemma perm_multiset (l k : list Z) :
  (list_to_set_disj l : gmultiset Z) = list_to_set_disj k -> l ≡ₚ k.
Proof.
  revert k. induction l as [|x l IH]; intros k H.
  - destruct k as [|y k]; [done|]. exfalso.
    assert (y ∈ (list_to_set_disj [] : gmultiset Z)) as Hy by (rewrite H; multiset_solver).
    multiset_solver.
  - assert (x ∈ k) as Hx.
    { apply elem_of_list_to_set_disj. rewrite <- H. multiset_solver. }
    apply elem_of_Permutation in Hx as (k' & Hk). rewrite Hk in H |- *.
    constructor. apply IH. cbn [list_to_set_disj] in H. multiset_solver.
Qed.

(** Permutations of address lists. *)
Ltac perm :=
  apply perm_multiset; rewrite ?map_app; cbn [map fst];
  rewrite ?list_to_set_disj_app; cbn [list_to_set_disj]; rewrite ?list_to_set_disj_app;
  cbn [list_to_set_disj]; multiset_solver.

Lemma lseg_head h p l : lseg h p l 0 -> p = head_addr l.
Proof. destruct l as [|[a n] l]; cbn; [done|]. by intros (-> & _). Qed.

(** The last cell of a segment is linked to something else. *)
Lemma lseg_relink h p l a n q x :
  lseg h p (l ++ [(a, n)]) q -> a ∉ addrs l ->
  lseg (<[a := node_set_next x n]> h) p (l ++ [(a, node_set_next x n)]) x.
Proof.
  intros H Ha. apply lseg_app in H as (m & H1 & (-> & Hp & Hh & _)). apply lseg_app. exists a.
  split; [by apply lseg_insert|]. cbn. split_and!; try done. apply lookup_insert_eq.
Qed.

Lemma lseg_last_lookup h p l q a n : lseg h p (l ++ [(a, n)]) q -> h !! a = Some n /\ 0 < a.
Proof. intros H. apply lseg_app in H as (m & _ & (-> & ? & ? & _)). done. Qed.

Lemma last_addr_snoc d l a n : last_addr d (l ++ [(a, n)]) = a.
Proof. unfold last_addr. by rewrite last_snoc. Qed.

Lemma last_addr_app_cons d l c k : last_addr d (l ++ c :: k) = last_addr 0 (c :: k).
Proof.
  unfold last_addr. rewrite last_app. destruct (last (c :: k)) eqn:E; [done|].
  apply last_None in E. done.
Qed.

(** Addresses that are owned once are in one place only. *)
Lemma owns_not_in h L1 a L2 : owns h (L1 ++ a :: L2) -> a ∉ L1 /\ a ∉ L2.
Proof.
  intros (Hnd & _). apply NoDup_app in Hnd as (H1 & H2 & H3). apply NoDup_cons in H3 as [H3 _].
  split; [|done]. intros Hin. apply (H2 a Hin). apply list_elem_of_here.
Qed.

Lemma owns_fresh h L a K : owns h L -> L ≡ₚ a :: K -> a ∉ K.
Proof. intros Ho Hp. rewrite Hp in Ho. destruct Ho as (Ho & _). by apply NoDup_cons in Ho as [? _]. Qed.

Lemma load_node_runs s p n : es_heap s !! p = Some n -> runs (load_node p) s n s.
Proof. intros H. unfold runs, load_node, bind, gets. by rewrite H. Qed.

Definition heap_put (p : Z) (n : event_node) (s : EventState) : EventState :=
  set_heap (<[p := n]> (es_heap s)) s.

Lemma store_node_runs s p n : is_Some (es_heap s !! p) -> runs (store_node p n) s tt (heap_put p n s).
Proof. intros [m H]. eapply runs_bind; [by apply load_node_runs|]. apply runs_modify. Qed.

Lemma store_next_runs s p q n :
  es_heap s !! p = Some n -> runs (store_next p q) s tt (heap_put p (node_set_next q n) s).
Proof. intros H. eapply runs_bind; [by apply load_node_runs|]. apply runs_modify. Qed.

(** Writing to a cell that is in no list. *)
Lemma rep_put s lq lt lf lb lr ev n :
  rep s lq lt lf lb lr -> ev ∈ lr -> rep (heap_put ev n s) lq lt lf lb lr.
Proof.
  intros [Ho Hq Ht Hf Hb Hl Htm] Hin. apply list_elem_of_split in Hin as (r1 & r2 & ->).
  pose proof (owns_not_in (es_heap s) (addrs lq ++ addrs lt ++ addrs lf ++ addrs lb ++ r1) ev r2) as Hni.
  rewrite <- !(assoc_L (++)) in Hni. specialize (Hni Ho) as [Hni _]. rewrite !not_elem_of_app in Hni.
  constructor; try done; [|apply lseg_insert; tauto..].
  apply owns_insert; [done|]. set_solver.
Qed.

(** ** Cells: allocating and freeing *)

(** Another owner list with the same addresses. *)
Lemma rep_perm s lq lt lf lb lr lr' : rep s lq lt lf lb lr -> lr ≡ₚ lr' -> rep s lq lt lf lb lr'.
Proof. intros [Ho ? ? ? ? ? ?] Hp. constructor; try done. by rewrite <- Hp. Qed.

Lemma malloc_runs s lq lt lf lb lr :
  rep s lq lt lf lb lr ->
  exists ev s', runs malloc_node s ev s' /\ rep s' lq lt lf lb (ev :: lr) /\ misc s' = misc s.
Proof.
  intros [Ho Hq Ht Hf Hb Hl Htm]. set (p := malloc_addr (es_heap s)).
  assert (Hn : es_heap s !! p = None).
  { destruct (es_heap s !! p) eqn:E; [|done]. pose proof (malloc_addr_bound (es_heap s) p). rewrite E in H.
    specialize (H ltac:(eauto)). subst p. lia. }
  assert (Hni : p ∉ addrs lq ++ addrs lt ++ addrs lf ++ addrs lb ++ lr).
  { destruct Ho as (_ & Ho & _). rewrite <- Ho, Hn. by intros [? ?]. }
  rewrite !not_elem_of_app in Hni. destruct Hni as (H1 & H2 & H3 & H4 & _).
  exists p, (heap_put p new_node s). split; [|split; [|done]].
  - eapply runs_bind; [apply runs_gets|]. eapply runs_bind; [apply runs_modify|]. apply runs_ret.
  - constructor; try done; [|by apply lseg_insert..].
    assert (addrs lq ++ addrs lt ++ addrs lf ++ addrs lb ++ p :: lr ≡ₚ
            p :: addrs lq ++ addrs lt ++ addrs lf ++ addrs lb ++ lr) as -> by perm.
    apply owns_new; [done|done|]. pose proof (malloc_addr_pos (es_heap s)). unfold EVENT_BUF_SIZE in *. subst p. lia.
Qed.

Lemma alloc_runs s lq lt lf lb lr :
  rep s lq lt lf lb lr ->
  exists ev s' lf', runs alloc_event_node s ev s' /\ rep s' lq lt lf' lb (ev :: lr) /\ misc s' = misc s.
Proof.
  intros Hr. pose proof Hr as [Ho Hq Ht Hf Hb Hl Htm]. unfold alloc_event_node.
  destruct lf as [|[a n] lf]; cbn [lseg] in Hf.
  - destruct (malloc_runs s _ _ _ _ _ Hr) as (ev & s' & Hrun & Hr' & Hm). exists ev, s', [].
    split; [|done]. eapply runs_bind; [apply runs_gets|]. by rewrite Hf.
  - destruct Hf as (Ep & Ha & Hh & Hf). exists a, (set_free_queue (en_next n) s), lf.
    split; [|split; [|done]].
    + eapply runs_bind; [apply runs_gets|]. rewrite Ep, (proj2 (Z.eqb_neq a 0)) by lia. cbn [negb].
      eapply runs_bind; [by apply load_node_runs|]. eapply runs_bind; [apply runs_modify|]. apply runs_ret.
    + constructor; try done. cbn [es_heap set_free_queue].
      assert (addrs lq ++ addrs lt ++ addrs lf ++ addrs lb ++ a :: lr ≡ₚ
        addrs lq ++ addrs lt ++ addrs ((a, n) :: lf) ++ addrs lb ++ lr) as -> by perm. done.
Qed.

Lemma alloc_bg_runs s lq lt lf lb lr :
  rep s lq lt lf lb lr ->
  exists ev s' lb', runs alloc_event_node_bg s ev s' /\ rep s' lq lt lf lb' (ev :: lr) /\ misc s' = misc s.
Proof.
  intros Hr. pose proof Hr as [Ho Hq Ht Hf Hb Hl Htm]. unfold alloc_event_node_bg.
  destruct lb as [|[a n] lb]; cbn [lseg] in Hb.
  - destruct (malloc_runs s _ _ _ _ _ Hr) as (ev & s' & Hrun & Hr' & Hm). exists ev, s', [].
    split; [|done]. eapply runs_bind; [apply runs_gets|]. by rewrite Hb.
  - destruct Hb as (Ep & Ha & Hh & Hb). exists a, (set_free_bg_queue (en_next n) s), lb.
    split; [|split; [|done]].
    + eapply runs_bind; [apply runs_gets|]. rewrite Ep, (proj2 (Z.eqb_neq a 0)) by lia. cbn [negb].
      eapply runs_bind; [by apply load_node_runs|]. eapply runs_bind; [apply runs_modify|]. apply runs_ret.
    + constructor; try done. cbn [es_heap set_free_bg_queue].
      assert (addrs lq ++ addrs lt ++ addrs lf ++ addrs lb ++ a :: lr ≡ₚ
        addrs lq ++ addrs lt ++ addrs lf ++ addrs ((a, n) :: lb) ++ lr) as -> by perm. done.
Qed.

Lemma loose_lookup s lq lt lf lb lr ev :
  rep s lq lt lf lb lr -> ev ∈ lr -> is_Some (es_heap s !! ev) /\ 0 < ev.
Proof.
  intros [(_ & Ho & Hpos) _ _ _ _ _ _] Hin. split.
  - apply Ho. set_solver.
  - rewrite Forall_forall in Hpos. apply Hpos. set_solver.
Qed.

Lemma free_runs s lq lt lf lb lr ev :
  rep s lq lt lf lb (ev :: lr) ->
  exists s' lf', runs (free_event_node ev) s tt s' /\ rep s' lq lt lf' lb lr /\ misc s' = misc s.
Proof.
  intros Hr. pose proof Hr as [Ho Hq Ht Hf Hb Hl Htm].
  destruct (loose_lookup s _ _ _ _ _ ev Hr ltac:(set_solver)) as [[n Hn] Hpos].
  unfold free_event_node. destruct ((1 <=? ev) && (ev <? 1 + EVENT_BUF_SIZE)) eqn:E.
  - pose proof (rep_put s _ _ _ _ _ ev (node_set_next (es_free_queue s) n) Hr ltac:(set_solver))
      as [Ho' Hq' Ht' Hf' Hb' Hl' Htm'].
    exists (set_free_queue ev (heap_put ev (node_set_next (es_free_queue s) n) s)),
      ((ev, node_set_next (es_free_queue s) n) :: lf). split; [|split; [|done]].
    + eapply runs_bind; [apply runs_gets|]. eapply runs_bind; [by apply store_next_runs|]. apply runs_modify.
    + constructor; try done.
      * assert (addrs lq ++ addrs lt ++ addrs ((ev, node_set_next (es_free_queue s) n) :: lf) ++ addrs lb ++ lr ≡ₚ
          addrs lq ++ addrs lt ++ addrs lf ++ addrs lb ++ ev :: lr) as -> by perm. done.
      * cbn. split_and!; try done. apply lookup_insert_eq.
  - exists (set_heap (delete ev (es_heap s)) s), lf. split; [|split; [|done]].
    + eapply runs_bind; [by apply load_node_runs|]. done.
    + assert (Ho2 : owns (es_heap s) (ev :: addrs lq ++ addrs lt ++ addrs lf ++ addrs lb ++ lr)).
      { assert (ev :: addrs lq ++ addrs lt ++ addrs lf ++ addrs lb ++ lr ≡ₚ
          addrs lq ++ addrs lt ++ addrs lf ++ addrs lb ++ ev :: lr) as -> by perm. done. }
      assert (Hni : ev ∉ addrs lq ++ addrs lt ++ addrs lf ++ addrs lb ++ lr).
      { destruct Ho2 as (Hnd & _). by apply NoDup_cons in Hnd as [? _]. }
      rewrite !not_elem_of_app in Hni. destruct Hni as (H1 & H2 & H3 & H4 & _).
      constructor; try done; [by apply owns_delete|by apply lseg_delete..].
Qed.

(** ** Posting *)

Lemma time_cmp_runs t1 t2 s :
  tv_nsec t1 < 1000000000 -> tv_nsec t2 < 1000000000 ->
  exists c, runs (time_cmp t1 t2) s c s /\ (0 <=? c) = time_leb t2 t1 /\ (c <=? 0) = time_leb t1 t2.
Proof.
  intros H1 H2. unfold time_cmp. eexists. split.
  - eapply runs_bind; [apply runs_cassert; lia|]. eapply runs_bind; [apply runs_cassert; lia|]. apply runs_ret.
  - unfold time_leb. destruct (Z.ltb_spec (tv_sec t1) (tv_sec t2)); destruct (Z.ltb_spec (tv_sec t2) (tv_sec t1));
      destruct (Z.eqb_spec (tv_sec t1) (tv_sec t2)); destruct (Z.eqb_spec (tv_sec t2) (tv_sec t1));
      destruct (Z.ltb_spec (tv_nsec t1) (tv_nsec t2)); destruct (Z.ltb_spec (tv_nsec t2) (tv_nsec t1));
      destruct (Z.leb_spec (tv_nsec t1) (tv_nsec t2)); destruct (Z.leb_spec (tv_nsec t2) (tv_nsec t1));
      split; done || lia.
Qed.

Lemma time_add_ok now d :
  0 < tv_sec now -> 0 <= tv_nsec now < 1000000000 -> 0 <= d -> time_ok (time_add_usec now d).
Proof.
  intros Hs Hn Hd. unfold time_add_usec, time_ok.
  assert (0 <= d / 1000000) by (apply Z.div_pos; lia).
  pose proof (Z.mod_pos_bound d 1000000 ltac:(lia)).
  destruct (Z.leb_spec 1000000000 (tv_nsec now + d mod 1000000 * 1000)); cbn; lia.
Qed.

(** The search splits the list where the new event belongs. *)
Lemma timer_search_runs s fuel rt prev next l :
  tv_nsec rt < 1000000000 -> Forall (fun c => time_ok (en_runtime (snd c))) l ->
  lseg (es_heap s) next l 0 -> (length l < fuel)%nat ->
  exists l1 l2, l = l1 ++ l2 /\
    runs (timer_search fuel rt prev next) s (last_addr prev l1, head_addr l2) s /\
    forall h a, timers_insert (rt, (h, a)) (t_events l) = t_events l1 ++ (rt, (h, a)) :: t_events l2.
Proof.
  intros Hrt. revert prev next l. induction fuel as [|fuel IH]; intros prev next l Htm Hseg Hf; [lia|].
  cbn [timer_search]. destruct l as [|[p n] l]; cbn [lseg] in Hseg.
  - subst next. exists [], []. split_and!; [done|apply runs_ret|done].
  - destruct Hseg as (-> & Hp & Hh & Hseg). apply Forall_cons in Htm as [[_ Hn] Htm].
    rewrite (proj2 (Z.eqb_neq p 0)) by lia. cbn [snd] in Hn.
    destruct (time_cmp_runs rt (en_runtime n) s Hrt Hn) as (c & Hc & Ec & _).
    destruct (0 <=? c) eqn:E0; symmetry in Ec.
    + cbn [length] in Hf. destruct (IH p (en_next n) l Htm Hseg ltac:(lia)) as (l1 & l2 & -> & Hrun & Hins).
      exists ((p, n) :: l1), l2. split_and!; [done| |].
      * eapply runs_bind; [by apply load_node_runs|]. eapply runs_bind; [exact Hc|]. rewrite E0.
        replace (last_addr prev ((p, n) :: l1)) with (last_addr p l1); [exact Hrun|].
        unfold last_addr. destruct l1 as [|c1 l1 _] using rev_ind; [done|].
        rewrite app_comm_cons, !last_snoc. done.
      * intros h a. cbn [t_events map timers_insert fst snd app]. rewrite Ec. f_equal. apply Hins.
    + exists [], ((p, n) :: l). split_and!; [done| |].
      * eapply runs_bind; [by apply load_node_runs|]. eapply runs_bind; [exact Hc|]. rewrite E0. apply runs_ret.
      * intros h a. cbn [t_events map timers_insert fst snd app]. by rewrite Ec.
Qed.

Lemma rep_fuel s lq lt lf lb lr : rep s lq lt lf lb lr -> (length lq < es_fuel s)%nat /\ (length lt < es_fuel s)%nat.
Proof.
  intros [Ho _ _ _ _ _ _]. unfold es_fuel. rewrite (owns_size _ _ Ho), !length_app, !length_map. lia.
Qed.

Lemma timer_insert_runs s lq lt lf lb lr ev rt h a :
  rep s lq lt lf lb (ev :: lr) -> time_ok rt ->
  exists s' lt', runs (timer_insert ev rt h a) s tt s' /\ rep s' lq lt' lf lb lr /\
    t_events lt' = timers_insert (rt, (h, a)) (t_events lt) /\ misc s' = misc s.
Proof.
  intros Hr Hrt. set (n0 := mkNode 0 rt h a).
  destruct (loose_lookup s _ _ _ _ _ ev Hr ltac:(set_solver)) as [Hev Hpos].
  pose proof (rep_put s _ _ _ _ _ ev n0 Hr ltac:(set_solver)) as Hr1. set (s1 := heap_put ev n0 s) in *.
  pose proof Hr1 as [Ho1 Hq1 Ht1 Hf1 Hb1 Hl1 Htm1].
  destruct (timer_search_runs s1 (es_fuel s1) rt 0 (es_timer_queue s1) lt (proj2 Hrt) Htm1 Ht1
    (proj2 (rep_fuel _ _ _ _ _ _ Hr1))) as (l1 & l2 & -> & Hrun & Hins).
  set (n1 := mkNode (head_addr l2) rt h a).
  pose proof (rep_put s1 _ _ _ _ _ ev n1 Hr1 ltac:(set_solver)) as Hr2. set (s2 := heap_put ev n1 s1) in *.
  pose proof Hr2 as [Ho2 Hq2 Ht2 Hf2 Hb2 Hl2 Htm2].
  assert (Hhead : forall s3, runs (if last_addr 0 l1 =? 0 then modify (set_timer_queue ev)
      else store_next (last_addr 0 l1) ev) s2 tt s3 -> runs (timer_insert ev rt h a) s tt s3).
  { intros s3 H3. unfold timer_insert. eapply runs_bind; [by apply store_node_runs|].
    fold n0 s1. eapply runs_bind; [apply runs_gets|]. eapply runs_bind; [apply runs_gets|].
    eapply runs_bind; [exact Hrun|]. eapply runs_bind; [|exact H3].
    apply (store_next_runs s1 ev (head_addr l2) n0). apply lookup_insert_eq. }
  destruct l1 as [|[pa pn] l1 _] using rev_ind.
  - cbn [app] in *. exists (set_timer_queue ev s2), ((ev, n1) :: l2). split_and!; [by apply Hhead| |by rewrite Hins|done].
    constructor; try done.
    + assert (addrs lq ++ addrs ((ev, n1) :: l2) ++ addrs lf ++ addrs lb ++ lr ≡ₚ
        addrs lq ++ addrs l2 ++ addrs lf ++ addrs lb ++ ev :: lr) as -> by perm. done.
    + cbn [lseg]. split_and!; [done|done|apply lookup_insert_eq|]. cbn [en_next n1].
      pose proof (lseg_head _ _ _ Ht2) as E. by rewrite <- E.
    + by constructor.
  - rewrite <- (assoc_L (++)) in Ht2. cbn [app] in Ht2.
    apply lseg_app in Ht2 as (m & Hs1 & Hs2). cbn [lseg] in Hs2. destruct Hs2 as (-> & Hpa & Hhp & Hs2).
    assert (Hni : pa ∉ addrs lq /\ pa ∉ addrs l1 /\ pa ∉ addrs l2 /\ pa ∉ addrs lf /\ pa ∉ addrs lb /\ pa ∉ ev :: lr).
    { pose proof (owns_fresh _ _ pa (addrs lq ++ addrs l1 ++ addrs l2 ++ addrs lf ++ addrs lb ++ ev :: lr) Ho2 ltac:(perm)) as Hx.
      rewrite !not_elem_of_app in Hx. tauto. }
    destruct Hni as (N1 & N2 & N3 & N4 & N5 & N6).
    assert (Hne : ev <> pa) by set_solver.
    set (pn' := node_set_next ev pn).
    exists (heap_put pa pn' s2), (l1 ++ (pa, pn') :: (ev, n1) :: l2). split_and!.
    + apply Hhead. rewrite last_addr_snoc, (proj2 (Z.eqb_neq pa 0)) by lia. by apply store_next_runs.
    + constructor; try done; [|by apply lseg_insert| |by apply lseg_insert..|].
      * assert (addrs lq ++ addrs (l1 ++ (pa, pn') :: (ev, n1) :: l2) ++ addrs lf ++ addrs lb ++ lr ≡ₚ
          addrs lq ++ addrs ((l1 ++ [(pa, pn)]) ++ l2) ++ addrs lf ++ addrs lb ++ ev :: lr) as -> by perm.
        apply owns_insert; [done|]. rewrite !map_app. cbn [map fst]. set_solver.
      * apply lseg_app. exists pa. split; [by apply lseg_insert|]. cbn [lseg].
        split_and!; [done|done|apply lookup_insert_eq|done|done| |].
        -- cbn [es_heap heap_put set_heap]. rewrite lookup_insert_ne by done. apply lookup_insert_eq.
        -- cbn [en_next n1]. apply lseg_insert; [done|].
           pose proof (lseg_head _ _ _ Hs2) as E. by rewrite <- E.
      * rewrite !Forall_app in Htm2. destruct Htm2 as [[Hx1 Hx2] Hx3].
        rewrite Forall_app. split; [done|]. apply Forall_cons in Hx2 as [Hx2 _].
        apply Forall_cons; split; [exact Hx2|]. apply Forall_cons; split; [exact Hrt|exact Hx3].
    + rewrite Hins. unfold t_events. rewrite !map_app. cbn. by rewrite <- (assoc_L (++)).
    + done.
Qed.

Lemma post_event_runs s lq lt lf lb lr h a :
  rep s lq lt lf lb lr ->
  exists s' lq' lf', runs (post_event h a) s tt s' /\ rep s' lq' lt lf' lb lr /\
    q_events lq' = q_events lq ++ [(false, (h, a))] /\ misc s' = misc s.
Proof.
  intros Hr. destruct (alloc_runs s _ _ _ _ _ Hr) as (ev & s0 & lf' & Hrun0 & Hr0 & Hm0).
  destruct (loose_lookup s0 _ _ _ _ _ ev Hr0 ltac:(set_solver)) as [[m Hev] Hpos].
  set (n0 := mkNode 0 (mkTime 0 (tv_nsec (en_runtime m))) h a).
  pose proof (rep_put s0 _ _ _ _ _ ev n0 Hr0 ltac:(set_solver)) as Hr1. set (s1 := heap_put ev n0 s0) in *.
  pose proof Hr1 as [Ho1 Hq1 Ht1 Hf1 Hb1 Hl1 Htm1].
  assert (Hhead : forall s3, runs (if es_event_queue s1 =? 0 then
        cassert (es_event_last s1 =? 0) ;! modify (set_event_queue ev) ;! modify (set_event_last ev)
      else store_next (es_event_last s1) ev ;! modify (set_event_last ev)) s1 tt s3 ->
      runs (post_event h a) s tt s3).
  { intros s3 H3. unfold post_event. eapply runs_bind; [exact Hrun0|].
    eapply runs_bind; [by apply load_node_runs|]. eapply runs_bind; [by apply store_node_runs|].
    fold n0 s1. eapply runs_bind; [apply runs_gets|]. eapply runs_bind; [apply runs_gets|]. exact H3. }
  destruct lq as [|[pa pn] lq _] using rev_ind.
  - cbn [lseg] in Hq1. exists (set_event_last ev (set_event_queue ev s1)), [(ev, n0)], lf'. split_and!; [|constructor; try done|done|done].
    + apply Hhead. rewrite Hq1, Hl1. eapply runs_bind; [by apply runs_cassert|].
      eapply runs_bind; [apply runs_modify|]. apply runs_modify.
    + assert (addrs [(ev, n0)] ++ addrs lt ++ addrs lf' ++ addrs lb ++ lr ≡ₚ
        addrs [] ++ addrs lt ++ addrs lf' ++ addrs lb ++ ev :: lr) as -> by perm. done.
    + cbn. split_and!; try done. apply lookup_insert_eq.
  - destruct (lseg_last_lookup _ _ _ _ _ _ Hq1) as [Hpn Hpa].
    assert (Hni : pa ∉ addrs lq /\ pa ∉ addrs lt /\ pa ∉ addrs lf' /\ pa ∉ addrs lb /\ pa ∉ ev :: lr).
    { pose proof (owns_fresh _ _ pa (addrs lq ++ addrs lt ++ addrs lf' ++ addrs lb ++ ev :: lr) Ho1 ltac:(perm)) as Hx.
      rewrite !not_elem_of_app in Hx. tauto. }
    destruct Hni as (N1 & N2 & N3 & N4 & N5). assert (Hne : pa <> ev) by set_solver.
    set (pn' := node_set_next ev pn).
    exists (set_event_last ev (heap_put pa pn' s1)), ((lq ++ [(pa, pn')]) ++ [(ev, n0)]), lf'.
    split_and!; [|constructor; try done; [| |by apply lseg_insert..|]| |done].
    + apply Hhead. assert (es_event_queue s1 <> 0) as Hnz.
      { intros E. apply (lseg_nil _ _ _ Hq1) in E. by destruct lq. }
      rewrite (proj2 (Z.eqb_neq _ 0)) by done. rewrite Hl1, last_addr_snoc.
      eapply runs_bind; [by apply store_next_runs|]. apply runs_modify.
    + assert (addrs ((lq ++ [(pa, pn')]) ++ [(ev, n0)]) ++ addrs lt ++ addrs lf' ++ addrs lb ++ lr ≡ₚ
        addrs (lq ++ [(pa, pn)]) ++ addrs lt ++ addrs lf' ++ addrs lb ++ ev :: lr) as -> by perm.
      apply owns_insert; [done|]. rewrite map_app. cbn [map fst]. set_solver.
    + apply lseg_app. exists ev. split; [by eapply lseg_relink|].
      cbn [lseg]. split_and!; try done. cbn [es_heap heap_put set_heap set_event_last].
      rewrite lookup_insert_ne by done. apply lookup_insert_eq.
    + cbn [es_event_last set_event_last]. by rewrite last_addr_snoc.
    + unfold q_events. rewrite !map_app. cbn. done.
Qed.

(** ** Cancelling *)

Definition matches (h a : Z) (c : cell) : Prop := (en_handler (snd c), en_arg (snd c)) = (h, a).

Lemma find_event_runs s fuel h a prev p l :
  lseg (es_heap s) p l 0 -> (length l < fuel)%nat ->
  (exists l1 ev n l2, l = l1 ++ (ev, n) :: l2 /\ Forall (fun c => ~ matches h a c) l1 /\ matches h a (ev, n) /\
    runs (find_event fuel h a prev p) s (Some (last_addr prev l1, ev, n)) s) \/
  (Forall (fun c => ~ matches h a c) l /\ runs (find_event fuel h a prev p) s None s).
Proof.
  revert prev p l. induction fuel as [|fuel IH]; intros prev p l Hseg Hf; [lia|].
  cbn [find_event]. destruct l as [|[q n] l]; cbn [lseg] in Hseg.
  - subst. right. split; [done|apply runs_ret].
  - destruct Hseg as (-> & Hq & Hh & Hseg). rewrite (proj2 (Z.eqb_neq q 0)) by lia.
    destruct ((en_handler n =? h) && (en_arg n =? a)) eqn:E.
    + left. exists [], q, n, l. split_and!; [done|done| |].
      * unfold matches. cbn. apply andb_true_iff in E as [E1 E2]. apply Z.eqb_eq in E1, E2. congruence.
      * eapply runs_bind; [by apply load_node_runs|]. rewrite E. apply runs_ret.
    + cbn [length] in Hf.
      assert (Hno : ~ matches h a (q, n)).
      { unfold matches. cbn. intros Em. injection Em as <- <-. by rewrite !Z.eqb_refl in E. }
      destruct (IH q (en_next n) l Hseg ltac:(lia)) as [(l1 & ev & m & l2 & -> & Hl1 & Hm & Hrun)|[Hl Hrun]].
      * left. exists ((q, n) :: l1), ev, m, l2. split_and!; [done|by constructor|done|].
        eapply runs_bind; [by apply load_node_runs|]. rewrite E.
        replace (last_addr prev ((q, n) :: l1)) with (last_addr q l1); [exact Hrun|].
        unfold last_addr. destruct l1 as [|c1 l1 _] using rev_ind; [done|]. by rewrite app_comm_cons, !last_snoc.
      * right. split; [by constructor|]. eapply runs_bind; [by apply load_node_runs|]. by rewrite E.
Qed.

Lemma remove_first_app {A} (f : cell -> A) h a l1 c l2 :
  Forall (fun c => ~ matches h a c) l1 -> matches h a c ->
  let g := fun c => (f c, (en_handler (snd c), en_arg (snd c))) in
  remove_first (h, a) (map g (l1 ++ c :: l2)) = Some (map g (l1 ++ l2)).
Proof.
  intros H1 Hc g. induction H1 as [|x l1 Hx H1 IH]; cbn [app map remove_first].
  - by rewrite bool_decide_eq_true_2.
  - rewrite bool_decide_eq_false_2 by done. by rewrite IH.
Qed.

Lemma remove_first_none {A} (f : cell -> A) h a l :
  Forall (fun c => ~ matches h a c) l ->
  remove_first (h, a) (map (fun c => (f c, (en_handler (snd c), en_arg (snd c)))) l) = None.
Proof.
  induction 1 as [|x l Hx Hl IH]; cbn [map remove_first]; [done|].
  rewrite bool_decide_eq_false_2 by done. by rewrite IH.
Qed.

(** The cells of a list with another link in the last one. *)
Definition relink (x : Z) (l : list cell) : list cell :=
  match last l with
  | Some (a, n) => removelast l ++ [(a, node_set_next x n)]
  | None => []
  end.

Lemma relink_snoc x l a n : relink x (l ++ [(a, n)]) = l ++ [(a, node_set_next x n)].
Proof. unfold relink. by rewrite last_snoc, removelast_last. Qed.

(** A cell is taken out of the middle of a list, whose head is in the variable [set] writes. *)
Lemma unlink_runs s p l1 ev n l2 (set : Z -> EventState -> EventState) :
  (forall x s, es_heap (set x s) = es_heap s) ->
  lseg (es_heap s) p (l1 ++ (ev, n) :: l2) 0 -> NoDup (addrs (l1 ++ (ev, n) :: l2)) ->
  let s' := match last l1 with
            | Some (a, m) => heap_put a (node_set_next (en_next n) m) s
            | None => set (en_next n) s
            end in
  runs (if last_addr 0 l1 =? 0 then modify (set (en_next n)) else store_next (last_addr 0 l1) (en_next n)) s tt s' /\
  lseg (es_heap s') (match l1 with [] => en_next n | _ => p end) (relink (en_next n) l1 ++ l2) 0 /\
  (forall q, q ∉ addrs l1 -> es_heap s' !! q = es_heap s !! q).
Proof.
  intros Hset Hseg Hnd. destruct l1 as [|[a m] l1 _] using rev_ind.
  - cbn [app lseg] in Hseg. destruct Hseg as (-> & _ & _ & Hseg). split_and!; [apply runs_modify| |].
    + cbn. by rewrite Hset.
    + intros q _. cbn. by rewrite Hset.
  - rewrite last_snoc, last_addr_snoc, relink_snoc. cbn zeta.
    rewrite <- (assoc_L (++)) in Hseg, Hnd. cbn [app] in Hseg, Hnd.
    apply lseg_app in Hseg as (k & H1 & (-> & Ha & Hh & (E & _ & _ & H2))).
    rewrite map_app in Hnd. cbn [map fst] in Hnd.
    apply NoDup_app in Hnd as (Hn1 & Hn2 & Hn3). apply NoDup_cons in Hn3 as [Hn3 Hn4].
    apply NoDup_cons in Hn4 as [Hn4 Hn5].
    assert (a ∉ addrs l1) by (intros Hin; apply (Hn2 a Hin); apply list_elem_of_here).
    split_and!.
    + rewrite (proj2 (Z.eqb_neq a 0)) by lia. by apply store_next_runs.
    + replace (match l1 ++ [(a, m)] with [] => en_next n | _ => p end) with p by (by destruct l1).
      rewrite <- (assoc_L (++)). apply lseg_app. exists a. split; [by apply lseg_insert|]. cbn [app lseg].
      split_and!; [done|done|apply lookup_insert_eq|]. cbn [en_next node_set_next].
      apply lseg_insert; [|done]. set_solver.
    + intros q Hq. apply lookup_insert_ne. rewrite map_app in Hq. cbn in Hq. set_solver.
Qed.
