(* ===== verification/EventLoop.v ===== *)
(** * The event loop implements its specification (Events.v, EventProps.v) *)

From S2P Require Import Prelude Events EventProps.

(** ** Cells taken out of a queue *)

Lemma addrs_relink x l : addrs (relink x l) = addrs l.
Proof.
  destruct l as [|[a n] l _] using rev_ind; [done|]. by rewrite relink_snoc, !map_app.
Qed.

Lemma last_addr_relink x l : last_addr 0 (relink x l) = last_addr 0 l.
Proof. destruct l as [|[a n] l _] using rev_ind; [done|]. by rewrite relink_snoc, !last_addr_snoc. Qed.

Lemma relink_map {B} (g : cell -> B) x l :
  (forall a n, g (a, node_set_next x n) = g (a, n)) -> map g (relink x l) = map g l.
Proof.
  intros Hg. destruct l as [|[a n] l _] using rev_ind; [done|]. rewrite relink_snoc, !map_app. cbn. by rewrite Hg.
Qed.

(** The head of a list is in the variable that [set] writes. *)
Definition unlinked (set : Z -> EventState -> EventState) (l1 : list cell) (n : event_node) (s : EventState) :
  EventState :=
  match last l1 with
  | Some (a, m) => heap_put a (node_set_next (en_next n) m) s
  | None => set (en_next n) s
  end.

Lemma unlinked_frame set l1 n s A (f : EventState -> A) :
  (forall x s, f (set x s) = f s) -> (forall a m s, f (heap_put a m s) = f s) ->
  f (unlinked set l1 n s) = f s.
Proof. intros H1 H2. unfold unlinked. by destruct (last l1) as [[a m]|]. Qed.

Lemma unlinked_owns set l1 n s L :
  (forall x s, es_heap (set x s) = es_heap s) -> owns (es_heap s) L -> (forall a, a ∈ addrs l1 -> a ∈ L) ->
  owns (es_heap (unlinked set l1 n s)) L.
Proof.
  intros Hs Ho Hin. unfold unlinked. destruct (last l1) as [[a m]|] eqn:E; [|by rewrite Hs].
  apply owns_insert; [done|]. apply Hin. apply last_Some in E as [l' ->]. rewrite map_app. cbn. set_solver.
Qed.

(** The addresses of the cells [l1] are different from all others. *)
Lemma owns_apart h l1 K : owns h (l1 ++ K) -> forall a, a ∈ K -> a ∉ l1.
Proof. intros (Hnd & _) a Ha Hin. apply NoDup_app in Hnd as (_ & Hd & _). by apply (Hd a). Qed.

Lemma lseg_agree h h' p l q K L :
  lseg h p l q -> (forall a, a ∉ K -> h' !! a = h !! a) -> owns h (K ++ L) -> (forall a, a ∈ addrs l -> a ∈ L) ->
  lseg h' p l q.
Proof.
  intros Hl Ha Ho Hin. eapply lseg_frame; [|exact Hl]. intros a Hal. apply Ha.
  eapply owns_apart; [exact Ho|]. by apply Hin.
Qed.

Lemma unlink_queue_runs s l1 ev n l2 lt lf lb lr :
  rep s (l1 ++ (ev, n) :: l2) lt lf lb lr ->
  exists s1 s2,
    runs (if en_next n =? 0 then
            let! last := gets es_event_last in cassert (last =? ev) ;! modify (set_event_last (last_addr 0 l1))
          else ret tt) s tt s1 /\
    runs (if last_addr 0 l1 =? 0 then modify (set_event_queue (en_next n))
          else store_next (last_addr 0 l1) (en_next n)) s1 tt s2 /\
    rep s2 (relink (en_next n) l1 ++ l2) lt lf lb (ev :: lr) /\ misc s2 = misc s.
Proof.
  intros [Ho Hq Ht Hf Hb Hl Htm].
  set (s1 := if en_next n =? 0 then set_event_last (last_addr 0 l1) s else s).
  assert (Hh1 : es_heap s1 = es_heap s) by (subst s1; by destruct (en_next n =? 0)).
  assert (Hl2 : l2 = [] <-> en_next n = 0).
  { apply lseg_app in Hq as (m & _ & (_ & _ & _ & Hq)). by apply (lseg_nil _ _ _ Hq). }
  destruct (unlink_runs s1 (es_event_queue s) l1 ev n l2 set_event_queue) as (Hrun & Hseg & Hag);
    [done|by rewrite Hh1| |].
  { destruct Ho as (Ho & _). by apply NoDup_app in Ho as [? _]. }
  fold (unlinked set_event_queue l1 n s1) in *. set (s2 := unlinked set_event_queue l1 n s1) in *.
  exists s1, s2. split_and!; [|exact Hrun| |].
  - subst s1. destruct (Z.eqb_spec (en_next n) 0) as [E|E]; [|apply runs_ret].
    apply Hl2 in E. subst l2. rewrite last_addr_snoc in Hl.
    eapply runs_bind; [apply runs_gets|]. rewrite Hl. eapply runs_bind; [apply runs_cassert, Z.eqb_refl|].
    apply runs_modify.
  - rewrite Hh1 in Hag.
    assert (Ho2 : owns (es_heap s) (addrs l1 ++ (ev :: addrs l2 ++ addrs lt ++ addrs lf ++ addrs lb ++ lr))).
    { assert (addrs l1 ++ (ev :: addrs l2 ++ addrs lt ++ addrs lf ++ addrs lb ++ lr) ≡ₚ
        addrs (l1 ++ (ev, n) :: l2) ++ addrs lt ++ addrs lf ++ addrs lb ++ lr) as -> by perm. done. }
    assert (Hv : forall (f : EventState -> Z), (forall x s, f (set_event_queue x s) = f s) ->
      (forall a m s, f (heap_put a m s) = f s) -> (forall x s, f (set_event_last x s) = f s) -> f s2 = f s).
    { intros f H1 H2 H3. subst s2. rewrite (unlinked_frame set_event_queue l1 n s1 Z f) by done. subst s1.
      by destruct (en_next n =? 0). }
    constructor.
    + rewrite map_app, addrs_relink.
      assert ((addrs l1 ++ addrs l2) ++ addrs lt ++ addrs lf ++ addrs lb ++ ev :: lr ≡ₚ
        addrs l1 ++ (ev :: addrs l2 ++ addrs lt ++ addrs lf ++ addrs lb ++ lr)) as -> by perm.
      apply unlinked_owns; [done|by rewrite Hh1|clear; set_solver].
    + replace (es_event_queue s2) with (match l1 with [] => en_next n | _ => es_event_queue s end); [exact Hseg|].
      subst s2 s1. unfold unlinked. destruct l1 as [|[a m] l1 _] using rev_ind; [done|]. rewrite last_snoc.
      destruct (l1 ++ [(a, m)]) eqn:E; [by destruct l1|]. by destruct (en_next n =? 0).
    + rewrite (Hv es_timer_queue) by done. eapply lseg_agree; [exact Ht|exact Hag|exact Ho2|clear; set_solver].
    + rewrite (Hv es_free_queue) by done. eapply lseg_agree; [exact Hf|exact Hag|exact Ho2|clear; set_solver].
    + rewrite (Hv es_free_bg_queue) by done. eapply lseg_agree; [exact Hb|exact Hag|exact Ho2|clear; set_solver].
    + subst s2. rewrite (unlinked_frame set_event_queue l1 n s1 Z es_event_last) by done. subst s1.
      destruct (Z.eqb_spec (en_next n) 0) as [E|E].
      * apply Hl2 in E. subst l2. rewrite app_nil_r, last_addr_relink. done.
      * destruct l2 as [|c l2]; [by destruct E; apply Hl2|]. rewrite Hl, !last_addr_app_cons.
        reflexivity.
    + done.
  - subst s2. rewrite (unlinked_frame set_event_queue l1 n s1 _ misc) by done. subst s1.
    by destruct (en_next n =? 0).
Qed.

Lemma unlink_timer_runs s lq l1 ev n l2 lf lb lr :
  rep s lq (l1 ++ (ev, n) :: l2) lf lb lr ->
  exists s2,
    runs (if last_addr 0 l1 =? 0 then modify (set_timer_queue (en_next n))
          else store_next (last_addr 0 l1) (en_next n)) s tt s2 /\
    rep s2 lq (relink (en_next n) l1 ++ l2) lf lb (ev :: lr) /\ misc s2 = misc s.
Proof.
  intros [Ho Hq Ht Hf Hb Hl Htm].
  assert (Ho2 : owns (es_heap s) (addrs l1 ++ (ev :: addrs l2 ++ addrs lq ++ addrs lf ++ addrs lb ++ lr))).
  { assert (addrs l1 ++ (ev :: addrs l2 ++ addrs lq ++ addrs lf ++ addrs lb ++ lr) ≡ₚ
      addrs lq ++ addrs (l1 ++ (ev, n) :: l2) ++ addrs lf ++ addrs lb ++ lr) as -> by perm. done. }
  destruct (unlink_runs s (es_timer_queue s) l1 ev n l2 set_timer_queue) as (Hrun & Hseg & Hag);
    [done|done| |].
  { destruct Ho as (Ho & _). apply NoDup_app in Ho as (_ & _ & Ho). by apply NoDup_app in Ho as [? _]. }
  fold (unlinked set_timer_queue l1 n s) in *. set (s2 := unlinked set_timer_queue l1 n s) in *.
  exists s2. split_and!; [exact Hrun| |].
  - assert (Hv : forall (f : EventState -> Z), (forall x s, f (set_timer_queue x s) = f s) ->
      (forall a m s, f (heap_put a m s) = f s) -> f s2 = f s).
    { intros f H1 H2. subst s2. by apply unlinked_frame. }
    constructor.
    + rewrite map_app, addrs_relink.
      assert (addrs lq ++ (addrs l1 ++ addrs l2) ++ addrs lf ++ addrs lb ++ ev :: lr ≡ₚ
        addrs l1 ++ (ev :: addrs l2 ++ addrs lq ++ addrs lf ++ addrs lb ++ lr)) as -> by perm.
      apply unlinked_owns; [done|done|clear; set_solver].
    + rewrite Hv by done. eapply lseg_agree; [exact Hq|exact Hag|exact Ho2|clear; set_solver].
    + replace (es_timer_queue s2) with (match l1 with [] => en_next n | _ => es_timer_queue s end); [exact Hseg|].
      subst s2. unfold unlinked. destruct l1 as [|[a m] l1 _] using rev_ind; [done|]. rewrite last_snoc.
      by destruct (l1 ++ [(a, m)]) eqn:E; [destruct l1|].
    + rewrite Hv by done. eapply lseg_agree; [exact Hf|exact Hag|exact Ho2|clear; set_solver].
    + rewrite Hv by done. eapply lseg_agree; [exact Hb|exact Hag|exact Ho2|clear; set_solver].
    + by rewrite Hv.
    + apply Forall_app in Htm as [H1 H2]. apply Forall_cons in H2 as [_ H2]. apply Forall_app. split; [|done].
      destruct l1 as [|[a m] l1 _] using rev_ind; [done|]. rewrite relink_snoc. by rewrite Forall_app, Forall_singleton in *.
  - by apply unlinked_frame.
Qed.

(** ** Cancelling *)

(** The specification's view of a state. *)
Definition abs (s : EventState) (lq lt : list cell) : Spec :=
  mkSpec (q_events lq) (t_events lt) (es_cancel s) (es_event_cnt s) (es_last_tick s) (es_timer_ms s)
    (es_waiting s).

Lemma abs_misc s s' lq lt :
  misc s' = misc s ->
  abs s' lq lt = mkSpec (q_events lq) (t_events lt) (es_cancel s) (es_event_cnt s) (es_last_tick s)
                   (es_timer_ms s) (es_waiting s).
Proof. unfold misc, abs. intros [=]. congruence. Qed.

Lemma events_unlinked x l1 l2 :
  q_events (relink x l1 ++ l2) = q_events (l1 ++ l2) /\ t_events (relink x l1 ++ l2) = t_events (l1 ++ l2).
Proof. unfold q_events, t_events. rewrite !map_app, !relink_map; done. Qed.

Lemma cancel_event_runs s lq lt lf lb lr h a w :
  rep s lq lt lf lb lr -> h <> 0 -> fst (es_cancel s) = 0 ->
  exists r s' lq' lt' lf', runs (cancel_event h a w) s r s' /\ rep s' lq' lt' lf' lb lr /\
    sp_cancel_event h a w (abs s lq lt) = (r, abs s' lq' lt').
Proof.
  intros Hr Hh Hc. pose proof Hr as [Ho Hq Ht Hf Hb Hl Htm].
  assert (Hstart : forall r s', runs (
      let! f := find_event (es_fuel s) h a 0 (es_event_queue s) in
      match f with
      | Some (prev, ev, n) =>
          (if en_next n =? 0 then
             let! last := gets es_event_last in
             cassert (last =? ev) ;! modify (set_event_last prev)
           else ret tt) ;!
          (if prev =? 0 then modify (set_event_queue (en_next n)) else store_next prev (en_next n)) ;!
          free_event_node ev ;! ret (Some 1)
      | None =>
          let! tq := gets es_timer_queue in
          let! f := find_event (es_fuel s) h a 0 tq in
          match f with
          | Some (prev, ev, n) =>
              (if prev =? 0 then modify (set_timer_queue (en_next n)) else store_next prev (en_next n)) ;!
              free_event_node ev ;! ret (Some 1)
          | None => if negb w then ret (Some 0) else modify (set_cancel (h, a)) ;! ret None
          end
      end) s r s' -> runs (cancel_event h a w) s r s').
  { intros r s' H. unfold cancel_event. eapply runs_bind; [apply runs_cassert; by rewrite (proj2 (Z.eqb_neq h 0))|].
    eapply runs_bind; [apply runs_gets|]. rewrite Hc. eapply runs_bind; [by apply runs_cassert|].
    eapply runs_bind; [apply runs_gets|]. eapply runs_bind; [apply runs_gets|]. exact H. }
  destruct (rep_fuel _ _ _ _ _ _ Hr) as [Hfq Hft]. unfold sp_cancel_event. cbn [abs sp_queue sp_timers].
  destruct (find_event_runs s (es_fuel s) h a 0 (es_event_queue s) lq Hq Hfq)
    as [(l1 & ev & n & l2 & -> & Hno & Hm & Hrun)|[Hno Hrun]].
  - unfold q_events at 1. rewrite remove_first_app by done. fold (q_events (l1 ++ l2)).
    destruct (unlink_queue_runs _ _ _ _ _ _ _ _ _ Hr) as (s1 & s2 & H1 & H2 & Hr2 & Hm2).
    destruct (free_runs _ _ _ _ _ _ _ Hr2) as (s3 & lf' & H3 & Hr3 & Hm3).
    exists (Some 1), s3, (relink (en_next n) l1 ++ l2), lt, lf'. split_and!; [|exact Hr3|].
    + apply Hstart. eapply runs_bind; [exact Hrun|]. eapply runs_bind; [exact H1|].
      eapply runs_bind; [exact H2|]. eapply runs_bind; [exact H3|]. apply runs_ret.
    + rewrite (abs_misc s s3) by congruence. by rewrite (proj1 (events_unlinked _ _ _)).
  - unfold q_events at 1. rewrite remove_first_none by done.
    destruct (find_event_runs s (es_fuel s) h a 0 (es_timer_queue s) lt Ht Hft)
      as [(l1 & ev & n & l2 & -> & Hno2 & Hm & Hrun2)|[Hno2 Hrun2]].
    + unfold t_events at 1. rewrite remove_first_app by done. fold (t_events (l1 ++ l2)).
      destruct (unlink_timer_runs _ _ _ _ _ _ _ _ _ Hr) as (s2 & H2 & Hr2 & Hm2).
      destruct (free_runs _ _ _ _ _ _ _ Hr2) as (s3 & lf' & H3 & Hr3 & Hm3).
      exists (Some 1), s3, lq, (relink (en_next n) l1 ++ l2), lf'. split_and!; [|exact Hr3|].
      * apply Hstart. eapply runs_bind; [exact Hrun|]. eapply runs_bind; [apply runs_gets|].
        eapply runs_bind; [exact Hrun2|]. eapply runs_bind; [exact H2|].
        eapply runs_bind; [exact H3|]. apply runs_ret.
      * rewrite (abs_misc s s3) by congruence. by rewrite (proj2 (events_unlinked _ _ _)).
    + unfold t_events at 1. rewrite remove_first_none by done. destruct w.
      * exists None, (set_cancel (h, a) s), lq, lt, lf. split_and!; [|by constructor|done].
        apply Hstart. eapply runs_bind; [exact Hrun|]. eapply runs_bind; [apply runs_gets|].
        eapply runs_bind; [exact Hrun2|]. eapply runs_bind; [apply runs_modify|]. apply runs_ret.
      * exists (Some 0), s, lq, lt, lf. split_and!; [|done|done].
        apply Hstart. eapply runs_bind; [exact Hrun|]. eapply runs_bind; [apply runs_gets|].
        eapply runs_bind; [exact Hrun2|]. apply runs_ret.
Qed.

(** ** The loop *)

Lemma refill_bg_runs fuel s lq lt lf lb lr :
  rep s lq lt lf lb lr -> (2 - length lb < fuel)%nat ->
  exists s' lf' lb', runs (refill_bg fuel) s tt s' /\ rep s' lq lt lf' lb' lr /\ misc s' = misc s.
Proof.
  revert s lf lb. induction fuel as [|fuel IH]; intros s lf lb Hr Hf; [lia|]. cbn [refill_bg].
  pose proof Hr as [Ho Hq Ht Hlf Hlb Hl Htm].
  destruct lf as [|[f x] lf]; cbn [lseg] in Hlf.
  { exists s, [], lb. split_and!; [|done|done].
    eapply runs_bind; [apply runs_gets|]. eapply runs_bind; [apply runs_gets|]. rewrite Hlf. apply runs_ret. }
  destruct Hlf as (Ef & Hfp & Hfh & Hlf).
  assert (Hmore : exists more, runs (if es_free_queue s =? 0 then ret false
      else if es_free_bg_queue s =? 0 then ret true
      else let! n := load_node (es_free_bg_queue s) in ret (en_next n =? 0)) s more s /\
      (more = true -> (length lb < 2)%nat)).
  { rewrite Ef, (proj2 (Z.eqb_neq f 0)) by lia. destruct lb as [|[b n] lb]; cbn [lseg] in Hlb.
    - rewrite Hlb. exists true. split; [apply runs_ret|cbn; lia].
    - destruct Hlb as (Eb & Hb0 & Hbh & Hlb). rewrite Eb, (proj2 (Z.eqb_neq b 0)) by lia.
      exists (en_next n =? 0). split; [eapply runs_bind; [by apply load_node_runs|apply runs_ret]|].
      intros E. apply Z.eqb_eq in E. apply (lseg_nil _ _ _ Hlb) in E. subst. cbn. lia. }
  destruct Hmore as (more & Hmore & Hlen). destruct more.
  - specialize (Hlen eq_refl). set (x' := node_set_next (es_free_bg_queue s) x).
    set (s' := set_free_bg_queue f (heap_put f x' (set_free_queue (en_next x) s))).
    assert (Hni : f ∉ addrs lq /\ f ∉ addrs lt /\ f ∉ addrs lf /\ f ∉ addrs lb).
    { pose proof (owns_fresh _ _ f (addrs lq ++ addrs lt ++ addrs lf ++ addrs lb ++ lr) Ho ltac:(perm)) as Hx.
      rewrite !not_elem_of_app in Hx. tauto. }
    destruct Hni as (N1 & N2 & N3 & N4).
    assert (Hr' : rep s' lq lt lf ((f, x') :: lb) lr).
    { constructor; try done; [|by apply lseg_insert..|].
      - assert (addrs lq ++ addrs lt ++ addrs lf ++ addrs ((f, x') :: lb) ++ lr ≡ₚ
          addrs lq ++ addrs lt ++ addrs ((f, x) :: lf) ++ addrs lb ++ lr) as -> by perm.
        apply owns_insert; [done|]. clear. set_solver.
      - cbn [lseg]. split_and!; [done|done|apply lookup_insert_eq|]. by apply lseg_insert. }
    destruct (IH s' lf ((f, x') :: lb) Hr') as (s2 & lf2 & lb2 & Hrun & Hr2 & Hm2).
    { cbn [length] in *. lia. }
    exists s2, lf2, lb2. split_and!; [|done|by rewrite Hm2].
    eapply runs_bind; [apply runs_gets|]. eapply runs_bind; [apply runs_gets|].
    eapply runs_bind; [exact Hmore|]. cbn iota. rewrite Ef.
    eapply runs_bind; [by apply load_node_runs|]. eapply runs_bind; [apply runs_modify|].
    eapply runs_bind; [apply (store_next_runs (set_free_queue (en_next x) s) f (es_free_bg_queue s) x); done|].
    eapply runs_bind; [apply runs_modify|]. exact Hrun.
  - exists s, ((f, x) :: lf), lb. split_and!; [|done|done].
    eapply runs_bind; [apply runs_gets|]. eapply runs_bind; [apply runs_gets|].
    eapply runs_bind; [exact Hmore|]. apply runs_ret.
Qed.

Lemma due_events_runs s fuel now evlast p l :
  tv_nsec now < 1000000000 -> Forall (fun c => time_ok (en_runtime (snd c))) l ->
  lseg (es_heap s) p l 0 -> (length l < fuel)%nat ->
  exists l1 l2, l = l1 ++ l2 /\ runs (due_events fuel now evlast p) s (last_addr evlast l1) s /\
    due now (t_events l) = t_events l1.
Proof.
  intros Hnow. revert evlast p l. induction fuel as [|fuel IH]; intros evlast p l Htm Hseg Hf; [lia|].
  cbn [due_events]. destruct l as [|[q n] l]; cbn [lseg] in Hseg.
  - subst p. exists [], []. split_and!; [done|apply runs_ret|done].
  - destruct Hseg as (-> & Hq & Hh & Hseg). apply Forall_cons in Htm as [[_ Hn] Htm].
    rewrite (proj2 (Z.eqb_neq q 0)) by lia. cbn [snd] in Hn.
    destruct (time_cmp_runs (en_runtime n) now s Hn Hnow) as (c & Hc & _ & Ec).
    cbn [t_events map due fst snd]. rewrite <- Ec. destruct (c <=? 0) eqn:E0.
    + cbn [length] in Hf. destruct (IH q (en_next n) l Htm Hseg ltac:(lia)) as (l1 & l2 & -> & Hrun & Hd).
      exists ((q, n) :: l1), l2. split_and!; [done| |].
      * eapply runs_bind; [by apply load_node_runs|]. eapply runs_bind; [exact Hc|]. rewrite E0.
        replace (last_addr evlast ((q, n) :: l1)) with (last_addr q l1); [exact Hrun|].
        unfold last_addr. destruct l1 as [|c1 l1 _] using rev_ind; [done|]. by rewrite app_comm_cons, !last_snoc.
      * cbn [t_events map snd]. by f_equal.
    + exists [], ((q, n) :: l). split_and!; [done| |done].
      eapply runs_bind; [by apply load_node_runs|]. eapply runs_bind; [exact Hc|]. rewrite E0. apply runs_ret.
Qed.

Lemma lseg_pos h p l : lseg h p l 0 -> Forall (fun c => 0 < fst c) l.
Proof.
  revert p. induction l as [|[a n] l IH]; intros p; cbn [lseg]; [done|]. intros (-> & ? & _ & ?).
  constructor; [done|eauto].
Qed.

(** Timed events keep their flag in the dispatch queue. *)
Lemma q_events_timed l :
  Forall (fun c => time_ok (en_runtime (snd c))) l -> q_events l = map (fun e => (true, snd e)) (t_events l).
Proof.
  unfold q_events, t_events. rewrite map_map. induction 1 as [|[a n] l [Hs _] Hl IH]; [done|].
  cbn [map snd] in *. by rewrite (proj2 (Z.eqb_neq _ 0)) by done; rewrite IH.
Qed.

(** The due events are linked in front of the dispatch queue. *)
Lemma rep_due s lq l1 a n l2 lf lb lr :
  rep s lq ((l1 ++ [(a, n)]) ++ l2) lf lb lr ->
  rep (set_event_queue (es_timer_queue s)
         (set_event_last (match lq with [] => a | _ => es_event_last s end)
           (heap_put a (node_set_next (es_event_queue s) n) (set_timer_queue (en_next n) s))))
    ((l1 ++ [(a, node_set_next (es_event_queue s) n)]) ++ lq) l2 lf lb lr.
Proof.
  intros [Ho Hq Ht Hf Hb Hl Htm].
  apply lseg_app in Ht as (m & H1 & H2). pose proof (lseg_last_lookup _ _ _ _ _ _ H1) as [Ha Hap].
  assert (m = en_next n) as -> by (by apply lseg_app in H1 as (k & _ & (_ & _ & _ & <-))).
  assert (Hni : a ∉ addrs lq /\ a ∉ addrs l1 /\ a ∉ addrs l2 /\ a ∉ addrs lf /\ a ∉ addrs lb).
  { pose proof (owns_fresh _ _ a (addrs lq ++ addrs l1 ++ addrs l2 ++ addrs lf ++ addrs lb ++ lr) Ho ltac:(perm)) as Hx.
    rewrite !not_elem_of_app in Hx. tauto. }
  destruct Hni as (N1 & N2 & N3 & N4 & N5).
  constructor; try done; [| |by apply lseg_insert..| |].
  - assert (addrs ((l1 ++ [(a, node_set_next (es_event_queue s) n)]) ++ lq) ++ addrs l2 ++ addrs lf ++ addrs lb ++ lr ≡ₚ
      addrs lq ++ addrs ((l1 ++ [(a, n)]) ++ l2) ++ addrs lf ++ addrs lb ++ lr) as -> by perm.
    apply owns_insert; [done|]. rewrite !map_app. cbn [map fst]. clear. set_solver.
  - apply lseg_app. exists (es_event_queue s). split; [by eapply lseg_relink|]. by apply lseg_insert.
  - cbn [es_event_last set_event_last set_event_queue]. destruct lq as [|c lq].
    + by rewrite app_nil_r, last_addr_snoc.
    + by rewrite last_addr_app_cons.
  - by apply Forall_app in Htm as [_ ?].
Qed.

(** No event is in the dispatch queue. *)
Definition no_event (s : Spec) : bool := match sp_queue s with [] => true | _ => false end.

Lemma no_event_queue s lq lt lf lb lr :
  rep s lq lt lf lb lr -> (es_event_queue s =? 0) = no_event (abs s lq lt).
Proof.
  intros [_ Hq _ _ _ _ _]. apply lseg_nil in Hq. unfold no_event. cbn [abs sp_queue].
  destruct lq as [|c lq]; cbn [q_events map].
  - rewrite (proj1 Hq) by done. done.
  - destruct (Z.eqb_spec (es_event_queue s) 0) as [E|E]; [|done]. by apply Hq in E.
Qed.

Lemma timer_round_runs s lq lt lf lb lr now :
  rep s lq lt lf lb lr -> tv_nsec now < 1000000000 ->
  exists s' lq' lt', runs (timer_round now) s (negb (no_event (sp_round now (abs s lq lt)))) s' /\
    rep s' lq' lt' lf lb lr /\ abs s' lq' lt' = sp_round now (abs s lq lt).
Proof.
  intros Hr Hnow. set (s1 := set_loop (es_event_cnt s) (es_timer_ms s) (es_waiting s) s).
  assert (Hr1 : rep s1 lq lt lf lb lr) by (destruct Hr; by constructor).
  pose proof Hr1 as [Ho Hq Ht Hlf Hlb Hl Htm].
  destruct (due_events_runs s1 (es_fuel s1) now 0 (es_timer_queue s1) lt Hnow Htm Ht (proj2 (rep_fuel _ _ _ _ _ _ Hr1)))
    as (l1 & l2 & -> & Hrun & Hd).
  assert (Hhead : forall b s2, runs (if negb (es_timer_queue s1 =? 0) then
      let! evlast := due_events (es_fuel s1) now 0 (es_timer_queue s1) in
      if negb (evlast =? 0) then
        let! n := load_node evlast in
        modify (set_timer_queue (en_next n)) ;! store_next evlast (es_event_queue s1) ;!
        (if es_event_queue s1 =? 0 then
           let! last := gets es_event_last in
           cassert (last =? 0) ;! modify (set_event_last evlast)
         else ret tt) ;!
        modify (set_event_queue (es_timer_queue s1)) ;! ret true
      else ret (negb (es_event_queue s1 =? 0))
    else ret (negb (es_event_queue s1 =? 0))) s1 b s2 -> runs (timer_round now) s b s2).
  { intros b s2 H. unfold timer_round. eapply runs_bind; [apply runs_modify|]. fold s1.
    eapply runs_bind; [apply runs_gets|]. eapply runs_bind; [apply runs_gets|].
    destruct (negb (es_timer_queue s1 =? 0)); [|exact H]. eapply runs_bind; [apply runs_gets|]. exact H. }
  assert (Hround : sp_round now (abs s lq (l1 ++ l2)) =
    mkSpec (map (fun e => (true, snd e)) (t_events l1) ++ q_events lq) (t_events l2) (es_cancel s)
      (es_event_cnt s) (es_timer_ms s) (es_timer_ms s) (es_waiting s)).
  { unfold sp_round. cbn [abs sp_timers sp_queue sp_cancel sp_cnt sp_ms sp_waiting]. rewrite Hd. f_equal.
    unfold t_events. rewrite map_app. by rewrite drop_app_length. }
  rewrite Hround. destruct l1 as [|[a n] l1 _] using rev_ind.
  - exists s1, lq, l2. split_and!; [|done|done]. apply Hhead. cbn [app] in *.
    replace (no_event _) with (es_event_queue s1 =? 0) by (by rewrite (no_event_queue _ _ _ _ _ _ Hr1)).
    destruct (negb (es_timer_queue s1 =? 0)); [|apply runs_ret]. eapply runs_bind; [exact Hrun|]. apply runs_ret.
  - clear Hround. set (n' := node_set_next (es_event_queue s1) n).
    pose proof (rep_due _ _ _ _ _ _ _ _ _ Hr1) as Hr2. fold n' in Hr2.
    eexists _, _, _. split; [|split; [exact Hr2|]].
    + apply Hhead. rewrite last_addr_snoc in Hrun.
      pose proof Ht as Hseg. apply lseg_app in Hseg as (m & Hseg & _).
      destruct (lseg_last_lookup _ _ _ _ _ _ Hseg) as [Ha Hap].
      assert (Htq : es_timer_queue s1 <> 0).
      { intros E. apply (lseg_nil _ _ _ Ht) in E. by destruct l1. }
      rewrite (proj2 (Z.eqb_neq _ 0)) by done. cbn [negb].
      eapply runs_bind; [exact Hrun|]. rewrite (proj2 (Z.eqb_neq a 0)) by lia. cbn [negb].
      eapply runs_bind; [by apply load_node_runs|]. eapply runs_bind; [apply runs_modify|].
      eapply runs_bind; [by apply store_next_runs|]. fold n'.
      replace (negb (no_event _)) with true by (unfold no_event, t_events; cbn [sp_queue]; rewrite !map_app; by destruct l1).
      destruct lq as [|c lq].
      * cbn [lseg] in Hq. rewrite Hq. cbn [Z.eqb]. eapply runs_bind; [|eapply runs_bind; [apply runs_modify|apply runs_ret]].
        eapply runs_bind; [apply runs_gets|]. cbn [es_event_last heap_put set_heap set_timer_queue].
        rewrite Hl. eapply runs_bind; [by apply runs_cassert|]. apply runs_modify.
      * assert (Hqn : es_event_queue s1 <> 0) by (intros E; by apply (lseg_nil _ _ _ Hq) in E).
        rewrite (proj2 (Z.eqb_neq _ 0)) by done. eapply runs_bind; [apply runs_ret|].
        eapply runs_bind; [apply runs_modify|]. apply runs_ret.
    + unfold abs at 1. f_equal.
      rewrite !Forall_app, Forall_singleton in Htm. destruct Htm as [[H1 H2] _].
      rewrite <- q_events_timed by (by rewrite Forall_app, Forall_singleton).
      unfold q_events. by rewrite !map_app.
Qed.

(** The cell of the event the loop takes, or that it waits. *)
Definition taken (r : option Z) (s : EventState) : option qevent :=
  match r with
  | None => None
  | Some ev =>
      n ← es_heap s !! ev; Some (negb (tv_sec (en_runtime n) =? 0), (en_handler n, en_arg n))
  end.

Lemma rep_loop c t w s lq lt lf lb lr : rep s lq lt lf lb lr -> rep (set_loop c t w s) lq lt lf lb lr.
Proof. by intros [? ? ? ? ? ? ?]. Qed.

(** Taking the event at the front of the queue. *)
Definition take_event (go : bool) : E (option Z) :=
  modify (fun s => set_loop (es_event_cnt s) (es_last_tick s) (negb go) s) ;!
  if negb go then ret None
  else
    let! ev := gets es_event_queue in
    let! n := load_node ev in
    modify (set_event_queue (en_next n)) ;!
    (if en_next n =? 0 then
       let! last := gets es_event_last in
       cassert (last =? ev) ;! modify (set_event_last 0)
     else ret tt) ;!
    (if tv_sec (en_runtime n) =? 0 then
       modify (fun s => set_loop (es_event_cnt s + 1) (es_last_tick s) (es_waiting s) s)
     else ret tt) ;!
    ret (Some ev).

Lemma take_event_runs s lq lt lf lb lr :
  rep s lq lt lf lb lr ->
  exists r s' lq', runs (take_event (negb (no_event (abs s lq lt)))) s r s' /\
    rep s' lq' lt lf lb (match r with Some ev => ev :: lr | None => lr end) /\
    sp_take (abs s lq lt) = (taken r s', abs s' lq' lt) /\ (r = None -> es_waiting s' = true).
Proof.
  intros Hr. destruct lq as [|[ev n] lq].
  - cbn. exists None, (set_loop (es_event_cnt s) (es_last_tick s) true s), []. split_and!; [|by apply rep_loop|done|done].
    eapply runs_bind; [apply runs_modify|]. apply runs_ret.
  - set (s1 := set_loop (es_event_cnt s) (es_last_tick s) false s).
    pose proof Hr as [Ho Hq Ht Hf Hb Hl Htm]. cbn [lseg] in Hq. destruct Hq as (Eq & Hev & Hh & Hq).
    set (s2 := set_event_queue (en_next n) s1).
    set (s3 := if en_next n =? 0 then set_event_last 0 s2 else s2).
    set (s4 := if tv_sec (en_runtime n) =? 0 then
                 set_loop (es_event_cnt s3 + 1) (es_last_tick s3) (es_waiting s3) s3 else s3).
    assert (Hl2 : lq = [] <-> en_next n = 0) by (by apply (lseg_nil _ _ _ Hq)).
    assert (H4 : es_heap s4 = es_heap s).
    { subst s4 s3. by destruct (tv_sec (en_runtime n) =? 0), (en_next n =? 0). }
    exists (Some ev), s4, lq. split_and!; [| |..].
    + eapply runs_bind; [apply runs_modify|]. cbn [negb no_event abs sp_queue q_events map].
      fold s1. eapply runs_bind; [apply runs_gets|]. cbn [es_event_queue s1 set_loop]. rewrite Eq.
      eapply runs_bind; [by apply load_node_runs|]. eapply runs_bind; [apply runs_modify|]. fold s2.
      eapply (runs_bind _ _ _ tt s3).
      { subst s3. destruct (Z.eqb_spec (en_next n) 0) as [E|E]; [|apply runs_ret].
        apply Hl2 in E. subst lq. eapply runs_bind; [apply runs_gets|].
        cbn [es_event_last s2 s1 set_event_queue set_loop]. rewrite Hl.
        eapply runs_bind; [apply runs_cassert; apply Z.eqb_refl|]. apply runs_modify. }
      eapply (runs_bind _ _ _ tt s4); [|apply runs_ret].
      subst s4. destruct (tv_sec (en_runtime n) =? 0); [done|apply runs_ret].
    + assert (rep s3 lq lt lf lb (ev :: lr)) as Hr3.
      { assert (owns (es_heap s) (addrs lq ++ addrs lt ++ addrs lf ++ addrs lb ++ ev :: lr)) as Ho3.
        { assert (addrs lq ++ addrs lt ++ addrs lf ++ addrs lb ++ ev :: lr ≡ₚ
            addrs ((ev, n) :: lq) ++ addrs lt ++ addrs lf ++ addrs lb ++ lr) as -> by perm. done. }
        subst s3. destruct (Z.eqb_spec (en_next n) 0) as [E|E].
        - apply Hl2 in E. subst lq. by constructor.
        - constructor; try done. cbn [es_event_last s2 s1 set_event_queue set_loop]. rewrite Hl.
          destruct lq as [|c lq]; [by destruct E; apply Hl2|]. reflexivity. }
      subst s4. destruct (tv_sec (en_runtime n) =? 0); [by apply rep_loop|done].
    + unfold taken. rewrite H4, Hh. cbn [mbind option_bind]. unfold sp_take.
      cbn [abs sp_queue q_events map sp_timers sp_cancel sp_cnt sp_tick sp_ms fst snd].
      subst s4 s3. unfold abs. by destruct (tv_sec (en_runtime n) =? 0), (en_next n =? 0).
    + done.
Qed.

(** [next_event] looks at the timers and takes an event. *)
Lemma next_event_runs s lq lt lf lb lr now :
  rep s lq lt lf lb lr -> tv_nsec now < 1000000000 ->
  exists r s' lq' lt' lf' lb', runs (next_event now) s r s' /\
    rep s' lq' lt' lf' lb' (match r with Some ev => ev :: lr | None => lr end) /\
    sp_next now (abs s lq lt) = (taken r s', abs s' lq' lt').
Proof.
  intros Hr Hnow.
  assert (Hgo : exists s1 lq1 lt1 lf1 lb1,
    runs (if es_waiting s then timer_round now
     else if (es_event_queue s =? 0) || (100 <=? es_event_cnt s) ||
             ((1 <=? es_event_cnt s) && (100 <=? uwrap 32 (es_timer_ms s - es_last_tick s))) then
       modify (set_loop 0 (es_last_tick s) false) ;! refill_bg 3 ;! timer_round now
     else ret true) s (negb (no_event (abs s1 lq1 lt1))) s1 /\
    rep s1 lq1 lt1 lf1 lb1 lr /\
    abs s1 lq1 lt1 = if es_waiting s then sp_round now (abs s lq lt)
      else if sp_check (abs s lq lt) then
        sp_round now (mkSpec (q_events lq) (t_events lt) (es_cancel s) 0 (es_last_tick s) (es_timer_ms s) false)
      else abs s lq lt).
  { destruct (es_waiting s) eqn:Ew.
    - destruct (timer_round_runs _ _ _ _ _ _ now Hr Hnow) as (s1 & lq1 & lt1 & H1 & Hr1 & Ha1).
      exists s1, lq1, lt1, lf, lb. by rewrite Ha1.
    - assert (Hck : (es_event_queue s =? 0) || (100 <=? es_event_cnt s) ||
             ((1 <=? es_event_cnt s) && (100 <=? uwrap 32 (es_timer_ms s - es_last_tick s))) = sp_check (abs s lq lt)).
      { rewrite (no_event_queue _ _ _ _ _ _ Hr). unfold sp_check, no_event. cbn [abs sp_cnt sp_ms sp_tick sp_queue].
        f_equal. f_equal. by destruct (q_events lq). }
      rewrite Hck. destruct (sp_check (abs s lq lt)) eqn:Es.
      + destruct (refill_bg_runs 3 _ _ _ _ _ _ (rep_loop 0 (es_last_tick s) false _ _ _ _ _ _ Hr) ltac:(lia))
          as (s0 & lf0 & lb0 & H0 & Hr0 & Hm0).
        destruct (timer_round_runs _ _ _ _ _ _ now Hr0 Hnow) as (s1 & lq1 & lt1 & H1 & Hr1 & Ha1).
        rewrite (abs_misc _ s0 lq lt Hm0) in Ha1, H1. cbn [set_loop es_cancel es_event_cnt es_last_tick es_timer_ms es_waiting] in *.
        exists s1, lq1, lt1, lf0, lb0. rewrite Ha1. split_and!; [|done|done].
        eapply runs_bind; [apply runs_modify|]. eapply runs_bind; [exact H0|]. exact H1.
      + exists s, lq, lt, lf, lb. split_and!; [|done|done].
        replace (no_event _) with false; [apply runs_ret|]. unfold sp_check, no_event in *. cbn [abs sp_queue] in *.
        by destruct (q_events lq). }
  destruct Hgo as (s1 & lq1 & lt1 & lf1 & lb1 & Hrun & Hr1 & Ha1).
  destruct (take_event_runs _ _ _ _ _ _ Hr1) as (r & s2 & lq2 & H2 & Hr2 & Ha2 & _).
  exists r, s2, lq2, lt1, lf1, lb1. split_and!; [|done|].
  - unfold next_event. eapply runs_bind; [apply runs_gets|]. eapply runs_bind; [exact Hrun|]. exact H2.
  - unfold sp_next. rewrite <- Ha2, Ha1. cbn [abs sp_waiting sp_queue sp_timers sp_cancel sp_cnt sp_tick sp_ms].
    done.
Qed.

(** ** Runs *)

Definition time_valid (now : timespec) : bool := (0 <? tv_sec now) && (0 <=? tv_nsec now) && (tv_nsec now <? 1000000000).

(** The operations a caller may perform: the dispatch thread runs one handler at a time, and does
    nothing while it waits in [cancel_event] or for an event.  [b]: a handler runs. *)
Definition enabled (o : loop_op) (b : bool) (s : Spec) : bool :=
  match o with
  | Post _ _ => negb (sp_waiting s) && (fst (sp_cancel s) =? 0)
  | PostDelay _ _ d now => negb (sp_waiting s) && (fst (sp_cancel s) =? 0) && (0 <=? d) && time_valid now
  | PostBg _ _ d now => (0 <=? d) && time_valid now
  | Cancel h _ _ => negb (sp_waiting s) && (fst (sp_cancel s) =? 0) && negb (h =? 0)
  | Next now => negb b && (fst (sp_cancel s) =? 0) && time_valid now
  | Return => b && (fst (sp_cancel s) =? 0)
  | Tick => true
  end.

Definition sp_step (o : loop_op) (b : bool) (s : Spec) : loop_out * bool * Spec :=
  match o with
  | Post h a => (NoOut, b, sp_post h a s)
  | PostDelay h a d now => (NoOut, b, sp_post_delay h a d now s)
  | PostBg h a d now => (NoOut, b, sp_post_bg h a d now s)
  | Cancel h a w => let '(r, s') := sp_cancel_event h a w s in (Cancelled r, b, s')
  | Next now =>
      match sp_next now s with
      | (Some (_, (h, a)), s') => (Called h a, true, s')
      | (None, s') => (Waits, false, s')
      end
  | Return => (NoOut, false, s)
  | Tick => (NoOut, b, mkSpec (sp_queue s) (sp_timers s) (sp_cancel s) (sp_cnt s) (sp_tick s) (uwrap 32 (sp_ms s + 1))
                         (sp_waiting s))
  end.

(** The run of the specification; [None] if an operation is not enabled. *)
Fixpoint sp_run (l : list loop_op) (b : bool) (s : Spec) : option (list loop_out * bool * Spec) :=
  match l with
  | [] => Some ([], b, s)
  | o :: l' =>
      if enabled o b s then
        let '(x, b', s') := sp_step o b s in
        '(xs, b'', s'') ← sp_run l' b' s'; Some (x :: xs, b'', s'')
      else None
  end.

Definition sp_init : Spec := mkSpec [] [] (0, 0) 0 0 0 false.

(** The state of events.c and the cell of the running event, and the state of the specification. *)
Definition sim (s : EventState) (ev : Z) (b : bool) (sp : Spec) : Prop :=
  exists lq lt lf lb, rep s lq lt lf lb (if b then [ev] else []) /\ abs s lq lt = sp /\ (b = false -> ev = 0).

Lemma time_valid_spec now :
  time_valid now = true -> 0 < tv_sec now /\ 0 <= tv_nsec now < 1000000000.
Proof. unfold time_valid. intros H. bool_to_prop. lia. Qed.

Lemma insert_runs alloc s lq lt lr h a delay now :
  (exists ev s' lf' lb', runs alloc s ev s' /\ rep s' lq lt lf' lb' (ev :: lr) /\ misc s' = misc s) ->
  0 <= delay -> time_valid now = true ->
  exists s' lt' lf' lb', runs (let! ev := alloc in timer_insert ev (time_add_usec now delay) h a) s tt s' /\
    rep s' lq lt' lf' lb' lr /\ abs s' lq lt' = sp_post_delay h a delay now (abs s lq lt).
Proof.
  intros (ev & s1 & lf1 & lb1 & H1 & Hr1 & Hm1) Hd Hn. apply time_valid_spec in Hn as [Hn1 Hn2].
  destruct (timer_insert_runs _ _ _ _ _ _ _ _ h a Hr1 (time_add_ok now delay Hn1 Hn2 Hd))
    as (s2 & lt2 & H2 & Hr2 & Ht2 & Hm2).
  exists s2, lt2, lf1, lb1. split_and!; [by eapply runs_bind|done|].
  rewrite (abs_misc s s2) by congruence. by rewrite Ht2.
Qed.

Lemma loop_step_sim o s ev b sp :
  sim s ev b sp -> enabled o b sp = true ->
  exists ev' s', runs (loop_step o ev) s (fst (fst (sp_step o b sp)), ev') s' /\
    sim s' ev' (snd (fst (sp_step o b sp))) (snd (sp_step o b sp)).
Proof.
  intros (lq & lt & lf & lb & Hr & <- & Hev) Hen. unfold sim.
  destruct o as [h a|h a d now|h a d now|h a w|now| |]; cbn [enabled] in Hen.
  - destruct (post_event_runs _ _ _ _ _ _ h a Hr) as (s' & lq' & lf' & Hrun & Hr' & Hq & Hm).
    exists ev, s'. split; [eapply runs_bind; [exact Hrun|apply runs_ret]|]. exists lq', lt, lf', lb.
    split_and!; [done| |done]. by rewrite (abs_misc s s'), Hq.
  - bool_to_prop. destruct (alloc_runs _ _ _ _ _ _ Hr) as (p & s1 & lf1 & Hal).
    destruct (insert_runs alloc_event_node _ _ _ _ h a d now (ltac:(eauto)) ltac:(lia) ltac:(done))
      as (s' & lt' & lf' & lb' & Hrun & Hr' & Ha).
    exists ev, s'. split; [eapply runs_bind; [exact Hrun|apply runs_ret]|]. exists lq, lt', lf', lb'. done.
  - bool_to_prop. unfold sp_step, sp_post_bg. case_bool_decide as Ec; cbn [abs sp_cancel] in Ec.
    + exists ev, (set_cancel (0, a) s). split.
      * eapply runs_bind; [|apply runs_ret]. eapply runs_bind; [apply runs_gets|].
        rewrite Ec. cbn [fst snd]. rewrite !Z.eqb_refl. cbn [andb]. apply runs_modify.
      * exists lq, lt, lf, lb. destruct Hr; split_and!; by try constructor.
    + destruct (alloc_bg_runs _ _ _ _ _ _ Hr) as (p & s1 & lb1 & Hal).
      destruct (insert_runs alloc_event_node_bg _ _ _ _ h a d now (ltac:(eauto)) ltac:(lia) ltac:(done))
        as (s' & lt' & lf' & lb' & Hrun & Hr' & Ha).
      exists ev, s'. split; [|by exists lq, lt', lf', lb'].
      eapply runs_bind; [|apply runs_ret]. eapply runs_bind; [apply runs_gets|].
      destruct ((fst (es_cancel s) =? h) && (snd (es_cancel s) =? a)) eqn:E; [|exact Hrun].
      exfalso. apply Ec. apply andb_true_iff in E as [E1 E2]. apply Z.eqb_eq in E1, E2.
      destruct (es_cancel s); cbn in *; congruence.
  - bool_to_prop. cbn [abs sp_cancel] in *.
    destruct (cancel_event_runs _ _ _ _ _ _ h a w Hr ltac:(done) ltac:(done)) as (r & s' & lq' & lt' & lf' & Hrun & Hr' & Hs).
    cbn [sp_step]. rewrite Hs. exists ev, s'. split; [eapply runs_bind; [exact Hrun|apply runs_ret]|].
    by exists lq', lt', lf', lb.
  - bool_to_prop. apply time_valid_spec in H0. subst b.
    destruct (next_event_runs _ _ _ _ _ _ now Hr ltac:(lia)) as (r & s' & lq' & lt' & lf' & lb' & Hrun & Hr' & Hs).
    cbn [sp_step]. rewrite Hs. destruct r as [ev'|]; cbn [taken].
    + destruct (loose_lookup _ _ _ _ _ _ ev' Hr' ltac:(clear; set_solver)) as [[n Hn] _].
      rewrite Hn. cbn. exists ev', s'. split; [|by exists lq', lt', lf', lb'].
      eapply runs_bind; [exact Hrun|]. eapply runs_bind; [by apply load_node_runs|]. apply runs_ret.
    + cbn. exists 0, s'. split; [|by exists lq', lt', lf', lb'].
      eapply runs_bind; [exact Hrun|]. apply runs_ret.
  - bool_to_prop. subst b. destruct (free_runs _ _ _ _ _ _ _ Hr) as (s' & lf' & Hrun & Hr' & Hm).
    exists 0, s'. split; [eapply runs_bind; [exact Hrun|apply runs_ret]|]. exists lq, lt, lf', lb.
    split_and!; [done| |done]. by apply abs_misc.
  - eexists ev, _. split; [eapply runs_bind; [apply runs_modify|apply runs_ret]|]. exists lq, lt, lf, lb.
    destruct Hr; split_and!; by try constructor.
Qed.

Lemma loop_run_sim l s ev b sp xs b' sp' :
  sim s ev b sp -> sp_run l b sp = Some (xs, b', sp') ->
  exists ev' s', runs (loop_run l ev) s (xs, ev') s' /\ sim s' ev' b' sp'.
Proof.
  revert s ev b sp xs. induction l as [|o l IH]; intros s ev b sp xs Hs Hrun; cbn [sp_run] in Hrun.
  - injection Hrun as <- <- <-. exists ev, s. split; [apply runs_ret|done].
  - destruct (enabled o b sp) eqn:Een; [|done].
    destruct (loop_step_sim _ _ _ _ _ Hs Een) as (ev1 & s1 & H1 & Hs1).
    destruct (sp_step o b sp) as [[x b1] sp1]. cbn [fst snd] in *.
    destruct (sp_run l b1 sp1) as [[[xs1 b2] sp2]|] eqn:E; [|done]. cbn in Hrun. injection Hrun as <- <- <-.
    destruct (IH _ _ _ _ _ Hs1 E) as (ev2 & s2 & H2 & Hs2). exists ev2, s2. split; [|done].
    eapply runs_bind; [exact H1|]. eapply runs_bind; [exact H2|]. apply runs_ret.
Qed.

(** ** The initial state *)

Definition buf_cell (i : nat) : cell := (Z.of_nat i, mkNode (Z.of_nat i - 1) (mkTime 0 0) 0 0).

Lemma buf_lseg h n :
  (forall i, (1 <= i <= n)%nat -> h !! Z.of_nat i = Some (snd (buf_cell i))) ->
  lseg h (Z.of_nat n) (map buf_cell (rev (seq 1 n))) 0.
Proof.
  induction n as [|n IH]; intros Hh; [done|]. rewrite seq_S, rev_app_distr. cbn [rev app map lseg buf_cell fst Nat.add].
  split_and!; [done|lia|apply Hh; lia|]. cbn [en_next].
  replace (Z.of_nat (S n) - 1) with (Z.of_nat n) by lia. apply IH. intros i Hi. apply Hh. lia.
Qed.

Lemma buf_owns n :
  owns (list_to_map (map buf_cell (seq 1 n))) (addrs (map buf_cell (rev (seq 1 n)))).
Proof.
  rewrite map_rev, map_rev.
  assert (Ha : addrs (map buf_cell (seq 1 n)) = map Z.of_nat (seq 1 n)) by (by rewrite map_map).
  assert (Hnd : NoDup (addrs (map buf_cell (seq 1 n)))).
  { rewrite Ha. apply NoDup_fmap_2; [intros ? ?; lia|]. apply NoDup_ListNoDup, seq_NoDup. }
  split_and!.
  - by rewrite <- Permutation_rev.
  - intros p. rewrite <- Permutation_rev. split.
    + intros [n' Hn]. apply elem_of_list_to_map_2 in Hn. apply list_elem_of_fmap. by exists (p, n').
    + intros Hin. apply list_elem_of_fmap in Hin as ((q & m) & -> & Hin). exists m.
      by apply elem_of_list_to_map_1.
  - rewrite <- Permutation_rev, Ha. apply Forall_forall. intros p Hp. apply list_elem_of_fmap in Hp as (i & -> & Hi).
    apply elem_of_seq in Hi. lia.
Qed.

Lemma fresh_sim h n :
  owns h (addrs (map buf_cell (rev (seq 1 n)))) -> lseg h (Z.of_nat n) (map buf_cell (rev (seq 1 n))) 0 ->
  sim (mkES h (Z.of_nat n) 0 0 0 0 (0, 0) 0 0 0 false) 0 false sp_init.
Proof.
  intros Ho Hl. exists [], [], (map buf_cell (rev (seq 1 n))), [].
  split; [|done]. constructor; try done. cbn [app map]. by rewrite app_nil_r.
Qed.

Lemma buf_lookup n i : (1 <= i <= n)%nat ->
  (list_to_map (map buf_cell (seq 1 n)) : gmap Z event_node) !! Z.of_nat i = Some (snd (buf_cell i)).
Proof.
  intros Hi. apply elem_of_list_to_map_1.
  - rewrite map_map. apply NoDup_fmap_2; [intros ? ?; cbn; lia|]. apply NoDup_ListNoDup, seq_NoDup.
  - change (Z.of_nat i, snd (buf_cell i)) with (buf_cell i). apply list_elem_of_fmap. exists i. split; [done|].
    apply elem_of_seq. lia.
Qed.

Lemma buf_sim n :
  sim (mkES (list_to_map (map buf_cell (seq 1 n))) (Z.of_nat n) 0 0 0 0 (0, 0) 0 0 0 false) 0 false sp_init.
Proof. apply fresh_sim; [apply buf_owns|apply buf_lseg, buf_lookup]. Qed.

Lemma init_sim : sim ini_events_queue 0 false sp_init.
Proof. exact (buf_sim (Z.to_nat EVENT_BUF_SIZE)). Qed.

(** ** Invariants of the specification *)

Definition time_le (a b : timespec) : Prop := time_leb a b = true.

Lemma time_le_total a b : time_leb a b = false -> time_le b a.
Proof. unfold time_le, time_leb. intros H. destruct (Z.eqb_spec (tv_sec a) (tv_sec b)), (Z.eqb_spec (tv_sec b) (tv_sec a)); bool_to_prop; lia. Qed.

Lemma time_le_trans a b c : time_le a b -> time_le b c -> time_le a c.
Proof.
  unfold time_le, time_leb. rewrite !orb_true_iff, !andb_true_iff, !Z.ltb_lt, !Z.eqb_eq, !Z.leb_le. lia.
Qed.

(** Timed events are in the order of their times; the count of events between two looks at the
    timers is bounded. *)
Record sp_inv (s : Spec) : Prop := {
  si_sorted : StronglySorted time_le (map fst (sp_timers s));
  si_cnt : 0 <= sp_cnt s <= 100;
  si_wait : sp_waiting s = true -> sp_cnt s = 0 }.

Lemma timers_insert_sorted e l :
  StronglySorted time_le (map fst l) -> StronglySorted time_le (map fst (timers_insert e l)).
Proof.
  induction l as [|x l IH]; cbn [timers_insert map]; intros Hs.
  - by repeat constructor.
  - apply StronglySorted_inv in Hs as [Hs Hx]. destruct (time_leb (fst x) (fst e)) eqn:E; cbn [map].
    + constructor; [by apply IH|]. clear IH Hs. induction l as [|y l IH]; cbn [timers_insert map] in *.
      * by repeat constructor.
      * apply Forall_cons in Hx as [Hy Hx]. destruct (time_leb (fst y) (fst e)); cbn [map]; repeat constructor; auto.
    + apply time_le_total in E. constructor; [by constructor|]. constructor; [done|].
      eapply Forall_impl; [exact Hx|]. intros y Hy. by eapply time_le_trans.
Qed.

Lemma remove_first_sorted c (l l' : list tevent) :
  remove_first c l = Some l' -> StronglySorted time_le (map fst l) -> StronglySorted time_le (map fst l').
Proof.
  revert l'. induction l as [|x l IH]; cbn [remove_first map]; intros l' H Hs; [done|].
  apply StronglySorted_inv in Hs as [Hs Hx]. case_bool_decide; [by injection H as <-|].
  destruct (remove_first c l) as [k|] eqn:E; [|done]. cbn in H. injection H as <-. cbn [map].
  constructor; [by apply IH|]. clear IH Hs. revert k E. induction l as [|y l IH]; intros k E; cbn [remove_first] in E; [done|].
  apply Forall_cons in Hx as [Hy Hx]. case_bool_decide; [by injection E as <-|].
  destruct (remove_first c l) as [k'|]; [|done]. cbn in E. injection E as <-. cbn. constructor; auto.
Qed.

Lemma drop_sorted n (l : list tevent) :
  StronglySorted time_le (map fst l) -> StronglySorted time_le (map fst (drop n l)).
Proof.
  revert l. induction n as [|n IH]; intros [|x l]; cbn; try done. intros Hs. apply StronglySorted_inv in Hs as [Hs _].
  by apply IH.
Qed.

Lemma sp_take_inv s : sp_inv s -> (sp_cnt s < 100 \/ sp_queue s = []) -> (sp_queue s = [] -> sp_cnt s = 0) ->
  sp_inv (snd (sp_take s)).
Proof.
  intros [Hs Hc Hw] Hlt H0. unfold sp_take. destruct (sp_queue s) as [|[t c] q]; cbn [snd fst].
  - constructor; cbn; auto.
  - destruct Hlt as [Hlt|]; [|done]. constructor; cbn; [done| |done]. destruct t; lia.
Qed.

Lemma sp_round_inv now s : sp_inv s -> sp_inv (sp_round now s).
Proof. intros [Hs Hc Hw]. constructor; cbn; [by apply drop_sorted|done|done]. Qed.

Lemma sp_next_inv now s : sp_inv s -> sp_inv (snd (sp_next now s)).
Proof.
  intros Hi. unfold sp_next. destruct (sp_waiting s) eqn:Ew.
  - pose proof (si_wait _ Hi Ew) as E0. apply sp_take_inv; [by apply sp_round_inv|cbn; lia|cbn; lia].
  - destruct (sp_check s) eqn:Ec.
    + apply sp_take_inv; [|cbn; lia|cbn; lia]. apply sp_round_inv. destruct Hi. constructor; cbn; [done|lia|done].
    + unfold sp_check in Ec. apply orb_false_iff in Ec as [Ec _]. apply orb_false_iff in Ec as [E1 E2].
      apply bool_decide_eq_false_1 in E1. apply sp_take_inv; [done|left; lia|done].
Qed.

Lemma sp_step_inv o b s : enabled o b s = true -> sp_inv s -> sp_inv (snd (sp_step o b s)).
Proof.
  intros Hen Hi. destruct o; cbn [sp_step].
  - by destruct Hi.
  - destruct Hi. constructor; [by apply timers_insert_sorted|done..].
  - unfold sp_post_bg. case_bool_decide; [by destruct Hi|]. destruct Hi. constructor; [by apply timers_insert_sorted|done..].
  - unfold sp_cancel_event. destruct (remove_first _ (sp_queue s)); [by destruct Hi|].
    destruct (remove_first _ (sp_timers s)) eqn:E; [|by destruct wait, Hi].
    destruct Hi. constructor; [by eapply remove_first_sorted|done..].
  - pose proof (sp_next_inv now s Hi) as Hn. by destruct (sp_next now s) as [[[t [h a]]|] s'].
  - done.
  - by destruct Hi.
Qed.

Lemma sp_run_inv l b s xs b' s' : sp_run l b s = Some (xs, b', s') -> sp_inv s -> sp_inv s'.
Proof.
  revert b s xs. induction l as [|o l IH]; intros b s xs H Hi; cbn [sp_run] in H.
  - by injection H as <- <- <-.
  - destruct (enabled o b s) eqn:E; [|done]. pose proof (sp_step_inv _ _ _ E Hi) as Hi'.
    destruct (sp_step o b s) as [[x b1] s1]. destruct (sp_run l b1 s1) as [[[xs1 b2] s2]|] eqn:E2; [|done].
    cbn in H. injection H as <- <- <-. by eapply IH.
Qed.

Lemma sp_init_inv : sp_inv sp_init.
Proof. constructor; cbn; [constructor|lia|done]. Qed.

Lemma sp_run_app l1 l2 b s :
  sp_run (l1 ++ l2) b s =
    '(xs, b1, s1) ← sp_run l1 b s; '(ys, b2, s2) ← sp_run l2 b1 s1; Some (xs ++ ys, b2, s2).
Proof.
  revert b s. induction l1 as [|o l1 IH]; intros b s; cbn [app sp_run].
  - cbn. by destruct (sp_run l2 b s) as [[[ys b2] s2]|].
  - destruct (enabled o b s); [|done]. destruct (sp_step o b s) as [[x b1] s1]. rewrite IH.
    destruct (sp_run l1 b1 s1) as [[[xs b2] s2]|]; [|done]. cbn.
    by destruct (sp_run l2 b2 s2) as [[[ys b3] s3]|].
Qed.

(** ** Timed events are dispatched *)

Definition timed_count (s : Spec) : nat := length (filter (fun e => Is_true (fst e)) (sp_queue s)).

Lemma due_app now t1 e t2 :
  Forall (fun e => time_le (fst e) now) (t1 ++ [e]) -> due now (t1 ++ e :: t2) = t1 ++ e :: due now t2.
Proof.
  intros H. apply Forall_app in H as [H1 H2]. apply Forall_cons in H2 as [H2 _].
  induction H1 as [|x t1 Hx H1 IH]; cbn [app due].
  - by rewrite H2.
  - rewrite Hx. by rewrite IH.
Qed.

Lemma timers_insert_after e t1 x t2 :
  Forall (fun y => time_le (fst y) (fst e)) (t1 ++ [x]) -> exists t2', timers_insert e (t1 ++ x :: t2) = t1 ++ x :: t2'.
Proof.
  intros H. apply Forall_app in H as [H1 H2]. apply Forall_cons in H2 as [H2 _].
  induction H1 as [|y t1 Hy H1 [t2' IH]]; cbn [app timers_insert].
  - rewrite H2. by eexists.
  - rewrite Hy, IH. by exists t2'.
Qed.

Lemma remove_first_other {A} c (l1 : list (A * (Z * Z))) x l2 l' : snd x <> c -> remove_first c (l1 ++ x :: l2) = Some l' ->
  exists l1' l2', l' = l1' ++ x :: l2' /\ (length l1' <= length l1)%nat /\ forall P : A * (Z * Z) -> Prop, Forall P l1 -> Forall P l1'.
Proof.
  intros Hx. revert l'. induction l1 as [|y l1 IH]; intros l'; cbn [app remove_first].
  - rewrite bool_decide_eq_false_2 by done. destruct (remove_first c l2) as [k|]; [|done]. cbn. intros [= <-]. by exists [], k.
  - case_bool_decide; [intros [= <-]; exists l1, l2; split; [done|]; split; [cbn; lia|]; intros P HP; by inversion HP|].
    destruct (remove_first c (l1 ++ x :: l2)) as [k|]; [|done]. cbn. intros [= <-]. destruct (IH k eq_refl) as (l1' & l2' & -> & Hl & HP).
    exists (y :: l1'), l2'. split; [done|]. split; [cbn; lia|]. intros P HPy. inversion HPy; subst. constructor; auto.
Qed.

Lemma remove_first_count c (l l' : list qevent) : remove_first c l = Some l' ->
  (length (filter (fun e => Is_true (fst e)) l') <= length (filter (fun e => Is_true (fst e)) l))%nat.
Proof.
  revert l'. induction l as [|x l IH]; intros l'; cbn [remove_first]; [done|]. rewrite (filter_cons _ x l). case_bool_decide.
  - intros [= <-]. case_decide; cbn [length]; lia.
  - destruct (remove_first c l) as [k|]; [|done]. cbn. intros [= <-]. rewrite filter_cons. specialize (IH k eq_refl). case_decide; cbn [length]; lia.
Qed.

Lemma timed_count_post h a (q : list qevent) :
  length (filter (fun e => Is_true (fst e)) (q ++ [(false, (h, a))])) = length (filter (fun e => Is_true (fst e)) q).
Proof. by rewrite filter_app, app_nil_r. Qed.

Section Due.
Variable rt : timespec.
Variables h a : Z.

(** The clock is not before [rt], and the event is not cancelled. *)
Definition on_time (o : loop_op) : bool :=
  match o with
  | PostDelay _ _ _ now | PostBg _ _ _ now | Next now => time_leb rt now
  | Cancel h' a' _ => negb ((h' =? h) && (a' =? a))
  | _ => true
  end.

Definition is_next (o : loop_op) : bool := match o with Next _ => true | _ => false end.
Definition nexts (l : list loop_op) : nat := length (List.filter is_next l).

(** The event is called in [n] iterations: it is a timed event, behind [t1] and the events which the loop takes before it looks at
    the timers; or it is in the queue, behind timed events only. *)
Definition pending (n : nat) (s : Spec) : Prop :=
  (exists t1 t2, sp_timers s = t1 ++ (rt, (h, a)) :: t2 /\ Z.of_nat (timed_count s + length t1) + 101 - sp_cnt s <= Z.of_nat n) \/
  (exists d q, sp_queue s = d ++ (true, (h, a)) :: q /\ Forall (fun e => fst e = true) d /\ sp_cnt s = 0 /\ sp_waiting s = false /\ (length d < n)%nat).

Lemma sorted_before t1 t2 : StronglySorted time_le (map fst (t1 ++ (rt, (h, a)) :: t2)) ->
  forall now, time_le rt now -> Forall (fun e : tevent => time_le (fst e) now) (t1 ++ [(rt, (h, a))]).
Proof.
  intros Hs now Hn. induction t1 as [|x t1 IH]; cbn [app map fst] in *; [by repeat constructor|].
  apply StronglySorted_inv in Hs as [Hs Hx]. constructor; [|by apply IH].
  rewrite map_app in Hx. apply Forall_app in Hx as [_ Hx]. apply Forall_cons in Hx as [Hx _]. by eapply time_le_trans.
Qed.

Lemma time_add_le now d : time_valid now = true -> 0 <= d -> time_le now (time_add_usec now d).
Proof.
  intros (H1 & H2)%time_valid_spec Hd. unfold time_le, time_leb, time_add_usec.
  pose proof (Z.div_pos d 1000000 Hd ltac:(lia)). pose proof (Z.mod_pos_bound d 1000000 ltac:(lia)).
  destruct (Z.leb_spec 1000000000 (tv_nsec now + (d mod 1000000) * 1000)); cbn [tv_sec tv_nsec].
  - rewrite (proj2 (Z.ltb_lt (tv_sec now) _)) by lia. done.
  - destruct (Z.ltb_spec (tv_sec now) (tv_sec now + d / 1000000)); [done|]. rewrite (proj2 (Z.eqb_eq (tv_sec now) _)) by lia. cbn. apply Z.leb_le. lia.
Qed.

(** The queue with the event in it, and the next event is taken. *)
Lemma pending_take n s d q : sp_queue s = d ++ (true, (h, a)) :: q -> Forall (fun e => fst e = true) d -> sp_cnt s = 0 -> (length d < S n)%nat ->
  exists t c s', sp_take s = (Some (t, c), s') /\ (c = (h, a) \/ pending n s').
Proof.
  intros Hq Hd Hc Hn. unfold sp_take. rewrite Hq. destruct Hd as [|[t c] d Ht Hd]; cbn [app fst] in *.
  - eexists _, _, _. split; [done|by left].
  - subst t. eexists _, _, _. split; [done|]. right. right. exists d, q. cbn. cbn [length] in Hn. split_and!; try done. lia.
Qed.

(** The loop looks at the timers. *)
Lemma pending_round n s s0 now t1 t2 : sp_inv s -> time_le rt now -> sp_timers s = t1 ++ (rt, (h, a)) :: t2 ->
  sp_timers s0 = sp_timers s -> sp_cnt s0 = 0 -> (length t1 < S n)%nat ->
  exists t c s', sp_take (sp_round now s0) = (Some (t, c), s') /\ (c = (h, a) \/ pending n s').
Proof.
  intros [Hs _ _] Hn Ht Ht0 Hc Hl. rewrite Ht in Hs.
  apply (pending_take n (sp_round now s0) (map (fun e => (true, snd e)) t1) (map (fun e => (true, snd e)) (due now t2) ++ sp_queue s0)).
  - cbn [sp_round sp_queue]. rewrite Ht0, Ht, due_app by (by eapply sorted_before). by rewrite map_app, <- (assoc_L (++)).
  - clear. induction t1; by constructor.
  - exact Hc.
  - by rewrite length_map.
Qed.

Lemma pending_next n s now : sp_inv s -> time_le rt now -> pending (S n) s ->
  exists t c s', sp_next now s = (Some (t, c), s') /\ (c = (h, a) \/ pending n s').
Proof.
  intros Hi Hn [(t1 & t2 & Ht & Hm)|(d & q & Hq & Hd & Hc & Hw & Hl)]; unfold sp_next.
  - pose proof Hi as [_ Hcnt Hw]. destruct (sp_waiting s) eqn:Ew; [eapply pending_round; eauto; lia|].
    destruct (sp_check s) eqn:Ec; [eapply pending_round; eauto; lia|].
    unfold sp_check in Ec. apply orb_false_iff in Ec as [Ec1 Ec2]. apply orb_false_iff in Ec1 as [Ec0 Ec1%Z.leb_gt]. apply bool_decide_eq_false_1 in Ec0.
    unfold sp_take. destruct (sp_queue s) as [|[t c] q] eqn:Eq; [done|]. eexists _, _, _. split; [done|]. right. left. exists t1, t2.
    split; [done|]. unfold timed_count in *. rewrite Eq, filter_cons in Hm. cbn [sp_queue sp_cnt fst] in *. destruct t; case_decide; cbn [length] in *; try done; lia.
  - rewrite Hw. unfold sp_check. rewrite Hc, bool_decide_eq_false_2 by (rewrite Hq; by destruct d). cbn [orb andb Z.leb Z.compare]. by eapply pending_take.
Qed.

Lemma pending_insert n s h' a' d now : sp_inv s -> time_valid now = true -> 0 <= d -> time_le rt now -> pending n s -> pending n (sp_post_delay h' a' d now s).
Proof.
  intros [Hs _ _] Hv Hd Hn [(t1 & t2 & Ht & Hm)|(l & q & ?)]; [|right; by exists l, q]. left.
  rewrite Ht in Hs. destruct (timers_insert_after (time_add_usec now d, (h', a')) t1 (rt, (h, a)) t2) as [t2' E].
  { eapply sorted_before; [exact Hs|]. cbn [fst]. eapply time_le_trans; [exact Hn|by apply time_add_le]. }
  exists t1, t2'. split; [|done]. cbn [sp_post_delay sp_timers]. by rewrite Ht.
Qed.

Lemma pending_cancel n s h' a' w : (h', a') <> (h, a) -> pending n s -> pending n (snd (sp_cancel_event h' a' w s)).
Proof.
  intros Hne Hp. unfold sp_cancel_event. destruct (remove_first (h', a') (sp_queue s)) as [q'|] eqn:Eq; cbn [snd].
  - destruct Hp as [(t1 & t2 & Ht & Hm)|(d & q & Hq & Hd & Hc & Hw & Hl)].
    + left. exists t1, t2. split; [done|]. apply remove_first_count in Eq. unfold timed_count in *. cbn [sp_queue sp_cnt] in *. lia.
    + right. rewrite Hq in Eq. apply remove_first_other in Eq as (d' & q2 & -> & Hlen & HP); [|cbn; congruence].
      exists d', q2. cbn. split_and!; auto. lia.
  - destruct (remove_first (h', a') (sp_timers s)) as [t'|] eqn:Et; [|by destruct w].
    destruct Hp as [(t1 & t2 & Ht & Hm)|(d & q & ?)]; [|right; by exists d, q]. left. rewrite Ht in Et.
    apply remove_first_other in Et as (t1' & t2' & -> & Hlen & _); [|cbn; congruence]. exists t1', t2'. split; [done|].
    unfold timed_count in *. cbn [snd sp_queue sp_cnt] in *. lia.
Qed.

Lemma pending_step n o b s : enabled o b s = true -> on_time o = true -> sp_inv s -> pending (if is_next o then S n else n) s ->
  fst (fst (sp_step o b s)) = Called h a \/ pending n (snd (sp_step o b s)).
Proof.
  intros Hen Ho Hi Hp. destruct o as [h' a'|h' a' d now|h' a' d now|h' a' w|now| |]; cbn [enabled on_time is_next sp_step fst snd] in *; bool_to_prop.
  - right. destruct Hp as [(t1 & t2 & Ht & Hm)|(d & q & Hq & ?)].
    + left. exists t1, t2. split; [done|]. unfold timed_count in *. cbn [sp_post sp_queue sp_cnt]. by rewrite timed_count_post.
    + right. exists d, (q ++ [(false, (h', a'))]). cbn. by rewrite Hq, <- (assoc_L (++)).
  - right. by apply pending_insert.
  - right. unfold sp_post_bg. case_bool_decide; [|by apply pending_insert]. exact Hp.
  - right. assert (Hne : (h', a') <> (h, a)) by (intros [= -> ->]; rewrite !Z.eqb_refl in Ho; by destruct Ho). pose proof (pending_cancel n s h' a' w Hne Hp) as Hx.
    by destruct (sp_cancel_event h' a' w s).
  - destruct (pending_next n s now Hi Ho Hp) as (t & [h' a'] & s' & -> & [[= -> ->]|Hp']); cbn; auto.
  - right. exact Hp.
  - right. exact Hp.
Qed.

Lemma pending_called l : forall n b s xs b' s', sp_run l b s = Some (xs, b', s') -> Forall (fun o => on_time o = true) l -> sp_inv s ->
  pending n s -> (n <= nexts l)%nat -> Called h a ∈ xs.
Proof.
  induction l as [|o l IH]; intros n b s xs b' s' Hrun Ho Hi Hp Hn; cbn [sp_run] in Hrun.
  - exfalso. destruct Hi as [_ Hc _]. cbn in Hn. destruct Hp as [(t1 & t2 & _ & Hm)|(d & q & _ & _ & _ & _ & Hl)]; lia.
  - destruct (enabled o b s) eqn:Een; [|done]. apply Forall_cons in Ho as [Ho Hl]. pose proof (sp_step_inv _ _ _ Een Hi) as Hi1.
    assert (Hm : exists m, (m <= nexts l)%nat /\ pending (if is_next o then S m else m) s).
    { unfold nexts in *. cbn [List.filter] in Hn. destruct (is_next o); [|by exists n]. cbn [length] in Hn. destruct n as [|n]; [|exists n; split; [lia|done]].
      exfalso. destruct Hi as [_ Hc _]. destruct Hp as [(t1 & t2 & _ & Hm)|(d & q & _ & _ & _ & _ & Hd)]; lia. }
    destruct Hm as (m & Hm & Hp'). pose proof (pending_step m o b s Een Ho Hi Hp') as Hs. destruct (sp_step o b s) as [[x b1] s1]. cbn [fst snd] in *.
    destruct (sp_run l b1 s1) as [[[xs1 b2] s2]|] eqn:E; [|done]. cbn in Hrun. injection Hrun as <- <- <-.
    destruct Hs as [->|Hs]; [apply list_elem_of_here|]. apply list_elem_of_further. by eapply IH.
Qed.
End Due.

(** ** Theorems *)

(** C3: The event loop implements its specification: a run of events posted by the dispatch thread
    and by other threads, cancelled, and dispatched by the loop, in any order in which the operations
    are enabled, reads only cells that are allocated, fails no assertion, and gives the results of the
    specification: untimed events in the order they were posted, timed events in the order of their
    times ahead of the untimed ones, a cancelled event once.  All the cells are in one of the lists in
    the end. *)
Theorem event_loop_refines l xs b sp :
  sp_run l false sp_init = Some (xs, b, sp) ->
  exists ev s, runs (loop_run l 0) ini_events_queue (xs, ev) s /\ sim s ev b sp.
Proof. intros H. by eapply loop_run_sim; [apply init_sim|]. Qed.

(** C29: The state of the event loop is well formed after every run: each cell of the heap is in
    exactly one of the dispatch queue, the timer queue, the lists of free cells, or belongs to the
    running event; the queues are linked lists that end in null, [event_last] is the last cell of the
    dispatch queue, the timer queue is in the order of the times, which are valid, and the loop looks
    at the timers after at most 100 events. *)
Theorem event_loop_well_formed l xs b sp :
  sp_run l false sp_init = Some (xs, b, sp) ->
  exists ev s lq lt lf lb, runs (loop_run l 0) ini_events_queue (xs, ev) s /\
    rep s lq lt lf lb (if b then [ev] else []) /\
    StronglySorted time_le (map (fun c => en_runtime (snd c)) lt) /\ 0 <= es_event_cnt s <= 100.
Proof.
  intros H. destruct (loop_run_sim _ _ _ _ _ _ _ _ init_sim H) as (ev & s & Hrun & lq & lt & lf & lb & Hr & Ha & _).
  exists ev, s, lq, lt, lf, lb. destruct (sp_run_inv _ _ _ _ _ _ H sp_init_inv) as [Hs Hc _].
  rewrite <- Ha in Hs, Hc. cbn [abs sp_timers sp_cnt] in *. unfold t_events in Hs. by rewrite map_map in Hs.
Qed.

(** C21: A timed event is dispatched once its time has come, whatever else happens: its handler is called in any
    run of the loop that goes on from a time that is not before the time of the event, with handlers and other threads
    that post, delay and cancel other events as they like, if it has 101 iterations, one for each timed event that is in the dispatch
    queue and one for each timed event in front of it in the timer queue.  The clock does not go back before the time of the event, and
    the event is not cancelled. *)
Theorem due_event_dispatched l xs b sp t1 rt h a t2 l2 ys b' sp' :
  sp_run l false sp_init = Some (xs, b, sp) -> sp_timers sp = t1 ++ (rt, (h, a)) :: t2 ->
  sp_run l2 b sp = Some (ys, b', sp') -> Forall (fun o => on_time rt h a o = true) l2 ->
  (timed_count sp + length t1 + 101 <= nexts l2)%nat ->
  exists ev s, runs (loop_run (l ++ l2) 0) ini_events_queue (xs ++ ys, ev) s /\ Called h a ∈ ys.
Proof.
  intros H Ht H2 Ho Hn. pose proof (sp_run_inv _ _ _ _ _ _ H sp_init_inv) as Hi.
  assert (Hall : sp_run (l ++ l2) false sp_init = Some (xs ++ ys, b', sp')) by (rewrite sp_run_app, H; cbn; by rewrite H2).
  destruct (loop_run_sim _ _ _ _ _ _ _ _ init_sim Hall) as (ev & s & Hr & _). exists ev, s. split; [done|].
  eapply pending_called; [exact H2|exact Ho|done| |exact Hn]. left. exists t1, t2. split; [done|]. destruct Hi as [_ Hc _]. lia.
Qed.

(** ** Witnesses *)

(** Untimed and timed events, a cancellation, one from another thread. *)
Definition sample_ops : list loop_op :=
  [Post 1 10; PostDelay 2 20 5000 (mkTime 7 0); Post 3 30; PostBg 4 40 10 (mkTime 7 0);
   Cancel 3 30 false; Cancel 3 30 false; Next (mkTime 7 6000000); Post 5 50; Return; Next (mkTime 8 0); Return].

Lemma event_loop_refines_witness :
  exists ev s, runs (loop_run sample_ops 0) ini_events_queue
    ([NoOut; NoOut; NoOut; NoOut; Cancelled (Some 1); Cancelled (Some 0); Called 1 10; NoOut; NoOut;
      Called 5 50; NoOut], ev) s /\
    sim s ev false (mkSpec [] [(mkTime 7 10000, (4, 40)); (mkTime 7 5000000, (2, 20))] (0, 0) 2 0 0 false).
Proof. apply event_loop_refines. vm_compute. reflexivity. Defined.

Lemma event_loop_well_formed_witness :
  exists ev s lq lt lf lb, runs (loop_run (take 4 sample_ops) 0) ini_events_queue ([NoOut; NoOut; NoOut; NoOut], ev) s /\
    rep s lq lt lf lb [] /\
    StronglySorted time_le (map (fun c => en_runtime (snd c)) lt) /\ 0 <= es_event_cnt s <= 100.
Proof. eapply (event_loop_well_formed _ _ false). vm_compute. reflexivity. Defined.

(** A handler that posts itself again, and sometimes a timed event, while another thread posts timed events too. *)
Definition busy_round (i : nat) : list loop_op :=
  [Next (mkTime 9 (Z.of_nat i)); Post 1 10] ++
  (if (i mod 10 =? 0)%nat then [PostDelay 6 60 0 (mkTime 9 (Z.of_nat i)); Cancel 3 30 false] else [PostBg 7 70 5 (mkTime 9 (Z.of_nat i)); Tick]) ++ [Return].
Definition busy_rounds : list loop_op := concat (map busy_round (seq 0 102)).

Lemma due_event_dispatched_witness :
  exists ys b' sp', sp_run busy_rounds false (mkSpec [(false, (1, 10)); (false, (3, 30))] [(mkTime 7 10000, (4, 40)); (mkTime 7 5000000, (2, 20))]
       (0, 0) 0 0 0 false) = Some (ys, b', sp') /\
  exists ev s, runs (loop_run (take 4 sample_ops ++ busy_rounds) 0) ini_events_queue ([NoOut; NoOut; NoOut; NoOut] ++ ys, ev) s /\
    Called 2 20 ∈ ys.
Proof.
  eexists _, _, _. split; [vm_compute; reflexivity|].
  eapply (due_event_dispatched (take 4 sample_ops) _ false
    (mkSpec [(false, (1, 10)); (false, (3, 30))] [(mkTime 7 10000, (4, 40)); (mkTime 7 5000000, (2, 20))] (0, 0) 0 0 0 false)
    [(mkTime 7 10000, (4, 40))] (mkTime 7 5000000) 2 20 [] busy_rounds);
    [vm_compute; reflexivity|reflexivity|vm_compute; reflexivity| |apply (bool_decide_unpack _); vm_compute; exact I].
  apply (bool_decide_unpack _). vm_compute. exact I.
Defined.
