(* ===== verification/ContextQuery.v ===== *)
(** * Context queries (services/contextquery.c)

    The parser of queries, which leaves its result in static variables, and the matcher, which walks
    from a context to the root of the context tree.  Strings are C strings without their terminating
    zero; reading at their end gives the zero. *)

From S2P Require Import Prelude Streams JsonWrite JsonRead JsonStruct.

(** ** Parser *)

(** [struct Attribute]; the [next] links are lists, the last property of a part is the first. *)
Record Attribute := mkAttr { at_name : option (list Z); at_value : list Z }.
Notation part := (list Attribute).

(** The static variables: [cq_str] is [str_buf[0 .. str_pos)]; [cq_attrs] are the parts, linked by
    [parent], from the last one to the first. *)
Record Query := mkQuery { cq_str : list Z; cq_attrs : list part; cq_abs : bool }.

Notation QM := (M Query).

Definition add_char (ch : Z) : QM unit :=
  modify (fun s => mkQuery (cq_str s ++ [ch]) (cq_attrs s) (cq_abs s)).
(** [str_pos = 0] *)
Definition str_reset : QM unit := modify (fun s => mkQuery [] (cq_attrs s) (cq_abs s)).
Definition set_attrs (l : list part) : QM unit := modify (fun s => mkQuery (cq_str s) l (cq_abs s)).

(** A syntax error: [set_errno(ERR_OTHER, ...); return -1]. *)
Definition syntax_error {A} : QM A := throw ERR_OTHER.

(** The parsers take the string and return what follows; [*q] is written before the last
    [add_char]. *)
Definition parse_wildcard (q : list Z) : QM (list Z) :=
  str_reset ;!
  add_char (deref q) ;!
  let c := tl q in
  let! c := (if deref c =? ch_star then add_char (deref c) ;! ret (tl c) else ret c) in
  if negb (deref c =? 0) && negb (deref c =? ch_slash) then syntax_error
  else add_char 0 ;! ret c.

Fixpoint number_loop (c : list Z) : QM (list Z) :=
  match c with
  | ch :: c' => if (ch_0 <=? ch) && (ch <=? ch_9) then add_char ch ;! number_loop c' else ret c
  | [] => ret c
  end.

Definition parse_number (q : list Z) : QM (list Z) :=
  str_reset ;!
  let! c := number_loop q in
  if negb (deref c =? ch_comma) && negb (deref c =? ch_slash) && negb (deref c =? 0) then syntax_error
  else add_char 0 ;! ret c.

Definition symbol_char (ch : Z) : bool :=
  negb (negb (ch =? ch_under) &&
        (((ch <? ch_0) || (ch >? ch_9)) && ((ch <? ch_a) || (ch >? ch_z)) && ((ch <? ch_A) || (ch >? ch_Z)))).

Fixpoint symbol_loop (c : list Z) : QM (list Z) :=
  match c with
  | ch :: c' => if symbol_char ch then add_char ch ;! symbol_loop c' else ret c
  | [] => ret c
  end.

Definition parse_symbol (q : list Z) : QM (list Z) :=
  str_reset ;!
  let! c := symbol_loop q in
  if negb (deref c =? ch_slash) && negb (deref c =? ch_eq) && negb (deref c =? ch_comma) && negb (deref c =? 0)
  then syntax_error
  else add_char 0 ;! ret c.

(** The end of the string is an error, also after a backslash. *)
Fixpoint quoted_loop (c : list Z) : QM (list Z) :=
  match c with
  | [] => syntax_error
  | ch :: c' =>
      if ch =? ch_quote then ret c
      else if ch =? ch_bslash then
        match c' with
        | [] => syntax_error
        | ch' :: c'' =>
            if negb (ch' =? ch_bslash) && negb (ch' =? ch_quote) then syntax_error
            else add_char ch' ;! quoted_loop c''
        end
      else if ch =? 0 then syntax_error
      else add_char ch ;! quoted_loop c'
  end.

Definition parse_quoted_string (q : list Z) : QM (list Z) :=
  str_reset ;!
  let! c := quoted_loop (tl q) in
  add_char 0 ;! ret (tl c).

Definition parse_string (q : list Z) : QM (list Z) :=
  if deref q =? ch_quote then parse_quoted_string q else parse_symbol q.

Definition parse_value (q : list Z) : QM (list Z) :=
  if (ch_0 <=? deref q) && (deref q <=? ch_9) then parse_number q
  else if deref q =? ch_quote then parse_quoted_string q
  else parse_symbol q.

(** [*c == '/' || *c == '=' || *c == ',' || *c == '\0'] *)
Definition no_item (c : list Z) : bool :=
  (deref c =? ch_slash) || (deref c =? ch_eq) || (deref c =? ch_comma) || (deref c =? 0).

(** [tmp_strdup(str_buf)] *)
Definition str_dup : QM (list Z) := gets (fun s => cstr (cq_str s)).

Definition parse_property (q : list Z) : QM (Attribute * list Z) :=
  let! c := parse_string q in
  let! name := str_dup in
  if deref c =? ch_eq then
    let c := tl c in
    if no_item c then syntax_error
    else
      let! c := parse_value c in
      let! value := str_dup in
      if deref c =? ch_eq then syntax_error
      else ret (mkAttr (Some name) value, c)
  else ret (mkAttr None name, c).

(** The loop of [parse_context_query]; [attr] is the part under construction. *)
Fixpoint query_loop (fuel : nat) (q : list Z) (attr : part) : QM unit :=
  match fuel with
  | O => nofuel
  | S fuel' =>
      if deref q =? 0 then
        let! l := gets cq_attrs in
        set_attrs (attr :: l)
      else
        str_reset ;!
        let! (a, q) :=
          (if deref q =? ch_star then
             let! q := parse_wildcard q in
             let! value := str_dup in
             ret (mkAttr None value, q)
           else parse_property q) in
        let attr := a :: attr in
        if deref q =? ch_slash then
          let! l := gets cq_attrs in
          set_attrs (attr :: l) ;!
          (if no_item (tl q) then syntax_error else query_loop fuel' (tl q) [])
        else if deref q =? ch_comma then
          (if no_item (tl q) then syntax_error else query_loop fuel' (tl q) attr)
        else query_loop fuel' q attr
  end.

(** [parse_context_query]: [None] is a null pointer; the error is the [-1] of the source. *)
Definition parse_context_query (q : option (list Z)) : QM unit :=
  put (mkQuery [] [] false) ;!
  match q with
  | None => ret tt
  | Some q =>
      if deref q =? 0 then ret tt
      else
        let abs := deref q =? ch_slash in
        put (mkQuery [] [] abs) ;!
        let q := if abs then tl q else q in
        if no_item q then syntax_error else query_loop (S (length q)) q []
  end.

(** ** Matching *)

Section Match.
Context {Ctx : Type}.

(** [struct Comparator]: the callback reads [query_attr_name], the key, besides its arguments. *)
Record Comparator := mkCmp { cmp_attr : list Z; cmp_callback : list Z -> Ctx -> list Z -> bool }.

Variable comparators : list Comparator.

Definition DEFAULT_CONTEXT_QUERY_COMPARATOR : list Z := [ch_star].

Definition match_attribute (ctx : Ctx) (key val : list Z) : bool :=
  match List.find (fun c => strcaseeq (cmp_attr c) key) comparators with
  | Some c => cmp_callback c key ctx val
  | None =>
      existsb (fun c => streq (cmp_attr c) DEFAULT_CONTEXT_QUERY_COMPARATOR && cmp_callback c key ctx val)
        comparators
  end.

(** [attr->name == NULL && strcmp(attr->value, "**") == 0] *)
Definition any_path (p : part) : bool :=
  match p with
  | a :: _ => match at_name a with None => streq (at_value a) [ch_star; ch_star] | Some _ => false end
  | [] => false
  end.

(** The last loop of [match]. *)
Definition match_attrs (ctx : Ctx) (p : part) : bool :=
  forallb (fun a =>
    match at_name a with
    | Some name => match_attribute ctx name (at_value a)
    | None => streq (at_value a) [ch_star] || match_attribute ctx (str "Name") (at_value a)
    end) p.

(** A context matches, or one of its ancestors does; each is given with its ancestors. *)
Fixpoint any_ancestor (f : Ctx -> list Ctx -> bool) (ancestors : list Ctx) : bool :=
  match ancestors with
  | [] => false
  | c :: cs => f c cs || any_ancestor f cs
  end.

(** [match]: [p] is the part [attr] leads to and [ps] the parts before it; [ancestors] are the
    contexts [get_parent] leads to. *)
Fixpoint match_parts (abs_path : bool) (p : part) (ps : list part) (ctx : Ctx) (ancestors : list Ctx) : bool :=
  if any_path p then
    match ps with
    | [] => true
    | p' :: ps' =>
        match_parts abs_path p' ps' ctx ancestors || any_ancestor (match_parts abs_path p' ps') ancestors
    end
  else
    match ps with
    | [] => negb (abs_path && negb (length ancestors =? 0)%nat)
    | p' :: ps' =>
        match ancestors with
        | [] => false
        | c :: cs => match_parts abs_path p' ps' c cs
        end
    end && match_attrs ctx p.

(** [run_context_query_ext], and [run_context_query], with the parents as an argument. *)
Definition run_context_query (ctx : Ctx) (ancestors : list Ctx) (s : Query) : bool :=
  match cq_attrs s with
  | [] => negb (cq_abs s)
  | p :: ps => match_parts (cq_abs s) p ps ctx ancestors
  end.

(** [context_query]; the result of the parser is not looked at. *)
Definition context_query (ctx : Ctx) (ancestors : list Ctx) (query : option (list Z)) (s : Query) : bool * Query :=
  let s' := snd (parse_context_query query s) in
  (run_context_query ctx ancestors s', s').

End Match.
Arguments Comparator : clear implicits.

Definition add_context_query_comparator {Ctx} (attr_name : list Z) (callback : list Z -> Ctx -> list Z -> bool)
    (comparators : list (Comparator Ctx)) : list (Comparator Ctx) :=
  mkCmp attr_name callback :: comparators.

(** ** The service *)

(** What the service reads of [struct Context]. *)
Class QueryContext (Ctx : Type) := {
  qc_id : Ctx -> list Z;
  qc_name : Ctx -> option (list Z);
  qc_exited : Ctx -> bool }.

Section Service.
Context {Ctx : Type} `{QueryContext Ctx}.

Definition cmp_id (key : list Z) (ctx : Ctx) (v : list Z) : bool := streq (qc_id ctx) v.
Definition cmp_name (key : list Z) (ctx : Ctx) (v : list Z) : bool :=
  match qc_name ctx with Some n => streq n v | None => streq (qc_id ctx) v end.

(** The comparators [ini_context_query_service] registers. *)
Definition ini_context_query_service (comparators : list (Comparator Ctx)) : list (Comparator Ctx) :=
  add_context_query_comparator (str "Name") cmp_name
    (add_context_query_comparator (str "ID") cmp_id comparators).

(** The loop of [command_query] over the contexts and their ancestors: the identifiers written. *)
Fixpoint query_results (comparators : list (Comparator Ctx)) (s : Query) (contexts : list (Ctx * list Ctx)) :
    list (list Z) :=
  match contexts with
  | [] => []
  | (ctx, ancestors) :: l =>
      if qc_exited ctx then query_results comparators s l
      else if run_context_query comparators ctx ancestors s then qc_id ctx :: query_results comparators s l
      else query_results comparators s l
  end.

(** [json_write_string] of each string, separated by commas. *)
Fixpoint write_strings `{OutputStream OS} (cnt : nat) (l : list (list Z)) : M OS unit :=
  match l with
  | [] => ret tt
  | id :: l' =>
      (if (0 <? cnt)%nat then write_stream ch_comma else ret tt) ;!
      json_write_string (Some id) ;!
      write_strings (S cnt) l'
  end.

End Service.

(** *** Commands *)

Section Commands.
Context {IS OS Ctx : Type} `{InputStream IS} `{OutputStream OS} `{QueryContext Ctx}.
Variable fuel : nat.
Variable write_error_object : Z -> M OS unit.

(** The streams of the channel with the buffer of json.c, and the static variables. *)
Record CommandState := mkCommand { cs_inp : Json IS; cs_out : OS; cs_query : Query }.

Definition on_cinp {A} (m : M (Json IS) A) : M CommandState A :=
  zoom cs_inp (fun i s => mkCommand i (cs_out s) (cs_query s)) m.
Definition on_cout {A} (m : M OS A) : M CommandState A :=
  zoom cs_out (fun o s => mkCommand (cs_inp s) o (cs_query s)) m.

(** [err = errno] if the parser fails. *)
Definition parse_query (query : option (list Z)) : M CommandState Z :=
  fun s =>
    match parse_context_query query (cs_query s) with
    | (Val _, q) => (Val 0, mkCommand (cs_inp s) (cs_out s) q)
    | (Throw e, q) => (Val e, mkCommand (cs_inp s) (cs_out s) q)
    | (Fault, q) => (Fault, mkCommand (cs_inp s) (cs_out s) q)
    | (NoFuel, q) => (NoFuel, mkCommand (cs_inp s) (cs_out s) q)
    end.

(** [contexts]: the list [context_root], each context with its ancestors. *)
Definition command_query (token : list Z) (comparators : list (Comparator Ctx)) (contexts : list (Ctx * list Ctx)) :
    M CommandState unit :=
  let! query := on_cinp (json_read_alloc_string fuel) in
  on_cinp (json_test_char fuel MARKER_EOA) ;!
  on_cinp (json_test_char fuel MARKER_EOM) ;!
  let! err := parse_query (option_map cstr query) in
  on_cout (write_stringz (str "R") ;! write_stringz token ;! write_errno write_error_object err ;! write_stream ch_lbra) ;!
  (if err =? 0 then
     let! q := gets cs_query in
     on_cout (write_strings 0 (query_results comparators q contexts))
   else ret tt) ;!
  on_cout (write_stream ch_rbra ;! write_stream 0 ;! write_stream MARKER_EOM).

Definition command_get_attr_names (token : list Z) (comparators : list (Comparator Ctx)) : M CommandState unit :=
  on_cinp (json_test_char fuel MARKER_EOM) ;!
  on_cout (write_stringz (str "R") ;! write_stringz token ;! write_errno write_error_object 0 ;! write_stream ch_lbra ;!
           write_strings 0 (map cmp_attr comparators) ;!
           write_stream ch_rbra ;! write_stream 0 ;! write_stream MARKER_EOM).

End Commands.
