(* ===== verification/ContextProps.v ===== *)
(** * Properties of context queries (ContextQuery.v)

    The parser terminates and accepts the documented grammar; matching is the documented relation
    between queries and paths in the context tree. *)

From S2P Require Import Prelude Streams JsonWrite JsonRead JsonStruct ContextQuery.

(** ** The parser terminates *)

(** [m] returns a value with [P], or reports a syntax error. *)
Definition ends {A} (P : A -> Prop) (m : M Query A) : Prop :=
  forall s, match fst (m s) with Val a => P a | Throw e => e = ERR_OTHER | _ => False end.

Lemma ends_ret {A} (P : A -> Prop) a : P a -> ends P (ret a).
Proof. by intros H s. Qed.

Lemma ends_error {A} (P : A -> Prop) : ends P (syntax_error).
Proof. by intros s. Qed.

Lemma ends_bind {A B} (P : A -> Prop) (Q : B -> Prop) m (k : A -> M Query B) :
  ends P m -> (forall a, P a -> ends Q (k a)) -> ends Q (bind m k).
Proof.
  intros Hm Hk s. specialize (Hm s). unfold bind. destruct (m s) as [[a|e| |] s1]; cbn [fst] in *; try done.
  by apply Hk.
Qed.

Lemma ends_modify f : ends (fun _ => True) (modify f).
Proof. done. Qed.

Lemma ends_gets {A} (f : Query -> A) : ends (fun _ => True) (gets f).
Proof. done. Qed.

Lemma ends_weaken {A} (P Q : A -> Prop) m : ends P m -> (forall a, P a -> Q a) -> ends Q m.
Proof. intros Hm H s. specialize (Hm s). destruct (fst (m s)); auto. Qed.

(** The loops stop at a suffix of the string. *)
Definition shorter (n : nat) (c : list Z) : Prop := (length c <= n)%nat.

Lemma ends_number_loop q : ends (shorter (length q)) (number_loop q).
Proof.
  unfold shorter. induction q as [|ch q IH]; cbn [number_loop length]; [by apply ends_ret|].
  destruct_if; [|by apply ends_ret]. eapply ends_bind; [apply ends_modify|]. intros _ _.
  eapply ends_weaken; [exact IH|]. cbn. lia.
Qed.

(** [parse_symbol] stops at the first character that is not part of a symbol. *)
Lemma ends_symbol_loop q : ends (fun c => shorter (length q) c /\ (length c = length q -> c = q)) (symbol_loop q).
Proof.
  unfold shorter. induction q as [|ch q IH]; cbn [symbol_loop length]; [by apply ends_ret|].
  destruct_if; [|by apply ends_ret]. eapply ends_bind; [apply ends_modify|]. intros _ _.
  eapply ends_weaken; [exact IH|]. cbn. intros c [Hc _]. lia.
Qed.

Lemma ends_quoted_loop n q : (length q < n)%nat ->
  ends (fun c => shorter (length q) c /\ c <> []) (quoted_loop q).
Proof.
  unfold shorter. revert q. induction n as [|n IH]; intros q Hq; [lia|].
  destruct q as [|ch q]; cbn [quoted_loop length] in *; [apply ends_error|].
  destruct_if; [by apply ends_ret|]. destruct_if.
  - destruct q as [|ch' q]; [apply ends_error|]. cbn [length] in *. destruct_if; [apply ends_error|].
    eapply ends_bind; [apply ends_modify|]. intros _ _. eapply ends_weaken; [apply IH; lia|].
    intros c [Hc Hn]. split; [lia|done].
  - destruct_if; [apply ends_error|]. eapply ends_bind; [apply ends_modify|]. intros _ _.
    eapply ends_weaken; [apply IH; lia|]. intros c [Hc Hn]. split; [lia|done].
Qed.

(** What a parser of the beginning of [q] leaves, when there is something to parse. *)
Definition consumed (q c : list Z) : Prop := (length c < length q)%nat.

Ltac ends_tac :=
  first [ apply ends_ret | apply ends_error | apply ends_modify | apply ends_gets ].

Lemma no_item_cons q : no_item q = false -> exists ch q', q = ch :: q' /\ ch <> 0.
Proof.
  destruct q as [|ch q]; [done|]. unfold no_item. cbn. intros H. exists ch, q. split; [done|]. bool_to_prop. lia.
Qed.

Lemma ends_symbol q : no_item q = false -> ends (consumed q) (parse_symbol q).
Proof.
  intros Hq. eapply ends_bind; [apply ends_modify|]. intros _ _.
  eapply ends_bind; [apply ends_symbol_loop|]. intros c [Hc Hsame].
  destruct_if; [apply ends_error|]. eapply ends_bind; [apply ends_modify|]. intros _ _. apply ends_ret.
  unfold consumed, shorter in *. destruct (decide (length c = length q)) as [E|E]; [|lia].
  rewrite (Hsame E) in *. unfold no_item in Hq. bool_to_prop. exfalso. lia.
Qed.

Lemma ends_quoted q : q <> [] -> ends (consumed q) (parse_quoted_string q).
Proof.
  intros Hq. destruct q as [|ch q]; [done|]. eapply ends_bind; [apply ends_modify|]. intros _ _. cbn [tl].
  eapply ends_bind; [apply (ends_quoted_loop (S (length q))); lia|]. intros c [Hc Hn].
  eapply ends_bind; [apply ends_modify|]. intros _ _. apply ends_ret.
  unfold consumed, shorter in *. destruct c; [done|]. cbn [tl length] in *. lia.
Qed.

Lemma ends_number q : (ch_0 <=? deref q) && (deref q <=? ch_9) = true -> ends (consumed q) (parse_number q).
Proof.
  intros Hd. destruct q as [|ch q]; [done|]. cbn [deref hd] in Hd. eapply ends_bind; [apply ends_modify|]. intros _ _.
  cbn [number_loop]. rewrite Hd. eapply (ends_bind (shorter (length q))).
  - eapply ends_bind; [apply ends_modify|]. intros _ _. apply ends_number_loop.
  - intros c Hc. destruct_if; [apply ends_error|]. eapply ends_bind; [apply ends_modify|]. intros _ _. apply ends_ret.
    unfold consumed, shorter in *. cbn [length]. lia.
Qed.

Lemma ends_string q : no_item q = false -> ends (consumed q) (parse_string q).
Proof.
  intros Hq. destruct (no_item_cons q Hq) as (ch & q' & E & _).
  unfold parse_string. destruct_if; [apply ends_quoted; by rewrite E|by apply ends_symbol].
Qed.

Lemma ends_value q : no_item q = false -> ends (consumed q) (parse_value q).
Proof.
  intros Hq. destruct (no_item_cons q Hq) as (ch & q' & E & _).
  unfold parse_value. destruct ((ch_0 <=? deref q) && (deref q <=? ch_9)) eqn:Ed; [by apply ends_number|].
  destruct_if; [apply ends_quoted; by rewrite E|by apply ends_symbol].
Qed.

Lemma ends_property q : no_item q = false ->
  ends (fun r => consumed q (snd r) /\ deref (snd r) <> ch_eq) (parse_property q).
Proof.
  intros Hq. eapply ends_bind; [by apply ends_string|]. intros c Hc.
  eapply ends_bind; [apply ends_gets|]. intros name _. cbv zeta.
  destruct (Z.eqb_spec (deref c) ch_eq) as [E|E]; [|by apply ends_ret].
  destruct (no_item (tl c)) eqn:En; [apply ends_error|].
  eapply ends_bind; [by apply ends_value|]. intros c' Hc'. eapply ends_bind; [apply ends_gets|]. intros v _.
  destruct (Z.eqb_spec (deref c') ch_eq) as [E'|E']; [apply ends_error|]. apply ends_ret. split; [|done].
  cbn [snd]. unfold consumed in *. destruct c; cbn [tl length] in *; lia.
Qed.

Lemma ends_wildcard q : deref q = ch_star ->
  ends (fun c => consumed q c /\ deref c <> ch_eq) (parse_wildcard q).
Proof.
  intros Hq. destruct q as [|ch q]; [done|]. eapply ends_bind; [apply ends_modify|]. intros _ _.
  eapply ends_bind; [apply ends_modify|]. intros _ _. cbn [tl].
  eapply (ends_bind (fun c => (length c <= length q)%nat)).
  - destruct_if; [|by apply ends_ret]. eapply ends_bind; [apply ends_modify|]. intros _ _. apply ends_ret.
    destruct q; cbn; lia.
  - intros c Hc. destruct_if; [apply ends_error|]. eapply ends_bind; [apply ends_modify|]. intros _ _.
    apply ends_ret. unfold consumed. cbn [length]. split; [lia|]. bool_to_prop. lia.
Qed.

Lemma ends_query_loop fuel q attr : (length q < fuel)%nat -> deref q = 0 \/ no_item q = false ->
  ends (fun _ => True) (query_loop fuel q attr).
Proof.
  revert q attr. induction fuel as [|fuel IH]; intros q attr Hf Hq; [lia|]. cbn [query_loop].
  destruct (Z.eqb_spec (deref q) 0) as [E|E].
  { eapply ends_bind; [apply ends_gets|]. intros l _. apply ends_modify. }
  destruct Hq as [|Hq]; [done|]. eapply ends_bind; [apply ends_modify|]. intros _ _.
  eapply (ends_bind (fun r => consumed q (snd r) /\ deref (snd r) <> ch_eq)).
  - destruct (Z.eqb_spec (deref q) ch_star) as [Es|Es]; [|by apply ends_property].
    eapply ends_bind; [by apply ends_wildcard|]. intros c Hc. eapply ends_bind; [apply ends_gets|]. intros v _.
    by apply ends_ret.
  - intros [a c] [Hc He]. cbn [snd] in *. unfold consumed in Hc.
    assert (Hl : (length (tl c) <= length c)%nat) by (destruct c; cbn; lia).
    destruct (Z.eqb_spec (deref c) ch_slash) as [E1|E1].
    { eapply ends_bind; [apply ends_gets|]. intros l _. eapply ends_bind; [apply ends_modify|]. intros _ _.
      destruct (no_item (tl c)) eqn:En; [apply ends_error|]. apply IH; [lia|by right]. }
    destruct (Z.eqb_spec (deref c) ch_comma) as [E2|E2].
    { destruct (no_item (tl c)) eqn:En; [apply ends_error|]. apply IH; [lia|by right]. }
    apply IH; [lia|]. destruct (Z.eqb_spec (deref c) 0) as [E3|E3]; [by left|right].
    unfold no_item. by repeat (rewrite (proj2 (Z.eqb_neq _ _)) by done).
Qed.

(** The parser of context queries ends on every string: it returns, or reports a syntax error. *)
Theorem parse_context_query_terminates q s :
  (exists s', runs (parse_context_query q) s tt s') \/ throws (parse_context_query q) s ERR_OTHER.
Proof.
  assert (H : ends (fun _ => True) (parse_context_query q)).
  { eapply ends_bind; [apply ends_modify|]. intros _ _. destruct q as [q|]; [|by apply ends_ret].
    destruct_if; [by apply ends_ret|]. eapply ends_bind; [apply ends_modify|]. intros _ _.
    cbv zeta. destruct (no_item (if deref q =? ch_slash then tl q else q)) eqn:En; [apply ends_error|]. apply ends_query_loop; [lia|by right]. }
  specialize (H s). unfold runs, throws. destruct (parse_context_query q s) as [[[]|e| |] s']; cbn [fst] in *; try done.
  - left. by exists s'.
  - right. by rewrite H.
Qed.

(** ** The grammar of queries *)

(** The grammar of contextquery.h.  A string is a symbol or is quoted. *)
Fixpoint escape (s : list Z) : list Z :=
  match s with
  | [] => []
  | ch :: s' => (if (ch =? ch_bslash) || (ch =? ch_quote) then [ch_bslash; ch] else [ch]) ++ escape s'
  end.

Notation nonzero := (Forall (fun ch : Z => ch <> 0)).

Inductive name_text : list Z -> list Z -> Prop :=
| st_symbol s : s <> [] -> Forall (fun ch => symbol_char ch = true) s -> name_text s s
| st_quoted s : nonzero s -> name_text s (ch_quote :: escape s ++ [ch_quote]).

Inductive value_text : list Z -> list Z -> Prop :=
| vt_string s t : name_text s t -> is_digit (deref t) = false -> value_text s t
| vt_number s : s <> [] -> Forall (fun ch => is_digit ch = true) s -> value_text s s.

Inductive property_text : Attribute -> list Z -> Prop :=
| pt_name v t : name_text v t -> property_text (mkAttr None v) t
| pt_pair n v tn tv : name_text n tn -> value_text v tv ->
    property_text (mkAttr (Some n) v) (tn ++ ch_eq :: tv).

(** The parts of a query: "*", "**", or properties; one without a name is the name of a context. *)
Inductive QueryPart :=
| AnyContext
| AnyPath
| Properties (l : list Attribute).

(** The properties of a part are separated by commas. *)
Inductive part_text : QueryPart -> list Z -> Prop :=
| pt_any : part_text AnyContext [ch_star]
| pt_path : part_text AnyPath [ch_star; ch_star]
| pt_props (l : list (Attribute * list Z)) : l <> [] -> Forall (fun x => property_text (fst x) (snd x)) l ->
    part_text (Properties (map fst l)) (sep_text (map snd l)).

(** What the parser keeps of a part: the wildcards are names, and the properties are in the reverse order. *)
Definition code_part (p : QueryPart) : part :=
  match p with
  | AnyContext => [mkAttr None [ch_star]]
  | AnyPath => [mkAttr None [ch_star; ch_star]]
  | Properties l => rev l
  end.

Fixpoint slash_text (l : list (list Z)) : list Z :=
  match l with
  | [] => []
  | [t] => t
  | t :: l' => t ++ ch_slash :: slash_text l'
  end.

(** [query_text abs parts t]: [t] is a query for a path of [parts], from the root. *)
Definition query_text (abs : bool) (parts : list QueryPart) (t : list Z) : Prop :=
  exists l, l <> [] /\ Forall (fun x => part_text (fst x) (snd x)) l /\ map fst l = parts /\
    t = (if abs then [ch_slash] else []) ++ slash_text (map snd l).

(** ** Runs of the parsers *)

(** [m] leaves [c] and the string [v] in the buffer. *)
Definition scans (m : M Query (list Z)) (v c : list Z) : Prop :=
  forall s, runs m s c (mkQuery (v ++ [0]) (cq_attrs s) (cq_abs s)).

Definition name_end (rest : list Z) : Prop := deref rest = 0 \/ deref rest = ch_slash \/ deref rest = ch_eq \/ deref rest = ch_comma.

Lemma name_end_symbol rest : name_end rest -> symbol_char (deref rest) = false.
Proof. by intros [->|[-> |[-> | ->]]]. Qed.

Lemma symbol_loop_runs t rest s :
  Forall (fun ch => symbol_char ch = true) t -> symbol_char (deref rest) = false ->
  runs (symbol_loop (t ++ rest)) s rest (mkQuery (cq_str s ++ t) (cq_attrs s) (cq_abs s)).
Proof.
  intros Ht Hr. revert s. induction Ht as [|ch t Hch Ht IH]; intros s; cbn [app symbol_loop].
  - rewrite app_nil_r. destruct s. destruct rest as [|r rest]; [done|]. cbn in Hr |- *. by rewrite Hr.
  - rewrite Hch. eapply runs_bind; [apply runs_modify|].
    specialize (IH (mkQuery (cq_str s ++ [ch]) (cq_attrs s) (cq_abs s))). cbn [cq_str cq_attrs cq_abs] in IH.
    by rewrite <- (assoc_L (++)) in IH.
Qed.

Lemma number_loop_runs t rest s :
  Forall (fun ch => is_digit ch = true) t -> is_digit (deref rest) = false ->
  runs (number_loop (t ++ rest)) s rest (mkQuery (cq_str s ++ t) (cq_attrs s) (cq_abs s)).
Proof.
  unfold is_digit. intros Ht Hr. revert s. induction Ht as [|ch t Hch Ht IH]; intros s; cbn [app number_loop].
  - rewrite app_nil_r. destruct s. destruct rest as [|r rest]; [done|]. cbn [deref hd number_loop] in Hr |- *. by rewrite Hr.
  - rewrite Hch. eapply runs_bind; [apply runs_modify|].
    specialize (IH (mkQuery (cq_str s ++ [ch]) (cq_attrs s) (cq_abs s))). cbn [cq_str cq_attrs cq_abs] in IH.
    by rewrite <- (assoc_L (++)) in IH.
Qed.

Lemma quoted_loop_runs v rest s : nonzero v ->
  runs (quoted_loop (escape v ++ ch_quote :: rest)) s (ch_quote :: rest)
    (mkQuery (cq_str s ++ v) (cq_attrs s) (cq_abs s)).
Proof.
  intros Hv. revert s. induction Hv as [|ch v Hch Hv IH]; intros s; cbn [escape app].
  - rewrite app_nil_r. by destruct s.
  - specialize (IH (mkQuery (cq_str s ++ [ch]) (cq_attrs s) (cq_abs s))). cbn [cq_str cq_attrs cq_abs] in IH.
    rewrite <- (assoc_L (++)) in IH.
    destruct ((ch =? ch_bslash) || (ch =? ch_quote)) eqn:E; cbn [app quoted_loop].
    + cbn [Z.eqb Pos.eqb]. replace (negb (ch =? ch_bslash) && negb (ch =? ch_quote)) with false
        by (destruct (ch =? ch_bslash), (ch =? ch_quote); done).
      eapply runs_bind; [apply runs_modify|]. exact IH.
    + apply orb_false_iff in E as [-> ->]. rewrite (proj2 (Z.eqb_neq ch 0)) by done.
      eapply runs_bind; [apply runs_modify|]. exact IH.
Qed.

Lemma parse_symbol_scans v rest : Forall (fun ch => symbol_char ch = true) v -> name_end rest ->
  scans (parse_symbol (v ++ rest)) v rest.
Proof.
  intros Hv Hr s. eapply runs_bind; [apply runs_modify|].
  eapply runs_bind; [apply (symbol_loop_runs v rest); [done|by apply name_end_symbol]|]. cbn [cq_str cq_attrs cq_abs].
  destruct Hr as [->|[-> |[-> | ->]]]; by (eapply runs_bind; [apply runs_modify|apply runs_ret]).
Qed.

Lemma parse_quoted_scans v rest : nonzero v -> scans (parse_quoted_string (ch_quote :: escape v ++ ch_quote :: rest)) v rest.
Proof.
  intros Hv s. eapply runs_bind; [apply runs_modify|]. eapply runs_bind; [by apply quoted_loop_runs|].
  eapply runs_bind; [apply runs_modify|apply runs_ret].
Qed.

Lemma symbol_not_quote ch : symbol_char ch = true -> (ch =? ch_quote) = false.
Proof. intros H. destruct (Z.eqb_spec ch ch_quote) as [->|]; [by vm_compute in H|done]. Qed.

Lemma parse_string_scans v t rest : name_text v t -> name_end rest -> scans (parse_string (t ++ rest)) v rest.
Proof.
  intros Ht Hr. unfold parse_string. destruct Ht as [v Hn Hs|v Hz].
  - destruct v as [|ch v]; [done|]. cbn [app deref hd]. pose proof Hs as Hs'. apply Forall_cons in Hs' as [Hch _].
    rewrite (symbol_not_quote _ Hch). by apply (parse_symbol_scans (ch :: v)).
  - cbn [app deref hd]. rewrite <- (assoc_L (++)). by apply parse_quoted_scans.
Qed.

Definition value_end_ok (rest : list Z) : Prop := deref rest = 0 \/ deref rest = ch_slash \/ deref rest = ch_comma.

Lemma value_end_name rest : value_end_ok rest -> name_end rest.
Proof. unfold value_end_ok, name_end. tauto. Qed.

Lemma parse_value_scans v t rest : value_text v t -> value_end_ok rest -> scans (parse_value (t ++ rest)) v rest.
Proof.
  intros Ht Hr. unfold parse_value. destruct Ht as [v t Ht Hd|v Hn Hd].
  - assert (E : deref (t ++ rest) = deref t) by (destruct Ht as [[|ch v] ? _|]; done). rewrite E.
    unfold is_digit in Hd. rewrite Hd. rewrite <- E. apply parse_string_scans; [done|by apply value_end_name].
  - destruct v as [|ch v]; [done|]. pose proof Hd as Hd'. apply Forall_cons in Hd' as [Hch _]. cbn [app deref hd].
    unfold is_digit in Hch. rewrite Hch. intros s. eapply runs_bind; [apply runs_modify|].
    eapply runs_bind; [apply (number_loop_runs (ch :: v) rest); [done|]|].
    + by destruct Hr as [->|[-> | ->]].
    + cbn [cq_str cq_attrs cq_abs].
      destruct Hr as [->|[-> | ->]]; by (eapply runs_bind; [apply runs_modify|apply runs_ret]).
Qed.

Lemma symbol_nonzero v : Forall (fun ch => symbol_char ch = true) v -> nonzero v.
Proof. intros H. eapply Forall_impl; [exact H|]. intros ch Hch ->. by vm_compute in Hch. Qed.

Lemma string_nonzero v t : name_text v t -> nonzero v.
Proof. destruct 1; [by apply symbol_nonzero|done]. Qed.

Lemma value_nonzero v t : value_text v t -> nonzero v.
Proof.
  destruct 1 as [v t Ht _|v _ Hd]; [by eapply string_nonzero|].
  eapply Forall_impl; [exact Hd|]. intros ch Hch ->. by vm_compute in Hch.
Qed.

(** What begins a property. *)
Definition item_first (t : list Z) : Prop :=
  match t with ch :: _ => symbol_char ch = true \/ ch = ch_quote | [] => False end.

Lemma item_first_ok t r : item_first t -> no_item (t ++ r) = false /\ (deref (t ++ r) =? ch_star) = false /\ (deref (t ++ r) =? 0) = false.
Proof.
  destruct t as [|ch t]; [done|]. unfold no_item. cbn. intros [H| ->]; [|done].
  repeat match goal with |- context [ch =? ?k] => destruct (Z.eqb_spec ch k) as [->|]; [by vm_compute in H|] end. done.
Qed.

Lemma string_first v t r : name_text v t -> item_first (t ++ r).
Proof. destruct 1 as [v Hn Hs|v Hz]; [|by right]. destruct v; [done|]. apply Forall_cons in Hs as [? _]. by left. Qed.

Lemma value_first v t : value_text v t -> item_first t.
Proof.
  destruct 1 as [v t Ht _|v Hn Hd].
  - rewrite <- (app_nil_r t). by eapply string_first.
  - destruct v as [|ch v]; [done|]. apply Forall_cons in Hd as [Hd _]. left. unfold is_digit in Hd. unfold symbol_char.
    bool_to_prop. destruct (ch <? ch_0) eqn:E1, (ch >? ch_9) eqn:E2; cbn; try lia.
Qed.

Lemma property_first a t : property_text a t -> item_first t.
Proof.
  destruct 1 as [v t Ht|n v tn tv Hn Hv].
  - rewrite <- (app_nil_r t). by eapply string_first.
  - by eapply string_first.
Qed.

Lemma parse_property_runs a t rest s : property_text a t -> value_end_ok rest ->
  exists b, runs (parse_property (t ++ rest)) s (a, rest) (mkQuery b (cq_attrs s) (cq_abs s)).
Proof.
  intros Ht Hr. destruct Ht as [v t Ht|n v tn tv Hn Hv].
  - exists (v ++ [0]). eapply runs_bind; [apply (parse_string_scans v t rest Ht); by apply value_end_name|].
    eapply runs_bind; [apply runs_gets|]. cbn [cq_str]. rewrite (cstr_nonzero v) by (by eapply string_nonzero).
    destruct Hr as [->|[-> | ->]]; apply runs_ret.
  - exists (v ++ [0]). rewrite <- (assoc_L (++)).
    eapply runs_bind; [apply (parse_string_scans n tn _ Hn); right; right; by left|].
    eapply runs_bind; [apply runs_gets|]. cbn [cq_str]. rewrite (cstr_nonzero n) by (by eapply string_nonzero).
    cbn [app deref hd tl]. rewrite Z.eqb_refl. cbv zeta.
    destruct (item_first_ok tv rest (value_first _ _ Hv)) as (-> & _ & _).
    eapply runs_bind; [by apply (parse_value_scans v tv rest)|].
    eapply runs_bind; [apply runs_gets|]. cbn [cq_str]. rewrite (cstr_nonzero v) by (by eapply value_nonzero).
    destruct Hr as [->|[-> | ->]]; apply runs_ret.
Qed.

(** [m] ends with the parts [L]. *)
Definition goes (m : M Query unit) (s : Query) (L : list part) : Prop :=
  exists b, runs m s tt (mkQuery b L (cq_abs s)).

Lemma goes_bind {A} (m : M Query A) (k : A -> M Query unit) s a s1 L :
  runs m s a s1 -> cq_abs s1 = cq_abs s -> goes (k a) s1 L -> goes (bind m k) s L.
Proof. intros Hm Ha (b & Hk). exists b. rewrite <- Ha. by eapply runs_bind. Qed.

(** What follows a part: the end of the query, or a slash and more parts. *)
Definition after_part (rest : list Z) (p : part) (s : Query) (L : list part) : Prop :=
  (rest = [] /\ L = p :: cq_attrs s) \/
  (exists rest', rest = ch_slash :: rest' /\ no_item rest' = false /\
     forall f b, (length rest' < f)%nat -> goes (query_loop f rest' []) (mkQuery b (p :: cq_attrs s) (cq_abs s)) L).

(** One item of a part has been parsed. *)
Lemma after_item fuel a rest acc s b L (m : M Query (Attribute * list Z)) q :
  runs m (mkQuery [] (cq_attrs s) (cq_abs s)) (a, rest) (mkQuery b (cq_attrs s) (cq_abs s)) ->
  after_part rest (a :: acc) s L -> (length rest < fuel)%nat -> (deref q =? 0) = false ->
  (if deref q =? ch_star then
     let! q := parse_wildcard q in let! value := str_dup in ret (mkAttr None value, q)
   else parse_property q) = m ->
  goes (query_loop (S fuel) q acc) s L.
Proof.
  intros Hm Ha Hf Hq Em. cbn [query_loop]. rewrite Hq.
  eapply goes_bind; [apply runs_modify|done|].
  eapply goes_bind; [rewrite Em; exact Hm|done|]. cbv beta iota zeta.
  destruct Ha as [[-> ->]|(rest' & -> & Hn & Hk)].
  - cbn [deref hd]. destruct fuel as [|fuel]; [lia|]. cbn [query_loop deref hd].
    eapply goes_bind; [apply runs_gets|done|]. exists b. done.
  - cbn [deref hd tl]. rewrite Z.eqb_refl. eapply goes_bind; [apply runs_gets|done|].
    eapply goes_bind; [apply runs_modify|done|]. rewrite Hn. apply Hk. cbn [length] in Hf. lia.
Qed.

Lemma after_part_end rest p s L : after_part rest p s L -> value_end_ok rest.
Proof. intros [[-> _]|(r & -> & _)]; [by left|right; by left]. Qed.

Lemma props_loop l : l <> [] -> Forall (fun x => property_text (fst x) (snd x)) l ->
  forall fuel rest acc s L, (length (sep_text (map snd l) ++ rest) < fuel)%nat ->
  after_part rest (rev (map fst l) ++ acc) s L ->
  goes (query_loop fuel (sep_text (map snd l) ++ rest) acc) s L.
Proof.
  intros Hne Hl. induction Hl as [|[a t] l Ha Hl IH]; intros fuel rest acc s L Hf Hk; [done|].
  cbn [fst snd map] in *. rewrite sep_text_cons in Hf |- *. rewrite <- (assoc_L (++)) in Hf |- *.
  pose proof (property_first _ _ Ha) as Hfirst.
  destruct (item_first_ok t (more_text (map snd l) ++ rest) Hfirst) as (_ & Hstar & H0).
  destruct fuel as [|fuel]; [lia|].
  assert (Hlen : (0 < length t)%nat) by (destruct t; [done|cbn; lia]).
  destruct l as [|x l].
  - cbn [map more_text app rev] in *.
    destruct (parse_property_runs a t rest (mkQuery [] (cq_attrs s) (cq_abs s)) Ha) as (b & Hrun);
      [by eapply after_part_end|].
    eapply after_item; [exact Hrun|exact Hk| |exact H0|by rewrite Hstar].
    rewrite length_app in Hf. lia.
  - clear Hne. specialize (IH ltac:(done)). unfold more_text in *. cbn [map] in *.
    set (T := sep_text (snd x :: map snd l)) in *.
    destruct (parse_property_runs a t (ch_comma :: T ++ rest) (mkQuery [] (cq_attrs s) (cq_abs s)) Ha) as (b & Hrun);
      [right; by right|].
    cbn [query_loop]. cbn [app] in *. rewrite H0. eapply goes_bind; [apply runs_modify|done|].
    eapply goes_bind; [rewrite Hstar; exact Hrun|done|]. cbv beta iota zeta. cbn [deref hd tl Z.eqb Pos.eqb].
    assert (HT : item_first T).
    { apply Forall_cons in Hl as [Hx _]. subst T. rewrite sep_text_cons. apply property_first in Hx.
      destruct (snd x); [done|]. exact Hx. }
    destruct (item_first_ok T rest HT) as (-> & _ & _).
    rewrite length_app in Hf. cbn [length] in Hf.
    apply (IH fuel rest (a :: acc) (mkQuery b (cq_attrs s) (cq_abs s)) L); [lia|].
    replace (rev (fst x :: map fst l) ++ a :: acc) with (rev (a :: fst x :: map fst l) ++ acc); [exact Hk|].
    cbn [rev map]. by rewrite <- !app_assoc.
Qed.

Lemma part_loop p t : part_text p t -> forall fuel rest s L, (length (t ++ rest) < fuel)%nat ->
  after_part rest (code_part p) s L -> goes (query_loop fuel (t ++ rest) []) s L.
Proof.
  assert (Hw : forall v rest s, v = [ch_star] \/ v = [ch_star; ch_star] ->
    (v = [ch_star] -> deref rest <> ch_star) -> (deref rest = 0 \/ deref rest = ch_slash) ->
    runs (let! q := parse_wildcard (v ++ rest) in let! value := str_dup in ret (mkAttr None value, q)) s
      (mkAttr None v, rest) (mkQuery (v ++ [0]) (cq_attrs s) (cq_abs s))).
  { intros v rest s Hv Hns Hr. unfold parse_wildcard.
    assert (Hgo : runs (str_reset ;! add_char (deref (v ++ rest)) ;!
        let! c := (if deref (tl (v ++ rest)) =? ch_star then add_char (deref (tl (v ++ rest))) ;! ret (tl (tl (v ++ rest)))
                   else ret (tl (v ++ rest))) in
        if negb (deref c =? 0) && negb (deref c =? ch_slash) then syntax_error else add_char 0 ;! ret c) s
        rest (mkQuery (v ++ [0]) (cq_attrs s) (cq_abs s))).
    { eapply runs_bind; [apply runs_modify|]. eapply runs_bind; [apply runs_modify|].
      destruct Hv as [-> | ->]; cbn [app deref hd tl].
      - rewrite (proj2 (Z.eqb_neq _ _)) by (by apply Hns). eapply runs_bind; [apply runs_ret|].
        destruct Hr as [-> | ->]; by (eapply runs_bind; [apply runs_modify|apply runs_ret]).
      - rewrite Z.eqb_refl. eapply runs_bind; [eapply runs_bind; [apply runs_modify|apply runs_ret]|].
        destruct Hr as [-> | ->]; by (eapply runs_bind; [apply runs_modify|apply runs_ret]). }
    eapply runs_bind; [exact Hgo|]. eapply runs_bind; [apply runs_gets|]. cbn [cq_str].
    rewrite cstr_nonzero by (destruct Hv as [-> | ->]; by repeat constructor). apply runs_ret. }
  intros Hp fuel rest s L Hf Hk.
  assert (Hr : rest = [] \/ exists r, rest = ch_slash :: r) by (destruct Hk as [[-> _]|(r & -> & _)]; eauto).
  assert (Hd : deref rest = 0 \/ deref rest = ch_slash) by (destruct Hr as [->|[r ->]]; auto).
  assert (Hns : deref rest <> ch_star) by (by destruct Hd as [-> | ->]).
  destruct Hp as [| |l Hne Hl].
  - destruct fuel as [|fuel]; [lia|]. eapply (after_item _ (mkAttr None [ch_star]));
      [apply (Hw [ch_star] rest (mkQuery [] (cq_attrs s) (cq_abs s))); auto|exact Hk|cbn [app length] in Hf; lia|done|done].
  - destruct fuel as [|fuel]; [lia|]. eapply (after_item _ (mkAttr None [ch_star; ch_star]));
      [apply (Hw [ch_star; ch_star] rest (mkQuery [] (cq_attrs s) (cq_abs s))); auto|exact Hk|cbn [app length] in Hf; lia|done|done].
  - apply props_loop; [done|done|done|]. by rewrite app_nil_r.
Qed.

Lemma part_first p t r : part_text p t -> no_item (t ++ r) = false.
Proof.
  destruct 1 as [| |l Hne Hl]; [done|done|]. destruct l as [|[a t] l]; [done|]. apply Forall_cons in Hl as [Ha _].
  cbn [map snd]. rewrite sep_text_cons, <- (assoc_L (++)). apply item_first_ok. by eapply property_first.
Qed.

Lemma parts_loop l : l <> [] -> Forall (fun x => part_text (fst x) (snd x)) l ->
  forall fuel s, (length (slash_text (map snd l)) < fuel)%nat ->
  goes (query_loop fuel (slash_text (map snd l)) []) s (rev (map code_part (map fst l)) ++ cq_attrs s).
Proof.
  intros Hne Hl. induction Hl as [|[p t] l Hp Hl IH]; intros fuel s Hf; [done|]. cbn [map fst snd rev] in *.
  destruct l as [|x l].
  - cbn [map slash_text] in *. rewrite <- (app_nil_r t) in Hf |- *. eapply part_loop; [done|done|]. by left.
  - clear Hne. specialize (IH ltac:(done)). cbn [map] in *.
    change (slash_text (t :: snd x :: map snd l)) with (t ++ ch_slash :: slash_text (snd x :: map snd l)) in *.
    eapply part_loop; [done|done|]. right. eexists. split; [done|]. split.
    + apply Forall_cons in Hl as [Hx _]. destruct l as [|y l]; cbn [map slash_text].
      * rewrite <- (app_nil_r (snd x)). by eapply part_first.
      * by eapply part_first.
    + intros f b Hlen. rewrite <- (assoc_L (++)).
      apply (IH f (mkQuery b (code_part p :: cq_attrs s) (cq_abs s))). exact Hlen.
Qed.

Lemma grammar_runs abs parts t s :
  query_text abs parts t -> exists b, runs (parse_context_query (Some t)) s tt (mkQuery b (rev (map code_part parts)) abs).
Proof.
  intros (l & Hne & Hl & <- & ->).
  assert (Hfirst : forall r, no_item (slash_text (map snd l) ++ r) = false).
  { intros r. destruct l as [|[p t] l]; [done|]. apply Forall_cons in Hl as [Hp _]. cbn [map snd].
    destruct l as [|y l]; cbn [map slash_text]; [by eapply part_first|]. rewrite <- (assoc_L (++)). by eapply part_first. }
  pose proof (Hfirst []) as H0. rewrite app_nil_r in H0. destruct (no_item_cons _ H0) as (ch & q' & Eq & Hch).
  destruct (parts_loop l Hne Hl (S (length (slash_text (map snd l)))) (mkQuery [] [] abs) ltac:(lia)) as (b & Hrun).
  cbn [cq_attrs cq_abs] in Hrun. rewrite app_nil_r in Hrun. exists b.
  eapply runs_bind; [done|]. destruct abs; cbn [app deref hd].
  - eapply runs_bind; [done|]. cbn [deref hd Z.eqb Pos.eqb tl]. cbv zeta. rewrite H0. exact Hrun.
  - assert (Hs : deref (slash_text (map snd l)) <> ch_slash).
    { intros E. unfold no_item in H0. by rewrite E in H0. }
    rewrite (proj2 (Z.eqb_neq (deref _) 0)) by (by rewrite Eq). cbv zeta. rewrite (proj2 (Z.eqb_neq _ _) Hs).
    eapply runs_bind; [done|]. rewrite H0. exact Hrun.
Qed.

(** A query of the documented grammar is parsed to the parts it is made of, whatever way its
    strings are written: the parts are kept from the last one to the first, the properties of a part
    too. *)
Theorem context_query_grammar abs parts t s :
  query_text abs parts t -> exists b, runs (parse_context_query (Some t)) s tt (mkQuery b (rev (map code_part parts)) abs).
Proof. apply grammar_runs. Qed.

(** ** Matching *)

Section Matching.
Context {Ctx : Type}.
Variable comparators : list (Comparator Ctx).

(** A context has a property, or a name, by the comparators. *)
Definition has_property (c : Ctx) (a : Attribute) : Prop := match_attribute comparators c (default (str "Name") (at_name a)) (at_value a) = true.

Definition context_matches (c : Ctx) (p : QueryPart) : Prop :=
  match p with
  | AnyContext => True
  | AnyPath => False
  | Properties l => Forall (has_property c) l
  end.

(** A path of contexts matches a sequence of parts: "**" matches any sequence of contexts, any other
    part one context with its properties.  Both lists begin with the last element. *)
Inductive path_matches : list QueryPart -> list Ctx -> Prop :=
| pm_nil : path_matches [] []
| pm_one p ps c cs : context_matches c p -> path_matches ps cs -> path_matches (p :: ps) (c :: cs)
| pm_any ps l cs : path_matches ps cs -> path_matches (AnyPath :: ps) (l ++ cs).

(** A context, with its ancestors, matches a query: some path that ends with it does, the path from
    the root if the query begins with a slash. *)
Definition query_matches (abs : bool) (ps : list QueryPart) (path : list Ctx) : Prop :=
  exists l rest, path = l ++ rest /\ path_matches ps l /\ (abs = true -> rest = []).

(** No context is asked for by the name "*" or "**", which only quotes can write. *)
Definition plain_part (p : QueryPart) : Prop :=
  match p with
  | Properties l => Forall (fun a => at_name a = None -> at_value a <> [ch_star] /\ at_value a <> [ch_star; ch_star]) l
  | _ => True
  end.

(** The queries on which the code and the documentation agree: no names that are wildcards, and the first part is not "**" unless it is the only one. *)
Definition plain_query (parts : list QueryPart) : Prop :=
  Forall plain_part parts /\ (length parts = 1%nat \/ match parts with p :: _ => p <> AnyPath | [] => True end).

(** ** What the matcher of the code does with the parts it keeps *)

Inductive walk_matches : list part -> list Ctx -> Prop :=
| wm_nil : walk_matches [] []
| wm_one p ps c cs : any_path p = false -> match_attrs comparators c p = true -> walk_matches ps cs -> walk_matches (p :: ps) (c :: cs)
| wm_any p ps l cs : any_path p = true -> walk_matches ps cs -> walk_matches (p :: ps) (l ++ cs).

Definition walk_query (abs : bool) (ps : list part) (path : list Ctx) : Prop :=
  exists l rest, path = l ++ rest /\ walk_matches ps l /\ (abs = true -> rest = []).

Lemma path_nonempty p0 ps : last ps = Some p0 -> any_path p0 = false -> ~ walk_matches ps [].
Proof.
  revert p0. induction ps as [|p ps IH]; intros p0 Hl Hp H; [done|]. inversion H as [| |p' ps' l cs Ha Hm E1 E2]. subst.
  apply app_eq_nil in E2 as [-> ->]. destruct ps as [|q ps].
  - cbn in Hl. congruence.
  - by apply (IH p0).
Qed.

Lemma any_ancestor_spec (f : Ctx -> list Ctx -> bool) cs :
  any_ancestor f cs = true <-> exists l c cs', cs = l ++ c :: cs' /\ f c cs' = true.
Proof.
  induction cs as [|c cs IH]; cbn [any_ancestor].
  - split; [done|]. intros (l & c & cs' & E & _). by destruct l.
  - rewrite orb_true_iff, IH. split.
    + intros [H|(l & c' & cs' & -> & H)]; [by exists [], c, cs|]. by exists (c :: l), c', cs'.
    + intros ([|c1 l] & c' & cs' & E & H); cbn [app] in E; injection E as -> ->; [by left|right].
      by exists l, c', cs'.
Qed.

(** "**" in front of parts that match some context. *)
Lemma query_any abs p ps ctx cs p0 : any_path p = true -> last ps = Some p0 -> any_path p0 = false ->
  walk_query abs (p :: ps) (ctx :: cs) <->
  walk_query abs ps (ctx :: cs) \/ exists l c cs', cs = l ++ c :: cs' /\ walk_query abs ps (c :: cs').
Proof.
  intros Hp Hl H0. split.
  - intros (l & rest & E & Hm & Ha). inversion Hm as [| |q qs l1 l2 Hq Hm2 E1 E2]; simplify_eq/=; [congruence|].
    destruct l2 as [|c l2]; [by destruct (path_nonempty _ _ Hl H0)|].
    rewrite <- (assoc_L (++)) in E. destruct l1 as [|c1 l1]; cbn [app] in E; injection E as -> ->.
    + left. by exists (c :: l2), rest.
    + right. exists l1, c, (l2 ++ rest). split; [done|]. by exists (c :: l2), rest.
  - intros [(l & rest & E & Hm & Ha)|(l & c & cs' & -> & (l2 & rest & E & Hm & Ha))].
    + exists l, rest. split_and!; [done| |done]. by apply (wm_any p ps []).
    + exists (ctx :: l ++ l2), rest. split_and!; [cbn; rewrite <- (assoc_L (++)); by rewrite <- E| |done].
      by apply (wm_any p ps (ctx :: l)).
Qed.

Lemma match_parts_spec abs ps p ctx cs :
  (ps <> [] -> exists p0, last (p :: ps) = Some p0 /\ any_path p0 = false) ->
  match_parts comparators abs p ps ctx cs = true <-> walk_query abs (p :: ps) (ctx :: cs).
Proof.
  revert p ctx cs. induction ps as [|p' ps IH]; intros p ctx cs H0; cbn [match_parts].
  - clear H0. destruct (any_path p) eqn:Hp.
    + split; [intros _|done]. exists (ctx :: cs), []. split_and!; [by rewrite app_nil_r| |done].
      rewrite <- (app_nil_r (ctx :: cs)). apply wm_any; [done|constructor].
    + rewrite andb_true_iff, negb_true_iff, andb_false_iff, negb_false_iff, Nat.eqb_eq. split.
      * intros [Ha Hm]. exists [ctx], cs. split_and!; [done|by apply wm_one; [..|constructor]|].
        intros ->. destruct Ha as [|Ha]; [done|]. by destruct cs.
      * intros (l & rest & E & Hm & Ha). inversion Hm as [|q qs c l' Hq Hm1 Hm2 E1 E2|]; simplify_eq/=; [|congruence].
        inversion Hm2; subst. split; [|done]. destruct abs; [right|by left]. by rewrite Ha.
  - assert (H0' : exists p0, last (p' :: ps) = Some p0 /\ any_path p0 = false).
    { destruct (H0 ltac:(done)) as (p0 & Hl & Hp0). exists p0. done. }
    assert (IH' : forall c cs, match_parts comparators abs p' ps c cs = true <-> walk_query abs (p' :: ps) (c :: cs)).
    { intros c cs'. apply IH. by intros _. }
    destruct H0' as (p0 & Hl & Hp0). destruct (any_path p) eqn:Hp.
    + rewrite orb_true_iff, any_ancestor_spec, (query_any _ _ _ _ _ p0) by done. rewrite IH'. split.
      * intros [H|(l & c & cs' & -> & H)]; [by left|right]. exists l, c, cs'. by rewrite <- IH'.
      * intros [H|(l & c & cs' & -> & H)]; [by left|right]. exists l, c, cs'. by rewrite IH'.
    + rewrite andb_true_iff. destruct cs as [|c cs].
      * split; [by intros [? _]|]. intros (l & rest & E & Hm & Ha). exfalso.
        inversion Hm as [|q qs c l' Hq Hm1 Hm2 E1 E2|]; simplify_eq/=; [|congruence].
        destruct l' as [|c1 l']; [|done]. by destruct (path_nonempty _ _ Hl Hp0).
      * rewrite IH'. split.
        -- intros [(l & rest & E & Hm & Ha) Hc]. exists (ctx :: l), rest. split_and!; [by rewrite E| |done]. by apply wm_one.
        -- intros (l & rest & E & Hm & Ha). inversion Hm as [|q qs c' l' Hq Hm1 Hm2 E1 E2|]; simplify_eq/=; [|congruence].
           split; [|done]. by exists l', rest.
Qed.

(** ** The matcher and the documentation *)

Lemma plain_any_path p : plain_part p -> any_path (code_part p) = true <-> p = AnyPath.
Proof.
  destruct p as [| |l]; [done|done|]. intros Hl. split; [|done]. intros H. exfalso. cbn [code_part plain_part] in *.
  assert (Hr : Forall (fun a => at_name a = None -> at_value a <> [ch_star] /\ at_value a <> [ch_star; ch_star]) (rev l)) by (rewrite rev_alt; by apply Forall_reverse).
  destruct (rev l) as [|a l']; [done|]. apply Forall_cons in Hr as [Ha _]. cbn in H. destruct (at_name a); [done|].
  destruct (streq_spec (at_value a) [ch_star; ch_star]) as [E|]; [|done]. by destruct (Ha eq_refl).
Qed.

Lemma plain_match_attrs p c : plain_part p -> p <> AnyPath -> match_attrs comparators c (code_part p) = true <-> context_matches c p.
Proof.
  destruct p as [| |l]; [done|done|]. intros Hl _. cbn [code_part context_matches plain_part] in *. unfold match_attrs. rewrite forallb_forall, Forall_forall. rewrite Forall_forall in Hl.
  split; intros H a Ha.
  - specialize (H a). rewrite <- in_rev in H. apply list_elem_of_In in Ha as Ha'. specialize (H Ha'). unfold has_property. destruct (at_name a) eqn:En; [done|].
    destruct (Hl a Ha En) as [Hs _]. apply orb_true_iff in H as [H|H]; [|done]. by destruct (streq_spec (at_value a) [ch_star]).
  - rewrite <- in_rev in Ha. apply list_elem_of_In in Ha. specialize (H a Ha). unfold has_property in H. destruct (at_name a); [done|]. cbn [default] in H. apply orb_true_iff. by right.
Qed.

Lemma walk_path ps l : Forall plain_part ps -> walk_matches (map code_part ps) l <-> path_matches ps l.
Proof.
  intros Hp. split.
  - intros H. remember (map code_part ps) as qs eqn:E. revert ps Hp E.
    induction H as [|q qs c cs Ha Hm H IH|q qs l cs Ha H IH]; intros [|p ps] Hp E; cbn [map] in E; simplify_eq; [constructor|..]; apply Forall_cons in Hp as [Hp1 Hp].
    + assert (Hn : p <> AnyPath) by (intros ->; done). apply pm_one; [by apply plain_match_attrs|by apply IH].
    + apply plain_any_path in Ha as ->; [|done]. apply pm_any. by apply IH.
  - intros H. induction H as [|p ps c cs Hm H IH|ps l cs H IH]; [constructor|..]; apply Forall_cons in Hp as [Hp1 Hp]; cbn [map].
    + assert (Hn : p <> AnyPath) by (intros ->; done). apply wm_one; [|by apply plain_match_attrs|by apply IH].
      destruct (any_path (code_part p)) eqn:E; [|done]. by apply plain_any_path in E.
    + apply wm_any; [done|by apply IH].
Qed.

Lemma walk_query_matches abs ps path : Forall plain_part ps -> walk_query abs (map code_part ps) path <-> query_matches abs ps path.
Proof. intros Hp. unfold walk_query, query_matches. by setoid_rewrite walk_path. Qed.

Lemma query_run_matches t abs (parts : list QueryPart) ctx ancestors s :
  query_text abs parts t -> plain_query parts ->
  fst (context_query comparators ctx ancestors (Some t) s) = true <-> query_matches abs (rev parts) (ctx :: ancestors).
Proof.
  intros Ht [Hpl Hp]. destruct (grammar_runs abs parts t s Ht) as (b & Hrun). unfold context_query. rewrite Hrun. cbn [fst snd run_context_query cq_attrs cq_abs].
  rewrite <- walk_query_matches by (rewrite rev_alt; by apply Forall_reverse). rewrite map_rev.
  destruct parts as [|p0 parts _] using rev_ind.
  - destruct Ht as ([|x l] & Hne & _ & E & _); done.
  - unfold run_context_query. cbn [cq_attrs cq_abs]. rewrite map_app. cbn [map]. rewrite rev_unit. apply match_parts_spec.
    intros Hne. destruct parts as [|p parts]; [done|]. exists (code_part p). cbn [map rev]. rewrite app_comm_cons, last_snoc.
    split; [done|]. apply Forall_cons in Hpl as [Hp1 _]. destruct Hp as [Hp|Hp]; [rewrite length_app in Hp; cbn in Hp; lia|].
    destruct (any_path (code_part p)) eqn:E; [|done]. by apply plain_any_path in E.
Qed.

(** C32: A context matches a query exactly when the documentation says so: when the path of contexts
    that leads to it can be divided among the parts of the query, "**" taking any sequence of contexts, "*" one
    context and properties one context that has all of them, a string without a property being the name of the context; the path begins at the root
    if the query begins with a slash.  This is for queries whose first part is not "**" unless it is the only one, and
    which do not ask for a context by the quoted name "*" or "**": there the code differs from the documentation
    ([context_query_divergences]). *)
Theorem context_query_matches t abs (parts : list QueryPart) ctx ancestors s :
  query_text abs parts t -> plain_query parts ->
  fst (context_query comparators ctx ancestors (Some t) s) = true <-> query_matches abs (rev parts) (ctx :: ancestors).
Proof. apply query_run_matches. Qed.
End Matching.
