(* ===== verification/ContextService.v ===== *)
(** * The ContextQuery service (services/contextquery.c)

    The commands of the service, from the text of the request to the text of the reply, and what the
    documentation of queries does not say. *)

From S2P Require Import Prelude Streams JsonWrite JsonRead JsonStruct ChannelOut ContextQuery ContextProps.

(** ** Texts of replies *)

Definition ids_text (cnt : nat) (ids : list (list Z)) : list Z :=
  match ids with
  | [] => []
  | _ => (if (0 <? cnt)%nat then [ch_comma] else []) ++ sep_text (map (fun id => string_text (Some id)) ids)
  end.

(** A reply with a list of strings. *)
Definition reply_text (token : list Z) (ids : list (list Z)) : list Z :=
  str "R" ++ [0] ++ token ++ [0] ++ [0] ++ array_text (map (fun id => string_text (Some id)) ids) ++
  [0; MARKER_EOM].

Section Replies.
Context {OS : Type} `{OutputStreamLaws OS}.

Lemma writes_strings cnt ids : Forall writable ids -> writes (write_strings cnt ids) (ids_text cnt ids).
Proof.
  intros Hids. revert cnt. induction Hids as [|id ids Hid Hids IH]; intros cnt; [apply writes_ret|].
  cbn [write_strings]. assert (E : ids_text cnt (id :: ids) =
    (if (0 <? cnt)%nat then [ch_comma] else []) ++ string_text (Some id) ++ ids_text (S cnt) ids).
  { unfold ids_text. cbn [map]. rewrite sep_text_cons. f_equal. f_equal. by destruct ids. }
  rewrite E. apply writes_bind; [destruct_if; [apply writes_byte; unfold is_byte; lia|apply writes_ret]|].
  apply writes_bind; [by apply writes_json_string|]. apply IH.
Qed.

Lemma writes_reply (werr : Z -> M OS unit) token ids :
  bytes token -> Forall writable ids -> os_sym MARKER_EOM ->
  writes (write_stringz (str "R") ;! write_stringz token ;! write_errno werr 0 ;! write_stream ch_lbra ;!
          write_strings 0 ids ;! write_stream ch_rbra ;! write_stream 0 ;! write_stream MARKER_EOM)
    (reply_text token ids).
Proof.
  intros Ht Hids Hm.
  assert (E : array_text (map (fun id => string_text (Some id)) ids) = ch_lbra :: ids_text 0 ids ++ [ch_rbra]).
  { unfold array_text. f_equal. f_equal. by destruct ids. }
  assert (Er : reply_text token ids =
    (str "R" ++ [0]) ++ (token ++ [0]) ++ [0] ++ ch_lbra :: ids_text 0 ids ++ [ch_rbra; 0; MARKER_EOM]).
  { unfold reply_text. rewrite E. cbn [app str]. by rewrite <- !app_assoc. }
  rewrite Er.
  apply writes_bind; [by apply writes_stringz_lem, str_bytes|].
  apply writes_bind; [by apply writes_stringz_lem|].
  apply writes_bind; [apply writes_no_error|].
  apply writes_cons; [unfold is_byte; lia|]. apply writes_bind; [by apply writes_strings|].
  apply writes_cons; [unfold is_byte; lia|]. apply writes_cons; [unfold is_byte; lia|].
  by apply writes_stream.
Qed.
End Replies.

(** ** The query command *)

Section QueryCommand.
Context {IS OS Ctx : Type} `{InputStreamLaws IS} `{OutputStreamLaws OS} `{QueryContext Ctx}.

Lemma query_results_filter comparators s (contexts : list (Ctx * list Ctx)) :
  query_results comparators s contexts =
    map (fun x => qc_id (fst x))
      (List.filter (fun x => negb (qc_exited (fst x)) && run_context_query comparators (fst x) (snd x) s) contexts).
Proof.
  induction contexts as [|[ctx anc] l IH]; cbn [query_results List.filter fst snd]; [done|].
  destruct (qc_exited ctx); cbn [negb andb]; [done|]. destruct (run_context_query comparators ctx anc s); cbn; by rewrite IH.
Qed.

Lemma on_cinp_runs {A} (m : M (Json IS) A) (st : CommandState (IS := IS) (OS := OS)) a i :
  runs m (cs_inp st) a i -> runs (on_cinp m) st a (mkCommand i (cs_out st) (cs_query st)).
Proof. exact (runs_zoom cs_inp (fun i s => mkCommand i (cs_out s) (cs_query s)) m st a i). Qed.

Lemma on_cout_runs {A} (m : M OS A) (st : CommandState (IS := IS) (OS := OS)) a o :
  runs m (cs_out st) a o -> runs (on_cout m) st a (mkCommand (cs_inp st) o (cs_query st)).
Proof. exact (runs_zoom cs_out (fun o s => mkCommand (cs_inp s) o (cs_query s)) m st a o). Qed.

Definition head_text (token : list Z) : list Z := str "R" ++ [0] ++ token ++ [0] ++ [0] ++ [ch_lbra].

Lemma writes_head (werr : Z -> M OS unit) token : bytes token ->
  writes (write_stringz (str "R") ;! write_stringz token ;! write_errno werr 0 ;! write_stream ch_lbra) (head_text token).
Proof.
  intros Ht. unfold head_text. rewrite (app_assoc (str "R")). apply writes_bind; [by apply writes_stringz_lem, str_bytes|].
  rewrite (app_assoc token). apply writes_bind; [by apply writes_stringz_lem|].
  apply writes_bind; [apply writes_no_error|]. apply writes_byte. unfold is_byte. lia.
Qed.

Lemma writes_tail : os_sym MARKER_EOM ->
  writes (OS := OS) (write_stream ch_rbra ;! write_stream 0 ;! write_stream MARKER_EOM) [ch_rbra; 0; MARKER_EOM].
Proof. intros Hm. do 2 (apply writes_cons; [unfold is_byte; lia|]). by apply writes_stream. Qed.

Lemma reply_parts token ids :
  reply_text token ids = head_text token ++ ids_text 0 ids ++ [ch_rbra; 0; MARKER_EOM].
Proof.
  unfold reply_text, head_text, array_text. assert (E : sep_text (map (fun id => string_text (Some id)) ids) = ids_text 0 ids).
  { by destruct ids. } rewrite E. cbn [app str]. by rewrite <- !app_assoc.
Qed.

(** C31: The query command replies to a request with a query of the documented grammar with the
    identifiers of exactly the contexts that have not exited and match the query as the documentation says, in the order of the
    list of contexts, as an array of strings.  The first part of the query is not "**" unless it is the only one, and no
    context is asked for by the quoted name "*" or "**", which are queries the code takes in another way. *)
Theorem command_query_replies fuel (werr : Z -> M OS unit) comparators (contexts : list (Ctx * list Ctx)) token
    t abs (parts : list QueryPart) (st : CommandState (IS := IS) (OS := OS)) rest l :
  query_text abs parts t -> bytes t -> nonzero t -> (length t < fuel)%nat ->
  plain_query parts ->
  bytes token -> os_sym MARKER_EOM -> Forall (fun x => writable (qc_id (fst x))) contexts ->
  yields (js_inp (cs_inp st)) (string_text (Some t) ++ [MARKER_EOA; MARKER_EOM] ++ rest) -> emits (cs_out st) l ->
  exists st' matching,
    runs (command_query fuel werr token comparators contexts) st tt st' /\
    (forall x, matching x = true <-> query_matches comparators abs (rev parts) (fst x :: snd x)) /\
    yields (js_inp (cs_inp st')) rest /\
    emits (cs_out st') (l ++ reply_text token (map (fun x => qc_id (fst x))
      (List.filter (fun x => negb (qc_exited (fst x)) && matching x) contexts))).
Proof.
  intros Ht Hb Hz Hf Hp Htok Hm Hids Hy He.
  assert (Hf0 : (0 < fuel)%nat) by lia.
  destruct (reads_alloc_string fuel (Some t) (cs_inp st) ([MARKER_EOA; MARKER_EOM] ++ rest) (conj Hb Hf) Hf0 Hy)
    as (j1 & R1 & Y1). cbn [option_map app] in R1, Y1.
  destruct (json_test_char_runs fuel MARKER_EOA j1 (MARKER_EOM :: rest) eq_refl Hf0 Y1) as (j2 & R2 & Y2).
  destruct (json_test_char_runs fuel MARKER_EOM j2 rest eq_refl Hf0 Y2) as (j3 & R3 & Y3).
  destruct (grammar_runs abs parts t (cs_query st) Ht) as (b & Hparse).
  set (q := mkQuery b (rev (map code_part parts)) abs) in *.
  set (ids := query_results comparators q contexts).
  assert (Hw : Forall writable ids).
  { subst ids. rewrite query_results_filter. apply Forall_forall. intros id Hin.
    apply list_elem_of_fmap in Hin as (x & -> & Hx). apply list_elem_of_In, filter_In in Hx as [Hx _].
    rewrite Forall_forall in Hids. by apply Hids, list_elem_of_In. }
  destruct (writes_head werr token Htok (cs_out st) l He) as (o1 & W1 & E1).
  destruct (writes_strings 0 ids Hw o1 _ E1) as (o2 & W2 & E2).
  destruct (writes_tail Hm o2 _ E2) as (o3 & W3 & E3).
  exists (mkCommand j3 o3 q), (fun x => run_context_query comparators (fst x) (snd x) q). split_and!; [| |done|].
  - unfold command_query. eapply runs_bind; [by apply on_cinp_runs|]. cbn [option_map].
    eapply runs_bind; [by apply on_cinp_runs|]. eapply runs_bind; [by apply on_cinp_runs|].
    rewrite (cstr_nonzero t Hz). cbn [cs_inp cs_out cs_query].
    eapply (runs_bind _ _ _ 0 (mkCommand j3 (cs_out st) q)).
    { unfold runs, parse_query. cbn [cs_inp cs_out cs_query]. by rewrite Hparse. }
    eapply runs_bind; [by apply on_cout_runs|]. cbn [Z.eqb]. cbn [cs_inp cs_out cs_query].
    eapply runs_bind; [eapply runs_bind; [apply runs_gets|]; by apply on_cout_runs|]. by apply (on_cout_runs _ (mkCommand j3 o2 q)).
  - intros [ctx anc]. cbn [fst snd].
    pose proof (query_run_matches comparators t abs parts ctx anc (cs_query st) Ht Hp) as Hq.
    unfold context_query in Hq. by rewrite Hparse in Hq.
  - rewrite reply_parts, !app_assoc. rewrite <- query_results_filter. fold ids. by rewrite <- !app_assoc in E3 |- *.
Qed.
End QueryCommand.

(** ** What the documentation does not say *)

(** Ways in which the code differs from the documentation of queries: [context_query]
    returns true for every context when the query has a syntax error in its first part, as the result
    of the parser is not looked at; "**" in front of a part does not match the empty sequence of
    contexts, so a query such as "**/x" does not find a root context named x; what follows the
    closing quote of a name is taken for another property, with no comma; and the quoted names "*" and "**" match
    every context, whatever its name is. *)
Theorem context_query_divergences {Ctx} (comparators : list (Comparator Ctx)) ctx ancestors s :
  throws (parse_context_query (Some (str "a b"))) s ERR_OTHER /\
  fst (context_query comparators ctx ancestors (Some (str "a b")) s) = true /\
  (match_attribute comparators ctx (str "Name") (str "x") = true ->
   fst (context_query comparators ctx [] (Some (str "**/x")) s) = false /\
   query_matches comparators false [Properties [mkAttr None (str "x")]; AnyPath] [ctx] /\
   query_text false [AnyPath; Properties [mkAttr None (str "x")]] (str "**/x")) /\
  (exists b, runs (parse_context_query (Some ([ch_quote] ++ str "a" ++ [ch_quote] ++ str "b"))) s tt
    (mkQuery b [[mkAttr None (str "b"); mkAttr None (str "a")]] false)) /\
  (forall star, star = [ch_star] \/ star = [ch_star; ch_star] -> let t := [ch_quote] ++ star ++ [ch_quote] in
   query_text false [Properties [mkAttr None star]] t /\ fst (context_query comparators ctx ancestors (Some t) s) = true /\
   (match_attribute comparators ctx (str "Name") star = false -> ~ query_matches comparators false [Properties [mkAttr None star]] (ctx :: ancestors))).
Proof.
  split; [reflexivity|]. split; [reflexivity|]. split; [|split; [eexists; vm_compute; reflexivity|]].
  - intros Hm. split_and!; [done| |].
    + exists [ctx], []. split_and!; [done| |done]. apply pm_one; [by apply Forall_singleton|]. apply (pm_any _ [] [] []). constructor.
    + exists [(AnyPath, str "**"); (Properties [mkAttr None (str "x")], str "x")]. split_and!; [done| |done|done].
      repeat (apply Forall_cons; split); [constructor| |constructor].
      apply (pt_props [(mkAttr None (str "x"), str "x")]); [done|].
      apply Forall_singleton, pt_name, st_symbol; [done|by repeat constructor].
  - intros star Hstar t. split_and!.
    + exists [(Properties [mkAttr None star], t)]. split_and!; [done| |done|done]. apply Forall_singleton. apply (pt_props [(mkAttr None star, t)]); [done|].
      apply Forall_singleton, pt_name. cbn [fst snd]. subst t. destruct Hstar as [-> | ->]; [apply (st_quoted [ch_star])|apply (st_quoted [ch_star; ch_star])]; by repeat constructor.
    + destruct Hstar as [-> | ->]; destruct ancestors; reflexivity.
    + intros Hn (l & rest & E & Hm & _). inversion Hm as [|p ps c cs Hc _|]; subst. injection E as -> _. cbn in Hc. apply Forall_cons in Hc as [Hc _].
      unfold has_property in Hc. cbn [at_name at_value default from_option] in Hc. congruence.
Qed.

(** ** Witnesses *)

(** A context with a process identifier, and the comparator a back-end registers for it. *)
Record DemoContext := mkDemo { demo_id : list Z; demo_name : list Z; demo_pid : list Z; demo_exited : bool }.
#[export] Instance demo_context : QueryContext DemoContext :=
  {| qc_id := demo_id; qc_name c := Some (demo_name c); qc_exited := demo_exited |}.

Definition demo_comparators : list (Comparator DemoContext) :=
  add_context_query_comparator (str "pid") (fun _ c v => streq (demo_pid c) v) (ini_context_query_service []).

Definition demo_linux := mkDemo (str "L0") (str "Linux 2.6.14") (str "0") false.
Definition demo_httpd := mkDemo (str "P1") (str "httpd") (str "4711") false.
Definition demo_sshd := mkDemo (str "P2") (str "sshd") (str "12") false.
Definition demo_old := mkDemo (str "P3") (str "httpd") (str "4711") true.

(** [/"Linux 2.6.14"/pid=4711,httpd] *)
Definition demo_query : list Z :=
  [ch_slash; ch_quote] ++ str "Linux 2.6.14" ++ [ch_quote] ++ str "/pid=4711,httpd".
Definition demo_parts : list QueryPart :=
  [Properties [mkAttr None (str "Linux 2.6.14")]; Properties [mkAttr (Some (str "pid")) (str "4711"); mkAttr None (str "httpd")]].

Lemma demo_query_text : query_text true demo_parts demo_query.
Proof.
  exists [(Properties [mkAttr None (str "Linux 2.6.14")], [ch_quote] ++ str "Linux 2.6.14" ++ [ch_quote]);
          (Properties [mkAttr (Some (str "pid")) (str "4711"); mkAttr None (str "httpd")], str "pid=4711,httpd")].
  split_and!; [done| |done|done]. apply Forall_cons; split; [|apply Forall_singleton].
  - apply (pt_props [(mkAttr None (str "Linux 2.6.14"), [ch_quote] ++ str "Linux 2.6.14" ++ [ch_quote])]); [done|].
    apply Forall_singleton, pt_name. apply (st_quoted (str "Linux 2.6.14")). by repeat constructor.
  - apply (pt_props [(mkAttr (Some (str "pid")) (str "4711"), str "pid=4711"); (mkAttr None (str "httpd"), str "httpd")]); [done|].
    apply Forall_cons; split; [|apply Forall_singleton].
    + apply (pt_pair (str "pid") (str "4711") (str "pid") (str "4711")); [apply st_symbol; [done|by repeat constructor]|].
      apply vt_number; [done|by repeat constructor].
    + apply pt_name, st_symbol; [done|by repeat constructor].
Qed.

Lemma demo_plain : plain_query demo_parts.
Proof. split; [|by right]. apply Forall_cons; split; [|apply Forall_singleton]; cbn; repeat (apply Forall_cons; split; [by cbn|]); constructor. Qed.

Lemma context_query_grammar_witness :
  exists b, runs (parse_context_query (Some demo_query)) (mkQuery [] [] false) tt (mkQuery b (rev (map code_part demo_parts)) true).
Proof. apply context_query_grammar, demo_query_text. Defined.

Lemma context_query_matches_witness :
  fst (context_query demo_comparators demo_httpd [demo_linux] (Some demo_query) (mkQuery [] [] false)) = true /\
  query_matches demo_comparators true (rev demo_parts) [demo_httpd; demo_linux] /\
  ~ query_matches demo_comparators true (rev demo_parts) [demo_sshd; demo_linux].
Proof.
  split; [vm_compute; reflexivity|]. split.
  - apply (context_query_matches demo_comparators demo_query true demo_parts demo_httpd [demo_linux] (mkQuery [] [] false));
      [apply demo_query_text|apply demo_plain|vm_compute; reflexivity].
  - intros H. apply (context_query_matches demo_comparators demo_query true demo_parts demo_sshd [demo_linux] (mkQuery [] [] false)) in H;
      [vm_compute in H; discriminate|apply demo_query_text|apply demo_plain].
Defined.

Definition demo_contexts : list (DemoContext * list DemoContext) :=
  [(demo_linux, []); (demo_httpd, [demo_linux]); (demo_sshd, [demo_linux]); (demo_old, [demo_linux])].

Definition demo_state : CommandState (IS := ByteArrayInputStream) (OS := ChannelTCP) :=
  mkCommand (json_of (string_text (Some demo_query) ++ [MARKER_EOA; MARKER_EOM])) (new_output true) (mkQuery [] [] false).

Lemma command_query_replies_witness :
  exists st' matching,
    runs (command_query 100 (fun _ => ret tt) (str "1") demo_comparators demo_contexts) demo_state tt st' /\
    (forall x, matching x = true <-> query_matches demo_comparators true (rev demo_parts) (fst x :: snd x)) /\
    yields (js_inp (cs_inp st')) [] /\
    emits (cs_out st') ([] ++ reply_text (str "1") (map (fun x => qc_id (fst x))
      (List.filter (fun x => negb (qc_exited (fst x)) && matching x) demo_contexts))).
Proof.
  apply (command_query_replies 100 (fun _ => ret tt) demo_comparators demo_contexts (str "1") demo_query true demo_parts
    demo_state [] []).
  - apply demo_query_text.
  - repeat constructor; vm_compute; intuition discriminate.
  - by repeat constructor.
  - vm_compute. lia.
  - apply demo_plain.
  - apply str_bytes.
  - exact sym_eom.
  - repeat (apply Forall_cons; split; [apply str_writable; vm_compute; reflexivity|]). constructor.
  - exists 0%nat. cbn [replicate]. by rewrite !app_nil_r.
  - apply new_output_emits.
Defined.
