(* ===== verification/PathMap.v ===== *)
(** * Path mapping (services/pathmap.c)

    Rules that map file names, kept per channel; a rule has attributes, whose values are JSON texts,
    and the strings the attributes of known names stand for.  Strings are C strings without their
    terminating zero. *)

From S2P Require Import Prelude Streams JsonWrite JsonRead JsonStruct ContextQuery.

(** ** File names *)

Definition is_separator (c : Z) : bool := (c =? ch_slash) || (c =? ch_bslash).

(** Splits a reversed name at the first slash: the last component, also reversed, and the rest. *)
Fixpoint last_component (r : list Z) : list Z * list Z :=
  match r with
  | [] => ([], [])
  | c :: r' => if c =? ch_slash then ([], r) else let '(n, rest) := last_component r' in (c :: n, rest)
  end.

(** The removal of the last component of [buf], which ends with a slash: [None] if there is none, or
    it is "..". *)
Definition drop_component (rbuf : list Z) : option (list Z) :=
  match tl rbuf with
  | [] => None
  | c :: _ =>
      if c =? ch_slash then None
      else
        let '(n, rest) := last_component (tl rbuf) in
        if streq n [ch_dot] || streq n [ch_dot; ch_dot] then None else Some rest
  end.

(** The loop of [canonic_path_map_file_name]: [rbuf] is [buf[0 .. buf_pos)] in the reverse order,
    [buf_max] the size of the buffer; [None] is a write after the end of the buffer. *)
Fixpoint canonic_loop (fnm rbuf : list Z) (buf_max : nat) : option (list Z) :=
  let finish := if (length rbuf <? buf_max)%nat then Some (rev rbuf) else None in
  match fnm with
  | [] => finish
  | ch :: fnm =>
      let ch := if ch =? ch_bslash then ch_slash else ch in
      let store (_ : unit) :=
        let ch := if (length rbuf =? 0)%nat && (ch >=? ch_a) && (ch <=? ch_z) && (deref fnm =? ch_colon)
                  then ch - ch_a + ch_A else ch in
        let buf_max := if (buf_max <=? length rbuf + 1)%nat then (buf_max + 0x100)%nat else buf_max in
        if (length rbuf <? buf_max)%nat then canonic_loop fnm (ch :: rbuf) buf_max else None in
      if (ch =? ch_slash) && (2 <=? length rbuf)%nat && (deref rbuf =? ch_slash) then canonic_loop fnm rbuf buf_max
      else if (ch =? ch_slash) && (deref fnm =? 0) && (0 <? length rbuf)%nat && negb (deref rbuf =? ch_colon) then finish
      else if (ch =? ch_dot) && ((length rbuf =? 0)%nat || (deref rbuf =? ch_slash)) then
        match fnm with
        | c1 :: fnm1 =>
            if is_separator c1 then canonic_loop fnm1 rbuf buf_max
            else
              match fnm1 with
              | c2 :: fnm2 =>
                  if (0 <? length rbuf)%nat && (c1 =? ch_dot) && is_separator c2 then
                    match drop_component rbuf with
                    | Some rbuf' => if (length rbuf <? buf_max)%nat then canonic_loop fnm2 rbuf' buf_max else None
                    | None => store tt
                    end
                  else store tt
              | [] => store tt
              end
        | [] => store tt
        end
      else store tt
  end.

Definition canonic_path_map_file_name (fnm : list Z) : option (list Z) := canonic_loop fnm [] 0x100.

Definition is_absolute_path (fnm : list Z) : bool :=
  is_separator (deref fnm) ||
  (negb (deref fnm =? 0) && (deref (tl fnm) =? ch_colon) && is_separator (deref (tl (tl fnm)))).

(** ** Rules *)

(** A [char *] that owns its string; [Freed]: the string has been freed and the pointer has not been
    changed. *)
Inductive cptr := Null | Owned (s : list Z) | Freed.

(** [struct PathMapRuleAttribute]: a name and a JSON text. *)
Notation attribute := (list Z * list Z)%type.

Record PathMapRule := mkRule {
  pr_attrs : list attribute;
  pr_src : cptr;
  pr_dst : cptr;
  pr_host : cptr;
  pr_prot : cptr;
  pr_query : cptr;
  pr_ctx : cptr }.

Definition zero_rule : PathMapRule := mkRule [] Null Null Null Null Null Null.

Inductive field := FSrc | FDst | FProt | FHost | FQuery | FCtx.
#[export] Instance field_eq_dec : EqDecision field.
Proof. solve_decision. Defined.

Definition get_field (f : field) (r : PathMapRule) : cptr :=
  match f with
  | FSrc => pr_src r | FDst => pr_dst r | FHost => pr_host r
  | FProt => pr_prot r | FQuery => pr_query r | FCtx => pr_ctx r
  end.

Definition set_field (f : field) (p : cptr) (r : PathMapRule) : PathMapRule :=
  let '(mkRule a s d h o q c) := r in
  match f with
  | FSrc => mkRule a p d h o q c
  | FDst => mkRule a s p h o q c
  | FHost => mkRule a s d p o q c
  | FProt => mkRule a s d h p q c
  | FQuery => mkRule a s d h o p c
  | FCtx => mkRule a s d h o q p
  end.

Definition set_rule_attrs (a : list attribute) (r : PathMapRule) : PathMapRule :=
  mkRule a (pr_src r) (pr_dst r) (pr_host r) (pr_prot r) (pr_query r) (pr_ctx r).

(** The comparisons of a name with [PATH_MAP_SOURCE] and the other names. *)
Definition field_of (name : list Z) : option field :=
  if streq name (str "Source") then Some FSrc
  else if streq name (str "Destination") then Some FDst
  else if streq name (str "Protocol") then Some FProt
  else if streq name (str "Host") then Some FHost
  else if streq name (str "ContextQuery") then Some FQuery
  else if streq name (str "Context") then Some FCtx
  else None.

Notation R := (M PathMapRule).

(** [loc_free(r->f)]; freeing a string twice is a fault. *)
Definition free_field (f : field) : R unit :=
  let! p := gets (get_field f) in
  match p with
  | Null => ret tt
  | Owned _ => modify (set_field f Freed)
  | Freed => fault
  end.

(** [free_rule] *)
Definition free_rule : R unit :=
  free_field FSrc ;! free_field FDst ;! free_field FHost ;! free_field FProt ;! free_field FQuery ;!
  free_field FCtx ;!
  put zero_rule.

(** [json_read_alloc_string] from a byte array stream with the text of an attribute. *)
Definition read_value (value : list Z) : R cptr :=
  fun r =>
    match fst (json_read_alloc_string (length value + 2)
                 (mkJson (create_byte_array_input_stream value) [] 0%N)) with
    | Val (Some b) => (Val (Owned (cstr b)), r)
    | Val None => (Val Null, r)
    | Throw e => (Throw e, r)
    | Fault => (Fault, r)
    | NoFuel => (NoFuel, r)
    end.

(** The search for an old attribute by its name, and its removal from the list. *)
Fixpoint take_attr (name : list Z) (old : list attribute) : option (list Z * list attribute) :=
  match old with
  | [] => None
  | (n, v) :: old' =>
      if streq n name then Some (v, old')
      else match take_attr name old' with
           | Some (v', rest) => Some (v', (n, v) :: rest)
           | None => None
           end
  end.

Definition append_attr (a : attribute) : R unit := modify (fun r => set_rule_attrs (pr_attrs r ++ [a]) r).

(** A new attribute, or one with another value. *)
Definition new_value (name value : list Z) : R unit :=
  append_attr (name, value) ;!
  match field_of name with
  | Some f =>
      free_field f ;!
      let! p := read_value value in
      modify (set_field f p)
  | None => ret tt
  end.

(** The first loop of [update_rule]: the old attributes that are left, and [diff]. *)
Fixpoint update_loop (new_attrs old_attrs : list attribute) (diff : Z) : R (list attribute * Z) :=
  match new_attrs with
  | [] => ret (old_attrs, diff)
  | (name, value) :: new_attrs' =>
      match take_attr name old_attrs with
      | Some (old_value, old_attrs') =>
          if streq old_value value then
            append_attr (name, old_value) ;!
            update_loop new_attrs' old_attrs' diff
          else
            new_value name value ;!
            update_loop new_attrs' old_attrs' (diff + 1)
      | None =>
          new_value name value ;!
          update_loop new_attrs' old_attrs (diff + 1)
      end
  end.

(** The second loop: attributes that are no longer there. *)
Fixpoint remove_loop (old_attrs : list attribute) (diff : Z) : R Z :=
  match old_attrs with
  | [] => ret diff
  | (name, _) :: old_attrs' =>
      match field_of name with
      | Some f => free_field f ;! modify (set_field f Null)
      | None => ret tt
      end ;!
      remove_loop old_attrs' (diff + 1)
  end.

Definition update_rule (new_attrs : list attribute) : R Z :=
  let! old_attrs := gets pr_attrs in
  modify (set_rule_attrs []) ;!
  let! (old_attrs, diff) := update_loop new_attrs old_attrs 0 in
  remove_loop old_attrs diff.

(** ** Mapping *)

(** What the mapping of names reads of [struct Context]: the symbols group, its name and full name,
    and the ancestors, for queries. *)
Class MapContext (Ctx : Type) := {
  mc_query : QueryContext Ctx;
  mc_symbols : Ctx -> option Ctx;
  mc_full_name : Ctx -> list Z;
  mc_ancestors : Ctx -> list Ctx }.
#[export] Existing Instance mc_query.

Definition PATH_MAP_TO_CLIENT : Z := 1.
Definition PATH_MAP_TO_LOCAL : Z := 2.
Definition PATH_MAP_TO_TARGET : Z := 3.

(** [struct PathMap]: [pm_channel] is 0 for the rules of the agent, [pm_rules] is
    [rules[0 .. rules_cnt)]. *)
Record PathMap := mkMap { pm_channel : Z; pm_rules : list PathMapRule; pm_rules_max : Z }.

(** An event, to all channels and to one listener. *)
Inductive map_event :=
| MapChanged
| MappingChanged (args channel : Z).

(** The listeners: an identifier, whether [mapping_changed] is set, and the argument. *)
Record Listener := mkListener { li_listener : Z; li_has_callback : bool; li_args : Z }.

(** The static variables; [ps_events] is the history of events, [ps_posted] the number of
    [flush_host_name] events posted. *)
Record PathMaps := mkMaps {
  ps_maps : list PathMap;
  ps_host_name : list Z;
  ps_listeners : list Listener;
  ps_events : list map_event;
  ps_posted : nat }.

Notation PM := (M PathMaps).

Definition set_maps (l : list PathMap) (s : PathMaps) : PathMaps :=
  mkMaps l (ps_host_name s) (ps_listeners s) (ps_events s) (ps_posted s).

(** [path_map_event_mapping_changed] *)
Definition path_map_event_mapping_changed (c : Z) : PM unit :=
  modify (fun s => mkMaps (ps_maps s) (ps_host_name s) (ps_listeners s)
    (ps_events s ++ MapChanged ::
       map (fun l => MappingChanged (li_args l) c) (List.filter li_has_callback (ps_listeners s)))
    (ps_posted s)).

Definition event_path_map_changed `{OutputStream OS} : M OS unit :=
  write_stringz (str "E") ;!
  write_stringz (str "PathMap") ;!
  write_stringz (str "changed") ;!
  write_stream MARKER_EOM.

Definition add_path_map_event_listener (l : Listener) : PM unit :=
  modify (fun s => mkMaps (ps_maps s) (ps_host_name s) (ps_listeners s ++ [l]) (ps_events s) (ps_posted s)).

Fixpoint remove_listener (listener : Z) (l : list Listener) : list Listener :=
  match l with
  | [] => []
  | x :: l' => if li_listener x =? listener then l' else x :: remove_listener listener l'
  end.

Definition rem_path_map_event_listener (listener : Z) : PM unit :=
  modify (fun s => mkMaps (ps_maps s) (ps_host_name s) (remove_listener listener (ps_listeners s)) (ps_events s)
    (ps_posted s)).

Definition find_map (c : Z) (maps : list PathMap) : option PathMap :=
  List.find (fun m => pm_channel m =? c) maps.

(** A change of the map of a channel. *)
Fixpoint update_map (c : Z) (f : PathMap -> PathMap) (maps : list PathMap) : list PathMap :=
  match maps with
  | [] => []
  | m :: maps' => if pm_channel m =? c then f m :: maps' else m :: update_map c f maps'
  end.

(** [list_remove] of the map of a channel. *)
Fixpoint remove_map (c : Z) (maps : list PathMap) : list PathMap :=
  match maps with
  | [] => []
  | m :: maps' => if pm_channel m =? c then maps' else m :: remove_map c maps'
  end.

Definition flush_host_name : PM unit :=
  modify (fun s => mkMaps (ps_maps s) [] (ps_listeners s) (ps_events s) (ps_posted s)).

Section Mapping.
Context {Ctx : Type} `{MapContext Ctx}.
Variable comparators : list (Comparator Ctx).
(** The functions of the system: [gethostname], and [stat(fnm, &st) == 0]. *)
Variable gethostname : list Z.
Variable file_exists : list Z -> bool.
(** [proxy_get_host_channel]; 0 is a null pointer. *)
Variable proxy_get_host_channel : Z -> Z.

Definition is_my_host (host : option (list Z)) : PM bool :=
  match host with
  | None => ret true
  | Some h =>
      if deref h =? 0 then ret true
      else
        let! n := gets ps_host_name in
        (if deref n =? 0 then
           modify (fun s => mkMaps (ps_maps s) gethostname (ps_listeners s) (ps_events s)
             (if deref gethostname =? 0 then ps_posted s else S (ps_posted s)))
         else ret tt) ;!
        let! n := gets ps_host_name in
        ret (strcaseeq h n)
  end.

(** The use of a string of a rule. *)
Definition use (p : cptr) : PM (option (list Z)) :=
  match p with Null => ret None | Owned s => ret (Some s) | Freed => fault end.

(** The test of the [Context] attribute. *)
Definition context_ok (c : list Z) (ctx : option Ctx) : bool :=
  match ctx with
  | None => false
  | Some ctx =>
      match mc_symbols ctx with
      | None => false
      | Some syms =>
          streq c (qc_id syms) ||
          match qc_name syms with
          | Some n => streq c n || streq c (mc_full_name syms)
          | None => false
          end
      end
  end.

(** [s + k]; a pointer outside of the string is a fault. *)
Definition str_from (s : list Z) (k : Z) : PM (list Z) :=
  if (0 <=? k) && (k <=? Z.of_nat (length s)) then ret (drop (Z.to_nat k) s) else fault.

(** [s[k]] *)
Definition str_at (s : list Z) (k : Z) : PM Z :=
  let! r := str_from s k in ret (deref r).

(** The mapping by one rule whose conditions hold: [None] if it does not match. *)
Definition map_by_rule (r_src r_dst fnm : list Z) : PM (option (list Z)) :=
  match canonic_path_map_file_name r_src with
  | None => fault
  | Some src =>
      let k := uwrap 32 (Z.of_nat (length src)) in
      if negb (streq (take (length src) fnm) src) then ret None
      else
        let! c := str_at fnm k in
        if c =? 0 then ret (Some r_dst)
        else
          let last_dest_char := match last r_dst with Some ch => ch | None => 0 end in
          if negb (is_separator c) then
            let! skip :=
              (if negb (is_separator last_dest_char) then
                 let! last_src_char := (if k =? 0 then ret 0 else str_at r_src (k - 1)) in
                 ret (negb (is_separator last_src_char))
               else ret false) in
            if skip then ret None
            else let! rest := str_from fnm (uwrap 32 (k - 1)) in ret (Some (r_dst ++ rest))
          else
            let! rest := str_from fnm (if is_separator last_dest_char then k + 1 else k) in
            ret (Some (r_dst ++ rest))
  end.

(** The conditions of a rule, up to the comparison of names. *)
Definition rule_applies (ctx : option Ctx) (mode : Z) (r : PathMapRule) : PM bool :=
  let! prot := use (pr_prot r) in
  if match prot with Some p => negb (strcaseeq p (str "file")) | None => false end then ret false
  else
    let! host_ok :=
      (if mode =? PATH_MAP_TO_LOCAL then
         let! host := use (pr_host r) in
         match host with Some h => is_my_host (Some h) | None => ret true end
       else ret true) in
    if negb host_ok then ret false
    else
      let! c := use (pr_ctx r) in
      if match c with Some c => negb (context_ok c ctx) | None => false end then ret false
      else
        let! q := use (pr_query r) in
        match q with
        | None => ret true
        | Some q =>
            match ctx with
            | None => ret false
            | Some ctx => ret (fst (context_query comparators ctx (mc_ancestors ctx) (Some q) (mkQuery [] [] false)))
            end
        end.

(** [map_file_name]: [None] is the result [fnm]. *)
Fixpoint map_file_name (ctx : option Ctx) (rules : list PathMapRule) (fnm : list Z) (mode : Z) :
    PM (option (list Z)) :=
  match rules with
  | [] => ret None
  | r :: rules' =>
      let! src := use (pr_src r) in
      let! dst := use (pr_dst r) in
      match src, dst with
      | Some src, Some dst =>
          let! ok := rule_applies ctx mode r in
          if negb ok then map_file_name ctx rules' fnm mode
          else
            let! b := map_by_rule src dst fnm in
            match b with
            | Some buf =>
                if negb (mode =? PATH_MAP_TO_LOCAL) || file_exists buf then ret (Some buf)
                else map_file_name ctx rules' fnm mode
            | None => map_file_name ctx rules' fnm mode
            end
      | _, _ => map_file_name ctx rules' fnm mode
      end
  end.

(** The loop over all maps. *)
Fixpoint map_by_maps (ctx : option Ctx) (maps : list PathMap) (fnm : list Z) (mode : Z) : PM (option (list Z)) :=
  match maps with
  | [] => ret None
  | m :: maps' =>
      let! l := map_file_name ctx (pm_rules m) fnm mode in
      match l with Some l => ret (Some l) | None => map_by_maps ctx maps' fnm mode end
  end.

(** The map of a channel, if there is one. *)
Definition map_by_channel (ctx : option Ctx) (c : Z) (fnm : list Z) (mode : Z) : PM (option (list Z)) :=
  let! maps := gets ps_maps in
  match find_map c maps with
  | Some m => map_file_name ctx (pm_rules m) fnm mode
  | None => ret None
  end.

Definition apply_path_map (c : Z) (ctx : option Ctx) (fnm : list Z) (mode : Z) : PM (list Z) :=
  match canonic_path_map_file_name fnm with
  | None => fault
  | Some cnm =>
      let! l :=
        (if c =? 0 then
           let! maps := gets ps_maps in map_by_maps ctx maps cnm mode
         else
           let h := proxy_get_host_channel c in
           let! l := (if negb (h =? 0) then map_by_channel ctx h cnm mode else ret None) in
           match l with
           | Some l => ret (Some l)
           | None => map_by_channel ctx c cnm mode
           end) in
      ret (match l with Some l => l | None => fnm end)
  end.

End Mapping.

(** ** Changes of the rules *)

(** [rules_max] after a rule has been added at index [cnt]. *)
Definition grow_rules (cnt : nat) (m : PathMap) : PathMap :=
  if pm_rules_max m <=? Z.of_nat cnt
  then mkMap (pm_channel m) (pm_rules m) (if pm_rules_max m =? 0 then 8 else pm_rules_max m * 2)
  else m.

Definition map_set_rules (rules : list PathMapRule) (m : PathMap) : PathMap :=
  mkMap (pm_channel m) rules (pm_rules_max m).

(** A computation on rule [i] of the map of a channel. *)
Definition on_rule {A} (c : Z) (i : nat) (m : R A) : PM A :=
  fun s =>
    match find_map c (ps_maps s) with
    | Some pm =>
        match pm_rules pm !! i with
        | Some r =>
            let '(x, r') := m r in
            (x, set_maps (update_map c (fun pm => map_set_rules (<[i := r']> (pm_rules pm)) pm) (ps_maps s)) s)
        | None => (Fault, s)
        end
    | None => (Fault, s)
    end.

(** A zero rule is added to the map of a channel, which exists. *)
Definition add_rule (c : Z) (cnt : nat) : PM unit :=
  modify (fun s => set_maps (update_map c (fun pm =>
    let pm := grow_rules cnt pm in map_set_rules (pm_rules pm ++ [zero_rule]) pm) (ps_maps s)) s).

(** [create_path_mapping]: the rule is given by its index. *)
Definition create_path_mapping (attrs : list attribute) : PM nat :=
  let! maps := gets ps_maps in
  (match find_map 0 maps with
   | None => modify (set_maps (mkMap 0 [] 0 :: maps))
   | Some _ => ret tt
   end) ;!
  let! maps := gets ps_maps in
  let i := match find_map 0 maps with Some m => length (pm_rules m) | None => O end in
  add_rule 0 i ;!
  let! diff := on_rule 0 i (update_rule attrs) in
  (if negb (diff =? 0) then path_map_event_mapping_changed 0 else ret tt) ;!
  ret i.

Definition change_path_mapping_attributes (i : nat) (attrs : list attribute) : PM unit :=
  let! diff := on_rule 0 i (update_rule attrs) in
  if negb (diff =? 0) then path_map_event_mapping_changed 0 else ret tt.

Definition get_path_mapping_attributes (r : PathMapRule) : list attribute := pr_attrs r.

(** [free_rule] of rules that are taken out of their array. *)
Fixpoint free_rules (rules : list PathMapRule) : PM unit :=
  match rules with
  | [] => ret tt
  | r :: rules' => (fun s => (fst (free_rule r), s)) ;! free_rules rules'
  end.

Definition delete_path_mapping (i : nat) : PM unit :=
  let! maps := gets ps_maps in
  match find_map 0 maps with
  | Some m =>
      if (i <? length (pm_rules m))%nat then
        free_rules (take 1 (drop i (pm_rules m))) ;!
        modify (fun s => set_maps (update_map 0 (fun m => map_set_rules (delete i (pm_rules m)) m) (ps_maps s)) s) ;!
        path_map_event_mapping_changed 0
      else ret tt
  | None => ret tt
  end.

Definition delete_all_path_mappings : PM unit :=
  let! maps := gets ps_maps in
  match find_map 0 maps with
  | Some m =>
      if (0 <? length (pm_rules m))%nat then
        free_rules (pm_rules m) ;!
        modify (fun s => set_maps (update_map 0 (map_set_rules []) (ps_maps s)) s) ;!
        path_map_event_mapping_changed 0
      else ret tt
  | None => ret tt
  end.

(** [channel_close_listener]; [hello]: the state of the channel is [ChannelStateHelloReceived]. *)
Definition channel_close_listener (c : Z) (hello : bool) : PM unit :=
  if hello then ret tt
  else
    let! maps := gets ps_maps in
    match find_map c maps with
    | None => ret tt
    | Some m =>
        modify (set_maps (remove_map c maps)) ;!
        (if (0 <? length (pm_rules m))%nat then path_map_event_mapping_changed c else ret tt) ;!
        free_rules (pm_rules m)
    end.

(** ** The commands *)

(** The input of a channel together with the static variables, which the callbacks of the JSON
    readers change. *)
Record WithMaps (IS : Type) := mkWM { wm_inp : IS; wm_maps : PathMaps }.
Arguments mkWM {IS}.
Arguments wm_inp {IS}.
Arguments wm_maps {IS}.

#[export] Instance with_maps_stream `{InputStream IS} : InputStream (WithMaps IS) := {
  is_window s := is_window (wm_inp s);
  is_advance n s := mkWM (is_advance n (wm_inp s)) (wm_maps s);
  is_read := zoom wm_inp (fun i s => mkWM i (wm_maps s)) is_read;
  is_peek := zoom wm_inp (fun i s => mkWM i (wm_maps s)) is_peek }.

Section Commands.
Context {IS OS : Type} `{InputStream IS} `{OutputStream OS}.
Variable fuel : nat.

Notation J := (M (Json (WithMaps IS))).

Definition on_maps {A} (m : PM A) : J A :=
  zoom (fun s => wm_maps (js_inp s)) (fun pm s => mkJson (mkWM (wm_inp (js_inp s)) pm) (js_buf s) (js_size s)) m.

(** [read_rule_attrs]: the attribute is added at the end of the list. *)
Definition read_rule_attrs (name : list Z) (attrs : list attribute) : J (list attribute) :=
  let! value := json_read_object fuel in
  ret (attrs ++ [(name, cstr value)]).

(** [ReadRuleState]; [rr_map]: [map != NULL]. *)
Record ReadRuleState := mkRR { rr_channel : Z; rr_map : bool; rr_cnt : nat; rr_diff : bool }.

Definition read_rule (s : ReadRuleState) : J ReadRuleState :=
  let c := rr_channel s in
  (if rr_map s then ret tt
   else on_maps (modify (fun pm => set_maps (mkMap c [] 0 :: ps_maps pm) pm))) ;!
  let! rules_cnt := on_maps (gets (fun pm => match find_map c (ps_maps pm) with
                                             | Some m => length (pm_rules m) | None => O end)) in
  let i := rr_cnt s in
  let! diff :=
    (if (rules_cnt <? S i)%nat then on_maps (add_rule c i) ;! ret true
     else on_maps (modify (fun pm => set_maps (update_map c (grow_rules i) (ps_maps pm)) pm)) ;! ret (rr_diff s)) in
  let! (rules_cnt, rules_max) :=
    on_maps (gets (fun pm => match find_map c (ps_maps pm) with
                             | Some m => (length (pm_rules m), pm_rules_max m) | None => (O, 0) end)) in
  cassert (S i <=? rules_cnt)%nat ;!
  cassert (Z.of_nat (S i) <=? rules_max) ;!
  let! (_, attrs) := json_read_struct fuel read_rule_attrs [] in
  let! d := on_maps (on_rule c i (update_rule attrs)) in
  ret (mkRR c true (S i) (if d =? 0 then diff else true)).

Definition set_path_map (c : Z) : J unit :=
  let! maps := on_maps (gets ps_maps) in
  let s := mkRR c (match find_map c maps with Some _ => true | None => false end) 0 false in
  let! (_, s) := json_read_array fuel read_rule s in
  let! maps := on_maps (gets ps_maps) in
  let! diff :=
    match (if rr_map s then find_map c maps else None) with
    | Some m =>
        if (rr_cnt s <? length (pm_rules m))%nat then
          on_maps (free_rules (drop (rr_cnt s) (pm_rules m))) ;!
          on_maps (modify (set_maps
            (if (rr_cnt s =? 0)%nat then remove_map c maps
             else update_map c (fun m => map_set_rules (take (rr_cnt s) (pm_rules m)) m) maps))) ;!
          ret true
        else ret (rr_diff s)
    | None => ret (rr_diff s)
    end in
  if diff : bool then on_maps (path_map_event_mapping_changed c) else ret tt.

(** [write_rule] *)
Fixpoint write_attrs (i : nat) (attrs : list attribute) : M OS unit :=
  match attrs with
  | [] => ret tt
  | (name, value) :: attrs' =>
      (if (0 <? i)%nat then write_stream ch_comma else ret tt) ;!
      json_write_string (Some name) ;!
      write_stream ch_colon ;!
      write_string value ;!
      write_attrs (S i) attrs'
  end.

Definition write_rule (r : PathMapRule) : M OS unit :=
  write_stream ch_lcur ;!
  write_attrs 0 (pr_attrs r) ;!
  write_stream ch_rcur.

(** The loops of [command_get]. *)
Fixpoint write_rules (n : nat) (rules : list PathMapRule) : M OS unit :=
  match rules with
  | [] => ret tt
  | r :: rules' =>
      (if (0 <? n)%nat then write_stream ch_comma else ret tt) ;!
      write_rule r ;!
      write_rules (S n) rules'
  end.

(** The state of a command: the input stream and the output stream of the channel. *)
Record MapCommand := mkMC { mc_inp : Json (WithMaps IS); mc_out : OS }.

Definition on_minp {A} (m : J A) : M MapCommand A := zoom mc_inp (fun i s => mkMC i (mc_out s)) m.
Definition on_mout {A} (m : M OS A) : M MapCommand A := zoom mc_out (fun o s => mkMC (mc_inp s) o) m.

Definition command_get (token : list Z) : M MapCommand unit :=
  on_minp (json_test_char fuel MARKER_EOM) ;!
  let! maps := on_minp (on_maps (gets ps_maps)) in
  on_mout (write_stringz (str "R") ;! write_stringz token ;! write_stream 0 ;!
           write_stream ch_lbra ;!
           write_rules 0 (concat (map pm_rules maps)) ;!
           write_stream ch_rbra ;! write_stream 0 ;! write_stream MARKER_EOM).

Definition command_set (token : list Z) (c : Z) : M MapCommand unit :=
  on_minp (set_path_map c) ;!
  on_minp (json_test_char fuel MARKER_EOA) ;!
  on_minp (json_test_char fuel MARKER_EOM) ;!
  on_mout (write_stringz (str "R") ;! write_stringz token ;! write_stream 0 ;! write_stream MARKER_EOM).

End Commands.
