(* ===== verification/PathNames.v ===== *)
(** * Canonical file names (PathMap.v, services/pathmap.c)

    [canonic_path_map_file_name] never writes outside of its buffer, and on ordinary names computes
    what a reference definition over lists of components says. *)

From S2P Require Import Prelude ContextQuery PathMap.

(** The loop computes [res], whatever the size of the buffer, as long as there is room for the
    terminating zero. *)
Definition canonic (fnm rbuf res : list Z) : Prop :=
  forall buf_max, (length rbuf < buf_max)%nat -> canonic_loop fnm rbuf buf_max = Some res.

(** The character that is stored: backslashes become slashes, the letter of a drive a capital. *)
Definition slashed (ch : Z) : Z := if ch =? ch_bslash then ch_slash else ch.
Definition stored (ch : Z) (fnm rbuf : list Z) : Z :=
  if (length rbuf =? 0)%nat && (ch >=? ch_a) && (ch <=? ch_z) && (deref fnm =? ch_colon)
  then ch - ch_a + ch_A else ch.

Lemma canonic_nil rbuf : canonic [] rbuf (rev rbuf).
Proof. intros m Hm. cbn [canonic_loop]. by rewrite (proj2 (Nat.ltb_lt _ _) Hm). Qed.

(** *** One step of the loop *)

Lemma step_store ch fnm rbuf buf_max res : (length rbuf < buf_max)%nat ->
  canonic fnm (stored ch fnm rbuf :: rbuf) res ->
  (if (length rbuf <? (if (buf_max <=? length rbuf + 1)%nat then (buf_max + 0x100)%nat else buf_max))%nat
   then canonic_loop fnm (stored ch fnm rbuf :: rbuf)
          (if (buf_max <=? length rbuf + 1)%nat then (buf_max + 0x100)%nat else buf_max)
   else None) = Some res.
Proof.
  intros Hm Hk. destruct (Nat.leb_spec buf_max (length rbuf + 1)).
  - rewrite (proj2 (Nat.ltb_lt _ _)) by lia. apply Hk. cbn [length]. lia.
  - rewrite (proj2 (Nat.ltb_lt _ _)) by lia. apply Hk. cbn [length]. lia.
Qed.

(** What the loop does with a character, when something follows it. *)
Lemma canonic_cons ch fnm rbuf res :
  let c := slashed ch in
  (if (c =? ch_slash) && (2 <=? length rbuf)%nat && (deref rbuf =? ch_slash) then canonic fnm rbuf res
   else if (c =? ch_slash) && (deref fnm =? 0) && (0 <? length rbuf)%nat && negb (deref rbuf =? ch_colon)
   then rev rbuf = res
   else if (c =? ch_dot) && ((length rbuf =? 0)%nat || (deref rbuf =? ch_slash)) then
     match fnm with
     | c1 :: fnm1 =>
         if is_separator c1 then canonic fnm1 rbuf res
         else
           match fnm1 with
           | c2 :: fnm2 =>
               if (0 <? length rbuf)%nat && (c1 =? ch_dot) && is_separator c2 then
                 match drop_component rbuf with
                 | Some rbuf' => (length rbuf' <= length rbuf)%nat /\ canonic fnm2 rbuf' res
                 | None => canonic fnm (stored c fnm rbuf :: rbuf) res
                 end
               else canonic fnm (stored c fnm rbuf :: rbuf) res
           | [] => canonic fnm (stored c fnm rbuf :: rbuf) res
           end
     | [] => canonic fnm (stored c fnm rbuf :: rbuf) res
     end
   else canonic fnm (stored c fnm rbuf :: rbuf) res) ->
  canonic (ch :: fnm) rbuf res.
Proof.
  intros c H m Hm. unfold c, slashed, stored in *. cbn [canonic_loop].
  destruct (_ && (2 <=? _)%nat && _); [by apply H|].
  destruct (_ && (deref fnm =? 0) && _ && _); [rewrite (proj2 (Nat.ltb_lt _ _)) by done; by f_equal|].
  destruct (_ && (_ || _)); [|by apply step_store].
  destruct fnm as [|c1 fnm1]; [by apply step_store|]. destruct (is_separator c1); [by apply H|].
  destruct fnm1 as [|c2 fnm2]; [by apply step_store|].
  destruct (_ && _ && is_separator c2); [|by apply step_store].
  destruct (drop_component rbuf) as [rbuf'|] eqn:E; [|by apply step_store].
  rewrite (proj2 (Nat.ltb_lt _ _)) by done. destruct H as [Hl H]. apply H. lia.
Qed.

(** ** The buffer is not overrun *)

Lemma last_component_app r n rest : last_component r = (n, rest) -> r = n ++ rest.
Proof.
  revert n rest. induction r as [|c r IH]; cbn [last_component]; intros n rest E; [by injection E as <- <-|].
  destruct (c =? ch_slash); [by injection E as <- <-|].
  destruct (last_component r) as [n' rest']. injection E as <- <-. cbn. f_equal. by apply IH.
Qed.

Lemma drop_component_suffix rbuf rbuf' : drop_component rbuf = Some rbuf' -> exists k, rbuf = k ++ rbuf'.
Proof.
  unfold drop_component. destruct rbuf as [|s [|c r]]; cbn [tl]; try done. destruct (c =? ch_slash); [done|].
  destruct (last_component (c :: r)) as [n rest] eqn:E. apply last_component_app in E.
  destruct (_ || _); [done|]. intros [= <-]. exists (s :: n). cbn. by rewrite E.
Qed.

(** No backslash, and two slashes only at the beginning of the name. *)
Fixpoint buf_ok (rbuf : list Z) : Prop :=
  match rbuf with
  | [] => True
  | c :: r => c <> ch_bslash /\ buf_ok r /\ match r with c' :: r' => c = ch_slash -> c' = ch_slash -> r' = [] | [] => True end
  end.

Lemma buf_ok_suffix k r : buf_ok (k ++ r) -> buf_ok r.
Proof. induction k as [|c k IH]; cbn; [done|]. intros (_ & H & _). by apply IH. Qed.

Lemma stored_ok ch fnm rbuf : ch <> ch_bslash -> stored ch fnm rbuf <> ch_bslash.
Proof.
  unfold stored. intros H. destruct (ch >=? ch_a) eqn:E1, (ch <=? ch_z) eqn:E2; rewrite ?andb_false_r, ?andb_true_r; cbn [andb];
    try done. destruct (_ && _); lia.
Qed.

Lemma stored_slash ch fnm rbuf : stored ch fnm rbuf = ch_slash -> ch = ch_slash.
Proof.
  unfold stored. destruct (ch >=? ch_a) eqn:E1, (ch <=? ch_z) eqn:E2; rewrite ?andb_false_r, ?andb_true_r; cbn [andb]; try done.
  destruct (_ && _); lia.
Qed.

Lemma slashed_ok ch : slashed ch <> ch_bslash.
Proof. unfold slashed. destruct (Z.eqb_spec ch ch_bslash); [done|done]. Qed.

Lemma canonic_total n : forall fnm rbuf, (length fnm < n)%nat -> buf_ok rbuf ->
  exists res, canonic fnm rbuf res /\ (length res <= length rbuf + length fnm)%nat /\ buf_ok (rev res).
Proof.
  induction n as [|n IH]; intros fnm rbuf Hn Hb; [lia|]. destruct fnm as [|ch fnm].
  { exists (rev rbuf). split; [apply canonic_nil|]. rewrite length_rev, rev_involutive. cbn. split; [lia|done]. }
  cbn [length] in Hn.
  assert (Hrec : forall fnm' rbuf', (length fnm' <= length fnm)%nat -> buf_ok rbuf' ->
    (length rbuf' + length fnm' <= length rbuf + S (length fnm))%nat ->
    exists res, canonic fnm' rbuf' res /\ (length res <= length rbuf + S (length fnm))%nat /\ buf_ok (rev res)).
  { intros fnm' rbuf' H1 H2 H3. destruct (IH fnm' rbuf' ltac:(lia) H2) as (res & Hr & Hl & Hok). exists res.
    split; [done|]. split; [lia|done]. }
  assert (Hstore : (slashed ch =? ch_slash) && (2 <=? length rbuf)%nat && (deref rbuf =? ch_slash) = false ->
    exists res, canonic fnm (stored (slashed ch) fnm rbuf :: rbuf) res /\
      (length res <= length rbuf + S (length fnm))%nat /\ buf_ok (rev res)).
  { intros E. apply Hrec; [lia| |cbn; lia]. cbn [buf_ok]. split_and!; [apply stored_ok, slashed_ok|done|].
    destruct rbuf as [|c' r']; [done|]. intros Hs ->. apply stored_slash in Hs. rewrite Hs in E.
    destruct r' as [|c'' r'']; [done|]. by cbn in E. }
  cbn [length]. pose proof (canonic_cons ch fnm rbuf) as Hc. cbv zeta in Hc.
  destruct (_ && (2 <=? _)%nat && _) eqn:E1.
  { destruct (Hrec fnm rbuf ltac:(lia) Hb ltac:(lia)) as (res & ? & ?). exists res. split; [by apply Hc|done]. }
  specialize (Hstore eq_refl). destruct Hstore as (res0 & Hs0 & Hs1).
  destruct (_ && (deref fnm =? 0) && _ && _) eqn:E2.
  { exists (rev rbuf). split; [by apply Hc|]. rewrite length_rev, rev_involutive. split; [lia|done]. }
  destruct (_ && (_ || _)) eqn:E3; [|exists res0; split; [by apply Hc|done]].
  destruct fnm as [|c1 fnm1]; [exists res0; split; [by apply Hc|done]|].
  destruct (is_separator c1) eqn:E4.
  { destruct (Hrec fnm1 rbuf ltac:(cbn; lia) Hb ltac:(cbn; lia)) as (res & ? & ?). exists res. split; [by apply Hc|done]. }
  destruct fnm1 as [|c2 fnm2]; [exists res0; split; [by apply Hc|done]|].
  destruct (_ && _ && is_separator c2) eqn:E5; [|exists res0; split; [by apply Hc|done]].
  destruct (drop_component rbuf) as [rbuf'|] eqn:E6; [|exists res0; split; [by apply Hc|done]].
  destruct (drop_component_suffix _ _ E6) as (k & ->).
  destruct (Hrec fnm2 rbuf' ltac:(cbn; lia) (buf_ok_suffix _ _ Hb)) as (res & ? & ?); [rewrite length_app; cbn; lia|].
  exists res. split; [|done]. apply Hc. split; [rewrite length_app; lia|done].
Qed.

(** ** Reference definition *)

Notation dot := [ch_dot].
Notation dotdot := [ch_dot; ch_dot].

(** A character and a component of a name. *)
Definition name_char (ch : Z) : Prop := ch <> 0 /\ ch <> ch_slash /\ ch <> ch_bslash.
Definition component (c : list Z) : Prop := c <> [] /\ Forall name_char c.

(** The first component of a relative name may be a drive. *)
Definition capital (c : list Z) : list Z :=
  match c with
  | ch :: c' => (if (ch >=? ch_a) && (ch <=? ch_z) && (deref c' =? ch_colon) then ch - ch_a + ch_A else ch) :: c'
  | [] => []
  end.

Definition add_component (root : list Z) (dirs : list (list Z)) (c : list Z) : list (list Z) :=
  match root, dirs with
  | [], [] => [capital c]
  | _, _ => c :: dirs
  end.

(** A component that is followed by a separator: "." is left out, ".." removes the component before
    it; [dirs] begins with the last component. *)
Definition enter (root : list Z) (dirs : list (list Z)) (c : list Z) : list (list Z) :=
  if streq c dot then dirs
  else if streq c dotdot then
    match dirs with
    | d :: dirs' => if streq d dotdot then add_component root dirs c else dirs'
    | [] => add_component root dirs c
    end
  else add_component root dirs c.

(** The name of a directory, with a slash at its end. *)
Definition dir_name (root : list Z) (dirs : list (list Z)) : list Z :=
  map (fun _ => ch_slash) root ++ concat (map (fun c => c ++ [ch_slash]) (rev dirs)).

(** The canonical form of a name: separators [root], components with the separators that follow
    them, and a last component, which is kept as it is. *)
Definition reference_name (root : list Z) (comps : list (list Z * Z)) (base : list Z) : list Z :=
  let dirs := fold_left (enter root) (map fst comps) [] in
  match root, dirs with
  | [], [] => capital base
  | _, _ => dir_name root dirs ++ base
  end.

Definition name_text (root : list Z) (comps : list (list Z * Z)) (base : list Z) : list Z :=
  root ++ concat (map (fun x => fst x ++ [snd x]) comps) ++ base.

(** ** Equivalence *)

(** The buffer at the beginning of a component. *)
Fixpoint rdirs (root : list Z) (dirs : list (list Z)) : list Z :=
  match dirs with
  | [] => map (fun _ => ch_slash) root
  | c :: dirs' => ch_slash :: rev c ++ rdirs root dirs'
  end.

Lemma rdirs_rev root dirs : rev (rdirs root dirs) = dir_name root dirs.
Proof.
  unfold dir_name. induction dirs as [|c dirs IH]; cbn [rdirs rev map concat].
  - rewrite app_nil_r. rewrite <- map_rev. induction root as [|x root IH]; [done|].
    cbn [rev map]. rewrite map_app, IH. clear IH. induction root as [|y root IH]; [done|]. cbn [map app] in *. by rewrite <- IH.
  - rewrite rev_app_distr, rev_involutive, IH, map_app, concat_app. cbn. by rewrite app_nil_r, <- !app_assoc.
Qed.

(** A buffer at whose end a component may begin. *)
Definition at_start (D : list Z) : Prop := match D with [] => True | c :: _ => c = ch_slash end.

Lemma rdirs_start root dirs : at_start (rdirs root dirs).
Proof. destruct dirs; [by destruct root|done]. Qed.

Lemma slashed_name ch : name_char ch -> slashed ch = ch.
Proof. intros (_ & _ & H). unfold slashed. by rewrite (proj2 (Z.eqb_neq _ _)). Qed.

Lemma name_char_separator ch : name_char ch -> is_separator ch = false.
Proof. intros (_ & H1 & H2). unfold is_separator. by rewrite !(proj2 (Z.eqb_neq _ _)). Qed.

Lemma canonic_chars cs rest rbuf res :
  Forall name_char cs -> rbuf <> [] -> deref rbuf <> ch_slash ->
  canonic rest (rev cs ++ rbuf) res -> canonic (cs ++ rest) rbuf res.
Proof.
  intros Hcs. revert rbuf. induction Hcs as [|ch cs Hch Hcs IH]; intros rbuf Hne Hd Hk; [done|].
  cbn [app]. apply canonic_cons. cbv zeta. rewrite (slashed_name _ Hch). destruct Hch as (H0 & H1 & H2).
  rewrite (proj2 (Z.eqb_neq ch ch_slash)) by done. cbn [andb].
  rewrite (proj2 (Z.eqb_neq (deref rbuf) ch_slash)) by done.
  assert (Hl : (length rbuf =? 0)%nat = false) by (by destruct rbuf). rewrite Hl. cbn [orb]. rewrite andb_false_r.
  unfold stored. rewrite Hl. cbn [andb]. apply IH; [done|done|]. cbn [rev] in Hk. by rewrite <- app_assoc in Hk.
Qed.

(** What follows a component. *)
Definition ends_component (rest : list Z) : Prop := match rest with [] => True | c :: _ => is_separator c = true end.

Definition entered (D c : list Z) : list Z := match D with [] => capital c | _ => c end.

Lemma canonic_component c rest D res :
  component c -> at_start D -> ends_component rest -> (rest = [] \/ c <> dot /\ c <> dotdot) ->
  canonic rest (rev (entered D c) ++ D) res -> canonic (c ++ rest) D res.
Proof.
  intros [Hne Hc] HD Hr Hdots Hk. destruct c as [|ch cs]; [done|]. apply Forall_cons in Hc as [Hch Hcs].
  assert (Hstore : canonic (cs ++ rest) (stored ch (cs ++ rest) D :: D) res).
  { apply canonic_chars; [done|done| |].
    - cbn. intros E. apply stored_slash in E. by destruct Hch as (_ & ? & _).
    - replace (rev cs ++ stored ch (cs ++ rest) D :: D) with (rev (entered D (ch :: cs)) ++ D); [exact Hk|].
      unfold stored, entered. destruct D as [|d D]; cbn [length Nat.eqb andb].
      + cbn [capital rev]. assert (E : deref (cs ++ rest) =? ch_colon = (deref cs =? ch_colon)).
        { destruct cs as [|c1 cs]; [|done]. destruct rest as [|c1 rest]; [done|]. cbn in Hr |- *.
          unfold is_separator in Hr. bool_to_prop. destruct Hr; bool_to_prop; by subst. }
        rewrite E. by rewrite <- app_assoc.
      + cbn [rev]. by rewrite <- app_assoc. }
  cbn [app]. apply canonic_cons. cbv zeta. rewrite (slashed_name _ Hch). pose proof Hch as (H0 & H1 & H2).
  rewrite (proj2 (Z.eqb_neq ch ch_slash)) by done. cbn [andb].
  destruct (_ && (_ || _)) eqn:Edot; [|exact Hstore]. apply andb_true_iff in Edot as [Edot _]. apply Z.eqb_eq in Edot. subst ch.
  destruct (cs ++ rest) as [|c1 f1] eqn:E1; [exact Hstore|].
  destruct cs as [|c1' cs]; cbn [app] in E1.
  { destruct Hdots as [-> |[Hd _]]; [done|done]. }
  injection E1 as <- E1. apply Forall_cons in Hcs as [Hc1 Hcs]. rewrite (name_char_separator _ Hc1).
  destruct f1 as [|c2 f2]; [exact Hstore|]. destruct cs as [|c2' cs]; cbn [app] in E1.
  - destruct Hdots as [-> |[_ Hd]]; [done|]. assert (E : (c1' =? ch_dot) = false).
    { destruct (Z.eqb_spec c1' ch_dot) as [->|]; [by destruct Hd|done]. }
    rewrite E, andb_false_r. exact Hstore.
  - injection E1 as <- _. apply Forall_cons in Hcs as [Hc2 _]. rewrite (name_char_separator _ Hc2), andb_false_r. exact Hstore.
Qed.

Lemma separator_slashed s : is_separator s = true -> slashed s = ch_slash.
Proof.
  unfold is_separator, slashed. intros H. destruct (Z.eqb_spec s ch_bslash); [done|].
  apply orb_true_iff in H as [H|H]; bool_to_prop; congruence.
Qed.

Lemma canonic_separator s rest rbuf res :
  is_separator s = true -> deref rest <> 0 -> (deref rbuf <> ch_slash \/ (length rbuf < 2)%nat) ->
  canonic rest (ch_slash :: rbuf) res -> canonic (s :: rest) rbuf res.
Proof.
  intros Hs Hr Hb Hk. apply canonic_cons. cbv zeta. rewrite (separator_slashed _ Hs).
  assert (E : (2 <=? length rbuf)%nat && (deref rbuf =? ch_slash) = false).
  { destruct Hb as [Hb|Hb]; [by rewrite (proj2 (Z.eqb_neq _ _) Hb), andb_false_r|].
    by rewrite (proj2 (Nat.leb_gt _ _)). }
  cbn [Z.eqb Pos.eqb andb]. rewrite E, (proj2 (Z.eqb_neq _ _) Hr). unfold stored. cbn [andb].
  replace ((length rbuf =? 0)%nat && false && _ && _) with false by (by rewrite andb_false_r).
  exact Hk.
Qed.

Lemma drop_rdirs root c dirs : component c -> c <> dot ->
  drop_component (rdirs root (c :: dirs)) = if streq c dotdot then None else Some (rdirs root dirs).
Proof.
  intros [Hne Hc] Hd. unfold drop_component. cbn [rdirs tl].
  assert (Hl : last_component (rev c ++ rdirs root dirs) = (rev c, rdirs root dirs)).
  { assert (Hc' : Forall name_char (rev c)) by (by apply Forall_rev). revert Hc'. generalize (rev c). clear.
    induction 1 as [|ch l Hch Hl IH]; cbn [app last_component].
    - pose proof (rdirs_start root dirs) as H. destruct (rdirs root dirs) as [|x D]; [done|]. cbn in H. subst x. done.
    - destruct Hch as (_ & H1 & _). rewrite (proj2 (Z.eqb_neq _ _) H1), IH. done. }
  rewrite Hl. destruct (rev c) as [|x l] eqn:E.
  { exfalso. apply Hne. by rewrite <- (rev_involutive c), E. }
  cbn [app]. assert (Hx : name_char x).
  { assert (H : Forall name_char (rev c)) by (by apply Forall_rev). rewrite E in H. by apply Forall_cons in H as [? _]. }
  destruct Hx as (_ & Hx & _). rewrite (proj2 (Z.eqb_neq _ _) Hx). rewrite <- E.
  assert (E1 : streq (rev c) dot = false).
  { unfold streq. apply bool_decide_eq_false_2. intros H. apply Hd. by rewrite <- (rev_involutive c), H. }
  assert (E2 : streq (rev c) dotdot = streq c dotdot).
  { unfold streq. apply bool_decide_ext. split; intros H; [by rewrite <- (rev_involutive c), H|by rewrite H]. }
  rewrite E1, E2. done.
Qed.

Lemma capital_component c : component c -> component (capital c).
Proof.
  intros [Hne Hc]. destruct c as [|ch c]; [done|]. split; [done|]. apply Forall_cons in Hc as [Hch Hc].
  apply Forall_cons; split; [|done]. destruct (_ && _ && _) eqn:E; [|done]. unfold name_char. bool_to_prop. lia.
Qed.

Lemma capital_dots c : capital c = dot -> c = dot.
Proof.
  destruct c as [|ch c]; [done|]. cbn. intros [= E ->]. destruct (_ && _ && _) eqn:E1; [|by subst].
  bool_to_prop. lia.
Qed.

(** The components entered so far. *)
Definition dirs_ok (dirs : list (list Z)) : Prop := Forall (fun c => component c /\ c <> dot) dirs.

Lemma enter_ok root dirs c : dirs_ok dirs -> component c -> dirs_ok (enter root dirs c).
Proof.
  intros Hd Hc. assert (Hadd : c <> dot -> dirs_ok (add_component root dirs c)).
  { intros Hn. unfold add_component. destruct root, dirs; (apply Forall_cons; split; [|done]); try done.
    split; [by apply capital_component|]. intros E. by apply Hn, capital_dots. }
  unfold enter, streq. destruct (bool_decide_reflect (c = dot)); [done|].
  case_bool_decide; [|by apply Hadd]. destruct dirs as [|d dirs]; [by apply Hadd|].
  case_bool_decide; [by apply Hadd|]. by apply Forall_cons in Hd as [_ ?].
Qed.

Lemma add_component_rdirs root dirs c :
  rdirs root (add_component root dirs c) = ch_slash :: rev (entered (rdirs root dirs) c) ++ rdirs root dirs.
Proof. destruct root, dirs; done. Qed.

Lemma component_deref c r : component c -> deref (c ++ r) <> 0.
Proof. intros [Hne Hc]. destruct c as [|ch c]; [done|]. by apply Forall_cons in Hc as [(? & _) _]. Qed.

(** One component and the separator that follows it. *)
Lemma canonic_enter root dirs c s rest res :
  dirs_ok dirs -> component c -> is_separator s = true -> deref rest <> 0 ->
  canonic rest (rdirs root (enter root dirs c)) res -> canonic (c ++ s :: rest) (rdirs root dirs) res.
Proof.
  intros Hd Hc Hs Hr Hk. set (D := rdirs root dirs) in *.
  assert (Hsep : forall rbuf, rbuf <> [] -> deref rbuf <> ch_slash -> canonic rest (ch_slash :: rbuf) res ->
    canonic (s :: rest) rbuf res) by (intros rbuf H1 H2 H3; apply canonic_separator; auto).
  assert (Hname : forall x l, name_char x -> deref (x :: l) <> ch_slash) by (by intros x l (_ & ? & _)).
  unfold enter, streq in Hk. destruct (bool_decide_reflect (c = dot)) as [->|Hn1].
  { cbn [app]. apply canonic_cons. cbv zeta. change (slashed ch_dot) with ch_dot. cbn [Z.eqb Pos.eqb andb].
    pose proof (rdirs_start root dirs) as Hst. fold D in Hst.
    replace ((length D =? 0)%nat || (deref D =? ch_slash)) with true by (by destruct D as [|d D']; [|cbn in Hst; subst d]).
    by rewrite Hs. }
  assert (Hadd : canonic rest (rdirs root (add_component root dirs c)) res -> c <> dotdot -> canonic (c ++ s :: rest) D res).
  { intros Hk' Hn2. rewrite add_component_rdirs in Hk'. fold D in Hk'.
    apply canonic_component; [done|apply rdirs_start|done|by right|].
    assert (He : component (entered D c)) by (unfold entered; destruct D; [by apply capital_component|done]).
    destruct He as [He1 He2]. apply Forall_rev in He2.
    destruct (rev (entered D c)) as [|x l] eqn:E; [exfalso; apply He1; by rewrite <- (rev_involutive (entered D c)), E|].
    apply Hsep; [done| |exact Hk']. apply Forall_cons in He2 as [Hx _]. by apply Hname. }
  destruct (bool_decide_reflect (c = dotdot)) as [->|Hn2]; [|by apply Hadd].
  assert (Hpush : canonic rest (rdirs root (add_component root dirs dotdot)) res -> drop_component D = None \/ D = [] ->
    canonic (dotdot ++ s :: rest) D res).
  { intros Hk' Hdrop. rewrite add_component_rdirs in Hk'. fold D in Hk'.
    assert (Hst : canonic (ch_dot :: s :: rest) (ch_dot :: D) res).
    { apply (canonic_chars [ch_dot] (s :: rest)); [by repeat constructor|done|done|]. cbn [rev app].
      apply Hsep; [done|done|]. destruct D; exact Hk'. }
    cbn [app]. apply canonic_cons. cbv zeta. change (slashed ch_dot) with ch_dot. cbn [Z.eqb Pos.eqb andb].
    pose proof (rdirs_start root dirs) as Hstart. fold D in Hstart.
    replace ((length D =? 0)%nat || (deref D =? ch_slash)) with true by (by destruct D as [|d D']; [|cbn in Hstart; subst d]).
    change (is_separator ch_dot) with false. cbn iota. rewrite Hs.
    assert (Estored : stored ch_dot (ch_dot :: s :: rest) D = ch_dot).
    { unfold stored. change (ch_dot >=? ch_a) with false. by rewrite andb_false_r. }
    rewrite Estored. destruct Hdrop as [Hdrop|HD].
    - rewrite Hdrop. by destruct ((0 <? length D)%nat && true && true).
    - rewrite HD in Hst |- *. exact Hst. }
  destruct dirs as [|d dirs].
  { apply Hpush; [exact Hk|]. subst D. cbn [rdirs]. destruct root as [|r1 [|r2 root]]; [by right|by left|by left]. }
  apply Forall_cons in Hd as [[Hdc Hdd] Hd].
  pose proof (drop_rdirs root d dirs Hdc Hdd) as Hdrop. fold D in Hdrop.
  unfold streq in Hdrop. destruct (bool_decide_reflect (d = dotdot)) as [->|Hdn]; [apply Hpush; [exact Hk|by left]|].
  cbn [app]. apply canonic_cons. cbv zeta. change (slashed ch_dot) with ch_dot. cbn [Z.eqb Pos.eqb andb].
  change (length D =? 0)%nat with false. change (deref D) with ch_slash. cbn [orb Z.eqb Pos.eqb].
  change (is_separator ch_dot) with false. cbn iota. change (0 <? length D)%nat with true. rewrite Hs. cbn [andb].
  rewrite Hdrop. split; [|exact Hk]. subst D. cbn [rdirs length]. rewrite length_app. lia.
Qed.

Lemma canonic_dirs root comps base : forall dirs res,
  dirs_ok dirs -> Forall (fun x => component (fst x) /\ is_separator (snd x) = true) comps -> component base ->
  canonic base (rdirs root (fold_left (enter root) (map fst comps) dirs)) res ->
  canonic (concat (map (fun x => fst x ++ [snd x]) comps) ++ base) (rdirs root dirs) res.
Proof.
  induction comps as [|[c s] comps IH]; intros dirs res Hd Hc Hb Hk; [done|]. apply Forall_cons in Hc as [[Hc Hs] Hcs].
  cbn [fst snd map concat fold_left] in *. rewrite <- !app_assoc. cbn [app].
  apply canonic_enter; try done.
  - destruct comps as [|[c2 s2] comps]; cbn [map concat app fst snd].
    + rewrite <- (app_nil_r base). by apply component_deref.
    + apply Forall_cons in Hcs as [[Hc2 _] _]. rewrite <- !app_assoc. by apply component_deref.
  - apply IH; [by apply enter_ok|done|done|done].
Qed.

Lemma name_text_deref comps base :
  Forall (fun x => component (fst x) /\ is_separator (snd x) = true) comps -> component base ->
  deref (concat (map (fun x => fst x ++ [snd x]) comps) ++ base) <> 0.
Proof.
  intros Hc Hb. destruct comps as [|[c s] comps]; cbn [map concat app fst snd].
  - rewrite <- (app_nil_r base). by apply component_deref.
  - apply Forall_cons in Hc as [[Hc _] _]. rewrite <- !app_assoc. by apply component_deref.
Qed.

Lemma canonic_root root rest res : Forall (fun s => is_separator s = true) root -> (length root <= 2)%nat ->
  deref rest <> 0 -> canonic rest (rdirs root []) res -> canonic (root ++ rest) [] res.
Proof.
  intros Hs Hl Hr Hk. destruct root as [|s1 [|s2 [|s3 root]]]; cbn [length] in Hl; [done| | |lia].
  - apply Forall_cons in Hs as [Hs1 _]. apply canonic_separator; [done|done|right; cbn; lia|exact Hk].
  - apply Forall_cons in Hs as [Hs1 Hs]. apply Forall_cons in Hs as [Hs2 _]. cbn [app].
    apply canonic_separator; [done| |right; cbn; lia|].
    + cbn. unfold is_separator in Hs2. intros ->. done.
    + apply canonic_separator; [done|done|right; cbn; lia|exact Hk].
Qed.

(** C34: [canonic_path_map_file_name] returns a result for every name, never writes outside of its
    buffer, whose size it changes, and the result is not longer than the name, has no backslash, and
    two slashes only at its beginning.  For a name made of up to two leading separators and components
    that are divided by single separators, the result is the canonical form: slashes for backslashes,
    a capital letter for the drive, no "." and no ".." after a directory, except as the last
    component. *)
Theorem canonic_name_correct :
  (forall fnm, exists res, canonic_path_map_file_name fnm = Some res /\ (length res <= length fnm)%nat /\
     ch_bslash ∉ res /\ (forall k l, res = k ++ ch_slash :: ch_slash :: l -> k = [])) /\
  (forall root comps base,
     Forall (fun s => is_separator s = true) root -> (length root <= 2)%nat ->
     Forall (fun x => component (fst x) /\ is_separator (snd x) = true) comps -> component base ->
     canonic_path_map_file_name (name_text root comps base) = Some (reference_name root comps base)).
Proof.
  split.
  - intros fnm. destruct (canonic_total (S (length fnm)) fnm [] ltac:(lia) I) as (res & Hr & Hl & Hok).
    exists res. split; [apply Hr; cbn; lia|]. split; [exact Hl|]. split.
    + rewrite (Permutation_rev res). revert Hok. clear. intros Hok Hin. revert Hin Hok.
      induction (rev res) as [|c r IH]; cbn [buf_ok]; intros Hin; [by apply elem_of_nil in Hin|]. intros (Hc & Hr & _).
      apply elem_of_cons in Hin as [E|Hin]; [by symmetry in E|by apply IH].
    + intros k l E. rewrite E, rev_app_distr in Hok. cbn [rev] in Hok. rewrite <- !app_assoc in Hok.
      apply buf_ok_suffix in Hok. cbn [app buf_ok] in Hok. destruct Hok as (_ & _ & Hok).
      assert (Ek : rev k = []) by auto. by rewrite <- (rev_involutive k), Ek.
  - intros root comps base Hr Hl Hc Hb.
    set (dirs := fold_left (enter root) (map fst comps) []).
    assert (Hk : canonic base (rdirs root dirs) (reference_name root comps base)).
    { rewrite <- (app_nil_r base) at 1. apply canonic_component; [done|apply rdirs_start|done|by left|].
      pose proof (canonic_nil (rev (entered (rdirs root dirs) base) ++ rdirs root dirs)) as Hn.
      rewrite rev_app_distr, rev_involutive, rdirs_rev in Hn.
      replace (reference_name root comps base) with (dir_name root dirs ++ entered (rdirs root dirs) base); [exact Hn|].
      unfold reference_name. fold dirs. by destruct root, dirs. }
    assert (Hdirs : canonic (concat (map (fun x => fst x ++ [snd x]) comps) ++ base) (rdirs root []) (reference_name root comps base)).
    { by apply canonic_dirs; [constructor|..]. }
    apply (canonic_root root) in Hdirs; [|done|done|by apply name_text_deref].
    apply Hdirs. cbn. lia.
Qed.

(** *** Examples *)

Lemma canonic_example : canonic_path_map_file_name (str "c:\src\.\lib/../main.c") = Some (str "C:/src/main.c").
Proof. reflexivity. Qed.

(** The drive is a component like others; separators after "." or a removed component are kept; of
    several separators at the end one is left. *)
Lemma canonic_oddities :
  canonic_path_map_file_name (str "c:/../x") = Some (str "x") /\
  canonic_path_map_file_name (str ".//b") = Some (str "/b") /\
  canonic_path_map_file_name (str "/.//b") = Some (str "//b") /\
  canonic_path_map_file_name (str "a/") = Some (str "a") /\
  canonic_path_map_file_name (str "a//") = Some (str "a/").
Proof. split_and!; reflexivity. Qed.

Lemma canonic_name_correct_witness :
  canonic_path_map_file_name (str "c:\src\.\lib/../main.c") = Some (str "C:/src/main.c").
Proof.
  assert (H : name_text [] [(str "c:", ch_bslash); (str "src", ch_bslash); (str ".", ch_bslash); (str "lib", ch_slash);
      (str "..", ch_slash)] (str "main.c") = str "c:\src\.\lib/../main.c") by reflexivity.
  rewrite <- H. apply (proj2 canonic_name_correct); [constructor|cbn; lia| |].
  - repeat (apply Forall_cons; split; [split; [split; [done|by repeat constructor]|done]|]). constructor.
  - split; [done|by repeat constructor].
Defined.
