(* ===== verification/PathRules.v ===== *)
(** * The rules of a path map (PathMap.v, services/pathmap.c)

    The strings of a rule are those its attributes stand for, and an update of the attributes keeps
    them so; what a rule does to a file name. *)

From S2P Require Import Prelude Streams JsonWrite JsonRead JsonStruct ContextQuery ContextProps PathMap PathNames.

(** ** Attributes *)

(** The JSON text of a string, or null, as the value of an attribute. *)
Definition value_of (value : list Z) (so : option (list Z)) : Prop :=
  value = string_text so /\ match so with Some s => bytes s /\ Forall (fun ch => ch <> 0) s | None => True end.

Definition owned (so : option (list Z)) : cptr := match so with Some s => Owned s | None => Null end.

Definition names (l : list attribute) : list (list Z) := map fst l.

(** The attributes have different names, and the values of those with known names are strings. *)
Record attrs_ok (l : list attribute) : Prop := {
  ao_names : NoDup (names l);
  ao_values : Forall (fun a => field_of (fst a) <> None -> exists so, value_of (snd a) so) l }.

(** The string a field stands for. *)
Definition stands (l : list attribute) (f : field) (p : cptr) : Prop :=
  (exists name value so, (name, value) ∈ l /\ field_of name = Some f /\ value_of value so /\ p = owned so) \/
  ((forall name value, (name, value) ∈ l -> field_of name <> Some f) /\ p = Null).

Record rule_ok (r : PathMapRule) : Prop := {
  ro_attrs : attrs_ok (pr_attrs r);
  ro_fields : forall f, stands (pr_attrs r) f (get_field f r) }.

Lemma field_of_inj n1 n2 f : field_of n1 = Some f -> field_of n2 = Some f -> n1 = n2.
Proof.
  unfold field_of, streq. intros H1 H2.
  repeat case_bool_decide; simplify_eq; congruence.
Qed.

Lemma get_set_field f g p r : get_field f (set_field g p r) = if decide (f = g) then p else get_field f r.
Proof. destruct r. by destruct f, g. Qed.

Lemma get_rule_attrs f a r : get_field f (set_rule_attrs a r) = get_field f r.
Proof. destruct r. by destruct f. Qed.

Lemma attrs_set_field f p r : pr_attrs (set_field f p r) = pr_attrs r.
Proof. destruct r. by destruct f. Qed.

Lemma stands_ext l l' f p : (forall a, a ∈ l <-> a ∈ l') -> stands l f p -> stands l' f p.
Proof.
  intros Hl [(n & v & so & Hin & H)|[Hno H]]; [left|right].
  - exists n, v, so. by rewrite <- Hl.
  - split; [|done]. intros n v. rewrite <- Hl. apply Hno.
Qed.

Lemma stands_not_freed l f p : stands l f p -> p <> Freed.
Proof. intros [(n & v & [s|] & _ & _ & _ & ->)|[_ ->]]; done. Qed.

(** An attribute of another field. *)
Lemma stands_cons_ne l name v f p : field_of name <> Some f -> stands ((name, v) :: l) f p <-> stands l f p.
Proof.
  intros Hne. split.
  - intros [(n & v' & so & Hin & Hf & H)|[Hno H]].
    + left. exists n, v', so. apply elem_of_cons in Hin as [[= -> ->]|Hin]; done.
    + right. split; [|done]. intros n v' Hin. apply (Hno n v'). by apply list_elem_of_further.
  - intros [(n & v' & so & Hin & H)|[Hno H]].
    + left. exists n, v', so. split; [by apply list_elem_of_further|done].
    + right. split; [|done]. intros n v' Hin. apply elem_of_cons in Hin as [[= -> ->]|Hin]; [done|by apply (Hno n v')].
Qed.

Lemma stands_none l name f : field_of name = Some f -> name ∉ names l -> stands l f Null.
Proof.
  intros Hf Hn. right. split; [|done]. intros n v Hin Hf'. apply Hn. rewrite (field_of_inj name n f Hf Hf').
  apply list_elem_of_fmap. by exists (n, v).
Qed.

(** ** Reading the value of an attribute *)

Lemma chars_text_length s : (length s <= length (chars_text s))%nat.
Proof.
  induction s as [|ch s IH]; [done|]. cbn [chars_text length]. rewrite length_app.
  assert (0 < length (char_text ch))%nat; [|lia]. unfold char_text, escape_seq.
  repeat destruct_if; cbn; lia.
Qed.

Lemma read_value_runs value so r : value_of value so -> runs (read_value value) r (owned so) r.
Proof.
  intros [-> Hso]. unfold runs, read_value.
  set (s0 := mkJson (create_byte_array_input_stream (string_text so)) [] 0%N).
  assert (Hy : yields (js_inp s0) (string_text so ++ [])).
  { exists 0%nat. cbn [replicate]. by rewrite !app_nil_r. }
  destruct (reads_alloc_string (length (string_text so) + 2) so s0 []) as (s1 & R1 & _); [| |exact Hy|].
  - destruct so as [t|]; [|done]. split; [apply Hso|]. cbn [string_text length]. rewrite length_app.
    pose proof (chars_text_length t). lia.
  - lia.
  - unfold runs in R1. rewrite R1. cbn [fst]. destruct so as [t|]; cbn [option_map owned]; [|done].
    by rewrite (cstr_nonzero t (proj2 Hso)).
Qed.

Lemma free_field_runs f r : get_field f r <> Freed ->
  exists p, runs (free_field f) r tt (set_field f p r) /\ pr_attrs (set_field f p r) = pr_attrs r.
Proof.
  intros Hf. destruct (get_field f r) as [|s|] eqn:E; [| |done].
  - exists Null. split; [|apply attrs_set_field]. eapply runs_bind; [apply runs_gets|]. rewrite E.
    replace (set_field f Null r) with r; [apply runs_ret|]. destruct r; destruct f; cbn in *; congruence.
  - exists Freed. split; [|apply attrs_set_field]. eapply runs_bind; [apply runs_gets|]. rewrite E. apply runs_modify.
Qed.

(** ** Updates *)

Lemma new_value_runs name value l r :
  name ∉ names l -> (field_of name <> None -> exists so, value_of value so) ->
  (forall f, field_of name <> Some f -> stands l f (get_field f r)) ->
  (forall f, get_field f r <> Freed) ->
  exists r', runs (new_value name value) r tt r' /\ pr_attrs r' = pr_attrs r ++ [(name, value)] /\
    forall f, stands ((name, value) :: l) f (get_field f r').
Proof.
  intros Hn Hv Hst Hfr. set (r1 := set_rule_attrs (pr_attrs r ++ [(name, value)]) r).
  destruct (field_of name) as [f|] eqn:Ef.
  - destruct (Hv ltac:(done)) as [so Hso].
    destruct (free_field_runs f r1) as (p & R1 & Ha); [subst r1; rewrite get_rule_attrs; apply Hfr|].
    exists (set_field f (owned so) (set_field f p r1)). split_and!.
    + eapply runs_bind; [apply runs_modify|]. fold r1. rewrite Ef. eapply runs_bind; [exact R1|].
      eapply runs_bind; [by apply read_value_runs|]. apply runs_modify.
    + by rewrite !attrs_set_field.
    + intros g. rewrite get_set_field. case_decide as Eg.
      * subst g. left. exists name, value, so. split; [apply list_elem_of_here|done].
      * rewrite get_set_field. rewrite decide_False by done. subst r1. rewrite get_rule_attrs.
        apply stands_cons_ne; [congruence|]. apply Hst. congruence.
  - exists r1. split_and!; [|done|].
    + eapply runs_bind; [apply runs_modify|]. fold r1. rewrite Ef. apply runs_ret.
    + intros g. subst r1. rewrite get_rule_attrs. apply stands_cons_ne; [by rewrite Ef|]. by apply Hst.
Qed.

Lemma take_attr_spec name old :
  match take_attr name old with
  | Some (v, rest) => old ≡ₚ (name, v) :: rest
  | None => name ∉ names old
  end.
Proof.
  induction old as [|[n v] old IH]; cbn [take_attr names map]; [apply not_elem_of_nil|].
  unfold streq. case_bool_decide as E; [by subst|].
  destruct (take_attr name old) as [[v' rest]|].
  - rewrite IH. apply Permutation_swap.
  - apply not_elem_of_cons. split; [cbn; congruence|done].
Qed.

Lemma names_perm l l' : l ≡ₚ l' -> names l ≡ₚ names l'.
Proof. apply Permutation_map. Qed.

Lemma perm_elem {A} (l l' : list A) a : l ≡ₚ l' -> a ∈ l <-> a ∈ l'.
Proof. by intros ->. Qed.

(** Distinct names determine the value. *)
Lemma names_value l n v v' : NoDup (names l) -> (n, v) ∈ l -> (n, v') ∈ l -> v = v'.
Proof.
  induction l as [|[m w] l IH]; cbn [names map fst]; intros Hnd H1 H2; [by apply elem_of_nil in H1|].
  apply NoDup_cons in Hnd as [Hm Hnd]. rewrite elem_of_cons in H1, H2.
  assert (Hin : forall w', (m, w') ∈ l -> m ∈ names l) by (intros w' Hw; apply list_elem_of_fmap; by exists (m, w')).
  destruct H1 as [E1|H1], H2 as [E2|H2]; simplify_eq; [done|by destruct Hm; eapply Hin|by destruct Hm; eapply Hin|by apply IH].
Qed.

(** The state of [update_rule] between two new attributes: [P] are the attributes of the rule, [O] the
    old ones that have not been found. *)
Definition updating (P O : list attribute) (r : PathMapRule) : Prop :=
  pr_attrs r = P /\ NoDup (names (P ++ O)) /\ forall f, stands (P ++ O) f (get_field f r).

Lemma updating_perm P O O' r : O ≡ₚ O' -> updating P O r -> updating P O' r.
Proof.
  intros Hp (Ha & Hnd & Hst). split; [done|]. split.
  - by rewrite <- (names_perm _ _ (Permutation_app_head P Hp)).
  - intros f. eapply stands_ext; [|apply Hst]. intros a. by rewrite Hp.
Qed.

(** An old attribute is kept. *)
Lemma update_keep P O name v r :
  updating P ((name, v) :: O) r ->
  exists r', runs (append_attr (name, v)) r tt r' /\ updating (P ++ [(name, v)]) O r'.
Proof.
  intros (Ha & Hnd & Hst). eexists. split; [apply runs_modify|]. split; [by cbn; rewrite Ha|].
  rewrite <- app_assoc. cbn [app]. split; [done|]. intros f. rewrite get_rule_attrs. apply Hst.
Qed.

(** A new attribute, with no old one of its name left. *)
Lemma update_new P O name v r (p : field -> cptr) :
  pr_attrs r = P -> NoDup (names (P ++ O)) -> name ∉ names (P ++ O) ->
  (field_of name <> None -> exists so, value_of v so) ->
  (forall f, field_of name <> Some f -> stands (P ++ O) f (get_field f r)) ->
  (forall f, get_field f r <> Freed) ->
  exists r', runs (new_value name v) r tt r' /\ updating (P ++ [(name, v)]) O r'.
Proof.
  intros Ha Hnd Hn Hv Hst Hfr. destruct (new_value_runs name v (P ++ O) r Hn Hv Hst Hfr) as (r' & R' & Ha' & Hst').
  exists r'. split; [done|]. split; [by rewrite Ha', Ha|]. rewrite <- app_assoc. cbn [app].
  assert (Hp : P ++ (name, v) :: O ≡ₚ (name, v) :: P ++ O) by (by rewrite Permutation_middle).
  split.
  - rewrite (names_perm _ _ Hp). by apply NoDup_cons.
  - intros f. eapply stands_ext; [|apply Hst']. intros a. by rewrite Hp.
Qed.

Lemma update_loop_runs N P O r d :
  updating P O r -> NoDup (names (P ++ N)) ->
  Forall (fun a => field_of (fst a) <> None -> exists so, value_of (snd a) so) N ->
  exists O' d' r', runs (update_loop N O d) r (O', d') r' /\ updating (P ++ N) O' r' /\ d <= d' /\
    (d' = d <-> Forall (fun a => a ∈ O) N) /\ (forall a, a ∈ O' <-> a ∈ O /\ fst a ∉ names N).
Proof.
  revert P O r d. induction N as [|[name v] N IH]; intros P O r d Hu HN Hv; cbn [update_loop].
  { exists O, d, r. rewrite app_nil_r. split_and!; [apply runs_ret|done|lia|by split; [constructor|]|].
    intros a. split; [|by intros [? _]]. intros ?. split; [done|apply not_elem_of_nil]. }
  apply Forall_cons in Hv as [Hv1 Hv]. cbn [fst snd] in Hv1.
  assert (HN' : NoDup (names ((P ++ [(name, v)]) ++ N))) by (by rewrite <- app_assoc).
  assert (HnN : name ∉ names N).
  { unfold names in HN. rewrite map_app in HN. apply NoDup_app in HN as (_ & _ & HN). by apply NoDup_cons in HN as [? _]. }
  assert (HnP : name ∉ names P).
  { unfold names in *. rewrite map_app in HN. apply NoDup_app in HN as (_ & HN & _). intros Hin.
    apply (HN name Hin). apply list_elem_of_here. }
  assert (Hlast : forall (O1 O' : list attribute), (forall a, a ∈ O' <-> a ∈ O1 /\ fst a ∉ names N) ->
    (forall a, fst a <> name -> a ∈ O1 <-> a ∈ O) -> (forall v', (name, v') ∉ O1) ->
    forall a, a ∈ O' <-> a ∈ O /\ fst a ∉ names ((name, v) :: N)).
  { intros O1 O' HO' HO1 Hno [n w]. rewrite HO'. cbn [names map fst]. rewrite not_elem_of_cons. destruct (decide (n = name)) as [->|Hne].
    - split; [intros [H _]; by apply Hno in H|intros [_ [H _]]; done].
    - rewrite (HO1 (n, w)) by done. tauto. }
  pose proof (take_attr_spec name O) as Ht. destruct (take_attr name O) as [[ov O1]|].
  - pose proof (updating_perm _ _ _ _ Ht Hu) as Hu1.
    assert (HO1 : forall a, fst a <> name -> a ∈ O1 <-> a ∈ O).
    { intros [n w] Hne. rewrite Ht, elem_of_cons. split; [by right|]. intros [[= -> _]|?]; done. }
    assert (HnO1 : name ∉ names (P ++ O1)).
    { destruct Hu1 as (_ & Hnd & _). unfold names in *. rewrite map_app in *. cbn [map fst] in Hnd.
      rewrite <- Permutation_middle in Hnd. by apply NoDup_cons in Hnd as [? _]. }
    assert (Hno : forall v', (name, v') ∉ O1).
    { intros v' Hin. apply HnO1. unfold names. rewrite map_app. apply elem_of_app. right. apply list_elem_of_fmap. by exists (name, v'). }
    assert (Hsub : Forall (fun a => a ∈ O1) N <-> Forall (fun a => a ∈ O) N).
    { rewrite !Forall_forall. split; intros H a Ha; apply HO1; auto; intros E; apply HnN; rewrite <- E;
        apply list_elem_of_fmap; by exists a. }
    unfold streq. case_bool_decide as Ev.
    + subst ov. destruct (update_keep _ _ _ _ _ Hu1) as (r1 & R1 & Hu2).
      destruct (IH _ _ _ d Hu2 HN' Hv) as (O' & d' & r' & R' & Hu' & Hd & Hiff & HO').
      exists O', d', r'. split_and!.
      * eapply runs_bind; [exact R1|exact R'].
      * by rewrite <- app_assoc in Hu'.
      * done.
      * rewrite Hiff, Forall_cons, Hsub. split; [|tauto]. intros ?. split; [|done]. rewrite Ht. apply list_elem_of_here.
      * by apply (Hlast O1).
    + destruct Hu1 as (Ha & Hnd & Hst).
      assert (Hnd1 : NoDup (names (P ++ O1))).
      { unfold names in *. rewrite map_app in *. cbn [map] in Hnd. rewrite <- Permutation_middle in Hnd. by apply NoDup_cons in Hnd as [_ ?]. }
      destruct (update_new P O1 name v r (fun f => get_field f r) Ha Hnd1 HnO1 Hv1) as (r1 & R1 & Hu2).
      { intros f Hf. eapply stands_cons_ne; [exact Hf|]. eapply stands_ext; [|apply Hst]. intros a.
        rewrite <- (Permutation_middle P O1 (name, ov)). done. }
      { intros f. eapply stands_not_freed, Hst. }
      destruct (IH _ _ _ (d + 1) Hu2 HN' Hv) as (O' & d' & r' & R' & Hu' & Hd & Hiff & HO').
      exists O', d', r'. split_and!.
      * eapply runs_bind; [exact R1|exact R'].
      * by rewrite <- app_assoc in Hu'.
      * lia.
      * split; [lia|]. rewrite Forall_cons. intros [Hin _]. exfalso. apply Ev.
        destruct Hu as (_ & Hnd0 & _). unfold names in Hnd0. rewrite map_app in Hnd0. apply NoDup_app in Hnd0 as (_ & _ & Hnd0).
        eapply (names_value O name ov v Hnd0); [|exact Hin]. rewrite Ht. apply list_elem_of_here.
      * by apply (Hlast O1).
  - destruct Hu as (Ha & Hnd & Hst).
    assert (HnO : name ∉ names (P ++ O)) by (unfold names in *; rewrite map_app; by apply not_elem_of_app).
    destruct (update_new P O name v r (fun f => get_field f r) Ha Hnd HnO Hv1) as (r1 & R1 & Hu2); [by intros; apply Hst| |].
    { intros f. eapply stands_not_freed, Hst. }
    destruct (IH _ _ _ (d + 1) Hu2 HN' Hv) as (O' & d' & r' & R' & Hu' & Hd & Hiff & HO').
    assert (Hno : forall v', (name, v') ∉ O).
    { intros v' Hin. apply Ht. apply list_elem_of_fmap. by exists (name, v'). }
    exists O', d', r'. split_and!.
    + eapply runs_bind; [exact R1|exact R'].
    + by rewrite <- app_assoc in Hu'.
    + lia.
    + split; [lia|]. rewrite Forall_cons. intros [Hin _]. by apply Hno in Hin.
    + by apply (Hlast O).
Qed.

Lemma remove_loop_runs O P r d :
  updating P O r ->
  exists r', runs (remove_loop O d) r (d + Z.of_nat (length O)) r' /\ updating P [] r'.
Proof.
  revert r d. induction O as [|[name v] O IH]; intros r d Hu; cbn [remove_loop length].
  { exists r. split; [|done]. replace (d + Z.of_nat 0) with d by lia. apply runs_ret. }
  destruct Hu as (Ha & Hnd & Hst).
  assert (Hp : P ++ (name, v) :: O ≡ₚ (name, v) :: P ++ O) by (by rewrite Permutation_middle).
  rewrite (names_perm _ _ Hp) in Hnd. apply NoDup_cons in Hnd as [Hn Hnd].
  assert (Hst' : forall f, stands ((name, v) :: P ++ O) f (get_field f r)).
  { intros f. eapply stands_ext; [|apply Hst]. intros a. by rewrite Hp. }
  assert (Hone : exists r1, runs (match field_of name with
      | Some f => free_field f ;! modify (set_field f Null) | None => ret tt end) r tt r1 /\ updating P O r1).
  { destruct (field_of name) as [f|] eqn:Ef.
    - destruct (free_field_runs f r) as (p & R1 & Ha1); [eapply stands_not_freed, Hst'|].
      exists (set_field f Null (set_field f p r)). split; [by eapply runs_bind; [exact R1|apply runs_modify]|].
      split; [by rewrite !attrs_set_field|]. split; [done|]. intros g. rewrite get_set_field. case_decide as Eg.
      + subst g. by apply (stands_none _ name).
      + rewrite get_set_field, decide_False by done. eapply stands_cons_ne; [|apply Hst']. congruence.
    - exists r. split; [apply runs_ret|]. split; [done|]. split; [done|]. intros g.
      eapply stands_cons_ne; [|apply Hst']. by rewrite Ef. }
  destruct Hone as (r1 & R1 & Hu1). destruct (IH r1 (d + 1) Hu1) as (r' & R' & Hu'). exists r'. split; [|done].
  eapply runs_bind; [exact R1|]. replace (d + Z.of_nat (S (length O))) with (d + 1 + Z.of_nat (length O)) by lia. exact R'.
Qed.

Lemma update_rule_runs new r :
  rule_ok r -> attrs_ok new ->
  exists diff r', runs (update_rule new) r diff r' /\ rule_ok r' /\ pr_attrs r' = new /\ 0 <= diff /\
    (diff = 0 <-> new ≡ₚ pr_attrs r).
Proof.
  intros [Ha Hf] Hnew. set (r0 := set_rule_attrs [] r).
  assert (Hu : updating [] (pr_attrs r) r0).
  { split; [done|]. split; [apply Ha|]. intros f. subst r0. rewrite get_rule_attrs. apply Hf. }
  destruct (update_loop_runs new [] (pr_attrs r) r0 0 Hu (ao_names _ Hnew) (ao_values _ Hnew))
    as (O' & d & r1 & R1 & Hu1 & Hd & Hiff & HO').
  cbn [app] in Hu1. destruct (remove_loop_runs O' new r1 d Hu1) as (r2 & R2 & (Ha2 & _ & Hst2)).
  exists (d + Z.of_nat (length O')), r2. rewrite app_nil_r in Hst2. split_and!.
  - eapply runs_bind; [apply runs_gets|]. eapply runs_bind; [apply runs_modify|]. fold r0.
    eapply runs_bind; [exact R1|]. exact R2.
  - constructor; rewrite Ha2; done.
  - done.
  - lia.
  - assert (E : d + Z.of_nat (length O') = 0 <-> d = 0 /\ O' = []) by (destruct O'; cbn [length]; intuition (try done; lia)).
    rewrite E, Hiff. rewrite Forall_forall. split.
    + intros [Hin ->]. apply NoDup_Permutation.
      * eapply NoDup_fmap_1, (ao_names _ Hnew).
      * eapply NoDup_fmap_1, (ao_names _ Ha).
      * intros [n v]. split; [apply Hin|]. intros Ho.
        destruct (decide (n ∈ names new)) as [Hn|Hn].
        -- apply list_elem_of_fmap in Hn as ([n' v'] & E1 & Hn). cbn in E1. subst n'.
           by rewrite (names_value _ n v v' (ao_names _ Ha) Ho (Hin _ Hn)).
        -- exfalso. apply (not_elem_of_nil (n, v)). apply HO'. done.
    + intros Hp. split; [by intros a; rewrite Hp|]. destruct O' as [|a O']; [done|]. exfalso.
      destruct (proj1 (HO' a) (list_elem_of_here _ _)) as [Hin Hn]. apply Hn. apply list_elem_of_fmap. exists a.
      by rewrite Hp.
Qed.

Lemma zero_rule_ok : rule_ok zero_rule.
Proof.
  constructor.
  - constructor; [apply NoDup_nil_2|constructor].
  - intros f. right. split; [|by destruct f]. intros n v Hin. by apply elem_of_nil in Hin.
Qed.

Lemma free_rule_runs r : (forall f, get_field f r <> Freed) -> runs free_rule r tt zero_rule.
Proof.
  intros Hf. unfold free_rule.
  assert (Hstep : forall f (k : M PathMapRule unit) r0, get_field f r0 <> Freed ->
    (forall p, runs k (set_field f p r0) tt zero_rule) -> runs (free_field f ;! k) r0 tt zero_rule).
  { intros f k r0 H0 Hk. destruct (free_field_runs f r0 H0) as (p & R1 & _). eapply runs_bind; [exact R1|apply Hk]. }
  repeat (apply Hstep; [rewrite ?get_set_field; repeat (rewrite decide_False by done); apply Hf|intros ?]). done.
Qed.


(** ** Names *)

Definition ends_separator (s : list Z) : bool := is_separator (match last s with Some ch => ch | None => 0 end).

Lemma str_from_runs s k (st : PathMaps) : 0 <= k <= Z.of_nat (length s) -> runs (str_from s k) st (drop (Z.to_nat k) s) st.
Proof.
  intros Hk. unfold str_from. rewrite (proj2 (Z.leb_le 0 k)), (proj2 (Z.leb_le k _)) by lia. apply runs_ret.
Qed.

Lemma str_at_runs s k (st : PathMaps) : 0 <= k <= Z.of_nat (length s) -> runs (str_at s k) st (deref (drop (Z.to_nat k) s)) st.
Proof. intros Hk. eapply runs_bind; [by apply str_from_runs|apply runs_ret]. Qed.

Section MapRule.
Variables (src dst s : list Z) (st : PathMaps).
Hypothesis src_canonic : canonic_path_map_file_name src = Some s.
Hypothesis s_length : Z.of_nat (length s) < 2 ^ 32.
Hypothesis s_shorter : (length s <= length src)%nat.

Lemma length_k : uwrap 32 (Z.of_nat (length s)) = Z.of_nat (length s).
Proof. apply uwrap_small. lia. Qed.

Lemma map_no_prefix fnm : ~ s `prefix_of` fnm -> runs (map_by_rule src dst fnm) st None st.
Proof.
  intros Hp. unfold map_by_rule. rewrite src_canonic. cbv zeta. unfold streq. rewrite bool_decide_eq_false_2; [apply runs_ret|].
  intros E. apply Hp. exists (drop (length s) fnm). by rewrite <- E at 1; rewrite take_drop.
Qed.

Lemma map_prefix rest a st' :
  runs (let! c := str_at (s ++ rest) (Z.of_nat (length s)) in
        if c =? 0 then ret (Some dst)
        else
          if negb (is_separator c) then
            let! skip :=
              (if negb (ends_separator dst) then
                 let! ch := (if Z.of_nat (length s) =? 0 then ret 0 else str_at src (Z.of_nat (length s) - 1)) in
                 ret (negb (is_separator ch))
               else ret false) in
            if skip then ret None
            else let! r := str_from (s ++ rest) (uwrap 32 (Z.of_nat (length s) - 1)) in ret (Some (dst ++ r))
          else
            let! r := str_from (s ++ rest) (if ends_separator dst then Z.of_nat (length s) + 1 else Z.of_nat (length s)) in
            ret (Some (dst ++ r))) st a st' ->
  runs (map_by_rule src dst (s ++ rest)) st a st'.
Proof.
  intros H. unfold map_by_rule. rewrite src_canonic. cbv zeta. rewrite take_app_length. unfold streq.
  rewrite bool_decide_eq_true_2 by done. cbn [negb]. rewrite length_k. exact H.
Qed.

Lemma str_at_k rest : runs (str_at (s ++ rest) (Z.of_nat (length s))) st (deref rest) st.
Proof.
  pose proof (str_at_runs (s ++ rest) (Z.of_nat (length s)) st) as H. rewrite Nat2Z.id, drop_app_length in H.
  apply H. rewrite length_app. lia.
Qed.

Lemma map_exact : runs (map_by_rule src dst s) st (Some dst) st.
Proof.
  rewrite <- (app_nil_r s) at 1. apply map_prefix. eapply runs_bind; [apply str_at_k|]. apply runs_ret.
Qed.

Lemma map_inside c rest : is_separator c = true ->
  runs (map_by_rule src dst (s ++ c :: rest)) st
    (Some (dst ++ if ends_separator dst then rest else c :: rest)) st.
Proof.
  intros Hc. apply map_prefix. eapply runs_bind; [apply str_at_k|]. cbn [deref hd].
  assert (Hc0 : (c =? 0) = false) by (destruct (Z.eqb_spec c 0) as [->|]; done). rewrite Hc0, Hc. cbn [negb].
  destruct (ends_separator dst).
  - pose proof (str_from_runs (s ++ c :: rest) (Z.of_nat (length s) + 1) st) as H.
    replace (drop (Z.to_nat (Z.of_nat (length s) + 1)) (s ++ c :: rest)) with rest in H.
    + eapply runs_bind; [apply H; rewrite length_app; cbn; lia|apply runs_ret].
    + replace (Z.to_nat (Z.of_nat (length s) + 1)) with (length (s ++ [c])) by (rewrite length_app; cbn; lia).
      replace (s ++ c :: rest) with ((s ++ [c]) ++ rest) by (by rewrite <- app_assoc). by rewrite drop_app_length.
  - pose proof (str_from_runs (s ++ c :: rest) (Z.of_nat (length s)) st) as H. rewrite Nat2Z.id, drop_app_length in H.
    eapply runs_bind; [apply H; rewrite length_app; lia|apply runs_ret].
Qed.

Lemma map_mid_name c rest : name_char c -> s <> [] -> ends_separator dst = false ->
  is_separator (deref (drop (length s - 1) src)) = false ->
  runs (map_by_rule src dst (s ++ c :: rest)) st None st.
Proof.
  intros Hc Hs Hd Hl. apply map_prefix. eapply runs_bind; [apply str_at_k|]. cbn [deref hd].
  rewrite (name_char_separator _ Hc), (proj2 (Z.eqb_neq c 0)) by (by destruct Hc). cbn [negb]. rewrite Hd. cbn [negb].
  assert (Hn : (0 < length s)%nat) by (destruct s; [done|cbn; lia]).
  rewrite (proj2 (Z.eqb_neq _ 0)) by lia. apply (runs_bind _ _ _ true st); [|apply runs_ret].
  pose proof (str_at_runs src (Z.of_nat (length s) - 1) st) as H.
  replace (Z.to_nat (Z.of_nat (length s) - 1)) with (length s - 1)%nat in H by lia.
  eapply runs_bind; [apply H; lia|]. rewrite Hl. apply runs_ret.
Qed.
End MapRule.

(** What a rule with a source and a destination does to a canonical file name: a name that does
    not begin with the canonical source is not mapped; the source itself becomes the destination; in
    the name of a file in the source directory the source is replaced by the destination, with one
    separator in between; and a name that goes on in the middle of a component is not mapped, if the
    destination does not end with a separator. *)
Theorem map_by_rule_correct src dst st : Z.of_nat (length src) < 2 ^ 32 ->
  exists s, canonic_path_map_file_name src = Some s /\
    (forall fnm, ~ s `prefix_of` fnm -> runs (map_by_rule src dst fnm) st None st) /\
    runs (map_by_rule src dst s) st (Some dst) st /\
    (forall c rest, is_separator c = true ->
       runs (map_by_rule src dst (s ++ c :: rest)) st
         (Some (dst ++ if ends_separator dst then rest else c :: rest)) st) /\
    (forall c rest, name_char c -> s <> [] -> ends_separator dst = false ->
       is_separator (deref (drop (length s - 1) src)) = false ->
       runs (map_by_rule src dst (s ++ c :: rest)) st None st).
Proof.
  intros Hl. destruct (canonic_total (S (length src)) src [] ltac:(lia) I) as (s & Hs & Hlen & _).
  assert (Hc : canonic_path_map_file_name src = Some s) by (apply Hs; cbn; lia). cbn [length] in Hlen.
  exists s. split; [done|]. split_and!.
  - intros fnm Hp. apply map_no_prefix with s; (done || lia).
  - apply map_exact; (done || lia).
  - intros c rest Hsep. apply map_inside; (done || lia).
  - intros c rest Hch Hs0 Hd Hlast. apply map_mid_name; (done || lia).
Qed.

(** Runs on names and rules the code handles badly.  The drive is removed by "..", a separator after "." is
    kept, which makes a relative name absolute, and of several separators at the end one is left.  A
    destination that ends with a separator defeats the test that prevents a match in the middle of a
    component, and with an empty source (or "./") it makes the code read far outside of the name.  A
    value that is not a string leaves the rule with a pointer to the string that has been freed, which
    is used, or freed again, later. *)
Example path_map_flaws st :
  canonic_path_map_file_name (str "c:/../x") = Some (str "x") /\
  canonic_path_map_file_name (str ".//b") = Some (str "/b") /\
  canonic_path_map_file_name (str "a//") = Some (str "a/") /\
  runs (map_by_rule (str "/a") (str "/x") (str "/ab")) st None st /\
  runs (map_by_rule (str "/a") (str "/x/") (str "/ab")) st (Some (str "/x/ab")) st /\
  fst (map_by_rule (str "./") (str "/x/") (str "ab") st) = Fault /\
  (let source v := [(str "Source", v)] in
   let rule := mkRule (source ([ch_quote] ++ str "a" ++ [ch_quote])) (Owned (str "a")) Null Null Null Null Null in
   let broken := snd (update_rule (source (str "5")) rule) in
   runs (update_rule (pr_attrs rule)) zero_rule 1 rule /\
   throws (update_rule (source (str "5"))) rule ERR_PROTOCOL /\
   pr_src broken = Freed /\ fst (free_rule broken) = Fault).
Proof. cbv zeta. repeat split; reflexivity. Qed.

(** ** Witnesses *)

Definition demo_attrs : list attribute :=
  [(str "Source", string_text (Some (str "/src"))); (str "Destination", string_text (Some (str "/home/me")));
   (str "ID", str "17")].

Lemma demo_attrs_ok : attrs_ok demo_attrs.
Proof.
  constructor.
  - unfold demo_attrs, names. cbn [map fst]. repeat (apply NoDup_cons; split; [set_solver|]). apply NoDup_nil_2.
  - repeat (apply Forall_cons; split); [..|constructor]; cbn [fst snd]; intros H.
    + exists (Some (str "/src")). split; [done|]. split; [apply str_bytes|by repeat constructor].
    + exists (Some (str "/home/me")). split; [done|]. split; [apply str_bytes|by repeat constructor].
    + by destruct H.
Qed.


Lemma map_by_rule_correct_witness :
  exists s, canonic_path_map_file_name (str "/src/") = Some s /\
    (forall fnm, ~ s `prefix_of` fnm -> runs (map_by_rule (str "/src/") (str "/home") fnm) (mkMaps [] [] [] [] 0) None (mkMaps [] [] [] [] 0)) /\
    runs (map_by_rule (str "/src/") (str "/home") s) (mkMaps [] [] [] [] 0) (Some (str "/home")) (mkMaps [] [] [] [] 0) /\
    (forall c rest, is_separator c = true ->
       runs (map_by_rule (str "/src/") (str "/home") (s ++ c :: rest)) (mkMaps [] [] [] [] 0)
         (Some (str "/home" ++ if ends_separator (str "/home") then rest else c :: rest)) (mkMaps [] [] [] [] 0)) /\
    (forall c rest, name_char c -> s <> [] -> ends_separator (str "/home") = false ->
       is_separator (deref (drop (length s - 1) (str "/src/"))) = false ->
       runs (map_by_rule (str "/src/") (str "/home") (s ++ c :: rest)) (mkMaps [] [] [] [] 0) None (mkMaps [] [] [] [] 0)).
Proof. apply map_by_rule_correct. vm_compute. reflexivity. Defined.
