(* ===== verification/PathService.v ===== *)
(** * The PathMap service (PathMap.v, services/pathmap.c)

    The command "set" makes the rules it reads the rules of its channel, and the command "get" writes
    them back. *)

From S2P Require Import Prelude Streams JsonWrite JsonRead JsonStruct JsonCopy ChannelOut ContextQuery.
From S2P Require Import ContextProps PathMap PathNames PathRules.

(** ** Maps *)

Lemma find_update c d f maps :
  (forall m, pm_channel (f m) = pm_channel m) ->
  find_map d (update_map c f maps) = if decide (d = c) then f <$> find_map d maps else find_map d maps.
Proof.
  intros Hf. unfold find_map. induction maps as [|m maps IH]; cbn [update_map List.find].
  - by case_decide.
  - destruct (Z.eqb_spec (pm_channel m) c) as [Ec|Ec]; cbn [List.find].
    + rewrite Hf, Ec. case_decide as Ed.
      * subst d. by rewrite Z.eqb_refl.
      * by rewrite (proj2 (Z.eqb_neq c d)) by congruence.
    + destruct (Z.eqb_spec (pm_channel m) d) as [E|E]; [|exact IH].
      rewrite decide_False by congruence. done.
Qed.

(** A map with consistent rules, within their array. *)
Record map_ok (m : PathMap) : Prop := {
  mo_rules : Forall rule_ok (pm_rules m);
  mo_max : Z.of_nat (length (pm_rules m)) <= pm_rules_max m }.

(** At most one map for a channel, and consistent maps. *)
Definition maps_ok (s : PathMaps) : Prop :=
  NoDup (map pm_channel (ps_maps s)) /\ forall c m, find_map c (ps_maps s) = Some m -> map_ok m.

Lemma find_map_some c maps : (exists m, find_map c maps = Some m) <-> c ∈ map pm_channel maps.
Proof.
  unfold find_map. induction maps as [|m maps IH]; cbn [List.find map].
  - split; [by intros [? ?]|by intros ?%elem_of_nil].
  - rewrite elem_of_cons. destruct (Z.eqb_spec (pm_channel m) c) as [E|E]; [|rewrite IH; intuition congruence].
    split; [by left|]. by exists m.
Qed.

Lemma find_map_none c maps : find_map c maps = None <-> c ∉ map pm_channel maps.
Proof.
  rewrite <- find_map_some. destruct (find_map c maps) as [m|]; [|split; [by intros _ [m ?]|done]].
  split; [done|]. intros Hn. destruct Hn. by exists m.
Qed.

Lemma update_channels c f maps : (forall m, pm_channel (f m) = pm_channel m) ->
  map pm_channel (update_map c f maps) = map pm_channel maps.
Proof.
  intros Hf. induction maps as [|m maps IH]; [done|]. cbn [update_map map]. destruct (pm_channel m =? c); cbn [map].
  - by rewrite Hf.
  - by rewrite IH.
Qed.

Lemma find_remove c d maps : d <> c -> find_map d (remove_map c maps) = find_map d maps.
Proof.
  intros Hd. unfold find_map. induction maps as [|m maps IH]; [done|]. cbn [remove_map List.find].
  destruct (Z.eqb_spec (pm_channel m) c) as [E|E]; cbn [List.find]; [|by rewrite IH].
  by rewrite (proj2 (Z.eqb_neq (pm_channel m) d)) by congruence.
Qed.

Lemma remove_channels c maps : NoDup (map pm_channel maps) ->
  NoDup (map pm_channel (remove_map c maps)) /\ c ∉ map pm_channel (remove_map c maps) /\
  forall d, d ∈ map pm_channel (remove_map c maps) -> d ∈ map pm_channel maps.
Proof.
  induction maps as [|m maps IH]; cbn [remove_map map]; [intros _; split; [constructor|]; split; [apply not_elem_of_nil|done]|].
  intros [Hm Hn]%NoDup_cons. destruct (IH Hn) as (H1 & H2 & H3). destruct (Z.eqb_spec (pm_channel m) c) as [E|E]; cbn [map].
  - subst c. split; [done|]. split; [done|]. intros d Hd. by right.
  - split; [apply NoDup_cons; split; [intros ?%H3; done|done]|]. split; [by rewrite elem_of_cons; intros [?|?]|].
    intros d. rewrite !elem_of_cons. intros [?|?%H3]; auto.
Qed.

(** The maps of the other channels. *)
Definition others_same (c : Z) (s s' : PathMaps) : Prop :=
  forall d, d <> c -> find_map d (ps_maps s') = find_map d (ps_maps s).

(** ** The texts of rules *)

(** The text of a rule: an object with its attributes. *)
Definition rule_text (attrs : list attribute) : list Z :=
  object_text (map (fun a => string_text (Some (fst a)) ++ ch_colon :: snd a) attrs).

(** Attributes the service can read and write: names of up to 255 bytes without zeros, and values that are JSON
    texts without white space and binary parts. *)
Definition attr_text_ok (fuel : nat) (a : attribute) : Prop :=
  bytes (fst a) /\ nonzero (fst a) /\ (length (fst a) <= 255)%nat /\ jvalue false (snd a) (snd a) /\
  bytes (snd a) /\ nonzero (snd a) /\ (length (snd a) < fuel)%nat.

Record rules_ok (fuel : nat) (rules : list (list attribute)) : Prop := {
  rk_attrs : Forall attrs_ok rules;
  rk_texts : Forall (Forall (attr_text_ok fuel)) rules;
  rk_fuel : Forall (fun attrs => (length attrs <= fuel)%nat) rules /\ (length rules <= fuel)%nat /\
            (ULONG_DIGITS < fuel)%nat /\ (255 < fuel)%nat }.

(** ** Reading rules *)

Section SetGet.
Context {IS OS : Type} `{InputStreamLaws IS} `{OutputStreamLaws OS}.
Variable fuel : nat.

(** The stream with the static variables yields the symbols of the stream, and reading leaves the
    variables alone. *)
Program Definition maps_laws (pm : PathMaps) : InputStreamLaws (WithMaps IS) :=
  {| yields s l := yields (wm_inp s) l /\ wm_maps s = pm |}.
Next Obligation.
  intros pm s x l [Hy Hm] Hw. destruct (yields_read (wm_inp s) x l Hy Hw) as (i & Hr & Hi).
  cbn [is_read with_maps_stream]. unfold zoom. rewrite Hr. by eexists.
Qed.
Next Obligation.
  intros pm s x l [Hy Hm] Hw. destruct (yields_peek (wm_inp s) x l Hy Hw) as (i & Hr & Hi).
  cbn [is_peek with_maps_stream]. unfold zoom. rewrite Hr. by eexists.
Qed.
Next Obligation. intros pm s x l b w [Hy Hm] Hw. by eapply yields_window. Qed.
Next Obligation. intros pm s n l [Hy Hm] Hw Hl. split; [by apply yields_advance|done]. Qed.
Next Obligation. intros pm s n Hn. exact (window_advance (wm_inp s) n Hn). Qed.
Next Obligation. intros pm s l k [Hy Hm]. split; [by eapply yields_prefix|done]. Qed.

(** The input yields [l] and the static variables are [pm]. *)
Definition at_maps (pm : PathMaps) (s : Json (WithMaps IS)) (l : list Z) : Prop :=
  yields (wm_inp (js_inp s)) l /\ wm_maps (js_inp s) = pm.

Lemma on_maps_runs {A} (m : M PathMaps A) pm a pm' s l :
  at_maps pm s l -> runs m pm a pm' -> exists s', runs (on_maps m) s a s' /\ at_maps pm' s' l.
Proof.
  intros [Hy Hm] Hr. exists (mkJson (mkWM (wm_inp (js_inp s)) pm') (js_buf s) (js_size s)). split; [|done].
  unfold on_maps, runs, zoom. rewrite Hm. unfold runs in Hr. by rewrite Hr.
Qed.

(** A reader that has nothing to do with the static variables. *)
Lemma takes_maps {A} P (m : M (Json (WithMaps IS)) A) l a pm s rest :
  @jtakes _ _ (maps_laws pm) A P m l a -> P rest -> at_maps pm s (l ++ rest) ->
  exists s', runs m s a s' /\ at_maps pm s' rest.
Proof. intros Hm HP Hy. apply (Hm s rest HP Hy). Qed.

Lemma item_value_end rest : item_end rest -> value_end rest.
Proof. destruct rest as [|c rest]; [done|]. by intros [->|[-> | ->]]. Qed.

Lemma read_rule_attrs_takes pm t a : attr_text_ok fuel a -> (ULONG_DIGITS < fuel)%nat ->
  @jtakes _ _ (maps_laws pm) _ item_end (read_rule_attrs fuel (take 255 (fst a)) t) (snd a) (t ++ [a]).
Proof.
  intros (Hb & Hnz & Hl & Hv & Hbv & Hz & Hf) Hd s rest Hr Hy.
  destruct (@read_object_runs _ _ (maps_laws pm) fuel false (snd a) (snd a) [] s rest Hv) as (s1 & R1 & Y1);
    [constructor|by apply item_value_end|cbn; lia|done|done|exact Hy|].
  exists s1. split; [|exact Y1]. eapply runs_bind; [exact R1|].
  rewrite cstr_nonzero by done. rewrite take_ge by done. destruct a. apply runs_ret.
Qed.

Lemma read_attrs_takes pm P attrs : Forall (attr_text_ok fuel) attrs -> (length attrs <= fuel)%nat ->
  (ULONG_DIGITS < fuel)%nat -> (255 < fuel)%nat ->
  @jtakes _ _ (maps_laws pm) _ P (json_read_struct fuel (read_rule_attrs fuel) []) (rule_text attrs) (true, attrs).
Proof.
  intros Ha Hn Hd H255.
  assert (Hfold : forall (l t : list attribute), fold_left (fun t a => t ++ [a]) l t = t ++ l).
  { intros l. induction l as [|a l IH]; intros t; [by rewrite app_nil_r|]. cbn [fold_left]. by rewrite IH, <- app_assoc. }
  pose proof (@jtakes_struct _ _ (maps_laws pm) (list attribute) attribute snd (fun t a => t ++ [a]) fuel ltac:(lia) fst P
    (read_rule_attrs fuel) attrs [] Hn) as Hs.
  rewrite Hfold in Hs. apply Hs.
  - intros a Hin. rewrite Forall_forall in Ha. destruct (Ha a Hin) as (Hb & _ & Hl & _). split_and!; [done|lia|lia].
  - intros t a Hin. apply read_rule_attrs_takes; [|done]. rewrite Forall_forall in Ha. by apply Ha.
Qed.

(** ** Changing the maps *)

Lemma map_changed c f pm m :
  (forall m, pm_channel (f m) = pm_channel m) -> find_map c (ps_maps pm) = Some m -> map_ok (f m) -> maps_ok pm ->
  let pm' := set_maps (update_map c f (ps_maps pm)) pm in
  find_map c (ps_maps pm') = Some (f m) /\ others_same c pm pm' /\ maps_ok pm'.
Proof.
  intros Hf Hm Hok [Hnd Hall] pm'.
  assert (Hc : find_map c (ps_maps pm') = Some (f m)).
  { subst pm'. unfold set_maps. cbn [ps_maps]. rewrite find_update by done. rewrite decide_True by done. by rewrite Hm. }
  assert (Ho : others_same c pm pm').
  { intros d Hd. subst pm'. unfold set_maps. cbn [ps_maps]. rewrite find_update by done. by rewrite decide_False. }
  split; [done|]. split; [done|]. split; [cbn; by rewrite update_channels|].
  intros d m' Hd. destruct (decide (d = c)) as [->|Hne].
  - rewrite Hc in Hd. by injection Hd as <-.
  - rewrite Ho in Hd by done. by eapply Hall.
Qed.

Lemma on_rule_runs {A} c i (u : M PathMapRule A) pm m r x r' :
  find_map c (ps_maps pm) = Some m -> pm_rules m !! i = Some r -> runs u r x r' ->
  runs (on_rule c i u) pm x
    (set_maps (update_map c (fun m => map_set_rules (<[i := r']> (pm_rules m)) m) (ps_maps pm)) pm).
Proof. intros Hm Hr Hu. unfold runs, on_rule. rewrite Hm, Hr. unfold runs in Hu. by rewrite Hu. Qed.

(** The rules of a channel. *)
Definition rules_of (c : Z) (pm : PathMaps) : list PathMapRule :=
  match find_map c (ps_maps pm) with Some m => pm_rules m | None => [] end.

Lemma others_trans c s1 s2 s3 : others_same c s1 s2 -> others_same c s2 s3 -> others_same c s1 s3.
Proof. intros H12 H23 d Hd. by rewrite H23, H12. Qed.

(** The state while the rules are read: [done] have been, and there are rules for [n]. *)
Record holds (pm0 : PathMaps) (c : Z) (done : list (list attribute)) (n : nat) (pm : PathMaps) (m : PathMap) : Prop := {
  ho_others : others_same c pm0 pm;
  ho_ok : maps_ok pm;
  ho_events : ps_events pm = ps_events pm0;
  ho_listeners : ps_listeners pm = ps_listeners pm0;
  ho_map : find_map c (ps_maps pm) = Some m;
  ho_length : length (pm_rules m) = Nat.max n (length (rules_of c pm0));
  ho_done : map pr_attrs (take (length done) (pm_rules m)) = done;
  ho_old : forall j, (length done <= j < length (rules_of c pm0))%nat -> pm_rules m !! j = rules_of c pm0 !! j }.

(** The first rules were the same, up to the order of attributes. *)
Definition unchanged (c : Z) (pm0 : PathMaps) (done : list (list attribute)) : Prop :=
  Forall2 Permutation done (map pr_attrs (take (length done) (rules_of c pm0))).

Definition reading (pm0 : PathMaps) (c : Z) (done : list (list attribute)) (b diff : bool) (pm : PathMaps) : Prop :=
  (diff = false <-> unchanged c pm0 done) /\
  if b then exists m, holds pm0 c done (length done) pm m
  else pm = pm0 /\ maps_ok pm0 /\ find_map c (ps_maps pm0) = None /\ done = [].

Lemma find_map_head c (rules : list PathMapRule) k pm :
  let pm' := set_maps (mkMap c rules k :: ps_maps pm) pm in
  find_map c (ps_maps pm') = Some (mkMap c rules k) /\ others_same c pm pm'.
Proof.
  unfold find_map. cbn [ps_maps set_maps List.find pm_channel]. rewrite Z.eqb_refl. split; [done|].
  intros d Hd. unfold find_map. cbn [ps_maps set_maps List.find pm_channel]. by rewrite (proj2 (Z.eqb_neq c d)) by congruence.
Qed.

(** The map of the channel is there. *)
Lemma reading_map pm0 c done b diff pm : reading pm0 c done b diff pm ->
  exists m, holds pm0 c done (length done) (if b then pm else set_maps (mkMap c [] 0 :: ps_maps pm) pm) m.
Proof.
  destruct b; [by intros [_ Hm]|]. intros (_ & -> & Hok & Hn & ->). exists (mkMap c [] 0).
  destruct (find_map_head c [] 0 pm0) as [Hc Ho].
  assert (E : rules_of c pm0 = []) by (unfold rules_of; by rewrite Hn).
  constructor; rewrite ?E; try done; cbn; try lia. split; [cbn; apply NoDup_cons; split; [by apply find_map_none|apply Hok]|]. intros d m Hd. destruct (decide (d = c)) as [->|Hne].
  - rewrite Hc in Hd. injection Hd as <-. by constructor.
  - rewrite Ho in Hd by done. by eapply Hok.
Qed.

Lemma grow_ok i m : map_ok m -> map_ok (grow_rules i m).
Proof.
  intros [Hr Hm]. unfold grow_rules. destruct_if; [|done]. constructor; cbn; [done|]. destruct_if; bool_to_prop; lia.
Qed.

Lemma grow_channel i m : pm_channel (grow_rules i m) = pm_channel m.
Proof. unfold grow_rules. by destruct_if. Qed.

Lemma grow_rules_rules i m : pm_rules (grow_rules i m) = pm_rules m.
Proof. unfold grow_rules. by destruct_if. Qed.

(** A change of the map while the rules are read. *)
Lemma holds_changed f pm0 c done n n' pm m :
  holds pm0 c done n pm m -> (forall m, pm_channel (f m) = pm_channel m) -> map_ok (f m) ->
  length (pm_rules (f m)) = Nat.max n' (length (rules_of c pm0)) ->
  map pr_attrs (take (length done) (pm_rules (f m))) = done ->
  (forall j, (length done <= j < length (rules_of c pm0))%nat -> pm_rules (f m) !! j = pm_rules m !! j) ->
  holds pm0 c done n' (set_maps (update_map c f (ps_maps pm)) pm) (f m).
Proof.
  intros [Ho Hok He Hl Hm Hlen Hd Hold] Hf Hfok Hflen Hfd Hfold.
  destruct (map_changed c f pm m Hf Hm Hfok Hok) as (Hm' & Ho' & Hok').
  constructor; try done; [by eapply others_trans|]. intros j Hj. rewrite Hfold by done. by apply Hold.
Qed.

(** There is a rule for the next attributes. *)
Lemma reading_slot pm0 c done pm m : holds pm0 c done (length done) pm m ->
  exists pm' m', holds pm0 c done (S (length done)) pm' m' /\ Z.of_nat (S (length done)) <= pm_rules_max m' /\
    (if (length (pm_rules m) <? S (length done))%nat
     then runs (add_rule c (length done)) pm tt pm' /\ (length (rules_of c pm0) <= length done)%nat
     else pm' = set_maps (update_map c (grow_rules (length done)) (ps_maps pm)) pm /\
          (length done < length (rules_of c pm0))%nat).
Proof.
  intros Hh. pose proof Hh as [_ Hok _ _ Hm Hlen Htk _]. set (i := length done) in *.
  pose proof (proj2 Hok _ _ Hm) as Hmok. pose proof (grow_ok i m Hmok) as Hg.
  destruct (Nat.ltb_spec (length (pm_rules m)) (S i)) as [Hlt|Hge].
  - assert (Ei : length (pm_rules m) = i) by lia.
    set (f := fun m => map_set_rules (pm_rules (grow_rules i m) ++ [zero_rule]) (grow_rules i m)).
    assert (Er : pm_rules (f m) = pm_rules m ++ [zero_rule]) by (cbn; by rewrite grow_rules_rules).
    assert (El : length (pm_rules (f m)) = S i) by (rewrite Er, length_app, Ei; cbn; lia).
    assert (Hmax : Z.of_nat (S i) <= pm_rules_max (f m)).
    { cbn. destruct Hmok as [_ Hmx0]. unfold grow_rules.
      destruct (Z.leb_spec (pm_rules_max m) (Z.of_nat i)); cbn; [|lia]. destruct_if; bool_to_prop; lia. }
    exists (set_maps (update_map c f (ps_maps pm)) pm), (f m). split; [|split; [done|split; [done|lia]]].
    eapply (holds_changed f); [exact Hh|intros; cbn; apply grow_channel| | | |].
    + constructor; [|by rewrite El]. rewrite Er, Forall_app. split; [apply Hmok|]. apply Forall_singleton, zero_rule_ok.
    + rewrite El. lia.
    + rewrite Er, take_app_le by lia. exact Htk.
    + intros j Hj. rewrite Er. apply lookup_app_l. lia.
  - eexists _, (grow_rules i m). split; [|split; [|split; [reflexivity|lia]]].
    + eapply (holds_changed (grow_rules i)); [exact Hh|apply grow_channel|done|..]; rewrite grow_rules_rules; [lia|done|done].
    + destruct Hg as [_ Hmx]. rewrite grow_rules_rules in Hmx. lia.
Qed.

Lemma take_insert_attrs i r (rules : list PathMapRule) : (i < length rules)%nat ->
  map pr_attrs (take (S i) (<[i := r]> rules)) = map pr_attrs (take i rules) ++ [pr_attrs r].
Proof.
  intros Hi. rewrite (take_S_r _ i r) by (by apply list_lookup_insert_eq). rewrite map_app, take_insert_ge by lia. done.
Qed.

Lemma Forall2_snoc {A} (P : A -> A -> Prop) l k x y :
  Forall2 P (l ++ [x]) (k ++ [y]) <-> Forall2 P l k /\ P x y.
Proof.
  split.
  - intros F. apply Forall2_app_inv in F as [Hl Hx].
    + split; [done|]. by inversion Hx.
    + apply Forall2_length in F. rewrite !length_app in F. cbn in F. lia.
  - intros [Hl Hx]. apply Forall2_app; [done|by constructor].
Qed.

(** One more rule. *)
Lemma unchanged_snoc c pm0 done attrs r :
  rules_of c pm0 !! length done = Some r ->
  unchanged c pm0 (done ++ [attrs]) <-> unchanged c pm0 done /\ attrs ≡ₚ pr_attrs r.
Proof.
  intros Hr. unfold unchanged. rewrite length_app. cbn [length]. rewrite Nat.add_1_r, (take_S_r _ _ r Hr), map_app.
  apply Forall2_snoc.
Qed.

Lemma unchanged_longer c pm0 done : (length (rules_of c pm0) < length done)%nat -> ~ unchanged c pm0 done.
Proof. intros Hl F%Forall2_length. rewrite length_map, length_take in F. lia. Qed.

(** The rule for the attributes is changed. *)
Lemma holds_insert pm0 c done pm m attrs r' :
  holds pm0 c done (S (length done)) pm m -> rule_ok r' -> pr_attrs r' = attrs ->
  let f m := map_set_rules (<[length done := r']> (pm_rules m)) m in
  exists m', holds pm0 c (done ++ [attrs]) (length (done ++ [attrs])) (set_maps (update_map c f (ps_maps pm)) pm) m'.
Proof.
  intros [Ho Hok He Hl Hm Hlen Hd Hold] Hr Hra f. pose proof (proj2 Hok _ _ Hm) as [Hfr Hfm].
  destruct (map_changed c f pm m) as (Hm' & Ho' & Hok'); [done|done| |done|].
  { constructor; cbn; [by apply Forall_insert|by rewrite length_insert]. }
  exists (f m). rewrite length_app. cbn [length]. constructor; try done; [by eapply others_trans|..]; cbn [f pm_rules map_set_rules].
  - rewrite length_insert. lia.
  - rewrite length_app. cbn [length]. rewrite Nat.add_1_r. rewrite take_insert_attrs by lia. by rewrite Hd, Hra.
  - intros j Hj. rewrite length_app in Hj. cbn [length] in Hj. rewrite list_lookup_insert_ne by lia. apply Hold. lia.
Qed.

(** A rule is read. *)
Lemma read_rule_runs pm0 c done b diff pm s attrs rest :
  reading pm0 c done b diff pm -> attrs_ok attrs -> Forall (attr_text_ok fuel) attrs -> (length attrs <= fuel)%nat ->
  (ULONG_DIGITS < fuel)%nat -> (255 < fuel)%nat -> at_maps pm s (rule_text attrs ++ rest) ->
  exists diff' pm' s', runs (read_rule fuel (mkRR c b (length done) diff)) s (mkRR c true (S (length done)) diff') s' /\
    reading pm0 c (done ++ [attrs]) true diff' pm' /\ at_maps pm' s' rest.
Proof.
  intros Hrd Ha Ht Hn Hd H255 Hy. set (i := length done).
  set (pm1 := if b then pm else set_maps (mkMap c [] 0 :: ps_maps pm) pm).
  assert (Hmk : exists s1, runs (if b then ret tt else on_maps (modify (fun pm => set_maps (mkMap c [] 0 :: ps_maps pm) pm)))
    s tt s1 /\ at_maps pm1 s1 (rule_text attrs ++ rest)).
  { subst pm1. destruct b; [exists s; split; [apply runs_ret|done]|]. eapply on_maps_runs; [exact Hy|done]. }
  destruct Hmk as (s1 & R1 & Y1). destruct (reading_map _ _ _ _ _ _ Hrd) as (m & Hh1). fold pm1 in Hh1.
  destruct (reading_slot _ _ _ _ _ Hh1) as (pm2 & m2 & Hh2 & Hmax & Hslot). fold i in Hslot, Hh2, Hmax.
  destruct (on_maps_runs (gets (fun pm => match find_map c (ps_maps pm) with
              | Some m => length (pm_rules m) | None => O end)) pm1 _ pm1 s1 _ Y1 (runs_gets _ _)) as (s2 & R2 & Y2).
  rewrite (ho_map _ _ _ _ _ _ Hh1) in R2.
  assert (Hgrow : exists d s3, runs (if (length (pm_rules m) <? S i)%nat then on_maps (add_rule c i) ;! ret true
     else on_maps (modify (fun pm => set_maps (update_map c (grow_rules i) (ps_maps pm)) pm)) ;! ret diff) s2 d s3 /\
     at_maps pm2 s3 (rule_text attrs ++ rest) /\
     (if d : bool then diff = true \/ (length (rules_of c pm0) <= i)%nat
      else diff = false /\ (i < length (rules_of c pm0))%nat)).
  { destruct (length (pm_rules m) <? S i)%nat; destruct Hslot as [Hslot Hlt].
    - destruct (on_maps_runs _ _ _ _ _ _ Y2 Hslot) as (s3 & R3 & Y3). exists true, s3. split; [|by auto].
      eapply runs_bind; [exact R3|apply runs_ret].
    - destruct (on_maps_runs (modify (fun pm => set_maps (update_map c (grow_rules i) (ps_maps pm)) pm)) pm1 tt pm2 s2 _ Y2)
        as (s3 & R3 & Y3); [by rewrite Hslot|]. exists diff, s3. split; [|split; [done|by destruct diff; auto]].
      eapply runs_bind; [exact R3|apply runs_ret]. }
  destruct Hgrow as (d & s3 & R3 & Y3 & Hd3).
  destruct (on_maps_runs (gets (fun pm => match find_map c (ps_maps pm) with
              | Some m => (length (pm_rules m), pm_rules_max m) | None => (O, 0) end)) pm2 _ pm2 s3 _ Y3 (runs_gets _ _))
    as (s4 & R4 & Y4). rewrite (ho_map _ _ _ _ _ _ Hh2) in R4. pose proof (ho_length _ _ _ _ _ _ Hh2) as Hlen2.
  destruct (takes_maps (fun _ => True) _ _ _ pm2 s4 rest (read_attrs_takes pm2 _ attrs Ht Hn Hd H255) I Y4) as (s5 & R5 & Y5).
  destruct (lookup_lt_is_Some_2 (pm_rules m2) i ltac:(lia)) as [r Hr].
  assert (Hrok : rule_ok r).
  { eapply Forall_lookup_1; [|exact Hr]. eapply mo_rules, (proj2 (ho_ok _ _ _ _ _ _ Hh2)), (ho_map _ _ _ _ _ _ Hh2). }
  destruct (update_rule_runs attrs r Hrok Ha) as (du & r' & Ru & Hrok' & Hra & _ & Hdu).
  pose proof (on_rule_runs c i (update_rule attrs) pm2 m2 r du r' (ho_map _ _ _ _ _ _ Hh2) Hr Ru) as Ron.
  destruct (on_maps_runs _ _ _ _ _ _ Y5 Ron) as (s6 & R6 & Y6).
  eexists _, _, s6. split; [|split; [|exact Y6]].
  - unfold read_rule. cbn [rr_channel rr_map rr_cnt rr_diff]. fold i.
    eapply runs_bind; [exact R1|]. eapply runs_bind; [exact R2|]. eapply runs_bind; [exact R3|].
    eapply runs_bind; [exact R4|]. cbv beta iota. eapply runs_bind; [apply runs_cassert; apply Nat.leb_le; lia|].
    eapply runs_bind; [apply runs_cassert; by apply Z.leb_le|].
    eapply runs_bind; [exact R5|]. cbv beta iota. eapply runs_bind; [exact R6|]. apply runs_ret.
  - split; [|by apply (holds_insert pm0 c done pm2 m2 attrs r')]. destruct Hrd as [Hdiff _].
    destruct (decide (i < length (rules_of c pm0))%nat) as [Hi|Hi].
    + rewrite (ho_old _ _ _ _ _ _ Hh2) in Hr by (fold i; lia). rewrite (unchanged_snoc c pm0 done attrs r Hr), <- Hdiff, <- Hdu.
      destruct (Z.eqb_spec du 0); destruct d; intuition (try congruence; lia).
    + split; [|intros Hu; exfalso; eapply unchanged_longer; [|exact Hu]; rewrite length_app; cbn; fold i; lia].
      destruct (du =? 0); [|done]. destruct d; [done|]. lia.
Qed.

(** ** Reading all rules *)

Lemma rule_text_start attrs : exists t, rule_text attrs = ch_lcur :: t.
Proof. by eexists. Qed.

Lemma token_takes pm P x : stops x -> (0 < fuel)%nat -> @jtakes _ _ (maps_laws pm) _ P (read_token fuel) [x] x.
Proof. intros Hx Hf. by apply (@jtakes_token _ _ (maps_laws pm)). Qed.

Lemma read_rules_loop pm0 c rules rest : rules_ok fuel rules -> rules <> [] -> forall done b diff pm s n,
  reading pm0 c done b diff pm -> (length rules <= n)%nat ->
  at_maps pm s (sep_text (map rule_text rules) ++ ch_rbra :: rest) ->
  exists diff' pm' s', runs (json_read_array_loop fuel n (read_rule fuel) (mkRR c b (length done) diff)) s
      (mkRR c true (length (done ++ rules)) diff') s' /\
    reading pm0 c (done ++ rules) true diff' pm' /\ at_maps pm' s' rest.
Proof.
  intros [Hok Htx (Hfu & _ & Hud & H255)]. induction rules as [|attrs rules IH]; [done|]. intros _ done b diff pm s n Hrd Hn Hy.
  destruct n as [|n]; [cbn in Hn; lia|]. cbn [length] in Hn. cbn [map] in Hy. rewrite sep_text_cons, <- app_assoc in Hy.
  inversion Hok; inversion Htx; inversion Hfu; subst.
  destruct (read_rule_runs pm0 c done b diff pm s attrs (more_text (map rule_text rules) ++ ch_rbra :: rest) Hrd) as (d1 & pm1 & s1 & R1 & Hrd1 & Y1); [done..|].
  assert (Elen : length (done ++ [attrs]) = S (length done)) by (rewrite length_app; cbn; lia).
  assert (E : done ++ attrs :: rules = (done ++ [attrs]) ++ rules) by (by rewrite <- app_assoc). rewrite E.
  cbn [json_read_array_loop]. destruct rules as [|attrs2 rules].
  - cbn [map more_text app] in Y1. destruct (takes_maps (fun _ => True) _ [ch_rbra] _ pm1 s1 rest (token_takes pm1 _ ch_rbra eq_refl ltac:(lia)) I Y1)
      as (s2 & R2 & Y2). exists d1, pm1, s2. rewrite app_nil_r, Elen. split; [|done].
    eapply runs_bind; [exact R1|]. eapply runs_bind; [exact R2|]. eapply runs_bind; [apply check_char_refl|apply runs_ret].
  - cbn [map more_text app] in Y1.
    destruct (takes_maps (fun _ => True) _ [ch_comma] _ pm1 s1 _ (token_takes pm1 _ ch_comma eq_refl ltac:(lia)) I Y1)
      as (s2 & R2 & Y2).
    destruct (IH ltac:(done) ltac:(done) ltac:(done) ltac:(done) (done ++ [attrs]) true d1 pm1 s2 n Hrd1 ltac:(lia) Y2)
      as (d2 & pm2 & s3 & R3 & Hrd3 & Y3).
    exists d2, pm2, s3. split; [|done]. eapply runs_bind; [exact R1|]. eapply runs_bind; [exact R2|].
    rewrite Elen in R3. exact R3.
Qed.

Lemma read_rules_runs pm0 c rules s rest : rules_ok fuel rules -> maps_ok pm0 ->
  at_maps pm0 s (array_text (map rule_text rules) ++ rest) ->
  let has := match find_map c (ps_maps pm0) with Some _ => true | None => false end in
  exists b diff pm' s', runs (json_read_array fuel (read_rule fuel) (mkRR c has 0 false)) s
      (true, mkRR c b (length rules) diff) s' /\
    reading pm0 c rules b diff pm' /\ at_maps pm' s' rest.
Proof.
  intros Hro Hok Hy has. pose proof Hro as [_ _ (_ & Hfu & Hud & H255)].
  assert (Hrd : reading pm0 c [] has false pm0).
  { split; [split; [constructor|done]|]. subst has. destruct (find_map c (ps_maps pm0)) as [m|] eqn:E; [|done].
    exists m. assert (Er : rules_of c pm0 = pm_rules m) by (unfold rules_of; by rewrite E).
    constructor; rewrite ?Er; done. }
  unfold array_text in Hy. cbn [app] in Hy.
  destruct (takes_maps (fun _ => True) _ [ch_lbra] _ pm0 s _ (token_takes pm0 _ ch_lbra eq_refl ltac:(lia)) I Hy)
    as (s1 & R1 & Y1).
  assert (Hpeek : forall x l, stops x -> at_maps pm0 s1 (x :: l) ->
    exists s2, runs (json_peek fuel) s1 x s2 /\ at_maps pm0 s2 (x :: l)).
  { intros x l Hx Yx. destruct (@jpeek_token _ _ (maps_laws pm0) fuel s1 x l ltac:(lia) Hx Yx) as (s2 & R2 & Y2 & _).
    by exists s2. }
  destruct rules as [|attrs rules].
  - cbn [map sep_text app] in Y1. destruct (Hpeek ch_rbra rest eq_refl Y1) as (s2 & R2 & Y2).
    destruct (takes_maps (fun _ => True) _ [ch_rbra] _ pm0 s2 rest (@jtakes_stream _ _ (maps_laws pm0) _ ch_rbra) I Y2)
      as (s3 & R3 & Y3).
    exists has, false, pm0, s3. split; [|done]. unfold json_read_array. eapply runs_bind; [exact R1|].
    cbn [Z.eqb Pos.eqb negb]. eapply runs_bind; [exact R2|]. cbn [Z.eqb Pos.eqb]. eapply runs_bind; [exact R3|apply runs_ret].
  - assert (E : exists l, sep_text (map rule_text (attrs :: rules)) ++ ch_rbra :: rest = ch_lcur :: l).
    { cbn [map]. rewrite sep_text_cons. destruct (rule_text_start attrs) as [t ->]. by eexists. }
    destruct E as [l E]. rewrite <- app_assoc in Y1. cbn [app] in Y1. rewrite E in Y1.
    destruct (Hpeek ch_lcur l eq_refl Y1) as (s2 & R2 & Y2). rewrite <- E in Y2.
    destruct (read_rules_loop pm0 c (attrs :: rules) rest Hro ltac:(done) [] has false pm0 s2 fuel Hrd Hfu Y2)
      as (diff & pm' & s3 & R3 & Hrd3 & Y3).
    exists true, diff, pm', s3. split; [|done]. unfold json_read_array. eapply runs_bind; [exact R1|].
    cbn [Z.eqb Pos.eqb negb]. eapply runs_bind; [exact R2|]. cbn [Z.eqb Pos.eqb]. eapply runs_bind; [exact R3|apply runs_ret].
Qed.

(** ** Setting the rules of a channel *)

Lemma free_rules_runs rules (s : PathMaps) : Forall rule_ok rules -> runs (free_rules rules) s tt s.
Proof.
  intros Hr. induction Hr as [|r rules Hr Hrs IH]; [apply runs_ret|]. cbn [free_rules]. eapply runs_bind; [|exact IH].
  pose proof (free_rule_runs r) as Hf. unfold runs in *. cbn. rewrite Hf; [done|].
  intros f. eapply stands_not_freed, (ro_fields _ Hr).
Qed.

(** The events of a change. *)
Definition change_events (c : Z) (pm : PathMaps) : list map_event :=
  MapChanged :: map (fun l => MappingChanged (li_args l) c) (List.filter li_has_callback (ps_listeners pm)).

(** What is left after "set": the rules are replaced, those of other channels are not changed, and
    there are events if the rules have changed, apart from the order of attributes. *)
Definition rules_set (c : Z) (rules : list (list attribute)) (pm0 pm : PathMaps) : Prop :=
  maps_ok pm /\ others_same c pm0 pm /\ map pr_attrs (rules_of c pm) = rules /\
  ps_listeners pm = ps_listeners pm0 /\
  exists changed : bool,
    (changed = false <-> Forall2 Permutation rules (map pr_attrs (rules_of c pm0))) /\
    ps_events pm = ps_events pm0 ++ (if changed then change_events c pm0 else []).

Lemma change_event_runs c pm : runs (path_map_event_mapping_changed c) pm tt
  (mkMaps (ps_maps pm) (ps_host_name pm) (ps_listeners pm) (ps_events pm ++ change_events c pm) (ps_posted pm)).
Proof. done. Qed.

(** The rules after the last one read are removed. *)
Lemma truncate_runs pm0 c done pm m : holds pm0 c done (length done) pm m ->
  let maps' := if (length done =? 0)%nat then remove_map c (ps_maps pm)
               else update_map c (fun m => map_set_rules (take (length done) (pm_rules m)) m) (ps_maps pm) in
  let pm' := set_maps maps' pm in
  runs (free_rules (drop (length done) (pm_rules m))) pm tt pm /\
  maps_ok pm' /\ others_same c pm0 pm' /\ map pr_attrs (rules_of c pm') = done.
Proof.
  intros [Ho Hok He Hl Hm Hlen Hd Hold] maps' pm'. pose proof (proj2 Hok _ _ Hm) as [Hr Hx].
  split; [by apply free_rules_runs, Forall_drop|]. subst pm' maps'. destruct (Nat.eqb_spec (length done) 0) as [Ez|Ez].
  - destruct (remove_channels c (ps_maps pm)) as (Hnd & Hc & _); [apply Hok|].
    assert (Hn : find_map c (remove_map c (ps_maps pm)) = None) by (by apply find_map_none).
    split_and!.
    + split; [done|]. cbn [ps_maps set_maps]. intros d m' Hd'. destruct (decide (d = c)) as [->|Hne]; [congruence|].
      rewrite find_remove in Hd' by done. by eapply Hok.
    + intros d Hne. cbn [ps_maps set_maps]. rewrite find_remove by done. by apply Ho.
    + unfold rules_of. cbn [ps_maps set_maps]. rewrite Hn. cbn. by destruct done.
  - set (f := fun m => map_set_rules (take (length done) (pm_rules m)) m).
    destruct (map_changed c f pm m) as (Hm' & Ho' & Hok'); [done|done| |done|].
    { constructor; cbn; [by apply Forall_take|]. rewrite length_take. lia. }
    split; [done|]. split; [by eapply others_trans|]. unfold rules_of. by rewrite Hm'.
Qed.

Lemma set_path_map_runs pm0 c rules s rest : rules_ok fuel rules -> maps_ok pm0 ->
  at_maps pm0 s (array_text (map rule_text rules) ++ rest) ->
  exists pm' s', runs (set_path_map fuel c) s tt s' /\ rules_set c rules pm0 pm' /\ at_maps pm' s' rest.
Proof.
  intros Hro Hok Hy. destruct (on_maps_runs (gets ps_maps) pm0 _ pm0 s _ Hy (runs_gets _ _)) as (s0 & R0 & Y0).
  destruct (read_rules_runs pm0 c rules s0 rest Hro Hok Y0) as (b & diff & pm1 & s1 & R1 & [Hdiff Hb] & Y1).
  destruct (on_maps_runs (gets ps_maps) pm1 _ pm1 s1 _ Y1 (runs_gets _ _)) as (s2 & R2 & Y2).
  (* the rules that are left over *)
  assert (Htrunc : exists (changed : bool) pm2 s3,
    runs (match (if b then find_map c (ps_maps pm1) else None) with
          | Some m =>
              if (length rules <? length (pm_rules m))%nat then
                on_maps (free_rules (drop (length rules) (pm_rules m))) ;!
                on_maps (modify (set_maps
                  (if (length rules =? 0)%nat then remove_map c (ps_maps pm1)
                   else update_map c (fun m => map_set_rules (take (length rules) (pm_rules m)) m) (ps_maps pm1)))) ;!
                ret true
              else ret diff
          | None => ret diff
          end) s2 changed s3 /\ at_maps pm2 s3 rest /\
    maps_ok pm2 /\ others_same c pm0 pm2 /\ map pr_attrs (rules_of c pm2) = rules /\
    ps_listeners pm2 = ps_listeners pm0 /\ ps_events pm2 = ps_events pm0 /\
    (changed = false <-> Forall2 Permutation rules (map pr_attrs (rules_of c pm0)))).
  { destruct b.
    - destruct Hb as [m Hh]. pose proof Hh as [Ho Hok1 He Hl Hm Hlen Hd Hold]. rewrite Hm.
      destruct (Nat.ltb_spec (length rules) (length (pm_rules m))) as [Hlt|Hge].
      + destruct (truncate_runs _ _ _ _ _ Hh) as (Rf & Hok2 & Ho2 & Hr2).
        destruct (on_maps_runs _ _ _ _ _ _ Y2 Rf) as (s3 & R3 & Y3).
        eapply (on_maps_runs (modify _) pm1 tt _ s3 _) in Y3 as (s4 & R4 & Y4); [|reflexivity].
        eexists true, _, s4. split; [eapply runs_bind; [exact R3|]; eapply runs_bind; [exact R4|apply runs_ret]|].
        split; [exact Y4|]. split_and!; try done. split; [done|]. intros F%Forall2_length. rewrite length_map in F. lia.
      + exists diff, pm1, s2. split; [apply runs_ret|]. assert (Er : rules_of c pm1 = pm_rules m) by (unfold rules_of; by rewrite Hm).
        split_and!; try done; [rewrite Er, <- Hd; by rewrite take_ge by lia|].
        rewrite Hdiff. unfold unchanged. by rewrite take_ge by lia.
    - destruct Hb as (-> & _ & Hn & ->). exists diff, pm0, s2. split; [apply runs_ret|].
      assert (Er : rules_of c pm0 = []) by (unfold rules_of; by rewrite Hn). rewrite Er. split_and!; try done. }
  destruct Htrunc as (changed & pm2 & s3 & R3 & Y3 & Hok2 & Ho2 & Hr2 & Hl2 & He2 & Hiff).
  assert (Hrun : forall s4, runs (if changed then on_maps (path_map_event_mapping_changed c) else ret tt) s3 tt s4 ->
    runs (set_path_map fuel c) s tt s4).
  { intros s4 R4. unfold set_path_map. eapply runs_bind; [exact R0|]. cbv beta zeta. eapply runs_bind; [exact R1|].
    cbv beta iota. eapply runs_bind; [exact R2|]. cbn [rr_map rr_cnt rr_diff]. eapply runs_bind; [exact R3|exact R4]. }
  destruct changed.
  - destruct (on_maps_runs _ _ _ _ _ _ Y3 (change_event_runs c pm2)) as (s4 & R4 & Y4).
    eexists _, s4. split; [by apply Hrun|]. split; [|exact Y4]. split_and!; try done. exists true. split; [done|].
    cbn. rewrite He2. unfold change_events. by rewrite Hl2.
  - exists pm2, s3. split; [apply Hrun, runs_ret|]. split; [|done]. split_and!; try done. exists false. split; [done|].
    by rewrite app_nil_r.
Qed.

(** ** The texts of the replies *)

Definition done_text (token : list Z) : list Z := str "R" ++ [0] ++ token ++ [0] ++ [0] ++ [MARKER_EOM].

Definition rules_text (token : list Z) (rules : list (list attribute)) : list Z :=
  str "R" ++ [0] ++ token ++ [0] ++ [0] ++ array_text (map rule_text rules) ++ [0; MARKER_EOM].

(** The text of a list after [n] elements. *)
Definition list_text (n : nat) (l : list (list Z)) : list Z :=
  match l with [] => [] | _ => (if (0 <? n)%nat then [ch_comma] else []) ++ sep_text l end.

Lemma list_text_cons n t l : list_text n (t :: l) = (if (0 <? n)%nat then [ch_comma] else []) ++ t ++ list_text (S n) l.
Proof. cbn [list_text]. rewrite sep_text_cons. by destruct l. Qed.

Lemma list_text_0 l : list_text 0 l = sep_text l.
Proof. by destruct l. Qed.

Lemma writes_comma n : writes (OS := OS) (if (0 <? n)%nat then write_stream ch_comma else ret tt)
  (if (0 <? n)%nat then [ch_comma] else []).
Proof. destruct_if; [apply writes_byte; unfold is_byte; lia|apply writes_ret]. Qed.

Lemma writes_attrs attrs : Forall (attr_text_ok fuel) attrs -> forall n,
  writes (OS := OS) (write_attrs n attrs) (list_text n (map (fun a => string_text (Some (fst a)) ++ ch_colon :: snd a) attrs)).
Proof.
  intros Ha. induction Ha as [|[nm v] attrs (Hb & Hnz & Hl & _ & Hbv & _) Ha IH]; intros n; [apply writes_ret|].
  cbn [write_attrs map fst snd] in *. rewrite list_text_cons, <- (app_assoc (string_text _)). cbn [app].
  apply writes_bind; [apply writes_comma|]. apply writes_bind; [apply writes_json_string; split_and!; [done|exact Hnz|cbn [fst] in *; lia]|].
  apply writes_cons; [unfold is_byte; lia|]. apply writes_bind; [by apply writes_string|apply IH].
Qed.

Lemma writes_rules rules : Forall (fun r => Forall (attr_text_ok fuel) (pr_attrs r)) rules -> forall n,
  writes (OS := OS) (write_rules n rules) (list_text n (map (fun r => rule_text (pr_attrs r)) rules)).
Proof.
  intros Hr. induction Hr as [|r rules Hr Hrs IH]; intros n; [apply writes_ret|].
  cbn [write_rules map]. rewrite list_text_cons. apply writes_bind; [apply writes_comma|]. apply writes_bind; [|apply IH].
  apply writes_cons; [unfold is_byte; lia|]. apply writes_bind; [|apply writes_byte; unfold is_byte; lia].
  rewrite <- list_text_0. by apply writes_attrs.
Qed.

Lemma writes_head_R token (k : M OS unit) l : bytes token -> writes k l ->
  writes (write_stringz (str "R") ;! write_stringz token ;! write_stream 0 ;! k) (str "R" ++ [0] ++ token ++ [0] ++ [0] ++ l).
Proof.
  intros Ht Hk. rewrite (app_assoc (str "R")). apply writes_bind; [by apply writes_stringz_lem, str_bytes|].
  rewrite (app_assoc token). apply writes_bind; [by apply writes_stringz_lem|].
  apply writes_cons; [unfold is_byte; lia|done].
Qed.

(** ** The commands *)

Lemma test_char_runs c pm s rest : stops c -> (0 < fuel)%nat -> at_maps pm s (c :: rest) ->
  exists s', runs (json_test_char fuel c) s tt s' /\ at_maps pm s' rest.
Proof.
  intros Hc Hf Hy.
  destruct (takes_maps (fun _ => True) _ [c] _ pm s rest (@jtakes_stream _ _ (maps_laws pm) _ c) I Hy) as (s' & R1 & Y1).
  exists s'. split; [|done]. eapply runs_bind; [exact R1|]. unfold check_char. destruct fuel as [|n]; [lia|].
  cbn [ignore_whitespace]. rewrite Hc.
  destruct (negb (c =? MARKER_EOM)); (eapply runs_bind; [apply runs_ret|]); by rewrite Z.eqb_refl.
Qed.

Lemma on_minp_runs {A} (m : M (Json (WithMaps IS)) A) (st : MapCommand (IS := IS) (OS := OS)) a i :
  runs m (mc_inp st) a i -> runs (on_minp m) st a (mkMC i (mc_out st)).
Proof. exact (runs_zoom mc_inp (fun i s => mkMC i (mc_out s)) m st a i). Qed.

Lemma on_mout_runs {A} (m : M OS A) (st : MapCommand (IS := IS) (OS := OS)) a o :
  runs m (mc_out st) a o -> runs (on_mout m) st a (mkMC (mc_inp st) o).
Proof. exact (runs_zoom mc_out (fun o s => mkMC (mc_inp s) o) m st a o). Qed.

Lemma command_set_runs pm0 c rules token st rest l : rules_ok fuel rules -> maps_ok pm0 -> bytes token ->
  os_sym (OS := OS) MARKER_EOM ->
  at_maps pm0 (mc_inp st) (array_text (map rule_text rules) ++ MARKER_EOA :: MARKER_EOM :: rest) -> emits (mc_out st) l ->
  exists st' pm', runs (command_set fuel token c) st tt st' /\ rules_set c rules pm0 pm' /\
    at_maps pm' (mc_inp st') rest /\ emits (mc_out st') (l ++ done_text token).
Proof.
  intros Hro Hok Ht Hm Hy He. assert (Hf : (0 < fuel)%nat) by (destruct Hro as [_ _ (_ & _ & ? & _)]; lia).
  destruct (set_path_map_runs pm0 c rules (mc_inp st) _ Hro Hok Hy) as (pm' & s1 & R1 & Hset & Y1).
  destruct (test_char_runs MARKER_EOA pm' s1 _ eq_refl Hf Y1) as (s2 & R2 & Y2).
  destruct (test_char_runs MARKER_EOM pm' s2 _ eq_refl Hf Y2) as (s3 & R3 & Y3).
  destruct (writes_head_R token (write_stream MARKER_EOM) [MARKER_EOM] Ht (writes_stream _ Hm) (mc_out st) l He) as (o & W & Eo).
  exists (mkMC s3 o), pm'. split; [|done]. unfold command_set. eapply runs_bind; [by apply on_minp_runs|].
  eapply runs_bind; [by apply on_minp_runs|]. eapply runs_bind; [by apply on_minp_runs|]. by apply on_mout_runs.
Qed.

Lemma command_get_runs pm token st rest l :
  Forall (fun r => Forall (attr_text_ok fuel) (pr_attrs r)) (concat (map pm_rules (ps_maps pm))) -> (0 < fuel)%nat ->
  bytes token -> os_sym (OS := OS) MARKER_EOM -> at_maps pm (mc_inp st) (MARKER_EOM :: rest) -> emits (mc_out st) l ->
  exists st', runs (command_get fuel token) st tt st' /\ at_maps pm (mc_inp st') rest /\
    emits (mc_out st') (l ++ rules_text token (map pr_attrs (concat (map pm_rules (ps_maps pm))))).
Proof.
  intros Hr Hf Ht Hm Hy He. destruct (test_char_runs MARKER_EOM pm (mc_inp st) rest eq_refl Hf Hy) as (s1 & R1 & Y1).
  destruct (on_maps_runs (gets ps_maps) pm _ pm s1 _ Y1 (runs_gets _ _)) as (s2 & R2 & Y2).
  assert (W : writes (OS := OS)
    (write_stringz (str "R") ;! write_stringz token ;! write_stream 0 ;! write_stream ch_lbra ;!
     write_rules 0 (concat (map pm_rules (ps_maps pm))) ;! write_stream ch_rbra ;! write_stream 0 ;! write_stream MARKER_EOM)
    (rules_text token (map pr_attrs (concat (map pm_rules (ps_maps pm)))))).
  { apply writes_head_R; [done|]. unfold array_text. rewrite map_map. cbn [app]. rewrite <- app_assoc. cbn [app].
    apply writes_cons; [unfold is_byte; lia|]. rewrite <- list_text_0. apply writes_bind; [by apply writes_rules|].
    do 2 (apply writes_cons; [unfold is_byte; lia|]). by apply writes_stream. }
  destruct (W (mc_out st) l He) as (o & Wo & Eo). exists (mkMC s2 o). split; [|done].
  unfold command_get. eapply runs_bind; [by apply on_minp_runs|]. eapply runs_bind; [by apply on_minp_runs|]. by apply on_mout_runs.
Qed.

(** The rules of all channels, when only one has rules. *)
Lemma all_rules c maps : NoDup (map pm_channel maps) ->
  (forall d m, d <> c -> find_map d maps = Some m -> pm_rules m = []) ->
  concat (map pm_rules maps) = match find_map c maps with Some m => pm_rules m | None => [] end.
Proof.
  induction maps as [|m maps IH]; [done|]. intros [Hm Hn]%NoDup_cons Hd. cbn [map concat].
  assert (Hd' : forall d m', d <> c -> find_map d maps = Some m' -> pm_rules m' = []).
  { intros d m' Hdc Hf. apply (Hd d m' Hdc). unfold find_map in *. cbn [List.find].
    destruct (Z.eqb_spec (pm_channel m) d) as [E|E]; [|done]. destruct Hm. apply find_map_some. exists m'. by rewrite E. }
  rewrite (IH Hn Hd'). unfold find_map at 2. cbn [List.find]. destruct (Z.eqb_spec (pm_channel m) c) as [E|E].
  - assert (Hno : find_map c maps = None) by (apply find_map_none; by rewrite <- E). rewrite Hno. apply app_nil_r.
  - rewrite (Hd (pm_channel m) m E); [done|]. unfold find_map. cbn [List.find]. by rewrite Z.eqb_refl.
Qed.
End SetGet.

(** ** The property *)


(** ** Witness *)

Definition demo_rules : list (list attribute) := [demo_attrs; [(str "ID", str "[1,true]")]].

Lemma plain_string_rest s : Forall (fun c => is_byte c /\ c <> ch_quote /\ c <> ch_bslash) s -> string_rest (s ++ [ch_quote]).
Proof. induction 1 as [|c s (Hb & Hq & Hs) _ IH]; [apply str_end|by apply str_plain]. Qed.

Ltac eval_all := repeat (apply Forall_cons; split); try apply Forall_nil_2; vm_compute; intuition discriminate.

Lemma demo_rules_ok : rules_ok 300 demo_rules.
Proof.
  assert (Hs : forall nm s, bytes nm -> nonzero nm -> (length nm <= 255)%nat ->
    Forall (fun c => is_byte c /\ c <> ch_quote /\ c <> ch_bslash) s ->
    bytes (string_text (Some s)) /\ nonzero (string_text (Some s)) /\ (length (string_text (Some s)) < 300)%nat ->
    string_text (Some s) = ch_quote :: s ++ [ch_quote] -> attr_text_ok 300 (nm, string_text (Some s))).
  { intros nm s Hb Hz Hl Hp (? & ? & ?) E. split_and!; try done. cbn [snd]. rewrite E. by apply jv_string, plain_string_rest. }
  constructor.
  - repeat (apply Forall_cons; split); [apply demo_attrs_ok| |constructor]. constructor.
    + apply NoDup_cons. split; [apply not_elem_of_nil|apply NoDup_nil_2].
    + apply Forall_singleton. intros Hn. by destruct Hn.
  - repeat (apply Forall_cons; split); try apply Forall_nil_2.
    + apply Hs; [apply str_bytes|eval_all|cbn; lia|eval_all|split_and!; [eval_all|eval_all|vm_compute; lia]|done].
    + apply Hs; [apply str_bytes|eval_all|cbn; lia|eval_all|split_and!; [eval_all|eval_all|vm_compute; lia]|done].
    + split_and!; [apply str_bytes|eval_all|cbn; lia| |apply str_bytes|eval_all|cbn; lia]. apply (jv_number _ 49 [55]); [done|by apply Forall_singleton].
    + split_and!; [apply str_bytes|eval_all|cbn; lia| |apply str_bytes|eval_all|cbn; lia].
      apply (jv_array _ []); [by constructor|]. apply (ji_more _ [] [] (str "1") (str "1") (str "true]") (str "true]")); [by apply (jv_number _ 49 [])|by constructor..|].
      by apply (ji_last _ [] (str "true") (str "true")); [apply (jv_bool _ true)|constructor].
  - split_and!; [repeat (apply Forall_cons; split); cbn; try lia; apply Forall_nil_2|cbn; lia|unfold ULONG_DIGITS; lia|lia].
Qed.

Definition demo_maps : PathMaps := mkMaps [mkMap 7 [zero_rule; zero_rule; zero_rule] 8] [] [mkListener 1 true 5] [] 0.

Lemma demo_maps_ok : maps_ok demo_maps.
Proof.
  split; [apply NoDup_cons; split; [apply not_elem_of_nil|apply NoDup_nil_2]|]. intros c m. unfold find_map. cbn [demo_maps ps_maps List.find].
  destruct (_ =? c); [|done]. intros [= <-]. constructor; [|by vm_compute].
  repeat (apply Forall_cons; split); try apply zero_rule_ok. apply Forall_nil_2.
Qed.

Definition demo_set_state : MapCommand (IS := ByteArrayInputStream) (OS := ChannelTCP) :=
  mkMC (mkJson (mkWM (js_inp (json_of (array_text (map rule_text demo_rules) ++ MARKER_EOA :: MARKER_EOM :: []))) demo_maps) [] 0%N)
    (new_output true).

