(* ===== verification/Vm.v ===== *)
(** * DWARF expression evaluator (services/vm.c)

    The static variables of vm.c and the fields of [LocationExpressionState] it uses are the record
    [VM].  The debug target (memory, registers, stack frames) and the client's handler for the
    remaining opcodes are the interface [VmEnv].  Shifts by the width of their operand or more,
    which C leaves undefined, and accesses outside of an object are [Fault]. *)

From S2P Require Import Prelude.

(** [RegisterDefinition]: the fields the evaluator needs. *)
Record RegisterDefinition := mkReg { rd_id : Z; rd_size : Z }.

(** [LocationPiece]. *)
Record LocationPiece := mkLP {
  lp_optimized_away : bool;
  lp_addr : Z;
  lp_reg : option RegisterDefinition;
  lp_value : option (list Z);
  lp_size : Z;
  lp_bit_offs : Z;
  lp_bit_size : Z;
  lp_implicit_pointer : Z }.

(** The evaluator: [vm_pos] and [vm_len] are the static [code_pos] and [code_len], [vm_spos] and
    [vm_slen] the fields of the state; [vm_stk] has the top of the stack first; [value_size] is the
    length of [vm_value]. *)
Record VM (Frame : Type) := mkVM {
  vm_code : list Z;
  vm_pos : Z;
  vm_len : Z;
  vm_spos : Z;
  vm_slen : Z;
  vm_stk : list Z;
  vm_pieces : list LocationPiece;
  vm_args : list Z;
  vm_addr_size : Z;
  vm_big_endian : bool;
  vm_frame : option Frame;
  vm_reg_def : option RegisterDefinition;
  vm_value : option (list Z);
  vm_implicit_pointer : Z }.

Arguments mkVM {Frame}.
Arguments vm_code {Frame} _.
Arguments vm_pos {Frame} _.
Arguments vm_len {Frame} _.
Arguments vm_spos {Frame} _.
Arguments vm_slen {Frame} _.
Arguments vm_stk {Frame} _.
Arguments vm_pieces {Frame} _.
Arguments vm_args {Frame} _.
Arguments vm_addr_size {Frame} _.
Arguments vm_big_endian {Frame} _.
Arguments vm_frame {Frame} _.
Arguments vm_reg_def {Frame} _.
Arguments vm_value {Frame} _.
Arguments vm_implicit_pointer {Frame} _.

(** What the evaluator asks of the rest of the agent; [inl] is an [errno] value. *)
Class VmEnv (Frame : Type) := {
  context_read_mem : Z -> Z -> Z + list Z;
  get_reg_by_id : Z -> Z + RegisterDefinition;
  read_reg_value : option Frame -> RegisterDefinition -> Z + Z;
  frame_fp : Frame -> Z;
  get_prev_frame : option Frame -> Z;
  get_frame_info : Z -> Z + Frame;
  read_location_pieces : Frame -> list LocationPiece -> Z + list Z;
  client_op : Z -> M (VM Frame) unit }.

(** [set_trap] .. [clear_trap]: the code of the exception raised in between, if any. *)
Definition trap {S A} (m : M S A) : M S (option Z) :=
  fun s => match m s with
           | (Val _, s1) => (Val None, s1)
           | (Throw e, s1) => (Val (Some e), s1)
           | (Fault, s1) => (Fault, s1)
           | (NoFuel, s1) => (NoFuel, s1)
           end.

Definition rethrow {S} (e : option Z) : M S unit :=
  match e with None => ret tt | Some e => throw e end.

Section Vm.
Context {Frame : Type} {env : VmEnv Frame}.

Notation V := (M (VM Frame)).
Notation S := (VM Frame).

Definition set_pos (p : Z) (s : S) : S :=
  mkVM (vm_code s) p (vm_len s) (vm_spos s) (vm_slen s) (vm_stk s) (vm_pieces s) (vm_args s)
    (vm_addr_size s) (vm_big_endian s) (vm_frame s) (vm_reg_def s) (vm_value s) (vm_implicit_pointer s).
Definition set_len (n : Z) (s : S) : S :=
  mkVM (vm_code s) (vm_pos s) n (vm_spos s) n (vm_stk s) (vm_pieces s) (vm_args s)
    (vm_addr_size s) (vm_big_endian s) (vm_frame s) (vm_reg_def s) (vm_value s) (vm_implicit_pointer s).
Definition set_stk (k : list Z) (s : S) : S :=
  mkVM (vm_code s) (vm_pos s) (vm_len s) (vm_spos s) (vm_slen s) k (vm_pieces s) (vm_args s)
    (vm_addr_size s) (vm_big_endian s) (vm_frame s) (vm_reg_def s) (vm_value s) (vm_implicit_pointer s).
Definition set_pieces (p : list LocationPiece) (s : S) : S :=
  mkVM (vm_code s) (vm_pos s) (vm_len s) (vm_spos s) (vm_slen s) (vm_stk s) p (vm_args s)
    (vm_addr_size s) (vm_big_endian s) (vm_frame s) (vm_reg_def s) (vm_value s) (vm_implicit_pointer s).
Definition set_statics (r : option RegisterDefinition) (v : option (list Z)) (i : Z) (s : S) : S :=
  mkVM (vm_code s) (vm_pos s) (vm_len s) (vm_spos s) (vm_slen s) (vm_stk s) (vm_pieces s) (vm_args s)
    (vm_addr_size s) (vm_big_endian s) (vm_frame s) r v i.

Definition inv_dwarf {A} : V A := throw ERR_INV_DWARF.

Definition lift {A} (r : Z + A) : V A :=
  match r with inl e => throw e | inr a => ret a end.

(** ** Operands *)

Definition read_memory (addr size : Z) : V Z :=
  let! bytes := lift (context_read_mem addr size) in
  (* uint8_t buf[8] *)
  if size >? 8 then fault
  else
    let! be := gets vm_big_endian in
    ret (fold_left (fun n b => uwrap 64 (Z.lor (Z.shiftl n 8) b)) (if be : bool then bytes else rev bytes) 0).

(** [code[code_pos++]] *)
Definition fetch : V Z :=
  let! pos := gets vm_pos in
  let! code := gets vm_code in
  match code !! Z.to_nat pos with
  | Some b => modify (set_pos (pos + 1)) ;! ret b
  | None => fault
  end.

Definition read_u1 : V Z :=
  let! pos := gets vm_pos in
  let! len := gets vm_len in
  if pos >=? len then inv_dwarf else fetch.

Definition read_u2 : V Z :=
  let! x0 := read_u1 in
  let! x1 := read_u1 in
  let! be := gets vm_big_endian in
  ret (if be : bool then Z.lor (Z.shiftl x0 8) x1 else Z.lor x0 (Z.shiftl x1 8)).

Definition read_u4 : V Z :=
  let! x0 := read_u2 in
  let! x1 := read_u2 in
  let! be := gets vm_big_endian in
  ret (if be : bool then Z.lor (Z.shiftl x0 16) x1 else Z.lor x0 (Z.shiftl x1 16)).

Definition read_u8 : V Z :=
  let! x0 := read_u4 in
  let! x1 := read_u4 in
  let! be := gets vm_big_endian in
  ret (if be : bool then Z.lor (Z.shiftl x0 32) x1 else Z.lor x0 (Z.shiftl x1 32)).

(** The loop of the unsigned LEB128 readers for a result of [w] bits. *)
Fixpoint read_uleb_loop (n : nat) (w : Z) (i : Z) (res : Z) : V Z :=
  match n with
  | O => nofuel
  | Datatypes.S n' =>
      let! b := read_u1 in
      if i >=? w then fault
      else
        let res := Z.lor res (uwrap w (Z.shiftl (Z.land b 0x7f) i)) in
        if Z.land b 0x80 =? 0 then ret res else read_uleb_loop n' w (i + 7) res
  end.

(** At most ten bytes are read before the shift is undefined. *)
Definition LEB_BYTES : nat := 12.

Definition read_u4leb128 : V Z := read_uleb_loop LEB_BYTES 32 0 0.
Definition read_u8leb128 : V Z := read_uleb_loop LEB_BYTES 64 0 0.

Fixpoint read_ileb_loop (n : nat) (i : Z) (res : Z) : V Z :=
  match n with
  | O => nofuel
  | Datatypes.S n' =>
      let! b := read_u1 in
      if i >=? 64 then fault
      else
        let res := Z.lor res (uwrap 64 (Z.shiftl (Z.land b 0x7f) i)) in
        if Z.land b 0x80 =? 0 then
          ret (swrap 64 (Z.lor res (uwrap 64 (Z.shiftl (- Z.land b 0x40) i))))
        else read_ileb_loop n' (i + 7) res
  end.

Definition read_i8leb128 : V Z := read_ileb_loop LEB_BYTES 0 0.

(** Conversion of a [w]-bit signed value to [uint64_t]. *)
Definition sext (w x : Z) : Z := uwrap 64 (swrap w x).

Definition read_ia : V Z :=
  let! n := gets vm_addr_size in
  match n with
  | 1 => let! x := read_u1 in ret (sext 8 x)
  | 2 => let! x := read_u2 in ret (sext 16 x)
  | 4 => let! x := read_u4 in ret (sext 32 x)
  | 8 => let! x := read_u8 in ret (sext 64 x)
  | _ => inv_dwarf
  end.

Definition read_ua : V Z :=
  let! n := gets vm_addr_size in
  match n with
  | 1 => read_u1
  | 2 => read_u2
  | 4 => read_u4
  | 8 => read_u8
  | _ => inv_dwarf
  end.

(** ** Stack *)

Definition push (x : Z) : V unit :=
  let! k := gets vm_stk in modify (set_stk (x :: k)).

(** [check_e_stack(n)]. *)
Definition check_e_stack (n : Z) : V unit :=
  let! k := gets vm_stk in
  if Z.of_nat (length k) <? n then inv_dwarf else ret tt.

(** The operand at depth [n]; reading below the bottom would leave the array. *)
Definition peek (n : nat) : V Z :=
  let! k := gets vm_stk in
  match k !! n with Some x => ret x | None => fault end.

Definition pop : V Z :=
  let! x := peek 0 in
  let! k := gets vm_stk in
  modify (set_stk (tail k)) ;! ret x.

(** [stk[stk_pos - 1] = x]. *)
Definition replace_top (x : Z) : V unit :=
  let! k := gets vm_stk in modify (set_stk (x :: tail k)).

(** Replaces the top of the stack. *)
Definition unop (f : Z -> V Z) : V unit :=
  check_e_stack 1 ;!
  let! x := peek 0 in
  let! r := f x in
  replace_top r.

Definition pure1 (f : Z -> Z) : V unit := unop (fun x => ret (f x)).

(** Replaces the two topmost elements, [x] below [y]. *)
Definition binop (f : Z -> Z -> V Z) : V unit :=
  check_e_stack 2 ;!
  let! y := pop in
  let! x := peek 0 in
  let! r := f x y in
  replace_top r.

Definition pure2 (f : Z -> Z -> Z) : V unit := binop (fun x y => ret (f x y)).

(** ** Pieces *)

Definition empty_piece : LocationPiece := mkLP false 0 None None 0 0 0 0.

(** [add_piece]; the piece is the last of [vm_pieces]. *)
Definition add_piece : V unit :=
  let! s := gets (fun s => s) in
  let! p :=
    match vm_reg_def s, vm_value s, vm_stk s with
    | Some r, _, _ => ret (mkLP false 0 (Some r) None (rd_size r) 0 0 (vm_implicit_pointer s))
    | None, Some v, _ => ret (mkLP false 0 None (Some v) (Z.of_nat (length v)) 0 0 (vm_implicit_pointer s))
    | None, None, [] => ret (mkLP true 0 None None 0 0 0 (vm_implicit_pointer s))
    | None, None, x :: k => modify (set_stk k) ;! ret (mkLP false x None None 0 0 0 (vm_implicit_pointer s))
    end in
  let! ps := gets vm_pieces in
  modify (set_pieces (ps ++ [p])) ;!
  modify (set_statics None None 0).

(** Assignments through the pointer [add_piece] returns. *)
Definition update_last (f : LocationPiece -> LocationPiece) : V unit :=
  let! ps := gets vm_pieces in
  match last ps with
  | Some p => modify (set_pieces (removelast ps ++ [f p]))
  | None => fault
  end.

Definition lp_set_size (n : Z) (p : LocationPiece) : LocationPiece :=
  mkLP (lp_optimized_away p) (lp_addr p) (lp_reg p) (lp_value p) n (lp_bit_offs p) (lp_bit_size p) (lp_implicit_pointer p).
Definition lp_set_bits (offs size : Z) (p : LocationPiece) : LocationPiece :=
  mkLP (lp_optimized_away p) (lp_addr p) (lp_reg p) (lp_value p) (lp_size p) offs size (lp_implicit_pointer p).
Definition lp_incr_implicit (p : LocationPiece) : LocationPiece :=
  mkLP (lp_optimized_away p) (lp_addr p) (lp_reg p) (lp_value p) (lp_size p) (lp_bit_offs p) (lp_bit_size p)
    (uwrap 32 (lp_implicit_pointer p + 1)).

Definition OP_piece : Z := 0x93.
Definition OP_bit_piece : Z := 0x9d.
Definition OP_TCF_offset : Z := 0xff.

Definition is_end_of_loc_expr : V bool :=
  let! s := gets (fun s => s) in
  if vm_pos s >=? vm_len s then ret true
  else match vm_code s !! Z.to_nat (vm_pos s) with
       | Some c => ret ((c =? OP_piece) || (c =? OP_bit_piece) || (c =? OP_TCF_offset))
       | None => fault
       end.

Definition check_last : V unit :=
  let! e := is_end_of_loc_expr in if e : bool then ret tt else inv_dwarf.

Definition set_reg_def (r : RegisterDefinition) : V unit :=
  modify (fun s => set_statics (Some r) (vm_value s) (vm_implicit_pointer s) s).
Definition set_value (v : list Z) : V unit :=
  modify (fun s => set_statics (vm_reg_def s) (Some v) (vm_implicit_pointer s) s).

(** ** Instructions

    [evaluate_expression] is one [switch]; its cases are grouped here.  A group answers [None] for
    the opcodes of the other groups. *)

(** Memory access and constants. *)
Definition op_load (op : Z) : option (V unit) :=
  match op with
  | 0x06 => (* OP_deref *)
      Some (unop (fun x => let! n := gets vm_addr_size in read_memory x n))
  | 0x05 => (* OP_deref2 *)
      Some (unop (fun x => let! v := read_memory x 2 in ret (sext 16 v)))
  | 0x94 => (* OP_deref_size *)
      Some (unop (fun x => let! n := read_u1 in read_memory x n))
  | 0x04 => (* OP_const *) Some (let! x := read_ia in push x)
  | 0x08 => (* OP_const1u *) Some (let! x := read_u1 in push x)
  | 0x09 => (* OP_const1s *) Some (let! x := read_u1 in push (sext 8 x))
  | 0x0a => (* OP_const2u *) Some (let! x := read_u2 in push x)
  | 0x0b => (* OP_const2s *) Some (let! x := read_u2 in push (sext 16 x))
  | 0x0c => (* OP_const4u *) Some (let! x := read_u4 in push x)
  | 0x0d => (* OP_const4s *) Some (let! x := read_u4 in push (sext 32 x))
  | 0x0e => (* OP_const8u *) Some (let! x := read_u8 in push x)
  | 0x0f => (* OP_const8s *) Some (let! x := read_u8 in push (sext 64 x))
  | 0x10 => (* OP_constu *) Some (let! x := read_u8leb128 in push x)
  | 0x11 => (* OP_consts *) Some (let! x := read_i8leb128 in push (uwrap 64 x))
  | _ => None
  end.

(** [OP_lit0] to [OP_lit31]. *)
Definition op_lit (op : Z) : option (V unit) :=
  if (0x30 <=? op) && (op <=? 0x4f) then Some (push (op - 0x30)) else None.

(** Stack manipulation. *)
Definition op_stack (op : Z) : option (V unit) :=
  match op with
  | 0x12 => (* OP_dup *) Some (check_e_stack 1 ;! let! x := peek 0 in push x)
  | 0x13 => (* OP_drop *) Some (check_e_stack 1 ;! pop ;! ret tt)
  | 0x14 => (* OP_over *) Some (check_e_stack 2 ;! let! x := peek 1 in push x)
  | 0x15 => (* OP_pick *)
      Some (let! n := read_u1 in
            check_e_stack (n + 1) ;!
            let! x := peek (Z.to_nat n) in push x)
  | 0x16 => (* OP_swap *)
      Some (check_e_stack 2 ;!
            let! x := pop in let! y := pop in
            push x ;! push y)
  | 0x17 => (* OP_rot *)
      Some (check_e_stack 3 ;!
            let! x := pop in let! y := pop in let! z := pop in
            push x ;! push z ;! push y)
  | 0x18 => (* OP_xderef *)
      Some (check_e_stack 2 ;!
            let! x := peek 0 in
            let! n := gets vm_addr_size in
            let! v := read_memory x n in
            pop ;! replace_top v)
  | 0x95 => (* OP_xderef_size *)
      Some (check_e_stack 2 ;!
            let! x := peek 0 in
            let! n := read_u1 in
            let! v := read_memory x n in
            pop ;! replace_top v)
  | _ => None
  end.

(** A shift of a 64-bit operand is undefined for counts of 64 and more. *)
Definition shift64 (f : Z -> Z -> Z) (x y : Z) : V Z :=
  if y >=? 64 then fault else ret (uwrap 64 (f x y)).

Definition nonzero (f : Z -> Z -> Z) (x y : Z) : V Z :=
  if y =? 0 then inv_dwarf else ret (f x y).

(** One iteration of the loop of [OP_shra]. *)
Definition shra1 (data : Z) : Z :=
  let s := negb (Z.land data (Z.shiftl 1 63) =? 0) in
  let data := Z.shiftr data 1 in
  if s then Z.lor data (Z.shiftl 1 63) else data.

Definition shra (data cnt : Z) : Z :=
  if cnt >=? 64 then (if negb (Z.land data (Z.shiftl 1 63) =? 0) then Z.ones 64 else 0)
  else Nat.iter (Z.to_nat cnt) shra1 data.

(** [~x + 1]. *)
Definition neg64 (x : Z) : Z := uwrap 64 (uwrap 64 (Z.lnot x) + 1).

Definition op_arith (op : Z) : option (V unit) :=
  match op with
  | 0x19 => (* OP_abs *) Some (pure1 (fun x => if swrap 64 x <? 0 then neg64 x else x))
  | 0x1a => (* OP_and *) Some (pure2 Z.land)
  | 0x1b => (* OP_div *) Some (binop (nonzero Z.div))
  | 0x1c => (* OP_minus *) Some (pure2 (fun x y => uwrap 64 (x - y)))
  | 0x1d => (* OP_mod *) Some (binop (nonzero Z.modulo))
  | 0x1e => (* OP_mul *) Some (pure2 (fun x y => uwrap 64 (x * y)))
  | 0x1f => (* OP_neg *) Some (pure1 neg64)
  | 0x20 => (* OP_not *) Some (pure1 (fun x => uwrap 64 (Z.lnot x)))
  | 0x21 => (* OP_or *) Some (pure2 Z.lor)
  | 0x07 (* OP_add *)
  | 0x22 => (* OP_plus *) Some (pure2 (fun x y => uwrap 64 (x + y)))
  | 0x23 => (* OP_plus_uconst *)
      Some (unop (fun x => let! n := read_u8leb128 in ret (uwrap 64 (x + n))))
  | 0x24 => (* OP_shl *) Some (binop (shift64 Z.shiftl))
  | 0x25 => (* OP_shr *) Some (binop (shift64 Z.shiftr))
  | 0x26 => (* OP_shra *) Some (pure2 shra)
  | 0x27 => (* OP_xor *) Some (pure2 Z.lxor)
  | _ => None
  end.

(** Comparisons; the operands are unsigned. *)
Definition op_compare (op : Z) : option (V unit) :=
  match op with
  | 0x29 => (* OP_eq *) Some (pure2 (fun x y => Z.b2z (x =? y)))
  | 0x2a => (* OP_ge *) Some (pure2 (fun x y => Z.b2z (x >=? y)))
  | 0x2b => (* OP_gt *) Some (pure2 (fun x y => Z.b2z (x >? y)))
  | 0x2c => (* OP_le *) Some (pure2 (fun x y => Z.b2z (x <=? y)))
  | 0x2d => (* OP_lt *) Some (pure2 (fun x y => Z.b2z (x <? y)))
  | 0x2e => (* OP_ne *) Some (pure2 (fun x y => Z.b2z (negb (x =? y))))
  | _ => None
  end.

(** [code_pos += offs; if (code_pos > code_len) inv_dwarf(..)]; [code_pos] has 64 bits. *)
Definition jump (offs : Z) : V unit :=
  let! pos := gets vm_pos in
  let pos := uwrap 64 (pos + offs) in
  modify (set_pos pos) ;!
  let! len := gets vm_len in
  if pos >? len then inv_dwarf else ret tt.

Definition op_control (op : Z) : option (V unit) :=
  match op with
  | 0x28 => (* OP_bra *)
      Some (check_e_stack 1 ;!
            let! offs := read_u2 in
            let! x := peek 0 in
            (if negb (x =? 0) then jump (swrap 16 offs) else ret tt) ;!
            pop ;! ret tt)
  | 0x2f => (* OP_skip *) Some (let! offs := read_u2 in jump (swrap 16 offs))
  | 0x96 => (* OP_nop *) Some (ret tt)
  | _ => None
  end.

Definition find_register (n : Z) : V RegisterDefinition := lift (get_reg_by_id n).

Definition push_register (def : RegisterDefinition) (offs : V Z) : V unit :=
  let! frame := gets vm_frame in
  let! v := lift (read_reg_value frame def) in
  let! o := offs in
  push (uwrap 64 (v + o)).

Definition op_register (op : Z) : option (V unit) :=
  match op with
  | 0x90 => (* OP_regx *)
      Some (let! n := read_u4leb128 in check_last ;! let! r := find_register n in set_reg_def r)
  | 0x01 => (* OP_reg *)
      Some (let! n := read_ua in check_last ;! let! r := find_register (uwrap 32 n) in set_reg_def r)
  | 0x92 => (* OP_bregx *)
      Some (let! n := read_u4leb128 in let! r := find_register n in push_register r read_i8leb128)
  | 0x02 => (* OP_basereg *)
      Some (let! n := read_ua in let! r := find_register (uwrap 32 n) in push_register r (ret 0))
  | 0x9c => (* OP_call_frame_cfa *)
      Some (let! frame := gets vm_frame in
            match frame with
            | None => throw ERR_INV_ADDRESS
            | Some f => push (frame_fp f)
            end)
  | 0x97 => (* OP_push_object_address *)
      Some (let! args := gets vm_args in
            match args with [] => throw ERR_INV_CONT_OBJ | a :: _ => push a end)
  | _ =>
      if (0x50 <=? op) && (op <=? 0x6f) then (* OP_reg0 .. OP_reg31 *)
        Some (check_last ;! let! r := find_register (op - 0x50) in set_reg_def r)
      else if (0x70 <=? op) && (op <=? 0x8f) then (* OP_breg0 .. OP_breg31 *)
        Some (let! r := find_register (op - 0x70) in push_register r read_i8leb128)
      else None
  end.

(** The bytes of [OP_stack_value], least significant first. *)
Fixpoint value_bytes (n : nat) (x : Z) : list Z :=
  match n with
  | O => []
  | Datatypes.S n' => uwrap 8 x :: value_bytes n' (Z.shiftr x 8)
  end.

(** The loop of [OP_TCF_offset] over the old pieces: [bit_offs] bits precede [ps], and [offs8] is
    [offs * 8]. *)
Fixpoint offset_pieces (offs8 bit_offs : Z) (ps : list LocationPiece) : list LocationPiece :=
  match ps with
  | [] => []
  | p :: ps' =>
      let bits := if lp_bit_size p =? 0 then uwrap 32 (lp_size p * 8) else lp_bit_size p in
      let p := lp_set_bits (lp_bit_offs p) bits p in
      let rest := offset_pieces offs8 (uwrap 32 (bit_offs + bits)) ps' in
      if uwrap 32 (bit_offs + bits) >? offs8 then
        let p :=
          if bit_offs <? offs8
          then lp_set_bits (uwrap 32 (lp_bit_offs p + uwrap 32 (offs8 - bit_offs)))
                 (uwrap 32 (lp_bit_size p - uwrap 32 (offs8 - bit_offs))) p
          else p in
        let p :=
          if (lp_bit_offs p =? 0) && (lp_bit_size p mod 8 =? 0)
          then lp_set_bits (lp_bit_offs p) 0 (lp_set_size (lp_bit_size p / 8) p)
          else p in
        lp_incr_implicit p :: rest
      else rest
  end.

Definition op_location (op : Z) : option (V unit) :=
  match op with
  | 0x93 => (* OP_piece *)
      Some (add_piece ;! let! n := read_u4leb128 in update_last (lp_set_size n))
  | 0x9d => (* OP_bit_piece *)
      Some (add_piece ;!
            let! n := read_u4leb128 in update_last (fun p => lp_set_bits (lp_bit_offs p) n p) ;!
            let! m := read_u4leb128 in update_last (fun p => lp_set_bits m (lp_bit_size p) p))
  | 0x9e => (* OP_implicit_value *)
      Some (let! n := read_u4leb128 in
            let! s := gets (fun s => s) in
            if vm_pos s + n >? vm_len s then inv_dwarf
            else
              let v := take (Z.to_nat n) (drop (Z.to_nat (vm_pos s)) (vm_code s)) in
              if Z.of_nat (length v) =? n then
                set_value v ;!
                modify (set_pos (vm_pos s + n)) ;!
                check_last
              else fault)
  | 0x9f => (* OP_stack_value *)
      Some (check_e_stack 1 ;!
            let! x := pop in
            let! s := gets (fun s => s) in
            let v := value_bytes (Z.to_nat (vm_addr_size s)) x in
            set_value (if vm_big_endian s then rev v else v) ;!
            check_last)
  | 0xff => (* OP_TCF_offset *)
      Some ((let! s := gets (fun s => s) in
             match vm_reg_def s, vm_value s with None, None => ret tt | _, _ => add_piece end) ;!
            let! ps := gets vm_pieces in
            match ps with
            | [] =>
                check_e_stack 1 ;!
                let! x := peek 0 in
                let! n := read_u8leb128 in
                replace_top (uwrap 64 (x + n)) ;!
                modify (fun s => set_statics (vm_reg_def s) (vm_value s) (uwrap 32 (vm_implicit_pointer s + 1)) s)
            | _ =>
                let! offs := read_u4leb128 in
                let ps := offset_pieces (uwrap 32 (offs * 8)) 0 ps in
                modify (set_pieces ps) ;!
                if (length ps =? 0)%nat then inv_dwarf else ret tt
            end)
  | _ => None
  end.

(** [get_state] and [set_state] around code that works on the state directly. *)
Definition get_state : V unit :=
  modify (fun s => mkVM (vm_code s) (vm_pos s) (vm_len s) (vm_pos s) (vm_slen s) (vm_stk s) (vm_pieces s)
    (vm_args s) (vm_addr_size s) (vm_big_endian s) (vm_frame s) (vm_reg_def s) (vm_value s) (vm_implicit_pointer s)).
Definition set_state : V unit :=
  modify (fun s => mkVM (vm_code s) (vm_spos s) (vm_slen s) (vm_spos s) (vm_slen s) (vm_stk s) (vm_pieces s)
    (vm_args s) (vm_addr_size s) (vm_big_endian s) (vm_frame s) (vm_reg_def s) (vm_value s) (vm_implicit_pointer s)).

(** The loop of [OP_TCF_switch] over the alternatives; [eval] is [evaluate_expression]. *)
Fixpoint switch_loop (eval : V unit) (m : nat) (n end_pos : Z) : V unit :=
  match m with
  | O => nofuel
  | Datatypes.S m' =>
      let! d := read_u2 in
      let! pos := gets vm_pos in
      let nxt_pos := d + pos in
      if nxt_pos >? end_pos then inv_dwarf
      else if nxt_pos =? pos then throw ERR_OTHER
      else
        let! addr := read_u8leb128 in
        let! size := read_u8leb128 in
        if (size =? 0) || ((n >=? addr) && (uwrap 64 (n - addr) <? size)) then
          let! code_len_org := gets vm_len in
          modify (set_len nxt_pos) ;!
          let! err := trap eval in
          modify (set_len code_len_org) ;!
          rethrow err
        else
          modify (set_pos nxt_pos) ;!
          switch_loop eval m' n end_pos
  end.

Definition op_switch (eval : V unit) (m : nat) : V unit :=
  check_e_stack 1 ;!
  let! n := pop in
  let! d := read_u2 in
  let! pos := gets vm_pos in
  let end_pos := d + pos in
  let! len := gets vm_len in
  if end_pos >? len then inv_dwarf
  else switch_loop eval m n end_pos ;! modify (set_pos end_pos).

(** [evaluate_vm_expression] on the state it is given; the result is the error, if any.  [eval] is
    [evaluate_expression]. *)
Definition run_vm (eval : V unit) : V (option Z) :=
  modify (set_statics None None 0) ;!
  set_state ;!
  let! err := trap (
    eval ;!
    let! s := gets (fun s => s) in
    match vm_reg_def s, vm_value s with
    | None, None => if vm_implicit_pointer s =? 0 then ret tt else add_piece
    | _, _ => add_piece
    end) in
  get_state ;!
  ret err.

(** The value of an entry expression: the loop [value |= buf[i] << (i * 8)], where the shifted byte
    is an [int]: counts of 32 and more are undefined, and bit 31 is extended as a sign. *)
Fixpoint entry_value_loop (i : Z) (value : Z) (buf : list Z) : V Z :=
  match buf with
  | [] => ret value
  | b :: buf' =>
      if i * 8 >=? 32 then fault
      else entry_value_loop (i + 1) (Z.lor value (sext 32 (Z.shiftl b (i * 8)))) buf'
  end.

(** The body of [OP_GNU_entry_value] between [set_trap] and [clear_trap]: the expression is run
    in a state of its own, which shares the static variables. *)
Definition entry_value (eval : V unit) (frame size : Z) : V unit :=
  let! fr := lift (get_frame_info frame) in
  let! s := gets (fun s => s) in
  let entry := mkVM (drop (Z.to_nat (vm_spos s)) (vm_code s)) 0 0 0 size [] [] [] (vm_addr_size s)
    (vm_big_endian s) (Some fr) (vm_reg_def s) (vm_value s) (vm_implicit_pointer s) in
  let '(r, entry') := run_vm eval entry in
  (* The static variables keep what the nested run left in them. *)
  modify (fun s => set_statics (vm_reg_def entry') (vm_value entry') (vm_implicit_pointer entry') s) ;!
  let! err := (fun s => (r, s)) in
  rethrow err ;!
  match vm_pieces entry' with
  | _ :: _ =>
      let! buf := lift (read_location_pieces fr (vm_pieces entry')) in
      if (8 <? length buf)%nat then inv_dwarf
      else let! v := entry_value_loop 0 0 buf in push v
  | [] =>
      match vm_stk entry' with
      | [x] => push x
      | _ => inv_dwarf
      end
  end.

Definition op_entry_value (eval : V unit) : V unit :=
  let! frame := gets (fun s => get_prev_frame (vm_frame s)) in
  let! size := read_u4leb128 in
  get_state ;!
  let! err := trap (entry_value eval frame size) in
  modify (fun s => mkVM (vm_code s) (vm_pos s) (vm_len s) (uwrap 64 (vm_spos s + size)) (vm_slen s) (vm_stk s)
    (vm_pieces s) (vm_args s) (vm_addr_size s) (vm_big_endian s) (vm_frame s) (vm_reg_def s) (vm_value s)
    (vm_implicit_pointer s)) ;!
  set_state ;!
  rethrow err.

Definition op_client (op : Z) : V unit :=
  get_state ;!
  let! err := trap (client_op op) in
  set_state ;!
  rethrow err.

(** One case of the [switch]. *)
Definition exec_op (eval : V unit) (m : nat) (op : Z) : V unit :=
  let groups := [op_load op; op_stack op; op_arith op; op_control op; op_compare op; op_lit op;
                 op_register op; op_location op] in
  match list_find is_Some groups with
  | Some (_, Some c) => c
  | _ =>
      if op =? 0xfe then op_switch eval m
      else if op =? 0xf3 then op_entry_value eval
      else op_client op
  end.

(** The [while] loop of [evaluate_expression]; each instruction takes one unit of fuel. *)
Fixpoint eval_loop (fuel : nat) : V unit :=
  match fuel with
  | O => nofuel
  | Datatypes.S fuel' =>
      let! pos := gets vm_pos in
      let! len := gets vm_len in
      if pos <? len then
        let! op := fetch in
        exec_op ((let! len := gets vm_len in if len =? 0 then inv_dwarf else ret tt) ;! eval_loop fuel') fuel' op ;!
        eval_loop fuel'
      else ret tt
  end.

Definition evaluate_expression (fuel : nat) : V unit :=
  (let! len := gets vm_len in if len =? 0 then inv_dwarf else ret tt) ;! eval_loop fuel.

Definition evaluate_vm_expression (fuel : nat) : V (option Z) := run_vm (evaluate_expression fuel).

End Vm.
