(* ===== verification/VmProps.v ===== *)
(** * Properties of the DWARF expression evaluator

    Operand decoding (LEB128 and fixed size numbers of both byte orders), the arithmetic of the
    stack machine against a reference semantics of expressions, and the error behaviour. *)

From S2P Require Import Prelude Vm.

(** ** LEB128 encodings *)

Fixpoint uleb (fuel : nat) (n : Z) : list Z :=
  match fuel with
  | O => []
  | S f => if n <? 128 then [n] else n mod 128 + 128 :: uleb f (n / 128)
  end.

Fixpoint sleb (fuel : nat) (n : Z) : list Z :=
  match fuel with
  | O => []
  | S f => if (-64 <=? n) && (n <? 64) then [n mod 128] else n mod 128 + 128 :: sleb f (n / 128)
  end.

(** The encodings of 64-bit numbers have at most ten bytes. *)
Definition uleb128 (n : Z) : list Z := uleb 10 n.
Definition sleb128 (n : Z) : list Z := sleb 10 n.

Section Decode.
Context {Frame : Type} {env : VmEnv Frame}.
Notation V := (M (VM Frame)).

(** [m] reads the bytes [l] of the code and returns [a]. *)
Definition vreads {A} (be : bool) (m : V A) (l : list Z) (a : A) : Prop :=
  forall s post, vm_big_endian s = be -> 0 <= vm_pos s ->
  drop (Z.to_nat (vm_pos s)) (vm_code s) = l ++ post ->
  vm_pos s + Z.of_nat (length l) <= vm_len s ->
  runs m s a (set_pos (vm_pos s + Z.of_nat (length l)) s).

Lemma vreads_ret {A} be (a : A) : vreads be (ret a) [] a.
Proof.
  intros s post _ _ _ _. cbn [length]. rewrite Z.add_0_r. unfold runs, ret, set_pos. by destruct s.
Qed.

Lemma vreads_bind {A B} be (m : V A) (k : A -> V B) l1 l2 a b :
  vreads be m l1 a -> vreads be (k a) l2 b -> vreads be (bind m k) (l1 ++ l2) b.
Proof.
  intros Hm Hk s post Hbe Hp Hd Hl. rewrite <- (assoc_L (++)) in Hd. rewrite length_app in *.
  eapply runs_bind; [apply (Hm s (l2 ++ post)); [done..|lia]|].
  specialize (Hk (set_pos (vm_pos s + Z.of_nat (length l1)) s) post Hbe). cbn [vm_pos set_pos vm_code vm_len] in Hk.
  replace (vm_pos s + Z.of_nat (length l1 + length l2)) with (vm_pos s + Z.of_nat (length l1) + Z.of_nat (length l2)) by lia.
  apply Hk; [lia| |lia].
  rewrite Z2Nat.inj_add, <- drop_drop, Hd, Nat2Z.id by lia. by rewrite drop_app_length.
Qed.

Lemma vreads_be {A} be (k : bool -> V A) l a :
  vreads be (k be) l a -> vreads be (let! b := gets vm_big_endian in k b) l a.
Proof. intros Hk s post Hbe Hp Hd Hl. eapply runs_bind; [apply runs_gets|]. rewrite Hbe. by eapply Hk. Qed.

Lemma vreads_u1 be b : vreads be read_u1 [b] b.
Proof.
  intros s post _ Hp Hd Hl. unfold read_u1. cbn [length] in *.
  do 2 (eapply runs_bind; [apply runs_gets|]). rewrite Z.geb_leb, (proj2 (Z.leb_gt _ _)) by lia.
  unfold fetch. do 2 (eapply runs_bind; [apply runs_gets|]).
  assert (Hn : vm_code s !! Z.to_nat (vm_pos s) = Some b).
  { rewrite <- (Nat.add_0_r (Z.to_nat (vm_pos s))), <- lookup_drop, Hd. done. }
  rewrite Hn. by eapply runs_bind; [apply runs_modify|].
Qed.

(** A number as [n] bytes, most significant first if [be]. *)
Definition number_bytes (be : bool) (n : nat) (x : Z) : list Z :=
  if be then rev (value_bytes n x) else value_bytes n x.

Lemma shiftl_small x k w : 0 <= k -> 0 <= x < 2 ^ w -> 0 <= w -> 0 <= Z.shiftl x k < 2 ^ (w + k).
Proof.
  intros Hk Hx Hw. rewrite Z.shiftl_mul_pow2, Z.pow_add_r by lia. nia.
Qed.

(** Two halves of [w] bits. *)
Lemma vreads_pair be (m : V Z) w l0 l1 x0 x1 : 0 <= w -> 0 <= x0 < 2 ^ w -> 0 <= x1 < 2 ^ w ->
  vreads be m l0 x0 -> vreads be m l1 x1 ->
  vreads be (let! a := m in let! b := m in let! e := gets vm_big_endian in
             ret (if e : bool then Z.lor (Z.shiftl a w) b else Z.lor a (Z.shiftl b w))) (l0 ++ l1)
    (if be then x0 * 2 ^ w + x1 else x0 + x1 * 2 ^ w).
Proof.
  intros Hw H0 H1 R0 R1. eapply vreads_bind; [exact R0|]. rewrite <- (app_nil_r l1).
  eapply vreads_bind; [exact R1|]. apply vreads_be.
  rewrite !Z.shiftl_mul_pow2 by lia.
  assert (E : (if be then Z.lor (x0 * 2 ^ w) x1 else Z.lor x0 (x1 * 2 ^ w)) =
    (if be then x0 * 2 ^ w + x1 else x0 + x1 * 2 ^ w)).
  { destruct be; [rewrite Z.lor_comm, lor_add by lia; lia|by rewrite lor_add by lia]. }
  rewrite E. apply vreads_ret.
Qed.

Lemma value_bytes_app n m x : value_bytes (n + m) x = value_bytes n x ++ value_bytes m (Z.shiftr x (8 * Z.of_nat n)).
Proof.
  revert x. induction n as [|n IH]; intros x; cbn [value_bytes Nat.add app].
  - by rewrite Z.shiftr_0_r.
  - rewrite IH, Z.shiftr_shiftr by lia. by replace (8 + 8 * Z.of_nat n) with (8 * Z.of_nat (S n)) by lia.
Qed.

Lemma value_bytes_mod n x : value_bytes n (x mod 2 ^ (8 * Z.of_nat n)) = value_bytes n x.
Proof.
  revert x. induction n as [|n IH]; intros x; [done|]. cbn [value_bytes].
  replace (8 * Z.of_nat (S n)) with (8 + 8 * Z.of_nat n) by lia. rewrite Z.pow_add_r by lia.
  set (p := 2 ^ (8 * Z.of_nat n)) in *. assert (0 < p) by (subst p; lia).
  f_equal.
  - unfold uwrap. change (2 ^ 8) with 256. rewrite Z.rem_mul_r by lia.
    rewrite Z.mul_comm, Z.mod_add by lia. by rewrite Z.mod_mod by lia.
  - rewrite !Z.shiftr_div_pow2 by lia. change (2 ^ 8) with 256. rewrite <- (IH (x / 256)). f_equal.
    rewrite Z.rem_mul_r by lia. rewrite Z.mul_comm, Z.div_add by lia.
    rewrite (Z.div_small (x mod 256)) by (apply Z.mod_pos_bound; lia). lia.
Qed.

(** Reading a number of twice the size. *)
Lemma vreads_double be (m : V Z) n x : 0 <= x < 2 ^ (8 * Z.of_nat (n + n)) ->
  (forall y, 0 <= y < 2 ^ (8 * Z.of_nat n) -> vreads be m (number_bytes be n y) y) ->
  vreads be (let! a := m in let! b := m in let! e := gets vm_big_endian in
             ret (if e : bool then Z.lor (Z.shiftl a (8 * Z.of_nat n)) b else Z.lor a (Z.shiftl b (8 * Z.of_nat n))))
    (number_bytes be (n + n) x) x.
Proof.
  intros Hx Hm. set (w := 8 * Z.of_nat n) in *.
  replace (8 * Z.of_nat (n + n)) with (w + w) in Hx by (subst w; lia). rewrite Z.pow_add_r in Hx by (subst w; lia).
  assert (Hp : 0 < 2 ^ w) by (subst w; lia).
  pose proof (Z.mod_pos_bound x (2 ^ w) Hp). pose proof (Z.div_mod x (2 ^ w)).
  assert (0 <= x / 2 ^ w < 2 ^ w) by (split; [apply Z.div_pos; lia|apply Z.div_lt_upper_bound; lia]).
  assert (Hlow : value_bytes n x = value_bytes n (x mod 2 ^ w)) by (by rewrite value_bytes_mod).
  assert (Hhigh : value_bytes n (Z.shiftr x w) = value_bytes n (x / 2 ^ w)) by (by rewrite Z.shiftr_div_pow2 by (subst w; lia)).
  unfold number_bytes. rewrite value_bytes_app. fold w. rewrite Hlow, Hhigh.
  destruct be.
  - rewrite rev_app_distr.
    pose proof (vreads_pair true m w _ _ (x / 2 ^ w) (x mod 2 ^ w) ltac:(subst w; lia) ltac:(lia) ltac:(lia)
      (Hm (x / 2 ^ w) ltac:(lia)) (Hm (x mod 2 ^ w) ltac:(lia))) as R.
    cbn beta iota in R. replace (x / 2 ^ w * 2 ^ w + x mod 2 ^ w) with x in R by lia. exact R.
  - pose proof (vreads_pair false m w _ _ (x mod 2 ^ w) (x / 2 ^ w) ltac:(subst w; lia) ltac:(lia) ltac:(lia)
      (Hm (x mod 2 ^ w) ltac:(lia)) (Hm (x / 2 ^ w) ltac:(lia))) as R.
    cbn beta iota in R. replace (x mod 2 ^ w + x / 2 ^ w * 2 ^ w) with x in R by lia. exact R.
Qed.

Lemma vreads_1 be y : 0 <= y < 2 ^ (8 * Z.of_nat 1) -> vreads be read_u1 (number_bytes be 1 y) y.
Proof.
  intros Hy. replace (number_bytes be 1 y) with [y]; [apply vreads_u1|].
  unfold number_bytes. cbn [value_bytes]. rewrite uwrap_small by (simpl in *; lia). by destruct be.
Qed.

Lemma vreads_2 be y : 0 <= y < 2 ^ (8 * Z.of_nat 2) -> vreads be read_u2 (number_bytes be 2 y) y.
Proof. intros Hy. apply (vreads_double be read_u1 1 y Hy). intros. by apply vreads_1. Qed.

Lemma vreads_4 be y : 0 <= y < 2 ^ (8 * Z.of_nat 4) -> vreads be read_u4 (number_bytes be 4 y) y.
Proof. intros Hy. apply (vreads_double be read_u2 2 y Hy). intros. by apply vreads_2. Qed.

Lemma vreads_8 be y : 0 <= y < 2 ^ (8 * Z.of_nat 8) -> vreads be read_u8 (number_bytes be 8 y) y.
Proof. intros Hy. apply (vreads_double be read_u4 4 y Hy). intros. by apply vreads_4. Qed.

(** One byte of a LEB128 number with more bytes to come. *)
Lemma leb_more n : let b := n mod 128 + 128 in Z.land b 0x7f = n mod 128 /\ Z.land b 0x80 =? 0 = false /\ is_byte b.
Proof.
  intros b. assert (Hn : 0 <= n mod 128 < 128) by (apply Z.mod_pos_bound; lia).
  assert (Hb : is_byte b) by (unfold is_byte; lia).
  assert (H : ((Z.land b 0x7f =? b mod 128) && (implb (128 <=? b) (negb (Z.land b 0x80 =? 0)))) = true).
  { exact (byte_forall (fun b => (Z.land b 0x7f =? b mod 128) && (implb (128 <=? b) (negb (Z.land b 0x80 =? 0))))
      ltac:(by vm_compute) b Hb). }
  apply andb_true_iff in H as [H1 H2]. rewrite (proj2 (Z.leb_le 128 b)) in H2 by lia. cbn in H2.
  apply negb_true_iff in H2. split; [|by split]. apply Z.eqb_eq in H1. rewrite H1. subst b.
  rewrite <- Z.add_mod_idemp_r, Z.mod_same, Z.add_0_r, Z.mod_mod by lia. done.
Qed.

Lemma leb_last b : 0 <= b < 128 -> Z.land b 0x7f = b /\ Z.land b 0x80 =? 0 = true.
Proof.
  intros Hb. assert (H : (implb (b <? 128) ((Z.land b 0x7f =? b) && (Z.land b 0x80 =? 0))) = true).
  { exact (byte_forall (fun b => implb (b <? 128) ((Z.land b 0x7f =? b) && (Z.land b 0x80 =? 0)))
      ltac:(by vm_compute) b ltac:(unfold is_byte; lia)). }
  rewrite (proj2 (Z.ltb_lt b 128)) in H by lia. cbn in H. apply andb_true_iff in H as [H1 H2].
  by apply Z.eqb_eq in H1.
Qed.

(** Accumulating seven bits. *)
Lemma leb_acc w i r d : 0 <= i -> 0 <= r < 2 ^ i -> 0 <= d -> 0 <= d * 2 ^ i < 2 ^ w ->
  Z.lor r (uwrap w (Z.shiftl d i)) = r + d * 2 ^ i.
Proof. intros. rewrite Z.shiftl_mul_pow2, uwrap_small by lia. by apply lor_add. Qed.

Lemma vreads_uleb_loop be w : w = 32 \/ w = 64 -> forall f n i r, (f <= n)%nat ->
  0 <= i -> 0 <= r < 2 ^ i -> forall x, 0 <= x -> x < 128 ^ Z.of_nat f -> 0 <= i < w -> r + x * 2 ^ i < 2 ^ w ->
  (0 < f)%nat ->
  vreads be (read_uleb_loop n w i r) (uleb f x) (r + x * 2 ^ i).
Proof.
  intros Hw f. induction f as [|f IH]; intros n i r Hf Hi Hr x Hx Hxf Hiw Hlt H0; [lia|].
  destruct n as [|n]; [lia|]. cbn [uleb read_uleb_loop].
  assert (Hp : 0 < 2 ^ i) by lia.
  destruct (Z.ltb_spec x 128) as [Hs|Hs].
  - rewrite <- (app_nil_r [x]). eapply vreads_bind; [apply vreads_u1|].
    rewrite Z.geb_leb, (proj2 (Z.leb_gt w i)) by lia.
    destruct (leb_last x ltac:(lia)) as [-> ->]. rewrite leb_acc by nia. apply vreads_ret.
  - eapply (vreads_bind be _ _ [_] (uleb f (x / 128))); [apply vreads_u1|].
    rewrite Z.geb_leb, (proj2 (Z.leb_gt w i)) by lia.
    destruct (leb_more x) as (-> & -> & _).
    pose proof (Z.mod_pos_bound x 128 ltac:(lia)). pose proof (Z.div_mod x 128 ltac:(lia)).
    assert (1 <= x / 128) by (apply Z.div_le_lower_bound; lia).
    assert (Hpi : 2 ^ (i + 7) = 2 ^ i * 128) by (rewrite Z.pow_add_r by lia; done).
    rewrite leb_acc by nia.
    assert (Heq : r + x * 2 ^ i = (r + x mod 128 * 2 ^ i) + (x / 128) * 2 ^ (i + 7)) by (rewrite Hpi; nia).
    assert (i + 7 < w).
    { apply (Z.pow_lt_mono_r_iff 2); [lia|lia|]. rewrite Hpi. nia. }
    rewrite Nat2Z.inj_succ, Z.pow_succ_r in Hxf by lia.
    assert (Hr' : 0 <= r + x mod 128 * 2 ^ i < 2 ^ (i + 7)) by (rewrite Hpi; nia).
    assert (Hx' : x / 128 < 128 ^ Z.of_nat f) by (apply Z.div_lt_upper_bound; lia).
    assert (Hf0 : (0 < f)%nat) by (destruct f; [simpl in Hxf; lia|lia]).
    rewrite Heq in *. apply IH; auto; lia.
Qed.

Lemma vreads_u8leb be x : 0 <= x < 2 ^ 64 -> vreads be read_u8leb128 (uleb128 x) x.
Proof.
  intros Hx. pose proof (vreads_uleb_loop be 64 ltac:(by right) 10 LEB_BYTES 0 0 ltac:(unfold LEB_BYTES; lia)
    ltac:(lia) ltac:(lia) x ltac:(lia)) as R. rewrite Z.pow_0_r, Z.mul_1_r, Z.add_0_l in R. apply R; try lia.
Qed.

Lemma vreads_u4leb be x : 0 <= x < 2 ^ 32 -> vreads be read_u4leb128 (uleb128 x) x.
Proof.
  intros Hx. pose proof (vreads_uleb_loop be 32 ltac:(by left) 10 LEB_BYTES 0 0 ltac:(unfold LEB_BYTES; lia)
    ltac:(lia) ltac:(lia) x ltac:(lia)) as R. rewrite Z.pow_0_r, Z.mul_1_r, Z.add_0_l in R. apply R; try lia.
Qed.

Lemma uwrap_lor w a b : 0 <= w -> Z.lor (uwrap w a) (uwrap w b) = uwrap w (Z.lor a b).
Proof.
  intros Hw. unfold uwrap. rewrite <- !Z.land_ones by done. by rewrite Z.land_lor_distr_l.
Qed.

(** The sign extension of the last byte. *)
Lemma sign_byte x : -64 <= x < 64 -> Z.lor (Z.land (x mod 128) 0x7f) (- Z.land (x mod 128) 0x40) = x.
Proof.
  intros Hx.
  assert (H : (let x := x + 64 - 64 in Z.lor (Z.land (x mod 128) 0x7f) (- Z.land (x mod 128) 0x40) =? x) = true).
  { pose proof (byte_forall (fun n => implb (n <? 128)
      (let x := n - 64 in Z.lor (Z.land (x mod 128) 0x7f) (- Z.land (x mod 128) 0x40) =? x))
      ltac:(by vm_compute) (x + 64) ltac:(unfold is_byte; lia)) as H.
    cbn beta in H. rewrite (proj2 (Z.ltb_lt (x + 64) 128)) in H by lia. exact H. }
  apply Z.eqb_eq in H. by replace (x + 64 - 64) with x in H by lia.
Qed.

Lemma vreads_ileb_loop be f : forall n i r, (f <= n)%nat ->
  0 <= i < 64 -> 0 <= r < 2 ^ i -> forall x, - 128 ^ Z.of_nat f / 2 <= x < 128 ^ Z.of_nat f / 2 ->
  - 2 ^ 63 <= r + x * 2 ^ i < 2 ^ 63 -> (0 < f)%nat ->
  vreads be (read_ileb_loop n i r) (sleb f x) (r + x * 2 ^ i).
Proof.
  induction f as [|f IH]; intros n i r Hf Hi Hr x Hxf Hlt H0; [lia|].
  destruct n as [|n]; [lia|]. cbn [sleb read_ileb_loop].
  assert (Hp : 0 < 2 ^ i) by lia.
  destruct ((-64 <=? x) && (x <? 64)) eqn:Es.
  - apply andb_true_iff in Es as [Es1 Es2]. rewrite <- (app_nil_r [x mod 128]).
    eapply vreads_bind; [apply vreads_u1|].
    rewrite Z.geb_leb, (proj2 (Z.leb_gt 64 i)) by lia.
    assert (Hm : 0 <= x mod 128 < 128) by (apply Z.mod_pos_bound; lia).
    destruct (leb_last (x mod 128) Hm) as [_ ->].
    assert (E : swrap 64 (Z.lor (Z.lor r (uwrap 64 (Z.shiftl (Z.land (x mod 128) 0x7f) i)))
      (uwrap 64 (Z.shiftl (- Z.land (x mod 128) 0x40) i))) = r + x * 2 ^ i).
    { rewrite <- Z.lor_assoc, uwrap_lor, <- Z.shiftl_lor, sign_byte by lia.
      assert (Hru : uwrap 64 r = r).
      { apply uwrap_small. split; [lia|]. eapply Z.lt_trans; [apply Hr|]. apply Z.pow_lt_mono_r; lia. }
      rewrite <- Hru at 1. rewrite uwrap_lor, swrap_uwrap, Z.shiftl_mul_pow2, lor_add by lia.
      apply swrap_small; lia. }
    rewrite E. apply vreads_ret.
  - assert (Hbig : x < -64 \/ 64 <= x) by (apply andb_false_iff in Es as [Es|Es]; lia).
    eapply (vreads_bind be _ _ [_] (sleb f (x / 128))); [apply vreads_u1|].
    rewrite Z.geb_leb, (proj2 (Z.leb_gt 64 i)) by lia.
    destruct (leb_more x) as (-> & -> & _).
    pose proof (Z.mod_pos_bound x 128 ltac:(lia)). pose proof (Z.div_mod x 128 ltac:(lia)).
    assert (Hpi : 2 ^ (i + 7) = 2 ^ i * 128) by (rewrite Z.pow_add_r by lia; done).
    (* The last seven bits of the result are still to come. *)
    assert (Hi7 : i + 7 < 64).
    { destruct (Z.lt_ge_cases (i + 7) 64); [done|exfalso].
      assert (2 ^ 57 <= 2 ^ i) by (apply Z.pow_le_mono_r; lia). nia. }
    assert (2 ^ (i + 7) <= 2 ^ 63) by (apply Z.pow_le_mono_r; lia).
    rewrite leb_acc by nia.
    assert (Heq : r + x * 2 ^ i = (r + x mod 128 * 2 ^ i) + (x / 128) * 2 ^ (i + 7)) by (rewrite Hpi; nia).
    rewrite Heq in *.
    rewrite Nat2Z.inj_succ, Z.pow_succ_r in Hxf by lia.
    destruct f as [|f].
    { change (- (128 * 128 ^ Z.of_nat 0) / 2) with (-64) in Hxf.
      change (128 * 128 ^ Z.of_nat 0 / 2) with 64 in Hxf. lia. }
    assert (He : exists h, 128 ^ Z.of_nat (S f) = 2 * h).
    { exists (64 * 128 ^ Z.of_nat f). rewrite Nat2Z.inj_succ, Z.pow_succ_r by lia. lia. }
    destruct He as [h He]. rewrite He in *.
    assert (Hhalf : forall y, (2 * y) / 2 = y) by (intros; rewrite Z.mul_comm; apply Z.div_mul; lia).
    replace (- (128 * (2 * h))) with (2 * (- (128 * h))) in Hxf by lia.
    replace (128 * (2 * h)) with (2 * (128 * h)) in Hxf by lia. rewrite !Hhalf in Hxf.
    assert (Hr' : 0 <= r + x mod 128 * 2 ^ i < 2 ^ (i + 7)) by (rewrite Hpi; nia).
    apply IH; [lia|lia|done| |lia|lia].
    replace (- (2 * h)) with (2 * - h) by lia. rewrite !Hhalf.
    split; [apply Z.div_le_lower_bound; lia|apply Z.div_lt_upper_bound; lia].
Qed.

Lemma vreads_i8leb be x : - 2 ^ 63 <= x < 2 ^ 63 -> vreads be read_i8leb128 (sleb128 x) x.
Proof.
  intros Hx. pose proof (vreads_ileb_loop be 10 LEB_BYTES 0 0 ltac:(unfold LEB_BYTES; lia)
    ltac:(lia) ltac:(lia) x) as R. rewrite Z.pow_0_r, Z.mul_1_r, Z.add_0_l in R. apply R; try lia.
  change (128 ^ Z.of_nat 10) with (2 ^ 70). change (- 2 ^ 70 / 2) with (- 2 ^ 69). change (2 ^ 70 / 2) with (2 ^ 69). lia.
Qed.
End Decode.

(** ** Expressions and their reference semantics *)

Inductive uop := UAbs | UNeg | UNot.
Inductive bop :=
  | BAnd | BDiv | BMinus | BMod | BMul | BOr | BPlus | BShl | BShr | BShra | BXor
  | BEq | BGe | BGt | BLe | BLt | BNe.

Definition uop_code (u : uop) : Z := match u with UAbs => 0x19 | UNeg => 0x1f | UNot => 0x20 end.
Definition bop_code (b : bop) : Z :=
  match b with
  | BAnd => 0x1a | BDiv => 0x1b | BMinus => 0x1c | BMod => 0x1d | BMul => 0x1e | BOr => 0x21
  | BPlus => 0x22 | BShl => 0x24 | BShr => 0x25 | BShra => 0x26 | BXor => 0x27
  | BEq => 0x29 | BGe => 0x2a | BGt => 0x2b | BLe => 0x2c | BLt => 0x2d | BNe => 0x2e
  end.

(** Arithmetic on the integers; operands and results are 64-bit numbers. *)
Definition uop_val (u : uop) (x : Z) : Z :=
  match u with
  | UAbs => Z.abs (swrap 64 x)
  | UNeg => - x mod 2 ^ 64
  | UNot => 2 ^ 64 - 1 - x
  end.

Definition bop_val (b : bop) (x y : Z) : outcome Z :=
  match b with
  | BAnd => Val (Z.land x y)
  | BDiv => if y =? 0 then Throw ERR_INV_DWARF else Val (x / y)
  | BMinus => Val ((x - y) mod 2 ^ 64)
  | BMod => if y =? 0 then Throw ERR_INV_DWARF else Val (x mod y)
  | BMul => Val (x * y mod 2 ^ 64)
  | BOr => Val (Z.lor x y)
  | BPlus => Val ((x + y) mod 2 ^ 64)
  | BShl => if 64 <=? y then Fault else Val (x * 2 ^ y mod 2 ^ 64)
  | BShr => if 64 <=? y then Fault else Val (x / 2 ^ y)
  | BShra => Val ((swrap 64 x / 2 ^ y) mod 2 ^ 64)
  | BXor => Val (Z.lxor x y)
  | BEq => Val (if x =? y then 1 else 0)
  | BGe => Val (if y <=? x then 1 else 0)
  | BGt => Val (if y <? x then 1 else 0)
  | BLe => Val (if x <=? y then 1 else 0)
  | BLt => Val (if x <? y then 1 else 0)
  | BNe => Val (if x =? y then 0 else 1)
  end.

Definition u64 (x : Z) : Prop := 0 <= x < 2 ^ 64.

Lemma u64_mod x : u64 (x mod 2 ^ 64).
Proof. apply Z.mod_pos_bound. lia. Qed.

Lemma sign_bit x : u64 x -> negb (Z.land x (Z.shiftl 1 63) =? 0) = (2 ^ 63 <=? x).
Proof.
  intros Hx. unfold u64 in Hx. rewrite Z.shiftl_1_l.
  assert (E : Z.land x (2 ^ 63) = if Z.testbit x 63 then 2 ^ 63 else 0).
  { apply Z.bits_inj'. intros i Hi. rewrite Z.land_spec, Z.pow2_bits_eqb by lia.
    destruct (Z.eqb_spec 63 i) as [<-|Hne].
    - rewrite andb_true_r. destruct (Z.testbit x 63); [by rewrite Z.pow2_bits_true|by rewrite Z.bits_0].
    - rewrite andb_false_r. destruct (Z.testbit x 63); [by rewrite Z.pow2_bits_false by lia|by rewrite Z.bits_0]. }
  assert (Ht : Z.testbit x 63 = (2 ^ 63 <=? x)).
  { rewrite Z.testbit_eqb by lia. destruct (Z.leb_spec (2 ^ 63) x).
    - replace (x / 2 ^ 63) with 1; [done|]. apply (Z.div_unique _ _ _ (x - 2 ^ 63)); lia.
    - by rewrite Z.div_small by lia. }
  rewrite E, Ht. by destruct (2 ^ 63 <=? x).
Qed.

Lemma swrap_sign x : u64 x -> swrap 64 x = if 2 ^ 63 <=? x then x - 2 ^ 64 else x.
Proof.
  unfold u64. intros Hx. destruct (Z.leb_spec (2 ^ 63) x).
  - rewrite <- swrap_uwrap by lia. replace (uwrap 64 x) with (uwrap 64 (x - 2 ^ 64)).
    + rewrite swrap_uwrap, swrap_small by lia. done.
    + unfold uwrap. replace (x - 2 ^ 64) with (x + (-1) * 2 ^ 64) by lia. by rewrite Z.mod_add by lia.
  - apply swrap_small; lia.
Qed.

(** One iteration of the loop of [OP_shra] halves the signed value. *)
Lemma shra1_spec x : u64 x -> u64 (shra1 x) /\ swrap 64 (shra1 x) = swrap 64 x / 2.
Proof.
  intros Hx. unfold shra1. rewrite sign_bit, Z.shiftr_div_pow2, Z.shiftl_1_l by (done || lia).
  change (2 ^ 1) with 2. pose proof (swrap_sign x Hx) as Es. unfold u64 in *. revert Es.
  pose proof (Z.div_mod x 2 ltac:(lia)). pose proof (Z.mod_pos_bound x 2 ltac:(lia)).
  destruct (Z.leb_spec (2 ^ 63) x); intros Es.
  - assert (El : Z.lor (x / 2) (2 ^ 63) = x / 2 + 2 ^ 63).
    { pose proof (lor_add 63 (x / 2) 1 ltac:(lia) ltac:(lia)) as El. by rewrite Z.mul_1_l in El. }
    rewrite El. assert (Hr : 0 <= x / 2 + 2 ^ 63 < 2 ^ 64) by lia. split; [done|].
    rewrite (swrap_sign _ Hr), Es. rewrite (proj2 (Z.leb_le _ _)) by lia.
    replace (x - 2 ^ 64) with (x + (- 2 ^ 63) * 2) by lia. rewrite Z.div_add by lia. lia.
  - assert (Hr : 0 <= x / 2 < 2 ^ 64) by lia. split; [done|]. rewrite (swrap_sign _ Hr), Es.
    rewrite (proj2 (Z.leb_gt _ _)) by lia. done.
Qed.

Lemma shra_spec x y : u64 x -> u64 y -> shra x y = (swrap 64 x / 2 ^ y) mod 2 ^ 64.
Proof.
  intros Hx Hy. unfold shra. rewrite Z.geb_leb. destruct (Z.leb_spec 64 y) as [H64|H64].
  - rewrite sign_bit, (swrap_sign x Hx) by done. unfold u64 in *.
    assert (2 ^ 64 <= 2 ^ y) by (apply Z.pow_le_mono_r; lia).
    destruct (Z.leb_spec (2 ^ 63) x).
    + replace ((x - 2 ^ 64) / 2 ^ y) with (-1); [done|]. apply (Z.div_unique _ _ _ (x - 2 ^ 64 + 2 ^ y)); lia.
    + by rewrite Z.div_small by lia.
  - assert (H : forall n, u64 (Nat.iter n shra1 x) /\ swrap 64 (Nat.iter n shra1 x) = swrap 64 x / 2 ^ Z.of_nat n).
    { induction n as [|n [IH1 IH2]]; [by rewrite Z.div_1_r|].
      change (Nat.iter (S n) shra1 x) with (shra1 (Nat.iter n shra1 x)).
      destruct (shra1_spec _ IH1) as [H1 H2]. split; [done|]. rewrite H2, IH2.
      rewrite Z.div_div by lia. rewrite Nat2Z.inj_succ, Z.pow_succ_r by lia. f_equal. lia. }
    destruct (H (Z.to_nat y)) as [H1 H2]. unfold u64 in *. rewrite Z2Nat.id in H2 by lia.
    rewrite <- H2. fold (uwrap 64 (swrap 64 (Nat.iter (Z.to_nat y) shra1 x))).
    by rewrite uwrap_swrap, uwrap_small by lia.
Qed.

Lemma lnot_u64 x : u64 x -> uwrap 64 (Z.lnot x) = 2 ^ 64 - 1 - x.
Proof.
  unfold u64. intros Hx. unfold uwrap. replace (Z.lnot x) with ((2 ^ 64 - 1 - x) + (-1) * 2 ^ 64) by (unfold Z.lnot; lia).
  rewrite Z.mod_add by lia. apply Z.mod_small. lia.
Qed.

Lemma neg64_spec x : u64 x -> neg64 x = - x mod 2 ^ 64.
Proof.
  intros Hx. unfold neg64. rewrite lnot_u64 by done. unfold uwrap.
  replace (2 ^ 64 - 1 - x + 1) with (- x + 1 * 2 ^ 64) by lia. by rewrite Z.mod_add by lia.
Qed.

Lemma abs_spec x : u64 x -> (if swrap 64 x <? 0 then neg64 x else x) = Z.abs (swrap 64 x).
Proof.
  intros Hx. rewrite neg64_spec, (swrap_sign x Hx) by done. unfold u64 in Hx.
  destruct (Z.leb_spec (2 ^ 63) x).
  - rewrite (proj2 (Z.ltb_lt _ 0)), Z.abs_neq by lia.
    symmetry. apply (Z.mod_unique _ _ (-1)); lia.
  - rewrite (proj2 (Z.ltb_ge _ 0)), Z.abs_eq by lia. done.
Qed.

Lemma bits_u64 (f : Z -> Z -> Z) (g : bool -> bool -> bool) x y :
  (forall i, 0 <= i -> Z.testbit (f x y) i = g (Z.testbit x i) (Z.testbit y i)) -> g false false = false ->
  u64 x -> u64 y -> 0 <= f x y -> u64 (f x y).
Proof.
  intros Hf Hg Hx Hy H0. split; [done|]. replace (f x y) with (f x y mod 2 ^ 64); [apply u64_mod|].
  rewrite <- Z.land_ones by lia. apply Z.bits_inj'. intros i Hi. rewrite Z.land_spec, Z.testbit_ones_nonneg by lia.
  destruct (Z.ltb_spec i 64); [by rewrite andb_true_r|]. rewrite andb_false_r, Hf by done.
  assert (Hz : forall z, u64 z -> Z.testbit z i = false).
  { intros z Hz. rewrite <- (Z.mod_small z (2 ^ 64)) by done. apply Z.mod_pow2_bits_high. lia. }
  by rewrite !Hz.
Qed.

Lemma bop_val_u64 b x y v : u64 x -> u64 y -> bop_val b x y = Val v -> u64 v.
Proof.
  intros Hx Hy. pose proof (u64_mod (x * 2 ^ y)) as Hshl. unfold u64 in *.
  destruct b; cbn [bop_val]; intros E;
    try (injection E as <-; first [apply u64_mod | destruct_if; lia]).
  - injection E as <-. apply (bits_u64 Z.land andb); try done; [intros; apply Z.land_spec|apply Z.land_nonneg; lia].
  - destruct (Z.eqb_spec y 0); [done|]. injection E as <-. split; [apply Z.div_pos; lia|apply Z.div_lt_upper_bound; nia].
  - destruct (Z.eqb_spec y 0); [done|]. injection E as <-. pose proof (Z.mod_pos_bound x y). lia.
  - injection E as <-. apply (bits_u64 Z.lor orb); try done; [intros; apply Z.lor_spec|apply Z.lor_nonneg; lia].
  - destruct (Z.leb_spec 64 y); [done|]. by injection E as <-.
  - destruct (Z.leb_spec 64 y); [done|]. injection E as <-.
    assert (1 <= 2 ^ y) by (apply (Z.pow_le_mono_r 2 0); lia).
    split; [apply Z.div_pos; lia|apply Z.div_lt_upper_bound; nia].
  - injection E as <-. apply (bits_u64 Z.lxor xorb); try done; [intros; apply Z.lxor_spec|].
    apply Z.lxor_nonneg. lia.
Qed.

Lemma uop_val_u64 u x : u64 x -> u64 (uop_val u x).
Proof.
  intros Hx. destruct u; cbn [uop_val]; [|apply u64_mod|unfold u64 in *; lia].
  pose proof (swrap_range 64 x). unfold u64 in *. lia.
Qed.

Inductive dexp :=
  | DLit (k : Z)
  | DConstu (n : Z)
  | DConsts (n : Z)
  | DReg (r offs : Z)
  | DDeref (e : dexp)
  | DUn (u : uop) (e : dexp)
  | DBin (b : bop) (e1 e2 : dexp)
  | DPlusConst (e : dexp) (n : Z).

Fixpoint compile (e : dexp) : list Z :=
  match e with
  | DLit k => [0x30 + k]
  | DConstu n => 0x10 :: uleb128 n
  | DConsts n => 0x11 :: sleb128 n
  | DReg r offs => 0x70 + r :: sleb128 offs
  | DDeref e => compile e ++ [0x06]
  | DUn u e => compile e ++ [uop_code u]
  | DBin b e1 e2 => compile e1 ++ compile e2 ++ [bop_code b]
  | DPlusConst e n => compile e ++ 0x23 :: uleb128 n
  end.

(** Operands an instruction can hold. *)
Fixpoint dexp_ok (e : dexp) : Prop :=
  match e with
  | DLit k => 0 <= k <= 31
  | DConstu n => u64 n
  | DConsts n => - 2 ^ 63 <= n < 2 ^ 63
  | DReg r offs => 0 <= r <= 31 /\ - 2 ^ 63 <= offs < 2 ^ 63
  | DDeref e | DUn _ e => dexp_ok e
  | DBin _ e1 e2 => dexp_ok e1 /\ dexp_ok e2
  | DPlusConst e n => dexp_ok e /\ u64 n
  end.

(** Number of instructions. *)
Fixpoint dsize (e : dexp) : nat :=
  match e with
  | DLit _ | DConstu _ | DConsts _ | DReg _ _ => 1
  | DDeref e | DUn _ e | DPlusConst e _ => dsize e + 1
  | DBin _ e1 e2 => dsize e1 + dsize e2 + 1
  end.

Definition obind {A B} (o : outcome A) (k : A -> outcome B) : outcome B :=
  match o with
  | Val a => k a
  | Throw e => Throw e
  | Fault => Fault
  | NoFuel => NoFuel
  end.

(** The number stored in memory in a byte order. *)
Definition memory_number (be : bool) (bytes : list Z) : Z :=
  fold_left (fun n b => n * 256 + b) (if be then bytes else rev bytes) 0.

(** What the target promises: a successful read returns as many bytes as asked for, and registers
    hold 64-bit numbers. *)
Class VmEnvLaws (Frame : Type) `{VmEnv Frame} := {
  read_mem_size a n l : context_read_mem a n = inr l -> Z.of_nat (length l) = n /\ bytes l;
  read_reg_u64 f d v : read_reg_value f d = inr v -> u64 v }.

Section Expressions.
Context {Frame : Type} {env : VmEnv Frame} {laws : VmEnvLaws Frame}.
Notation V := (M (VM Frame)).

(** The value of an expression for a target with addresses of [asz] bytes. *)
Fixpoint dval (be : bool) (asz : Z) (frame : option Frame) (e : dexp) : outcome Z :=
  match e with
  | DLit k => Val k
  | DConstu n => Val n
  | DConsts n => Val (n mod 2 ^ 64)
  | DReg r offs =>
      match get_reg_by_id r with
      | inl e => Throw e
      | inr d => match read_reg_value frame d with
                 | inl e => Throw e
                 | inr v => Val ((v + offs) mod 2 ^ 64)
                 end
      end
  | DDeref e =>
      obind (dval be asz frame e) (fun a =>
        match context_read_mem a asz with
        | inl e => Throw e
        | inr l => Val (memory_number be l)
        end)
  | DUn u e => obind (dval be asz frame e) (fun x => Val (uop_val u x))
  | DBin b e1 e2 =>
      obind (dval be asz frame e1) (fun x => obind (dval be asz frame e2) (fun y => bop_val b x y))
  | DPlusConst e n => obind (dval be asz frame e) (fun x => Val ((x + n) mod 2 ^ 64))
  end.

Lemma fold_number l : bytes l -> forall n, (length l <= 8)%nat -> 0 <= n -> (n + 1) * 256 ^ Z.of_nat (length l) <= 2 ^ 64 ->
  fold_left (fun n b => uwrap 64 (Z.lor (Z.shiftl n 8) b)) l n = fold_left (fun n b => n * 256 + b) l n /\
  u64 (fold_left (fun n b => n * 256 + b) l n).
Proof.
  induction 1 as [|b l Hb Hl IH]; intros n Hlen Hn Hlt; cbn [fold_left].
  - split; [done|]. unfold u64. simpl in Hlt. lia.
  - unfold is_byte in Hb. cbn [length] in *. rewrite Nat2Z.inj_succ, Z.pow_succ_r in Hlt by lia.
    assert (H1 : 1 <= 256 ^ Z.of_nat (length l)) by (apply (Z.pow_le_mono_r 256 0); lia).
    rewrite Z.shiftl_mul_pow2, Z.lor_comm, lor_add by lia. change (2 ^ 8) with 256.
    rewrite uwrap_small by nia. rewrite Z.add_comm. apply IH; [lia|lia|nia].
Qed.

Lemma memory_number_u64 be l : bytes l -> (length l <= 8)%nat ->
  fold_left (fun n b => uwrap 64 (Z.lor (Z.shiftl n 8) b)) (if be : bool then l else rev l) 0 = memory_number be l /\
  u64 (memory_number be l).
Proof.
  intros Hb Hl. assert (Hp : (0 + 1) * 256 ^ Z.of_nat (length l) <= 2 ^ 64).
  { change (2 ^ 64) with (256 ^ 8). rewrite Z.mul_1_l. apply Z.pow_le_mono_r; lia. }
  unfold memory_number. destruct be; apply fold_number; try lia; try done.
  - by apply Forall_rev.
  - rewrite length_rev. lia.
  - by rewrite length_rev.
Qed.

Lemma dval_u64 be asz frame e v : asz <= 8 -> dexp_ok e -> dval be asz frame e = Val v -> u64 v.
Proof.
  intros Hasz. revert v. induction e as [k|n|n|r offs|e IH|u e IH|b e1 IH1 e2 IH2|e IH n];
    intros v Hok E; cbn [dexp_ok dval] in *.
  - injection E as <-. unfold u64. lia.
  - by injection E as <-.
  - injection E as <-. apply u64_mod.
  - destruct (get_reg_by_id r); [done|]. destruct (read_reg_value frame r0); [done|]. injection E as <-. apply u64_mod.
  - destruct (dval be asz frame e) as [a| | |]; try done. cbn [obind] in E.
    destruct (context_read_mem a asz) as [|l] eqn:El; [done|]. injection E as <-.
    destruct (read_mem_size a asz l El) as [Hl Hb]. apply (memory_number_u64 be l Hb). lia.
  - destruct (dval be asz frame e) as [x| | |]; try done. injection E as <-. apply uop_val_u64. by apply IH.
  - destruct Hok as [Ho1 Ho2]. destruct (dval be asz frame e1) as [x| | |]; try done.
    destruct (dval be asz frame e2) as [y| | |]; try done. cbn [obind] in E.
    eapply bop_val_u64; [| |exact E]; auto.
  - destruct (dval be asz frame e) as [x| | |]; try done. injection E as <-. apply u64_mod.
Qed.

(** The fuel-independent result of the code of an expression: its value is pushed, or it ends with
    the error of the expression. *)
Definition runs_to (fuel : nat) (s : VM Frame) (o : outcome Z) (n : nat) (f : nat) : Prop :=
  match o with
  | Val v => eval_loop fuel s = eval_loop f (set_stk (v :: vm_stk s) (set_pos (vm_pos s + Z.of_nat n) s))
  | Throw e => fst (eval_loop fuel s) = Throw e
  | Fault => fst (eval_loop fuel s) = Fault
  | NoFuel => False
  end.

Definition at_code (s : VM Frame) (l : list Z) : Prop :=
  exists post, 0 <= vm_pos s /\ drop (Z.to_nat (vm_pos s)) (vm_code s) = l ++ post /\
    vm_pos s + Z.of_nat (length l) <= vm_len s.

(** One instruction. *)
Lemma step_op s f op l : at_code s (op :: l) ->
  at_code (set_pos (vm_pos s + 1) s) l /\
  exists ev m, eval_loop (S f) s = bind (exec_op ev m op) (fun _ => eval_loop f) (set_pos (vm_pos s + 1) s).
Proof.
  intros (post & Hp & Hd & Hl). cbn [length app] in *. split.
  - exists post. cbn [vm_pos vm_code vm_len set_pos]. split; [lia|]. split; [|lia].
    rewrite Z2Nat.inj_add, <- drop_drop, Hd by lia. done.
  - do 2 eexists. cbn [eval_loop]. do 2 (rewrite (bind_runs _ _ _ _ _ (runs_gets _ _))).
    rewrite (proj2 (Z.ltb_lt _ _)) by lia.
    assert (Hn : vm_code s !! Z.to_nat (vm_pos s) = Some op).
    { rewrite <- (Nat.add_0_r (Z.to_nat (vm_pos s))), <- lookup_drop, Hd. done. }
    rewrite (bind_runs _ _ s op (set_pos (vm_pos s + 1) s)); [reflexivity|].
    unfold fetch. do 2 (eapply runs_bind; [apply runs_gets|]). rewrite Hn.
    by eapply runs_bind; [apply runs_modify|].
Qed.

Lemma vreads_at {A} (m : V A) s l l' a : vreads (vm_big_endian s) m l a -> at_code s (l ++ l') ->
  runs m s a (set_pos (vm_pos s + Z.of_nat (length l)) s) /\ at_code (set_pos (vm_pos s + Z.of_nat (length l)) s) l'.
Proof.
  intros Hm (post & Hp & Hd & Hl). rewrite length_app in Hl. rewrite <- (assoc_L (++)) in Hd. split.
  - eapply Hm; [done|done|exact Hd|lia].
  - exists post. cbn [vm_pos vm_code vm_len set_pos]. split; [lia|]. split; [|lia].
    rewrite Z2Nat.inj_add, <- drop_drop, Hd, Nat2Z.id by lia. by rewrite drop_app_length.
Qed.

Lemma at_code_skip (s : VM Frame) l l' k : at_code s (l ++ l') -> at_code (set_stk k (set_pos (vm_pos s + Z.of_nat (length l)) s)) l'.
Proof.
  intros (post & Hp & Hd & Hl). rewrite length_app in Hl. rewrite <- (assoc_L (++)) in Hd.
  exists post. cbn [vm_pos vm_code vm_len set_pos set_stk]. split; [lia|]. split; [|lia].
  rewrite Z2Nat.inj_add, <- drop_drop, Hd, Nat2Z.id by lia. by rewrite drop_app_length.
Qed.

Lemma runs_check_stack n (s : VM Frame) : n <= Z.of_nat (length (vm_stk s)) -> runs (check_e_stack n) s tt s.
Proof.
  intros Hn. eapply runs_bind; [apply runs_gets|]. by rewrite (proj2 (Z.ltb_ge _ _)).
Qed.

Lemma runs_peek0 (s : VM Frame) x k : vm_stk s = x :: k -> runs (peek 0) s x s.
Proof. intros Hk. eapply runs_bind; [apply runs_gets|]. by rewrite Hk. Qed.

Lemma runs_push x (s : VM Frame) : runs (push x) s tt (set_stk (x :: vm_stk s) s).
Proof. eapply runs_bind; [apply runs_gets|apply runs_modify]. Qed.

(** An instruction on the top of the stack whose operand computation is known. *)
Lemma unop_outcome f (s : VM Frame) x k o s1 : vm_stk s = x :: k -> f x s = (o, s1) -> vm_stk s1 = x :: k ->
  match o with
  | Val r => runs (unop f) s tt (set_stk (r :: k) s1)
  | Throw e => fst (unop f s) = Throw e
  | Fault => fst (unop f s) = Fault
  | NoFuel => True
  end.
Proof.
  intros Hk Hf Hk1. unfold unop.
  assert (Hc : runs (check_e_stack 1) s tt s) by (apply runs_check_stack; rewrite Hk; cbn [length]; lia).
  destruct o as [r|e| |]; [|rewrite (bind_runs _ _ _ _ _ Hc), (bind_runs _ _ _ _ _ (runs_peek0 s x k Hk)); unfold bind; by rewrite Hf..|done].
  eapply runs_bind; [exact Hc|]. eapply runs_bind; [by apply (runs_peek0 s x k)|]. eapply runs_bind; [exact Hf|].
  eapply runs_bind; [apply runs_gets|]. rewrite Hk1. apply runs_modify.
Qed.

Lemma binop_outcome f (s : VM Frame) x y k o : vm_stk s = y :: x :: k -> (forall s1, f x y s1 = (o, s1)) ->
  match o with
  | Val r => runs (binop f) s tt (set_stk (r :: k) s)
  | Throw e => fst (binop f s) = Throw e
  | Fault => fst (binop f s) = Fault
  | NoFuel => True
  end.
Proof.
  intros Hk Hf. unfold binop.
  assert (Hc : runs (check_e_stack 2) s tt s) by (apply runs_check_stack; rewrite Hk; cbn [length]; lia).
  assert (Hpop : runs pop s y (set_stk (x :: k) s)).
  { eapply runs_bind; [by apply (runs_peek0 s y (x :: k))|]. eapply runs_bind; [apply runs_gets|].
    rewrite Hk. by eapply runs_bind; [apply runs_modify|]. }
  set (s1 := set_stk (x :: k) s) in *.
  assert (Hx : runs (peek 0) s1 x s1) by (by apply (runs_peek0 s1 x k)).
  destruct o as [r|e| |];
    [|rewrite (bind_runs _ _ _ _ _ Hc), (bind_runs _ _ _ _ _ Hpop), (bind_runs _ _ _ _ _ Hx); unfold bind; by rewrite Hf..|done].
  eapply runs_bind; [exact Hc|]. eapply runs_bind; [exact Hpop|]. eapply runs_bind; [exact Hx|].
  eapply runs_bind; [apply Hf|]. eapply runs_bind; [apply runs_gets|]. reflexivity.
Qed.

(** Each operation code computes the reference function. *)
Lemma uop_exec u ev m : exists f, exec_op ev m (uop_code u) = unop f /\
  forall x (s : VM Frame), u64 x -> f x s = (Val (uop_val u x), s).
Proof.
  destruct u; (eexists; split; [reflexivity|]); intros x s Hx; cbn [uop_val]; unfold ret.
  - by rewrite abs_spec.
  - by rewrite neg64_spec.
  - by rewrite lnot_u64.
Qed.

Lemma b2z_if (b : bool) : Z.b2z b = if b then 1 else 0.
Proof. by destruct b. Qed.

Lemma bop_exec b ev m : exists f, exec_op ev m (bop_code b) = binop f /\
  forall x y (s : VM Frame), u64 x -> u64 y -> f x y s = (bop_val b x y, s).
Proof.
  destruct b; (eexists; split; [reflexivity|]); intros x y s Hx Hy; cbn [bop_val];
    unfold nonzero, shift64, inv_dwarf, throw, fault, ret, uwrap; rewrite ?b2z_if, ?Z.geb_leb, ?Z.gtb_ltb; try done.
  - by destruct (y =? 0).
  - by destruct (y =? 0).
  - destruct (64 <=? y) eqn:E; [done|]. rewrite Z.shiftl_mul_pow2 by (unfold u64 in Hy; lia). done.
  - destruct (Z.leb_spec 64 y); [done|]. unfold u64 in *. rewrite Z.shiftr_div_pow2 by lia.
    assert (1 <= 2 ^ y) by (apply (Z.pow_le_mono_r 2 0); lia).
    rewrite (Z.mod_small (x / 2 ^ y)); [done|]. split; [apply Z.div_pos; lia|apply Z.div_lt_upper_bound; nia].
  - by rewrite shra_spec.
  - by destruct (x =? y).
Qed.

(** Errors end the evaluation. *)
Lemma runs_to_bind s s1 f o n (m : V unit) fuel :
  eval_loop fuel s = bind m (fun _ => eval_loop f) s1 ->
  match o with
  | Val v => runs m s1 tt (set_stk (v :: vm_stk s) (set_pos (vm_pos s + Z.of_nat n) s))
  | Throw e => fst (m s1) = Throw e
  | Fault => fst (m s1) = Fault
  | NoFuel => False
  end -> runs_to fuel s o n f.
Proof.
  intros He Hm. unfold runs_to. rewrite He. destruct o as [v|e| |]; try done.
  - by rewrite (bind_runs _ _ _ _ _ Hm).
  - unfold bind. by destruct (m s1) as [[]]; simplify_eq/=.
  - unfold bind. by destruct (m s1) as [[]]; simplify_eq/=.
Qed.

Lemma range_cases (P : Z -> Prop) : Forall P (map Z.of_nat (seq 0 32)) -> forall k, 0 <= k <= 31 -> P k.
Proof.
  intros HP k Hk. rewrite Forall_forall in HP. apply HP. rewrite <- (Z2Nat.id k) by lia.
  apply list_elem_of_In, in_map, in_seq. lia.
Qed.

Lemma exec_lit ev m k : 0 <= k <= 31 -> exec_op ev m (0x30 + k) = push k.
Proof.
  revert k. apply (range_cases (fun k => exec_op ev m (0x30 + k) = push k)).
  repeat (apply Forall_cons; split; [reflexivity|]). constructor.
Qed.

Lemma exec_breg ev m k : 0 <= k <= 31 ->
  exec_op ev m (0x70 + k) = (let! r := find_register k in push_register r read_i8leb128).
Proof.
  revert k. apply (range_cases (fun k => exec_op ev m (0x70 + k) =
    (let! r := find_register k in push_register r read_i8leb128))).
  repeat (apply Forall_cons; split; [reflexivity|]). constructor.
Qed.

(** The last instruction of a compound expression, after its operand. *)
Lemma runs_to_un (s : VM Frame) e be asz frame n1 fuel f o op l l' :
  runs_to fuel s (dval be asz frame e) n1 (S f) ->
  at_code (set_pos (vm_pos s + Z.of_nat n1) s) (op :: l ++ l') ->
  (forall x s1, dval be asz frame e = Val x -> at_code s1 (l ++ l') -> vm_stk s1 = x :: vm_stk s ->
     vm_big_endian s1 = vm_big_endian s -> vm_addr_size s1 = vm_addr_size s ->
     forall ev m, match o x with
     | Val v => runs (exec_op ev m op) s1 tt (set_stk (v :: vm_stk s) (set_pos (vm_pos s1 + Z.of_nat (length l)) s1))
     | Throw e => fst (exec_op ev m op s1) = Throw e
     | Fault => fst (exec_op ev m op s1) = Fault
     | NoFuel => False
     end) ->
  runs_to fuel s (obind (dval be asz frame e) o) (n1 + S (length l)) f.
Proof.
  intros He Hat Hop. unfold runs_to in He.
  destruct (dval be asz frame e) as [x|er| |] eqn:Ev; cbn [obind]; [|exact He..].
  set (s1 := set_stk (x :: vm_stk s) (set_pos (vm_pos s + Z.of_nat n1) s)) in *.
  destruct (step_op s1 f op (l ++ l')) as (Hat2 & ev & m & Hstep); [exact Hat|].
  specialize (Hop x (set_pos (vm_pos s1 + 1) s1) eq_refl Hat2 eq_refl eq_refl eq_refl ev m).
  eapply (runs_to_bind s _ f); [rewrite He; exact Hstep|].
  destruct (o x) as [v|er| |]; [|done..].
  replace (vm_pos s + Z.of_nat (n1 + S (length l))) with (vm_pos s + Z.of_nat n1 + 1 + Z.of_nat (length l)) by lia.
  exact Hop.
Qed.

Lemma eval_dexp e : forall s f l', dexp_ok e -> 0 <= vm_addr_size s <= 8 -> at_code s (compile e ++ l') ->
  runs_to (dsize e + f) s (dval (vm_big_endian s) (vm_addr_size s) (vm_frame s) e) (length (compile e)) f.
Proof.
  induction e as [k|n|n|r offs|e IH|u e IH|b e1 IH1 e2 IH2|e IH n]; intros s f l' Hok Hasz Hat;
    cbn [compile dexp_ok dsize dval] in *.
  - destruct (step_op s f _ _ Hat) as (_ & ev & m & Hstep). eapply runs_to_bind; [exact Hstep|].
    rewrite exec_lit by done. apply (runs_push k (set_pos (vm_pos s + 1) s)).
  - destruct (step_op s f _ _ Hat) as (Hat1 & ev & m & Hstep). eapply runs_to_bind; [exact Hstep|].
    destruct (vreads_at read_u8leb128 _ _ _ n (vreads_u8leb _ n Hok) Hat1) as [R _].
    change (exec_op ev m 16) with (let! x := read_u8leb128 (Frame := Frame) in push x).
    eapply runs_bind; [exact R|]. cbn [length]. rewrite Nat2Z.inj_succ, <- Z.add_1_l, Z.add_assoc.
    exact (runs_push n _).
  - destruct (step_op s f _ _ Hat) as (Hat1 & ev & m & Hstep). eapply runs_to_bind; [exact Hstep|].
    destruct (vreads_at read_i8leb128 _ _ _ n (vreads_i8leb _ n Hok) Hat1) as [R _].
    change (exec_op ev m 17) with (let! x := read_i8leb128 (Frame := Frame) in push (uwrap 64 x)).
    eapply runs_bind; [exact R|]. cbn [length]. rewrite Nat2Z.inj_succ, <- Z.add_1_l, Z.add_assoc.
    exact (runs_push _ _).
  - destruct Hok as [Hr Ho].
    destruct (step_op s f _ _ Hat) as (Hat1 & ev & m & Hstep). eapply runs_to_bind; [exact Hstep|].
    rewrite exec_breg by done. unfold find_register.
    destruct (get_reg_by_id r) as [er|d]; cbn [lift]; [reflexivity|].
    set (s1 := set_pos (vm_pos s + 1) s) in *.
    destruct (read_reg_value (vm_frame s) d) as [er|v] eqn:Ev.
    + rewrite (bind_runs _ _ s1 d s1) by reflexivity. unfold push_register.
      rewrite (bind_runs _ _ _ _ _ (runs_gets _ s1)). change (vm_frame s1) with (vm_frame s). by rewrite Ev.
    + destruct (vreads_at read_i8leb128 s1 _ _ offs (vreads_i8leb _ offs Ho) Hat1) as [R _].
      eapply runs_bind; [apply runs_ret|]. eapply runs_bind; [apply runs_gets|].
      change (vm_frame s1) with (vm_frame s). rewrite Ev. eapply runs_bind; [apply runs_ret|].
      eapply runs_bind; [exact R|]. cbn [length]. rewrite Nat2Z.inj_succ, <- Z.add_1_l, Z.add_assoc.
      exact (runs_push _ _).
  - rewrite <- Nat.add_assoc, length_app. rewrite <- (assoc_L (++)) in Hat.
    apply (runs_to_un s e _ _ _ (length (compile e)) _ f _ 0x06 [] l'); [by apply (IH s (1 + f)%nat _ Hok Hasz Hat)| |].
    + pose proof (at_code_skip s _ _ (vm_stk s) Hat) as H. exact H.
    + intros x s1 Hx Hat1 Hk Hbe Has ev m. cbn [length Z.of_nat]. rewrite Z.add_0_r.
      change (exec_op ev m 0x06) with (unop (fun x => let! n := gets vm_addr_size in read_memory (Frame := Frame) x n)).
      destruct (context_read_mem x (vm_addr_size s)) as [er|l] eqn:El.
      * apply (unop_outcome _ s1 x (vm_stk s) (Throw er) s1 Hk); [|done].
        rewrite (bind_runs _ _ _ _ _ (runs_gets _ s1)), Has. unfold read_memory. by rewrite El.
      * destruct (read_mem_size _ _ _ El) as [Hlen Hbytes].
        destruct (memory_number_u64 (vm_big_endian s) l Hbytes ltac:(lia)) as [Hnum _].
        apply (unop_outcome _ s1 x (vm_stk s) (Val (memory_number (vm_big_endian s) l)) s1 Hk); [|done].
        rewrite (bind_runs _ _ _ _ _ (runs_gets _ s1)), Has. unfold read_memory. rewrite El. cbn [lift].
        rewrite (bind_runs _ _ s1 l s1) by reflexivity. rewrite Z.gtb_ltb, (proj2 (Z.ltb_ge 8 _)) by lia.
        rewrite (bind_runs _ _ _ _ _ (runs_gets _ s1)), Hbe, Hnum. done.
  - rewrite <- Nat.add_assoc, length_app. rewrite <- (assoc_L (++)) in Hat.
    apply (runs_to_un s e _ _ _ (length (compile e)) _ f _ (uop_code u) [] l'); [by apply (IH s (1 + f)%nat _ Hok Hasz Hat)| |].
    + exact (at_code_skip s _ _ (vm_stk s) Hat).
    + intros x s1 Hx Hat1 Hk Hbe Has ev m. cbn [length Z.of_nat]. rewrite Z.add_0_r.
      destruct (uop_exec u ev m) as (g & -> & Hg).
      apply (unop_outcome _ s1 x (vm_stk s) (Val (uop_val u x)) s1 Hk); [|done].
      apply Hg. eapply dval_u64; [|exact Hok|exact Hx]. lia.
  - destruct Hok as [Hok1 Hok2].
    rewrite !length_app, <- !Nat.add_assoc. rewrite <- !(assoc_L (++)) in Hat.
    pose proof (IH1 s (dsize e2 + (1 + f))%nat _ Hok1 Hasz Hat) as R1. unfold runs_to in R1.
    destruct (dval (vm_big_endian s) (vm_addr_size s) (vm_frame s) e1) as [x|er| |] eqn:E1; cbn [obind]; [|exact R1..].
    set (s1 := set_stk (x :: vm_stk s) (set_pos (vm_pos s + Z.of_nat (length (compile e1))) s)) in *.
    assert (Hat1 : at_code s1 (compile e2 ++ [bop_code b] ++ l')) by (by apply at_code_skip).
    pose proof (IH2 s1 (1 + f)%nat _ Hok2 Hasz Hat1) as R2. unfold runs_to in R2.
    change (vm_big_endian s1) with (vm_big_endian s) in R2. change (vm_addr_size s1) with (vm_addr_size s) in R2.
    change (vm_frame s1) with (vm_frame s) in R2.
    destruct (dval (vm_big_endian s) (vm_addr_size s) (vm_frame s) e2) as [y|er| |] eqn:E2; cbn [obind];
      [|first [exact R2|unfold runs_to; rewrite R1; exact R2]..].
    set (s2 := set_stk (y :: vm_stk s1) (set_pos (vm_pos s1 + Z.of_nat (length (compile e2))) s1)) in *.
    destruct (step_op s2 f (bop_code b) l') as (_ & ev & m & Hstep); [by apply at_code_skip|].
    eapply (runs_to_bind s _ f); [rewrite R1, R2; exact Hstep|].
    destruct (bop_exec b ev m) as (g & -> & Hg).
    assert (Hx : u64 x) by (eapply dval_u64; [|exact Hok1|exact E1]; lia).
    assert (Hy : u64 y) by (eapply dval_u64; [|exact Hok2|exact E2]; lia).
    pose proof (binop_outcome g (set_pos (vm_pos s2 + 1) s2) x y (vm_stk s) (bop_val b x y) eq_refl
      (fun s3 => Hg x y s3 Hx Hy)) as Hb.
    destruct (bop_val b x y) as [v|er| |] eqn:Eb; [|exact Hb..|by destruct b; simpl in Eb; repeat case_match].
    replace (vm_pos s + Z.of_nat (length (compile e1) + (length (compile e2) + length [bop_code b])))
      with (vm_pos s2 + 1) by (subst s2 s1; cbn [vm_pos set_stk set_pos length]; lia).
    exact Hb.
  - destruct Hok as [Hok Hn]. rewrite <- Nat.add_assoc, length_app. rewrite <- (assoc_L (++)) in Hat.
    apply (runs_to_un s e _ _ _ (length (compile e)) _ f _ 0x23 (uleb128 n) l'); [by apply (IH s (1 + f)%nat _ Hok Hasz Hat)| |].
    + exact (at_code_skip s _ _ (vm_stk s) Hat).
    + intros x s1 Hx Hat1 Hk Hbe Has ev m.
      destruct (vreads_at read_u8leb128 s1 _ _ n (vreads_u8leb _ n Hn) Hat1) as [R _].
      change (exec_op ev m 0x23) with (unop (fun x => let! n := read_u8leb128 (Frame := Frame) in ret (uwrap 64 (x + n)))).
      apply (unop_outcome _ s1 x (vm_stk s) (Val ((x + n) mod 2 ^ 64)) _ Hk); [|done].
      by rewrite (bind_runs _ _ _ _ _ R).
Qed.
End Expressions.

(** ** Pieces *)

Definition piece_bits (p : LocationPiece) : Z :=
  if lp_bit_size p =? 0 then lp_size p * 8 else lp_bit_size p.

Definition total_bits (ps : list LocationPiece) : Z := fold_right (fun p n => piece_bits p + n) 0 ps.

Lemma total_bits_cons p ps : total_bits (p :: ps) = piece_bits p + total_bits ps.
Proof. done. Qed.

Definition piece_ok (p : LocationPiece) : Prop := 0 <= lp_size p /\ 0 <= lp_bit_size p /\ 0 <= lp_bit_offs p.

Lemma total_bits_nonneg ps : Forall piece_ok ps -> 0 <= total_bits ps.
Proof.
  induction 1 as [|p ps (H1 & H2 & H3) _ IH]; [done|]. cbn [total_bits fold_right]. fold (total_bits ps).
  unfold piece_bits. destruct (Z.eqb_spec (lp_bit_size p) 0); lia.
Qed.

(** Normalising a piece that starts and ends at byte boundaries keeps its bits. *)
Lemma normal_bits p offs : 0 <= lp_bit_size p -> (lp_bit_size p = 0 -> lp_size p = 0) ->
  piece_bits (lp_incr_implicit (if (offs =? 0) && (lp_bit_size p mod 8 =? 0)
    then lp_set_bits offs 0 (lp_set_size (lp_bit_size p / 8) p) else p)) = lp_bit_size p.
Proof.
  intros H0 Hz. unfold piece_bits. destruct ((offs =? 0) && (lp_bit_size p mod 8 =? 0)) eqn:E;
    cbn [lp_incr_implicit lp_set_bits lp_set_size lp_bit_size lp_size].
  - apply andb_true_iff in E as [_ E]. cbn. divlia.
  - destruct (Z.eqb_spec (lp_bit_size p) 0) as [E0|]; [|done]. rewrite (Hz E0). lia.
Qed.

Lemma offset_pieces_bits O ps : Forall piece_ok ps -> 0 <= O -> forall B, 0 <= B -> B + total_bits ps < 2 ^ 32 -> O < 2 ^ 32 ->
  total_bits (offset_pieces O B ps) = Z.max 0 (total_bits ps - Z.max 0 (O - B)).
Proof.
  intros Hps HO. induction Hps as [|p ps Hp Hps IH]; intros B HB Ht HO2; [cbn; lia|].
  cbn [offset_pieces]. rewrite total_bits_cons in *.
  pose proof (total_bits_nonneg ps Hps) as Hnn. destruct Hp as (Hs & Hb & Ho).
  set (bits := if lp_bit_size p =? 0 then uwrap 32 (lp_size p * 8) else lp_bit_size p).
  assert (Hbits : bits = piece_bits p).
  { subst bits. unfold piece_bits in *. destruct (Z.eqb_spec (lp_bit_size p) 0); [|done].
    apply uwrap_small. lia. }
  assert (Hbn : 0 <= bits) by (rewrite Hbits; unfold piece_bits; destruct (Z.eqb_spec (lp_bit_size p) 0); lia).
  rewrite <- Hbits in *. rewrite (uwrap_small 32 (B + bits)) by lia.
  rewrite Z.gtb_ltb.
  assert (Hrest := IH (B + bits) ltac:(lia) ltac:(lia) HO2).
  destruct (Z.ltb_spec O (B + bits)); [|rewrite Hrest; lia].
  rewrite total_bits_cons, Hrest.
  assert (Hz : bits = 0 -> lp_size p = 0).
  { intros E. rewrite Hbits in E. unfold piece_bits in E. destruct (Z.eqb_spec (lp_bit_size p) 0); lia. }
  destruct (Z.ltb_spec B O).
  - rewrite (uwrap_small 32 (O - B)) by lia. cbn [lp_bit_offs lp_bit_size lp_set_bits lp_size].
    rewrite (uwrap_small 32 (bits - (O - B))) by lia.
    set (q := lp_set_bits (uwrap 32 (lp_bit_offs p + (O - B))) (bits - (O - B)) (lp_set_bits (lp_bit_offs p) bits p)).
    pose proof (normal_bits q (uwrap 32 (lp_bit_offs p + (O - B))) ltac:(subst q; cbn; lia) ltac:(subst q; cbn; lia)) as Hn.
    cbn [lp_bit_offs lp_bit_size lp_set_bits q] in Hn. rewrite Hn. lia.
  - set (q := lp_set_bits (lp_bit_offs p) bits p).
    pose proof (normal_bits q (lp_bit_offs p) ltac:(subst q; cbn; lia) ltac:(subst q; cbn; done)) as Hn.
    change (lp_bit_offs q) with (lp_bit_offs p). rewrite Hn. change (lp_bit_size q) with bits. lia.
Qed.

(** ** Properties *)

Lemma trap_val {S A} (m : M S A) s a s' : runs m s a s' -> runs (trap m) s None s'.
Proof. unfold runs, trap. by intros ->. Qed.

Lemma trap_throw {S A} (m : M S A) s e : throws m s e -> exists s', runs (trap m) s (Some e) s'.
Proof. unfold throws, runs, trap. destruct (m s) as [[] s']; intros H; simplify_eq/=. by exists s'. Qed.

Lemma trap_fault {S A B} (m : M S A) (k : option Z -> M S B) s : fst (m s) = Fault -> fst (bind (trap m) k s) = Fault.
Proof. unfold bind, trap. by destruct (m s) as [[] s']. Qed.

(** The state [evaluate_vm_expression] is called with. *)
Definition new_vm {Frame} (code : list Z) (args : list Z) (asz : Z) (be : bool) (frame : option Frame) : VM Frame :=
  mkVM code 0 0 0 (Z.of_nat (length code)) [] [] args asz be frame None None 0.

(** C18: evaluating the DWARF code of an arithmetic expression, of any size, leaves exactly the
    value of the expression on the stack: 64-bit arithmetic that wraps around, unsigned division and
    comparisons, arithmetic shifts for all counts, memory in the byte order of the target, registers.
    An error of a register or memory access, or a division by zero, is the result of the evaluation,
    and a logical shift by 64 or more is undefined behaviour.  The fuel needed is the number of
    instructions. *)
Theorem dwarf_expression_correct `{VmEnvLaws Frame} e args asz be (frame : option Frame) fuel :
  dexp_ok e -> 0 <= asz <= 8 -> (dsize e < fuel)%nat ->
  let r := evaluate_vm_expression fuel (new_vm (compile e) args asz be frame) in
  match dval be asz frame e with
  | Val v => fst r = Val None /\ vm_stk (snd r) = [v] /\ vm_pieces (snd r) = []
  | Throw err => fst r = Val (Some err)
  | Fault => fst r = Fault
  | NoFuel => False
  end.
Proof.
  intros Hok Hasz Hf. assert (exists f, fuel = (dsize e + S f)%nat) as [f ->] by (exists (fuel - dsize e - 1)%nat; lia).
  intros r. set (s0 := new_vm (compile e) args asz be frame) in *.
  set (s1 := mkVM (compile e) 0 (Z.of_nat (length (compile e))) 0 (Z.of_nat (length (compile e))) [] [] args asz be frame
    None None 0).
  assert (Hne : Z.of_nat (length (compile e)) <> 0).
  { clear. induction e; cbn [compile]; rewrite ?length_app; cbn [length]; lia. }
  assert (Hat : at_code s1 (compile e ++ [])).
  { exists []. cbn. rewrite drop_0, !app_nil_r. repeat split; lia. }
  pose proof (eval_dexp e s1 (S f) [] Hok Hasz Hat) as R. unfold runs_to in R.
  cbn [vm_big_endian vm_addr_size vm_frame s1] in R.
  set (finish := fun _ : unit => let! s := gets (fun s => s) in
      match vm_reg_def s, vm_value s with
      | None, None => if vm_implicit_pointer s =? 0 then ret tt else add_piece (Frame := Frame)
      | _, _ => add_piece
      end).
  assert (Hr : r = bind (trap (bind (evaluate_expression (dsize e + S f)) finish)) (fun err => get_state ;! ret err) s1)
    by reflexivity.
  assert (Hb : bind (evaluate_expression (dsize e + S f)) finish s1 = bind (eval_loop (dsize e + S f)) finish s1).
  { assert (Hlen : runs (let! len := gets vm_len in if len =? 0 then inv_dwarf else ret tt) s1 tt s1).
    { eapply runs_bind; [apply runs_gets|]. change (vm_len s1) with (Z.of_nat (length (compile e))).
      by rewrite (proj2 (Z.eqb_neq _ _) Hne). }
    apply bind_cong. unfold evaluate_expression. by rewrite (bind_runs _ _ _ _ _ Hlen). }
  set (body := bind (evaluate_expression (dsize e + S f)) finish) in *.
  destruct (dval be asz frame e) as [v|er| |]; [| | |done].
  - set (s2 := set_stk (v :: vm_stk s1) (set_pos (vm_pos s1 + Z.of_nat (length (compile e))) s1)) in R.
    assert (Hend : runs (eval_loop (S f)) s2 tt s2).
    { cbn [eval_loop]. do 2 (eapply runs_bind; [apply runs_gets|]).
      change (vm_pos s2) with (0 + Z.of_nat (length (compile e))). change (vm_len s2) with (Z.of_nat (length (compile e))).
      by rewrite (proj2 (Z.ltb_ge _ _)) by lia. }
    assert (Hbody : runs body s1 tt s2).
    { unfold runs in *. rewrite Hb. apply (runs_bind _ _ _ tt s2); [unfold runs; by rewrite R|done]. }
    rewrite Hr, (bind_runs _ _ _ _ _ (trap_val _ _ _ _ Hbody)). by repeat split.
  - destruct (trap_throw body s1 er) as [s2 Ht]; [unfold throws; rewrite Hb; exact (bind_throw _ finish s1 er R)|].
    by rewrite Hr, (bind_runs _ _ _ _ _ Ht).
  - rewrite Hr. apply trap_fault. rewrite Hb. unfold bind.
    by destruct (eval_loop _ s1) as [[] ?]; simplify_eq/=.
Qed.

(** A concrete target: memory where every byte is the low byte of its address, and registers that
    hold their number times 0x1000. *)
Definition demo_mem (a n : Z) : Z + list Z :=
  if (n <? 0) || (a >=? 0x10000) then inl ERR_INV_ADDRESS
  else inr (map (fun i => (a + Z.of_nat i) mod 256) (seq 0 (Z.to_nat n))).

#[export] Instance demo_env : VmEnv Z := {
  context_read_mem := demo_mem;
  get_reg_by_id n := if n <? 16 then inr (mkReg n 8) else inl ERR_OTHER;
  read_reg_value f d := inr (rd_id d * 0x1000 mod 2 ^ 64);
  frame_fp f := f;
  get_prev_frame f := 0;
  get_frame_info n := inl ERR_OTHER;
  read_location_pieces f ps := inl ERR_OTHER;
  client_op op := inv_dwarf }.

#[export] Program Instance demo_env_laws : VmEnvLaws Z.
Next Obligation.
  intros a n l E. cbn in E. unfold demo_mem in E.
  destruct (Z.ltb_spec n 0); [done|]. destruct (a >=? 0x10000); [done|]. cbn in E. injection E as <-.
  rewrite length_map, length_seq, Z2Nat.id by lia. split; [done|].
  apply Forall_forall. intros b (i & <- & _)%list_elem_of_In%in_map_iff. unfold is_byte. apply Z.mod_pos_bound. lia.
Qed.
Next Obligation. intros f d v E. cbn in E. injection E as <-. apply u64_mod. Qed.

(** The memory word at register 3 less 16, plus 300, shifted right by 2. *)
Definition demo_expr : dexp :=
  DBin BShra (DPlusConst (DDeref (DReg 3 (-0x10))) 300) (DLit 2).

Lemma dwarf_expression_correct_witness :
  let r := evaluate_vm_expression 10 (new_vm (compile demo_expr) [] 4 false (Some 0)) in
  match dval false 4 (Some 0) demo_expr with
  | Val v => fst r = Val None /\ vm_stk (snd r) = [v] /\ vm_pieces (snd r) = []
  | Throw err => fst r = Val (Some err)
  | Fault => fst r = Fault
  | NoFuel => False
  end.
Proof.
  apply (dwarf_expression_correct demo_expr [] 4 false (Some 0) 10).
  - cbn. unfold u64. lia.
  - lia.
  - cbn. lia.
Defined.

(** the operand readers decode what they should: unsigned and signed LEB128 encodings of all
    64-bit numbers, unsigned ones of 32-bit numbers, and fixed size numbers of 1, 2, 4 and 8 bytes in
    both byte orders; each advances the position by exactly the bytes of its operand. *)
Theorem operand_roundtrip `{VmEnv Frame} x y z (s1 s2 s3 : VM Frame) n l :
  u64 x -> - 2 ^ 63 <= y < 2 ^ 63 -> 0 <= z < 2 ^ 32 ->
  at_code s1 (uleb128 x ++ l) -> at_code s2 (sleb128 y ++ l) -> at_code s3 (uleb128 z ++ l) ->
  runs read_u8leb128 s1 x (set_pos (vm_pos s1 + Z.of_nat (length (uleb128 x))) s1) /\
  runs read_i8leb128 s2 y (set_pos (vm_pos s2 + Z.of_nat (length (sleb128 y))) s2) /\
  runs read_u4leb128 s3 z (set_pos (vm_pos s3 + Z.of_nat (length (uleb128 z))) s3) /\
  forall (m : M (VM Frame) Z) (s : VM Frame), (n, m) ∈ [(1%nat, read_u1); (2%nat, read_u2); (4%nat, read_u4); (8%nat, read_u8)] ->
    forall v, 0 <= v < 2 ^ (8 * Z.of_nat n) -> at_code s (number_bytes (vm_big_endian s) n v ++ l) ->
    runs m s v (set_pos (vm_pos s + Z.of_nat n) s).
Proof.
  intros Hx Hy Hz A1 A2 A3.
  split; [exact (proj1 (vreads_at _ s1 _ l x (vreads_u8leb _ x Hx) A1))|].
  split; [exact (proj1 (vreads_at _ s2 _ l y (vreads_i8leb _ y Hy) A2))|].
  split; [exact (proj1 (vreads_at _ s3 _ l z (vreads_u4leb _ z Hz) A3))|].
  intros m s Hin v Hv Hat.
  assert (Hl : forall be k w, length (number_bytes be k w) = k).
  { assert (Hvb : forall k w, length (value_bytes k w) = k) by (induction k; intros; cbn; auto).
    intros be k w. unfold number_bytes. destruct be; rewrite ?length_rev; apply Hvb. }
  assert (Hm : vreads (vm_big_endian s) m (number_bytes (vm_big_endian s) n v) v).
  { rewrite !elem_of_cons, elem_of_nil in Hin. destruct Hin as [E|[E|[E|[E|[]]]]]; injection E as -> ->;
      [by apply vreads_1|by apply vreads_2|by apply vreads_4|by apply vreads_8]. }
  pose proof (proj1 (vreads_at m s _ l v Hm Hat)) as R. by rewrite Hl in R.
Qed.

Definition demo_code (l : list Z) : VM Z := set_len (Z.of_nat (length l)) (new_vm l [] 8 true None).

Lemma operand_roundtrip_witness :
  runs read_u8leb128 (demo_code (uleb128 (2 ^ 64 - 1))) (2 ^ 64 - 1)
    (set_pos 10 (demo_code (uleb128 (2 ^ 64 - 1)))) /\
  runs read_i8leb128 (demo_code (sleb128 (- 2 ^ 63))) (- 2 ^ 63) (set_pos 10 (demo_code (sleb128 (- 2 ^ 63)))) /\
  runs read_u4leb128 (demo_code (uleb128 300)) 300 (set_pos 2 (demo_code (uleb128 300))) /\
  forall (m : M (VM Z) Z) (s : VM Z), (2%nat, m) ∈ [(1%nat, read_u1); (2%nat, read_u2); (4%nat, read_u4); (8%nat, read_u8)] ->
    forall v, 0 <= v < 2 ^ (8 * Z.of_nat 2) -> at_code s (number_bytes (vm_big_endian s) 2 v ++ []) ->
    runs m s v (set_pos (vm_pos s + Z.of_nat 2) s).
Proof.
  apply (operand_roundtrip (2 ^ 64 - 1) (- 2 ^ 63) 300 (demo_code (uleb128 (2 ^ 64 - 1)))
    (demo_code (sleb128 (- 2 ^ 63))) (demo_code (uleb128 300)) 2 []).
  - unfold u64. lia.
  - lia.
  - lia.
  - exists []. split; [discriminate|]. split; [vm_compute; reflexivity|vm_compute; discriminate].
  - exists []. split; [discriminate|]. split; [vm_compute; reflexivity|vm_compute; discriminate].
  - exists []. split; [discriminate|]. split; [vm_compute; reflexivity|vm_compute; discriminate].
Defined.

(** [OP_TCF_offset] on a value in pieces drops exactly the first [offs] bytes of the value: the
    bits that remain are the bits of the pieces less [offs * 8], or none. *)
Theorem offset_pieces_drops offs ps :
  Forall piece_ok ps -> 0 <= offs -> offs * 8 < 2 ^ 32 -> total_bits ps < 2 ^ 32 ->
  total_bits (offset_pieces (uwrap 32 (offs * 8)) 0 ps) = Z.max 0 (total_bits ps - offs * 8).
Proof.
  intros Hps H0 Ho Ht. rewrite uwrap_small by lia.
  rewrite offset_pieces_bits by (done || lia). lia.
Qed.

Lemma offset_pieces_drops_witness :
  total_bits (offset_pieces (uwrap 32 (3 * 8)) 0
    [mkLP false 0 None (Some [1; 2; 3; 4]) 2 0 0 0; mkLP false 64 None None 0 4 20 0]) =
  Z.max 0 (total_bits [mkLP false 0 None (Some [1; 2; 3; 4]) 2 0 0 0; mkLP false 64 None None 0 4 20 0] - 3 * 8).
Proof.
  apply (offset_pieces_drops 3).
  - repeat (apply Forall_cons; split; [unfold piece_ok; cbn; lia|]). constructor.
  - lia.
  - lia.
  - cbn. lia.
Defined.

(** The value [OP_GNU_entry_value] assembles from a buffer. *)
Lemma sext_small b k : is_byte b -> 0 <= k <= 16 -> sext 32 (Z.shiftl b k) = b * 2 ^ k.
Proof.
  unfold is_byte. intros Hb Hk. rewrite Z.shiftl_mul_pow2 by lia.
  assert (2 ^ k <= 2 ^ 16) by (apply Z.pow_le_mono_r; lia).
  assert (0 < 2 ^ k) by lia.
  unfold sext. rewrite swrap_small, uwrap_small by nia. done.
Qed.

Lemma sext_high b : is_byte b ->
  sext 32 (Z.shiftl b 24) = (if 128 <=? b then b + (2 ^ 40 - 2 ^ 8) else b) * 2 ^ 24.
Proof.
  unfold is_byte. intros Hb. rewrite Z.shiftl_mul_pow2 by lia. unfold sext. destruct (Z.leb_spec 128 b).
  - replace (swrap 32 (b * 2 ^ 24)) with (b * 2 ^ 24 - 2 ^ 32).
    + unfold uwrap. symmetry. apply (Z.mod_unique _ _ (-1)); lia.
    + rewrite <- (swrap_small 32 (b * 2 ^ 24 - 2 ^ 32)), <- swrap_uwrap by lia.
      rewrite <- (swrap_uwrap 32 (b * 2 ^ 24)) by lia. f_equal. unfold uwrap.
      replace (b * 2 ^ 24 - 2 ^ 32) with (b * 2 ^ 24 + (-1) * 2 ^ 32) by lia. by rewrite Z.mod_add by lia.
  - rewrite swrap_small, uwrap_small by lia. done.
Qed.

Lemma entry_value_spec `{VmEnv Frame} buf (s : VM Frame) : bytes buf ->
  let num := memory_number false buf in
  fst (entry_value_loop 0 0 buf s) =
    (if (4 <? length buf)%nat then Fault
     else if (length buf =? 4)%nat && (2 ^ 31 <=? num) then Val (num + (2 ^ 64 - 2 ^ 32))
     else Val num).
Proof.
  intros Hb num. subst num.
  destruct buf as [|b0 [|b1 [|b2 [|b3 [|b4 buf]]]]];
    repeat match goal with H : bytes (_ :: _) |- _ => apply Forall_cons in H as [? H] end;
    unfold memory_number, is_byte in *; cbn -[Z.shiftl Z.lor sext Z.mul Z.pow Z.add Z.leb]; try done;
    change (0 * 8) with 0; change ((0 + 1) * 8) with 8; change ((0 + 1 + 1) * 8) with 16;
    change ((0 + 1 + 1 + 1) * 8) with 24; change ((0 + 1 + 1 + 1 + 1) * 8) with 32;
    cbn -[Z.shiftl Z.lor sext Z.mul Z.pow Z.add];
    rewrite ?sext_high, ?sext_small by (unfold is_byte; lia); rewrite ?Z.lor_0_l, ?lor_add by lia;
    change (2 ^ 0) with 1 in *; rewrite ?lor_add by lia; try done.
  1-2: f_equal; lia.
  { rewrite (lor_add 8 (b0 * 1) b1), (lor_add 16 _ b2) by lia. f_equal. lia. }
  rewrite (lor_add 8 (b0 * 1) b1), (lor_add 16 _ b2), (lor_add 24 _ (if 128 <=? b3 then _ else _)) by lia.
  destruct (Z.leb_spec 128 b3);
    [rewrite (proj2 (Z.leb_le (2 ^ 31) _)) by lia|rewrite (proj2 (Z.leb_gt (2 ^ 31) _)) by lia]; f_equal; lia.
Qed.

(** C36: memory safety of two instructions depends on the code.  [OP_deref_size] and
    [OP_xderef_size] with a size above 8 write past the buffer of [read_memory] whenever the memory can
    be read; [OP_GNU_entry_value] assembles a value of at most 3 bytes, or of 4 bytes without the high
    bit, correctly, extends the sign of other 4-byte values, and shifts an [int] by its width or more
    for longer ones. *)
Theorem vm_unsafe_operands `{VmEnv Frame} (s : VM Frame) ev m x k n l post buf :
  vm_stk s = x :: k -> at_code s (n :: post) -> 8 < n -> context_read_mem x n = inr l ->
  bytes buf -> 
  fst (exec_op ev m 0x94 s) = Fault /\
  (k <> [] -> fst (exec_op ev m 0x95 s) = Fault) /\
  let num := memory_number false buf in
  fst (entry_value_loop (Frame := Frame) 0 0 buf s) =
    (if (4 <? length buf)%nat then Fault
     else if (length buf =? 4)%nat && (2 ^ 31 <=? num) then Val (num + (2 ^ 64 - 2 ^ 32))
     else Val num).
Proof.
  intros Hk Hat Hn Hmem Hbuf.
  destruct (vreads_at read_u1 s [n] post n (vreads_u1 _ n) Hat) as [R _].
  set (s1 := set_pos (vm_pos s + Z.of_nat (length [n])) s) in *.
  assert (Hfault : forall B (f : Z -> M (VM Frame) B), fst ((let! v := read_memory x n in f v) s1) = Fault).
  { intros B f. unfold read_memory. rewrite Hmem. cbn [lift]. unfold bind at 1.
    rewrite (bind_runs _ _ _ _ _ (runs_ret l s1)). by rewrite Z.gtb_ltb, (proj2 (Z.ltb_lt 8 n)). }
  split; [|split].
  - change (exec_op ev m 0x94) with (unop (fun x => let! n := read_u1 (Frame := Frame) in read_memory x n)).
    assert (Hc : runs (check_e_stack 1) s tt s) by (apply runs_check_stack; rewrite Hk; cbn [length]; lia).
    unfold unop. rewrite (bind_runs _ _ _ _ _ Hc), (bind_runs _ _ _ _ _ (runs_peek0 s x k Hk)).
    assert (Hx : fst ((let! n0 := read_u1 in read_memory x n0) s) = Fault).
    { rewrite (bind_runs _ _ _ _ _ R). rewrite <- (bind_ret_r (read_memory x n) s1). apply Hfault. }
    unfold bind at 1. destruct ((let! n0 := read_u1 in read_memory x n0) s) as [[] ?]; by simplify_eq/=.
  - intros Hk2.
    change (exec_op ev m 0x95) with (check_e_stack 2 ;! let! x := peek 0 in let! n := read_u1 in
      let! v := read_memory (Frame := Frame) x n in pop ;! replace_top v).
    assert (Hc : runs (check_e_stack 2) s tt s).
    { apply runs_check_stack. rewrite Hk. destruct k; [done|]. cbn [length]. lia. }
    rewrite (bind_runs _ _ _ _ _ Hc), (bind_runs _ _ _ _ _ (runs_peek0 s x k Hk)), (bind_runs _ _ _ _ _ R).
    apply Hfault.
  - exact (entry_value_spec buf s Hbuf).
Qed.

Lemma vm_unsafe_operands_witness :
  let s := set_stk [0x20; 0x30] (demo_code [9]) in
  fst (exec_op (ret tt) 0 0x94 s) = Fault /\
  ([0x30] <> [] -> fst (exec_op (ret tt) 0 0x95 s) = Fault) /\
  let num := memory_number false [1; 2; 3; 200] in
  fst (entry_value_loop (Frame := Z) 0 0 [1; 2; 3; 200] s) =
    (if (4 <? length [1; 2; 3; 200])%nat then Fault
     else if (length [1; 2; 3; 200] =? 4)%nat && (2 ^ 31 <=? num) then Val (num + (2 ^ 64 - 2 ^ 32))
     else Val num).
Proof.
  refine (vm_unsafe_operands (set_stk [0x20; 0x30] (demo_code [9])) (ret tt) 0 0x20 [0x30] 9
    (map (fun i => (0x20 + Z.of_nat i) mod 256) (seq 0 9)) [] [1; 2; 3; 200] _ _ _ _ _).
  - reflexivity.
  - exists []. split; [discriminate|]. split; [reflexivity|vm_compute; discriminate].
  - lia.
  - reflexivity.
  - repeat (apply Forall_cons; split; [unfold is_byte; lia|]). constructor.
Defined.
