(* ===== verification/SigSets.v ===== *)
(** * Signal sets (framework/sigsets.c, the [ENABLE_UnlimitedSignals] variant)

    A [SigSet] is a sorted growable array of signal numbers.  The operations are translated with
    their binary search over 32-bit indices and the [memmove] calls; the theorems relate them to
    finite sets of integers. *)

From S2P Require Import Prelude.

(** [struct SigSet].  [buf] is the live part [buf[0 .. cnt)] of the array, [max] the number of
    allocated elements; the cells from [cnt] to [max] are never read. *)
Record SigSet := mkSigSet { max : Z; buf : list Z }.

Definition cnt (set : SigSet) : Z := Z.of_nat (length (buf set)).

(** The element [buf[k]]; [search] and its callers only read below [cnt]. *)
Definition elt (set : SigSet) (k : Z) : Z := default 0 (buf set !! Z.to_nat k).

(** The loop of [search]; [None] when the fuel does not suffice. *)
Fixpoint search_loop (fuel : nat) (set : SigSet) (bit l h : Z) : option Z :=
  match fuel with
  | O => None
  | S fuel' =>
      if l <? h then
        let k := uwrap 32 (l + h) / 2 in
        if elt set k >? bit then search_loop fuel' set bit l k
        else if elt set k <? bit then search_loop fuel' set bit (k + 1) h
        else Some k
      else Some l
  end.

(** [search]: the index of [bit], or the index at which it has to be inserted. *)
Definition search (set : SigSet) (bit : Z) : option Z :=
  search_loop (S (length (buf set))) set bit 0 (cnt set).

Definition sigset_is_empty (set : SigSet) : bool := cnt set =? 0.

Definition sigset_get (set : SigSet) (bit : Z) : option bool :=
  n ← search set bit;
  Some ((n <? cnt set) && (elt set n =? bit)).

(** [sigset_get_next]: the returned pair is the C result and the new value of [*bit]. *)
Definition sigset_get_next (set : SigSet) (bit : Z) : option (bool * Z) :=
  n ← search set (uwrap 32 (bit + 1));
  Some (if n >=? cnt set then (false, bit) else (true, elt set n)).

(** [sigset_set]; [None] when one of the two assertions fails. *)
Definition sigset_set (set : SigSet) (bit : Z) (value : bool) : option SigSet :=
  n ← search set bit;
  if negb ((bit >? 0) || ((bit =? 0) && negb value)) then None
  else if negb (n <=? cnt set) then None
  else if value then
    if (n <? cnt set) && (elt set n =? bit) then Some set
    else
      let max' := if cnt set >=? max set then max set + 8 else max set in
      Some (mkSigSet max' (take (Z.to_nat n) (buf set) ++ bit :: drop (Z.to_nat n) (buf set)))
  else
    if (n >=? cnt set) || negb (elt set n =? bit) then Some set
    else Some (mkSigSet (max set)
                 (take (Z.to_nat n) (buf set) ++ drop (S (Z.to_nat n)) (buf set))).

Definition sigset_copy (src : SigSet) : SigSet := mkSigSet (cnt src) (buf src).

Definition sigset_clear (set : SigSet) : SigSet := mkSigSet 0 [].

(** ** Invariant and abstraction *)

(** The array is strictly increasing, fits its allocation, and is short enough for 32-bit
    index arithmetic. *)
Record wf (set : SigSet) : Prop := {
  wf_sorted : StronglySorted Z.lt (buf set);
  wf_range : Forall (fun x => 0 <= x < 2 ^ 32) (buf set);
  wf_max : cnt set <= max set;
  wf_cnt : cnt set < 2 ^ 31 }.

(** The set of signals a [SigSet] stands for. *)
Definition to_set (set : SigSet) : gset Z := list_to_set (buf set).

(** ** Lemmas *)

Lemma elt_lookup set k x : buf set !! Z.to_nat k = Some x -> elt set k = x.
Proof. unfold elt. by intros ->. Qed.

Lemma sorted_lookup_lt (l : list Z) i j x y :
  StronglySorted Z.lt l -> l !! i = Some x -> l !! j = Some y -> (i < j)%nat -> x < y.
Proof.
  intros Hs. revert i j. induction Hs as [|a l Hs IH Ha]; intros i j Hi Hj Hij; [done|].
  destruct j as [|j]; [lia|]. destruct i as [|i]; simplify_eq/=.
  - rewrite Forall_lookup in Ha. eauto.
  - apply (IH i j); auto with lia.
Qed.

(** Position of the loop: everything below [l] is smaller than [bit], everything from [h] on is
    larger. *)
Definition brackets (set : SigSet) (bit l h : Z) : Prop :=
  0 <= l <= h /\ h <= cnt set /\
  (forall i x, buf set !! i = Some x -> Z.of_nat i < l -> x < bit) /\
  (forall i x, buf set !! i = Some x -> h <= Z.of_nat i -> bit < x).

(** What [search] promises about its result. *)
Definition found_at (set : SigSet) (bit n : Z) : Prop :=
  0 <= n <= cnt set /\
  (forall i x, buf set !! i = Some x -> Z.of_nat i < n -> x < bit) /\
  (forall i x, buf set !! i = Some x -> n < Z.of_nat i -> bit < x) /\
  (forall x, buf set !! Z.to_nat n = Some x -> bit <= x).

Lemma search_loop_spec fuel set bit l h :
  wf set -> brackets set bit l h -> h - l < Z.of_nat fuel ->
  exists n, search_loop fuel set bit l h = Some n /\ found_at set bit n.
Proof.
  intros Hwf. revert l h. induction fuel as [|fuel IH]; intros l h Hb Hf.
  { destruct Hb as (?&_). lia. }
  pose proof (wf_cnt _ Hwf) as Hc. pose proof (wf_sorted _ Hwf) as Hs.
  destruct Hb as (Hlh & Hh & Hlo & Hhi). cbn [search_loop].
  destruct (Z.ltb_spec l h) as [Hlt|Hge]; cycle 1.
  { assert (l = h) as -> by lia. exists h. split; [done|].
    repeat split; try lia; eauto.
    - intros i x Hi ?. apply (Hhi i x Hi). lia.
    - intros x Hx. pose proof (Hhi _ _ Hx). lia. }
  rewrite uwrap_small by lia.
  set (k := (l + h) / 2).
  assert (Hk : l <= k < h) by (subst k; split; [apply Z.div_le_lower_bound|apply Z.div_lt_upper_bound]; lia).
  destruct (lookup_lt_is_Some_2 (buf set) (Z.to_nat k)) as [y Hy]; [unfold cnt in *; lia|].
  rewrite (elt_lookup _ _ _ Hy), Z.gtb_ltb.
  assert (Hbelow : forall i x, buf set !! i = Some x -> Z.of_nat i < k -> x < y)
    by (intros; eapply (sorted_lookup_lt _ i (Z.to_nat k)); eauto; lia).
  assert (Habove : forall i x, buf set !! i = Some x -> k < Z.of_nat i -> y < x)
    by (intros; eapply (sorted_lookup_lt _ (Z.to_nat k) i); eauto; lia).
  assert (Hat : forall i x, buf set !! i = Some x -> Z.of_nat i = k -> x = y)
    by (intros i x Hi <-; rewrite Nat2Z.id in Hy; congruence).
  destruct (Z.ltb_spec bit y).
  { apply IH; [|lia]. repeat split; try lia; eauto.
    intros i x Hi ?. destruct (decide (Z.of_nat i = k)) as [e|]; [rewrite (Hat i x Hi e); lia|].
    pose proof (Habove i x Hi). lia. }
  destruct (Z.ltb_spec y bit).
  { apply IH; [|lia]. repeat split; try lia; eauto.
    intros i x Hi ?. destruct (decide (Z.of_nat i = k)) as [e|]; [rewrite (Hat i x Hi e); lia|].
    pose proof (Hbelow i x Hi). lia. }
  assert (y = bit) as -> by lia. exists k. split; [done|].
  split; [lia|]. split; [done|]. split; [done|].
  intros x Hx. rewrite Hy in Hx. by simplify_eq.
Qed.

Lemma search_spec set bit :
  wf set -> exists n, search set bit = Some n /\ found_at set bit n.
Proof.
  intros Hwf. apply search_loop_spec; [done| |unfold cnt; lia].
  repeat split; try (unfold cnt; lia).
  intros i x Hi Hle. apply lookup_lt_Some in Hi. unfold cnt in Hle. lia.
Qed.

(** With the position found, membership is a test of one element. *)
Lemma found_at_mem set bit n :
  found_at set bit n ->
  (n <? cnt set) && (elt set n =? bit) = bool_decide (bit ∈ buf set).
Proof.
  intros (Hn & Hlo & Hhi & Hat). symmetry.
  destruct (Z.ltb_spec n (cnt set)); simpl; cycle 1.
  - apply bool_decide_eq_false_2. intros [i Hi]%list_elem_of_lookup.
    pose proof (lookup_lt_Some _ _ _ Hi). pose proof (Hlo _ _ Hi). unfold cnt in *. lia.
  - destruct (lookup_lt_is_Some_2 (buf set) (Z.to_nat n)) as [y Hy]; [unfold cnt in *; lia|].
    rewrite (elt_lookup _ _ _ Hy). destruct (Z.eqb_spec y bit) as [->|Hne].
    + apply bool_decide_eq_true_2, list_elem_of_lookup. eauto.
    + apply bool_decide_eq_false_2. intros [i Hi]%list_elem_of_lookup.
      destruct (decide (Z.of_nat i < n)) as [Hl|]; [specialize (Hlo _ _ Hi Hl); lia|].
      destruct (decide (n < Z.of_nat i)) as [Hl|]; [specialize (Hhi _ _ Hi Hl); lia|].
      assert (Z.to_nat n = i) by lia. congruence.
Qed.

Lemma elem_of_to_set set bit : bit ∈ to_set set <-> bit ∈ buf set.
Proof. unfold to_set. by rewrite elem_of_list_to_set. Qed.

Lemma sorted_app (l k : list Z) :
  StronglySorted Z.lt l -> StronglySorted Z.lt k ->
  (forall x y, x ∈ l -> y ∈ k -> x < y) -> StronglySorted Z.lt (l ++ k).
Proof.
  intros Hl Hk H. induction Hl as [|a l Hl IH Ha]; simpl; [done|].
  constructor; [apply IH; intros; apply H; set_solver|].
  rewrite Forall_app; split; [done|]. apply Forall_forall. intros y Hy. apply H; set_solver.
Qed.

Lemma sorted_take_drop (l : list Z) n :
  StronglySorted Z.lt l -> StronglySorted Z.lt (take n l) /\ StronglySorted Z.lt (drop n l).
Proof.
  intros Hl. revert n. induction Hl as [|a l Hl IH Ha]; intros [|n]; simpl;
    repeat constructor; try done; try apply IH.
  by apply Forall_take.
Qed.

Lemma elem_of_take_lookup (l : list Z) n x :
  x ∈ take n l <-> exists i, l !! i = Some x /\ (i < n)%nat.
Proof.
  rewrite list_elem_of_lookup. split; intros [i Hi]; exists i.
  - apply lookup_take_Some in Hi. tauto.
  - by apply lookup_take_Some.
Qed.

Lemma elem_of_drop_lookup (l : list Z) n x :
  x ∈ drop n l <-> exists i, l !! i = Some x /\ (n <= i)%nat.
Proof.
  rewrite list_elem_of_lookup. split.
  - intros [i Hi]. rewrite lookup_drop in Hi. exists (n + i)%nat. split; [done|lia].
  - intros (i & Hi & Hle). exists (i - n)%nat. rewrite lookup_drop. by replace (n + (i - n))%nat with i by lia.
Qed.

(** Insertion of an absent element at its position. *)
Lemma wf_insert set bit n m :
  wf set -> found_at set bit n -> bit ∉ buf set -> 0 <= bit < 2 ^ 32 ->
  cnt set + 1 < 2 ^ 31 -> cnt set + 1 <= m ->
  let set' := mkSigSet m (take (Z.to_nat n) (buf set) ++ bit :: drop (Z.to_nat n) (buf set)) in
  wf set' /\ to_set set' = {[bit]} ∪ to_set set.
Proof.
  intros Hwf (Hn & Hlo & Hhi & Hat) Hni Hb Hc Hm set'.
  destruct (sorted_take_drop (buf set) (Z.to_nat n) (wf_sorted _ Hwf)) as [Ht Hd].
  assert (Hdrop : forall y, y ∈ drop (Z.to_nat n) (buf set) -> bit < y).
  { intros y (i & Hi & Hle)%elem_of_drop_lookup. destruct (decide (i = Z.to_nat n)) as [->|].
    - assert (y <> bit) by (intros ->; apply Hni, list_elem_of_lookup; eauto).
      specialize (Hat _ Hi). lia.
    - apply (Hhi i); [done|lia]. }
  assert (Hlen : length (buf set') = S (length (buf set))).
  { subst set'; simpl. rewrite length_app, length_take; simpl. rewrite length_drop.
    unfold cnt in *. lia. }
  split.
  - constructor.
    + subst set'; simpl. apply sorted_app; [done| |].
      * constructor; [done|]. by apply Forall_forall.
      * intros x y (i & Hi & Hlt)%elem_of_take_lookup [->|Hy]%elem_of_cons.
        -- apply (Hlo i); [done|lia].
        -- assert (x < bit) by (apply (Hlo i); [done|lia]). specialize (Hdrop y Hy). lia.
    + subst set'; simpl. pose proof (wf_range _ Hwf) as Hr.
      rewrite Forall_app, Forall_cons. repeat split; try lia; auto using Forall_take, Forall_drop.
    + unfold cnt in *. rewrite Hlen. simpl. lia.
    + unfold cnt in *. rewrite Hlen. lia.
  - apply set_eq. intros x. rewrite elem_of_union, elem_of_singleton, !elem_of_to_set.
    subst set'; simpl. rewrite elem_of_app, elem_of_cons.
    assert (x ∈ buf set <-> x ∈ take (Z.to_nat n) (buf set) \/ x ∈ drop (Z.to_nat n) (buf set)) as ->
      by (by rewrite <- elem_of_app, take_drop).
    tauto.
Qed.

(** Removal of the element at position [n]. *)
Lemma wf_delete set n x :
  wf set -> buf set !! Z.to_nat n = Some x ->
  let set' := mkSigSet (max set) (take (Z.to_nat n) (buf set) ++ drop (S (Z.to_nat n)) (buf set)) in
  wf set' /\ to_set set' = to_set set ∖ {[x]}.
Proof.
  intros Hwf Hx set'. set (i := Z.to_nat n) in *.
  pose proof (wf_sorted _ Hwf) as Hs. pose proof (wf_range _ Hwf) as Hr.
  pose proof (lookup_lt_Some _ _ _ Hx) as Hi.
  assert (Hlen : length (buf set') = (length (buf set) - 1)%nat).
  { subst set'; simpl. rewrite length_app, length_take, length_drop. lia. }
  split.
  - constructor.
    + subst set'; simpl. apply sorted_app; try (apply sorted_take_drop; done).
      intros y z (j & Hj & ?)%elem_of_take_lookup (k & Hk & ?)%elem_of_drop_lookup.
      apply (sorted_lookup_lt (buf set) j k); auto with lia.
    + subst set'; simpl. rewrite Forall_app; split; auto using Forall_take, Forall_drop.
    + pose proof (wf_max _ Hwf). unfold cnt in *. rewrite Hlen. simpl. lia.
    + pose proof (wf_cnt _ Hwf). unfold cnt in *. rewrite Hlen. lia.
  - apply set_eq. intros y. rewrite elem_of_difference, elem_of_singleton, !elem_of_to_set.
    subst set'; simpl. rewrite elem_of_app, elem_of_take_lookup, elem_of_drop_lookup, list_elem_of_lookup.
    split.
    + intros [(j & Hj & Hlt)|(j & Hj & Hlt)]; (split; [eauto|intros ->]).
      * pose proof (sorted_lookup_lt _ j i _ _ Hs Hj Hx). lia.
      * pose proof (sorted_lookup_lt _ i j _ _ Hs Hx Hj). lia.
    + intros [[j Hj] Hne]. destruct (decide (j < i)%nat); [eauto|].
      right. exists j. split; [done|]. destruct (decide (j = i)) as [->|]; [congruence|lia].
Qed.

Lemma to_set_absent set bit : bit ∉ buf set -> to_set set = to_set set ∖ {[bit]}.
Proof. intros H. apply set_eq. intros y. rewrite elem_of_difference, !elem_of_to_set. set_solver. Qed.

Lemma to_set_present set bit : bit ∈ buf set -> to_set set = {[bit]} ∪ to_set set.
Proof. intros H. apply set_eq. intros y. rewrite elem_of_union, !elem_of_to_set. set_solver. Qed.

Lemma sigset_get_correct set bit :
  wf set -> sigset_get set bit = Some (bool_decide (bit ∈ to_set set)).
Proof.
  intros Hwf. destruct (search_spec set bit Hwf) as (n & Hn & Hf).
  unfold sigset_get. rewrite Hn. cbn [mbind option_bind]. f_equal.
  rewrite (found_at_mem _ _ _ Hf). apply bool_decide_ext. by rewrite elem_of_to_set.
Qed.

Lemma sigset_get_next_correct set bit :
  wf set -> 0 <= bit -> bit + 1 < 2 ^ 32 ->
  exists r b, sigset_get_next set bit = Some (r, b) /\
    (if r : bool
     then bit < b /\ b ∈ to_set set /\ forall x, x ∈ to_set set -> bit < x -> b <= x
     else b = bit /\ forall x, x ∈ to_set set -> x <= bit).
Proof.
  intros Hwf H0 H1. destruct (search_spec set (bit + 1) Hwf) as (n & Hn & Hr & Hlo & Hhi & Hat).
  unfold sigset_get_next. rewrite uwrap_small, Hn by lia. cbn [mbind option_bind].
  rewrite Z.geb_leb. destruct (Z.leb_spec (cnt set) n); do 2 eexists; (split; [reflexivity|]).
  - split; [done|]. intros x [i Hi]%elem_of_to_set%list_elem_of_lookup.
    pose proof (lookup_lt_Some _ _ _ Hi). pose proof (Hlo _ _ Hi). unfold cnt in *. lia.
  - destruct (lookup_lt_is_Some_2 (buf set) (Z.to_nat n)) as [y Hy]; [unfold cnt in *; lia|].
    rewrite (elt_lookup _ _ _ Hy). pose proof (Hat _ Hy). split; [lia|]. split.
    + apply elem_of_to_set, list_elem_of_lookup. eauto.
    + intros x [i Hi]%elem_of_to_set%list_elem_of_lookup Hx.
      destruct (decide (Z.of_nat i < n)) as [Hl|]; [specialize (Hlo _ _ Hi Hl); lia|].
      destruct (decide (i = Z.to_nat n)) as [->|]; [by simplify_eq|].
      pose proof (sorted_lookup_lt _ (Z.to_nat n) i _ _ (wf_sorted _ Hwf) Hy Hi). lia.
Qed.

(** ** Properties *)

(** The concrete set of the witnesses: signals 2, 9 and 15. *)
Definition example_set : SigSet := mkSigSet 8 [2; 9; 15].

Lemma example_wf : wf example_set.
Proof.
  constructor; [|repeat constructor|..]; try (unfold cnt; simpl; lia).
  repeat (constructor; [|repeat constructor]). constructor.
Qed.

(** on a well-formed set, [sigset_set] terminates without violating its assertions, keeps
    the array sorted and within its allocation, and adds or removes exactly the given signal. *)
Theorem sigset_set_refines set bit value :
  wf set -> 0 <= bit < 2 ^ 32 -> (value = true -> 0 < bit) -> cnt set + 1 < 2 ^ 31 ->
  exists set', sigset_set set bit value = Some set' /\ wf set' /\
    to_set set' = if value then {[bit]} ∪ to_set set else to_set set ∖ {[bit]}.
Proof.
  intros Hwf Hb Hv Hc. destruct (search_spec set bit Hwf) as (n & Hn & Hf).
  unfold sigset_set. rewrite Hn. cbn [mbind option_bind].
  pose proof (found_at_mem _ _ _ Hf) as Hm. destruct (Hf) as (Hr & _).
  assert ((bit >? 0) || ((bit =? 0) && negb value) = true) as ->.
  { destruct value; rewrite Z.gtb_ltb; simpl; [specialize (Hv eq_refl)|];
      destruct (Z.ltb_spec 0 bit); simpl; auto; destruct (Z.eqb_spec bit 0); simpl; lia. }
  rewrite (proj2 (Z.leb_le n (cnt set))) by lia. cbn [negb].
  destruct value.
  - rewrite Hm. case_bool_decide as Hin.
    + exists set. eauto using to_set_present.
    + eexists. split; [done|]. apply wf_insert; auto.
      pose proof (wf_max _ Hwf). rewrite Z.geb_leb. destruct (Z.leb_spec (max set) (cnt set)); lia.
  - assert ((n >=? cnt set) || negb (elt set n =? bit) = negb (bool_decide (bit ∈ buf set))) as ->.
    { rewrite <- Hm, negb_andb, Z.geb_leb. by rewrite (Z.leb_antisym n). }
    case_bool_decide as Hin; simpl.
    + eexists. split; [done|].
      destruct (Z.ltb_spec n (cnt set)); simpl in Hm; [|congruence].
      destruct (lookup_lt_is_Some_2 (buf set) (Z.to_nat n)) as [y Hy]; [unfold cnt in *; lia|].
      rewrite (elt_lookup _ _ _ Hy) in Hm. destruct (Z.eqb_spec y bit); [subst y|congruence].
      by apply wf_delete.
    + exists set. eauto using to_set_absent.
Qed.

Lemma sigset_set_refines_witness :
  exists set', sigset_set example_set 5 true = Some set' /\ wf set' /\
    to_set set' = {[5]} ∪ to_set example_set.
Proof.
  apply (sigset_set_refines example_set 5 true);
    [apply example_wf|lia|lia|unfold cnt; simpl; lia].
Defined.

(** [sigset_get] is membership, and [sigset_get_next] returns the least member above the
    given signal, or reports that there is none and leaves the argument alone; so the loop
    [while (sigset_get_next(set, &bit))] visits the members in increasing order. *)
Theorem sigset_lookup_next set bit :
  wf set -> 0 <= bit -> bit + 1 < 2 ^ 32 ->
  sigset_get set bit = Some (bool_decide (bit ∈ to_set set)) /\
  exists r b, sigset_get_next set bit = Some (r, b) /\
    (if r : bool
     then bit < b /\ b ∈ to_set set /\ forall x, x ∈ to_set set -> bit < x -> b <= x
     else b = bit /\ forall x, x ∈ to_set set -> x <= bit).
Proof. auto using sigset_get_correct, sigset_get_next_correct. Qed.

Lemma sigset_lookup_next_witness :
  sigset_get example_set 9 = Some (bool_decide (9 ∈ to_set example_set)) /\
  exists r b, sigset_get_next example_set 9 = Some (r, b) /\
    (if r : bool
     then 9 < b /\ b ∈ to_set example_set /\ forall x, x ∈ to_set example_set -> 9 < x -> b <= x
     else b = 9 /\ forall x, x ∈ to_set example_set -> x <= 9).
Proof. apply (sigset_lookup_next example_set 9); [apply example_wf|lia|lia]. Defined.
