(* ===== verification/Channel.v ===== *)
(** * Channels (framework/channel.c)

    The objects of all channels, the listeners that are told of changes of channels, and broadcast
    groups, whose output stream writes to every channel of the group.  A pointer to a channel, a
    listener or a function is a number; what the functions behind such numbers do is given by
    parameters of the definitions that call them. *)

From S2P Require Import Prelude Streams JsonWrite JsonRead.

(** ** State *)

Inductive ChannelState :=
| ChannelStateStartWait
| ChannelStateStarted
| ChannelStateHelloSent
| ChannelStateHelloReceived
| ChannelStateConnected
| ChannelStateRedirectSent
| ChannelStateRedirectReceived
| ChannelStateDisconnected.

#[export] Instance ChannelState_eq_dec : EqDecision ChannelState.
Proof. solve_decision. Defined.

(** [struct ChannelLock]: [cl_msg] is the pointer to the message. *)
Record ChannelLock := mkLock { cl_msg : Z; cl_cnt : Z; cl_timer : Z }.

(** The fields of [struct Channel] that are used.  [ch_has_connected]: [connected != NULL];
    [ch_bcg]: the broadcast group, 0 if there is none; [ch_locks]: [None] before the first lock;
    [ch_peer_service_list]: the array of the names, [None] for the null pointer. *)
Record Channel (IS OS : Type) := mkChannel {
  ch_inp : IS;
  ch_out : OS;
  ch_bcg : Z;
  ch_protocol : Z;
  ch_peer_service_list : option (list (list Z));
  ch_locks : option (list ChannelLock);
  ch_congestion_level : Z;
  ch_state : ChannelState;
  ch_disable_zero_copy : bool;
  ch_has_connected : bool }.
Arguments mkChannel {IS OS}.
Arguments ch_inp {IS OS}.
Arguments ch_out {IS OS}.
Arguments ch_bcg {IS OS}.
Arguments ch_protocol {IS OS}.
Arguments ch_peer_service_list {IS OS}.
Arguments ch_locks {IS OS}.
Arguments ch_congestion_level {IS OS}.
Arguments ch_state {IS OS}.
Arguments ch_disable_zero_copy {IS OS}.
Arguments ch_has_connected {IS OS}.

(** [struct TCFBroadcastGroup]: [bg_buf] is [buf[0 .. cur)]. *)
Record TCFBroadcastGroup := mkBG { bg_buf : list Z; bg_channels : list Z }.

(** [sizeof(bcg->buf)] *)
Definition BCG_BUF_SIZE : nat := 256.

(** The channels, the arrays of listeners, the broadcast groups, [channel_root], [lock_timer_posted],
    the static buffer of json.c, and the rest of the program. *)
Record World (IS OS U : Type) := mkWorld {
  w_channels : Z -> Channel IS OS;
  w_create_listeners : list Z;
  w_open_listeners : list Z;
  w_close_listeners : list Z;
  w_groups : gmap Z TCFBroadcastGroup;
  w_root : list Z;
  w_lock_timer : nat;
  w_json : list Z * N;
  w_user : U }.
Arguments mkWorld {IS OS U}.
Arguments w_channels {IS OS U}.
Arguments w_create_listeners {IS OS U}.
Arguments w_open_listeners {IS OS U}.
Arguments w_close_listeners {IS OS U}.
Arguments w_groups {IS OS U}.
Arguments w_root {IS OS U}.
Arguments w_lock_timer {IS OS U}.
Arguments w_json {IS OS U}.
Arguments w_user {IS OS U}.

Section Channels.
Context {IS OS U : Type}.

Notation Channel := (Channel IS OS).
Notation World := (World IS OS U).
Notation W := (M World).

Definition set_inp (i : IS) (c : Channel) : Channel :=
  mkChannel i (ch_out c) (ch_bcg c) (ch_protocol c) (ch_peer_service_list c) (ch_locks c)
    (ch_congestion_level c) (ch_state c) (ch_disable_zero_copy c) (ch_has_connected c).
Definition set_out (o : OS) (c : Channel) : Channel :=
  mkChannel (ch_inp c) o (ch_bcg c) (ch_protocol c) (ch_peer_service_list c) (ch_locks c)
    (ch_congestion_level c) (ch_state c) (ch_disable_zero_copy c) (ch_has_connected c).
Definition set_bcg (g : Z) (c : Channel) : Channel :=
  mkChannel (ch_inp c) (ch_out c) g (ch_protocol c) (ch_peer_service_list c) (ch_locks c)
    (ch_congestion_level c) (ch_state c) (ch_disable_zero_copy c) (ch_has_connected c).
Definition set_peer_services (l : option (list (list Z))) (c : Channel) : Channel :=
  mkChannel (ch_inp c) (ch_out c) (ch_bcg c) (ch_protocol c) l (ch_locks c)
    (ch_congestion_level c) (ch_state c) (ch_disable_zero_copy c) (ch_has_connected c).
Definition set_locks (l : option (list ChannelLock)) (c : Channel) : Channel :=
  mkChannel (ch_inp c) (ch_out c) (ch_bcg c) (ch_protocol c) (ch_peer_service_list c) l
    (ch_congestion_level c) (ch_state c) (ch_disable_zero_copy c) (ch_has_connected c).
Definition set_congestion (n : Z) (c : Channel) : Channel :=
  mkChannel (ch_inp c) (ch_out c) (ch_bcg c) (ch_protocol c) (ch_peer_service_list c) (ch_locks c)
    n (ch_state c) (ch_disable_zero_copy c) (ch_has_connected c).
Definition set_state (st : ChannelState) (c : Channel) : Channel :=
  mkChannel (ch_inp c) (ch_out c) (ch_bcg c) (ch_protocol c) (ch_peer_service_list c) (ch_locks c)
    (ch_congestion_level c) st (ch_disable_zero_copy c) (ch_has_connected c).

(** The memory with the channel at [c] changed. *)
Definition upd_channel (c : Z) (f : Channel -> Channel) (w : World) : World :=
  mkWorld (fun d => if d =? c then f (w_channels w c) else w_channels w d)
    (w_create_listeners w) (w_open_listeners w) (w_close_listeners w) (w_groups w) (w_root w) (w_lock_timer w)
    (w_json w) (w_user w).

Definition set_groups (g : gmap Z TCFBroadcastGroup) (w : World) : World :=
  mkWorld (w_channels w) (w_create_listeners w) (w_open_listeners w) (w_close_listeners w) g (w_root w)
    (w_lock_timer w) (w_json w) (w_user w).
Definition set_listeners (cr op cl : list Z) (w : World) : World :=
  mkWorld (w_channels w) cr op cl (w_groups w) (w_root w) (w_lock_timer w) (w_json w) (w_user w).
Definition set_lock_timer (n : nat) (w : World) : World :=
  mkWorld (w_channels w) (w_create_listeners w) (w_open_listeners w) (w_close_listeners w) (w_groups w) (w_root w)
    n (w_json w) (w_user w).
Definition set_json (j : list Z * N) (w : World) : World :=
  mkWorld (w_channels w) (w_create_listeners w) (w_open_listeners w) (w_close_listeners w) (w_groups w) (w_root w)
    (w_lock_timer w) j (w_user w).
Definition set_user (u : U) (w : World) : World :=
  mkWorld (w_channels w) (w_create_listeners w) (w_open_listeners w) (w_close_listeners w) (w_groups w) (w_root w)
    (w_lock_timer w) (w_json w) u.

(** Computations on [c->inp], on it together with the buffer of the JSON readers, and on [c->out]. *)
Definition on_inp {A} (c : Z) (m : M IS A) : W A :=
  zoom (fun w => ch_inp (w_channels w c)) (fun i => upd_channel c (set_inp i)) m.
Definition on_json {A} (c : Z) (m : M (Json IS) A) : W A :=
  zoom (fun w => mkJson (ch_inp (w_channels w c)) (fst (w_json w)) (snd (w_json w)))
    (fun j w => set_json (js_buf j, js_size j) (upd_channel c (set_inp (js_inp j)) w)) m.
Definition on_out {A} (c : Z) (m : M OS A) : W A :=
  zoom (fun w => ch_out (w_channels w c)) (fun o => upd_channel c (set_out o)) m.
Definition on_user {A} (m : M U A) : W A := zoom w_user set_user m.

(** A field of a channel. *)
Definition chan {A} (c : Z) (f : Channel -> A) : W A := gets (fun w => f (w_channels w c)).

(** ** Listeners *)

Definition add_channel_create_listener (l : Z) : W unit :=
  modify (fun w => set_listeners (w_create_listeners w ++ [l]) (w_open_listeners w) (w_close_listeners w) w).
Definition add_channel_open_listener (l : Z) : W unit :=
  modify (fun w => set_listeners (w_create_listeners w) (w_open_listeners w ++ [l]) (w_close_listeners w) w).
Definition add_channel_close_listener (l : Z) : W unit :=
  modify (fun w => set_listeners (w_create_listeners w) (w_open_listeners w) (w_close_listeners w ++ [l]) w).

Section Notify.
(** The call of a listener with a channel. *)
Variable call_listener : Z -> Z -> W unit.

(** The loop over an array of listeners, which the listeners may extend. *)
Fixpoint notify_loop (n : nat) (ls : World -> list Z) (i : nat) (c : Z) : W unit :=
  match n with
  | O => nofuel
  | S n' =>
      let! l := gets (fun w => ls w !! i) in
      match l with
      | Some l => call_listener l c ;! notify_loop n' ls (S i) c
      | None => ret tt
      end
  end.

Definition notify_channel_created (n : nat) (c : Z) : W unit := notify_loop n w_create_listeners 0 c.
Definition notify_channel_opened (n : nat) (c : Z) : W unit := notify_loop n w_open_listeners 0 c.
Definition notify_channel_closed (n : nat) (c : Z) : W unit := notify_loop n w_close_listeners 0 c.
End Notify.

(** ** Broadcast groups *)

Definition get_group (g : Z) : W TCFBroadcastGroup :=
  let! gs := gets w_groups in
  match gs !! g with Some p => ret p | None => fault end.

Definition isBroadcastOkay (st : ChannelState) : bool :=
  bool_decide (st = ChannelStateConnected) || bool_decide (st = ChannelStateRedirectSent) ||
  bool_decide (st = ChannelStateRedirectReceived).

(** The loops over the channels of a group. *)
Fixpoint write_to_all `{OutputStream OS} (m : M OS unit) (l : list Z) : W unit :=
  match l with
  | [] => ret tt
  | c :: l' =>
      let! st := chan c ch_state in
      (if isBroadcastOkay st then on_out c m else ret tt) ;!
      write_to_all m l'
  end.

Definition flush_bcg_buf `{OutputStream OS} (g : Z) : W unit :=
  let! p := get_group g in
  write_to_all (os_write_block (bg_buf p)) (bg_channels p) ;!
  modify (fun w => set_groups (<[g := mkBG [] (bg_channels p)]> (w_groups w)) w).

Definition write_all `{OutputStream OS} (g : Z) (byte : Z) : W unit :=
  let! p := get_group g in
  (if negb (length (bg_buf p) =? 0)%nat then flush_bcg_buf g else ret tt) ;!
  write_to_all (write_stream byte) (bg_channels p).

Definition write_block_all `{OutputStream OS} (g : Z) (bytes : list Z) : W unit :=
  let! p := get_group g in
  (if negb (length (bg_buf p) =? 0)%nat then flush_bcg_buf g else ret tt) ;!
  write_to_all (os_write_block bytes) (bg_channels p).

(** [broadcast_group_alloc]: [g] is the address of the new object. *)
Definition broadcast_group_alloc (g : Z) : W unit :=
  modify (fun w => set_groups (<[g := mkBG [] []]> (w_groups w)) w).

(** The loop of [broadcast_group_free]. *)
Fixpoint free_group_loop (g : Z) (l : list Z) : W unit :=
  match l with
  | [] => ret tt
  | c :: l' =>
      let! b := chan c ch_bcg in
      cassert (b =? g) ;!
      modify (upd_channel c (set_bcg 0)) ;!
      free_group_loop g l'
  end.

Definition broadcast_group_free (g : Z) : W unit :=
  let! p := get_group g in
  free_group_loop g (bg_channels p) ;!
  modify (fun w => set_groups (delete g (w_groups w)) w).

Definition channel_clear_broadcast_group (c : Z) : W unit :=
  let! g := chan c ch_bcg in
  if g =? 0 then ret tt
  else
    let! p := get_group g in
    modify (fun w => set_groups
      (<[g := mkBG (bg_buf p) (List.filter (fun d => negb (d =? c)) (bg_channels p))]> (w_groups w)) w) ;!
    modify (upd_channel c (set_bcg 0)).

Definition channel_set_broadcast_group (c g : Z) : W unit :=
  let! b := chan c ch_bcg in
  (if negb (b =? 0) then channel_clear_broadcast_group c else ret tt) ;!
  let! p := get_group g in
  modify (fun w => set_groups (<[g := mkBG (bg_buf p) (bg_channels p ++ [c])]> (w_groups w)) w) ;!
  modify (upd_channel c (set_bcg g)).

(** ** Locks *)

Section Locks.
(** The callbacks of the channel's implementation. *)
Variables call_lock call_unlock : Z -> W unit.
Variable is_closed : Z -> World -> bool.

Definition channel_lock (c : Z) : W unit := call_lock c.
Definition channel_unlock (c : Z) : W unit := call_unlock c.
Definition is_channel_closed (c : Z) : W bool := gets (is_closed c).

Fixpoint count_lock (msg n : Z) (l : list ChannelLock) : option (list ChannelLock) :=
  match l with
  | [] => None
  | x :: l' =>
      if cl_msg x =? msg then Some (mkLock msg (uwrap 32 (cl_cnt x + n)) (cl_timer x) :: l')
      else option_map (cons x) (count_lock msg n l')
  end.

Definition channel_lock_with_msg (c msg : Z) : W unit :=
  call_lock c ;!
  if msg =? 0 then ret tt
  else
    let! l := chan c ch_locks in
    let l := match l with Some l => l | None => [] end in
    match count_lock msg 1 l with
    | Some l' => modify (upd_channel c (set_locks (Some l')))
    | None =>
        modify (upd_channel c (set_locks (Some (mkLock msg 1 0 :: l)))) ;!
        let! n := gets w_lock_timer in
        if (n =? 0)%nat then modify (set_lock_timer 1) else ret tt
    end.

Definition channel_unlock_with_msg (c msg : Z) : W unit :=
  (if msg =? 0 then ret tt
   else
     let! l := chan c ch_locks in
     match l with
     | Some l =>
         match count_lock msg (-1) l with
         | Some l' =>
             modify (upd_channel c (set_locks
               (Some (List.filter (fun x => negb ((cl_msg x =? msg) && (cl_cnt x =? 0))) l'))))
         | None => ret tt
         end
     | None => ret tt
     end) ;!
  call_unlock c.

(** The loops of [lock_timer_event]: the locks of closed channels get older. *)
Fixpoint lock_timer_loop (l : list Z) (cnt : nat) : W nat :=
  match l with
  | [] => ret cnt
  | c :: l' =>
      let! closed := is_channel_closed c in
      let! locks := chan c ch_locks in
      match locks with
      | Some ls =>
          if closed then
            cassert (forallb (fun x => 0 <? cl_cnt x) ls) ;!
            modify (upd_channel c (set_locks (Some (map (fun x => mkLock (cl_msg x) (cl_cnt x) (uwrap 32 (cl_timer x + 1))) ls)))) ;!
            lock_timer_loop l' (cnt + length ls)
          else lock_timer_loop l' cnt
      | None => lock_timer_loop l' cnt
      end
  end.

Definition lock_timer_event : W unit :=
  let! n := gets w_lock_timer in
  cassert (0 <? n)%nat ;!
  let! root := gets w_root in
  let! cnt := lock_timer_loop root 0 in
  if (0 <? cnt)%nat then ret tt else modify (set_lock_timer 0).

End Locks.

(** ** Starting and closing *)

Section Comm.
Variable call_start_comm : Z -> W unit.
Variable call_close : Z -> Z -> W unit.

Definition channel_start (c : Z) : W unit :=
  let! p := chan c ch_protocol in
  cassert (negb (p =? 0)) ;!
  let! st := chan c ch_state in
  cassert (bool_decide (st = ChannelStateStartWait)) ;!
  modify (upd_channel c (set_state ChannelStateStarted)) ;!
  call_start_comm c.

Definition channel_close (c : Z) : W unit := call_close c 0.

End Comm.

End Channels.

(** ** The stream of a group *)

(** The [out] field of a broadcast group: [bs_group] is the address of the group. *)
Record Broadcast (IS OS U : Type) := mkBroadcast { bs_group : Z; bs_world : World IS OS U }.
Arguments mkBroadcast {IS OS U}.
Arguments bs_group {IS OS U}.
Arguments bs_world {IS OS U}.

Definition on_world {IS OS U A} (m : Z -> M (World IS OS U) A) : M (Broadcast IS OS U) A :=
  fun s => let '(r, w) := m (bs_group s) (bs_world s) in (r, mkBroadcast (bs_group s) w).

Definition bcg_buf {IS OS U} (s : Broadcast IS OS U) : list Z :=
  match w_groups (bs_world s) !! bs_group s with Some p => bg_buf p | None => [] end.

#[export] Instance broadcast_output {IS OS U} `{OutputStream OS} : OutputStream (Broadcast IS OS U) := {
  supports_zero_copy _ := false;
  os_null _ := false;
  os_room s := (BCG_BUF_SIZE - length (bcg_buf s))%nat;
  os_store bs s :=
    mkBroadcast (bs_group s) (set_groups
      (alter (fun p => mkBG (bg_buf p ++ bs) (bg_channels p)) (bs_group s) (w_groups (bs_world s))) (bs_world s));
  os_write b := on_world (fun g => write_all g b);
  os_write_block bs := on_world (fun g => write_block_all g bs) }.
