(* ===== verification/ChannelProps.v ===== *)
(** * Properties of channels (Channel.v)

    How computations on one channel change the memory of all channels, and what reaches the channels of
    a broadcast group. *)

From Stdlib Require Import FunctionalExtensionality.
From S2P Require Import Prelude Streams OutputBuf JsonWrite JsonRead ChannelOut Channel.

(** ** One channel *)

Section Focus.
Context {IS OS U : Type}.

Notation World := (World IS OS U).
Notation Channel := (Channel IS OS).
Implicit Types (w : World) (ch : Channel).

(** The memory [w] with another object at [c], another JSON buffer and another rest of the program. *)
Definition At (c : Z) ch (j : list Z * N) (u : U) w : World := set_json j (set_user u (upd_channel c (fun _ => ch) w)).

Lemma at_channel c ch j u w : w_channels (At c ch j u w) c = ch.
Proof. cbn. by rewrite Z.eqb_refl. Qed.

Lemma at_other c d ch j u w : d <> c -> w_channels (At c ch j u w) d = w_channels w d.
Proof. intros Hd. cbn. by rewrite (proj2 (Z.eqb_neq d c)). Qed.

Lemma world_ext w1 w2 : (forall d, w_channels w1 d = w_channels w2 d) ->
  w_create_listeners w1 = w_create_listeners w2 -> w_open_listeners w1 = w_open_listeners w2 ->
  w_close_listeners w1 = w_close_listeners w2 -> w_groups w1 = w_groups w2 -> w_root w1 = w_root w2 ->
  w_lock_timer w1 = w_lock_timer w2 -> w_json w1 = w_json w2 -> w_user w1 = w_user w2 -> w1 = w2.
Proof. destruct w1, w2. cbn. intros Hc. apply functional_extensionality in Hc. congruence. Qed.

Lemma at_self c w : At c (w_channels w c) (w_json w) (w_user w) w = w.
Proof. apply world_ext; try done. intros d. cbn. by destruct (Z.eqb_spec d c) as [->|]. Qed.

Lemma at_upd c f ch j u w : upd_channel c f (At c ch j u w) = At c (f ch) j u w.
Proof. apply world_ext; try done. intros d. cbn. rewrite Z.eqb_refl. by destruct (Z.eqb_spec d c) as [->|]. Qed.

Lemma at_user c u' ch j u w : set_user u' (At c ch j u w) = At c ch j u' w.
Proof. done. Qed.

Lemma at_json c j' ch j u w : set_json j' (At c ch j u w) = At c ch j' u w.
Proof. done. Qed.

Lemma on_inp_at {A} c (m : M IS A) ch j u w :
  on_inp c m (At c ch j u w) = let '(r, i) := m (ch_inp ch) in (r, At c (set_inp i ch) j u w).
Proof. unfold on_inp, zoom. rewrite at_channel. destruct (m (ch_inp ch)) as [r i]. by rewrite at_upd. Qed.

Lemma on_out_at {A} c (m : M OS A) ch j u w :
  on_out c m (At c ch j u w) = let '(r, o) := m (ch_out ch) in (r, At c (set_out o ch) j u w).
Proof. unfold on_out, zoom. rewrite at_channel. destruct (m (ch_out ch)) as [r o]. by rewrite at_upd. Qed.

Lemma on_json_at {A} c (m : M (Json IS) A) ch j u w :
  on_json c m (At c ch j u w) =
    let '(r, s) := m (mkJson (ch_inp ch) (fst j) (snd j)) in (r, At c (set_inp (js_inp s) ch) (js_buf s, js_size s) u w).
Proof.
  unfold on_json, zoom. rewrite at_channel. change (w_json (At c ch j u w)) with j.
  destruct (m _) as [r s]. by rewrite at_upd, at_json.
Qed.

Lemma on_user_at {A} c (m : M U A) ch j u w :
  on_user m (At c ch j u w) = let '(r, u') := m u in (r, At c ch j u' w).
Proof. unfold on_user, zoom. change (w_user (At c ch j u w)) with u. by destruct (m u). Qed.

Lemma chan_at {A} c (f : Channel -> A) ch j u w : chan c f (At c ch j u w) = (Val (f ch), At c ch j u w).
Proof. unfold chan, gets. by rewrite at_channel. Qed.

Lemma runs_inp {A} c (m : M IS A) a i ch j u w :
  runs m (ch_inp ch) a i -> runs (on_inp c m) (At c ch j u w) a (At c (set_inp i ch) j u w).
Proof. unfold runs. intros Hm. by rewrite on_inp_at, Hm. Qed.

Lemma runs_out c (m : M OS unit) a o ch j u w :
  runs m (ch_out ch) a o -> runs (on_out c m) (At c ch j u w) a (At c (set_out o ch) j u w).
Proof. unfold runs. intros Hm. by rewrite on_out_at, Hm. Qed.

Lemma runs_json {A} c (m : M (Json IS) A) a s ch j u w :
  runs m (mkJson (ch_inp ch) (fst j) (snd j)) a s ->
  runs (on_json c m) (At c ch j u w) a (At c (set_inp (js_inp s) ch) (js_buf s, js_size s) u w).
Proof. unfold runs. intros Hm. by rewrite on_json_at, Hm. Qed.

Lemma runs_user {A} c (m : M U A) a u' ch j u w :
  runs m u a u' -> runs (on_user m) (At c ch j u w) a (At c ch j u' w).
Proof. unfold runs. intros Hm. by rewrite on_user_at, Hm. Qed.

Lemma runs_chan {A} c (f : Channel -> A) ch j u w : runs (chan c f) (At c ch j u w) (f ch) (At c ch j u w).
Proof. apply chan_at. Qed.

Lemma runs_upd c f ch j u w : runs (modify (upd_channel c f)) (At c ch j u w) tt (At c (f ch) j u w).
Proof. unfold runs, modify. by rewrite at_upd. Qed.

(** Reading and writing through the laws of the streams. *)
Lemma reads_inp `{InputStreamLaws IS} {A} c P (m : M IS A) l a rest ch j u w :
  reads P m l a -> P rest -> yields (ch_inp ch) (l ++ rest) ->
  exists i, runs (on_inp c m) (At c ch j u w) a (At c (set_inp i ch) j u w) /\ yields i rest.
Proof. intros Hm HP Hy. destruct (Hm (ch_inp ch) rest HP Hy) as (i & R & Y). exists i. split; [by apply runs_inp|done]. Qed.

Lemma writes_out `{OutputStreamLaws OS} c (m : M OS unit) bs l ch j u w :
  writes m bs -> emits (ch_out ch) l ->
  exists o, runs (on_out c m) (At c ch j u w) tt (At c (set_out o ch) j u w) /\ emits o (l ++ bs).
Proof. intros Hm He. destruct (Hm (ch_out ch) l He) as (o & R & E). exists o. split; [by apply runs_out|done]. Qed.
End Focus.

(** ** Broadcast groups *)

Section Broadcast.
Context {IS OS U : Type} `{OutputStreamLaws OS}.

Notation World := (World IS OS U).

(** The channels of a group that messages are sent to. *)
Definition hears (w : World) (c : Z) : bool := isBroadcastOkay (ch_state (w_channels w c)).

Lemma write_to_all_runs (m : M OS unit) bs l : writes m bs -> NoDup l -> forall w,
  (forall c, c ∈ l -> hears w c = true -> exists t, emits (ch_out (w_channels w c)) t) ->
  exists w', runs (write_to_all m l) w tt w' /\
    (forall c, ch_state (w_channels w' c) = ch_state (w_channels w c)) /\
    (forall c, c ∉ l \/ hears w c = false -> w_channels w' c = w_channels w c) /\
    (forall c, c ∈ l -> hears w c = true -> exists o, w_channels w' c = set_out o (w_channels w c) /\
       runs m (ch_out (w_channels w c)) tt o) /\
    w_groups w' = w_groups w /\ w_user w' = w_user w.
Proof.
  intros Hm Hl. induction Hl as [|c l Hc Hl IH]; intros w He.
  - exists w. split; [apply runs_ret|]. split_and!; try done. by intros c ?%elem_of_nil.
  - cbn [write_to_all].
    assert (Hone : exists w1, runs (if isBroadcastOkay (ch_state (w_channels w c)) then on_out c m else ret tt) w tt w1 /\
      (forall d, d <> c -> w_channels w1 d = w_channels w d) /\
      (if hears w c then exists o, w_channels w1 c = set_out o (w_channels w c) /\ runs m (ch_out (w_channels w c)) tt o
       else w_channels w1 c = w_channels w c) /\ w_groups w1 = w_groups w /\ w_user w1 = w_user w).
    { unfold hears. destruct (isBroadcastOkay (ch_state (w_channels w c))) eqn:E; [|by exists w].
      destruct (He c) as [t Ht]; [left|done|]. destruct (Hm _ _ Ht) as (o & R & Eo).
      eexists. split; [apply (runs_zoom (fun w : World => ch_out (w_channels w c)) (fun o => upd_channel c (set_out o)) m w tt o R)|].
      cbn. rewrite Z.eqb_refl. split_and!; [|by exists o|done|done]. intros d Hd. by rewrite (proj2 (Z.eqb_neq d c)). }
    destruct Hone as (w1 & R1 & Hd1 & Hc1 & Hg1 & Hu1).
    assert (Hst1 : forall d, ch_state (w_channels w1 d) = ch_state (w_channels w d)).
    { intros d. destruct (decide (d = c)) as [->|Hd]; [|by rewrite Hd1].
      destruct (hears w c); [|by rewrite Hc1]. by destruct Hc1 as (o & -> & _). }
    assert (Hh1 : forall d, hears w1 d = hears w d) by (intros d; unfold hears; by rewrite Hst1).
    destruct (IH w1) as (w2 & R2 & Hst2 & Hn2 & Hy2 & Hg2 & Hu2).
    { intros d Hd. rewrite Hh1, Hd1 by (intros ->; done). apply He. by right. }
    exists w2. split.
    { eapply runs_bind; [apply runs_gets|]. eapply runs_bind; [exact R1|exact R2]. }
    split_and!.
    + intros d. by rewrite Hst2, Hst1.
    + intros d Hd. destruct (decide (d = c)) as [->|Hne].
      * rewrite Hn2 by (by left). destruct Hd as [Hd|Hd]; [by destruct Hd; left|]. by rewrite Hd in Hc1.
      * rewrite Hn2, Hd1 by (done || (destruct Hd as [Hd|Hd]; [left; intros ?; apply Hd; by right|right; by rewrite Hh1])). done.
    + intros d [->|Hd]%elem_of_cons Hh.
      * rewrite Hn2 by (by left). by rewrite Hh in Hc1.
      * assert (Hne : d <> c) by (by intros ->). rewrite <- (Hd1 d Hne). apply Hy2; [done|by rewrite Hh1].
    + by rewrite Hg2.
    + by rewrite Hu2.
Qed.

(** What happens to a channel of the group [g] when [bs] is written to all that listen. *)
Record delivered (l bs : list Z) (w w' : World) : Prop := {
  de_state c : ch_state (w_channels w' c) = ch_state (w_channels w c);
  de_other c : c ∉ l \/ hears w c = false -> w_channels w' c = w_channels w c;
  de_member c : c ∈ l -> hears w c = true -> exists o, w_channels w' c = set_out o (w_channels w c) /\
    forall t, emits (ch_out (w_channels w c)) t -> emits o (t ++ bs);
  de_user : w_user w' = w_user w }.

Lemma delivered_refl l w : delivered l [] w w.
Proof.
  constructor; try done. intros c _ _. exists (ch_out (w_channels w c)). split; [by destruct (w_channels w c)|].
  intros t. by rewrite app_nil_r.
Qed.

Lemma delivered_trans l b1 b2 w1 w2 w3 : delivered l b1 w1 w2 -> delivered l b2 w2 w3 -> delivered l (b1 ++ b2) w1 w3.
Proof.
  intros [Hs1 Ho1 Hm1 Hu1] [Hs2 Ho2 Hm2 Hu2].
  assert (Hh : forall c, hears w2 c = hears w1 c) by (intros c; unfold hears; by rewrite Hs1).
  constructor; [by intros c; rewrite Hs2| |  |congruence].
  - intros c Hc. rewrite Ho2 by (by rewrite Hh). by apply Ho1.
  - intros c Hc Hl. destruct (Hm1 c Hc Hl) as (o1 & E1 & H1'). destruct (Hm2 c Hc) as (o2 & E2 & H2'); [by rewrite Hh|].
    exists o2. split; [by rewrite E2, E1|]. intros t Ht. rewrite app_assoc. apply H2'. rewrite E1. by apply H1'.
Qed.

(** The stream of a group has emitted [l] since the memory was [w0]: what is not in its buffer has
    been written to every channel that listens. *)
Record group_emits (w0 : World) (g : Z) (s : Broadcast IS OS U) (l : list Z) : Prop := {
  ge_name : bs_group s = g;
  ge_open c : (exists p0, w_groups w0 !! g = Some p0 /\ c ∈ bg_channels p0) -> hears w0 c = true ->
    exists t, emits (ch_out (w_channels w0 c)) t;
  ge_group : exists p0 p l1, w_groups w0 !! g = Some p0 /\ NoDup (bg_channels p0) /\
    w_groups (bs_world s) = <[g := p]> (w_groups w0) /\ bg_channels p = bg_channels p0 /\
    bytes (bg_buf p) /\ bg_buf p0 ++ l = l1 ++ bg_buf p /\ delivered (bg_channels p0) l1 w0 (bs_world s) }.

(** Writing to all channels, after what has been delivered. *)
Lemma group_write (m : M OS unit) bs l l1 w0 w : writes m bs -> NoDup l ->
  (forall c, c ∈ l -> hears w0 c = true -> exists t, emits (ch_out (w_channels w0 c)) t) ->
  delivered l l1 w0 w ->
  exists w', runs (write_to_all m l) w tt w' /\ w_groups w' = w_groups w /\ delivered l (l1 ++ bs) w0 w'.
Proof.
  intros Hm Hl He [Hs0 Ho0 Hm0 Hu0].
  assert (Hh : forall c, hears w c = hears w0 c) by (intros c; unfold hears; by rewrite Hs0).
  destruct (write_to_all_runs m bs l Hm Hl w) as (w' & R & Hs & Ho & Hy & Hg & Hu).
  { intros c Hc Hx. rewrite Hh in Hx. destruct (He c Hc Hx) as [t Ht]. destruct (Hm0 c Hc Hx) as (o & -> & Hoe).
    eexists. cbn. by apply Hoe. }
  exists w'. split; [done|]. split; [done|]. apply (delivered_trans l l1 bs w0 w w'); [done|].
  constructor; [done|done| |done]. intros c Hc Hx. destruct (Hy c Hc Hx) as (o & E & Ro). exists o. split; [done|].
  intros t Ht. destruct (Hm _ _ Ht) as (o' & Ro' & Eo). by destruct (runs_det _ _ _ _ _ _ Ro Ro') as [_ <-].
Qed.

(** The head of the two writing functions: the buffer is flushed; then [m] is written. *)
Lemma group_run w0 g (m : M OS unit) bs s l : group_emits w0 g s l -> writes m bs ->
  exists w', runs (let! p := get_group (bs_group s) in
                   (if negb (length (bg_buf p) =? 0)%nat then flush_bcg_buf (bs_group s) else ret tt) ;!
                   write_to_all m (bg_channels p)) (bs_world s) tt w' /\ group_emits w0 g (mkBroadcast (bs_group s) w') (l ++ bs).
Proof.
  intros [<- Hopen (p0 & p & l1 & Hp0 & Hnd & Hgr & Hch & Hb & Hl & Hd)] Hm. set (g := bs_group s) in *.
  assert (He : forall c, c ∈ bg_channels p0 -> hears w0 c = true -> exists t, emits (ch_out (w_channels w0 c)) t) by eauto.
  assert (Rg : runs (get_group g) (bs_world s) p (bs_world s)).
  { unfold get_group. eapply runs_bind; [apply runs_gets|]. cbn beta. rewrite Hgr, lookup_insert_eq. apply runs_ret. }
  assert (exists w1, runs (if negb (length (bg_buf p) =? 0)%nat then flush_bcg_buf g else ret tt) (bs_world s) tt w1 /\
    w_groups w1 = <[g := mkBG [] (bg_channels p)]> (w_groups w0) /\ delivered (bg_channels p0) (bg_buf p0 ++ l) w0 w1) as (w1 & R1 & Hg1 & Hd1).
  { destruct (Nat.eqb_spec (length (bg_buf p)) 0) as [E|E].
    - apply nil_length_inv in E. exists (bs_world s). split; [apply runs_ret|]. rewrite Hl, E, app_nil_r. split; [|done].
      rewrite Hgr. by destruct p; cbn in E; subst.
    - destruct (group_write (os_write_block (bg_buf p)) (bg_buf p) (bg_channels p0) l1 w0 (bs_world s)) as (w1 & R & Hg' & Hd'); [|done|done|done|].
      { intros o t Ht. by apply emits_write_block. }
      eexists. split; [eapply runs_bind; [exact Rg|]; rewrite <- Hch in R; eapply runs_bind; [exact R|]; apply runs_modify|].
      cbn [w_groups set_groups]. rewrite Hg', Hgr, insert_insert_eq. split; [done|]. rewrite Hl.
      destruct Hd' as [Hs Ho Hme Hu]. by constructor. }
  destruct (group_write m bs (bg_channels p0) (bg_buf p0 ++ l) w0 w1 Hm Hnd He Hd1) as (w2 & R2 & Hg2 & Hd2).
  exists w2. split.
  - eapply runs_bind; [exact Rg|]. eapply runs_bind; [exact R1|]. by rewrite Hch.
  - constructor; [done|done|]. exists p0, (mkBG [] (bg_channels p)), ((bg_buf p0 ++ l) ++ bs). cbn [bs_world bg_buf bg_channels].
    split_and!; try done; [by rewrite Hg2|]. by rewrite app_nil_r, app_assoc.
Qed.

(** The stream of a group satisfies the laws of output streams, so everything that is proved of
    writers holds for events sent to all clients. *)
Program Definition broadcast_laws (w0 : World) (g : Z) : OutputStreamLaws (Broadcast IS OS U) :=
  {| emits := group_emits w0 g; os_sym := os_sym (OS := OS) |}.
Next Obligation. intros w0 g b Hb. by apply os_sym_byte. Qed.
Next Obligation. intros w0 g b Hb. by apply os_sym_range. Qed.
Next Obligation.
  intros w0 g s l b He Hb. destruct (group_run w0 g (write_stream b) [b] s l He (writes_stream b Hb)) as (w' & R & He').
  exists (mkBroadcast (bs_group s) w'). split; [|done]. cbn. unfold on_world, write_all. unfold runs in R. by rewrite R.
Qed.
Next Obligation.
  intros w0 g s l bs He Hb. destruct (group_run w0 g (os_write_block bs) bs s l He) as (w' & R & He').
  { intros o t Ht. by apply emits_write_block. }
  exists (mkBroadcast (bs_group s) w'). split; [|done]. cbn. unfold on_world, write_block_all. unfold runs in R. by rewrite R.
Qed.
Next Obligation.
  intros w0 g s l bs [<- Hopen (p0 & p & l1 & Hp0 & Hnd & Hgr & Hch & Hb & Hl & Hd)] Hbs _ _. constructor; [done|done|].
  exists p0, (mkBG (bg_buf p ++ bs) (bg_channels p)), l1. cbn. rewrite Hgr, alter_insert_eq. split_and!; try done.
  - by rewrite Forall_app.
  - by rewrite !app_assoc, Hl.
  - destruct Hd as [Hs Ho Hme Hu]. by constructor.
Qed.

Lemma group_start w g p : w_groups w !! g = Some p -> NoDup (bg_channels p) -> bytes (bg_buf p) ->
  (forall c, c ∈ bg_channels p -> hears w c = true -> exists t, emits (ch_out (w_channels w c)) t) ->
  group_emits w g (mkBroadcast g w) [].
Proof.
  intros Hp Hnd Hb He. constructor; [done| |].
  - intros c (p' & Hp' & Hc). rewrite Hp in Hp'. injection Hp' as <-. by apply He.
  - exists p, p, []. cbn. rewrite insert_id by done. split_and!; try done; [by rewrite app_nil_r|]. apply delivered_refl.
Qed.
End Broadcast.

(** ** The property *)

(** C24: A message written to the stream of a broadcast group reaches every channel of the group that
    listens: its stream gets what was in the buffer of the group, then the message and its end, after
    what had been written to it; the buffer is empty afterwards, and no other channel and no state of a
    channel has changed.  The message is anything that is written through the functions of streams. *)
Theorem broadcast_delivers {IS OS U} `{OutputStreamLaws OS} (m : forall S, OutputStream S -> M S unit) bs
    (w : World IS OS U) g p :
  (forall S (ops : OutputStream S) (laws : OutputStreamLaws S), writes (m S ops) bs) ->
  os_sym (OS := OS) MARKER_EOM -> w_groups w !! g = Some p -> NoDup (bg_channels p) -> bytes (bg_buf p) ->
  (forall c, c ∈ bg_channels p -> hears w c = true -> exists t, emits (ch_out (w_channels w c)) t) ->
  exists w', runs (m _ broadcast_output ;! write_stream MARKER_EOM) (mkBroadcast g w) tt (mkBroadcast g w') /\
    w_groups w' !! g = Some (mkBG [] (bg_channels p)) /\
    (forall c, ch_state (w_channels w' c) = ch_state (w_channels w c)) /\
    (forall c, c ∉ bg_channels p \/ hears w c = false -> w_channels w' c = w_channels w c) /\
    (forall c, c ∈ bg_channels p -> hears w c = true -> exists o, w_channels w' c = set_out o (w_channels w c) /\
       forall t, emits (ch_out (w_channels w c)) t -> emits o (t ++ bg_buf p ++ bs ++ [MARKER_EOM])).
Proof.
  intros Hm Heom Hp Hnd Hb He. set (L := broadcast_laws (IS := IS) (U := U) w g).
  destruct (writes_bind (os_laws := L) _ _ _ _ (Hm _ _ L) (writes_stream (os_laws := L) MARKER_EOM Heom)
    (mkBroadcast g w) [] (group_start w g p Hp Hnd Hb He)) as ([g' w'] & R & He').
  destruct He' as [Hn _ (p0 & q & l1 & Hp0 & _ & Hgr & Hch & Hbq & Hl & Hd)].
  cbn [bs_group bs_world] in *. subst g'. rewrite Hp in Hp0. injection Hp0 as <-.
  assert (bg_buf q = []) as Eq.
  { destruct (bg_buf q) as [|x b _] eqn:E using rev_ind; [done|]. exfalso. cbn [app] in Hl. rewrite !app_assoc in Hl.
    apply app_inj_tail in Hl as [_ <-]. apply Forall_app in Hbq as [_ Hx]. inversion Hx as [|? ? Hx' _]. unfold is_byte, MARKER_EOM in Hx'. lia. }
  rewrite Eq, app_nil_r in Hl. cbn [app] in Hl. subst l1. exists w'. split; [done|]. split; [|split; [|split]]; [|by apply Hd..].
  rewrite Hgr, lookup_insert_eq. destruct q; cbn in *; by subst.
Qed.

(** Three channels of a group, one of them not connected yet, and one that is not a member; an event of
    the process service. *)
Definition demo_channel (st : ChannelState) (zc : bool) (g : Z) : Channel ByteArrayInputStream ChannelTCP :=
  mkChannel (create_byte_array_input_stream []) (new_output zc) g 1 None None 0 st false false.

Definition demo_world : World ByteArrayInputStream ChannelTCP unit :=
  mkWorld (fun c => if c =? 1 then demo_channel ChannelStateConnected true 7
                    else if c =? 2 then demo_channel ChannelStateHelloSent false 7
                    else if c =? 3 then demo_channel ChannelStateRedirectSent false 7
                    else demo_channel ChannelStateConnected false 0)
    [] [] [] {[7 := mkBG (str "E") [1; 2; 3]]} [4; 3; 2; 1] 0 ([], 0%N) tt.

Definition demo_event (S : Type) (ops : OutputStream S) : M S unit :=
  write_stringz (str "Processes") ;! json_write_string (Some (str "P1")) ;! write_stream 0.

Lemma broadcast_delivers_witness :
  exists w', runs (demo_event _ broadcast_output ;! write_stream MARKER_EOM) (mkBroadcast 7 demo_world) tt (mkBroadcast 7 w') /\
    w_groups w' !! 7 = Some (mkBG [] [1; 2; 3]) /\
    (forall c, ch_state (w_channels w' c) = ch_state (w_channels demo_world c)) /\
    (forall c, c ∉ [1; 2; 3] \/ hears demo_world c = false -> w_channels w' c = w_channels demo_world c) /\
    (forall c, c ∈ [1; 2; 3] -> hears demo_world c = true -> exists o, w_channels w' c = set_out o (w_channels demo_world c) /\
       forall t, emits (ch_out (w_channels demo_world c)) t ->
         emits o (t ++ str "E" ++ ((str "Processes" ++ [0]) ++ string_text (Some (str "P1")) ++ [0]) ++ [MARKER_EOM])).
Proof.
  apply (broadcast_delivers demo_event ((str "Processes" ++ [0]) ++ string_text (Some (str "P1")) ++ [0]) demo_world 7
    (mkBG (str "E") [1; 2; 3])).
  - intros S ops laws. apply writes_bind; [apply writes_stringz_lem, str_bytes|].
    apply writes_bind; [apply writes_json_string, str_writable; by vm_compute|apply writes_byte; unfold is_byte; lia].
  - exact sym_eom.
  - done.
  - apply (bool_decide_unpack _). vm_compute. exact I.
  - apply str_bytes.
  - intros c _ _. exists []. cbn [w_channels demo_world]. repeat case_match; apply new_output_emits.
Defined.

(** ** Membership *)

(** The functions that change who is in which group. *)
Inductive group_op := OpGroupAlloc (g : Z) | OpGroupFree (g : Z) | OpGroupSet (c g : Z) | OpGroupClear (c : Z).

Section Members.
Context {IS OS U : Type}.

Notation World := (World IS OS U).
Implicit Types w : World.

Definition group_exec (op : group_op) : M World unit :=
  match op with
  | OpGroupAlloc g => broadcast_group_alloc g
  | OpGroupFree g => broadcast_group_free g
  | OpGroupSet c g => channel_set_broadcast_group c g
  | OpGroupClear c => channel_clear_broadcast_group c
  end.

(** The conditions: a new object has an address of its own, and a group is used while it exists. *)
Definition group_pre (op : group_op) (w : World) : Prop :=
  match op with
  | OpGroupAlloc g => g <> 0 /\ w_groups w !! g = None
  | OpGroupFree g | OpGroupSet _ g => is_Some (w_groups w !! g)
  | OpGroupClear _ => True
  end.

(** The field [bcg] of the channel [c] after an operation, [b] being its value before. *)
Definition group_after (op : group_op) (c b : Z) : Z :=
  match op with
  | OpGroupAlloc _ => b
  | OpGroupFree g => if b =? g then 0 else b
  | OpGroupSet d g => if c =? d then g else b
  | OpGroupClear d => if c =? d then 0 else b
  end.

(** The lists of the groups and the fields of the channels agree. *)
Record members_ok (w : World) : Prop := {
  mo_group g p : w_groups w !! g = Some p -> g <> 0 /\ NoDup (bg_channels p) /\
    forall c, c ∈ bg_channels p <-> ch_bcg (w_channels w c) = g;
  mo_channel c : ch_bcg (w_channels w c) <> 0 -> is_Some (w_groups w !! ch_bcg (w_channels w c)) }.

Lemma get_group_runs w g p : w_groups w !! g = Some p -> runs (get_group g) w p w.
Proof. intros Hg. eapply runs_bind; [apply runs_gets|]. cbn beta. rewrite Hg. apply runs_ret. Qed.

Lemma bcg_upd c g d w : ch_bcg (w_channels (upd_channel c (set_bcg g) w) d) = if d =? c then g else ch_bcg (w_channels w d).
Proof. cbn. by destruct (d =? c). Qed.

Lemma free_group_runs g l : NoDup l -> forall w, (forall c, c ∈ l -> ch_bcg (w_channels w c) = g) ->
  exists w', runs (free_group_loop g l) w tt w' /\ w_groups w' = w_groups w /\
    forall c, ch_bcg (w_channels w' c) = if decide (c ∈ l) then 0 else ch_bcg (w_channels w c).
Proof.
  induction 1 as [|c l Hc Hl IH]; intros w Hw.
  - exists w. split; [apply runs_ret|]. split; [done|]. intros c. by rewrite decide_False by (by intros ?%elem_of_nil).
  - destruct (IH (upd_channel c (set_bcg 0) w)) as (w' & R & Hg & Hb).
    { intros d Hd. rewrite bcg_upd. destruct (Z.eqb_spec d c) as [->|]; [done|]. apply Hw. by right. }
    exists w'. split; [|split; [done|]].
    + eapply runs_bind; [apply runs_gets|]. eapply runs_bind; [apply runs_cassert; apply Z.eqb_eq, Hw; by left|].
      eapply runs_bind; [apply runs_modify|]. exact R.
    + intros d. rewrite Hb, bcg_upd. destruct (Z.eqb_spec d c) as [->|Hd].
      * rewrite (decide_True (P := c ∈ c :: l)) by (by left). by case_decide.
      * do 2 case_decide; try done; [by destruct H0; right|]. by apply elem_of_cons in H0 as [->|].
Qed.

Lemma clear_group_runs c w : members_ok w ->
  exists w', runs (channel_clear_broadcast_group c) w tt w' /\ members_ok w' /\
    (forall g, is_Some (w_groups w !! g) -> is_Some (w_groups w' !! g)) /\
    forall d, ch_bcg (w_channels w' d) = if d =? c then 0 else ch_bcg (w_channels w d).
Proof.
  intros [Hgrp Hch]. destruct (Z.eqb_spec (ch_bcg (w_channels w c)) 0) as [E|E].
  - exists w. split; [|split; [done|split; [done|]]].
    + eapply runs_bind; [apply runs_gets|]. cbn beta. rewrite (proj2 (Z.eqb_eq _ _) E). apply runs_ret.
    + intros d. by destruct (Z.eqb_spec d c) as [->|].
  - destruct (Hch c E) as [p Hp]. destruct (Hgrp _ _ Hp) as (_ & Hnd & Hin). set (g := ch_bcg (w_channels w c)) in *.
    assert (Hdel : forall d, d ∈ List.filter (fun d => negb (d =? c)) (bg_channels p) <-> d ∈ bg_channels p /\ d <> c).
    { intros d. rewrite list_elem_of_In, filter_In, <- list_elem_of_In. destruct (Z.eqb_spec d c); naive_solver. }
    eexists. split; [|split; [|split]].
    + eapply runs_bind; [apply runs_gets|]. cbn beta. fold g. rewrite (proj2 (Z.eqb_neq _ _) E).
      eapply runs_bind; [by apply get_group_runs|]. eapply runs_bind; [apply runs_modify|]. apply runs_modify.
    + constructor.
      * intros g' p'. cbn [w_groups upd_channel set_groups]. rewrite lookup_insert_Some. intros [[<- <-]|[Hg' Hp']].
        -- split; [done|]. split; [by apply NoDup_ListNoDup, List.NoDup_filter, NoDup_ListNoDup|]. cbn [bg_channels]. intros d.
           rewrite bcg_upd, Hdel, Hin. cbn. destruct (Z.eqb_spec d c) as [->|]; [|by intuition]. split; [by intros [_ ?]|congruence].
        -- destruct (Hgrp _ _ Hp') as (Hz & Hnd' & Hin'). split; [done|]. split; [done|]. intros d. rewrite bcg_upd, Hin'. cbn.
           destruct (Z.eqb_spec d c) as [->|]; [|done]. fold g. split; [congruence|]. intros <-. done.
      * intros d. rewrite bcg_upd. cbn [w_groups upd_channel set_groups]. destruct (d =? c); [done|]. intros Hd. cbn in Hd |- *.
        rewrite lookup_insert_is_Some'. right. by apply Hch.
    + intros g'. cbn [w_groups upd_channel set_groups]. rewrite lookup_insert_is_Some'. by right.
    + intros d. by rewrite bcg_upd.
Qed.

Lemma set_group_runs c g w : members_ok w -> is_Some (w_groups w !! g) -> ch_bcg (w_channels w c) = 0 ->
  exists w', runs (let! p := get_group g in
    modify (fun w => set_groups (<[g := mkBG (bg_buf p) (bg_channels p ++ [c])]> (w_groups w)) w) ;!
    modify (upd_channel c (set_bcg g))) w tt w' /\ members_ok w' /\
    forall d, ch_bcg (w_channels w' d) = if d =? c then g else ch_bcg (w_channels w d).
Proof.
  intros [Hgrp Hch] [p Hp] H0. destruct (Hgrp _ _ Hp) as (Hz & Hnd & Hin). eexists. split; [|split].
  - eapply runs_bind; [by apply get_group_runs|]. eapply runs_bind; [apply runs_modify|]. apply runs_modify.
  - constructor.
    + intros g' p'. cbn [w_groups upd_channel set_groups]. rewrite lookup_insert_Some. intros [[<- <-]|[Hg' Hp']].
      * split; [done|]. cbn [bg_channels]. split.
        -- rewrite NoDup_app. split; [done|]. split; [|apply NoDup_singleton]. intros d Hd ->%list_elem_of_singleton. apply Hin in Hd. congruence.
        -- intros d. rewrite bcg_upd, elem_of_app, Hin, list_elem_of_singleton. cbn. destruct (Z.eqb_spec d c); intuition congruence.
      * destruct (Hgrp _ _ Hp') as (Hz' & Hnd' & Hin'). split; [done|]. split; [done|]. intros d. rewrite bcg_upd, Hin'. cbn.
        destruct (Z.eqb_spec d c) as [->|]; [|done]. split; congruence.
    + intros d. rewrite bcg_upd. cbn [w_groups upd_channel set_groups]. rewrite lookup_insert_is_Some'.
      destruct (d =? c); [by left|]. intros Hd. right. by apply Hch.
  - intros d. by rewrite bcg_upd.
Qed.
End Members.

(** C25: Channels and groups agree on who is a member: if every channel is listed once by the group its
    field names and by no other, creating or freeing a group, and putting a channel into a group or taking
    it out, run without a fault, keep that, and move exactly the channels they are meant to move. *)
Theorem broadcast_membership {IS OS U} op (w : World IS OS U) : members_ok w -> group_pre op w ->
  exists w', runs (group_exec op) w tt w' /\ members_ok w' /\
    forall c, ch_bcg (w_channels w' c) = group_after op c (ch_bcg (w_channels w c)).
Proof.
  intros Hok Hpre. destruct op as [g|g|c g|c]; cbn [group_exec group_pre group_after] in *.
  - destruct Hpre as [Hz Hn]. destruct Hok as [Hgrp Hch]. eexists. split; [apply runs_modify|]. split; [|done]. constructor.
    + intros g' p'. cbn [w_groups set_groups]. rewrite lookup_insert_Some. intros [[<- <-]|[_ Hp']]; [|by apply Hgrp].
      split; [done|]. split; [apply NoDup_nil_2|]. intros c. split; [by intros ?%elem_of_nil|]. intros E.
      destruct (Hch c) as [x Hx]; [cbn in E; by rewrite E|]. cbn in E. rewrite E in Hx. congruence.
    + intros c Hc. cbn [w_groups set_groups]. rewrite lookup_insert_is_Some'. right. by apply Hch.
  - destruct Hpre as [p Hp]. destruct Hok as [Hgrp Hch]. destruct (Hgrp g p Hp) as (Hz & Hnd & Hin).
    destruct (free_group_runs g (bg_channels p) Hnd w) as (w1 & R & Hg1 & Hb1); [by intros c ?%Hin|].
    assert (Hb : forall c, ch_bcg (w_channels w1 c) = if ch_bcg (w_channels w c) =? g then 0 else ch_bcg (w_channels w c)).
    { intros c. rewrite Hb1. destruct (Z.eqb_spec (ch_bcg (w_channels w c)) g) as [E|E]; case_decide as D; try done; [by destruct D; apply Hin|].
      by apply Hin in D. }
    eexists. split; [eapply runs_bind; [by apply get_group_runs|]; eapply runs_bind; [exact R|apply runs_modify]|]. split; [|done].
    constructor; cbn [w_groups set_groups w_channels]; rewrite Hg1.
    + intros g' p'. rewrite lookup_delete_Some. intros [Hne Hp']. destruct (Hgrp _ _ Hp') as (Hz' & Hnd' & Hin').
      split; [done|]. split; [done|]. intros c. rewrite Hb, Hin'. destruct (Z.eqb_spec (ch_bcg (w_channels w c)) g); split; congruence.
    + intros c. rewrite Hb. destruct (Z.eqb_spec (ch_bcg (w_channels w c)) g) as [|Hne]; [done|]. intros Hc.
      rewrite lookup_delete_ne by congruence. by apply Hch.
  - destruct (Z.eqb_spec (ch_bcg (w_channels w c)) 0) as [E|E].
    + destruct (set_group_runs c g w Hok Hpre E) as (w' & R & Hok' & Hb). exists w'. split; [|done].
      eapply runs_bind; [apply runs_gets|]. cbn beta. rewrite (proj2 (Z.eqb_eq _ _) E). eapply runs_bind; [apply runs_ret|exact R].
    + destruct (clear_group_runs c w Hok) as (w1 & R1 & Hok1 & Hs1 & Hb1).
      destruct (set_group_runs c g w1 Hok1 (Hs1 g Hpre)) as (w' & R & Hok' & Hb); [by rewrite Hb1, Z.eqb_refl|].
      exists w'. split; [|split; [done|]].
      * eapply runs_bind; [apply runs_gets|]. cbn beta. rewrite (proj2 (Z.eqb_neq _ _) E). eapply runs_bind; [exact R1|exact R].
      * intros d. rewrite Hb, Hb1. by destruct (d =? c).
  - destruct (clear_group_runs c w Hok) as (w' & R & Hok' & _ & Hb). by exists w'.
Qed.

Lemma broadcast_membership_witness :
  exists w', runs (group_exec (OpGroupSet 2 9)) (set_groups (<[9 := mkBG [] []]> (w_groups demo_world)) demo_world) tt w' /\
    members_ok w' /\
    forall c, ch_bcg (w_channels w' c) = group_after (OpGroupSet 2 9) c (ch_bcg (w_channels demo_world c)).
Proof.
  apply (broadcast_membership (OpGroupSet 2 9) (set_groups (<[9 := mkBG [] []]> (w_groups demo_world)) demo_world)); [|by eexists].
  constructor.
  - intros g p. cbn [w_groups set_groups demo_world]. rewrite lookup_insert_Some, lookup_singleton_Some.
    intros [[<- <-]|[_ [<- <-]]]; (split; [done|]).
    + split; [apply NoDup_nil_2|]. intros c. split; [by intros ?%elem_of_nil|]. cbn. repeat case_match; done.
    + split; [apply (bool_decide_unpack _); vm_compute; exact I|]. intros c. cbn.
      destruct (Z.eqb_spec c 1), (Z.eqb_spec c 2), (Z.eqb_spec c 3); cbn; set_solver.
  - intros c. cbn. destruct (Z.eqb_spec c 1), (Z.eqb_spec c 2), (Z.eqb_spec c 3); cbn; intros; try done; by eexists.
Defined.
