(* ===== verification/Protocol.v ===== *)
(** * The communication protocol (framework/protocol.c)

    Registration of command, event and reply handlers, dispatch of messages to them, the exchange of
    Hello messages, and what remains when a channel is closed.  Handlers are functions of other parts
    of the program: a function pointer is a number or one of the functions of this file, and the
    parameters of the section give the behaviour of the functions behind the numbers.  They may change
    the state in any way.  The hash tables are arrays of lists, a bucket beginning with the entry that
    was added last. *)

From S2P Require Import Prelude Streams JsonWrite JsonRead Channel.

(** ** Data *)

(** [ProtocolCommandHandler2], [ProtocolEventHandler2] and [ProtocolMessageHandler2]: a function of
    another file, or the wrapper for a function without client data, which is then the client data. *)
Inductive CommandHandler := CommandHandler2 (h : Z) | command_handler_old.
Inductive EventHandler := EventHandler2 (h : Z) | event_handler_old.
Inductive MessageHandler := NoMessageHandler | MessageHandler2 (h : Z) | message_handler_old.

(** [ReplyHandlerCB]; the client data of [redirect_done] is a [struct sendRedirectInfo], whose
    [handler] is the argument of the constructor. *)
Inductive ReplyHandler := NoReplyHandler | ReplyHandlerCB (h : Z) | redirect_done_handler (h : Z).

(** [struct ServiceInfo]; [si_ptr] is its address. *)
Record ServiceInfo := mkService { si_ptr : Z; si_owner : Z; si_name : list Z }.

Record MessageHandlerInfo := mkMH {
  mh_p : Z; mh_service : Z; mh_name : list Z; mh_handler : CommandHandler; mh_client_data : Z }.

Record EventHandlerInfo := mkEH {
  eh_c : Z; eh_service : Z; eh_name : list Z; eh_handler : EventHandler; eh_client_data : Z }.

(** [rh_ptr] is the address. *)
Record ReplyHandlerInfo := mkRH {
  rh_ptr : Z; rh_tokenid : Z; rh_c : Z; rh_handler : ReplyHandler; rh_progress : option Z; rh_client_data : Z }.

Record Protocol := mkProtocol {
  p_id : Z; p_lock_cnt : Z; p_tokenid : Z; p_default_handler : MessageHandler; p_client_data : Z }.

Definition MEM_USAGE_FACTOR : Z := 32.
Definition MESSAGE_HASH_SIZE : Z := 5 * MEM_USAGE_FACTOR - 1.
Definition EVENT_HASH_SIZE : Z := 4 * MEM_USAGE_FACTOR - 1.
Definition REPLY_HASH_SIZE : Z := 4 * MEM_USAGE_FACTOR - 1.

(** The static variables; [ps_protocols] is the memory of [struct Protocol] objects, [ps_next] an address
    that has not been used, [ps_failed] the arguments of the posted [send_command_failed] events. *)
Record ProtocolState (V : Type) := mkPS {
  ps_messages : list (list MessageHandlerInfo);
  ps_events : list (list EventHandlerInfo);
  ps_replies : list (list ReplyHandlerInfo);
  ps_services : list ServiceInfo;
  ps_protocols : gmap Z Protocol;
  ps_ini_done : bool;
  ps_proto_cnt : Z;
  ps_agent_id : list Z;
  ps_next : Z;
  ps_failed : list ReplyHandlerInfo;
  ps_rest : V }.
Arguments mkPS {V}.
Arguments ps_messages {V}.
Arguments ps_events {V}.
Arguments ps_replies {V}.
Arguments ps_services {V}.
Arguments ps_protocols {V}.
Arguments ps_ini_done {V}.
Arguments ps_proto_cnt {V}.
Arguments ps_agent_id {V}.
Arguments ps_next {V}.
Arguments ps_failed {V}.
Arguments ps_rest {V}.

(** ** Tables *)

Section Tables.
Context {V : Type}.

Notation PS := (ProtocolState V).
Notation P := (M (ProtocolState V)).

Definition set_messages (t : list (list MessageHandlerInfo)) (s : PS) : PS :=
  mkPS t (ps_events s) (ps_replies s) (ps_services s) (ps_protocols s) (ps_ini_done s) (ps_proto_cnt s)
    (ps_agent_id s) (ps_next s) (ps_failed s) (ps_rest s).
Definition set_events (t : list (list EventHandlerInfo)) (s : PS) : PS :=
  mkPS (ps_messages s) t (ps_replies s) (ps_services s) (ps_protocols s) (ps_ini_done s) (ps_proto_cnt s)
    (ps_agent_id s) (ps_next s) (ps_failed s) (ps_rest s).
Definition set_replies (t : list (list ReplyHandlerInfo)) (s : PS) : PS :=
  mkPS (ps_messages s) (ps_events s) t (ps_services s) (ps_protocols s) (ps_ini_done s) (ps_proto_cnt s)
    (ps_agent_id s) (ps_next s) (ps_failed s) (ps_rest s).
Definition set_services (l : list ServiceInfo) (s : PS) : PS :=
  mkPS (ps_messages s) (ps_events s) (ps_replies s) l (ps_protocols s) (ps_ini_done s) (ps_proto_cnt s)
    (ps_agent_id s) (ps_next s) (ps_failed s) (ps_rest s).
Definition set_protocols (m : gmap Z Protocol) (s : PS) : PS :=
  mkPS (ps_messages s) (ps_events s) (ps_replies s) (ps_services s) m (ps_ini_done s) (ps_proto_cnt s)
    (ps_agent_id s) (ps_next s) (ps_failed s) (ps_rest s).
Definition set_ini (done : bool) (id : list Z) (s : PS) : PS :=
  mkPS (ps_messages s) (ps_events s) (ps_replies s) (ps_services s) (ps_protocols s) done (ps_proto_cnt s)
    id (ps_next s) (ps_failed s) (ps_rest s).
Definition set_proto_cnt (n : Z) (s : PS) : PS :=
  mkPS (ps_messages s) (ps_events s) (ps_replies s) (ps_services s) (ps_protocols s) (ps_ini_done s) n
    (ps_agent_id s) (ps_next s) (ps_failed s) (ps_rest s).
Definition set_next (n : Z) (s : PS) : PS :=
  mkPS (ps_messages s) (ps_events s) (ps_replies s) (ps_services s) (ps_protocols s) (ps_ini_done s) (ps_proto_cnt s)
    (ps_agent_id s) n (ps_failed s) (ps_rest s).
Definition set_failed (l : list ReplyHandlerInfo) (s : PS) : PS :=
  mkPS (ps_messages s) (ps_events s) (ps_replies s) (ps_services s) (ps_protocols s) (ps_ini_done s) (ps_proto_cnt s)
    (ps_agent_id s) (ps_next s) l (ps_rest s).

(** [loc_alloc]: addresses are not used again, so that a pointer to freed memory is never valid. *)
Definition new_address : P Z :=
  let! n := gets ps_next in
  modify (set_next (n + 1)) ;!
  ret n.

(** The access to a protocol. *)
Definition get_protocol (p : Z) : P Protocol :=
  let! m := gets ps_protocols in
  match m !! p with Some x => ret x | None => fault end.

Definition put_protocol (p : Z) (x : Protocol) : P unit :=
  modify (fun s => set_protocols (<[p := x]> (ps_protocols s)) s).

(** [s->name] of a service. *)
Definition service_name (ptr : Z) : P (list Z) :=
  let! l := gets ps_services in
  match List.find (fun s => si_ptr s =? ptr) l with Some s => ret (si_name s) | None => fault end.

Definition protocol_get_service (owner : Z) (name : list Z) : P Z :=
  let! l := gets ps_services in
  match List.find (fun s => (si_owner s =? owner) && streq (si_name s) name) l with
  | Some s => ret (si_ptr s)
  | None =>
      cassert (negb (streq name (str "ZeroCopy"))) ;!
      let! ptr := new_address in
      modify (fun s => set_services (mkService ptr owner name :: ps_services s) s) ;!
      ret ptr
  end.

Definition free_services (owner : Z) : P unit :=
  modify (fun s => set_services (List.filter (fun x => negb (si_owner x =? owner)) (ps_services s)) s).

(** [h += s[i]] for all characters, which are signed. *)
Definition hash_chars (h : Z) (s : list Z) : Z :=
  fold_left (fun h ch => uwrap 32 (h + swrap 8 ch)) s h.

Definition hash_string (size p : Z) (service name : list Z) : Z :=
  let h := hash_chars (hash_chars (Z.shiftr (uwrap 32 p) 4) service) name in
  let h := uwrap 32 (h + h / size) in
  h mod size.

Definition message_hash (p : Z) (service name : list Z) : Z := hash_string MESSAGE_HASH_SIZE p service name.
Definition event_hash (c : Z) (service name : list Z) : Z := hash_string EVENT_HASH_SIZE c service name.

(** A bucket of a table. *)
Definition bucket {A} (t : list (list A)) (h : Z) : list A := nth (Z.to_nat h) t [].
Definition set_bucket {A} (h : Z) (b : list A) (t : list (list A)) : list (list A) := <[Z.to_nat h := b]> t.

(** The walk along a bucket; the name of the service is looked at when the owner is right. *)
Fixpoint find_mh (p : Z) (service name : list Z) (l : list MessageHandlerInfo) : P (option MessageHandlerInfo) :=
  match l with
  | [] => ret None
  | mh :: l' =>
      if mh_p mh =? p then
        let! s := service_name (mh_service mh) in
        if streq s service && streq (mh_name mh) name then ret (Some mh) else find_mh p service name l'
      else find_mh p service name l'
  end.

Definition find_message_handler (p : Z) (service name : list Z) : P (option MessageHandlerInfo) :=
  let! t := gets ps_messages in
  find_mh p service name (bucket t (message_hash p service name)).

Fixpoint find_eh (c : Z) (service name : list Z) (l : list EventHandlerInfo) : P (option EventHandlerInfo) :=
  match l with
  | [] => ret None
  | eh :: l' =>
      if eh_c eh =? c then
        let! s := service_name (eh_service eh) in
        if streq s service && streq (eh_name eh) name then ret (Some eh) else find_eh c service name l'
      else find_eh c service name l'
  end.

Definition find_event_handler (c : Z) (service name : list Z) : P (option EventHandlerInfo) :=
  let! t := gets ps_events in
  find_eh c service name (bucket t (event_hash c service name)).

Definition reply_hash (c tokenid : Z) : Z :=
  uwrap 32 (Z.shiftr (uwrap 32 c) 4 + uwrap 32 tokenid) mod REPLY_HASH_SIZE.

(** The search of a bucket for a reply handler: the handler, and the bucket without it. *)
Fixpoint find_rh (c tokenid : Z) (l : list ReplyHandlerInfo) : option (ReplyHandlerInfo * list ReplyHandlerInfo) :=
  match l with
  | [] => None
  | rh :: l' =>
      if (rh_c rh =? c) && (rh_tokenid rh =? tokenid) then Some (rh, l')
      else match find_rh c tokenid l' with
           | Some (x, rest) => Some (x, rh :: rest)
           | None => None
           end
  end.

Definition find_reply_handler (c tokenid : Z) (take : bool) : P (option ReplyHandlerInfo) :=
  let! t := gets ps_replies in
  let h := reply_hash c tokenid in
  match find_rh c tokenid (bucket t h) with
  | Some (rh, rest) =>
      (if take then modify (fun s => set_replies (set_bucket h rest (ps_replies s)) s) else ret tt) ;!
      ret (Some rh)
  | None => ret None
  end.

Definition add_command_handler2 (p : Z) (service name : list Z) (h : CommandHandler) (client_data : Z) : P unit :=
  let hash := message_hash p service name in
  let! s := protocol_get_service p service in
  modify (fun st => set_messages
    (set_bucket hash (mkMH p s name h client_data :: bucket (ps_messages st) hash) (ps_messages st)) st).

Definition add_command_handler (p : Z) (service name : list Z) (h : Z) : P unit :=
  add_command_handler2 p service name command_handler_old h.

Definition add_event_handler2 (c : Z) (service name : list Z) (h : EventHandler) (client_data : Z) : P unit :=
  let hash := event_hash c service name in
  let! s := protocol_get_service c service in
  modify (fun st => set_events
    (set_bucket hash (mkEH c s name h client_data :: bucket (ps_events st) hash) (ps_events st)) st).

Definition add_event_handler (c : Z) (service name : list Z) (h : Z) : P unit :=
  add_event_handler2 c service name event_handler_old h.

Definition set_default_message_handler2 (p : Z) (h : MessageHandler) (client_data : Z) : P unit :=
  let! x := get_protocol p in
  put_protocol p (mkProtocol (p_id x) (p_lock_cnt x) (p_tokenid x) h client_data).

Definition set_default_message_handler (p h : Z) : P unit :=
  set_default_message_handler2 p message_handler_old h.

(** The event handlers and the services of a channel that is closed. *)
Definition close_handlers (c : Z) : P unit :=
  modify (fun s => set_events (map (List.filter (fun eh => negb (eh_c eh =? c))) (ps_events s)) s) ;!
  free_services c.

(** [protocol_alloc], after [ini_protocol]. *)
Definition new_protocol : P Z :=
  let! p := new_address in
  let! id := gets ps_proto_cnt in
  modify (set_proto_cnt (swrap 32 (id + 1))) ;!
  put_protocol p (mkProtocol id 1 1 NoMessageHandler 0) ;!
  ret p.

Definition protocol_reference (p : Z) : P unit :=
  let! x := get_protocol p in
  cassert (0 <? p_lock_cnt x) ;!
  put_protocol p (mkProtocol (p_id x) (swrap 32 (p_lock_cnt x + 1)) (p_tokenid x) (p_default_handler x) (p_client_data x)).

Definition protocol_release (p : Z) : P unit :=
  let! x := get_protocol p in
  cassert (0 <? p_lock_cnt x) ;!
  put_protocol p (mkProtocol (p_id x) (p_lock_cnt x - 1) (p_tokenid x) (p_default_handler x) (p_client_data x)) ;!
  if negb (p_lock_cnt x - 1 =? 0) then ret tt
  else
    modify (fun s => set_messages (map (List.filter (fun mh => negb (mh_p mh =? p))) (ps_messages s)) s) ;!
    free_services p ;!
    modify (fun s => set_protocols (delete p (ps_protocols s)) s).

(** The loop that finds a token for a command. *)
Fixpoint next_token (n : nat) (c p : Z) : P Z :=
  match n with
  | O => nofuel
  | S n' =>
      let! x := get_protocol p in
      let tokenid := p_tokenid x in
      put_protocol p (mkProtocol (p_id x) (p_lock_cnt x) (uwrap 64 (tokenid + 1)) (p_default_handler x) (p_client_data x)) ;!
      let! rh := find_reply_handler c tokenid false in
      match rh with Some _ => next_token n' c p | None => ret tokenid end
  end.

(** Enough for all tokens that are in use. *)
Definition token_fuel (s : PS) : nat := S (length (concat (ps_replies s))).

(** [get_service_manager_id]: the string in a buffer of 256 bytes. *)
Definition get_service_manager_id (p : Z) : P (list Z) :=
  let! x := get_protocol p in
  let! id := gets ps_agent_id in
  ret (take 255 (id ++ ch_minus :: long_text (p_id x))).

End Tables.

(** ** Messages *)

(** [strtoul(s, &endptr, 10)]: the value, [errno != 0], and the string at [endptr]. *)
Fixpoint skip_spaces (s : list Z) : list Z :=
  match s with
  | ch :: s' => if isspace ch then skip_spaces s' else s
  | [] => []
  end.

Fixpoint span_digits (s : list Z) : list Z * list Z :=
  match s with
  | ch :: s' => if is_digit ch then let '(d, r) := span_digits s' in (ch :: d, r) else ([], s)
  | [] => ([], [])
  end.

Definition strtoul (s : list Z) : Z * bool * list Z :=
  let s1 := skip_spaces s in
  let neg := deref s1 =? ch_minus in
  let s2 := if neg || (deref s1 =? ch_plus) then tl s1 else s1 in
  match span_digits s2 with
  | ([], _) => (0, false, s)
  | (ds, rest) =>
      let v := digits_value 0 ds in
      if v <? 2 ^ 64 then (if neg then uwrap 64 (- v) else v, false, rest) else (2 ^ 64 - 1, true, rest)
  end.

(** Output streams of channels: [supports_zero_copy] can be set. *)
Class ZeroCopy (OS : Type) `{OutputStream OS} := set_zero_copy : bool -> OS -> OS.

Section Protocol.
Context {IS OS V : Type} `{InputStream IS} `{ZeroCopy OS}.

Notation World := (World IS OS (ProtocolState V)).
Notation W := (M World).

(** The bound of the loops that read symbols or follow lists. *)
Variable fuel : nat.

(** The functions behind function pointers, with their arguments. *)
Variable call_command : Z -> list Z -> Z -> Z -> W unit.
Variable call_command_old : Z -> list Z -> Z -> W unit.
Variable call_event : Z -> Z -> Z -> W unit.
Variable call_event_old : Z -> Z -> W unit.
Variable call_message : Z -> Z -> list (list Z) -> Z -> W unit.
Variable call_message_old : Z -> Z -> list (list Z) -> W unit.
Variable call_reply : Z -> Z -> Z -> Z -> W unit.
Variable call_progress : Z -> Z -> Z -> W unit.
Variable call_connected : Z -> W unit.
Variable call_listener : Z -> Z -> W unit.
Variable is_closed : Z -> World -> bool.
(** [read_errno] of json.c, and [create_uuid] of the operating system layer. *)
Variable read_errno : Z -> W Z.
Variable create_uuid : list Z.

Definition call_command_handler (h : CommandHandler) (token : list Z) (c client_data : Z) : W unit :=
  match h with
  | CommandHandler2 h => call_command h token c client_data
  | command_handler_old => call_command_old client_data token c
  end.

Definition call_event_handler (h : EventHandler) (c client_data : Z) : W unit :=
  match h with
  | EventHandler2 h => call_event h c client_data
  | event_handler_old => call_event_old client_data c
  end.

(** The call of the default handler, which is not null. *)
Definition call_default_handler (h : MessageHandler) (c : Z) (args : list (list Z)) (client_data : Z) : W unit :=
  match h with
  | MessageHandler2 h => call_message h c args client_data
  | message_handler_old => call_message_old client_data c args
  | NoMessageHandler => fault
  end.

Definition has_default_handler (x : Protocol) : bool :=
  match p_default_handler x with NoMessageHandler => false | _ => true end.

(** [read_stringz]: the string in [str[size]]. *)
Fixpoint read_stringz_loop (n size : nat) (s : list Z) : M IS (list Z) :=
  match n with
  | O => nofuel
  | S n' =>
      let! ch := read_stream in
      if ch <=? 0 then (if ch =? 0 then ret s else throw ERR_PROTOCOL)
      else read_stringz_loop n' size (if (length s <? size - 1)%nat then s ++ [ch] else s)
  end.

Definition read_stringz (size : nat) : M IS (list Z) := read_stringz_loop fuel size [].

Fixpoint skip_loop (n : nat) : M IS unit :=
  match n with
  | O => nofuel
  | S n' =>
      let! ch := read_stream in
      if ch =? MARKER_EOM then ret tt else if ch =? MARKER_EOS then ret tt else skip_loop n'
  end.

Definition skip_until_EOM (c : Z) : W unit := on_inp c (skip_loop fuel).

Definition set_channel_state (c : Z) (st : ChannelState) : W unit := modify (upd_channel c (set_state st)).

(** The reply to a command that cannot be handled. *)
Definition write_not_recognized (token : list Z) : M OS unit :=
  write_stringz (str "N") ;!
  write_stringz token ;!
  write_stream MARKER_EOM.

(** The protocol of a channel. *)
Definition channel_protocol (c : Z) : W Protocol :=
  let! p := chan c ch_protocol in
  on_user (get_protocol p).

Definition handle_command (c : Z) (type : list Z) : W Z :=
  let! token := on_inp c (read_stringz 256) in
  let! service := on_inp c (read_stringz 256) in
  let! name := on_inp c (read_stringz 256) in
  let! st := chan c ch_state in
  if negb (bool_decide (st = ChannelStateConnected)) then
    skip_until_EOM c ;!
    on_out c (write_not_recognized token) ;!
    ret 0
  else
    catch
      (let! p := chan c ch_protocol in
       let! mh := on_user (find_message_handler p service name) in
       match mh with
       | Some mh => call_command_handler (mh_handler mh) token c (mh_client_data mh) ;! ret 0
       | None =>
           let! x := channel_protocol c in
           if has_default_handler x then
             call_default_handler (p_default_handler x) c [type; token; service; name] (p_client_data x) ;! ret 0
           else
             skip_until_EOM c ;!
             on_out c (write_not_recognized token) ;!
             ret 0
       end)
      (fun error => ret error).

(** [notify_channel_opened] and the call of [connected]. *)
Definition connect_done (c : Z) : W unit :=
  let! st := chan c ch_state in
  cassert (bool_decide (st = ChannelStateConnected)) ;!
  notify_channel_opened call_listener fuel c ;!
  let! b := chan c ch_has_connected in
  if b : bool then call_connected c else ret tt.

Definition redirect_done (c : Z) (handler client_data error : Z) : W unit :=
  let! error :=
    (if error =? 0 then
       let! st := chan c ch_state in
       cassert (bool_decide (st = ChannelStateRedirectSent)) ;!
       let! error := read_errno c in
       on_json c (json_test_char fuel MARKER_EOM) ;!
       (if error =? 0 then
          set_channel_state c ChannelStateHelloSent ;!
          notify_channel_closed call_listener fuel c
        else set_channel_state c ChannelStateConnected) ;!
       ret error
     else
       let! st := chan c ch_state in
       (if bool_decide (st = ChannelStateRedirectSent) then set_channel_state c ChannelStateConnected
        else cassert (bool_decide (st = ChannelStateDisconnected))) ;!
       ret error) in
  call_reply handler c client_data error.

(** The call of a reply handler that is not null. *)
Definition call_reply_handler (h : ReplyHandler) (c client_data error : Z) : W unit :=
  match h with
  | ReplyHandlerCB h => call_reply h c client_data error
  | redirect_done_handler h => redirect_done c h client_data error
  | NoReplyHandler => fault
  end.

Definition has_reply_handler (rh : ReplyHandlerInfo) : bool :=
  match rh_handler rh with NoReplyHandler => false | _ => true end.

Definition handle_reply (c : Z) (type : list Z) : W Z :=
  let! token := on_inp c (read_stringz 256) in
  let progress := deref type =? ch_P in
  catch
    (let '(tokenid, errno, rest) := strtoul token in
     let! rh := (if errno || negb (deref rest =? 0) then ret None
                 else on_user (find_reply_handler c tokenid (negb progress))) in
     match rh with
     | None =>
         let! x := channel_protocol c in
         if has_default_handler x then
           call_default_handler (p_default_handler x) c [type; token] (p_client_data x) ;! ret 0
         else throw ERR_PROTOCOL
     | Some rh =>
         if progress then
           match rh_progress rh with
           | Some h => call_progress h c (rh_client_data rh)
           | None => skip_until_EOM c
           end ;!
           ret 0
         else
           let! n := (if deref type =? ch_N then skip_until_EOM c ;! ret ERR_INV_COMMAND else ret 0) in
           (if has_reply_handler rh then call_reply_handler (rh_handler rh) c (rh_client_data rh) n
            else skip_until_EOM c) ;!
           ret 0
     end)
    (fun error => ret error).

(** The loop of [event_locator_hello] over the names of the services. *)
Fixpoint hello_loop (n : nat) (c : Z) (services : list (list Z)) : W (list (list Z)) :=
  match n with
  | O => nofuel
  | S n' =>
      let! b := on_json c (json_read_alloc_string fuel) in
      match b with
      | None => fault  (* strcmp of a null pointer *)
      | Some b =>
          let service := cstr b in
          (if streq service (str "ZeroCopy") then on_out c (modify (set_zero_copy true)) else ret tt) ;!
          let! ch := on_json c (read_token fuel) in
          if ch =? ch_comma then hello_loop n' c (services ++ [service])
          else if ch =? ch_rbra then ret (services ++ [service])
          else throw ERR_JSON_SYNTAX
      end
  end.

Definition event_locator_hello (c : Z) : W unit :=
  on_out c (modify (set_zero_copy false)) ;!
  let! ch := on_json c (read_token fuel) in
  if negb (ch =? ch_lbra) then throw ERR_PROTOCOL
  else
    let! ch := on_inp c peek_stream in
    let! services :=
      (if ch =? ch_rbra then on_inp c read_stream ;! ret None
       else let! l := hello_loop fuel c [] in ret (Some l)) in
    let! ch := on_inp c read_stream in
    (if negb (ch =? 0) then throw ERR_JSON_SYNTAX
     else let! ch := on_inp c read_stream in
          if negb (ch =? MARKER_EOM) then throw ERR_JSON_SYNTAX else ret tt) ;!
    let! st := chan c ch_state in
    if negb (bool_decide (st = ChannelStateStarted)) && negb (bool_decide (st = ChannelStateHelloSent)) then ret tt
    else
      modify (upd_channel c (set_peer_services services)) ;!
      if bool_decide (st = ChannelStateStarted) then set_channel_state c ChannelStateHelloReceived
      else
        set_channel_state c ChannelStateConnected ;!
        connect_done c.

Definition LOCATOR : list Z := str "Locator".

Definition handle_event (c : Z) (type : list Z) : W Z :=
  let! service := on_inp c (read_stringz 256) in
  let! name := on_inp c (read_stringz 256) in
  catch
    (let! st := chan c ch_state in
     if (bool_decide (st = ChannelStateStarted) || bool_decide (st = ChannelStateHelloSent)) &&
        streq service LOCATOR && streq name (str "Hello")
     then event_locator_hello c ;! ret 0
     else
       let! eh := on_user (find_event_handler c service name) in
       match eh with
       | Some eh => call_event_handler (eh_handler eh) c (eh_client_data eh) ;! ret 0
       | None =>
           let! x := channel_protocol c in
           if has_default_handler x then
             call_default_handler (p_default_handler x) c [type; service; name] (p_client_data x) ;! ret 0
           else skip_until_EOM c ;! ret 0
       end)
    (fun error => ret error).

(** The digits of the congestion level: the number, and the symbol after it. *)
Fixpoint read_level (k : nat) (n ch : Z) : M IS (Z * Z) :=
  match k with
  | O => nofuel
  | S k' =>
      if is_digit ch then
        let! ch' := read_stream in
        read_level k' (swrap 32 (n * 10 + (ch - ch_0))) ch'
      else ret (n, ch)
  end.

Definition handle_flow (c : Z) : W Z :=
  let! ch := on_inp c read_stream in
  let s := ch =? ch_minus in
  let! ch := (if s then on_inp c read_stream else ret ch) in
  let! (n, ch) := on_inp c (read_level fuel 0 ch) in
  let! ch := (if ch =? 0 then on_inp c read_stream else ret ch) in
  if negb (ch =? MARKER_EOM) then ret ERR_PROTOCOL
  else
    modify (upd_channel c (set_congestion (if s then swrap 32 (- n) else n))) ;!
    ret 0.

Definition handle_protocol_message (c : Z) : W unit :=
  let! type := on_inp c (read_stringz 8) in
  let t := deref type in
  let! error :=
    (if negb (length type =? 1)%nat then ret ERR_PROTOCOL
     else if t =? ch_C then handle_command c type
     else if (t =? ch_R) || (t =? ch_P) || (t =? ch_N) then handle_reply c type
     else if t =? ch_E then handle_event c type
     else if t =? ch_F then handle_flow c
     else
       let! x := channel_protocol c in
       if has_default_handler x then
         call_default_handler (p_default_handler x) c [type] (p_client_data x) ;! ret 0
       else ret ERR_PROTOCOL) in
  if negb (error =? 0) then throw error else ret tt.

(** ** Commands to the peer *)

(** The event posted for a command to a closed channel. *)
Definition send_command_failed (rh : ReplyHandlerInfo) : W unit :=
  if has_reply_handler rh then call_reply_handler (rh_handler rh) (rh_c rh) (rh_client_data rh) ERR_CHANNEL_CLOSED
  else ret tt.

(** The result is the address of the structure. *)
Definition protocol_send_command_with_progress (c : Z) (service name : list Z) (handler : ReplyHandler)
    (progress : option Z) (client_data : Z) : W Z :=
  let! p := chan c ch_protocol in
  let! ptr := on_user new_address in
  let! closed := is_channel_closed is_closed c in
  let! l := chan c ch_peer_service_list in
  (if closed || match l with None => true | Some _ => false end then
     on_user (modify (fun s => set_failed (ps_failed s ++ [mkRH ptr 0 c handler progress client_data]) s))
   else
     let! n := on_user (gets token_fuel) in
     let! tokenid := on_user (next_token n c p) in
     on_out c (write_stringz (str "C") ;!
               json_write_ulong tokenid ;!
               write_stream 0 ;!
               write_stringz service ;!
               write_stringz name) ;!
     let h := reply_hash c tokenid in
     on_user (modify (fun s => set_replies
       (set_bucket h (mkRH ptr tokenid c handler progress client_data :: bucket (ps_replies s) h) (ps_replies s)) s))) ;!
  ret ptr.

Definition protocol_send_command (c : Z) (service name : list Z) (handler : ReplyHandler) (client_data : Z) : W Z :=
  protocol_send_command_with_progress c service name handler None client_data.

Definition start_redirect (c handler client_data : Z) : W Z :=
  let! st := chan c ch_state in
  cassert (bool_decide (st = ChannelStateConnected)) ;!
  set_channel_state c ChannelStateRedirectSent ;!
  protocol_send_command c LOCATOR (str "redirect") (redirect_done_handler handler) client_data.

Definition send_redirect_command_by_id (c : Z) (peerId : list Z) (handler client_data : Z) : W Z :=
  let! rh := start_redirect c handler client_data in
  on_out c (json_write_string (Some peerId) ;! write_stream 0 ;! write_stream MARKER_EOM) ;!
  ret rh.

(** The properties of the peer, separated by commas. *)
Fixpoint write_props (i : nat) (l : list (list Z * list Z)) : M OS unit :=
  match l with
  | [] => ret tt
  | (name, value) :: l' =>
      (if (0 <? i)%nat then write_stream ch_comma else ret tt) ;!
      json_write_string (Some name) ;!
      write_stream ch_colon ;!
      json_write_string (Some value) ;!
      write_props (S i) l'
  end.

Definition send_redirect_command_by_props (c : Z) (ps : list (list Z * list Z)) (handler client_data : Z) : W Z :=
  let! rh := start_redirect c handler client_data in
  on_out c (write_stream ch_lcur ;! write_props 0 ps ;! write_stream ch_rcur ;!
            write_stream 0 ;! write_stream MARKER_EOM) ;!
  ret rh.

(** The names of the services of a protocol; [cnt] names have been written. *)
Fixpoint write_service_names (p : Z) (cnt : nat) (l : list ServiceInfo) : M OS unit :=
  match l with
  | [] => ret tt
  | s :: l' =>
      if si_owner s =? p then
        (if negb (cnt =? 0)%nat then write_stream ch_comma else ret tt) ;!
        json_write_string (Some (si_name s)) ;!
        write_service_names p (S cnt) l'
      else write_service_names p cnt l'
  end.

Definition send_hello_message (c : Z) : W unit :=
  let! p := chan c ch_protocol in
  let! services := on_user (gets ps_services) in
  let! st := chan c ch_state in
  cassert (bool_decide (st = ChannelStateStarted) || bool_decide (st = ChannelStateHelloReceived)) ;!
  let! disable := chan c ch_disable_zero_copy in
  on_out c (write_stringz (str "E") ;!
            write_stringz LOCATOR ;!
            write_stringz (str "Hello") ;!
            write_stream ch_lbra ;!
            (if negb disable then json_write_string (Some (str "ZeroCopy")) else ret tt) ;!
            write_service_names p (if disable : bool then 0 else 1) services ;!
            write_stream ch_rbra ;!
            write_stream 0 ;!
            write_stream MARKER_EOM) ;!
  if bool_decide (st = ChannelStateStarted) then set_channel_state c ChannelStateHelloSent
  else
    set_channel_state c ChannelStateConnected ;!
    connect_done c.

(** ** Closing *)

(** The cells of a bucket from the one a location points at: the head of the bucket, or the
    [next] field of the cell at an address; [None] if that cell has been freed. *)
Fixpoint cells_after (ptr : Z) (b : list ReplyHandlerInfo) : option (list ReplyHandlerInfo) :=
  match b with
  | [] => None
  | rh :: b' => if rh_ptr rh =? ptr then Some b' else cells_after ptr b'
  end.

Definition cells_from (loc : option Z) (b : list ReplyHandlerInfo) : option (list ReplyHandlerInfo) :=
  match loc with None => Some b | Some ptr => cells_after ptr b end.

(** The assignment of [l] to a location. *)
Fixpoint set_after (ptr : Z) (l b : list ReplyHandlerInfo) : option (list ReplyHandlerInfo) :=
  match b with
  | [] => None
  | rh :: b' => if rh_ptr rh =? ptr then Some (rh :: l) else option_map (cons rh) (set_after ptr l b')
  end.

Definition set_loc (loc : option Z) (l b : list ReplyHandlerInfo) : option (list ReplyHandlerInfo) :=
  match loc with None => Some l | Some ptr => set_after ptr l b end.

(** A reply handler that is kept to catch the reply. *)
Definition mute (rh : ReplyHandlerInfo) : ReplyHandlerInfo :=
  mkRH (rh_ptr rh) (rh_tokenid rh) (rh_c rh) NoReplyHandler None 0.

Definition get_bucket (h : Z) : W (list ReplyHandlerInfo) := on_user (gets (fun s => bucket (ps_replies s) h)).
Definition put_bucket (h : Z) (b : list ReplyHandlerInfo) : W unit :=
  on_user (modify (fun s => set_replies (set_bucket h b (ps_replies s)) s)).

(** The loop of [channel_closed] over a bucket; [loc] is [rhp].  It goes on to the next cell each time, and cells are only
    added in front, so it ends within the length of the bucket. *)
Fixpoint close_bucket (n : nat) (c h : Z) (loc : option Z) : W unit :=
  match n with
  | O => nofuel
  | S n' =>
      let! b := get_bucket h in
      match cells_from loc b with
      | None => fault
      | Some [] => ret tt
      | Some (rh :: _) =>
          if rh_c rh =? c then
            (if has_reply_handler rh then
               catch (call_reply_handler (rh_handler rh) c (rh_client_data rh) ERR_CHANNEL_CLOSED) (fun _ => ret tt)
             else ret tt) ;!
            let! st := chan c ch_state in
            let! b := get_bucket h in
            match cells_after (rh_ptr rh) b with
            | None => fault
            | Some next =>
                if negb (bool_decide (st = ChannelStateDisconnected)) then
                  put_bucket h (map (fun x => if rh_ptr x =? rh_ptr rh then mute x else x) b) ;!
                  close_bucket n' c h (Some (rh_ptr rh))
                else
                  match set_loc loc next b with
                  | None => fault
                  | Some b' => put_bucket h b' ;! close_bucket n' c h loc
                  end
            end
          else close_bucket n' c h (Some (rh_ptr rh))
      end
  end.

Fixpoint close_replies (n : nat) (c h : Z) : W unit :=
  match n with
  | O => ret tt
  | S n' =>
      let! b := get_bucket h in
      close_bucket (S (length b)) c h None ;!
      close_replies n' c (h + 1)
  end.

(** [channel_closed], a listener of closed channels. *)
Definition channel_closed (c : Z) : W unit :=
  on_user (close_handlers c) ;!
  close_replies (Z.to_nat REPLY_HASH_SIZE) c 0 ;!
  modify (upd_channel c (set_peer_services None)).

(** ** Protocols *)

(** The pointer to [channel_closed]. *)
Variable channel_closed_ptr : Z.

Definition ini_protocol : W unit :=
  let! done := on_user (gets ps_ini_done) in
  cassert (negb done) ;!
  add_channel_close_listener channel_closed_ptr ;!
  on_user (modify (set_ini true create_uuid)).

Definition protocol_alloc : W Z :=
  let! done := on_user (gets ps_ini_done) in
  (if done : bool then ret tt else ini_protocol) ;!
  on_user new_protocol.

Definition get_agent_id : W (list Z) :=
  let! done := on_user (gets ps_ini_done) in
  (if done : bool then ret tt else ini_protocol) ;!
  on_user (gets ps_agent_id).

End Protocol.
