(* ===== verification/ProtocolTables.v ===== *)
(** * The tables of handlers (Protocol.v, framework/protocol.c)

    Registering handlers and services, and looking them up, implements a specification in which the
    handlers are one list, the one added last first, and the hash tables do not exist. *)

From S2P Require Import Prelude Streams JsonWrite JsonRead Channel Protocol.

(** ** Specification *)

(** A handler for the messages [name] of a service of an owner. *)
Record Entry (H : Type) := mkEntry {
  en_owner : Z; en_service : list Z; en_name : list Z; en_handler : H; en_data : Z }.
Arguments mkEntry {H}.
Arguments en_owner {H}.
Arguments en_service {H}.
Arguments en_name {H}.
Arguments en_handler {H}.
Arguments en_data {H}.

Definition is_for {H} (owner : Z) (service name : list Z) (e : Entry H) : bool :=
  (en_owner e =? owner) && streq (en_service e) service && streq (en_name e) name.

Record Spec := mkSpec {
  sp_commands : list (Entry CommandHandler);
  sp_events : list (Entry EventHandler);
  sp_services : list (Z * list Z);
  sp_locks : gmap Z Z;
  sp_next : Z }.

Inductive table_op :=
| OpAlloc
| OpReference (p : Z)
| OpRelease (p : Z)
| OpService (owner : Z) (name : list Z)
| OpCommand (p : Z) (service name : list Z) (h : CommandHandler) (d : Z)
| OpEvent (c : Z) (service name : list Z) (h : EventHandler) (d : Z)
| OpClose (c : Z).

Definition run_op {V} (op : table_op) : M (ProtocolState V) unit :=
  match op with
  | OpAlloc => new_protocol ;! ret tt
  | OpReference p => protocol_reference p
  | OpRelease p => protocol_release p
  | OpService owner name => protocol_get_service owner name ;! ret tt
  | OpCommand p service name h d => add_command_handler2 p service name h d
  | OpEvent c service name h d => add_event_handler2 c service name h d
  | OpClose c => close_handlers c
  end.

Fixpoint run_ops {V} (ops : list table_op) : M (ProtocolState V) unit :=
  match ops with
  | [] => ret tt
  | op :: ops' => run_op op ;! run_ops ops'
  end.

(** A service that is not known yet takes an address. *)
Definition sp_service (owner : Z) (name : list Z) (sp : Spec) : Spec :=
  if decide ((owner, name) ∈ sp_services sp) then sp
  else mkSpec (sp_commands sp) (sp_events sp) ((owner, name) :: sp_services sp) (sp_locks sp) (sp_next sp + 1).

Definition sp_drop (owner : Z) (sp : Spec) : Spec :=
  mkSpec (List.filter (fun e => negb (en_owner e =? owner)) (sp_commands sp))
    (List.filter (fun e => negb (en_owner e =? owner)) (sp_events sp))
    (List.filter (fun x => negb (fst x =? owner)) (sp_services sp)) (sp_locks sp) (sp_next sp).

Definition sp_set_locks (m : gmap Z Z) (sp : Spec) : Spec :=
  mkSpec (sp_commands sp) (sp_events sp) (sp_services sp) m (sp_next sp).

(** The effect of an operation, if its conditions hold: the channels have addresses below [base],
    the protocols are allocated from there. *)
Definition sp_op (base : Z) (op : table_op) (sp : Spec) : option Spec :=
  match op with
  | OpAlloc => Some (mkSpec (sp_commands sp) (sp_events sp) (sp_services sp) (<[sp_next sp := 1]> (sp_locks sp)) (sp_next sp + 1))
  | OpReference p =>
      match sp_locks sp !! p with
      | Some n => if n <? 2 ^ 31 - 1 then Some (sp_set_locks (<[p := n + 1]> (sp_locks sp)) sp) else None
      | None => None
      end
  | OpRelease p =>
      match sp_locks sp !! p with
      | Some n => if n =? 1 then Some (sp_set_locks (delete p (sp_locks sp)) (sp_drop p sp))
                  else Some (sp_set_locks (<[p := n - 1]> (sp_locks sp)) sp)
      | None => None
      end
  | OpService owner name =>
      if streq name (str "ZeroCopy") then None else Some (sp_service owner name sp)
  | OpCommand p service name h d =>
      match sp_locks sp !! p with
      | Some _ =>
          if streq service (str "ZeroCopy") then None
          else
            let sp := sp_service p service sp in
            Some (mkSpec (mkEntry p service name h d :: sp_commands sp) (sp_events sp) (sp_services sp) (sp_locks sp) (sp_next sp))
      | None => None
      end
  | OpEvent c service name h d =>
      if (c <? base) && negb (streq service (str "ZeroCopy")) then
        let sp := sp_service c service sp in
        Some (mkSpec (sp_commands sp) (mkEntry c service name h d :: sp_events sp) (sp_services sp) (sp_locks sp) (sp_next sp))
      else None
  | OpClose c => if c <? base then Some (sp_drop c sp) else None
  end.

Fixpoint sp_ops (base : Z) (ops : list table_op) (sp : Spec) : option Spec :=
  match ops with
  | [] => Some sp
  | op :: ops' => match sp_op base op sp with Some sp' => sp_ops base ops' sp' | None => None end
  end.

Definition sp_init (base : Z) : Spec := mkSpec [] [] [] ∅ base.

(** The zeroed static variables. *)
Definition ps_init {V} (base : Z) (v : V) : ProtocolState V :=
  mkPS (replicate (Z.to_nat MESSAGE_HASH_SIZE) []) (replicate (Z.to_nat EVENT_HASH_SIZE) [])
    (replicate (Z.to_nat REPLY_HASH_SIZE) []) [] ∅ false 0 [] base [] v.

(** ** One table *)

(** The fields of a handler: owner, service, name, function and client data. *)
Record View (H : Type) := mkView { v_owner : Z; v_service : Z; v_name : list Z; v_handler : H; v_data : Z }.
Arguments mkView {H}.
Arguments v_owner {H}.
Arguments v_service {H}.
Arguments v_name {H}.
Arguments v_handler {H}.
Arguments v_data {H}.

Definition mh_view (mh : MessageHandlerInfo) : View CommandHandler :=
  mkView (mh_p mh) (mh_service mh) (mh_name mh) (mh_handler mh) (mh_client_data mh).
Definition eh_view (eh : EventHandlerInfo) : View EventHandler :=
  mkView (eh_c eh) (eh_service eh) (eh_name eh) (eh_handler eh) (eh_client_data eh).

Record services_ok (next : Z) (l : list ServiceInfo) : Prop := {
  so_ptrs : NoDup (map si_ptr l);
  so_keys : NoDup (map (fun s => (si_owner s, si_name s)) l);
  so_next : Forall (fun s => si_ptr s < next) l }.

Section Table.
Context {A H : Type} (view : A -> View H) (size : Z).

(** [x] is the entry [e]. *)
Definition rep (services : list ServiceInfo) (x : A) (e : Entry H) : Prop :=
  view x = mkView (en_owner e) (v_service (view x)) (en_name e) (en_handler e) (en_data e) /\
  mkService (v_service (view x)) (en_owner e) (en_service e) ∈ services.

Definition entry_hash (e : Entry H) : Z := hash_string size (en_owner e) (en_service e) (en_name e).
Definition in_bucket (h : Z) (e : Entry H) : bool := entry_hash e =? h.

Record table_rep (services : list ServiceInfo) (t : list (list A)) (es : list (Entry H)) : Prop := {
  tr_length : Z.of_nat (length t) = size;
  tr_buckets : forall h, 0 <= h < size -> Forall2 (rep services) (bucket t h) (List.filter (in_bucket h) es) }.

Lemma hash_range p service name : 0 < size -> 0 <= hash_string size p service name < size.
Proof. intros Hs. apply Z.mod_pos_bound. lia. Qed.

Lemma bucket_set (t : list (list A)) h b k : 0 <= h < Z.of_nat (length t) -> 0 <= k ->
  bucket (set_bucket h b t) k = if decide (k = h) then b else bucket t k.
Proof.
  intros Hh Hk. unfold bucket, set_bucket. rewrite !nth_lookup. case_decide as E.
  - subst k. rewrite list_lookup_insert_eq by lia. done.
  - rewrite list_lookup_insert_ne by lia. done.
Qed.

Lemma bucket_map (t : list (list A)) (f : list A -> list A) h : f [] = [] -> bucket (map f t) h = f (bucket t h).
Proof. intros Hf. unfold bucket. rewrite <- Hf at 1. apply map_nth. Qed.

Lemma rep_weaken services services' x e : (forall s, s ∈ services -> s ∈ services') -> rep services x e -> rep services' x e.
Proof. intros Hs [Hv He]. split; [done|by apply Hs]. Qed.

Lemma table_weaken services services' t es : (forall s, s ∈ services -> s ∈ services') ->
  table_rep services t es -> table_rep services' t es.
Proof.
  intros Hs [Hl Hb]. constructor; [done|]. intros h Hh. eapply Forall2_impl; [by apply Hb|].
  intros x e. by apply rep_weaken.
Qed.

Lemma table_add services t es x e : 0 < size -> table_rep services t es -> rep services x e ->
  table_rep services (set_bucket (entry_hash e) (x :: bucket t (entry_hash e)) t) (e :: es).
Proof.
  intros Hs [Hl Hb] Hx. pose proof (hash_range (en_owner e) (en_service e) (en_name e) Hs) as Hr. fold (entry_hash e) in Hr.
  constructor; [by unfold set_bucket; rewrite length_insert|]. intros h Hh. rewrite bucket_set by lia.
  cbn [List.filter]. unfold in_bucket at 1. case_decide as E.
  - subst h. rewrite Z.eqb_refl. constructor; [done|by apply Hb].
  - rewrite (proj2 (Z.eqb_neq _ _)) by congruence. by apply Hb.
Qed.

(** The handlers of an owner and its services are removed. *)
Lemma table_drop services t es owner (own : A -> Z) :
  (forall x, own x = v_owner (view x)) -> table_rep services t es ->
  table_rep (List.filter (fun s => negb (si_owner s =? owner)) services)
    (map (List.filter (fun x => negb (own x =? owner))) t) (List.filter (fun e => negb (en_owner e =? owner)) es).
Proof.
  intros Hown [Hl Hb]. constructor; [by rewrite length_map|]. intros h Hh. rewrite bucket_map by done.
  specialize (Hb h Hh). revert Hb. generalize (bucket t h). clear -Hown. intros b. revert es.
  assert (Hf : forall es, List.filter (in_bucket h) (List.filter (fun e => negb (en_owner e =? owner)) es) =
    List.filter (fun e => negb (en_owner e =? owner)) (List.filter (in_bucket h) es)).
  { induction es as [|e es IH]; [done|]. cbn [List.filter].
    destruct (negb (en_owner e =? owner)) eqn:E1; destruct (in_bucket h e) eqn:E2; cbn [List.filter]; rewrite ?E1, ?E2, ?IH; done. }
  intros es. rewrite Hf. generalize (List.filter (in_bucket h) es). clear Hf es. intros es Hb.
  induction Hb as [|x e b es [Hv He] Hb IH]; [constructor|]. cbn [List.filter].
  assert (E : own x = en_owner e) by (rewrite Hown, Hv; done). rewrite E.
  destruct (negb (en_owner e =? owner)) eqn:Eo; [|done]. constructor; [|done]. split; [done|].
  apply list_elem_of_In, filter_In. split; [by apply list_elem_of_In|done].
Qed.

(** Entries of other owners do not need the services of this one. *)
Lemma table_other services t es owner : Forall (fun e => en_owner e <> owner) es -> table_rep services t es ->
  table_rep (List.filter (fun s => negb (si_owner s =? owner)) services) t es.
Proof.
  intros Ho [Hl Hb]. constructor; [done|]. intros h Hh. specialize (Hb h Hh).
  assert (Ho' : Forall (fun e => en_owner e <> owner) (List.filter (in_bucket h) es)).
  { rewrite Forall_forall in *. intros e He. apply Ho. apply list_elem_of_In, filter_In in He as [He _]. by apply list_elem_of_In. }
  revert Ho'. induction Hb as [|x e b es' [Hv He] Hb IH]; intros Ho'; [constructor|]. inversion Ho'; subst.
  constructor; [|by apply IH]. split; [done|]. apply list_elem_of_In, filter_In. split; [by apply list_elem_of_In|].
  cbn. rewrite (proj2 (Z.eqb_neq _ _)); done.
Qed.

Lemma find_in_bucket owner service name es :
  List.find (is_for owner service name) (List.filter (in_bucket (hash_string size owner service name)) es) =
  List.find (is_for owner service name) es.
Proof.
  induction es as [|e es IH]; [done|]. cbn [List.filter List.find]. unfold in_bucket at 1.
  destruct (is_for owner service name e) eqn:Ef.
  - unfold is_for in Ef. bool_to_prop. destruct (streq_spec (en_service e) service); [|done].
    destruct (streq_spec (en_name e) name); [|done]. unfold entry_hash. subst. rewrite Z.eqb_refl. cbn [List.find].
    unfold is_for. rewrite Z.eqb_refl. by rewrite !(bool_decide_eq_true_2 _ eq_refl) || (unfold streq; rewrite !bool_decide_eq_true_2).
  - destruct (entry_hash e =? _); cbn [List.find]; [by rewrite Ef|done].
Qed.

End Table.

(** ** Looking up *)

Section Lookup.
Context {V : Type}.

Lemma service_name_runs (s : ProtocolState V) x : services_ok (ps_next s) (ps_services s) -> x ∈ ps_services s ->
  runs (service_name (si_ptr x)) s (si_name x) s.
Proof.
  intros [Hp _ _] Hx. unfold service_name. eapply runs_bind; [apply runs_gets|].
  assert (E : List.find (fun s => si_ptr s =? si_ptr x) (ps_services s) = Some x).
  { revert Hp Hx. generalize (ps_services s). clear. intros l. induction l as [|y l IH]; [by intros _ ?%elem_of_nil|].
    cbn [map List.find]. intros [Hy Hl]%NoDup_cons [->|Hx]%elem_of_cons; [by rewrite Z.eqb_refl|].
    destruct (Z.eqb_spec (si_ptr y) (si_ptr x)) as [E|E]; [|by apply IH]. destruct Hy. rewrite E.
    by apply list_elem_of_fmap_2. }
  rewrite E. apply runs_ret.
Qed.

(** The walk along a bucket, for both tables. *)
Fixpoint find_gen {A H} (view : A -> View H) (p : Z) (service name : list Z) (l : list A) : M (ProtocolState V) (option A) :=
  match l with
  | [] => ret None
  | x :: l' =>
      if v_owner (view x) =? p then
        let! s := service_name (v_service (view x)) in
        if streq s service && streq (v_name (view x)) name then ret (Some x) else find_gen view p service name l'
      else find_gen view p service name l'
  end.

Lemma find_mh_gen p service name l : find_mh (V := V) p service name l = find_gen mh_view p service name l.
Proof. induction l as [|mh l IH]; [done|]. cbn [find_mh find_gen]. by rewrite IH. Qed.

Lemma find_eh_gen c service name l : find_eh (V := V) c service name l = find_gen eh_view c service name l.
Proof. induction l as [|eh l IH]; [done|]. cbn [find_eh find_gen]. by rewrite IH. Qed.

Lemma find_gen_runs {A H} (view : A -> View H) p service name (s : ProtocolState V) b es :
  services_ok (ps_next s) (ps_services s) -> Forall2 (rep view (ps_services s)) b es ->
  exists r, runs (find_gen view p service name b) s r s /\
    option_map (fun x => (v_handler (view x), v_data (view x))) r =
    option_map (fun e => (en_handler e, en_data e)) (List.find (is_for p service name) es) /\
    match r with Some x => x ∈ b | None => True end.
Proof.
  intros Hs Hb. induction Hb as [|x e b es [Hv He] Hb (r & Hr & Hmap & Hin)]; [by exists None|].
  cbn [find_gen List.find]. unfold is_for at 1. rewrite Hv. cbn [v_owner v_name v_service].
  destruct (en_owner e =? p); cbn [andb].
  - assert (R : runs (service_name (v_service (view x))) s (en_service e) s) by (apply (service_name_runs s _ Hs He)).
    destruct (streq (en_service e) service && streq (en_name e) name) eqn:E.
    + exists (Some x). split; [eapply runs_bind; [exact R|]; rewrite E; apply runs_ret|]. split; [cbn [option_map]; rewrite Hv; done|left].
    + exists r. split; [eapply runs_bind; [exact R|]; by rewrite E|]. split; [done|]. destruct r; [by right|done].
  - exists r. split; [done|]. split; [done|]. destruct r; [by right|done].
Qed.

(** ** The refinement relation *)

Record tables_ok (base : Z) (sp : Spec) (s : ProtocolState V) : Prop := {
  to_services : services_ok (ps_next s) (ps_services s);
  to_names : map (fun x => (si_owner x, si_name x)) (ps_services s) = sp_services sp;
  to_commands : table_rep mh_view MESSAGE_HASH_SIZE (ps_services s) (ps_messages s) (sp_commands sp);
  to_events : table_rep eh_view EVENT_HASH_SIZE (ps_services s) (ps_events s) (sp_events sp);
  to_locks : p_lock_cnt <$> ps_protocols s = sp_locks sp;
  to_positive : map_Forall (fun p n => base <= p < sp_next sp /\ 0 < n) (sp_locks sp);
  to_next : ps_next s = sp_next sp /\ base <= sp_next sp;
  to_command_owners : Forall (fun e => base <= en_owner e) (sp_commands sp);
  to_event_owners : Forall (fun e => en_owner e < base) (sp_events sp) }.

Lemma get_service_runs base sp (s : ProtocolState V) owner name :
  tables_ok base sp s -> name <> str "ZeroCopy" ->
  exists ptr s', runs (protocol_get_service owner name) s ptr s' /\ tables_ok base (sp_service owner name sp) s' /\
    mkService ptr owner name ∈ ps_services s' /\ ps_replies s' = ps_replies s /\ ps_rest s' = ps_rest s.
Proof.
  intros Hok Hn. pose proof Hok as [[Hp Hk Hx] Hnames Hc He Hl Hpos [Hnx Hb] Hco Heo]. unfold protocol_get_service, sp_service.
  destruct (List.find (fun x => (si_owner x =? owner) && streq (si_name x) name) (ps_services s)) as [x|] eqn:Ef.
  - apply find_some in Ef as [Hin Hx']. bool_to_prop. destruct (streq_spec (si_name x) name); [|done]. subst.
    rewrite decide_True.
    2:{ rewrite <- Hnames. apply (list_elem_of_fmap_2 (fun x => (si_owner x, si_name x))). by apply list_elem_of_In. }
    exists (si_ptr x), s. split_and!; [|done|by destruct x; apply list_elem_of_In|done|done].
    eapply runs_bind; [apply runs_gets|]. cbn beta.
    assert (E : List.find (fun x0 => (si_owner x0 =? si_owner x) && streq (si_name x0) (si_name x)) (ps_services s) = Some x).
    { revert Hk Hin. generalize (ps_services s). clear. intros l. induction l as [|y l IH]; [done|].
      cbn [map List.find]. intros [Hy Hl]%NoDup_cons [->|Hx].
      - rewrite Z.eqb_refl. destruct (streq_spec (si_name x) (si_name x)); [done|congruence].
      - destruct ((si_owner y =? si_owner x) && streq (si_name y) (si_name x)) eqn:E; [|by apply IH].
        bool_to_prop. destruct (streq_spec (si_name y) (si_name x)) as [En|]; [|done]. destruct Hy.
        apply list_elem_of_fmap. exists x. split; [congruence|by apply list_elem_of_In]. }
    rewrite E. apply runs_ret.
  - rewrite decide_False.
    2:{ rewrite <- Hnames. intros Hin. apply list_elem_of_fmap in Hin as (x & E & Hin). injection E as -> ->.
        eapply find_none in Ef; [|by apply list_elem_of_In]. cbn in Ef. rewrite Z.eqb_refl in Ef. cbn in Ef.
        destruct (streq_spec (si_name x) (si_name x)); [done|congruence]. }
    eexists _, _. split_and!.
    + eapply runs_bind; [apply runs_gets|]. cbn beta. rewrite Ef. eapply runs_bind; [apply runs_cassert|].
      { destruct (streq_spec name (str "ZeroCopy")); [done|done]. }
      eapply runs_bind; [eapply runs_bind; [apply runs_gets|]; eapply runs_bind; [apply runs_modify|apply runs_ret]|].
      eapply runs_bind; [apply runs_modify|apply runs_ret].
    + constructor; cbn; rewrite ?Hnames, ?Hnx; try done.
      * rewrite <- Hnx. constructor; cbn.
        -- apply NoDup_cons. split; [|done]. intros Hin. apply list_elem_of_fmap in Hin as (x & E & Hin).
           rewrite Forall_forall in Hx. specialize (Hx x Hin). lia.
        -- apply NoDup_cons. split; [|done]. intros Hin. apply list_elem_of_fmap in Hin as (x & E & Hin). injection E as -> ->.
           eapply find_none in Ef; [|by apply list_elem_of_In]. cbn in Ef. rewrite Z.eqb_refl in Ef. cbn in Ef.
           destruct (streq_spec (si_name x) (si_name x)); [done|congruence].
        -- constructor; [cbn; lia|]. eapply Forall_impl; [exact Hx|]. cbn. lia.
      * eapply table_weaken; [|exact Hc]. intros x Hin. by right.
      * eapply table_weaken; [|exact He]. intros x Hin. by right.
      * intros p n Hp'. specialize (Hpos p n Hp'). cbn in Hpos. lia.
      * lia.
    + cbn. left.
    + done.
    + done.
Qed.
End Lookup.

(** ** The operations *)

Section Ops.
Context {V : Type}.
Variable base : Z.

Notation PS := (ProtocolState V).

(** What an operation leaves: the specification, and the rest of the state. *)
Definition simulates (m : M PS unit) (sp : Spec) (s : PS) : Prop :=
  exists s', runs m s tt s' /\ tables_ok base sp s' /\ ps_replies s' = ps_replies s /\ ps_rest s' = ps_rest s.

Lemma filter_map_fst owner (l : list ServiceInfo) :
  map (fun x => (si_owner x, si_name x)) (List.filter (fun s => negb (si_owner s =? owner)) l) =
  List.filter (fun x => negb (fst x =? owner)) (map (fun x => (si_owner x, si_name x)) l).
Proof. induction l as [|x l IH]; [done|]. cbn. destruct (si_owner x =? owner); cbn; by rewrite IH. Qed.

Lemma NoDup_map_filter {A B} (f : A -> B) (g : A -> bool) l : NoDup (map f l) -> NoDup (map f (List.filter g l)).
Proof.
  intros Hl. induction l as [|x l IH]; [done|]. cbn [map List.filter] in *. apply NoDup_cons in Hl as [Hx Hl].
  destruct (g x); [|by apply IH]. cbn [map]. apply NoDup_cons. split; [|by apply IH].
  intros Hin. apply Hx. apply list_elem_of_fmap in Hin as (y & -> & Hy). apply list_elem_of_fmap_2.
  apply list_elem_of_In, filter_In in Hy as [Hy _]. by apply list_elem_of_In.
Qed.

Lemma Forall_filter {A} (P : A -> Prop) (g : A -> bool) l : Forall P l -> Forall P (List.filter g l).
Proof.
  rewrite !Forall_forall. intros Hl x Hx. apply Hl. apply list_elem_of_In, filter_In in Hx as [Hx _]. by apply list_elem_of_In.
Qed.

Lemma services_filter next l g : services_ok next l -> services_ok next (List.filter g l).
Proof. intros [Hp Hk Hn]. constructor; [by apply NoDup_map_filter|by apply NoDup_map_filter|by apply Forall_filter]. Qed.

Lemma filter_all {A} (g : A -> bool) l : Forall (fun x => g x = true) l -> List.filter g l = l.
Proof. induction 1 as [|x l Hx _ IH]; [done|]. cbn. by rewrite Hx, IH. Qed.

Lemma filter_owner {H} (P : Z -> Prop) owner (es : list (Entry H)) :
  Forall (fun e => P (en_owner e)) es -> ~ P owner -> List.filter (fun e => negb (en_owner e =? owner)) es = es.
Proof.
  intros He Ho. apply filter_all. eapply Forall_impl; [exact He|]. cbn. intros e Hp.
  destruct (Z.eqb_spec (en_owner e) owner); [congruence|done].
Qed.

Lemma owner_ne {H} (P : Z -> Prop) owner (es : list (Entry H)) :
  Forall (fun e => P (en_owner e)) es -> ~ P owner -> Forall (fun e => en_owner e <> owner) es.
Proof. intros He Ho. eapply Forall_impl; [exact He|]. cbn. congruence. Qed.

Lemma alloc_sim sp s : tables_ok base sp s ->
  simulates (new_protocol ;! ret tt)
    (mkSpec (sp_commands sp) (sp_events sp) (sp_services sp) (<[sp_next sp := 1]> (sp_locks sp)) (sp_next sp + 1)) s.
Proof.
  intros [Hs Hn Hc He Hl Hp [Hx Hb] Hco Heo]. eexists. split; [|split].
  - eapply runs_bind; [|apply runs_ret]. eapply runs_bind; [eapply runs_bind; [apply runs_gets|]; eapply runs_bind; [apply runs_modify|apply runs_ret]|].
    eapply runs_bind; [apply runs_gets|]. eapply runs_bind; [apply runs_modify|].
    eapply runs_bind; [apply runs_modify|apply runs_ret].
  - constructor; cbn; try done.
    + destruct Hs as [H1 H2 H3]. constructor; [done|done|]. eapply Forall_impl; [exact H3|]. cbn. lia.
    + by rewrite fmap_insert, Hl, Hx.
    + intros p n. rewrite lookup_insert_Some. intros [[<- <-]|[_ Hpn]]; [lia|]. specialize (Hp p n Hpn). cbn in Hp. lia.
    + lia.
  - done.
Qed.

Lemma protocol_there sp (s : PS) p n : tables_ok base sp s -> sp_locks sp !! p = Some n ->
  exists x, ps_protocols s !! p = Some x /\ p_lock_cnt x = n /\ runs (get_protocol p) s x s.
Proof.
  intros Hok Hp. rewrite <- (to_locks _ _ _ Hok), lookup_fmap in Hp.
  destruct (ps_protocols s !! p) as [x|] eqn:Ex; [|done]. injection Hp as <-. exists x. split; [done|]. split; [done|].
  unfold get_protocol. eapply runs_bind; [apply runs_gets|]. cbn beta. rewrite Ex. apply runs_ret.
Qed.

(** The lock count of a protocol is changed. *)
Lemma put_ok sp (s : PS) p x n : tables_ok base sp s -> p_lock_cnt x = n -> base <= p < sp_next sp -> 0 < n ->
  tables_ok base (sp_set_locks (<[p := n]> (sp_locks sp)) sp) (set_protocols (<[p := x]> (ps_protocols s)) s).
Proof.
  intros [Hs Hn Hc He Hl Hp [Hx Hb] Hco Heo] Hlx Hpb H0. constructor; cbn; try done.
  - by rewrite fmap_insert, Hl, Hlx.
  - intros q m. rewrite lookup_insert_Some. intros [[<- <-]|[_ Hq]]; [lia|by apply Hp].
Qed.

Lemma reference_sim sp s p n : tables_ok base sp s -> sp_locks sp !! p = Some n -> n < 2 ^ 31 - 1 ->
  simulates (protocol_reference p) (sp_set_locks (<[p := n + 1]> (sp_locks sp)) sp) s.
Proof.
  intros Hok Hp Hn. destruct (protocol_there _ _ _ _ Hok Hp) as (x & _ & Hx & R).
  pose proof (to_positive _ _ _ Hok p n Hp) as Hpos. cbn in Hpos. eexists. split; [|split].
  - eapply runs_bind; [exact R|]. eapply runs_bind; [apply runs_cassert; apply Z.ltb_lt; lia|]. apply runs_modify.
  - apply put_ok; [done| |lia|lia]. cbn. rewrite Hx. apply swrap_small; lia.
  - done.
Qed.

Lemma release_sim sp s p n : tables_ok base sp s -> sp_locks sp !! p = Some n ->
  simulates (protocol_release p)
    (if n =? 1 then sp_set_locks (delete p (sp_locks sp)) (sp_drop p sp)
     else sp_set_locks (<[p := n - 1]> (sp_locks sp)) sp) s.
Proof.
  intros Hok Hp. destruct (protocol_there _ _ _ _ Hok Hp) as (x & _ & Hx & R).
  pose proof (to_positive _ _ _ Hok p n Hp) as Hpos. cbn in Hpos. subst n. set (n := p_lock_cnt x) in *.
  assert (Hhead : forall b s', (n - 1 =? 0) = b ->
    runs (if negb b then ret tt
          else modify (fun s => set_messages (map (List.filter (fun mh => negb (mh_p mh =? p))) (ps_messages s)) s) ;!
               free_services p ;! modify (fun s => set_protocols (delete p (ps_protocols s)) s))
      (set_protocols (<[p := mkProtocol (p_id x) (n - 1) (p_tokenid x) (p_default_handler x) (p_client_data x)]> (ps_protocols s)) s) tt s' ->
    runs (protocol_release p) s tt s').
  { intros b s' Eb Hr. eapply runs_bind; [exact R|]. eapply runs_bind; [apply runs_cassert; apply Z.ltb_lt; fold n; lia|].
    eapply runs_bind; [apply runs_modify|]. fold n. rewrite Eb. exact Hr. }
  destruct (Z.eqb_spec n 1) as [E|E].
  - destruct Hok as [Hs Hn Hc He Hl Hps [Hnx Hb] Hco Heo]. eexists. split; [|split].
    + apply (Hhead true); [apply Z.eqb_eq; lia|]. eapply runs_bind; [apply runs_modify|]. eapply runs_bind; [apply runs_modify|]. apply runs_modify.
    + constructor; cbn; try done.
      * by apply services_filter.
      * by rewrite filter_map_fst, Hn.
      * by apply table_drop.
      * rewrite (filter_owner (fun o => o < base)) by (done || lia). apply table_other; [|done].
        apply (owner_ne (fun o => o < base)); [done|lia].
      * by rewrite delete_insert_eq, fmap_delete, Hl.
      * intros q m. rewrite lookup_delete_Some. intros [_ Hq]. by apply Hps.
      * by apply Forall_filter.
      * by apply Forall_filter.
    + done.
  - eexists. split; [apply (Hhead false); [apply Z.eqb_neq; lia|apply runs_ret]|]. split; [|done].
    apply put_ok; [done|done|lia|lia].
Qed.

Lemma close_sim sp s c : tables_ok base sp s -> c < base -> simulates (close_handlers c) (sp_drop c sp) s.
Proof.
  intros [Hs Hn Hc He Hl Hps [Hnx Hb] Hco Heo] Hcb. eexists. split; [|split].
  - eapply runs_bind; [apply runs_modify|]. apply runs_modify.
  - constructor; cbn; try done.
    + by apply services_filter.
    + by rewrite filter_map_fst, Hn.
    + rewrite (filter_owner (fun o => base <= o)) by (done || lia). apply table_other; [|done].
      apply (owner_ne (fun o => base <= o)); [done|lia].
    + by apply table_drop.
    + by apply Forall_filter.
    + by apply Forall_filter.
  - done.
Qed.

Lemma command_sim sp s p service name h d n : tables_ok base sp s -> sp_locks sp !! p = Some n ->
  service <> str "ZeroCopy" ->
  let sp1 := sp_service p service sp in
  simulates (add_command_handler2 p service name h d)
    (mkSpec (mkEntry p service name h d :: sp_commands sp1) (sp_events sp1) (sp_services sp1) (sp_locks sp1) (sp_next sp1)) s.
Proof.
  intros Hok Hp Hz sp1. destruct (get_service_runs base sp s p service Hok Hz) as (ptr & s1 & R1 & Hok1 & Hin & Hrep & Hrest).
  pose proof (to_positive _ _ _ Hok p n Hp) as Hpos. cbn in Hpos.
  eexists. split; [|split].
  - eapply runs_bind; [exact R1|]. apply runs_modify.
  - destruct Hok1 as [Hs Hn Hc He Hl Hps Hnx Hco Heo]. constructor; cbn; try done; [|constructor; [cbn; lia|done]].
    apply (table_add mh_view MESSAGE_HASH_SIZE _ _ _ _ (mkEntry p service name h d)); [done|done|]. by split.
  - done.
Qed.

Lemma event_sim sp s c service name h d : tables_ok base sp s -> c < base ->
  service <> str "ZeroCopy" ->
  let sp1 := sp_service c service sp in
  simulates (add_event_handler2 c service name h d)
    (mkSpec (sp_commands sp1) (mkEntry c service name h d :: sp_events sp1) (sp_services sp1) (sp_locks sp1) (sp_next sp1)) s.
Proof.
  intros Hok Hc0 Hz sp1. destruct (get_service_runs base sp s c service Hok Hz) as (ptr & s1 & R1 & Hok1 & Hin & Hrep & Hrest).
  eexists. split; [|split].
  - eapply runs_bind; [exact R1|]. apply runs_modify.
  - destruct Hok1 as [Hs Hn Hc He Hl Hps Hnx Hco Heo]. constructor; cbn; try done; [|constructor; [cbn; lia|done]].
    apply (table_add eh_view EVENT_HASH_SIZE _ _ _ _ (mkEntry c service name h d)); [done|done|]. by split.
  - done.
Qed.

Lemma op_sim op sp sp' s : tables_ok base sp s -> sp_op base op sp = Some sp' -> simulates (run_op op) sp' s.
Proof.
  intros Hok Hop. destruct op as [|p|p|owner name|p service name h d|c service name h d|c]; cbn [sp_op run_op] in *.
  - injection Hop as <-. by apply alloc_sim.
  - destruct (sp_locks sp !! p) as [n|] eqn:Ep; [|done]. destruct (Z.ltb_spec n (2 ^ 31 - 1)); [|done].
    injection Hop as <-. by apply reference_sim.
  - destruct (sp_locks sp !! p) as [n|] eqn:Ep; [|done]. pose proof (release_sim sp s p n Hok Ep) as Hr.
    destruct (n =? 1); by injection Hop as <-.
  - destruct (streq_spec name (str "ZeroCopy")) as [|Hz]; [done|]. injection Hop as <-.
    destruct (get_service_runs base sp s owner name Hok Hz) as (ptr & s1 & R1 & Hok1 & _ & Hrest).
    exists s1. split; [eapply runs_bind; [exact R1|apply runs_ret]|done].
  - destruct (sp_locks sp !! p) as [n|] eqn:Ep; [|done]. destruct (streq_spec service (str "ZeroCopy")) as [|Hz]; [done|].
    injection Hop as <-. by eapply command_sim.
  - destruct (Z.ltb_spec c base); [|done]. destruct (streq_spec service (str "ZeroCopy")) as [|Hz]; [done|].
    injection Hop as <-. by apply event_sim.
  - destruct (Z.ltb_spec c base); [|done]. injection Hop as <-. by apply close_sim.
Qed.

Lemma ops_sim ops : forall sp sp' s, tables_ok base sp s -> sp_ops base ops sp = Some sp' -> simulates (run_ops ops) sp' s.
Proof.
  induction ops as [|op ops IH]; intros sp sp' s Hok Hops; cbn [sp_ops run_ops] in *.
  - injection Hops as <-. exists s. split; [apply runs_ret|done].
  - destruct (sp_op base op sp) as [sp1|] eqn:Eop; [|done].
    destruct (op_sim op sp sp1 s Hok Eop) as (s1 & R1 & Hok1 & Hr1 & Hv1).
    destruct (IH sp1 sp' s1 Hok1 Hops) as (s2 & R2 & Hok2 & Hr2 & Hv2). exists s2.
    split; [by eapply runs_bind|]. split; [done|]. split; congruence.
Qed.

Lemma init_ok (v : V) : tables_ok base (sp_init base) (ps_init base v).
Proof.
  assert (Hb : forall A n h, bucket (replicate n ([] : list A)) h = []).
  { intros A n h. unfold bucket. rewrite nth_lookup. destruct (replicate n [] !! Z.to_nat h) as [x|] eqn:E; [|done].
    by apply lookup_replicate in E as [-> _]. }
  constructor; try done; try (by constructor); cbn [ps_init ps_messages ps_events sp_init sp_commands sp_events].
  - constructor; cbn; constructor.
  - constructor; [by rewrite length_replicate|]. intros h Hh. rewrite Hb. constructor.
  - constructor; [by rewrite length_replicate|]. intros h Hh. rewrite Hb. constructor.
Qed.

Lemma find_handlers sp (s : PS) : tables_ok base sp s ->
  forall owner service name,
  (exists mh, runs (find_message_handler owner service name) s mh s /\
     option_map (fun x => (mh_handler x, mh_client_data x)) mh =
     option_map (fun e => (en_handler e, en_data e)) (List.find (is_for owner service name) (sp_commands sp))) /\
  (exists eh, runs (find_event_handler owner service name) s eh s /\
     option_map (fun x => (eh_handler x, eh_client_data x)) eh =
     option_map (fun e => (en_handler e, en_data e)) (List.find (is_for owner service name) (sp_events sp))).
Proof.
  intros [Hs Hn Hc He Hl Hps Hnx Hco Heo] owner service name. split.
  - destruct (find_gen_runs mh_view owner service name s _ _ Hs (tr_buckets _ _ _ _ _ Hc _ (hash_range MESSAGE_HASH_SIZE owner service name eq_refl)))
      as (mh & R & Hm & _). exists mh. rewrite find_in_bucket in Hm. split; [|exact Hm].
    eapply runs_bind; [apply runs_gets|]. rewrite find_mh_gen. exact R.
  - destruct (find_gen_runs eh_view owner service name s _ _ Hs (tr_buckets _ _ _ _ _ He _ (hash_range EVENT_HASH_SIZE owner service name eq_refl)))
      as (eh & R & Hm & _). exists eh. rewrite find_in_bucket in Hm. split; [|exact Hm].
    eapply runs_bind; [apply runs_gets|]. rewrite find_eh_gen. exact R.
Qed.
End Ops.

(** ** The property *)

(** C23: Any sequence of registrations of commands, events and services, of references and releases of
    protocols, and of channels that are closed, whose conditions hold, runs without a fault; looking up
    a command or an event gives the function and the client data of the handler that was registered last
    for the owner and the two names and has not been removed since, whatever the hash values are; and the
    services that are known are those of the specification, each once. *)
Theorem handler_tables_refine {V} (v : V) base ops sp : sp_ops base ops (sp_init base) = Some sp ->
  exists s, runs (run_ops ops) (ps_init base v) tt s /\
    map (fun x => (si_owner x, si_name x)) (ps_services s) = sp_services sp /\ NoDup (sp_services sp) /\
    forall owner service name,
    (exists mh, runs (find_message_handler owner service name) s mh s /\
       option_map (fun x => (mh_handler x, mh_client_data x)) mh =
       option_map (fun e => (en_handler e, en_data e)) (List.find (is_for owner service name) (sp_commands sp))) /\
    (exists eh, runs (find_event_handler owner service name) s eh s /\
       option_map (fun x => (eh_handler x, eh_client_data x)) eh =
       option_map (fun e => (en_handler e, en_data e)) (List.find (is_for owner service name) (sp_events sp))).
Proof.
  intros Hops. destruct (ops_sim base ops _ _ _ (init_ok base v) Hops) as (s & R & Hok & _). exists s.
  split; [done|]. split; [apply Hok|]. split; [|by apply (find_handlers base)].
  rewrite <- (to_names _ _ _ Hok). apply (so_keys _ _ (to_services _ _ _ Hok)).
Qed.

(** Two handlers of a command whose hash values are the same, a handler that replaces another, and a
    channel that is closed; the protocol has the address 1000. *)
Definition demo_ops : list table_op :=
  [OpAlloc; OpCommand 1000 (str "PathMap") (str "get") (CommandHandler2 1) 10;
   OpCommand 1000 (str "PathMap") (str "teg") command_handler_old 11;
   OpEvent 16 (str "RunControl") (str "contextAdded") (EventHandler2 2) 12;
   OpEvent 32 (str "RunControl") (str "contextAdded") event_handler_old 13;
   OpCommand 1000 (str "PathMap") (str "get") (CommandHandler2 3) 14; OpReference 1000; OpRelease 1000; OpClose 16].

Definition demo_spec : Spec :=
  mkSpec [mkEntry 1000 (str "PathMap") (str "get") (CommandHandler2 3) 14;
          mkEntry 1000 (str "PathMap") (str "teg") command_handler_old 11;
          mkEntry 1000 (str "PathMap") (str "get") (CommandHandler2 1) 10]
    [mkEntry 32 (str "RunControl") (str "contextAdded") event_handler_old 13]
    [(32, str "RunControl"); (1000, str "PathMap")] {[1000 := 1]} 1004.

Lemma handler_tables_refine_witness :
  exists s, runs (run_ops demo_ops) (ps_init 1000 tt) tt s /\
    map (fun x => (si_owner x, si_name x)) (ps_services s) = sp_services demo_spec /\ NoDup (sp_services demo_spec) /\
    forall owner service name,
    (exists mh, runs (find_message_handler owner service name) s mh s /\
       option_map (fun x => (mh_handler x, mh_client_data x)) mh =
       option_map (fun e => (en_handler e, en_data e)) (List.find (is_for owner service name) (sp_commands demo_spec))) /\
    (exists eh, runs (find_event_handler owner service name) s eh s /\
       option_map (fun x => (eh_handler x, eh_client_data x)) eh =
       option_map (fun e => (en_handler e, en_data e)) (List.find (is_for owner service name) (sp_events demo_spec))).
Proof. apply (handler_tables_refine tt 1000 demo_ops). vm_compute. reflexivity. Defined.
