(* ===== verification/ProtocolProps.v ===== *)
(** * Properties of the protocol (Protocol.v, framework/protocol.c)

    What the dispatch of a message does: which handler is called, with which arguments and where in the
    input, and what is replied to a message no handler takes; commands and their replies; the exchange
    of Hello messages; and the handlers that wait for a reply when a channel is closed. *)

From S2P Require Import Prelude Streams OutputBuf JsonWrite JsonRead ChannelOut Channel ChannelProps.
From S2P Require Import Protocol ProtocolTables.

(** ** Reading the parts of a message *)

Section Parts.
Context {IS : Type} `{InputStreamLaws IS}.
Variable fuel : nat.

(** The text of the strings of a message, as [write_stringz] writes them. *)
Definition stringz (l : list (list Z)) : list Z := concat (map (fun s => s ++ [0]) l).

(** The strings a message can hold. *)
Definition text (s : list Z) : Prop := Forall (fun ch => 0 < ch) s.

Lemma reads_stringz_loop P v : text v -> forall n size s, (length v < n)%nat ->
  reads P (read_stringz_loop n size s) (v ++ [0]) (s ++ take (size - 1 - length s) v).
Proof.
  induction 1 as [|ch v Hch Hv IH]; intros n size s Hn; (destruct n as [|n]; [cbn in Hn; lia|]); cbn [read_stringz_loop].
  - rewrite take_nil, app_nil_r. apply (reads_bind _ (fun _ => True) _ _ [0] [] 0); [apply reads_read_stream|done|]. apply reads_ret.
  - apply (reads_bind _ (fun _ => True) _ _ [ch] (v ++ [0]) ch); [apply reads_read_stream|done|].
    rewrite (proj2 (Z.leb_gt ch 0)) by done. cbn in Hn. destruct (Nat.ltb_spec (length s) (size - 1)) as [E|E].
    + specialize (IH n size (s ++ [ch])). rewrite length_app in IH. cbn [length] in IH.
      replace (size - 1 - length s)%nat with (S (size - 1 - (length s + 1)))%nat by lia. cbn [take].
      rewrite <- app_assoc in IH. apply IH. lia.
    + specialize (IH n size s). replace (size - 1 - length s)%nat with 0%nat in * by lia. apply IH. lia.
Qed.

Lemma reads_stringz P v size : text v -> (length v < fuel)%nat ->
  reads P (read_stringz fuel size) (v ++ [0]) (take (size - 1) v).
Proof. intros Hv Hf. pose proof (reads_stringz_loop P v Hv fuel size [] Hf) as Hr. cbn in Hr. by rewrite Nat.sub_0_r in Hr. Qed.

Lemma reads_skip P args : Forall (fun ch => ch <> MARKER_EOM /\ ch <> MARKER_EOS) args -> forall n, (length args < n)%nat ->
  reads P (skip_loop n) (args ++ [MARKER_EOM]) tt.
Proof.
  induction 1 as [|ch args [H1 H2] Ha IH]; intros n Hn; (destruct n as [|n]; [cbn in Hn; lia|]); cbn [skip_loop].
  - apply (reads_bind _ (fun _ => True) _ _ [MARKER_EOM] [] MARKER_EOM); [apply reads_read_stream|done|]. apply reads_ret.
  - apply (reads_bind _ (fun _ => True) _ _ [ch] (args ++ [MARKER_EOM]) ch); [apply reads_read_stream|done|].
    rewrite (proj2 (Z.eqb_neq _ _) H1), (proj2 (Z.eqb_neq _ _) H2). apply IH. cbn in Hn. lia.
Qed.

(** The arguments of a message: symbols without the end of the message or of the stream. *)
Definition arguments (args : list Z) : Prop :=
  Forall (fun ch => ch <> MARKER_EOM /\ ch <> MARKER_EOS) args /\ (length args < fuel)%nat.
End Parts.

Arguments stringz _ /.

(** What [handle_protocol_message] makes of the outcome of a handler: an exception with the code 0 is none. *)
Definition dispatched {S} (r : outcome unit * S) : outcome unit * S :=
  match r with
  | (Throw e, s) => if e =? 0 then (Val tt, s) else (Throw e, s)
  | r => r
  end.

Lemma dispatched_catch {S} (m : M S unit) s :
  (let! error := catch (m ;! ret 0) (fun error => ret error) in if negb (error =? 0) then throw error else ret tt) s =
  dispatched (m s).
Proof.
  unfold bind, catch, dispatched, ret, throw. destruct (m s) as [[[]|e| |] s1]; try done. by destruct (e =? 0).
Qed.

(** ** Dispatch *)

Section Dispatch.
Context {IS OS V : Type} `{InputStreamLaws IS} `{OutputStreamLaws OS} `{!ZeroCopy OS}.

Notation World := (World IS OS (ProtocolState V)).
Notation W := (M World).
Notation PS := (ProtocolState V).

Variable fuel : nat.
Variable call_command : Z -> list Z -> Z -> Z -> W unit.
Variable call_command_old : Z -> list Z -> Z -> W unit.
Variable call_event : Z -> Z -> Z -> W unit.
Variable call_event_old : Z -> Z -> W unit.
Variable call_message : Z -> Z -> list (list Z) -> Z -> W unit.
Variable call_message_old : Z -> Z -> list (list Z) -> W unit.
Variable call_reply : Z -> Z -> Z -> Z -> W unit.
Variable call_progress : Z -> Z -> Z -> W unit.
Variable call_connected : Z -> W unit.
Variable call_listener : Z -> Z -> W unit.
Variable is_closed : Z -> World -> bool.
Variable read_errno : Z -> W Z.

Notation handle_message := (handle_protocol_message fuel call_command call_command_old call_event call_event_old
  call_message call_message_old call_reply call_progress call_connected call_listener read_errno).

Implicit Types (ch : Channel IS OS) (j : list Z * N) (u : PS) (w : World).

(** Reading a string from the input of a channel. *)
Lemma on_stringz c v size ch j u w rest : text v -> (length v < fuel)%nat -> yields (ch_inp ch) (v ++ 0 :: rest) ->
  exists i, runs (on_inp c (read_stringz fuel size)) (At c ch j u w) (take (size - 1) v) (At c (set_inp i ch) j u w) /\
    yields i rest.
Proof.
  intros Hv Hf Hy. eapply (reads_inp c (fun _ => True) _ (v ++ [0])); [by apply reads_stringz|done|].
  by rewrite <- app_assoc.
Qed.

Lemma on_skip c args ch j u w rest : arguments fuel args -> yields (ch_inp ch) (args ++ MARKER_EOM :: rest) ->
  exists i, runs (skip_until_EOM fuel c) (At c ch j u w) tt (At c (set_inp i ch) j u w) /\ yields i rest.
Proof.
  intros [Ha Hf] Hy. eapply (reads_inp c (fun _ => True) _ (args ++ [MARKER_EOM])); [by apply reads_skip|done|].
  by rewrite <- app_assoc.
Qed.

Lemma set_inp_inp i i' ch : set_inp i (set_inp i' ch) = set_inp i ch.
Proof. done. Qed.

(** The end of [handle_protocol_message]. *)
Definition finish (error : Z) : W unit := if negb (error =? 0) then throw error else ret tt.

(** The head of [handle_protocol_message]: the type of the message. *)
Lemma message_head c t ch j u w rest : (2 < fuel)%nat -> 0 < t -> yields (ch_inp ch) (t :: 0 :: rest) ->
  exists i, yields i rest /\ let w1 := At c (set_inp i ch) j u w in
    handle_message c (At c ch j u w) =
    if t =? ch_C then bind (handle_command fuel call_command call_command_old call_message call_message_old c [t]) finish w1
    else if (t =? ch_R) || (t =? ch_P) || (t =? ch_N) then
      bind (handle_reply fuel call_message call_message_old call_reply call_progress call_listener read_errno c [t]) finish w1
    else if t =? ch_E then
      bind (handle_event fuel call_event call_event_old call_message call_message_old call_connected call_listener c [t]) finish w1
    else if t =? ch_F then bind (handle_flow fuel c) finish w1
    else bind (let! x := channel_protocol c in
               if has_default_handler x then
                 call_default_handler call_message call_message_old (p_default_handler x) c [[t]] (p_client_data x) ;! ret 0
               else ret ERR_PROTOCOL) finish w1.
Proof.
  intros Hf Ht Hy. destruct (on_stringz c [t] 8 ch j u w rest) as (i & R & Y); [by constructor|cbn; lia|done|].
  exists i. split; [done|]. unfold handle_protocol_message. rewrite (bind_runs _ _ _ _ _ R).
  cbn [length Nat.eqb negb deref hd take Nat.sub]. by repeat destruct_if.
Qed.

Lemma not_recognized c token ch j u w l : bytes token -> os_sym (OS := OS) MARKER_EOM -> emits (ch_out ch) l ->
  exists o, runs (on_out c (write_not_recognized token)) (At c ch j u w) tt (At c (set_out o ch) j u w) /\
    emits o (l ++ stringz [str "N"; token] ++ [MARKER_EOM]).
Proof.
  intros Ht Heom He. eapply writes_out; [|done]. cbn [stringz map concat].
  rewrite app_nil_r, <- app_assoc. apply writes_bind; [apply writes_stringz_lem, str_bytes|].
  apply writes_bind; [by apply writes_stringz_lem|by apply writes_stream].
Qed.

Lemma channel_protocol_runs c ch j u w x : ps_protocols u !! ch_protocol ch = Some x ->
  runs (channel_protocol c) (At c ch j u w) x (At c ch j u w).
Proof.
  intros Hx. eapply runs_bind; [apply runs_chan|]. apply runs_user. unfold get_protocol.
  eapply runs_bind; [apply runs_gets|]. cbn beta. rewrite Hx. apply runs_ret.
Qed.

Lemma catch_eq {S A} (m1 m2 : M S A) h s1 s2 : m1 s1 = m2 s2 -> catch m1 h s1 = catch m2 h s2.
Proof. unfold catch. by intros ->. Qed.

Lemma bind_eq {S A B} (m1 m2 : M S A) (k : A -> M S B) s1 s2 : m1 s1 = m2 s2 -> bind m1 k s1 = bind m2 k s2.
Proof. unfold bind. by intros ->. Qed.

(** A command that no handler takes. *)
Lemma refuse_runs c token args ch j u w l rest : bytes token -> os_sym (OS := OS) MARKER_EOM -> emits (ch_out ch) l ->
  arguments fuel args -> yields (ch_inp ch) (args ++ MARKER_EOM :: rest) ->
  exists i o, runs (skip_until_EOM fuel c ;! on_out c (write_not_recognized token) ;! ret 0) (At c ch j u w) 0
      (At c (set_out o (set_inp i ch)) j u w) /\ yields i rest /\ emits o (l ++ stringz [str "N"; token] ++ [MARKER_EOM]).
Proof.
  intros Ht Heom He Ha Hy. destruct (on_skip c args ch j u w rest Ha Hy) as (i & R1 & Y).
  destruct (not_recognized c token (set_inp i ch) j u w l Ht Heom He) as (o & R2 & E).
  exists i, o. split; [|done]. eapply runs_bind; [exact R1|]. eapply runs_bind; [exact R2|apply runs_ret].
Qed.

(** C5: A command reaches the handler that was registered last for its service and name with the
    protocol of the channel: the handler is called once, with the token, and finds in the input what
    follows the name; its outcome is the outcome of the dispatch.  Without such a handler the default
    handler gets the four strings; without a default handler, or when the channel is not connected,
    the command is skipped to its end and [N] with the token is replied, and nothing else happens.
    Strings longer than the buffers are cut to 255 characters. *)
Theorem command_dispatch base sp x c token service name args rest ch j u w l :
  text token -> text service -> text name -> bytes token ->
  (2 < fuel /\ length token < fuel /\ length service < fuel /\ length name < fuel)%nat -> arguments fuel args ->
  tables_ok base sp u -> ps_protocols u !! ch_protocol ch = Some x ->
  os_sym (OS := OS) MARKER_EOM -> emits (ch_out ch) l ->
  yields (ch_inp ch) (stringz [str "C"; token; service; name] ++ args ++ MARKER_EOM :: rest) ->
  let t := take 255 token in let s := take 255 service in let n := take 255 name in
  let refused := exists i o, handle_message c (At c ch j u w) = (Val tt, At c (set_out o (set_inp i ch)) j u w) /\
    yields i rest /\ emits o (l ++ stringz [str "N"; t] ++ [MARKER_EOM]) in
  exists i, yields i (args ++ MARKER_EOM :: rest) /\
    if decide (ch_state ch = ChannelStateConnected) then
      match List.find (is_for (ch_protocol ch) s n) (sp_commands sp) with
      | Some e => handle_message c (At c ch j u w) =
          dispatched (call_command_handler call_command call_command_old (en_handler e) t c (en_data e) (At c (set_inp i ch) j u w))
      | None =>
          if has_default_handler x then handle_message c (At c ch j u w) =
            dispatched (call_default_handler call_message call_message_old (p_default_handler x) c [str "C"; t; s; n]
              (p_client_data x) (At c (set_inp i ch) j u w))
          else refused
      end
    else refused.
Proof.
  intros Ht Hs Hn Hbt (Hf & Hft & Hfs & Hfn) Ha Hok Hx Heom He Hy t s n refused.
  cbn [stringz map concat] in Hy. norm_app_in Hy. cbn in Hy.
  destruct (message_head c ch_C ch j u w _ Hf ltac:(done) Hy) as (i0 & Y0 & E0).
  destruct (on_stringz c token 256 (set_inp i0 ch) j u w _ Ht Hft Y0) as (i1 & R1 & Y1).
  destruct (on_stringz c service 256 (set_inp i1 (set_inp i0 ch)) j u w _ Hs Hfs Y1) as (i2 & R2 & Y2).
  destruct (on_stringz c name 256 (set_inp i2 (set_inp i1 (set_inp i0 ch))) j u w _ Hn Hfn Y2) as (i & R3 & Y).
  rewrite !set_inp_inp in *. exists i. split; [done|].
  assert (Hbts : bytes t) by (by apply Forall_take).
  cbn [Z.eqb Pos.eqb orb] in E0. cbn beta iota zeta in E0.
  (* What is left of the dispatch. *)
  assert (E : forall m, handle_command fuel call_command call_command_old call_message call_message_old c [ch_C]
      (At c (set_inp i0 ch) j u w) = m (At c (set_inp i ch) j u w) ->
    handle_message c (At c ch j u w) = bind m finish (At c (set_inp i ch) j u w)).
  { intros m Hm. rewrite E0. by apply bind_eq. }
  assert (Hrefuse : handle_command fuel call_command call_command_old call_message call_message_old c [ch_C]
      (At c (set_inp i0 ch) j u w) = (skip_until_EOM fuel c ;! on_out c (write_not_recognized t) ;! ret 0) (At c (set_inp i ch) j u w) -> refused).
  { intros Hr. destruct (refuse_runs c t args (set_inp i ch) j u w l rest Hbts Heom He Ha Y) as (i' & o & R4 & Y' & Eo).
    exists i', o. split; [|done]. rewrite (E _ Hr), (bind_runs _ _ _ _ _ R4). done. }
  unfold handle_command in E, Hrefuse. rewrite (bind_runs _ _ _ _ _ R1), (bind_runs _ _ _ _ _ R2), (bind_runs _ _ _ _ _ R3),
    (bind_runs _ _ _ _ _ (runs_chan _ _ _ _ _ _)) in E, Hrefuse. cbn [ch_state set_inp] in E, Hrefuse.
  change (take (256 - 1) token) with t in *. change (take (256 - 1) service) with s in *. change (take (256 - 1) name) with n in *.
  case_decide as Hst; [rewrite (bool_decide_eq_true_2 _ Hst) in E, Hrefuse|rewrite (bool_decide_eq_false_2 _ Hst) in Hrefuse];
    cbn [negb] in E, Hrefuse; [|by apply Hrefuse].
  destruct (find_handlers base sp u Hok (ch_protocol ch) s n) as [(mh & R4 & Hmh) _].
  apply (runs_user c _ _ _ (set_inp i ch) j _ w) in R4.
  destruct (List.find _ (sp_commands sp)) as [e|], mh as [mh|]; cbn [option_map] in Hmh; try done.
  - injection Hmh as Eh Ed. rewrite <- Eh, <- Ed, <- dispatched_catch. apply E. apply catch_eq.
    rewrite (bind_runs _ _ _ _ _ (runs_chan _ _ _ _ _ _)). cbn [ch_protocol set_inp]. by rewrite (bind_runs _ _ _ _ _ R4).
  - pose proof (channel_protocol_runs c (set_inp i ch) j u w x Hx) as R5.
    destruct (has_default_handler x) eqn:Ex.
    + rewrite <- dispatched_catch. apply E. apply catch_eq.
      rewrite (bind_runs _ _ _ _ _ (runs_chan _ _ _ _ _ _)). cbn [ch_protocol set_inp]. rewrite (bind_runs _ _ _ _ _ R4).
      rewrite (bind_runs _ _ _ _ _ R5), Ex. done.
    + apply Hrefuse.
      destruct (refuse_runs c t args (set_inp i ch) j u w l rest Hbts Heom He Ha Y) as (i' & o & R6 & _).
      rewrite R6. apply runs_catch. unfold runs.
      rewrite (bind_runs _ _ _ _ _ (runs_chan _ _ _ _ _ _)). cbn [ch_protocol set_inp]. rewrite (bind_runs _ _ _ _ _ R4).
      rewrite (bind_runs _ _ _ _ _ R5), Ex. exact R6.
Qed.

(** C26: An event reaches the handler that was registered last for its service and name with the
    channel, in every state of the channel; otherwise the default handler of the protocol gets the three
    strings; without it the event is skipped to its end.  Hello, before the channel is connected, is the
    exception. *)
Theorem event_dispatch base sp x c service name args rest ch j u w :
  text service -> text name ->
  (2 < fuel /\ length service < fuel /\ length name < fuel)%nat -> arguments fuel args ->
  tables_ok base sp u -> ps_protocols u !! ch_protocol ch = Some x ->
  yields (ch_inp ch) (stringz [str "E"; service; name] ++ args ++ MARKER_EOM :: rest) ->
  let s := take 255 service in let n := take 255 name in
  ~ ((ch_state ch = ChannelStateStarted \/ ch_state ch = ChannelStateHelloSent) /\ s = LOCATOR /\ n = str "Hello") ->
  exists i, yields i (args ++ MARKER_EOM :: rest) /\
    match List.find (is_for c s n) (sp_events sp) with
    | Some e => handle_message c (At c ch j u w) =
        dispatched (call_event_handler call_event call_event_old (en_handler e) c (en_data e) (At c (set_inp i ch) j u w))
    | None =>
        if has_default_handler x then handle_message c (At c ch j u w) =
          dispatched (call_default_handler call_message call_message_old (p_default_handler x) c [str "E"; s; n]
            (p_client_data x) (At c (set_inp i ch) j u w))
        else exists i', handle_message c (At c ch j u w) = (Val tt, At c (set_inp i' ch) j u w) /\ yields i' rest
    end.
Proof.
  intros Hs Hn (Hf & Hfs & Hfn) Ha Hok Hx Hy s n Hhello.
  cbn [stringz map concat] in Hy. norm_app_in Hy. cbn in Hy.
  destruct (message_head c ch_E ch j u w _ Hf ltac:(done) Hy) as (i0 & Y0 & E0).
  destruct (on_stringz c service 256 (set_inp i0 ch) j u w _ Hs Hfs Y0) as (i1 & R1 & Y1).
  destruct (on_stringz c name 256 (set_inp i1 (set_inp i0 ch)) j u w _ Hn Hfn Y1) as (i & R2 & Y).
  rewrite !set_inp_inp in *. exists i. split; [done|].
  cbn [Z.eqb Pos.eqb orb] in E0. cbn beta iota zeta in E0.
  assert (E : forall m, handle_event fuel call_event call_event_old call_message call_message_old call_connected call_listener c [ch_E]
      (At c (set_inp i0 ch) j u w) = m (At c (set_inp i ch) j u w) ->
    handle_message c (At c ch j u w) = bind m finish (At c (set_inp i ch) j u w)).
  { intros m Hm. rewrite E0. by apply bind_eq. }
  clear E0. unfold handle_event in E. rewrite (bind_runs _ _ _ _ _ R1), (bind_runs _ _ _ _ _ R2) in E.
  change (take (256 - 1) service) with s in E. change (take (256 - 1) name) with n in E.
  assert (Hb : (bool_decide (ch_state ch = ChannelStateStarted) || bool_decide (ch_state ch = ChannelStateHelloSent)) &&
    streq s LOCATOR && streq n (str "Hello") = false).
  { apply not_true_iff_false. intros Hb. apply andb_true_iff in Hb as [Hb Hbn]. apply andb_true_iff in Hb as [Hb Hbs].
    apply orb_true_iff in Hb. rewrite !bool_decide_eq_true in Hb. apply Hhello.
    destruct (streq_spec s LOCATOR), (streq_spec n (str "Hello")); done. }
  destruct (find_handlers base sp u Hok c s n) as [_ (eh & R4 & Heh)].
  apply (runs_user c _ _ _ (set_inp i ch) j _ w) in R4.
  destruct (List.find _ (sp_events sp)) as [e|], eh as [eh|]; cbn [option_map] in Heh; try done.
  - injection Heh as Eh Ed. rewrite <- Eh, <- Ed, <- dispatched_catch. apply E. apply catch_eq.
    rewrite (bind_runs _ _ _ _ _ (runs_chan _ _ _ _ _ _)). cbn [ch_state set_inp]. by rewrite Hb, (bind_runs _ _ _ _ _ R4).
  - pose proof (channel_protocol_runs c (set_inp i ch) j u w x Hx) as R5. destruct (has_default_handler x) eqn:Ex.
    + rewrite <- dispatched_catch. apply E. apply catch_eq.
      rewrite (bind_runs _ _ _ _ _ (runs_chan _ _ _ _ _ _)). cbn [ch_state set_inp]. rewrite Hb, (bind_runs _ _ _ _ _ R4).
      by rewrite (bind_runs _ _ _ _ _ R5), Ex.
    + destruct (on_skip c args (set_inp i ch) j u w rest Ha Y) as (i' & R6 & Y'). exists i'. split; [|done].
      assert (R7 : runs (skip_until_EOM fuel c ;! ret 0) (At c (set_inp i ch) j u w) 0 (At c (set_inp i' (set_inp i ch)) j u w))
        by (eapply runs_bind; [exact R6|apply runs_ret]).
      rewrite (E (skip_until_EOM fuel c ;! ret 0)); [by rewrite (bind_runs _ _ _ _ _ R7)|]. rewrite R7. apply runs_catch. unfold runs.
      rewrite (bind_runs _ _ _ _ _ (runs_chan _ _ _ _ _ _)). cbn [ch_state set_inp]. rewrite Hb, (bind_runs _ _ _ _ _ R4).
      rewrite (bind_runs _ _ _ _ _ R5), Ex. exact R7.
Qed.
End Dispatch.

(** ** Witnesses *)

(** The tables after the operations of [demo_ops]; a handler notes what it is called with. *)
Definition demo_tables : ProtocolState (list (list Z)) := snd (run_ops demo_ops (ps_init 1000 [])).

Lemma demo_tables_ok : tables_ok 1000 demo_spec demo_tables.
Proof.
  destruct (ops_sim 1000 demo_ops _ demo_spec _ (init_ok 1000 ([] : list (list Z))) ltac:(vm_compute; reflexivity)) as (s & R & Hok & _).
  unfold demo_tables. by rewrite R.
Qed.

#[export] Instance tcp_zero_copy : ZeroCopy ChannelTCP := fun b c =>
  mkCT b (ct_connected c) (ct_out_errno c) (ct_obuf c) (ct_bin_block c) (ct_flush_cnt c) (ct_eom_cnt c) (ct_events c)
    (ct_lock_cnt c) (ct_queue c).

Notation DemoWorld := (World ByteArrayInputStream ChannelTCP (ProtocolState (list (list Z)))).

Definition note (l : list Z) : M DemoWorld unit :=
  on_user (modify (fun u => mkPS (ps_messages u) (ps_events u) (ps_replies u) (ps_services u) (ps_protocols u)
    (ps_ini_done u) (ps_proto_cnt u) (ps_agent_id u) (ps_next u) (ps_failed u) (l :: ps_rest u))).

Definition demo_handle : Z -> M DemoWorld unit :=
  handle_protocol_message 100 (fun h token c d => note (h :: c :: d :: token)) (fun h token c => note (h :: c :: token))
    (fun h c d => note [h; c; d]) (fun h c => note [h; c]) (fun h c args d => note (h :: c :: d :: concat args))
    (fun h c args => note (h :: c :: concat args)) (fun h c d error => note [h; c; d; error]) (fun h c d => note [h; c; d])
    (fun c => note [c]) (fun l c => note [l; c]) (fun c => ret 0).

(** The channel 32 in a state, with some input; it uses the protocol 1000. *)
Definition demo_peer (st : ChannelState) (input : list Z) : Channel ByteArrayInputStream ChannelTCP :=
  mkChannel (create_byte_array_input_stream input) (new_output false) 0 1000 None None 0 st false false.

Definition demo_rest : DemoWorld :=
  mkWorld (fun _ => demo_peer ChannelStateDisconnected []) [] [] [] ∅ [] 0 ([], 0%N) demo_tables.

Definition demo_at (ch : Channel ByteArrayInputStream ChannelTCP) : DemoWorld := At 32 ch ([], 0%N) demo_tables demo_rest.

Lemma demo_text s : forallb (fun ch => 0 <? ch) (str s) = true -> text (str s).
Proof. intros Hs. apply Forall_forall. intros ch Hch. rewrite forallb_forall in Hs. apply Z.ltb_lt, Hs. by apply list_elem_of_In. Qed.

Lemma demo_yields l : yields (create_byte_array_input_stream l) l.
Proof. exists 0%nat. cbn. by rewrite app_nil_r. Qed.

Definition demo_command : list Z :=
  stringz [str "C"; str "7"; str "PathMap"; str "get"] ++ [ch_n; 0] ++ MARKER_EOM :: [ch_C].

Definition demo_connected : Channel ByteArrayInputStream ChannelTCP := demo_peer ChannelStateConnected demo_command.

Lemma command_dispatch_witness :
  exists i, yields i ([ch_n; 0] ++ MARKER_EOM :: [ch_C]) /\
    demo_handle 32 (demo_at demo_connected) = dispatched (note [3; 32; 14; ch_0 + 7] (demo_at (set_inp i demo_connected))).
Proof.
  destruct (command_dispatch 100 (fun h token c d => note (h :: c :: d :: token)) (fun h token c => note (h :: c :: token))
    (fun h c d => note [h; c; d]) (fun h c => note [h; c]) (fun h c args d => note (h :: c :: d :: concat args))
    (fun h c args => note (h :: c :: concat args)) (fun h c d error => note [h; c; d; error]) (fun h c d => note [h; c; d])
    (fun c => note [c]) (fun l c => note [l; c]) (fun c => ret 0) 1000 demo_spec (mkProtocol 0 1 1 NoMessageHandler 0) 32
    (str "7") (str "PathMap") (str "get") [ch_n; 0] [ch_C] demo_connected ([], 0%N) demo_tables demo_rest []) as (i & Y & E).
  - by apply demo_text.
  - by apply demo_text.
  - by apply demo_text.
  - apply str_bytes.
  - cbn. lia.
  - split; [|cbn; lia]. by repeat constructor.
  - apply demo_tables_ok.
  - vm_compute. reflexivity.
  - exact sym_eom.
  - apply new_output_emits.
  - apply demo_yields.
  - exists i. split; [exact Y|]. rewrite decide_True in E by done.
    assert (Ef : List.find (is_for 1000 (take 255 (str "PathMap")) (take 255 (str "get"))) (sp_commands demo_spec) =
      Some (mkEntry 1000 (str "PathMap") (str "get") (CommandHandler2 3) 14)) by (vm_compute; reflexivity).
    change (ch_protocol demo_connected) with 1000 in E. cbv zeta in E. rewrite Ef in E. exact E.
Defined.

Definition demo_event_text : list Z :=
  stringz [str "E"; str "RunControl"; str "contextAdded"] ++ [ch_n; 0] ++ MARKER_EOM :: [].
Definition demo_started : Channel ByteArrayInputStream ChannelTCP := demo_peer ChannelStateStarted demo_event_text.

Lemma event_dispatch_witness :
  exists i, yields i ([ch_n; 0] ++ MARKER_EOM :: []) /\
    demo_handle 32 (demo_at demo_started) = dispatched (note [13; 32] (demo_at (set_inp i demo_started))).
Proof.
  destruct (event_dispatch 100 (fun h token c d => note (h :: c :: d :: token)) (fun h token c => note (h :: c :: token))
    (fun h c d => note [h; c; d]) (fun h c => note [h; c]) (fun h c args d => note (h :: c :: d :: concat args))
    (fun h c args => note (h :: c :: concat args)) (fun h c d error => note [h; c; d; error]) (fun h c d => note [h; c; d])
    (fun c => note [c]) (fun l c => note [l; c]) (fun c => ret 0) 1000 demo_spec (mkProtocol 0 1 1 NoMessageHandler 0) 32
    (str "RunControl") (str "contextAdded") [ch_n; 0] [] demo_started ([], 0%N) demo_tables demo_rest) as (i & Y & E).
  - by apply demo_text.
  - by apply demo_text.
  - cbn. lia.
  - split; [|cbn; lia]. by repeat constructor.
  - apply demo_tables_ok.
  - vm_compute. reflexivity.
  - apply demo_yields.
  - intros (_ & Es & _). vm_compute in Es. discriminate.
  - exists i. split; [exact Y|].
    assert (Ef : List.find (is_for 32 (take 255 (str "RunControl")) (take 255 (str "contextAdded"))) (sp_events demo_spec) =
      Some (mkEntry 32 (str "RunControl") (str "contextAdded") event_handler_old 13)) by (vm_compute; reflexivity).
    cbv zeta in E. rewrite Ef in E. exact E.
Defined.
