(* ===== verification/ProtocolReplies.v ===== *)
(** * Commands to the peer and their replies (Protocol.v, framework/protocol.c)

    A command gets a token that no other command waits under, its reply finds the handler by the token,
    and every handler that is left when a channel is closed is called. *)

From S2P Require Import Prelude Streams OutputBuf JsonWrite JsonRead ChannelOut Channel ChannelProps.
From S2P Require Import Protocol ProtocolTables ProtocolProps.

(** ** The table of replies *)

Section Replies.
Context {V : Type}.

Notation PS := (ProtocolState V).
Implicit Types (u : PS) (b : list ReplyHandlerInfo).

Definition rh_key (rh : ReplyHandlerInfo) : Z * Z := (rh_c rh, rh_tokenid rh).

(** The handler that waits for the reply to a command of a channel. *)
Definition reply_entry u (c t : Z) : option ReplyHandlerInfo :=
  option_map fst (find_rh c t (bucket (ps_replies u) (reply_hash c t))).

(** No two handlers of a channel have the same token. *)
Record replies_ok u : Prop := {
  ro_length : Z.of_nat (length (ps_replies u)) = REPLY_HASH_SIZE;
  ro_keys h : NoDup (map rh_key (bucket (ps_replies u) h)) }.

Lemma reply_hash_range c t : 0 <= reply_hash c t < REPLY_HASH_SIZE.
Proof. apply Z.mod_pos_bound. done. Qed.

Lemma key_spec c t rh : reflect (rh_key rh = (c, t)) ((rh_c rh =? c) && (rh_tokenid rh =? t)).
Proof.
  unfold rh_key. destruct (Z.eqb_spec (rh_c rh) c), (Z.eqb_spec (rh_tokenid rh) t); constructor; congruence.
Qed.

Lemma find_rh_some c t b rh rest : find_rh c t b = Some (rh, rest) -> rh_key rh = (c, t) /\ rh ∈ b.
Proof.
  revert rest. induction b as [|y b IH]; intros rest; [done|]. cbn [find_rh]. destruct (key_spec c t y) as [Hy|Hy].
  - intros [= -> ->]. split; [done|left].
  - destruct (find_rh c t b) as [[z r]|]; [|done]. intros [= -> <-]. destruct (IH r eq_refl) as [? ?]. split; [done|by right].
Qed.

Lemma find_rh_none c t b : find_rh c t b = None -> (c, t) ∉ map rh_key b.
Proof.
  induction b as [|y b IH]; [by intros _ ?%elem_of_nil|]. cbn [find_rh map]. destruct (key_spec c t y) as [Hy|Hy]; [done|].
  destruct (find_rh c t b) as [[z r]|]; [done|]. intros _ [?|?]%elem_of_cons; [congruence|by apply IH].
Qed.

Lemma find_rh_absent c t b : (c, t) ∉ map rh_key b -> find_rh c t b = None.
Proof.
  intros Hn. destruct (find_rh c t b) as [[rh rest]|] eqn:E; [|done]. apply find_rh_some in E as [Hk Hin].
  destruct Hn. rewrite <- Hk. by apply list_elem_of_fmap_2.
Qed.

(** The bucket without a handler. *)
Lemma find_rh_rest c t b rh rest : NoDup (map rh_key b) -> find_rh c t b = Some (rh, rest) ->
  NoDup (map rh_key rest) /\ (forall k, k ∈ map rh_key rest -> k ∈ map rh_key b) /\
  forall c' t', option_map fst (find_rh c' t' rest) = if decide ((c', t') = (c, t)) then None else option_map fst (find_rh c' t' b).
Proof.
  revert rest. induction b as [|y b IH]; intros rest Hnd; [done|]. cbn [map] in Hnd. apply NoDup_cons in Hnd as [Hy Hnd].
  cbn [find_rh]. destruct (key_spec c t y) as [Hk|Hk].
  - intros [= -> ->]. split; [done|]. split; [by right|]. intros c' t'. case_decide as E.
    + injection E as -> ->. rewrite find_rh_absent; [done|by rewrite <- Hk].
    + destruct (key_spec c' t' rh); [congruence|]. by destruct (find_rh c' t' rest) as [[? ?]|].
  - destruct (find_rh c t b) as [[z r]|] eqn:Ez; [|done]. intros [= -> <-].
    destruct (IH r Hnd eq_refl) as (Hr & Hsub & Hf). split; [cbn [map]; apply NoDup_cons; split; [|done]; intros Hin; by apply Hy, Hsub|].
    split; [intros k; cbn [map]; rewrite !elem_of_cons; intros [?|?]; [by left|right; by apply Hsub]|]. intros c' t'. cbn [find_rh].
    destruct (key_spec c' t' y) as [Hk'|Hk'].
    + case_decide as E; [congruence|done].
    + specialize (Hf c' t'). destruct (find_rh c' t' r) as [[? ?]|], (find_rh c' t' b) as [[? ?]|]; cbn in *; done.
Qed.

(** The table after handlers have been added and removed. *)
Lemma entry_set u h b' c' t' : replies_ok u -> 0 <= h < REPLY_HASH_SIZE ->
  reply_entry (set_replies (set_bucket h b' (ps_replies u)) u) c' t' =
  if decide (reply_hash c' t' = h) then option_map fst (find_rh c' t' b') else reply_entry u c' t'.
Proof.
  intros [Hl _] Hh. unfold reply_entry. cbn [ps_replies set_replies]. pose proof (reply_hash_range c' t').
  rewrite bucket_set by lia. by case_decide.
Qed.

Lemma set_ok u h b' : replies_ok u -> 0 <= h < REPLY_HASH_SIZE -> NoDup (map rh_key b') ->
  replies_ok (set_replies (set_bucket h b' (ps_replies u)) u).
Proof.
  intros [Hl Hk] Hh Hb. constructor; cbn [ps_replies set_replies].
  - unfold set_bucket. by rewrite length_insert.
  - intros k. destruct (Z.leb_spec 0 k) as [Hk0|Hk0]; [rewrite bucket_set by lia; by case_decide|].
    assert (E : forall t : list (list ReplyHandlerInfo), bucket t k = bucket t 0) by (intros t; unfold bucket; f_equal; lia).
    rewrite E, bucket_set by lia. case_decide; [done|]. rewrite <- E. apply Hk.
Qed.

Lemma entry_add u rh : let h := reply_hash (rh_c rh) (rh_tokenid rh) in
  let u' := set_replies (set_bucket h (rh :: bucket (ps_replies u) h) (ps_replies u)) u in
  replies_ok u -> reply_entry u (rh_c rh) (rh_tokenid rh) = None ->
  replies_ok u' /\ forall c' t', reply_entry u' c' t' = if decide ((c', t') = rh_key rh) then Some rh else reply_entry u c' t'.
Proof.
  intros h u' Hok Hn. pose proof (reply_hash_range (rh_c rh) (rh_tokenid rh)) as Hh. split.
  - apply set_ok; [done|done|]. cbn [map]. apply NoDup_cons. split; [|by apply Hok]. apply find_rh_none.
    unfold reply_entry in Hn. fold h in Hn. by destruct (find_rh _ _ _).
  - intros c' t'. unfold u'. rewrite entry_set by done. cbn [find_rh]. unfold rh_key.
    destruct (key_spec c' t' rh) as [Hk|Hk].
    + unfold rh_key in Hk. injection Hk as <- <-. by rewrite !decide_True.
    + rewrite (decide_False (P := (c', t') = _)) by (unfold rh_key in Hk; congruence). case_decide as E; [|done].
      unfold reply_entry. rewrite E. by destruct (find_rh c' t' _) as [[? ?]|].
Qed.

(** [u'] is [u] without the handler for a token. *)
Record taken u (c t : Z) u' : Prop := {
  tk_ok : replies_ok u';
  tk_entry c' t' : reply_entry u' c' t' = if decide ((c', t') = (c, t)) then None else reply_entry u c' t';
  tk_rest : u' = set_replies (ps_replies u') u }.

Lemma find_reply_runs u c t (take : bool) : replies_ok u ->
  exists u', runs (find_reply_handler c t take) u (reply_entry u c t) u' /\
    match reply_entry u c t with Some _ => if take then taken u c t u' else u' = u | None => u' = u end.
Proof.
  intros Hok. unfold find_reply_handler. set (h := reply_hash c t). destruct (find_rh c t (bucket (ps_replies u) h)) as [[rh rest]|] eqn:E.
  - assert (Ee : reply_entry u c t = Some rh) by (unfold reply_entry; fold h; by rewrite E). rewrite Ee.
    pose proof (reply_hash_range c t) as Hh. fold h in Hh. destruct (find_rh_rest _ _ _ _ _ (ro_keys u Hok h) E) as (Hnd & _ & Hf).
    destruct take.
    + eexists. split; [eapply runs_bind; [apply runs_gets|]; cbn beta zeta; rewrite E; eapply runs_bind; [apply runs_modify|apply runs_ret]|].
      constructor; [by apply set_ok| |done]. intros c' t'. rewrite entry_set by done. case_decide as Eh.
      * rewrite Hf. case_decide; [done|]. unfold reply_entry. by rewrite Eh.
      * rewrite decide_False; [done|]. intros [= -> ->]. done.
    + eexists. split; [eapply runs_bind; [apply runs_gets|]; cbn beta zeta; rewrite E; eapply runs_bind; [apply runs_ret|apply runs_ret]|done].
  - assert (Ee : reply_entry u c t = None) by (unfold reply_entry; fold h; by rewrite E). rewrite Ee.
    exists u. split; [eapply runs_bind; [apply runs_gets|]; cbn beta zeta; rewrite E; apply runs_ret|done].
Qed.

(** ** Tokens *)

Definition with_token (t : Z) (x : Protocol) : Protocol :=
  mkProtocol (p_id x) (p_lock_cnt x) t (p_default_handler x) (p_client_data x).

Lemma entry_in u c t rh : reply_entry u c t = Some rh -> rh_key rh = (c, t) /\ rh ∈ concat (ps_replies u).
Proof.
  unfold reply_entry. destruct (find_rh c t _) as [[y rest]|] eqn:E; [|done]. cbn. intros [= ->].
  apply find_rh_some in E as [Hk Hin]. split; [done|]. unfold bucket in Hin. rewrite nth_lookup in Hin.
  destruct (ps_replies u !! _) as [b|] eqn:Eb; [|by apply elem_of_nil in Hin].
  apply list_elem_of_In, in_concat. exists b. split; [by apply list_elem_of_In; eapply list_elem_of_lookup_2|by apply list_elem_of_In].
Qed.

Lemma next_token_loop c p n : forall u x used,
  ps_protocols u !! p = Some x -> replies_ok u -> 0 <= p_tokenid x < 2 ^ 64 -> Z.of_nat n <= 2 ^ 64 ->
  NoDup used -> (forall t, t ∈ used -> exists rh, reply_entry u c t = Some rh) ->
  (forall i, 0 <= i < Z.of_nat n -> uwrap 64 (p_tokenid x + i) ∉ used) ->
  (length (concat (ps_replies u)) < n + length used)%nat ->
  exists t, runs (next_token n c p) u t (set_protocols (<[p := with_token (uwrap 64 (t + 1)) x]> (ps_protocols u)) u) /\
    0 <= t < 2 ^ 64 /\ reply_entry u c t = None.
Proof.
  induction n as [|n IH]; intros u x used Hp Hok Ht Hn Hnd Hused Hfut Hlen.
  - exfalso. cbn in Hlen. assert (length used <= length (map rh_tokenid (concat (ps_replies u))))%nat as Hle; [|rewrite length_map in Hle; lia].
    apply NoDup_ListNoDup in Hnd. apply (NoDup_incl_length Hnd). intros t Hin. apply list_elem_of_In in Hin.
    destruct (Hused t Hin) as [rh Hrh]. apply entry_in in Hrh as [Hk Hr]. injection Hk as _ <-. apply in_map. by apply list_elem_of_In.
  - cbn [next_token]. set (tok := p_tokenid x) in *. set (u1 := set_protocols (<[p := with_token (uwrap 64 (tok + 1)) x]> (ps_protocols u)) u).
    assert (Rg : runs (get_protocol p) u x u).
    { eapply runs_bind; [apply runs_gets|]. cbn beta. rewrite Hp. apply runs_ret. }
    assert (Hok1 : replies_ok u1) by (by destruct Hok; constructor).
    assert (Etok : uwrap 64 (tok + 0) = tok) by (rewrite Z.add_0_r; by apply uwrap_small).
    destruct (find_reply_runs u1 c tok false Hok1) as (u2 & R2 & Hu2). change (reply_entry u1) with (reply_entry u) in *.
    destruct (reply_entry u c tok) as [rh|] eqn:Ee; subst u2.
    + destruct (IH u1 (with_token (uwrap 64 (tok + 1)) x) (tok :: used)) as (t & R & Hb & He); cbn [with_token p_tokenid].
      * unfold u1. cbn. by rewrite lookup_insert_eq.
      * done.
      * by apply uwrap_range.
      * lia.
      * apply NoDup_cons. split; [|done]. rewrite <- Etok. apply Hfut. lia.
      * intros t [->|Hin]%elem_of_cons; [by exists rh|by apply Hused].
      * intros i Hi. assert (E : uwrap 64 (uwrap 64 (tok + 1) + i) = uwrap 64 (tok + (i + 1))).
        { unfold uwrap. rewrite Zplus_mod_idemp_l. f_equal. lia. }
        rewrite E. intros [Heq|Hin]%elem_of_cons; [|by apply (Hfut (i + 1)); [lia|]].
        unfold uwrap in Heq. assert (tok + (i + 1) < 2 ^ 64 \/ 2 ^ 64 <= tok + (i + 1) < 2 * 2 ^ 64) as [Hc|Hc] by lia.
        -- rewrite Z.mod_small in Heq by lia. lia.
        -- rewrite <- (Z_mod_plus_full _ (-1)), Z.mod_small in Heq by lia. lia.
      * change (ps_replies u1) with (ps_replies u). cbn [length]. lia.
      * exists t. split; [|done]. eapply runs_bind; [exact Rg|]. eapply runs_bind; [apply runs_modify|].
        eapply runs_bind; [exact R2|]. unfold u1 in R. cbn [ps_protocols set_protocols] in R. rewrite insert_insert_eq in R. exact R.
    + exists tok. split; [|done]. eapply runs_bind; [exact Rg|]. eapply runs_bind; [apply runs_modify|].
      eapply runs_bind; [exact R2|]. apply runs_ret.
Qed.
End Replies.

(** The number of a token in a message. *)
Definition token_of (token : list Z) : option Z :=
  let '(t, errno, rest) := strtoul token in if errno || negb (deref rest =? 0) then None else Some t.

Lemma span_digits_all l : Forall (fun ch => is_digit ch = true) l -> span_digits l = (l, []).
Proof. induction 1 as [|ch l Hch _ IH]; [done|]. cbn [span_digits]. by rewrite Hch, IH. Qed.

Lemma ulong_digits n : 0 <= n < 2 ^ 64 ->
  exists ch l, ulong_text n = ch :: l /\ Forall (fun ch => is_digit ch = true) (ch :: l) /\ digits_value 0 (ch :: l) = n /\
    (length (ch :: l) <= ULONG_DIGITS)%nat.
Proof.
  intros Hn. destruct (decimal_value ULONG_DIGITS n) as (ch & l & E & Hd & Hl & Hv); [by apply ulong_pow|unfold ULONG_DIGITS; lia|].
  exists ch, l. split; [exact E|]. split; [done|]. split; [|done]. cbn [digits_value fold_left]. exact Hv.
Qed.

Lemma token_of_ulong n : 0 <= n < 2 ^ 64 -> token_of (ulong_text n) = Some n.
Proof.
  intros Hn. destruct (ulong_digits n Hn) as (ch & l & E & Hd & Hv & _). unfold token_of, strtoul. rewrite E.
  assert (Hch : is_digit ch = true) by (by inversion Hd). pose proof Hch as Hch'. unfold is_digit in Hch'. bool_to_prop.
  assert (Es : skip_spaces (ch :: l) = ch :: l).
  { cbn [skip_spaces]. unfold isspace. rewrite (proj2 (Z.eqb_neq ch ch_space)) by lia.
    rewrite (proj2 (Z.leb_gt ch ch_cr)) by lia. by rewrite andb_false_r. }
  rewrite Es. cbn [deref hd]. rewrite (proj2 (Z.eqb_neq ch ch_minus)), (proj2 (Z.eqb_neq ch ch_plus)) by lia. cbn [orb].
  rewrite span_digits_all by done. rewrite Hv, (proj2 (Z.ltb_lt n (2 ^ 64))) by lia. done.
Qed.

Lemma ulong_text_text n : 0 <= n < 2 ^ 64 -> text (ulong_text n) /\ bytes (ulong_text n) /\ (length (ulong_text n) <= ULONG_DIGITS)%nat.
Proof.
  intros Hn. destruct (ulong_digits n Hn) as (ch & l & -> & Hd & _ & Hl). split; [|split; [|done]];
    (eapply Forall_impl; [exact Hd|]); cbn; unfold is_digit, is_byte; intros x Hx; bool_to_prop; lia.
Qed.

(** ** Properties *)

Section Messages.
Context {IS OS V : Type} `{InputStreamLaws IS} `{OutputStreamLaws OS} `{!ZeroCopy OS}.

Notation World := (World IS OS (ProtocolState V)).
Notation W := (M World).
Notation PS := (ProtocolState V).

Variable fuel : nat.
Variable call_command : Z -> list Z -> Z -> Z -> W unit.
Variable call_command_old : Z -> list Z -> Z -> W unit.
Variable call_event : Z -> Z -> Z -> W unit.
Variable call_event_old : Z -> Z -> W unit.
Variable call_message : Z -> Z -> list (list Z) -> Z -> W unit.
Variable call_message_old : Z -> Z -> list (list Z) -> W unit.
Variable call_reply : Z -> Z -> Z -> Z -> W unit.
Variable call_progress : Z -> Z -> Z -> W unit.
Variable call_connected : Z -> W unit.
Variable call_listener : Z -> Z -> W unit.
Variable is_closed : Z -> World -> bool.
Variable read_errno : Z -> W Z.

Notation handle_message := (handle_protocol_message fuel call_command call_command_old call_event call_event_old
  call_message call_message_old call_reply call_progress call_connected call_listener read_errno).
Notation call_reply_handler := (call_reply_handler fuel call_reply call_listener read_errno).

Implicit Types (ch : Channel IS OS) (j : list Z * N) (u : PS) (w : World).

Lemma writes_command t service name : 0 <= t < 2 ^ 64 -> bytes service -> bytes name ->
  writes (OS := OS) (write_stringz (str "C") ;! json_write_ulong t ;! write_stream 0 ;! write_stringz service ;! write_stringz name)
    (stringz [str "C"; ulong_text t; service; name]).
Proof.
  intros Ht Hs Hn. cbn [stringz map concat]. rewrite app_nil_r, <- (app_assoc (ulong_text t)).
  apply writes_bind; [apply writes_stringz_lem, str_bytes|]. apply writes_bind; [by apply writes_ulong|].
  apply writes_bind; [apply writes_byte; unfold is_byte; lia|]. apply writes_bind; by apply writes_stringz_lem.
Qed.

Lemma set_out_self ch : set_out (ch_out ch) ch = ch.
Proof. by destruct ch. Qed.

(** The state of the protocol after a command with the token [t]; [n] is the address of its handler. *)
Record sent u (p t : Z) (rh : ReplyHandlerInfo) u' : Prop := {
  sn_ok : replies_ok u';
  sn_entry c' t' : reply_entry u' c' t' = if decide ((c', t') = rh_key rh) then Some rh else reply_entry u c' t';
  sn_protocol x : ps_protocols u !! p = Some x -> ps_protocols u' = <[p := with_token (uwrap 64 (t + 1)) x]> (ps_protocols u);
  sn_rest : ps_messages u' = ps_messages u /\ ps_events u' = ps_events u /\ ps_services u' = ps_services u /\
    ps_failed u' = ps_failed u /\ ps_next u' = ps_next u + 1 /\ ps_rest u' = ps_rest u }.

(** C22: Sending a command always ends.  On a channel that is open and has had the Hello of its peer, it
    takes a token no other command of the channel waits under, writes the command with that token to the
    channel and nothing else, and leaves the handler under the token; the number the peer will send
    back, read as replies are read, is the token.  On any other channel nothing is written, and the
    handler is in the queue of those that are told that the channel is closed. *)
Theorem command_sent c service name hd progress data ch j u w l x :
  bytes service -> bytes name -> emits (ch_out ch) l -> replies_ok u -> Z.of_nat (length (concat (ps_replies u))) < 2 ^ 64 - 1 ->
  ps_protocols u !! ch_protocol ch = Some x -> 0 <= p_tokenid x < 2 ^ 64 ->
  (forall u', is_closed c (At c ch j u' w) = is_closed c (At c ch j u w)) ->
  exists o u', runs (protocol_send_command_with_progress is_closed c service name hd progress data)
      (At c ch j u w) (ps_next u) (At c (set_out o ch) j u' w) /\
    if is_closed c (At c ch j u w) || match ch_peer_service_list ch with None => true | Some _ => false end
    then o = ch_out ch /\ u' = set_failed (ps_failed u ++ [mkRH (ps_next u) 0 c hd progress data]) (set_next (ps_next u + 1) u)
    else exists t, emits o (l ++ stringz [str "C"; ulong_text t; service; name]) /\ token_of (ulong_text t) = Some t /\
      reply_entry u c t = None /\ sent u (ch_protocol ch) t (mkRH (ps_next u) t c hd progress data) u'.
Proof.
  intros Hs Hn He Hok Hlen Hx Htok Hcl. set (u1 := set_next (ps_next u + 1) u).
  assert (Hnew : runs new_address u (ps_next u) u1).
  { eapply runs_bind; [apply runs_gets|]. eapply runs_bind; [apply runs_modify|apply runs_ret]. }
  assert (Hgets : runs (is_channel_closed is_closed c) (At c ch j u1 w) (is_closed c (At c ch j u w)) (At c ch j u1 w)).
  { rewrite <- (Hcl u1). apply runs_gets. }
  set (cond := is_closed c (At c ch j u w) || match ch_peer_service_list ch with None => true | Some _ => false end).
  assert (Hhead : forall m o u', (forall b, b = cond -> runs (m (ch_protocol ch) (ps_next u) b) (At c ch j u1 w) tt (At c (set_out o ch) j u' w)) ->
    runs (let! p := chan c ch_protocol in let! ptr := on_user new_address in let! closed := is_channel_closed is_closed c in
          let! l := chan c ch_peer_service_list in
          m p ptr (closed || match l with None => true | Some _ => false end) ;! ret ptr)
      (At c ch j u w) (ps_next u) (At c (set_out o ch) j u' w)).
  { intros m o u' Hm. eapply runs_bind; [apply runs_chan|]. eapply runs_bind; [apply runs_user, Hnew|].
    eapply runs_bind; [exact Hgets|]. eapply runs_bind; [apply runs_chan|]. eapply runs_bind; [by apply Hm|apply runs_ret]. }
  destruct cond eqn:Ec.
  - exists (ch_out ch), (set_failed (ps_failed u ++ [mkRH (ps_next u) 0 c hd progress data]) u1). split; [|done].
    eapply (Hhead (fun p ptr (b : bool) => if b then _ else _)). intros b ->. rewrite set_out_self. apply runs_user. reflexivity.
  - assert (Hok1 : replies_ok u1) by (by destruct Hok; constructor).
    destruct (next_token_loop c (ch_protocol ch) (token_fuel u1) u1 x []) as (t & Rt & Ht & Hnone);
      [done|done|done|unfold token_fuel; cbn; lia|apply NoDup_nil_2|by intros t ?%elem_of_nil|by intros i _ ?%elem_of_nil|unfold token_fuel; cbn; lia|].
    set (u2 := set_protocols _ u1) in Rt. assert (Hok2 : replies_ok u2) by (by destruct Hok; constructor).
    destruct (writes_out c _ _ l ch j u2 w (writes_command t service name Ht Hs Hn) He) as (o & Ro & Eo).
    set (rh := mkRH (ps_next u) t c hd progress data).
    destruct (entry_add u2 rh Hok2 Hnone) as [Hok3 Hent]. cbn [rh_c rh_tokenid rh] in Hok3, Hent.
    eexists o, _. split.
    + eapply (Hhead (fun p ptr (b : bool) => if b then _ else _)). intros b ->.
      eapply runs_bind; [apply runs_user, runs_gets|]. eapply runs_bind; [apply runs_user, Rt|].
      eapply runs_bind; [exact Ro|]. apply runs_user, runs_modify.
    + exists t. split; [done|]. split; [by apply token_of_ulong|]. split; [done|]. constructor; [exact Hok3|exact Hent| |done].
      cbn. intros x' Hx'. rewrite Hx in Hx'. by injection Hx' as <-.
Qed.

(** The handler that waits for a reply with a token. *)
Definition waiting u (c : Z) (token : list Z) : option ReplyHandlerInfo :=
  match token_of token with Some t => reply_entry u c t | None => None end.

Lemma reply_lookup c token (tk : bool) ch j u w : replies_ok u ->
  exists u', (forall A (k : option ReplyHandlerInfo -> W A),
    (let '(tokenid, errno, rest) := strtoul token in
     let! rh := (if errno || negb (deref rest =? 0) then ret None else on_user (find_reply_handler c tokenid tk)) in k rh)
    (At c ch j u w) = k (waiting u c token) (At c ch j u' w)) /\
    match waiting u c token with
    | Some rh => if tk then taken u c (rh_tokenid rh) u' else u' = u
    | None => u' = u
    end.
Proof.
  intros Hok. unfold waiting, token_of. destruct (strtoul token) as [[t errno] rest] eqn:E.
  destruct (errno || negb (deref rest =? 0)) eqn:Eb.
  - exists u. split; [|done]. intros A k. done.
  - destruct (find_reply_runs u c t tk Hok) as (u' & R & Hu). exists u'. split.
    + intros A k. rewrite (bind_runs _ _ _ _ _ (runs_user c _ _ _ ch j u w R)). done.
    + destruct (reply_entry u c t) as [rh|] eqn:Ee; [|done]. apply entry_in in Ee as [Hk _]. injection Hk as _ ->. done.
Qed.

(** C6: A reply is given to the handler that waits under its token, and to it only.  [R] calls it with no
    error, where the results begin; [N] calls it with the error of an unknown command, after the message
    has been read to its end; both take the handler out of the table first, and leave every other
    handler.  [P] calls the progress handler, or skips the message, and the handler goes on waiting.  A
    token nobody waits under is an error of the protocol, or the business of the default handler. *)
Theorem reply_dispatch c kind token args rest ch j u w x :
  kind = ch_R \/ kind = ch_P \/ kind = ch_N ->
  text token -> (2 < fuel /\ length token < fuel)%nat -> arguments fuel args ->
  replies_ok u -> ps_protocols u !! ch_protocol ch = Some x ->
  yields (ch_inp ch) (stringz [[kind]; token] ++ args ++ MARKER_EOM :: rest) ->
  let t := take 255 token in
  exists i, yields i (args ++ MARKER_EOM :: rest) /\
  let w1 := fun u' => At c (set_inp i ch) j u' w in
  let called rh n := if has_reply_handler rh then call_reply_handler (rh_handler rh) c (rh_client_data rh) n
                     else skip_until_EOM fuel c in
  match waiting u c t with
  | Some rh =>
      if kind =? ch_P then
        handle_message c (At c ch j u w) =
          dispatched (match rh_progress rh with Some h => call_progress h c (rh_client_data rh)
                      | None => skip_until_EOM fuel c end (w1 u))
      else exists u', taken u c (rh_tokenid rh) u' /\
        if kind =? ch_R then handle_message c (At c ch j u w) = dispatched (called rh 0 (w1 u'))
        else exists i', yields i' rest /\
          handle_message c (At c ch j u w) = dispatched (called rh ERR_INV_COMMAND (At c (set_inp i' ch) j u' w))
  | None =>
      if has_default_handler x then handle_message c (At c ch j u w) =
        dispatched (call_default_handler call_message call_message_old (p_default_handler x) c [[kind]; t] (p_client_data x) (w1 u))
      else handle_message c (At c ch j u w) = (Throw ERR_PROTOCOL, w1 u)
  end.
Proof.
  intros Hkind Ht (Hf & Hft) Ha Hok Hx Hy t. cbn [stringz map concat] in Hy. norm_app_in Hy. cbn [app] in Hy.
  assert (0 < kind) as Hk0 by lia.
  destruct (message_head fuel call_command call_command_old call_event call_event_old call_message call_message_old call_reply call_progress
    call_connected call_listener read_errno c kind ch j u w _ Hf Hk0 Hy) as (i0 & Y0 & E0).
  destruct (on_stringz fuel c token 256 (set_inp i0 ch) j u w _ Ht Hft Y0) as (i & R1 & Y). rewrite set_inp_inp in R1.
  exists i. split; [done|]. intros w1 called.
  rewrite (proj2 (Z.eqb_neq kind ch_C)) in E0 by lia.
  assert ((kind =? ch_R) || (kind =? ch_P) || (kind =? ch_N) = true) as Hb by (destruct Hkind as [->|[->| ->]]; done).
  rewrite Hb in E0. cbv zeta in E0.
  destruct (reply_lookup c t (negb (kind =? ch_P)) (set_inp i ch) j u w Hok) as (u' & Hl & Hu).
  assert (E : forall m s2, handle_reply fuel call_message call_message_old call_reply call_progress call_listener read_errno c [kind]
      (At c (set_inp i0 ch) j u w) = catch (m ;! ret 0) (fun error => ret error) s2 ->
    handle_message c (At c ch j u w) = dispatched (m s2)).
  { intros m s2 Hm. rewrite E0, <- dispatched_catch. by apply bind_eq. }
  unfold handle_reply in E. rewrite (bind_runs _ _ _ _ _ R1) in E. cbn [deref hd] in E.
  change (take (256 - 1) token) with t in E.
  destruct (waiting u c t) as [rh|] eqn:Ew.
  - destruct (kind =? ch_P) eqn:Ep; cbn [negb] in Hl, Hu.
    + subst u'. apply E. apply catch_eq. etransitivity; [apply Hl|]. done.
    + exists u'. split; [done|]. destruct (kind =? ch_R) eqn:Er.
      * assert (kind =? ch_N = false) as En by (apply Z.eqb_neq; apply Z.eqb_eq in Er; lia).
        apply E. apply catch_eq. etransitivity; [apply Hl|]. cbv beta iota. rewrite En. done.
      * assert (kind =? ch_N = true) as En by (apply Z.eqb_eq; apply Z.eqb_neq in Er; apply Z.eqb_neq in Ep; lia).
        destruct (on_skip fuel c args (set_inp i ch) j u' w rest Ha Y) as (i' & R6 & Y'). exists i'. split; [done|].
        apply E. apply catch_eq. etransitivity; [apply Hl|]. cbv beta iota. rewrite En.
        assert (R7 : runs (skip_until_EOM fuel c ;! ret ERR_INV_COMMAND) (At c (set_inp i ch) j u' w) ERR_INV_COMMAND
          (At c (set_inp i' (set_inp i ch)) j u' w)) by (eapply runs_bind; [exact R6|apply runs_ret]).
        by rewrite (bind_runs _ _ _ _ _ R7).
  - subst u'. pose proof (channel_protocol_runs c (set_inp i ch) j u w x Hx) as R5. destruct (has_default_handler x) eqn:Ex.
    + apply E. apply catch_eq. etransitivity; [apply Hl|]. cbv beta iota. by rewrite (bind_runs _ _ _ _ _ R5), Ex.
    + rewrite (E (throw ERR_PROTOCOL) (w1 u)); [done|]. apply catch_eq. etransitivity; [apply Hl|]. cbv beta iota.
      by rewrite (bind_runs _ _ _ _ _ R5), Ex.
Qed.
End Messages.

(** ** Witnesses *)

Lemma replies_ok_intro {V} (u : ProtocolState V) : Z.of_nat (length (ps_replies u)) = REPLY_HASH_SIZE ->
  Forall (fun b => NoDup (map rh_key b)) (ps_replies u) -> replies_ok u.
Proof.
  intros Hl Hb. constructor; [done|]. intros h. unfold bucket. rewrite nth_lookup. rewrite Forall_lookup in Hb.
  destruct (ps_replies u !! Z.to_nat h) as [b|] eqn:E; [by eapply Hb|apply NoDup_nil_2].
Qed.

(** The tables of [demo_tables] with two commands that wait, one of them under the next token. *)
Definition demo_waiting : ProtocolState (list (list Z)) :=
  set_replies (set_bucket 3 [mkRH 2000 1 32 (ReplyHandlerCB 4) (Some 5) 6] (set_bucket 130 [mkRH 2001 128 32 (ReplyHandlerCB 7) None 8]
    (ps_replies demo_tables))) demo_tables.

Lemma demo_waiting_ok : replies_ok demo_waiting.
Proof. apply replies_ok_intro; [vm_compute; reflexivity|]. apply (bool_decide_unpack _). vm_compute. exact I. Qed.

Definition demo_open (input : list Z) : Channel ByteArrayInputStream ChannelTCP :=
  set_peer_services (Some [LOCATOR]) (demo_peer ChannelStateConnected input).

Lemma command_sent_witness :
  exists o u', runs (protocol_send_command_with_progress (fun _ _ => false) 32 (str "Memory") (str "get") (ReplyHandlerCB 9) None 0)
      (At 32 (demo_open []) ([], 0%N) demo_waiting demo_rest) (ps_next demo_waiting)
      (At 32 (set_out o (demo_open [])) ([], 0%N) u' demo_rest) /\
    exists t, emits o ([] ++ stringz [str "C"; ulong_text t; str "Memory"; str "get"]) /\ token_of (ulong_text t) = Some t /\
      reply_entry demo_waiting 32 t = None /\
      sent demo_waiting 1000 t (mkRH (ps_next demo_waiting) t 32 (ReplyHandlerCB 9) None 0) u'.
Proof.
  apply (command_sent (fun _ _ => false) 32 (str "Memory") (str "get") (ReplyHandlerCB 9) None 0 (demo_open []) ([], 0%N)
    demo_waiting demo_rest [] (mkProtocol 0 1 1 NoMessageHandler 0)).
  - apply str_bytes.
  - apply str_bytes.
  - apply new_output_emits.
  - apply demo_waiting_ok.
  - vm_compute. reflexivity.
  - vm_compute. reflexivity.
  - cbn. lia.
  - done.
Defined.

Definition demo_reply : list Z := stringz [[ch_R]; str "1"] ++ str "null" ++ MARKER_EOM :: [].

Lemma reply_dispatch_witness :
  exists i u', yields i (str "null" ++ MARKER_EOM :: []) /\ taken demo_waiting 32 1 u' /\
    demo_handle 32 (At 32 (demo_open demo_reply) ([], 0%N) demo_waiting demo_rest) =
      dispatched (note [4; 32; 6; 0] (At 32 (set_inp i (demo_open demo_reply)) ([], 0%N) u' demo_rest)).
Proof.
  destruct (reply_dispatch 100 (fun h token c d => note (h :: c :: d :: token)) (fun h token c => note (h :: c :: token))
    (fun h c d => note [h; c; d]) (fun h c => note [h; c]) (fun h c args d => note (h :: c :: d :: concat args))
    (fun h c args => note (h :: c :: concat args)) (fun h c d error => note [h; c; d; error]) (fun h c d => note [h; c; d])
    (fun c => note [c]) (fun l c => note [l; c]) (fun c => ret 0) 32 ch_R (str "1") (str "null") [] (demo_open demo_reply) ([], 0%N)
    demo_waiting demo_rest (mkProtocol 0 1 1 NoMessageHandler 0)) as (i & Y & E).
  - by left.
  - by apply demo_text.
  - cbn. lia.
  - split; [|cbn; lia]. by repeat constructor.
  - apply demo_waiting_ok.
  - vm_compute. reflexivity.
  - apply demo_yields.
  - exists i. cbv zeta in E.
    assert (Ew : waiting demo_waiting 32 (take 255 (str "1")) = Some (mkRH 2000 1 32 (ReplyHandlerCB 4) (Some 5) 6)) by (vm_compute; reflexivity).
    rewrite Ew in E. destruct E as (u' & Ht & E). exists u'. split; [exact Y|]. split; [exact Ht|exact E].
Defined.
