(* ===== verification/ProtocolClose.v ===== *)
(** * Closing a channel (Protocol.v, framework/protocol.c)

    [channel_closed] calls the handlers that still wait for a reply on the channel; a muted handler
    stays in the table when the channel goes on living after a redirect. *)

From S2P Require Import Prelude Streams OutputBuf JsonWrite JsonRead ChannelOut Channel ChannelProps.
From S2P Require Import Protocol ProtocolTables ProtocolProps ProtocolReplies.

(** ** Lists of cells *)

Definition ptrs (b : list ReplyHandlerInfo) : list Z := map rh_ptr b.

(** The location after the cells [pre]: the head of the bucket, or the [next] field of the last of them. *)
Definition loc_after (pre : list ReplyHandlerInfo) : option Z := option_map rh_ptr (last pre).

Lemma cells_after_app pre rh post : NoDup (ptrs (pre ++ rh :: post)) -> cells_after (rh_ptr rh) (pre ++ rh :: post) = Some post.
Proof.
  induction pre as [|x pre IH]; cbn [ptrs map app cells_after]; intros Hnd; apply NoDup_cons in Hnd as [Hx Hnd]; [by rewrite Z.eqb_refl|].
  destruct (Z.eqb_spec (rh_ptr x) (rh_ptr rh)) as [E|]; [|by apply IH]. destruct Hx. rewrite E. apply list_elem_of_fmap_2.
  apply elem_of_app. right. left.
Qed.

Lemma set_after_app pre rh post l : NoDup (ptrs (pre ++ rh :: post)) ->
  set_after (rh_ptr rh) l (pre ++ rh :: post) = Some (pre ++ rh :: l).
Proof.
  induction pre as [|x pre IH]; cbn [ptrs map app set_after]; intros Hnd; apply NoDup_cons in Hnd as [Hx Hnd]; [by rewrite Z.eqb_refl|].
  destruct (Z.eqb_spec (rh_ptr x) (rh_ptr rh)) as [E|]; [|by rewrite IH]. destruct Hx. rewrite E. apply list_elem_of_fmap_2.
  apply elem_of_app. right. left.
Qed.

Lemma cells_from_app pre post : NoDup (ptrs (pre ++ post)) -> cells_from (loc_after pre) (pre ++ post) = Some post.
Proof.
  destruct pre as [|x pre _] using rev_ind; [done|]. unfold loc_after. rewrite last_snoc, <- app_assoc. cbn [app option_map cells_from].
  apply cells_after_app.
Qed.

Lemma set_loc_app pre post l : NoDup (ptrs (pre ++ post)) -> set_loc (loc_after pre) l (pre ++ post) = Some (pre ++ l).
Proof.
  destruct pre as [|x pre _] using rev_ind; [done|]. unfold loc_after. rewrite last_snoc, <- !app_assoc. cbn [app option_map set_loc].
  apply set_after_app.
Qed.

Lemma mute_only pre rh post : NoDup (ptrs (pre ++ rh :: post)) ->
  map (fun x => if rh_ptr x =? rh_ptr rh then mute x else x) (pre ++ rh :: post) = pre ++ mute rh :: post.
Proof.
  unfold ptrs. rewrite map_app. cbn [map]. intros (Hpre & Hd & Hpost)%NoDup_app. apply NoDup_cons in Hpost as [Hrh Hpost].
  assert (Hid : forall l, rh_ptr rh ∉ map rh_ptr l -> map (fun x => if rh_ptr x =? rh_ptr rh then mute x else x) l = l).
  { induction l as [|y l IH]; [done|]. cbn [map]. intros [Hy Hn]%not_elem_of_cons.
    rewrite (proj2 (Z.eqb_neq _ _)) by congruence. by rewrite IH. }
  rewrite map_app. cbn [map]. rewrite Z.eqb_refl, !Hid; [done|done|]. intros Hin. apply (Hd _ Hin). left.
Qed.

(** ** What becomes of the handlers *)

Definition handler_id (h : ReplyHandler) : option Z :=
  match h with NoReplyHandler => None | ReplyHandlerCB h => Some h | redirect_done_handler h => Some h end.

(** The handlers of a channel, with their data. *)
Definition handlers_of (c : Z) (b : list ReplyHandlerInfo) : list (Z * Z) :=
  omap (fun rh => if rh_c rh =? c then option_map (fun h => (h, rh_client_data rh)) (handler_id (rh_handler rh)) else None) b.

Lemma handlers_app c b1 b2 : handlers_of c (b1 ++ b2) = handlers_of c b1 ++ handlers_of c b2.
Proof. apply omap_app. Qed.

(** The table after the channel was closed, or redirected. *)
Definition closed_bucket (st : ChannelState) (c : Z) (b : list ReplyHandlerInfo) : list ReplyHandlerInfo :=
  if decide (st = ChannelStateDisconnected) then List.filter (fun rh => negb (rh_c rh =? c)) b
  else map (fun rh => if rh_c rh =? c then mute rh else rh) b.

Definition no_redirect (c : Z) (b : list ReplyHandlerInfo) : Prop :=
  Forall (fun rh => rh_c rh = c -> forall h, rh_handler rh <> redirect_done_handler h) b.

(** ** Commands that are sent meanwhile *)

(** Handlers of commands to other channels than [c], at addresses from [p] to [p']. *)
Definition new_cells (c p p' : Z) (l : list ReplyHandlerInfo) : Prop :=
  Forall (fun rh => rh_c rh <> c) l /\ NoDup (ptrs l) /\ Forall (fun rh => p <= rh_ptr rh < p') l.

(** Cells have been added in front of a list, or of each list of a table. *)
Definition grows (c p p' : Z) (b b' : list ReplyHandlerInfo) : Prop := exists l, b' = l ++ b /\ new_cells c p p' l.
Definition grown (c p p' : Z) (t t' : list (list ReplyHandlerInfo)) : Prop := p <= p' /\ Forall2 (grows c p p') t t'.

(** The cells of a table are distinct, and not at free addresses. *)
Definition cells_ok (p : Z) (b : list ReplyHandlerInfo) : Prop := NoDup (ptrs b) /\ Forall (fun rh => rh_ptr rh < p) b.

Lemma ptrs_app l1 l2 : ptrs (l1 ++ l2) = ptrs l1 ++ ptrs l2.
Proof. apply map_app. Qed.

Lemma new_none c p p' : new_cells c p p' [].
Proof. split_and!; constructor. Qed.

Lemma new_app c p1 p2 p3 l1 l2 : p1 <= p2 <= p3 -> new_cells c p1 p2 l1 -> new_cells c p2 p3 l2 -> new_cells c p1 p3 (l2 ++ l1).
Proof.
  intros Hp (A1 & B1 & C1) (A2 & B2 & C2). split; [by apply Forall_app|]. split.
  - rewrite ptrs_app. apply NoDup_app. split; [done|]. split; [|done]. intros x (r2 & -> & H2)%list_elem_of_fmap (r1 & E & H1)%list_elem_of_fmap.
    rewrite Forall_forall in C1, C2. specialize (C1 _ H1). specialize (C2 _ H2). cbn in *. lia.
  - apply Forall_app. split; [eapply Forall_impl; [exact C2|]|eapply Forall_impl; [exact C1|]]; cbn; lia.
Qed.

Lemma grows_refl c p b : grows c p p b b.
Proof. exists []. split; [done|apply new_none]. Qed.

Lemma grown_refl c p t : grown c p p t t.
Proof. split; [lia|]. induction t; constructor; [apply grows_refl|done]. Qed.

Lemma grown_trans c p1 p2 p3 t1 t2 t3 : grown c p1 p2 t1 t2 -> grown c p2 p3 t2 t3 -> grown c p1 p3 t1 t3.
Proof.
  intros [H12 F12] [H23 F23]. split; [lia|]. revert t3 F23. induction F12 as [|b1 b2 t1 t2 (l1 & -> & N1) F12 IH]; intros t3 F23; inversion F23 as [|? b3 ? t3' (l2 & -> & N2) F23']; subst; constructor.
  - exists (l2 ++ l1). rewrite <- app_assoc. split; [done|]. eapply new_app; [|done..]. lia.
  - by apply IH.
Qed.

Lemma cells_grow c p p' b b' : p <= p' -> cells_ok p b -> grows c p p' b b' -> cells_ok p' b'.
Proof.
  intros Hp (Hnd & Hlt) (l & -> & _ & Hl & Hr). split.
  - rewrite ptrs_app. apply NoDup_app. split; [done|]. split; [|done]. intros x (r2 & -> & H2)%list_elem_of_fmap (r1 & E & H1)%list_elem_of_fmap.
    rewrite Forall_forall in Hlt, Hr. specialize (Hlt _ H1). specialize (Hr _ H2). cbn in *. lia.
  - apply Forall_app. split; [eapply Forall_impl; [exact Hr|]|eapply Forall_impl; [exact Hlt|]]; cbn; lia.
Qed.

Lemma table_grow c p p' t t' : Forall (cells_ok p) t -> grown c p p' t t' -> Forall (cells_ok p') t'.
Proof.
  intros Ht [Hp F]. induction F as [|b b' t t' Hb F IH]; [done|]. apply Forall_cons in Ht as [Hc Ht]. constructor; [by eapply cells_grow|by apply IH].
Qed.

Lemma grown_bucket c p p' t t' h : 0 <= h < Z.of_nat (length t) -> grown c p p' t t' -> grows c p p' (bucket t h) (bucket t' h).
Proof.
  intros Hh [_ F]. destruct (lookup_lt_is_Some_2 t (Z.to_nat h)) as [b Eb]; [lia|]. destruct (Forall2_lookup_l _ _ _ _ _ F Eb) as (b' & Eb' & Hb).
  unfold bucket. by rewrite !nth_lookup, Eb, Eb'.
Qed.

Lemma grown_set c p p' t t' h b l : grown c p p' t t' -> new_cells c p p' l -> grown c p p' (set_bucket h b t) (set_bucket h (l ++ b) t').
Proof. intros [Hp F] Hl. split; [done|]. apply Forall2_insert; [done|]. by exists l. Qed.

Lemma handlers_new c p p' l : new_cells c p p' l -> handlers_of c l = [].
Proof. intros [H _]. induction H as [|rh l Hc _ IH]; [done|]. unfold handlers_of in *. cbn [omap list_omap]. by rewrite (proj2 (Z.eqb_neq _ _) Hc). Qed.

Lemma handlers_grown c p p' t t' : Forall2 (grows c p p') t t' -> handlers_of c (concat t') = handlers_of c (concat t).
Proof.
  induction 1 as [|b b' t t' (l & -> & Hl) F IH]; [done|]. cbn [concat]. by rewrite !handlers_app, IH, (handlers_new _ _ _ _ Hl).
Qed.

Lemma closed_app st c b1 b2 : closed_bucket st c (b1 ++ b2) = closed_bucket st c b1 ++ closed_bucket st c b2.
Proof. unfold closed_bucket. case_decide; [apply List.filter_app|apply map_app]. Qed.

Lemma closed_new st c p p' l : new_cells c p p' l -> closed_bucket st c l = l.
Proof.
  intros [H _]. unfold closed_bucket. case_decide; induction H as [|rh l Hc _ IH]; [done| |done|]; cbn [List.filter map]; by rewrite (proj2 (Z.eqb_neq _ _) Hc), IH.
Qed.

Lemma closed_grown st c p p' t t' : Forall2 (grows c p p') t t' -> Forall2 (grows c p p') (map (closed_bucket st c) t) (map (closed_bucket st c) t').
Proof.
  induction 1 as [|b b' t t' (l & -> & Hl) F IH]; constructor; [|done]. exists l. by rewrite closed_app, (closed_new _ _ _ _ _ Hl).
Qed.

Lemma redirect_grows c p p' b b' : grows c p p' b b' -> no_redirect c b -> no_redirect c b'.
Proof. intros (l & -> & H & _) Hb. apply Forall_app. split; [|done]. eapply Forall_impl; [exact H|]. by intros rh Hc E. Qed.

Section Close.
Context {IS OS V : Type} `{InputStream IS} `{OutputStream OS} `{!ZeroCopy OS}.

Notation World := (World IS OS (ProtocolState V)).
Notation W := (M World).

Variable fuel : nat.
Variable call_reply : Z -> Z -> Z -> Z -> W unit.
Variable call_listener : Z -> Z -> W unit.
Variable read_errno : Z -> W Z.
Variable c : Z.
(** What the handlers have noted. *)
Variable log : V -> list (Z * Z).

Notation replies w := (ps_replies (w_user w)).
Notation next w := (ps_next (w_user w)).
Notation state w := (ch_state (w_channels w c)).
Notation noted w := (log (ps_rest (w_user w))).

(** What a handler that is told that the channel is closed may do: it may throw an exception, send commands to other
    channels, which enters their handlers in the table, and change anything but the entries of the table and the state of the
    channel. *)
Definition polite : Prop := forall h d (w : World), exists r w',
  call_reply h c d ERR_CHANNEL_CLOSED w = (r, w') /\ (r = Val tt \/ exists e, r = Throw e) /\
  grown c (next w) (next w') (replies w) (replies w') /\ state w' = state w /\ noted w' = noted w ++ [(h, d)].

Hypothesis Hpolite : polite.

Lemma call_one rh (w : World) : rh_c rh = c -> state w = ChannelStateDisconnected \/ no_redirect c [rh] ->
  exists w', runs (if has_reply_handler rh then
      catch (call_reply_handler fuel call_reply call_listener read_errno (rh_handler rh) c (rh_client_data rh) ERR_CHANNEL_CLOSED)
        (fun _ => ret tt) else ret tt) w tt w' /\
    grown c (next w) (next w') (replies w) (replies w') /\ state w' = state w /\ noted w' = noted w ++ handlers_of c [rh].
Proof.
  intros Hc Hr. unfold handlers_of, has_reply_handler. cbn [omap list_omap]. rewrite (proj2 (Z.eqb_eq _ _) Hc).
  assert (Hcall : forall m h, (m = call_reply h c (rh_client_data rh) ERR_CHANNEL_CLOSED \/ m w = call_reply h c (rh_client_data rh) ERR_CHANNEL_CLOSED w) ->
    exists w', runs (catch m (fun _ => ret tt)) w tt w' /\
    grown c (next w) (next w') (replies w) (replies w') /\ state w' = state w /\ noted w' = noted w ++ [(h, rh_client_data rh)]).
  { intros m h Hm. destruct (Hpolite h (rh_client_data rh) w) as (r & w' & E & Hres & Hrest). exists w'. split; [|done].
    unfold runs, catch. replace (m w) with (r, w') by (destruct Hm as [-> | ->]; done). by destruct Hres as [->|[e ->]]. }
  destruct (rh_handler rh) as [|h|h] eqn:Eh; cbn [handler_id option_map].
  - exists w. split; [apply runs_ret|]. rewrite app_nil_r. split; [apply grown_refl|done].
  - apply Hcall. by left.
  - apply Hcall. right. destruct Hr as [Hst|Hr]; [|inversion Hr as [|? ? Hrd _]; by destruct (Hrd Hc h)].
    cbn [call_reply_handler]. unfold redirect_done. change (ERR_CHANNEL_CLOSED =? 0) with false. cbv iota.
    assert (R : runs (let! st := chan c ch_state in
       (if bool_decide (st = ChannelStateRedirectSent) then set_channel_state c ChannelStateConnected
        else cassert (bool_decide (st = ChannelStateDisconnected))) ;! ret ERR_CHANNEL_CLOSED) w ERR_CHANNEL_CLOSED w).
    { eapply runs_bind; [apply runs_gets|]. cbv beta. rewrite Hst. apply runs_ret. }
    by rewrite (bind_runs _ _ _ _ _ R).
Qed.

Lemma get_bucket_runs h (w : World) : runs (get_bucket h) w (bucket (replies w) h) w.
Proof. unfold get_bucket, on_user. unfold runs, zoom, gets. by destruct w. Qed.

Lemma put_bucket_runs h b (w : World) : 0 <= h < Z.of_nat (length (replies w)) ->
  exists w', runs (put_bucket h b) w tt w' /\ replies w' = set_bucket h b (replies w) /\ bucket (replies w') h = b /\
    next w' = next w /\ state w' = state w /\ noted w' = noted w.
Proof.
  intros Hh. eexists. split; [apply runs_zoom, runs_modify|]. split; [done|]. split; [|done].
  change (bucket (set_bucket h b (replies w)) h = b). rewrite bucket_set by lia. by rewrite decide_True.
Qed.

Lemma set_bucket_twice {A} h (b1 b2 : list A) t : set_bucket h b2 (set_bucket h b1 t) = set_bucket h b2 t.
Proof. apply list_insert_insert_eq. Qed.

Lemma set_bucket_same (t : list (list ReplyHandlerInfo)) h : 0 <= h < Z.of_nat (length t) -> set_bucket h (bucket t h) t = t.
Proof.
  intros Hh. apply list_insert_id. unfold bucket. rewrite nth_lookup. destruct (lookup_lt_is_Some_2 t (Z.to_nat h)) as [b Eb]; [lia|]. by rewrite Eb.
Qed.

(** The cells that are in front of the ones to look at, when a handler has added [l] and the location is after [pre]; the cells added while
    [rhp] is the head of the list are dropped with the cell that is removed. *)
Definition in_front (l pre : list ReplyHandlerInfo) : list ReplyHandlerInfo := match pre with [] => [] | _ => l end.

Lemma loc_front l pre : loc_after (in_front l pre ++ pre) = loc_after pre.
Proof. destruct pre as [|x pre _] using rev_ind; [done|]. unfold loc_after. destruct (pre ++ [x]) eqn:E; [by destruct pre|]. rewrite <- E. cbn [in_front]. by rewrite app_assoc, !last_snoc. Qed.

Lemma set_loc_front l pre rh post : NoDup (ptrs (l ++ pre ++ rh :: post)) ->
  set_loc (loc_after pre) post (l ++ pre ++ rh :: post) = Some ((in_front l pre ++ pre) ++ post).
Proof.
  intros Hnd. destruct pre as [|x pre]; [done|]. cbn [in_front]. rewrite <- (set_loc_app (l ++ x :: pre) (rh :: post) post).
  - rewrite <- (loc_front l (x :: pre)). cbn [in_front]. by rewrite <- (app_assoc l).
  - by rewrite <- app_assoc.
Qed.

Lemma new_front p p' l pre : new_cells c p p' l -> new_cells c p p' (in_front l pre).
Proof. destruct pre; [intros _; apply new_none|done]. Qed.

Lemma sub_cells p l b1 rh b2 : cells_ok p (l ++ b1 ++ rh :: b2) -> cells_ok p ((in_front l b1 ++ b1) ++ b2).
Proof.
  intros [Hnd Hlt]. assert (Hs : sublist ((in_front l b1 ++ b1) ++ b2) (l ++ b1 ++ rh :: b2)).
  { rewrite <- app_assoc. apply sublist_app; [destruct b1; [apply sublist_nil_l|done]|]. apply sublist_app; [done|by apply sublist_cons]. }
  split; [eapply sublist_NoDup; [exact Hnd|by apply (fmap_sublist rh_ptr)]|].
  apply Forall_forall. intros x Hx. rewrite Forall_forall in Hlt. apply Hlt. by eapply elem_of_sublist.
Qed.

(** The loop over a bucket, after the cells [pre]. *)
Lemma close_bucket_runs n h : forall post pre (w : World), (length post < n)%nat ->
  0 <= h < Z.of_nat (length (replies w)) -> bucket (replies w) h = pre ++ post -> cells_ok (next w) (pre ++ post) ->
  state w = ChannelStateDisconnected \/ no_redirect c post ->
  exists w', runs (close_bucket fuel call_reply call_listener read_errno n c h (loc_after pre)) w tt w' /\
    grown c (next w) (next w') (set_bucket h (pre ++ closed_bucket (state w) c post) (replies w)) (replies w') /\ state w' = state w /\
    noted w' = noted w ++ handlers_of c post.
Proof.
  induction n as [|n IH]; intros post pre w Hn Hh Hb Hok Hst; [lia|]. cbn [close_bucket]. pose proof Hok as [Hnd _].
  destruct post as [|rh post].
  - exists w. split.
    { eapply runs_bind; [apply get_bucket_runs|]. rewrite Hb, cells_from_app by done. apply runs_ret. }
    assert (E : closed_bucket (state w) c [] = []) by (unfold closed_bucket; by case_decide).
    rewrite E, <- Hb, set_bucket_same, app_nil_r by done. split; [apply grown_refl|done].
  - destruct (Z.eqb_spec (rh_c rh) c) as [Hc|Hc].
    + destruct (call_one rh w Hc) as (w1 & R1 & Hg1 & Hs1 & Hl1).
      { destruct Hst as [Hst|Hst]; [by left|right]. inversion Hst; subst. by repeat constructor. }
      destruct (grown_bucket _ _ _ _ _ h Hh Hg1) as (l & E1 & Hl). rewrite Hb in E1.
      assert (Hok1 : cells_ok (next w1) (l ++ pre ++ rh :: post)) by (eapply cells_grow; [apply Hg1|exact Hok|by exists l]). pose proof Hok1 as [Hnd1 _].
      assert (Hlen1 : length (replies w1) = length (replies w)) by (symmetry; eapply Forall2_length, Hg1).
      assert (Ea : cells_after (rh_ptr rh) (l ++ pre ++ rh :: post) = Some post) by (rewrite app_assoc in Hnd1 |- *; by apply cells_after_app).
      assert (Hstart : forall k, runs (let! st := chan c ch_state in
          let! b := get_bucket h in
          match cells_after (rh_ptr rh) b with
          | None => fault
          | Some next =>
              if negb (bool_decide (st = ChannelStateDisconnected)) then
                put_bucket h (map (fun x => if rh_ptr x =? rh_ptr rh then mute x else x) b) ;!
                close_bucket fuel call_reply call_listener read_errno n c h (Some (rh_ptr rh))
              else
                match set_loc (loc_after pre) next b with
                | None => fault
                | Some b' => put_bucket h b' ;! close_bucket fuel call_reply call_listener read_errno n c h (loc_after pre)
                end
          end) w1 tt k -> runs (close_bucket fuel call_reply call_listener read_errno (S n) c h (loc_after pre)) w tt k).
      { intros k Hk. cbn [close_bucket]. eapply runs_bind; [apply get_bucket_runs|]. rewrite Hb, cells_from_app by done. cbn beta iota.
        rewrite (proj2 (Z.eqb_eq _ _) Hc). eapply runs_bind; [exact R1|exact Hk]. }
      assert (Hsplit : closed_bucket (state w) c (rh :: post) =
        if decide (state w = ChannelStateDisconnected) then closed_bucket (state w) c post else mute rh :: closed_bucket (state w) c post).
      { unfold closed_bucket. case_decide; cbn [List.filter map]; by rewrite (proj2 (Z.eqb_eq _ _) Hc). }
      rewrite Hsplit. clear Hsplit. case_decide as Hd.
      * destruct (put_bucket_runs h ((in_front l pre ++ pre) ++ post) w1) as (w2 & R2 & Hr2 & Hb2 & Hn2 & Hs2 & Hl2); [by rewrite Hlen1|].
        destruct (IH post (in_front l pre ++ pre) w2) as (w' & R & Hg & Hs & Hl'); cbn in Hn; try lia; try done.
        -- rewrite Hr2. unfold set_bucket. by rewrite length_insert, Hlen1.
        -- rewrite Hn2. by eapply sub_cells.
        -- left. congruence.
        -- exists w'. split; [|split; [|split; [congruence|]]].
           ++ apply Hstart. eapply runs_bind; [apply runs_gets|]. eapply runs_bind; [apply get_bucket_runs|]. rewrite E1, Ea.
              rewrite Hs1, Hd. rewrite bool_decide_eq_true_2 by done. cbn [negb]. rewrite set_loc_front by done.
              eapply runs_bind; [exact R2|]. rewrite loc_front in R. exact R.
           ++ rewrite Hn2, Hr2, Hs2, Hs1, set_bucket_twice, <- app_assoc in Hg. eapply grown_trans; [|exact Hg]. apply grown_set; [done|by apply new_front].
           ++ by rewrite Hl', Hl2, Hl1, <- app_assoc, <- handlers_app.
      * rewrite app_assoc in E1, Hnd1, Ea. rewrite app_assoc in Hok1.
        destruct (put_bucket_runs h ((l ++ pre) ++ mute rh :: post) w1) as (w2 & R2 & Hr2 & Hb2 & Hn2 & Hs2 & Hl2); [by rewrite Hlen1|].
        destruct (IH post ((l ++ pre) ++ [mute rh]) w2) as (w' & R & Hg & Hs & Hl'); cbn in Hn; try lia.
        -- rewrite Hr2. unfold set_bucket. by rewrite length_insert, Hlen1.
        -- by rewrite <- (app_assoc (l ++ pre)).
        -- rewrite Hn2, <- (app_assoc (l ++ pre)). destruct Hok1 as [? Hlt]. split; [unfold ptrs in *; by rewrite map_app in *|].
           apply Forall_app in Hlt as [? Hlt]. apply Forall_cons in Hlt as [? ?]. apply Forall_app. split; [done|]. by constructor.
        -- right. destruct Hst as [Hst|Hst]; [done|by inversion Hst].
        -- exists w'. split; [|split; [|split; [congruence|]]].
           ++ apply Hstart. eapply runs_bind; [apply runs_gets|]. eapply runs_bind; [apply get_bucket_runs|]. rewrite E1, Ea.
              rewrite Hs1. rewrite bool_decide_eq_false_2 by done. cbn [negb]. rewrite mute_only by done.
              eapply runs_bind; [exact R2|]. unfold loc_after in R. rewrite last_snoc in R. exact R.
           ++ rewrite Hn2, Hr2, Hs2, Hs1, set_bucket_twice, <- !app_assoc in Hg. eapply grown_trans; [|exact Hg]. by apply grown_set.
           ++ by rewrite Hl', Hl2, Hl1, <- app_assoc, <- handlers_app.
    + destruct (IH post (pre ++ [rh]) w) as (w' & R & Hr & Hs & Hl); cbn in Hn; try lia; try done.
      * by rewrite <- app_assoc.
      * by rewrite <- app_assoc.
      * destruct Hst as [Hst|Hst]; [by left|right; by inversion Hst].
      * exists w'. split; [|split; [|split; [done|]]].
        -- eapply runs_bind; [apply get_bucket_runs|]. rewrite Hb, cells_from_app by done. cbn beta iota. rewrite (proj2 (Z.eqb_neq _ _) Hc).
           unfold loc_after in R. rewrite last_snoc in R. exact R.
        -- rewrite <- app_assoc in Hr. replace (closed_bucket (state w) c (rh :: post)) with (rh :: closed_bucket (state w) c post); [exact Hr|].
           unfold closed_bucket. case_decide; cbn [List.filter map]; by rewrite (proj2 (Z.eqb_neq _ _) Hc).
        -- rewrite Hl. f_equal. unfold handlers_of. cbn [omap list_omap]. by rewrite (proj2 (Z.eqb_neq _ _) Hc).
Qed.

(** The cells of the table are distinct, and the redirects of a channel are over before it is redirected. *)
Definition bucket_ok (p : Z) (st : ChannelState) (b : list ReplyHandlerInfo) : Prop :=
  cells_ok p b /\ (st = ChannelStateDisconnected \/ no_redirect c b).

Lemma ok_grow p p' st t t' : p <= p' -> Forall2 (grows c p p') t t' -> Forall (bucket_ok p st) t -> Forall (bucket_ok p' st) t'.
Proof.
  intros Hp. induction 1 as [|b b' t t' Hb F IH]; [done|]. intros [[Hc Hr] Ht]%Forall_cons. constructor; [|by apply IH].
  split; [by eapply cells_grow|]. destruct Hr; [by left|right]. by eapply redirect_grows.
Qed.

Lemma bucket_at {A} (pre : list (list A)) b post : bucket (pre ++ b :: post) (Z.of_nat (length pre)) = b.
Proof. unfold bucket. rewrite Nat2Z.id. by rewrite app_nth2, Nat.sub_diag by lia. Qed.

Lemma set_bucket_at {A} (pre : list (list A)) b b' post :
  set_bucket (Z.of_nat (length pre)) b' (pre ++ b :: post) = pre ++ b' :: post.
Proof. unfold set_bucket. rewrite Nat2Z.id. rewrite insert_app_r_alt by lia. by rewrite Nat.sub_diag. Qed.

Lemma close_replies_runs n : forall post pre (w : World), length post = n -> replies w = pre ++ post -> Forall (bucket_ok (next w) (state w)) post ->
  exists w', runs (close_replies fuel call_reply call_listener read_errno n c (Z.of_nat (length pre))) w tt w' /\
    grown c (next w) (next w') (pre ++ map (closed_bucket (state w) c) post) (replies w') /\ state w' = state w /\
    noted w' = noted w ++ handlers_of c (concat post).
Proof.
  induction n as [|n IH]; intros post pre w Hn Hw Hpost; (destruct post as [|b post]; [try done|try done]); cbn [close_replies map concat].
  - exists w. split; [apply runs_ret|]. rewrite <- Hw. split; [apply grown_refl|]. split; [done|]. change (handlers_of c []) with (@nil (Z * Z)). by rewrite app_nil_r.
  - apply Forall_cons in Hpost as [[Hok Hst] Hpost].
    destruct (close_bucket_runs (S (length b)) (Z.of_nat (length pre)) b [] w) as (w1 & R1 & Hg1 & Hs1 & Hl1); try done; [lia| | |].
    { rewrite Hw, length_app. cbn. lia. }
    { by rewrite Hw, bucket_at. }
    rewrite Hw in Hg1. cbn [app] in Hg1. rewrite set_bucket_at in Hg1. pose proof Hg1 as [Hp F].
    apply Forall2_app_inv_l in F as (pre1 & t1 & Fpre & F & E1). inversion F as [|? b1 ? post1 Hb Fpost]; subst.
    destruct (IH post1 (pre1 ++ [b1]) w1) as (w' & R & Hg & Hs & Hl).
    { rewrite <- (Forall2_length _ _ _ Fpost). by injection Hn. }
    { by rewrite E1, <- app_assoc. }
    { rewrite Hs1. by eapply ok_grow. }
    exists w'. split; [|split; [|split; [congruence|]]].
    + eapply runs_bind; [apply get_bucket_runs|]. rewrite Hw, bucket_at. eapply runs_bind; [exact R1|].
      rewrite length_app in R. cbn [length] in R. rewrite <- (Forall2_length _ _ _ Fpre) in R.
      replace (Z.of_nat (length pre) + 1) with (Z.of_nat (length pre + 1)) by lia. exact R.
    + rewrite <- app_assoc, Hs1 in Hg. eapply grown_trans; [|exact Hg]. split; [done|]. apply Forall2_app; [done|].
      constructor; [done|by apply closed_grown].
    + by rewrite Hl, Hl1, <- app_assoc, handlers_app, (handlers_grown _ _ _ _ _ Fpost).
Qed.

(** C8: Every command to a channel is answered when the channel is closed: each handler that waits for a
    reply on the channel is called exactly once, with the error of a closed channel, in the order of the
    table; the handlers of other channels are not called.  The handlers may throw exceptions, send commands to other channels and
    change anything else, but not the state of the channel and the entries of the table ([polite]).  In the end the table is the old one, where
    nothing of the channel is left after a disconnection, and after a redirection its tokens stay reserved for replies that
    will not be delivered; in front of the lists of the table are entries of commands that the handlers have sent.  These need not be all of them:
    one that is sent while the list it falls into is being walked, from its head, is dropped ([new_handler_dropped]).  The event handlers
    and the services of the channel are gone, those of others remain, and so does no list of the services of the peer.  If the channel is not
    disconnected, no redirect command waits for its reply ([bucket_ok]). *)
Theorem channel_closed_replies (w : World) :
  Z.of_nat (length (replies w)) = REPLY_HASH_SIZE -> Forall (bucket_ok (next w) (state w)) (replies w) ->
  exists w1 w', runs (on_user (close_handlers c)) w tt w1 /\
    ps_events (w_user w1) = map (List.filter (fun eh => negb (eh_c eh =? c))) (ps_events (w_user w)) /\
    ps_services (w_user w1) = List.filter (fun s => negb (si_owner s =? c)) (ps_services (w_user w)) /\
    runs (channel_closed fuel call_reply call_listener read_errno c) w tt w' /\
    noted w' = noted w ++ handlers_of c (concat (replies w)) /\
    grown c (next w) (next w') (map (closed_bucket (state w) c) (replies w)) (replies w') /\
    ch_peer_service_list (w_channels w' c) = None /\ state w' = state w.
Proof.
  intros Hlen Hok. set (w1 := snd (on_user (close_handlers c) w)).
  assert (R1 : runs (on_user (close_handlers c)) w tt w1) by done.
  destruct (close_replies_runs (length (replies w)) (replies w1) [] w1) as (w2 & R2 & Hg2 & Hs2 & Hl2); [done|done|exact Hok|].
  exists w1. eexists. split; [exact R1|]. split; [done|]. split; [done|]. split.
  - eapply runs_bind; [exact R1|]. eapply runs_bind; [|apply runs_modify].
    rewrite <- Hlen, Nat2Z.id. exact R2.
  - cbn [w_user w_channels upd_channel]. rewrite Z.eqb_refl. split; [exact Hl2|]. split; [exact Hg2|]. split; [done|exact Hs2].
Qed.
(** C38: A handler that is told of a closed channel loses the command it sends, if its token falls into the list in which the waiting
    command was at the head: the loop of [channel_closed] assigns the rest of the list to the head, and with it drops the new entries, so the
    command is on its way but its reply will not find a handler. *)
Theorem new_handler_dropped n h rh post f l (w w1 : World) : 0 <= h < Z.of_nat (length (replies w)) ->
  bucket (replies w) h = rh :: post -> cells_ok (next w) (rh :: post) -> rh_c rh = c -> rh_handler rh = ReplyHandlerCB f ->
  call_reply f c (rh_client_data rh) ERR_CHANNEL_CLOSED w = (Val tt, w1) -> bucket (replies w1) h = l ++ rh :: post ->
  state w1 = ChannelStateDisconnected -> (length post < n)%nat ->
  exists w', runs (close_bucket fuel call_reply call_listener read_errno (S n) c h None) w tt w' /\
    forall x, x ∈ l -> x ∉ bucket (replies w') h.
Proof.
  intros Hh Hb Hok Hc Hf Hcall Hb1 Hst Hn. destruct (Hpolite f (rh_client_data rh) w) as (r & w1' & E & _ & Hg & _). rewrite Hcall in E. injection E as <- <-.
  assert (Hok1 : cells_ok (next w1) (l ++ rh :: post)).
  { eapply cells_grow; [apply Hg|exact Hok|]. pose proof (grown_bucket _ _ _ _ _ h Hh Hg) as Hx. by rewrite Hb, Hb1 in Hx. }
  assert (Hlen1 : length (replies w1) = length (replies w)) by (symmetry; eapply Forall2_length, Hg). pose proof Hok1 as [Hnd1 Hlt1].
  destruct (put_bucket_runs h post w1) as (w2 & R2 & Hr2 & Hb2 & Hn2 & Hs2 & _); [by rewrite Hlen1|].
  destruct (close_bucket_runs n h post [] w2) as (w' & R & Hg' & _); [done|rewrite Hr2; unfold set_bucket; by rewrite length_insert, Hlen1|done|
    rewrite Hn2; by apply (sub_cells _ l [] rh)|left; congruence|].
  exists w'. split.
  - cbn [close_bucket]. eapply runs_bind; [apply get_bucket_runs|]. rewrite Hb. cbn [cells_from]. rewrite (proj2 (Z.eqb_eq _ _) Hc). unfold has_reply_handler. rewrite Hf.
    eapply runs_bind; [unfold runs, catch; cbn [call_reply_handler]; by rewrite Hcall|]. eapply runs_bind; [apply runs_gets|].
    eapply runs_bind; [apply get_bucket_runs|]. rewrite Hb1, (cells_after_app l) by done. rewrite Hst. cbn [bool_decide negb].
    rewrite bool_decide_eq_true_2 by done. cbn [negb set_loc]. eapply runs_bind; [exact R2|exact R].
  - intros x Hx Hin. assert (Hh2 : 0 <= h < Z.of_nat (length (set_bucket h (closed_bucket (state w2) c post) (replies w2)))).
    { rewrite Hr2. unfold set_bucket. rewrite !length_insert, Hlen1. done. }
    destruct (grown_bucket _ _ _ _ _ h Hh2 Hg') as (l' & E & _ & _ & Hl').
    assert (Eb : bucket (set_bucket h (closed_bucket (state w2) c post) (replies w2)) h = closed_bucket (state w2) c post).
    { rewrite bucket_set; [by rewrite decide_True| |lia]. rewrite Hr2. unfold set_bucket. by rewrite length_insert, Hlen1. }
    rewrite E, Eb in Hin.
    apply elem_of_app in Hin as [Hin|Hin].
    + rewrite Forall_forall in Hl', Hlt1. specialize (Hl' _ Hin). specialize (Hlt1 x ltac:(set_solver)). cbn in *. lia.
    + assert (Hp : rh_ptr x ∈ ptrs post).
      { apply list_elem_of_fmap. destruct (decide (state w2 = ChannelStateDisconnected)) as [Ed|Ed]; [|by rewrite Hs2 in Ed].
        unfold closed_bucket in Hin. rewrite decide_True in Hin by done. exists x. split; [done|]. apply list_elem_of_In, filter_In in Hin as [Hin _]. by apply list_elem_of_In. }
      rewrite ptrs_app in Hnd1. apply NoDup_app in Hnd1 as (_ & Hd & _). apply (Hd (rh_ptr x)); [apply list_elem_of_fmap; by exists x|]. by right.
Qed.
End Close.

(** ** Witnesses *)

Notation CloseWorld := (World ByteArrayInputStream ChannelTCP (ProtocolState (list (Z * Z)))).

(** The handler of a command with the token 4 to the channel 48 is entered in the table. *)
Definition enter_command (h : Z) : M CloseWorld unit :=
  on_user (let! ptr := new_address in
           let hash := reply_hash 48 4 in
           modify (fun u => set_replies (set_bucket hash (mkRH ptr 4 48 (ReplyHandlerCB h) None 0 :: bucket (ps_replies u) hash) (ps_replies u)) u)).

(** Handlers that note their calls; the handler 2 throws an exception, and the handler 4 sends a command. *)
Definition close_reply (h c d error : Z) : M CloseWorld unit :=
  on_user (modify (fun u => mkPS (ps_messages u) (ps_events u) (ps_replies u) (ps_services u) (ps_protocols u)
    (ps_ini_done u) (ps_proto_cnt u) (ps_agent_id u) (ps_next u) (ps_failed u) (ps_rest u ++ [(h, d)]))) ;!
  if h =? 2 then throw ERR_OTHER else if h =? 4 then enter_command 5 else ret tt.

Lemma grown_later c p p' t : p <= p' -> grown c p p' t t.
Proof. intros Hp. split; [done|]. induction t; constructor; [exists []; split; [done|apply new_none]|done]. Qed.

Lemma grown_enter c p rh t h : rh_c rh <> c -> rh_ptr rh = p -> grown c p (p + 1) t (set_bucket h (rh :: bucket t h) t).
Proof.
  intros Hc Hp. destruct (decide (Z.to_nat h < length t)%nat) as [Hh|Hh].
  - assert (E : set_bucket h (bucket t h) t = t).
    { apply list_insert_id. unfold bucket. rewrite nth_lookup. destruct (lookup_lt_is_Some_2 t (Z.to_nat h) Hh) as [b Eb]. by rewrite Eb. }
    rewrite <- E at 1. apply (grown_set c p (p + 1) t t h (bucket t h) [rh]); [apply grown_later; lia|].
    split_and!; [by constructor|apply NoDup_singleton|]. constructor; [lia|done].
  - unfold set_bucket. rewrite list_insert_ge by lia. apply grown_later. lia.
Qed.

Lemma close_reply_polite : polite close_reply 32 (fun l => l).
Proof.
  intros h d w. unfold close_reply. destruct (h =? 2); [|destruct (h =? 4)]; eexists _, _; (split; [reflexivity|]).
  - split; [right; by eexists|]. split; [apply grown_refl|done].
  - split; [by left|]. split; [by apply grown_enter|done].
  - split; [by left|]. split; [apply grown_refl|done].
Qed.

(** Three commands wait on the channel 32, one of them muted, and one in the same list on the channel 48. *)
Definition close_tables : ProtocolState (list (Z * Z)) :=
  let u := ps_init 1000 [] in
  set_next 3000 (set_replies (set_bucket 7 [mkRH 2000 5 32 (ReplyHandlerCB 2) None 10; mkRH 2001 4 48 (ReplyHandlerCB 3) None 11;
      mkRH 2002 132 32 (redirect_done_handler 4) None 12]
    (set_bucket 8 [mkRH 2003 6 32 NoReplyHandler None 0] (ps_replies u))) u).

Definition close_world : CloseWorld :=
  mkWorld (fun _ => demo_peer ChannelStateDisconnected []) [] [] [] ∅ [] 0 ([], 0%N) close_tables.

Definition cells_okb (p : Z) (b : list ReplyHandlerInfo) : bool := bool_decide (NoDup (ptrs b)) && forallb (fun rh => rh_ptr rh <? p) b.

Lemma cells_okb_spec p b : cells_okb p b = true -> cells_ok p b.
Proof.
  intros [Hb Hl]%andb_true_iff. split; [by apply bool_decide_eq_true in Hb|]. apply Forall_forall. intros x Hx. apply list_elem_of_In in Hx.
  rewrite forallb_forall in Hl. by apply Z.ltb_lt, Hl.
Qed.

Lemma channel_closed_replies_witness :
  exists w1 w', runs (on_user (close_handlers 32)) close_world tt w1 /\
    ps_events (w_user w1) = map (List.filter (fun eh => negb (eh_c eh =? 32))) (ps_events (w_user close_world)) /\
    ps_services (w_user w1) = List.filter (fun s => negb (si_owner s =? 32)) (ps_services (w_user close_world)) /\
    runs (channel_closed 100 close_reply (fun _ _ => ret tt) (fun _ => ret 0) 32) close_world tt w' /\
    ps_rest (w_user w') = ps_rest (w_user close_world) ++ handlers_of 32 (concat (ps_replies (w_user close_world))) /\
    grown 32 3000 (ps_next (w_user w')) (map (closed_bucket ChannelStateDisconnected 32) (ps_replies (w_user close_world))) (ps_replies (w_user w')) /\
    ch_peer_service_list (w_channels w' 32) = None /\ ch_state (w_channels w' 32) = ChannelStateDisconnected.
Proof.
  apply (channel_closed_replies 100 close_reply (fun _ _ => ret tt) (fun _ => ret 0) 32 (fun l => l) close_reply_polite close_world).
  - vm_compute. reflexivity.
  - assert (Hall : forallb (cells_okb 3000) (ps_replies (w_user close_world)) = true) by (vm_compute; reflexivity).
    apply Forall_forall. intros b Hin. rewrite forallb_forall in Hall. apply list_elem_of_In, Hall, cells_okb_spec in Hin. split; [exact Hin|by left].
Defined.

(** The command whose handler sends another one is at the head of the list. *)
Definition head_world : CloseWorld :=
  let rh := mkRH 2000 5 32 (ReplyHandlerCB 4) None 10 in
  mkWorld (fun _ => demo_peer ChannelStateDisconnected []) [] [] [] ∅ [] 0 ([], 0%N)
    (set_replies (set_bucket 7 [rh; mkRH 2001 7 48 (ReplyHandlerCB 3) None 11] (ps_replies close_tables)) close_tables).

Lemma new_handler_dropped_witness : exists w', runs (close_bucket 100 close_reply (fun _ _ => ret tt) (fun _ => ret 0) 9 32 7 None) head_world tt w' /\
  forall x, x ∈ [mkRH 3000 4 48 (ReplyHandlerCB 5) None 0] -> x ∉ bucket (ps_replies (w_user w')) 7.
Proof.
  eapply (new_handler_dropped 100 close_reply (fun _ _ => ret tt) (fun _ => ret 0) 32 (fun l => l) close_reply_polite 8 7
    (mkRH 2000 5 32 (ReplyHandlerCB 4) None 10) [mkRH 2001 7 48 (ReplyHandlerCB 3) None 11] 4); try reflexivity.
  - vm_compute. split; [discriminate|reflexivity].
  - apply cells_okb_spec. vm_compute. reflexivity.
  - cbn. lia.
Defined.
