(* ===== verification/ProtocolHello.v ===== *)
(** * The exchange of Hello messages (Protocol.v, framework/protocol.c)

    What [send_hello_message] writes is what [event_locator_hello] reads: the names of the services, and
    whether the peer takes binary data without encoding. *)

From S2P Require Import Prelude Streams OutputBuf JsonWrite JsonRead ChannelOut Channel ChannelProps.
From S2P Require Import Protocol ProtocolTables ProtocolProps.

(** ** The text of the message *)

(** The elements of an array of strings. *)
Fixpoint more_names (names : list (list Z)) : list Z :=
  match names with
  | [] => []
  | n :: names' => ch_comma :: string_text (Some n) ++ more_names names'
  end.

Definition names_text (names : list (list Z)) : list Z :=
  match names with [] => [] | n :: names' => string_text (Some n) ++ more_names names' end.

Definition hello_text (names : list (list Z)) : list Z :=
  stringz [str "E"; LOCATOR; str "Hello"] ++ ch_lbra :: names_text names ++ [ch_rbra; 0; MARKER_EOM].

(** The names in the message of a protocol that has some services. *)
Definition service_names (p : Z) (l : list ServiceInfo) : list (list Z) :=
  map si_name (List.filter (fun s => si_owner s =? p) l).

Definition hello_names (disable : bool) (p : Z) (l : list ServiceInfo) : list (list Z) :=
  (if disable then [] else [str "ZeroCopy"]) ++ service_names p l.

(** Names that are C strings. *)
Definition name_ok (fuel : nat) (n : list Z) : Prop :=
  bytes n /\ text n /\ (length n < fuel)%nat /\ Z.of_nat (length n) < 2 ^ 32.

Section Hello.
Context {IS OS V : Type} `{InputStreamLaws IS} `{OutputStreamLaws OS} `{!ZeroCopy OS}.

Notation World := (World IS OS (ProtocolState V)).
Notation W := (M World).
Notation PS := (ProtocolState V).

Variable fuel : nat.
Variable call_command : Z -> list Z -> Z -> Z -> W unit.
Variable call_command_old : Z -> list Z -> Z -> W unit.
Variable call_event : Z -> Z -> Z -> W unit.
Variable call_event_old : Z -> Z -> W unit.
Variable call_message : Z -> Z -> list (list Z) -> Z -> W unit.
Variable call_message_old : Z -> Z -> list (list Z) -> W unit.
Variable call_reply : Z -> Z -> Z -> Z -> W unit.
Variable call_progress : Z -> Z -> Z -> W unit.
Variable call_connected : Z -> W unit.
Variable call_listener : Z -> Z -> W unit.
Variable read_errno : Z -> W Z.

Notation handle_message := (handle_protocol_message fuel call_command call_command_old call_event call_event_old
  call_message call_message_old call_reply call_progress call_connected call_listener read_errno).

Implicit Types (ch : Channel IS OS) (j : list Z * N) (u : PS) (w : World).

(** ** Writing *)

Lemma writes_name n : name_ok fuel n -> writes (OS := OS) (json_write_string (Some n)) (string_text (Some n)).
Proof.
  intros (Hb & Ht & _ & Hl). apply writes_json_string. split_and!; [done| |done]. eapply Forall_impl; [exact Ht|]. cbn. lia.
Qed.

Lemma writes_names p l : Forall (name_ok fuel) (service_names p l) -> forall cnt,
  writes (OS := OS) (write_service_names p cnt l)
    (if (cnt =? 0)%nat then names_text (service_names p l) else more_names (service_names p l)).
Proof.
  unfold service_names. induction l as [|s l IH]; intros Hn cnt; cbn [write_service_names List.filter map].
  - destruct (cnt =? 0)%nat; apply writes_ret.
  - cbn [List.filter] in Hn. destruct (si_owner s =? p); [|by apply IH]. cbn [map] in Hn |- *. inversion Hn as [|? ? Hs Hl]; subst.
    specialize (IH Hl (S cnt)). cbn [Nat.eqb] in IH. destruct (cnt =? 0)%nat; cbn [negb names_text more_names].
    + apply (writes_bind _ _ []); [apply writes_ret|]. apply (writes_bind _ _ (string_text (Some (si_name s)))); [by apply writes_name|exact IH].
    + apply (writes_bind _ _ [ch_comma]); [apply writes_byte; unfold is_byte; lia|]. apply (writes_bind _ _ (string_text (Some (si_name s)))); [by apply writes_name|exact IH].
Qed.

Lemma hello_names_text (disable : bool) p l : names_text (hello_names disable p l) =
  (if disable then [] else string_text (Some (str "ZeroCopy"))) ++
  if ((if disable then 0 else 1) =? 0)%nat then names_text (service_names p l) else more_names (service_names p l).
Proof. unfold hello_names. by destruct disable. Qed.

Lemma writes_hello (disable : bool) p l : os_sym (OS := OS) MARKER_EOM -> Forall (name_ok fuel) (service_names p l) ->
  writes (OS := OS) (write_stringz (str "E") ;! write_stringz LOCATOR ;! write_stringz (str "Hello") ;! write_stream ch_lbra ;!
    (if negb disable then json_write_string (Some (str "ZeroCopy")) else ret tt) ;!
    write_service_names p (if disable : bool then 0 else 1) l ;! write_stream ch_rbra ;! write_stream 0 ;! write_stream MARKER_EOM)
    (hello_text (hello_names disable p l)).
Proof.
  intros Heom Hn. unfold hello_text. cbn [stringz map concat]. rewrite hello_names_text. norm_app.
  apply (writes_bind _ _ (str "E" ++ [0])); [apply writes_stringz_lem, str_bytes|].
  apply (writes_bind _ _ (LOCATOR ++ [0])); [apply writes_stringz_lem, str_bytes|].
  apply (writes_bind _ _ (str "Hello" ++ [0])); [apply writes_stringz_lem, str_bytes|].
  apply (writes_bind _ _ [ch_lbra]); [apply writes_byte; unfold is_byte; lia|].
  apply writes_bind; [destruct disable; [apply writes_ret|apply writes_json_string, str_writable; by vm_compute]|].
  apply writes_bind; [by apply writes_names|].
  apply (writes_bind _ _ [ch_rbra]); [apply writes_byte; unfold is_byte; lia|].
  apply (writes_bind _ _ [0]); [apply writes_byte; unfold is_byte; lia|by apply writes_stream].
Qed.

(** ** Reading *)

(** The output stream of the reader after it has seen some names. *)
Definition zero_copy_after (names : list (list Z)) (o : OS) : OS :=
  fold_left (fun o name => if streq name (str "ZeroCopy") then set_zero_copy true o else o) names o.

(** [m] reads [l] from the channel. *)
Lemma token_at c t ch j u w rest : stops t -> (0 < fuel)%nat -> yields (ch_inp ch) (t :: rest) ->
  exists i j', runs (on_json c (read_token fuel)) (At c ch j u w) t (At c (set_inp i ch) j' u w) /\ yields i rest.
Proof.
  intros Ht Hf Hy. destruct (jreads_token (fun _ => True) fuel t Ht Hf (mkJson (ch_inp ch) (fst j) (snd j)) rest I Hy) as (s & R & Y & _).
  eexists _, _. split; [by apply runs_json|done].
Qed.

Lemma name_at c n ch j u w rest : name_ok fuel n -> yields (ch_inp ch) (string_text (Some n) ++ rest) ->
  exists i j', runs (on_json c (json_read_alloc_string fuel)) (At c ch j u w) (Some (n ++ [0])) (At c (set_inp i ch) j' u w) /\ yields i rest.
Proof.
  intros (Hb & _ & Hl & _) Hy. destruct (reads_alloc_string fuel (Some n) (mkJson (ch_inp ch) (fst j) (snd j)) rest) as (s & R & Y);
    [done|lia|done|]. eexists _, _. split; [by apply runs_json|done].
Qed.

Lemma text_nonzero n : text n -> Forall (fun b => b <> 0) n.
Proof. intros Hn. eapply Forall_impl; [exact Hn|]. cbn. lia. Qed.

Lemma zero_copy_at c n ch j u w :
  runs (if streq n (str "ZeroCopy") then on_out c (modify (set_zero_copy true)) else ret tt) (At c ch j u w) tt
    (At c (set_out (zero_copy_after [n] (ch_out ch)) ch) j u w).
Proof.
  unfold zero_copy_after. cbn [fold_left]. destruct (streq n (str "ZeroCopy")).
  - apply runs_out. apply runs_modify.
  - replace (set_out (ch_out ch) ch) with ch by (by destruct ch). apply runs_ret.
Qed.

Lemma hello_loop_runs c names : forall n k services ch j u w rest,
  Forall (name_ok fuel) (n :: names) -> (length names < k)%nat ->
  yields (ch_inp ch) (names_text (n :: names) ++ ch_rbra :: rest) ->
  exists i j', runs (hello_loop fuel k c services) (At c ch j u w) (services ++ n :: names)
      (At c (set_out (zero_copy_after (n :: names) (ch_out ch)) (set_inp i ch)) j' u w) /\ yields i rest.
Proof.
  induction names as [|n' names IH]; intros n k services ch j u w rest Hn Hk Hy; (destruct k as [|k]; [cbn in Hk; lia|]);
    cbn [hello_loop]; inversion Hn as [|? ? Hn1 Hn2]; subst; pose proof Hn1 as (_ & Htext & Hlen & _);
    cbn [names_text more_names] in Hy; norm_app_in Hy.
  - destruct (name_at c n ch j u w _ Hn1 Hy) as (i1 & j1 & R1 & Y1).
    pose proof (zero_copy_at c n (set_inp i1 ch) j1 u w) as R2. set (ch2 := set_out _ _) in R2.
    destruct (token_at c ch_rbra ch2 j1 u w rest ltac:(done) ltac:(lia) Y1) as (i3 & j3 & R3 & Y3).
    exists i3, j3. split; [|done]. eapply runs_bind; [exact R1|]. cbn beta iota. rewrite cstr_nonzero by (by apply text_nonzero).
    eapply runs_bind; [exact R2|]. eapply runs_bind; [exact R3|]. apply runs_ret.
  - destruct (name_at c n ch j u w _ Hn1 Hy) as (i1 & j1 & R1 & Y1).
    pose proof (zero_copy_at c n (set_inp i1 ch) j1 u w) as R2. set (ch2 := set_out _ _) in R2.
    destruct (token_at c ch_comma ch2 j1 u w _ ltac:(done) ltac:(lia) Y1) as (i3 & j3 & R3 & Y3).
    destruct (IH n' k (services ++ [n]) (set_inp i3 ch2) j3 u w rest Hn2) as (i4 & j4 & R4 & Y4); [cbn in Hk; lia| |].
    { cbn [names_text]. by norm_app. }
    exists i4, j4. split; [|done]. eapply runs_bind; [exact R1|]. cbn beta iota. rewrite cstr_nonzero by (by apply text_nonzero).
    eapply runs_bind; [exact R2|]. eapply runs_bind; [exact R3|]. cbn [Z.eqb Pos.eqb]. rewrite <- app_assoc in R4. exact R4.
Qed.

Lemma stream_at c x ch j u w rest : yields (ch_inp ch) (x :: rest) ->
  exists i, runs (on_inp c read_stream) (At c ch j u w) x (At c (set_inp i ch) j u w) /\ yields i rest.
Proof. intros Hy. destruct (read_stream_yields _ _ _ Hy) as (i & R & Y). exists i. split; [by apply runs_inp|done]. Qed.

Lemma peek_at c x ch j u w rest : yields (ch_inp ch) (x :: rest) ->
  exists i, runs (on_inp c peek_stream) (At c ch j u w) x (At c (set_inp i ch) j u w) /\ yields i (x :: rest).
Proof. intros Hy. destruct (peek_stream_yields _ _ _ Hy) as (i & R & Y). exists i. split; [by apply runs_inp|done]. Qed.

(** The array of the names: the list, [None] if it is empty. *)
Lemma names_at c names ch j u w rest : Forall (name_ok fuel) names -> (length names <= fuel)%nat ->
  yields (ch_inp ch) (names_text names ++ ch_rbra :: rest) ->
  exists i j', (forall A (k : option (list (list Z)) -> W A),
    (let! x := on_inp c peek_stream in
     let! services := (if x =? ch_rbra then on_inp c read_stream ;! ret None
                       else let! l := hello_loop fuel fuel c [] in ret (Some l)) in k services) (At c ch j u w) =
    k (match names with [] => None | _ => Some names end)
      (At c (set_out (zero_copy_after names (ch_out ch)) (set_inp i ch)) j' u w)) /\ yields i rest.
Proof.
  intros Hn Hl Hy. destruct names as [|n names].
  - cbn [names_text app] in Hy. destruct (peek_at c _ ch j u w _ Hy) as (i1 & R1 & Y1).
    destruct (stream_at c _ (set_inp i1 ch) j u w _ Y1) as (i2 & R2 & Y2). exists i2, j. split; [|done]. intros A k.
    rewrite (bind_runs _ _ _ _ _ R1). cbn [Z.eqb Pos.eqb].
    assert (R3 : runs (on_inp c read_stream ;! ret None) (At c (set_inp i1 ch) j u w) (@None (list (list Z))) (At c (set_inp i2 (set_inp i1 ch)) j u w))
      by (eapply runs_bind; [exact R2|apply runs_ret]).
    rewrite (bind_runs _ _ _ _ _ R3). done.
  - assert (Hhead : exists l, names_text (n :: names) ++ ch_rbra :: rest = ch_quote :: l) by (cbn [names_text string_text]; by eexists).
    destruct Hhead as [l El]. rewrite El in Hy. destruct (peek_at c _ ch j u w _ Hy) as (i1 & R1 & Y1). rewrite <- El in Y1.
    destruct (hello_loop_runs c names n fuel [] (set_inp i1 ch) j u w rest Hn) as (i2 & j2 & R2 & Y2); [cbn in Hl; lia|done|].
    exists i2, j2. split; [|done]. intros A k. rewrite (bind_runs _ _ _ _ _ R1). cbn [Z.eqb Pos.eqb].
    assert (R3 : runs (let! l := hello_loop fuel fuel c [] in ret (Some l)) (At c (set_inp i1 ch) j u w) (Some ([] ++ n :: names))
      (At c (set_out (zero_copy_after (n :: names) (ch_out (set_inp i1 ch))) (set_inp i2 (set_inp i1 ch))) j2 u w))
      by (eapply runs_bind; [exact R2|apply runs_ret]).
    rewrite (bind_runs _ _ _ _ _ R3). done.
Qed.

(** The channel after a Hello with some names. *)
Definition greeted (names : list (list Z)) (i : IS) ch : Channel IS OS :=
  set_peer_services (match names with [] => None | _ => Some names end)
    (set_out (zero_copy_after names (set_zero_copy false (ch_out ch))) (set_inp i ch)).

Lemma locator_hello_runs c names ch j u w rest : Forall (name_ok fuel) names -> (length names <= fuel)%nat -> (0 < fuel)%nat ->
  ch_state ch = ChannelStateStarted \/ ch_state ch = ChannelStateHelloSent ->
  yields (ch_inp ch) (ch_lbra :: names_text names ++ [ch_rbra; 0; MARKER_EOM] ++ rest) ->
  exists i j', yields i rest /\ event_locator_hello fuel call_connected call_listener c (At c ch j u w) =
    if decide (ch_state ch = ChannelStateStarted) then (Val tt, At c (set_state ChannelStateHelloReceived (greeted names i ch)) j' u w)
    else connect_done fuel call_connected call_listener c (At c (set_state ChannelStateConnected (greeted names i ch)) j' u w).
Proof.
  intros Hn Hl Hf Hst Hy. set (o1 := set_zero_copy false (ch_out ch)).
  assert (R1 : runs (on_out c (modify (set_zero_copy false))) (At c ch j u w) tt (At c (set_out o1 ch) j u w)) by (apply runs_out, runs_modify).
  destruct (token_at c ch_lbra (set_out o1 ch) j u w _ ltac:(done) Hf Hy) as (i2 & j2 & R2 & Y2).
  destruct (names_at c names (set_inp i2 (set_out o1 ch)) j2 u w _ Hn Hl Y2) as (i3 & j3 & R3 & Y3). cbn [app] in Y3.
  set (ch3 := set_out (zero_copy_after names o1) (set_inp i3 ch)). destruct (stream_at c 0 (set_inp i3 ch3) j3 u w _ Y3) as (i4 & R4 & Y4).
  destruct (stream_at c MARKER_EOM (set_inp i4 ch3) j3 u w _ Y4) as (i & R5 & Y). exists i, j3. split; [done|].
  unfold event_locator_hello. rewrite (bind_runs _ _ _ _ _ R1), (bind_runs _ _ _ _ _ R2). cbn [Z.eqb Pos.eqb negb]. rewrite R3.
  rewrite set_inp_inp in R4, R5. cbv beta. rewrite (bind_runs _ _ _ _ _ R4). cbn [Z.eqb negb].
  assert (R6 : runs (let! x := on_inp c read_stream in if negb (x =? MARKER_EOM) then throw ERR_JSON_SYNTAX else ret tt)
    (At c (set_inp i4 ch3) j3 u w) tt (At c (set_inp i ch3) j3 u w)) by (eapply runs_bind; [exact R5|apply runs_ret]).
  rewrite (bind_runs _ _ _ _ _ R6), (bind_runs _ _ _ _ _ (runs_chan _ _ _ _ _ _)).
  change (ch_state (set_inp i ch3)) with (ch_state ch).
  destruct Hst as [Hst|Hst]; rewrite Hst; cbn [bool_decide decide]; repeat (case_bool_decide; [|]); try done; cbn [negb andb];
    rewrite (bind_runs _ _ _ _ _ (runs_upd _ _ _ _ _ _)).
  - unfold set_channel_state. rewrite decide_True by done. unfold modify. by rewrite at_upd.
  - unfold set_channel_state. rewrite (bind_runs _ _ _ _ _ (runs_upd _ _ _ _ _ _)). rewrite decide_False by done. done.
Qed.

Lemma zero_copy_names (disable : bool) names o : Forall (fun n => n <> str "ZeroCopy") names ->
  zero_copy_after ((if disable then [] else [str "ZeroCopy"]) ++ names) o = if disable then o else set_zero_copy true o.
Proof.
  intros Hn. assert (Hz : forall o, zero_copy_after names o = o).
  { unfold zero_copy_after. induction Hn as [|n names Hn1 _ IH]; intros o1; [done|]. cbn [fold_left].
    destruct (streq_spec n (str "ZeroCopy")); [done|apply IH]. }
  destruct disable; [apply Hz|]. unfold zero_copy_after in *. rewrite fold_left_app. apply Hz.
Qed.

Lemma zero_copy_ok : (8 < fuel)%nat -> name_ok fuel (str "ZeroCopy").
Proof. intros Hf. split; [apply str_bytes|]. split; [by apply demo_text|]. cbn. lia. Qed.

(** The first Hello of a channel is read by the protocol itself. *)
Lemma hello_dispatched c ch j u w rest : (8 < fuel)%nat ->
  ch_state ch = ChannelStateStarted \/ ch_state ch = ChannelStateHelloSent ->
  yields (ch_inp ch) (stringz [str "E"; LOCATOR; str "Hello"] ++ rest) ->
  exists i, yields i rest /\ handle_message c (At c ch j u w) =
    dispatched (event_locator_hello fuel call_connected call_listener c (At c (set_inp i ch) j u w)).
Proof.
  intros Hf Hst Hy. cbn [stringz map concat] in Hy. norm_app_in Hy.
  destruct (message_head fuel call_command call_command_old call_event call_event_old call_message call_message_old call_reply call_progress
    call_connected call_listener read_errno c ch_E ch j u w (LOCATOR ++ 0 :: str "Hello" ++ 0 :: rest)) as (i0 & Y0 & E0); [lia|done|exact Hy|].
  destruct (on_stringz fuel c LOCATOR 256 (set_inp i0 ch) j u w (str "Hello" ++ 0 :: rest)) as (i1 & R1 & Y1); [by apply demo_text|cbn; lia|done|].
  destruct (on_stringz fuel c (str "Hello") 256 (set_inp i1 (set_inp i0 ch)) j u w rest) as (i & R2 & Y2); [by apply demo_text|cbn; lia|done|].
  rewrite !set_inp_inp in *. exists i. split; [done|]. rewrite E0. cbn [Z.eqb Pos.eqb orb]. rewrite <- dispatched_catch. apply bind_eq.
  unfold handle_event. rewrite (bind_runs _ _ _ _ _ R1), (bind_runs _ _ _ _ _ R2). apply catch_eq.
  rewrite (bind_runs _ _ _ _ _ (runs_chan _ _ _ _ _ _)). change (ch_state (set_inp i ch)) with (ch_state ch).
  by destruct Hst as [->| ->].
Qed.

(** C7: What a channel says of itself in its Hello is what its peer knows of it afterwards.  The message
    is written once, names the services of the protocol of the channel, and the state of the channel
    advances.  A peer that has not had a Hello yet and gets this text takes the services to be exactly
    those, in that order, uses zero copy exactly if the sender has not disabled it, whatever it did
    before, and leaves the input after the message; its state advances, and when both sides have sent and
    received a Hello, the channel is connected and the listeners are told. *)
Theorem hello_exchange c ch j u w l :
  let p := ch_protocol ch in let services := service_names p (ps_services u) in
  let names := hello_names (ch_disable_zero_copy ch) p (ps_services u) in
  (8 < fuel)%nat -> (length services < fuel)%nat -> Forall (name_ok fuel) services -> Forall (fun n => n <> str "ZeroCopy") services ->
  os_sym (OS := OS) MARKER_EOM -> emits (ch_out ch) l ->
  ch_state ch = ChannelStateStarted \/ ch_state ch = ChannelStateHelloReceived ->
  (exists o, emits o (l ++ hello_text names) /\
    send_hello_message fuel call_connected call_listener c (At c ch j u w) =
      if decide (ch_state ch = ChannelStateStarted) then (Val tt, At c (set_state ChannelStateHelloSent (set_out o ch)) j u w)
      else connect_done fuel call_connected call_listener c (At c (set_state ChannelStateConnected (set_out o ch)) j u w)) /\
  forall d ch2 j2 u2 w2 rest,
    ch_state ch2 = ChannelStateStarted \/ ch_state ch2 = ChannelStateHelloSent -> yields (ch_inp ch2) (hello_text names ++ rest) ->
    exists i j', yields i rest /\
      let o2 := set_zero_copy false (ch_out ch2) in
      let ch3 := set_peer_services (match names with [] => None | _ => Some names end)
        (set_out (if ch_disable_zero_copy ch then o2 else set_zero_copy true o2) (set_inp i ch2)) in
      handle_message d (At d ch2 j2 u2 w2) =
        if decide (ch_state ch2 = ChannelStateStarted) then (Val tt, At d (set_state ChannelStateHelloReceived ch3) j' u2 w2)
        else dispatched (connect_done fuel call_connected call_listener d (At d (set_state ChannelStateConnected ch3) j' u2 w2)).
Proof.
  intros p services names Hf Hl Hn Hz Heom He Hst. split.
  - destruct (writes_out c _ _ l ch j u w (writes_hello (ch_disable_zero_copy ch) p (ps_services u) Heom Hn) He) as (o & Ro & Eo).
    exists o. split; [done|]. unfold send_hello_message.
    rewrite (bind_runs _ _ _ _ _ (runs_chan _ _ _ _ _ _)), (bind_runs _ _ _ _ _ (runs_user c _ _ _ ch j u w (runs_gets _ _))).
    rewrite (bind_runs _ _ _ _ _ (runs_chan _ _ _ _ _ _)). fold p.
    assert (Ra : forall w0 : World, runs (cassert (bool_decide (ch_state ch = ChannelStateStarted) || bool_decide (ch_state ch = ChannelStateHelloReceived))) w0 tt w0).
    { intros w0. apply runs_cassert. by destruct Hst as [->| ->]. }
    rewrite (bind_runs _ _ _ _ _ (Ra _)), (bind_runs _ _ _ _ _ (runs_chan _ _ _ _ _ _)), (bind_runs _ _ _ _ _ Ro).
    unfold set_channel_state. destruct Hst as [Hst|Hst]; rewrite Hst.
    + rewrite bool_decide_eq_true_2, decide_True by done. unfold modify. by rewrite at_upd.
    + rewrite bool_decide_eq_false_2, decide_False by done. by rewrite (bind_runs _ _ _ _ _ (runs_upd _ _ _ _ _ _)).
  - intros d ch2 j2 u2 w2 rest Hst2 Hy. unfold hello_text in Hy. rewrite <- app_assoc in Hy.
    destruct (hello_dispatched d ch2 j2 u2 w2 _ Hf Hst2 Hy) as (i0 & Y0 & E0). cbn [app] in Y0. rewrite <- app_assoc in Y0.
    assert (Hnames : Forall (name_ok fuel) names /\ (length names <= fuel)%nat).
    { unfold names, hello_names. fold services. destruct (ch_disable_zero_copy ch); cbn; (split; [|lia]); [done|].
      constructor; [by apply zero_copy_ok|done]. }
    destruct (locator_hello_runs d names (set_inp i0 ch2) j2 u2 w2 rest) as (i & j' & Y & E); [apply Hnames|apply Hnames|lia|exact Hst2|exact Y0|].
    exists i, j'. split; [done|]. rewrite E0, E. change (ch_state (set_inp i0 ch2)) with (ch_state ch2).
    assert (Eg : greeted names i (set_inp i0 ch2) = set_peer_services (match names with [] => None | _ => Some names end)
      (set_out (if ch_disable_zero_copy ch then set_zero_copy false (ch_out ch2) else set_zero_copy true (set_zero_copy false (ch_out ch2)))
         (set_inp i ch2))).
    { unfold greeted. change (ch_out (set_inp i0 ch2)) with (ch_out ch2). by rewrite (zero_copy_names _ services (set_zero_copy false (ch_out ch2)) Hz : zero_copy_after names _ = _). }
    rewrite Eg. by destruct (decide (ch_state ch2 = ChannelStateStarted)).
Qed.
End Hello.

(** ** Witness *)

Definition demo_new : Channel ByteArrayInputStream ChannelTCP := demo_peer ChannelStateStarted [].

Lemma hello_exchange_witness :
  (exists o, emits o ([] ++ hello_text [str "ZeroCopy"; str "PathMap"]) /\
    send_hello_message 100 (fun c => note [c]) (fun l c => note [l; c]) 32 (demo_at demo_new) =
      (Val tt, At 32 (set_state ChannelStateHelloSent (set_out o demo_new)) ([], 0%N) demo_tables demo_rest)) /\
  forall d ch2 j2 u2 w2 rest,
    ch_state ch2 = ChannelStateStarted \/ ch_state ch2 = ChannelStateHelloSent ->
    yields (ch_inp ch2) (hello_text [str "ZeroCopy"; str "PathMap"] ++ rest) ->
    exists i j', yields i rest /\
      let ch3 := set_peer_services (Some [str "ZeroCopy"; str "PathMap"])
        (set_out (set_zero_copy true (set_zero_copy false (ch_out ch2))) (set_inp i ch2)) in
      demo_handle d (At d ch2 j2 u2 w2) =
        if decide (ch_state ch2 = ChannelStateStarted) then (Val tt, At d (set_state ChannelStateHelloReceived ch3) j' u2 w2)
        else dispatched (connect_done 100 (fun c => note [c]) (fun l c => note [l; c]) d (At d (set_state ChannelStateConnected ch3) j' u2 w2)).
Proof.
  assert (Hs : service_names 1000 (ps_services demo_tables) = [str "PathMap"]) by (vm_compute; reflexivity).
  pose proof (hello_exchange 100 (fun h token c d => note (h :: c :: d :: token)) (fun h token c => note (h :: c :: token))
    (fun h c d => note [h; c; d]) (fun h c => note [h; c]) (fun h c args d => note (h :: c :: d :: concat args))
    (fun h c args => note (h :: c :: concat args)) (fun h c d error => note [h; c; d; error]) (fun h c d => note [h; c; d])
    (fun c => note [c]) (fun l c => note [l; c]) (fun c => ret 0) 32 demo_new ([], 0%N) demo_tables demo_rest []) as E.
  change (ch_protocol demo_new) with 1000 in E. unfold hello_names in E. rewrite Hs in E. apply E.
  - lia.
  - cbn. lia.
  - constructor; [|constructor]. split; [apply str_bytes|]. split; [by apply demo_text|]. cbn. lia.
  - constructor; [|constructor]. intros En. vm_compute in En. discriminate.
  - exact sym_eom.
  - apply new_output_emits.
  - by left.
Defined.
