(* ===== verification/ProtocolFlaws.v ===== *)
(** * Messages and callbacks that break the protocol (Protocol.v, framework/protocol.c)

    Concrete runs, on the real input buffer of a channel where the input matters. *)

From S2P Require Import Prelude Streams OutputBuf JsonWrite JsonRead ChannelOut InputBuf ChannelIn Channel ChannelProps.
From S2P Require Import Protocol ProtocolTables ProtocolProps ProtocolReplies ProtocolClose ProtocolHello Delivery.

Notation FlawWorld := (World InputBuf ChannelTCP (ProtocolState (list (list Z)))).

(** The input of a channel when the handling of the first message of some data begins. *)
Definition started_message (data : list Z) : InputBuf :=
  snd (handle_channel_msg (ret tt) (snd (tcp_channel_read_done (connected [data])))).

Definition flaw_channel (st : ChannelState) (data : list Z) (services : option (list (list Z))) : Channel InputBuf ChannelTCP :=
  mkChannel (started_message data) (new_output false) 0 1000 services None 0 st false false.

(** The tables of a protocol whose next token is [t], with some handlers waiting. *)
Definition flaw_tables (t : Z) (l : list ReplyHandlerInfo) : ProtocolState (list (list Z)) :=
  let u := snd (run_ops [OpAlloc] (ps_init 1000 [])) in
  let u := set_protocols (<[1000 := mkProtocol 0 1 t NoMessageHandler 0]> (ps_protocols u)) u in
  set_replies (fold_right (fun rh tab => let h := reply_hash (rh_c rh) (rh_tokenid rh) in set_bucket h (rh :: bucket tab h) tab)
    (ps_replies u) l) u.

(** Two channels, 32 and 33. *)
Definition flaw_world (a b : Channel InputBuf ChannelTCP) (u : ProtocolState (list (list Z))) : FlawWorld :=
  mkWorld (fun c => if c =? 32 then a else b) [] [] [] ∅ [] 0 ([], 0%N) u.

(** A handler notes its call; the handler 2 sends a command to the channel 33. *)
Definition flaw_note (l : list Z) : M FlawWorld unit :=
  on_user (modify (fun u => mkPS (ps_messages u) (ps_events u) (ps_replies u) (ps_services u) (ps_protocols u)
    (ps_ini_done u) (ps_proto_cnt u) (ps_agent_id u) (ps_next u) (ps_failed u) (l :: ps_rest u))).

Definition flaw_send (c h : Z) : M FlawWorld Z :=
  protocol_send_command (fun _ _ => false) c (str "Memory") (str "get") (ReplyHandlerCB h) 0.

Definition flaw_reply (h c d error : Z) : M FlawWorld unit :=
  flaw_note [h; c; d; error] ;! if h =? 2 then flaw_send 33 1 ;! ret tt else ret tt.

Definition flaw_handle : Z -> M FlawWorld unit :=
  handle_protocol_message 100 (fun h token c d => ret tt) (fun h token c => ret tt) (fun h c d => ret tt) (fun h c => ret tt)
    (fun h c args d => ret tt) (fun h c args => ret tt) flaw_reply (fun h c d => ret tt) (fun c => ret tt) (fun l c => ret tt)
    (fun c => ret 0).

Definition flaw_close : Z -> M FlawWorld unit := channel_closed 100 flaw_reply (fun l c => ret tt) (fun c => ret 0).

(** A Hello with an array that holds [null], and one with an empty array. *)
Definition null_hello : FlawWorld :=
  flaw_world (flaw_channel ChannelStateHelloSent (stringz [str "E"; LOCATOR; str "Hello"] ++ str "[null]" ++ [0; ESC; 1]) None)
    (flaw_channel ChannelStateDisconnected [] None) (flaw_tables 1 []).

Definition empty_hello : FlawWorld :=
  flaw_world (flaw_channel ChannelStateHelloSent (stringz [str "E"; LOCATOR; str "Hello"] ++ str "[]" ++ [0; ESC; 1]) None)
    (flaw_channel ChannelStateDisconnected [] None) (flaw_tables 1 []).

(** [N] for a command whose handler was muted by a redirection, without and with a message after it. *)
Definition muted_reply (more : list Z) : FlawWorld :=
  flaw_world (flaw_channel ChannelStateConnected (stringz [str "N"; str "5"] ++ [ESC; 1] ++ more) (Some [LOCATOR]))
    (flaw_channel ChannelStateDisconnected [] None) (flaw_tables 6 [mkRH 2000 5 32 NoReplyHandler None 0]).

(** The channel 32 is closed while a command waits whose handler sends one to the channel 33. *)
Definition closing : FlawWorld :=
  flaw_world (flaw_channel ChannelStateDisconnected [] (Some [LOCATOR])) (flaw_channel ChannelStateConnected [] (Some [LOCATOR]))
    (flaw_tables 5 [mkRH 2000 5 32 (ReplyHandlerCB 2) None 0]).

(** Runs in which a peer or a handler breaks the protocol.  A Hello whose array holds [null]
    makes it read a null pointer.  A Hello with an empty array connects the channel, but every
    command sent to that peer afterwards fails as if the channel were closed, and nothing is written.
    The reply [N] to a command whose handler was muted makes it read past the end of the message,
    which the input buffer does not survive, whatever follows.  And the run of [new_handler_dropped]: if a handler that is told of a closed
    channel sends a command to another channel whose token falls into the same list, the new handler is
    dropped: the command is on its way, but its reply would be an error of the protocol. *)
Example protocol_flaws :
  fst (flaw_handle 32 null_hello) = Fault /\
  (let '(r, w) := flaw_handle 32 empty_hello in
   let '(r', w') := flaw_send 32 1 w in
   (r, ch_state (w_channels w 32), length (ps_failed (w_user w')), ct_obuf (ch_out (w_channels w' 32)))) =
    (Val tt, ChannelStateConnected, 1%nat, []) /\
  fst (flaw_handle 32 (muted_reply [])) = Fault /\
  fst (flaw_handle 32 (muted_reply (stringz [str "E"; str "A"; str "b"] ++ [ESC; 1]))) = Fault /\
  (let '(r, w) := flaw_close 32 closing in
   (r, ps_rest (w_user w), ct_obuf (ch_out (w_channels w 33)), reply_entry (w_user w) 33 5)) =
    (Val tt, [[2; 32; 0; ERR_CHANNEL_CLOSED]], stringz [str "C"; str "5"; str "Memory"; str "get"], None).
Proof. split; [|split; [|split; [|split]]]; vm_compute; reflexivity. Qed.
