(* ===== verification/VirtualStreams.v ===== *)
(** * Virtual streams (services/streamsservice.c)

    A virtual stream is a ring buffer between a part of the program and clients on other
    channels, which read it or write to it with commands that wait for data or for space.  Objects are
    records in stores, pointers to them numbers that are not used again; a list of objects is the
    list of their pointers. *)

From S2P Require Import Prelude Streams JsonWrite JsonRead JsonStruct Channel Protocol.

(** ** Data *)

Definition STREAMS : list Z := str "Streams".
Definition STREAM_BASE_ID : list Z := str "VS".
Definition HANDLE_HASH_SIZE : Z := 4 * MEM_USAGE_FACTOR - 1.
Definition VS_ENABLE_REMOTE_READ : Z := 0x01.
Definition VS_ENABLE_REMOTE_WRITE : Z := 0x02.
Definition VS_EVENT_SPACE_AVAILABLE : Z := 1.
Definition VS_EVENT_DATA_AVAILABLE : Z := 2.

(** [struct VirtualStream] without its magic number; [vs_clients] are pointers, [vs_callback] stands for
    the function and its arguments. *)
Record VirtualStream := mkVS {
  vs_type : list Z;
  vs_id : Z;
  vs_access : Z;
  vs_callback : Z;
  vs_ref_cnt : Z;
  vs_deleted : bool;
  vs_clients : list Z;
  vs_pos : Z;
  vs_buf : list Z;
  vs_inp : Z;
  vs_out : Z;
  vs_eos_inp : bool;
  vs_eos_out : bool;
  vs_data_posted : bool;
  vs_space_posted : bool }.

Record ReadRequest := mkRR { rr_token : list Z; rr_size : Z }.

(** [wr_data] is the part of the block of [wr_size] bytes that has been written. *)
Record WriteRequest := mkWR { wr_token : list Z; wr_data : list Z; wr_offs : Z; wr_size : Z; wr_eos : bool }.

Record StreamClient := mkSC {
  sc_stream : Z;
  sc_channel : Z;
  sc_pos : Z;
  sc_reads : list ReadRequest;
  sc_writes : list WriteRequest }.

Record Subscription := mkSub { sb_type : list Z; sb_channel : Z }.

(** The events that are posted. *)
Inductive StreamEvent := NotifyDataAvailable (s : Z) | NotifySpaceAvailable (s : Z) | DeleteStream (s : Z).

(** The static variables and the memory. *)
Record StreamsState (V : Type) := mkSS {
  ss_mem : gmap Z VirtualStream;
  ss_client_mem : gmap Z StreamClient;
  ss_hash : list (list Z);
  ss_clients : list Z;
  ss_streams : list Z;
  ss_subscriptions : list Subscription;
  ss_id_cnt : Z;
  ss_events : list StreamEvent;
  ss_next : Z;
  ss_rest : V }.
Arguments mkSS {V}.
Arguments ss_mem {V}.
Arguments ss_client_mem {V}.
Arguments ss_hash {V}.
Arguments ss_clients {V}.
Arguments ss_streams {V}.
Arguments ss_subscriptions {V}.
Arguments ss_id_cnt {V}.
Arguments ss_events {V}.
Arguments ss_next {V}.
Arguments ss_rest {V}.

(** ** The fields of a stream *)

Definition vs_set_refs (n : Z) (deleted : bool) (l : list Z) (x : VirtualStream) : VirtualStream :=
  mkVS (vs_type x) (vs_id x) (vs_access x) (vs_callback x) n deleted l (vs_pos x) (vs_buf x) (vs_inp x) (vs_out x)
    (vs_eos_inp x) (vs_eos_out x) (vs_data_posted x) (vs_space_posted x).
Definition vs_set_ring (pos : Z) (buf : list Z) (inp out : Z) (x : VirtualStream) : VirtualStream :=
  mkVS (vs_type x) (vs_id x) (vs_access x) (vs_callback x) (vs_ref_cnt x) (vs_deleted x) (vs_clients x) pos buf inp out
    (vs_eos_inp x) (vs_eos_out x) (vs_data_posted x) (vs_space_posted x).
Definition vs_set_eos (inp out : bool) (x : VirtualStream) : VirtualStream :=
  mkVS (vs_type x) (vs_id x) (vs_access x) (vs_callback x) (vs_ref_cnt x) (vs_deleted x) (vs_clients x) (vs_pos x)
    (vs_buf x) (vs_inp x) (vs_out x) inp out (vs_data_posted x) (vs_space_posted x).
Definition vs_set_posted (data space : bool) (x : VirtualStream) : VirtualStream :=
  mkVS (vs_type x) (vs_id x) (vs_access x) (vs_callback x) (vs_ref_cnt x) (vs_deleted x) (vs_clients x) (vs_pos x)
    (vs_buf x) (vs_inp x) (vs_out x) (vs_eos_inp x) (vs_eos_out x) data space.

(** [buf_len], and the number of bytes in the ring. *)
Definition vs_buf_len (x : VirtualStream) : Z := Z.of_nat (length (vs_buf x)).
Definition vs_len (x : VirtualStream) : Z := (vs_inp x + vs_buf_len x - vs_out x) mod vs_buf_len x.

(** [memcpy] of [d] into the ring at [pos], in one or two pieces, and of [len] bytes from it. *)
Definition ring_put (buf : list Z) (pos : Z) (d : list Z) : list Z :=
  let bl := Z.of_nat (length buf) in
  if pos + Z.of_nat (length d) <=? bl then overwrite (Z.to_nat pos) d buf
  else
    let x := Z.to_nat (bl - pos) in
    overwrite 0 (drop x d) (overwrite (Z.to_nat pos) (take x d) buf).

Definition ring_get (buf : list Z) (pos len : Z) : list Z * list Z :=
  let bl := Z.of_nat (length buf) in
  if pos + len <=? bl then (take (Z.to_nat len) (drop (Z.to_nat pos) buf), [])
  else (drop (Z.to_nat pos) buf, take (Z.to_nat (len - (bl - pos))) buf).

(** ** Names *)

Definition virtual_stream_get_id (x : VirtualStream) : list Z := STREAM_BASE_ID ++ ulong_text (vs_id x).

Fixpoint skip_prefix (base s : list Z) : option (list Z) :=
  match base with
  | [] => Some s
  | b :: base' => if deref s =? b then skip_prefix base' (tl s) else None
  end.

Definition str2id (s : list Z) : option Z :=
  match skip_prefix STREAM_BASE_ID s with
  | None => None
  | Some s' =>
      let '(v, _, rest) := strtoul s' in
      if deref rest =? 0 then Some (uwrap 32 v) else None
  end.

Definition get_client_hash (id c : Z) : Z := uwrap 32 (id + uwrap 32 c) mod HANDLE_HASH_SIZE.

Section Service.
Context {IS OS V : Type} `{InputStream IS} `{OutputStream OS}.

Notation World := (World IS OS (StreamsState V)).
Notation W := (M World).
Notation SS := (StreamsState V).

(** Enough for the symbols of a message. *)
Variable fuel : nat.
(** [write_error_object] of json.c; the error [set_fmt_errno] makes of a name that is not known. *)
Variable write_error_object : Z -> M OS unit.
Variable no_such_stream : list Z -> Z.
Variable already_subscribed : Z.
(** The call of a callback for a stream and an event. *)
Variable call_callback : Z -> Z -> Z -> W unit.

Definition ss_set_mem (m : gmap Z VirtualStream) (s : SS) : SS :=
  mkSS m (ss_client_mem s) (ss_hash s) (ss_clients s) (ss_streams s) (ss_subscriptions s) (ss_id_cnt s) (ss_events s)
    (ss_next s) (ss_rest s).
Definition ss_set_client_mem (m : gmap Z StreamClient) (s : SS) : SS :=
  mkSS (ss_mem s) m (ss_hash s) (ss_clients s) (ss_streams s) (ss_subscriptions s) (ss_id_cnt s) (ss_events s)
    (ss_next s) (ss_rest s).
Definition ss_set_lists (h : list (list Z)) (clients streams : list Z) (s : SS) : SS :=
  mkSS (ss_mem s) (ss_client_mem s) h clients streams (ss_subscriptions s) (ss_id_cnt s) (ss_events s) (ss_next s) (ss_rest s).
Definition ss_set_subscriptions (l : list Subscription) (s : SS) : SS :=
  mkSS (ss_mem s) (ss_client_mem s) (ss_hash s) (ss_clients s) (ss_streams s) l (ss_id_cnt s) (ss_events s) (ss_next s) (ss_rest s).
Definition ss_set_counts (id next : Z) (s : SS) : SS :=
  mkSS (ss_mem s) (ss_client_mem s) (ss_hash s) (ss_clients s) (ss_streams s) (ss_subscriptions s) id (ss_events s) next (ss_rest s).
Definition ss_set_events (l : list StreamEvent) (s : SS) : SS :=
  mkSS (ss_mem s) (ss_client_mem s) (ss_hash s) (ss_clients s) (ss_streams s) (ss_subscriptions s) (ss_id_cnt s) l (ss_next s) (ss_rest s).

Definition get_stream (p : Z) : W VirtualStream :=
  let! m := on_user (gets ss_mem) in
  match m !! p with Some x => ret x | None => fault end.
Definition put_stream (p : Z) (x : VirtualStream) : W unit :=
  on_user (modify (fun s => ss_set_mem (<[p := x]> (ss_mem s)) s)).
Definition get_client (p : Z) : W StreamClient :=
  let! m := on_user (gets ss_client_mem) in
  match m !! p with Some x => ret x | None => fault end.
Definition put_client (p : Z) (x : StreamClient) : W unit :=
  on_user (modify (fun s => ss_set_client_mem (<[p := x]> (ss_client_mem s)) s)).
Definition post_event (e : StreamEvent) : W unit := on_user (modify (fun s => ss_set_events (ss_events s ++ [e]) s)).

Definition sc_set_reads (l : list ReadRequest) (cl : StreamClient) : StreamClient :=
  mkSC (sc_stream cl) (sc_channel cl) (sc_pos cl) l (sc_writes cl).
Definition sc_set_writes (l : list WriteRequest) (cl : StreamClient) : StreamClient :=
  mkSC (sc_stream cl) (sc_channel cl) (sc_pos cl) (sc_reads cl) l.
Definition sc_set_pos (pos : Z) (cl : StreamClient) : StreamClient :=
  mkSC (sc_stream cl) (sc_channel cl) pos (sc_reads cl) (sc_writes cl).

(** The search of a list of clients. *)
Fixpoint find_in (id c : Z) (l : list Z) : W (option Z) :=
  match l with
  | [] => ret None
  | p :: l' =>
      let! cl := get_client p in
      let! x := get_stream (sc_stream cl) in
      if (vs_id x =? id) && (sc_channel cl =? c) then ret (Some p) else find_in id c l'
  end.

(** The client, or the error. *)
Definition find_client (s : list Z) (c : Z) : W (option Z * Z) :=
  let! r := (match str2id s with
             | Some id =>
                 let! h := on_user (gets ss_hash) in
                 find_in id c (bucket h (get_client_hash id c))
             | None => ret None
             end) in
  match r with Some p => ret (Some p, 0) | None => ret (None, no_such_stream s) end.

(** ** Messages to the clients *)

Definition send_event_stream_created (x : VirtualStream) (context_id : list Z) : M OS unit :=
  write_stringz (str "E") ;!
  write_stringz STREAMS ;!
  write_stringz (str "created") ;!
  json_write_string (Some (vs_type x)) ;!
  write_stream 0 ;!
  json_write_string (Some (virtual_stream_get_id x)) ;!
  write_stream 0 ;!
  json_write_string (Some context_id) ;!
  write_stream 0 ;!
  write_stream MARKER_EOM.

Definition send_event_stream_disposed (x : VirtualStream) : M OS unit :=
  write_stringz (str "E") ;!
  write_stringz STREAMS ;!
  write_stringz (str "disposed") ;!
  json_write_string (Some (vs_type x)) ;!
  write_stream 0 ;!
  json_write_string (Some (virtual_stream_get_id x)) ;!
  write_stream 0 ;!
  write_stream MARKER_EOM.

(** The reply to a command without results, and to a read without data. *)
Definition write_result (token : list Z) (err : Z) : M OS unit :=
  write_stringz (str "R") ;!
  write_stringz token ;!
  write_errno write_error_object err ;!
  write_stream MARKER_EOM.

Definition write_no_data (token : list Z) (err : Z) (eos : bool) : M OS unit :=
  write_stringz (str "R") ;!
  write_stringz token ;!
  write_stringz (str "null") ;!
  write_errno write_error_object err ;!
  json_write_long 0 ;!
  write_stream 0 ;!
  json_write_boolean eos ;!
  write_stream 0 ;!
  write_stream MARKER_EOM.

(** The requests are removed from the lists of the client by the callers. *)
Definition delete_read_request (c : Z) (r : ReadRequest) : W unit :=
  catch (on_out c (write_no_data (rr_token r) ERR_COMMAND_CANCELLED true)) (fun _ => ret tt).

Definition delete_write_request (c : Z) (r : WriteRequest) (error : Z) : W unit :=
  catch (on_out c (write_result (wr_token r) error)) (fun _ => ret tt).

(** ** Events *)

Definition delete_stream (p : Z) : W unit :=
  let! x := get_stream p in
  cassert (bool_decide (vs_clients x = [])) ;!
  cassert (vs_deleted x) ;!
  on_user (modify (fun s => ss_set_lists (ss_hash s) (ss_clients s) (List.filter (fun q => negb (q =? p)) (ss_streams s)) s)) ;!
  on_user (modify (fun s => ss_set_mem (delete p (ss_mem s)) s)).

Definition notify_data_available (p : Z) : W unit :=
  let! x := get_stream p in
  put_stream p (vs_set_posted false (vs_space_posted x) x) ;!
  if vs_deleted x || vs_eos_out x then ret tt else call_callback (vs_callback x) p VS_EVENT_DATA_AVAILABLE.

Definition notify_space_available (p : Z) : W unit :=
  let! x := get_stream p in
  put_stream p (vs_set_posted (vs_data_posted x) false x) ;!
  if vs_deleted x || vs_eos_inp x then ret tt else call_callback (vs_callback x) p VS_EVENT_SPACE_AVAILABLE.

(** ** The buffer *)

(** The loop that finds the least position of the clients. *)
Fixpoint min_client_pos (pos : Z) (l : list Z) (min_pos : Z) : W Z :=
  match l with
  | [] => ret min_pos
  | p :: l' =>
      let! cl := get_client p in
      cassert (sc_pos cl <=? pos) ;!
      min_client_pos pos l' (if sc_pos cl <? min_pos then sc_pos cl else min_pos)
  end.

Definition post_space_available (p : Z) : W unit :=
  let! x := get_stream p in
  if vs_space_posted x then ret tt
  else
    post_event (NotifySpaceAvailable p) ;!
    put_stream p (vs_set_posted (vs_data_posted x) true x).

Definition advance_stream_buffer (p : Z) : W unit :=
  let! x := get_stream p in
  let len := vs_len x in
  let buf_pos := uwrap 64 (vs_pos x - len) in
  cassert (negb (Z.land (vs_access x) VS_ENABLE_REMOTE_READ =? 0)) ;!
  let! min_pos := min_client_pos (vs_pos x) (vs_clients x) (2 ^ 64 - 1) in
  let set_out out := put_stream p (vs_set_ring (vs_pos x) (vs_buf x) (vs_inp x) out x) in
  (if min_pos =? 2 ^ 64 - 1 then set_out (vs_inp x)
   else if buf_pos <? min_pos then
     cassert (min_pos - buf_pos <=? len) ;!
     set_out ((vs_out x + uwrap 32 (min_pos - buf_pos)) mod vs_buf_len x)
   else if vs_buf_len x <=? uwrap 64 (vs_pos x - min_pos) then fault
   else ret tt) ;!
  let! x' := get_stream p in
  if negb (len =? vs_len x') then post_space_available p else ret tt.

(** [list_add_first] of the new client to its lists. *)
Definition create_client (p c : Z) : W unit :=
  let! x := get_stream p in
  let! q := on_user (gets ss_next) in
  on_user (modify (fun s => ss_set_counts (ss_id_cnt s) (q + 1) s)) ;!
  put_client q (mkSC p c (uwrap 64 (vs_pos x - vs_len x)) [] []) ;!
  let h := get_client_hash (vs_id x) c in
  on_user (modify (fun s => ss_set_lists (set_bucket h (q :: bucket (ss_hash s) h) (ss_hash s)) (q :: ss_clients s) (ss_streams s) s)) ;!
  put_stream p (vs_set_refs (swrap 32 (vs_ref_cnt x + 1)) (vs_deleted x) (q :: vs_clients x) x).

Definition remove (q : Z) (l : list Z) : list Z := List.filter (fun p => negb (p =? q)) l.

(** The loops that cancel the requests of a client. *)
Fixpoint cancel_reads (q c : Z) (l : list ReadRequest) : W unit :=
  match l with
  | [] => ret tt
  | r :: l' =>
      delete_read_request c r ;!
      let! cl := get_client q in
      put_client q (sc_set_reads l' cl) ;!
      cancel_reads q c l'
  end.

Fixpoint cancel_writes (q c error : Z) (l : list WriteRequest) : W unit :=
  match l with
  | [] => ret tt
  | r :: l' =>
      delete_write_request c r error ;!
      let! cl := get_client q in
      put_client q (sc_set_writes l' cl) ;!
      cancel_writes q c error l'
  end.

Definition delete_client (q : Z) : W unit :=
  let! cl := get_client q in
  let p := sc_stream cl in
  let c := sc_channel cl in
  let! x := get_stream p in
  cassert (0 <? vs_ref_cnt x) ;!
  catch (on_out c (send_event_stream_disposed x)) (fun _ => ret tt) ;!
  let h := get_client_hash (vs_id x) c in
  on_user (modify (fun s => ss_set_lists (set_bucket h (remove q (bucket (ss_hash s) h)) (ss_hash s)) (remove q (ss_clients s)) (ss_streams s) s)) ;!
  put_stream p (vs_set_refs (vs_ref_cnt x) (vs_deleted x) (remove q (vs_clients x)) x) ;!
  cancel_reads q c (sc_reads cl) ;!
  cancel_writes q c ERR_COMMAND_CANCELLED (sc_writes cl) ;!
  on_user (modify (fun s => ss_set_client_mem (delete q (ss_client_mem s)) s)) ;!
  let! x := get_stream p in
  put_stream p (vs_set_refs (vs_ref_cnt x - 1) (vs_deleted x) (vs_clients x) x) ;!
  if vs_ref_cnt x - 1 =? 0 then
    cassert (bool_decide (vs_clients x = [])) ;!
    cassert (vs_deleted x) ;!
    post_event (DeleteStream p)
  else if negb (Z.land (vs_access x) VS_ENABLE_REMOTE_READ =? 0) then advance_stream_buffer p
  else ret tt.

(** The reply to a read, with the data in two pieces. *)
Definition write_read_reply (token data1 data2 : list Z) (lost : Z) (eos : bool) : M OS unit :=
  write_stringz (str "R") ;!
  write_stringz token ;!
  (if (0 <? length data1 + length data2)%nat then
     let! st := json_write_binary_start (Z.of_nat (length data1 + length data2)) in
     let! st := json_write_binary_data st data1 in
     let! st := json_write_binary_data st data2 in
     json_write_binary_end st ;!
     write_stream 0
   else write_stringz (str "null")) ;!
  write_errno write_error_object 0 ;!
  json_write_long lost ;!
  write_stream 0 ;!
  json_write_boolean eos ;!
  write_stream 0 ;!
  write_stream MARKER_EOM.

Definition send_read_reply (q : Z) (token : list Z) (size : Z) : W unit :=
  let! cl := get_client q in
  let! x := get_stream (sc_stream cl) in
  let len := vs_len x in
  let bl := vs_buf_len x in
  cassert ((0 <? len) || vs_eos_inp x) ;!
  cassert (sc_pos cl <=? vs_pos x) ;!
  let short := len <? vs_pos x - sc_pos cl in
  let lost := if short then vs_pos x - sc_pos cl - len else 0 in
  let len := if short then len else uwrap 32 (vs_pos x - sc_pos cl) in
  let pos := (vs_inp x + bl - len) mod bl in
  let len := if size <? len then size else len in
  let '(data1, data2) := ring_get (vs_buf x) pos len in
  cassert (Z.of_nat (length data1 + length data2) =? len) ;!
  let client_pos := uwrap 64 (sc_pos cl + lost + len) in
  put_client q (sc_set_pos client_pos cl) ;!
  cassert (client_pos <=? vs_pos x) ;!
  let eos := (client_pos =? vs_pos x) && vs_eos_inp x in
  cassert (eos || (0 <? lost + len)) ;!
  on_out (sc_channel cl) (write_read_reply token data1 data2 lost eos).

(** ** The functions for the owner of a stream *)

(** The loop over the subscriptions. *)
Fixpoint create_clients (p : Z) (type context_id : list Z) (l : list Subscription) : W unit :=
  match l with
  | [] => ret tt
  | h :: l' =>
      (if streq type (sb_type h) then
         create_client p (sb_channel h) ;!
         let! x := get_stream p in
         catch (on_out (sb_channel h) (send_event_stream_created x context_id)) (fun _ => ret tt)
       else ret tt) ;!
      create_clients p type context_id l'
  end.

Definition virtual_stream_create (type context_id : list Z) (buf_len access callback : Z) : W Z :=
  let! id := on_user (gets ss_id_cnt) in
  let! p := on_user (gets ss_next) in
  on_user (modify (ss_set_counts (uwrap 32 (id + 1)) (p + 1))) ;!
  put_stream p (mkVS (take 255 type) id access callback 1 false [] 0 (replicate (Z.to_nat (uwrap 64 (buf_len + 1))) 0) 0 0 false false false false) ;!
  let! l := on_user (gets ss_subscriptions) in
  create_clients p type context_id l ;!
  on_user (modify (fun s => ss_set_lists (ss_hash s) (ss_clients s) (p :: ss_streams s) s)) ;!
  ret p.

Fixpoint find_stream (id : Z) (l : list Z) : W (option Z) :=
  match l with
  | [] => ret None
  | p :: l' =>
      let! x := get_stream p in
      if (vs_id x =? id) && negb (vs_deleted x) then ret (Some p) else find_stream id l'
  end.

Definition virtual_stream_find (id : list Z) : W (option Z) :=
  match str2id id with
  | Some n => let! l := on_user (gets ss_streams) in find_stream n l
  | None => ret None
  end.

(** The loop over the read requests of a client. *)
Fixpoint serve_reads (q : Z) (l : list ReadRequest) : W unit :=
  match l with
  | [] => ret tt
  | r :: l' =>
      let! cl := get_client q in
      let! x := get_stream (sc_stream cl) in
      if (sc_pos cl <? vs_pos x) || vs_eos_inp x then
        put_client q (sc_set_reads l' cl) ;!
        send_read_reply q (rr_token r) (rr_size r) ;!
        serve_reads q l'
      else ret tt
  end.

Fixpoint serve_clients (l : list Z) : W unit :=
  match l with
  | [] => ret tt
  | q :: l' =>
      let! cl := get_client q in
      serve_reads q (sc_reads cl) ;!
      serve_clients l'
  end.

(** The result is the error and the number of bytes; [buf] are the bytes of the block that are
    defined.  The number is not stored after an error, and the callers have set it to 0. *)
Definition virtual_stream_add_data (p : Z) (buf : list Z) (buf_size : Z) (eos : bool) : W (Z * Z) :=
  let! x := get_stream p in
  let! (err, data_size) :=
    (if vs_eos_inp x then ret (ERR_EOF, 0)
     else
       let bl := vs_buf_len x in
       let len := (vs_out x + bl - vs_inp x - 1) mod bl in
       cassert (len <? bl) ;!
       let len := if buf_size <? len then buf_size else len in
       if Z.of_nat (length buf) <? len then fault
       else
         let d := take (Z.to_nat len) buf in
         put_stream p (vs_set_eos (vs_eos_inp x || (eos && (buf_size =? len))) (vs_eos_out x)
           (vs_set_ring (uwrap 64 (vs_pos x + len)) (ring_put (vs_buf x) (vs_inp x) d) ((vs_inp x + len) mod bl) (vs_out x) x)) ;!
         ret (0, len)) in
  let! x := get_stream p in
  (if negb (Z.land (vs_access x) VS_ENABLE_REMOTE_READ =? 0) then
     if (err =? 0) && (vs_eos_inp x || (0 <? data_size)) then
       serve_clients (vs_clients x) ;!
       advance_stream_buffer p
     else ret tt
   else if vs_data_posted x then ret tt
   else
     post_event (NotifyDataAvailable p) ;!
     put_stream p (vs_set_posted true (vs_space_posted x) x)) ;!
  ret (err, data_size).

(** The part of [virtual_stream_get_data] that moves the data of the waiting writes. *)
Fixpoint move_writes (l : list Z) : W unit :=
  match l with
  | [] => ret tt
  | q :: l' =>
      let! cl := get_client q in
      (match sc_writes cl with
       | [] => ret tt
       | r :: rs =>
           let! (error, done) := virtual_stream_add_data (sc_stream cl) (drop (Z.to_nat (wr_offs r)) (wr_data r))
                                   (wr_size r - wr_offs r) (wr_eos r) in
           let r := mkWR (wr_token r) (wr_data r) (wr_offs r + done) (wr_size r) (wr_eos r) in
           let! cl := get_client q in
           put_client q (sc_set_writes (r :: rs) cl) ;!
           (if negb (error =? 0) || (wr_size r <=? wr_offs r) then
              delete_write_request (sc_channel cl) r error ;!
              put_client q (sc_set_writes rs cl)
            else ret tt) ;!
           if negb (error =? 0) then cancel_writes q (sc_channel cl) ERR_COMMAND_CANCELLED rs else ret tt
       end) ;!
      move_writes l'
  end.

(** The data and [*eos]. *)
Definition virtual_stream_get_data (p buf_size : Z) : W (list Z * bool) :=
  let! x := get_stream p in
  let len := vs_len x in
  let eos := if buf_size <? len then false else vs_eos_inp x in
  let len := if buf_size <? len then buf_size else len in
  put_stream p (vs_set_eos (vs_eos_inp x) (vs_eos_out x || eos) x) ;!
  let '(d1, d2) := ring_get (vs_buf x) (vs_out x) len in
  (if negb (Z.land (vs_access x) VS_ENABLE_REMOTE_WRITE =? 0) then move_writes (vs_clients x) else ret tt) ;!
  let! x := get_stream p in
  (if (Z.land (vs_access x) VS_ENABLE_REMOTE_READ =? 0) && (0 <? len) then
     let out := (vs_out x + len) mod vs_buf_len x in
     put_stream p (vs_set_ring (vs_pos x) (vs_buf x) (vs_inp x) out x) ;!
     cassert (negb eos || (out =? vs_inp x)) ;!
     post_space_available p
   else ret tt) ;!
  ret (d1 ++ d2, eos).

Definition virtual_stream_is_empty (p : Z) : W bool :=
  let! x := get_stream p in
  cassert (negb (vs_deleted x)) ;!
  ret (vs_out x =? vs_inp x).

Definition virtual_stream_delete (p : Z) : W unit :=
  let! x := get_stream p in
  cassert (negb (vs_deleted x)) ;!
  put_stream p (vs_set_refs (vs_ref_cnt x - 1) true (vs_clients x) x) ;!
  if 0 <? vs_ref_cnt x - 1 then ret tt
  else
    cassert (bool_decide (vs_clients x = [])) ;!
    post_event (DeleteStream p).

(** ** Commands: the result is the error *)

Definition is_subscription (c : Z) (type : list Z) (h : Subscription) : bool := (sb_channel h =? c) && streq type (sb_type h).

Definition virtual_stream_subscribe (c : Z) (type : list Z) : W Z :=
  let! l := on_user (gets ss_subscriptions) in
  if existsb (is_subscription c type) l then ret already_subscribed
  else on_user (modify (ss_set_subscriptions (mkSub (take 255 type) c :: l))) ;! ret 0.

(** The first subscription that is found is removed. *)
Fixpoint remove_subscription (c : Z) (type : list Z) (l : list Subscription) : option (list Subscription) :=
  match l with
  | [] => None
  | h :: l' => if is_subscription c type h then Some l' else option_map (cons h) (remove_subscription c type l')
  end.

Definition virtual_stream_unsubscribe (c : Z) (type : list Z) : W Z :=
  let! l := on_user (gets ss_subscriptions) in
  match remove_subscription c type l with
  | Some l' => on_user (modify (ss_set_subscriptions l')) ;! ret 0
  | None => ret ERR_INV_CONTEXT
  end.

(** The stream of a client, if it allows an access. *)
Definition check_access (client : option Z) (err access : Z) : W Z :=
  match client with
  | None => ret err
  | Some q =>
      let! cl := get_client q in
      let! x := get_stream (sc_stream cl) in
      ret (if Z.land (vs_access x) access =? 0 then ERR_UNSUPPORTED else 0)
  end.

Definition virtual_stream_read (c : Z) (token id : list Z) (size : Z) : W Z :=
  let! (client, err) := find_client id c in
  let! err := check_access client err VS_ENABLE_REMOTE_READ in
  match client with
  | Some q =>
      if err =? 0 then
        let! cl := get_client q in
        let! x := get_stream (sc_stream cl) in
        (if (sc_pos cl =? vs_pos x) && negb (vs_eos_inp x) then
           put_client q (sc_set_reads (sc_reads cl ++ [mkRR (take 255 token) size]) cl)
         else
           cassert (bool_decide (sc_reads cl = [])) ;!
           cassert (sc_channel cl =? c) ;!
           send_read_reply q token size ;!
           advance_stream_buffer (sc_stream cl)) ;!
        ret err
      else ret err
  | None => ret err
  end.

(** The loop of [virtual_stream_write]: [data] is the block that keeps what did not fit into the
    stream, [offs] what did.  The stream of the client is [p]. *)
Fixpoint write_loop (n : nat) (c p size : Z) (st : JsonReadBinaryState) (data : option (list Z)) (offs err : Z) :
    W (JsonReadBinaryState * option (list Z) * Z * Z) :=
  match n with
  | O => nofuel
  | S n' =>
      match data with
      | Some d =>
          let room := uwrap 64 (size - offs - Z.of_nat (length d)) in
          let! (b, st) := on_json c (json_read_binary_data fuel st (Z.to_nat room)) in
          if (length b =? 0)%nat then ret (st, data, offs, err)
          else write_loop n' c p size st (Some (d ++ b)) offs err
      | None =>
          let! (b, st) := on_json c (json_read_binary_data fuel st 256) in
          if (length b =? 0)%nat then ret (st, data, offs, err)
          else if negb (err =? 0) then write_loop n' c p size st None offs err
          else
            let rd := Z.of_nat (length b) in
            let! (err, done) := virtual_stream_add_data p b rd false in
            cassert (done <=? rd) ;!
            let offs := offs + done in
            if (err =? 0) && (done <? rd) then
              if uwrap 64 (size - offs) <? rd - done then fault  (* memcpy beyond the block *)
              else write_loop n' c p size st (Some (drop (Z.to_nat done) b)) offs err
            else write_loop n' c p size st None offs err
      end
  end.

Definition virtual_stream_write (c : Z) (token id : list Z) (size : Z) : W Z :=
  let! (client, err) := find_client id c in
  let! err := check_access client err VS_ENABLE_REMOTE_WRITE in
  let! (p, waiting) :=
    (match client with
     | Some q => let! cl := get_client q in ret (sc_stream cl, negb (bool_decide (sc_writes cl = [])))
     | None => ret (0, false)
     end) in
  let data := if (err =? 0) && waiting then Some [] else None in
  let! st := on_json c (json_read_binary_start fuel) in
  let! (st, data, offs, err) := write_loop fuel c p size st data 0 err in
  on_json c (json_read_binary_end fuel st) ;!
  (match data, client with
   | Some d, Some q =>
       let! cl := get_client q in
       put_client q (sc_set_writes (sc_writes cl ++ [mkWR (take 255 token) d 0 (uwrap 64 (size - offs)) false]) cl)
   | _, _ => if err =? 0 then on_out c (write_result token err) else ret tt
   end) ;!
  ret err.

Definition virtual_stream_eos (c : Z) (token id : list Z) : W Z :=
  let! (client, err) := find_client id c in
  let! err := check_access client err VS_ENABLE_REMOTE_WRITE in
  match client with
  | Some q =>
      if err =? 0 then
        let! cl := get_client q in
        if bool_decide (sc_writes cl = []) then
          let! (err, _) := virtual_stream_add_data (sc_stream cl) [] 0 true in
          (if err =? 0 then on_out c (write_result token err) else ret tt) ;!
          ret err
        else
          put_client q (sc_set_writes (sc_writes cl ++ [mkWR (take 255 token) [] 0 0 true]) cl) ;!
          ret err
      else ret err
  | None => ret err
  end.

Definition virtual_stream_connect (c : Z) (id : list Z) : W Z :=
  let! (client, _) := find_client id c in
  match client with
  | Some _ => ret 0
  | None =>
      let! p := virtual_stream_find id in
      match p with
      | Some p => create_client p c ;! ret 0
      | None => ret ERR_INV_CONTEXT
      end
  end.

Definition virtual_stream_disconnect (c : Z) (id : list Z) : W Z :=
  let! (client, err) := find_client id c in
  match client with
  | Some q => delete_client q ;! ret 0
  | None => ret err
  end.

(** A string in an array of 256 bytes, at the end of the arguments or not. *)
Definition read_arg (c : Z) : W (list Z) :=
  let! (_, s) := on_json c (json_read_string fuel 256) in
  on_json c (json_test_char fuel MARKER_EOA) ;!
  ret (cstr s).
Definition read_end (c : Z) : W unit := on_json c (json_test_char fuel MARKER_EOM).

Definition command_subscribe (token : list Z) (c : Z) : W unit :=
  let! type := read_arg c in
  read_end c ;!
  let! err := virtual_stream_subscribe c type in
  on_out c (write_result token err).

Definition command_unsubscribe (token : list Z) (c : Z) : W unit :=
  let! type := read_arg c in
  read_end c ;!
  let! err := virtual_stream_unsubscribe c type in
  on_out c (write_result token err).

Definition command_read (token : list Z) (c : Z) : W unit :=
  let! id := read_arg c in
  let! size := on_json c (json_read_ulong fuel) in
  on_json c (json_test_char fuel MARKER_EOA) ;!
  read_end c ;!
  let! err := virtual_stream_read c token id size in
  if negb (err =? 0) then on_out c (write_no_data token err false) else ret tt.

Definition command_write (token : list Z) (c : Z) : W unit :=
  let! id := read_arg c in
  let! size := on_json c (json_read_long fuel) in
  on_json c (json_test_char fuel MARKER_EOA) ;!
  let! err := virtual_stream_write c token id (uwrap 64 size) in
  on_json c (json_test_char fuel MARKER_EOA) ;!
  read_end c ;!
  if negb (err =? 0) then on_out c (write_result token err) else ret tt.

Definition command_eos (token : list Z) (c : Z) : W unit :=
  let! id := read_arg c in
  read_end c ;!
  let! err := virtual_stream_eos c token id in
  if negb (err =? 0) then on_out c (write_result token err) else ret tt.

Definition command_connect (token : list Z) (c : Z) : W unit :=
  let! id := read_arg c in
  read_end c ;!
  let! err := virtual_stream_connect c id in
  on_out c (write_result token err).

Definition command_disconnect (token : list Z) (c : Z) : W unit :=
  let! id := read_arg c in
  read_end c ;!
  let! err := virtual_stream_disconnect c id in
  on_out c (write_result token err).

(** ** Closing a channel *)

Fixpoint close_clients (c : Z) (l : list Z) : W unit :=
  match l with
  | [] => ret tt
  | q :: l' =>
      let! cl := get_client q in
      (if sc_channel cl =? c then delete_client q else ret tt) ;!
      close_clients c l'
  end.

Definition channel_close_listener (c : Z) : W unit :=
  let! l := on_user (gets ss_clients) in
  close_clients c l ;!
  on_user (modify (fun s => ss_set_subscriptions (List.filter (fun h => negb (sb_channel h =? c)) (ss_subscriptions s)) s)).

End Service.
