(* ===== verification/VirtualStreamRing.v ===== *)
(** * The ring of a virtual stream (VirtualStreams.v)

    The ring is looked at from the byte that is read next: [rot p buf] are the cells from [p] on, and the
    data are a prefix of them. *)

From S2P Require Import Prelude Streams JsonWrite JsonRead JsonStruct Channel Protocol VirtualStreams.

Definition rot (p : nat) (buf : list Z) : list Z := drop p buf ++ take p buf.

Lemma rot_length p buf : length (rot p buf) = length buf.
Proof. unfold rot. rewrite length_app, length_drop, length_take. lia. Qed.

(** The cell [k] after [p]. *)
Definition wrap (bl i : nat) : nat := if (i <? bl)%nat then i else (i - bl)%nat.

Lemma wrap_mod bl i : (0 < bl)%nat -> (i < 2 * bl)%nat -> Z.of_nat (wrap bl i) = Z.of_nat i mod Z.of_nat bl.
Proof.
  intros Hb Hi. unfold wrap. destruct (Nat.ltb_spec i bl).
  - rewrite Z.mod_small; lia.
  - rewrite <- (Z_mod_plus_full _ (-1)), Z.mod_small; lia.
Qed.

Lemma rot_lookup p buf k : (p <= length buf)%nat -> (k < length buf)%nat -> rot p buf !! k = buf !! wrap (length buf) (p + k).
Proof.
  intros Hp Hk. unfold rot, wrap. destruct (Nat.ltb_spec (p + k) (length buf)).
  - rewrite lookup_app_l by (rewrite length_drop; lia). by rewrite lookup_drop.
  - rewrite lookup_app_r by (rewrite length_drop; lia). rewrite length_drop, lookup_take_lt by lia. f_equal. lia.
Qed.

Lemma list_ext {A} (l k : list A) : length l = length k -> (forall i, (i < length l)%nat -> l !! i = k !! i) -> l = k.
Proof.
  intros Hl H. apply list_eq. intros i. destruct (Nat.ltb_spec i (length l)); [by apply H|].
  rewrite !lookup_ge_None_2 by lia. done.
Qed.

Lemma Forall2_impl_in {A B} (P Q : A -> B -> Prop) l k :
  Forall2 P l k -> (forall x y, x ∈ l -> y ∈ k -> P x y -> Q x y) -> Forall2 Q l k.
Proof.
  induction 1 as [|x y l k Hxy Hl IH]; intros HQ; constructor.
  - apply HQ; [left|left|done].
  - apply IH. intros. apply HQ; [by right|by right|done].
Qed.

(** Reading. *)
Lemma ring_get_rot buf pos len : 0 <= pos <= Z.of_nat (length buf) -> 0 <= len <= Z.of_nat (length buf) ->
  let '(a, b) := ring_get buf pos len in a ++ b = take (Z.to_nat len) (rot (Z.to_nat pos) buf).
Proof.
  intros Hp Hl. unfold ring_get, rot. destruct (Z.leb_spec (pos + len) (Z.of_nat (length buf))).
  - rewrite app_nil_r, take_app_le by (rewrite length_drop; lia). done.
  - rewrite take_app_ge by (rewrite length_drop; lia). f_equal. rewrite length_drop, take_take. f_equal. lia.
Qed.

(** Moving on. *)
Lemma rot_wrap p k buf : (p < length buf)%nat -> (k < length buf)%nat ->
  rot (wrap (length buf) (p + k)) buf = drop k (rot p buf) ++ take k (rot p buf).
Proof.
  intros Hp Hk. assert (Hw : (wrap (length buf) (p + k) < length buf)%nat).
  { unfold wrap. destruct (Nat.ltb_spec (p + k) (length buf)); lia. }
  apply list_ext; rewrite rot_length; [rewrite length_app, length_drop, length_take, rot_length; lia|]. intros i Hi.
  rewrite rot_lookup by lia. destruct (Nat.ltb_spec i (length buf - k)).
  - rewrite lookup_app_l by (rewrite length_drop, rot_length; lia). rewrite lookup_drop, rot_lookup by lia. f_equal.
    unfold wrap in *. repeat case_match; bool_to_prop; repeat match goal with H : (_ <? _)%nat = _ |- _ => first [apply Nat.ltb_lt in H|apply Nat.ltb_ge in H] end; lia.
  - rewrite lookup_app_r by (rewrite length_drop, rot_length; lia). rewrite length_drop, rot_length.
    rewrite lookup_take_lt by lia. rewrite rot_lookup by lia. f_equal.
    unfold wrap in *. repeat case_match; repeat match goal with H : (_ <? _)%nat = _ |- _ => first [apply Nat.ltb_lt in H|apply Nat.ltb_ge in H] end; lia.
Qed.

Lemma overwrite_lookup {A} i (x l : list A) j : (i + length x <= length l)%nat ->
  overwrite i x l !! j = if (i <=? j)%nat && (j <? i + length x)%nat then x !! (j - i)%nat else l !! j.
Proof.
  intros Hi. unfold overwrite. destruct (Nat.leb_spec i j) as [H1|H1]; cbn [andb].
  - rewrite lookup_app_r by (rewrite length_take; lia). rewrite length_take. replace (i `min` length l)%nat with i by lia.
    destruct (Nat.ltb_spec j (i + length x)) as [H2|H2].
    + by rewrite lookup_app_l by lia.
    + rewrite lookup_app_r, lookup_drop by lia. f_equal. lia.
  - rewrite lookup_app_l by (rewrite length_take; lia). by rewrite lookup_take_lt by lia.
Qed.

Ltac nat_bools := repeat match goal with
  | H : (_ <? _)%nat = true |- _ => apply Nat.ltb_lt in H
  | H : (_ <? _)%nat = false |- _ => apply Nat.ltb_ge in H
  | H : (_ <=? _)%nat = true |- _ => apply Nat.leb_le in H
  | H : (_ <=? _)%nat = false |- _ => apply Nat.leb_gt in H
  end.

(** Writing. *)
Lemma ring_put_length buf pos d : 0 <= pos < Z.of_nat (length buf) -> (length d <= length buf)%nat ->
  length (ring_put buf pos d) = length buf.
Proof.
  intros Hp Hd. unfold ring_put. destruct (Z.leb_spec (pos + Z.of_nat (length d)) (Z.of_nat (length buf))).
  - apply overwrite_length. lia.
  - rewrite overwrite_length; rewrite overwrite_length; rewrite ?length_drop, ?length_take; lia.
Qed.

Lemma ring_put_lookup buf pos d j : 0 <= pos < Z.of_nat (length buf) -> (length d <= length buf)%nat -> (j < length buf)%nat ->
  ring_put buf pos d !! j =
    let k := if (Z.to_nat pos <=? j)%nat then (j - Z.to_nat pos)%nat else (j + length buf - Z.to_nat pos)%nat in
    if (k <? length d)%nat then d !! k else buf !! j.
Proof.
  intros Hp Hd Hj. unfold ring_put. set (q := Z.to_nat pos) in *. cbv zeta.
  destruct (Z.leb_spec (pos + Z.of_nat (length d)) (Z.of_nat (length buf))) as [Hl|Hl].
  - rewrite overwrite_lookup by lia. repeat case_match; nat_bools; try done;
      repeat match goal with H : _ && _ = true |- _ => apply andb_true_iff in H as [? ?] | H : _ && _ = false |- _ => apply andb_false_iff in H as [?|?] end;
      nat_bools; try lia; done.
  - set (x := Z.to_nat (Z.of_nat (length buf) - pos)). assert (x = length buf - q)%nat as Ex by lia.
    rewrite overwrite_lookup by (rewrite overwrite_length; rewrite ?length_drop, ?length_take; lia).
    rewrite overwrite_lookup by (rewrite length_take; lia). rewrite length_drop, length_take.
    repeat case_match; repeat match goal with H : _ && _ = true |- _ => apply andb_true_iff in H as [? ?] | H : _ && _ = false |- _ => apply andb_false_iff in H as [?|?] end;
      nat_bools; try lia; try done; rewrite ?lookup_drop, ?lookup_take_lt by lia; try (f_equal; lia).
Qed.

(** Data put after [len] bytes of the ring follow them. *)
Lemma rot_put buf out len d : (out < length buf)%nat -> (len + length d <= length buf)%nat -> (len < length buf)%nat ->
  take (len + length d) (rot out (ring_put buf (Z.of_nat (wrap (length buf) (out + len))) d)) = take len (rot out buf) ++ d.
Proof.
  intros Ho Hl Hlt. set (pos := wrap (length buf) (out + len)).
  assert (Hpos : (pos < length buf)%nat) by (unfold pos, wrap; case_match; nat_bools; lia).
  assert (Hpl : length (ring_put buf (Z.of_nat pos) d) = length buf) by (apply ring_put_length; lia).
  apply list_ext; rewrite length_take, rot_length, Hpl; [rewrite length_app, length_take, rot_length; lia|]. intros i Hi.
  rewrite lookup_take_lt by lia. rewrite rot_lookup, Hpl by lia.
  assert (Hw : (wrap (length buf) (out + i) < length buf)%nat) by (unfold wrap; case_match; nat_bools; lia).
  rewrite ring_put_lookup by lia. rewrite Nat2Z.id. cbv zeta. destruct (Nat.ltb_spec i len) as [Hc|Hc].
  - rewrite lookup_app_l, lookup_take_lt, rot_lookup by (rewrite ?length_take, ?rot_length; lia).
    unfold pos, wrap in *. repeat case_match; nat_bools; try lia; done.
  - rewrite lookup_app_r by (rewrite length_take, rot_length; lia). rewrite length_take, rot_length.
    replace (i - len `min` length buf)%nat with (i - len)%nat by lia.
    unfold pos, wrap in *. repeat case_match; nat_bools; try lia; f_equal; lia.
Qed.
