(* ===== verification/VirtualStreamProps.v ===== *)
(** * Reading from virtual streams (VirtualStreams.v)

    A stream that can be read refines a text that grows at its end and readers that are somewhere in
    it: a reader gets the next piece of the text with every reply, and waits at the end. *)

From S2P Require Import Prelude Streams OutputBuf JsonWrite JsonRead JsonStruct ChannelOut Channel ChannelProps.
From S2P Require Import Protocol ProtocolTables ProtocolProps ProtocolReplies VirtualStreams VirtualStreamRing.

(** ** Specification *)

(** A client of the stream: its channel, how much it has read, and the reads that wait. *)
Record Reader := mkReader { rd_channel : Z; rd_pos : nat; rd_reads : list ReadRequest }.

(** All data that were added, and whether they are complete. *)
Record Text := mkText { tx_data : list Z; tx_eos : bool; tx_readers : list Reader }.

Record Reply := mkReply { re_channel : Z; re_token : list Z; re_data : list Z; re_eos : bool }.

(** The next piece for a reader. *)
Definition piece (data : list Z) (pos : nat) (size : Z) : list Z := take (Z.to_nat size) (drop pos data).

Definition reply_of (data : list Z) (eos : bool) (c : Z) (pos : nat) (token : list Z) (size : Z) : Reply :=
  let d := piece data pos size in mkReply c token d (eos && (pos + length d =? length data)%nat).

(** The reads that wait get their replies as long as there is something to tell. *)
Fixpoint serve (data : list Z) (eos : bool) (c : Z) (pos : nat) (l : list ReadRequest) : list Reply * Reader :=
  match l with
  | [] => ([], mkReader c pos [])
  | r :: l' =>
      if (pos <? length data)%nat || eos then
        let '(rs, rd) := serve data eos c (pos + length (piece data pos (rr_size r))) l' in
        (reply_of data eos c pos (rr_token r) (rr_size r) :: rs, rd)
      else ([], mkReader c pos l)
  end.

Definition serve_reader (data : list Z) (eos : bool) (r : Reader) : list Reply * Reader :=
  serve data eos (rd_channel r) (rd_pos r) (rd_reads r).

(** What the slowest reader has read. *)
Definition low (data : list Z) (l : list Reader) : nat := fold_right Nat.min (length data) (map rd_pos l).

(** Data are added as far as there is room for what the slowest reader has not read, [cap] bytes. *)
Definition text_add (cap : nat) (d : list Z) (eos : bool) (t : Text) : Text * list Reply * (Z * Z) :=
  if tx_eos t then (t, [], (ERR_EOF, 0))
  else
    let n := Nat.min (length d) (cap - (length (tx_data t) - low (tx_data t) (tx_readers t))) in
    let data := tx_data t ++ take n d in
    let eos' := eos && (n =? length d)%nat in
    if eos' || (0 <? n)%nat then
      let served := map (serve_reader data eos') (tx_readers t) in
      (mkText data eos' (map snd served), concat (map fst served), (0, Z.of_nat n))
    else (t, [], (0, 0)).

(** A read of a channel: it waits at the end. *)
Definition read_step (data : list Z) (eos : bool) (token : list Z) (size : Z) (r : Reader) : Reader * list Reply :=
  let c := rd_channel r in
  if (rd_pos r =? length data)%nat && negb eos then (mkReader c (rd_pos r) (rd_reads r ++ [mkRR (take 255 token) size]), [])
  else (mkReader c (rd_pos r + length (piece data (rd_pos r) size)) [], [reply_of data eos c (rd_pos r) token size]).

Fixpoint readers_read (data : list Z) (eos : bool) (c : Z) (token : list Z) (size : Z) (l : list Reader) :
    option (list Reader * list Reply) :=
  match l with
  | [] => None
  | r :: l' =>
      if rd_channel r =? c then let '(r', rs) := read_step data eos token size r in Some (r' :: l', rs)
      else option_map (fun '(l1, rs) => (r :: l1, rs)) (readers_read data eos c token size l')
  end.

Inductive stream_op := StreamAdd (d : list Z) (eos : bool) | StreamRead (c : Z) (token : list Z) (size : Z).

(** The replies and the result of an operation, if it is allowed: a read is for at least one byte, by a
    client. *)
Definition text_op (cap : nat) (op : stream_op) (t : Text) : option (Text * list Reply * (Z * Z)) :=
  match op with
  | StreamAdd d eos => Some (text_add cap d eos t)
  | StreamRead c token size =>
      if 0 <? size then
        match readers_read (tx_data t) (tx_eos t) c token size (tx_readers t) with
        | Some (l, rs) => Some (mkText (tx_data t) (tx_eos t) l, rs, (0, 0))
        | None => None
        end
      else None
  end.

Fixpoint text_ops (cap : nat) (ops : list stream_op) (t : Text) : option (Text * list Reply * list (Z * Z)) :=
  match ops with
  | [] => Some (t, [], [])
  | op :: ops' =>
      match text_op cap op t with
      | Some (t1, rs1, e) =>
          match text_ops cap ops' t1 with Some (t2, rs2, l) => Some (t2, rs1 ++ rs2, e :: l) | None => None end
      | None => None
      end
  end.

(** What the replies to a channel say. *)
Definition replies_to (c : Z) (rs : list Reply) : list Reply := List.filter (fun r => re_channel r =? c) rs.
Definition data_of (rs : list Reply) : list Z := concat (map re_data rs).

(** ** Texts *)

Definition read_ok (r : ReadRequest) : Prop := bytes (rr_token r) /\ 0 < rr_size r.

(** A reader waits only at the end of a text that is not complete. *)
Record reader_ok (data : list Z) (eos : bool) (r : Reader) : Prop := {
  ro_pos : (rd_pos r <= length data)%nat;
  ro_reads : Forall read_ok (rd_reads r);
  ro_wait : rd_reads r <> [] -> rd_pos r = length data /\ eos = false }.

Record text_ok (t : Text) : Prop := {
  to_bytes : bytes (tx_data t);
  to_readers : Forall (reader_ok (tx_data t) (tx_eos t)) (tx_readers t) }.

Lemma piece_length data pos size : length (piece data pos size) = Nat.min (Z.to_nat size) (length data - pos).
Proof. unfold piece. by rewrite length_take, length_drop. Qed.

Lemma piece_take data pos size : piece data pos size = take (length (piece data pos size)) (drop pos data).
Proof. unfold piece. rewrite length_take, length_drop. destruct (decide (Z.to_nat size <= length data - pos)%nat).
  - f_equal. lia.
  - rewrite !take_ge by (rewrite length_drop; lia). done.
Qed.

(** A piece and the one after it. *)
Lemma piece_app {A} (data : list A) a b c : (a <= b)%nat -> (b <= c)%nat ->
  take (b - a) (drop a data) ++ take (c - b) (drop b data) = take (c - a) (drop a data).
Proof.
  intros. replace (drop b data) with (drop (b - a) (drop a data)) by (rewrite drop_drop; f_equal; lia).
  rewrite <- take_plus. f_equal. lia.
Qed.

(** [r'] is [r] later, the text being [data], after the replies [rs]. *)
Record reader_moved (data : list Z) (r : Reader) (rs : list Reply) (r' : Reader) : Prop := {
  rm_channel : rd_channel r' = rd_channel r;
  rm_pos : (rd_pos r <= rd_pos r' <= length data)%nat;
  rm_data : data_of rs = take (rd_pos r' - rd_pos r) (drop (rd_pos r) data) }.

Lemma reader_moved_refl data r : (rd_pos r <= length data)%nat -> reader_moved data r [] r.
Proof. intros. constructor; [done|lia|]. by rewrite Nat.sub_diag. Qed.

Lemma reader_moved_trans data d r1 rs1 r2 rs2 r3 :
  reader_moved data r1 rs1 r2 -> reader_moved (data ++ d) r2 rs2 r3 -> reader_moved (data ++ d) r1 (rs1 ++ rs2) r3.
Proof.
  intros [Hc1 Hp1 Hd1] [Hc2 Hp2 Hd2]. constructor; [congruence|lia|].
  unfold data_of in *. rewrite map_app, concat_app, Hd1, Hd2. rewrite <- (piece_app _ (rd_pos r1) (rd_pos r2) (rd_pos r3)) by lia.
  f_equal. rewrite drop_app_le, take_app_le by (rewrite ?length_drop; lia). done.
Qed.

Lemma serve_ok data eos c l : Forall read_ok l -> forall pos, (pos <= length data)%nat ->
  let '(rs, r) := serve data eos c pos l in
  reader_ok data eos r /\ reader_moved data (mkReader c pos l) rs r /\ Forall (fun re => re_channel re = c) rs.
Proof.
  induction 1 as [|q l Hq Hl IH]; intros pos Hp; cbn [serve].
  - split; [by constructor|]. split; [|done]. by apply (reader_moved_refl data (mkReader c pos [])).
  - destruct ((pos <? length data)%nat || eos) eqn:E.
    + specialize (IH (pos + length (piece data pos (rr_size q)))%nat). destruct (serve _ _ _ _ l) as [rs r].
      destruct IH as (Hr & [Hc Hpos Hd] & Hre); [rewrite piece_length; lia|]. cbn [rd_pos rd_channel] in *.
      split; [done|]. split; [|by constructor]. constructor; cbn [rd_pos rd_channel]; [done|lia|].
      change (data_of (?x :: rs)) with (re_data x ++ data_of rs). cbn [reply_of re_data]. rewrite Hd, piece_take at 1.
      rewrite <- (piece_app data pos (pos + length (piece data pos (rr_size q))) (rd_pos r)) by lia. f_equal. f_equal. lia.
    + apply orb_false_iff in E as [E1 E2]. nat_bools. split; [|split; [|done]].
      * constructor; cbn [rd_pos rd_reads]; [lia|by constructor|]. intros _. split; [lia|done].
      * by apply (reader_moved_refl data (mkReader c pos (q :: l))).
Qed.

Lemma low_le data l : (low data l <= length data)%nat.
Proof. unfold low. induction (map rd_pos l); cbn; lia. Qed.

Lemma low_min data l r : r ∈ l -> (low data l <= rd_pos r)%nat.
Proof. unfold low. induction 1; cbn; lia. Qed.

Lemma low_mono data d l l' rs : Forall2 (fun r r' => reader_moved (data ++ d) r (rs r) r') l l' -> (low data l <= low (data ++ d) l')%nat.
Proof.
  unfold low. induction 1 as [|r r' l l' [_ Hp _] Hl IH]; cbn in *; [rewrite length_app; lia|lia].
Qed.

Lemma low_move data l1 r r' l2 : (rd_pos r <= rd_pos r' <= length data)%nat -> (low data (l1 ++ r :: l2) <= low data (l1 ++ r' :: l2))%nat.
Proof. intros Hr. unfold low. induction l1 as [|x l1 IH]; cbn in *; lia. Qed.

Lemma readers_read_split data eos c token size l l' rs : readers_read data eos c token size l = Some (l', rs) ->
  exists l1 r l2, l = l1 ++ r :: l2 /\ rd_channel r = c /\ l' = l1 ++ fst (read_step data eos token size r) :: l2 /\
    rs = snd (read_step data eos token size r).
Proof.
  revert l'. induction l as [|r l IH]; intros l'; [done|]. cbn [readers_read]. destruct (Z.eqb_spec (rd_channel r) c) as [E|E].
  - destruct (read_step _ _ _ _ r) as [r' rs'] eqn:Es. intros [= <- <-]. exists [], r, l. by rewrite Es.
  - destruct (readers_read _ _ _ _ _ l) as [[l0 rs0]|]; [|done]. intros [= <- <-].
    destruct (IH l0 eq_refl) as (l1 & r1 & l2 & -> & Hc & -> & ->). by exists (r :: l1), r1, l2.
Qed.

Lemma read_step_ok data eos token size r : reader_ok data eos r -> bytes token -> 0 < size ->
  let '(r', rs) := read_step data eos token size r in
  reader_ok data eos r' /\ reader_moved data r rs r' /\ Forall (fun re => re_channel re = rd_channel r) rs.
Proof.
  intros [Hp Hr Hw] Ht Hs. unfold read_step. destruct (_ && _) eqn:E; cbv zeta iota.
  - apply andb_true_iff in E as [E1%Nat.eqb_eq E2%negb_true_iff]. split; [|split; [|done]].
    + constructor; cbn [rd_pos rd_reads]; [lia| |done]. apply Forall_app. split; [done|]. constructor; [|done].
      split; [by apply Forall_take|done].
    + constructor; cbn [rd_pos rd_channel]; [done|lia|]. by rewrite Nat.sub_diag.
  - split; [|split; [|by repeat constructor]].
    + constructor; cbn [rd_pos rd_reads]; [rewrite piece_length; lia|done|done].
    + constructor; cbn [rd_pos rd_channel]; [done|rewrite piece_length; lia|].
      unfold data_of. cbn [map concat reply_of re_data]. rewrite app_nil_r, piece_take at 1. f_equal. lia.
Qed.

(** Replies to a channel. *)
Lemma replies_to_all c rs : Forall (fun re => re_channel re = c) rs -> replies_to c rs = rs.
Proof. unfold replies_to. induction 1 as [|re rs Hre _ IH]; cbn; [done|]. by rewrite (proj2 (Z.eqb_eq _ _) Hre), IH. Qed.

Lemma replies_to_none c rs : Forall (fun re => re_channel re <> c) rs -> replies_to c rs = [].
Proof. unfold replies_to. induction 1 as [|re rs Hre _ IH]; cbn; [done|]. by rewrite (proj2 (Z.eqb_neq _ _) Hre), IH. Qed.

Lemma replies_to_app c rs1 rs2 : replies_to c (rs1 ++ rs2) = replies_to c rs1 ++ replies_to c rs2.
Proof. apply List.filter_app. Qed.

Definition reader_fit (data : list Z) (r : Reader) : Prop := (rd_pos r <= length data)%nat /\ Forall read_ok (rd_reads r).

Lemma reader_ok_fit data eos d r : reader_ok data eos r -> reader_fit (data ++ d) r.
Proof. intros [Hp Hr _]. split; [rewrite length_app; lia|done]. Qed.

Lemma serve_reader_ok data eos r : reader_fit data r ->
  let '(rs, r') := serve_reader data eos r in
  reader_ok data eos r' /\ reader_moved data r rs r' /\ Forall (fun re => re_channel re = rd_channel r) rs.
Proof. intros [Hp Hr]. destruct r as [c pos l]. by apply serve_ok. Qed.

Lemma served_other data eos c l : Forall (reader_fit data) l -> c ∉ map rd_channel l ->
  replies_to c (concat (map fst (map (serve_reader data eos) l))) = [].
Proof.
  induction 1 as [|r l Hr _ IH]; [done|]. cbn [map concat]. intros [Hc Hl]%not_elem_of_cons. rewrite replies_to_app, IH by done.
  rewrite app_nil_r. apply replies_to_none. pose proof (serve_reader_ok data eos r Hr) as Hs. destruct (serve_reader _ _ _) as [rs r'].
  destruct Hs as (_ & _ & Hs). cbn [fst].
  eapply Forall_impl; [exact Hs|]. cbn. congruence.
Qed.

Lemma served_ok data eos l : Forall (reader_fit data) l -> NoDup (map rd_channel l) ->
  Forall (reader_ok data eos) (map snd (map (serve_reader data eos) l)) /\
  Forall2 (fun r r' => reader_moved data r (replies_to (rd_channel r) (concat (map fst (map (serve_reader data eos) l)))) r')
    l (map snd (map (serve_reader data eos) l)).
Proof.
  induction 1 as [|r l Hr Hl IH]; [by repeat constructor|]. cbn [map concat]. intros [Hc Hnd]%NoDup_cons.
  destruct (IH Hnd) as [IHo IHm]. pose proof (serve_reader_ok data eos r Hr) as Hs.
  destruct (serve_reader data eos r) as [rs r']. destruct Hs as (Ho & Hm & Hrs). cbn [fst snd]. split; [by constructor|]. constructor.
  - rewrite replies_to_app, served_other, replies_to_all, app_nil_r by done. done.
  - eapply Forall2_impl_in; [exact IHm|]. intros r1 r1' Hin _ H1. rewrite replies_to_app, (replies_to_none (rd_channel r1) rs); [done|].
    eapply Forall_impl; [exact Hrs|]. cbn. intros re -> E. apply Hc. rewrite E. by apply list_elem_of_fmap_2.
Qed.

(** What an operation says of its arguments. *)
Definition op_ok (op : stream_op) : Prop :=
  match op with StreamAdd d _ => bytes d | StreamRead _ token _ => bytes token end.
Definition op_added (op : stream_op) : Z := match op with StreamAdd d _ => Z.of_nat (length d) | StreamRead _ _ _ => 0 end.

(** The text grows at its end, and every reader gets what follows what it has read. *)
Record text_step (t : Text) (rs : list Reply) (t' : Text) : Prop := {
  ts_data : exists d, tx_data t' = tx_data t ++ d;
  ts_readers : Forall2 (fun r r' => reader_moved (tx_data t') r (replies_to (rd_channel r) rs) r') (tx_readers t) (tx_readers t') }.

Lemma text_step_refl t : text_ok t -> text_step t [] t.
Proof.
  intros [_ Hr]. constructor; [exists []; by rewrite app_nil_r|]. apply Forall_Forall2_diag. eapply Forall_impl; [exact Hr|].
  intros r [Hp _ _]. by apply reader_moved_refl.
Qed.

Lemma text_step_trans t1 rs1 t2 rs2 t3 : text_step t1 rs1 t2 -> text_step t2 rs2 t3 -> text_step t1 (rs1 ++ rs2) t3.
Proof.
  intros [[d1 E1] H1] [[d2 E2] H2]. constructor; [exists (d1 ++ d2); by rewrite E2, E1, app_assoc|]. rewrite E2 in *.
  revert H2. generalize (tx_readers t3). induction H1 as [|r r' l l' Hr Hl IH]; intros l3 H2; inversion H2 as [|? r3 ? l3' H2a H2b]; subst; constructor.
  - rewrite replies_to_app. eapply reader_moved_trans; [exact Hr|]. by rewrite <- (rm_channel _ _ _ _ Hr).
  - by apply IH.
Qed.

Lemma text_step_channels t rs t' : text_step t rs t' -> map rd_channel (tx_readers t') = map rd_channel (tx_readers t).
Proof. intros [_ Hr]. induction Hr as [|r r' l l' [Hc _ _] _ IH]; cbn; congruence. Qed.

Lemma text_op_ok cap op t t' rs e : text_ok t -> op_ok op -> NoDup (map rd_channel (tx_readers t)) ->
  text_op cap op t = Some (t', rs, e) ->
  text_ok t' /\ text_step t rs t' /\ Z.of_nat (length (tx_data t')) <= Z.of_nat (length (tx_data t)) + op_added op.
Proof.
  intros Hok Hop Hnd E. pose proof Hok as [Hb Hr]. destruct op as [d eos|c token size]; cbn [text_op op_ok op_added] in *.
  - injection E as E. unfold text_add in E.
    assert (Hsame : (t, [], e) = (t', rs, e) -> text_ok t' /\ text_step t rs t' /\ Z.of_nat (length (tx_data t')) <= Z.of_nat (length (tx_data t)) + Z.of_nat (length d)).
    { intros [= <- <-]. split; [done|]. split; [by apply text_step_refl|lia]. }
    destruct (tx_eos t); [apply Hsame; congruence|]. cbv zeta in E. destruct (_ || _); [|apply Hsame; congruence].
    injection E as <- <- <-. clear Hsame. set (n := Nat.min _ _). set (data := tx_data t ++ take n d). set (eos' := eos && _).
    assert (Hfit : Forall (reader_fit data) (tx_readers t)) by (eapply Forall_impl; [exact Hr|]; intros r; apply reader_ok_fit).
    destruct (served_ok data eos' _ Hfit Hnd) as [Ho Hm]. split; [|split].
    + constructor; [|done]. cbn [tx_data]. apply Forall_app. split; [done|by apply Forall_take].
    + constructor; [by exists (take n d)|done].
    + cbn [tx_data]. unfold data. rewrite length_app, length_take. lia.
  - destruct (Z.ltb_spec 0 size) as [Hs|]; [|done]. destruct (readers_read _ _ _ _ _ _) as [[l rs']|] eqn:Er; [|done].
    injection E as <- <- <-. apply readers_read_split in Er as (l1 & r & l2 & El & Hc & -> & ->). rewrite El in *.
    apply Forall_app in Hr as [Hr1 [Hrr Hr2]%Forall_cons]. pose proof (read_step_ok _ _ token size r Hrr Hop Hs) as Hst.
    destruct (read_step _ _ _ _ _) as [r' rs]. destruct Hst as (Ho & Hm & Hrs). cbn [fst snd].
    rewrite map_app in Hnd. apply NoDup_app in Hnd as (_ & Hd & [Hn2 _]%NoDup_cons).
    assert (Hq : forall x, rd_channel x <> rd_channel r -> reader_ok (tx_data t) (tx_eos t) x ->
      reader_moved (tx_data t) x (replies_to (rd_channel x) rs) x).
    { intros x Hx [Hxp _ _]. rewrite replies_to_none; [by apply reader_moved_refl|]. eapply Forall_impl; [exact Hrs|]. cbn. congruence. }
    split; [|split; [|cbn [tx_data]; lia]].
    + constructor; [done|]. cbn [tx_data tx_eos tx_readers]. apply Forall_app. split; [done|]. by constructor.
    + constructor; cbn [tx_data tx_readers]; [exists []; by rewrite app_nil_r|]. rewrite El. apply Forall2_app; [|constructor].
      * apply Forall_Forall2_diag. apply Forall_forall. intros x Hx. rewrite Forall_forall in Hr1. apply Hq; [|by apply Hr1].
        intros Ex. apply (Hd (rd_channel x)); [by apply list_elem_of_fmap_2|]. rewrite Ex. left.
      * by rewrite replies_to_all.
      * apply Forall_Forall2_diag. apply Forall_forall. intros x Hx. rewrite Forall_forall in Hr2. apply Hq; [|by apply Hr2].
        intros Ex. apply Hn2. rewrite <- Ex. by apply list_elem_of_fmap_2.
Qed.

(** ** The ring *)

(** The ring of [cap + 1] cells holds the data from [lo] on. *)
Record ring_ok (cap : nat) (x : VirtualStream) (data : list Z) (lo : nat) : Prop := {
  rk_length : length (vs_buf x) = S cap;
  rk_out : 0 <= vs_out x < Z.of_nat (S cap);
  rk_lo : (lo <= length data)%nat /\ (length data - lo <= cap)%nat;
  rk_inp : vs_inp x = Z.of_nat (wrap (S cap) (Z.to_nat (vs_out x) + (length data - lo)));
  rk_pos : vs_pos x = Z.of_nat (length data) /\ Z.of_nat (length data) < 2 ^ 64 - 1;
  rk_data : take (length data - lo) (rot (Z.to_nat (vs_out x)) (vs_buf x)) = drop lo data }.

Section Ring.
Variables (cap : nat) (x : VirtualStream) (data : list Z) (lo : nat).
Hypothesis Hx : ring_ok cap x data lo.

Notation n := (length data - lo)%nat.

Lemma ring_buf_len : vs_buf_len x = Z.of_nat (S cap).
Proof. unfold vs_buf_len. by rewrite (rk_length _ _ _ _ Hx). Qed.

Lemma wrap_range bl i : (0 < bl)%nat -> (i < 2 * bl)%nat -> (wrap bl i < bl)%nat.
Proof. intros. unfold wrap. destruct (Nat.ltb_spec i bl); lia. Qed.

Lemma ring_inp_range : 0 <= vs_inp x < Z.of_nat (S cap).
Proof.
  destruct Hx as [Hl Ho [Hlo Hc] Hi Hp Hd]. pose proof (wrap_range (S cap) (Z.to_nat (vs_out x) + (length data - lo))). lia.
Qed.

Lemma ring_len : vs_len x = Z.of_nat n.
Proof.
  unfold vs_len. rewrite ring_buf_len. destruct Hx as [Hl Ho [Hlo Hc] Hi Hp Hd]. rewrite Hi. unfold wrap.
  destruct (Nat.ltb_spec (Z.to_nat (vs_out x) + n) (S cap)).
  - rewrite <- (Z_mod_plus_full _ (-1)), Z.mod_small; lia.
  - rewrite Z.mod_small; lia.
Qed.

Lemma ring_inp_out : vs_inp x = (vs_out x + Z.of_nat n) mod vs_buf_len x.
Proof.
  rewrite ring_buf_len. destruct Hx as [Hl Ho [Hlo Hc] Hi _ _]. rewrite Hi, wrap_mod by lia. f_equal. lia.
Qed.

Lemma ring_room : (vs_out x + vs_buf_len x - vs_inp x - 1) mod vs_buf_len x = Z.of_nat (cap - n).
Proof.
  rewrite ring_buf_len. destruct Hx as [Hl Ho [Hlo Hc] Hi _ _]. rewrite Hi. unfold wrap.
  destruct (Nat.ltb_spec (Z.to_nat (vs_out x) + (length data - lo)) (S cap)).
  - rewrite Z.mod_small; lia.
  - rewrite <- (Z_mod_plus_full _ (-1)), Z.mod_small; lia.
Qed.

(** A piece of the data in the ring, from [pos] on. *)
Lemma ring_piece pos m : (lo <= pos <= length data)%nat -> (m <= length data - pos)%nat ->
  let '(a, b) := ring_get (vs_buf x) ((vs_inp x + vs_buf_len x - Z.of_nat (length data - pos)) mod vs_buf_len x) (Z.of_nat m) in
  a ++ b = take m (drop pos data).
Proof.
  intros Hpos Hm. pose proof ring_inp_range as Hir. rewrite ring_buf_len. pose proof Hx as [Hl Ho [Hlo Hc] Hi Hp Hd].
  set (out := Z.to_nat (vs_out x)) in *. set (k := (pos - lo)%nat).
  assert (E : (vs_inp x + Z.of_nat (S cap) - Z.of_nat (length data - pos)) mod Z.of_nat (S cap) = Z.of_nat (wrap (S cap) (out + k))).
  { rewrite Hi. unfold wrap, k. destruct (Nat.ltb_spec (out + (length data - lo)) (S cap)); destruct (Nat.ltb_spec (out + (pos - lo)) (S cap)); try lia.
    - rewrite <- (Z_mod_plus_full _ (-1)), Z.mod_small; lia.
    - rewrite Z.mod_small; lia.
    - rewrite <- (Z_mod_plus_full _ (-1)), Z.mod_small; lia. }
  rewrite E. clear E. pose proof (wrap_range (S cap) (out + k)) as Hw.
  pose proof (ring_get_rot (vs_buf x) (Z.of_nat (wrap (S cap) (out + k))) (Z.of_nat m)) as Hg. rewrite Hl in Hg.
  destruct (ring_get _ _ _) as [a b]. rewrite Hg by lia. rewrite !Nat2Z.id. rewrite <- Hl at 1. rewrite rot_wrap by lia.
  rewrite take_app_le by (rewrite length_drop, rot_length; lia).
  assert (Hdd : drop pos data = drop k (drop lo data)) by (rewrite drop_drop; f_equal; unfold k; lia).
  rewrite Hdd, <- Hd. rewrite skipn_firstn_comm, take_take. f_equal. lia.
Qed.

(** The ring after [d] has been added. *)
Lemma ring_added d eos posted : (length d <= cap - n)%nat -> Z.of_nat (length data + length d) < 2 ^ 64 - 1 ->
  ring_ok cap (vs_set_eos eos posted (vs_set_ring (uwrap 64 (vs_pos x + Z.of_nat (length d))) (ring_put (vs_buf x) (vs_inp x) d)
    ((vs_inp x + Z.of_nat (length d)) mod vs_buf_len x) (vs_out x) x)) (data ++ d) lo.
Proof.
  intros Hdl Hbig. pose proof ring_inp_range as Hir. pose proof Hx as [Hl Ho [Hlo Hc] Hi [Hp1 Hp2] Hd].
  constructor; cbn [vs_set_eos vs_set_ring vs_buf vs_out vs_inp vs_pos]; rewrite ?length_app.
  - by rewrite ring_put_length; rewrite ?Hl; lia.
  - done.
  - lia.
  - rewrite ring_buf_len, Hi. unfold wrap.  replace (length data + length d - lo)%nat with (n + length d)%nat by lia.
    destruct (Nat.ltb_spec (Z.to_nat (vs_out x) + n) (S cap)); destruct (Nat.ltb_spec (Z.to_nat (vs_out x) + (n + length d)) (S cap)); try lia.
    + rewrite Z.mod_small; lia.
    + rewrite <- (Z_mod_plus_full _ (-1)), Z.mod_small; lia.
    + rewrite Z.mod_small; lia.
  - rewrite uwrap_small; lia.
  - replace (length data + length d - lo)%nat with (n + length d)%nat by lia. rewrite Hi, <- Hl. 
    rewrite rot_put by lia. rewrite Hd. by rewrite drop_app_le by lia.
Qed.

(** The ring after all readers have come to [lo'] at least. *)
Lemma ring_advanced lo' : (lo <= lo' <= length data)%nat ->
  ring_ok cap (vs_set_ring (vs_pos x) (vs_buf x) (vs_inp x) ((vs_out x + Z.of_nat (lo' - lo)) mod vs_buf_len x) x) data lo'.
Proof.
  intros Hlo'. pose proof Hx as [Hl Ho [Hlo Hc] Hi [Hp1 Hp2] Hd]. set (out := Z.to_nat (vs_out x)) in *.
  assert (E : (vs_out x + Z.of_nat (lo' - lo)) mod vs_buf_len x = Z.of_nat (wrap (S cap) (out + (lo' - lo)))).
  { rewrite ring_buf_len, wrap_mod by lia. f_equal. lia. }
  rewrite E. pose proof (wrap_range (S cap) (out + (lo' - lo))) as Hw.
  constructor; cbn [vs_set_ring vs_buf vs_out vs_inp vs_pos]; rewrite ?Nat2Z.id; try done; try lia.
  - rewrite Hi. f_equal. unfold wrap in *. repeat case_match; nat_bools; lia.
  - rewrite <- Hl at 1. rewrite rot_wrap by lia. rewrite take_app_le by (rewrite length_drop, rot_length; lia).
    assert (Hdd : drop lo' data = drop (lo' - lo) (drop lo data)) by (rewrite drop_drop; f_equal; lia).
    rewrite Hdd, <- Hd, skipn_firstn_comm. f_equal. lia.
Qed.
End Ring.

Lemma ring_same cap x x' data lo : ring_ok cap x data lo -> vs_buf x' = vs_buf x -> vs_out x' = vs_out x ->
  vs_inp x' = vs_inp x -> vs_pos x' = vs_pos x -> ring_ok cap x' data lo.
Proof. intros [? ? ? ? ? ?] Eb Eo Ei Ep. constructor; by rewrite ?Eb, ?Eo, ?Ei, ?Ep. Qed.
