(* ===== verification/VirtualStreamRuns.v ===== *)
(** * Runs of virtual streams (VirtualStreams.v)

    The functions that add data to a stream and read them do what VirtualStreamProps.v specifies. *)

From S2P Require Import Prelude Streams OutputBuf JsonWrite JsonRead JsonStruct ChannelOut Channel ChannelProps.
From S2P Require Import Protocol ProtocolTables ProtocolProps ProtocolReplies VirtualStreams VirtualStreamRing VirtualStreamProps.

(** ** Names and the index of clients *)

Lemma skip_prefix_app base s : skip_prefix base (base ++ s) = Some s.
Proof. induction base as [|b base IH]; [done|]. cbn. by rewrite Z.eqb_refl. Qed.

Lemma str2id_text id : 0 <= id < 2 ^ 32 -> str2id (STREAM_BASE_ID ++ ulong_text id) = Some id.
Proof.
  intros Hid. unfold str2id. rewrite skip_prefix_app. assert (Ht : token_of (ulong_text id) = Some id) by (apply token_of_ulong; lia).
  unfold token_of in Ht. destruct (strtoul (ulong_text id)) as [[v e] rest]. destruct e; [done|]. cbn [orb] in Ht.
  destruct (deref rest =? 0); [|done]. injection Ht as ->. by rewrite uwrap_small.
Qed.

(** What a client is looked up by. *)
Definition client_key {V} (u : StreamsState V) (q : Z) : option (Z * Z) :=
  match ss_client_mem u !! q with
  | Some cl => match ss_mem u !! sc_stream cl with Some x => Some (vs_id x, sc_channel cl) | None => None end
  | None => None
  end.

Fixpoint find_key (k : Z -> option (Z * Z)) (id c : Z) (l : list Z) : option (option Z) :=
  match l with
  | [] => Some None
  | q :: l' =>
      match k q with
      | Some (i, d) => if (i =? id) && (d =? c) then Some (Some q) else find_key k id c l'
      | None => None
      end
  end.

Lemma find_key_ext k k' id c l : (forall q, k' q = k q) -> find_key k' id c l = find_key k id c l.
Proof. intros Hk. induction l as [|q l IH]; [done|]. cbn. by rewrite Hk, IH. Qed.

(** The client of a channel in the hash table. *)
Definition find_channel {V} (u : StreamsState V) (id c : Z) : option (option Z) :=
  find_key (client_key u) id c (bucket (ss_hash u) (get_client_hash id c)).

Lemma bind_cassert {S A} (b : bool) (k : unit -> M S A) s : b = true -> bind (cassert b) k s = k tt s.
Proof. by intros ->. Qed.

(** Everything but the objects and the events. *)
Definition ss_frame {V} (u : StreamsState V) : StreamsState V := ss_set_events [] (ss_set_client_mem ∅ (ss_set_mem ∅ u)).

Lemma ss_frame_hash {V} (u u' : StreamsState V) : ss_frame u' = ss_frame u -> ss_hash u' = ss_hash u.
Proof. intros E. by apply (f_equal ss_hash) in E. Qed.

Section Runs.
Context {IS OS V : Type} `{OutputStreamLaws OS} `{!InputStream IS}.

Notation World := (World IS OS (StreamsState V)).
Notation SS := (StreamsState V).

Variable write_error_object : Z -> M OS unit.
Variable no_such_stream : list Z -> Z.

Implicit Types (w : World) (x : VirtualStream) (cl : StreamClient).

(** ** Memory *)

Definition set_stream (p : Z) x w : World := set_user (ss_set_mem (<[p := x]> (ss_mem (w_user w))) (w_user w)) w.
Definition set_client (q : Z) cl w : World := set_user (ss_set_client_mem (<[q := cl]> (ss_client_mem (w_user w))) (w_user w)) w.

Lemma set_user_self w : set_user (w_user w) w = w.
Proof. by destruct w. Qed.

Lemma runs_put_stream p x w : runs (put_stream p x) w tt (set_stream p x w).
Proof. done. Qed.

Lemma runs_put_client q cl w : runs (put_client q cl) w tt (set_client q cl w).
Proof. done. Qed.

Lemma runs_user_gets {A} (f : SS -> A) w : runs (on_user (gets f)) w (f (w_user w)) w.
Proof. unfold runs, on_user, zoom, gets. by rewrite set_user_self. Qed.

Lemma runs_get_stream p x w : ss_mem (w_user w) !! p = Some x -> runs (get_stream p) w x w.
Proof. intros E. eapply runs_bind; [apply runs_user_gets|]. cbn beta. rewrite E. apply runs_ret. Qed.

Lemma runs_get_client q cl w : ss_client_mem (w_user w) !! q = Some cl -> runs (get_client q) w cl w.
Proof. intros E. eapply runs_bind; [apply runs_user_gets|]. cbn beta. rewrite E. apply runs_ret. Qed.

Lemma find_in_runs id c l r w : find_key (client_key (w_user w)) id c l = Some r -> runs (find_in id c l) w r w.
Proof.
  induction l as [|q l IH]; [by intros [= <-]|]. cbn [find_key find_in]. unfold client_key at 1.
  destruct (ss_client_mem (w_user w) !! q) as [cl|] eqn:Ec; [|done].
  destruct (ss_mem (w_user w) !! sc_stream cl) as [x|] eqn:Ex; [|done]. intros Hr.
  eapply runs_bind; [by apply runs_get_client|]. eapply runs_bind; [by apply runs_get_stream|].
  destruct (_ && _); [by injection Hr as <-|by apply IH].
Qed.

Lemma find_client_runs id c q w : 0 <= id < 2 ^ 32 -> find_channel (w_user w) id c = Some (Some q) ->
  runs (find_client no_such_stream (STREAM_BASE_ID ++ ulong_text id) c) w (Some q, 0) w.
Proof.
  intros Hid Hf. unfold find_client. rewrite str2id_text by done.
  eapply runs_bind; [eapply runs_bind; [apply runs_user_gets|by apply find_in_runs]|]. apply runs_ret.
Qed.

(** ** Replies *)

(** The text of a reply; binary data are written in one of two encodings. *)
Definition reply_text (zc : bool) (r : Reply) : list Z :=
  stringz [str "R"; re_token r] ++
  (if (0 <? length (re_data r))%nat then binary_stream_text zc (Z.of_nat (length (re_data r))) (re_data r) else str "null") ++
  [0; 0] ++ long_text 0 ++ [0] ++ boolean_text (re_eos r) ++ [0; MARKER_EOM].

Fixpoint says (rs : list Reply) (l : list Z) : Prop :=
  match rs with
  | [] => l = []
  | r :: rs' => exists zc l', l = reply_text zc r ++ l' /\ says rs' l'
  end.

Lemma says_app rs1 rs2 l1 l2 : says rs1 l1 -> says rs2 l2 -> says (rs1 ++ rs2) (l1 ++ l2).
Proof.
  revert l1. induction rs1 as [|r rs1 IH]; cbn [says app]; intros l1; [by intros ->|]. intros (zc & l' & -> & Hl) H2. exists zc, (l' ++ l2).
  split; [by rewrite app_assoc|by apply IH].
Qed.

(** The flag of the stream when the data are written. *)
Definition zero_copy_after (token : list Z) (o : OS) : bool :=
  supports_zero_copy (snd ((write_stringz (str "R") ;! write_stringz token) o)).

Lemma write_read_reply_emits token d1 d2 eos c o l : os_sym (OS := OS) MARKER_EOM -> bytes token -> bytes d1 -> bytes d2 ->
  Z.of_nat (length (d1 ++ d2)) < 2 ^ 64 -> emits o l ->
  exists o', runs (write_read_reply write_error_object token d1 d2 0 eos) o tt o' /\
    emits o' (l ++ reply_text (zero_copy_after token o) (mkReply c token (d1 ++ d2) eos)).
Proof.
  intros Hm Ht H1 H2 Hl He. set (n := (length d1 + length d2)%nat).
  assert (En : length (d1 ++ d2) = n) by apply length_app.
  destruct (writes_bind _ _ _ _ (writes_stringz_lem (str "R") ltac:(apply str_bytes)) (writes_stringz_lem token Ht) o l He) as (o1 & R1 & He1).
  assert (Ez : zero_copy_after token o = supports_zero_copy o1) by (unfold zero_copy_after; by rewrite R1). rewrite Ez. clear Ez. set (zc := supports_zero_copy o1).
  assert (Hdata : exists o2, runs (if (0 <? n)%nat then
     let! st := json_write_binary_start (Z.of_nat n) in
     let! st := json_write_binary_data st d1 in
     let! st := json_write_binary_data st d2 in
     json_write_binary_end st ;!
     write_stream 0
   else write_stringz (str "null")) o1 tt o2 /\
     emits o2 ((l ++ (str "R" ++ [0]) ++ token ++ [0]) ++ (if (0 <? n)%nat then binary_stream_text zc (Z.of_nat n) (d1 ++ d2) else str "null") ++ [0])).
  { destruct (Nat.ltb_spec 0 n) as [Hn|Hn].
    - destruct (binary_stream [d1; d2] (Z.of_nat n) o1 (l ++ (str "R" ++ [0]) ++ token ++ [0])) as (o2 & R2 & He2); [by repeat constructor|lia|..|exact He1|].
      { intros _. cbn [concat]. by rewrite app_nil_r, En. }
      cbn [concat] in He2. rewrite app_nil_r in He2. destruct (writes_byte 0 ltac:(unfold is_byte; lia) o2 _ He2) as (o3 & R3 & He3).
      exists o3. rewrite (app_assoc _ _ [0]). split; [|exact He3].
      apply runs_bind_inv in R2 as (st & s1 & Ra & R2). apply runs_bind_inv in R2 as (st3 & s2 & Rb & Rc).
      cbn [write_binary_chunks] in Rb. apply runs_bind_inv in Rb as (st1 & s3 & Rb1 & Rb). apply runs_bind_inv in Rb as (st2 & s4 & Rb2 & Rb).
      apply (runs_det _ _ _ _ _ _ (runs_ret st2 s4)) in Rb as [-> ->].
      eapply runs_bind; [exact Ra|]. eapply runs_bind; [exact Rb1|]. eapply runs_bind; [exact Rb2|]. by eapply runs_bind.
    - destruct (writes_stringz_lem (str "null") ltac:(apply str_bytes) o1 _ He1) as (o2 & R2 & He2). by exists o2. }
  destruct Hdata as (o2 & R2 & He2).
  assert (Htail : writes (write_errno write_error_object 0 ;! json_write_long 0 ;! write_stream 0 ;! json_write_boolean eos ;! write_stream 0 ;! write_stream MARKER_EOM)
    ([0] ++ long_text 0 ++ [0] ++ boolean_text eos ++ [0; MARKER_EOM])).
  { apply writes_bind; [apply writes_no_error|]. apply writes_bind; [apply writes_long; lia|]. apply writes_cons; [unfold is_byte; lia|].
    apply writes_bind; [apply writes_boolean|]. apply writes_cons; [unfold is_byte; lia|]. by apply writes_stream. }
  destruct (Htail o2 _ He2) as (o3 & R3 & He3). exists o3. split.
  - apply runs_bind_inv in R1 as (a & s1 & Ra & Rb). eapply runs_bind; [exact Ra|]. eapply runs_bind; [exact Rb|]. by eapply runs_bind.
  - unfold reply_text. cbn [re_data re_eos re_token]. rewrite En. revert He3. generalize (if (0 <? n)%nat then binary_stream_text zc (Z.of_nat n) (d1 ++ d2) else str "null").
    intros b He3. cbn [stringz map concat] in *. rewrite app_nil_r. rewrite <- !app_assoc in *. exact He3.
Qed.
Lemma write_read_reply_runs token d1 d2 eos c o : os_sym (OS := OS) MARKER_EOM -> bytes token -> bytes (d1 ++ d2) ->
  Z.of_nat (length (d1 ++ d2)) < 2 ^ 64 -> (exists l, emits o l) ->
  exists o' zc, runs (write_read_reply write_error_object token d1 d2 0 eos) o tt o' /\
    forall l, emits o l -> emits o' (l ++ reply_text zc (mkReply c token (d1 ++ d2) eos)).
Proof.
  intros Hm Ht [H1 H2]%Forall_app Hl [l0 He0].
  destruct (write_read_reply_emits token d1 d2 eos c o l0 Hm Ht H1 H2 Hl He0) as (o' & R & _). exists o', (zero_copy_after token o).
  split; [done|]. intros l He. destruct (write_read_reply_emits token d1 d2 eos c o l Hm Ht H1 H2 Hl He) as (o2 & R2 & He2).
  by destruct (runs_det _ _ _ _ _ _ R R2) as [_ ->].
Qed.

(** The replies [rs] have been written to the channels, and nothing else. *)
Record answered w (rs : list Reply) w' : Prop := {
  an_channel c : exists o l, w_channels w' c = set_out o (w_channels w c) /\ says (replies_to c rs) l /\
    forall t, emits (ch_out (w_channels w c)) t -> emits o (t ++ l);
  an_rest : w' = mkWorld (w_channels w') (w_create_listeners w) (w_open_listeners w) (w_close_listeners w) (w_groups w) (w_root w)
    (w_lock_timer w) (w_json w) (w_user w') }.

Lemma answered_user w u : answered w [] (set_user u w).
Proof.
  constructor; [|done]. intros c. exists (ch_out (w_channels w c)), []. split; [by destruct w as [? ? ? ? ? ? ? ? ?]; cbn; destruct (w_channels c)|].
  split; [done|]. intros t. by rewrite app_nil_r.
Qed.

Lemma answered_trans w1 rs1 w2 rs2 w3 : answered w1 rs1 w2 -> answered w2 rs2 w3 -> answered w1 (rs1 ++ rs2) w3.
Proof.
  intros [H1 E1] [H2 E2]. constructor; [|rewrite E2, E1; done]. intros c. destruct (H1 c) as (o1 & l1 & C1 & S1 & M1).
  destruct (H2 c) as (o2 & l2 & C2 & S2 & M2). exists o2, (l1 ++ l2). rewrite C2, C1. split; [done|].
  split; [rewrite replies_to_app; by apply says_app|]. intros t Ht. rewrite app_assoc. apply M2. rewrite C1. by apply M1.
Qed.

Lemma answered_open w rs w' c : answered w rs w' -> (exists t, emits (ch_out (w_channels w c)) t) -> exists t, emits (ch_out (w_channels w' c)) t.
Proof. intros [Hc _] [t Ht]. destruct (Hc c) as (o & l & E & _ & Hm). rewrite E. exists (t ++ l). by apply Hm. Qed.

Lemma answered_one w r zc o : (forall t, emits (ch_out (w_channels w (re_channel r))) t -> emits o (t ++ reply_text zc r)) ->
  answered w [r] (upd_channel (re_channel r) (set_out o) w).
Proof.
  intros Ho. constructor; [|done]. intros c. cbn [upd_channel w_channels replies_to List.filter]. rewrite (Z.eqb_sym (re_channel r) c).
  destruct (Z.eqb_spec c (re_channel r)) as [->|Hc].
  - exists o, (reply_text zc r). split; [done|]. split; [|done]. cbn [says]. exists zc, []. by rewrite app_nil_r.
  - exists (ch_out (w_channels w c)), []. split; [by destruct (w_channels w c)|]. split; [done|]. intros t. by rewrite app_nil_r.
Qed.

(** ** A read is answered *)

(** The client object of a reader of the stream [p]. *)
Record represents (p : Z) (r : Reader) cl : Prop := {
  rp_stream : sc_stream cl = p;
  rp_channel : sc_channel cl = rd_channel r;
  rp_pos : sc_pos cl = Z.of_nat (rd_pos r);
  rp_reads : sc_reads cl = rd_reads r }.

Section Reply.
Variables (cap : nat) (p q : Z) (x : VirtualStream) (data : list Z) (lo : nat).
Hypothesis Hx : ring_ok cap x data lo.
Hypothesis Hcap : Z.of_nat (S cap) < 2 ^ 32.
Hypothesis Hbytes : bytes data.
Hypothesis Heom : os_sym (OS := OS) MARKER_EOM.

Lemma send_reply_runs token size r cl w : ss_mem (w_user w) !! p = Some x -> ss_client_mem (w_user w) !! q = Some cl ->
  represents p r cl -> (lo <= rd_pos r <= length data)%nat -> (rd_pos r < length data)%nat \/ vs_eos_inp x = true ->
  bytes token -> 0 < size -> 
  (exists t, emits (ch_out (w_channels w (rd_channel r))) t) ->
  let n := length (piece data (rd_pos r) size) in
  exists w', send_read_reply write_error_object q token size w = (Val tt, w') /\
    w_user w' = w_user (set_client q (sc_set_pos (Z.of_nat (rd_pos r + n)) cl) w) /\
    answered w [reply_of data (vs_eos_inp x) (rd_channel r) (rd_pos r) token size] w'.
Proof.
  intros Hp Hq [Es Ec Ep _] Hlo Hor Ht Hs Hopen n.
  pose proof (ring_len _ _ _ _ Hx) as Elen. pose proof (ring_buf_len _ _ _ _ Hx) as Ebl. pose proof Hx as [_ _ [_ Hfit] _ [Evp Hbig] _].
  pose proof (piece_length data (rd_pos r) size) as En. fold n in En.
  assert (Eshort : Z.of_nat (length data - lo) <? Z.of_nat (length data) - Z.of_nat (rd_pos r) = false) by (apply Z.ltb_ge; lia).
  assert (Eleft : uwrap 32 (Z.of_nat (length data) - Z.of_nat (rd_pos r)) = Z.of_nat (length data - rd_pos r)) by (rewrite uwrap_small; lia).
  assert (Emin : (if size <? Z.of_nat (length data - rd_pos r) then size else Z.of_nat (length data - rd_pos r)) = Z.of_nat n).
  { destruct (Z.ltb_spec size (Z.of_nat (length data - rd_pos r))); lia. }
  pose proof (ring_piece _ _ _ _ Hx (rd_pos r) n ltac:(lia) ltac:(lia)) as Hget.
  assert (Epos : uwrap 64 (Z.of_nat (rd_pos r) + 0 + Z.of_nat n) = Z.of_nat (rd_pos r + n)) by (rewrite uwrap_small; lia).
  unfold send_read_reply. rewrite (bind_runs _ _ _ _ _ (runs_get_client _ _ _ Hq)).
  rewrite Es, (bind_runs _ _ _ _ _ (runs_get_stream _ _ _ Hp)). cbv zeta. rewrite Elen, Evp, Ep, Eshort. cbv iota. rewrite Eleft, Emin.
  assert (Eeos : (Z.of_nat (rd_pos r + n) =? Z.of_nat (length data)) = (rd_pos r + n =? length data)%nat).
  { destruct (Nat.eqb_spec (rd_pos r + n) (length data)); [apply Z.eqb_eq|apply Z.eqb_neq]; lia. }
  destruct (ring_get _ _ _) as [d1 d2] eqn:Eg.
  assert (Hd : d1 ++ d2 = piece data (rd_pos r) size) by (rewrite Hget; unfold n; symmetry; apply piece_take).
  assert (Hn : (length d1 + length d2)%nat = n) by (by rewrite <- length_app, Hd).
  destruct (write_read_reply_runs token d1 d2 ((rd_pos r + n =? length data)%nat && vs_eos_inp x) (rd_channel r)
    (ch_out (w_channels w (rd_channel r))) Heom Ht) as (o & zc & R & Ho).
  { rewrite Hd. by apply Forall_take, Forall_drop. }
  { rewrite Hd. fold n. lia. }
  { done. }
  rewrite bind_cassert by (apply orb_true_iff; destruct Hor as [|Hor]; [left; apply Z.ltb_lt; lia|by right]).
  rewrite bind_cassert by (apply Z.leb_le; lia).
  rewrite Hn, Epos, Eeos.
  rewrite bind_cassert by (apply Z.eqb_eq; lia).
  rewrite (bind_runs _ _ _ _ _ (runs_put_client q (sc_set_pos (Z.of_nat (rd_pos r + n)) cl) w)).
  rewrite bind_cassert by (apply Z.leb_le; lia).
  rewrite bind_cassert by (apply orb_true_iff; destruct (Nat.eqb_spec (rd_pos r + n) (length data)); [destruct Hor as [|Hor]; [right; apply Z.ltb_lt; lia|left; by rewrite Hor]|right; apply Z.ltb_lt; lia]).
  rewrite Ec. unfold on_out, zoom. cbn [set_client set_user w_channels]. unfold runs in R. rewrite R.
  eexists. split; [reflexivity|]. split; [done|].
  eapply (answered_trans w [] (set_client q _ w) [_]); [apply answered_user|].
  unfold reply_of. cbv zeta. fold n. rewrite (andb_comm (vs_eos_inp x)), <- Hd.
  eapply (answered_one (set_client q (sc_set_pos (Z.of_nat (rd_pos r + n)) cl) w) (mkReply (rd_channel r) token (d1 ++ d2) _) zc o).
  intros t Htr. by apply Ho.
Qed.

(** ** All reads that can be answered *)

Lemma serve_reads_runs c l : Forall read_ok l -> forall pos cl w, ss_mem (w_user w) !! p = Some x -> ss_client_mem (w_user w) !! q = Some cl ->
  represents p (mkReader c pos l) cl -> (lo <= pos <= length data)%nat -> (exists t, emits (ch_out (w_channels w c)) t) ->
  exists w' cl', serve_reads write_error_object q l w = (Val tt, w') /\
    w_user w' = w_user (set_client q cl' w) /\ represents p (snd (serve data (vs_eos_inp x) c pos l)) cl' /\
    answered w (fst (serve data (vs_eos_inp x) c pos l)) w'.
Proof.
  assert (Hself : forall (w : World) cl, ss_client_mem (w_user w) !! q = Some cl -> w_user w = w_user (set_client q cl w)).
  { intros w cl Hq. cbn. rewrite insert_id by done. by destruct (w_user w). }
  induction 1 as [|rq l [Ht Hs] Hl IH]; intros pos cl w Hp Hq Hr Hpos Hopen; cbn [serve serve_reads].
  - exists w, cl. split; [done|]. split; [by apply Hself|]. split; [done|]. rewrite <- (set_user_self w) at 2. apply answered_user.
  - pose proof Hr as [Es Ec Ep El]. cbn [rd_channel rd_pos rd_reads] in *.
    rewrite (bind_runs _ _ _ _ _ (runs_get_client _ _ _ Hq)), Es, (bind_runs _ _ _ _ _ (runs_get_stream _ _ _ Hp)).
    pose proof Hx as [_ _ _ _ [Evp _] _]. rewrite Ep, Evp.
    assert (E : (Z.of_nat pos <? Z.of_nat (length data)) = (pos <? length data)%nat).
    { destruct (Nat.ltb_spec pos (length data)); [apply Z.ltb_lt|apply Z.ltb_ge]; lia. }
    rewrite E. destruct ((pos <? length data)%nat || vs_eos_inp x) eqn:Eb; cycle 1.
    { exists w, cl. split; [done|]. split; [by apply Hself|]. split; [done|]. rewrite <- (set_user_self w) at 2. apply answered_user. }
    rewrite (bind_runs _ _ _ _ _ (runs_put_client q (sc_set_reads l cl) w)). set (w1 := set_client q (sc_set_reads l cl) w).
    destruct (send_reply_runs (rr_token rq) (rr_size rq) (mkReader c pos l) (sc_set_reads l cl) w1) as (w2 & R2 & E2 & A2); try done.
    { cbn. apply lookup_insert_eq. }
    { cbn [rd_pos]. apply orb_true_iff in Eb as [Eb|Eb]; [left|by right]. by nat_bools. }
    cbn [rd_pos rd_channel] in *. set (n := length (piece data pos (rr_size rq))) in *.
    set (cl2 := sc_set_pos (Z.of_nat (pos + n)) (sc_set_reads l cl)) in *.
    assert (E2' : w_user w2 = w_user (set_client q cl2 w)) by (rewrite E2; cbn; by rewrite insert_insert_eq).
    destruct (IH (pos + n)%nat cl2 w2) as (w3 & cl3 & R3 & E3 & Hr3 & A3).
    + rewrite E2'. exact Hp.
    + rewrite E2'. cbn. apply lookup_insert_eq.
    + done.
    + subst n. rewrite piece_length. lia.
    + eapply answered_open; [exact A2|]. exact Hopen.
    + exists w3, cl3. destruct (serve data (vs_eos_inp x) c (pos + n) l) as [rs r']. cbn [fst snd] in *.
      split; [unfold bind; by rewrite R2|]. split; [rewrite E3; cbn; rewrite E2'; cbn; by rewrite insert_insert_eq|]. split; [done|].
      eapply (answered_trans w [] w1 (_ :: rs)); [apply answered_user|]. by eapply (answered_trans w1 [_]).
Qed.
End Reply.

(** The clients [qs] of the stream [p], and nothing else, have become those of [l]. *)
Record clients_moved (p : Z) (qs : list Z) (l : list Reader) (u u' : SS) : Prop := {
  cm_user : u' = ss_set_client_mem (ss_client_mem u') u;
  cm_clients : Forall2 (fun q r => exists cl, ss_client_mem u' !! q = Some cl /\ represents p r cl) qs l;
  cm_other q : q ∉ qs -> ss_client_mem u' !! q = ss_client_mem u !! q }.

Lemma serve_clients_runs cap p x data lo qs l : ring_ok cap x data lo -> Z.of_nat (S cap) < 2 ^ 32 -> bytes data -> os_sym (OS := OS) MARKER_EOM ->
  Forall (fun r => (lo <= rd_pos r)%nat /\ reader_fit data r) l -> forall w, NoDup qs ->
  Forall2 (fun q r => exists cl, ss_client_mem (w_user w) !! q = Some cl /\ represents p r cl) qs l ->
  ss_mem (w_user w) !! p = Some x -> Forall (fun r => exists t, emits (ch_out (w_channels w (rd_channel r))) t) l ->
  let served := map (serve_reader data (vs_eos_inp x)) l in
  exists w', serve_clients write_error_object qs w = (Val tt, w') /\
    clients_moved p qs (map snd served) (w_user w) (w_user w') /\ answered w (concat (map fst served)) w'.
Proof.
  intros Hx Hcap Hb Hm Hfit w Hnd Hcl. revert w Hnd Hcl Hfit.
  induction qs as [|q qs IH] in l |- *; intros w Hnd Hcl Hfit Hp Hopen; inversion Hcl as [|? r ? l' (cl & Hq & Hr) Hcl']; subst; cbn [serve_clients map concat].
  - exists w. split; [done|]. split; [constructor; [by destruct (w_user w)|constructor|done]|]. rewrite <- (set_user_self w) at 2. apply answered_user.
  - apply NoDup_cons in Hnd as [Hnq Hnd]. apply Forall_cons in Hfit as [[Hlo [Hpos Hreads]] Hfit]. apply Forall_cons in Hopen as [Ho Hopen].
    destruct (serve_reads_runs cap p q x data lo Hx Hcap Hb Hm (rd_channel r) (rd_reads r) Hreads (rd_pos r) cl w Hp Hq) as (w1 & cl1 & R1 & E1 & Hr1 & A1);
      [by destruct r|lia|done|]. fold (serve_reader data (vs_eos_inp x) r) in *.
    destruct (IH l' w1 Hnd) as (w2 & R2 & [Hu2 Hc2 Hn2] & A2).
    + eapply Forall2_impl_in; [exact Hcl'|]. intros q' r' Hin _ (cl' & Hq' & Hr'). exists cl'. split; [|done]. rewrite E1. cbn.
      rewrite lookup_insert_ne by (by intros ->). done.
    + done.
    + by rewrite E1.
    + eapply Forall_impl; [exact Hopen|]. intros r'. by apply answered_open with (rs := fst (serve_reader data (vs_eos_inp x) r)).
    + exists w2. split; [|split].
      * rewrite (bind_runs _ _ _ _ _ (runs_get_client _ _ _ Hq)), (rp_reads _ _ _ Hr). unfold bind. by rewrite R1.
      * constructor.
        -- rewrite Hu2, E1. done.
        -- constructor; [|done]. exists cl1. split; [|done]. rewrite Hn2 by done. rewrite E1. apply lookup_insert_eq.
        -- intros q' [Hne Hq']%not_elem_of_cons. rewrite Hn2 by done. rewrite E1. cbn. by rewrite lookup_insert_ne.
      * by eapply answered_trans.
Qed.
(** ** The buffer after the readers have moved *)

(** The stream [p], and nothing else but the events, has changed. *)
Definition stream_changed (p : Z) x w w' : Prop :=
  w' = set_user (ss_set_events (ss_events (w_user w')) (ss_set_mem (<[p := x]> (ss_mem (w_user w))) (w_user w))) w.

Lemma stream_changed_set p x w : stream_changed p x w (set_stream p x w).
Proof. by destruct w as [? ? ? ? ? ? ? ? []]. Qed.

Lemma stream_changed_self p x w : ss_mem (w_user w) !! p = Some x -> stream_changed p x w w.
Proof. intros Hp. unfold stream_changed. rewrite insert_id by done. by destruct w as [? ? ? ? ? ? ? ? []]. Qed.

Lemma stream_changed_trans p x1 x2 w1 w2 w3 : stream_changed p x1 w1 w2 -> stream_changed p x2 w2 w3 -> stream_changed p x2 w1 w3.
Proof. unfold stream_changed. intros E1 E2. rewrite E2, E1. cbn. by rewrite insert_insert_eq. Qed.

Lemma stream_changed_mem p x w w' : stream_changed p x w w' -> ss_mem (w_user w') = <[p := x]> (ss_mem (w_user w)).
Proof. intros E. rewrite E. done. Qed.

(** Fields that stay. *)
Record same_stream x x' : Prop := {
  sa_id : vs_id x' = vs_id x;
  sa_access : vs_access x' = vs_access x;
  sa_clients : vs_clients x' = vs_clients x;
  sa_eos : vs_eos_inp x' = vs_eos_inp x }.

Lemma same_stream_trans x1 x2 x3 : same_stream x1 x2 -> same_stream x2 x3 -> same_stream x1 x3.
Proof. intros [? ? ? ?] [? ? ? ?]. constructor; congruence. Qed.

Lemma post_space_runs cap p x data lo w : ss_mem (w_user w) !! p = Some x -> ring_ok cap x data lo ->
  exists w' x', post_space_available p w = (Val tt, w') /\ stream_changed p x' w w' /\ same_stream x x' /\ ring_ok cap x' data lo.
Proof.
  intros Hp Hx. unfold post_space_available. rewrite (bind_runs _ _ _ _ _ (runs_get_stream _ _ _ Hp)). destruct (vs_space_posted x).
  - exists w, x. split; [done|]. split; [by apply stream_changed_self|]. done.
  - eexists _, (vs_set_posted (vs_data_posted x) true x). split; [reflexivity|]. split; [done|]. split; [done|]. by eapply ring_same.
Qed.

Lemma fold_min m l k : fold_right Z.min (Z.min k m) l = Z.min k (fold_right Z.min m l).
Proof. induction l as [|a l IH]; cbn; [done|]. rewrite IH. lia. Qed.

Lemma min_client_runs p L qs l w :
  Forall2 (fun q r => exists cl, ss_client_mem (w_user w) !! q = Some cl /\ represents p r cl) qs l ->
  Forall (fun r => (rd_pos r <= L)%nat) l -> forall m,
  runs (min_client_pos (Z.of_nat L) qs m) w (fold_right Z.min m (map (fun r => Z.of_nat (rd_pos r)) l)) w.
Proof.
  induction 1 as [|q r qs l (cl & Hq & Hr) Hcl IH]; intros Hfit m; [apply runs_ret|]. apply Forall_cons in Hfit as [Hr1 Hfit]. cbn [min_client_pos map fold_right].
  eapply runs_bind; [by apply runs_get_client|]. rewrite (rp_pos _ _ _ Hr).
  eapply runs_bind; [apply runs_cassert; apply Z.leb_le; lia|]. rewrite <- fold_min.
  assert (E : (if Z.of_nat (rd_pos r) <? m then Z.of_nat (rd_pos r) else m) = Z.min (Z.of_nat (rd_pos r)) m).
  { destruct (Z.ltb_spec (Z.of_nat (rd_pos r)) m); lia. }
  rewrite E. by apply IH.
Qed.

Lemma fold_min_low data m l : l <> [] -> Forall (fun r => (rd_pos r <= length data)%nat) l -> Z.of_nat (length data) <= m ->
  fold_right Z.min m (map (fun r => Z.of_nat (rd_pos r)) l) = Z.of_nat (low data l).
Proof.
  intros Hne Hl Hm. destruct Hl as [|r l Hr Hl]; [done|]. clear Hne. unfold low. revert r Hr.
  induction Hl as [|r' l Hr' Hl IH]; intros r Hr; cbn in *; [lia|]. specialize (IH r' Hr'). lia.
Qed.

Lemma advance_runs cap p x data lo l w : ring_ok cap x data lo -> Z.of_nat (S cap) < 2 ^ 32 ->
  Z.land (vs_access x) VS_ENABLE_REMOTE_READ <> 0 -> ss_mem (w_user w) !! p = Some x ->
  Forall2 (fun q r => exists cl, ss_client_mem (w_user w) !! q = Some cl /\ represents p r cl) (vs_clients x) l ->
  Forall (fun r => (rd_pos r <= length data)%nat) l -> (lo <= low data l)%nat ->
  exists w' x', advance_stream_buffer p w = (Val tt, w') /\ stream_changed p x' w w' /\ same_stream x x' /\
    ring_ok cap x' data (low data l).
Proof.
  intros Hx Hcap Hacc Hp Hcl Hpos Hlo. pose proof (low_le data l) as Hll.
  pose proof (ring_len _ _ _ _ Hx) as Elen. pose proof (ring_buf_len _ _ _ _ Hx) as Ebl. pose proof Hx as [_ _ [_ Hfit] _ [Evp Hbig] _].
  unfold advance_stream_buffer. rewrite (bind_runs _ _ _ _ _ (runs_get_stream _ _ _ Hp)). cbv zeta.
  rewrite bind_cassert by (by apply negb_true_iff, Z.eqb_neq). rewrite Evp, (bind_runs _ _ _ _ _ (min_client_runs p (length data) _ l w Hcl Hpos _)).
  rewrite Elen. assert (Ebuf : uwrap 64 (Z.of_nat (length data) - Z.of_nat (length data - lo)) = Z.of_nat lo) by (rewrite uwrap_small; lia). rewrite Ebuf.
  match goal with |- context [bind ?m ?k w] => assert (Hset : exists x1, m w = (Val tt, set_stream p x1 w) /\ same_stream x x1 /\ ring_ok cap x1 data (low data l)) end.
  { assert (Hput : forall out, out = (vs_out x + Z.of_nat (low data l - lo)) mod vs_buf_len x ->
      exists x1, put_stream p (vs_set_ring (vs_pos x) (vs_buf x) (vs_inp x) out x) w = (Val tt, set_stream p x1 w) /\ same_stream x x1 /\ ring_ok cap x1 data (low data l)).
    { intros out ->. eexists. split; [apply runs_put_stream|]. split; [done|]. apply ring_advanced; [done|lia]. }
    rewrite Evp in Hput. destruct (decide (l = [])) as [->|Hne].
    - cbn [map fold_right]. rewrite Z.eqb_refl. apply Hput. rewrite (ring_inp_out _ _ _ _ Hx) at 1. done.
    - rewrite (fold_min_low data) by (done || lia). rewrite (proj2 (Z.eqb_neq _ _)) by lia.
      destruct (Z.ltb_spec (Z.of_nat lo) (Z.of_nat (low data l))) as [Hlt|Hge].
      + rewrite bind_cassert by (apply Z.leb_le; lia). apply Hput. f_equal. rewrite uwrap_small by lia. lia.
      + assert (El : low data l = lo) by lia. rewrite Ebl, (proj2 (Z.leb_gt _ _)) by (rewrite uwrap_small; lia).
        exists x. rewrite El. split; [|done]. unfold set_stream. rewrite insert_id by done. by destruct w as [? ? ? ? ? ? ? ? []]. }
  destruct Hset as (x1 & R1 & Hs1 & Hx1). rewrite (bind_runs _ _ _ _ _ R1).
  assert (Hp1 : ss_mem (w_user (set_stream p x1 w)) !! p = Some x1) by apply lookup_insert_eq.
  rewrite (bind_runs _ _ _ _ _ (runs_get_stream _ _ _ Hp1)). destruct (negb _).
  - destruct (post_space_runs cap p x1 data (low data l) _ Hp1 Hx1) as (w2 & x2 & R2 & C2 & Hs2 & Hx2). exists w2, x2. split; [done|].
    split; [eapply stream_changed_trans; [apply stream_changed_set|done]|]. split; [by eapply same_stream_trans|done].
  - exists (set_stream p x1 w), x1. split; [done|]. split; [apply stream_changed_set|done].
Qed.
End Runs.
