(* ===== verification/VirtualStreamRefine.v ===== *)
(** * Virtual streams refine texts with readers

    The simulation of VirtualStreamProps.v's specification by the functions of VirtualStreams.v, for the
    operations that add data and read them. *)

From S2P Require Import Prelude Streams OutputBuf JsonWrite JsonRead JsonStruct ChannelOut Channel ChannelProps.
From S2P Require Import Protocol ProtocolTables ProtocolProps ProtocolReplies VirtualStreams VirtualStreamRing VirtualStreamProps VirtualStreamRuns.

Section Refine.
Context {IS OS V : Type} `{OutputStreamLaws OS} `{!InputStream IS}.

Notation World := (World IS OS (StreamsState V)).
Notation W := (M World).
Notation SS := (StreamsState V).

Variable write_error_object : Z -> M OS unit.
Variable no_such_stream : list Z -> Z.

Implicit Types (w : World) (x : VirtualStream) (cl : StreamClient) (u : SS) (t : Text).

Definition stream_exec (p id : Z) (op : stream_op) : W (Z * Z) :=
  match op with
  | StreamAdd d eos => virtual_stream_add_data write_error_object p d (Z.of_nat (length d)) eos
  | StreamRead c token size =>
      let! err := virtual_stream_read write_error_object no_such_stream c token (STREAM_BASE_ID ++ ulong_text id) size in
      ret (err, 0)
  end.

Fixpoint stream_execs (p id : Z) (ops : list stream_op) : W (list (Z * Z)) :=
  match ops with
  | [] => ret []
  | op :: ops' =>
      let! r := stream_exec p id op in
      let! l := stream_execs p id ops' in
      ret (r :: l)
  end.

(** The client object at [q] is that of the reader [r], and is found by its channel. *)
Definition is_client u (p q : Z) (r : Reader) : Prop := exists cl, ss_client_mem u !! q = Some cl /\ represents p r cl.
Definition is_open w (r : Reader) : Prop := exists l, emits (ch_out (w_channels w (rd_channel r))) l.

Record stream_at (cap : nat) (id p : Z) w t x : Prop := {
  si_mem : ss_mem (w_user w) !! p = Some x;
  si_id : vs_id x = id;
  si_access : Z.land (vs_access x) VS_ENABLE_REMOTE_READ <> 0;
  si_ring : ring_ok cap x (tx_data t) (low (tx_data t) (tx_readers t));
  si_eos : vs_eos_inp x = tx_eos t;
  si_nodup : NoDup (vs_clients x);
  si_clients : Forall2 (is_client (w_user w) p) (vs_clients x) (tx_readers t);
  si_index : Forall2 (fun q r => find_channel (w_user w) id (rd_channel r) = Some (Some q)) (vs_clients x) (tx_readers t);
  si_open : Forall (is_open w) (tx_readers t) }.

(** The stream at [p] in the memory holds the text [t] for its readers. *)
Definition stream_sim (cap : nat) (id p : Z) w t : Prop := exists x, stream_at cap id p w t x.

Lemma index_channels u id qs l : NoDup qs -> Forall2 (fun q r => find_channel u id (rd_channel r) = Some (Some q)) qs l -> NoDup (map rd_channel l).
Proof.
  intros Hnd Hi. induction Hi as [|q r qs l Hq Hi IH]; [by constructor|]. apply NoDup_cons in Hnd as [Hn Hnd]. cbn [map]. apply NoDup_cons. split; [|by apply IH].
  intros (r' & E & Hin)%list_elem_of_fmap. destruct (list_elem_of_lookup_1 _ _ Hin) as [i Hl].
  destruct (Forall2_lookup_r _ _ _ _ _ Hi Hl) as (q' & Hq' & Hf). rewrite <- E, Hq in Hf. injection Hf as ->. apply Hn. by eapply list_elem_of_lookup_2.
Qed.

(** Clients are looked up as before. *)
Lemma keys_same u u' p x x' qs l l' : ss_mem u !! p = Some x -> ss_mem u' = <[p := x']> (ss_mem u) -> vs_id x' = vs_id x ->
  Forall2 (is_client u p) qs l -> Forall2 (is_client u' p) qs l' -> map rd_channel l' = map rd_channel l ->
  (forall q, q ∉ qs -> ss_client_mem u' !! q = ss_client_mem u !! q) -> forall q, client_key u' q = client_key u q.
Proof.
  intros Hp Hp' Hid Hc Hc' Hch Hn q. unfold client_key. destruct (decide (q ∈ qs)) as [Hq|Hq].
  - apply list_elem_of_lookup_1 in Hq as [i Hi]. destruct (Forall2_lookup_l _ _ _ _ _ Hc Hi) as (r & Hr & cl & Ecl & Hrep).
    destruct (Forall2_lookup_l _ _ _ _ _ Hc' Hi) as (r' & Hr' & cl' & Ecl' & Hrep').
    rewrite Ecl, Ecl', (rp_stream _ _ _ Hrep), (rp_stream _ _ _ Hrep'), (rp_channel _ _ _ Hrep), (rp_channel _ _ _ Hrep'), Hp, Hp', lookup_insert_eq, Hid.
    assert (Er : map rd_channel l' !! i = map rd_channel l !! i) by (by rewrite Hch). rewrite !list_lookup_fmap, Hr, Hr' in Er. cbn in Er. congruence.
  - rewrite Hn by done. destruct (ss_client_mem u !! q) as [cl|]; [|done]. rewrite Hp'. destruct (decide (sc_stream cl = p)) as [->|Hne].
    + by rewrite lookup_insert_eq, Hp, Hid.
    + by rewrite lookup_insert_ne.
Qed.

(** A step of the stream and its clients. *)
Lemma sim_step cap id p w t x w' t' x' rs : stream_at cap id p w t x ->
  ss_mem (w_user w') = <[p := x']> (ss_mem (w_user w)) -> ss_hash (w_user w') = ss_hash (w_user w) ->
  vs_id x' = vs_id x -> vs_access x' = vs_access x -> vs_clients x' = vs_clients x ->
  ring_ok cap x' (tx_data t') (low (tx_data t') (tx_readers t')) -> vs_eos_inp x' = tx_eos t' ->
  Forall2 (is_client (w_user w') p) (vs_clients x) (tx_readers t') -> map rd_channel (tx_readers t') = map rd_channel (tx_readers t) ->
  (forall q, q ∉ vs_clients x -> ss_client_mem (w_user w') !! q = ss_client_mem (w_user w) !! q) ->
  answered w rs w' -> stream_sim cap id p w' t'.
Proof.
  intros [Hm Hid Hac _ _ Hnd Hcl Hix Hop] Hm' Hh Eid Eac Ecl Hr He Hc' Hch Hn Ha. exists x'.
  pose proof (keys_same _ _ _ _ _ _ _ _ Hm Hm' Eid Hcl Hc' Hch Hn) as Hk. constructor; try done; [|congruence|congruence|by rewrite Ecl|by rewrite Ecl| |].
  - by rewrite Hm', lookup_insert_eq.
  - rewrite Ecl. rewrite Forall2_lookup in Hix |- *. intros i. specialize (Hix i).
    assert (Er : map rd_channel (tx_readers t') !! i = map rd_channel (tx_readers t) !! i) by (by rewrite Hch). rewrite !list_lookup_fmap in Er.
    destruct Hix as [q r Hq|]; [|by destruct (tx_readers t' !! i); [|constructor]].
    destruct (tx_readers t' !! i) as [r'|]; [|done]. cbn in Er. constructor. injection Er as ->.
    unfold find_channel in *. by rewrite Hh, (find_key_ext (client_key (w_user w))).
  - apply Forall_lookup. intros i r' Hr'. rewrite Forall_lookup in Hop.
    assert (Er : map rd_channel (tx_readers t') !! i = map rd_channel (tx_readers t) !! i) by (by rewrite Hch). rewrite !list_lookup_fmap, Hr' in Er.
    destruct (tx_readers t !! i) as [r|] eqn:Er0; [|done]. cbn in Er. injection Er as Er. unfold is_open. rewrite Er.
    eapply answered_open; [exact Ha|]. by apply (Hop i r).
Qed.

Section Steps.
Variables (cap : nat) (id p : Z).
Hypothesis Hcap : Z.of_nat (S cap) < 2 ^ 32.
Hypothesis Hid : 0 <= id < 2 ^ 32.
Hypothesis Heom : os_sym (OS := OS) MARKER_EOM.

Lemma reader_low data eos l r : Forall (reader_ok data eos) l -> r ∈ l -> (low data l <= rd_pos r <= length data)%nat.
Proof. intros Hl Hr. rewrite Forall_forall in Hl. destruct (Hl r Hr). split; [by apply low_min|done]. Qed.

(** Serving the readers after data have been added. *)
Lemma serve_advance_runs w t x x1 d eos' : text_ok t -> stream_at cap id p w t x -> bytes d ->
  same_stream (vs_set_eos eos' (vs_eos_out x) x) x1 -> ring_ok cap x1 (tx_data t ++ d) (low (tx_data t) (tx_readers t)) ->
  let data := tx_data t ++ d in
  let served := map (serve_reader data eos') (tx_readers t) in
  exists w', (serve_clients write_error_object (vs_clients x1) ;! advance_stream_buffer p) (set_stream p x1 w) = (Val tt, w') /\
    stream_sim cap id p w' (mkText data eos' (map snd served)) /\ answered w (concat (map fst served)) w'.
Proof.
  intros [Hb Hr] Hsim Hd [Ei Ea Ec Ee] Hx1 data served. cbn [vs_set_eos vs_id vs_access vs_clients vs_eos_inp] in *. pose proof Hsim as [Hm Hvid Hac _ _ Hnd Hcl Hix Hop].
  assert (Hfit : Forall (reader_fit data) (tx_readers t)) by (eapply Forall_impl; [exact Hr|]; intros r; apply reader_ok_fit).
  destruct (served_ok data eos' _ Hfit) as [Ho Hmv]; [by eapply index_channels|]. fold served in Ho, Hmv.
  assert (Hbd : bytes data) by (apply Forall_app; by split).
  assert (Hm1 : ss_mem (w_user (set_stream p x1 w)) !! p = Some x1) by apply lookup_insert_eq.
  assert (Hlow : Forall (fun r => (low (tx_data t) (tx_readers t) <= rd_pos r)%nat /\ reader_fit data r) (tx_readers t)).
  { apply Forall_forall. intros r Hin. rewrite Forall_forall in Hfit. split; [by apply (reader_low _ _ _ _ Hr)|by apply Hfit]. }
  destruct (serve_clients_runs write_error_object cap p x1 data (low (tx_data t) (tx_readers t)) (vs_clients x) (tx_readers t) Hx1 Hcap Hbd Heom
    Hlow (set_stream p x1 w) Hnd Hcl Hm1 Hop) as (w1 & R1 & [Hu1 Hc1 Hn1] & A1).
  rewrite Ee in *. fold served in Hc1, A1.
  assert (Hch : map rd_channel (map snd served) = map rd_channel (tx_readers t)).
  { symmetry. clear -Hmv. induction Hmv as [|r r' l l' [E _ _] _ IH]; [done|]. cbn. by rewrite E, IH. }
  destruct (advance_runs cap p x1 data (low (tx_data t) (tx_readers t)) (map snd served) w1 Hx1 Hcap) as (w2 & x2 & R2 & C2 & [S1 S2 S3 S4] & Hx2).
  { by rewrite Ea. }
  { rewrite Hu1. exact Hm1. }
  { by rewrite Ec. }
  { eapply Forall_impl; [exact Ho|]. by intros r [? _ _]. }
  { exact (low_mono _ _ _ _ _ Hmv). }
  exists w2. rewrite Ec. split; [unfold bind; by rewrite R1|].
  assert (A2 : answered w (concat (map fst served)) w2).
  { rewrite <- (app_nil_r (concat _)). eapply answered_trans; [|rewrite C2; apply answered_user].
    apply (answered_trans w [] (set_stream p x1 w)); [apply answered_user|done]. }
  split; [|done]. eapply (sim_step cap id p w t x w2 _ x2); try done; cbn [tx_data tx_eos tx_readers]; try congruence.
  - rewrite (stream_changed_mem _ _ _ _ C2), Hu1. cbn. by rewrite insert_insert_eq.
  - rewrite C2, Hu1. done.
  - rewrite C2. exact Hc1.
  - intros q Hq. rewrite C2. cbn. by rewrite Hn1.
Qed.

Lemma add_runs d eos t w : text_ok t -> stream_sim cap id p w t -> bytes d -> Z.of_nat (length (tx_data t) + length d) < 2 ^ 64 - 1 ->
  let '(t', rs, r) := text_add cap d eos t in
  exists w', runs (virtual_stream_add_data write_error_object p d (Z.of_nat (length d)) eos) w r w' /\ stream_sim cap id p w' t' /\ answered w rs w'.
Proof.
  intros Hok [x Hsim] Hd Hbig. pose proof Hsim as [Hm Hvid Hac Hring Heos Hnd Hcl Hix Hop]. unfold text_add, virtual_stream_add_data.
  assert (Eac : negb (Z.land (vs_access x) VS_ENABLE_REMOTE_READ =? 0) = true) by (by apply negb_true_iff, Z.eqb_neq).
  assert (Hself : answered w [] w) by (rewrite <- (set_user_self w) at 2; apply answered_user).
  unfold runs. rewrite (bind_runs _ _ _ _ _ (runs_get_stream _ _ _ Hm)), Heos. destruct (tx_eos t) eqn:Et.
  - exists w. split; [|split; [by exists x|done]]. rewrite (bind_runs _ _ _ _ _ (runs_ret _ _)), (bind_runs _ _ _ _ _ (runs_get_stream _ _ _ Hm)), Eac. done.
  - cbv zeta. rewrite (ring_room _ _ _ _ Hring). set (lo := low (tx_data t) (tx_readers t)) in *. set (n := Nat.min (length d) (cap - (length (tx_data t) - lo))).
    pose proof (ring_buf_len _ _ _ _ Hring) as Ebl. pose proof Hring as [_ _ [Hlo Hfit] _ [Evp _] _].
    assert (En : (if Z.of_nat (length d) <? Z.of_nat (cap - (length (tx_data t) - lo)) then Z.of_nat (length d) else Z.of_nat (cap - (length (tx_data t) - lo))) = Z.of_nat n).
    { destruct (Z.ltb_spec (Z.of_nat (length d)) (Z.of_nat (cap - (length (tx_data t) - lo)))); lia. }
    rewrite En, Nat2Z.id. assert (Et2 : length (take n d) = n) by (rewrite length_take; lia).
    pose proof (ring_added cap x (tx_data t) lo Hring (take n d) (eos && (Z.of_nat (length d) =? Z.of_nat n)) (vs_eos_out x)) as Hx1. rewrite Et2 in Hx1.
    set (x1 := vs_set_eos _ _ _) in Hx1. specialize (Hx1 ltac:(lia) ltac:(lia)).
    rewrite (bind_runs _ _ w (0, Z.of_nat n) (set_stream p x1 w)); cycle 1.
    { unfold runs. rewrite bind_cassert by (apply Z.ltb_lt; lia). rewrite (proj2 (Z.ltb_ge _ _)) by lia. rewrite orb_false_l. done. }
    assert (Hm1 : ss_mem (w_user (set_stream p x1 w)) !! p = Some x1) by apply lookup_insert_eq.
    cbv iota beta. rewrite (bind_runs _ _ _ _ _ (runs_get_stream _ _ _ Hm1)). change (vs_access x1) with (vs_access x). rewrite Eac. cbn [Z.eqb andb].
    change (vs_eos_inp x1) with (eos && (Z.of_nat (length d) =? Z.of_nat n)).
    assert (Ee : (Z.of_nat (length d) =? Z.of_nat n) = (n =? length d)%nat) by (destruct (Nat.eqb_spec n (length d)); [apply Z.eqb_eq|apply Z.eqb_neq]; lia).
    assert (Epos : (0 <? Z.of_nat n) = (0 <? n)%nat) by (destruct (Nat.ltb_spec 0 n); [apply Z.ltb_lt|apply Z.ltb_ge]; lia).
    rewrite Ee in *. rewrite Epos. destruct (_ || _) eqn:Eb.
    + destruct (serve_advance_runs w t x x1 (take n d) (eos && (n =? length d)%nat) Hok Hsim (Forall_take _ _ _ Hd)) as (w' & R' & S' & A'); [constructor; try done; cbn; by rewrite Ee|exact Hx1|].
      exists w'. split; [|done]. by rewrite (bind_runs _ _ _ _ _ R').
    + apply orb_false_iff in Eb as [Eb1 Eb2]. nat_bools. exists (set_stream p x1 w).
      split; [unfold bind, ret; do 2 f_equal; f_equal; lia|]. assert (A1 : answered w [] (set_stream p x1 w)) by apply answered_user. split; [|done].
      assert (En0 : n = 0%nat) by lia. rewrite En0, take_0, app_nil_r in Hx1.
      eapply (sim_step cap id p w t x _ t x1); try done. rewrite Et. change (vs_eos_inp x1) with (eos && (Z.of_nat (length d) =? Z.of_nat n)). by rewrite Ee.
Qed.

(** One client has changed. *)
Lemma client_set u u' q cl' r' q1 q2 l1 r l2 : NoDup (q1 ++ q :: q2) -> length q1 = length l1 ->
  Forall2 (is_client u p) (q1 ++ q :: q2) (l1 ++ r :: l2) -> ss_client_mem u' = <[q := cl']> (ss_client_mem u) -> represents p r' cl' ->
  Forall2 (is_client u' p) (q1 ++ q :: q2) (l1 ++ r' :: l2).
Proof.
  intros Hnd Hlen Hc Eu Hr. apply Forall2_app_inv in Hc as [Hc1 Hc2]; [|done]. apply Forall2_cons in Hc2 as [_ Hc2].
  apply NoDup_app in Hnd as (_ & Hd & [Hq2 _]%NoDup_cons).
  assert (Hne : forall qs l, q ∉ qs -> Forall2 (is_client u p) qs l -> Forall2 (is_client u' p) qs l).
  { intros qs l Hq Hl. eapply Forall2_impl_in; [exact Hl|]. intros q' r0 Hin _ (cl & E & Hrep). exists cl. split; [|done].
    rewrite Eu, lookup_insert_ne; [done|by intros ->]. }
  apply Forall2_app; [apply Hne; [|done]|constructor; [|by apply Hne]].
  - intros Hin. apply (Hd q Hin). left.
  - exists cl'. split; [|done]. rewrite Eu. apply lookup_insert_eq.
Qed.

(** A read of the client of the reader [r]. *)
Section Read.
Variables (w : World) (t : Text) (x : VirtualStream) (l1 l2 : list Reader) (r : Reader) (q1 q2 : list Z) (q : Z) (cl : StreamClient).
Hypothesis Hok : text_ok t.
Hypothesis Hsim : stream_at cap id p w t x.
Hypothesis El : tx_readers t = l1 ++ r :: l2.
Hypothesis Eq : vs_clients x = q1 ++ q :: q2.
Hypothesis Hlen : length q1 = length l1.
Hypothesis Hcl : ss_client_mem (w_user w) !! q = Some cl.
Hypothesis Hrep : represents p r cl.

Lemma read_others q' : q' ∉ vs_clients x -> q' <> q.
Proof. intros Hq' ->. apply Hq'. rewrite Eq. apply elem_of_app. right. left. Qed.

Lemma read_clients u' cl' r' : ss_client_mem u' = <[q := cl']> (ss_client_mem (w_user w)) -> represents p r' cl' ->
  Forall2 (is_client u' p) (vs_clients x) (l1 ++ r' :: l2).
Proof.
  intros Eu Hr'. pose proof (si_clients _ _ _ _ _ _ Hsim) as Hc. pose proof (si_nodup _ _ _ _ _ _ Hsim) as Hnd. rewrite El in Hc. rewrite Eq in *.
  by eapply client_set.
Qed.

Lemma read_waits token size : rd_pos r = length (tx_data t) ->
  let w' := set_client q (sc_set_reads (sc_reads cl ++ [mkRR (take 255 token) size]) cl) w in
  stream_sim cap id p w' (mkText (tx_data t) (tx_eos t) (l1 ++ mkReader (rd_channel r) (rd_pos r) (rd_reads r ++ [mkRR (take 255 token) size]) :: l2)).
Proof.
  intros Hpos w'. pose proof Hsim as [Hm Hvid Hac Hring Heos Hnd _ _ _]. destruct Hrep as [Es Ech Ep Erd].
  eapply (sim_step cap id p w t x w' _ x []); try done; cbn [tx_data tx_readers tx_eos].
  - cbn. by rewrite insert_id.
  - rewrite El in Hring. unfold low in *. rewrite !map_app in *. exact Hring.
  - eapply read_clients; [done|]. constructor; cbn; [done|done|done|by rewrite Erd].
  - by rewrite El, !map_app.
  - intros q' Hq'%read_others. cbn. by rewrite lookup_insert_ne.
  - apply answered_user.
Qed.

Lemma read_answered token size : bytes token -> 0 < size -> (rd_pos r < length (tx_data t))%nat \/ tx_eos t = true -> rd_reads r = [] ->
  let r' := mkReader (rd_channel r) (rd_pos r + length (piece (tx_data t) (rd_pos r) size)) [] in
  exists w', (send_read_reply write_error_object q token size ;! advance_stream_buffer p) w = (Val tt, w') /\
    stream_sim cap id p w' (mkText (tx_data t) (tx_eos t) (l1 ++ r' :: l2)) /\
    answered w [reply_of (tx_data t) (tx_eos t) (rd_channel r) (rd_pos r) token size] w'.
Proof.
  intros Ht Hs Hor Hnil r'. pose proof Hsim as [Hm Hvid Hac Hring Heos Hnd _ _ Hop]. pose proof Hok as [Hb Hr]. pose proof Hrep as [Es Ech Ep Erd].
  assert (Hin : r ∈ tx_readers t) by (rewrite El; apply elem_of_app; right; left).
  assert (Hopr : is_open w r) by (rewrite Forall_forall in Hop; by apply Hop).
  rewrite <- Heos in Hor |- *.
  destruct (send_reply_runs write_error_object cap p q x (tx_data t) _ Hring Hcap Hb Heom token size r cl w Hm Hcl Hrep (reader_low _ _ _ _ Hr Hin) Hor Ht Hs Hopr)
    as (w1 & R1 & E1 & A1). set (cl1 := sc_set_pos _ cl) in *.
  assert (Hcl1 : Forall2 (is_client (w_user w1) p) (vs_clients x) (l1 ++ r' :: l2)).
  { eapply (read_clients _ cl1); [by rewrite E1|]. constructor; cbn; [done|done|done|congruence]. }
  assert (Hpc : (rd_pos r <= rd_pos r' <= length (tx_data t))%nat).
  { pose proof (reader_low _ _ _ _ Hr Hin). unfold r'. cbn [rd_pos]. rewrite piece_length. lia. }
  destruct (advance_runs cap p x (tx_data t) (low (tx_data t) (tx_readers t)) (l1 ++ r' :: l2) w1 Hring Hcap Hac) as (w2 & x2 & R2 & C2 & [S1 S2 S3 S4] & Hx2).
  { by rewrite E1. }
  { exact Hcl1. }
  { rewrite El in Hr. apply Forall_app in Hr as [Hr1 [_ Hr2]%Forall_cons]. apply Forall_app. split; [|constructor; [lia|]];
      (eapply Forall_impl; [eassumption|]; by intros ? [? _ _]). }
  { rewrite El. by apply low_move. }
  assert (A2 : answered w [reply_of (tx_data t) (vs_eos_inp x) (rd_channel r) (rd_pos r) token size] w2).
  { eapply (answered_trans w [_] w1 []); [exact A1|rewrite C2; apply answered_user]. }
  exists w2. split; [unfold bind; by rewrite R1|]. split; [|exact A2].
  eapply (sim_step cap id p w t x w2 _ x2); try done; cbn [tx_data tx_eos tx_readers]; try congruence.
  - rewrite (stream_changed_mem _ _ _ _ C2), E1. done.
  - rewrite C2. cbn. by rewrite E1.
  - rewrite C2. exact Hcl1.
  - by rewrite El, !map_app.
  - intros q' Hq'%read_others. rewrite C2. cbn. rewrite E1. cbn. by rewrite lookup_insert_ne.
Qed.
End Read.

Lemma read_runs c token size t w l rs : text_ok t -> stream_sim cap id p w t -> bytes token -> 0 < size ->
  readers_read (tx_data t) (tx_eos t) c token size (tx_readers t) = Some (l, rs) ->
  exists w', virtual_stream_read write_error_object no_such_stream c token (STREAM_BASE_ID ++ ulong_text id) size w = (Val 0, w') /\
    stream_sim cap id p w' (mkText (tx_data t) (tx_eos t) l) /\ answered w rs w'.
Proof.
  intros Hok [x Hsim] Ht Hs Hread. pose proof Hok as [Hb Hr]. pose proof Hsim as [Hm Hvid Hac Hring Heos Hnd Hcl Hix _].
  apply readers_read_split in Hread as (l1 & r & l2 & El & Hc & -> & ->). rewrite El in Hcl, Hix. subst c.
  pose proof (proj1 (Forall2_app_inv_r _ _ _ _) Hix) as (q1 & q2' & Hi1 & Hi2 & Eq). inversion Hi2 as [|q ? q2 ? Hq _ Eq2]. subst q2'.
  pose proof (Forall2_length _ _ _ Hi1) as Hlen. rewrite Eq in Hcl. apply Forall2_app_inv in Hcl as [_ [(cl & Ecl & Hrep) _]%Forall2_cons]; [|done].
  pose proof Hrep as [Es Ech Ep Erd]. pose proof Hring as [_ _ _ _ [Evp _] _].
  assert (Hrok : reader_ok (tx_data t) (tx_eos t) r) by (rewrite El in Hr; by apply Forall_app in Hr as [_ [? _]%Forall_cons]).
  assert (Rgc := runs_get_client (V := V) q cl w Ecl). assert (Rgs : runs (get_stream (sc_stream cl)) w x w) by (rewrite Es; by apply runs_get_stream).
  unfold virtual_stream_read. rewrite (bind_runs _ _ _ _ _ (find_client_runs no_such_stream _ _ _ _ Hid Hq)).
  rewrite (bind_runs _ _ w 0 w); cycle 1.
  { unfold check_access, runs. rewrite (bind_runs _ _ _ _ _ Rgc), (bind_runs _ _ _ _ _ Rgs), (proj2 (Z.eqb_neq _ _) Hac). done. }
  cbn [Z.eqb]. rewrite (bind_runs _ _ _ _ _ Rgc), (bind_runs _ _ _ _ _ Rgs).
  assert (Epos : (sc_pos cl =? vs_pos x) = (rd_pos r =? length (tx_data t))%nat).
  { rewrite Ep, Evp. destruct (Nat.eqb_spec (rd_pos r) (length (tx_data t))); [apply Z.eqb_eq|apply Z.eqb_neq]; lia. }
  rewrite Epos, Heos. unfold read_step. cbv zeta. destruct (_ && _) eqn:Eb; cbn [fst snd].
  - rewrite (bind_runs _ _ _ _ _ (runs_put_client q _ w)). eexists. split; [reflexivity|]. split; [|apply answered_user].
    apply andb_true_iff in Eb as [Eb%Nat.eqb_eq _]. by eapply read_waits.
  - assert (Hnil : rd_reads r = []).
    { destruct (rd_reads r) eqn:E; [done|]. destruct (ro_wait _ _ _ Hrok) as [Ea Eo]; [by rewrite E|]. rewrite Ea, Eo, Nat.eqb_refl in Eb. done. }
    destruct (read_answered w t x l1 l2 r q1 q2 q cl Hok Hsim El Eq Hlen Ecl Hrep token size Ht Hs) as (w2 & R2 & S2 & A2); [|done|].
    { apply andb_false_iff in Eb as [Eb%Nat.eqb_neq|Eb%negb_false_iff]; [left; pose proof (ro_pos _ _ _ Hrok); lia|by right]. }
    exists w2. split; [|done]. rewrite Erd, Hnil, Es. rewrite (bind_runs _ _ w tt w2); [done|].
    unfold runs. rewrite bind_cassert by done. rewrite bind_cassert by (by apply Z.eqb_eq). exact R2.
Qed.
End Steps.

Definition ops_added (ops : list stream_op) : Z := fold_right (fun op n => op_added op + n) 0 ops.

Lemma op_added_nonneg op : 0 <= op_added op.
Proof. destruct op; cbn; lia. Qed.

Lemma stream_exec_runs cap id p op t w t' rs res : Z.of_nat (S cap) < 2 ^ 32 -> 0 <= id < 2 ^ 32 -> os_sym (OS := OS) MARKER_EOM ->
  text_ok t -> stream_sim cap id p w t -> op_ok op -> Z.of_nat (length (tx_data t)) + op_added op < 2 ^ 64 - 1 ->
  text_op cap op t = Some (t', rs, res) ->
  exists w', runs (stream_exec p id op) w res w' /\ stream_sim cap id p w' t' /\ answered w rs w'.
Proof.
  intros Hcap Hid Hm Hok Hsim Hop Hbig E. destruct op as [d eos|c token size]; cbn [text_op op_ok op_added stream_exec] in *.
  - injection E as E. pose proof (add_runs cap id p Hcap Hm d eos t w Hok Hsim Hop ltac:(lia)) as Ha. by rewrite E in Ha.
  - destruct (Z.ltb_spec 0 size) as [Hs|]; [|done]. destruct (readers_read _ _ _ _ _ _) as [[l rs']|] eqn:Er; [|done]. injection E as <- <- <-.
    destruct (read_runs cap id p Hcap Hid Hm c token size t w l rs' Hok Hsim Hop Hs Er) as (w' & R & S' & A). exists w'. split; [|done].
    unfold runs. by rewrite (bind_runs _ _ _ _ _ R).
Qed.
End Refine.

(** ** Properties *)

(** C9: A virtual stream that can be read is a text that grows at its end and readers in it: any
    sequence of additions of data and of reads by its clients runs without a fault, returns what the
    specification returns, and leaves a stream that stands for the text and the readers of the
    specification; the replies that the specification names, and nothing else, are written to the channels.  So
    the replies to a channel hold, in order and without gaps, the bytes of the text between what its
    client had read before and has read after, the slowest client bounds what can be added, and a read
    waits for data or for the end. *)
Theorem stream_delivers {IS OS V} `{OutputStreamLaws OS} `{!InputStream IS} write_error_object no_such_stream
    cap id p ops t t' rs res (w : World IS OS (StreamsState V)) :
  Z.of_nat (S cap) < 2 ^ 32 -> 0 <= id < 2 ^ 32 -> os_sym (OS := OS) MARKER_EOM ->
  text_ok t -> stream_sim cap id p w t -> Forall op_ok ops -> Z.of_nat (length (tx_data t)) + ops_added ops < 2 ^ 64 - 1 ->
  text_ops cap ops t = Some (t', rs, res) ->
  exists w', runs (stream_execs write_error_object no_such_stream p id ops) w res w' /\ stream_sim cap id p w' t' /\ answered w rs w' /\
    text_ok t' /\ text_step t rs t'.
Proof.
  intros Hcap Hid Hm Hok Hsim Hops. revert t w t' rs res Hok Hsim. induction Hops as [|op ops Hop Hops IH]; intros t w t' rs res Hok Hsim Hbig E;
    cbn [text_ops stream_execs ops_added fold_right] in *.
  - injection E as <- <- <-. exists w. split; [apply runs_ret|]. split; [done|].
    split; [rewrite <- (set_user_self w) at 2; apply answered_user|]. split; [done|by apply text_step_refl].
  - fold (ops_added ops) in Hbig. destruct (text_op cap op t) as [[[t1 rs1] e]|] eqn:E1; [|done].
    destruct (text_ops cap ops t1) as [[[t2 rs2] l]|] eqn:E2; [|done]. injection E as <- <- <-.
    assert (Hn : 0 <= ops_added ops) by (clear; unfold ops_added; induction ops as [|o ops]; cbn; [lia|]; pose proof (op_added_nonneg o); lia).
    destruct (stream_exec_runs write_error_object no_such_stream cap id p op t w t1 rs1 e Hcap Hid Hm Hok Hsim Hop ltac:(lia) E1) as (w1 & R1 & S1 & A1).
    destruct (text_op_ok cap op t t1 rs1 e Hok Hop) as (Hok1 & Hst1 & Hlen); [|done|].
    { destruct Hsim as [x Hx]. eapply index_channels; [exact (si_nodup _ _ _ _ _ _ Hx)|exact (si_index _ _ _ _ _ _ Hx)]. }
    destruct (IH t1 w1 t2 rs2 l Hok1 S1 ltac:(lia) E2) as (w2 & R2 & S2 & A2 & Hok2 & Hst2). exists w2.
    split; [eapply runs_bind; [exact R1|]; eapply runs_bind; [exact R2|apply runs_ret]|]. split; [done|].
    split; [by eapply answered_trans|]. split; [done|by eapply text_step_trans].
Qed.

(** A stream of 4 bytes with two clients. *)
Definition demo_stream (clients : list Z) (access : Z) (buf : list Z) (pos inp out : Z) (eos : bool) : VirtualStream :=
  mkVS (str "Terminals") 5 access 0 1 false clients pos buf inp out eos false false false.

Definition demo_streams (x : VirtualStream) (c1 c2 : StreamClient) : StreamsState unit :=
  mkSS {[1000 := x]} {[2000 := c1; 2001 := c2]}
    (set_bucket (get_client_hash 5 32) [2000] (set_bucket (get_client_hash 5 48) [2001] (replicate (Z.to_nat HANDLE_HASH_SIZE) [])))
    [2001; 2000] [1000] [] 6 [] 3000 tt.

Definition demo_memory (u : StreamsState unit) : World ByteArrayInputStream ChannelTCP (StreamsState unit) :=
  mkWorld (fun c => demo_channel ChannelStateConnected (c =? 32) 0) [] [] [] ∅ [32; 48] 0 ([], 0%N) u.

Definition demo_reading : StreamsState unit :=
  demo_streams (demo_stream [2001; 2000] VS_ENABLE_REMOTE_READ (replicate 5 0) 0 3 3 false)
    (mkSC 1000 32 0 [] []) (mkSC 1000 48 0 [] []).

Definition demo_text : Text := mkText [] false [mkReader 48 0 []; mkReader 32 0 []].

Definition demo_ops : list stream_op :=
  [StreamRead 48 (str "1") 10; StreamAdd (str "abcdef") true; StreamRead 32 (str "2") 3; StreamRead 32 (str "3") 10;
   StreamAdd (str "ef") true; StreamRead 48 (str "4") 1].

Definition demo_replies : list Reply :=
  [mkReply 48 (str "1") (str "abcd") false; mkReply 32 (str "2") (str "abc") false; mkReply 32 (str "3") (str "d") false;
   mkReply 48 (str "4") (str "e") false].

Lemma stream_delivers_witness :
  exists w', runs (stream_execs (fun _ => ret tt) (fun _ => 1) 1000 5 demo_ops) (demo_memory demo_reading)
      [(0, 0); (0, 4); (0, 0); (0, 0); (0, 2); (0, 0)] w' /\
    stream_sim 4 5 1000 w' (mkText (str "abcdef") true [mkReader 48 5 []; mkReader 32 4 []]) /\
    answered (demo_memory demo_reading) demo_replies w' /\
    text_ok (mkText (str "abcdef") true [mkReader 48 5 []; mkReader 32 4 []]) /\
    text_step demo_text demo_replies (mkText (str "abcdef") true [mkReader 48 5 []; mkReader 32 4 []]).
Proof.
  apply (stream_delivers (fun _ => ret tt) (fun _ => 1) 4 5 1000 demo_ops demo_text).
  - done.
  - done.
  - exact sym_eom.
  - constructor; [constructor|]. repeat constructor; cbn; try done; lia.
  - eexists. constructor; [reflexivity|done|done| |done|apply (bool_decide_unpack _); vm_compute; exact I|..].
    + constructor; cbn; done || lia.
    + repeat constructor; eexists; (split; [vm_compute; reflexivity|done]).
    + repeat constructor; vm_compute; reflexivity.
    + repeat constructor; exists []; apply new_output_emits.
  - do 6 (apply Forall_cons; split; [apply str_bytes|]). by apply Forall_nil.
  - vm_compute. reflexivity.
  - vm_compute. reflexivity.
Defined.
