(* ===== verification/VirtualStreamFlaws.v ===== *)
(** * Commands that break virtual streams (VirtualStreams.v, services/streamsservice.c)

    Concrete runs of the commands, on the real input buffer of a channel. *)

From S2P Require Import Prelude Streams OutputBuf JsonWrite JsonRead JsonStruct ChannelOut InputBuf Channel ChannelProps.
From S2P Require Import Protocol ProtocolTables ProtocolProps ProtocolReplies ProtocolFlaws VirtualStreams VirtualStreamRing VirtualStreamProps VirtualStreamRuns VirtualStreamRefine.

Notation StreamFlawWorld := (World InputBuf ChannelTCP (StreamsState unit)).

(** The channel 32 has sent the arguments of a command. *)
Definition stream_flaw_world (args : list Z) (u : StreamsState unit) : StreamFlawWorld :=
  mkWorld (fun c => flaw_channel ChannelStateConnected (if c =? 32 then args ++ [ESC; 1] else []) None) [] [] [] ∅ [32; 48] 0 ([], 0%N) u.

(** A stream of 4 bytes that holds "abc". *)
Definition filled (access : Z) (writes : list WriteRequest) : StreamsState unit :=
  demo_streams (demo_stream [2001; 2000] access (str "abc" ++ [0; 0]) 3 3 0 false) (mkSC 1000 32 0 [] writes) (mkSC 1000 48 0 [] []).

Definition VS5 : list Z := STREAM_BASE_ID ++ ulong_text 5.

(** The arguments of "read", and of "write" with data in BASE64 or as counted bytes. *)
Definition read_args (size : Z) : list Z := string_text (Some VS5) ++ [0] ++ long_text size ++ [0].
Definition write_args (size : Z) (zc : bool) (d : list Z) : list Z :=
  string_text (Some VS5) ++ [0] ++ long_text size ++ [0] ++ binary_text zc (Some d) ++ [0].

Definition flaw_callback (h p e : Z) : M StreamFlawWorld unit := ret tt.
Definition flaw_read : M StreamFlawWorld unit := command_read 200 (fun _ => ret tt) (fun _ => 1) (str "7") 32.
Definition flaw_write : M StreamFlawWorld unit := command_write 200 (fun _ => ret tt) (fun _ => 1) (str "8") 32.
Definition flaw_get (size : Z) : M StreamFlawWorld (list Z * bool) := virtual_stream_get_data (fun _ => ret tt) 1000 size.

(** The requests of the client of the channel 32. *)
Definition waiting_writes (w : StreamFlawWorld) : list (Z * list Z) :=
  match ss_client_mem (w_user w) !! 2000 with Some cl => map (fun r => (wr_size r, wr_data r)) (sc_writes cl) | None => [] end.

(** Runs of commands of the Streams service, which trust their arguments.  A read for no bytes fails an assertion when
    the stream holds data that the client has not read, while a read for a byte is answered.  A write whose size is less than what its data leave over after the
    stream is full copies them over the end of a block; with the right size the rest waits.  A write of more than its data
    puts what was in the block before into the stream, when the owner has taken what was there.  And a write
    that has to wait, of counted bytes and for less than there are, fails an assertion, since it leaves bytes unread. *)
Example virtual_stream_flaws :
  fst (flaw_read (stream_flaw_world (read_args 0) (filled VS_ENABLE_REMOTE_READ []))) = Fault /\
  fst (flaw_read (stream_flaw_world (read_args 1) (filled VS_ENABLE_REMOTE_READ []))) = Val tt /\
  fst (flaw_write (stream_flaw_world (write_args 2 false (str "defg")) (filled VS_ENABLE_REMOTE_WRITE []))) = Fault /\
  (let '(r, w) := flaw_write (stream_flaw_world (write_args 4 false (str "defg")) (filled VS_ENABLE_REMOTE_WRITE [])) in
   (r, waiting_writes w)) = (Val tt, [(3, str "efg")]) /\
  (let '(r, w) := flaw_write (stream_flaw_world (write_args 6 false (str "defg")) (filled VS_ENABLE_REMOTE_WRITE [])) in
   let '(r1, w1) := flaw_get 10 w in
   (r, waiting_writes w, r1, fst (flaw_get 10 w1))) = (Val tt, [(5, str "efg")], Val (str "abcd", false), Fault) /\
  fst (flaw_write (stream_flaw_world (write_args 2 true (str "defg")) (filled VS_ENABLE_REMOTE_WRITE [mkWR (str "6") (str "z") 0 1 false]))) = Fault /\
  (let '(r, w) := flaw_write (stream_flaw_world (write_args 4 true (str "defg")) (filled VS_ENABLE_REMOTE_WRITE [mkWR (str "6") (str "z") 0 1 false])) in
   (r, waiting_writes w)) = (Val tt, [(1, str "z"); (4, str "defg")]).
Proof. split; [|split; [|split; [|split; [|split; [|split]]]]]; vm_compute; reflexivity. Qed.
