(* ===== verification/Errors.v ===== *)
(** * Error codes and reports (framework/errors.c)

    An error is a number: a standard code, a code of the system, or the place of a message or a
    report in an array of the last 100.  Reports are objects with a count of references; a pointer to one is
    a number, 0 for the null pointer, that is not used again. *)

From S2P Require Import Prelude Streams JsonWrite JsonRead.

(** ** Data *)

Definition ERR_MESSAGE_MIN : Z := STD_ERR_BASE + 100.
Definition ERR_MESSAGE_MAX : Z := STD_ERR_BASE + 199.
Definition MESSAGE_CNT : Z := ERR_MESSAGE_MAX - ERR_MESSAGE_MIN + 1.
Definition SRC_GAI : Z := 2.
Definition SRC_MESSAGE : Z := 3.
Definition SRC_REPORT : Z := 4.

(** [er_params] are the first [param_cnt] pointers, [er_props] the list of items. *)
Record ErrorReport := mkReport {
  er_code : Z;
  er_format : option (list Z);
  er_params : list (option (list Z));
  er_time_stamp : Z;
  er_props : list (list Z * list Z) }.

Record ReportBuffer := mkBuffer { rb_pub : ErrorReport; rb_posix_code : Z; rb_refs : Z; rb_gets : Z }.

Record ErrorMessage := mkMsg { em_source : Z; em_error : Z; em_text : option (list Z); em_report : Z }.

(** The static variables, [errno] and the memory. *)
Record Errors := mkErrors {
  es_msgs : list ErrorMessage;
  es_msgs_pos : Z;
  es_errno : Z;
  es_reports : gmap Z ReportBuffer;
  es_next : Z }.

Definition errors_init (next : Z) : Errors := mkErrors (replicate (Z.to_nat MESSAGE_CNT) (mkMsg 0 0 None 0)) 0 0 ∅ next.

Notation E := (M Errors).

Definition set_msgs (l : list ErrorMessage) (pos : Z) (s : Errors) : Errors := mkErrors l pos (es_errno s) (es_reports s) (es_next s).
Definition put_errno (n : Z) (s : Errors) : Errors := mkErrors (es_msgs s) (es_msgs_pos s) n (es_reports s) (es_next s).
Definition set_reports (m : gmap Z ReportBuffer) (next : Z) (s : Errors) : Errors := mkErrors (es_msgs s) (es_msgs_pos s) (es_errno s) m next.

Definition is_message (err : Z) : bool := (ERR_MESSAGE_MIN <=? err) && (err <=? ERR_MESSAGE_MAX).

(** [msgs[err - ERR_MESSAGE_MIN]] *)
Definition get_msg (err : Z) : E ErrorMessage :=
  let! l := gets es_msgs in
  match l !! Z.to_nat (err - ERR_MESSAGE_MIN) with Some m => ret m | None => fault end.
Definition put_msg (err : Z) (m : ErrorMessage) : E unit :=
  modify (fun s => set_msgs (<[Z.to_nat (err - ERR_MESSAGE_MIN) := m]> (es_msgs s)) (es_msgs_pos s) s).

Definition get_report (p : Z) : E ReportBuffer :=
  let! m := gets es_reports in
  match m !! p with Some r => ret r | None => fault end.
Definition put_report (p : Z) (r : ReportBuffer) : E unit :=
  modify (fun s => set_reports (<[p := r]> (es_reports s)) (es_next s) s).
(** Assignments to the public part. *)
Definition update_report (p : Z) (f : ErrorReport -> ErrorReport) : E unit :=
  let! r := get_report p in
  put_report p (mkBuffer (f (rb_pub r)) (rb_posix_code r) (rb_refs r) (rb_gets r)).
Definition free_report (p : Z) : E unit :=
  modify (fun s => set_reports (delete p (es_reports s)) (es_next s) s).
Definition new_report (r : ReportBuffer) : E Z :=
  let! p := gets es_next in
  modify (fun s => set_reports (<[p := r]> (es_reports s)) (p + 1) s) ;!
  ret p.

Definition rb_count (refs gets : Z) (r : ReportBuffer) : ReportBuffer := mkBuffer (rb_pub r) (rb_posix_code r) refs gets.

(** ** Messages *)

Definition release_report (p : Z) : E unit :=
  if p =? 0 then ret tt
  else
    let! r := get_report p in
    cassert (rb_gets r <? rb_refs r) ;!
    let refs := rb_refs r - 1 in
    if refs =? 0 then free_report p else put_report p (rb_count refs (rb_gets r) r).

(** The new message is the one of [errno]. *)
Definition alloc_msg (source : Z) : E unit :=
  let! pos := gets es_msgs_pos in
  let err := ERR_MESSAGE_MIN + pos in
  let! m := get_msg err in
  modify (put_errno err) ;!
  modify (fun s => set_msgs (es_msgs s) (if MESSAGE_CNT <=? pos + 1 then 0 else pos + 1) s) ;!
  release_report (em_report m) ;!
  put_msg err (mkMsg source 0 None 0).

(** The loop of [get_error_code]. *)
Fixpoint get_error_code (n : nat) (no : Z) : E Z :=
  match n with
  | O => nofuel
  | S n' =>
      if is_message no then
        let! m := get_msg no in
        if (em_source m =? SRC_REPORT) || (em_source m =? SRC_MESSAGE) then
          let! posix := (if em_report m =? 0 then ret 0 else let! r := get_report (em_report m) in ret (rb_posix_code r)) in
          if negb (posix =? 0) then ret posix else get_error_code n' (em_error m)
        else ret ERR_OTHER
      else ret no
  end.

(** The texts of the standard codes, in the order of the [switch]. *)
Definition std_messages : list (Z * list Z) :=
  [(ERR_OTHER, str "Unspecified failure"); (ERR_JSON_SYNTAX, str "JSON syntax error");
   (ERR_PROTOCOL, str "Protocol format error"); (ERR_BUFFER_OVERFLOW, str "Buffer overflow");
   (ERR_CHANNEL_CLOSED, str "Channel closed"); (ERR_COMMAND_CANCELLED, str "Command canceled");
   (STD_ERR_BASE + 7, str "Unknown peer"); (ERR_BASE64, str "Invalid BASE64 string"); (ERR_EOF, str "End of file");
   (STD_ERR_BASE + 10, str "Already stopped"); (STD_ERR_BASE + 11, str "Already exited");
   (STD_ERR_BASE + 12, str "Already running"); (STD_ERR_BASE + 13, str "Already attached");
   (STD_ERR_BASE + 14, str "Execution context is running"); (STD_ERR_BASE + 15, str "Invalid data size");
   (ERR_INV_CONTEXT, str "Invalid context"); (ERR_INV_ADDRESS, str "Invalid address");
   (STD_ERR_BASE + 18, str "Invalid expression"); (STD_ERR_BASE + 19, str "Format is not supported");
   (STD_ERR_BASE + 20, str "Invalid number"); (ERR_INV_DWARF, str "Error reading DWARF data");
   (STD_ERR_BASE + 22, str "Symbol not found"); (ERR_UNSUPPORTED, str "Unsupported command");
   (STD_ERR_BASE + 24, str "Invalid data type"); (ERR_INV_COMMAND, str "Command is not recognized");
   (ERR_INV_TRANSPORT, str "Invalid transport name"); (STD_ERR_BASE + 27, str "Invalid data cache state");
   (STD_ERR_BASE + 28, str "Context is not active"); (ERR_INV_CONT_OBJ, str "Invalid address of containing object")].

Fixpoint std_message (l : list (Z * list Z)) (err : Z) : option (list Z) :=
  match l with
  | [] => None
  | (code, text) :: l' => if err =? code then Some text else std_message l' err
  end.

(** [%08x] *)
Definition hex_lower (n : Z) : Z := if n <? 10 then ch_0 + n else ch_a + (n - 10).
Fixpoint hex_text (digits : nat) (n : Z) : list Z :=
  match digits with
  | O => []
  | S k => hex_text k (n / 16) ++ [hex_lower (n mod 16)]
  end.

(** ** Formatted messages *)

Section Messages.
(** [strerror]: its result, and whether it sets [errno]; [loc_gai_strerror]; and the text of a number
    in a style, [None] if [json_read_double] throws. *)
Variable strerror : Z -> option (list Z) * bool.
Variable gai_strerror : Z -> list Z.
Variable number_text : list Z -> list Z -> option (list Z).

Definition posix_strerror (err : Z) : list Z :=
  match strerror err with
  | (Some (c :: msg), false) => c :: msg
  | _ => str "Error 0x" ++ hex_text 8 (uwrap 32 err)
  end.

(** [json_read_alloc_string] of the text of a parameter, as a C string. *)
Definition param_string (param : list Z) : outcome (option (list Z)) :=
  match fst (json_read_alloc_string (S (length param)) (mkJson (create_byte_array_input_stream param) [] 0%N)) with
  | Val x => Val (option_map cstr x)
  | Throw e => Throw e
  | Fault => Fault
  | NoFuel => NoFuel
  end.

(** The result is what is added to the message. *)
Definition append_format_parameter (type style : list Z) (param : option (list Z)) : E (list Z) :=
  match param with
  | None => ret []
  | Some p =>
      if deref p =? ch_quote then
        match param_string p with
        | Val x => ret (default [] x)
        | Throw e => modify (put_errno e) ;! ret p
        | Fault => fault
        | NoFuel => nofuel
        end
      else if streq type (str "number") then
        match number_text style p with
        | Some t => ret t
        | None => modify (put_errno ERR_JSON_SYNTAX) ;! ret p
        end
      else ret p
  end.

(** The parts of a format: digits of an index, and the names of a type and a style, whose array has 16
    characters; what follows. *)
Fixpoint read_index (fmt : list Z) (index : Z) : Z * list Z :=
  match fmt with
  | ch :: fmt' => if is_digit ch then read_index fmt' (swrap 32 (swrap 32 (index * 10) + (ch - ch_0))) else (index, fmt)
  | [] => (index, [])
  end.

Fixpoint read_letters (fmt acc : list Z) : list Z * list Z :=
  match fmt with
  | ch :: fmt' => if (ch_a <=? ch) && (ch <=? ch_z) then read_letters fmt' (acc ++ [ch]) else (take 15 acc, fmt)
  | [] => (take 15 acc, [])
  end.

Fixpoint skip_to_close (fmt : list Z) : list Z :=
  match fmt with
  | ch :: fmt' => if ch =? ch_rcur then fmt' else skip_to_close fmt'
  | [] => []
  end.

(** [params[index]] *)
Definition get_param (params : list (option (list Z))) (index : Z) : E (option (list Z)) :=
  if index <? 0 then fault
  else match params !! Z.to_nat index with Some p => ret p | None => fault end.

Notation ch_squote := 39 (only parsing).

Fixpoint format_loop (n : nat) (fmt : list Z) (in_quotes : bool) (params : list (option (list Z))) (msg : list Z) : E (list Z) :=
  match n with
  | O => nofuel
  | S n' =>
      match fmt with
      | [] => ret msg
      | ch :: fmt' =>
          if in_quotes && (ch =? ch_squote) then format_loop n' fmt' false params msg
          else if in_quotes then format_loop n' fmt' in_quotes params (msg ++ [ch])
          else if (ch =? ch_squote) && (deref fmt' =? ch_squote) then format_loop n' (tl fmt') in_quotes params (msg ++ [ch])
          else if ch =? ch_squote then format_loop n' fmt' true params msg
          else if ch =? ch_lcur then
            let '(index, f) := read_index fmt' 0 in
            let '(type, style, f) :=
              (if deref f =? ch_comma then
                 let '(type, f) := read_letters (tl f) [] in
                 if deref f =? ch_comma then let '(style, f) := read_letters (tl f) [] in (type, style, f) else (type, [], f)
               else ([], [], f)) in
            let! text :=
              (if index <? Z.of_nat (length params) then
                 let! p := get_param params index in
                 append_format_parameter type style p
               else ret []) in
            format_loop n' (skip_to_close f) in_quotes params (msg ++ text)
          else format_loop n' fmt' in_quotes params (msg ++ [ch])
      end
  end.

Definition format_error_report_message (fmt : list Z) (params : list (option (list Z))) : E (list Z) :=
  format_loop (S (length fmt)) fmt false params [].

(** The result may be a null pointer. *)
Fixpoint errno_to_str (n : nat) (err : Z) : E (option (list Z)) :=
  match n with
  | O => nofuel
  | S n' =>
      match std_message std_messages err with
      | Some text => ret (Some text)
      | None =>
          if err =? 0 then ret (Some (str "Success"))
          else if is_message err then
            let! m := get_msg err in
            let! r := (if em_report m =? 0 then ret None else let! r := get_report (em_report m) in ret (Some (rb_pub r))) in
            match r with
            | Some (mkReport _ (Some fmt) params _ _) =>
                let! msg := format_error_report_message fmt params in
                ret (Some (cstr msg))
            | _ =>
                if em_source m =? SRC_GAI then ret (Some (gai_strerror (em_error m)))
                else if em_source m =? SRC_MESSAGE then ret (em_text m)
                else if em_source m =? SRC_REPORT then errno_to_str n' (em_error m)
                else ret (Some (posix_strerror err))
            end
          else ret (Some (posix_strerror err))
      end
  end.

(** ** Setting errors *)

(** Enough for the codes of messages to end at a code of another kind, if they do. *)
Definition code_fuel : nat := S (Z.to_nat MESSAGE_CNT).

Definition set_errno (no : Z) (msg : option (list Z)) : E Z :=
  modify (put_errno no) ;!
  match msg with
  | Some msg =>
      if no =? 0 then ret no
      else
        alloc_msg SRC_MESSAGE ;!
        let! err := gets es_errno in
        let! code := get_error_code code_fuel no in
        put_msg err (mkMsg SRC_MESSAGE code None 0) ;!
        let! text :=
          (if no =? ERR_OTHER then ret msg
           else
             let! text1 := errno_to_str code_fuel no in
             match text1 with Some text1 => ret (msg ++ str ". " ++ text1) | None => fault end) in
        put_msg err (mkMsg SRC_MESSAGE code (Some text) 0) ;!
        modify (put_errno err) ;!
        ret err
  | None => ret no
  end.

(** [buf]: the formatted text, [None] if [vsnprintf] fails. *)
Definition set_fmt_errno (no : Z) (buf : option (list Z)) : E Z :=
  let! err := (match buf with Some (c :: l) => set_errno no (Some (c :: l)) | _ => ret no end) in
  modify (put_errno err) ;!
  ret err.

Definition set_gai_errno (no : Z) : E Z :=
  modify (put_errno no) ;!
  (if no =? 0 then ret tt
   else
     alloc_msg SRC_GAI ;!
     let! err := gets es_errno in
     put_msg err (mkMsg SRC_GAI no None 0)) ;!
  gets es_errno.

Definition set_error_report_errno (p : Z) : E Z :=
  modify (put_errno 0) ;!
  (if p =? 0 then ret tt
   else
     alloc_msg SRC_REPORT ;!
     let! err := gets es_errno in
     let! r := get_report p in
     put_msg err (mkMsg SRC_REPORT (swrap 32 (er_code (rb_pub r) + STD_ERR_BASE)) None p) ;!
     put_report p (rb_count (rb_refs r + 1) (rb_gets r) r)) ;!
  gets es_errno.

(** ** Reports *)

Definition add_report_prop (name value : list Z) (r : ErrorReport) : ErrorReport :=
  mkReport (er_code r) (er_format r) (er_params r) (er_time_stamp r) ((name, value) :: er_props r).

(** The values are the texts of json.c. *)
Definition add_report_prop_int (name : list Z) (n : Z) (r : ErrorReport) : ErrorReport := add_report_prop name (ulong_text (uwrap 64 n)) r.
Definition add_report_prop_str (name s : list Z) (r : ErrorReport) : ErrorReport := add_report_prop name (string_text (Some s)) r.

(** A code of the system: its [posix_code], the report and the code of the report. *)
Definition alt_code (err : Z) (r : ErrorReport) : Z * ErrorReport * Z :=
  if (err <? STD_ERR_BASE) || (ERR_MESSAGE_MAX <? err) then
    (err, add_report_prop_str (str "AltOrg") (str "Linux") (add_report_prop_int (str "AltCode") err r), ERR_OTHER)
  else (0, r, err).

(** [now]: the time in milliseconds, if [clock_gettime] succeeds. *)
Definition get_error_report (now : option Z) (err : Z) : E Z :=
  let! m := (if is_message err then let! m := get_msg err in ret (Some m) else ret None) in
  let p := match m with Some m => em_report m | None => 0 end in
  if negb (p =? 0) then
    let! r := get_report p in
    put_report p (rb_count (rb_refs r + 1) (rb_gets r + 1) r) ;!
    ret p
  else if err =? 0 then ret 0
  else
    let! fmt := errno_to_str code_fuel err in
    match fmt with
    | None => fault
    | Some fmt =>
        let err1 := (match m with Some m => if em_source m =? SRC_MESSAGE then em_error m else ERR_OTHER | None => err end) in
        let r := mkReport 0 (Some fmt) [] (default 0 now) [] in
        let '(posix, r, err2) := alt_code err1 r in
        cassert (STD_ERR_BASE <=? err2) ;!
        cassert (err2 <? ERR_MESSAGE_MIN) ;!
        let r := mkReport (err2 - STD_ERR_BASE) (er_format r) (er_params r) (er_time_stamp r) (er_props r) in
        let! p := new_report (mkBuffer r posix (match m with Some _ => 2 | None => 1 end) 1) in
        (match m with
         | Some m => cassert (em_report m =? 0) ;! put_msg err (mkMsg (em_source m) (em_error m) (em_text m) p)
         | None => ret tt
         end) ;!
        ret p
    end.

Definition empty_report : ErrorReport := mkReport 0 None [] 0 [].

Definition create_error_report : E Z := new_report (mkBuffer empty_report 0 1 1).

Definition release_error_report (p : Z) : E unit :=
  if p =? 0 then ret tt
  else
    let! r := get_report p in
    cassert (0 <? rb_gets r) ;!
    put_report p (rb_count (rb_refs r) (rb_gets r - 1) r) ;!
    release_report p.

End Messages.

(** ** Comparison *)

(** Strings that may be null pointers; equal pointers are equal strings. *)
Definition same_str (x y : option (list Z)) : bool :=
  match x, y with
  | None, None => true
  | Some a, Some b => streq a b
  | _, _ => false
  end.

Fixpoint same_params (x y : list (option (list Z))) : bool :=
  match x, y with
  | a :: x', b :: y' => same_str a b && same_params x' y'
  | _, _ => true
  end.

(** The walk along two lists of properties. *)
Fixpoint same_props (px py : list (list Z * list Z)) : bool :=
  match px, py with
  | [], [] => true
  | (nx, vx) :: px', (ny, vy) :: py' => streq nx ny && streq vx vy && same_props px' py'
  | _, _ => false
  end.

(** Null pointers are [None]; both lists of properties are those of [x]. *)
Definition compare_error_reports (x y : option ErrorReport) : bool :=
  match x, y with
  | None, None => true
  | Some x, Some y =>
      (er_code x =? er_code y) && same_str (er_format x) (er_format y) &&
      (length (er_params x) =? length (er_params y))%nat && same_params (er_params x) (er_params y) &&
      same_props (er_props x) (er_props x)
  | _, _ => false
  end.
