(* ===== verification/ErrorObjects.v ===== *)
(** * Error objects in messages (framework/json.c)

    Reports of errors.c as JSON objects. *)

From S2P Require Import Prelude Streams JsonWrite JsonRead JsonStruct Errors.

(** A stream and the errors. *)
Record WithErrors (S : Type) := mkWE { we_stream : S; we_errors : Errors }.
Arguments mkWE {S}.
Arguments we_stream {S}.
Arguments we_errors {S}.

Definition on_stream {S A} (m : M S A) : M (WithErrors S) A := zoom we_stream (fun x s => mkWE x (we_errors s)) m.
Definition on_errors {S A} (m : M Errors A) : M (WithErrors S) A := zoom we_errors (fun e s => mkWE (we_stream s) e) m.

(** A stream of the clients of errors is an output stream. *)
#[export] Instance with_errors_stream {S} `{OutputStream S} : OutputStream (WithErrors S) := {
  supports_zero_copy w := supports_zero_copy (we_stream w);
  os_null w := os_null (we_stream w);
  os_room w := os_room (we_stream w);
  os_store bs w := mkWE (os_store bs (we_stream w)) (we_errors w);
  os_write b := on_stream (os_write b);
  os_write_block bs := on_stream (os_write_block bs) }.

(** ** Reading *)

Section Read.
Context {IS : Type} `{InputStream IS}.
Variable fuel : nat.

Notation R := (M (WithErrors (Json IS))).

Definition read_errno_param (params : list (option (list Z))) : M (Json IS) (list (option (list Z))) :=
  let! o := json_read_object fuel in
  ret (params ++ [Some (cstr o)]).

(** The member of an error object with a name.  The parameters are added to the report when their array has been read, and
    a property when its value has been read.  If an exception is thrown before, the C code has added some of them, but nothing refers to
    this report any more. *)
Definition read_error_member (name : list Z) (p : Z) : R unit :=
  if streq name (str "Code") then
    let! n := on_stream (json_read_long fuel) in
    on_errors (update_report p (fun r => mkReport (swrap 32 n) (er_format r) (er_params r) (er_time_stamp r) (er_props r)))
  else if streq name (str "Time") then
    let! n := on_stream (json_read_uint64 fuel) in
    on_errors (update_report p (fun r => mkReport (er_code r) (er_format r) (er_params r) n (er_props r)))
  else if streq name (str "Format") then
    let! s := on_stream (json_read_alloc_string fuel) in
    on_errors (update_report p (fun r => mkReport (er_code r) (option_map cstr s) (er_params r) (er_time_stamp r) (er_props r)))
  else if streq name (str "Params") then
    let! (_, l) := on_stream (json_read_array fuel read_errno_param []) in
    on_errors (update_report p (fun r => mkReport (er_code r) (er_format r) (er_params r ++ l) (er_time_stamp r) (er_props r)))
  else
    let! o := on_stream (json_read_object fuel) in
    on_errors (update_report p (add_report_prop name (cstr o))).

(** The loop of [read_error_object]: [p] is the report, 0 before the first member. *)
Fixpoint read_error_loop (n : nat) (p : Z) : R Z :=
  match n with
  | O => nofuel
  | S n' =>
      let! (_, name) := on_stream (json_read_string fuel 256) in
      on_stream (read_whitespace fuel) ;!
      on_stream (json_test_char fuel ch_colon) ;!
      let! p := (if p =? 0 then on_errors create_error_report else ret p) in
      read_error_member (cstr name) p ;!
      let! ch := on_stream (read_token fuel) in
      if ch =? ch_comma then read_error_loop n' p
      else on_stream (check_char ch ch_rcur) ;! ret p
  end.

Definition read_error_object : R Z :=
  let! ch := on_stream (read_token fuel) in
  if ch =? ch_n then on_stream (json_test_chars fuel [ch_u; ch_l; ch_l]) ;! ret 0
  else
    on_stream (check_char ch ch_lcur) ;!
    let! c := on_stream (json_peek fuel) in
    let! p := (if c =? ch_rcur then on_stream read_stream ;! ret 0 else read_error_loop fuel 0) in
    if p =? 0 then ret 0
    else
      let! r := on_errors (get_report p) in
      let! no := (if negb (er_code (rb_pub r) =? 0) then on_errors (set_error_report_errno p) else ret 0) in
      on_errors (release_error_report p) ;!
      ret no.

Definition read_errno : R Z :=
  let! c := on_stream (json_peek fuel) in
  let! no := (if negb (c =? MARKER_EOA) then read_error_object else ret 0) in
  on_stream (json_test_char fuel MARKER_EOA) ;!
  ret no.
End Read.

(** ** Writing *)

Section Write.
Context {OS : Type} `{OutputStream OS}.
Variable strerror : Z -> option (list Z) * bool.
Variable gai_strerror : Z -> list Z.
Variable number_text : list Z -> list Z -> option (list Z).

Notation W := (M (WithErrors OS)).
Notation get_error_report := (get_error_report strerror gai_strerror number_text).

(** [write_string] of a pointer. *)
Definition write_pointer (s : option (list Z)) : M OS unit := match s with Some s => write_string s | None => fault end.

(** [write_stream(out, ','); json_write_string(out, name); write_stream(out, ':');] *)
Definition write_member (name : list Z) : M OS unit :=
  write_stream ch_comma ;! json_write_string (Some name) ;! write_stream ch_colon.

Fixpoint write_params (n : nat) (l : list (option (list Z))) : M OS unit :=
  match l with
  | [] => ret tt
  | p :: l' =>
      (if (0 <? n)%nat then write_stream ch_comma else ret tt) ;!
      write_pointer p ;!
      write_params (S n) l'
  end.

Fixpoint write_props (l : list (list Z * list Z)) : M OS unit :=
  match l with
  | [] => ret tt
  | (name, value) :: l' => write_member name ;! write_string value ;! write_props l'
  end.

Definition write_error_props (r : ErrorReport) : M OS unit :=
  (if negb (er_time_stamp r =? 0) then write_member (str "Time") ;! json_write_uint64 (er_time_stamp r) else ret tt) ;!
  (match er_format r with
   | Some fmt => write_member (str "Format") ;! json_write_string (Some fmt)
   | None => ret tt
   end) ;!
  (if (0 <? length (er_params r))%nat then
     write_member (str "Params") ;! write_stream ch_lbra ;! write_params 0 (er_params r) ;! write_stream ch_rbra
   else ret tt) ;!
  write_props (er_props r).

Definition write_error_object (now : option Z) (err : Z) : W unit :=
  let! p := on_errors (get_error_report now err) in
  if p =? 0 then on_stream (write_string (str "null"))
  else
    let! r := on_errors (get_report p) in
    on_stream (write_stream ch_lcur ;! json_write_string (Some (str "Code")) ;! write_stream ch_colon ;!
               json_write_long (er_code (rb_pub r)) ;! write_error_props (rb_pub r)) ;!
    on_errors (release_error_report p) ;!
    on_stream (write_stream ch_rcur).

Definition write_service_error (now : option Z) (err : Z) (service_name : list Z) (service_error : Z) : W unit :=
  let! p := on_errors (get_error_report now err) in
  (if p =? 0 then ret tt
   else
     let! r := on_errors (get_report p) in
     on_stream (write_stream ch_lcur ;! json_write_string (Some (str "Service")) ;! write_stream ch_colon ;!
                json_write_string (Some service_name) ;! write_stream ch_comma ;! json_write_string (Some (str "Code")) ;!
                write_stream ch_colon ;! json_write_long service_error ;! write_error_props (rb_pub r)) ;!
     on_errors (release_error_report p) ;!
     on_stream (write_stream ch_rcur)) ;!
  on_stream (write_stream 0).
End Write.
