(* ===== verification/ErrorProps.v ===== *)
(** * Error numbers and counts of references (Errors.v, framework/errors.c)

    What an error number means, how long it means that, and that reports are freed when nothing refers to
    them any more. *)

From S2P Require Import Prelude Streams JsonWrite JsonRead Errors.

(** ** Computations that change nothing but [errno] *)

Definition errno_only {A} (m : E A) (o : outcome A) : Prop := forall e, exists n, m e = (o, put_errno n e).

Lemma put_errno_self e : put_errno (es_errno e) e = e.
Proof. by destruct e. Qed.

Lemma errno_only_ret {A} (a : A) : errno_only (ret a) (Val a).
Proof. intros e. exists (es_errno e). by rewrite put_errno_self. Qed.

Lemma errno_only_fault {A} : errno_only (A := A) fault Fault.
Proof. intros e. exists (es_errno e). by rewrite put_errno_self. Qed.

Lemma errno_only_set {A} (n : Z) (m : E A) o : errno_only m o -> errno_only (modify (put_errno n) ;! m) o.
Proof. intros Hm e. destruct (Hm (put_errno n e)) as [k Hk]. exists k. unfold bind, modify. rewrite Hk. done. Qed.

Lemma errno_only_bind {A B} (m : E A) (k : A -> E B) o : errno_only m o ->
  (forall a, o = Val a -> exists o', errno_only (k a) o') -> exists o', errno_only (bind m k) o'.
Proof.
  intros Hm Hk. destruct o as [a|e0| |].
  - destruct (Hk a eq_refl) as [o' Ho]. exists o'. intros e. destruct (Hm e) as [n1 H1]. destruct (Ho (put_errno n1 e)) as [n2 H2].
    exists n2. unfold bind. by rewrite H1, H2.
  - exists (Throw e0). intros e. destruct (Hm e) as [n1 H1]. exists n1. unfold bind. by rewrite H1.
  - exists Fault. intros e. destruct (Hm e) as [n1 H1]. exists n1. unfold bind. by rewrite H1.
  - exists NoFuel. intros e. destruct (Hm e) as [n1 H1]. exists n1. unfold bind. by rewrite H1.
Qed.

Lemma errno_only_value {A} (m : E A) : (exists o, errno_only m o) -> forall e1, errno_only m (fst (m e1)).
Proof.
  intros [o Ho] e1. destruct (Ho e1) as [n1 H1]. rewrite H1. exact Ho.
Qed.

Section Text.
Variable strerror : Z -> option (list Z) * bool.
Variable gai_strerror : Z -> list Z.
Variable number_text : list Z -> list Z -> option (list Z).

Notation errno_to_str := (errno_to_str strerror gai_strerror number_text).
Notation set_errno := (set_errno strerror gai_strerror number_text).
Notation format_error_report_message := (format_error_report_message number_text).

Lemma append_errno_only type style p : exists o, errno_only (append_format_parameter number_text type style p) o.
Proof.
  unfold append_format_parameter. destruct p as [p|]; [|eexists; apply errno_only_ret]. destruct (deref p =? ch_quote).
  - destruct (param_string p) as [x|e| |].
    + eexists. apply errno_only_ret.
    + eexists. apply errno_only_set, errno_only_ret.
    + eexists. apply errno_only_fault.
    + exists NoFuel. intros e. exists (es_errno e). by rewrite put_errno_self.
  - destruct (streq type _); [|eexists; apply errno_only_ret]. destruct (number_text style p).
    + eexists. apply errno_only_ret.
    + eexists. apply errno_only_set, errno_only_ret.
Qed.

Lemma format_errno_only n : forall fmt q params msg, exists o, errno_only (format_loop number_text n fmt q params msg) o.
Proof.
  induction n as [|n IH]; intros fmt q params msg.
  - exists NoFuel. intros e. exists (es_errno e). by rewrite put_errno_self.
  - cbn [format_loop]. destruct fmt as [|ch fmt]; [eexists; apply errno_only_ret|].
    destruct (q && _); [apply IH|]. destruct q; [apply IH|]. destruct (_ && _); [apply IH|]. destruct (ch =? 39); [apply IH|].
    destruct (ch =? ch_lcur); [|apply IH]. destruct (read_index fmt 0) as [index f].
    match goal with |- context [let '(a, b) := ?m in _] => destruct m as [[type style] f1] end.
    eapply (errno_only_bind (if index <? Z.of_nat (length params) then
      let! p := get_param params index in append_format_parameter number_text type style p else ret [])); [|intros; apply IH].
    apply (errno_only_value _) with (e1 := errors_init 1). destruct (_ <? _); [|eexists; apply errno_only_ret]. unfold get_param.
    destruct (index <? 0); [exists Fault; intros e; exists (es_errno e); unfold bind, fault; by rewrite put_errno_self|].
    destruct (params !! _) as [p|]; [|exists Fault; intros e; exists (es_errno e); unfold bind, fault; by rewrite put_errno_self].
    destruct (append_errno_only type style p) as [o Ho]. exists o. exact Ho.
Qed.

(** The text of a format with its parameters. *)
Definition format_text (fmt : list Z) (params : list (option (list Z))) : outcome (list Z) :=
  fst (format_error_report_message fmt params (errors_init 1)).

Lemma format_runs fmt params : errno_only (format_error_report_message fmt params) (format_text fmt params).
Proof. apply errno_only_value. apply format_errno_only. Qed.

(** ** The meaning of a number *)

Definition msg_at (e : Errors) (no : Z) : ErrorMessage := nth (Z.to_nat (no - ERR_MESSAGE_MIN)) (es_msgs e) (mkMsg 0 0 None 0).
Definition report_at (e : Errors) (no : Z) : option ErrorReport :=
  if em_report (msg_at e no) =? 0 then None else option_map rb_pub (es_reports e !! em_report (msg_at e no)).

(** The text of a code that is not a message. *)
Definition code_text (err : Z) : list Z :=
  match std_message std_messages err with
  | Some text => text
  | None => if err =? 0 then str "Success" else posix_strerror strerror err
  end.

Definition text_of (e : Errors) (no : Z) : outcome (option (list Z)) :=
  if is_message no then
    let m := msg_at e no in
    match report_at e no with
    | Some (mkReport _ (Some fmt) params _ _) =>
        match format_text fmt params with
        | Val t => Val (Some (cstr t))
        | Throw c => Throw c
        | Fault => Fault
        | NoFuel => NoFuel
        end
    | _ =>
        if em_source m =? SRC_GAI then Val (Some (gai_strerror (em_error m)))
        else if em_source m =? SRC_MESSAGE then Val (em_text m)
        else if em_source m =? SRC_REPORT then Val (Some (code_text (em_error m)))
        else Val (Some (posix_strerror strerror no))
    end
  else Val (Some (code_text no)).

Definition code_of (e : Errors) (no : Z) : Z :=
  if is_message no then
    let m := msg_at e no in
    if (em_source m =? SRC_REPORT) || (em_source m =? SRC_MESSAGE) then
      match es_reports e !! em_report m with
      | Some r => if (em_report m =? 0) || (rb_posix_code r =? 0) then em_error m else rb_posix_code r
      | None => em_error m
      end
    else ERR_OTHER
  else no.

(** ** Invariant *)

Definition count (p : Z) (l : list Z) : Z := Z.of_nat (length (List.filter (Z.eqb p) l)).
Definition slots (e : Errors) : list Z := map em_report (es_msgs e).

(** [held]: the pointers clients have got and not released.  The codes of messages are not numbers of
    messages, which holds as long as reports from elsewhere have codes of the standard. *)
Record errors_ok (held : list Z) (e : Errors) : Prop := {
  ek_msgs : Z.of_nat (length (es_msgs e)) = MESSAGE_CNT;
  ek_next : 0 < es_next e;
  ek_pos : 0 <= es_msgs_pos e < MESSAGE_CNT;
  ek_codes : Forall (fun m => is_message (em_error m) = false) (es_msgs e);
  ek_held : Forall (fun p => is_Some (es_reports e !! p)) held;
  ek_slots : Forall (fun p => p <> 0 -> is_Some (es_reports e !! p)) (slots e);
  ek_reports p r : es_reports e !! p = Some r ->
    0 < p < es_next e /\ rb_gets r = count p held /\ rb_refs r = count p held + count p (slots e) /\ 0 < rb_refs r;
  ek_posix p r : es_reports e !! p = Some r -> is_message (rb_posix_code r) = false }.

Lemma count_cons p q l : count p (q :: l) = (if p =? q then 1 else 0) + count p l.
Proof. unfold count. cbn [List.filter]. destruct (p =? q); cbn [length]; lia. Qed.

Lemma count_nonneg p l : 0 <= count p l.
Proof. unfold count. lia. Qed.

Lemma count_pos p l : p ∈ l -> 0 < count p l.
Proof.
  induction l as [|q l IH]; [by intros ?%elem_of_nil|]. rewrite count_cons. pose proof (count_nonneg p l).
  intros [->|Hp]%elem_of_cons; [rewrite Z.eqb_refl; lia|]. specialize (IH Hp). destruct (p =? q); lia.
Qed.

Lemma count_none p l : p ∉ l -> count p l = 0.
Proof.
  induction l as [|q l IH]; [done|]. intros [Hq Hl]%not_elem_of_cons. rewrite count_cons, (proj2 (Z.eqb_neq p q)), IH by done. done.
Qed.

Lemma count_app p l k : count p (l ++ k) = count p l + count p k.
Proof. unfold count. rewrite List.filter_app, length_app. lia. Qed.

Lemma count_insert p l i q q0 : l !! i = Some q0 -> count p (<[i := q]> l) = count p l - (if p =? q0 then 1 else 0) + (if p =? q then 1 else 0).
Proof.
  intros Hi. rewrite insert_take_drop by (by eapply lookup_lt_Some). rewrite <- (take_drop_middle l i q0) at 3 by done.
  rewrite !count_app, !count_cons. lia.
Qed.

(** One element of a list without its first occurrence. *)
Fixpoint drop_one (p : Z) (l : list Z) : list Z :=
  match l with
  | [] => []
  | q :: l' => if q =? p then l' else q :: drop_one p l'
  end.

Lemma count_drop_one q p l : p ∈ l -> count q (drop_one p l) = count q l - (if q =? p then 1 else 0).
Proof.
  induction l as [|x l IH]; [by intros ?%elem_of_nil|]. cbn [drop_one]. rewrite count_cons.
  destruct (Z.eqb_spec x p) as [->|Hx]; [lia|]. intros [->|Hp]%elem_of_cons; [done|]. rewrite count_cons, IH by done. lia.
Qed.

Lemma drop_one_subset p l q : q ∈ drop_one p l -> q ∈ l.
Proof.
  induction l as [|x l IH]; [done|]. cbn [drop_one]. destruct (x =? p); [by right|]. intros [->|Hq]%elem_of_cons; [left|right; by apply IH].
Qed.
(** ** Runs *)

Definition slot_of (no : Z) : nat := Z.to_nat (no - ERR_MESSAGE_MIN).

Lemma slot_lookup held e no : errors_ok held e -> is_message no = true -> es_msgs e !! slot_of no = Some (msg_at e no).
Proof.
  intros [Hl _ _ _ _ _ _ _] Hm. unfold is_message in Hm. apply andb_true_iff in Hm as [Hlo%Z.leb_le Hhi%Z.leb_le].
  unfold msg_at. fold (slot_of no). rewrite nth_lookup. destruct (lookup_lt_is_Some_2 (es_msgs e) (slot_of no)) as [m ->]; [|done].
  unfold slot_of. unfold MESSAGE_CNT in Hl. lia.
Qed.

Lemma get_msg_runs held e no : errors_ok held e -> is_message no = true -> runs (get_msg no) e (msg_at e no) e.
Proof.
  intros Hok Hm. eapply runs_bind; [apply runs_gets|]. cbn beta. fold (slot_of no). rewrite (slot_lookup _ _ _ Hok Hm). apply runs_ret.
Qed.

Lemma get_report_runs e p r : es_reports e !! p = Some r -> runs (get_report p) e r e.
Proof. intros Hp. eapply runs_bind; [apply runs_gets|]. cbn beta. rewrite Hp. apply runs_ret. Qed.

Lemma slot_message pos : 0 <= pos < MESSAGE_CNT -> is_message (ERR_MESSAGE_MIN + pos) = true /\ slot_of (ERR_MESSAGE_MIN + pos) = Z.to_nat pos.
Proof.
  unfold is_message, slot_of, MESSAGE_CNT. intros Hp. split; [apply andb_true_iff; split; apply Z.leb_le; lia|f_equal; lia].
Qed.

(** The same reports, with other counts, and new ones. *)
Definition same_reports (e e' : Errors) : Prop := forall p r', p < es_next e -> es_reports e' !! p = Some r' ->
  exists r, es_reports e !! p = Some r /\ rb_pub r' = rb_pub r /\ rb_posix_code r' = rb_posix_code r.

Lemma same_reports_refl e e' : es_reports e' = es_reports e -> same_reports e e'.
Proof. intros E p r _ Hp. rewrite E in Hp. by exists r. Qed.

Lemma slots_insert e i m : map em_report (<[i := m]> (es_msgs e)) = <[i := em_report m]> (slots e).
Proof. apply list_fmap_insert. Qed.

(** A reference to the report [p] is dropped; [refs] are those that are left in the clients and the array. *)
Lemma release_runs e p held sl : (forall q r, es_reports e !! q = Some r -> 0 < q < es_next e /\ rb_gets r = count q held /\
    rb_refs r = count q held + count q sl + (if q =? p then 1 else 0) /\ 0 < rb_refs r) ->
  p = 0 \/ is_Some (es_reports e !! p) ->
  exists reports', runs (release_report p) e tt (set_reports reports' (es_next e) e) /\
    (forall q r', reports' !! q = Some r' -> exists r, es_reports e !! q = Some r /\ rb_pub r' = rb_pub r /\ rb_posix_code r' = rb_posix_code r /\
      rb_gets r' = count q held /\ rb_refs r' = count q held + count q sl /\ 0 < rb_refs r' /\ 0 < q < es_next e) /\
    (forall q, 0 < count q held + count q sl -> is_Some (es_reports e !! q) -> is_Some (reports' !! q)).
Proof.
  intros Hr Hp. unfold release_report. destruct (Z.eqb_spec p 0) as [->|Hp0].
  - exists (es_reports e). split; [by destruct e|]. split; [|done]. intros q r Hq. destruct (Hr q r Hq) as (? & ? & E & ?).
    rewrite (proj2 (Z.eqb_neq q 0)) in E by lia. exists r. repeat (split; [done|]). split; [lia|done].
  - destruct Hp as [|[r Hp]]; [done|]. destruct (Hr p r Hp) as (Hpn & Hg & Hf & Hf0). rewrite Z.eqb_refl in Hf.
    pose proof (count_nonneg p sl) as Hn1. pose proof (count_nonneg p held) as Hn2.
    assert (Hother : forall q r', q <> p -> es_reports e !! q = Some r' -> rb_gets r' = count q held /\ rb_refs r' = count q held + count q sl /\ 0 < rb_refs r' /\ 0 < q < es_next e).
    { intros q r' Hq Hr'. destruct (Hr q r' Hr') as (? & ? & E & ?). rewrite (proj2 (Z.eqb_neq q p)) in E by done. repeat split; lia. }
    destruct (Z.eqb_spec (rb_refs r - 1) 0) as [E0|E0].
    + exists (delete p (es_reports e)). split; [|split].
      * eapply runs_bind; [by apply get_report_runs|]. eapply runs_bind; [apply runs_cassert; apply Z.ltb_lt; lia|].
        cbv zeta. rewrite E0. reflexivity.
      * intros q r' [Hq Hr']%lookup_delete_Some. exists r'. destruct (Hother q r') as (? & ? & ? & ?); done.
      * intros q Hc Hq. rewrite lookup_delete_ne; [done|]. intros <-. lia.
    + exists (<[p := rb_count (rb_refs r - 1) (rb_gets r) r]> (es_reports e)). split; [|split].
      * eapply runs_bind; [by apply get_report_runs|]. eapply runs_bind; [apply runs_cassert; apply Z.ltb_lt; lia|].
        cbv zeta. rewrite (proj2 (Z.eqb_neq _ _) E0). reflexivity.
      * intros q r' [[<- <-]|[Hq Hr']]%lookup_insert_Some.
        -- exists r. cbn. repeat (split; [done|]). repeat split; lia.
        -- exists r'. destruct (Hother q r') as (? & ? & ? & ?); done.
      * intros q _ Hq. apply lookup_insert_is_Some'. by right.
Qed.

Lemma alloc_slot_runs held e src : errors_ok held e ->
  let pos := es_msgs_pos e in
  exists e', runs (alloc_msg src) e tt e' /\ errors_ok held e' /\ same_reports e e' /\ es_errno e' = ERR_MESSAGE_MIN + pos /\
    es_msgs e' = <[Z.to_nat pos := mkMsg src 0 None 0]> (es_msgs e) /\ es_next e' = es_next e /\
    es_msgs_pos e' = (if MESSAGE_CNT <=? pos + 1 then 0 else pos + 1).
Proof.
  intros Hok pos. pose proof Hok as [Hl Hnx Hp Hc Hh Hs Hr Hpx]. fold pos in Hp. destruct (slot_message pos Hp) as [Hm Hslot].
  pose proof (slot_lookup held e _ Hok Hm) as Hm0. rewrite Hslot in Hm0. set (m := msg_at e (ERR_MESSAGE_MIN + pos)) in *.
  assert (Hsl : slots e !! Z.to_nat pos = Some (em_report m)) by (unfold slots; by rewrite list_lookup_fmap, Hm0).
  set (sl := <[Z.to_nat pos := 0]> (slots e)). set (pos' := if MESSAGE_CNT <=? pos + 1 then 0 else pos + 1).
  set (e1 := set_msgs (es_msgs e) pos' (put_errno (ERR_MESSAGE_MIN + pos) e)).
  destruct (release_runs e1 (em_report m) held sl) as (reports' & R & Hr1 & Hr2).
  { intros q r Hq. destruct (Hr q r Hq) as (H1 & H2 & H3 & H4). split; [exact H1|]. split; [done|]. split; [|done]. unfold sl.
    rewrite (count_insert q _ _ _ _ Hsl), (proj2 (Z.eqb_neq q 0)), H3 by lia. lia. }
  { rewrite Forall_lookup in Hs. destruct (decide (em_report m = 0)) as [|Hn]; [by left|right; by eapply Hs]. }
  set (e2 := set_msgs (<[Z.to_nat pos := mkMsg src 0 None 0]> (es_msgs e)) pos' (set_reports reports' (es_next e1) e1)).
  assert (Esl : slots e2 = sl) by (unfold slots, e2; cbn [es_msgs set_msgs]; apply slots_insert).
  exists e2. split; [|split; [|split; [|split; [|split; [|split]]]]]; try done.
  - eapply runs_bind; [apply runs_gets|]. cbv zeta. fold pos. eapply runs_bind; [by eapply get_msg_runs|].
    eapply runs_bind; [apply runs_modify|]. eapply runs_bind; [apply runs_modify|]. eapply runs_bind; [exact R|].
    unfold put_msg. fold (slot_of (ERR_MESSAGE_MIN + pos)). rewrite Hslot. reflexivity.
  - constructor; try rewrite Esl.
    + cbn. by rewrite length_insert.
    + exact Hnx.
    + cbn. unfold pos', MESSAGE_CNT in *. destruct (Z.leb_spec (ERR_MESSAGE_MAX - ERR_MESSAGE_MIN + 1) (pos + 1)); lia.
    + cbn. by apply Forall_insert.
    + rewrite Forall_forall in Hh |- *. intros p Hin. apply Hr2; [|by apply Hh]. pose proof (count_pos p held Hin). pose proof (count_nonneg p sl). lia.
    + apply Forall_forall. intros p Hin Hp0. pose proof (count_pos p sl Hin). pose proof (count_nonneg p held). apply Hr2; [lia|].
      rewrite Forall_forall in Hs. apply Hs; [|done]. unfold sl in Hin. apply list_elem_of_lookup_1 in Hin as [i Hi].
      rewrite list_lookup_insert_Some in Hi. destruct Hi as [(_ & <- & _)|[_ Hi]]; [done|]. by eapply list_elem_of_lookup_2.
    + intros p r Hpr. destruct (Hr1 p r Hpr) as (_ & _ & _ & _ & Hg & Hf & Hf0 & Hpn). split; [exact Hpn|]. repeat split; (done || lia).
    + intros p r Hpr. destruct (Hr1 p r Hpr) as (r0 & Hr0 & _ & -> & _). by eapply Hpx.
  - intros p r' _ Hpr. destruct (Hr1 p r' Hpr) as (r & H1 & H2 & H3 & _). by exists r.
Qed.

(** ** What numbers mean *)

Lemma code_not_message held e no : errors_ok held e -> is_message no = true -> is_message (em_error (msg_at e no)) = false.
Proof.
  intros Hok Hm. pose proof (slot_lookup _ _ _ Hok Hm) as Hs. pose proof (ek_codes _ _ Hok) as Hc. rewrite Forall_lookup in Hc. by eapply Hc.
Qed.

Lemma slot_report held e no : errors_ok held e -> is_message no = true -> em_report (msg_at e no) <> 0 ->
  exists r, es_reports e !! em_report (msg_at e no) = Some r.
Proof.
  intros Hok Hm Hn. pose proof (slot_lookup _ _ _ Hok Hm) as Hs. pose proof (ek_slots _ _ Hok) as Hc. rewrite Forall_lookup in Hc.
  destruct (Hc (slot_of no) (em_report (msg_at e no))) as [r Hr]; [|done|by exists r]. unfold slots. by rewrite list_lookup_fmap, Hs.
Qed.

Lemma get_error_code_runs held e no : errors_ok held e -> runs (get_error_code code_fuel no) e (code_of e no) e.
Proof.
  intros Hok. unfold code_fuel. change (Z.to_nat MESSAGE_CNT) with 100%nat. cbn [get_error_code]. unfold code_of.
  destruct (is_message no) eqn:Hm; [|apply runs_ret]. eapply runs_bind; [by eapply get_msg_runs|]. cbv zeta.
  destruct (_ || _); [|apply runs_ret]. set (m := msg_at e no).
  assert (Hcode : is_message (em_error m) = false) by (by eapply code_not_message). destruct (Z.eqb_spec (em_report m) 0) as [E|E].
  - eapply runs_bind; [apply runs_ret|]. cbn [Z.eqb negb]. rewrite Hcode. destruct (es_reports e !! _); apply runs_ret.
  - destruct (slot_report _ _ _ Hok Hm E) as [r Hr]. fold m in Hr. rewrite Hr.
    eapply runs_bind; [eapply runs_bind; [by apply get_report_runs|apply runs_ret]|]. cbn [orb]. destruct (Z.eqb_spec (rb_posix_code r) 0) as [Ep|Ep]; cbn [negb].
    + rewrite Hcode. apply runs_ret.
    + apply runs_ret.
Qed.

Lemma errno_to_str_code n err : is_message err = false -> errno_only (errno_to_str (S n) err) (Val (Some (code_text err))).
Proof.
  intros Hm. cbn [Errors.errno_to_str]. unfold code_text. destruct (std_message std_messages err); [apply errno_only_ret|].
  destruct (err =? 0); [apply errno_only_ret|]. rewrite Hm. apply errno_only_ret.
Qed.

Lemma std_not_message no : is_message no = true -> std_message std_messages no = None /\ no =? 0 = false.
Proof.
  unfold is_message. intros [Hlo%Z.leb_le Hhi%Z.leb_le]%andb_true_iff.
  assert (Hs : forall l, Forall (fun c : Z * list Z => fst c < ERR_MESSAGE_MIN) l -> std_message l no = None).
  { induction 1 as [|[c t] l Hc Hl IH]; [done|]. cbn in *. rewrite (proj2 (Z.eqb_neq no c)) by lia. exact IH. }
  split; [|apply Z.eqb_neq; unfold ERR_MESSAGE_MIN, STD_ERR_BASE in *; lia]. apply Hs. repeat (apply Forall_cons; split; [vm_compute; reflexivity|]). by apply Forall_nil.
Qed.

Lemma code_of_not_message held e no : errors_ok held e -> is_message (code_of e no) = false.
Proof.
  intros Hok. unfold code_of. destruct (is_message no) eqn:Hm; [|done]. pose proof (code_not_message _ _ _ Hok Hm) as Hc. cbv zeta.
  destruct (_ || _); [|done]. destruct (es_reports e !! _) as [r|] eqn:Er; [|done]. destruct (_ || _); [done|]. by eapply ek_posix.
Qed.

(** The text of a number, which leaves everything but [errno] as it is. *)
Lemma errno_to_str_runs held e no : errors_ok held e -> exists n, errno_to_str code_fuel no e = (text_of e no, put_errno n e).
Proof.
  intros Hok. assert (Hf : exists k n, code_fuel = S n /\ n = S k) by (by exists 99%nat, 100%nat). destruct Hf as (k & n & -> & En).
  unfold text_of. destruct (is_message no) eqn:Hm; [|by apply errno_to_str_code]. cbn [Errors.errno_to_str]. destruct (std_not_message no Hm) as [-> ->]. rewrite Hm. rewrite (bind_runs _ _ _ _ _ (get_msg_runs _ _ _ Hok Hm)).
  set (m := msg_at e no). assert (Hcode : is_message (em_error m) = false) by (by eapply code_not_message).
  rewrite (bind_runs _ _ e (report_at e no) e); cycle 1.
  { unfold report_at. fold m. destruct (Z.eqb_spec (em_report m) 0) as [E|E]; [apply runs_ret|].
    destruct (slot_report _ _ _ Hok Hm E) as [r Hr]. fold m in Hr. rewrite Hr. eapply runs_bind; [by apply get_report_runs|apply runs_ret]. }
  assert (Hplain : exists n1, (if em_source m =? SRC_GAI then ret (Some (gai_strerror (em_error m)))
    else if em_source m =? SRC_MESSAGE then ret (em_text m)
    else if em_source m =? SRC_REPORT then errno_to_str n (em_error m)
    else ret (Some (posix_strerror strerror no))) e =
    (if em_source m =? SRC_GAI then Val (Some (gai_strerror (em_error m)))
     else if em_source m =? SRC_MESSAGE then Val (em_text m)
     else if em_source m =? SRC_REPORT then Val (Some (code_text (em_error m)))
     else Val (Some (posix_strerror strerror no)), put_errno n1 e)).
  { destruct (em_source m =? SRC_GAI); [by apply errno_only_ret|]. destruct (em_source m =? SRC_MESSAGE); [by apply errno_only_ret|].
    destruct (em_source m =? SRC_REPORT); [rewrite En; by apply errno_to_str_code|by apply errno_only_ret]. }
  destruct (report_at e no) as [[c [fmt|] params t props]|]; [|done|done].
  destruct (format_runs fmt params e) as [n1 Hn]. exists n1. unfold bind. rewrite Hn. by destruct (format_text fmt params).
Qed.

(** A message is filled in. *)
Lemma put_msg_ok held e no m : errors_ok held e -> is_message no = true -> em_report m = em_report (msg_at e no) -> is_message (em_error m) = false ->
  let e' := set_msgs (<[slot_of no := m]> (es_msgs e)) (es_msgs_pos e) e in
  runs (put_msg no m) e tt e' /\ errors_ok held e' /\ msg_at e' no = m.
Proof.
  intros Hok Hm Hrep Hcode e'. pose proof (slot_lookup _ _ _ Hok Hm) as Hs. pose proof Hok as [Hl Hnx Hp Hc Hh Hsl Hr Hpx].
  assert (Esl : slots e' = slots e).
  { unfold slots, e'. cbn [es_msgs set_msgs]. rewrite slots_insert, Hrep. apply list_insert_id. unfold slots. by rewrite list_lookup_fmap, Hs. }
  split; [done|]. split.
  - constructor; [cbn; by rewrite length_insert|done|done|cbn; by apply Forall_insert|done|by rewrite Esl| |done]. intros p r Hpr. rewrite Esl. by apply Hr.
  - unfold msg_at. fold (slot_of no). rewrite nth_lookup. unfold e'. cbn [es_msgs set_msgs]. rewrite list_lookup_insert_eq; [done|]. by eapply lookup_lt_Some.
Qed.

Lemma put_errno_ok held e n : errors_ok held e -> errors_ok held (put_errno n e).
Proof. by intros []. Qed.

(** A number means the same in two states. *)
Record meaning_same (e e' : Errors) (no : Z) : Prop := {
  ms_text : text_of e' no = text_of e no;
  ms_code : code_of e' no = code_of e no;
  ms_msg : msg_at e' no = msg_at e no;
  ms_report : report_at e' no = report_at e no }.

Lemma meaning_trans e1 e2 e3 no : meaning_same e1 e2 no -> meaning_same e2 e3 no -> meaning_same e1 e3 no.
Proof. intros [? ? ? ?] [? ? ? ?]. constructor; congruence. Qed.

(** The other messages after a step. *)
Lemma meaning_kept held held' e e' no : errors_ok held e -> errors_ok held' e' -> is_message no = true -> same_reports e e' ->
  es_msgs e' !! slot_of no = es_msgs e !! slot_of no -> meaning_same e e' no.
Proof.
  intros Hok Hok' Hm Hrep Hslot. assert (Em : msg_at e' no = msg_at e no).
  { unfold msg_at. fold (slot_of no). by rewrite !nth_lookup, Hslot. }
  assert (Er : em_report (msg_at e no) <> 0 -> exists r r', es_reports e !! em_report (msg_at e no) = Some r /\
    es_reports e' !! em_report (msg_at e no) = Some r' /\ rb_pub r' = rb_pub r /\ rb_posix_code r' = rb_posix_code r).
  { intros Hn. destruct (slot_report held' e' no Hok' Hm) as [r' Hr']; [by rewrite Em|]. rewrite Em in Hr'.
    destruct (slot_report held e no Hok Hm Hn) as [r0 Hr0]. destruct (ek_reports _ _ Hok _ _ Hr0) as [[_ Hlt] _].
    destruct (Hrep _ _ Hlt Hr') as (r & Hr & ? & ?). by exists r, r'. }
  destruct (Z.eqb_spec (em_report (msg_at e no)) 0) as [E|E].
  - constructor; unfold text_of, code_of, report_at; rewrite ?Hm, Em, ?E; try done. destruct (_ || _); [|done]. by destruct (es_reports e' !! 0), (es_reports e !! 0).
  - destruct (Er E) as (r & r' & Hr & Hr' & Hp & Hc).
    constructor; unfold text_of, code_of, report_at; rewrite ?Hm, Em, ?Hr, ?Hr'; cbn [option_map]; by rewrite ?Hp, ?Hc.
Qed.

Lemma slot_of_inj no no' : is_message no = true -> is_message no' = true -> slot_of no = slot_of no' -> no = no'.
Proof.
  unfold is_message, slot_of. intros [H1%Z.leb_le _]%andb_true_iff [H2%Z.leb_le _]%andb_true_iff. lia.
Qed.

(** Allocating a message and filling it in, which sets [errno]. *)
Record allocated (held : list Z) (e : Errors) (m : ErrorMessage) (e' : Errors) : Prop := {
  al_ok : errors_ok held e';
  al_errno : es_errno e' = ERR_MESSAGE_MIN + es_msgs_pos e;
  al_msg : msg_at e' (ERR_MESSAGE_MIN + es_msgs_pos e) = m;
  al_pos : es_msgs_pos e' = (if MESSAGE_CNT <=? es_msgs_pos e + 1 then 0 else es_msgs_pos e + 1);
  al_kept no : is_message no = true -> no <> ERR_MESSAGE_MIN + es_msgs_pos e -> meaning_same e e' no }.

Lemma allocated_errno held n e m e' : allocated held (put_errno n e) m e' -> allocated held e m e'.
Proof. intros [? ? ? ? Hk]. constructor; try done. intros no Hno Hne. by destruct (Hk no Hno Hne). Qed.

(** A code that is not the place of the message. *)
Definition usable (e : Errors) (no : Z) : Prop := is_message no = true -> no <> ERR_MESSAGE_MIN + es_msgs_pos e.

Lemma usable_kept held e m e' no : allocated held e m e' -> usable e no -> text_of e' no = text_of e no /\ code_of e' no = code_of e no.
Proof.
  intros [_ _ _ _ Hk] Hu. destruct (is_message no) eqn:Hm; [by destruct (Hk no Hm (Hu Hm))|]. unfold text_of, code_of. by rewrite Hm.
Qed.

Lemma alloc_msg_runs held e src : errors_ok held e ->
  exists e', runs (alloc_msg src) e tt e' /\ allocated held e (mkMsg src 0 None 0) e' /\ same_reports e e' /\ es_next e' = es_next e.
Proof.
  intros Hok. pose proof (ek_pos _ _ Hok) as Hp. destruct (slot_message _ Hp) as [Hm Hslot].
  destruct (alloc_slot_runs held e src Hok) as (e' & R & Hok' & Hrep & He & Hms & Hn & Hpos). exists e'. split; [done|]. split; [|done]. constructor; try done.
  - unfold msg_at. fold (slot_of (ERR_MESSAGE_MIN + es_msgs_pos e)). rewrite nth_lookup, Hms, Hslot, list_lookup_insert_eq; [done|].
    pose proof (ek_msgs _ _ Hok). lia.
  - intros no Hno Hne. apply (meaning_kept held held); try done. rewrite Hms, list_lookup_insert_ne; [done|]. rewrite <- Hslot.
    intros E. apply Hne. symmetry. by apply slot_of_inj.
Qed.

Lemma fill_runs held e m0 e1 m : allocated held e m0 e1 -> em_report m = em_report m0 -> is_message (em_error m) = false -> errors_ok held e ->
  exists e', runs (put_msg (ERR_MESSAGE_MIN + es_msgs_pos e) m) e1 tt e' /\ allocated held e m e' /\ es_reports e' = es_reports e1 /\ es_next e' = es_next e1.
Proof.
  intros Hal Hrep Hcode Hok. pose proof Hal as [Hok1 He Hmsg Hpos Hk]. destruct (slot_message _ (ek_pos _ _ Hok)) as [Hm Hslot].
  destruct (put_msg_ok held e1 _ m Hok1 Hm) as (R & Hok' & Hmsg'); [by rewrite Hmsg|done|]. eexists. split; [exact R|]. split; [|done].
  constructor; try done. intros no Hno Hne. eapply meaning_trans; [by apply Hk|]. apply (meaning_kept held held e1); try done.
  - by apply same_reports_refl.
  - cbn. rewrite list_lookup_insert_ne; [done|]. intros E. apply Hne. symmetry. by apply slot_of_inj.
Qed.

(** The text of a new message. *)
Definition message_text (no : Z) (msg t : list Z) : list Z := if no =? ERR_OTHER then msg else msg ++ str ". " ++ t.

Lemma set_errno_runs held e no msg t : errors_ok held e -> no <> 0 -> usable e no -> text_of e no = Val (Some t) ->
  exists e', runs (set_errno no (Some msg)) e (ERR_MESSAGE_MIN + es_msgs_pos e) e' /\
    allocated held e (mkMsg SRC_MESSAGE (code_of e no) (Some (message_text no msg t)) 0) e'.
Proof.
  intros Hok Hno Hu Ht. unfold Errors.set_errno. set (e0 := put_errno no e). assert (Hok0 : errors_ok held e0) by (by apply put_errno_ok).
  pose proof (code_of_not_message _ _ no Hok) as Hcode.
  destruct (alloc_msg_runs held e0 SRC_MESSAGE Hok0) as (e1 & R1 & Hal1 & _).
  assert (Hu0 : usable e0 no) by done. destruct (usable_kept _ _ _ _ _ Hal1 Hu0) as [Ht1 Hc1].
  change (text_of e0 no) with (text_of e no) in Ht1. change (code_of e0 no) with (code_of e no) in Hc1.
  pose proof (get_error_code_runs held e1 no (al_ok _ _ _ _ Hal1)) as R2. rewrite Hc1 in R2.
  destruct (fill_runs held e0 _ e1 (mkMsg SRC_MESSAGE (code_of e no) None 0) Hal1) as (e2 & R3 & Hal2 & _); [done..|].
  destruct (usable_kept _ _ _ _ _ Hal2 Hu0) as [Ht2 _]. change (text_of e0 no) with (text_of e no) in Ht2.
  assert (Htext : exists n, (if no =? ERR_OTHER then ret msg
    else let! text1 := errno_to_str code_fuel no in match text1 with Some text1 => ret (msg ++ str ". " ++ text1) | None => fault end) e2 =
    (Val (message_text no msg t), put_errno n e2)).
  { unfold message_text. destruct (no =? ERR_OTHER); [by apply errno_only_ret|].
    destruct (errno_to_str_runs held e2 no (al_ok _ _ _ _ Hal2)) as [n Hn]. exists n. rewrite Ht2, Ht in Hn. unfold bind. by rewrite Hn. }
  destruct Htext as [n Htext]. set (e3 := put_errno n e2) in *.
  set (m := mkMsg SRC_MESSAGE (code_of e no) (Some (message_text no msg t)) 0).
  set (err := ERR_MESSAGE_MIN + es_msgs_pos e). destruct (slot_message _ (ek_pos _ _ Hok)) as [Hm Hslot]. fold err in Hm, Hslot.
  assert (Hok3 : errors_ok held e3) by apply put_errno_ok, (al_ok _ _ _ _ Hal2).
  destruct (put_msg_ok held e3 err m Hok3 Hm) as (R4 & Hok4 & Hmsg4); [by rewrite (al_msg _ _ _ _ Hal2 : msg_at e3 err = _)|done|].
  exists (put_errno err (set_msgs (<[slot_of err := m]> (es_msgs e3)) (es_msgs_pos e3) e3)). split.
  - eapply runs_bind; [apply runs_modify|]. rewrite (proj2 (Z.eqb_neq _ _) Hno). eapply runs_bind; [exact R1|].
    eapply runs_bind; [apply runs_gets|]. rewrite (al_errno _ _ _ _ Hal1). eapply runs_bind; [exact R2|]. eapply runs_bind; [exact R3|].
    eapply runs_bind; [exact Htext|]. eapply runs_bind; [exact R4|]. eapply runs_bind; [apply runs_modify|apply runs_ret].
  - constructor; try done; [by apply put_errno_ok|exact (al_pos _ _ _ _ Hal2)|]. intros no' Hno' Hne.
    apply (meaning_trans e e2); [by destruct (al_kept _ _ _ _ Hal2 no' Hno' Hne)|].
    apply (meaning_kept held held e2); [by apply Hal2|by apply put_errno_ok|done|by apply same_reports_refl|].
    cbn. rewrite list_lookup_insert_ne; [done|]. intros E. apply Hne. symmetry. by apply slot_of_inj.
Qed.

(** ** Reports *)

(** A client gets or gives back a reference. *)
Lemma held_ok held held' e p r : errors_ok held e -> es_reports e !! p = Some r ->
  (forall q, q <> p -> count q held' = count q held) -> (forall q, q ∈ held' -> q = p \/ q ∈ held) ->
  let r' := rb_count (rb_refs r + (count p held' - count p held)) (count p held') r in
  0 < rb_refs r' -> errors_ok held' (set_reports (<[p := r']> (es_reports e)) (es_next e) e).
Proof.
  intros [Hl Hnx Hp Hc Hh Hsl Hr Hpx] Hpr Hcnt Hsub r' Hpos. destruct (Hr p r Hpr) as (Hpn & Hg & Hf & _).
  constructor; cbn [es_msgs set_reports es_msgs_pos es_next es_reports]; try done.
  - apply Forall_forall. intros q [->|Hq]%Hsub; [rewrite lookup_insert_eq; by eexists|]. rewrite Forall_forall in Hh.
    apply lookup_insert_is_Some'. right. by apply Hh.
  - eapply Forall_impl; [exact Hsl|]. cbn. intros q Hq Hq0. apply lookup_insert_is_Some'. right. by apply Hq.
  - intros q rq [[<- <-]|[Hq Hrq]]%lookup_insert_Some.
    + split; [done|]. unfold r' in *. cbn [rb_count rb_gets rb_refs] in *. change (slots (set_reports _ _ e)) with (slots e). repeat split; lia.
    + destruct (Hr q rq Hrq) as (H1 & H2 & H3 & H4). rewrite Hcnt by done. done.
  - intros q rq [[<- <-]|[Hq Hrq]]%lookup_insert_Some; [by apply (Hpx p r)|by eapply Hpx].
Qed.

(** A message without a report gets one. *)
Lemma slot_ok held e no m p r : errors_ok held e -> es_reports e !! p = Some r -> is_message no = true -> is_message (em_error m) = false ->
  em_report (msg_at e no) = 0 -> em_report m = p ->
  errors_ok held (set_reports (<[p := rb_count (rb_refs r + 1) (rb_gets r) r]> (es_reports e)) (es_next e)
    (set_msgs (<[slot_of no := m]> (es_msgs e)) (es_msgs_pos e) e)).
Proof.
  intros Hok Hpr Hm Hcode H0 Hp0. pose proof (slot_lookup _ _ _ Hok Hm) as Hs. pose proof Hok as [Hl Hnx Hp Hc Hh Hsl Hr Hpx].
  destruct (Hr p r Hpr) as (Hpn & Hg & Hf & Hf0).
  assert (Hsm : slots e !! slot_of no = Some 0) by (unfold slots; by rewrite list_lookup_fmap, Hs; cbn; rewrite H0).
  assert (Esl : map em_report (<[slot_of no := m]> (es_msgs e)) = <[slot_of no := p]> (slots e)) by (rewrite <- Hp0; apply slots_insert).
  assert (Hcs : forall q, q <> 0 -> count q (<[slot_of no := p]> (slots e)) = count q (slots e) + (if q =? p then 1 else 0)).
  { intros q Hq. rewrite (count_insert q _ _ _ _ Hsm), (proj2 (Z.eqb_neq q 0)) by done. lia. }
  constructor; cbn [es_msgs set_msgs set_reports es_msgs_pos es_next es_reports]; try done.
  - by rewrite length_insert.
  - by apply Forall_insert.
  - eapply Forall_impl; [exact Hh|]. intros q Hq. apply lookup_insert_is_Some'. by right.
  - unfold slots. cbn [es_msgs set_msgs set_reports]. rewrite Esl. apply Forall_insert.
    + eapply Forall_impl; [exact Hsl|]. cbn. intros q Hq Hq0. apply lookup_insert_is_Some'. right. by apply Hq.
    + intros _. apply lookup_insert_is_Some'. by left.
  - intros q rq. unfold slots. cbn [es_msgs set_msgs set_reports]. rewrite Esl. intros [[<- <-]|[Hq Hrq]]%lookup_insert_Some.
    + rewrite Hcs, Z.eqb_refl by lia. cbn [rb_count rb_gets rb_refs]. repeat split; lia.
    + destruct (Hr q rq Hrq) as (H1 & H2 & H3 & H4). rewrite Hcs, (proj2 (Z.eqb_neq q p)) by (done || lia). repeat split; lia.
  - intros q rq [[<- <-]|[Hq Hrq]]%lookup_insert_Some; [by apply (Hpx p r)|by eapply Hpx].
Qed.

(** A new report of a client. *)
Lemma new_ok held e r posix : errors_ok held e -> is_message posix = false ->
  errors_ok (es_next e :: held) (set_reports (<[es_next e := mkBuffer r posix 1 1]> (es_reports e)) (es_next e + 1) e).
Proof.
  intros [Hl Hnx Hp Hc Hh Hsl Hr Hpx] Hposix. set (p := es_next e).
  assert (Hfresh : es_reports e !! p = None) by (destruct (es_reports e !! p) as [x|] eqn:E; [|done]; apply Hr in E as [? _]; unfold p in *; lia).
  assert (H1 : count p held = 0).
  { apply count_none. intros Hin. rewrite Forall_forall in Hh. destruct (Hh p Hin) as [x Hx]. congruence. }
  assert (H2 : count p (slots e) = 0).
  { apply count_none. intros Hin. rewrite Forall_forall in Hsl. destruct (Hsl p Hin) as [x Hx]; [unfold p; lia|congruence]. }
  constructor; cbn [es_msgs set_reports es_msgs_pos es_next es_reports]; try done.
  - lia.
  - constructor; [rewrite lookup_insert_eq; by eexists|]. eapply Forall_impl; [exact Hh|]. intros q Hq. apply lookup_insert_is_Some'. by right.
  - eapply Forall_impl; [exact Hsl|]. cbn. intros q Hq Hq0. apply lookup_insert_is_Some'. right. by apply Hq.
  - intros q rq. change (slots (set_reports _ _ e)) with (slots e). rewrite count_cons. intros [[<- <-]|[Hq Hrq]]%lookup_insert_Some.
    + rewrite Z.eqb_refl. cbn [rb_gets rb_refs]. unfold p in *. repeat split; lia.
    + destruct (Hr q rq Hrq) as (H3 & H4 & H5 & H6). rewrite (proj2 (Z.eqb_neq q p)) by done. repeat split; lia.
  - intros q rq [[<- <-]|[Hq Hrq]]%lookup_insert_Some; [done|by eapply Hpx].
Qed.
End Text.

(** ** Sample parameters *)

(** [strerror], [gai_strerror] and the texts of numbers of the examples. *)
Definition sample_strerror (err : Z) : option (list Z) * bool :=
  if err =? 2 then (Some (str "No such file or directory"), false) else (None, false).
Definition sample_gai_strerror (err : Z) : list Z := str "Unknown error".
Definition sample_number_text (style p : list Z) : option (list Z) := Some p.

Notation set_errno' := (set_errno sample_strerror sample_gai_strerror sample_number_text).
Notation errno_to_str' := (errno_to_str sample_strerror sample_gai_strerror sample_number_text).
Notation get_error_report' := (get_error_report sample_strerror sample_gai_strerror sample_number_text).
