(* ===== verification/ErrorOps.v ===== *)
(** * Operations on errors (Errors.v, framework/errors.c)

    Every operation keeps the invariant of ErrorProps.v, whatever the order of operations is. *)

From S2P Require Import Prelude Streams JsonWrite JsonRead Errors ErrorProps.

Section Ops.
Variable strerror : Z -> option (list Z) * bool.
Variable gai_strerror : Z -> list Z.
Variable number_text : list Z -> list Z -> option (list Z).

Notation set_errno := (set_errno strerror gai_strerror number_text).
Notation get_error_report := (get_error_report strerror gai_strerror number_text).
Notation text_of := (text_of strerror gai_strerror number_text).
Notation allocated := (allocated strerror gai_strerror number_text).

(** ** The report of an error *)

(** The report that is made of a code, with its text. *)
Definition made_report (now : option Z) (code : Z) (text : list Z) : ErrorReport :=
  if (code <? STD_ERR_BASE) || (ERR_MESSAGE_MAX <? code) then
    mkReport 1 (Some text) [] (default 0 now) [(str "AltOrg", string_text (Some (str "Linux"))); (str "AltCode", ulong_text (uwrap 64 code))]
  else mkReport (code - STD_ERR_BASE) (Some text) [] (default 0 now) [].

Definition made_code (e : Errors) (err : Z) : Z :=
  if is_message err then if em_source (msg_at e err) =? SRC_MESSAGE then em_error (msg_at e err) else ERR_OTHER else err.

Definition sent_report (e : Errors) (now : option Z) (err : Z) (text : list Z) : ErrorReport :=
  match (if is_message err then report_at e err else None) with
  | Some r => r
  | None => made_report now (made_code e err) text
  end.

(** A message and its report are kept; a message without a report gets one whose format is [text]. *)
Definition slot_kept (e e' : Errors) (no : Z) : Prop := msg_at e' no = msg_at e no /\ report_at e' no = report_at e no.
Definition slot_asked (text : list Z) (e e' : Errors) (no : Z) : Prop :=
  let m := msg_at e no in
  em_report m = 0 /\ exists p r, p <> 0 /\ msg_at e' no = mkMsg (em_source m) (em_error m) (em_text m) p /\
    report_at e' no = Some r /\ er_format r = Some text.

Lemma made_format now code text : er_format (made_report now code text) = Some text.
Proof. unfold made_report. by destruct (_ || _). Qed.

(** The codes of messages are kept. *)
Definition codes_kept (e e' : Errors) : Prop := forall no, code_of e' no = code_of e no.

Lemma made_not_message held e err : errors_ok held e -> is_message (made_code e err) = false.
Proof.
  intros Hok. unfold made_code. destruct (is_message err) eqn:Hm; [|done]. destruct (_ =? _); [by eapply code_not_message|done].
Qed.

Lemma not_message_range c : is_message c = false -> c < ERR_MESSAGE_MIN \/ ERR_MESSAGE_MAX < c.
Proof. unfold is_message. intros [H%Z.leb_gt|H%Z.leb_gt]%andb_false_iff; lia. Qed.

Lemma count_other q p l : q <> p -> count q (p :: l) = count q l.
Proof. intros Hq. by rewrite count_cons, (proj2 (Z.eqb_neq q p)). Qed.

(** A message that has a report. *)
Lemma get_old_runs held e now err : errors_ok held e -> is_message err = true -> em_report (msg_at e err) <> 0 ->
  exists r e', let p := em_report (msg_at e err) in runs (get_error_report now err) e p e' /\ errors_ok (p :: held) e' /\
    es_reports e !! p = Some r /\ es_msgs e' = es_msgs e /\ es_msgs_pos e' = es_msgs_pos e /\
    es_reports e' = <[p := rb_count (rb_refs r + 1) (rb_gets r + 1) r]> (es_reports e).
Proof.
  intros Hok Hm Hp. destruct (slot_report _ _ _ Hok Hm Hp) as [r Hr]. set (p := em_report (msg_at e err)) in *.
  destruct (ek_reports _ _ Hok p r Hr) as (Hpn & Hg & Hf & Hf0).
  exists r, (set_reports (<[p := rb_count (rb_refs r + 1) (rb_gets r + 1) r]> (es_reports e)) (es_next e) e). cbv zeta. split; [|split; [|done]].
  - unfold Errors.get_error_report. eapply runs_bind; [rewrite Hm; eapply runs_bind; [by eapply get_msg_runs|apply runs_ret]|].
    cbv beta iota zeta. fold p. rewrite (proj2 (Z.eqb_neq p 0)) by done. cbn [negb]. eapply runs_bind; [by apply get_report_runs|]. eapply runs_bind; [reflexivity|apply runs_ret].
  - pose proof (held_ok held (p :: held) e p r Hok Hr) as Hh. rewrite count_cons, Z.eqb_refl in Hh. cbv zeta in Hh.
    replace (rb_refs r + (1 + count p held - count p held)) with (rb_refs r + 1) in Hh by lia. replace (1 + count p held) with (rb_gets r + 1) in Hh by lia.
    apply Hh; [intros; by apply count_other|by intros q [->|?]%elem_of_cons; [left|right]|]. cbn. lia.
Qed.

(** The asserts of a new report. *)
Lemma alt_code_made now code text : is_message code = false ->
  exists r err, alt_code code (mkReport 0 (Some text) [] (default 0 now) []) = (if (code <? STD_ERR_BASE) || (ERR_MESSAGE_MAX <? code) then code else 0, r, err) /\
    STD_ERR_BASE <= err < ERR_MESSAGE_MIN /\ mkReport (err - STD_ERR_BASE) (er_format r) (er_params r) (er_time_stamp r) (er_props r) = made_report now code text.
Proof.
  intros Hc%not_message_range. unfold alt_code, made_report. destruct (_ || _) eqn:E; eexists _, _; (split; [done|]); [done|].
  apply orb_false_iff in E as [E1%Z.ltb_ge E2%Z.ltb_ge]. split; [lia|done].
Qed.

(** A new report. *)
Lemma get_new_runs held e now err text : errors_ok held e -> err <> 0 -> (is_message err = true -> em_report (msg_at e err) = 0) ->
  text_of e err = Val (Some text) ->
  exists e' r, let p := es_next e in runs (get_error_report now err) e p e' /\ errors_ok (p :: held) e' /\ es_reports e' !! p = Some r /\
    rb_pub r = made_report now (made_code e err) text /\ es_msgs_pos e' = es_msgs_pos e /\
    (forall q, q <> p -> es_reports e' !! q = es_reports e !! q) /\
    (forall no, is_message no = true -> no <> err -> es_msgs e' !! slot_of no = es_msgs e !! slot_of no) /\ code_of e' err = code_of e err /\
    (is_message err = true -> let m := msg_at e err in msg_at e' err = mkMsg (em_source m) (em_error m) (em_text m) p).
Proof.
  intros Hok Herr Hnew Ht. destruct (errno_to_str_runs strerror gai_strerror number_text held e err Hok) as [n Hn]. rewrite Ht in Hn.
  set (p := es_next e). set (e1 := put_errno n e). assert (Hok1 : errors_ok held e1) by (by apply put_errno_ok).
  pose proof (made_not_message held e err Hok) as Hc. set (c := made_code e err) in *.
  set (posix := if (c <? STD_ERR_BASE) || (ERR_MESSAGE_MAX <? c) then c else 0).
  assert (Hposix : is_message posix = false) by (unfold posix; by destruct (_ || _)).
  set (made := made_report now c text). pose proof (new_ok held e1 made posix Hok1 Hposix) as Hok2.
  destruct (alt_code_made now c text Hc) as (r0 & err2 & Halt & [Hlo Hhi] & Hmade). fold posix in Halt. fold made in Hmade.
  destruct (is_message err) eqn:Hm.
  - set (m := msg_at e err). specialize (Hnew eq_refl). fold m in Hnew.
    set (m' := mkMsg (em_source m) (em_error m) (em_text m) p).
    exists (set_reports (<[p := mkBuffer made posix 2 1]> (es_reports e)) (p + 1) (set_msgs (<[slot_of err := m']> (es_msgs e)) (es_msgs_pos e) e1)), (mkBuffer made posix 2 1).
    assert (Em : forall e', es_msgs e' = <[slot_of err := m']> (es_msgs e) -> msg_at e' err = m').
    { intros e' E. unfold msg_at. fold (slot_of err). rewrite nth_lookup, E, list_lookup_insert_eq; [done|]. by eapply lookup_lt_Some, slot_lookup. }
    cbv zeta. split; [|split; [|split; [|split; [|split; [|split; [|split; [|split]]]]]]]; try done.
    + unfold Errors.get_error_report. rewrite Hm. eapply runs_bind; [eapply runs_bind; [by eapply get_msg_runs|apply runs_ret]|]. cbv beta iota zeta. fold m.
      rewrite Hnew. cbn [Z.eqb negb]. rewrite (proj2 (Z.eqb_neq err 0)) by done. eapply runs_bind; [exact Hn|].
      replace (if em_source m =? SRC_MESSAGE then em_error m else ERR_OTHER) with c by (unfold c, made_code; by rewrite Hm).
      rewrite Halt. eapply runs_bind; [apply runs_cassert; by apply Z.leb_le|]. eapply runs_bind; [apply runs_cassert; by apply Z.ltb_lt|].
      cbv zeta. rewrite Hmade. eapply runs_bind; [reflexivity|]. cbv beta iota. eapply runs_bind; [|apply runs_ret].
      eapply runs_bind; [by apply runs_cassert|reflexivity].
    + eapply (slot_ok _ _ err m' p (mkBuffer made posix 1 1)) in Hok2.
      * cbn [es_reports set_reports] in Hok2. rewrite insert_insert_eq in Hok2. exact Hok2.
      * apply lookup_insert_eq.
      * done.
      * cbn. by eapply code_not_message.
      * exact Hnew.
      * done.
    + apply lookup_insert_eq.
    + intros q Hq. by apply lookup_insert_ne.
    + intros no Hno Hne. apply list_lookup_insert_ne. intros E. apply Hne. symmetry. by apply slot_of_inj.
    + unfold code_of. rewrite Hm, Em by done. cbn [em_source em_report em_error es_reports set_reports m']. fold m. rewrite lookup_insert_eq, Hnew.
      destruct ((em_source m =? SRC_REPORT) || _) eqn:Es; [|done]. cbn [rb_posix_code].
      transitivity (em_error m); [|by destruct (es_reports e !! 0)]. destruct (_ || (posix =? 0)) eqn:Ep; [done|].
      apply orb_false_iff in Ep as [_ Ep%Z.eqb_neq]. unfold posix, c, made_code in Ep |- *. rewrite Hm in Ep |- *. fold m in Ep |- *. revert Ep. destruct (em_source m =? SRC_MESSAGE); [by destruct ((em_error m <? STD_ERR_BASE) || _); [|intros []]|by intros []].
    + intros _. by apply Em.
  - exists (set_reports (<[p := mkBuffer made posix 1 1]> (es_reports e)) (p + 1) e1), (mkBuffer made posix 1 1).
    cbv zeta. split; [|split; [|split; [|split; [|split; [|split; [|split; [|split]]]]]]]; try done.
    + unfold Errors.get_error_report. rewrite Hm. eapply runs_bind; [apply runs_ret|]. cbv beta iota zeta. cbn [Z.eqb negb].
      rewrite (proj2 (Z.eqb_neq err 0)) by done. eapply runs_bind; [exact Hn|].
      replace err with c by (unfold c, made_code; by rewrite Hm). rewrite Halt.
      eapply runs_bind; [apply runs_cassert; by apply Z.leb_le|]. eapply runs_bind; [apply runs_cassert; by apply Z.ltb_lt|].
      cbv zeta. rewrite Hmade.
      eapply runs_bind; [reflexivity|]. eapply runs_bind; [apply runs_ret|]. apply runs_ret.
    + apply lookup_insert_eq.
    + intros q Hq. by apply lookup_insert_ne.
    + unfold code_of. by rewrite Hm.
Qed.

Lemma get_error_report_runs held e now err text : errors_ok held e -> err <> 0 -> text_of e err = Val (Some text) ->
  exists p e' r, runs (get_error_report now err) e p e' /\ p <> 0 /\ errors_ok (p :: held) e' /\ es_reports e' !! p = Some r /\
    rb_pub r = sent_report e now err text /\ codes_kept e e' /\ es_msgs_pos e' = es_msgs_pos e /\
    (forall no, is_message no = true -> slot_kept e e' no \/ no = err /\ slot_asked text e e' no).
Proof.
  intros Hok Herr Ht. unfold sent_report. destruct (decide (is_message err = true /\ em_report (msg_at e err) <> 0)) as [[Hm E0]|Hn].
  - destruct (get_old_runs held e now err Hok Hm E0) as (r & e' & R & Hok' & Hr & Hms & Hpos & Hrep). set (p := em_report (msg_at e err)) in *.
    exists p, e'. eexists. split; [done|]. split; [done|]. split; [done|]. rewrite Hrep, lookup_insert_eq. split; [reflexivity|]. split.
    + cbn. unfold report_at. fold p. by rewrite (proj2 (Z.eqb_neq p 0)), Hr, Hm by done.
    + assert (Hk : forall no, is_message no = true -> meaning_same strerror gai_strerror number_text e e' no).
      { intros no Hno. apply (meaning_kept strerror gai_strerror number_text held (p :: held)); try done; [|by rewrite Hms].
        intros q rq _. rewrite Hrep. intros [[<- <-]|[Hq Hrq]]%lookup_insert_Some; [by exists r|by exists rq]. }
      split; [|split; [done|intros no Hno; left; by destruct (Hk no Hno)]]. intros no.
      destruct (is_message no) eqn:Hno; [by destruct (Hk no Hno)|unfold code_of; by rewrite Hno].
  - assert (Hnew : is_message err = true -> em_report (msg_at e err) = 0) by (intros Hm; destruct (decide (em_report (msg_at e err) = 0)); [done|by destruct Hn]).
    destruct (get_new_runs held e now err text Hok Herr Hnew Ht) as (e' & r & R & Hok' & Hr & Hp & Hpos & Hrep & Hms & Hcode & Hmsg). set (p := es_next e) in *.
    exists p, e', r. split; [done|]. split; [pose proof (ek_next _ _ Hok); lia|]. split; [done|]. split; [done|]. split; [|].
    + rewrite Hp. destruct (is_message err) eqn:Hm; [|done]. unfold report_at. by rewrite Hnew.
    + assert (Hk : forall no, is_message no = true -> no <> err -> meaning_same strerror gai_strerror number_text e e' no).
      { intros no Hno Hne. apply (meaning_kept strerror gai_strerror number_text held (p :: held)); try done; [|by apply Hms].
        intros q rq Hq. rewrite Hrep by (unfold p; lia). by exists rq. }
      assert (Hp0 : p <> 0) by (pose proof (ek_next _ _ Hok); unfold p; lia).
      split; [|split; [done|]]; intros no; [destruct (is_message no) eqn:Hno; [|unfold code_of; by rewrite Hno]|intros Hno];
        (destruct (decide (no = err)) as [->|Hne]; [|destruct (Hk no Hno Hne)]); [done|done| |by left].
      right. split; [done|]. split; [by apply Hnew|]. exists p, (rb_pub r). split; [done|]. split; [by apply Hmsg|].
      unfold report_at. rewrite (Hmsg Hno). cbn [em_report]. rewrite (proj2 (Z.eqb_neq p 0)), Hr by done. split; [done|]. rewrite Hp. apply made_format.
Qed.

(** ** The other operations *)

Lemma set_gai_runs held e no : errors_ok held e -> no <> 0 -> is_message no = false ->
  exists e', runs (set_gai_errno no) e (ERR_MESSAGE_MIN + es_msgs_pos e) e' /\ allocated held e (mkMsg SRC_GAI no None 0) e'.
Proof.
  intros Hok Hno Hm. unfold set_gai_errno. set (e0 := put_errno no e). assert (Hok0 : errors_ok held e0) by (by apply put_errno_ok).
  destruct (alloc_msg_runs strerror gai_strerror number_text held e0 SRC_GAI Hok0) as (e1 & R1 & Hal1 & _).
  destruct (fill_runs strerror gai_strerror number_text held e0 _ e1 (mkMsg SRC_GAI no None 0) Hal1) as (e2 & R2 & Hal2 & _); [done..|].
  exists e2. split; [|by apply allocated_errno in Hal2]. eapply runs_bind; [apply runs_modify|]. rewrite (proj2 (Z.eqb_neq _ _) Hno).
  eapply runs_bind; [eapply runs_bind; [exact R1|]; eapply runs_bind; [apply runs_gets|]; rewrite (al_errno _ _ _ _ _ _ _ Hal1); exact R2|].
  rewrite <- (al_errno _ _ _ _ _ _ _ Hal2 : es_errno e2 = ERR_MESSAGE_MIN + es_msgs_pos e). apply runs_gets.
Qed.

Lemma set_report_runs held e p r : errors_ok held e -> p ∈ held -> es_reports e !! p = Some r ->
  is_message (swrap 32 (er_code (rb_pub r) + STD_ERR_BASE)) = false ->
  exists e', runs (set_error_report_errno p) e (ERR_MESSAGE_MIN + es_msgs_pos e) e' /\
    allocated held e (mkMsg SRC_REPORT (swrap 32 (er_code (rb_pub r) + STD_ERR_BASE)) None p) e' /\
    exists r', es_reports e' !! p = Some r' /\ rb_pub r' = rb_pub r /\ rb_posix_code r' = rb_posix_code r.
Proof.
  intros Hok Hp Hr Hcode. unfold set_error_report_errno. set (e0 := put_errno 0 e). assert (Hok0 : errors_ok held e0) by (by apply put_errno_ok).
  destruct (ek_reports _ _ Hok p r Hr) as [Hp0 _]. set (err := ERR_MESSAGE_MIN + es_msgs_pos e).
  destruct (slot_message _ (ek_pos _ _ Hok)) as [Hm Hslot]. fold err in Hm, Hslot.
  destruct (alloc_msg_runs strerror gai_strerror number_text held e0 SRC_REPORT Hok0) as (e1 & R1 & Hal0 & Hsame & _).
  assert (Hal1 : allocated held e (mkMsg SRC_REPORT 0 None 0) e1) by (by apply allocated_errno in Hal0). pose proof (al_ok _ _ _ _ _ _ _ Hal1) as Hok1.
  pose proof (ek_held _ _ Hok1) as Hh. rewrite Forall_forall in Hh. destruct (Hh p Hp) as [r1 Hr1].
  destruct (Hsame p r1) as (r' & Hr' & Hpub & Hpc); [cbn; lia|done|]. cbn in Hr'. rewrite Hr in Hr'. injection Hr' as <-.
  set (m := mkMsg SRC_REPORT (swrap 32 (er_code (rb_pub r) + STD_ERR_BASE)) None p).
  assert (Hmsg1 : em_report (msg_at e1 err) = 0) by (by rewrite (al_msg _ _ _ _ _ _ _ Hal1 : msg_at e1 err = _)).
  pose proof (slot_ok held e1 err m p r1 Hok1 Hr1 Hm Hcode Hmsg1 eq_refl) as Hok2.
  eexists. split; [|split].
  - eapply runs_bind; [apply runs_modify|]. rewrite (proj2 (Z.eqb_neq p 0)) by lia. eapply runs_bind.
    + eapply runs_bind; [exact R1|]. eapply runs_bind; [apply runs_gets|]. rewrite (al_errno _ _ _ _ _ _ _ Hal1 : es_errno e1 = err).
      eapply runs_bind; [by apply get_report_runs|]. rewrite Hpub. eapply runs_bind; reflexivity.
    + unfold runs, gets. cbn [es_errno set_reports set_msgs]. by rewrite (al_errno _ _ _ _ _ _ _ Hal1 : es_errno e1 = err).
  - constructor; [exact Hok2|exact (al_errno _ _ _ _ _ _ _ Hal1)| |exact (al_pos _ _ _ _ _ _ _ Hal1)|].
    + unfold msg_at. fold (slot_of err). rewrite nth_lookup. cbn [es_msgs set_reports set_msgs]. rewrite list_lookup_insert_eq; [done|].
      by eapply lookup_lt_Some, slot_lookup.
    + intros no Hno Hne. apply (meaning_trans _ _ _ e e1); [by apply (al_kept _ _ _ _ _ _ _ Hal1)|].
      apply (meaning_kept strerror gai_strerror number_text held held e1); try done.
      * intros q rq _. cbn [es_reports set_reports]. intros [[<- <-]|[Hq Hrq]]%lookup_insert_Some; [by exists r1|by exists rq].
      * cbn [es_msgs set_reports set_msgs]. apply list_lookup_insert_ne. intros E. apply Hne. symmetry. by apply slot_of_inj.
  - eexists. cbn [es_reports set_reports]. by rewrite lookup_insert_eq.
Qed.

(** ** Assignments to reports *)

Definition change (f : ErrorReport -> ErrorReport) (r : ReportBuffer) : ReportBuffer := mkBuffer (f (rb_pub r)) (rb_posix_code r) (rb_refs r) (rb_gets r).
Definition changed (p : Z) (f : ErrorReport -> ErrorReport) (e : Errors) : Errors := set_reports (alter (change f) p (es_reports e)) (es_next e) e.

Lemma update_report_runs e p f r : es_reports e !! p = Some r -> runs (update_report p f) e tt (changed p f e).
Proof.
  intros Hr. eapply runs_bind; [by apply get_report_runs|]. unfold runs, put_report, modify, changed. do 3 f_equal. apply map_eq. intros q.
  destruct (decide (q = p)) as [->|Hq]; [by rewrite lookup_insert_eq, lookup_alter_eq, Hr|by rewrite lookup_insert_ne, lookup_alter_ne].
Qed.

Lemma changed_lookup p f e q r' : es_reports (changed p f e) !! q = Some r' ->
  exists r, es_reports e !! q = Some r /\ rb_posix_code r' = rb_posix_code r /\ rb_gets r' = rb_gets r /\ rb_refs r' = rb_refs r /\ (q <> p -> rb_pub r' = rb_pub r).
Proof.
  unfold changed. cbn [es_reports set_reports]. destruct (decide (q = p)) as [->|Hq]; [|rewrite lookup_alter_ne by done; by exists r'].
  rewrite lookup_alter_eq. destruct (es_reports e !! p) as [r|]; [|done]. intros [= <-]. by exists r.
Qed.

Lemma changed_is_Some p f e q : is_Some (es_reports (changed p f e) !! q) <-> is_Some (es_reports e !! q).
Proof. unfold changed. cbn [es_reports set_reports]. apply lookup_alter_is_Some. Qed.

Lemma changed_ok held e p f : errors_ok held e -> errors_ok held (changed p f e).
Proof.
  intros [Hl Hnx Hpos Hc Hh Hsl Hr Hpx]. constructor; try done.
  - eapply Forall_impl; [exact Hh|]. intros q. apply changed_is_Some.
  - eapply Forall_impl; [exact Hsl|]. cbn beta. intros q Hq Hq0. by apply changed_is_Some, Hq.
  - intros q r' (r & Hqr & _ & -> & -> & _)%changed_lookup. by apply Hr.
  - intros q r' (r & Hqr & -> & _)%changed_lookup. by eapply Hpx.
Qed.

Lemma changed_pub e p f r : es_reports e !! p = Some r -> es_reports (changed p f e) !! p = Some (change f r).
Proof. intros Hr. unfold changed. cbn [es_reports set_reports]. by rewrite lookup_alter_eq, Hr. Qed.

Lemma changed_changed p f g e : changed p g (changed p f e) = changed p (fun r => g (f r)) e.
Proof. unfold changed. cbn [es_reports set_reports es_next]. by rewrite alter_alter_eq. Qed.
End Ops.
