(* ===== verification/ErrorCounts.v ===== *)
(** * Histories of errors (Errors.v, framework/errors.c)

    Any sequence of calls of errors.c keeps reports for as long as something refers to them, and no longer;
    the number of a message keeps its code until one hundred more messages are made. *)

From S2P Require Import Prelude Streams JsonWrite JsonRead Errors ErrorProps ErrorOps.

Section Counts.
Variable strerror : Z -> option (list Z) * bool.
Variable gai_strerror : Z -> list Z.
Variable number_text : list Z -> list Z -> option (list Z).

Notation set_errno := (set_errno strerror gai_strerror number_text).
Notation get_error_report := (get_error_report strerror gai_strerror number_text).
Notation errno_to_str := (errno_to_str strerror gai_strerror number_text).
Notation text_of := (text_of strerror gai_strerror number_text).
Notation allocated := (allocated strerror gai_strerror number_text).

Lemma release_report_runs held e p : errors_ok held e -> p ∈ held ->
  exists e', runs (release_error_report p) e tt e' /\ errors_ok (drop_one p held) e' /\ same_reports e e' /\
    es_msgs e' = es_msgs e /\ es_msgs_pos e' = es_msgs_pos e /\ es_next e' = es_next e.
Proof.
  intros Hok Hp. pose proof Hok as [Hl Hnx Hpos Hc Hh Hsl Hr Hpx]. rewrite Forall_forall in Hh. destruct (Hh p Hp) as [r Hpr].
  destruct (Hr p r Hpr) as (Hpn & Hg & Hf & Hf0). pose proof (count_pos p held Hp) as Hcnt.
  set (r1 := rb_count (rb_refs r) (rb_gets r - 1) r). set (e1 := set_reports (<[p := r1]> (es_reports e)) (es_next e) e).
  assert (Hdrop : forall q, count q (drop_one p held) = count q held - (if q =? p then 1 else 0)) by (intros q; by apply count_drop_one).
  destruct (release_runs e1 p (drop_one p held) (slots e)) as (reports' & R & Hr1 & Hr2).
  { intros q rq. rewrite Hdrop. unfold e1. cbn [es_reports set_reports es_next]. intros [[<- <-]|[Hq Hrq]]%lookup_insert_Some.
    - rewrite Z.eqb_refl. unfold r1. cbn [rb_count rb_gets rb_refs]. lia.
    - destruct (Hr q rq Hrq) as (H1 & H2 & H3 & H4). rewrite (proj2 (Z.eqb_neq q p)) by done. lia. }
  { right. exists r1. apply lookup_insert_eq. }
  exists (set_reports reports' (es_next e1) e1). split; [|split; [|split; [|done]]].
  - unfold release_error_report. rewrite (proj2 (Z.eqb_neq p 0)) by lia. eapply runs_bind; [by apply get_report_runs|].
    eapply runs_bind; [apply runs_cassert; apply Z.ltb_lt; lia|]. eapply runs_bind; [reflexivity|]. exact R.
  - assert (Esl : slots (set_reports reports' (es_next e1) e1) = slots e) by done.
    constructor; try rewrite Esl; cbn [es_msgs set_reports es_msgs_pos es_next es_reports e1]; try done.
    + apply Forall_forall. intros q Hq. apply Hr2; [pose proof (count_pos q _ Hq); pose proof (count_nonneg q (slots e)); lia|].
      unfold e1. cbn [es_reports set_reports]. apply lookup_insert_is_Some'. right. by apply Hh, (drop_one_subset p).
    + apply Forall_forall. intros q Hq Hq0. apply Hr2; [pose proof (count_pos q _ Hq); pose proof (count_nonneg q (drop_one p held)); lia|].
      unfold e1. cbn [es_reports set_reports]. apply lookup_insert_is_Some'. right. rewrite Forall_forall in Hsl. by apply Hsl.
    + intros q rq Hrq. destruct (Hr1 q rq Hrq) as (_ & _ & _ & _ & H1 & H2 & H3 & H4). split; [exact H4|]. done.
    + intros q rq Hrq. destruct (Hr1 q rq Hrq) as (r0 & Hr0 & _ & -> & _). revert Hr0. unfold e1. cbn [es_reports set_reports].
      intros [[<- <-]|[_ Hr0]]%lookup_insert_Some; [by apply (Hpx p r)|by eapply Hpx].
  - intros q rq _ Hrq. destruct (Hr1 q rq Hrq) as (r0 & Hr0 & Hpub & Hpc & _). revert Hr0. unfold e1. cbn [es_reports set_reports].
    intros [[<- <-]|[_ Hr0]]%lookup_insert_Some; [by exists r|by exists r0].
Qed.

(** ** Operations of clients *)

(** Calls with their arguments.  [Fill]: assignments of a client to the report it made. *)
Inductive op : Type :=
  | SetErrno (no : Z) (msg : option (list Z))
  | SetGai (no : Z)
  | SetReport (p : Z)
  | GetReport (now : option Z) (err : Z)
  | Create
  | Fill (p : Z) (f : ErrorReport -> ErrorReport)
  | Release (p : Z).

Definition run_op (o : op) : E Z :=
  match o with
  | SetErrno no msg => set_errno no msg
  | SetGai no => set_gai_errno no
  | SetReport p => set_error_report_errno p
  | GetReport now err => get_error_report now err
  | Create => create_error_report
  | Fill p f => update_report p f ;! ret 0
  | Release p => release_error_report p ;! ret 0
  end.

(** Clients use the pointers they hold, and not the number that is about to be used again; the codes of
    reports are not numbers of messages, and the text of a number they ask for exists. *)
Definition op_ok (held : list Z) (e : Errors) (o : op) : Prop :=
  match o with
  | SetErrno no msg => no <> 0 -> is_Some msg -> usable e no /\ exists t, text_of e no = Val (Some t)
  | SetGai no => is_message no = false
  | SetReport p => p = 0 \/ p ∈ held /\ (forall r, es_reports e !! p = Some r -> is_message (swrap 32 (er_code (rb_pub r) + STD_ERR_BASE)) = false)
  | GetReport _ err => err <> 0 -> exists t, text_of e err = Val (Some t)
  | Create => True
  | Fill p _ => p ∈ held
  | Release p => p = 0 \/ p ∈ held
  end.

(** Does a call make a message? *)
Definition makes (o : op) : bool :=
  match o with
  | SetErrno no msg => negb (no =? 0) && match msg with Some _ => true | None => false end
  | SetGai no => negb (no =? 0)
  | SetReport p => negb (p =? 0)
  | _ => false
  end.

Definition held_after (o : op) (res : Z) (held : list Z) : list Z :=
  match o with
  | GetReport _ _ => if res =? 0 then held else res :: held
  | Create => res :: held
  | Release p => if p =? 0 then held else drop_one p held
  | _ => held
  end.

Definition pos_after (o : op) (pos : Z) : Z := if makes o then (if MESSAGE_CNT <=? pos + 1 then 0 else pos + 1) else pos.

(** What one call does. *)
Record op_does (held : list Z) (e : Errors) (o : op) (res : Z) (e' : Errors) : Prop := {
  od_runs : runs (run_op o) e res e';
  od_ok : errors_ok (held_after o res held) e';
  od_pos : es_msgs_pos e' = pos_after o (es_msgs_pos e);
  od_codes no : (makes o = true -> no <> ERR_MESSAGE_MIN + es_msgs_pos e) -> code_of e' no = code_of e no;
  od_slot no : is_message no = true -> (makes o = true -> no <> ERR_MESSAGE_MIN + es_msgs_pos e) ->
    (msg_at e' no = msg_at e no /\ (em_report (msg_at e no) = 0 \/ (forall f, o <> Fill (em_report (msg_at e no)) f) -> report_at e' no = report_at e no)) \/
    exists now text, o = GetReport now no /\ text_of e no = Val (Some text) /\ slot_asked text e e' no }.

Lemma made_does held e o m res e' : makes o = true -> held_after o res held = held -> runs (run_op o) e res e' -> allocated held e m e' -> op_does held e o res e'.
Proof.
  intros Hm Hh R [Hok _ _ Hpos Hk]. constructor; [done|by rewrite Hh|by unfold pos_after; rewrite Hm| |].
  - intros no Hno. destruct (is_message no) eqn:E; [by destruct (Hk no E (Hno Hm))|]. unfold code_of. by rewrite E.
  - intros no Hno Hne. left. by destruct (Hk no Hno (Hne Hm)).
Qed.

(** A call that keeps the messages. *)
Lemma kept_does held e o res e' : makes o = false -> runs (run_op o) e res e' -> errors_ok held e -> errors_ok (held_after o res held) e' ->
  es_msgs e' = es_msgs e -> es_msgs_pos e' = es_msgs_pos e ->
  (forall p r', p < es_next e -> es_reports e' !! p = Some r' -> exists r, es_reports e !! p = Some r /\ rb_posix_code r' = rb_posix_code r /\
     ((forall f, o <> Fill p f) -> rb_pub r' = rb_pub r)) ->
  op_does held e o res e'.
Proof.
  intros Hm R Hok Hok' Hms Hpos Hr. assert (Em : forall no, msg_at e' no = msg_at e no) by (intros no; unfold msg_at; by rewrite Hms).
  assert (Hslot : forall no, is_message no = true -> em_report (msg_at e no) <> 0 -> exists r r', es_reports e !! em_report (msg_at e no) = Some r /\
    es_reports e' !! em_report (msg_at e no) = Some r' /\ rb_posix_code r' = rb_posix_code r /\ ((forall f, o <> Fill (em_report (msg_at e no)) f) -> rb_pub r' = rb_pub r)).
  { intros no Hno E. destruct (slot_report _ _ _ Hok Hno E) as [r0 Hr0]. destruct (slot_report _ _ no Hok' Hno) as [r1 Hr1]; [by rewrite Em|]. rewrite Em in Hr1.
    destruct (ek_reports _ _ Hok _ _ Hr0) as [[_ Hlt] _]. destruct (Hr _ _ Hlt Hr1) as (r & Hr2 & ? & ?). by exists r, r1. }
  constructor; [done..|by unfold pos_after; rewrite Hm| |].
  - intros no _. unfold code_of. destruct (is_message no) eqn:Hno; [|done].
    rewrite Em. cbv zeta. destruct (_ || _); [|done]. destruct (Z.eqb_spec (em_report (msg_at e no)) 0) as [E|E].
    + rewrite E. cbn. by destruct (es_reports e' !! 0), (es_reports e !! 0).
    + destruct (Hslot no Hno E) as (r & r' & -> & -> & Hpc & _). by rewrite Hpc.
  - intros no Hno _. left. split; [done|]. intros Hf. unfold report_at. rewrite Em. destruct (Z.eqb_spec (em_report (msg_at e no)) 0) as [E|E]; [done|].
    destruct Hf as [|Hf]; [done|]. destruct (Hslot no Hno E) as (r & r' & -> & -> & _ & Hp). cbn [option_map]. by rewrite Hp.
Qed.

Lemma update_does held e p f : errors_ok held e -> p ∈ held -> exists res e', op_does held e (Fill p f) res e'.
Proof.
  intros Hok Hp. pose proof (ek_held _ _ Hok) as Hh. rewrite Forall_forall in Hh. destruct (Hh p Hp) as [r Hr]. exists 0, (changed p f e).
  apply kept_does; try done; [|by apply changed_ok|].
  - eapply runs_bind; [by eapply update_report_runs|apply runs_ret].
  - intros q r' _ (r0 & Hr0 & Hpc & _ & _ & Hpub)%changed_lookup. exists r0. split; [done|]. split; [done|]. intros Hf. apply Hpub. intros ->. by apply (Hf f).
Qed.

Lemma create_does held e : errors_ok held e -> exists res e', op_does held e Create res e'.
Proof.
  intros Hok. exists (es_next e), (set_reports (<[es_next e := mkBuffer empty_report 0 1 1]> (es_reports e)) (es_next e + 1) e).
  apply kept_does; try done; [by apply new_ok|].
  intros p r' Hp. cbn. rewrite lookup_insert_ne by lia. intros Hr. by exists r'.
Qed.

Lemma release_does held e p : errors_ok held e -> p = 0 \/ p ∈ held -> exists res e', op_does held e (Release p) res e'.
Proof.
  intros Hok Hp. destruct (Z.eqb_spec p 0) as [->|Hp0].
  - exists 0, e. apply kept_does; try done. intros p r' _ Hr. by exists r'.
  - destruct Hp as [|Hp]; [done|]. destruct (release_report_runs held e p Hok Hp) as (e' & R & Hok' & Hs & Hms & Hpos & _).
    exists 0, e'. apply kept_does; try done.
    + eapply runs_bind; [exact R|apply runs_ret].
    + cbn [held_after]. by rewrite (proj2 (Z.eqb_neq p 0)).
    + intros q rq Hq Hrq. destruct (Hs q rq Hq Hrq) as (r & Hr & Hpub & Hpc). by exists r.
Qed.

Lemma op_runs held e o : errors_ok held e -> op_ok held e o -> exists res e', op_does held e o res e'.
Proof.
  intros Hok Ho. destruct o as [no msg|no|p|now err| |p f|p].
  - destruct (decide (no <> 0 /\ is_Some msg)) as [[Hno [m ->]]|Hn].
    + destruct Ho as (Hu & t & Ht); [done|by eexists|]. destruct (set_errno_runs strerror gai_strerror number_text held e no m t Hok Hno Hu Ht) as (e' & R & Hal).
      eexists _, e'. eapply made_does; [|done|exact R|exact Hal]. cbn. by rewrite (proj2 (Z.eqb_neq no 0)).
    + exists no, (put_errno no e). assert (Em : makes (SetErrno no msg) = false).
      { cbn. destruct (Z.eqb_spec no 0), msg; try done. destruct Hn. split; [done|by eexists]. }
      apply kept_does; try done; [|by apply put_errno_ok|intros p r' _ Hr; by exists r'].
      cbn [run_op]. unfold Errors.set_errno. eapply runs_bind; [apply runs_modify|]. cbn in Em.
      destruct msg; [|apply runs_ret]. rewrite andb_true_r in Em. apply negb_false_iff in Em. rewrite Em. apply runs_ret.
  - destruct (decide (no = 0)) as [->|Hno].
    + eexists _, (put_errno 0 e). apply kept_does; try done; [by apply put_errno_ok|]. intros p r' _ Hr. by exists r'.
    + destruct (set_gai_runs strerror gai_strerror number_text held e no Hok Hno Ho) as (e' & R & Hal). eexists _, e'. eapply made_does; [|done|exact R|exact Hal].
      cbn. by rewrite (proj2 (Z.eqb_neq no 0)).
  - destruct (decide (p = 0)) as [->|Hp0].
    + eexists _, (put_errno 0 e). apply kept_does; try done; [by apply put_errno_ok|]. intros p r' _ Hr. by exists r'.
    + destruct Ho as [|[Hp Hcode]]; [done|]. pose proof (ek_held _ _ Hok) as Hh. rewrite Forall_forall in Hh. destruct (Hh p Hp) as [r Hr].
      destruct (set_report_runs strerror gai_strerror number_text held e p r Hok Hp Hr (Hcode r Hr)) as (e' & R & Hal & _). eexists _, e'.
      eapply made_does; [|done|exact R|exact Hal]. cbn. by rewrite (proj2 (Z.eqb_neq p 0)).
  - destruct (decide (err = 0)) as [->|Herr].
    + exists 0, e. apply kept_does; try done. intros p r' _ Hr. by exists r'.
    + destruct (Ho Herr) as [t Ht]. destruct (get_error_report_runs strerror gai_strerror number_text held e now err t Hok Herr Ht) as (p & e' & r & R & Hp & Hok' & _ & _ & Hk & Hpos & Hs).
      exists p, e'. constructor; try done; [cbn [held_after]; by rewrite (proj2 (Z.eqb_neq p 0))|]. intros no Hno _.
      destruct (Hs no Hno) as [[Hm Hr]|[-> Ha]]; [by left|]. right. by exists now, t.
  - by apply create_does.
  - by apply update_does.
  - by apply release_does.
Qed.

(** ** Histories *)

Inductive history : list Z -> Errors -> list op -> list Z -> Errors -> Prop :=
  | history_nil held e : history held e [] held e
  | history_cons held e o res e1 os held' e' : op_ok held e o -> runs (run_op o) e res e1 ->
      history (held_after o res held) e1 os held' e' -> history held e (o :: os) held' e'.

Definition made (os : list op) : Z := Z.of_nat (length (List.filter makes os)).

Lemma op_does_unique held e o res e' : errors_ok held e -> op_ok held e o -> runs (run_op o) e res e' -> op_does held e o res e'.
Proof.
  intros Hok Ho R. destruct (op_runs held e o Hok Ho) as (res1 & e1 & Hd). pose proof (od_runs _ _ _ _ _ Hd) as R1.
  unfold runs in R, R1. rewrite R in R1. by injection R1 as <- <-.
Qed.

Lemma pos_after_mod o pos : 0 <= pos < MESSAGE_CNT -> pos_after o pos = (pos + (if makes o then 1 else 0)) mod MESSAGE_CNT.
Proof.
  intros Hp. unfold pos_after. destruct (makes o); [|by rewrite Z.add_0_r, Z.mod_small].
  destruct (Z.leb_spec MESSAGE_CNT (pos + 1)); [|by rewrite Z.mod_small by lia]. replace (pos + 1) with MESSAGE_CNT by lia. reflexivity.
Qed.

(** The calls do not make [made os] messages that come to the number [no]. *)
Definition spared (pos : Z) (os : list op) (no : Z) : Prop := forall i, 0 <= i < made os -> no <> ERR_MESSAGE_MIN + (pos + i) mod MESSAGE_CNT.

Lemma made_cons o os : made (o :: os) = (if makes o then 1 else 0) + made os.
Proof. unfold made. cbn [List.filter]. destruct (makes o); cbn [length]; lia. Qed.

Lemma spared_cons o os pos no : 0 <= pos < MESSAGE_CNT -> spared pos (o :: os) no ->
  (makes o = true -> no <> ERR_MESSAGE_MIN + pos) /\ spared (pos_after o pos) os no.
Proof.
  intros Hp Hno. unfold spared in *. rewrite made_cons in Hno. split.
  - intros Hm. rewrite Hm in Hno. specialize (Hno 0). rewrite Z.add_0_r, Z.mod_small in Hno by done. apply Hno. unfold made. lia.
  - intros i Hi. rewrite pos_after_mod, Zplus_mod_idemp_l by done. specialize (Hno ((if makes o then 1 else 0) + i)). rewrite Z.add_assoc in Hno.
    apply Hno. destruct (makes o); lia.
Qed.

Lemma history_ok held e os held' e' : history held e os held' e' -> errors_ok held e ->
  errors_ok held' e' /\ es_msgs_pos e' = (es_msgs_pos e + made os) mod MESSAGE_CNT /\
  (forall no, spared (es_msgs_pos e) os no -> code_of e' no = code_of e no).
Proof.
  induction 1 as [held e|held e o res e1 os held' e' Ho R _ IH]; intros Hok.
  - split; [done|]. split; [|done]. unfold made. cbn. rewrite Z.add_0_r, Z.mod_small; [done|apply (ek_pos _ _ Hok)].
  - destruct (op_does_unique _ _ _ _ _ Hok Ho R) as [_ Hok1 Hpos Hk _]. destruct (IH Hok1) as (Hok' & Hpos' & Hk'). pose proof (ek_pos _ _ Hok) as Hp.
    split; [done|]. split.
    + rewrite Hpos', Hpos, pos_after_mod, made_cons, Zplus_mod_idemp_l by done. f_equal. lia.
    + intros no [Hm Hno]%spared_cons; [|done]. rewrite Hk' by (by rewrite Hpos). by apply Hk.
Qed.

(** ** Texts *)

(** A number that nobody asks a report of keeps its message. *)
Lemma history_unasked held e os held' e' no : history held e os held' e' -> errors_ok held e -> is_message no = true -> spared (es_msgs_pos e) os no ->
  (forall now, GetReport now no ∉ os) -> msg_at e' no = msg_at e no.
Proof.
  induction 1 as [held e|held e o res e1 os held' e' Ho R _ IH]; intros Hok Hm Hs Hn; [done|].
  destruct (op_does_unique _ _ _ _ _ Hok Ho R) as [_ Hok1 Hpos _ Hslot]. apply spared_cons in Hs as [Hne Hs]; [|apply (ek_pos _ _ Hok)].
  rewrite IH; [|done|done|by rewrite Hpos|intros now Hin; by apply (Hn now), list_elem_of_further]. destruct (Hslot no Hm Hne) as [[-> _]|(now & t & -> & _)]; [done|].
  destruct (Hn now). apply list_elem_of_here.
Qed.

(** Once a number has a report, it keeps it. *)
Lemma history_report held e os held' e' no : history held e os held' e' -> errors_ok held e -> is_message no = true -> spared (es_msgs_pos e) os no ->
  em_report (msg_at e no) <> 0 -> em_report (msg_at e' no) = em_report (msg_at e no).
Proof.
  induction 1 as [held e|held e o res e1 os held' e' Ho R _ IH]; intros Hok Hm Hs Hn; [done|].
  destruct (op_does_unique _ _ _ _ _ Hok Ho R) as [_ Hok1 Hpos _ Hslot]. apply spared_cons in Hs as [Hne Hs]; [|apply (ek_pos _ _ Hok)].
  destruct (Hslot no Hm Hne) as [[E _]|(now & t & _ & _ & E & _)]; [|done]. rewrite IH; [by rewrite E|done|done|by rewrite Hpos|by rewrite E].
Qed.

(** A text that is a format which stands for itself. *)
Definition plain_text (t : list Z) : Prop := Forall (fun ch => ch <> 0 /\ ch <> 39 /\ ch <> ch_lcur) t.

Lemma plain_format t params : plain_text t -> format_text number_text t params = Val t.
Proof.
  intros Ht. unfold format_text, format_error_report_message.
  assert (Hl : forall n acc s, (length t < n)%nat -> format_loop number_text n t false params acc s = (Val (acc ++ t), s)).
  { induction Ht as [|ch t (Hc0 & Hc & Hb) Ht IH]; intros n acc s Hn; (destruct n as [|n]; [cbn in Hn; lia|]); cbn [format_loop].
    - by rewrite app_nil_r.
    - cbn [andb]. rewrite (proj2 (Z.eqb_neq ch 39)), (proj2 (Z.eqb_neq ch ch_lcur)) by done. cbn [andb length] in *.
      rewrite IH by lia. by rewrite <- (assoc_L (++)). }
  by rewrite Hl by lia.
Qed.

(** The text is in the message, and in its report if there is one. *)
Definition says (t : list Z) (e : Errors) (no : Z) : Prop :=
  em_source (msg_at e no) = SRC_MESSAGE /\ em_text (msg_at e no) = Some t /\
  (em_report (msg_at e no) = 0 \/ exists r, report_at e no = Some r /\ er_format r = Some t).

Lemma says_text t e no : is_message no = true -> says t e no -> em_report (msg_at e no) = 0 \/ plain_text t -> text_of e no = Val (Some t).
Proof.
  intros Hm (Hs & Ht & Hr) Hp. unfold ErrorProps.text_of. rewrite Hm, Hs, Ht. destruct (Z.eqb_spec (em_report (msg_at e no)) 0) as [E|E].
  - unfold report_at. by rewrite E.
  - destruct Hr as [|(r & -> & Hf)]; [done|]. destruct Hp as [|Hp]; [done|]. destruct r as [c fmt params tm props]. cbn in Hf. subst fmt.
    rewrite (plain_format t params Hp), cstr_id; [done|]. eapply Forall_impl; [exact Hp|]. by intros ch (? & _).
Qed.

Lemma history_says t held e os held' e' no : history held e os held' e' -> errors_ok held e -> is_message no = true -> spared (es_msgs_pos e) os no ->
  plain_text t -> (forall f, Fill (em_report (msg_at e' no)) f ∉ os) -> says t e no -> says t e' no.
Proof.
  induction 1 as [held e|held e o res e1 os held' e' Ho R Hh IH]; intros Hok Hm Hs Hp Hf Ht; [done|].
  destruct (op_does_unique _ _ _ _ _ Hok Ho R) as [_ Hok1 Hpos _ Hslot]. apply spared_cons in Hs as [Hne Hs]; [|apply (ek_pos _ _ Hok)].
  rewrite <- Hpos in Hs. apply IH; [done..|intros f Hin; by apply (Hf f), list_elem_of_further|].
  pose proof (history_report _ _ _ _ _ no Hh Hok1 Hm Hs) as Hrep. destruct (Hslot no Hm Hne) as [[E Hk]|(now & text & -> & Htx & H0 & p & r & Hp0 & E & Hr & Hfm)].
  - destruct Ht as (H1 & H2 & H3). rewrite E in Hrep. unfold says. rewrite E. split; [done|]. split; [done|].
    destruct (decide (em_report (msg_at e no) = 0)) as [|Hz]; [by left|right]. destruct H3 as [|H3]; [done|]. rewrite Hk; [done|].
    right. intros f ->. apply (Hf f). rewrite (Hrep Hz). apply list_elem_of_here.
  - rewrite (says_text t e no Hm Ht) in Htx by (by left). injection Htx as <-. destruct Ht as (H1 & H2 & _). unfold says. rewrite E. cbn. split; [done|]. split; [done|].
    right. by exists r.
Qed.

Lemma size_of_list (l : list Z) : (size (list_to_set l : gset Z) <= length l)%nat.
Proof.
  induction l as [|x l IH]; [done|]. rewrite list_to_set_cons, size_union_alt, size_singleton. cbn [length].
  assert (size (list_to_set l ∖ {[x]} : gset Z) <= size (list_to_set l : gset Z))%nat by (apply subseteq_size; set_solver). lia.
Qed.

Lemma size_reports held e : errors_ok held e -> Z.of_nat (size (es_reports e)) <= Z.of_nat (length held) + MESSAGE_CNT.
Proof.
  intros Hok. rewrite <- size_dom. assert (Hsub : dom (es_reports e) ⊆ list_to_set (held ++ slots e) (C := gset Z)).
  { intros p [r Hr]%elem_of_dom. destruct (ek_reports _ _ Hok p r Hr) as (_ & _ & Hf & Hf0). apply elem_of_list_to_set, elem_of_app.
    destruct (decide (p ∈ held)) as [|Hh]; [by left|]. destruct (decide (p ∈ slots e)) as [|Hs]; [by right|]. apply count_none in Hh, Hs. lia. }
  apply subseteq_size in Hsub. pose proof (size_of_list (held ++ slots e)) as Hs. pose proof (ek_msgs _ _ Hok) as Hl. unfold slots in Hs. rewrite length_app, length_map in Hs. unfold slots in Hsub. lia.
Qed.

Lemma errors_init_ok next : 0 < next -> errors_ok [] (errors_init next).
Proof.
  intros Hn. constructor; try done; cbn -[replicate].
  - by apply Forall_replicate.
  - unfold slots. cbn -[replicate]. rewrite fmap_replicate || rewrite (fmap_replicate em_report). by apply Forall_replicate.
Qed.

(** C15: the message that [set_errno] makes has the code of the number it is made of, and the text that is
    given with the text of that number; all other numbers keep their texts and codes.  Whatever calls clients make then ([op_ok]),
    until one hundred more messages are made the new number has the same code; and it has the same text if nobody
    asks for its report, or if there are no quotes and braces in the text, which the report takes for a format, and nobody
    assigns to the fields of this report. *)
Theorem set_errno_meaning held e no msg t : errors_ok held e -> no <> 0 -> usable e no -> text_of e no = Val (Some t) ->
  exists no' e', runs (set_errno no (Some msg)) e no' e' /\ es_errno e' = no' /\
    (exists n, runs (errno_to_str code_fuel no') e' (Some (message_text no msg t)) (put_errno n e')) /\
    (forall other, other <> no' -> text_of e' other = text_of e other /\ code_of e' other = code_of e other) /\
    (forall os held' e'', history held e' os held' e'' -> made os < MESSAGE_CNT ->
       runs (get_error_code code_fuel no') e'' (code_of e no) e'' /\
       ((forall now, GetReport now no' ∉ os) \/
        plain_text (message_text no msg t) /\ (forall f, Fill (em_report (msg_at e'' no')) f ∉ os) ->
        exists n, runs (errno_to_str code_fuel no') e'' (Some (message_text no msg t)) (put_errno n e''))).
Proof.
  intros Hok Hno Hu Ht. destruct (set_errno_runs strerror gai_strerror number_text held e no msg t Hok Hno Hu Ht) as (e' & R & [Hok' He Hmsg Hpos Hk]).
  set (no' := ERR_MESSAGE_MIN + es_msgs_pos e) in *. destruct (slot_message _ (ek_pos _ _ Hok)) as [Hm _]. fold no' in Hm.
  assert (Hsays : says (message_text no msg t) e' no') by (unfold says; rewrite Hmsg; cbn; auto).
  assert (Hstr : forall h e1, errors_ok h e1 -> text_of e1 no' = Val (Some (message_text no msg t)) ->
    exists n, runs (errno_to_str code_fuel no') e1 (Some (message_text no msg t)) (put_errno n e1)).
  { intros h e1 Hok1 Ht1. destruct (errno_to_str_runs strerror gai_strerror number_text h e1 no' Hok1) as [n Hn]. exists n. unfold runs. by rewrite Hn, Ht1. }
  exists no', e'. split; [done|]. split; [done|]. split; [|split].
  - apply (Hstr held e' Hok'). apply says_text; [done..|left; by rewrite Hmsg].
  - intros other Hne. destruct (is_message other) eqn:Ho; [by destruct (Hk other Ho Hne)|]. unfold ErrorProps.text_of, code_of. by rewrite Ho.
  - intros os held' e'' Hh Hlt. destruct (history_ok _ _ _ _ _ Hh Hok') as (Hok'' & _ & Hcode).
    assert (Hs : spared (es_msgs_pos e') os no').
    { intros i Hi. pose proof (ek_pos _ _ Hok) as Hp. rewrite Hpos. unfold no', MESSAGE_CNT in *.
      change (ERR_MESSAGE_MAX - ERR_MESSAGE_MIN + 1) with 100 in *. destruct (Z.leb_spec 100 (es_msgs_pos e + 1)); [rewrite Z.mod_small; lia|].
      destruct (Z.lt_ge_cases (es_msgs_pos e + 1 + i) 100) as [Hs|Hs]; [rewrite Z.mod_small; lia|].
      replace (es_msgs_pos e + 1 + i) with (es_msgs_pos e + 1 + i - 100 + 1 * 100) by lia. rewrite Z_mod_plus_full, Z.mod_small; lia. }
    split.
    + replace (code_of e no) with (code_of e'' no'); [by eapply get_error_code_runs|]. rewrite Hcode by done.
      unfold code_of at 1. rewrite Hm, Hmsg. cbn. by destruct (es_reports e' !! 0).
    + intros [Hn|[Hp Hf]]; apply (Hstr held' e'' Hok'').
      * pose proof (history_unasked _ _ _ _ _ no' Hh Hok' Hm Hs Hn) as E. rewrite Hmsg in E.
        apply says_text; [done| |left; by rewrite E]. unfold says. rewrite E. cbn. auto.
      * apply says_text; [done| |by right]. by eapply history_says.
Qed.

(** C16: any calls that satisfy [op_ok], one after another from the start, run, no assert fails, a report is in the memory as long as a client holds
    it or a message refers to it, its counts are the number of these references, and there are no others: not more than
    one hundred reports that no client holds. *)
Theorem error_reports_counted next os held e : 0 < next -> history [] (errors_init next) os held e ->
  (forall o, op_ok held e o -> exists res e', runs (run_op o) e res e') /\
  (forall p, is_Some (es_reports e !! p) <-> p ∈ held \/ p <> 0 /\ p ∈ slots e) /\
  (forall p r, es_reports e !! p = Some r -> rb_gets r = count p held /\ rb_refs r = count p held + count p (slots e)) /\
  Z.of_nat (size (es_reports e)) <= Z.of_nat (length held) + MESSAGE_CNT.
Proof.
  intros Hn Hh. destruct (history_ok _ _ _ _ _ Hh (errors_init_ok next Hn)) as (Hok & _). split; [|split; [|split]].
  - intros o Ho. destruct (op_runs held e o Hok Ho) as (res & e' & Hd). exists res, e'. by destruct Hd.
  - intros p. split.
    + intros [r Hr]. destruct (ek_reports _ _ Hok p r Hr) as (Hp & _ & Hf & Hf0).
      destruct (decide (p ∈ held)) as [|Hh1]; [by left|]. destruct (decide (p ∈ slots e)) as [|Hs]; [right; split; [lia|done]|]. apply count_none in Hh1, Hs. lia.
    + pose proof (ek_held _ _ Hok) as H1. pose proof (ek_slots _ _ Hok) as H2. rewrite Forall_forall in H1, H2. intros [Hp|[Hp0 Hp]]; [by apply H1|by apply H2].
  - intros p r Hr. by destruct (ek_reports _ _ Hok p r Hr) as (_ & ? & ? & _).
  - by apply size_reports.
Qed.
End Counts.

(** ** Witnesses *)

Lemma set_errno_meaning_witness :
  exists no' e', runs (set_errno' ERR_INV_ADDRESS (Some (str "Cannot read memory"))) (errors_init 1) no' e' /\ es_errno e' = no' /\
    (exists n, runs (errno_to_str' code_fuel no') e' (Some (str "Cannot read memory. Invalid address")) (put_errno n e')) /\
    (forall other, other <> no' -> text_of sample_strerror sample_gai_strerror sample_number_text e' other =
       text_of sample_strerror sample_gai_strerror sample_number_text (errors_init 1) other /\ code_of e' other = code_of (errors_init 1) other) /\
    (forall os held' e'', history sample_strerror sample_gai_strerror sample_number_text [] e' os held' e'' -> made os < MESSAGE_CNT ->
       runs (get_error_code code_fuel no') e'' ERR_INV_ADDRESS e'' /\
       ((forall now, GetReport now no' ∉ os) \/
        plain_text (str "Cannot read memory. Invalid address") /\ (forall f, Fill (em_report (msg_at e'' no')) f ∉ os) ->
        exists n, runs (errno_to_str' code_fuel no') e'' (Some (str "Cannot read memory. Invalid address")) (put_errno n e''))).
Proof.
  apply (set_errno_meaning sample_strerror sample_gai_strerror sample_number_text [] (errors_init 1) ERR_INV_ADDRESS (str "Cannot read memory") (str "Invalid address"));
    [apply errors_init_ok; lia|done|done|reflexivity].
Defined.

(** A message, its report, and a report of a client that becomes a message. *)
Definition sample_ops : list op :=
  [SetErrno 2 (Some (str "Cannot open file")); GetReport (Some 7) ERR_MESSAGE_MIN; Create; Fill 2 (fun r => mkReport 5 (er_format r) [] 0 []);
   SetReport 2; Release 2].

Definition sample_after (n : nat) : Errors :=
  fold_left (fun e o => snd (run_op sample_strerror sample_gai_strerror sample_number_text o e)) (take n sample_ops) (errors_init 1).

Lemma error_reports_counted_witness :
  exists e, history sample_strerror sample_gai_strerror sample_number_text [] (errors_init 1) sample_ops [1] e /\
  (forall o, op_ok sample_strerror sample_gai_strerror sample_number_text [1] e o ->
     exists res e', runs (run_op sample_strerror sample_gai_strerror sample_number_text o) e res e') /\
  (forall p, is_Some (es_reports e !! p) <-> p ∈ [1] \/ p <> 0 /\ p ∈ slots e) /\
  (forall p r, es_reports e !! p = Some r -> rb_gets r = count p [1] /\ rb_refs r = count p [1] + count p (slots e)) /\
  Z.of_nat (size (es_reports e)) <= Z.of_nat (length [1]) + MESSAGE_CNT.
Proof.
  exists (sample_after 6). assert (He : history sample_strerror sample_gai_strerror sample_number_text [] (errors_init 1) sample_ops [1] (sample_after 6)).
  { apply history_cons with (res := ERR_MESSAGE_MIN) (e1 := sample_after 1); [intros _ _; split; [done|eexists; reflexivity]|by vm_compute|].
    apply history_cons with (res := 1) (e1 := sample_after 2); [intros _; eexists; vm_compute; reflexivity|by vm_compute|].
    apply history_cons with (res := 2) (e1 := sample_after 3); [exact I|by vm_compute|].
    apply history_cons with (res := 0) (e1 := sample_after 4); [cbn; left|by vm_compute|].
    apply history_cons with (res := ERR_MESSAGE_MIN + 1) (e1 := sample_after 5); [right; split; [cbn; left|]|by vm_compute|].
    { assert (Hr : es_reports (sample_after 4) !! 2 = Some (mkBuffer (mkReport 5 None [] 0 []) 0 1 1)) by (by vm_compute). rewrite Hr. by intros r [= <-]. }
    apply history_cons with (res := 0) (e1 := sample_after 6); [right; cbn; left|by vm_compute|]. apply history_nil. }
  split; [exact He|]. apply (error_reports_counted sample_strerror sample_gai_strerror sample_number_text 1 sample_ops [1] (sample_after 6)); [lia|exact He].
Defined.
