(* ===== verification/ErrorText.v ===== *)
(** * Error objects: the texts (ErrorObjects.v, framework/json.c)

    The text of a report, and that [write_error_object] writes it. *)

From S2P Require Import Prelude Streams JsonWrite JsonRead JsonStruct JsonCopy Errors ErrorObjects ErrorProps ErrorOps ErrorCounts.

(** ** The members of the object of a report *)

(** A name and the text of a value. *)
Definition member : Type := list Z * list Z.
Definition members_text (l : list member) : list (list Z) := map (member_text snd fst) l.

Definition param_text (p : option (list Z)) : list Z := default [] p.

Definition report_members (r : ErrorReport) : list member :=
  (if er_time_stamp r =? 0 then [] else [(str "Time", ulong_text (er_time_stamp r))]) ++
  match er_format r with Some fmt => [(str "Format", string_text (Some fmt))] | None => [] end ++
  match er_params r with [] => [] | l => [(str "Params", array_text (map param_text l))] end ++
  er_props r.

Definition report_text (r : ErrorReport) : list Z := object_text (members_text ((str "Code", long_text (er_code r)) :: report_members r)).

(** ** Reports that can be sent *)

Notation plain := (Forall (fun ch : Z => ch <> 0)).

Definition good_bytes (fuel : nat) (s : list Z) : Prop := bytes s /\ plain s /\ (length s < fuel)%nat.

(** The text of a value that is its own copy. *)
Definition good_value (fuel : nat) (v : list Z) : Prop := jvalue false v v /\ good_bytes fuel v.

Definition good_name (fuel : nat) (name : list Z) : Prop := good_bytes fuel name /\ (length name < 256)%nat /\
  name ∉ [str "Code"; str "Time"; str "Format"; str "Params"].

Record good_report (fuel : nat) (r : ErrorReport) : Prop := {
  gr_code : - 2 ^ 31 <= er_code r < 2 ^ 31;
  gr_time : 0 <= er_time_stamp r < 2 ^ 64;
  gr_format : match er_format r with Some fmt => good_bytes fuel fmt | None => True end;
  gr_params : Forall (fun p => exists v, p = Some v /\ good_value fuel v) (er_params r);
  gr_props : Forall (fun x => good_name fuel (fst x) /\ good_value fuel (snd x)) (er_props r);
  gr_fuel : (ULONG_DIGITS < fuel)%nat /\ (length (er_params r) < fuel)%nat /\ (length (er_props r) + 4 < fuel)%nat }.

Lemma sep_flat t l : sep_text (t :: l) = t ++ flat_map (fun t => ch_comma :: t) l.
Proof.
  revert t. induction l as [|u l IH]; intros t; [cbn; by rewrite app_nil_r|]. rewrite sep_text_cons. cbn [more_text flat_map]. by rewrite IH.
Qed.

Definition more (l : list (list Z)) : list Z := flat_map (fun t => ch_comma :: t) l.

Lemma more_app l k : more (l ++ k) = more l ++ more k.
Proof. apply flat_map_app. Qed.

Section Write.
Context {OS : Type} {os_ops : OutputStream OS} {os_laws : OutputStreamLaws OS}.

Lemma writes_member (name text : list Z) (m : M OS unit) : writable name -> writes m text ->
  writes (write_member name ;! m) (more (members_text [(name, text)])).
Proof.
  intros Hn Hm. unfold more, members_text, member_text, write_member. cbn [map flat_map fst snd]. rewrite app_nil_r.
  replace (ch_comma :: string_text (Some name) ++ ch_colon :: text) with ((ch_comma :: string_text (Some name) ++ [ch_colon]) ++ text)
    by (cbn [app]; by rewrite <- (assoc_L (++))).
  apply writes_bind; [|done]. apply writes_cons; [unfold is_byte; lia|].
  apply writes_bind; [by apply writes_json_string|apply writes_byte; unfold is_byte; lia].
Qed.

Lemma writes_fixed s text (m : M OS unit) : writable (str s) -> writes m text ->
  writes (write_member (str s) ;! m) (more (members_text [(str s, text)])).
Proof. apply writes_member. Qed.

Lemma writes_params l : Forall (fun p => exists v, p = Some v /\ bytes v) l -> forall n, (0 < n)%nat -> writes (write_params n l) (more (map param_text l)).
Proof.
  induction 1 as [|p l (v & -> & Hv) Hl IH]; intros n Hn; [apply writes_ret|]. cbn [write_params map]. rewrite (proj2 (Nat.ltb_lt 0 n)) by done.
  change (more (param_text (Some v) :: map param_text l)) with ([ch_comma] ++ v ++ more (map param_text l)).
  apply writes_bind; [apply writes_byte; unfold is_byte; lia|]. apply writes_bind; [by apply writes_string|]. apply IH. lia.
Qed.

Lemma writes_params_array l : l <> [] -> Forall (fun p => exists v, p = Some v /\ bytes v) l ->
  writes (write_stream ch_lbra ;! write_params 0 l ;! write_stream ch_rbra) (array_text (map param_text l)).
Proof.
  intros Hne Hl. unfold array_text. apply writes_cons; [unfold is_byte; lia|]. apply writes_bind; [|apply writes_byte; unfold is_byte; lia].
  destruct Hl as [|p l (v & -> & Hv) Hl]; [done|]. cbn [write_params map]. rewrite sep_flat. change (0 <? 0)%nat with false. cbv iota.
  apply (writes_bind _ _ []); [apply writes_ret|]. apply writes_bind; [by apply writes_string|]. apply writes_params; [done|lia].
Qed.

Lemma writes_props l : Forall (fun x : member => writable (fst x) /\ bytes (snd x)) l ->
  writes (write_props l) (more (members_text l)).
Proof.
  induction 1 as [|[name value] l (Hw & Hv) _ IH]; [apply writes_ret|]. cbn [write_props fst snd] in *.
  change ((name, value) :: l) with ([(name, value)] ++ l). unfold members_text. rewrite map_app, more_app. fold (members_text l).
  intros o k He. destruct (writes_member name value (write_string value) Hw (writes_string _ Hv) o k He) as (o1 & R1 & He1).
  destruct (IH o1 _ He1) as (o2 & R2 & He2). exists o2. split; [|by rewrite (assoc_L (++))].
  apply runs_bind_inv in R1 as (u & o' & Ra & Rb). destruct u. eapply runs_bind; [exact Ra|]. eapply runs_bind; [exact Rb|exact R2].
Qed.

Lemma writes_error_props fuel r : good_report fuel r -> Z.of_nat fuel < 2 ^ 32 -> writes (write_error_props r) (more (members_text (report_members r))).
Proof.
  intros [Hc Ht Hf Hpa Hpr _] Hs. unfold report_members, members_text. rewrite !map_app, !more_app. unfold write_error_props. apply writes_bind; [|apply writes_bind; [|apply writes_bind]].
  - destruct (er_time_stamp r =? 0); [apply writes_ret|]. apply writes_fixed; [apply str_writable; by vm_compute|]. by apply writes_ulong.
  - destruct (er_format r) as [fmt|]; [|apply writes_ret]. destruct Hf as (Hb & Hz & Hl). apply writes_fixed; [apply str_writable; by vm_compute|]. apply writes_json_string. split_and!; [done|done|lia].
  - destruct (er_params r) as [|p l] eqn:E; [apply writes_ret|]. cbn [length Nat.ltb Nat.leb]. apply writes_fixed; [apply str_writable; by vm_compute|]. apply writes_params_array; [done|].
    eapply Forall_impl; [exact Hpa|]. cbn. intros q (v & -> & _ & Hb & _). by exists v.
  - apply writes_props. eapply Forall_impl; [exact Hpr|]. cbn. intros x [((Hb & Hz & _) & Hl & _) (_ & Hv & _)]. split; [|done]. split_and!; [done|done|lia].
Qed.

Variable strerror : Z -> option (list Z) * bool.
Variable gai_strerror : Z -> list Z.
Variable number_text : list Z -> list Z -> option (list Z).
Notation write_error_object := (write_error_object strerror gai_strerror number_text).
Notation text_of := (text_of strerror gai_strerror number_text).

Lemma write_stream_errors b (w : WithErrors OS) : write_stream b w = on_stream (write_stream b) w.
Proof. destruct w as [o e]. unfold write_stream, on_stream, zoom. cbn. by destruct (_ && _). Qed.

(** [write_error_object] writes the report of a number, and gives the report back. *)
Lemma write_object_runs fuel held o e l now err text : errors_ok held e -> err <> 0 -> text_of e err = Val (Some text) ->
  good_report fuel (sent_report e now err text) -> Z.of_nat fuel < 2 ^ 32 -> emits o l ->
  exists o' e', runs (write_error_object now err) (mkWE o e) tt (mkWE o' e') /\ emits o' (l ++ report_text (sent_report e now err text)) /\
    errors_ok held e' /\ codes_kept e e'.
Proof.
  intros Hok Herr Ht Hg Hf He. set (r := sent_report e now err text) in *.
  destruct (get_error_report_runs strerror gai_strerror number_text held e now err text Hok Herr Ht) as (p & e1 & rb & R1 & Hp & Hok1 & Hrb & Hpub & Hk1 & _).
  fold r in Hpub. destruct (release_report_runs (p :: held) e1 p Hok1) as (e2 & R2 & Hok2 & Hs2 & Hm2 & _); [left|].
  cbn [drop_one] in Hok2. rewrite Z.eqb_refl in Hok2.
  assert (Hw : writes (write_stream ch_lcur ;! json_write_string (Some (str "Code")) ;! write_stream ch_colon ;! json_write_long (er_code r) ;! write_error_props r)
    (ch_lcur :: sep_text (members_text ((str "Code", long_text (er_code r)) :: report_members r)))).
  { apply writes_cons; [unfold is_byte; lia|]. unfold members_text. cbn [map]. rewrite sep_flat. unfold member_text at 1. cbn [fst snd].
    rewrite <- (assoc_L (++)). apply writes_bind; [apply writes_json_string, str_writable; by vm_compute|]. cbn [app].
    apply writes_cons; [unfold is_byte; lia|]. apply writes_bind; [apply writes_long; pose proof (gr_code _ _ Hg); lia|]. by eapply writes_error_props. }
  destruct (Hw o l He) as (o1 & W1 & He1). destruct (writes_byte ch_rcur ltac:(unfold is_byte; lia) o1 _ He1) as (o2 & W2 & He2).
  exists o2, e2. split; [|split; [|split; [done|]]].
  - eapply runs_bind; [apply runs_zoom; exact R1|]. cbn beta. rewrite (proj2 (Z.eqb_neq p 0)) by done.
    eapply runs_bind; [apply runs_zoom; by apply get_report_runs|]. rewrite Hpub. eapply runs_bind; [apply runs_zoom; exact W1|].
    eapply runs_bind; [apply runs_zoom; exact R2|]. exact (runs_zoom we_stream (fun x s => mkWE x (we_errors s)) _ (mkWE o1 e2) tt o2 W2).
  - unfold report_text, object_text. by rewrite app_comm_cons, (assoc_L (++)).
  - intros no. rewrite <- Hk1. destruct (is_message no) eqn:Hno; [|unfold code_of; by rewrite Hno].
    apply (meaning_kept strerror gai_strerror number_text (p :: held) held); try done. by rewrite Hm2.
Qed.
End Write.
