(* ===== verification/ErrorRead.v ===== *)
(** * Error objects: reading them (ErrorObjects.v, framework/json.c)

    [read_errno] makes the report that [write_errno] on the other side writes. *)

From S2P Require Import Prelude Streams JsonWrite JsonRead JsonStruct JsonCopy Errors ErrorObjects ErrorProps ErrorOps ErrorCounts ErrorText.

Section Read.
Context {IS : Type} {is_ops : InputStream IS} {is_laws : InputStreamLaws IS}.
Variable fuel : nat.
Hypothesis fuel_digits : (ULONG_DIGITS < fuel)%nat.
Implicit Types (s : Json IS) (e : Errors).

Notation R := (M (WithErrors (Json IS))).

Lemma stream_runs {A} (m : M (Json IS) A) s e a s' : runs m s a s' -> runs (on_stream m) (mkWE s e) a (mkWE s' e).
Proof. intros Hm. exact (runs_zoom we_stream (fun x w => mkWE x (we_errors w)) m (mkWE s e) a s' Hm). Qed.

Lemma errors_runs {A} (m : M Errors A) s e a e' : runs m e a e' -> runs (on_errors m) (mkWE s e) a (mkWE s e').
Proof. intros Hm. exact (runs_zoom we_errors (fun x w => mkWE (we_stream w) x) m (mkWE s e) a e' Hm). Qed.

(** A reader of the text [l] that assigns to the report. *)
Definition fills (m : R unit) (p : Z) (l : list Z) (f : ErrorReport -> ErrorReport) : Prop :=
  forall s e rest, item_end rest -> jyields s (l ++ rest) -> is_Some (es_reports e !! p) ->
  exists s', runs m (mkWE s e) tt (mkWE s' (changed p f e)) /\ jyields s' rest.

Lemma fills_update {A} (m : M (Json IS) A) p l a f (k : A -> R unit) : jtakes item_end m l a -> k a = on_errors (update_report p f) ->
  fills (let! x := on_stream m in k x) p l f.
Proof.
  intros Hm Hk s e rest Hi Hy [r Hr]. destruct (Hm s rest Hi Hy) as (s' & Rm & Hy'). exists s'. split; [|done].
  eapply runs_bind; [by apply stream_runs|]. rewrite Hk. apply errors_runs. by eapply update_report_runs.
Qed.

Lemma item_ends_value rest : item_end rest -> value_end rest.
Proof. destruct rest as [|c rest]; [done|]. by intros [->|[->| ->]]. Qed.

Lemma takes_object v : good_value fuel v -> jtakes (IS := IS) item_end (json_read_object fuel) v (v ++ [0]).
Proof.
  intros [Hv (_ & _ & Hl)] s rest Hi Hy.
  apply (read_object_runs fuel false v v [] s rest Hv); [by apply Forall_nil|by apply item_ends_value|cbn; lia|done|done|done].
Qed.

Lemma takes_param l v : good_value fuel v -> jtakes (IS := IS) item_end (read_errno_param fuel l) v (l ++ [Some v]).
Proof.
  intros Hg. unfold read_errno_param. rewrite <- (app_nil_r v) at 1. eapply (jtakes_bind _ item_end); [by apply takes_object|done|].
  rewrite cstr_nonzero by (by destruct Hg as [_ (_ & ? & _)]). apply jtakes_ret.
Qed.

Lemma append_all {A} (l t : list A) : fold_left (fun l x => l ++ [x]) l t = t ++ l.
Proof. revert t. induction l as [|x l IH]; intros t; [by rewrite app_nil_r|]. cbn [fold_left]. by rewrite IH, <- (assoc_L (++)). Qed.

Lemma takes_params l : Forall (fun p => exists v, p = Some v /\ good_value fuel v) l -> (length l < fuel)%nat ->
  jtakes (IS := IS) item_end (json_read_array fuel (read_errno_param fuel) []) (array_text (map param_text l)) (true, l).
Proof.
  intros Hl Hn. rewrite Forall_forall in Hl. rewrite <- (append_all l []) at 2. apply jtakes_array; [lia|lia| |].
  - intros x Hx. destruct (Hl x Hx) as (v & -> & Hv & _). destruct (jvalue_start _ _ _ Hv) as (c & l' & E & ?). cbn. by rewrite E.
  - intros t x Hx. destruct (Hl x Hx) as (v & -> & Hv). by apply takes_param.
Qed.

(** ** Members *)

(** What a member does. *)
Definition member_does (x : member) (f : ErrorReport -> ErrorReport) : Prop :=
  bytes (fst x) /\ (length (fst x) < fuel)%nat /\ Z.of_nat (length (fst x)) < 2 ^ 32 /\ forall p, fills (read_error_member fuel (cstr (take 255 (fst x))) p) p (snd x) f.

Lemma short_name name : plain name -> (length name < 256)%nat -> cstr (take 255 name) = name.
Proof. intros Hp Hl. rewrite take_ge by lia. by apply cstr_id. Qed.

Lemma fixed_does (x : string) text f : (length (str x) < 21)%nat -> plain (str x) ->
  (forall p, fills (read_error_member fuel (str x) p) p text f) -> member_does (str x, text) f.
Proof.
  intros Hl Hp Hf. split; [apply str_bytes|]. cbn [fst snd]. split; [unfold ULONG_DIGITS in *; lia|]. split; [lia|]. rewrite short_name by (done || lia). exact Hf.
Qed.

Ltac plain_str := repeat (apply Forall_cons; split; [done|]); by apply Forall_nil.

Lemma code_does n : - 2 ^ 31 <= n < 2 ^ 31 ->
  member_does (str "Code", long_text n) (fun r => mkReport n (er_format r) (er_params r) (er_time_stamp r) (er_props r)).
Proof.
  intros Hn. apply fixed_does; [cbn; lia|plain_str|]. intros p. apply (fills_update _ p _ n); [|by rewrite swrap_small by lia].
  intros s rest Hi Hy. destruct (jreads_long fuel n ltac:(lia) fuel_digits s rest (item_end_number _ Hi) Hy) as (s' & ? & ? & _). by exists s'.
Qed.

Lemma time_does n : 0 <= n < 2 ^ 64 -> member_does (str "Time", ulong_text n) (fun r => mkReport (er_code r) (er_format r) (er_params r) n (er_props r)).
Proof.
  intros Hn. apply fixed_does; [cbn; lia|plain_str|]. intros p. apply (fills_update _ p _ n); [|done].
  intros s rest Hi Hy. destruct (jreads_ulong fuel n Hn fuel_digits s rest (item_end_number _ Hi) Hy) as (s' & ? & ? & _). by exists s'.
Qed.

Lemma format_does fmt : good_bytes fuel fmt ->
  member_does (str "Format", string_text (Some fmt)) (fun r => mkReport (er_code r) (Some fmt) (er_params r) (er_time_stamp r) (er_props r)).
Proof.
  intros (Hb & Hp & Hl). apply fixed_does; [cbn; lia|plain_str|]. intros p.
  apply (fills_update _ p _ (Some (fmt ++ [0]))); [|cbn [option_map]; by rewrite cstr_nonzero].
  intros s rest Hi Hy. by apply (reads_alloc_string fuel (Some fmt) s rest); [|lia|].
Qed.

Lemma params_does l : Forall (fun p => exists v, p = Some v /\ good_value fuel v) l -> (length l < fuel)%nat ->
  member_does (str "Params", array_text (map param_text l)) (fun r => mkReport (er_code r) (er_format r) (er_params r ++ l) (er_time_stamp r) (er_props r)).
Proof.
  intros Hl Hn. apply fixed_does; [cbn; lia|plain_str|]. intros p.
  apply (fills_update _ p _ (true, l)); [|done]. by apply takes_params.
Qed.

Lemma prop_does name value : good_name fuel name -> good_value fuel value -> member_does (name, value) (add_report_prop name value).
Proof.
  intros ((Hb & Hp & Hl) & Hs & Hn) Hv. split; [done|]. split; [done|]. split; [cbn [fst]; lia|]. cbn [fst snd]. rewrite short_name by done. intros p.
  assert (Hne : forall x, x ∈ [str "Code"; str "Time"; str "Format"; str "Params"] -> streq name x = false).
  { intros x Hx. destruct (streq_spec name x) as [->|]; done. }
  unfold read_error_member. rewrite !Hne by set_solver. apply (fills_update _ p _ (value ++ [0])); [by apply takes_object|].
  by rewrite cstr_nonzero by (by destruct Hv as [_ (_ & ? & _)]).
Qed.

(** ** The loop *)

(** The report before the first member is made. *)
Definition created e : Errors := set_reports (<[es_next e := mkBuffer empty_report 0 1 1]> (es_reports e)) (es_next e + 1) e.
Definition start (p : Z) e : Z * Errors := if p =? 0 then (es_next e, created e) else (p, e).

Definition fill_all (fs : list (ErrorReport -> ErrorReport)) (r : ErrorReport) : ErrorReport := fold_left (fun r f => f r) fs r.

Lemma start_runs p s e : runs (if p =? 0 then on_errors create_error_report else ret p) (mkWE s e) (fst (start p e)) (mkWE s (snd (start p e))).
Proof. unfold start. by destruct (p =? 0). Qed.

(** The name of a member and the colon. *)
Lemma name_runs name s l : bytes name -> (length name < fuel)%nat -> Z.of_nat (length name) < 2 ^ 32 -> jyields s (string_text (Some name) ++ ch_colon :: l) ->
  exists s1 s2 s3 n, runs (json_read_string fuel 256) s (n, take 255 name) s1 /\ runs (read_whitespace fuel) s1 tt s2 /\
    runs (json_test_char fuel ch_colon) s2 tt s3 /\ jyields s3 l.
Proof.
  intros Hb Hl Hm Hy. destruct (jtakes_string fuel ltac:(lia) (fun _ => True) 256 name Hb Hl Hm ltac:(lia) s _ I Hy) as (s1 & R1 & Hy1).
  destruct (jtakes_white fuel ltac:(lia) (fun _ => True) ch_colon [] (fun _ => json_test_char fuel ch_colon) tt) with (s := s1) (rest := l) as (s3 & R3 & Hy3); [done| |done|done|].
  { eapply jtakes_of. apply jreads_test_char; [done|done|lia]. }
  apply runs_bind_inv in R3 as (u & s2 & Ra & Rb). destruct u. by exists s1, s2, s3, (swrap 32 (Z.of_nat (length name))).
Qed.

Lemma token_runs c s l : stops c -> jyields s (c :: l) -> exists s', runs (read_token fuel) s c s' /\ jyields s' l.
Proof. intros Hc Hy. by apply (jtakes_token (fun _ => True) fuel c Hc ltac:(lia) s l I). Qed.

Lemma loop_runs (xs : list member) fs : Forall2 member_does xs fs -> xs <> [] -> forall n p s e rest, (length xs <= n)%nat ->
  fst (start p e) <> 0 -> is_Some (es_reports (snd (start p e)) !! fst (start p e)) ->
  jyields s (sep_text (members_text xs) ++ ch_rcur :: rest) ->
  exists s', runs (read_error_loop fuel n p) (mkWE s e) (fst (start p e))
      (mkWE s' (changed (fst (start p e)) (fill_all fs) (snd (start p e)))) /\ jyields s' rest.
Proof.
  intros Hall. induction Hall as [|x f xs fs (Hb & Hl & Hm & Hf) Hall IH]; [done|]. intros _ n p s e rest Hn Hp0 Hsome Hy.
  destruct n as [|n]; [cbn [length] in Hn; lia|]. unfold members_text in Hy. cbn [map] in Hy. rewrite sep_flat in Hy. unfold member_text at 1 in Hy.
  rewrite <- !(assoc_L (++)) in Hy. cbn [app] in Hy. destruct (name_runs (fst x) s _ Hb Hl Hm Hy) as (s1 & s2 & s3 & k & R1 & R2 & R3 & Hy3).
  set (p1 := fst (start p e)) in *. set (e1 := snd (start p e)) in *. fold (members_text xs) in Hy3. change (flat_map (fun t => ch_comma :: t) (members_text xs)) with (more (members_text xs)) in Hy3.
  destruct (Hf p1 s3 e1 (more (members_text xs) ++ ch_rcur :: rest)) as (s4 & R4 & Hy4); [destruct xs; cbn; auto|done|done|].
  set (e2 := changed p1 f e1) in *.
  assert (Hrun : forall a w', runs (let! ch := on_stream (read_token fuel) in
      if ch =? ch_comma then read_error_loop fuel n p1 else on_stream (check_char ch ch_rcur) ;! ret p1) (mkWE s4 e2) a w' -> runs (read_error_loop fuel (S n) p) (mkWE s e) a w').
  { intros a w' Rk. cbn [read_error_loop]. eapply runs_bind; [by apply stream_runs|]. cbn beta iota. eapply runs_bind; [by apply stream_runs|].
    eapply runs_bind; [by apply stream_runs|]. eapply runs_bind; [apply start_runs|]. eapply runs_bind; [exact R4|]. exact Rk. }
  destruct xs as [|y xs].
  - inversion Hall; subst. destruct (token_runs ch_rcur s4 rest) as (s5 & R5 & Hy5); [done|exact Hy4|]. exists s5. split; [|done]. apply Hrun.
    eapply runs_bind; [by apply stream_runs|]. eapply runs_bind; [apply stream_runs, check_char_refl|]. apply runs_ret.
  - destruct (token_runs ch_comma s4 (sep_text (members_text (y :: xs)) ++ ch_rcur :: rest)) as (s5 & R5 & Hy5); [done| |].
    { unfold members_text in *. cbn [map] in *. by rewrite sep_flat. }
    assert (Es : start p1 e2 = (p1, e2)) by (unfold start; by rewrite (proj2 (Z.eqb_neq p1 0))).
    destruct (IH ltac:(done) n p1 s5 e2 rest) as (s6 & R6 & Hy6); rewrite ?Es; [cbn [length] in *; lia|done|by apply changed_is_Some|done|]. rewrite Es in R6.
    exists s6. split; [|done]. apply Hrun. eapply runs_bind; [by apply stream_runs|]. cbn [Z.eqb Pos.eqb]. cbn [fst snd] in R6. unfold e2 in R6. rewrite changed_changed in R6. exact R6.
Qed.

(** ** Objects *)

(** The report of the other side, with its properties in the other order. *)
Definition received (r : ErrorReport) : ErrorReport := mkReport (er_code r) (er_format r) (er_params r) (er_time_stamp r) (rev (er_props r)).

Lemma fill_all_app fs gs r : fill_all (fs ++ gs) r = fill_all gs (fill_all fs r).
Proof. apply fold_left_app. Qed.

Lemma props_do l : Forall (fun x : member => good_name fuel (fst x) /\ good_value fuel (snd x)) l ->
  exists fs, Forall2 member_does l fs /\ forall r, fill_all fs r = mkReport (er_code r) (er_format r) (er_params r) (er_time_stamp r) (rev l ++ er_props r).
Proof.
  induction 1 as [|[name value] l [Hn Hv] _ (fs & Hfs & Hr)]; [exists []; split; [by apply Forall2_nil|by intros []]|].
  exists (add_report_prop name value :: fs). split; [apply Forall2_cons; split; [by apply prop_does|done]|].
  intros r. cbn [fill_all fold_left]. change (fold_left _ fs ?x) with (fill_all fs x). rewrite Hr. cbn. by rewrite <- (assoc_L (++)).
Qed.

(** The members of a report make it again. *)
Lemma members_do r : good_report fuel r ->
  exists fs, Forall2 member_does ((str "Code", long_text (er_code r)) :: report_members r) fs /\ fill_all fs empty_report = received r.
Proof.
  intros [Hc Ht Hf Hpa Hpr (_ & Hlp & _)]. destruct (props_do _ Hpr) as (f4 & H4 & E4).
  assert (H1 : exists f1, Forall2 member_does (if er_time_stamp r =? 0 then [] else [(str "Time", ulong_text (er_time_stamp r))]) f1 /\
    forall c fm pa, fill_all f1 (mkReport c fm pa 0 []) = mkReport c fm pa (er_time_stamp r) []).
  { destruct (Z.eqb_spec (er_time_stamp r) 0) as [E|E]; [exists []; split; [by apply Forall2_nil|by rewrite E]|]. eexists [_].
    split; [apply Forall2_cons; split; [by apply time_does|by apply Forall2_nil]|done]. }
  assert (H2 : exists f2, Forall2 member_does match er_format r with Some fmt => [(str "Format", string_text (Some fmt))] | None => [] end f2 /\
    forall c pa t, fill_all f2 (mkReport c None pa t []) = mkReport c (er_format r) pa t []).
  { destruct (er_format r) as [fmt|]; [|exists []; by split; [apply Forall2_nil|]]. eexists [_].
    split; [apply Forall2_cons; split; [by apply format_does|by apply Forall2_nil]|done]. }
  assert (H3 : exists f3, Forall2 member_does match er_params r with [] => [] | l => [(str "Params", array_text (map param_text l))] end f3 /\
    forall c fm t, fill_all f3 (mkReport c fm [] t []) = mkReport c fm (er_params r) t []).
  { destruct (er_params r) as [|p l]; [exists []; by split; [apply Forall2_nil|]|]. eexists [_].
    split; [apply Forall2_cons; split; [by apply params_does|by apply Forall2_nil]|done]. }
  destruct H1 as (f1 & H1 & E1), H2 as (f2 & H2 & E2), H3 as (f3 & H3 & E3).
  eexists (_ :: f1 ++ f2 ++ f3 ++ f4). split.
  - apply Forall2_cons. split; [by apply code_does|]. unfold report_members. by repeat apply Forall2_app.
  - cbn [fill_all fold_left]. change (fold_left _ ?fs ?x) with (fill_all fs x). rewrite !fill_all_app. cbn. by rewrite E1, E2, E3, E4, app_nil_r.
Qed.

Lemma report_text_start r : exists l, report_text r = ch_lcur :: ch_quote :: l.
Proof. unfold report_text, object_text, members_text. cbn [map]. rewrite sep_flat. unfold member_text at 1. cbn [fst string_text app]. by eexists. Qed.

Lemma peek_runs c s l : stops c -> jyields s (c :: l) -> exists s', runs (json_peek fuel) s c s' /\ jyields s' (c :: l).
Proof. intros Hc Hy. destruct (jpeek_token fuel s c l ltac:(lia) Hc Hy) as (s' & ? & ? & _). by exists s'. Qed.
End Read.
