(* ===== verification/ErrorRoundtrip.v ===== *)
(** * Error objects: from one side to the other (ErrorObjects.v, framework/json.c)

    What [write_errno] writes is read by [read_errno] of the other side, which makes a message with the
    same report. *)

From S2P Require Import Prelude Streams JsonWrite JsonRead JsonStruct JsonCopy Errors ErrorObjects ErrorProps ErrorOps ErrorCounts ErrorText ErrorRead.

Section Roundtrip.
Context {IS : Type} {is_ops : InputStream IS} {is_laws : InputStreamLaws IS}.
Context {OS : Type} {os_ops : OutputStream OS} {os_laws : OutputStreamLaws OS}.
Variable fuel : nat.
Variable strerror : Z -> option (list Z) * bool.
Variable gai_strerror : Z -> list Z.
Variable number_text : list Z -> list Z -> option (list Z).
Implicit Types (s : Json IS) (e : Errors).

Notation text_of := (text_of strerror gai_strerror number_text).
Notation write_error_object := (write_error_object strerror gai_strerror number_text).

(** The number of a message that has the report [r]. *)
Record means (held : list Z) (e : Errors) (no : Z) (r : ErrorReport) (e' : Errors) : Prop := {
  mn_ok : errors_ok held e';
  mn_number : no = ERR_MESSAGE_MIN + es_msgs_pos e;
  mn_report : report_at e' no = Some r;
  mn_code : code_of e' no = er_code r + STD_ERR_BASE;
  mn_kept other : other <> no -> text_of e' other = text_of e other /\ code_of e' other = code_of e other }.

Lemma number_of_report held e r : errors_ok held e -> er_code r <> 0 -> is_message (er_code r + STD_ERR_BASE) = false ->
  - 2 ^ 31 <= er_code r + STD_ERR_BASE < 2 ^ 31 ->
  exists e3 e', let p := es_next e in let no := ERR_MESSAGE_MIN + es_msgs_pos e in let e2 := changed p (fun _ => r) (created e) in
    runs (get_report p) e2 (mkBuffer r 0 1 1) e2 /\ runs (set_error_report_errno p) e2 no e3 /\ runs (release_error_report p) e3 tt e' /\ means held e no r e'.
Proof.
  intros Hok Hc0 Hcm Hcr. set (p := es_next e). set (no := ERR_MESSAGE_MIN + es_msgs_pos e). set (e2 := changed p (fun _ => r) (created e)).
  assert (Hok2 : errors_ok (p :: held) e2) by (by apply changed_ok, new_ok).
  assert (Hr2 : es_reports e2 !! p = Some (mkBuffer r 0 1 1)).
  { unfold e2. rewrite (changed_pub _ p _ (mkBuffer empty_report 0 1 1)); [done|]. apply lookup_insert_eq. }
  destruct (set_report_runs strerror gai_strerror number_text (p :: held) e2 p (mkBuffer r 0 1 1) Hok2 ltac:(left) Hr2) as (e3 & R3 & Hal & r3 & Er3 & Hpub & Hpc);
    [cbn; by rewrite swrap_small by lia|]. cbn [rb_pub rb_posix_code] in Hal, Hpub, Hpc. rewrite swrap_small in Hal by lia. pose proof (al_ok _ _ _ _ _ _ _ Hal) as Hok3.
  destruct (release_report_runs (p :: held) e3 p Hok3) as (e4 & R4 & Hok4 & Hs4 & Hm4 & _); [left|]. cbn [drop_one] in Hok4. rewrite Z.eqb_refl in Hok4.
  exists e3, e4. cbv zeta. split; [by apply get_report_runs|]. split; [exact R3|]. split; [exact R4|].
  destruct (slot_message _ (ek_pos _ _ Hok)) as [Hm _]. fold no in Hm. pose proof (al_msg _ _ _ _ _ _ _ Hal : msg_at e3 no = _) as Hmsg.
  assert (Hmsg4 : msg_at e4 no = msg_at e3 no) by (unfold msg_at; by rewrite Hm4). rewrite Hmsg in Hmsg4.
  assert (Hp : p <> 0) by (pose proof (ek_next _ _ Hok); unfold p; lia).
  destruct (slot_report held e4 no Hok4 Hm) as [r4 Hr4]; [by rewrite Hmsg4|]. rewrite Hmsg4 in Hr4. cbn in Hr4.
  assert (Hlt : p < es_next e3) by (by destruct (ek_reports _ _ Hok3 p r3 Er3) as [[_ ?] _]).
  destruct (Hs4 p r4 Hlt Hr4) as (r3' & Hr3' & Hp4 & Hc4). rewrite Er3 in Hr3'. injection Hr3' as <-.
  constructor; [done|done| | |].
  - unfold report_at. rewrite Hmsg4. cbn [em_report]. rewrite (proj2 (Z.eqb_neq p 0)), Hr4 by done. cbn. by rewrite Hp4, Hpub.
  - unfold code_of. rewrite Hm, Hmsg4. cbn [em_source em_report em_error]. rewrite Hr4. cbn. by rewrite Hc4, Hpc, orb_true_r.
  - intros other Hne. destruct (is_message other) eqn:Ho; [|unfold ErrorProps.text_of, code_of; by rewrite Ho].
    destruct (meaning_kept strerror gai_strerror number_text (p :: held) held e3 e4 other Hok3 Hok4 Ho Hs4) as [-> -> _ _]; [by rewrite Hm4|].
    destruct (al_kept _ _ _ _ _ _ _ Hal other Ho Hne) as [-> -> _ _].
    enough (Hms : meaning_same strerror gai_strerror number_text e e2 other) by (by destruct Hms).
    apply (meaning_kept strerror gai_strerror number_text held (p :: held)); try done.
    intros q rq Hq (r0 & Hr0 & Hpc0 & _ & _ & Hpb)%changed_lookup. assert (q <> p) by (unfold p; lia). unfold created in Hr0. cbn [es_reports set_reports] in Hr0.
    rewrite lookup_insert_ne in Hr0 by done. exists r0. split; [done|]. split; [by apply Hpb|done].
Qed.

Lemma read_copy_runs held s e rest r : errors_ok held e -> good_report fuel r -> er_code r <> 0 -> is_message (er_code r + STD_ERR_BASE) = false ->
  er_code r + STD_ERR_BASE < 2 ^ 31 -> jyields s (report_text r ++ rest) ->
  exists s' e', let no := ERR_MESSAGE_MIN + es_msgs_pos e in
    runs (read_error_object fuel) (mkWE s e) no (mkWE s' e') /\ jyields s' rest /\ means held e no (received r) e'.
Proof.
  intros Hok Hg Hc0 Hcm Hcr Hy. pose proof (gr_fuel _ _ Hg) as (Hf1 & Hf2 & Hf3). pose proof (gr_code _ _ Hg) as Hc.
  destruct (members_do fuel Hf1 r Hg) as (fs & Hfs & Hall). set (ms := (str "Code", long_text (er_code r)) :: report_members r) in *.
  set (p := es_next e). assert (Hn : 0 < p) by exact (ek_next _ _ Hok).
  destruct (number_of_report held e (received r) Hok) as (e3 & e' & Rg & R3 & R4 & Hmeans); [done|done|cbn; unfold STD_ERR_BASE in *; lia|].
  fold p in Rg, R3, R4. set (no := ERR_MESSAGE_MIN + es_msgs_pos e) in *.
  assert (Ef : changed p (fill_all fs) (created e) = changed p (fun _ => received r) (created e)).
  { unfold changed, created. cbn [es_reports set_reports]. rewrite !alter_insert_eq. unfold change. cbn [rb_pub]. by rewrite Hall. }
  assert (Hlen : (length ms <= fuel)%nat).
  { unfold ms, report_members. cbn [length]. rewrite !length_app. pose proof (gr_fuel _ _ Hg). destruct (er_time_stamp r =? 0), (er_format r), (er_params r); cbn [length] in *; lia. }
  unfold report_text, object_text in Hy. fold ms in Hy.
  assert (Hq : exists l, sep_text (members_text ms) ++ ch_rcur :: rest = ch_quote :: l).
  { unfold ms, members_text. cbn [map]. rewrite sep_flat. unfold member_text at 1. cbn [fst string_text app]. by eexists. }
  destruct Hq as [l Hq]. cbn [app] in Hy. rewrite <- (assoc_L (++)) in Hy. cbn [app] in Hy.
  destruct (token_runs fuel Hf1 ch_lcur s _ ltac:(done) Hy) as (s1 & R1 & Hy1). rewrite Hq in Hy1.
  destruct (peek_runs fuel Hf1 ch_quote s1 l ltac:(done) Hy1) as (s2 & R2 & Hy2). rewrite <- Hq in Hy2.
  assert (Es : start 0 e = (p, created e)) by done.
  destruct (loop_runs fuel Hf1 ms fs Hfs ltac:(done) fuel 0 s2 e rest Hlen) as (s3 & RL & Hy3); rewrite ?Es; [cbn; lia|cbn; unfold created; cbn; by rewrite lookup_insert_eq|exact Hy2|].
  rewrite Es in RL. cbn [fst snd] in RL. rewrite Ef in RL. exists s3, e'. cbv zeta. split; [|split; [exact Hy3|exact Hmeans]].
  eapply runs_bind; [by apply stream_runs|]. cbn [Z.eqb Pos.eqb]. eapply runs_bind; [apply stream_runs, check_char_refl|].
  eapply runs_bind; [by apply stream_runs|]. cbn [Z.eqb Pos.eqb]. eapply runs_bind; [exact RL|]. rewrite (proj2 (Z.eqb_neq p 0)) by lia.
  eapply runs_bind; [by apply errors_runs|]. cbn [rb_pub]. eapply runs_bind; [|eapply runs_bind; [apply errors_runs; exact R4|apply runs_ret]].
  cbn [received er_code]. rewrite (proj2 (Z.eqb_neq _ _) Hc0). cbn [negb]. by apply errors_runs.
Qed.

(** C14: an error that [write_errno] writes on one side is read by [read_errno] on the other side, if its report can be
    sent ([good_report], with a code that is not zero or the number of a message), whatever errors both sides have:
    the number it returns is of a message with the report of the error, its properties in the other order, and has the code of
    the report; the other numbers of the reader keep their texts and codes; the writer gives back the report, and its
    numbers keep their codes. *)
Theorem error_object_roundtrip hw ew now err text (o : OS) l : errors_ok hw ew -> err <> 0 -> text_of ew err = Val (Some text) ->
  let r := sent_report ew now err text in
  good_report fuel r -> Z.of_nat fuel < 2 ^ 32 -> er_code r <> 0 -> is_message (er_code r + STD_ERR_BASE) = false -> er_code r + STD_ERR_BASE < 2 ^ 31 -> emits o l ->
  exists o' ew' t, runs (write_errno (write_error_object now) err) (mkWE o ew) tt (mkWE o' ew') /\ emits o' (l ++ t ++ [0]) /\
    errors_ok hw ew' /\ codes_kept ew ew' /\
    forall hr s e rest, errors_ok hr e -> jyields s (t ++ MARKER_EOA :: rest) ->
    exists no s' e', runs (read_errno fuel) (mkWE s e) no (mkWE s' e') /\ jyields s' rest /\ means hr e no (received r) e'.
Proof.
  intros Hok Herr Ht r Hg Hf Hc0 Hcm Hcr He. pose proof (gr_fuel _ _ Hg) as (Hf1 & _).
  destruct (write_object_runs strerror gai_strerror number_text fuel hw o ew l now err text Hok Herr Ht Hg Hf He) as (o1 & ew' & R1 & He1 & Hok' & Hk). fold r in He1.
  destruct (writes_byte 0 ltac:(unfold is_byte; lia) o1 _ He1) as (o2 & R2 & He2). exists o2, ew', (report_text r).
  split; [|split; [by rewrite (assoc_L (++))|split; [done|split; [done|]]]].
  - unfold write_errno. rewrite (proj2 (Z.eqb_neq err 0)) by done. cbn [negb]. eapply runs_bind; [exact R1|]. unfold runs. rewrite write_stream_errors.
    exact (runs_zoom we_stream (fun x w => mkWE x (we_errors w)) _ (mkWE o1 ew') tt o2 R2).
  - intros hr s e rest Hokr Hy. destruct (report_text_start r) as [t0 Et]. rewrite Et in Hy. cbn [app] in Hy.
    destruct (peek_runs fuel Hf1 ch_lcur s _ ltac:(done) Hy) as (s1 & R3 & Hy1). rewrite !app_comm_cons, <- Et in Hy1.
    destruct (read_copy_runs hr s1 e (MARKER_EOA :: rest) r Hokr Hg Hc0 Hcm Hcr Hy1) as (s2 & e' & R4 & Hy2 & Hm).
    destruct (jreads_test_char (fun _ => True) fuel MARKER_EOA ltac:(done) ltac:(done) ltac:(lia) s2 rest I Hy2) as (s3 & R5 & Hy3 & _).
    eexists _, s3, e'. split; [|split; [exact Hy3|exact Hm]]. eapply runs_bind; [by apply stream_runs|]. cbn [Z.eqb Pos.eqb negb].
    eapply runs_bind; [exact R4|]. eapply runs_bind; [by apply stream_runs|apply runs_ret].
Qed.
End Roundtrip.

(** ** Witness *)

Definition sample_report : ErrorReport :=
  mkReport 5 (Some (str "Cannot open {0}")) [Some [ch_quote; 97; ch_quote]] 7 [(str "AltCode", str "2")].

Definition report_ops : list op := [Create; Fill 1 (fun _ => sample_report); SetReport 1].
Definition report_after (n : nat) : Errors :=
  fold_left (fun e o => snd (run_op sample_strerror sample_gai_strerror sample_number_text o e)) (take n report_ops) (errors_init 1).

Lemma report_after_ok : errors_ok [1] (report_after 3).
Proof.
  assert (H : history sample_strerror sample_gai_strerror sample_number_text [] (errors_init 1) report_ops [1] (report_after 3)).
  { apply history_cons with (res := 1) (e1 := report_after 1); [exact I|by vm_compute|].
    apply history_cons with (res := 0) (e1 := report_after 2); [cbn; left|by vm_compute|].
    apply history_cons with (res := ERR_MESSAGE_MIN) (e1 := report_after 3); [right; split; [cbn; left|]|by vm_compute|apply history_nil].
    assert (Hr : es_reports (report_after 2) !! 1 = Some (mkBuffer sample_report 0 1 1)) by (by vm_compute). rewrite Hr. by intros r [= <-]. }
  by destruct (history_ok _ _ _ _ _ _ _ _ H (errors_init_ok 1 ltac:(lia))).
Qed.

Lemma good_bytes_bool fuel v : forallb (fun c => (0 <? c) && (c <=? 255)) v = true -> (length v < fuel)%nat -> good_bytes fuel v.
Proof.
  intros H%Is_true_true Hl. apply forallb_True in H. split; [|split; [|done]]; eapply Forall_impl; try exact H; cbn; intros c Hc%Is_true_true; unfold is_byte; bool_to_prop; lia.
Qed.

Lemma sample_report_good : good_report 30 sample_report.
Proof.
  constructor; cbn [er_code er_time_stamp er_format er_params er_props sample_report]; try (cbn; lia).
  - by apply good_bytes_bool; [|cbn; lia].
  - apply Forall_cons; split; [|by apply Forall_nil]. eexists. split; [reflexivity|]. split; [|by apply good_bytes_bool; [|cbn; lia]].
    apply jv_string. apply str_plain; [unfold is_byte; lia|done|done|apply str_end].
  - apply Forall_cons; split; [|by apply Forall_nil]. split.
    + split; [by apply good_bytes_bool; [|cbn; lia]|]. split; [cbn; lia|]. cbn. intros Hin. repeat (apply elem_of_cons in Hin as [Hin|Hin]; [done|]). by apply elem_of_nil in Hin.
    + split; [|by apply good_bytes_bool; [|cbn; lia]]. by apply (jv_number false 50 []); [|apply Forall_nil].
  - unfold ULONG_DIGITS. cbn. lia.
Qed.

Lemma error_object_roundtrip_witness :
  exists (o' : ByteArrayOutputStream) ew' t,
    runs (write_errno (write_error_object sample_strerror sample_gai_strerror sample_number_text (Some 9)) ERR_MESSAGE_MIN)
      (mkWE create_byte_array_output_stream (report_after 3)) tt (mkWE o' ew') /\ emits o' ([] ++ t ++ [0]) /\
    errors_ok [1] ew' /\ codes_kept (report_after 3) ew' /\
    forall hr (s : Json ByteArrayInputStream) e rest, errors_ok hr e -> jyields s (t ++ MARKER_EOA :: rest) ->
    exists no s' e', runs (read_errno 30) (mkWE s e) no (mkWE s' e') /\ jyields s' rest /\
      means sample_strerror sample_gai_strerror sample_number_text hr e no (received sample_report) e'.
Proof.
  assert (Hs : sent_report (report_after 3) (Some 9) ERR_MESSAGE_MIN (str "Cannot open a") = sample_report) by (by vm_compute). rewrite <- Hs.
  apply (error_object_roundtrip 30 sample_strerror sample_gai_strerror sample_number_text [1] (report_after 3) (Some 9) ERR_MESSAGE_MIN (str "Cannot open a")
    create_byte_array_output_stream []); rewrite ?Hs; try done.
  - exact report_after_ok.
  - exact sample_report_good.
  - apply create_byte_array_emits.
Defined.
