(* ===== verification/ErrorFlaws.v ===== *)
(** * Where errors go wrong (Errors.v, ErrorObjects.v)

    What a peer or a text can do to errors.c, as behaviour of the definitions. *)

From S2P Require Import Prelude Streams JsonWrite JsonRead JsonStruct JsonCopy Errors ErrorObjects ErrorProps ErrorOps ErrorCounts ErrorText.

Definition text_stream (t : list Z) : Json ByteArrayInputStream := mkJson (create_byte_array_input_stream t) [] 0%N.

(** ** Numbers that mean themselves *)

(** The code of the message [no] is [no]. *)
Definition own_code (e : Errors) (no : Z) : Prop :=
  es_msgs e !! Z.to_nat (no - ERR_MESSAGE_MIN) = Some (mkMsg SRC_REPORT no None 1) /\
  es_reports e !! 1 = Some (mkBuffer (mkReport (no - STD_ERR_BASE) None [] 0 []) 0 1 0).

Lemma own_code_loops e no n : is_message no = true -> own_code e no -> fst (get_error_code n no e) = NoFuel.
Proof.
  intros Hm [Hs Hr]. induction n as [|n IH]; [done|]. cbn [get_error_code]. rewrite Hm. unfold get_msg, get_report, bind, gets, ret. rewrite Hs. cbn. rewrite Hr. exact IH.
Qed.

Lemma own_text_loops e no n : is_message no = true -> std_message std_messages no = None -> no <> 0 -> own_code e no -> fst (errno_to_str' n no e) = NoFuel.
Proof.
  intros Hm Hstd Hno [Hs Hr]. induction n as [|n IH]; [done|]. cbn [errno_to_str]. rewrite Hstd, (proj2 (Z.eqb_neq no 0)), Hm by done.
  unfold get_msg, get_report, bind, gets, ret. rewrite Hs. cbn. rewrite Hr. cbn. exact IH.
Qed.


(** The errors after an object of a report is read, in the initial state. *)
Definition read_report (r : ErrorReport) : outcome Z * Errors :=
  let '(o, w) := read_error_object 40 (mkWE (text_stream (report_text r)) (errors_init 1)) in (o, we_errors w).

Definition own_report : ErrorReport := mkReport (ERR_MESSAGE_MIN - STD_ERR_BASE) None [] 0 [].
Definition index_report : ErrorReport := mkReport 1 (Some (str "{4294967295}")) [Some (str "1")] 0 [].
Definition quoted_text : list Z := str "Cannot find 'main'".

Lemma same_str_refl x : same_str x x = true.
Proof. destruct x as [x|]; [|done]. cbn. by destruct (streq_spec x x). Qed.

Lemma same_params_refl l : same_params l l = true.
Proof. induction l as [|x l IH]; [done|]. cbn. by rewrite same_str_refl, IH. Qed.

Lemma same_props_refl l : same_props l l = true.
Proof. induction l as [|[n v] l IH]; [done|]. cbn. destruct (streq_spec n n), (streq_spec v v); done. Qed.

(** C39: a peer that sends an error with a code that is the number of the message it becomes makes
    [get_error_code] loop and [errno_to_str] call itself without end; one that sends a format with an index too large for an [int] makes
    [errno_to_str] read before the parameters; an error object that ends too early leaves its report in the memory, with a reference nobody holds; the
    text of a message loses its quotes when somebody gets its report; [set_errno] with the number of the oldest message
    reads a null text; and [compare_error_reports] takes reports with different properties for the same. *)
Theorem error_flaws :
  (let '(o, e) := read_report own_report in o = Val ERR_MESSAGE_MIN /\
     forall n, fst (get_error_code n ERR_MESSAGE_MIN e) = NoFuel /\ fst (errno_to_str' n ERR_MESSAGE_MIN e) = NoFuel) /\
  (let '(o, e) := read_report index_report in o = Val ERR_MESSAGE_MIN /\ fst (errno_to_str' code_fuel ERR_MESSAGE_MIN e) = Fault) /\
  (let '(o, w) := read_error_object 40 (mkWE (text_stream (removelast (report_text own_report))) (errors_init 1)) in
     o = Throw ERR_JSON_SYNTAX /\ es_reports (we_errors w) !! 1 = Some (mkBuffer own_report 0 1 1)) /\
  (let '(o, e) := set_errno' ERR_OTHER (Some quoted_text) (errors_init 1) in o = Val ERR_MESSAGE_MIN /\
     fst (errno_to_str' code_fuel ERR_MESSAGE_MIN e) = Val (Some quoted_text) /\
     fst (errno_to_str' code_fuel ERR_MESSAGE_MIN (snd (get_error_report' None ERR_MESSAGE_MIN e))) = Val (Some (str "Cannot find main"))) /\
  fst (set_errno' ERR_MESSAGE_MIN (Some quoted_text) (errors_init 1)) = Fault /\
  (forall r props, compare_error_reports (Some r) (Some (mkReport (er_code r) (er_format r) (er_params r) (er_time_stamp r) props)) = true).
Proof.
  split; [|split; [vm_compute; done|split; [vm_compute; done|split; [vm_compute; done|split; [vm_compute; done|]]]]].
  - destruct (read_report own_report) as [o e] eqn:E. assert (Hown : own_code e ERR_MESSAGE_MIN /\ o = Val ERR_MESSAGE_MIN) by (revert E; vm_compute; intros [= <- <-]; done).
    destruct Hown as [Hown ->]. split; [done|]. intros n. split; [by apply own_code_loops|by apply own_text_loops].
  - intros r props. cbn. by rewrite Z.eqb_refl, Nat.eqb_refl, same_str_refl, same_params_refl, same_props_refl.
Qed.
