(* ===== verification/Cache.v ===== *)
(** * Data caches (framework/cache.c)

    Code that needs data of a remote peer is a client of caches: it runs until some cache has no data,
    waits there, and runs again from its start when that cache is notified.  A pointer to a cache, a
    channel, a function or a block of memory is a number, 0 for the null pointer. *)

From S2P Require Import Prelude.

Definition ERR_CACHE_MISS : Z := STD_ERR_BASE + 27.

Definition CTLE_START : Z := 1.
Definition CTLE_RETRY : Z := 2.
Definition CTLE_ABORT : Z := 3.
Definition CTLE_COMMIT : Z := 4.

(** ** State *)

(** [struct WaitingCacheClient], without what is kept for the log. *)
Record WaitingCacheClient := mkClient {
  wc_id : Z;
  wc_client : Z;
  wc_channel : Z;
  wc_args : Z;
  wc_args_size : Z;
  wc_args_copy : bool }.

Definition no_client : WaitingCacheClient := mkClient 0 0 0 0 0 false.

(** Events that have been posted: [cache_timer], or [cache_notify_event] with its array. *)
Inductive Posted := PostTimer | PostNotify (buf : list WaitingCacheClient).

(** The static variables, the wait lists of the caches, the blocks of memory for arguments, and the events that are
    posted.  [cs_buf]: [wait_list_buf], of the length [wait_list_max]. *)
Record CacheState := mkCache {
  cs_current : WaitingCacheClient;
  cs_exited : bool;
  cs_miss : Z;
  cs_buf : list WaitingCacheClient;
  cs_id : Z;
  cs_list : list Z;
  cs_def_channel : Z;
  cs_listeners : list Z;
  cs_caches : gmap Z (list WaitingCacheClient);
  cs_mem : gmap Z (list Z);
  cs_next : Z;
  cs_timer : bool;
  cs_posted : list Posted }.

Definition cache_init (next : Z) : CacheState := mkCache no_client false 0 [] 0 [] 0 [] ∅ ∅ next false [].

(** The state and the rest of the program. *)
Record Env (U : Type) := mkEnv { e_cache : CacheState; e_user : U }.
Arguments mkEnv {U}.
Arguments e_cache {U}.
Arguments e_user {U}.

Definition set_current (c : WaitingCacheClient) (s : CacheState) : CacheState :=
  mkCache c (cs_exited s) (cs_miss s) (cs_buf s) (cs_id s) (cs_list s) (cs_def_channel s) (cs_listeners s) (cs_caches s) (cs_mem s) (cs_next s) (cs_timer s) (cs_posted s).
Definition set_exited (b : bool) (s : CacheState) : CacheState :=
  mkCache (cs_current s) b (cs_miss s) (cs_buf s) (cs_id s) (cs_list s) (cs_def_channel s) (cs_listeners s) (cs_caches s) (cs_mem s) (cs_next s) (cs_timer s) (cs_posted s).
Definition set_miss (n : Z) (s : CacheState) : CacheState :=
  mkCache (cs_current s) (cs_exited s) n (cs_buf s) (cs_id s) (cs_list s) (cs_def_channel s) (cs_listeners s) (cs_caches s) (cs_mem s) (cs_next s) (cs_timer s) (cs_posted s).
Definition set_buf (b : list WaitingCacheClient) (s : CacheState) : CacheState :=
  mkCache (cs_current s) (cs_exited s) (cs_miss s) b (cs_id s) (cs_list s) (cs_def_channel s) (cs_listeners s) (cs_caches s) (cs_mem s) (cs_next s) (cs_timer s) (cs_posted s).
Definition set_id (n : Z) (s : CacheState) : CacheState :=
  mkCache (cs_current s) (cs_exited s) (cs_miss s) (cs_buf s) n (cs_list s) (cs_def_channel s) (cs_listeners s) (cs_caches s) (cs_mem s) (cs_next s) (cs_timer s) (cs_posted s).
Definition set_def_channel (c : Z) (s : CacheState) : CacheState :=
  mkCache (cs_current s) (cs_exited s) (cs_miss s) (cs_buf s) (cs_id s) (cs_list s) c (cs_listeners s) (cs_caches s) (cs_mem s) (cs_next s) (cs_timer s) (cs_posted s).
Definition set_cache_listeners (l : list Z) (s : CacheState) : CacheState :=
  mkCache (cs_current s) (cs_exited s) (cs_miss s) (cs_buf s) (cs_id s) (cs_list s) (cs_def_channel s) l (cs_caches s) (cs_mem s) (cs_next s) (cs_timer s) (cs_posted s).
Definition set_caches (l : list Z) (m : gmap Z (list WaitingCacheClient)) (s : CacheState) : CacheState :=
  mkCache (cs_current s) (cs_exited s) (cs_miss s) (cs_buf s) (cs_id s) l (cs_def_channel s) (cs_listeners s) m (cs_mem s) (cs_next s) (cs_timer s) (cs_posted s).
Definition set_mem (m : gmap Z (list Z)) (next : Z) (s : CacheState) : CacheState :=
  mkCache (cs_current s) (cs_exited s) (cs_miss s) (cs_buf s) (cs_id s) (cs_list s) (cs_def_channel s) (cs_listeners s) (cs_caches s) m next (cs_timer s) (cs_posted s).
Definition set_posted (t : bool) (l : list Posted) (s : CacheState) : CacheState :=
  mkCache (cs_current s) (cs_exited s) (cs_miss s) (cs_buf s) (cs_id s) (cs_list s) (cs_def_channel s) (cs_listeners s) (cs_caches s) (cs_mem s) (cs_next s) t l.

Definition wait_list (s : CacheState) (cache : Z) : list WaitingCacheClient := default [] (cs_caches s !! cache).

Section Cache.
Context {U : Type}.

Notation C := (M (Env U)).

(** Client functions with their arguments, listeners with their event, and the locks of channels. *)
Variable call_client : Z -> Z -> C unit.
Variable call_listener : Z -> Z -> C unit.
Variables channel_lock_with_msg channel_unlock_with_msg : Z -> C unit.

Definition cget {A} (f : CacheState -> A) : C A := gets (fun e => f (e_cache e)).
Definition cmod (f : CacheState -> CacheState) : C unit := modify (fun e => mkEnv (f (e_cache e)) (e_user e)).

(** ** Memory *)

Definition loc_alloc (l : list Z) : C Z :=
  let! p := cget cs_next in
  cmod (fun s => set_mem (<[p := l]> (cs_mem s)) (p + 1) s) ;!
  ret p.
Definition loc_free (p : Z) : C unit :=
  if p =? 0 then ret tt
  else
    let! m := cget cs_mem in
    match m !! p with
    | Some _ => cmod (fun s => set_mem (delete p (cs_mem s)) (cs_next s) s)
    | None => fault
    end.
(** The first [n] bytes at [p]. *)
Definition read_mem (p n : Z) : C (list Z) :=
  let! m := cget cs_mem in
  match m !! p with
  | Some l => if n <=? Z.of_nat (length l) then ret (take (Z.to_nat n) l) else fault
  | None => fault
  end.

(** ** The log of stalled clients *)

Definition cache_timer : C unit :=
  let! posted := cget cs_timer in
  cassert posted ;!
  cmod (fun s => set_posted false (cs_posted s) s) ;!
  let! s := cget (fun s => s) in
  cassert (forallb (fun c => (0 <? length (wait_list s c))%nat) (cs_list s)) ;!
  match cs_list s with
  | [] => ret tt
  | _ => cmod (fun s => set_posted true (cs_posted s ++ [PostTimer]) s)
  end.

(** ** Running clients *)

(** The loop over the listeners, which may add listeners. *)
Fixpoint tell_listeners (n : nat) (i : nat) (ev : Z) : C unit :=
  match n with
  | O => nofuel
  | S n' =>
      let! l := cget cs_listeners in
      match l !! i with
      | Some l => call_listener l ev ;! tell_listeners n' (S i) ev
      | None => ret tt
      end
  end.

Definition run_cache_client (n : nat) (retry : bool) : C unit :=
  cmod (set_miss 0) ;!
  cmod (set_exited false) ;!
  cmod (set_def_channel 0) ;!
  tell_listeners n 0 (if retry then CTLE_RETRY else CTLE_START) ;!
  catch
    (let! c := cget cs_current in
     (if wc_client c =? 0 then fault else call_client (wc_client c) (wc_args c)) ;!
     let! miss := cget cs_miss in
     cassert (miss =? 0) ;!
     let! exited := cget cs_exited in
     cassert exited)
    (fun _ => ret tt) ;!
  let! exited := cget cs_exited in
  tell_listeners n 0 (if exited then CTLE_COMMIT else CTLE_ABORT) ;!
  let! miss := cget cs_miss in
  let! c := cget cs_current in
  (if (miss =? 0) && wc_args_copy c then loc_free (wc_args c) else ret tt) ;!
  cmod (set_current no_client) ;!
  cmod (set_miss 0) ;!
  cmod (set_exited false) ;!
  cmod (set_def_channel 0).

Definition next_id : C Z :=
  let! id := cget cs_id in
  cmod (set_id (uwrap 32 (id + 1))) ;!
  ret id.

Definition cache_enter (n : nat) (client channel args args_size : Z) : C unit :=
  cassert (negb (client =? 0)) ;!
  let! c := cget cs_current in
  cassert (wc_id c =? 0) ;!
  cassert (wc_client c =? 0) ;!
  let! id := next_id in
  let! id := (if id =? 0 then next_id else ret id) in
  cmod (set_current (mkClient id client channel args args_size false)) ;!
  run_cache_client n false.

Definition cache_exit : C unit :=
  let! c := cget cs_current in
  cassert (negb (wc_client c =? 0)) ;!
  let! exited := cget cs_exited in
  cassert (negb exited) ;!
  let! miss := cget cs_miss in
  if 0 <? miss then throw ERR_CACHE_MISS
  else cmod (set_exited true).

(** The current client with its arguments in memory of its own. *)
Definition copy_args : C unit :=
  let! c := cget cs_current in
  if negb (wc_args c =? 0) && negb (wc_args_copy c) then
    let! l := read_mem (wc_args c) (wc_args_size c) in
    let! p := loc_alloc l in
    cmod (set_current (mkClient (wc_id c) (wc_client c) (wc_channel c) p (wc_args_size c) true))
  else ret tt.

Definition cache_wait (cache : Z) : C unit :=
  let! exited := cget cs_exited in
  cassert (negb exited) ;!
  let! c := cget cs_current in
  let! miss := cget cs_miss in
  (if negb (wc_client c =? 0) && (miss =? 0) then
     copy_args ;!
     let! posted := cget cs_timer in
     (if posted then ret tt else cmod (fun s => set_posted true (cs_posted s ++ [PostTimer]) s)) ;!
     let! l := cget (fun s => wait_list s cache) in
     (if (length l =? 0)%nat then cmod (fun s => set_caches (cs_list s ++ [cache]) (cs_caches s) s) else ret tt) ;!
     (if negb (wc_channel c =? 0) then channel_lock_with_msg (wc_channel c) else ret tt) ;!
     cmod (fun s => set_caches (cs_list s) (<[cache := wait_list s cache ++ [cs_current s]]> (cs_caches s)) s)
   else ret tt) ;!
  cmod (fun s => set_miss (cs_miss s + 1) s) ;!
  throw ERR_CACHE_MISS.

(** ** Notification *)

(** [list_remove], and the count of the list set to 0. *)
Definition take_wait_list (cache : Z) : C unit :=
  cmod (fun s => set_caches (List.filter (fun c => negb (c =? cache)) (cs_list s)) (<[cache := []]> (cs_caches s)) s).

Definition run_waiting (n : nat) (c : WaitingCacheClient) : C unit :=
  cmod (set_current c) ;!
  run_cache_client n true.

(** The loop over [wait_list_buf], which is shared by all calls. *)
Fixpoint notify_loop (n : nat) (cnt : nat) (i : nat) : C unit :=
  match cnt with
  | O => ret tt
  | S cnt' =>
      let! buf := cget cs_buf in
      match buf !! i with
      | None => fault
      | Some c =>
          run_waiting n c ;!
          let! buf := cget cs_buf in
          match buf !! i with
          | None => fault
          | Some c =>
              (if negb (wc_channel c =? 0) then channel_unlock_with_msg (wc_channel c) else ret tt) ;!
              notify_loop n cnt' (S i)
          end
      end
  end.

Definition cache_notify (n : nat) (cache : Z) : C unit :=
  let! l := cget (fun s => wait_list s cache) in
  if (length l =? 0)%nat then ret tt
  else
    take_wait_list cache ;!
    cmod (fun s => set_buf (l ++ drop (length l) (cs_buf s)) s) ;!
    notify_loop n (length l) 0.

(** The loop over the array of the event, which ends with a null client. *)
Fixpoint notify_event_loop (n : nat) (buf : list WaitingCacheClient) : C unit :=
  match buf with
  | [] => ret tt
  | c :: buf' =>
      if wc_client c =? 0 then ret tt
      else
        run_waiting n c ;!
        (if negb (wc_channel c =? 0) then channel_unlock_with_msg (wc_channel c) else ret tt) ;!
        notify_event_loop n buf'
  end.

Definition cache_notify_event (n : nat) (buf : list WaitingCacheClient) : C unit := notify_event_loop n buf.

Definition cache_notify_later (cache : Z) : C unit :=
  let! l := cget (fun s => wait_list s cache) in
  if (length l =? 0)%nat then ret tt
  else
    take_wait_list cache ;!
    cmod (fun s => set_posted (cs_timer s) (cs_posted s ++ [PostNotify (l ++ [no_client])]) s).

(** ** The current client *)

Definition cache_channel : C Z :=
  let! c := cget cs_current in
  if negb (wc_channel c =? 0) then ret (wc_channel c)
  else if negb (wc_client c =? 0) then cget cs_def_channel
  else ret 0.

Definition cache_set_def_channel (channel : Z) : C unit := cmod (set_def_channel channel).
Definition cache_transaction_id : C Z := cget (fun s => wc_id (cs_current s)).
Definition cache_miss_count : C Z := cget cs_miss.
Definition add_cache_transaction_listener (l : Z) : C unit := cmod (fun s => set_cache_listeners (cs_listeners s ++ [l]) s).

Definition cache_dispose (cache : Z) : C unit :=
  let! s := cget (fun s => s) in
  cassert (length (wait_list s cache) =? 0)%nat ;!
  cassert (negb (existsb (Z.eqb cache) (cs_list s))) ;!
  cmod (fun s => set_caches (cs_list s) (delete cache (cs_caches s)) s).

(** The [i]-th posted event is dispatched: the log has a delay, so that events do not come in the order of their posts. *)
Definition dispatch_posted (n i : nat) : C unit :=
  let! l := cget cs_posted in
  match l !! i with
  | None => ret tt
  | Some e =>
      cmod (fun s => set_posted (cs_timer s) (delete i l) s) ;!
      match e with
      | PostTimer => cache_timer
      | PostNotify buf => cache_notify_event n buf
      end
  end.
End Cache.
