(* ===== verification/CacheProps.v ===== *)
(** * Clients of caches: the specification and single runs (Cache.v, framework/cache.c)

    A specification of clients, caches and notifications without the state of cache.c, and what one run of a
    client does to that state. *)

From S2P Require Import Prelude Cache.

(** ** Specification *)

(** A client: its function, its channel (0 for none), and its arguments if it has any. *)
Record Job := mkJob { jb_client : Z; jb_channel : Z; jb_args : option (list Z) }.

(** The clients that wait, in the order in which they began to, with their caches; the events that are posted, [None]
    for the log and the clients of a notification; those that have finished. *)
Record Spec (U : Type) := mkSpec {
  sp_wait : list (Z * Job);
  sp_posted : list (option (list Job));
  sp_done : list Job;
  sp_user : U }.
Arguments mkSpec {U}.
Arguments sp_wait {U}.
Arguments sp_posted {U}.
Arguments sp_done {U}.
Arguments sp_user {U}.

Definition is_log {A} (x : option A) : bool := match x with None => true | Some _ => false end.
Definition post_log {A} (l : list (option A)) : list (option A) := if existsb is_log l then l else l ++ [None].

Section Specification.
Context {U : Type}.

(** The first cache that has no data for a client; what a client does when it has all its data; the listeners of transactions; the
    locks of channels. *)
Variable needs : Z -> option (list Z) -> U -> option Z.
Variable work : Z -> option (list Z) -> U -> U.
Variable listen : Z -> Z -> U -> U.
Variables lock unlock : Z -> U -> U.
Variable ls : list Z.

Definition tell (ev : Z) (u : U) : U := fold_left (fun u l => listen l ev u) ls u.
Definition locked (ch : Z) (u : U) : U := if ch =? 0 then u else lock ch u.
Definition unlocked (ch : Z) (u : U) : U := if ch =? 0 then u else unlock ch u.

(** One run of a client. *)
Definition attempt (retry : bool) (j : Job) (s : Spec U) : Spec U :=
  let u := tell (if retry then CTLE_RETRY else CTLE_START) (sp_user s) in
  match needs (jb_client j) (jb_args j) u with
  | Some c => mkSpec (sp_wait s ++ [(c, j)]) (post_log (sp_posted s)) (sp_done s) (tell CTLE_ABORT (locked (jb_channel j) u))
  | None => mkSpec (sp_wait s) (sp_posted s) (sp_done s ++ [j]) (tell CTLE_COMMIT (work (jb_client j) (jb_args j) u))
  end.

Definition set_sp_user (u : U) (s : Spec U) : Spec U := mkSpec (sp_wait s) (sp_posted s) (sp_done s) u.
Definition set_wait (l : list (Z * Job)) (s : Spec U) : Spec U := mkSpec l (sp_posted s) (sp_done s) (sp_user s).
Definition set_sp_posted (l : list (option (list Job))) (s : Spec U) : Spec U := mkSpec (sp_wait s) l (sp_done s) (sp_user s).

Definition rerun (j : Job) (s : Spec U) : Spec U :=
  let s := attempt true j s in set_sp_user (unlocked (jb_channel j) (sp_user s)) s.

Fixpoint rerun_all (js : list Job) (s : Spec U) : Spec U :=
  match js with
  | [] => s
  | j :: js' => rerun_all js' (rerun j s)
  end.

Definition at_cache {A} (c : Z) (l : list (Z * A)) : list A := map snd (List.filter (fun x => fst x =? c) l).
Definition not_at_cache {A} (c : Z) (l : list (Z * A)) : list (Z * A) := List.filter (fun x => negb (fst x =? c)) l.

Definition spec_notify (c : Z) (s : Spec U) : Spec U :=
  rerun_all (at_cache c (sp_wait s)) (set_wait (not_at_cache c (sp_wait s)) s).

(** Operations of the program: a client starts; a cache is notified, or its notification is posted; a posted event is
    dispatched; data arrive. *)
Inductive cache_op :=
  | OpEnter (j : Job)
  | OpNotify (c : Z)
  | OpNotifyLater (c : Z)
  | OpEvent (i : nat)
  | OpData (f : U -> U).

Definition spec_later (c : Z) (s : Spec U) : Spec U :=
  match at_cache c (sp_wait s) with
  | [] => s
  | js => set_sp_posted (sp_posted s ++ [Some js]) (set_wait (not_at_cache c (sp_wait s)) s)
  end.

Definition spec_event (i : nat) (s : Spec U) : Spec U :=
  let l := delete i (sp_posted s) in
  match sp_posted s !! i with
  | None => s
  | Some None => set_sp_posted (match sp_wait s with [] => l | _ => l ++ [None] end) s
  | Some (Some js) => rerun_all js (set_sp_posted l s)
  end.

Definition spec_exec (op : cache_op) (s : Spec U) : Spec U :=
  match op with
  | OpEnter j => attempt false j s
  | OpNotify c => spec_notify c s
  | OpNotifyLater c => spec_later c s
  | OpEvent i => spec_event i s
  | OpData f => set_sp_user (f (sp_user s)) s
  end.

(** All clients of a state. *)
Definition posted_jobs {A} (l : list (option (list A))) : list A := concat (omap id l).
Arguments posted_jobs : simpl never.
Definition jobs (s : Spec U) : list Job := map snd (sp_wait s) ++ posted_jobs (sp_posted s) ++ sp_done s.

Lemma posted_app {A} (l k : list (option (list A))) : posted_jobs (l ++ k) = posted_jobs l ++ posted_jobs k.
Proof. unfold posted_jobs. by rewrite omap_app, concat_app. Qed.

Lemma posted_log {A} (l : list (option (list A))) : posted_jobs (post_log l) = posted_jobs l.
Proof. unfold post_log. destruct (existsb _ _); [done|]. rewrite posted_app. by rewrite app_nil_r. Qed.

Lemma attempt_jobs retry j s : jobs (attempt retry j s) ≡ₚ j :: jobs s.
Proof.
  unfold attempt, jobs. destruct (needs _ _ _); cbn.
  - rewrite map_app, posted_log. cbn. rewrite <- (assoc_L (++)). cbn. by rewrite <- Permutation_middle.
  - rewrite !(assoc_L (++)). by rewrite Permutation_app_comm.
Qed.

Lemma rerun_jobs js s : jobs (rerun_all js s) ≡ₚ js ++ jobs s.
Proof.
  revert s. induction js as [|j js IH]; intros s; [done|]. cbn. rewrite IH.
  change (jobs (rerun j s)) with (jobs (attempt true j s)). rewrite attempt_jobs. by rewrite <- Permutation_middle.
Qed.

Lemma split_cache {A} c (l : list (Z * A)) : map snd l ≡ₚ at_cache c l ++ map snd (not_at_cache c l).
Proof.
  induction l as [|[d a] l IH]; [done|]. unfold at_cache, not_at_cache in *. cbn. destruct (d =? c); cbn.
  - by rewrite IH.
  - rewrite IH. by rewrite Permutation_middle.
Qed.

Lemma posted_delete {A} (l : list (option (list A))) i x : l !! i = Some x -> posted_jobs l ≡ₚ default [] x ++ posted_jobs (delete i l).
Proof.
  intros H. rewrite delete_take_drop, posted_app. rewrite <- (take_drop_middle l i x H) at 1. rewrite posted_app.
  change (posted_jobs (x :: drop (S i) l)) with (posted_jobs ([x] ++ drop (S i) l)). rewrite posted_app.
  replace (posted_jobs [x]) with (default [] x) by (destruct x; [symmetry; apply app_nil_r|done]). by rewrite !(assoc_L (++)), (Permutation_app_comm (posted_jobs _) (default _ _)).
Qed.

(** Clients are neither lost nor run twice: each one waits, is posted, or has finished. *)
Lemma exec_jobs op s : jobs (spec_exec op s) ≡ₚ match op with OpEnter j => [j] | _ => [] end ++ jobs s.
Proof.
  destruct op as [j|c|c|i|f]; cbn [app spec_exec].
  - by rewrite attempt_jobs.
  - unfold spec_notify. rewrite rerun_jobs. unfold jobs. cbn. by rewrite (split_cache c (sp_wait s)), <- (assoc_L (++)).
  - unfold spec_later. destruct (at_cache c (sp_wait s)) as [|j js] eqn:E; [done|]. rewrite <- E. unfold jobs. cbn.
    rewrite (split_cache c (sp_wait s)), posted_app. unfold posted_jobs at 2. cbn. rewrite app_nil_r, !(assoc_L (++)).
    apply Permutation_app_tail. rewrite (Permutation_app_comm (at_cache _ _)), <- !(assoc_L (++)). apply Permutation_app_head. by rewrite Permutation_app_comm.
  - unfold spec_event. destruct (sp_posted s !! i) as [[js|]|] eqn:E; [| |done]; apply posted_delete in E.
    + rewrite rerun_jobs. unfold jobs. cbn. rewrite E. cbn. rewrite !(assoc_L (++)), (Permutation_app_comm js). by rewrite <- !(assoc_L (++)).
    + unfold jobs. cbn. rewrite E. destruct (sp_wait s); [done|]. rewrite posted_app. by rewrite app_nil_r.
  - done.
Qed.
End Specification.
