(* ===== verification/CacheRuns.v ===== *)
(** * Runs of clients of caches (Cache.v, framework/cache.c)

    What [run_cache_client] does to the state for a client that waits for the first cache it misses,
    and otherwise leaves the caches and does its work. *)

From S2P Require Import Prelude Cache CacheProps.

Section Runs.
Context {U : Type}.
Variable needs : Z -> option (list Z) -> U -> option Z.
Variable work : Z -> option (list Z) -> U -> U.
Variable listen : Z -> Z -> U -> U.
Variables lock unlock : Z -> U -> U.
Variable ls : list Z.
Variable n : nat.
Hypothesis enough : (length ls < n)%nat.

Notation C := (M (Env U)).
Notation attempt := (attempt needs work listen lock ls).
Notation tell := (tell listen ls).
Implicit Types (s : CacheState) (u : U) (c : WaitingCacheClient) (j : Job).

(** ** Clients *)

Definition umod (f : U -> U) : C unit := modify (fun e => mkEnv (e_cache e) (f (e_user e))).
Definition tell_one (l ev : Z) : C unit := umod (listen l ev).
Definition lock_one (ch : Z) : C unit := umod (lock ch).
Definition unlock_one (ch : Z) : C unit := umod (unlock ch).

Definition read_args (p : Z) : C (option (list Z)) :=
  if p =? 0 then ret None
  else
    let! m := cget cs_mem in
    match m !! p with Some l => ret (Some l) | None => fault end.

(** The code of the clients, as cache.h describes it. *)
Definition client_code (fn p : Z) : C unit :=
  let! a := read_args p in
  let! u := gets e_user in
  match needs fn a u with
  | Some c => cache_wait lock_one c
  | None => cache_exit ;! umod (work fn a)
  end.

Notation run_cache_client := (run_cache_client client_code tell_one n).
Notation cache_wait := (cache_wait lock_one).

(** ** Invariant *)

Definition post_of (x : option (list WaitingCacheClient)) : Posted :=
  match x with None => PostTimer | Some l => PostNotify (l ++ [no_client]) end.

(** [ptrs]: the blocks of memory; [aw]: the waiting clients with their caches, [posted] the posted ones. *)
Record caches_ok (ptrs : list Z) (aw : list (Z * WaitingCacheClient)) (posted : list (option (list WaitingCacheClient))) s : Prop := {
  co_wait ca : wait_list s ca = at_cache ca aw;
  co_list_nodup : NoDup (cs_list s);
  co_list ca : ca ∈ cs_list s <-> at_cache ca aw <> [];
  co_posted : cs_posted s = map post_of posted;
  co_timer : cs_timer s = existsb is_log posted;
  co_logs : (length (List.filter is_log posted) <= 1)%nat;
  co_listeners : cs_listeners s = ls;
  co_ptrs : NoDup ptrs;
  co_mem p : is_Some (cs_mem s !! p) <-> p ∈ ptrs;
  co_range p : p ∈ ptrs -> 0 < p < cs_next s;
  co_next : 0 < cs_next s }.

(** Between runs. *)
Definition idle s : Prop := cs_current s = no_client /\ cs_exited s = false /\ cs_miss s = 0 /\ cs_def_channel s = 0.

(** [c] stands for the client [j]. *)
Definition stands (m : gmap Z (list Z)) c j : Prop :=
  wc_client c = jb_client j /\ jb_client j <> 0 /\ wc_channel c = jb_channel j /\
  match jb_args j with
  | None => wc_args c = 0 /\ wc_args_copy c = false
  | Some l => wc_args c <> 0 /\ m !! wc_args c = Some l /\ wc_args_size c = Z.of_nat (length l)
  end.

(** The block a client owns. *)
Definition own c : list Z := if wc_args_copy c then [wc_args c] else [].

Lemma cget_runs {A} (f : CacheState -> A) s u : runs (cget f) (mkEnv s u) (f s) (mkEnv s u).
Proof. done. Qed.

Lemma cmod_runs (f : CacheState -> CacheState) s u : runs (cmod f) (mkEnv s u) tt (mkEnv (f s) u).
Proof. done. Qed.

Lemma umod_runs (f : U -> U) s u : runs (umod f) (mkEnv s u) tt (mkEnv s (f u)).
Proof. done. Qed.

Lemma tell_runs ev s u : cs_listeners s = ls -> runs (tell_listeners tell_one n 0 ev) (mkEnv s u) tt (mkEnv s (tell ev u)).
Proof.
  intros Hl. unfold CacheProps.tell. rewrite <- (drop_0 ls) at 1. revert u. assert (Hn : (length ls - 0 < n)%nat) by lia. revert Hn. generalize 0%nat as i.
  clear enough. revert n. intros k. induction k as [|k IH]; intros i Hi u; [lia|]. cbn [tell_listeners]. eapply runs_bind; [apply cget_runs|]. cbn beta. rewrite Hl.
  destruct (ls !! i) as [l|] eqn:E.
  - rewrite (drop_S _ _ _ E). cbn [fold_left]. eapply runs_bind; [apply umod_runs|]. apply IH. pose proof (lookup_lt_Some _ _ _ E). lia.
  - rewrite drop_ge by (by apply lookup_ge_None). apply runs_ret.
Qed.

Lemma read_args_runs s u c j : stands (cs_mem s) c j -> runs (read_args (wc_args c)) (mkEnv s u) (jb_args j) (mkEnv s u).
Proof.
  intros (_ & _ & _ & Ha). unfold read_args. destruct (jb_args j) as [l|].
  - destruct Ha as (Hp & Hm & _). rewrite (proj2 (Z.eqb_neq _ _) Hp). eapply runs_bind; [apply cget_runs|]. cbn beta. rewrite Hm. apply runs_ret.
  - destruct Ha as [-> _]. apply runs_ret.
Qed.

(** ** Waiting *)

(** The client that waits: with a copy of its arguments. *)
Definition kept s c : WaitingCacheClient :=
  if negb (wc_args c =? 0) && negb (wc_args_copy c) then mkClient (wc_id c) (wc_client c) (wc_channel c) (cs_next s) (wc_args_size c) true else c.
Definition kept_mem s c : gmap Z (list Z) :=
  if negb (wc_args c =? 0) && negb (wc_args_copy c) then <[cs_next s := default [] (cs_mem s !! wc_args c)]> (cs_mem s) else cs_mem s.
Definition kept_next s c : Z := if negb (wc_args c =? 0) && negb (wc_args_copy c) then cs_next s + 1 else cs_next s.
Definition kept_ptrs s c (ptrs : list Z) : list Z := if negb (wc_args c =? 0) && negb (wc_args_copy c) then cs_next s :: ptrs else ptrs.

Definition waiting s c (ca : Z) : CacheState :=
  let l := wait_list s ca in
  mkCache (kept s c) false 1 (cs_buf s) (cs_id s) (if (length l =? 0)%nat then cs_list s ++ [ca] else cs_list s) (cs_def_channel s) (cs_listeners s)
    (<[ca := l ++ [kept s c]]> (cs_caches s)) (kept_mem s c) (kept_next s c) true (if cs_timer s then cs_posted s else cs_posted s ++ [PostTimer]).

Lemma copy_args_runs s u j c : cs_current s = c -> stands (cs_mem s) c j ->
  runs copy_args (mkEnv s u) tt (mkEnv (set_current (kept s c) (set_mem (kept_mem s c) (kept_next s c) s)) u).
Proof.
  intros Hc (_ & _ & _ & Ha). unfold copy_args, kept, kept_mem, kept_next. eapply runs_bind; [apply cget_runs|]. cbn beta. rewrite Hc.
  destruct (negb _ && negb _) eqn:E; [|destruct s; cbn in *; by subst].
  apply andb_true_iff in E as [Hp _]. destruct (jb_args j) as [l|]; [|by destruct Ha as [Ha _]; rewrite Ha in Hp]. destruct Ha as (_ & Hm & Hsz).
  eapply runs_bind; [unfold read_mem; eapply runs_bind; [apply cget_runs|]; cbn beta; rewrite Hm, Hsz, Z.leb_refl, Nat2Z.id, firstn_all; apply runs_ret|].
  eapply runs_bind; [unfold loc_alloc; eapply runs_bind; [apply cget_runs|]; eapply runs_bind; [apply cmod_runs|apply runs_ret]|]. rewrite Hm. cbn [default]. rewrite Hsz. reflexivity.
Qed.

Lemma wait_throws s u c j ca : cs_current s = c -> stands (cs_mem s) c j -> cs_exited s = false -> cs_miss s = 0 ->
  cache_wait ca (mkEnv s u) = (Throw ERR_CACHE_MISS, mkEnv (waiting s c ca) (locked lock (jb_channel j) u)).
Proof.
  intros Hc Hst He Hm. pose proof Hst as (Hfn & Hj & Hch & _). unfold Cache.cache_wait.
  rewrite (bind_runs _ _ _ _ _ (cget_runs _ s u)). rewrite He. rewrite (bind_runs _ _ _ _ _ (runs_cassert true _ eq_refl)).
  rewrite (bind_runs _ _ _ _ _ (cget_runs _ s u)), (bind_runs _ _ _ _ _ (cget_runs _ s u)). cbn beta. rewrite Hc, Hfn, Hm, (proj2 (Z.eqb_neq _ _) Hj). cbn [negb Z.eqb andb].
  set (s1 := set_current (kept s c) (set_mem (kept_mem s c) (kept_next s c) s)).
  set (s2 := set_posted true (if cs_timer s then cs_posted s else cs_posted s ++ [PostTimer]) s1).
  set (s3 := set_caches (if (length (wait_list s ca) =? 0)%nat then cs_list s ++ [ca] else cs_list s) (cs_caches s) s2).
  assert (R : runs (copy_args ;!
     let! posted := cget cs_timer in
     (if posted then ret tt else cmod (fun s => set_posted true (cs_posted s ++ [PostTimer]) s)) ;!
     let! l := cget (fun s => wait_list s ca) in
     (if (length l =? 0)%nat then cmod (fun s => set_caches (cs_list s ++ [ca]) (cs_caches s) s) else ret tt) ;!
     (if negb (wc_channel c =? 0) then lock_one (wc_channel c) else ret tt) ;!
     cmod (fun s => set_caches (cs_list s) (<[ca := wait_list s ca ++ [cs_current s]]> (cs_caches s)) s)) (mkEnv s u) tt
     (mkEnv (set_miss 0 (waiting s c ca)) (locked lock (jb_channel j) u))).
  { eapply runs_bind; [by eapply copy_args_runs|]. fold s1. eapply runs_bind; [apply cget_runs|].
    eapply (runs_bind _ _ _ tt (mkEnv s2 u)); [unfold s2; cbn; destruct (cs_timer s) eqn:Et; [unfold runs, ret, s1, set_posted, set_current, set_mem; cbn; by rewrite Et|done]|].
    eapply runs_bind; [apply cget_runs|]. cbn beta. change (wait_list s2 ca) with (wait_list s ca).
    eapply (runs_bind _ _ _ tt (mkEnv s3 u)); [unfold s3; by destruct (_ =? 0)%nat|].
    eapply (runs_bind _ _ _ tt (mkEnv s3 (locked lock (jb_channel j) u))); [rewrite Hch; unfold locked; by destruct (jb_channel j =? 0)|].
    unfold runs, cmod, modify. do 2 f_equal. unfold waiting, set_miss, s3, s2, s1, set_posted, set_caches, set_current, set_mem, wait_list. cbn. by rewrite He, Hm. }
  rewrite (bind_runs _ _ _ _ _ R). unfold bind, cmod, modify, throw. do 2 f_equal.
Qed.

(** ** Runs *)

Definition rest s : CacheState := set_def_channel 0 (set_exited false (set_miss 0 (set_current no_client s))).
Definition started s : CacheState := set_def_channel 0 (set_exited false (set_miss 0 s)).
Definition freed s c : CacheState := if wc_args_copy c then set_mem (delete (wc_args c) (cs_mem s)) (cs_next s) s else s.

Lemma client_runs s u c j : stands (cs_mem s) c j ->
  client_code (wc_client c) (wc_args c) (mkEnv s u) =
  match needs (jb_client j) (jb_args j) u with
  | Some ca => cache_wait ca (mkEnv s u)
  | None => (cache_exit ;! umod (work (jb_client j) (jb_args j))) (mkEnv s u)
  end.
Proof.
  intros Hst. unfold client_code. rewrite (bind_runs _ _ _ _ _ (read_args_runs s u c j Hst)), (bind_runs _ _ _ _ _ (runs_gets _ _)). cbn [e_user].
  destruct Hst as (-> & _). by destruct (needs _ _ _).
Qed.

(** The clean-up after a run. *)
Lemma clean_up_runs s u c : cs_current s = c -> (cs_miss s = 0 -> wc_args_copy c = true -> wc_args c <> 0 /\ is_Some (cs_mem s !! wc_args c)) ->
  runs (let! miss := cget cs_miss in
        let! c := cget cs_current in
        (if (miss =? 0) && wc_args_copy c then loc_free (wc_args c) else ret tt) ;!
        cmod (set_current no_client) ;! cmod (set_miss 0) ;! cmod (set_exited false) ;! cmod (set_def_channel 0)) (mkEnv s u) tt
    (mkEnv (rest (if (cs_miss s =? 0) then freed s c else s)) u).
Proof.
  intros Hc Hf. eapply runs_bind; [apply cget_runs|]. eapply runs_bind; [apply cget_runs|]. cbn beta. rewrite Hc.
  eapply (runs_bind _ _ _ tt (mkEnv (if (cs_miss s =? 0) then freed s c else s) u)); [|reflexivity].
  unfold freed. destruct (Z.eqb_spec (cs_miss s) 0) as [E|E]; [|apply runs_ret]. destruct (wc_args_copy c); [|apply runs_ret].
  destruct Hf as [Hp [l Hl]]; [done|done|]. unfold loc_free. rewrite (proj2 (Z.eqb_neq _ _) Hp). cbn [andb]. eapply runs_bind; [apply cget_runs|]. cbn beta. by rewrite Hl.
Qed.

Lemma attempt_miss_runs (retry : bool) s u c j ca : cs_current s = c -> stands (cs_mem s) c j -> cs_listeners s = ls ->
  let u1 := tell (if retry then CTLE_RETRY else CTLE_START) u in needs (jb_client j) (jb_args j) u1 = Some ca ->
  runs (run_cache_client retry) (mkEnv s u) tt (mkEnv (rest (waiting (started s) c ca)) (tell CTLE_ABORT (locked lock (jb_channel j) u1))).
Proof.
  intros Hc Hst Hl u1 Hn. pose proof Hst as (Hfn & Hj & _). unfold Cache.run_cache_client. do 3 (eapply runs_bind; [apply cmod_runs|]).
  change (set_def_channel 0 _) with (started s). eapply runs_bind; [by apply tell_runs|]. fold u1.
  eapply (runs_bind _ _ _ tt).
  { unfold runs. erewrite catch_throw; [apply runs_ret|]. rewrite (bind_runs _ _ _ _ _ (cget_runs _ _ _)). cbn beta.
    change (cs_current (started s)) with (cs_current s). rewrite Hc, Hfn, (proj2 (Z.eqb_neq _ _) Hj), <- Hfn. unfold bind.
    rewrite (client_runs (started s) u1 c j Hst), Hn, (wait_throws (started s) u1 c j ca) by done. reflexivity. }
  eapply runs_bind; [apply cget_runs|]. cbn [cs_exited waiting]. eapply runs_bind; [apply tell_runs; done|].
  apply (clean_up_runs (waiting (started s) c ca) _ (kept (started s) c)); [done|done].
Qed.

Lemma attempt_done_runs (retry : bool) s u c j : cs_current s = c -> stands (cs_mem s) c j -> cs_listeners s = ls ->
  (wc_args_copy c = true -> wc_args c <> 0) ->
  let u1 := tell (if retry then CTLE_RETRY else CTLE_START) u in needs (jb_client j) (jb_args j) u1 = None ->
  runs (run_cache_client retry) (mkEnv s u) tt (mkEnv (rest (freed s c)) (tell CTLE_COMMIT (work (jb_client j) (jb_args j) u1))).
Proof.
  intros Hc Hst Hl Hcopy u1 Hn. pose proof Hst as (Hfn & Hj & _ & Ha). unfold Cache.run_cache_client. do 3 (eapply runs_bind; [apply cmod_runs|]).
  change (set_def_channel 0 _) with (started s). eapply runs_bind; [by apply tell_runs|]. fold u1. set (s1 := set_exited true (started s)).
  eapply (runs_bind _ _ _ tt (mkEnv s1 (work (jb_client j) (jb_args j) u1))).
  { apply runs_catch. eapply runs_bind; [apply cget_runs|]. cbn beta. change (cs_current (started s)) with (cs_current s).
    rewrite Hc. replace (wc_client c =? 0) with false by (rewrite Hfn; symmetry; by apply Z.eqb_neq).
    eapply (runs_bind _ _ _ tt (mkEnv s1 (work (jb_client j) (jb_args j) u1))).
    - unfold runs. rewrite (client_runs (started s) u1 c j Hst), Hn. eapply runs_bind; [|apply umod_runs]. unfold cache_exit.
      eapply runs_bind; [apply cget_runs|]. cbn beta. change (cs_current (started s)) with (cs_current s).
      eapply runs_bind; [apply runs_cassert; rewrite Hc, Hfn; apply negb_true_iff; by apply Z.eqb_neq|].
      eapply runs_bind; [apply cget_runs|]. eapply runs_bind; [by apply runs_cassert|]. eapply runs_bind; [apply cget_runs|]. reflexivity.
    - eapply runs_bind; [apply cget_runs|]. eapply runs_bind; [by apply runs_cassert|]. eapply runs_bind; [apply cget_runs|]. by apply runs_cassert. }
  eapply runs_bind; [apply cget_runs|]. cbn [cs_exited s1]. eapply runs_bind; [apply tell_runs; done|].
  replace (rest (freed s c)) with (rest (if cs_miss s1 =? 0 then freed s1 c else s1)) by (unfold freed; cbn; by destruct (wc_args_copy c)).
  apply clean_up_runs; [done|]. intros _ Hcp. split; [by apply Hcopy|]. destruct (jb_args j) as [l|]; [|destruct Ha as [_ Ha]; by rewrite Ha in Hcp].
  destruct Ha as (_ & Hm & _). change (cs_mem s1) with (cs_mem s). by eexists.
Qed.
End Runs.
