(* ===== verification/CacheRefine.v ===== *)
(** * Caches refine their specification (Cache.v, CacheProps.v, framework/cache.c)

    Any sequence of operations of clients and providers of data runs without a failed assert, and does to
    the rest of the program exactly what the specification says. *)

From S2P Require Import Prelude Cache CacheProps CacheRuns.

(** ** Lists of clients *)

Lemma at_cache_app {A} c (l k : list (Z * A)) : at_cache c (l ++ k) = at_cache c l ++ at_cache c k.
Proof. unfold at_cache. by rewrite List.filter_app, map_app. Qed.

Lemma at_cache_one {A} c d (a : A) : at_cache c [(d, a)] = if d =? c then [a] else [].
Proof. unfold at_cache. cbn. by destruct (d =? c). Qed.

Lemma at_not_cache {A} c d (l : list (Z * A)) : at_cache c (not_at_cache d l) = if c =? d then [] else at_cache c l.
Proof.
  induction l as [|[x a] l IH]; [by destruct (c =? d)|]. unfold at_cache, not_at_cache in *. cbn [List.filter fst].
  destruct (Z.eqb_spec x d) as [->|Hx]; cbn [negb].
  - rewrite IH. destruct (Z.eqb_spec c d) as [->|Hc]; [done|]. by rewrite (proj2 (Z.eqb_neq d c)) by done.
  - cbn [List.filter fst]. destruct (Z.eqb_spec x c) as [->|Hxc]; [|exact IH]. cbn [map snd]. rewrite IH. by rewrite (proj2 (Z.eqb_neq c d)).
Qed.

Lemma perm_move {A} (x k a b : list A) : k ++ x ++ a ++ b ≡ₚ k ++ (a ++ x) ++ b.
Proof. apply Permutation_app_head. rewrite <- (assoc_L (++) a x). apply Permutation_app_swap_app. Qed.

Lemma logs_post {A} (l : list (option A)) : (length (List.filter is_log l) <= 1)%nat -> (length (List.filter is_log (post_log l)) <= 1)%nat.
Proof.
  unfold post_log. destruct (existsb is_log l) eqn:E; [done|]. intros _. rewrite List.filter_app, length_app. cbn.
  replace (List.filter is_log l) with (@nil (option A)); [cbn; lia|]. symmetry. induction l as [|x l IH]; [done|]. cbn in *. apply orb_false_iff in E as [-> E]. by apply IH.
Qed.

Lemma existsb_post {A} (l : list (option A)) : existsb is_log (post_log l) = true.
Proof. unfold post_log. destruct (existsb is_log l) eqn:E; [done|]. rewrite existsb_app. cbn. by rewrite orb_true_r. Qed.

Lemma not_at_none {A} c (l : list (Z * A)) : at_cache c l = [] -> not_at_cache c l = l.
Proof.
  unfold at_cache, not_at_cache. induction l as [|[d a] l IH]; [done|]. cbn. destruct (d =? c); [done|]. intros H. cbn. by rewrite IH.
Qed.

Lemma existsb_logs {A} (l : list (option A)) : existsb is_log l = negb (length (List.filter is_log l) =? 0)%nat.
Proof. induction l as [|x l IH]; [done|]. cbn. by destruct (is_log x). Qed.

Lemma logs_delete {A} (l : list (option A)) i x : l !! i = Some x ->
  length (List.filter is_log l) = ((if is_log x then 1 else 0) + length (List.filter is_log (delete i l)))%nat.
Proof.
  intros H. rewrite delete_take_drop. rewrite <- (take_drop_middle l i x H) at 1. rewrite !List.filter_app, !length_app. cbn [List.filter].
  destruct (is_log x); cbn; lia.
Qed.

Lemma map_delete {A B} (f : A -> B) l i : map f (delete i l) = delete i (map f l).
Proof. by rewrite !delete_take_drop, map_app, firstn_map, skipn_map. Qed.

Section Refine.
Context {U : Type}.
Variable needs : Z -> option (list Z) -> U -> option Z.
Variable work : Z -> option (list Z) -> U -> U.
Variable listen : Z -> Z -> U -> U.
Variables lock unlock : Z -> U -> U.
Variable ls : list Z.
Variable n : nat.
Hypothesis enough : (length ls < n)%nat.
Implicit Types (s : CacheState) (u : U) (c : WaitingCacheClient) (j : Job) (sp : Spec U).

Notation attempt := (attempt needs work listen lock ls).
Notation rerun := (rerun needs work listen lock unlock ls).
Notation client_code := (client_code needs work lock).
Notation run_cache_client := (run_cache_client client_code (tell_one listen) n).
Notation caches_ok := (caches_ok ls).

(** ** The invariant after a run *)

Definition fresh_copy c : bool := negb (wc_args c =? 0) && negb (wc_args_copy c).

Lemma miss_ok ptrs aw posted s c ca : caches_ok ptrs aw posted s ->
  caches_ok (kept_ptrs s c ptrs) (aw ++ [(ca, kept s c)]) (post_log posted) (rest (waiting (started s) c ca)).
Proof.
  intros [Hw Hln Hli Hpo Hti Hlo Hlis Hpn Hme Hra Hnx].
  assert (Hfresh : cs_next s ∉ ptrs) by (intros Hin; apply Hra in Hin; lia).
  change (kept (started s) c) with (kept s c) in *. constructor; cbn [rest waiting started cs_list cs_posted cs_timer cs_listeners cs_mem cs_next set_def_channel set_exited set_miss set_current].
  - intros x. rewrite at_cache_app, at_cache_one. specialize (Hw x). unfold wait_list in *. cbn.
    destruct (Z.eqb_spec ca x) as [->|Hx]; [rewrite lookup_insert_eq; cbn; by rewrite <- Hw|]. rewrite lookup_insert_ne by done. by rewrite app_nil_r.
  - change (wait_list (started s) ca) with (wait_list s ca). destruct (Nat.eqb_spec (length (wait_list s ca)) 0) as [E|E]; [|done].
    apply NoDup_app. split_and!; [done|intros x Hx ->%list_elem_of_singleton; apply Hli in Hx; rewrite <- Hw in Hx; by destruct (wait_list s ca)|apply NoDup_singleton].
  - intros x. rewrite at_cache_app, at_cache_one. change (wait_list (started s) ca) with (wait_list s ca). rewrite Hw.
    destruct (Nat.eqb_spec (length (at_cache ca aw)) 0) as [E|E]; rewrite ?elem_of_app, ?list_elem_of_singleton, Hli; destruct (Z.eqb_spec ca x) as [->|Hx].
    + split; [by destruct (at_cache x aw)|by right].
    + rewrite app_nil_r. split; [by intros [|]|by left].
    + split; [by destruct (at_cache x aw)|by destruct (at_cache x aw)].
    + by rewrite app_nil_r.
  - rewrite Hti, Hpo. unfold post_log. destruct (existsb is_log posted); [done|]. by rewrite map_app.
  - by rewrite existsb_post.
  - by apply logs_post.
  - exact Hlis.
  - unfold kept_ptrs. destruct (negb _ && negb _); [by apply NoDup_cons|done].
  - intros p. unfold kept_ptrs, kept_mem. cbn. destruct (negb _ && negb _); [|apply Hme]. rewrite elem_of_cons, <- Hme, lookup_insert_is_Some'. by split; intros [->|H]; auto.
  - intros p. unfold kept_ptrs, kept_next. cbn. destruct (negb _ && negb _); [|apply Hra]. intros [->|Hp]%elem_of_cons; [lia|]. apply Hra in Hp. lia.
  - unfold kept_next. cbn. destruct (negb _ && negb _); lia.
Qed.

Lemma done_ok ptrs ptrs' aw posted s c : caches_ok ptrs aw posted s -> ptrs ≡ₚ own c ++ ptrs' -> caches_ok ptrs' aw posted (rest (freed s c)).
Proof.
  intros [Hw Hln Hli Hpo Hti Hlo Hlis Hpn Hme Hra Hnx] Hp. unfold own, freed in *. rewrite Hp in Hpn. destruct (wc_args_copy c).
  - apply NoDup_cons in Hpn as [Hnin Hpn]. constructor; try done; cbn.
    + intros p. rewrite lookup_delete_is_Some, Hme, Hp. cbn. rewrite elem_of_cons. split; [intros [H1 [H2|H2]]; [congruence|done]|]. intros H. split; [congruence|by right].
    + intros p H. apply Hra. rewrite Hp. by right.
  - constructor; try done; cbn.
    + intros p. rewrite Hme, Hp. done.
    + intros p H. apply Hra. by rewrite Hp.
Qed.

Lemma take_ok ptrs aw posted s ca : caches_ok ptrs aw posted s ->
  caches_ok ptrs (not_at_cache ca aw) posted
    (set_caches (List.filter (fun x => negb (x =? ca)) (cs_list s)) (<[ca := []]> (cs_caches s)) s).
Proof.
  intros [Hw Hln Hli Hpo Hti Hlo Hlis Hpn Hme Hra Hnx]. constructor; try done; cbn.
  - intros x. rewrite at_not_cache. unfold wait_list. cbn. destruct (Z.eqb_spec x ca) as [->|Hx]; [by rewrite lookup_insert_eq|]. rewrite lookup_insert_ne by done. by apply Hw.
  - by apply NoDup_ListNoDup, List.NoDup_filter, NoDup_ListNoDup.
  - intros x. rewrite at_not_cache, list_elem_of_In, filter_In, <- list_elem_of_In, Hli. destruct (Z.eqb_spec x ca) as [->|Hx]; (split; [by intros []|done]).
Qed.

(** ** Simulation *)

(** A client of the specification, with its arguments in memory of its own. *)
Definition good (m : gmap Z (list Z)) c j : Prop := stands m c j /\ (wc_args c <> 0 -> wc_args_copy c = true).

Definition good_waiting (m : gmap Z (list Z)) (x : Z * WaitingCacheClient) (y : Z * Job) : Prop := fst x = fst y /\ good m (snd x) (snd y).

Definition good_posted (m : gmap Z (list Z)) (x : option (list WaitingCacheClient)) (y : option (list Job)) : Prop :=
  match x, y with
  | None, None => True
  | Some l, Some k => Forall2 (good m) l k
  | _, _ => False
  end.

(** [pend]: the clients that are about to be run again; [ex]: other blocks. *)
Record sim (ex : list Z) (pend : list WaitingCacheClient) (js : list Job) (e : Env U) sp : Prop := {
  sm_idle : idle (e_cache e);
  sm_user : e_user e = sp_user sp;
  sm_pend : Forall2 (good (cs_mem (e_cache e))) pend js;
  sm_cache : exists aw posted ptrs, caches_ok ptrs aw posted (e_cache e) /\
    Forall2 (good_waiting (cs_mem (e_cache e))) aw (sp_wait sp) /\ Forall2 (good_posted (cs_mem (e_cache e))) posted (sp_posted sp) /\
    ptrs ≡ₚ ex ++ flat_map own (map snd aw ++ posted_jobs posted ++ pend) }.

Lemma stands_mem m m' c j : stands m c j -> (wc_args c <> 0 -> m' !! wc_args c = m !! wc_args c) -> stands m' c j.
Proof.
  intros (H1 & H2 & H3 & H4) Hm. split; [done|]. split; [done|]. split; [done|]. destruct (jb_args j) as [l|]; [|done].
  destruct H4 as (H4 & H5 & H6). by rewrite Hm.
Qed.

(** The memory of some clients stays as it is. *)
Definition same_for (m m' : gmap Z (list Z)) (l : list WaitingCacheClient) : Prop := forall p, p ∈ flat_map own l -> m' !! p = m !! p.

Lemma good_mem m m' c j : good m c j -> same_for m m' [c] -> good m' c j.
Proof.
  intros [Hs Hc] Hm. split; [|done]. apply (stands_mem m); [done|]. intros Hp. apply Hm. cbn. unfold own. rewrite (Hc Hp). left.
Qed.

Lemma same_app m m' l k : same_for m m' (l ++ k) <-> same_for m m' l /\ same_for m m' k.
Proof.
  unfold same_for. rewrite flat_map_app. setoid_rewrite elem_of_app. split; [intros H; split; intros p Hp; apply H; by auto|].
  intros [H1 H2] p [Hp|Hp]; [by apply H1|by apply H2].
Qed.

Lemma good_all m m' l js : Forall2 (good m) l js -> same_for m m' l -> Forall2 (good m') l js.
Proof.
  induction 1 as [|c j l js Hc _ IH]; intros Hm; [constructor|]. apply (same_app m m' [c] l) in Hm as [H1 H2]. constructor; [by apply (good_mem m)|by apply IH].
Qed.

Lemma waiting_all m m' l js : Forall2 (good_waiting m) l js -> same_for m m' (map snd l) -> Forall2 (good_waiting m') l js.
Proof.
  induction 1 as [|x y l js [Hf Hc] _ IH]; intros Hm; [constructor|]. apply (same_app m m' [snd x] (map snd l)) in Hm as [H1 H2].
  constructor; [split; [done|by apply (good_mem m)]|by apply IH].
Qed.

Lemma posted_all m m' l js : Forall2 (good_posted m) l js -> same_for m m' (posted_jobs l) -> Forall2 (good_posted m') l js.
Proof.
  induction 1 as [|x y l js Hc _ IH]; intros Hm; [constructor|]. destruct x as [x|], y as [y|]; try done.
  - apply (same_app m m' x (posted_jobs l)) in Hm as [H1 H2]. constructor; [by apply (good_all m)|by apply IH].
  - constructor; [done|by apply IH].
Qed.

Lemma posted_log_good m l js : Forall2 (good_posted m) l js -> Forall2 (good_posted m) (post_log l) (post_log js).
Proof.
  intros H. unfold post_log. assert (E : existsb is_log l = existsb is_log js).
  { induction H as [|x y l js Hc _ IH]; [done|]. cbn. rewrite IH. by destruct x, y. }
  rewrite E. destruct (existsb is_log js); [done|]. apply Forall2_app; [done|]. by constructor.
Qed.

Lemma posted_jobs_log {A} (l : list (option (list A))) : posted_jobs (post_log l) = posted_jobs l.
Proof. apply posted_log. Qed.

(** One run of a client, which is not among the others. *)
Lemma attempt_sim ex pend js (retry : bool) s sp c j aw posted ptrs :
  cs_current s = c -> stands (cs_mem s) c j -> (wc_args_copy c = true -> wc_args c <> 0) ->
  caches_ok ptrs aw posted s ->
  Forall2 (good (cs_mem s)) pend js -> Forall2 (good_waiting (cs_mem s)) aw (sp_wait sp) -> Forall2 (good_posted (cs_mem s)) posted (sp_posted sp) ->
  ptrs ≡ₚ ex ++ own c ++ flat_map own (map snd aw ++ posted_jobs posted ++ pend) ->
  exists s', runs (run_cache_client retry) (mkEnv s (sp_user sp)) tt (mkEnv s' (sp_user (attempt retry j sp))) /\ cs_buf s' = cs_buf s /\
    sim ex pend js (mkEnv s' (sp_user (attempt retry j sp))) (attempt retry j sp).
Proof.
  intros Hc Hst Hcp Hok Hpe Hwa Hpo Hp. pose proof (co_listeners _ _ _ _ _ Hok) as Hl. pose proof (co_ptrs _ _ _ _ _ Hok) as Hnd.
  unfold CacheProps.attempt. set (u1 := tell listen ls (if retry then CTLE_RETRY else CTLE_START) (sp_user sp)).
  destruct (needs (jb_client j) (jb_args j) u1) as [ca|] eqn:Hn; eexists; cbn [sp_user]; (split; [|split]).
  - by eapply attempt_miss_runs.
  - done.
  - assert (Hsame : same_for (cs_mem s) (kept_mem s c) (map snd aw ++ posted_jobs posted ++ pend)).
    { intros p Hin. unfold kept_mem. destruct (negb _ && negb _); [|done]. apply lookup_insert_ne. intros E.
      assert (p ∈ ptrs) as Hr%(co_range _ _ _ _ _ Hok) by (rewrite Hp, !elem_of_app; auto). lia. }
    apply same_app in Hsame as [Hs1 [Hs2 Hs3]%same_app]. constructor; cbn [e_cache e_user sp_user sp_wait sp_posted rest waiting started cs_mem set_def_channel set_exited set_miss set_current].
    + done.
    + done.
    + by apply (good_all (cs_mem s)).
    + eexists _, _, _. split; [by apply miss_ok|]. split; [|split].
      * apply Forall2_app; [by apply (waiting_all (cs_mem s))|]. constructor; [|constructor]. split; [done|]. cbn [snd]. unfold kept, kept_mem.
        change (cs_next (started s)) with (cs_next s). change (cs_mem (started s)) with (cs_mem s).
        destruct (negb (wc_args c =? 0) && negb (wc_args_copy c)) eqn:Ef.
        -- apply andb_true_iff in Ef as [E1%negb_true_iff%Z.eqb_neq _]. split; [|done]. destruct Hst as (H1 & H2 & H3 & H4). split; [done|]. split; [done|]. split; [done|].
           destruct (jb_args j) as [l|]; [|by destruct H4 as [H4 _]]. destruct H4 as (_ & H4 & H5). cbn. rewrite lookup_insert_eq, H4. pose proof (co_next _ _ _ _ _ Hok). split; [lia|done].
        -- split; [done|]. intros Hne. apply (proj2 (Z.eqb_neq _ _)) in Hne. rewrite Hne in Ef. by apply negb_false_iff in Ef.
      * apply posted_log_good. by apply (posted_all (cs_mem s)).
      * rewrite posted_jobs_log, map_app, !flat_map_app. rewrite !flat_map_app in Hp. cbn [map flat_map snd]. rewrite app_nil_r. unfold kept_ptrs, kept.
        destruct (negb (wc_args c =? 0) && negb (wc_args_copy c)) eqn:Ef.
        -- apply andb_true_iff in Ef as [_ E2%negb_true_iff]. unfold own in Hp at 1. rewrite E2 in Hp. unfold own at 3. cbn [wc_args_copy wc_args].
           change (cs_next (started s)) with (cs_next s). rewrite Hp, <- perm_move. cbn [app]. apply Permutation_middle.
        -- rewrite Hp. apply perm_move.
  - by eapply attempt_done_runs.
  - unfold freed. by destruct (wc_args_copy c).
  - assert (Hsame : same_for (cs_mem s) (cs_mem (freed s c)) (map snd aw ++ posted_jobs posted ++ pend)).
    { intros p Hin. unfold freed. destruct (wc_args_copy c) eqn:E; [|done]. cbn. apply lookup_delete_ne. intros <-. rewrite Hp in Hnd.
      unfold own in Hnd at 1. rewrite E in Hnd. apply NoDup_app in Hnd as (_ & _ & Hnd). apply NoDup_cons in Hnd as [Hnd _]. done. }
    apply same_app in Hsame as [Hs1 [Hs2 Hs3]%same_app].
    constructor; cbn [e_cache e_user sp_user sp_wait sp_posted]; [done|done| |].
    + by apply (good_all (cs_mem s)).
    + exists aw, posted, (ex ++ flat_map own (map snd aw ++ posted_jobs posted ++ pend)). split; [eapply done_ok; [done|]|split; [|split]].
      * rewrite Hp. apply Permutation_app_swap_app.
      * by apply (waiting_all (cs_mem s)).
      * by apply (posted_all (cs_mem s)).
      * done.
Qed.

(** ** Clients that run again *)

Notation unlock_client c := (if negb (wc_channel c =? 0) then unlock_one unlock (wc_channel c) else ret tt).
Notation rerun_all := (rerun_all needs work listen lock unlock ls).

(** The invariant reads these fields only. *)
Lemma ok_fields ptrs aw posted s s' : caches_ok ptrs aw posted s ->
  cs_list s' = cs_list s -> cs_caches s' = cs_caches s -> cs_mem s' = cs_mem s -> cs_next s' = cs_next s ->
  cs_timer s' = cs_timer s -> cs_posted s' = cs_posted s -> cs_listeners s' = cs_listeners s -> caches_ok ptrs aw posted s'.
Proof.
  intros [Hw Hln Hli Hpo Hti Hlo Hlis Hpn Hme Hra Hnx] E1 E2 E3 E4 E5 E6 E7. unfold wait_list in *.
  constructor; unfold wait_list; rewrite ?E1, ?E2, ?E3, ?E4, ?E5, ?E6, ?E7; done.
Qed.

Lemma own_args m c j : good m c j -> wc_args_copy c = true -> wc_args c <> 0.
Proof. intros [(_ & _ & _ & Ha) _] Hc. destruct (jb_args j); [by destruct Ha|]. destruct Ha as [_ Ha]. by rewrite Ha in Hc. Qed.

Lemma unlock_runs c j s u : wc_channel c = jb_channel j -> runs (unlock_client c) (mkEnv s u) tt (mkEnv s (unlocked unlock (jb_channel j) u)).
Proof. intros ->. unfold unlocked. by destruct (jb_channel j =? 0). Qed.

Lemma rerun_sim ex c pend j js s u sp : sim ex (c :: pend) (j :: js) (mkEnv s u) sp ->
  exists s', runs (run_waiting client_code (tell_one listen) n c) (mkEnv s u) tt (mkEnv s' (sp_user (attempt true j sp))) /\ cs_buf s' = cs_buf s /\
    runs (unlock_client c) (mkEnv s' (sp_user (attempt true j sp))) tt (mkEnv s' (sp_user (rerun j sp))) /\
    sim ex pend js (mkEnv s' (sp_user (rerun j sp))) (rerun j sp).
Proof.
  intros [Hid Hu Hpe (aw & posted & ptrs & Hok & Hwa & Hpo & Hp)]. cbn [e_cache e_user] in *. subst u. apply Forall2_cons in Hpe as [Hc Hpe].
  edestruct (attempt_sim ex pend js true (set_current c s) sp c j aw posted ptrs) as (s' & Hr & Hb & Hs); try done.
  - by destruct Hc.
  - by eapply own_args.
  - by apply (ok_fields _ _ _ s).
  - rewrite Hp. apply Permutation_app_head. rewrite !flat_map_app. cbn [flat_map]. rewrite !(assoc_L (++)). apply Permutation_app_tail.
    rewrite <- (assoc_L (++) (own c)). apply Permutation_app_comm.
  - exists s'. split; [|split; [done|split]].
    + unfold run_waiting. eapply runs_bind; [apply cmod_runs|exact Hr].
    + apply (unlock_runs c j). by destruct Hc as [(_ & _ & Hc & _) _].
    + destruct Hs as [H1 H2 H3 H4]. by constructor.
Qed.

Notation cache_notify := (cache_notify client_code (tell_one listen) (unlock_one unlock) n).
Notation notify_loop := (notify_loop client_code (tell_one listen) (unlock_one unlock) n).
Notation notify_event_loop := (notify_event_loop client_code (tell_one listen) (unlock_one unlock) n).

Lemma notify_loop_sim pend pre post js s sp : cs_buf s = pre ++ pend ++ post -> sim [] pend js (mkEnv s (sp_user sp)) sp ->
  exists s', runs (notify_loop (length pend) (length pre)) (mkEnv s (sp_user sp)) tt (mkEnv s' (sp_user (rerun_all js sp))) /\
    sim [] [] [] (mkEnv s' (sp_user (rerun_all js sp))) (rerun_all js sp).
Proof.
  revert pre js s sp. induction pend as [|c pend IH]; intros pre js s sp Hb Hs.
  - pose proof (sm_pend _ _ _ _ _ Hs) as ->%Forall2_nil_inv_l. by exists s.
  - pose proof (sm_pend _ _ _ _ _ Hs) as (j & js' & _ & _ & ->)%Forall2_cons_inv_l. cbn [length Cache.notify_loop].
    apply rerun_sim in Hs as (s1 & R1 & Hb1 & R2 & Hs1).
    destruct (IH (pre ++ [c]) js' s1 (rerun j sp)) as (s2 & R3 & Hs2); [by rewrite Hb1, Hb, <- (assoc_L (++))|done|]. exists s2. split; [|done].
    assert (E : cs_buf s !! length pre = Some c) by (rewrite Hb; by apply list_lookup_middle).
    eapply runs_bind; [apply cget_runs|]. cbn beta. rewrite E. eapply runs_bind; [exact R1|]. eapply runs_bind; [apply cget_runs|]. cbn beta. rewrite Hb1, E.
    eapply runs_bind; [exact R2|]. rewrite length_app, Nat.add_comm in R3. exact R3.
Qed.

Lemma event_loop_sim pend js s sp : sim [] pend js (mkEnv s (sp_user sp)) sp ->
  exists s', runs (notify_event_loop (pend ++ [no_client])) (mkEnv s (sp_user sp)) tt (mkEnv s' (sp_user (rerun_all js sp))) /\
    sim [] [] [] (mkEnv s' (sp_user (rerun_all js sp))) (rerun_all js sp).
Proof.
  revert js s sp. induction pend as [|c pend IH]; intros js s sp Hs.
  - pose proof (sm_pend _ _ _ _ _ Hs) as ->%Forall2_nil_inv_l. by exists s.
  - pose proof (sm_pend _ _ _ _ _ Hs) as (j & js' & [(Hfn & Hj & _) _] & _ & ->)%Forall2_cons_inv_l. cbn [app Cache.notify_event_loop].
    rewrite Hfn, (proj2 (Z.eqb_neq _ _) Hj). apply rerun_sim in Hs as (s1 & R1 & Hb1 & R2 & Hs1). destruct (IH js' s1 (rerun j sp)) as (s2 & R3 & Hs2); [done|].
    exists s2. split; [|done]. eapply runs_bind; [exact R1|]. eapply runs_bind; [exact R2|exact R3].
Qed.

(** ** Notifications *)

Definition taken (c : Z) s : CacheState := set_caches (List.filter (fun x => negb (x =? c)) (cs_list s)) (<[c := []]> (cs_caches s)) s.

Lemma at_cache_good m aw ws (c : Z) : Forall2 (good_waiting m) aw ws ->
  Forall2 (good m) (at_cache c aw) (at_cache c ws) /\ Forall2 (good_waiting m) (not_at_cache c aw) (not_at_cache c ws).
Proof.
  unfold at_cache, not_at_cache. induction 1 as [|[d a] [d' b] aw ws [Hd Hg] _ [IH1 IH2]]; [done|]. cbn in *. subst d'.
  destruct (d =? c); cbn; split; try constructor; try done.
Qed.

Lemma taken_sim (c : Z) s u sp : sim [] [] [] (mkEnv s u) sp ->
  sim [] (wait_list s c) (at_cache c (sp_wait sp)) (mkEnv (taken c s) u) (set_wait (not_at_cache c (sp_wait sp)) sp).
Proof.
  intros [Hid Hu Hpe (aw & posted & ptrs & Hok & Hwa & Hpo & Hp)]. cbn [e_cache e_user] in *.
  pose proof (at_cache_good _ _ _ c Hwa) as [H1 H2]. pose proof (co_wait _ _ _ _ _ Hok c) as Hw.
  constructor; [done|done|by rewrite Hw|]. exists (not_at_cache c aw), posted, ptrs. split; [by apply take_ok|]. split; [done|]. split; [done|].
  rewrite Hp, Hw, (split_cache c aw), app_nil_r. rewrite !flat_map_app. cbn [app].
  rewrite (Permutation_app_comm (flat_map own (at_cache c aw))), <- !(assoc_L (++)). apply Permutation_app_head, Permutation_app_comm.
Qed.

Lemma wait_len s sp (c : Z) u : sim [] [] [] (mkEnv s u) sp -> length (wait_list s c) = length (at_cache c (sp_wait sp)).
Proof.
  intros [_ _ _ (aw & posted & ptrs & Hok & Hwa & _)]. rewrite (co_wait _ _ _ _ _ Hok). eapply Forall2_length, at_cache_good. done.
Qed.

Lemma spec_notify_none (c : Z) sp : at_cache c (sp_wait sp) = [] -> spec_notify needs work listen lock unlock ls c sp = sp.
Proof. intros H. unfold spec_notify. rewrite H, (not_at_none _ _ H). by destruct sp. Qed.

Lemma notify_sim (c : Z) s sp : sim [] [] [] (mkEnv s (sp_user sp)) sp ->
  let sp' := spec_notify needs work listen lock unlock ls c sp in
  exists s', runs (cache_notify c) (mkEnv s (sp_user sp)) tt (mkEnv s' (sp_user sp')) /\ sim [] [] [] (mkEnv s' (sp_user sp')) sp'.
Proof.
  intros Hs sp'. pose proof (wait_len _ _ c _ Hs) as Hlen. destruct (Nat.eqb_spec (length (wait_list s c)) 0) as [E|E].
  - exists s. unfold sp'. rewrite spec_notify_none by (apply nil_length_inv; lia). split; [|done].
    unfold Cache.cache_notify. eapply runs_bind; [apply cget_runs|]. cbn beta. by rewrite E.
  - pose proof (taken_sim c _ _ _ Hs) as Ht. set (l := wait_list s c) in *. set (s1 := set_buf (l ++ drop (length l) (cs_buf (taken c s))) (taken c s)).
    destruct (notify_loop_sim l [] (drop (length l) (cs_buf (taken c s))) (at_cache c (sp_wait sp)) s1 (set_wait (not_at_cache c (sp_wait sp)) sp)) as (s' & R & Hs').
    + done.
    + destruct Ht as [H1 H2 H3 (aw & posted & ptrs & Hok & H4)]. constructor; [done|done|done|]. exists aw, posted, ptrs. split; [by apply (ok_fields _ _ _ (taken c s))|done].
    + exists s'. split; [|exact Hs']. unfold Cache.cache_notify. eapply runs_bind; [apply cget_runs|]. cbn beta. fold l.
      rewrite (proj2 (Nat.eqb_neq _ _) E). eapply runs_bind; [apply cmod_runs|]. eapply runs_bind; [apply cmod_runs|]. exact R.
Qed.

Lemma later_sim (c : Z) s sp : sim [] [] [] (mkEnv s (sp_user sp)) sp ->
  exists s', runs (cache_notify_later c) (mkEnv s (sp_user sp)) tt (mkEnv s' (sp_user (spec_later c sp))) /\ sim [] [] [] (mkEnv s' (sp_user (spec_later c sp))) (spec_later c sp).
Proof.
  intros Hs. pose proof (wait_len _ _ c _ Hs) as Hlen. unfold cache_notify_later, spec_later. destruct (at_cache c (sp_wait sp)) as [|j js] eqn:E.
  - exists s. split; [|done]. eapply runs_bind; [apply cget_runs|]. cbn beta. by rewrite Hlen.
  - rewrite <- E in *. pose proof (taken_sim c _ _ _ Hs) as [Hid Hu Hpe (aw & posted & ptrs & Hok & Hwa & Hpo & Hp)]. set (l := wait_list s c) in *.
    exists (set_posted (cs_timer (taken c s)) (cs_posted (taken c s) ++ [PostNotify (l ++ [no_client])]) (taken c s)). split.
    + eapply runs_bind; [apply cget_runs|]. cbn beta. fold l. rewrite Hlen, E. cbn [length Nat.eqb]. eapply runs_bind; [apply cmod_runs|]. reflexivity.
    + constructor; [done|done|by constructor|]. exists aw, (posted ++ [Some l]), ptrs. cbn [e_cache e_user sp_wait sp_posted set_sp_posted]. split; [|split; [done|split]].
      * destruct Hok as [Hw Hln Hli Hpos Hti Hlo Hlis Hpn Hme Hra Hnx]. constructor; try done; cbn.
        -- by rewrite map_app; f_equal.
        -- rewrite existsb_app, orb_false_r. exact Hti.
        -- by rewrite List.filter_app, app_nil_r.
      * apply Forall2_app; [exact Hpo|]. constructor; [exact Hpe|done].
      * rewrite posted_app, app_nil_r. unfold posted_jobs at 2. cbn. by rewrite app_nil_r.
Qed.

(** ** Events *)

Lemma ok_post ptrs aw posted posted' s : caches_ok ptrs aw posted s -> (length (List.filter is_log posted') <= 1)%nat ->
  caches_ok ptrs aw posted' (set_posted (existsb is_log posted') (map post_of posted') s).
Proof. intros [Hw Hln Hli Hpo Hti Hlo Hlis Hpn Hme Hra Hnx] Hl. by constructor. Qed.

Lemma no_waiting ptrs aw posted s : caches_ok ptrs aw posted s -> cs_list s = [] <-> aw = [].
Proof.
  intros Hok. split; intros E.
  - destruct aw as [|[d a] aw]; [done|]. assert (H : d ∈ cs_list s) by (apply (co_list _ _ _ _ _ Hok); unfold at_cache; cbn; by rewrite Z.eqb_refl).
    rewrite E in H. by apply elem_of_nil in H.
  - destruct (cs_list s) as [|x l] eqn:El; [done|]. assert (H : x ∈ cs_list s) by (rewrite El; left). apply (co_list _ _ _ _ _ Hok) in H. by rewrite E in H.
Qed.

Lemma timer_runs ptrs aw posted s u (posted' := if (length aw =? 0)%nat then posted else posted ++ [None]) :
  caches_ok ptrs aw posted s -> existsb is_log posted = false ->
  runs cache_timer (mkEnv (set_posted true (cs_posted s) s) u) tt (mkEnv (set_posted (existsb is_log posted') (map post_of posted') s) u).
Proof.
  intros Hok Hl. pose proof (no_waiting _ _ _ _ Hok) as Hno. unfold cache_timer. eapply runs_bind; [apply cget_runs|]. eapply runs_bind; [by apply runs_cassert|].
  eapply runs_bind; [apply cmod_runs|]. eapply runs_bind; [apply cget_runs|]. cbn beta. eapply runs_bind.
  { apply runs_cassert. apply forallb_forall. intros x Hx%list_elem_of_In. cbn in Hx. apply Nat.ltb_lt. change (wait_list _ x) with (wait_list s x).
    rewrite (co_wait _ _ _ _ _ Hok). apply (co_list _ _ _ _ _ Hok) in Hx. by destruct (at_cache x aw); [|cbn; lia]. }
  cbn [cs_list set_posted]. unfold posted'. destruct (cs_list s) as [|x l] eqn:El.
  - rewrite (proj1 Hno eq_refl). cbn [length Nat.eqb]. rewrite Hl, <- (co_posted _ _ _ _ _ Hok). apply runs_ret.
  - destruct aw; [by discriminate (proj2 Hno eq_refl)|]. cbn [length Nat.eqb]. rewrite existsb_app, orb_true_r, map_app, <- (co_posted _ _ _ _ _ Hok). reflexivity.
Qed.

Notation dispatch_posted := (dispatch_posted client_code (tell_one listen) (unlock_one unlock) n).
Notation spec_event := (spec_event needs work listen lock unlock ls).

Lemma dispatch_some s i x posted : cs_posted s = map post_of posted -> posted !! i = Some x ->
  cs_posted s !! i = Some (post_of x) /\ delete i (cs_posted s) = map post_of (delete i posted).
Proof. intros -> Hx. split; [apply list_lookup_fmap_Some; by exists x|by rewrite map_delete]. Qed.

Lemma event_notify_sim i s sp js : sim [] [] [] (mkEnv s (sp_user sp)) sp -> sp_posted sp !! i = Some (Some js) ->
  exists s', runs (dispatch_posted i) (mkEnv s (sp_user sp)) tt (mkEnv s' (sp_user (spec_event i sp))) /\
    sim [] [] [] (mkEnv s' (sp_user (spec_event i sp))) (spec_event i sp).
Proof.
  intros [Hid _ _ (aw & posted & ptrs & Hok & Hwa & Hpo & Hp)] Ey. cbn [e_cache e_user] in *. unfold CacheProps.spec_event. rewrite Ey.
  destruct (Forall2_lookup_r _ _ _ _ _ Hpo Ey) as ([l|] & Ex & Hxy); [|done]. pose proof (co_posted _ _ _ _ _ Hok) as Hcp.
  pose proof (logs_delete _ _ _ Ex) as Hld. pose proof (co_logs _ _ _ _ _ Hok) as Hlo. pose proof (posted_delete _ _ _ Ex) as Hpj.
  destruct (dispatch_some s i _ _ Hcp Ex) as [El Hd].
  assert (Hb : existsb is_log (delete i posted) = cs_timer s) by (rewrite (co_timer _ _ _ _ _ Hok), !existsb_logs, Hld; done).
  set (s1 := set_posted (cs_timer s) (delete i (cs_posted s)) s). set (sp1 := set_sp_posted (delete i (sp_posted sp)) sp).
  destruct (event_loop_sim l js s1 sp1) as (s' & R & Hs').
  - constructor; [done|done|done|]. exists aw, (delete i posted), ptrs. cbn [e_cache]. split; [|split; [done|split; [by apply Forall2_delete|]]].
    + unfold s1. rewrite Hd, <- Hb. apply (ok_post _ _ posted); [done|]. cbn in Hld. lia.
    + rewrite Hp, Hpj, app_nil_r. cbn [app default]. rewrite !flat_map_app. apply Permutation_app_head, Permutation_app_comm.
  - exists s'. split; [|exact Hs']. unfold Cache.dispatch_posted. eapply runs_bind; [apply cget_runs|]. cbn beta. rewrite El.
    eapply runs_bind; [apply cmod_runs|]. exact R.
Qed.

Lemma event_log_sim i s sp : sim [] [] [] (mkEnv s (sp_user sp)) sp -> sp_posted sp !! i = Some None ->
  exists s', runs (dispatch_posted i) (mkEnv s (sp_user sp)) tt (mkEnv s' (sp_user (spec_event i sp))) /\
    sim [] [] [] (mkEnv s' (sp_user (spec_event i sp))) (spec_event i sp).
Proof.
  intros [Hid _ _ (aw & posted & ptrs & Hok & Hwa & Hpo & Hp)] Ey. cbn [e_cache e_user] in *. unfold CacheProps.spec_event. rewrite Ey.
  destruct (Forall2_lookup_r _ _ _ _ _ Hpo Ey) as ([l|] & Ex & Hxy); [done|]. pose proof (co_posted _ _ _ _ _ Hok) as Hcp.
  pose proof (logs_delete _ _ _ Ex) as Hld. pose proof (co_logs _ _ _ _ _ Hok) as Hlo. pose proof (posted_delete _ _ _ Ex) as Hpj. cbn in Hld, Hpj.
  destruct (dispatch_some s i _ _ Hcp Ex) as [El Hd].
  assert (Hb : existsb is_log (delete i posted) = false) by (rewrite existsb_logs; by replace (length (List.filter is_log (delete i posted))) with 0%nat by lia).
  assert (Ht : cs_timer s = true) by (rewrite (co_timer _ _ _ _ _ Hok), existsb_logs, Hld; done).
  assert (Hok1 : caches_ok ptrs aw (delete i posted) (set_posted (existsb is_log (delete i posted)) (map post_of (delete i posted)) s)) by (apply (ok_post _ _ posted); [done|lia]).
  pose proof (timer_runs _ _ _ _ (sp_user sp) Hok1 Hb) as R. cbn zeta in R. set (posted' := if (length aw =? 0)%nat then _ else _) in R.
  exists (set_posted (existsb is_log posted') (map post_of posted') s). split.
  - unfold Cache.dispatch_posted. eapply runs_bind; [apply cget_runs|]. cbn beta. rewrite El. eapply runs_bind; [apply cmod_runs|]. cbn [post_of e_cache e_user]. rewrite Ht, Hd. exact R.
  - constructor; [done|done|by constructor|]. exists aw, posted', ptrs. cbn [e_cache sp_wait set_sp_posted sp_posted]. split; [|split; [done|split]].
    + apply (ok_post _ _ posted); [done|]. unfold posted'. destruct (_ =? 0)%nat; [lia|]. rewrite List.filter_app, length_app. cbn. lia.
    + assert (Hf : Forall2 (good_posted (cs_mem s)) (delete i posted) (delete i (sp_posted sp))) by (by apply Forall2_delete).
      unfold posted'. destruct Hwa; [done|]. cbn [length Nat.eqb]. apply Forall2_app; [done|]. by constructor.
    + rewrite Hp, Hpj. unfold posted'. destruct (_ =? 0)%nat; [done|]. rewrite posted_app. change (posted_jobs [None]) with (@nil WaitingCacheClient). by rewrite !app_nil_r.
Qed.

Lemma dispatch_sim i s sp : sim [] [] [] (mkEnv s (sp_user sp)) sp ->
  exists s', runs (dispatch_posted i) (mkEnv s (sp_user sp)) tt (mkEnv s' (sp_user (spec_event i sp))) /\
    sim [] [] [] (mkEnv s' (sp_user (spec_event i sp))) (spec_event i sp).
Proof.
  intros Hs. destruct (sp_posted sp !! i) as [[js|]|] eqn:Ey; [by eapply event_notify_sim|by apply event_log_sim|].
  pose proof Hs as [_ _ _ (aw & posted & ptrs & Hok & Hwa & Hpo & Hp)]. unfold CacheProps.spec_event, Cache.dispatch_posted. rewrite Ey.
  exists s. split; [|done]. eapply runs_bind; [apply cget_runs|]. cbn beta. cbn [e_cache] in Hok. rewrite (co_posted _ _ _ _ _ Hok).
  replace (map post_of posted !! i) with (@None Posted); [done|]. symmetry. apply lookup_ge_None. rewrite length_map, (Forall2_length _ _ _ Hpo). by apply lookup_ge_None.
Qed.
End Refine.
