(* ===== verification/CacheOps.v ===== *)
(** * Programs that use caches (Cache.v, CacheRefine.v, framework/cache.c)

    The agent as a sequence of operations: clients start with their arguments in a block of memory of the caller,
    caches are notified, events are dispatched in any order, data arrive. *)

From S2P Require Import Prelude Cache CacheProps CacheRuns CacheRefine.

Section Programs.
Context {U : Type}.
Variable needs : Z -> option (list Z) -> U -> option Z.
Variable work : Z -> option (list Z) -> U -> U.
Variable listen : Z -> Z -> U -> U.
Variables lock unlock : Z -> U -> U.
Variable ls : list Z.
Variable n : nat.
Implicit Types (s : CacheState) (u : U) (c : WaitingCacheClient) (j : Job) (sp : Spec U).

Notation C := (M (Env U)).
Notation client_code := (client_code needs work lock).
Notation cache_enter := (cache_enter client_code (tell_one listen) n).
Notation spec_exec := (spec_exec needs work listen lock unlock ls).
Notation attempt := (attempt needs work listen lock ls).
Notation caches_ok := (caches_ok ls).
Notation sim := (sim ls).

(** The caller of [cache_enter] keeps its arguments for the time of the call only. *)
Definition enter_client (j : Job) : C unit :=
  match jb_args j with
  | None => cache_enter (jb_client j) (jb_channel j) 0 0
  | Some l =>
      let! p := loc_alloc l in
      cache_enter (jb_client j) (jb_channel j) p (Z.of_nat (length l)) ;!
      loc_free p
  end.

Definition exec_op (op : cache_op) : C unit :=
  match op with
  | OpEnter j => enter_client j
  | OpNotify c => cache_notify client_code (tell_one listen) (unlock_one unlock) n c
  | OpNotifyLater c => cache_notify_later c
  | OpEvent i => dispatch_posted client_code (tell_one listen) (unlock_one unlock) n i
  | OpData f => umod f
  end.

Fixpoint exec_ops (ops : list cache_op) : C unit :=
  match ops with
  | [] => ret tt
  | op :: ops' => exec_op op ;! exec_ops ops'
  end.

(** The listeners are added when the program starts. *)
Fixpoint add_listeners (l : list Z) : C unit :=
  match l with
  | [] => ret tt
  | x :: l' => add_cache_transaction_listener x ;! add_listeners l'
  end.

(** A client is a function. *)
Definition op_ok (op : @cache_op U) : Prop := match op with OpEnter j => jb_client j <> 0 | _ => True end.

Definition entered (op : @cache_op U) : list Job := match op with OpEnter j => [j] | _ => [] end.

Lemma jobs_ops (ops : list cache_op) sp : jobs (fold_left (fun sp op => spec_exec op sp) ops sp) ≡ₚ flat_map entered ops ++ jobs sp.
Proof.
  revert sp. induction ops as [|op ops IH]; intros sp; [done|]. cbn. rewrite IH, exec_jobs. rewrite !(assoc_L (++)). apply Permutation_app_tail, Permutation_app_comm.
Qed.

(** ** Simulation *)

Hypothesis enough : (length ls < n)%nat.

Lemma next_id_runs s u : exists id k, id <> 0 /\
  forall f : Z -> C unit, (let! id := next_id in let! id := (if id =? 0 then next_id else ret id) in f id) (mkEnv s u) = f id (mkEnv (set_id k s) u).
Proof.
  destruct (Z.eqb_spec (cs_id s) 0) as [E|E].
  - exists 1, 2. split; [done|]. intros f. cbv [next_id bind cget gets cmod modify ret e_cache e_user]. by rewrite E.
  - exists (cs_id s), (uwrap 32 (cs_id s + 1)). split; [done|]. intros f. cbv [next_id bind cget gets cmod modify ret e_cache e_user].
    by rewrite (proj2 (Z.eqb_neq _ _) E).
Qed.

(** A client that has not run yet, with its arguments where its caller has them. *)
Lemma enter_sim ex s sp j p (sz := match jb_args j with Some l => Z.of_nat (length l) | None => 0 end) aw posted ptrs :
  idle s -> jb_client j <> 0 -> caches_ok ptrs aw posted s ->
  match jb_args j with None => p = 0 | Some l => p <> 0 /\ cs_mem s !! p = Some l end ->
  Forall2 (good_waiting (cs_mem s)) aw (sp_wait sp) -> Forall2 (good_posted (cs_mem s)) posted (sp_posted sp) ->
  ptrs ≡ₚ ex ++ flat_map own (map snd aw ++ posted_jobs posted) ->
  exists s', runs (cache_enter (jb_client j) (jb_channel j) p sz) (mkEnv s (sp_user sp)) tt (mkEnv s' (sp_user (attempt false j sp))) /\
    sim ex [] [] (mkEnv s' (sp_user (attempt false j sp))) (attempt false j sp).
Proof.
  intros (Hcu & Hex & Hmi & Hde) Hj Hok Ha Hwa Hpo Hp. destruct (next_id_runs s (sp_user sp)) as (id & k & _ & Rid).
  set (c := mkClient id (jb_client j) (jb_channel j) p sz false).
  destruct (attempt_sim needs work listen lock ls n enough ex [] [] false (set_current c (set_id k s)) sp c j aw posted ptrs) as (s' & R & _ & Hs).
  - done.
  - split; [done|]. split; [done|]. split; [done|]. unfold c, sz. cbn. destruct (jb_args j) as [l|]; [|done]. by destruct Ha.
  - done.
  - by apply (ok_fields _ _ _ _ s).
  - done.
  - done.
  - done.
  - by rewrite app_nil_r.
  - exists s'. split; [|exact Hs]. unfold Cache.cache_enter. eapply runs_bind; [apply runs_cassert; apply negb_true_iff; by apply Z.eqb_neq|].
    eapply runs_bind; [apply cget_runs|]. cbn beta. rewrite Hcu. eapply runs_bind; [by apply runs_cassert|]. eapply runs_bind; [by apply runs_cassert|].
    unfold runs. rewrite Rid. eapply runs_bind; [apply cmod_runs|]. exact R.
Qed.

Lemma alloc_ok ptrs aw posted s l : caches_ok ptrs aw posted s ->
  caches_ok (cs_next s :: ptrs) aw posted (set_mem (<[cs_next s := l]> (cs_mem s)) (cs_next s + 1) s).
Proof.
  intros [Hw Hln Hli Hpo Hti Hlo Hlis Hpn Hme Hra Hnx]. constructor; try done; cbn.
  - apply NoDup_cons. split; [|done]. intros H%Hra. lia.
  - intros p. rewrite elem_of_cons, <- Hme, lookup_insert_is_Some'. by split; intros [->|H]; auto.
  - intros p [->|H%Hra]%elem_of_cons; lia.
  - lia.
Qed.

Lemma free_ok ptrs ptrs' aw posted s p : caches_ok ptrs aw posted s -> ptrs ≡ₚ p :: ptrs' ->
  caches_ok ptrs' aw posted (set_mem (delete p (cs_mem s)) (cs_next s) s).
Proof.
  intros [Hw Hln Hli Hpo Hti Hlo Hlis Hpn Hme Hra Hnx] Hp. rewrite Hp in Hpn. apply NoDup_cons in Hpn as [Hnin Hpn]. constructor; try done; cbn.
  - intros q. rewrite lookup_delete_is_Some, Hme, Hp, elem_of_cons. split; [intros [H1 [H2|H2]]; [congruence|done]|]. intros H. split; [congruence|by right].
  - intros q H. apply Hra. rewrite Hp. by right.
Qed.

Lemma enter_client_sim j s sp : jb_client j <> 0 -> sim [] [] [] (mkEnv s (sp_user sp)) sp ->
  exists s', runs (enter_client j) (mkEnv s (sp_user sp)) tt (mkEnv s' (sp_user (attempt false j sp))) /\
    sim [] [] [] (mkEnv s' (sp_user (attempt false j sp))) (attempt false j sp).
Proof.
  intros Hj [Hid _ _ (aw & posted & ptrs & Hok & Hwa & Hpo & Hp)]. cbn [e_cache e_user] in *. rewrite app_nil_r in Hp. unfold enter_client.
  destruct (jb_args j) as [l|] eqn:Ea.
  - set (s1 := set_mem (<[cs_next s := l]> (cs_mem s)) (cs_next s + 1) s). pose proof (co_next _ _ _ _ _ Hok) as Hnx.
    assert (Hsame : same_for (cs_mem s) (cs_mem s1) (map snd aw ++ posted_jobs posted)).
    { intros q Hq. cbn. apply lookup_insert_ne. intros E. assert (q ∈ ptrs) as Hr%(co_range _ _ _ _ _ Hok) by (by rewrite Hp). lia. }
    apply same_app in Hsame as [Hs1 Hs2].
    destruct (enter_sim [cs_next s] s1 sp j (cs_next s) aw posted (cs_next s :: ptrs)) as (s2 & R & [Hid2 _ _ (aw2 & posted2 & ptrs2 & Hok2 & Hwa2 & Hpo2 & Hp2)]).
    + done.
    + done.
    + by apply alloc_ok.
    + rewrite Ea. split; [lia|]. apply lookup_insert_eq.
    + by apply (waiting_all (cs_mem s)).
    + by apply (posted_all (cs_mem s)).
    + cbn [app]. by apply perm_skip.
    + rewrite Ea in R. cbn [e_cache e_user] in *. cbn [app] in Hp2. rewrite app_nil_r in Hp2.
      exists (set_mem (delete (cs_next s) (cs_mem s2)) (cs_next s2) s2). split.
      * eapply runs_bind; [unfold loc_alloc; eapply runs_bind; [apply cget_runs|]; eapply runs_bind; [apply cmod_runs|apply runs_ret]|].
        eapply runs_bind; [exact R|]. unfold loc_free. rewrite (proj2 (Z.eqb_neq (cs_next s) 0)) by lia. eapply runs_bind; [apply cget_runs|].
        assert (Hin : is_Some (cs_mem s2 !! cs_next s)) by (apply (co_mem _ _ _ _ _ Hok2); rewrite Hp2; left). destruct Hin as [? ->]. reflexivity.
      * pose proof (co_ptrs _ _ _ _ _ Hok2) as Hnd. rewrite Hp2 in Hnd. apply NoDup_cons in Hnd as [Hnin _].
        assert (Hsame : same_for (cs_mem s2) (delete (cs_next s) (cs_mem s2)) (map snd aw2 ++ posted_jobs posted2)) by (intros q Hq; apply lookup_delete_ne; congruence).
        apply same_app in Hsame as [Hs3 Hs4]. constructor; [done|done|by constructor|]. exists aw2, posted2, (flat_map own (map snd aw2 ++ posted_jobs posted2)).
        split; [by eapply free_ok|]. split; [by apply (waiting_all (cs_mem s2))|]. split; [by apply (posted_all (cs_mem s2))|]. by rewrite app_nil_r.
  - destruct (enter_sim [] s sp j 0 aw posted ptrs) as (s2 & R & Hs2); try done.
    + by rewrite Ea.
    + exists s2. split; [|done]. by rewrite Ea in R.
Qed.

Lemma exec_op_sim op s sp : op_ok op -> sim [] [] [] (mkEnv s (sp_user sp)) sp ->
  exists s', runs (exec_op op) (mkEnv s (sp_user sp)) tt (mkEnv s' (sp_user (spec_exec op sp))) /\
    sim [] [] [] (mkEnv s' (sp_user (spec_exec op sp))) (spec_exec op sp).
Proof.
  intros Hop Hs. destruct op as [j|c|c|i|f].
  - by apply enter_client_sim.
  - by apply notify_sim.
  - by apply later_sim.
  - by apply dispatch_sim.
  - exists s. split; [done|]. destruct Hs as [H1 H2 H3 H4]. by constructor.
Qed.

Lemma exec_ops_sim ops s sp : Forall op_ok ops -> sim [] [] [] (mkEnv s (sp_user sp)) sp ->
  let sp' := fold_left (fun sp op => spec_exec op sp) ops sp in
  exists s', runs (exec_ops ops) (mkEnv s (sp_user sp)) tt (mkEnv s' (sp_user sp')) /\ sim [] [] [] (mkEnv s' (sp_user sp')) sp'.
Proof.
  intros Hop. revert s sp. induction Hop as [|op ops Ho _ IH]; intros s sp Hs; [by exists s|]. cbn.
  destruct (exec_op_sim _ _ _ Ho Hs) as (s1 & R1 & Hs1). destruct (IH _ _ Hs1) as (s2 & R2 & Hs2). exists s2. split; [|done]. by eapply runs_bind.
Qed.

(** ** The whole program *)

Lemma listeners_runs l s u : runs (add_listeners l) (mkEnv s u) tt (mkEnv (set_cache_listeners (cs_listeners s ++ l) s) u).
Proof.
  revert s. induction l as [|x l IH]; intros s; [rewrite app_nil_r; by destruct s|]. cbn. eapply runs_bind; [apply cmod_runs|].
  specialize (IH (set_cache_listeners (cs_listeners s ++ [x]) s)). cbn in IH. by rewrite <- (assoc_L (++)) in IH.
Qed.

Lemma cache_init_sim next u : 0 < next -> sim [] [] [] (mkEnv (set_cache_listeners ls (cache_init next)) u) (mkSpec [] [] [] u).
Proof.
  intros Hn. constructor; [done|done|by constructor|]. exists [], [], []. split; [|done]. constructor; cbn; try done.
  - constructor.
  - intros ca. rewrite elem_of_nil. done.
  - lia.
  - constructor.
  - intros p. rewrite elem_of_nil, lookup_empty. split; [by intros []|done].
  - intros p H. by apply elem_of_nil in H.
Qed.

(** The blocks of memory are those of the clients that wait or are posted, and have arguments. *)
Definition has_args j : bool := match jb_args j with Some _ => true | None => false end.

Lemma own_length m l js : Forall2 (good m) l js -> length (flat_map own l) = length (List.filter has_args js).
Proof.
  induction 1 as [|c j l js [(_ & _ & _ & Ha) Hc] _ IH]; [done|]. cbn. rewrite length_app, IH. unfold own, has_args.
  destruct (jb_args j); [destruct Ha as (Ha & _); by rewrite (Hc Ha)|]. destruct Ha as [_ ->]. done.
Qed.

Lemma posted_good m posted ps : Forall2 (good_posted m) posted ps -> Forall2 (good m) (posted_jobs posted) (posted_jobs ps).
Proof.
  unfold posted_jobs. induction 1 as [|x y posted ps H _ IH]; [done|]. destruct x, y; cbn; try done. by apply Forall2_app.
Qed.

Lemma waiting_good m aw ws : Forall2 (good_waiting m) aw ws -> Forall2 (good m) (map snd aw) (map snd ws).
Proof. induction 1 as [|x y aw ws [_ H] _ IH]; cbn; by constructor. Qed.

Lemma sim_size s u sp : sim [] [] [] (mkEnv s u) sp ->
  size (cs_mem s) = length (List.filter has_args (map snd (sp_wait sp) ++ posted_jobs (sp_posted sp))).
Proof.
  intros [_ _ _ (aw & posted & ptrs & Hok & Hwa & Hpo & Hp)]. cbn [e_cache] in *. rewrite app_nil_r in Hp.
  rewrite <- (own_length (cs_mem s) (map snd aw ++ posted_jobs posted)) by (apply Forall2_app; [by apply waiting_good|by apply posted_good]).
  rewrite <- Hp. rewrite <- size_dom. rewrite <- (size_list_to_set (C := gset Z) ptrs) by apply (co_ptrs _ _ _ _ _ Hok). f_equal.
  apply set_eq. intros p. rewrite elem_of_list_to_set, elem_of_dom. apply (co_mem _ _ _ _ _ Hok).
Qed.

(** C10: Caches do what their specification says.  A program that adds its listeners and then does any sequence of
    operations (clients start, caches are notified now or by a posted event, posted events are dispatched in any order,
    data arrive) fails no assert and touches no freed memory; the rest of the program is left as by the specification; the
    clients that wait at each cache are those of the specification, in its order, with their arguments; each client that has
    started has finished exactly once, or waits, or is posted; and the blocks of memory are those that the clients that
    have not finished own: the arguments of the others are freed. *)
Theorem caches_refine next u ops : 0 < next -> Forall op_ok ops ->
  let sp := fold_left (fun sp op => spec_exec op sp) ops (mkSpec [] [] [] u) in
  exists s, runs (add_listeners ls ;! exec_ops ops) (mkEnv (cache_init next) u) tt (mkEnv s (sp_user sp)) /\ idle s /\
    (forall c : Z, Forall2 (good (cs_mem s)) (wait_list s c) (at_cache c (sp_wait sp))) /\
    flat_map entered ops ≡ₚ map snd (sp_wait sp) ++ posted_jobs (sp_posted sp) ++ sp_done sp /\
    size (cs_mem s) = length (List.filter has_args (map snd (sp_wait sp) ++ posted_jobs (sp_posted sp))).
Proof.
  intros Hn Hops sp. destruct (exec_ops_sim ops (set_cache_listeners ls (cache_init next)) (mkSpec [] [] [] u) Hops) as (s & R & Hs); [by apply cache_init_sim|].
  exists s. split; [by eapply runs_bind; [apply listeners_runs|]|]. fold sp in Hs. pose proof (sim_size _ _ _ Hs) as Hsz.
  split; [apply Hs|]. split; [|split; [|done]].
  - intros c. destruct Hs as [_ _ _ (aw & posted & ptrs & Hok & Hwa & _)]. rewrite (co_wait _ _ _ _ _ Hok). by eapply at_cache_good.
  - pose proof (jobs_ops ops (mkSpec [] [] [] u)) as Hj. fold sp in Hj. unfold jobs at 2 in Hj. cbn in Hj. rewrite app_nil_r in Hj. symmetry. exact Hj.
Qed.
End Programs.

(** ** A program: data arrive in a map from caches to their data *)

Module CacheExample.
Definition Data : Type := gmap Z Z * list Z.

(** Client [fn] reads the cache [fn], then the one its arguments name. *)
Definition needs (fn : Z) (a : option (list Z)) (u : Data) : option Z :=
  List.find (fun c => match fst u !! c with Some _ => false | None => true end) (fn :: default [] a).
Definition work (fn : Z) (a : option (list Z)) (u : Data) : Data := (fst u, snd u ++ [fn]).
Definition listen (l ev : Z) (u : Data) : Data := (fst u, snd u ++ [1000 * l + ev]).
Definition lock (ch : Z) (u : Data) : Data := (fst u, snd u ++ [100 + ch]).
Definition unlock (ch : Z) (u : Data) : Data := (fst u, snd u ++ [200 + ch]).
Definition arrive (c : Z) : @cache_op Data := OpData (fun u => (<[c := 0]> (fst u), snd u)).

(** Two clients wait for cache 11, one of them then for cache 12. *)
Definition ops : list (@cache_op Data) :=
  [OpEnter (mkJob 11 7 (Some [12])); OpEnter (mkJob 11 0 None); arrive 11; OpNotify 11; arrive 12; OpNotifyLater 12; OpEvent 1; OpEvent 0].

Definition log : list Z :=
  [9001; 107; 9003; 9001; 9003; 9002; 107; 9003; 207; 9002; 11; 9004; 9002; 11; 9004; 207].

Theorem caches_refine_witness :
  0 < 1 /\ Forall op_ok ops /\
  exists e, runs (add_listeners [9] ;! exec_ops needs work listen lock unlock 2 ops) (mkEnv (cache_init 1) (∅, [])) tt e /\
    snd (e_user e) = log /\ size (cs_mem (e_cache e)) = 0%nat.
Proof.
  assert (H : Forall op_ok ops) by (unfold ops; repeat (apply Forall_cons_2; [by cbn|]); by apply Forall_nil_2). split; [lia|]. split; [exact H|].
  destruct (caches_refine needs work listen lock unlock [9] 2 ltac:(cbn; lia) 1 (∅, []) ops ltac:(lia) H) as (s & R & _ & _ & _ & Hsz).
  eexists. split; [exact R|]. split; [vm_compute; reflexivity|]. cbn [e_cache]. rewrite Hsz. vm_compute. reflexivity.
Defined.
End CacheExample.

(** ** Clients that notify a cache themselves *)

Module Nested.
Notation U := unit.
Definition quiet (x y : Z) : M (Env U) unit := ret tt.
Definition no_lock (x : Z) : M (Env U) unit := ret tt.
Definition waits (fn p : Z) : M (Env U) unit := cache_wait no_lock 5.
Definition exits (fn p : Z) : M (Env U) unit := cache_exit.

(** A client that has all its data and then notifies cache 5. *)
Definition notifies (fn p : Z) : M (Env U) unit := cache_exit ;! cache_notify exits quiet no_lock 1 5.

(** The run of the client at the cache clears the current client and [client_exited], which the outer run asserts. *)
Lemma nested_notify_asserts :
  fst ((cache_enter waits quiet 1 1 0 0 0 ;! cache_enter notifies quiet 1 2 0 0 0) (mkEnv (cache_init 1) tt)) = Fault /\
  fst (cache_enter notifies quiet 1 2 0 0 0 (mkEnv (cache_init 1) tt)) = Val tt.
Proof. split; reflexivity. Qed.
End Nested.
