(* ===== verification/ExprValue.v ===== *)
(** * Values of expressions (services/expressions.c, expressions.h)

    Numbers with their types and sizes, strings, registers, and their conversions.  A [double] is a [spec_float] of 53
    bits, with the operations of IEEE 754. *)

From Stdlib Require Import SpecFloat.
From S2P Require Import Prelude Vm.

Definition ERR_INV_EXPRESSION : Z := STD_ERR_BASE + 18.

Definition MODE_NORMAL : Z := 0.
Definition MODE_TYPE : Z := 1.
Definition MODE_SKIP : Z := 2.

Definition TYPE_CLASS_UNKNOWN : Z := 0.
Definition TYPE_CLASS_CARDINAL : Z := 1.
Definition TYPE_CLASS_INTEGER : Z := 2.
Definition TYPE_CLASS_REAL : Z := 3.
Definition TYPE_CLASS_POINTER : Z := 4.
Definition TYPE_CLASS_ARRAY : Z := 5.
Definition TYPE_CLASS_COMPOSITE : Z := 6.
Definition TYPE_CLASS_ENUMERATION : Z := 7.
Definition TYPE_CLASS_FUNCTION : Z := 8.
Definition TYPE_CLASS_MEMBER_PTR : Z := 9.
Definition TYPE_CLASS_COMPLEX : Z := 10.

(** ** Bytes of numbers *)

(** The [n] low bytes of [x], least significant first, and the number they stand for. *)
Fixpoint le_bytes (n : nat) (x : Z) : list Z :=
  match n with
  | O => []
  | S n' => x mod 256 :: le_bytes n' (x / 256)
  end.

Fixpoint le_value (l : list Z) : Z :=
  match l with
  | [] => 0
  | b :: l' => b + 256 * le_value l'
  end.

Definition order (be : bool) (l : list Z) : list Z := if be then rev l else l.

(** ** Floating point numbers *)

Definition dprec : Z := 53.
Definition demax : Z := 1024.

Definition d_add : spec_float -> spec_float -> spec_float := SFadd dprec demax.
Definition d_sub : spec_float -> spec_float -> spec_float := SFsub dprec demax.
Definition d_mul : spec_float -> spec_float -> spec_float := SFmul dprec demax.
Definition d_div : spec_float -> spec_float -> spec_float := SFdiv dprec demax.
Definition d_zero : spec_float := S754_zero false.
Definition d_of_Z (n : Z) : spec_float := binary_normalize dprec demax n 0 false.

(** [(float)x] *)
Definition to_float (x : spec_float) : spec_float :=
  match x with
  | S754_finite s m e => binary_normalize 24 128 (if s then Z.neg m else Z.pos m) e s
  | x => x
  end.

(** [(int64_t)x] and [(uint64_t)x], which are undefined if the number does not fit. *)
Definition d_trunc (x : spec_float) : option Z :=
  match x with
  | S754_zero _ => Some 0
  | S754_finite s m e => Some ((if s then Z.opp else fun n => n) (Z.shiftl (Z.pos m) e))
  | _ => None
  end.

(** The bits of a number with [mw] bits of mantissa, for the largest exponent [emax]; the code keeps the bits
    of a number that is no number, here there is only one. *)
Definition float_bits (mw emax : Z) (x : spec_float) : Z :=
  let sign (s : bool) := if s then 2 * emax * 2 ^ mw else 0 in
  match x with
  | S754_zero s => sign s
  | S754_infinity s => sign s + (2 * emax - 1) * 2 ^ mw
  | S754_nan => (2 * emax - 1) * 2 ^ mw + 2 ^ (mw - 1)
  | S754_finite s m e => sign s + (if Z.pos m <? 2 ^ mw then Z.pos m else (e + emax + mw - 1) * 2 ^ mw + (Z.pos m - 2 ^ mw))
  end.

Definition bits_float (mw emax : Z) (n : Z) : spec_float :=
  let m := n mod 2 ^ mw in
  let e := (n / 2 ^ mw) mod (2 * emax) in
  let s := negb (n / (2 * emax * 2 ^ mw) =? 0) in
  if e =? 0 then match m with Z.pos m => S754_finite s m (3 - emax - (mw + 1)) | _ => S754_zero s end
  else if e =? 2 * emax - 1 then (if m =? 0 then S754_infinity s else S754_nan)
  else match m + 2 ^ mw with Z.pos m => S754_finite s m (e - emax - mw + 1) | _ => S754_nan end.

(** ** Values *)

(** [LocationExpressionState], with the number of its frame. *)
Record Loc := mkLoc { lo_ctx : Z; lo_frame : option Z; lo_pieces : list LocationPiece }.

(** [Value] of an agent without symbols; a register is its context and its place among the definitions of it. *)
Record Value := mkValue {
  v_type_class : Z;
  v_value : option (list Z);
  v_reg : option (Z * nat);
  v_loc : option Loc;
  v_address : Z;
  v_size : Z;
  v_remote : bool;
  v_constant : bool;
  v_big_endian : bool;
  v_function : bool;
  v_binary_scale : Z;
  v_decimal_scale : Z;
  v_func_cb : option Z;
  v_field_cb : option Z }.

Definition ini_value : Value := mkValue 0 None None None 0 0 false false false false 0 0 None None.

Definition set_class (c : Z) (v : Value) : Value :=
  mkValue c (v_value v) (v_reg v) (v_loc v) (v_address v) (v_size v) (v_remote v) (v_constant v) (v_big_endian v) (v_function v) (v_binary_scale v) (v_decimal_scale v) (v_func_cb v) (v_field_cb v).
Definition set_constant (b : bool) (v : Value) : Value :=
  mkValue (v_type_class v) (v_value v) (v_reg v) (v_loc v) (v_address v) (v_size v) (v_remote v) b (v_big_endian v) (v_function v) (v_binary_scale v) (v_decimal_scale v) (v_func_cb v) (v_field_cb v).
Definition set_data (d : option (list Z)) (remote : bool) (size : Z) (v : Value) : Value :=
  mkValue (v_type_class v) d (v_reg v) (v_loc v) (v_address v) size remote (v_constant v) (v_big_endian v) (v_function v) (v_binary_scale v) (v_decimal_scale v) (v_func_cb v) (v_field_cb v).
Definition set_reg_loc (r : option (Z * nat)) (l : option Loc) (v : Value) : Value :=
  mkValue (v_type_class v) (v_value v) r l (v_address v) (v_size v) (v_remote v) (v_constant v) (v_big_endian v) (v_function v) (v_binary_scale v) (v_decimal_scale v) (v_func_cb v) (v_field_cb v).
Definition set_scales (b d : Z) (v : Value) : Value :=
  mkValue (v_type_class v) (v_value v) (v_reg v) (v_loc v) (v_address v) (v_size v) (v_remote v) (v_constant v) (v_big_endian v) (v_function v) b d (v_func_cb v) (v_field_cb v).

Definition set_value (data : list Z) (be : bool) (v : Value) : Value :=
  mkValue (v_type_class v) (Some data) None None 0 (Z.of_nat (length data)) false (v_constant v) be false (v_binary_scale v) (v_decimal_scale v) None None.

Definition is_number (v : Value) : bool :=
  existsb (Z.eqb (v_type_class v)) [TYPE_CLASS_INTEGER; TYPE_CLASS_CARDINAL; TYPE_CLASS_REAL; TYPE_CLASS_COMPLEX; TYPE_CLASS_ENUMERATION].

Definition is_real_number (v : Value) : bool :=
  let c := v_type_class v in
  if (c =? TYPE_CLASS_INTEGER) || (c =? TYPE_CLASS_CARDINAL) then negb (v_binary_scale v =? 0) || negb (v_decimal_scale v =? 0)
  else c =? TYPE_CLASS_REAL.

Definition is_whole_number (v : Value) : bool :=
  let c := v_type_class v in
  if (c =? TYPE_CLASS_INTEGER) || (c =? TYPE_CLASS_CARDINAL) then (v_binary_scale v =? 0) && (v_decimal_scale v =? 0)
  else c =? TYPE_CLASS_ENUMERATION.

(** ** The rest of the agent *)

(** [RegisterDefinition]; the parent is a place in the same list. *)
Record RegDef := mkRegDef {
  rg_name : list Z;
  rg_size : Z;
  rg_big_endian : bool;
  rg_fp_value : bool;
  rg_bits : option (list nat);
  rg_parent : option nat;
  rg_memory_context : option (list Z);
  rg_memory_address : Z }.

(** What the evaluator asks of contexts, frames, memory and clients of expressions; [inl] is an [errno] value. *)
Class ExprEnv := {
  ctx_id : Z -> list Z;
  ctx_parents : Z -> list Z;
  ctx_word_size : Z -> Z;
  ctx_exited : Z -> bool;
  ctx_stopped : Z -> bool;
  ctx_has_state : Z -> bool;
  ctx_read_running : Z -> bool;
  reg_definitions : Z -> list RegDef;
  id2ctx : list Z -> Z;
  id2register : list Z -> Z + Z * Z * nat;
  context_read_reg : Z -> nat -> Z + list Z;
  read_frame_reg : Z -> Z -> nat -> Z + (Z * list Z);
  context_read_mem : Z -> Z -> Z -> Z + list Z;
  read_location_pieces : Z -> Loc -> bool -> Z + list Z;
  sign_extend : Value -> Loc -> Value;
  id_callbacks : list (option Z -> Z -> list Z -> option Value);
  call_func_cb : Z -> Z -> Value -> list Value -> Z + Value;
  call_field_cb : Z -> Z -> Value -> list Z -> Z + Value;
  big_endian_host : bool }.

Section Values.
Context {St : Type} `{ExprEnv}.

Notation X := (M St).

(** [expression_context] and [expression_frame]. *)
Variables (expression_context : option Z) (expression_frame : Z).

Definition error {A} (no : Z) : X A := throw no.
Definition lift {A} (r : Z + A) : X A := match r with inl e => throw e | inr a => ret a end.

(** A use of [expression_context], a null pointer if there is none. *)
Definition the_context : X Z := match expression_context with Some c => ret c | None => fault end.

Definition set_int_value (size n : Z) (v : Value) : X Value :=
  if existsb (Z.eqb size) [1; 2; 4; 8] then
    ret (set_value (order big_endian_host (le_bytes (Z.to_nat size) n)) big_endian_host (set_scales 0 0 v))
  else fault.

Definition set_fp_value (size : Z) (x : spec_float) (v : Value) : X Value :=
  if size =? 4 then ret (set_value (order big_endian_host (le_bytes 4 (float_bits 23 128 (to_float x)))) big_endian_host (set_scales 0 0 v))
  else if size =? 8 then ret (set_value (order big_endian_host (le_bytes 8 (float_bits 52 1024 x))) big_endian_host (set_scales 0 0 v))
  else fault.

Definition set_complex_value (size : Z) (r i : spec_float) (v : Value) : X Value :=
  if size =? 8 then
    ret (set_value (order big_endian_host (le_bytes 4 (float_bits 23 128 (to_float r))) ++ order big_endian_host (le_bytes 4 (float_bits 23 128 (to_float i)))) big_endian_host v)
  else if size =? 16 then
    ret (set_value (order big_endian_host (le_bytes 8 (float_bits 52 1024 r)) ++ order big_endian_host (le_bytes 8 (float_bits 52 1024 i))) big_endian_host v)
  else fault.

Definition set_ctx_word_value (data : Z) (v : Value) : X Value :=
  let! c := the_context in set_int_value (ctx_word_size c) data v.

Definition set_string_value (s : list Z) (v : Value) : Value := set_value (s ++ [0]) false (set_class TYPE_CLASS_ARRAY v).

(** ** Conversions *)

(** The data of a value in a local buffer; [v.constant] is not set for data in the memory of the target. *)
Definition load_value (v : Value) : X Value :=
  if v_remote v then
    cassert (negb (v_constant v)) ;!
    let! c := the_context in
    let! buf := lift (context_read_mem c (v_address v) (v_size v)) in
    ret (set_data (Some buf) false (v_size v) v)
  else
    match v_value v, v_loc v with
    | Some _, _ => ret v
    | None, None => fault
    | None, Some loc =>
        let! value := lift (read_location_pieces (default 0 expression_context) loc (v_big_endian v)) in
        let size := Z.min (Z.of_nat (length value)) (v_size v) in
        ret (sign_extend (set_data (Some value) false size v) loc)
    end.

Definition to_host_endianness (v : Value) : X Value :=
  cassert (negb (v_type_class v =? TYPE_CLASS_COMPOSITE)) ;!
  cassert (negb (v_type_class v =? TYPE_CLASS_ARRAY)) ;!
  cassert (negb (v_remote v)) ;!
  if eqb (v_big_endian v) big_endian_host then ret v
  else
    match v_value v with
    | None => fault
    | Some d =>
        if v_size v <=? Z.of_nat (length d) then
          ret (mkValue (v_type_class v) (Some (rev (take (Z.to_nat (v_size v)) d))) None None (v_address v) (v_size v) (v_remote v) (v_constant v)
                 big_endian_host (v_function v) (v_binary_scale v) (v_decimal_scale v) (v_func_cb v) (v_field_cb v))
        else fault
    end.

(** The integer of [size] bytes in the buffer of a value. *)
Definition read_uint (v : Value) (size : Z) : X Z :=
  match v_value v with
  | Some d => if size <=? Z.of_nat (length d) then ret (le_value (order big_endian_host (take (Z.to_nat size) d))) else fault
  | None => fault
  end.
Definition read_sint (v : Value) (size : Z) : X Z :=
  let! n := read_uint v size in ret (swrap (8 * size) n).

Definition read_float (v : Value) : X spec_float := let! n := read_uint v 4 in ret (bits_float 23 128 n).
Definition read_double (v : Value) : X spec_float := let! n := read_uint v 8 in ret (bits_float 52 1024 n).

Definition not_applicable {A} : X A := error ERR_INV_EXPRESSION.

(** The cases of the size of a value. *)
Definition sized {A} (f : Z -> X A) (v : Value) : X A :=
  if existsb (Z.eqb (v_size v)) [1; 2; 4; 8] then f (v_size v) else not_applicable.

Definition real_sized {A} (f : spec_float -> X A) (v : Value) : X A :=
  if v_size v =? 4 then let! x := read_float v in f x
  else if v_size v =? 8 then let! x := read_double v in f x
  else not_applicable.

(** In the other modes numbers are not computed. *)
Definition no_data (v : Value) : Value :=
  if v_remote v then set_data (Some (repeat 0 (Z.to_nat (v_size v)))) false (v_size v) v else v.

Definition fits (lo hi : Z) (n : option Z) : X Z :=
  match n with
  | Some n => if (lo <=? n) && (n <? hi) then ret n else fault
  | None => fault
  end.

Definition to_int_fixed_point (mode : Z) (v : Value) : X (Z * Value) :=
  if negb (mode =? MODE_NORMAL) then ret (0, no_data v)
  else if v_type_class v =? TYPE_CLASS_POINTER then
    let! v := load_value v in
    let! v := to_host_endianness v in
    let! n := sized (read_uint v) v in ret (swrap 64 n, v)
  else if is_number v then
    let! v := load_value v in
    let! v := to_host_endianness v in
    let c := v_type_class v in
    let! n := (if c =? TYPE_CLASS_REAL then real_sized (fun x => fits (- 2 ^ 63) (2 ^ 63) (d_trunc x)) v
               else if c =? TYPE_CLASS_COMPLEX then not_applicable
               else if c =? TYPE_CLASS_CARDINAL then let! n := sized (read_uint v) v in ret (swrap 64 n)
               else sized (read_sint v) v) in
    ret (n, v)
  else not_applicable.

Definition to_uns_fixed_point (mode : Z) (v : Value) : X (Z * Value) :=
  if negb (mode =? MODE_NORMAL) then ret (0, no_data v)
  else if (v_type_class v =? TYPE_CLASS_ARRAY) && v_remote v then ret (v_address v, v)
  else if (v_type_class v =? TYPE_CLASS_POINTER) || (v_type_class v =? TYPE_CLASS_MEMBER_PTR) then
    let! v := load_value v in
    let! v := to_host_endianness v in
    let! n := sized (read_uint v) v in ret (n, v)
  else if is_number v then
    let! v := load_value v in
    let! v := to_host_endianness v in
    let c := v_type_class v in
    let! n := (if c =? TYPE_CLASS_REAL then real_sized (fun x => fits 0 (2 ^ 64) (d_trunc x)) v
               else if c =? TYPE_CLASS_COMPLEX then not_applicable
               else if c =? TYPE_CLASS_CARDINAL then sized (read_uint v) v
               else let! n := sized (read_sint v) v in ret (uwrap 64 n)) in
    ret (n, v)
  else not_applicable.

(** The loops over [decimal_scale], and the shift by [binary_scale], of a number of 64 bits with its wrap-around. *)
Fixpoint times (n : nat) (f : Z -> Z) (x : Z) : Z := match n with O => x | S n' => times n' f (f x) end.

Definition scaled (wrap : Z -> Z) (div : Z -> Z) (v : Value) (n : Z) : X Z :=
  let d := v_decimal_scale v in
  let b := v_binary_scale v in
  let n := times (Z.to_nat d) (fun n => wrap (n * 10)) n in
  let n := times (Z.to_nat (- d)) div n in
  if 64 <=? Z.abs b then fault
  else ret (if 0 <? b then wrap (Z.shiftl n b) else if b <? 0 then Z.shiftr n (- b) else n).

Definition to_int (mode : Z) (v : Value) : X (Z * Value) :=
  if v_type_class v =? TYPE_CLASS_INTEGER then
    let! (n, v) := to_int_fixed_point mode v in
    let! n := scaled (swrap 64) (fun n => Z.quot n 10) v n in ret (n, v)
  else if v_type_class v =? TYPE_CLASS_CARDINAL then
    let! (n, v) := to_uns_fixed_point mode v in
    let! n := scaled (uwrap 64) (fun n => n / 10) v n in ret (swrap 64 n, v)
  else
    cassert (v_binary_scale v =? 0) ;!
    cassert (v_decimal_scale v =? 0) ;!
    to_int_fixed_point mode v.

Definition to_uns (mode : Z) (v : Value) : X (Z * Value) :=
  if v_type_class v =? TYPE_CLASS_INTEGER then
    let! (n, v) := to_int_fixed_point mode v in
    let! n := scaled (swrap 64) (fun n => Z.quot n 10) v n in ret (uwrap 64 n, v)
  else if v_type_class v =? TYPE_CLASS_CARDINAL then
    let! (n, v) := to_uns_fixed_point mode v in
    let! n := scaled (uwrap 64) (fun n => n / 10) v n in ret (n, v)
  else
    cassert (v_binary_scale v =? 0) ;!
    cassert (v_decimal_scale v =? 0) ;!
    to_uns_fixed_point mode v.

Fixpoint d_times (n : nat) (f : spec_float -> spec_float) (x : spec_float) : spec_float := match n with O => x | S n' => d_times n' f (f x) end.

(** The loops over the scales; dividing zero changes nothing. *)
Definition d_scaled (v : Value) (x : spec_float) : spec_float :=
  let b := v_binary_scale v in
  let d := v_decimal_scale v in
  let x := d_times (Z.to_nat b) (fun x => d_mul x (d_of_Z 2)) x in
  let x := d_times (Z.to_nat (- b)) (fun x => d_div x (d_of_Z 2)) x in
  let x := d_times (Z.to_nat d) (fun x => d_mul x (d_of_Z 10)) x in
  d_times (Z.to_nat (- d)) (fun x => d_div x (d_of_Z 10)) x.

Definition to_double (mode : Z) (v : Value) : X (spec_float * Value) :=
  if negb (mode =? MODE_NORMAL) then ret (d_zero, no_data v)
  else if is_number v then
    let! v := load_value v in
    let! v := to_host_endianness v in
    let c := v_type_class v in
    if c =? TYPE_CLASS_REAL then let! x := real_sized ret v in ret (x, v)
    else if c =? TYPE_CLASS_COMPLEX then not_applicable
    else if c =? TYPE_CLASS_CARDINAL then
      let! (n, v) := to_uns_fixed_point mode v in ret (d_scaled v (d_of_Z n), v)
    else
      let! (n, v) := to_int_fixed_point mode v in ret (d_scaled v (d_of_Z n), v)
  else not_applicable.

Definition complex_part (i : nat) (v : Value) : X spec_float :=
  let part (n : nat) := set_data (option_map (drop (i * n)) (v_value v)) false (v_size v) v in
  if v_size v =? 8 then read_float (part 4%nat)
  else if v_size v =? 16 then read_double (part 8%nat)
  else not_applicable.

Definition to_i_double (mode : Z) (v : Value) : X (spec_float * Value) :=
  if negb (mode =? MODE_NORMAL) then ret (d_zero, no_data v)
  else if is_number v then
    let! v := load_value v in
    let! v := to_host_endianness v in
    if v_type_class v =? TYPE_CLASS_COMPLEX then let! x := complex_part 1 v in ret (x, v)
    else ret (d_zero, v)
  else not_applicable.

Definition to_r_double (mode : Z) (v : Value) : X (spec_float * Value) :=
  if negb (mode =? MODE_NORMAL) then ret (d_zero, no_data v)
  else if is_number v then
    let! v := load_value v in
    let! v := to_host_endianness v in
    if v_type_class v =? TYPE_CLASS_COMPLEX then let! x := complex_part 0 v in ret (x, v)
    else to_double mode v
  else not_applicable.

Definition to_boolean (mode : Z) (v : Value) : X (bool * Value) :=
  let! (n, v) := to_int mode v in ret (negb (n =? 0), v).
End Values.
