(* ===== verification/ExprLex.v ===== *)
(** * Symbols of expressions (services/expressions.c)

    The reader of characters and symbols, and the text form of [double] (framework/mdep.c). *)

From Stdlib Require Import SpecFloat.
From S2P Require Import Prelude ExprValue.

Definition SY_LEQ : Z := 256.
Definition SY_GEQ : Z := 257.
Definition SY_EQU : Z := 258.
Definition SY_NEQ : Z := 259.
Definition SY_AND : Z := 260.
Definition SY_OR : Z := 261.
Definition SY_SHL : Z := 262.
Definition SY_SHR : Z := 263.
Definition SY_VAL : Z := 264.
Definition SY_ID : Z := 265.
Definition SY_REF : Z := 266.
Definition SY_DEC : Z := 267.
Definition SY_INC : Z := 268.
Definition SY_A_SUB : Z := 269.
Definition SY_A_ADD : Z := 270.
Definition SY_A_SHL : Z := 271.
Definition SY_A_SHR : Z := 272.
Definition SY_A_OR : Z := 273.
Definition SY_A_XOR : Z := 274.
Definition SY_A_AND : Z := 275.
Definition SY_A_MUL : Z := 276.
Definition SY_A_DIV : Z := 277.
Definition SY_A_MOD : Z := 278.
Definition SY_SIZEOF : Z := 279.
Definition SY_NAME : Z := 280.
Definition SY_SCOPE : Z := 281.
Definition SY_PM_D : Z := 282.
Definition SY_PM_R : Z := 283.

Definition VAL_FLAG_X : Z := 0x01.
Definition VAL_FLAG_U : Z := 0x02.
Definition VAL_FLAG_L : Z := 0x04.
Definition VAL_FLAG_F : Z := 0x08.
Definition VAL_FLAG_C : Z := 0x10.
Definition VAL_FLAG_S : Z := 0x20.

(** ** The text form of [double] *)

Definition is_digit (ch : Z) : bool := (ch_0 <=? ch) && (ch <=? ch_9).
Definition is_space (ch : Z) : bool := (ch =? ch_space) || ((9 <=? ch) && (ch <=? 13)).

(** The loops over the digits, with [val], [digits] and the number of digits that are left out, or of those after the point. *)
Fixpoint int_digits (buf : list Z) (val digits fraction : Z) : Z * Z * Z * list Z :=
  match buf with
  | ch :: buf' =>
      if is_digit ch then
        if digits <? 18 then
          let val := uwrap 64 (val * 10 + (ch - ch_0)) in
          int_digits buf' val (if val =? 0 then digits else digits + 1) fraction
        else int_digits buf' val digits (fraction - 1)
      else (val, digits, fraction, buf)
  | [] => (val, digits, fraction, buf)
  end.

Fixpoint frac_digits (buf : list Z) (val digits fraction : Z) : Z * Z * list Z :=
  match buf with
  | ch :: buf' =>
      if is_digit ch then
        if digits <? 18 then
          let val := uwrap 64 (val * 10 + (ch - ch_0)) in
          frac_digits buf' val (if val =? 0 then digits else digits + 1) (fraction + 1)
        else frac_digits buf' val digits fraction
      else (val, fraction, buf)
  | [] => (val, fraction, buf)
  end.

Fixpoint exp_digits (buf : list Z) (exponent : Z) : Z * list Z :=
  match buf with
  | ch :: buf' => if is_digit ch then exp_digits buf' (swrap 32 (exponent * 10 + (ch - ch_0))) else (exponent, buf)
  | [] => (exponent, buf)
  end.

(** [while (n)]: the power of ten, by squaring.  An [int] has no more than 32 bits; the shift of the one negative
    number that is its own opposite does not end, and has no result here. *)
Fixpoint power10 (fuel : nat) (n : Z) (res p10 : spec_float) : option spec_float :=
  match fuel with
  | O => None
  | S fuel' =>
      if n =? 0 then Some res
      else power10 fuel' (Z.shiftr n 1) (if Z.odd n then d_mul res p10 else res) (d_mul p10 p10)
  end.

Fixpoint skip_space (buf : list Z) : list Z :=
  match buf with
  | ch :: buf' => if is_space ch then skip_space buf' else buf
  | [] => []
  end.

(** The number and the rest of the text. *)
Definition str_to_double (buf : list Z) : option (spec_float * list Z) :=
  let buf := skip_space buf in
  let sign_val := deref buf =? ch_minus in
  let buf := if sign_val || (deref buf =? ch_plus) then tl buf else buf in
  let '(val, digits, fraction, buf) := int_digits buf 0 0 0 in
  let '(val, fraction, buf) := if deref buf =? ch_dot then frac_digits (tl buf) val digits fraction else (val, fraction, buf) in
  let '(exponent, buf) :=
    if (deref buf =? ch_E) || (deref buf =? ch_e) then
      let buf := tl buf in
      let sign_exp := deref buf =? ch_minus in
      let buf := if sign_exp || (deref buf =? ch_plus) then tl buf else buf in
      let '(exponent, buf) := exp_digits buf 0 in
      (if sign_exp then swrap 32 (- exponent) else exponent, buf)
    else (0, buf) in
  let exponent := swrap 32 (exponent - fraction) in
  let n := if exponent <? 0 then swrap 32 (- exponent) else exponent in
  match power10 33 n (d_of_Z 1) (d_of_Z 10) with
  | None => None
  | Some res =>
      let res := if exponent <? 0 then d_div (d_of_Z val) res else d_mul (d_of_Z val) res in
      Some (if sign_val then SFopp res else res, buf)
  end.

(** ** State *)

(** [text] with its terminating zero, and the other static variables. *)
Record Lex := mkLex {
  lx_text : list Z;
  lx_pos : nat;
  lx_ch : Z;
  lx_sy : Z;
  lx_sy_pos : nat;
  lx_val : Value;
  lx_flags : Z }.

Definition set_pos (p : nat) (ch : Z) (s : Lex) : Lex := mkLex (lx_text s) p ch (lx_sy s) (lx_sy_pos s) (lx_val s) (lx_flags s).
Definition set_sy (sy : Z) (s : Lex) : Lex := mkLex (lx_text s) (lx_pos s) (lx_ch s) sy (lx_sy_pos s) (lx_val s) (lx_flags s).
Definition set_sy_pos (p : nat) (s : Lex) : Lex := mkLex (lx_text s) (lx_pos s) (lx_ch s) (lx_sy s) p (lx_val s) (lx_flags s).
Definition set_val (v : Value) (s : Lex) : Lex := mkLex (lx_text s) (lx_pos s) (lx_ch s) (lx_sy s) (lx_sy_pos s) v (lx_flags s).
Definition set_flags (f : Z) (s : Lex) : Lex := mkLex (lx_text s) (lx_pos s) (lx_ch s) (lx_sy s) (lx_sy_pos s) (lx_val s) f.

Definition is_name_character (ch : Z) : bool :=
  ((ch_A <=? ch) && (ch <=? ch_Z)) || ((ch_a <=? ch) && (ch <=? ch_z)) || is_digit ch || (ch =? ch_under) || (ch =? 36) || (ch =? 64).

Section Lexer.
Context `{ExprEnv}.

Notation X := (M Lex).

(** The bound of the loops, more than the length of the text. *)
Variable fuel : nat.

(** ** Characters *)

Definition next_ch : X unit :=
  modify (fun s => match lx_text s !! lx_pos s with Some ch => set_pos (S (lx_pos s)) ch s | None => s end).

Definition the_ch : X Z := gets lx_ch.

(** The value of a character as a hexadecimal digit. *)
Definition hex_value (ch : Z) : option Z :=
  if is_digit ch then Some (ch - ch_0)
  else if (ch_A <=? ch) && (ch <=? ch_F) then Some (ch - ch_A + 10)
  else if (ch_a <=? ch) && (ch <=? ch_f) then Some (ch - ch_a + 10)
  else None.

Definition next_hex : X Z :=
  let! ch := the_ch in
  next_ch ;!
  match hex_value ch with Some n => ret n | None => error ERR_INV_EXPRESSION end.

Definition next_oct : X Z :=
  let! ch := the_ch in
  next_ch ;!
  if (ch_0 <=? ch) && (ch <=? 55) then ret (ch - ch_0) else error ERR_INV_EXPRESSION.

Definition next_dec : X Z :=
  let! ch := the_ch in
  next_ch ;!
  if is_digit ch then ret (ch - ch_0) else error ERR_INV_EXPRESSION.

(** The characters after a backslash that stand for another one. *)
Definition escapes : list (Z * Z) :=
  [(ch_n, 10); (ch_t, 9); (118, 11); (ch_b, 8); (ch_r, 13); (ch_f, 12); (ch_a, 7); (ch_bslash, ch_bslash); (39, 39); (ch_quote, ch_quote)].

Definition three (next : X Z) (bits : Z) : X Z :=
  let! a := next in
  let! b := next in
  let! c := next in
  ret (Z.lor (Z.lor (Z.shiftl a (2 * bits)) (Z.shiftl b bits)) c).

Definition next_char_val : X Z :=
  let! ch := the_ch in
  if ch =? 0 then error ERR_INV_EXPRESSION
  else if ch =? ch_bslash then
    next_ch ;!
    let! ch := the_ch in
    match List.find (fun x => fst x =? ch) escapes with
    | Some (_, n) => next_ch ;! ret n
    | None =>
        if ch =? 120 then next_ch ;! three next_hex 4
        else if (ch_0 <=? ch) && (ch <=? 51) then three next_oct 3
        else next_ch ;! ret ch
    end
  else next_ch ;! ret ch.

(** The bytes of [cnt] characters of a string. *)
Fixpoint string_loop (cnt : nat) (in_quotes : bool) (char_size : nat) : X (list Z) :=
  match cnt with
  | O => ret []
  | S cnt' =>
      let! ch := (if in_quotes then next_char_val else let! ch := the_ch in next_ch ;! ret ch) in
      let! l := string_loop cnt' in_quotes char_size in
      ret (le_bytes char_size ch ++ l)
  end.

(** The text is read again from [pos - 1]. *)
Definition set_string_text_val (pos len : nat) (in_quotes : bool) (char_size : nat) : X unit :=
  modify (fun s => set_pos (pos - 1) (lx_ch s) s) ;!
  next_ch ;!
  let! l := string_loop len in_quotes char_size in
  modify (set_val (set_constant true (set_data (Some (l ++ repeat 0 char_size)) false (Z.of_nat (S len * char_size)) (set_class TYPE_CLASS_ARRAY ini_value)))).

Definition or_flag (f : Z) : X unit := modify (fun s => set_flags (Z.lor (lx_flags s) f) s).

(** A change of [text_val]. *)
Definition mod_val (f : Value -> X Value) : X unit :=
  let! v := gets lx_val in
  let! v := f v in
  modify (set_val v).

Definition parse_fp_number (pos : nat) : X unit :=
  let! t := gets lx_text in
  match str_to_double (drop pos t) with
  | None => nofuel
  | Some (x, rest) =>
      modify (fun s => set_pos (length t - length rest) (lx_ch s) s) ;!
      next_ch ;!
      mod_val (fun v => ret (set_class TYPE_CLASS_REAL v)) ;!
      let! ch := the_ch in
      if (ch =? ch_f) || (ch =? ch_F) then
        next_ch ;! or_flag VAL_FLAG_F ;! mod_val (set_fp_value 4 x)
      else
        (if (ch =? ch_l) || (ch =? 76) then next_ch ;! or_flag VAL_FLAG_L else ret tt) ;!
        mod_val (set_fp_value 8 x)
  end.

Definition put_sy (sy : Z) : X unit := modify (set_sy sy).

(** [ini] for the [memset] of [text_val]; its context is that of the null pointer. *)
Definition parse_char_value (l : bool) : X unit :=
  let! value := next_char_val in
  modify (set_val ini_value) ;!
  (if l then
     mod_val (fun v => set_int_value (if (0 <=? value) && (value <=? 0xffff) then 2 else 4) value (set_class TYPE_CLASS_CARDINAL v)) ;!
     or_flag VAL_FLAG_L
   else
     mod_val (fun v => set_int_value (if (0 <=? value) && (value <=? 0x7f) then 1 else 2) value (set_class TYPE_CLASS_INTEGER v))) ;!
  or_flag VAL_FLAG_C ;!
  mod_val (fun v => ret (set_constant true v)) ;!
  let! ch := the_ch in
  if negb (ch =? 39) then error ERR_INV_EXPRESSION
  else next_ch ;! put_sy SY_VAL.

(** The characters up to a quote are counted. *)
Fixpoint quoted_loop (n : nat) (len : nat) : X nat :=
  match n with
  | O => nofuel
  | S n' =>
      let! ch := the_ch in
      if ch =? ch_quote then ret len
      else next_char_val ;! quoted_loop n' (S len)
  end.

Definition parse_string_value (l : bool) : X unit :=
  let! pos := gets lx_pos in
  let! len := quoted_loop fuel 0 in
  set_string_text_val pos len true (if l then 4 else 1) ;!
  or_flag VAL_FLAG_S ;!
  (if l then or_flag VAL_FLAG_L else ret tt) ;!
  mod_val (fun v => ret (set_constant true v)) ;!
  put_sy SY_VAL ;!
  next_ch.

(** ** Numbers *)

(** The loops over the digits of a number. *)
Fixpoint digits_loop (n : nat) (test : Z -> bool) (next : X Z) (step : Z -> Z -> Z) (value : Z) : X Z :=
  match n with
  | O => nofuel
  | S n' =>
      let! ch := the_ch in
      if test ch then let! d := next in digits_loop n' test next step (uwrap 64 (step value d))
      else ret value
  end.

Fixpoint suffix_loop (n : nat) (on_u : X unit) : X unit :=
  match n with
  | O => nofuel
  | S n' =>
      let! ch := the_ch in
      if (ch =? ch_l) || (ch =? 76) then or_flag VAL_FLAG_L ;! next_ch ;! suffix_loop n' on_u
      else if (ch =? ch_u) || (ch =? 85) then on_u ;! or_flag VAL_FLAG_U ;! next_ch ;! suffix_loop n' on_u
      else ret tt
  end.

Definition is_hex (ch : Z) : bool := match hex_value ch with Some _ => true | None => false end.
Definition is_oct (ch : Z) : bool := (ch_0 <=? ch) && (ch <=? 55).
Definition is_fp (ch : Z) : bool := (ch =? ch_dot) || (ch =? ch_e) || (ch =? ch_E) || (ch =? ch_f) || (ch =? ch_F).

(** The sizes of numbers with and without sign. *)
Definition uint_size (value : Z) : Z := if value <=? 0xff then 1 else if value <=? 0xffff then 2 else if value <=? 0xffffffff then 4 else 8.
Definition int_size (value : Z) : Z := if value <=? 0x7f then 1 else if value <=? 0x7fff then 2 else if value <=? 0x7fffffff then 4 else 8.

Definition val_class (c : Z) : X unit := mod_val (fun v => ret (set_class c v)).
Definition val_constant : X unit := mod_val (fun v => ret (set_constant true v)).

(** [case '0'] of [next_sy]. *)
Definition zero_number : X unit :=
  let! pos := gets (fun s => lx_pos s - 2)%nat in
  modify (set_val ini_value) ;!
  let! ch := the_ch in
  if is_fp ch then
    parse_fp_number pos ;! val_constant ;! put_sy SY_VAL
  else
    let! value :=
      (if ch =? 120 then
         next_ch ;! or_flag VAL_FLAG_X ;! val_class TYPE_CLASS_CARDINAL ;!
         digits_loop fuel is_hex next_hex (fun v d => Z.lor (Z.shiftl v 4) d) 0
       else
         val_class (if is_oct ch then TYPE_CLASS_CARDINAL else TYPE_CLASS_INTEGER) ;!
         (if is_oct ch then or_flag VAL_FLAG_X else ret tt) ;!
         digits_loop fuel is_oct next_oct (fun v d => Z.lor (Z.shiftl v 3) d) 0) in
    mod_val (set_int_value (uint_size value) value) ;!
    val_constant ;!
    suffix_loop fuel (ret tt) ;!
    put_sy SY_VAL.

(** The other digits. *)
Definition decimal_number (ch : Z) : X unit :=
  let! pos := gets (fun s => lx_pos s - 2)%nat in
  let! value := digits_loop fuel is_digit next_dec (fun v d => v * 10 + d) (ch - ch_0) in
  modify (set_val ini_value) ;!
  let! ch := the_ch in
  (if is_fp ch then parse_fp_number pos
   else
     val_class TYPE_CLASS_INTEGER ;!
     suffix_loop fuel (val_class TYPE_CLASS_CARDINAL) ;!
     let! v := gets lx_val in
     mod_val (set_int_value (if v_type_class v =? TYPE_CLASS_INTEGER then int_size value else uint_size value) value)) ;!
  val_constant ;!
  put_sy SY_VAL.

(** ** Names *)

(** [${...}]: the characters up to a brace are counted; nothing stops the loop at the end of the text. *)
Fixpoint brace_loop (n : nat) (len : nat) : X nat :=
  match n with
  | O => nofuel
  | S n' =>
      let! ch := the_ch in
      if ch =? ch_rcur then ret len
      else next_ch ;! brace_loop n' (S len)
  end.

Fixpoint name_loop (n : nat) (len : nat) : X nat :=
  match n with
  | O => nofuel
  | S n' =>
      let! ch := the_ch in
      if is_name_character ch then next_ch ;! name_loop n' (S len)
      else ret len
  end.

Definition text_string : X (list Z) := gets (fun s => cstr (default [] (v_value (lx_val s)))).

Definition quoted_name : X unit :=
  let! pos := gets (fun s => lx_pos s + 1)%nat in
  next_char_val ;!
  let! len := quoted_loop fuel 0 in
  set_string_text_val pos len true 1 ;!
  put_sy SY_NAME ;!
  next_ch.

Definition braced_name : X unit :=
  let! pos := gets (fun s => lx_pos s + 1)%nat in
  next_ch ;!
  let! len := brace_loop fuel 0 in
  set_string_text_val pos len false 1 ;!
  put_sy SY_ID ;!
  next_ch.

Definition plain_name : X unit :=
  let! pos := gets (fun s => lx_pos s - 1)%nat in
  let! len := name_loop fuel 1 in
  set_string_text_val pos len false 1 ;!
  let! t := text_string in
  put_sy (if streq t (str "sizeof") then SY_SIZEOF else SY_NAME).

(** ** Symbols *)

(** The next character [c] makes the symbol another one. *)
Definition if_next (c : Z) (m k : X unit) : X unit :=
  let! ch := the_ch in
  if ch =? c then next_ch ;! m else k.

Definition single (ch : Z) : bool := existsb (Z.eqb ch) [40; 41; 123; 125; 126; 91; 93; 59; 63; 44].
Definition blank (ch : Z) : bool := existsb (Z.eqb ch) [32; 13; 10; 9].

(** The cases of the operators of more than one character. *)
Definition operator (ch : Z) : option (X unit) :=
  let this := put_sy ch in
  let eq sy k := if_next ch_eq (put_sy sy) k in
  if ch =? ch_dot then Some (if_next ch_star (put_sy SY_PM_D) this)
  else if ch =? ch_colon then Some (if_next ch_colon (put_sy SY_SCOPE) this)
  else if ch =? ch_minus then Some (if_next 62 (if_next ch_star (put_sy SY_PM_R) (put_sy SY_REF)) (if_next ch_minus (put_sy SY_DEC) (eq SY_A_SUB this)))
  else if ch =? ch_plus then Some (if_next ch_plus (put_sy SY_INC) (eq SY_A_ADD this))
  else if ch =? 60 then Some (if_next 60 (eq SY_A_SHL (put_sy SY_SHL)) (eq SY_LEQ this))
  else if ch =? 62 then Some (if_next 62 (eq SY_A_SHR (put_sy SY_SHR)) (eq SY_GEQ this))
  else if ch =? ch_eq then Some (eq SY_EQU this)
  else if ch =? 33 then Some (eq SY_NEQ this)
  else if ch =? 38 then Some (if_next 38 (put_sy SY_AND) (eq SY_A_AND this))
  else if ch =? 124 then Some (if_next 124 (put_sy SY_OR) (eq SY_A_OR this))
  else if ch =? ch_star then Some (eq SY_A_MUL this)
  else if ch =? ch_slash then Some (if_next 124 (put_sy SY_A_DIV) this)
  else if ch =? 37 then Some (if_next 124 (put_sy SY_A_MOD) this)
  else if ch =? 94 then Some (eq SY_A_XOR this)
  else None.

(** [default] of [next_sy]. *)
Definition other_symbol (ch : Z) : X unit :=
  let! next := the_ch in
  if is_digit ch then decimal_number ch
  else if (ch =? 36) && (next =? ch_quote) then quoted_name
  else if (ch =? 36) && (next =? ch_lcur) then braced_name
  else if (ch =? 76) && (next =? 39) then next_ch ;! parse_char_value true
  else if (ch =? 76) && (next =? ch_quote) then next_ch ;! parse_string_value true
  else if is_name_character ch then plain_name
  else error ERR_INV_EXPRESSION.

Definition symbol (ch : Z) : X unit :=
  if ch =? 0 then put_sy 0
  else if single ch then put_sy ch
  else
    match operator ch with
    | Some m => m
    | None =>
        if ch =? 39 then parse_char_value false
        else if ch =? ch_quote then parse_string_value false
        else if ch =? ch_0 then zero_number
        else other_symbol ch
    end.

Fixpoint next_sy_loop (n : nat) : X unit :=
  match n with
  | O => nofuel
  | S n' =>
      let! ch := the_ch in
      modify (fun s => set_sy_pos (lx_pos s - 1) (set_flags 0 s)) ;!
      next_ch ;!
      if blank ch then next_sy_loop n' else symbol ch
  end.

Definition next_sy : X unit := next_sy_loop fuel.
End Lexer.
