(* ===== verification/Expr.v ===== *)
(** * Evaluation of expressions (services/expressions.c)

    The parser of expressions, which evaluates while it reads, for an agent without symbols and without calls of functions
    of the target ([ENABLE_Symbols], [ENABLE_FuncCallInjection] and [ENABLE_RCBP_TEST] are 0). *)

From Stdlib Require Import SpecFloat.
From S2P Require Import Prelude Vm ExprValue ExprLex JsonWrite.

Definition ERR_ALREADY_EXITED : Z := STD_ERR_BASE + 11.
Definition ERR_IS_RUNNING : Z := STD_ERR_BASE + 14.

Definition SYM_CLASS_UNKNOWN : Z := 0.
Definition SYM_CLASS_VALUE : Z := 1.
Definition SYM_CLASS_REFERENCE : Z := 2.
Definition SYM_CLASS_TYPE : Z := 4.

Definition STACK_NO_FRAME : Z := -1.
Definition STACK_TOP_FRAME : Z := -2.

Definition TYPE_EXPR_LENGTH : Z := 64.

(** [strcmp]: the sign of the difference; [None] if there is no terminating zero where it is read. *)
Fixpoint strcmp (a b : list Z) : option Z :=
  match a, b with
  | x :: a', y :: b' => if x =? y then (if x =? 0 then Some 0 else strcmp a' b') else Some (x - y)
  | _, _ => None
  end.

(** [strlen]. *)
Definition zstring (d : option (list Z)) : option (list Z) :=
  match d with
  | Some d => if existsb (Z.eqb 0) d then Some (cstr d) else None
  | None => None
  end.

Section Expr.
Context `{ExprEnv}.

Notation X := (M Lex).

Variables (expression_context : option Z) (expression_frame : Z).
Variable fuel : nat.

Notation next_sy := (next_sy fuel).
Notation the_context := (the_context expression_context).
Notation load_value := (load_value expression_context).
Notation to_int := (to_int expression_context).
Notation to_uns := (to_uns expression_context).
Notation to_double := (to_double expression_context).
Notation to_r_double := (to_r_double expression_context).
Notation to_i_double := (to_i_double expression_context).
Notation to_boolean := (to_boolean expression_context).
Notation set_ctx_word_value := (set_ctx_word_value expression_context).

Definition the_sy : X Z := gets lx_sy.
Definition inv_expression {A} : X A := error ERR_INV_EXPRESSION.

(** The symbol must be [sy]. *)
Definition expect (sy : Z) : X unit :=
  let! s := the_sy in if s =? sy then ret tt else inv_expression.

(** ** Registers *)

Definition the_def (ctx : Z) (r : nat) : X RegDef := match reg_definitions ctx !! r with Some d => ret d | None => fault end.

(** The parents of a field of bits, up to one that is no such field, and the numbers of the bits in it. *)
Fixpoint bits_parent (n : nat) (ctx : Z) (d : RegDef) (bits : list nat) : X (nat * list nat) :=
  match n with
  | O => nofuel
  | S n' =>
      match rg_parent d with
      | None => fault
      | Some p =>
          let! d := the_def ctx p in
          match rg_bits d with
          | None => ret (p, bits)
          | Some pbits =>
              match mapM (fun b => pbits !! b) bits with
              | Some bits => bits_parent n' ctx d bits
              | None => fault
              end
          end
      end
  end.

(** The bits of a register that are in a field, as bytes. *)
Fixpoint gather (bits : list nat) (data : list Z) : option (list bool) :=
  match bits with
  | [] => Some []
  | b :: bits' =>
      match data !! (b / 8)%nat, gather bits' data with
      | Some x, Some l => Some (Z.testbit x (Z.of_nat (b mod 8)) :: l)
      | _, _ => None
      end
  end.

Fixpoint bits_value (l : list bool) : Z := match l with [] => 0 | b :: l' => Z.b2z b + 2 * bits_value l' end.

(** The bytes of a register that can be read. *)
Definition read_reg (ctx frame : Z) (r : nat) (d : RegDef) : X (option Z * list Z) :=
  if ctx_exited ctx then throw ERR_ALREADY_EXITED
  else
    let direct := let! b := lift (context_read_reg ctx r) in ret (None, b) in
    if (match rg_memory_context d with Some _ => true | None => false end) then direct
    else if negb (ctx_has_state ctx) then (if negb (frame =? STACK_NO_FRAME) then throw ERR_INV_CONTEXT else direct)
    else if negb (ctx_stopped ctx) && negb (ctx_read_running ctx) then throw ERR_IS_RUNNING
    else if (frame =? STACK_TOP_FRAME) || (frame =? STACK_NO_FRAME) then direct
    else let! (info, b) := lift (read_frame_reg ctx frame r) in ret (Some info, b).

Definition reg2value (mode ctx frame : Z) (r : nat) : X Value :=
  let! d0 := the_def ctx r in
  let v := set_class (if rg_fp_value d0 then TYPE_CLASS_REAL else TYPE_CLASS_CARDINAL)
             (ExprValue.set_value (repeat 0 (Z.to_nat (rg_size d0))) (rg_big_endian d0) ini_value) in
  let! (r1, bits) :=
    (match rg_bits d0 with
     | Some bits =>
         if rg_size d0 =? 0 then
           let! (p, bits) := bits_parent (S (length (reg_definitions ctx))) ctx d0 bits in
           ret (p, Some bits)
         else ret (r, None)
     | None => ret (r, None)
     end) in
  let! d := the_def ctx r1 in
  let reg := Some (mkReg (Z.of_nat r1) (rg_size d)) in
  let pieces :=
    match bits with
    | Some bits => map (fun b => mkLP false 0 reg None 0 (Z.of_nat b) 1 0) bits
    | None => [mkLP false 0 reg None (rg_size d) 0 0 0]
    end in
  let v := set_data (Some (repeat 0 (Z.to_nat (rg_size d)))) false (rg_size d) v in
  let with_loc frame := set_reg_loc (Some (ctx, r)) (Some (mkLoc ctx frame pieces)) in
  if (0 <? rg_size d) && (mode =? MODE_NORMAL) then
    let! (info, data) := read_reg ctx frame r1 d in
    match bits with
    | None => ret (with_loc info (set_data (Some data) false (rg_size d) v))
    | Some bits =>
        cassert (forallb (fun b => Z.of_nat (b / 8) <? rg_size d) bits) ;!
        match gather bits data with
        | None => fault
        | Some l =>
            let size := (Z.of_nat (length bits) + 7) / 8 in
            ret (with_loc info (set_data (Some (le_bytes (Z.to_nat size) (bits_value l))) false size v))
        end
    end
  else ret (with_loc None v).

(** ** Names *)

(** The first register of that name in a context or one of its parents. *)
Fixpoint find_reg (name : list Z) (ctxs : list Z) : option (Z * nat) :=
  match ctxs with
  | [] => None
  | c :: ctxs' =>
      match list_find (fun d => rg_name d = name) (reg_definitions c) with
      | Some (i, _) => Some (c, i)
      | None => find_reg name ctxs'
      end
  end.

Fixpoint first_callback (l : list (option Z -> Z -> list Z -> option Value)) (name : list Z) : option Value :=
  match l with
  | [] => None
  | f :: l' => match f expression_context expression_frame name with Some v => Some v | None => first_callback l' name end
  end.

(** The class of the identifier, -1 if there is none; nothing is found in a scope. *)
Definition identifier (mode : Z) (scope : bool) (name : list Z) : X (Z * Value) :=
  if scope then ret (-1, ini_value)
  else
    match first_callback id_callbacks name with
    | Some v => ret (SYM_CLASS_VALUE, v)
    | None =>
        match expression_context with
        | None => throw ERR_INV_CONTEXT
        | Some ctx =>
            match (if deref name =? 36 then find_reg (tl name) (ctx :: ctx_parents ctx) else None) with
            | Some (c, r) =>
                let! v := reg2value mode c (if c =? ctx then expression_frame else STACK_NO_FRAME) r in
                ret (SYM_CLASS_REFERENCE, v)
            | None =>
                if streq name (str "$thread") then ret (SYM_CLASS_VALUE, set_constant true (set_string_value (ctx_id ctx) ini_value))
                else ret (-1, ini_value)
            end
        end
    end.

(** A register by its identifier. *)
Definition id_register (mode : Z) (id : list Z) (e : Z) : X Value :=
  match id2register id with
  | inl _ => throw e
  | inr (ctx, frame, r) => reg2value mode ctx (if frame =? STACK_TOP_FRAME then expression_frame else frame) r
  end.

Fixpoint qualified_name (n : nat) (mode : Z) (scope : bool) (cls : Z) : X (Z * Value) :=
  match n with
  | O => nofuel
  | S n' =>
      let! sy := the_sy in
      let! (cls, v) :=
        (if (sy =? SY_NAME) || (scope && (sy =? 126)) then
           let tilda := sy =? 126 in
           (if tilda then next_sy ;! expect SY_NAME else ret tt) ;!
           if negb (mode =? MODE_SKIP) then
             let! name := text_string in
             let name := if tilda then 126 :: name else name in
             next_sy ;!
             let! (cls, v) := identifier mode scope name in
             if cls <? 0 then inv_expression else ret (cls, v)
           else next_sy ;! ret (cls, ini_value)
         else if sy =? SY_ID then
           let! (cls, v) :=
             (if negb (mode =? MODE_SKIP) then
                let! id := text_string in
                let! v := id_register mode id ERR_INV_EXPRESSION in
                ret (SYM_CLASS_UNKNOWN, v)
              else ret (cls, ini_value)) in
           next_sy ;!
           ret (cls, v)
         else inv_expression) in
      let! sy := the_sy in
      if negb (sy =? SY_SCOPE) then ret (cls, v)
      else next_sy ;! qualified_name n' mode true cls
  end.

Definition qualified_name_expression (mode : Z) (scope : bool) : X Value :=
  let! (cls, v) := qualified_name fuel mode scope 0 in
  if negb (cls =? SYM_CLASS_TYPE) then ret v else inv_expression.

(** ** Types *)

Fixpoint stars_loop (n : nat) (buf : list Z) : X (list Z) :=
  match n with
  | O => nofuel
  | S n' =>
      let! sy := the_sy in
      if sy =? ch_star then
        next_sy ;!
        if TYPE_EXPR_LENGTH <=? Z.of_nat (length buf) then error ERR_BUFFER_OVERFLOW
        else stars_loop n' (buf ++ [1])
      else ret buf
  end.

Fixpoint array_loop (n : nat) (mode : Z) (buf : list Z) : X (list Z) :=
  match n with
  | O => nofuel
  | S n' =>
      let! sy := the_sy in
      if sy =? ch_lbra then
        next_sy ;!
        expect SY_VAL ;!
        if TYPE_EXPR_LENGTH <=? Z.of_nat (length buf) then error ERR_BUFFER_OVERFLOW
        else
          let! v := gets lx_val in
          let! (x, v) := to_int mode v in
          modify (set_val v) ;!
          let x := swrap 32 x in
          if (mode =? MODE_NORMAL) && (x <? 1) then inv_expression
          else next_sy ;! expect ch_rbra ;! next_sy ;! array_loop n' mode (buf ++ [x])
      else ret buf
  end.

Fixpoint type_expression (n : nat) (mode : Z) : X (list Z) :=
  match n with
  | O => nofuel
  | S n' =>
      let! stars := stars_loop fuel [] in
      let! sy := the_sy in
      let! e := (if sy =? ch_lpar then
                   next_sy ;!
                   let! e := type_expression n' mode in
                   expect ch_rpar ;! next_sy ;! ret e
                 else ret []) in
      let! a := array_loop fuel mode [] in
      let buf := stars ++ rev a ++ e in
      if TYPE_EXPR_LENGTH <? Z.of_nat (length buf) then error ERR_BUFFER_OVERFLOW else ret buf
  end.

Definition a_word (l : list string) (t : list Z) : bool := existsb (fun w => streq t (str w)) l.

Fixpoint qualifiers_loop (n : nat) (flags : bool) : X bool :=
  match n with
  | O => nofuel
  | S n' =>
      let! sy := the_sy in
      let! t := text_string in
      if (sy =? SY_NAME) && a_word ["const"%string; "volatile"%string] t then next_sy ;! qualifiers_loop n' true
      else ret flags
  end.

Fixpoint names_loop (n : nat) (name : list Z) : X (list Z) :=
  match n with
  | O => nofuel
  | S n' =>
      let! sy := the_sy in
      if sy =? SY_NAME then
        let! t := text_string in
        next_sy ;! names_loop n' (name ++ ch_space :: t)
      else ret name
  end.

(** The text of a symbol between [<] and [>], [None] if it cannot be there. *)
Definition argument_text (prev_sy val sy : Z) : X (option (list Z) * Z) :=
  let text t : X (option (list Z) * Z) := ret (Some t, val) in
  if sy =? SY_NAME then
    let! t := text_string in
    text ((if existsb (Z.eqb prev_sy) [SY_NAME; ch_star; 38] then [ch_space] else []) ++ t)
  else if sy =? SY_SCOPE then text (str "::")
  else if sy =? SY_VAL then
    let! v := gets lx_val in
    let! val := catch (let! (n, v) := to_uns MODE_NORMAL v in modify (set_val v) ;! ret n) (fun _ => ret val) in
    ret (Some (ulong_text val), val)
  else if existsb (Z.eqb sy) [ch_star; 38; ch_lbra; ch_rbra; ch_lpar; ch_rpar; ch_lcur; ch_rcur] then text [sy]
  else if sy =? ch_comma then text (str ", ")
  else if sy =? 60 then text (str "<")
  else if sy =? 62 then text ((if prev_sy =? 62 then [ch_space] else []) ++ str ">")
  else ret (None, val).

(** The loop to the [>] that closes the first [<]. *)
Fixpoint arguments_loop (n : nat) (prev_sy val cnt : Z) (name : list Z) : X (option (list Z)) :=
  match n with
  | O => nofuel
  | S n' =>
      let! sy := the_sy in
      let! (t, val) := argument_text prev_sy val sy in
      match t with
      | None => ret None
      | Some t =>
          let cnt := if sy =? 60 then cnt + 1 else if sy =? 62 then cnt - 1 else cnt in
          next_sy ;!
          if 0 <? cnt then arguments_loop n' sy val cnt (name ++ t) else ret (Some (name ++ t))
      end
  end.

(** Whether the text is a type; without symbols no identifier is one. *)
Definition type_name (mode : Z) : X bool :=
  let! flags := qualifiers_loop fuel false in
  let! sy := the_sy in
  let! t := text_string in
  let! flags := (if (sy =? SY_NAME) && a_word ["struct"%string; "class"%string; "union"%string; "enum"%string] t then next_sy ;! ret true else ret flags) in
  let! sy := the_sy in
  if negb (sy =? SY_NAME) then (if flags then inv_expression else ret false)
  else
    let! t := text_string in
    next_sy ;!
    let! name := names_loop fuel t in
    let! sy := the_sy in
    let! name := (if sy =? 60 then arguments_loop fuel 0 0 0 name else ret (Some name)) in
    match name with
    | None => ret false
    | Some name =>
        let! (cls, _) := identifier mode false name in
        if cls <? 0 then ret false
        else
          let! sy := the_sy in
          let! cls := (if sy =? SY_SCOPE then next_sy ;! let! (cls, _) := qualified_name fuel mode true 0 in ret cls else ret cls) in
          if negb (cls =? SYM_CLASS_TYPE) then (if flags then inv_expression else ret false)
          else type_expression fuel mode ;! ret true
    end.

(** ** Operations *)

Definition op_deref (mode : Z) (v : Value) : X Value := error ERR_UNSUPPORTED.
Definition op_index (mode : Z) (v : Value) : X Value := error ERR_UNSUPPORTED.
Definition op_funccall (mode : Z) (v : Value) : X Value := throw ERR_OTHER.

Definition op_field (mode : Z) (v : Value) : X Value :=
  let! sy := the_sy in
  let! t := text_string in
  if negb ((sy =? SY_ID) || (sy =? SY_NAME)) then inv_expression
  else
    next_sy ;!
    if mode =? MODE_SKIP then ret v
    else
      match v_field_cb v, sy =? SY_NAME with
      | Some f, true => lift (call_field_cb f mode v t)
      | _, _ =>
          if v_type_class v =? TYPE_CLASS_COMPOSITE then error ERR_UNSUPPORTED
          else
            match v_reg v with
            | None => inv_expression
            | Some (_, r) =>
                if sy =? SY_ID then
                  match id2register t with
                  | inl e => throw e
                  | inr _ => id_register mode t 0
                  end
                else
                  match v_loc v with
                  | None => fault
                  | Some loc =>
                      let c := lo_ctx loc in
                      match list_find (fun d => rg_parent d = Some r /\ rg_name d = t) (reg_definitions c) with
                      | Some (i, _) => reg2value mode c (if bool_decide (Some c = expression_context) then expression_frame else STACK_NO_FRAME) i
                      | None => inv_expression
                      end
                  end
            end
      end.

(** The address of the one piece of a value that is in memory. *)
Definition piece_address (v : Value) : option Z :=
  match v_loc v with
  | Some loc =>
      match lo_pieces loc with
      | [p] =>
          match lp_reg p, lp_value p with
          | None, None =>
              if (lp_implicit_pointer p =? 0) && negb (lp_optimized_away p) && (lp_bit_offs p =? 0) then Some (lp_addr p) else None
          | _, _ => None
          end
      | _ => None
      end
  | None => None
  end.

Definition op_addr (mode : Z) (v : Value) : X Value :=
  if mode =? MODE_SKIP then ret v
  else if v_function v then cassert (v_type_class v =? TYPE_CLASS_POINTER) ;! ret v
  else if v_remote v then
    let! v := set_ctx_word_value (v_address v) v in
    ret (set_constant false (set_class TYPE_CLASS_POINTER v))
  else
    let! def := (match v_reg v with Some (c, r) => let! d := the_def c r in ret (Some d) | None => ret None end) in
    match def with
    | Some (mkRegDef _ _ _ _ _ _ (Some memory_context) address) =>
        let ctx := id2ctx memory_context in
        let! v := set_ctx_word_value address v in
        let v := set_constant true (set_class TYPE_CLASS_POINTER v) in
        if bool_decide (Some ctx = expression_context) then ret v
        else ret (set_reg_loc None (Some (mkLoc ctx None [mkLP false 0 None (v_value v) (v_size v) 0 0 0])) v)
    | _ =>
        match piece_address v with
        | Some a =>
            let! v := set_ctx_word_value a v in
            ret (set_constant false (set_class TYPE_CLASS_POINTER v))
        | None => inv_expression
        end
    end.

Definition set_bool_value (n : Z) (v : Value) : X Value :=
  let! c := the_context in
  set_int_value (ctx_word_size c) n (set_class TYPE_CLASS_ENUMERATION v).

(** ** The parser *)

(** The loops over operators of one level: the operand on the right is read, and its value is combined with the one on the left. *)
Fixpoint binary_loop (n : nat) (mode : Z) (ops : list Z) (operand : X Value) (apply : Z -> Value -> Value -> X Value) (v : Value) : X Value :=
  match n with
  | O => nofuel
  | S n' =>
      let! sy := the_sy in
      if existsb (Z.eqb sy) ops then
        next_sy ;!
        let! x := operand in
        let! v := (if negb (mode =? MODE_SKIP) then apply sy v x else ret v) in
        binary_loop n' mode ops operand apply v
      else ret v
  end.

Definition both_constant (v x : Value) (r : X Value) : X Value :=
  let! r := r in ret (set_constant (v_constant v && v_constant x) r).

(** Both operands as numbers of one kind. *)
Definition both {N} (conv : Z -> Value -> X (N * Value)) (mode : Z) (v x : Value) : X (N * N * Value * Value) :=
  let! (a, v) := conv mode v in
  let! (b, x) := conv mode x in
  ret (a, b, v, x).

Definition is_cardinal (v : Value) : bool := v_type_class v =? TYPE_CLASS_CARDINAL.
Definition is_complex (v : Value) : bool := v_type_class v =? TYPE_CLASS_COMPLEX.
Definition is_array (v : Value) : bool := v_type_class v =? TYPE_CLASS_ARRAY.

Definition set_integer (v : Value) (n : Z) : X Value := set_int_value 8 n (set_class TYPE_CLASS_INTEGER v).
Definition set_cardinal (v : Value) (n : Z) : X Value := set_int_value 8 n (set_class TYPE_CLASS_CARDINAL v).
Definition set_real (v : Value) (x : spec_float) : X Value := set_fp_value 8 x (set_class TYPE_CLASS_REAL v).
Definition set_complex (v : Value) (r i : spec_float) : X Value := set_complex_value 16 r i (set_class TYPE_CLASS_COMPLEX v).

(** The real and imaginary parts of both operands. *)
Definition both_complex (mode : Z) (v x : Value) : X (spec_float * spec_float * spec_float * spec_float * Value) :=
  let! (a, c, v, x) := both to_r_double mode v x in
  let! (b, d, v, x) := both to_i_double mode v x in
  ret (a, b, c, d, v).

Definition multiply (mode sy : Z) (v x : Value) : X Value :=
  both_constant v x
    (if negb (is_number v && is_number x) then inv_expression
     else if is_complex v || is_complex x then
       if mode =? MODE_NORMAL then
         if sy =? 37 then inv_expression
         else
           let! (a, b, c, d, v) := both_complex mode v x in
           if sy =? ch_star then set_complex v (d_sub (d_mul a c) (d_mul b d)) (d_add (d_mul a d) (d_mul b c))
           else
             let q := d_add (d_mul c c) (d_mul d d) in
             set_complex v (d_div (d_add (d_mul a c) (d_mul b d)) q) (d_div (d_sub (d_mul b c) (d_mul a d)) q)
       else set_complex v d_zero d_zero
     else if is_real_number v || is_real_number x then
       if mode =? MODE_NORMAL then
         if sy =? 37 then inv_expression
         else
           let! (a, b, v, _) := both to_double mode v x in
           set_real v (if sy =? ch_star then d_mul a b else d_div a b)
       else set_real v d_zero
     else if is_cardinal v || is_cardinal x then
       if mode =? MODE_NORMAL then
         let! (b, x) := (if negb (sy =? ch_star) then to_int mode x else ret (1, x)) in
         if b =? 0 then inv_expression
         else
           let! (a, b, v, _) := both to_uns mode v x in
           if sy =? ch_star then set_cardinal v (a * b)
           else if b =? 0 then fault
           else set_cardinal v (if sy =? ch_slash then a / b else a mod b)
       else set_cardinal v 0
     else
       if mode =? MODE_NORMAL then
         let! (b, x) := (if negb (sy =? ch_star) then to_int mode x else ret (1, x)) in
         if b =? 0 then inv_expression
         else
           let! (a, b, v, _) := both to_int mode v x in
           if sy =? ch_star then set_integer v (a * b)
           else if (b =? 0) || ((a =? - 2 ^ 63) && (b =? -1)) then fault
           else set_integer v (if sy =? ch_slash then Z.quot a b else Z.rem a b)
       else set_integer v 0).

(** The bytes of a string in the buffer of the value. *)
Definition the_string (v : Value) : X (list Z) := match zstring (v_value v) with Some s => ret s | None => fault end.

Definition add (mode sy : Z) (v x : Value) : X Value :=
  let number (v : Value) := if v_function v then set_class TYPE_CLASS_CARDINAL v else v in
  let v := number v in
  let x := number x in
  both_constant v x
    (if (sy =? ch_plus) && is_array v && is_array x then
       if mode =? MODE_TYPE then ret (set_data (Some []) false 0 v)
       else
         let! v := load_value v in
         let! x := load_value x in
         let! a := the_string v in
         let! b := the_string x in
         ret (set_data (Some (a ++ b ++ [0])) (v_remote v) (Z.of_nat (length a + length b + 1)) v)
     else if negb (is_number v && is_number x) then inv_expression
     else if is_complex v || is_complex x then
       let! (a, b, c, d, v) := both_complex mode v x in
       if sy =? ch_plus then set_complex v (d_add a c) (d_add b d) else set_complex v (d_sub a c) (d_sub b d)
     else if is_real_number v || is_real_number x then
       let! (a, b, v, _) := both to_double mode v x in
       set_real v (if sy =? ch_plus then d_add a b else d_sub a b)
     else if is_cardinal v || is_cardinal x then
       let! (a, b, v, _) := both to_uns mode v x in
       set_cardinal v (if sy =? ch_plus then a + b else a - b)
     else
       let! (a, b, v, _) := both to_int mode v x in
       set_integer v (if sy =? ch_plus then a + b else a - b)).

(** A shift of a number of 64 bits, to the left if [left]; undefined for counts out of range. *)
Definition shift_value (left : bool) (n cnt : Z) : X Z :=
  if (0 <=? cnt) && (cnt <? 64) then ret (if left then Z.shiftl n cnt else Z.shiftr n cnt) else fault.

Definition shift (mode sy : Z) (v x : Value) : X Value :=
  if negb (is_whole_number v && is_whole_number x) then inv_expression
  else
    let! (b, x) := (if is_cardinal x then ret (0, x) else to_int mode x) in
    let left := eqb (sy =? SY_SHL) (negb (b <? 0)) in
    let! (a, v) := (if is_cardinal v then to_uns mode v else to_int mode v) in
    let! (cnt, x) := (if b <? 0 then let! (n, x) := to_int mode x in ret (swrap 64 (- n), x) else to_uns mode x) in
    let! n := shift_value left a cnt in
    let v := if is_cardinal v then v else set_class TYPE_CLASS_INTEGER v in
    set_int_value 8 n (set_constant (v_constant v && v_constant x) v).

(** The result of a comparison [c] of two numbers, for the four operators. *)
Definition compare_with (sy : Z) (lt le gt ge : bool) : Z :=
  Z.b2z (if sy =? 60 then lt else if sy =? 62 then gt else if sy =? SY_LEQ then le else ge).
Definition compare_numbers (sy a b : Z) : Z := compare_with sy (a <? b) (a <=? b) (b <? a) (b <=? a).

Definition compare_strings (v x : Value) : X (Z * Value) :=
  let! v := load_value v in
  let! x := load_value x in
  match v_value v, v_value x with
  | Some a, Some b => match strcmp a b with Some n => ret (n, v) | None => fault end
  | _, _ => fault
  end.

Definition relate (mode sy : Z) (v x : Value) : X Value :=
  let constant := v_constant v && v_constant x in
  let! (n, v) :=
    (if is_array v && is_array x then
       let! (n, v) := compare_strings v x in ret (compare_numbers sy n 0, v)
     else if is_real_number v || is_real_number x then
       let! (a, b, v, _) := both to_double mode v x in
       ret (compare_with sy (SFltb a b) (SFleb a b) (SFltb b a) (SFleb b a), v)
     else if is_cardinal v || is_cardinal x then
       let! (a, b, v, _) := both to_uns mode v x in ret (compare_numbers sy a b, v)
     else
       let! (a, b, v, _) := both to_int mode v x in ret (compare_numbers sy a b, v)) in
  set_bool_value (if mode =? MODE_NORMAL then n else 0) (set_constant constant v).

Definition equal (mode sy : Z) (v x : Value) : X Value :=
  let constant := v_constant v && v_constant x in
  let! (b, v) :=
    (if is_array v && is_array x then
       let! (n, v) := compare_strings v x in ret (n =? 0, v)
     else if is_complex v || is_complex x then
       let! (a, c, v, x) := both to_r_double mode v x in
       if negb (SFeqb a c) then ret (false, v)
       else let! (b, d, v, _) := both to_i_double mode v x in ret (SFeqb b d, v)
     else if is_real_number v || is_real_number x then
       let! (a, b, v, _) := both to_double mode v x in ret (SFeqb a b, v)
     else
       let! (a, b, v, _) := both to_int mode v x in ret (a =? b, v)) in
  let n := Z.b2z (eqb b (sy =? SY_EQU)) in
  set_bool_value (if mode =? MODE_NORMAL then n else 0) (set_constant constant v).

(** [&], [^] and [|]. *)
Definition bitwise (op : Z -> Z -> Z) (mode sy : Z) (v x : Value) : X Value :=
  if negb (is_whole_number v && is_whole_number x) then inv_expression
  else
    let cardinal := is_cardinal v || is_cardinal x in
    let v := set_class (if cardinal then TYPE_CLASS_CARDINAL else TYPE_CLASS_INTEGER) v in
    let! (a, b, v, x) := both (if cardinal then to_uns else to_int) mode v x in
    set_int_value 8 (if mode =? MODE_NORMAL then op a b else 0) (set_constant (v_constant v && v_constant x) v).

(** [-], [!] and [~]. *)
Definition negate (mode : Z) (v : Value) : X Value :=
  if mode =? MODE_SKIP then ret v
  else
    let! v :=
      (if negb (is_number v) then inv_expression
       else if v_type_class v =? TYPE_CLASS_REAL then
         let! (a, v) := to_double mode v in set_fp_value (v_size v) (SFopp a) v
       else if is_real_number v then
         let! (a, v) := to_double mode v in set_real v (SFopp a)
       else if is_complex v then
         let! (a, v) := to_r_double mode v in
         let! (b, v) := to_i_double mode v in
         set_complex_value (v_size v) (SFopp a) (SFopp b) v
       else if negb (is_cardinal v) then
         let! (a, v) := to_int mode v in
         if v_type_class v =? TYPE_CLASS_INTEGER then set_int_value (v_size v) (- a) v
         else
           let! c := the_context in
           set_int_value (ctx_word_size c) (- a) (set_class TYPE_CLASS_INTEGER v)
       else ret v) in
    cassert (negb (v_remote v)) ;!
    ret v.

Definition logical_not (mode : Z) (v : Value) : X Value :=
  if mode =? MODE_SKIP then ret v
  else if negb (is_whole_number v) then inv_expression
  else
    let! (a, v) := to_int mode v in
    let! v := set_bool_value (Z.b2z (a =? 0)) v in
    cassert (negb (v_remote v)) ;!
    ret v.

Definition complement (mode : Z) (v : Value) : X Value :=
  if mode =? MODE_SKIP then ret v
  else if negb (is_whole_number v) then inv_expression
  else
    let! (a, v) := to_int mode v in
    let! v := set_int_value (v_size v) (Z.lnot a) v in
    cassert (negb (v_remote v)) ;!
    ret v.

Section Parser.
(** [expression], which nested expressions call. *)
Variable expression : Z -> X Value.

Definition primary_expression (mode : Z) : X Value :=
  let! sy := the_sy in
  if sy =? ch_lpar then
    next_sy ;!
    let! v := expression mode in
    expect ch_rpar ;!
    next_sy ;!
    ret v
  else if sy =? SY_VAL then
    let! v := gets lx_val in
    next_sy ;!
    ret v
  else if sy =? SY_SCOPE then next_sy ;! qualified_name_expression mode true
  else if (sy =? SY_NAME) || (sy =? SY_ID) then qualified_name_expression mode false
  else inv_expression.

Fixpoint args_loop (n : nat) (mode : Z) (args : list Value) : X (list Value) :=
  match n with
  | O => nofuel
  | S n' =>
      let! v := expression mode in
      let! sy := the_sy in
      if negb (sy =? ch_comma) then ret (args ++ [v])
      else next_sy ;! args_loop n' mode (args ++ [v])
  end.

Fixpoint load_all (l : list Value) : X (list Value) :=
  match l with
  | [] => ret []
  | v :: l' => let! v := load_value v in let! l' := load_all l' in ret (v :: l')
  end.

Definition op_call (mode : Z) (v : Value) : X Value :=
  if (match v_func_cb v with Some _ => true | None => false end) || (mode =? MODE_SKIP) then
    let! sy := the_sy in
    let! args := (if negb (sy =? ch_rpar) then args_loop fuel mode [] else ret []) in
    if mode =? MODE_SKIP then ret ini_value
    else
      let! args := (if mode =? MODE_NORMAL then load_all args else ret args) in
      match v_func_cb v with
      | Some f => lift (call_func_cb f mode v args)
      | None => fault
      end
  else op_funccall mode v.

Fixpoint postfix_loop (n : nat) (mode : Z) (v : Value) : X Value :=
  match n with
  | O => nofuel
  | S n' =>
      let! sy := the_sy in
      if sy =? ch_dot then
        next_sy ;! let! v := op_field mode v in postfix_loop n' mode v
      else if sy =? ch_lbra then
        next_sy ;! let! v := op_index mode v in expect ch_rbra ;! next_sy ;! postfix_loop n' mode v
      else if sy =? SY_REF then
        next_sy ;! let! v := op_deref mode v in let! v := op_field mode v in postfix_loop n' mode v
      else if sy =? ch_lpar then
        next_sy ;! let! v := op_call mode v in expect ch_rpar ;! next_sy ;! postfix_loop n' mode v
      else match v_func_cb v with Some _ => inv_expression | None => ret v end
  end.

Definition postfix_expression (mode : Z) : X Value :=
  let! v := primary_expression mode in postfix_loop fuel mode v.

(** The reader goes back to the start of a symbol. *)
Definition rewind (pos : nat) : X unit := modify (fun s => ExprLex.set_pos pos (lx_ch s) s) ;! next_ch ;! next_sy.

(** [sizeof], with the reader of its operand; the size of a type is 0 without symbols. *)
Definition op_sizeof (unary_expression : Z -> X Value) (mode : Z) : X Value :=
  let size_value n v :=
    let! c := the_context in
    let! v := set_int_value (ctx_word_size c) n (set_class TYPE_CLASS_CARDINAL v) in
    ret (set_constant true v) in
  let! sy := the_sy in
  let p := sy =? ch_lpar in
  (if p then next_sy else ret tt) ;!
  let! pos := gets lx_sy_pos in
  let! type := type_name mode in
  let! sy := the_sy in
  let! v :=
    (if type && (negb p || (sy =? ch_rpar)) then
       if negb (mode =? MODE_SKIP) then size_value 0 ini_value else ret ini_value
     else
       rewind pos ;!
       let! v := unary_expression (if mode =? MODE_NORMAL then MODE_TYPE else mode) in
       if negb (mode =? MODE_SKIP) then size_value (v_size v) v else ret v) in
  (if p then expect ch_rpar ;! next_sy else ret tt) ;!
  ret v.

(** [lazy_unary_expression] and [unary_expression], which are the same without symbols. *)
Fixpoint unary_expression (n : nat) (mode : Z) : X Value :=
  match n with
  | O => nofuel
  | S n' =>
      let operand f := next_sy ;! let! v := unary_expression n' mode in f v in
      let! sy := the_sy in
      if sy =? ch_star then operand (op_deref mode)
      else if sy =? 38 then operand (op_addr mode)
      else if sy =? SY_SIZEOF then next_sy ;! op_sizeof (unary_expression n') mode
      else if sy =? ch_plus then operand ret
      else if sy =? ch_minus then operand (negate mode)
      else if sy =? 33 then operand (logical_not mode)
      else if sy =? 126 then operand (complement mode)
      else postfix_expression mode
  end.

Definition pm_expression (mode : Z) : X Value := unary_expression fuel mode.

Definition level (ops : list Z) (apply : Z -> Z -> Value -> Value -> X Value) (next : Z -> X Value) (mode : Z) : X Value :=
  let! v := next mode in binary_loop fuel mode ops (next mode) (apply mode) v.

Definition multiplicative_expression : Z -> X Value := level [ch_star; ch_slash; 37] multiply pm_expression.
Definition additive_expression : Z -> X Value := level [ch_plus; ch_minus] add multiplicative_expression.
Definition shift_expression : Z -> X Value := level [SY_SHL; SY_SHR] shift additive_expression.
Definition relational_expression : Z -> X Value := level [60; 62; SY_LEQ; SY_GEQ] relate shift_expression.
Definition equality_expression : Z -> X Value := level [SY_EQU; SY_NEQ] equal relational_expression.
Definition and_expression : Z -> X Value := level [38] (bitwise Z.land) equality_expression.
Definition exclusive_or_expression : Z -> X Value := level [94] (bitwise Z.lxor) and_expression.
Definition inclusive_or_expression : Z -> X Value := level [124] (bitwise Z.lor) exclusive_or_expression.

(** The loops of [&&] and [||]: the operand on the right is read with [MODE_SKIP] if the left one decides. *)
Fixpoint logical_loop (n : nat) (mode sy : Z) (go_on : bool) (operand : Z -> X Value) (v : Value) : X Value :=
  match n with
  | O => nofuel
  | S n' =>
      let! s := the_sy in
      if s =? sy then
        let! (b, v) := to_boolean mode v in
        next_sy ;!
        let evaluate := eqb b go_on in
        let! x := operand (if evaluate then mode else MODE_SKIP) in
        logical_loop n' mode sy go_on operand (if evaluate then (if v_constant v then x else set_constant false x) else v)
      else ret v
  end.

Definition logical_and_expression (mode : Z) : X Value :=
  let! v := inclusive_or_expression mode in logical_loop fuel mode SY_AND true inclusive_or_expression v.
Definition logical_or_expression (mode : Z) : X Value :=
  let! v := logical_and_expression mode in logical_loop fuel mode SY_OR false logical_and_expression v.

Definition conditional_expression (mode : Z) : X Value :=
  let! v := logical_or_expression mode in
  let! sy := the_sy in
  if sy =? 63 then
    let! (b, v) := to_boolean mode v in
    next_sy ;!
    let! x := expression (if b then mode else MODE_SKIP) in
    expect ch_colon ;!
    next_sy ;!
    let! y := expression (if negb b then mode else MODE_SKIP) in
    let r := if b then x else y in
    ret (if v_constant v then r else set_constant false r)
  else ret v.
End Parser.

(** [expression] is [conditional_expression], which calls itself for its last part. *)
Fixpoint expression (n : nat) (mode : Z) : X Value :=
  match n with
  | O => nofuel
  | S n' => conditional_expression (expression n') mode
  end.

Definition evaluate_script (mode : Z) (s : list Z) (load : bool) : outcome Value :=
  if bool_decide (s = []) then Throw ERR_INV_EXPRESSION
  else
    fst ((next_ch ;!
          next_sy ;!
          let! v := expression fuel mode in
          expect 0 ;!
          if load then load_value v else ret v) (mkLex (s ++ [0]) 0 0 0 0 ini_value 0)).
End Expr.

(** The fuel is more than the length of the text; the address is for symbols only. *)
Definition expr_fuel (s : list Z) : nat := S (S (length s)).

Definition evaluate_expression `{ExprEnv} (ctx : option Z) (frame : Z) (s : list Z) (load : bool) : outcome Value :=
  evaluate_script ctx frame (expr_fuel s) MODE_NORMAL s load.

Section Client.
Context `{ExprEnv}.
Variable expression_context : option Z.

(** The functions for clients of values, in the context of the last evaluation. *)
Definition value_to {A} (conv : Z -> Value -> M unit (A * Value)) (v : Value) : outcome A :=
  fst ((let! (a, _) := conv MODE_NORMAL v in ret a) tt).

Definition value_to_boolean : Value -> outcome bool := value_to (to_boolean expression_context).
Definition value_to_address : Value -> outcome Z := value_to (to_uns expression_context).
Definition value_to_signed : Value -> outcome Z := value_to (to_int expression_context).
Definition value_to_unsigned : Value -> outcome Z := value_to (to_uns expression_context).
Definition value_to_double : Value -> outcome spec_float := value_to (to_double expression_context).
End Client.
