(* ===== verification/ExprSpec.v ===== *)
(** * The meaning of expressions (Expr.v, services/expressions.c)

    Expressions over numbers as trees, their values, and the texts that are written for them with as few
    parentheses as the precedence of the operators of C allows. *)

From S2P Require Import Prelude ExprValue ExprLex Expr.

(** ** Numbers *)

(** A number with its class and its size in bytes. *)
Record num := Num { nm_class : Z; nm_size : Z; nm_val : Z }.

Definition num_ok (t : num) : Prop :=
  nm_size t ∈ [1; 2; 4; 8] /\
  (nm_class t = TYPE_CLASS_CARDINAL /\ 0 <= nm_val t < 2 ^ (8 * nm_size t) \/
   (nm_class t = TYPE_CLASS_INTEGER \/ nm_class t = TYPE_CLASS_ENUMERATION) /\ - 2 ^ (8 * nm_size t - 1) <= nm_val t < 2 ^ (8 * nm_size t - 1)).

Definition unsigned (t : num) : bool := nm_class t =? TYPE_CLASS_CARDINAL.

(** The value of a constant number. *)
Definition of_num `{ExprEnv} (t : num) : Value :=
  mkValue (nm_class t) (Some (order big_endian_host (le_bytes (Z.to_nat (nm_size t)) (nm_val t)))) None None 0 (nm_size t)
    false true big_endian_host false 0 0 None None.

(** As [int64_t] and [uint64_t]. *)
Definition as_s (t : num) : Z := swrap 64 (nm_val t).
Definition as_u (t : num) : Z := uwrap 64 (nm_val t).

(** Numbers of 64 bits. *)
Definition s64 (n : Z) : num := Num TYPE_CLASS_INTEGER 8 (swrap 64 n).
Definition u64 (n : Z) : num := Num TYPE_CLASS_CARDINAL 8 (uwrap 64 n).
Definition x64 (cardinal : bool) (n : Z) : num := if cardinal then u64 n else s64 n.

(** The smallest number of its class that holds [n]. *)
Definition small (c n : Z) : num :=
  if c =? TYPE_CLASS_CARDINAL then Num c (uint_size n) n else Num c (int_size n) (swrap (8 * int_size n) n).

(** ** Operators *)

Inductive unop := UPlus | UNeg | UNot | UCompl.
Inductive binop := BMul | BDiv | BMod | BAdd | BSub | BShl | BShr | BLt | BGt | BLe | BGe | BEq | BNe | BAnd | BXor | BOr.

Definition unop_sy (o : unop) : Z := match o with UPlus => ch_plus | UNeg => ch_minus | UNot => 33 | UCompl => 126 end.

Definition binop_sy (o : binop) : Z :=
  match o with
  | BMul => ch_star | BDiv => ch_slash | BMod => 37
  | BAdd => ch_plus | BSub => ch_minus
  | BShl => SY_SHL | BShr => SY_SHR
  | BLt => 60 | BGt => 62 | BLe => SY_LEQ | BGe => SY_GEQ
  | BEq => SY_EQU | BNe => SY_NEQ
  | BAnd => 38 | BXor => 94 | BOr => 124
  end.

(** The precedence of C; 0 is the conditional operator, 1 [||], 2 [&&], 11 the unary operators. *)
Definition binop_level (o : binop) : nat :=
  match o with
  | BMul | BDiv | BMod => 10
  | BAdd | BSub => 9
  | BShl | BShr => 8
  | BLt | BGt | BLe | BGe => 7
  | BEq | BNe => 6
  | BAnd => 5
  | BXor => 4
  | BOr => 3
  end.

Section Meaning.
(** The size of a word of the target, for results of comparisons. *)
Variable word : Z.

Definition truth (b : bool) : num := Num TYPE_CLASS_ENUMERATION word (Z.b2z b).

(** [-] changes nothing in a number without sign. *)
Definition den_unop (o : unop) (a : num) : num :=
  match o with
  | UPlus => a
  | UNeg =>
      if unsigned a then a
      else
        let size := if nm_class a =? TYPE_CLASS_INTEGER then nm_size a else word in
        Num TYPE_CLASS_INTEGER size (swrap (8 * size) (- as_s a))
  | UNot => truth (as_s a =? 0)
  | UCompl => if unsigned a then Num (nm_class a) (nm_size a) (uwrap (8 * nm_size a) (Z.lnot (nm_val a)))
              else Num (nm_class a) (nm_size a) (swrap (8 * nm_size a) (Z.lnot (nm_val a)))
  end.

(** The left operand of [&], [^] or [|] counts as a number without sign of its own size if the other has none. *)
Definition low (a : num) : Z := uwrap (8 * nm_size a) (nm_val a).

Definition den_binop (o : binop) (a b : num) : outcome num :=
  let u := unsigned a || unsigned b in
  let num n := Val (x64 u n) in
  let x := if u then as_u a else as_s a in
  let y := if u then as_u b else as_s b in
  let div f := if as_s b =? 0 then Throw ERR_INV_EXPRESSION else if negb u && (x =? - 2 ^ 63) && (y =? -1) then Fault else num (f x y) in
  let bits f := num (f (if u then low a else as_s a) y) in
  let shift left :=
    let back := negb (unsigned b) && (as_s b <? 0) in
    let cnt := if back then - as_s b else as_u b in
    let n := if unsigned a then as_u a else as_s a in
    if cnt <? 64 then Val (x64 (unsigned a) (if eqb left back then Z.shiftr n cnt else Z.shiftl n cnt)) else Fault in
  match o with
  | BMul => num (x * y)
  | BDiv => div Z.quot
  | BMod => div Z.rem
  | BAdd => num (x + y)
  | BSub => num (x - y)
  | BShl => shift true
  | BShr => shift false
  | BLt => Val (truth (x <? y))
  | BGt => Val (truth (y <? x))
  | BLe => Val (truth (x <=? y))
  | BGe => Val (truth (y <=? x))
  | BEq => Val (truth (as_s a =? as_s b))
  | BNe => Val (truth (negb (as_s a =? as_s b)))
  | BAnd => bits Z.land
  | BXor => bits Z.lxor
  | BOr => bits Z.lor
  end.

(** ** Literals *)

(** Digits, and letters [l] and [u] at the end; a hexadecimal literal starts with [0x], an octal one with [0]. *)
Inductive lit := LDec (digits suffix : list Z) | LHex (digits suffix : list Z) | LOct (digits suffix : list Z).

Definition is_suffix (ch : Z) : bool := existsb (Z.eqb ch) [ch_l; 76; ch_u; 85].

Definition lit_ok (l : lit) : Prop :=
  match l with
  | LDec ds sfx => ds <> [] /\ deref ds <> ch_0 /\ Forall (fun c => is_digit c = true) ds /\ Forall (fun c => is_suffix c = true) sfx
  | LHex ds sfx => Forall (fun c => is_hex c = true) ds /\ Forall (fun c => is_suffix c = true) sfx
  | LOct ds sfx => Forall (fun c => is_oct c = true) ds /\ Forall (fun c => is_suffix c = true) sfx
  end.

Definition lit_text (l : lit) : list Z :=
  match l with
  | LDec ds sfx => ds ++ sfx
  | LHex ds sfx => ch_0 :: 120 :: ds ++ sfx
  | LOct ds sfx => ch_0 :: ds ++ sfx
  end.

(** The number of digits to a base, modulo 2^64. *)
Definition positional (base : Z) (digit : Z -> Z) (ds : list Z) : Z := uwrap 64 (fold_left (fun n d => base * n + digit d) ds 0).

Definition has_u (sfx : list Z) : bool := existsb (fun c => (c =? ch_u) || (c =? 85)) sfx.

Definition lit_num (l : lit) : num :=
  match l with
  | LDec ds sfx => small (if has_u sfx then TYPE_CLASS_CARDINAL else TYPE_CLASS_INTEGER) (positional 10 (fun d => d - ch_0) ds)
  | LHex ds _ => small TYPE_CLASS_CARDINAL (positional 16 (fun d => default 0 (hex_value d)) ds)
  | LOct [] _ => Num TYPE_CLASS_INTEGER 1 0
  | LOct ds _ => small TYPE_CLASS_CARDINAL (positional 8 (fun d => d - ch_0) ds)
  end.

(** ** Expressions *)

Inductive expr :=
  | ELit (l : lit)
  | EUn (o : unop) (e : expr)
  | EBin (o : binop) (e1 e2 : expr)
  | ELAnd (e1 e2 : expr)
  | ELOr (e1 e2 : expr)
  | ECond (c e1 e2 : expr).

Definition bindo {A B} (o : outcome A) (f : A -> outcome B) : outcome B :=
  match o with Val a => f a | Throw e => Throw e | Fault => Fault | NoFuel => NoFuel end.

(** The value of an expression: an error ends the evaluation, and only the operands that are needed are evaluated. *)
Fixpoint den (e : expr) : outcome num :=
  match e with
  | ELit l => Val (lit_num l)
  | EUn o e => bindo (den e) (fun a => Val (den_unop o a))
  | EBin o e1 e2 => bindo (den e1) (fun a => bindo (den e2) (fun b => den_binop o a b))
  | ELAnd e1 e2 => bindo (den e1) (fun a => if as_s a =? 0 then Val a else den e2)
  | ELOr e1 e2 => bindo (den e1) (fun a => if as_s a =? 0 then den e2 else Val a)
  | ECond c e1 e2 => bindo (den c) (fun a => if as_s a =? 0 then den e2 else den e1)
  end.

Fixpoint expr_ok (e : expr) : Prop :=
  match e with
  | ELit l => lit_ok l
  | EUn _ e => expr_ok e
  | EBin _ e1 e2 | ELAnd e1 e2 | ELOr e1 e2 => expr_ok e1 /\ expr_ok e2
  | ECond c e1 e2 => expr_ok c /\ expr_ok e1 /\ expr_ok e2
  end.
End Meaning.

(** ** Texts *)

Inductive token := TOp (sy : Z) | TLit (l : lit).

Definition expr_level (e : expr) : nat :=
  match e with
  | ELit _ | EUn _ _ => 11
  | EBin o _ _ => binop_level o
  | ELAnd _ _ => 2
  | ELOr _ _ => 1
  | ECond _ _ _ => 0
  end.

(** The symbols of an expression where one of level [l] or higher may stand. *)
Fixpoint toks (l : nat) (e : expr) : list token :=
  let ts :=
    match e with
    | ELit x => [TLit x]
    | EUn o e => TOp (unop_sy o) :: toks 11 e
    | EBin o e1 e2 => toks (binop_level o) e1 ++ TOp (binop_sy o) :: toks (S (binop_level o)) e2
    | ELAnd e1 e2 => toks 2 e1 ++ TOp SY_AND :: toks 3 e2
    | ELOr e1 e2 => toks 1 e1 ++ TOp SY_OR :: toks 2 e2
    | ECond c e1 e2 => toks 1 c ++ TOp 63 :: toks 0 e1 ++ TOp ch_colon :: toks 0 e2
    end in
  if (l <=? expr_level e)%nat then ts else TOp ch_lpar :: ts ++ [TOp ch_rpar].

Definition op_text (sy : Z) : list Z :=
  if sy =? SY_LEQ then str "<="
  else if sy =? SY_GEQ then str ">="
  else if sy =? SY_EQU then str "=="
  else if sy =? SY_NEQ then str "!="
  else if sy =? SY_AND then str "&&"
  else if sy =? SY_OR then str "||"
  else if sy =? SY_SHL then str "<<"
  else if sy =? SY_SHR then str ">>"
  else [sy].

Definition tok_text (t : token) : list Z := match t with TOp sy => op_text sy | TLit l => lit_text l end.

(** Every symbol is followed by white space. *)
Fixpoint spell (ts : list (token * list Z)) : list Z :=
  match ts with
  | [] => []
  | (t, b) :: ts' => tok_text t ++ b ++ spell ts'
  end.

(** The white space may be left out at the end, after a symbol that is always alone, and between a literal and an operator. *)
Fixpoint spaced (ts : list (token * list Z)) : Prop :=
  match ts with
  | [] => True
  | (t, b) :: ts' =>
      Forall (fun c => blank c = true) b /\
      (b <> [] \/ ts' = [] \/
       match t, ts' with
       | TOp sy, _ => single sy = true
       | TLit _, (TOp _, _) :: _ => True
       | _, _ => False
       end) /\
      spaced ts'
  end.
