(* ===== verification/ExprNum.v ===== *)
(** * Numbers in expressions (ExprValue.v, Expr.v, services/expressions.c)

    The operators on values are the operators on numbers of ExprSpec.v. *)

From S2P Require Import Prelude ExprValue ExprLex Expr ExprSpec.

(** ** Bytes *)

Lemma le_bytes_length n x : length (le_bytes n x) = n.
Proof. revert x. induction n as [|n IH]; intros x; [done|]. cbn. by rewrite IH. Qed.

Lemma le_value_bytes n x : le_value (le_bytes n x) = x mod 256 ^ Z.of_nat n.
Proof.
  revert x. induction n as [|n IH]; intros x; [cbn; by rewrite Z.mod_1_r|]. cbn [le_bytes le_value]. rewrite IH, Nat2Z.inj_succ, Z.pow_succ_r by lia.
  rewrite Z.rem_mul_r by (try lia; apply Z.pow_pos_nonneg; lia). lia.
Qed.

Lemma le_bytes_mod n x y : x mod 256 ^ Z.of_nat n = y mod 256 ^ Z.of_nat n -> le_bytes n x = le_bytes n y.
Proof.
  revert x y. induction n as [|n IH]; intros x y E; [done|]. cbn. rewrite Nat2Z.inj_succ, Z.pow_succ_r in E by lia.
  pose proof (Z.pow_pos_nonneg 256 (Z.of_nat n)). rewrite !Z.rem_mul_r in E by lia.
  pose proof (Z.mod_pos_bound x 256). pose proof (Z.mod_pos_bound y 256).
  pose proof (Z.mod_pos_bound (x / 256) (256 ^ Z.of_nat n)). pose proof (Z.mod_pos_bound (y / 256) (256 ^ Z.of_nat n)).
  assert (Hm : x mod 256 = y mod 256) by lia. f_equal; [exact Hm|]. apply IH. lia.
Qed.

Lemma le_bytes_uwrap n w x : w = 8 * Z.of_nat n -> le_bytes n (uwrap w x) = le_bytes n x.
Proof.
  intros ->. apply le_bytes_mod. unfold uwrap. rewrite Z.pow_mul_r by lia. change (2 ^ 8) with 256. apply Z.mod_mod. apply Z.pow_nonzero; lia.
Qed.

Lemma le_bytes_swrap n w x : w = 8 * Z.of_nat n -> (0 < n)%nat -> le_bytes n (swrap w x) = le_bytes n x.
Proof. intros Hw Hn. rewrite <- (le_bytes_uwrap n w) by done. rewrite uwrap_swrap by lia. by apply le_bytes_uwrap. Qed.

Lemma order_order be l : order be (order be l) = l.
Proof. unfold order. destruct be; [apply rev_involutive|done]. Qed.

Lemma order_length be l : length (order be l) = length l.
Proof. unfold order. destruct be; [apply length_rev|done]. Qed.

Lemma size_cases z : z ∈ [1; 2; 4; 8] -> z = 1 \/ z = 2 \/ z = 4 \/ z = 8.
Proof. rewrite !elem_of_cons. intros [|[|[|[|H]]]]; auto. by apply elem_of_nil in H. Qed.

Lemma size_existsb z : z ∈ [1; 2; 4; 8] -> existsb (Z.eqb z) [1; 2; 4; 8] = true.
Proof. intros [->|[->|[->| ->]]]%size_cases; done. Qed.

Section Num.
Context `{ExprEnv}.
Variables (ctx : Z).
Notation context := (Some ctx).
Notation word := (ctx_word_size ctx).
Hypothesis Hword : word ∈ [1; 2; 4; 8].

Implicit Types (s : Lex) (a b t : num).

(** ** Conversions *)

Lemma load_num t s : runs (load_value context (of_num t)) s (of_num t) s.
Proof. done. Qed.

Lemma host_num t s : num_ok t -> runs (to_host_endianness (of_num t)) s (of_num t) s.
Proof.
  intros [_ Hc]. unfold to_host_endianness. cbn [of_num v_type_class v_remote v_big_endian]. rewrite Bool.eqb_reflx.
  destruct Hc as [[-> _]|[[-> | ->] _]]; reflexivity.
Qed.

Lemma read_num t s : num_ok t -> runs (sized (read_uint (of_num t)) (of_num t)) s (uwrap (8 * nm_size t) (nm_val t)) s.
Proof.
  intros [Hs _]. unfold sized, read_uint. cbn [of_num v_size v_value]. rewrite size_existsb by done. rewrite order_length, le_bytes_length.
  assert (Hn : 0 <= nm_size t) by (apply size_cases in Hs; lia). rewrite Z2Nat.id by done. rewrite Z.leb_refl.
  rewrite take_ge by (rewrite order_length, le_bytes_length; lia). rewrite order_order, le_value_bytes, Z2Nat.id by done.
  unfold uwrap. rewrite Z.pow_mul_r by lia. done.
Qed.

Lemma read_snum t s : num_ok t -> runs (sized (read_sint (of_num t)) (of_num t)) s (swrap (8 * nm_size t) (nm_val t)) s.
Proof.
  intros Ht. pose proof Ht as [Hs _]. pose proof (read_num t s Ht) as R. unfold sized in *. rewrite size_existsb in * by done. unfold read_sint.
  eapply runs_bind; [exact R|]. cbn [of_num v_size]. rewrite swrap_uwrap by (apply size_cases in Hs; lia). apply runs_ret.
Qed.

Lemma swrap_ok t : num_ok t -> unsigned t = false -> swrap (8 * nm_size t) (nm_val t) = nm_val t /\ as_s t = nm_val t.
Proof.
  intros [Hs Hc] Hu. apply size_cases in Hs. destruct Hc as [[Hc _]|[_ Hr]]; [unfold unsigned in Hu; by rewrite Hc in Hu|].
  split; [apply swrap_small; lia|]. unfold as_s. apply swrap_small; [lia|]. destruct Hs as [E|[E|[E|E]]]; rewrite E in Hr; cbn in Hr |- *; lia.
Qed.

Lemma uwrap_ok t : num_ok t -> unsigned t = true -> uwrap (8 * nm_size t) (nm_val t) = nm_val t /\ as_u t = nm_val t.
Proof.
  intros [Hs Hc] Hu. apply size_cases in Hs. apply Z.eqb_eq in Hu. destruct Hc as [[_ Hr]|[[Hc|Hc] _]]; [|by rewrite Hc in Hu|by rewrite Hc in Hu].
  split; [apply uwrap_small; lia|]. unfold as_u. apply uwrap_small. destruct Hs as [E|[E|[E|E]]]; rewrite E in Hr; cbn in Hr |- *; lia.
Qed.

Lemma scaled_num wrap div t n s : runs (scaled wrap div (of_num t) n) s n s.
Proof. done. Qed.

Lemma class_cases t : num_ok t -> nm_class t = TYPE_CLASS_CARDINAL /\ unsigned t = true \/
  (nm_class t = TYPE_CLASS_INTEGER \/ nm_class t = TYPE_CLASS_ENUMERATION) /\ unsigned t = false.
Proof. intros [_ [[Hc _]|[Hc _]]]; [left|right]; (split; [done|]); unfold unsigned; [by rewrite Hc|by destruct Hc as [-> | ->]]. Qed.

(** The fixed point conversions of numbers of both kinds. *)
Lemma int_fixed_num t s : num_ok t -> unsigned t = false -> runs (to_int_fixed_point context MODE_NORMAL (of_num t)) s (as_s t, of_num t) s.
Proof.
  intros Ht Hu. unfold to_int_fixed_point. cbn [negb Z.eqb MODE_NORMAL]. destruct (swrap_ok t Ht Hu) as [E1 E2]. rewrite E2.
  destruct (class_cases t Ht) as [[_ Hc]|[Hc _]]; [congruence|].
  unfold is_number. cbn [v_type_class of_num]. destruct Hc as [Hc|Hc]; rewrite Hc; cbn -[sized load_value to_host_endianness of_num];
    (eapply runs_bind; [apply load_num|]); (eapply runs_bind; [by apply host_num|]); cbn [v_type_class of_num]; rewrite ?Hc; cbn -[sized of_num read_sint read_uint];
    (eapply runs_bind; [by apply read_snum|]); rewrite E1; apply runs_ret.
Qed.

Lemma uns_fixed_num t s : num_ok t -> unsigned t = true -> runs (to_uns_fixed_point context MODE_NORMAL (of_num t)) s (as_u t, of_num t) s.
Proof.
  intros Ht Hu. unfold to_uns_fixed_point. cbn [negb Z.eqb MODE_NORMAL]. destruct (uwrap_ok t Ht Hu) as [E1 E2]. rewrite E2.
  destruct (class_cases t Ht) as [[Hc _]|[_ Hc]]; [|congruence].
  unfold is_number. cbn [v_type_class of_num v_remote]. rewrite Hc. cbn -[sized load_value to_host_endianness of_num].
  eapply runs_bind; [apply load_num|]. eapply runs_bind; [by apply host_num|]. cbn [v_type_class of_num]. rewrite Hc. cbn -[sized of_num read_sint read_uint].
  eapply runs_bind; [by apply read_num|]. rewrite E1. apply runs_ret.
Qed.

Lemma enum_fixed_num t s : num_ok t -> nm_class t = TYPE_CLASS_ENUMERATION -> runs (to_uns_fixed_point context MODE_NORMAL (of_num t)) s (as_u t, of_num t) s.
Proof.
  intros Ht Hc. assert (Hu : unsigned t = false) by (unfold unsigned; by rewrite Hc). destruct (swrap_ok t Ht Hu) as [E1 _].
  unfold to_uns_fixed_point, is_number. cbn [v_type_class of_num v_remote]. rewrite Hc. cbn -[sized load_value to_host_endianness of_num].
  eapply runs_bind; [apply load_num|]. eapply runs_bind; [by apply host_num|]. cbn [v_type_class of_num]. rewrite Hc. cbn -[sized of_num read_sint read_uint].
  eapply runs_bind; [eapply runs_bind; [by apply read_snum|apply runs_ret]|]. rewrite E1. apply runs_ret.
Qed.

Lemma to_int_num t s : num_ok t -> runs (to_int context MODE_NORMAL (of_num t)) s (as_s t, of_num t) s.
Proof.
  intros Ht. unfold to_int. cbn [v_type_class of_num]. destruct (class_cases t Ht) as [[Hc Hu]|[[Hc|Hc] Hu]]; rewrite Hc; cbn [Z.eqb TYPE_CLASS_INTEGER TYPE_CLASS_CARDINAL TYPE_CLASS_ENUMERATION Pos.eqb].
  - eapply runs_bind; [by apply uns_fixed_num|]. cbn beta iota. eapply runs_bind; [apply scaled_num|]. unfold as_u. rewrite swrap_uwrap by lia. apply runs_ret.
  - eapply runs_bind; [by apply int_fixed_num|]. cbn beta iota. eapply runs_bind; [apply scaled_num|]. apply runs_ret.
  - do 2 (eapply runs_bind; [by apply runs_cassert|]). by apply int_fixed_num.
Qed.

Lemma to_uns_num t s : num_ok t -> runs (to_uns context MODE_NORMAL (of_num t)) s (as_u t, of_num t) s.
Proof.
  intros Ht. unfold to_uns. cbn [v_type_class of_num]. destruct (class_cases t Ht) as [[Hc Hu]|[[Hc|Hc] Hu]]; rewrite Hc; cbn [Z.eqb TYPE_CLASS_INTEGER TYPE_CLASS_CARDINAL TYPE_CLASS_ENUMERATION Pos.eqb].
  - eapply runs_bind; [by apply uns_fixed_num|]. cbn beta iota. eapply runs_bind; [apply scaled_num|]. apply runs_ret.
  - eapply runs_bind; [by apply int_fixed_num|]. cbn beta iota. eapply runs_bind; [apply scaled_num|]. unfold as_s. rewrite uwrap_swrap by lia. apply runs_ret.
  - do 2 (eapply runs_bind; [by apply runs_cassert|]). by apply enum_fixed_num.
Qed.

Lemma both_num (u : bool) a b s : num_ok a -> num_ok b ->
  runs (both (if u then to_uns context else to_int context) MODE_NORMAL (of_num a) (of_num b)) s
    (if u then as_u a else as_s a, if u then as_u b else as_s b, of_num a, of_num b) s.
Proof. intros Ha Hb. unfold both. destruct u; do 2 (eapply runs_bind; [by first [apply to_uns_num|apply to_int_num]|]; cbn beta iota); apply runs_ret. Qed.

(** Nothing is computed in the other modes. *)
Lemma to_int_skip mode t s : mode <> MODE_NORMAL -> num_ok t -> runs (to_int context mode (of_num t)) s (0, of_num t) s.
Proof.
  intros Hm Ht. assert (E : mode =? MODE_NORMAL = false) by (by apply Z.eqb_neq).
  unfold to_int, to_int_fixed_point, to_uns_fixed_point. rewrite E. cbn [negb v_type_class of_num].
  destruct (class_cases t Ht) as [[Hc _]|[[Hc|Hc] _]]; rewrite Hc; reflexivity.
Qed.

(** ** Results *)

Lemma set_num size n m c t s : size ∈ [1; 2; 4; 8] -> le_bytes (Z.to_nat size) n = le_bytes (Z.to_nat size) m ->
  runs (set_int_value size n (set_class c (of_num t))) s (of_num (Num c size m)) s.
Proof.
  intros Hs E. unfold set_int_value. rewrite size_existsb by done. rewrite E. unfold runs, ret, set_value, of_num. cbn.
  rewrite order_length, le_bytes_length, Z2Nat.id by (apply size_cases in Hs; lia). done.
Qed.

Lemma set_class_same t : set_class (nm_class t) (of_num t) = of_num t.
Proof. done. Qed.

Lemma num_u64 n : num_ok (u64 n).
Proof. split; [repeat constructor|]. left. split; [done|]. by apply uwrap_range. Qed.

Lemma num_s64 n : num_ok (s64 n).
Proof. split; [repeat constructor|]. right. split; [by left|]. by apply (swrap_range 64). Qed.

Lemma num_x64 (u : bool) n : num_ok (x64 u n).
Proof. destruct u; [apply num_u64|apply num_s64]. Qed.

Lemma num_truth (b : bool) : num_ok (truth word b).
Proof.
  split; [done|]. right. split; [by right|]. unfold truth. cbn [nm_size nm_val]. apply size_cases in Hword as [->|[->|[->| ->]]]; destruct b; cbn; lia.
Qed.

Lemma set_x64 (u : bool) n t s : runs (set_int_value 8 n (set_class (if u then TYPE_CLASS_CARDINAL else TYPE_CLASS_INTEGER) (of_num t))) s (of_num (x64 u n)) s.
Proof. destruct u; (apply set_num; [repeat constructor|]); symmetry; [by apply le_bytes_uwrap|apply le_bytes_swrap; [done|lia]]. Qed.

Lemma set_truth (b : bool) t s : runs (set_bool_value context (Z.b2z b) (of_num t)) s (of_num (truth word b)) s.
Proof. unfold set_bool_value. eapply runs_bind; [apply runs_ret|]. by apply set_num. Qed.

(** A number as one without sign of the same bytes. *)
Definition recast (a : num) : num := Num TYPE_CLASS_CARDINAL (nm_size a) (low a).

Lemma recast_ok a : num_ok a -> num_ok (recast a).
Proof. intros [Hs _]. split; [done|]. left. split; [done|]. apply uwrap_range. apply size_cases in Hs. cbn. lia. Qed.

Lemma recast_value a : num_ok a -> set_class TYPE_CLASS_CARDINAL (of_num a) = of_num (recast a).
Proof.
  intros [Hs _]. apply size_cases in Hs. unfold of_num, recast, set_class, low. cbn. by rewrite le_bytes_uwrap by (rewrite Z2Nat.id; lia).
Qed.

Lemma as_u_recast a : num_ok a -> as_u (recast a) = low a.
Proof. intros Ha. by destruct (uwrap_ok _ (recast_ok a Ha) eq_refl) as [_ ?]. Qed.

Lemma is_number_num a : num_ok a -> is_number (of_num a) = true.
Proof. intros Ha. unfold is_number. cbn [v_type_class of_num]. by destruct (class_cases a Ha) as [[-> _]|[[-> | ->] _]]. Qed.

Lemma is_whole_num a : num_ok a -> is_whole_number (of_num a) = true.
Proof. intros Ha. unfold is_whole_number. cbn [v_type_class of_num]. by destruct (class_cases a Ha) as [[-> _]|[[-> | ->] _]]. Qed.

Lemma not_real_num a : num_ok a -> is_real_number (of_num a) = false.
Proof. intros Ha. unfold is_real_number. cbn [v_type_class of_num]. by destruct (class_cases a Ha) as [[-> _]|[[-> | ->] _]]. Qed.

Lemma not_complex_num a : num_ok a -> is_complex (of_num a) = false.
Proof. intros Ha. unfold is_complex. cbn [v_type_class of_num]. by destruct (class_cases a Ha) as [[-> _]|[[-> | ->] _]]. Qed.

Lemma not_array_num a : num_ok a -> is_array (of_num a) = false.
Proof. intros Ha. unfold is_array. cbn [v_type_class of_num]. by destruct (class_cases a Ha) as [[-> _]|[[-> | ->] _]]. Qed.
End Num.
