(* ===== verification/ExprOps.v ===== *)
(** * Operators of expressions (Expr.v, ExprSpec.v, services/expressions.c)

    Each operator does to values what its specification does to numbers. *)

From S2P Require Import Prelude ExprValue ExprLex Expr ExprSpec ExprNum.

(** The outcome of a value. *)
Definition value_of `{ExprEnv} (o : outcome num) : outcome Value :=
  match o with Val t => Val (of_num t) | Throw e => Throw e | Fault => Fault | NoFuel => NoFuel end.

Section Ops.
Context `{ExprEnv}.
Variables (ctx : Z).
Notation context := (Some ctx).
Notation word := (ctx_word_size ctx).
Hypothesis Hword : word ∈ [1; 2; 4; 8].

Implicit Types (s : Lex) (a b t : num).

Notation den_binop := (den_binop word).
Notation den_unop := (den_unop word).
Notation truth := (truth word).

(** The function of each operator. *)
Definition binop_fn (o : binop) : Z -> Z -> Value -> Value -> M Lex Value :=
  match o with
  | BMul | BDiv | BMod => multiply context
  | BAdd | BSub => add context
  | BShl | BShr => shift context
  | BLt | BGt | BLe | BGe => relate context
  | BEq | BNe => equal context
  | BAnd => bitwise context Z.land
  | BXor => bitwise context Z.lxor
  | BOr => bitwise context Z.lor
  end.

Definition unop_fn (o : unop) (mode : Z) : Value -> M Lex Value :=
  match o with UPlus => ret | UNeg => negate context mode | UNot => logical_not context mode | UCompl => complement context mode end.

Lemma swrap_eq w x : 0 <= w -> exists k, swrap w x = x + k * 2 ^ w.
Proof. intros Hw. exists (- ((x + 2 ^ (w - 1)) / 2 ^ w)). unfold swrap. rewrite Z.mod_eq; [lia|]. apply Z.pow_nonzero; lia. Qed.

Lemma negate_num a s : num_ok a -> runs (negate context MODE_NORMAL (of_num a)) s (of_num (den_unop UNeg a)) s /\ num_ok (den_unop UNeg a).
Proof.
  intros Ha. pose proof Ha as [Hs _]. pose proof (class_cases a Ha) as Hcl. unfold negate. cbn [Z.eqb MODE_NORMAL MODE_SKIP ExprSpec.den_unop].
  rewrite is_number_num, not_real_num, not_complex_num by done. cbn [negb v_type_class of_num].
  replace (nm_class a =? TYPE_CLASS_REAL) with false by (by destruct Hcl as [[-> _]|[[-> | ->] _]]).
  change (is_cardinal (of_num a)) with (unsigned a). destruct (unsigned a) eqn:Hu; [done|]. cbn [negb]. destruct Hcl as [[_ Hcl]|[Hcl _]]; [congruence|].
  set (size := if nm_class a =? TYPE_CLASS_INTEGER then nm_size a else word).
  assert (Hsz : size ∈ [1; 2; 4; 8]) by (unfold size; by destruct (_ =? _)).
  assert (Hb : le_bytes (Z.to_nat size) (- as_s a) = le_bytes (Z.to_nat size) (swrap (8 * size) (- as_s a))).
  { symmetry. apply size_cases in Hsz. apply le_bytes_swrap; [rewrite Z2Nat.id; lia|lia]. }
  split; [|split; [exact Hsz|right; split; [by left|apply swrap_range; apply size_cases in Hsz; cbn; lia]]].
  eapply (runs_bind _ _ _ (of_num _)); [|eapply runs_bind; [by apply runs_cassert|apply runs_ret]]. eapply runs_bind; [by apply to_int_num|]. cbn beta iota. cbn [v_type_class v_size of_num].
  destruct Hcl as [Hcl|Hcl]; unfold size in *; rewrite Hcl in *; cbn [Z.eqb TYPE_CLASS_INTEGER TYPE_CLASS_ENUMERATION Pos.eqb] in *.
  - rewrite <- (set_class_same a) at 1. rewrite Hcl. by apply set_num.
  - eapply runs_bind; [apply runs_ret|]. by apply set_num.
Qed.

Lemma not_num a s : num_ok a -> runs (logical_not context MODE_NORMAL (of_num a)) s (of_num (den_unop UNot a)) s.
Proof.
  intros Ha. unfold logical_not. cbn [Z.eqb MODE_NORMAL MODE_SKIP]. rewrite is_whole_num by done. cbn [negb].
  eapply runs_bind; [by apply to_int_num|]. cbn beta iota. eapply runs_bind; [by apply set_truth|]. eapply runs_bind; [by apply runs_cassert|apply runs_ret].
Qed.

Lemma lnot_bytes a : num_ok a -> le_bytes (Z.to_nat (nm_size a)) (Z.lnot (as_s a)) = le_bytes (Z.to_nat (nm_size a)) (Z.lnot (nm_val a)).
Proof.
  intros [Hs _]. apply le_bytes_mod. destruct (swrap_eq 64 (nm_val a)) as [k E]; [done|]. unfold as_s, Z.lnot. rewrite E.
  assert (Hd : exists c, 2 ^ 64 = c * 256 ^ Z.of_nat (Z.to_nat (nm_size a))).
  { apply size_cases in Hs as [->|[->|[->| ->]]]; [exists (2 ^ 56)|exists (2 ^ 48)|exists (2 ^ 32)|exists 1]; reflexivity. }
  destruct Hd as [c ->]. replace (Z.pred _) with (Z.pred (- nm_val a) + (- k * c) * 256 ^ Z.of_nat (Z.to_nat (nm_size a))) by lia.
  apply Z.mod_add. apply Z.pow_nonzero; lia.
Qed.

Lemma complement_num a s : num_ok a -> runs (complement context MODE_NORMAL (of_num a)) s (of_num (den_unop UCompl a)) s /\ num_ok (den_unop UCompl a).
Proof.
  intros Ha. pose proof Ha as [Hs _]. pose proof (class_cases a Ha) as Hcl. cbn [ExprSpec.den_unop].
  assert (Hp : 0 < nm_size a) by (apply size_cases in Hs; lia).
  set (m := if unsigned a then uwrap (8 * nm_size a) (Z.lnot (nm_val a)) else swrap (8 * nm_size a) (Z.lnot (nm_val a))).
  replace (if unsigned a then _ else _) with (Num (nm_class a) (nm_size a) m) by (unfold m; by destruct (unsigned a)). split.
  - unfold complement. cbn [Z.eqb MODE_NORMAL MODE_SKIP]. rewrite is_whole_num by done. cbn [negb].
    eapply runs_bind; [by apply to_int_num|]. cbn beta iota. eapply (runs_bind _ _ _ (of_num _)); [|eapply runs_bind; [by apply runs_cassert|apply runs_ret]]. cbn [v_size of_num].
    rewrite <- (set_class_same a) at 1. apply set_num; [done|]. rewrite lnot_bytes by done.
    unfold m. destruct (unsigned a); symmetry; [apply le_bytes_uwrap|apply le_bytes_swrap]; try rewrite Z2Nat.id; lia.
  - split; [done|]. unfold m. destruct Hcl as [[E Hu]|[E Hu]]; rewrite Hu; [left|right]; (split; [done|]); [apply uwrap_range|apply swrap_range]; cbn; lia.
Qed.

Lemma unop_num o a s : num_ok a -> runs (unop_fn o MODE_NORMAL (of_num a)) s (of_num (den_unop o a)) s /\ num_ok (den_unop o a).
Proof. intros Ha. destruct o; [done|by apply negate_num| |by apply complement_num]. split; [by apply not_num|by apply num_truth]. Qed.

(** ** Binary operators *)

Lemma both_constant_num a b (t : outcome num) s (m : M Lex Value) : m s = (value_of t, s) -> both_constant (of_num a) (of_num b) m s = (value_of t, s).
Proof. unfold both_constant, bind. intros ->. by destruct t. Qed.

Lemma unsigned_or a b : is_cardinal (of_num a) || is_cardinal (of_num b) = unsigned a || unsigned b.
Proof. done. Qed.

Lemma set_x64_val (u : bool) n a s : (if u then set_cardinal (of_num a) n else set_integer (of_num a) n) s = (value_of (Val (x64 u n)), s).
Proof. pose proof (set_x64 u n a s) as R. by destruct u. Qed.

Lemma add_num o a b s : o = BAdd \/ o = BSub -> num_ok a -> num_ok b ->
  add context MODE_NORMAL (binop_sy o) (of_num a) (of_num b) s = (value_of (den_binop o a b), s).
Proof.
  intros Ho Ha Hb. unfold add. cbn [of_num v_function]. fold (of_num a). fold (of_num b). apply both_constant_num.
  rewrite !not_array_num, !not_complex_num, !is_number_num, !not_real_num by done. rewrite !andb_false_r. cbn [andb orb negb]. rewrite unsigned_or.
  set (u := unsigned a || unsigned b).
  transitivity ((let! (x, y, v, _) := both (if u then to_uns context else to_int context) MODE_NORMAL (of_num a) (of_num b) in
                 (if u then set_cardinal v (if binop_sy o =? ch_plus then x + y else x - y) else set_integer v (if binop_sy o =? ch_plus then x + y else x - y))) s).
  { by destruct u. }
  rewrite (bind_runs _ _ _ _ _ (both_num ctx u a b s Ha Hb)). rewrite set_x64_val. by destruct Ho as [-> | ->].
Qed.

Lemma to_int_zero a b (u := unsigned a || unsigned b) : num_ok b -> ((if u then as_u b else as_s b) =? 0) = (as_s b =? 0).
Proof.
  intros [_ _]. unfold u. destruct (_ || _); [|done]. unfold as_u, as_s. rewrite <- (swrap_uwrap 64 (nm_val b)) by lia.
  pose proof (uwrap_range 64 (nm_val b)). set (n := uwrap 64 (nm_val b)) in *. unfold swrap. change (2 ^ (64 - 1)) with (2 ^ 63).
  destruct (Z.eqb_spec n 0) as [->|Hn]; [done|]. symmetry. apply Z.eqb_neq. intros E. apply Hn.
  destruct (Z.lt_ge_cases n (2 ^ 63)); [rewrite Z.mod_small in E; lia|]. rewrite (Z.mod_eq _ (2 ^ 64)) in E by lia.
  replace ((n + 2 ^ 63) / 2 ^ 64) with 1 in E by (apply Z.div_unique with (n + 2 ^ 63 - 2 ^ 64); lia). lia.
Qed.

Lemma multiply_num o a b s : o = BMul \/ o = BDiv \/ o = BMod -> num_ok a -> num_ok b ->
  multiply context MODE_NORMAL (binop_sy o) (of_num a) (of_num b) s = (value_of (den_binop o a b), s).
Proof.
  intros Ho Ha Hb. unfold multiply. apply both_constant_num.
  rewrite !not_complex_num, !is_number_num, !not_real_num by done. cbn [andb orb negb Z.eqb MODE_NORMAL]. rewrite unsigned_or.
  pose proof (to_int_zero a b Hb) as Hz. cbn zeta in Hz. pose proof (both_num ctx (unsigned a || unsigned b) a b s Ha Hb) as R.
  pose proof (uwrap_range 64 (nm_val a)) as Ra. pose proof (uwrap_range 64 (nm_val b)) as Rb.
  destruct Ho as [-> | Ho].
  - cbn [binop_sy Z.eqb Pos.eqb negb]. unfold ExprSpec.den_binop. destruct (unsigned a || unsigned b);
      rewrite (bind_runs _ _ _ _ _ (runs_ret _ _)); cbn [Z.eqb]; rewrite (bind_runs _ _ _ _ _ R); [apply (set_x64_val true)|apply (set_x64_val false)].
  - replace (negb (binop_sy o =? ch_star)) with true by (by destruct Ho as [-> | ->]).
    replace (binop_sy o =? ch_star) with false by (by destruct Ho as [-> | ->]).
    assert (Hd : den_binop o a b = if as_s b =? 0 then Throw ERR_INV_EXPRESSION else
      let u := unsigned a || unsigned b in let x := if u then as_u a else as_s a in let y := if u then as_u b else as_s b in
      if negb u && (x =? - 2 ^ 63) && (y =? -1) then Fault else Val (x64 u (if binop_sy o =? ch_slash then Z.quot x y else Z.rem x y))) by (by destruct Ho as [-> | ->]).
    rewrite Hd. clear Hd. cbn zeta. destruct (unsigned a || unsigned b);
      rewrite (bind_runs _ _ _ _ _ (to_int_num ctx b s Hb)); cbn beta iota; (destruct (as_s b =? 0) eqn:E; [done|]);
      rewrite (bind_runs _ _ _ _ _ R); cbn beta iota.
    + rewrite Hz. cbn [negb andb]. unfold as_u in *. rewrite Z.quot_div_nonneg, Z.rem_mod_nonneg by (apply Z.eqb_neq in Hz; lia). apply (set_x64_val true).
    + rewrite E. cbn [orb negb andb]. destruct (_ && _); [done|]. apply (set_x64_val false).
Qed.

(** A shift by a count that is not negative. *)
Lemma shift_value_num (left : bool) n cnt (s : Lex) : 0 <= cnt ->
  shift_value left n cnt s = if cnt <? 64 then (Val (if left then Z.shiftl n cnt else Z.shiftr n cnt), s) else (Fault, s).
Proof. intros Hc. unfold shift_value. rewrite (proj2 (Z.leb_le 0 cnt)) by done. cbn [andb]. by destruct (cnt <? 64). Qed.

Lemma as_s_range t : - 2 ^ 63 <= as_s t < 2 ^ 63.
Proof. by apply (swrap_range 64). Qed.

Lemma neg_count b : as_s b < 0 -> forall left n s,
  shift_value left n (swrap 64 (- as_s b)) s = if - as_s b <? 64 then (Val (if left then Z.shiftl n (- as_s b) else Z.shiftr n (- as_s b)), s) else (Fault, s).
Proof.
  intros Hn left n s. pose proof (as_s_range b) as Hr. destruct (Z.eqb_spec (as_s b) (- 2 ^ 63)) as [->|E]; [done|].
  rewrite swrap_small by lia. apply shift_value_num. lia.
Qed.

Lemma shift_num o a b s : o = BShl \/ o = BShr -> num_ok a -> num_ok b ->
  shift context MODE_NORMAL (binop_sy o) (of_num a) (of_num b) s = (value_of (den_binop o a b), s).
Proof.
  intros Ho Ha Hb. unfold shift. rewrite !is_whole_num by done. cbn [andb negb].
  change (is_cardinal (of_num a)) with (unsigned a). change (is_cardinal (of_num b)) with (unsigned b).
  set (n := if unsigned a then as_u a else as_s a). set (back := negb (unsigned b) && (as_s b <? 0)). set (cnt := if back then - as_s b else as_u b).
  assert (R1 : runs (if unsigned b then ret (0, of_num b) else to_int context MODE_NORMAL (of_num b)) s (if unsigned b then 0 else as_s b, of_num b) s).
  { destruct (unsigned b); [apply runs_ret|by apply to_int_num]. }
  rewrite (bind_runs _ _ _ _ _ R1). cbn beta iota. replace ((if unsigned b then 0 else as_s b) <? 0) with back by (unfold back; by destruct (unsigned b)).
  assert (R2 : runs (if unsigned a then to_uns context MODE_NORMAL (of_num a) else to_int context MODE_NORMAL (of_num a)) s (n, of_num a) s).
  { unfold n. destruct (unsigned a); [by apply to_uns_num|by apply to_int_num]. }
  rewrite (bind_runs _ _ _ _ _ R2). cbn beta iota.
  set (left := eqb (binop_sy o =? SY_SHL) (negb back)).
  assert (R3 : exists c, runs (if back then let! (n, x) := to_int context MODE_NORMAL (of_num b) in ret (swrap 64 (- n), x) else to_uns context MODE_NORMAL (of_num b)) s (c, of_num b) s /\
    forall n, shift_value left n c s = if cnt <? 64 then (Val (if left then Z.shiftl n cnt else Z.shiftr n cnt), s) else (Fault, s)).
  { unfold cnt. destruct back eqn:Eb.
    - exists (swrap 64 (- as_s b)). split; [eapply runs_bind; [by apply to_int_num|apply runs_ret]|]. intros n'. apply neg_count.
      unfold back in Eb. apply andb_true_iff in Eb as [_ Eb]. by apply Z.ltb_lt in Eb.
    - exists (as_u b). split; [by apply to_uns_num|]. intros n'. apply shift_value_num. by apply uwrap_range. }
  destruct R3 as (c & R3 & Hc). rewrite (bind_runs _ _ _ _ _ R3). cbn beta iota.
  assert (Hd : den_binop o a b = if cnt <? 64 then Val (x64 (unsigned a) (if left then Z.shiftl n cnt else Z.shiftr n cnt)) else Fault).
  { unfold left. destruct Ho as [-> | ->]; unfold ExprSpec.den_binop; fold back; fold cnt; fold n; by destruct back. }
  rewrite Hd. unfold bind. rewrite Hc. destruct (cnt <? 64); [|done].
  pose proof (set_x64 (unsigned a) (if left then Z.shiftl n cnt else Z.shiftr n cnt) a s) as R. cbn [value_of].
  unfold runs in R. rewrite <- R. change (is_cardinal (of_num a)) with (unsigned a). destruct (unsigned a) eqn:Hu; [|done]. apply Z.eqb_eq in Hu. by rewrite <- Hu.
Qed.

(** ** Comparisons and operators on bits *)

Lemma relate_num o a b s : o = BLt \/ o = BGt \/ o = BLe \/ o = BGe -> num_ok a -> num_ok b ->
  relate context MODE_NORMAL (binop_sy o) (of_num a) (of_num b) s = (value_of (den_binop o a b), s).
Proof.
  intros Ho Ha Hb. unfold relate. rewrite !not_array_num, !not_real_num by done. cbn [andb orb]. rewrite unsigned_or.
  set (u := unsigned a || unsigned b). set (x := if u then as_u a else as_s a). set (y := if u then as_u b else as_s b).
  assert (R : runs (if u then let! (a, b, v, _) := both (to_uns context) MODE_NORMAL (of_num a) (of_num b) in ret (compare_numbers (binop_sy o) a b, v)
                    else let! (a, b, v, _) := both (to_int context) MODE_NORMAL (of_num a) (of_num b) in ret (compare_numbers (binop_sy o) a b, v)) s
    (compare_numbers (binop_sy o) x y, of_num a) s).
  { pose proof (both_num ctx u a b s Ha Hb) as R. unfold x, y. destruct u; (eapply runs_bind; [exact R|]); apply runs_ret. }
  rewrite (bind_runs _ _ _ _ _ R). cbn beta iota.
  assert (Hd : exists c : bool, den_binop o a b = Val (truth c) /\ compare_numbers (binop_sy o) x y = Z.b2z c).
  { destruct Ho as [->|[->|[->| ->]]]; eexists; (split; [reflexivity|]); reflexivity. }
  destruct Hd as (c & -> & ->). apply (set_truth ctx Hword).
Qed.

Lemma equal_num o a b s : o = BEq \/ o = BNe -> num_ok a -> num_ok b ->
  equal context MODE_NORMAL (binop_sy o) (of_num a) (of_num b) s = (value_of (den_binop o a b), s).
Proof.
  intros Ho Ha Hb. unfold equal. rewrite !not_array_num, !not_real_num, !not_complex_num by done. cbn [andb orb].
  assert (R : runs (let! (a, b, v, _) := both (to_int context) MODE_NORMAL (of_num a) (of_num b) in ret (a =? b, v)) s (as_s a =? as_s b, of_num a) s).
  { eapply runs_bind; [exact (both_num ctx false a b s Ha Hb)|]. apply runs_ret. }
  rewrite (bind_runs _ _ _ _ _ R). cbn beta iota.
  assert (Hd : exists c : bool, den_binop o a b = Val (truth c) /\ Z.b2z (eqb (as_s a =? as_s b) (binop_sy o =? SY_EQU)) = Z.b2z c).
  { destruct Ho as [-> | ->]; eexists; (split; [reflexivity|]); by destruct (as_s a =? as_s b). }
  destruct Hd as (c & -> & ->). apply (set_truth ctx Hword).
Qed.

Lemma bitwise_num f a b s : num_ok a -> num_ok b -> let u := unsigned a || unsigned b in
  bitwise context f MODE_NORMAL 0 (of_num a) (of_num b) s = (Val (of_num (x64 u (f (if u then low a else as_s a) (if u then as_u b else as_s b)))), s).
Proof.
  intros Ha Hb u. unfold bitwise. rewrite !is_whole_num by done. cbn [andb negb]. rewrite unsigned_or. fold u. destruct u eqn:Hu.
  - rewrite recast_value by done. pose proof (both_num ctx true (recast a) b s (recast_ok a Ha) Hb) as R.
    rewrite (bind_runs _ _ _ _ _ R). cbn beta iota. rewrite as_u_recast by done. apply (set_x64 true _ (recast a)).
  - apply orb_false_iff in Hu as [Hua _]. destruct (class_cases a Ha) as [[_ E]|[Hc _]]; [congruence|].
    set (a' := Num TYPE_CLASS_INTEGER (nm_size a) (nm_val a)). change (set_class TYPE_CLASS_INTEGER (of_num a)) with (of_num a').
    assert (Ha' : num_ok a').
    { destruct Ha as [Hs [[E _]|[_ Hr]]]; [unfold unsigned in Hua; by rewrite E in Hua|]. split; [done|]. right. split; [by left|done]. }
    pose proof (both_num ctx false a' b s Ha' Hb) as R. rewrite (bind_runs _ _ _ _ _ R). cbn beta iota.
    apply (set_x64 false _ a').
Qed.

Lemma binop_num o a b s : num_ok a -> num_ok b ->
  binop_fn o MODE_NORMAL (binop_sy o) (of_num a) (of_num b) s = (value_of (den_binop o a b), s).
Proof.
  intros Ha Hb. destruct o; cbn [binop_fn]; first [apply multiply_num|apply add_num|apply shift_num|apply relate_num|apply equal_num|by apply bitwise_num]; auto.
Qed.

Lemma binop_ok o a b t : den_binop o a b = Val t -> num_ok t.
Proof.
  assert (Hx : forall u n, Val (x64 u n) = Val t -> num_ok t) by (intros u n [= <-]; apply num_x64).
  assert (Ht : forall c : bool, Val (truth c) = Val t -> num_ok t) by (intros c [= <-]; by apply (num_truth ctx)).
  destruct o; cbn [ExprSpec.den_binop]; try apply Hx; try apply Ht.
  1, 2: destruct (as_s b =? 0); [done|]; destruct (_ && _); [done|]; apply Hx.
  all: destruct (_ <? 64); [apply Hx|done].
Qed.
End Ops.
