(* ===== verification/ExprTokens.v ===== *)
(** * Reading the symbols of an expression (ExprLex.v, ExprSpec.v, services/expressions.c)

    The text of a list of symbols with white space is read as that list. *)

From S2P Require Import Prelude ExprValue ExprLex Expr ExprSpec ExprNum.

(** The current character and those after it. *)
Definition here (s : Lex) (rest : list Z) : Prop :=
  (1 <= lx_pos s)%nat /\ drop (lx_pos s - 1) (lx_text s) = rest ++ [0] /\ lx_ch s = deref (rest ++ [0]).

(** Only the position has changed. *)
Definition moved (s s' : Lex) : Prop := s' = set_pos (lx_pos s') (lx_ch s') s.

Lemma moved_trans s1 s2 s3 : moved s1 s2 -> moved s2 s3 -> moved s1 s3.
Proof. unfold moved. intros -> ->. done. Qed.

Lemma moved_val s s' : moved s s' -> lx_val s' = lx_val s.
Proof. by intros ->. Qed.

Section Tokens.
Context `{ExprEnv}.
Variable fuel : nat.

Notation X := (M Lex).
Implicit Types (s : Lex) (rest : list Z).

Lemma next_ch_runs s c rest : here s (c :: rest) -> exists s', runs next_ch s tt s' /\ here s' rest /\ moved s s'.
Proof.
  intros (Hp & Hd & Hc). exists (set_pos (S (lx_pos s)) (deref (rest ++ [0])) s).
  assert (Hd' : drop (lx_pos s) (lx_text s) = rest ++ [0]).
  { replace (lx_pos s) with (1 + (lx_pos s - 1))%nat by lia. rewrite Nat.add_comm, <- drop_drop, Hd. done. }
  split; [|split; [|done]].
  - unfold runs, next_ch, modify. replace (lx_text s !! lx_pos s) with (Some (deref (rest ++ [0]))); [done|].
    rewrite <- (Nat.add_0_r (lx_pos s)), <- lookup_drop, Hd'. by destruct rest.
  - split; [cbn; lia|]. cbn. by rewrite Nat.sub_0_r.
Qed.

Lemma the_ch_runs s rest : here s rest -> runs the_ch s (deref (rest ++ [0])) s.
Proof. intros (_ & _ & Hc). unfold runs, the_ch, gets. by rewrite Hc. Qed.

(** A change of the other fields. *)
Lemma here_fields s s' rest : here s rest -> lx_text s' = lx_text s -> lx_pos s' = lx_pos s -> lx_ch s' = lx_ch s -> here s' rest.
Proof. unfold here. by intros H1 -> -> ->. Qed.

(** ** Digits *)

Lemma digits_runs (test : Z -> bool) (next : X Z) (dig : Z -> Z) (step : Z -> Z -> Z) l rest n v s :
  (forall s d rest, here s (d :: rest) -> test d = true -> exists s', runs next s (dig d) s' /\ here s' rest /\ moved s s') ->
  Forall (fun c => test c = true) l -> test (deref (rest ++ [0])) = false -> (length l < n)%nat -> here s (l ++ rest) ->
  exists s', runs (digits_loop n test next step v) s (fold_left (fun v d => uwrap 64 (step v (dig d))) l v) s' /\ here s' rest /\ moved s s'.
Proof.
  intros Hnext Hl Hr. revert n v s. induction Hl as [|d l Hd _ IH]; intros n v s Hn Hs; (destruct n as [|n]; [cbn in Hn; lia|]); cbn [digits_loop].
  - exists s. split; [|by destruct s]. eapply runs_bind; [by apply the_ch_runs|]. cbn beta. cbn [app]. rewrite Hr. apply runs_ret.
  - destruct (Hnext s d (l ++ rest) Hs Hd) as (s1 & R1 & H1 & M1). destruct (IH n (uwrap 64 (step v (dig d))) s1) as (s2 & R2 & H2 & M2); [cbn in Hn; lia|done|].
    exists s2. split; [|split; [done|by eapply moved_trans]]. eapply runs_bind; [by apply the_ch_runs|]. cbn beta. cbn [app deref hd]. rewrite Hd.
    eapply runs_bind; [exact R1|]. exact R2.
Qed.

Lemma next_dec_runs s d rest : here s (d :: rest) -> is_digit d = true -> exists s', runs next_dec s (d - ch_0) s' /\ here s' rest /\ moved s s'.
Proof.
  intros Hs Hd. destruct (next_ch_runs s d rest Hs) as (s1 & R1 & H1 & M1). exists s1. split; [|done]. unfold next_dec.
  eapply runs_bind; [by apply the_ch_runs|]. eapply runs_bind; [exact R1|]. cbn [app deref hd]. rewrite Hd. apply runs_ret.
Qed.

Lemma next_oct_runs s d rest : here s (d :: rest) -> is_oct d = true -> exists s', runs next_oct s (d - ch_0) s' /\ here s' rest /\ moved s s'.
Proof.
  intros Hs Hd. destruct (next_ch_runs s d rest Hs) as (s1 & R1 & H1 & M1). exists s1. split; [|done]. unfold next_oct.
  eapply runs_bind; [by apply the_ch_runs|]. eapply runs_bind; [exact R1|]. cbn [app deref hd]. unfold is_oct in Hd. rewrite Hd. apply runs_ret.
Qed.

Lemma next_hex_runs s d rest : here s (d :: rest) -> is_hex d = true -> exists s', runs next_hex s (default 0 (hex_value d)) s' /\ here s' rest /\ moved s s'.
Proof.
  intros Hs Hd. destruct (next_ch_runs s d rest Hs) as (s1 & R1 & H1 & M1). exists s1. split; [|done]. unfold next_hex.
  eapply runs_bind; [by apply the_ch_runs|]. eapply runs_bind; [exact R1|]. cbn [app deref hd]. unfold is_hex in Hd. destruct (hex_value d); [|done]. apply runs_ret.
Qed.

(** The loops compute the number, modulo 2^64. *)
Lemma fold_positional base (dig : Z -> Z) (step : Z -> Z -> Z) l v :
  (forall v d, d ∈ l -> 0 <= v < 2 ^ 64 -> uwrap 64 (step v (dig d)) = uwrap 64 (base * v + dig d)) -> 0 <= v < 2 ^ 64 ->
  fold_left (fun v d => uwrap 64 (step v (dig d))) l v = uwrap 64 (fold_left (fun n d => base * n + dig d) l v).
Proof.
  intros Hstep Hv. transitivity (fold_left (fun v d => uwrap 64 (base * v + dig d)) l v).
  - revert v Hv Hstep. induction l as [|d l IH]; intros v Hv Hstep; [done|]. cbn. rewrite Hstep by (done || left). apply IH; [by apply uwrap_range|].
    intros v' d' Hd'. apply Hstep. by right.
  - assert (G : forall l x y, x = uwrap 64 y -> fold_left (fun v d => uwrap 64 (base * v + dig d)) l x = uwrap 64 (fold_left (fun n d => base * n + dig d) l y)).
    { clear. intros l. induction l as [|d l IH]; intros x y ->; [done|]. cbn. apply IH. unfold uwrap. by rewrite <- Zplus_mod_idemp_l, Zmult_mod_idemp_r, Zplus_mod_idemp_l. }
    apply G. symmetry. by apply uwrap_small.
Qed.

Lemma lor_digit v k d : 0 <= k -> 0 <= d < 2 ^ k -> Z.lor (Z.shiftl v k) d = 2 ^ k * v + d.
Proof.
  intros Hk Hd. rewrite Z.shiftl_mul_pow2 by done. rewrite Z.mul_comm. 
  rewrite <- Z.add_lor_land. replace (Z.land (2 ^ k * v) d) with 0; [lia|]. symmetry. destruct (Z.eqb_spec d 0) as [->|Hn]; [apply Z.land_0_r|].
  apply Z.bits_inj'. intros i Hi. rewrite Z.land_spec, Z.bits_0. destruct (Z.lt_ge_cases i k); [by rewrite Z.mul_comm, Z.mul_pow2_bits_low|].
  rewrite (Z.bits_above_log2 d); [by rewrite andb_false_r|lia|].
  apply Z.log2_lt_pow2; [lia|]. apply Z.lt_le_trans with (2 ^ k); [lia|]. apply Z.pow_le_mono_r; lia.
Qed.

Lemma range_uwrap v : 0 <= uwrap 64 v < 2 ^ 64.
Proof. by apply uwrap_range. Qed.

Lemma hex_range d : is_hex d = true -> 0 <= default 0 (hex_value d) < 2 ^ 4.
Proof.
  unfold is_hex, hex_value. destruct (is_digit d) eqn:E1; [unfold is_digit in E1; cbn; lia|].
  destruct ((ch_A <=? d) && (d <=? ch_F)) eqn:E2; [cbn; lia|]. destruct ((ch_a <=? d) && (d <=? ch_f)) eqn:E3; [cbn; lia|done].
Qed.

Lemma oct_range d : is_oct d = true -> 0 <= d - ch_0 < 2 ^ 3.
Proof. unfold is_oct. lia. Qed.

(** ** Suffixes *)

(** The changes that the letters at the end of a literal make to its class. *)
Lemma suffix_runs (on_u : X unit) (g : Value -> Value) l rest n s :
  (forall s, on_u s = (Val tt, set_val (g (lx_val s)) s)) -> (forall v, g (g v) = g v) ->
  Forall (fun c => is_suffix c = true) l -> is_suffix (deref (rest ++ [0])) = false -> (length l < n)%nat -> here s (l ++ rest) ->
  exists s', runs (suffix_loop n on_u) s tt s' /\ here s' rest /\ lx_val s' = if has_u l then g (lx_val s) else lx_val s.
Proof.
  intros Hu Hg Hl Hr. revert n s. induction Hl as [|c l Hc _ IH]; intros n s Hn Hs; (destruct n as [|n]; [cbn in Hn; lia|]); cbn [suffix_loop].
  - exists s. split; [|done]. eapply runs_bind; [by apply the_ch_runs|]. cbn beta. cbn [app]. unfold is_suffix in Hr. cbn [existsb] in Hr.
    apply orb_false_iff in Hr as [H1 Hr]. apply orb_false_iff in Hr as [H2 Hr]. apply orb_false_iff in Hr as [H3 Hr]. apply orb_false_iff in Hr as [H4 _].
    rewrite H1, H2, H3, H4. apply runs_ret.
  - assert (Hcase : (c =? ch_l) || (c =? 76) = true \/ (c =? ch_l) || (c =? 76) = false /\ (c =? ch_u) || (c =? 85) = true).
    { unfold is_suffix in Hc. cbn [existsb] in Hc. destruct (c =? ch_l), (c =? 76), (c =? ch_u), (c =? 85); auto. }
    set (s0 := set_flags (Z.lor (lx_flags s) VAL_FLAG_L) s). set (s0' := set_val (g (lx_val s)) s).
    set (s1' := set_flags (Z.lor (lx_flags s0') VAL_FLAG_U) s0').
    destruct Hcase as [Hcase|[Hl' Hcase]].
    + destruct (next_ch_runs s0 c (l ++ rest)) as (s1 & R1 & H1 & M1); [by apply (here_fields s)|].
      destruct (IH n s1) as (s2 & R2 & H2 & V2); [cbn in Hn; lia|done|]. exists s2. split; [|split; [done|]].
      * eapply runs_bind; [by apply the_ch_runs|]. cbn beta. cbn [app deref hd]. rewrite Hcase. eapply runs_bind; [apply runs_modify|]. eapply runs_bind; [exact R1|exact R2].
      * rewrite V2, (moved_val _ _ M1). unfold has_u. cbn [existsb]. by replace ((c =? ch_u) || (c =? 85)) with false by lia.
    + destruct (next_ch_runs s1' c (l ++ rest)) as (s1 & R1 & H1 & M1); [by apply (here_fields s)|].
      destruct (IH n s1) as (s2 & R2 & H2 & V2); [cbn in Hn; lia|done|]. exists s2. split; [|split; [done|]].
      * eapply runs_bind; [by apply the_ch_runs|]. cbn beta. cbn [app deref hd]. rewrite Hl', Hcase. eapply runs_bind; [exact (Hu s)|]. fold s0'.
        eapply runs_bind; [apply runs_modify|]. eapply runs_bind; [exact R1|exact R2].
      * rewrite V2, (moved_val _ _ M1). cbn [s1' s0' set_flags set_val lx_val]. unfold has_u. cbn [existsb]. rewrite Hcase. cbn [orb]. rewrite Hg. by destruct (existsb _ l).
Qed.

(** ** Literals *)

(** What may follow a literal. *)
Definition delimited rest : Prop := is_name_character (deref (rest ++ [0])) = false /\ deref (rest ++ [0]) <> ch_dot.

Lemma delimited_facts rest : delimited rest -> let c := deref (rest ++ [0]) in
  is_digit c = false /\ is_oct c = false /\ is_hex c = false /\ is_fp c = false /\ is_suffix c = false /\ (c =? 120) = false.
Proof.
  intros [Hn Hd] c. fold c in Hn, Hd. unfold is_name_character, is_digit in Hn. unfold is_hex, hex_value.
  replace (is_digit c) with false by (unfold is_digit; lia). replace ((ch_A <=? c) && (c <=? ch_F)) with false by lia. replace ((ch_a <=? c) && (c <=? ch_f)) with false by lia.
  unfold is_oct, is_fp, is_suffix. cbn [existsb]. split_and!; lia.
Qed.

Lemma set_small size c n m s v : size ∈ [1; 2; 4; 8] -> le_bytes (Z.to_nat size) n = le_bytes (Z.to_nat size) m ->
  v_type_class v = c -> v = set_class c ini_value -> lx_val s = v ->
  runs (mod_val (set_int_value size n) ;! val_constant) s tt (set_val (of_num (Num c size m)) s).
Proof.
  intros Hs E Hc Hv Hl. unfold runs, mod_val at 1, set_int_value. rewrite size_existsb by done.
  unfold val_constant, mod_val, bind, gets, modify, ret. cbn. rewrite Hl.
  rewrite Hv. unfold set_value, set_constant, of_num. cbn. rewrite order_length, le_bytes_length, Z2Nat.id by (apply size_cases in Hs; lia). by rewrite E.
Qed.

Lemma int_size_ok v : int_size v ∈ [1; 2; 4; 8].
Proof. unfold int_size. repeat (destruct (_ <=? _); [rewrite !elem_of_cons; auto|]). rewrite !elem_of_cons. auto 6. Qed.

Lemma uint_size_ok v : uint_size v ∈ [1; 2; 4; 8].
Proof. unfold uint_size. repeat (destruct (_ <=? _); [rewrite !elem_of_cons; auto|]). rewrite !elem_of_cons. auto 6. Qed.

(** The literal as the value of the symbol. *)
Definition lexed (t : option token) s : Prop :=
  match t with
  | None => lx_sy s = 0
  | Some (TOp sy) => lx_sy s = sy
  | Some (TLit l) => lx_sy s = SY_VAL /\ lx_val s = of_num (lit_num l)
  end.

Lemma put_small c v s : c = TYPE_CLASS_CARDINAL \/ c = TYPE_CLASS_INTEGER -> lx_val s = set_class c ini_value ->
  runs (mod_val (set_int_value (if c =? TYPE_CLASS_INTEGER then int_size v else uint_size v) v) ;! val_constant) s tt (set_val (of_num (small c v)) s).
Proof.
  intros [-> | ->] Hl; cbn [Z.eqb TYPE_CLASS_CARDINAL TYPE_CLASS_INTEGER Pos.eqb]; (eapply set_small; [| | | |exact Hl]; [| |reflexivity|reflexivity]).
  - apply uint_size_ok.
  - done.
  - apply int_size_ok.
  - symmetry. pose proof (size_cases _ (int_size_ok v)). apply le_bytes_swrap; [rewrite Z2Nat.id; lia|lia].
Qed.

Lemma small_ok c v : c = TYPE_CLASS_CARDINAL \/ c = TYPE_CLASS_INTEGER -> 0 <= v < 2 ^ 64 -> num_ok (small c v).
Proof.
  intros [-> | ->] Hv; unfold small; cbn [Z.eqb TYPE_CLASS_CARDINAL TYPE_CLASS_INTEGER Pos.eqb].
  - split; [apply uint_size_ok|]. left. split; [done|]. cbn [nm_size nm_val]. unfold uint_size.
    destruct (Z.leb_spec v 0xff); [lia|]. destruct (Z.leb_spec v 0xffff); [lia|]. destruct (Z.leb_spec v 0xffffffff); lia.
  - split; [apply int_size_ok|]. right. split; [by left|]. cbn [nm_size nm_val]. apply swrap_range. pose proof (size_cases _ (int_size_ok v)). lia.
Qed.

Lemma lit_num_ok l : num_ok (lit_num l).
Proof.
  destruct l as [ds sfx|ds sfx|[|d ds] sfx]; cbn [lit_num].
  - apply small_ok; [destruct (has_u sfx); auto|apply range_uwrap].
  - apply small_ok; [auto|apply range_uwrap].
  - split; [repeat constructor|]. right. split; [by left|done].
  - apply small_ok; [auto|apply range_uwrap].
Qed.

Lemma suffix_head sfx rest : Forall (fun c => is_suffix c = true) sfx -> delimited rest -> let c := deref ((sfx ++ rest) ++ [0]) in
  is_digit c = false /\ is_oct c = false /\ is_hex c = false /\ is_fp c = false /\ (c =? 120) = false.
Proof.
  intros Hs Hr. destruct Hs as [|c sfx Hc _]; [apply delimited_facts in Hr; naive_solver|]. cbn [app deref hd].
  unfold is_suffix in Hc. cbn [existsb] in Hc. unfold is_hex, hex_value, is_digit, is_oct, is_fp.
  replace ((ch_0 <=? c) && (c <=? ch_9)) with false by lia. replace ((ch_A <=? c) && (c <=? ch_F)) with false by lia. replace ((ch_a <=? c) && (c <=? ch_f)) with false by lia.
  split_and!; lia.
Qed.

Notation val_rest := (suffix_loop fuel).

Lemma decimal_runs d ds sfx rest s : lit_ok (LDec (d :: ds) sfx) -> delimited rest -> (length (ds ++ sfx) < fuel)%nat -> here s (ds ++ sfx ++ rest) ->
  exists s', runs (decimal_number fuel d) s tt s' /\ here s' rest /\ lexed (Some (TLit (LDec (d :: ds) sfx))) s'.
Proof.
  intros (_ & Hd0 & Hds & Hsfx) Hr Hn Hs. cbn in Hd0. apply Forall_cons in Hds as [Hd Hds]. rewrite length_app in Hn.
  destruct (suffix_head sfx rest Hsfx Hr) as (E1 & _ & _ & E2 & _). destruct (delimited_facts rest Hr) as (_ & _ & _ & _ & E3 & _).
  destruct (digits_runs is_digit next_dec (fun d => d - ch_0) (fun v d => v * 10 + d) ds (sfx ++ rest) fuel (d - ch_0) s next_dec_runs Hds E1) as (s1 & R1 & H1 & M1); [lia|done|].
  set (v := fold_left _ ds _) in R1. set (s2 := set_val (set_class TYPE_CLASS_INTEGER ini_value) s1).
  destruct (suffix_runs (val_class TYPE_CLASS_CARDINAL) (set_class TYPE_CLASS_CARDINAL) sfx rest fuel s2) as (s3 & R3 & H3 & V3); try done; [lia|].
  set (c := if has_u sfx then TYPE_CLASS_CARDINAL else TYPE_CLASS_INTEGER).
  assert (Hv : v = positional 10 (fun d => d - ch_0) (d :: ds)).
  { unfold v, positional. cbn [fold_left]. rewrite (fold_positional 10 (fun d => d - ch_0) (fun v d => v * 10 + d)).
    - f_equal.
    - intros x y _ _. f_equal. lia.
    - unfold is_digit in Hd. lia. }
  assert (V3' : lx_val s3 = set_class c ini_value) by (rewrite V3; unfold c; by destruct (has_u sfx)).
  exists (set_sy SY_VAL (set_val (of_num (small c v)) s3)). split; [|split; [by apply (here_fields s3)|split; [done|]]].
  - unfold decimal_number. eapply runs_bind; [apply runs_gets|]. eapply runs_bind; [exact R1|]. eapply runs_bind; [apply runs_modify|].
    eapply runs_bind; [apply the_ch_runs; by apply (here_fields s1)|]. cbn beta. rewrite E2.
    assert (Hput : runs (mod_val (set_int_value (if v_type_class (lx_val s3) =? TYPE_CLASS_INTEGER then int_size v else uint_size v) v) ;! val_constant) s3 tt (set_val (of_num (small c v)) s3)).
    { rewrite V3'. cbn [set_class v_type_class]. apply put_small; [unfold c; destruct (has_u sfx); auto|done]. }
    apply runs_bind_inv in Hput as ([] & s4 & P1 & P2).
    eapply (runs_bind _ _ _ tt s4); [|eapply runs_bind; [exact P2|apply runs_modify]].
    eapply runs_bind; [reflexivity|]. fold s2. eapply runs_bind; [exact R3|]. eapply runs_bind; [apply runs_gets|]. exact P1.
  - cbn [lx_val set_sy set_val lit_num]. by rewrite Hv.
Qed.

(** The end of a literal that starts with 0. *)
Lemma zero_tail v m c sfx rest s : le_bytes (Z.to_nat (uint_size v)) v = le_bytes (Z.to_nat (uint_size v)) m -> lx_val s = set_class c ini_value ->
  Forall (fun c => is_suffix c = true) sfx -> delimited rest -> (length sfx < fuel)%nat -> here s (sfx ++ rest) ->
  exists s', runs (mod_val (set_int_value (uint_size v) v) ;! val_constant ;! suffix_loop fuel (ret tt) ;! put_sy SY_VAL) s tt s' /\ here s' rest /\
    lx_sy s' = SY_VAL /\ lx_val s' = of_num (Num c (uint_size v) m).
Proof.
  intros Hm Hl Hsfx Hr Hn Hs. pose proof (set_small (uint_size v) c v m s (lx_val s) (uint_size_ok v) Hm ltac:(by rewrite Hl) Hl eq_refl) as R1.
  destruct (delimited_facts rest Hr) as (_ & _ & _ & _ & E3 & _).
  destruct (suffix_runs (ret tt) id sfx rest fuel (set_val (of_num (Num c (uint_size v) m)) s)) as (s2 & R2 & H2 & V2); try done; [by intros []|].
  exists (set_sy SY_VAL s2). split; [|split; [by apply (here_fields s2)|split; [done|]]].
  - apply runs_bind_inv in R1 as ([] & s1 & P1 & P2). eapply runs_bind; [exact P1|]. eapply runs_bind; [exact P2|]. eapply runs_bind; [exact R2|]. apply runs_modify.
  - cbn [set_sy lx_val]. rewrite V2. by destruct (has_u sfx).
Qed.

Lemma digits_forall (P : Z -> Prop) (test : Z -> bool) l : (forall d, test d = true -> P d) -> Forall (fun c => test c = true) l -> forall d, d ∈ l -> P d.
Proof. intros Hp Hl d Hd. apply Hp. by eapply Forall_forall in Hl. Qed.

Lemma hex_runs ds sfx rest s : lit_ok (LHex ds sfx) -> delimited rest -> (length (ds ++ sfx) < fuel)%nat -> here s (120 :: ds ++ sfx ++ rest) ->
  exists s', runs (zero_number fuel) s tt s' /\ here s' rest /\ lexed (Some (TLit (LHex ds sfx))) s'.
Proof.
  intros (Hds & Hsfx) Hr Hn Hs. rewrite length_app in Hn. destruct (suffix_head sfx rest Hsfx Hr) as (_ & _ & E1 & _).
  set (s0 := set_val ini_value s). destruct (next_ch_runs s0 120 (ds ++ sfx ++ rest)) as (s1 & R1 & H1 & M1); [by apply (here_fields s)|].
  set (s2 := set_val (set_class TYPE_CLASS_CARDINAL ini_value) (set_flags (Z.lor (lx_flags s1) VAL_FLAG_X) s1)).
  destruct (digits_runs is_hex next_hex (fun d => default 0 (hex_value d)) (fun v d => Z.lor (Z.shiftl v 4) d) ds (sfx ++ rest) fuel 0 s2 next_hex_runs Hds E1) as (s3 & R3 & H3 & M3); [lia|by apply (here_fields s1)|].
  rewrite (fold_positional 16 (fun d => default 0 (hex_value d)) (fun v d => Z.lor (Z.shiftl v 4) d)) in R3;
    [|intros v d Hd _; f_equal; rewrite lor_digit; [done|done|apply hex_range; by eapply (digits_forall (fun d => is_hex d = true))]|lia].
  fold (positional 16 (fun d => default 0 (hex_value d)) ds) in R3. set (v := positional 16 _ ds) in R3.
  destruct (zero_tail v v TYPE_CLASS_CARDINAL sfx rest s3) as (s4 & R4 & H4 & L4); try done; [by rewrite (moved_val _ _ M3)|lia|].
  exists s4. split; [|done]. unfold zero_number. eapply runs_bind; [apply runs_gets|]. eapply runs_bind; [apply runs_modify|]. fold s0.
  eapply runs_bind; [apply the_ch_runs; by apply (here_fields s)|]. cbn [app deref hd]. change (is_fp 120) with false. cbn [Z.eqb Pos.eqb].
  eapply runs_bind; [|exact R4]. eapply runs_bind; [exact R1|]. eapply runs_bind; [apply runs_modify|].
  eapply (runs_bind _ _ _ tt s2); [|exact R3]. unfold runs, val_class, mod_val, bind, gets, modify, ret, s2. cbn. by rewrite (moved_val _ _ M1).
Qed.

Lemma oct_runs ds sfx rest s : lit_ok (LOct ds sfx) -> delimited rest -> (length (ds ++ sfx) < fuel)%nat -> here s (ds ++ sfx ++ rest) ->
  exists s', runs (zero_number fuel) s tt s' /\ here s' rest /\ lexed (Some (TLit (LOct ds sfx))) s'.
Proof.
  intros (Hds & Hsfx) Hr Hn Hs. rewrite length_app in Hn. destruct (suffix_head sfx rest Hsfx Hr) as (_ & E1 & _ & E2 & E3).
  set (c := match ds with [] => TYPE_CLASS_INTEGER | _ => TYPE_CLASS_CARDINAL end).
  set (ch := deref ((ds ++ sfx ++ rest) ++ [0])).
  assert (Hch : is_oct ch = match ds with [] => false | _ => true end /\ is_fp ch = false /\ (ch =? 120) = false).
  { unfold ch. destruct Hds as [|d ds Hd _]; [done|]. cbn [app deref hd]. rewrite Hd. unfold is_oct in Hd. unfold is_fp. split_and!; lia. }
  destruct Hch as (C1 & C2 & C3). set (s0 := set_val ini_value s).
  set (s2 := (if is_oct ch then set_flags (Z.lor (lx_flags s) VAL_FLAG_X) else id) (set_val (set_class c ini_value) s0)).
  assert (H2 : here s2 (ds ++ sfx ++ rest)) by (unfold s2; destruct (is_oct ch); by apply (here_fields s)).
  destruct (digits_runs is_oct next_oct (fun d => d - ch_0) (fun v d => Z.lor (Z.shiftl v 3) d) ds (sfx ++ rest) fuel 0 s2 next_oct_runs Hds E1) as (s3 & R3 & H3 & M3); [lia|done|].
  rewrite (fold_positional 8 (fun d => d - ch_0) (fun v d => Z.lor (Z.shiftl v 3) d)) in R3;
    [|intros v d Hd _; f_equal; rewrite lor_digit; [done|done|apply oct_range; by eapply (digits_forall (fun d => is_oct d = true))]|lia].
  fold (positional 8 (fun d => d - ch_0) ds) in R3. set (v := positional 8 _ ds) in R3.
  destruct (zero_tail v v c sfx rest s3) as (s4 & R4 & H4 & L4 & V4); try done; [rewrite (moved_val _ _ M3); unfold s2; by destruct (is_oct ch)|lia|].
  exists s4. split; [|split; [done|split; [done|]]].
  - unfold zero_number. eapply runs_bind; [apply runs_gets|]. eapply runs_bind; [apply runs_modify|]. fold s0.
    eapply runs_bind; [apply the_ch_runs; by apply (here_fields s)|]. fold ch. rewrite C2, C3.
    eapply runs_bind; [|exact R4]. eapply runs_bind; [reflexivity|]. eapply (runs_bind _ _ _ tt s2); [|exact R3]. unfold s2, c. rewrite C1. by destruct ds.
  - rewrite V4. by destruct ds.
Qed.

(** ** Operators *)

Definition operators : list Z :=
  [ch_lpar; ch_rpar; 63; ch_colon; ch_plus; ch_minus; 33; 126; ch_star; ch_slash; 37; SY_SHL; SY_SHR; 60; 62; SY_LEQ; SY_GEQ; SY_EQU; SY_NEQ; 38; 94; 124; SY_AND; SY_OR].

Lemma if_next_no c (m k : X unit) rest s : here s rest -> deref (rest ++ [0]) <> c -> if_next c m k s = k s.
Proof.
  intros Hs Hc. unfold if_next. rewrite (bind_runs _ _ _ _ _ (the_ch_runs s rest Hs)). by rewrite (proj2 (Z.eqb_neq _ _) Hc).
Qed.

Lemma if_next_yes c (m k : X unit) rest s : here s (c :: rest) -> exists s', if_next c m k s = m s' /\ here s' rest.
Proof.
  intros Hs. destruct (next_ch_runs s c rest Hs) as (s' & R & H' & _). exists s'. split; [|done].
  unfold if_next. rewrite (bind_runs _ _ _ _ _ (the_ch_runs s _ Hs)). cbn [app deref hd]. rewrite Z.eqb_refl. by rewrite (bind_runs _ _ _ _ _ R).
Qed.

(** The end of the text or white space: no operator goes on. *)
Definition ends rest : Prop := deref (rest ++ [0]) = 0 \/ blank (deref (rest ++ [0])) = true.

Lemma ends_not rest c : ends rest -> c <> 0 -> blank c = false -> deref (rest ++ [0]) <> c.
Proof. unfold ends. intros Hr Hc Hb <-. destruct Hr; congruence. Qed.

Ltac no_next rest := rewrite (if_next_no _ _ _ rest) by (done || (apply ends_not; done)).

Definition reads sy rest s : Prop := exists s', runs (symbol fuel (deref (op_text sy))) s tt s' /\ here s' rest /\ lx_sy s' = sy.

Lemma one_reads sy rest s : (forall s, here s rest -> symbol fuel (deref (op_text sy)) s = put_sy sy s) -> here s rest -> reads sy rest s.
Proof.
  intros Hm Hs. exists (set_sy sy s). split; [unfold runs; by rewrite Hm|]. split; [by apply (here_fields s)|done].
Qed.

Lemma two_reads sy c (m k : X unit) rest s : symbol fuel (deref (op_text sy)) s = if_next c m k s -> here s (c :: rest) ->
  (forall s1, here s1 rest -> m s1 = put_sy sy s1) -> reads sy rest s.
Proof.
  intros E Hc Hm. destruct (if_next_yes c m k rest s Hc) as (s1 & E1 & H1). exists (set_sy sy s1). split; [unfold runs; rewrite E, E1; by apply Hm|].
  split; [by apply (here_fields s1)|done].
Qed.

(** One symbol, after its first character. *)
Lemma operators_read : Forall (fun sy => forall rest s, single sy = true \/ ends rest -> here s (tl (op_text sy) ++ rest) -> reads sy rest s) operators.
Proof.
  unfold operators. repeat apply Forall_cons_2; try apply Forall_nil_2; intros rest s Hend Hs; cbn [tl op_text] in Hs; first
    [ apply one_reads; [reflexivity|exact Hs]
    | destruct Hend as [Hend|Hend]; [discriminate Hend|] ].
  all: first
    [ apply one_reads; [|exact Hs]; clear s Hs; intros s Hs; cbv [symbol]; cbn -[if_next put_sy]; repeat (rewrite (if_next_no _ _ _ rest) by (done || (apply ends_not; done))); reflexivity
    | eapply (two_reads _ _ _ _ rest); [reflexivity|exact Hs|]; clear s Hs; intros s Hs; repeat (rewrite (if_next_no _ _ _ rest) by (done || (apply ends_not; done))); reflexivity
    | eapply (two_reads _ ch_eq); [apply (if_next_no _ _ _ (ch_eq :: rest)); [exact Hs|done]|exact Hs|reflexivity] ].
Qed.

(** ** Lists of symbols *)

Lemma blank_runs b rest s n : Forall (fun c => blank c = true) b -> here s (b ++ rest) -> (length b < n)%nat ->
  exists n' s', next_sy_loop fuel n s = next_sy_loop fuel (S n') s' /\ here s' rest.
Proof.
  intros Hb. revert n s. induction Hb as [|c b Hc _ IH]; intros n s Hs Hn; (destruct n as [|n]; [cbn in Hn; lia|]).
  - by exists n, s.
  - set (s0 := set_sy_pos (lx_pos s - 1) (set_flags 0 s)). destruct (next_ch_runs s0 c (b ++ rest)) as (s1 & R1 & H1 & _); [by apply (here_fields s)|].
    destruct (IH n s1 H1) as (n' & s2 & E & H2); [cbn in Hn; lia|]. exists n', s2. split; [|done]. rewrite <- E. cbn [next_sy_loop].
    rewrite (bind_runs _ _ _ _ _ (the_ch_runs s _ Hs)). cbn [app deref hd]. rewrite (bind_runs _ _ _ _ _ (runs_modify _ _)). fold s0.
    rewrite (bind_runs _ _ _ _ _ R1). by rewrite Hc.
Qed.

Definition tok_ok (t : token) : Prop := match t with TOp sy => sy ∈ operators | TLit l => lit_ok l end.

Lemma op_head sy rest : sy ∈ operators -> delimited (op_text sy ++ rest) /\ exists c, op_text sy = c :: tl (op_text sy) /\ blank c = false.
Proof.
  assert (HF : Forall (fun sy => forall r, delimited (op_text sy ++ r) /\ exists c, op_text sy = c :: tl (op_text sy) /\ blank c = false) operators).
  { unfold operators. repeat apply Forall_cons_2; try apply Forall_nil_2; intros r; (split; [by split|by eexists]). }
  rewrite Forall_forall in HF. intros Hsy. by apply HF.
Qed.

Lemma ends_after b rest : Forall (fun c => blank c = true) b -> b <> [] -> ends (b ++ rest).
Proof. intros [|c l Hc _] Hn; [done|]. right. exact Hc. Qed.

Lemma ends_delimited rest : ends rest -> delimited rest.
Proof.
  unfold ends, delimited. intros [->|Hb]; [by split|]. unfold blank in Hb. cbn [existsb] in Hb. unfold is_name_character, is_digit. split; lia.
Qed.

Lemma next_ch_end s : here s [] -> runs next_ch s tt s.
Proof.
  intros (Hp & Hd & _). unfold runs, next_ch, modify. replace (lx_text s !! lx_pos s) with (@None Z); [done|]. symmetry. apply lookup_ge_None.
  apply (f_equal length) in Hd. rewrite length_drop in Hd. cbn in Hd. lia.
Qed.

(** A digit starts a number. *)
Lemma symbol_digit d : is_digit d = true -> d <> ch_0 -> forall s, symbol fuel d s = decimal_number fuel d s.
Proof.
  unfold is_digit. intros Hd Hn s. assert (Hc : d ∈ [49; 50; 51; 52; 53; 54; 55; 56; 57]) by (rewrite !elem_of_cons; lia).
  assert (HF : Forall (fun d => symbol fuel d s = decimal_number fuel d s) [49; 50; 51; 52; 53; 54; 55; 56; 57]) by (repeat apply Forall_cons_2; try apply Forall_nil_2; reflexivity).
  rewrite Forall_forall in HF. by apply HF.
Qed.

Lemma lit_runs l rest s : lit_ok l -> delimited rest -> (length (lit_text l) < fuel)%nat -> here s (tl (lit_text l) ++ rest) ->
  exists s', runs (symbol fuel (deref (lit_text l))) s tt s' /\ here s' rest /\ lexed (Some (TLit l)) s'.
Proof.
  intros Hl Hr Hn Hs. destruct l as [ds sfx|ds sfx|ds sfx]; cbn [lit_text deref hd tl] in *.
  - pose proof Hl as (Hne & H0 & Hds & _). destruct ds as [|d ds]; [done|]. cbn in H0. apply Forall_cons in Hds as [Hd _]. cbn [app deref hd tl length] in *.
    rewrite <- (assoc_L (++)) in Hs. destruct (decimal_runs d ds sfx rest s) as (s' & R & Hs'); [done|done|lia|done|]. exists s'. split; [|done].
    unfold runs. by rewrite symbol_digit.
  - cbn [app] in Hs. rewrite <- (assoc_L (++)) in Hs. cbn [length] in Hn. destruct (hex_runs ds sfx rest s) as (s' & R & Hs'); [done|done|lia|done|by exists s'].
  - rewrite <- (assoc_L (++)) in Hs. cbn [length] in Hn. destruct (oct_runs ds sfx rest s) as (s' & R & Hs'); [done|done|lia|done|by exists s'].
Qed.

Lemma lit_head l : lit_ok l -> exists c, lit_text l = c :: tl (lit_text l) /\ blank c = false.
Proof.
  intros Hl. destruct l as [ds sfx|ds sfx|ds sfx]; cbn [lit_text tl]; [|by eexists|by eexists]. destruct Hl as (Hne & _ & Hds & _). destruct ds as [|d ds]; [done|].
  apply Forall_cons in Hds as [Hd _]. exists d. split; [done|]. unfold is_digit in Hd. unfold blank. cbn [existsb]. lia.
Qed.

Lemma tok_head t : tok_ok t -> exists c, tok_text t = c :: tl (tok_text t) /\ blank c = false.
Proof. destruct t as [sy|l]; [apply (op_head sy [])|apply lit_head]. Qed.

(** What comes after a symbol does not belong to it. *)
Lemma spaced_after t b ts : spaced ((t, b) :: ts) -> Forall (fun x => tok_ok (fst x)) ts ->
  match t with TOp sy => single sy = true \/ ends (b ++ spell ts) | TLit _ => delimited (b ++ spell ts) end.
Proof.
  intros (Hb & Hc & _) Hok. destruct Hc as [Hc|[->|Hc]].
  - pose proof (ends_after b (spell ts) Hb Hc). destruct t; [by right|by apply ends_delimited].
  - cbn [spell]. rewrite app_nil_r. destruct b as [|c b]; [destruct t; [right; by left|by split]|].
    pose proof (ends_after (c :: b) [] Hb ltac:(done)) as He. rewrite app_nil_r in He. destruct t; [by right|by apply ends_delimited].
  - destruct t as [sy|l]; [by left|]. destruct ts as [|[[sy|] b'] ts]; try done. destruct b as [|c b]; [|apply ends_delimited, ends_after; done].
    apply Forall_cons in Hok as [Hok _]. apply (op_head sy (b' ++ spell ts) Hok).
Qed.

(** The current symbol is the first of [ts], and the others follow. *)
Definition stream (ts : list (token * list Z)) s : Prop :=
  spaced ts /\ Forall (fun x => tok_ok (fst x)) ts /\
  match ts with
  | [] => lexed None s /\ here s []
  | (t, b) :: ts' => lexed (Some t) s /\ here s (b ++ spell ts') /\ (length (b ++ spell ts') < fuel)%nat
  end.

Lemma next_sy_runs b ts s : Forall (fun c => blank c = true) b -> spaced ts -> Forall (fun x => tok_ok (fst x)) ts ->
  (length (b ++ spell ts) < fuel)%nat -> here s (b ++ spell ts) -> exists s', runs (next_sy fuel) s tt s' /\ stream ts s'.
Proof.
  intros Hb Hsp Hok Hn Hs. rewrite length_app in Hn. destruct (blank_runs b (spell ts) s fuel Hb Hs) as (n & s1 & E & H1); [lia|].
  unfold next_sy, runs. rewrite E. cbn [next_sy_loop]. rewrite (bind_runs _ _ _ _ _ (the_ch_runs s1 _ H1)), (bind_runs _ _ _ _ _ (runs_modify _ _)).
  set (s2 := set_sy_pos _ _). assert (H2 : here s2 (spell ts)) by (by apply (here_fields s1)). destruct ts as [|[t b1] ts].
  - rewrite (bind_runs _ _ _ _ _ (next_ch_end s2 H2)). exists (set_sy 0 s2). split; [done|]. split; [done|]. split; [done|]. split; [done|]. by apply (here_fields s2).
  - pose proof (spaced_after t b1 ts Hsp (Forall_inv_tail Hok)) as Hafter. pose proof (Forall_inv Hok) as Ht. cbn [fst] in Ht. destruct (tok_head t Ht) as (c & Et & Hcb).
    cbn [spell] in *. rewrite Et in H2 |- *. cbn [app deref hd]. destruct (next_ch_runs s2 c _ H2) as (s3 & R3 & H3 & _). rewrite (bind_runs _ _ _ _ _ R3), Hcb.
    assert (G : exists s', runs (symbol fuel (deref (tok_text t))) s3 tt s' /\ here s' (b1 ++ spell ts) /\ lexed (Some t) s').
    { destruct t as [sy|l]; cbn [tok_text] in *.
      - pose proof operators_read as HF. rewrite Forall_forall in HF. by apply HF.
      - apply lit_runs; [done|done| |done]. rewrite length_app in Hn. lia. }
    destruct G as (s4 & R4 & H4 & L4). rewrite Et in R4. cbn [deref hd] in R4. exists s4. split; [exact R4|]. split; [done|]. split; [done|]. split; [done|]. split; [done|].
    rewrite !length_app in *. lia.
Qed.

(** The next symbol of a list. *)
Lemma stream_next t b ts s : stream ((t, b) :: ts) s -> exists s', runs (next_sy fuel) s tt s' /\ stream ts s'.
Proof.
  intros ((Hb & _ & Hsp) & Hok & _ & Hs & Hn). apply Forall_cons in Hok as [_ Hok]. by apply (next_sy_runs b).
Qed.
End Tokens.
