(* ===== verification/ExprParse.v ===== *)
(** * Parsing of expressions (Expr.v, ExprSpec.v, services/expressions.c)

    The parser reads the symbols of an expression as that expression, at every level of precedence. *)

From S2P Require Import Prelude ExprValue ExprLex Expr ExprSpec ExprNum ExprOps ExprTokens.

(** ** Levels *)

Definition level_ops (l : nat) : list Z :=
  match l with
  | 1%nat => [SY_OR] | 2%nat => [SY_AND] | 3%nat => [124] | 4%nat => [94] | 5%nat => [38] | 6%nat => [SY_EQU; SY_NEQ]
  | 7%nat => [60; 62; SY_LEQ; SY_GEQ] | 8%nat => [SY_SHL; SY_SHR] | 9%nat => [ch_plus; ch_minus] | 10%nat => [ch_star; ch_slash; 37]
  | _ => []
  end.

(** The level at which a symbol ends what is on its left; 12 for one that cannot follow. *)
Definition sy_level (sy : Z) : nat :=
  match list_find (fun l => existsb (Z.eqb sy) (level_ops l) = true) (seq 0 11) with
  | Some (l, _) => l
  | None => if existsb (Z.eqb sy) [ch_rpar; ch_colon] then 0 else if sy =? 63 then 1 else 12
  end.

Definition follow (l : nat) (ts : list (token * list Z)) : Prop :=
  match ts with
  | [] => True
  | (TOp sy, _) :: _ => (sy_level sy <= l)%nat
  | (TLit _, _) :: _ => False
  end.

(** The operators of level [l] on the left side of an expression. *)
Fixpoint spine (l : nat) (e : expr) : nat :=
  match e with
  | EBin o e1 _ => if (binop_level o =? l)%nat then S (spine l e1) else 0
  | ELAnd e1 _ => if (l =? 2)%nat then S (spine l e1) else 0
  | ELOr e1 _ => if (l =? 1)%nat then S (spine l e1) else 0
  | _ => 0
  end.

(** What is left where nothing is evaluated. *)
Fixpoint skipped (e : expr) : num :=
  match e with
  | ELit l => lit_num l
  | EUn _ e => skipped e
  | EBin _ e1 _ => skipped e1
  | ELAnd e1 _ => skipped e1
  | ELOr _ e2 => skipped e2
  | ECond _ _ e2 => skipped e2
  end.

Lemma follow_mono l l' ts : (l <= l')%nat -> follow l ts -> follow l' ts.
Proof. destruct ts as [|[[sy|] b] ts]; [done| |done]. cbn. lia. Qed.

Lemma toks_0 l e : toks l e = if (l <=? expr_level e)%nat then toks 0 e else TOp ch_lpar :: toks 0 e ++ [TOp ch_rpar].
Proof. by destruct e. Qed.

Lemma toks_step l e : (expr_level e <> l)%nat -> toks l e = toks (S l) e.
Proof.
  intros Hl. rewrite (toks_0 l), (toks_0 (S l)). destruct (Nat.leb_spec l (expr_level e)), (Nat.leb_spec (S l) (expr_level e)); (done || lia).
Qed.

Lemma spine_level l e : expr_level e <> l -> spine l e = 0%nat.
Proof.
  destruct e as [x|o e|o e1 e2|e1 e2|e1 e2|e1 e2 e3]; cbn; try done; intros Hl.
  - by destruct (Nat.eqb_spec (binop_level o) l).
  - by destruct (Nat.eqb_spec l 2).
  - by destruct (Nat.eqb_spec l 1).
Qed.

Lemma toks_pos l e : (0 < length (toks l e))%nat.
Proof. rewrite toks_0. destruct (_ <=? _)%nat; [|cbn; lia]. destruct e; cbn [toks expr_level Nat.leb]; rewrite ?length_app; cbn [length]; lia. Qed.

Lemma spine_length l e : (spine l e < length (toks l e))%nat.
Proof.
  revert l. induction e as [x|o e IH|o e1 IH1 e2 IH2|e1 IH1 e2 IH2|e1 IH1 e2 IH2|c IHc e1 IH1 e2 IH2]; intros l.
  1, 2, 6: apply toks_pos.
  - destruct (decide (binop_level o = l)) as [<-|Hl]; [|rewrite spine_level by done; apply toks_pos].
    cbn [spine]. rewrite Nat.eqb_refl. cbn [toks expr_level]. rewrite Nat.leb_refl, length_app. cbn [length]. specialize (IH1 (binop_level o)). lia.
  - destruct (decide (l = 2%nat)) as [->|Hl]; [|rewrite spine_level by (cbn; lia); apply toks_pos].
    cbn [spine toks expr_level Nat.leb Nat.eqb]. rewrite length_app. cbn [length]. specialize (IH1 2%nat). lia.
  - destruct (decide (l = 1%nat)) as [->|Hl]; [|rewrite spine_level by (cbn; lia); apply toks_pos].
    cbn [spine toks expr_level Nat.leb Nat.eqb]. rewrite length_app. cbn [length]. specialize (IH1 1%nat). lia.
Qed.

Section Parse.
Context `{ExprEnv}.
Variables (ctx frame : Z) (fuel : nat).
Notation context := (Some ctx).
Notation word := (ctx_word_size ctx).
Hypothesis Hword : word ∈ [1; 2; 4; 8].

Notation X := (M Lex).
Implicit Types (s : Lex) (e : expr) (mode : Z).

Notation expression := (expression context frame fuel).
Notation unary_expression n := (unary_expression context frame fuel (expression n)).

(** The function of each level, and its loop. *)
Definition lf (n l : nat) : Z -> X Value :=
  match l with
  | 1 => logical_or_expression context frame fuel (expression n)
  | 2 => logical_and_expression context frame fuel (expression n)
  | 3 => inclusive_or_expression context frame fuel (expression n)
  | 4 => exclusive_or_expression context frame fuel (expression n)
  | 5 => and_expression context frame fuel (expression n)
  | 6 => equality_expression context frame fuel (expression n)
  | 7 => relational_expression context frame fuel (expression n)
  | 8 => shift_expression context frame fuel (expression n)
  | 9 => additive_expression context frame fuel (expression n)
  | 10 => multiplicative_expression context frame fuel (expression n)
  | _ => pm_expression context frame fuel (expression n)
  end%nat.

Definition level_fn (l : nat) : Z -> Z -> Value -> Value -> X Value :=
  match l with
  | 3 => bitwise context Z.lor | 4 => bitwise context Z.lxor | 5 => bitwise context Z.land | 6 => equal context | 7 => relate context
  | 8 => shift context | 9 => add context | _ => multiply context
  end%nat.

Definition lp (n m l : nat) (mode : Z) (v : Value) : X Value :=
  match l with
  | 1 => logical_loop context fuel m mode SY_OR false (lf n 2) v
  | 2 => logical_loop context fuel m mode SY_AND true (lf n 3) v
  | _ => binary_loop fuel m mode (level_ops l) (lf n (S l) mode) (level_fn l mode) v
  end%nat.

Lemma lf_unfold n l mode s : (1 <= l <= 10)%nat -> lf n l mode s = bind (lf n (S l) mode) (lp n fuel l mode) s.
Proof. intros Hl. do 11 (destruct l as [|l]; [try lia; reflexivity|]). lia. Qed.

(** The outcome of an expression; where nothing is evaluated there is always one. *)
Definition den_in (mode : Z) e : outcome num := if mode =? MODE_NORMAL then den word e else Val (skipped e).

Definition gives (m : X Value) s (o : outcome num) (k : Value -> X Value) (rest : list (token * list Z)) : Prop :=
  match o with
  | Val t => exists s', m s = k (of_num t) s' /\ stream fuel rest s'
  | Throw e => exists s', m s = (Throw e, s')
  | Fault => exists s', m s = (Fault, s')
  | NoFuel => False
  end.

Lemma gives_bind m s o k rest f : gives m s o ret rest -> (forall t s', o = Val t -> stream fuel rest s' -> f (of_num t) s' = k (of_num t) s') -> gives (bind m f) s o k rest.
Proof.
  unfold gives, bind. destruct o as [t|e| |]; [|by intros [s' ->] _; exists s'|by intros [s' ->] _; exists s'|done].
  intros (s' & -> & Hs') Hf. exists s'. split; [|done]. cbn. by apply Hf.
Qed.

(** One outcome after another. *)
Lemma gives_then m s o k rest f o2 rest2 : gives m s o ret rest -> (forall t s', o = Val t -> stream fuel rest s' -> gives (f (of_num t)) s' (o2 t) k rest2) ->
  gives (bind m f) s (bindo o o2) k rest2.
Proof.
  unfold gives at 1. destruct o as [t|e| |]; cbn [bindo]; [|intros [s' E] _; exists s'; unfold bind; by rewrite E|intros [s' E] _; exists s'; unfold bind; by rewrite E|done].
  intros (s' & E & Hs') Hf. specialize (Hf t s' eq_refl Hs'). unfold gives in *. unfold bind. rewrite E. cbn. by destruct (o2 t).
Qed.

Lemma gives_eq m m' s o k rest : m s = m' s -> gives m s o k rest -> gives m' s o k rest.
Proof. unfold gives. by intros ->. Qed.

Lemma gives_runs {A} (m : X A) (f : A -> X Value) s a s' o k rest : runs m s a s' -> gives (f a) s' o k rest -> gives (bind m f) s o k rest.
Proof. intros R. unfold gives. by rewrite (bind_runs _ _ _ _ _ R). Qed.

(** ** The current symbol *)

Definition head_sy (ts : list (token * list Z)) : Z := match ts with [] => 0 | (TOp sy, _) :: _ => sy | (TLit _, _) :: _ => SY_VAL end.

Lemma the_sy_runs ts s : stream fuel ts s -> runs the_sy s (head_sy ts) s.
Proof.
  intros (_ & _ & Hs). unfold runs, the_sy, gets, head_sy. destruct ts as [|[[sy|l] b] ts]; destruct Hs as [Hs _]; cbn in Hs; [by rewrite Hs..|]. destruct Hs as [-> _]. done.
Qed.

Lemma expect_runs sy ts s : stream fuel ts s -> head_sy ts = sy -> runs (expect sy) s tt s.
Proof. intros Hs <-. unfold expect. eapply runs_bind; [by apply the_sy_runs|]. rewrite Z.eqb_refl. apply runs_ret. Qed.

(** What can follow at a level is not an operator of a higher one. *)
Lemma follow_ops l l' ts : follow l ts -> (l < l')%nat -> (l' <= 11)%nat -> existsb (Z.eqb (head_sy ts)) (level_ops l') = false.
Proof.
  destruct ts as [|[[sy|x] b] ts]; cbn [follow head_sy]; [|intros Hf Hl Hl'|done].
  - intros _ Hl Hl'. do 12 (destruct l' as [|l']; [reflexivity|]). lia.
  - destruct (existsb (Z.eqb sy) (level_ops l')) eqn:E; [|done]. exfalso. unfold sy_level in Hf.
    assert (Hm : sy_level sy = l'); [|unfold sy_level in Hm; lia].
    apply existsb_exists in E as (x & Hx & E). apply Z.eqb_eq in E as <-. do 11 (destruct l' as [|l']; [cbn in Hx; decompose [or] Hx; subst; done|]). by destruct l'.
Qed.

(** ** Claims about one expression *)

Definition is_mode mode : Prop := mode = MODE_NORMAL \/ mode = MODE_SKIP.

(** The symbols [tbs] of the expression [e] at level [l], and then [rest]. *)
Definition input l e (tbs rest : list (token * list Z)) s : Prop := map fst tbs = toks l e /\ stream fuel (tbs ++ rest) s /\ follow l rest.

(** At level [l] the expression is read, and the loop of the level goes on. *)
Definition at_level n l e : Prop := forall mode tbs rest s, is_mode mode -> input l e tbs rest s ->
  gives (lf n l mode) s (den_in mode e) (lp n (fuel - spine l e) l mode) rest.

Definition no_op l (rest : list (token * list Z)) : Prop := existsb (Z.eqb (head_sy rest)) (level_ops l) = false.

(** The whole expression is read at level [l] if no operator of the level follows. *)
Definition whole_level n l e : Prop := forall mode tbs rest s, is_mode mode -> input l e tbs rest s -> no_op l rest ->
  gives (lf n l mode) s (den_in mode e) ret rest.

Definition as_unary n m e : Prop := forall mode tbs rest s, is_mode mode -> input 11 e tbs rest s ->
  gives (unary_expression n m mode) s (den_in mode e) ret rest.

Definition as_expression n e : Prop := forall mode tbs rest s, is_mode mode -> input 0 e tbs rest s ->
  gives (expression n mode) s (den_in mode e) ret rest.

Lemma lp_exit n m l mode v rest s : (1 <= l <= 10)%nat -> stream fuel rest s -> no_op l rest -> lp n (S m) l mode v s = ret v s.
Proof.
  intros Hl Hs Hno. unfold no_op in Hno. pose proof (the_sy_runs rest s Hs) as R.
  destruct l as [|[|[|l]]]; [lia| | |]; cbn [lp logical_loop binary_loop]; rewrite (bind_runs _ _ _ _ _ R).
  - cbn [level_ops existsb] in Hno. apply orb_false_iff in Hno as [-> _]. done.
  - cbn [level_ops existsb] in Hno. apply orb_false_iff in Hno as [-> _]. done.
  - by rewrite Hno.
Qed.

Lemma level_whole n l e : (1 <= l <= 10)%nat -> (length (toks l e) < fuel)%nat -> at_level n l e -> whole_level n l e.
Proof.
  intros Hl Hn Ha mode tbs rest s Hm Hi Hno. specialize (Ha mode tbs rest s Hm Hi). unfold gives in *. destruct (den_in mode e) as [t|c| |]; try done.
  destruct Ha as (s' & E & Hs'). exists s'. split; [|done]. rewrite E. pose proof (spine_length l e). replace (fuel - spine l e)%nat with (S (fuel - spine l e - 1)) by lia.
  by apply (lp_exit _ _ _ _ _ rest).
Qed.

Lemma unary_whole n e : as_unary n fuel e -> whole_level n 11 e.
Proof. intros Hu mode tbs rest s Hm Hi _. by apply (Hu mode tbs rest s). Qed.

(** From a level to the one below it. *)
Lemma level_step n l e : (1 <= l <= 10)%nat -> expr_level e <> l -> whole_level n (S l) e -> at_level n l e.
Proof.
  intros Hl Hlev Hw mode tbs rest s Hm (Ht & Hs & Hf). rewrite toks_step in Ht by done.
  assert (Hi : input (S l) e tbs rest s) by (split; [done|split; [done|by apply (follow_mono l); [lia|]]]).
  assert (Hno : no_op (S l) rest) by (apply (follow_ops l); [done|lia|lia]).
  specialize (Hw mode tbs rest s Hm Hi Hno). eapply gives_eq; [symmetry; by apply lf_unfold|]. rewrite spine_level, Nat.sub_0_r by done. by eapply gives_bind.
Qed.

Lemma descend e hi : (2 <= hi <= 11)%nat -> (forall n, (length (toks hi e) <= n)%nat -> (length (toks hi e) < fuel)%nat -> whole_level n hi e) ->
  forall l, (1 <= l < hi)%nat -> (forall l', (l <= l' < hi)%nat -> expr_level e <> l') ->
  forall n, (length (toks l e) <= n)%nat -> (length (toks l e) < fuel)%nat -> at_level n l e.
Proof.
  intros Hhi Hw l Hl Hlev n Hn Hfu. remember (hi - l)%nat as k eqn:Ek. revert l Hl Hlev Hn Hfu Ek. induction k as [|k IH]; intros l Hl Hlev Hn Hfu Ek; [lia|].
  rewrite toks_step in Hn, Hfu by (apply Hlev; lia). apply level_step; [lia|apply Hlev; lia|].
  destruct (decide (S l = hi)) as [<-|Hne]; [by apply Hw|]. apply level_whole; [lia|done|]. apply IH; try done; try lia. intros l' Hl'. apply Hlev. lia.
Qed.

(** Expressions of the lowest level. *)
Lemma level_expression n e : expr_level e <> 0%nat -> whole_level n 1 e -> as_expression (S n) e.
Proof.
  intros Hlev Hw mode tbs rest s Hm (Ht & Hs & Hf). rewrite toks_step in Ht by done.
  assert (Hi : input 1 e tbs rest s) by (split; [done|split; [done|by apply (follow_mono 0); [lia|]]]).
  assert (Hno : no_op 1 rest) by (apply (follow_ops 0); [done|lia|lia]).
  specialize (Hw mode tbs rest s Hm Hi Hno). cbn [Expr.expression]. unfold conditional_expression. eapply gives_bind; [exact Hw|].
  intros t s' _ Hs'. cbn beta. rewrite (bind_runs _ _ _ _ _ (the_sy_runs rest s' Hs')). replace (head_sy rest =? 63) with false; [done|]. symmetry. apply Z.eqb_neq. intros E.
  destruct rest as [|[[sy|x] b] rest]; cbn in E; [done| |done]. subst sy. cbn [follow] in Hf. change (sy_level 63) with 1%nat in Hf. lia.
Qed.

(** ** Literals, parentheses and unary operators *)

(** After a primary expression no call, field or index follows. *)
Lemma postfix_exit n k mode t rest s : (0 < k)%nat -> stream fuel rest s -> follow 11 rest ->
  runs (postfix_loop context frame fuel (expression n) k mode (of_num t)) s (of_num t) s.
Proof.
  intros Hk Hs Hf. destruct k as [|k]; [lia|]. cbn [postfix_loop]. eapply runs_bind; [by apply the_sy_runs|]. cbn beta.
  assert (Hno : existsb (Z.eqb (head_sy rest)) [ch_dot; ch_lbra; SY_REF; ch_lpar] = false).
  { destruct rest as [|[[sy|x] b] rest]; [done| |done]. cbn [head_sy follow] in *. destruct (existsb _ _) eqn:E; [|done]. exfalso.
    apply existsb_exists in E as (x & Hx & E). apply Z.eqb_eq in E as <-. cbn in Hx. decompose [or] Hx; subst; vm_compute in Hf; lia. }
  cbn [existsb] in Hno. apply orb_false_iff in Hno as [-> Hno]. apply orb_false_iff in Hno as [-> Hno]. apply orb_false_iff in Hno as [-> Hno].
  apply orb_false_iff in Hno as [-> _]. apply runs_ret.
Qed.

(** A symbol that is no unary operator starts a postfix expression. *)
Lemma unary_postfix n m mode s ts : stream fuel ts s -> existsb (Z.eqb (head_sy ts)) [ch_star; 38; SY_SIZEOF; ch_plus; ch_minus; 33; 126] = false ->
  unary_expression n (S m) mode s = postfix_expression context frame fuel (expression n) mode s.
Proof.
  intros Hs Hno. cbn [Expr.unary_expression]. rewrite (bind_runs _ _ _ _ _ (the_sy_runs ts s Hs)). cbn [existsb] in Hno.
  repeat (apply orb_false_iff in Hno as [-> Hno]). done.
Qed.

Lemma literal_unary n m l : (0 < fuel)%nat -> as_unary n (S m) (ELit l).
Proof.
  intros Hfu mode tbs rest s Hm (Ht & Hs & Hf). cbn in Ht. destruct tbs as [|[t b] [|? tbs]]; try done. cbn in Ht. injection Ht as ->. cbn [app] in Hs.
  assert (Hd : den_in mode (ELit l) = Val (lit_num l)) by (unfold den_in; by destruct (_ =? _)). rewrite Hd. cbn [gives].
  destruct (stream_next fuel (TLit l) b rest s Hs) as (s1 & R1 & Hs1). exists s1. split; [|done].
  rewrite (unary_postfix n m mode s _ Hs) by done. unfold postfix_expression, primary_expression.
  destruct Hs as (Hsp & Hok & [Hsy Hv] & Hh). assert (Hs : stream fuel ((TLit l, b) :: rest) s) by (split; [done|]; split; [done|]; split; [split|]; done).
  assert (Rp : runs (primary_expression context frame fuel (expression n) mode) s (of_num (lit_num l)) s1).
  { unfold primary_expression. eapply runs_bind; [by apply the_sy_runs|]. cbn [head_sy Z.eqb SY_VAL Pos.eqb].
    eapply runs_bind; [apply runs_gets|]. rewrite Hv. eapply runs_bind; [exact R1|apply runs_ret]. }
  unfold primary_expression in Rp. rewrite (bind_runs _ _ _ _ _ Rp). by apply (postfix_exit n fuel mode (lit_num l) rest).
Qed.

(** Parentheses around an expression of a lower level. *)
Lemma paren_unary n m e : (expr_level e < 11)%nat -> (0 < fuel)%nat -> as_expression n e -> as_unary n (S m) e.
Proof.
  intros Hlev Hfu He mode tbs rest s Hm (Ht & Hs & Hf). rewrite toks_0 in Ht. replace (11 <=? expr_level e)%nat with false in Ht by (symmetry; apply Nat.leb_gt; lia).
  destruct tbs as [|[t0 b0] tbs]; [done|]. cbn in Ht. injection Ht as -> Ht. apply map_eq_app in Ht as (tb1 & tb2 & -> & Ht1 & Ht2).
  destruct tb2 as [|[t2 b2] [|? tb2]]; try done. injection Ht2 as ->. cbn [app] in Hs.
  destruct (stream_next fuel _ _ _ s Hs) as (s1 & R1 & Hs1). rewrite <- (assoc_L (++)) in Hs1.
  assert (Hi : input 0 e tb1 ([(TOp ch_rpar, b2)] ++ rest) s1) by (split; [done|]; split; [done|]; cbn; vm_compute; lia).
  specialize (He mode tb1 _ s1 Hm Hi).
  eapply gives_eq; [symmetry; by apply (unary_postfix n m mode s _ Hs)|]. unfold postfix_expression.
  assert (Hp : gives (primary_expression context frame fuel (expression n) mode) s (den_in mode e) ret rest).
  { unfold primary_expression. eapply gives_runs; [by apply the_sy_runs|]. cbn [head_sy Z.eqb Pos.eqb]. eapply gives_runs; [exact R1|].
    unfold gives in He |- *. destruct (den_in mode e) as [t|c| |]; [|destruct He as [s' E]; exists s'; unfold bind; by rewrite E|destruct He as [s' E]; exists s'; unfold bind; by rewrite E|done].
    destruct He as (s2 & E & Hs2). cbn [app] in Hs2. destruct (stream_next fuel _ _ _ s2 Hs2) as (s3 & R3 & Hs3). exists s3. split; [|done].
    unfold bind at 1. rewrite E. cbn [ret]. rewrite (bind_runs _ _ _ _ _ (expect_runs ch_rpar _ s2 Hs2 eq_refl)). by rewrite (bind_runs _ _ _ _ _ R3). }
  eapply gives_bind; [exact Hp|]. intros t s' _ Hs'. by apply (postfix_exit n fuel mode t rest).
Qed.

Lemma skipped_ok e : num_ok (skipped e).
Proof. induction e; cbn [skipped]; try done. apply lit_num_ok. Qed.

Lemma den_ok e t : den word e = Val t -> num_ok t.
Proof.
  revert t. induction e as [l|o e IH|o e1 IH1 e2 IH2|e1 IH1 e2 IH2|e1 IH1 e2 IH2|c IHc e1 IH1 e2 IH2]; intros t; cbn [den].
  - intros [= <-]. apply lit_num_ok.
  - destruct (den word e) as [a| | |]; cbn [bindo]; try done. intros [= <-]. apply (proj2 (unop_num ctx Hword o a (mkLex [] 0 0 0 0 ini_value 0) (IH a eq_refl))).
  - destruct (den word e1) as [a| | |]; cbn [bindo]; try done. destruct (den word e2) as [b| | |]; cbn [bindo]; try done. apply (binop_ok ctx Hword).
  - destruct (den word e1) as [a| | |]; cbn [bindo]; try done. destruct (as_s a =? 0); [intros [= <-]; by apply IH1|apply IH2].
  - destruct (den word e1) as [a| | |]; cbn [bindo]; try done. destruct (as_s a =? 0); [apply IH2|intros [= <-]; by apply IH1].
  - destruct (den word c) as [a| | |]; cbn [bindo]; try done. destruct (as_s a =? 0); [apply IH2|apply IH1].
Qed.

Lemma den_in_ok mode e t : den_in mode e = Val t -> num_ok t.
Proof. unfold den_in. destruct (_ =? _); [apply den_ok|]. intros [= <-]. apply skipped_ok. Qed.

Lemma unary_unary n m o e : as_unary n m e -> as_unary n (S m) (EUn o e).
Proof.
  intros He mode tbs rest s Hm (Ht & Hs & Hf). cbn in Ht. destruct tbs as [|[t0 b0] tbs]; [done|]. cbn in Ht. injection Ht as -> Ht. cbn [app] in Hs.
  destruct (stream_next fuel _ _ _ s Hs) as (s1 & R1 & Hs1). specialize (He mode tbs rest s1 Hm (conj Ht (conj Hs1 Hf))).
  assert (E : unary_expression n (S m) mode s = (next_sy fuel ;! let! v := unary_expression n m mode in unop_fn ctx o mode v) s).
  { cbn [Expr.unary_expression]. rewrite (bind_runs _ _ _ _ _ (the_sy_runs _ s Hs)). by destruct o. }
  eapply gives_eq; [symmetry; exact E|]. eapply gives_runs; [exact R1|].
  replace (den_in mode (EUn o e)) with (bindo (den_in mode e) (fun a => Val (if mode =? MODE_NORMAL then den_unop word o a else a))) by (unfold den_in; cbn; by destruct (_ =? _)).
  eapply gives_then; [exact He|]. intros t s' Et Hs'. exists s'. split; [|done]. destruct Hm as [-> | ->].
  - destruct (unop_num ctx Hword o t s' (den_in_ok _ _ _ Et)) as [R _]. exact R.
  - by destruct o.
Qed.

(** ** Binary operators *)

Lemma fuel_loop l e : (length (toks l e) < fuel)%nat -> exists k, (fuel - spine l e = S k)%nat.
Proof. intros Hl. pose proof (spine_length l e). exists (fuel - spine l e - 1)%nat. lia. Qed.

(** The symbols of two operands and the operator between them. *)
Lemma split_input l e1 sy l2 e2 tbs (rest : list (token * list Z)) s : map fst tbs = toks l e1 ++ TOp sy :: toks l2 e2 -> stream fuel (tbs ++ rest) s ->
  exists tb1 b tb2, tbs = tb1 ++ (TOp sy, b) :: tb2 /\ map fst tb1 = toks l e1 /\ map fst tb2 = toks l2 e2 /\
    stream fuel (tb1 ++ (TOp sy, b) :: tb2 ++ rest) s.
Proof.
  intros Ht Hs. apply map_eq_app in Ht as (tb1 & tb2 & -> & Ht1 & Ht2). destruct tb2 as [|[t b] tb2]; [done|]. cbn in Ht2. injection Ht2 as -> Ht2.
  exists tb1, b, tb2. split; [done|]. split; [done|]. split; [done|]. by rewrite <- (assoc_L (++)) in Hs.
Qed.

Lemma binop_ops o : existsb (Z.eqb (binop_sy o)) (level_ops (binop_level o)) = true.
Proof. by destruct o. Qed.

Lemma binop_sy_level o : sy_level (binop_sy o) = binop_level o.
Proof. destruct o; vm_compute; reflexivity. Qed.

Lemma lp_binop n m o mode v : lp n m (binop_level o) mode v = binary_loop fuel m mode (level_ops (binop_level o)) (lf n (S (binop_level o)) mode) (binop_fn ctx o mode) v.
Proof. by destruct o. Qed.

Lemma binary_level n o e1 e2 (l := binop_level o) : (length (toks l (EBin o e1 e2)) < fuel)%nat -> at_level n l e1 -> whole_level n (S l) e2 -> at_level n l (EBin o e1 e2).
Proof.
  intros Hn H1 H2 mode tbs rest s Hm (Ht & Hs & Hf). unfold l in *. clear l. cbn [toks expr_level] in Ht, Hn. rewrite Nat.leb_refl in Ht, Hn. rewrite length_app in Hn.
  destruct (split_input _ _ _ _ _ _ _ _ Ht Hs) as (tb1 & b & tb2 & _ & Ht1 & Ht2 & Hs'). clear Ht Hs tbs.
  assert (Hi : input (binop_level o) e1 tb1 ((TOp (binop_sy o), b) :: tb2 ++ rest) s) by (split; [done|split; [done|cbn; by rewrite binop_sy_level]]).
  specialize (H1 mode tb1 _ s Hm Hi). destruct (fuel_loop (binop_level o) e1) as [k Ek]; [lia|].
  assert (Ek' : (fuel - spine (binop_level o) (EBin o e1 e2) = k)%nat) by (cbn [spine]; rewrite Nat.eqb_refl; lia). rewrite Ek in H1. rewrite Ek'.
  replace (den_in mode (EBin o e1 e2)) with (bindo (den_in mode e1) (fun a => bindo (den_in mode e2) (fun b => if mode =? MODE_NORMAL then den_binop word o a b else Val a)))
    by (unfold den_in; cbn; by destruct (_ =? _)).
  unfold gives in H1. destruct (den_in mode e1) as [a|c| |] eqn:E1; cbn [bindo]; try done. destruct H1 as (s1 & E & Hs1).
  rewrite lp_binop in E. cbn [binary_loop] in E. rewrite (bind_runs _ _ _ _ _ (the_sy_runs _ s1 Hs1)) in E. cbn [head_sy] in E. rewrite binop_ops in E.
  destruct (stream_next fuel _ _ _ s1 Hs1) as (s2 & R2 & Hs2). rewrite (bind_runs _ _ _ _ _ R2) in E. eapply gives_eq; [symmetry; exact E|].
  assert (Hi2 : input (S (binop_level o)) e2 tb2 rest s2) by (split; [done|split; [done|by apply (follow_mono (binop_level o)); [lia|]]]).
  assert (Hno : no_op (S (binop_level o)) rest) by (apply (follow_ops (binop_level o)); [done|lia|by destruct o; cbn; lia]).
  eapply gives_then; [exact (H2 mode tb2 rest s2 Hm Hi2 Hno)|]. intros x s3 E2 Hs3.
  assert (Ha : (if negb (mode =? MODE_SKIP) then binop_fn ctx o mode (binop_sy o) (of_num a) (of_num x) else ret (of_num a)) s3 =
    (value_of (if mode =? MODE_NORMAL then den_binop word o a x else Val a), s3)).
  { destruct Hm as [-> | ->]; [|done]. apply (binop_num ctx Hword); by eapply den_in_ok. }
  unfold gives, bind. rewrite Ha. destruct (if mode =? MODE_NORMAL then den_binop word o a x else Val a) as [t|c| |] eqn:Eo; cbn [value_of]; [|by exists s3|by exists s3|].
  - exists s3. split; [|done]. by rewrite lp_binop.
  - destruct (mode =? MODE_NORMAL); [|done]. exfalso. clear -Eo. unfold den_binop in Eo. destruct o; try done; repeat (destruct (_ : bool) in Eo; try done); destruct (as_s x =? 0); try done; destruct (_ && _); done.
Qed.

(** ** Logical operators *)

Lemma boolean_num mode t s : is_mode mode -> num_ok t ->
  runs (to_boolean context mode (of_num t)) s (if mode =? MODE_NORMAL then negb (as_s t =? 0) else false, of_num t) s.
Proof.
  intros [-> | ->] Ht; [apply (runs_bind _ _ _ (as_s t, of_num t) s)|apply (runs_bind _ _ _ (0, of_num t) s)]; [by apply to_int_num|apply runs_ret|by apply to_int_skip|apply runs_ret].
Qed.

(** [&&] is level 2 and goes on with true, [||] is level 1 and goes on with false. *)
Definition logical_expr (is_and : bool) e1 e2 : expr := if is_and then ELAnd e1 e2 else ELOr e1 e2.
Definition logical_level (is_and : bool) : nat := if is_and then 2 else 1.
Definition logical_sy (is_and : bool) : Z := if is_and then SY_AND else SY_OR.

Lemma logical_den (is_and : bool) mode e1 e2 : den_in mode (logical_expr is_and e1 e2) =
  bindo (den_in mode e1) (fun a => if eqb (if mode =? MODE_NORMAL then negb (as_s a =? 0) else false) is_and then den_in mode e2 else Val a).
Proof.
  unfold den_in. destruct is_and, (mode =? MODE_NORMAL); cbn; try done; destruct (den word e1) as [a| | |]; try done; cbn; by destruct (as_s a =? 0).
Qed.

Lemma logical_lp n m (is_and : bool) mode v : lp n m (logical_level is_and) mode v = logical_loop context fuel m mode (logical_sy is_and) is_and (lf n (S (logical_level is_and))) v.
Proof. by destruct is_and. Qed.

Lemma logical_level_ok n (is_and : bool) e1 e2 (l := logical_level is_and) : (length (toks l (logical_expr is_and e1 e2)) < fuel)%nat ->
  at_level n l e1 -> whole_level n (S l) e2 -> at_level n l (logical_expr is_and e1 e2).
Proof.
  intros Hn H1 H2 mode tbs rest s Hm (Ht & Hs & Hf). unfold l in *. clear l.
  replace (toks (logical_level is_and) (logical_expr is_and e1 e2)) with (toks (logical_level is_and) e1 ++ TOp (logical_sy is_and) :: toks (S (logical_level is_and)) e2) in Ht, Hn by (by destruct is_and).
  rewrite length_app in Hn. destruct (split_input _ _ _ _ _ _ _ _ Ht Hs) as (tb1 & b & tb2 & _ & Ht1 & Ht2 & Hs'). clear Ht Hs tbs.
  assert (Hi : input (logical_level is_and) e1 tb1 ((TOp (logical_sy is_and), b) :: tb2 ++ rest) s) by (split; [done|split; [done|destruct is_and; vm_compute; lia]]).
  specialize (H1 mode tb1 _ s Hm Hi). destruct (fuel_loop (logical_level is_and) e1) as [k Ek]; [lia|].
  assert (Ek' : (fuel - spine (logical_level is_and) (logical_expr is_and e1 e2) = k)%nat) by (destruct is_and; cbn [spine logical_expr logical_level Nat.eqb] in *; lia). rewrite Ek in H1. rewrite Ek', logical_den.
  unfold gives in H1. destruct (den_in mode e1) as [a|c| |] eqn:E1; cbn [bindo]; try done. destruct H1 as (s1 & E & Hs1).
  rewrite logical_lp in E. cbn [logical_loop] in E. rewrite (bind_runs _ _ _ _ _ (the_sy_runs _ s1 Hs1)) in E. cbn [head_sy] in E. rewrite Z.eqb_refl in E.
  rewrite (bind_runs _ _ _ _ _ (boolean_num mode a s1 Hm (den_in_ok _ _ _ E1))) in E. cbn beta iota in E.
  destruct (stream_next fuel _ _ _ s1 Hs1) as (s2 & R2 & Hs2). rewrite (bind_runs _ _ _ _ _ R2) in E. eapply gives_eq; [symmetry; exact E|].
  set (go := eqb _ is_and). assert (Hm' : is_mode (if go then mode else MODE_SKIP)) by (destruct go; [done|by right]).
  assert (Hi2 : input (S (logical_level is_and)) e2 tb2 rest s2) by (split; [done|split; [done|by apply (follow_mono (logical_level is_and)); [lia|]]]).
  assert (Hno : no_op (S (logical_level is_and)) rest) by (apply (follow_ops (logical_level is_and)); [done|lia|destruct is_and; cbn; lia]).
  specialize (H2 _ tb2 rest s2 Hm' Hi2 Hno).
  replace (if go then den_in mode e2 else Val a) with (bindo (den_in (if go then mode else MODE_SKIP) e2) (fun x => Val (if go then x else a)))
    by (destruct go; [by destruct (den_in mode e2)|done]).
  eapply gives_then; [exact H2|]. intros x s3 _ Hs3. exists s3. split; [|done]. cbn beta. rewrite logical_lp. f_equal. by destruct go.
Qed.

(** ** Conditional expressions *)

Lemma conditional_ok n c e1 e2 : whole_level n 1 c -> as_expression n e1 -> as_expression n e2 -> as_expression (S n) (ECond c e1 e2).
Proof.
  intros Hc H1 H2 mode tbs rest s Hm (Ht & Hs & Hf). cbn [toks Nat.leb expr_level] in Ht.
  apply map_eq_app in Ht as (tbc & tb & -> & Htc & Ht). destruct tb as [|[t b] tb]; [done|]. cbn in Ht. injection Ht as -> Ht.
  apply map_eq_app in Ht as (tb1 & tb' & -> & Ht1 & Ht). destruct tb' as [|[t b'] tb2]; [done|]. cbn in Ht. injection Ht as -> Ht2.
  repeat (rewrite <- (assoc_L (++)) in Hs; cbn [app] in Hs). 
  assert (Hi : input 1 c tbc ((TOp 63, b) :: tb1 ++ (TOp ch_colon, b') :: tb2 ++ rest) s) by (split; [done|split; [done|vm_compute; lia]]).
  specialize (Hc mode tbc _ s Hm Hi eq_refl). cbn [Expr.expression]. unfold conditional_expression.
  replace (den_in mode (ECond c e1 e2)) with (bindo (den_in mode c) (fun a => let b := if mode =? MODE_NORMAL then negb (as_s a =? 0) else false in
    bindo (den_in (if b then mode else MODE_SKIP) e1) (fun x => bindo (den_in (if negb b then mode else MODE_SKIP) e2) (fun y => Val (if b then x else y))))).
  2: { unfold den_in. destruct (mode =? MODE_NORMAL) eqn:Em.
       - cbn [den]. destruct (den word c) as [a| | |]; cbn [bindo]; try done. destruct (as_s a =? 0); cbn [negb]; rewrite Em; cbn [Z.eqb MODE_SKIP MODE_NORMAL bindo]; [by destruct (den word e2)|by destruct (den word e1)].
       - cbn. by rewrite Em. }
  eapply gives_then; [exact Hc|]. intros a s1 Ea Hs1. cbn beta. eapply gives_runs; [by apply the_sy_runs|]. cbn [head_sy Z.eqb Pos.eqb].
  eapply gives_runs; [apply (boolean_num mode a s1 Hm); by eapply den_in_ok|]. cbn beta iota zeta. set (q := if mode =? MODE_NORMAL then _ else _).
  destruct (stream_next fuel _ _ _ s1 Hs1) as (s2 & R2 & Hs2). eapply gives_runs; [exact R2|].
  assert (Hm1 : is_mode (if q then mode else MODE_SKIP)) by (destruct q; [done|by right]). assert (Hm2 : is_mode (if negb q then mode else MODE_SKIP)) by (destruct q; [by right|done]).
  assert (Hi1 : input 0 e1 tb1 ((TOp ch_colon, b') :: tb2 ++ rest) s2) by (split; [done|split; [done|vm_compute; lia]]).
  eapply gives_then; [exact (H1 _ tb1 _ s2 Hm1 Hi1)|]. intros x s3 _ Hs3. cbn beta. eapply gives_runs; [by apply (expect_runs ch_colon _ s3 Hs3)|].
  destruct (stream_next fuel _ _ _ s3 Hs3) as (s4 & R4 & Hs4). eapply gives_runs; [exact R4|].
  eapply gives_then; [exact (H2 _ tb2 rest s4 Hm2 (conj Ht2 (conj Hs4 Hf)))|]. intros y s5 _ Hs5. exists s5. split; [|done]. cbn beta. by destruct q.
Qed.

(** ** All expressions *)

(** An expression is read at every level, with fuel for its symbols. *)
Definition parses e : Prop :=
  (forall n l, (1 <= l <= 10)%nat -> (length (toks l e) <= n)%nat -> (length (toks l e) < fuel)%nat -> at_level n l e) /\
  (forall n m, (length (toks 11 e) <= n)%nat -> (length (toks 11 e) < m)%nat -> (length (toks 11 e) < fuel)%nat -> as_unary n m e) /\
  (forall n, (length (toks 0 e) < n)%nat -> (length (toks 0 e) < fuel)%nat -> as_expression n e).

Lemma parses_whole n l e : parses e -> (1 <= l <= 11)%nat -> (length (toks l e) <= n)%nat -> (length (toks l e) < fuel)%nat -> whole_level n l e.
Proof.
  intros (Ha & Hb & _) Hl Hn Hf. destruct (decide (l = 11%nat)) as [->|Hne]; [by apply unary_whole, Hb|]. apply level_whole; [lia|done|]. apply Ha; [lia|done|done].
Qed.

(** Levels of a unary expression. *)
Lemma parses_unary e : expr_level e = 11%nat ->
  (forall n m, (length (toks 11 e) <= n)%nat -> (length (toks 11 e) < m)%nat -> (length (toks 11 e) < fuel)%nat -> as_unary n m e) -> parses e.
Proof.
  intros Hlev Hb.
  assert (Ha : forall n l, (1 <= l <= 10)%nat -> (length (toks l e) <= n)%nat -> (length (toks l e) < fuel)%nat -> at_level n l e).
  { intros n l Hl. apply (descend e 11); [lia| |lia|intros; lia]. intros n' Hn Hf. by apply unary_whole, Hb. }
  split; [exact Ha|]. split; [exact Hb|]. intros n Hn Hf. destruct n as [|n]; [lia|]. apply level_expression; [lia|].
  rewrite toks_step in Hn, Hf by lia. apply level_whole; [lia|done|]. apply Ha; lia.
Qed.

(** Levels of an expression of level [L] that is read there. *)
Lemma parses_lower e : (expr_level e < 11)%nat ->
  (forall n, (length (toks 0 e) < n)%nat -> (length (toks 0 e) < fuel)%nat -> as_expression n e) ->
  (forall n l, (1 <= l <= expr_level e)%nat -> (length (toks l e) <= n)%nat -> (length (toks l e) < fuel)%nat -> at_level n l e) -> parses e.
Proof.
  intros Hlev Hc Hlow.
  assert (Hb : forall n m, (length (toks 11 e) <= n)%nat -> (length (toks 11 e) < m)%nat -> (length (toks 11 e) < fuel)%nat -> as_unary n m e).
  { intros n m. rewrite (toks_0 11). replace (11 <=? expr_level e)%nat with false by (symmetry; apply Nat.leb_gt; lia). cbn [length]. rewrite length_app. cbn [length].
    intros Hn Hm Hf. destruct m as [|m]; [lia|]. apply paren_unary; [done|lia|]. apply Hc; lia. }
  split; [|done]. intros n l Hl Hn Hf. destruct (decide (l <= expr_level e)%nat) as [Hle|Hgt]; [by apply Hlow; [lia|..]|].
  apply (descend e 11); [lia| |lia|intros; lia|done|done]. intros n' Hn' Hf'. by apply unary_whole, Hb.
Qed.

(** Expressions with a binary operator of level [L]. *)
Lemma parses_binary e : (1 <= expr_level e <= 10)%nat ->
  (forall n, (length (toks (expr_level e) e) <= n)%nat -> (length (toks (expr_level e) e) < fuel)%nat -> at_level n (expr_level e) e) -> parses e.
Proof.
  intros Hlev Hat.
  assert (Hlow : forall n l, (1 <= l <= expr_level e)%nat -> (length (toks l e) <= n)%nat -> (length (toks l e) < fuel)%nat -> at_level n l e).
  { intros n l Hl Hn Hf. destruct (decide (l = expr_level e)) as [->|Hne]; [by apply Hat|].
    apply (descend e (expr_level e)); [lia| |lia|intros; lia|done|done]. intros n' Hn' Hf'. apply level_whole; [lia|done|]. by apply Hat. }
  apply parses_lower; [lia| |done]. intros n Hn Hf. destruct n as [|n]; [lia|]. apply level_expression; [lia|]. rewrite toks_step in Hn, Hf by lia.
  apply level_whole; [lia|done|]. apply Hlow; lia.
Qed.

Lemma all_parse e : parses e.
Proof.
  induction e as [l|o e IH|o e1 IH1 e2 IH2|e1 IH1 e2 IH2|e1 IH1 e2 IH2|c IHc e1 IH1 e2 IH2].
  - apply parses_unary; [done|]. intros n m _ Hm Hf. destruct m as [|m]; [lia|]. apply literal_unary. lia.
  - apply parses_unary; [done|]. cbn [toks expr_level Nat.leb length]. intros n m Hn Hm Hf. destruct m as [|m]; [lia|]. apply unary_unary. destruct IH as (_ & IH & _). apply IH; lia.
  - apply parses_binary; [destruct o; cbn; lia|]. cbn [expr_level]. intros n Hn Hf. pose proof Hf as Hf'. cbn [toks expr_level] in Hn, Hf'. rewrite Nat.leb_refl, length_app in Hn, Hf'. cbn [length] in Hn, Hf'.
    apply binary_level; [done| |].
    + destruct IH1 as (IH1 & _). apply IH1; [destruct o; cbn; lia|lia|lia].
    + apply parses_whole; [done|destruct o; cbn; lia|lia|lia].
  - apply parses_binary; [cbn; lia|]. cbn [toks expr_level Nat.leb]. rewrite length_app. cbn [length]. intros n Hn Hf. apply (logical_level_ok n true e1 e2).
    + cbn [logical_level logical_expr toks expr_level Nat.leb]. rewrite length_app. cbn [length]. lia.
    + destruct IH1 as (IH1 & _). apply IH1; cbn [logical_level]; lia.
    + apply parses_whole; [done|cbn; lia|cbn [logical_level]; lia|cbn [logical_level]; lia].
  - apply parses_binary; [cbn; lia|]. cbn [toks expr_level Nat.leb]. rewrite length_app. cbn [length]. intros n Hn Hf. apply (logical_level_ok n false e1 e2).
    + cbn [logical_level logical_expr toks expr_level Nat.leb]. rewrite length_app. cbn [length]. lia.
    + destruct IH1 as (IH1 & _). apply IH1; cbn [logical_level]; lia.
    + apply parses_whole; [done|cbn; lia|cbn [logical_level]; lia|cbn [logical_level]; lia].
  - apply parses_lower; [cbn; lia| |cbn; lia]. cbn [toks expr_level Nat.leb]. rewrite length_app. cbn [length]. rewrite length_app. cbn [length]. intros n Hn Hf. destruct n as [|n]; [lia|].
    apply conditional_ok.
    + apply parses_whole; [done|lia|lia|lia].
    + destruct IH1 as (_ & _ & IH1). apply IH1; lia.
    + destruct IH2 as (_ & _ & IH2). apply IH2; lia.
Qed.
End Parse.
