(* ===== verification/ExprCorrect.v ===== *)
(** * Evaluation of texts (Expr.v, ExprSpec.v, services/expressions.c)

    The value of the text of an expression is the value of the expression. *)

From S2P Require Import Prelude ExprValue ExprLex Expr ExprSpec ExprNum ExprOps ExprTokens ExprParse.

Lemma toks_ok l e : expr_ok e -> Forall tok_ok (toks l e).
Proof.
  assert (Hop : forall sy, sy ∈ operators -> tok_ok (TOp sy)) by done.
  assert (Hin : forall sy, bool_decide (sy ∈ operators) = true -> tok_ok (TOp sy)) by (intros sy Hs; by apply bool_decide_eq_true in Hs).
  revert l. induction e as [x|o e IH|o e1 IH1 e2 IH2|e1 IH1 e2 IH2|e1 IH1 e2 IH2|c IHc e1 IH1 e2 IH2]; intros l He; rewrite toks_0.
  all: match goal with |- Forall _ (if _ then ?ts else _) => assert (Forall tok_ok ts) as Hts end.
  all: try (destruct (_ <=? _)%nat; [exact Hts|]; constructor; [by apply Hin|]; apply Forall_app; split; [exact Hts|]; constructor; [by apply Hin|constructor]).
  all: cbn [expr_ok] in He; cbn [toks expr_level Nat.leb].
  - by constructor.
  - constructor; [destruct o; by apply Hin|by apply IH].
  - destruct He. apply Forall_app. split; [by apply IH1|]. constructor; [destruct o; by apply Hin|by apply IH2].
  - destruct He. apply Forall_app. split; [by apply IH1|]. constructor; [by apply Hin|by apply IH2].
  - destruct He. apply Forall_app. split; [by apply IH1|]. constructor; [by apply Hin|by apply IH2].
  - destruct He as (? & ? & ?). apply Forall_app. split; [by apply IHc|]. constructor; [by apply Hin|]. apply Forall_app. split; [by apply IH1|]. constructor; [by apply Hin|by apply IH2].
Qed.

Lemma spell_length ts : Forall (fun x => tok_ok (fst x)) ts -> (length ts <= length (spell ts))%nat.
Proof.
  induction 1 as [|[t b] ts Ht _ IH]; [done|]. cbn [spell length]. destruct (tok_head t Ht) as (c & -> & _). rewrite !length_app. cbn [length]. lia.
Qed.

(** White space after every symbol. *)
Lemma spaced_spaces ts : spaced (map (fun t => (t, [ch_space])) ts).
Proof. induction ts as [|t ts IH]; [done|]. split; [by repeat constructor|]. split; [by left|done]. Qed.

Section Correct.
Context `{ExprEnv}.
Variables (ctx frame : Z).
Notation word := (ctx_word_size ctx).

(** C4: Expressions are evaluated as in C.  The text of an expression of literals and operators, with as few parentheses as the
    precedence of the operators of C allows or with more, and with white space wherever it is wanted, is read as that expression: its
    value is the value of the expression, its error is the error of the first operand that has one, and operands that
    are not needed are read but not evaluated. *)
Theorem expression_evaluates e b ts load : ctx_word_size ctx ∈ [1; 2; 4; 8] -> expr_ok e ->
  map fst ts = toks 0 e -> spaced ts -> Forall (fun c => blank c = true) b ->
  evaluate_expression (Some ctx) frame (b ++ spell ts) load = value_of (den (ctx_word_size ctx) e).
Proof.
  intros Hword He Ht Hsp Hb. set (s := b ++ spell ts). set (fuel := expr_fuel s).
  assert (Hok : Forall (fun x => tok_ok (fst x)) ts).
  { pose proof (toks_ok 0 e He) as Hok. rewrite <- Ht in Hok. exact (proj1 (List.Forall_map fst tok_ok ts) Hok). }
  pose proof (spell_length ts Hok) as Hlen. pose proof (toks_pos 0 e) as Hpos. assert (Hn : length ts = length (toks 0 e)) by (rewrite <- Ht; symmetry; apply length_map).
  assert (Hfu : (length (toks 0 e) < fuel)%nat) by (unfold fuel, expr_fuel, s; rewrite length_app; lia).
  assert (Hne : s <> []) by (intros E; apply (f_equal length) in E; unfold s in E; rewrite length_app in E; cbn in E; lia).
  unfold evaluate_expression, evaluate_script. rewrite bool_decide_false by done. fold fuel.
  set (s0 := mkLex (s ++ [0]) 0 0 0 0 ini_value 0). set (s1 := set_pos 1 (deref (s ++ [0])) s0).
  assert (R1 : runs next_ch s0 tt s1) by (unfold runs, next_ch, modify; cbn; by destruct s).
  assert (H1 : here s1 (b ++ spell ts)) by (split; [done|by split]). rewrite (bind_runs _ _ _ _ _ R1).
  destruct (next_sy_runs fuel b ts s1 Hb Hsp Hok) as (s2 & R2 & Hs2); [unfold fuel, expr_fuel, s; lia|done|]. rewrite (bind_runs _ _ _ _ _ R2).
  destruct (all_parse ctx frame fuel Hword e) as (_ & _ & Hp). rewrite <- (app_nil_r ts) in Hs2.
  specialize (Hp fuel Hfu Hfu MODE_NORMAL ts [] s2 (or_introl eq_refl) (conj Ht (conj Hs2 I))). unfold gives, den_in in Hp. cbn [Z.eqb MODE_NORMAL] in Hp.
  unfold bind at 1. destruct (den word e) as [t|c| |]; [|destruct Hp as [s' ->]; done..|done].
  destruct Hp as (s3 & -> & Hs3). cbn [ret]. rewrite (bind_runs _ _ _ _ _ (expect_runs fuel 0 [] s3 Hs3 eq_refl)). by destruct load.
Qed.
End Correct.

(** An agent with one context of 8 bytes a word, without registers and memory. *)
Definition plain_env : ExprEnv := {|
  ctx_id := fun _ => str "P1";
  ctx_parents := fun _ => [];
  ctx_word_size := fun _ => 8;
  ctx_exited := fun _ => false;
  ctx_stopped := fun _ => true;
  ctx_has_state := fun _ => true;
  ctx_read_running := fun _ => false;
  reg_definitions := fun _ => [];
  id2ctx := fun _ => 0;
  id2register := fun _ => inl ERR_INV_CONTEXT;
  context_read_reg := fun _ _ => inl ERR_INV_CONTEXT;
  read_frame_reg := fun _ _ _ => inl ERR_INV_CONTEXT;
  context_read_mem := fun _ _ n => inr (repeat 0 (Z.to_nat n));
  read_location_pieces := fun _ _ _ => inl ERR_INV_CONTEXT;
  sign_extend := fun v _ => v;
  id_callbacks := [];
  call_func_cb := fun _ _ v _ => inr v;
  call_field_cb := fun _ _ v _ => inr v;
  big_endian_host := false |}.

Module ExprExample.
#[export] Existing Instance plain_env.

Definition dec (s : string) : expr := ELit (LDec (str s) []).

(** [1 + 2 * 3 < 8 && 1 << 4 == 0x10 ? (7 | 8) - ~0 : 1 / 0] *)
Definition e : expr :=
  ECond (ELAnd (EBin BLt (EBin BAdd (dec "1") (EBin BMul (dec "2") (dec "3"))) (dec "8"))
               (EBin BEq (EBin BShl (dec "1") (dec "4")) (ELit (LHex (str "10") []))))
    (EBin BSub (EBin BOr (dec "7") (dec "8")) (EUn UCompl (ELit (LOct [] []))))
    (EBin BDiv (dec "1") (ELit (LOct [] []))).

Definition ts : list (token * list Z) := map (fun t => (t, [ch_space])) (toks 0 e).

Lemma e_text : spell ts = str "1 + 2 * 3 < 8 && 1 << 4 == 0x10 ? ( 7 | 8 ) - ~ 0 : 1 / 0 ".
Proof. reflexivity. Qed.

Lemma expression_evaluates_witness :
  evaluate_expression (Some 1) STACK_TOP_FRAME ([ch_space] ++ spell ts) true = value_of (den 8 e) /\ den 8 e = Val (s64 16).
Proof.
  split; [|reflexivity]. apply (expression_evaluates 1 STACK_TOP_FRAME e [ch_space] ts true).
  - cbn. repeat constructor.
  - cbn. repeat split; try discriminate; repeat constructor.
  - reflexivity.
  - apply spaced_spaces.
  - repeat constructor.
Defined.
End ExprExample.
