(* ===== verification/ExprFlaws.v ===== *)
(** * Expressions that are not evaluated as in C (Expr.v, services/expressions.c)

    Texts on which the evaluator traps, does not end or gives another value than C. *)

From Stdlib Require Import SpecFloat.
From S2P Require Import Prelude ExprValue ExprLex Expr ExprSpec ExprCorrect.

(** The class, the size and the number of a whole number without scales. *)
Definition number_of `{ExprEnv} (o : outcome Value) : outcome (Z * Z * Z) :=
  match o with
  | Val v =>
      match v_value v with
      | Some d => Val (v_type_class v, v_size v, (if v_type_class v =? TYPE_CLASS_CARDINAL then id else swrap (8 * v_size v)) (le_value (order big_endian_host d)))
      | None => Fault
      end
  | Throw e => Throw e
  | Fault => Fault
  | NoFuel => NoFuel
  end.

(** The reader is in a name between braces that are not closed. *)
Definition unclosed (s : Lex) : Prop := lx_ch s <> ch_rcur /\ Forall (fun c => c <> ch_rcur) (drop (lx_pos s) (lx_text s)).

Section Endless.
Context `{ExprEnv}.

Lemma next_ch_unclosed s : unclosed s -> exists s', next_ch s = (Val tt, s') /\ unclosed s'.
Proof.
  intros [Hc Hf]. unfold next_ch, modify. eexists. split; [reflexivity|].
  destruct (lx_text s !! lx_pos s) as [ch|] eqn:E; [|by split]. rewrite (drop_S _ _ _ E) in Hf. by inversion Hf.
Qed.

Lemma brace_loop_unclosed n len s : unclosed s -> exists s', brace_loop n len s = (NoFuel, s').
Proof.
  revert len s. induction n as [|n IH]; intros len s Hs; [by eexists|]. cbn [brace_loop]. unfold bind, the_ch, gets.
  destruct Hs as [Hc Hf]. rewrite (proj2 (Z.eqb_neq _ _) Hc). destruct (next_ch_unclosed s (conj Hc Hf)) as (s' & -> & Hs'). by apply IH.
Qed.

(** [${] without a closing brace: whatever the fuel, the loop has not ended. *)
Lemma unclosed_brace_endless ctx frame fuel text load : Forall (fun c => c <> ch_rcur) text ->
  evaluate_script ctx frame fuel MODE_NORMAL (str "${" ++ text) load = NoFuel.
Proof.
  intros Ht. unfold evaluate_script. rewrite bool_decide_false by done.
  set (s1 := mkLex ((str "${" ++ text) ++ [0]) 1 36 0 0 ini_value 0). unfold bind at 1. change (next_ch _) with (@Val unit tt, s1). cbv beta iota.
  destruct fuel as [|fuel]; [done|]. unfold next_sy.
  assert (E : exists s', next_sy_loop (S fuel) (S fuel) s1 = (NoFuel, s')); [|destruct E as [s' E]; unfold bind at 1; by rewrite E].
  set (s2 := mkLex ((str "${" ++ text) ++ [0]) 2 ch_lcur 0 0 ini_value 0).
  change (exists s', braced_name (S fuel) s2 = (NoFuel, s')). unfold braced_name, bind, gets.
  destruct (next_ch s2) as [r s3] eqn:E3. unfold next_ch, modify in E3.
  assert (Hs : unclosed s3 /\ r = Val tt).
  { injection E3 as <- <-. split; [|done]. unfold unclosed. cbn.
    assert (Hf : Forall (fun c => c <> ch_rcur) (text ++ [0])) by (apply Forall_app; split; [done|by constructor]).
    destruct (text ++ [0]) as [|c l] eqn:E; [by destruct text|]. inversion Hf. split; [done|]. cbn. by rewrite E. }
  destruct Hs as [Hs ->]. destruct (brace_loop_unclosed (S fuel) 0 s3 Hs) as [s' ->]. by eexists.
Qed.
End Endless.

(** ** The texts *)

#[local] Existing Instance plain_env.
Definition calc (s : string) : outcome (Z * Z * Z) := number_of (evaluate_expression (Some 1) STACK_TOP_FRAME (str s) true).

(** Texts that the evaluator does not take as C.  [-] has no effect on a number without sign, as all hexadecimal and octal literals are.  A
    suffix [u] of zero is ignored, and the class of the left operand of [&] is changed before its sign is extended.  [sizeof] of an
    expression between parentheses that is not one operand, and characters by two hexadecimal digits, are
    refused, and zero with a large exponent is not a number.  A division of the least number by -1 and a shift by 64 bits are
    done by the machine, a trap or an undefined result.  An exponent of -2147483648 and [${] without a closing brace
    are read without end, whatever the fuel. *)
Example expressions_not_C :
  calc "-0x10" = Val (TYPE_CLASS_CARDINAL, 1, 16) /\
  calc "~0u" = Val (TYPE_CLASS_INTEGER, 1, -1) /\
  calc "-1 & 0xffff" = Val (TYPE_CLASS_CARDINAL, 8, 255) /\
  calc "sizeof (1 + 2)" = Throw ERR_INV_EXPRESSION /\
  calc "'\x41'" = Throw ERR_INV_EXPRESSION /\ calc "'\x041'" = Val (TYPE_CLASS_INTEGER, 1, 65) /\
  calc "0e400 == 0e400" = Val (TYPE_CLASS_ENUMERATION, 8, 0) /\
  calc "(-9223372036854775807 - 1) / -1" = Fault /\ calc "(-9223372036854775807 - 1) % -1" = Fault /\
  calc "1 << 64" = Fault /\
  str_to_double (str "0e-2147483648") = None /\
  forall fuel : nat, evaluate_script (Some 1) STACK_TOP_FRAME fuel MODE_NORMAL (str "${R1") true = NoFuel.
Proof. repeat split. intros fuel. apply (unclosed_brace_endless (Some 1) _ fuel (str "R1")). by repeat constructor. Qed.
