(* ===== verification/Peers.v ===== *)
(** * Peers (framework/peer.c, peer.h)

    The list of known peers: objects with properties and an expiration time, listeners, and the timer that removes
    peers that have not been heard of.  Peers and strings are blocks of memory at addresses; a null pointer is 0. *)

From S2P Require Import Prelude.

Definition PS_FLAG_LOCAL : Z := 1.
Definition PS_FLAG_PRIVATE : Z := 2.
Definition PS_FLAG_DISCOVERABLE : Z := 4.

Definition PS_EVENT_ADDED : Z := 0.
Definition PS_EVENT_CHANGED : Z := 1.
Definition PS_EVENT_HEART_BEAT : Z := 2.
Definition PS_EVENT_REMOVED : Z := 3.

(** [PeerServer]; [list] with its first [ind] elements, the names and values, and its length [max]. *)
Record PeerServer := mkPS {
  ps_id : Z;
  ps_max : Z;
  ps_list : list (Z * Z);
  ps_flags : Z;
  ps_creation_time : Z;
  ps_expiration_time : Z;
  ps_next : Z;
  ps_listed : bool }.

Definition ps_set_id (id : Z) (o : PeerServer) : PeerServer :=
  mkPS id (ps_max o) (ps_list o) (ps_flags o) (ps_creation_time o) (ps_expiration_time o) (ps_next o) (ps_listed o).
Definition ps_set_list (max : Z) (l : list (Z * Z)) (o : PeerServer) : PeerServer :=
  mkPS (ps_id o) max l (ps_flags o) (ps_creation_time o) (ps_expiration_time o) (ps_next o) (ps_listed o).
Definition ps_set_flags (f : Z) (o : PeerServer) : PeerServer :=
  mkPS (ps_id o) (ps_max o) (ps_list o) f (ps_creation_time o) (ps_expiration_time o) (ps_next o) (ps_listed o).
Definition ps_set_times (creation expiration : Z) (o : PeerServer) : PeerServer :=
  mkPS (ps_id o) (ps_max o) (ps_list o) (ps_flags o) creation expiration (ps_next o) (ps_listed o).
Definition ps_set_next (p : Z) (o : PeerServer) : PeerServer :=
  mkPS (ps_id o) (ps_max o) (ps_list o) (ps_flags o) (ps_creation_time o) (ps_expiration_time o) p (ps_listed o).
Definition ps_set_listed (b : bool) (o : PeerServer) : PeerServer :=
  mkPS (ps_id o) (ps_max o) (ps_list o) (ps_flags o) (ps_creation_time o) (ps_expiration_time o) (ps_next o) b.

(** The static variables, the blocks of memory, and what the listeners change.  [pr_next] is the next
    address that has not been used; [pr_timers] is the number of posted calls of [clear_stale_peers]; [pr_calls] records the calls of
    listeners: the listener, the identifier of the peer and the type of the event. *)
Record PeerState (W : Type) := mkPeers {
  pr_objs : gmap Z PeerServer;
  pr_strs : gmap Z (list Z);
  pr_next : Z;
  pr_peers : Z;
  pr_listeners : list (Z * Z);
  pr_listeners_max : Z;
  pr_stale_timer_active : bool;
  pr_timers : Z;
  pr_calls : list (Z * list Z * Z);
  pr_world : W }.

Arguments mkPeers {W}.
Arguments pr_objs {W}.
Arguments pr_strs {W}.
Arguments pr_next {W}.
Arguments pr_peers {W}.
Arguments pr_listeners {W}.
Arguments pr_listeners_max {W}.
Arguments pr_stale_timer_active {W}.
Arguments pr_timers {W}.
Arguments pr_calls {W}.
Arguments pr_world {W}.

Section Peers.
Context {W : Type}.

Notation X := (M (PeerState W)).

Definition set_objs (f : gmap Z PeerServer -> gmap Z PeerServer) (s : PeerState W) : PeerState W :=
  mkPeers (f (pr_objs s)) (pr_strs s) (pr_next s) (pr_peers s) (pr_listeners s) (pr_listeners_max s) (pr_stale_timer_active s) (pr_timers s) (pr_calls s) (pr_world s).
Definition set_strs (f : gmap Z (list Z) -> gmap Z (list Z)) s : PeerState W :=
  mkPeers (pr_objs s) (f (pr_strs s)) (pr_next s) (pr_peers s) (pr_listeners s) (pr_listeners_max s) (pr_stale_timer_active s) (pr_timers s) (pr_calls s) (pr_world s).
Definition set_next n (s : PeerState W) : PeerState W :=
  mkPeers (pr_objs s) (pr_strs s) n (pr_peers s) (pr_listeners s) (pr_listeners_max s) (pr_stale_timer_active s) (pr_timers s) (pr_calls s) (pr_world s).
Definition set_peers p (s : PeerState W) : PeerState W :=
  mkPeers (pr_objs s) (pr_strs s) (pr_next s) p (pr_listeners s) (pr_listeners_max s) (pr_stale_timer_active s) (pr_timers s) (pr_calls s) (pr_world s).
Definition set_listeners l n (s : PeerState W) : PeerState W :=
  mkPeers (pr_objs s) (pr_strs s) (pr_next s) (pr_peers s) l n (pr_stale_timer_active s) (pr_timers s) (pr_calls s) (pr_world s).
Definition set_timer b n (s : PeerState W) : PeerState W :=
  mkPeers (pr_objs s) (pr_strs s) (pr_next s) (pr_peers s) (pr_listeners s) (pr_listeners_max s) b n (pr_calls s) (pr_world s).
Definition add_call c (s : PeerState W) : PeerState W :=
  mkPeers (pr_objs s) (pr_strs s) (pr_next s) (pr_peers s) (pr_listeners s) (pr_listeners_max s) (pr_stale_timer_active s) (pr_timers s) (pr_calls s ++ [c]) (pr_world s).
Definition set_world w (s : PeerState W) : PeerState W :=
  mkPeers (pr_objs s) (pr_strs s) (pr_next s) (pr_peers s) (pr_listeners s) (pr_listeners_max s) (pr_stale_timer_active s) (pr_timers s) (pr_calls s) w.

(** The call of the function of a listener for a peer, with the type of the event and the argument of the listener. *)
Variable call_listener : Z -> Z -> Z -> Z -> X unit.

(** The bound of the loops, more than the number of peers and of listeners. *)
Variable fuel : nat.

(** ** Memory *)

Definition load_peer (p : Z) : X PeerServer :=
  let! m := gets pr_objs in match m !! p with Some o => ret o | None => fault end.
Definition update_peer (f : PeerServer -> PeerServer) (p : Z) : X unit :=
  let! o := load_peer p in modify (set_objs <[p := f o]>).
Definition the_str (q : Z) : X (list Z) :=
  let! m := gets pr_strs in match m !! q with Some t => ret t | None => fault end.

(** [loc_free] of a string; a null pointer is ignored. *)
Definition free_str (q : Z) : X unit :=
  if q =? 0 then ret tt else the_str q ;! modify (set_strs (delete q)).

(** A string that a client makes, with [loc_strdup] and the like. *)
Definition new_str (t : list Z) : X Z :=
  let! p := gets pr_next in
  modify (set_next (p + 1)) ;!
  modify (set_strs <[p := t]>) ;!
  ret p.

(** The pointer [*sp], where [sp] is the field [next] of a peer, or [peers] for 0. *)
Definition get_link (sp : Z) : X Z := if sp =? 0 then gets pr_peers else let! o := load_peer sp in ret (ps_next o).
Definition set_link (sp p : Z) : X unit := if sp =? 0 then modify (set_peers p) else update_peer (ps_set_next p) sp.

(** ** Operations *)

(** The identifier of a peer, for the record of calls. *)
Definition id_text (p : Z) (s : PeerState W) : list Z :=
  match pr_objs s !! p with Some o => default [] (pr_strs s !! ps_id o) | None => [] end.

Fixpoint notify_loop (n i : nat) (ps type : Z) : X unit :=
  match n with
  | O => nofuel
  | S n' =>
      let! l := gets pr_listeners in
      match l !! i with
      | None => ret tt
      | Some (fnp, arg) =>
          modify (fun s => add_call (fnp, id_text ps s, type) s) ;!
          call_listener fnp ps type arg ;!
          notify_loop n' (S i) ps type
      end
  end.

Definition notify_listeners (ps type : Z) : X unit :=
  let! o := load_peer ps in
  cassert (ps_listed o) ;!
  notify_loop fuel 0 ps type.

(** The loop over the names in [b]. *)
Fixpoint find_name (l : list (Z * Z)) (name : list Z) : X (option Z) :=
  match l with
  | [] => ret None
  | (pn, pv) :: l' =>
      let! n := the_str pn in
      if streq name n then ret (Some pv) else find_name l' name
  end.

Fixpoint same_props (l b : list (Z * Z)) : X bool :=
  match l with
  | [] => ret true
  | (pn, pv) :: l' =>
      let! n := the_str pn in
      let! q := find_name b n in
      match q with
      | None => ret false
      | Some q =>
          let! v := the_str pv in
          let! w := the_str q in
          if negb (streq v w) then ret false else same_props l' b
      end
  end.

Definition is_same (a b : Z) : X bool :=
  let! a := load_peer a in
  let! b := load_peer b in
  if negb (Nat.eqb (length (ps_list a)) (length (ps_list b))) then ret false
  else same_props (ps_list a) (ps_list b).

Definition peer_server_alloc : X Z :=
  let! p := gets pr_next in
  modify (set_next (p + 1)) ;!
  modify (set_objs <[p := mkPS 0 8 [] 0 0 0 0 false]>) ;!
  ret p.

(** The place of a name in the list. *)
Fixpoint find_place (l : list (Z * Z)) (name : list Z) (i : nat) : X (option nat) :=
  match l with
  | [] => ret None
  | (pn, _) :: l' =>
      let! n := the_str pn in
      if streq n name then ret (Some i) else find_place l' name (S i)
  end.

Definition peer_server_addprop (p name value : Z) : X unit :=
  let! o := load_peer p in
  cassert (negb (ps_listed o)) ;!
  let! n := the_str name in
  if streq n (str "ID") then
    free_str name ;!
    update_peer (ps_set_id value) p
  else
    let! i := find_place (ps_list o) n 0 in
    match i with
    | Some i =>
        free_str name ;!
        match ps_list o !! i with
        | None => fault
        | Some (pn, pv) =>
            free_str pv ;!
            update_peer (fun o => ps_set_list (ps_max o) (<[i := (pn, value)]> (ps_list o)) o) p
        end
    | None =>
        let max := if Z.of_nat (length (ps_list o)) =? ps_max o then uwrap 32 (ps_max o * 2) else ps_max o in
        cassert (Z.of_nat (length (ps_list o)) <? max) ;!
        update_peer (fun o => ps_set_list max (ps_list o ++ [(name, value)]) o) p
    end.

Definition peer_server_getprop (p : Z) (name : list Z) (default_value : Z) : X Z :=
  let! o := load_peer p in
  let! v := find_name (ps_list o) name in
  ret (default default_value v).

(** The loop from the last property to the first. *)
Fixpoint free_props (l : list (Z * Z)) : X unit :=
  match l with
  | [] => ret tt
  | (pn, pv) :: l' => free_str pn ;! free_str pv ;! free_props l'
  end.

Definition peer_server_free (p : Z) : X unit :=
  let! o := load_peer p in
  cassert (negb (ps_listed o)) ;!
  free_props (rev (ps_list o)) ;!
  free_str (ps_id o) ;!
  modify (set_objs (delete p)).

Definition expires (now stale_delta : Z) : Z := swrap 64 (now + stale_delta).

Definition has_flag (f flags : Z) : bool := negb (Z.land flags f =? 0).

(** The loop of [peer_server_add]: the old peer if it stays, or the type of the event. *)
Fixpoint add_loop (k : nat) (now n stale_delta sp : Z) : X (Z + Z) :=
  match k with
  | O => nofuel
  | S k' =>
      let! s := get_link sp in
      if s =? 0 then ret (inr PS_EVENT_ADDED)
      else
        let! os := load_peer s in
        let! on := load_peer n in
        let! ids := the_str (ps_id os) in
        let! idn := the_str (ps_id on) in
        if streq ids idn then
          let! keep := (if has_flag PS_FLAG_LOCAL (ps_flags os) && negb (has_flag PS_FLAG_LOCAL (ps_flags on)) then ret true else is_same s n) in
          if keep then
            update_peer (fun o => ps_set_times (ps_creation_time o) (expires now stale_delta) o) s ;!
            (if negb (has_flag PS_FLAG_LOCAL (ps_flags os)) then update_peer (ps_set_flags (ps_flags on)) s else ret tt) ;!
            peer_server_free n ;!
            notify_listeners s PS_EVENT_HEART_BEAT ;!
            ret (inl s)
          else
            set_link sp (ps_next os) ;!
            update_peer (ps_set_listed false) s ;!
            peer_server_free s ;!
            ret (inr PS_EVENT_CHANGED)
        else add_loop k' now n stale_delta s
  end.

Definition post_stale_timer : X unit := modify (fun s => set_timer (pr_stale_timer_active s) (pr_timers s + 1) s).

Definition peer_server_add (now n stale_delta : Z) : X Z :=
  let! on := load_peer n in
  cassert (negb (ps_listed on)) ;!
  let! r := add_loop fuel now n stale_delta 0 in
  match r with
  | inl s => ret s
  | inr type =>
      let! first := gets pr_peers in
      update_peer (fun o => ps_set_next first (ps_set_times now (expires now stale_delta) (ps_set_listed true o))) n ;!
      modify (set_peers n) ;!
      notify_listeners n type ;!
      let! active := gets pr_stale_timer_active in
      (if negb active then modify (fun s => set_timer true (pr_timers s) s) ;! post_stale_timer else ret tt) ;!
      ret n
  end.

Fixpoint find_loop (k : nat) (id : list Z) (s : Z) : X Z :=
  match k with
  | O => nofuel
  | S k' =>
      if s =? 0 then ret 0
      else
        let! o := load_peer s in
        let! i := the_str (ps_id o) in
        if streq i id then ret s else find_loop k' id (ps_next o)
  end.

Definition peer_server_find (id : list Z) : X Z := let! s := gets pr_peers in find_loop fuel id s.

(** A peer is taken out of the list, and freed after the listeners have been told. *)
Definition remove_peer (sp s : Z) : X unit :=
  let! o := load_peer s in
  set_link sp (ps_next o) ;!
  notify_listeners s PS_EVENT_REMOVED ;!
  update_peer (ps_set_listed false) s ;!
  peer_server_free s.

Fixpoint remove_loop (k : nat) (id : list Z) (sp : Z) : X unit :=
  match k with
  | O => nofuel
  | S k' =>
      let! s := get_link sp in
      if s =? 0 then ret tt
      else
        let! o := load_peer s in
        let! i := the_str (ps_id o) in
        if streq i id then remove_peer sp s else remove_loop k' id s
  end.

Definition peer_server_remove (id : list Z) : X unit := remove_loop fuel id 0.

(** The loop of [clear_stale_peers], with [keep_timer]. *)
Fixpoint clear_loop (k : nat) (now sp : Z) (keep_timer : bool) : X bool :=
  match k with
  | O => nofuel
  | S k' =>
      let! s := get_link sp in
      if s =? 0 then ret keep_timer
      else
        let! o := load_peer s in
        if ps_expiration_time o <=? now then
          remove_peer sp s ;!
          clear_loop k' now sp keep_timer
        else clear_loop k' now s true
  end.

Definition clear_stale_peers (now : Z) : X unit :=
  let! keep_timer := clear_loop fuel now 0 false in
  if keep_timer then post_stale_timer else modify (fun s => set_timer false (pr_timers s) s).

(** The timer: the event loop takes a posted call. *)
Definition dispatch_stale_timer (now : Z) : X unit :=
  let! n := gets pr_timers in
  cassert (0 <? n) ;!
  modify (fun s => set_timer (pr_stale_timer_active s) (pr_timers s - 1) s) ;!
  clear_stale_peers now.

Fixpoint iter_loop (k : nat) (fnp : Z -> X Z) (s : Z) : X Z :=
  match k with
  | O => nofuel
  | S k' =>
      if s =? 0 then ret 0
      else
        let! rval := fnp s in
        if negb (rval =? 0) then ret rval
        else let! o := load_peer s in iter_loop k' fnp (ps_next o)
  end.

Definition peer_server_iter (fnp : Z -> X Z) : X Z := let! s := gets pr_peers in iter_loop fuel fnp s.

Definition peer_server_add_listener (fnp arg : Z) : X unit :=
  let! l := gets pr_listeners in
  let! max := gets pr_listeners_max in
  let max := if max =? 0 then 4 else if Z.of_nat (length l) =? max then swrap 32 (max * 2) else max in
  cassert (Z.of_nat (length l) <? max) ;!
  modify (set_listeners (l ++ [(fnp, arg)]) max).
End Peers.
