(* ===== verification/PeerProps.v ===== *)
(** * Memory of peers (Peers.v, framework/peer.c)

    What the blocks of memory of peer.c stand for: every peer owns its strings, nothing is shared, and only the identifier that a second one replaces is lost. *)

From S2P Require Import Prelude Peers.

(** A peer without its identifier: properties, flags and times. *)
Record Info := mkInfo { in_props : gmap (list Z) (list Z); in_flags : Z; in_creation : Z; in_expires : Z }.

Definition no_info : Info := mkInfo ∅ 0 0 0.

(** What an object stands for: whether it is in the list of peers, its identifier if it has one, and the rest. *)
Notation view := (bool * option (list Z) * Info)%type.

Definition prop_views (m : gmap Z (list Z)) (l : list (Z * Z)) (kvs : list (list Z * list Z)) : Prop :=
  Forall2 (fun q kv => m !! q.1 = Some kv.1 /\ m !! q.2 = Some kv.2) l kvs.

Definition id_view (m : gmap Z (list Z)) (q : Z) (i : option (list Z)) : Prop :=
  match i with Some t => m !! q = Some t | None => q = 0 end.

Definition obj_view (m : gmap Z (list Z)) (o : PeerServer) (v : view) : Prop :=
  let '(listed, i, f) := v in
  ps_listed o = listed /\ id_view m (ps_id o) i /\
  ps_flags o = in_flags f /\ ps_creation_time o = in_creation f /\ ps_expiration_time o = in_expires f /\
  Z.max 8 (Z.of_nat (length (ps_list o))) <= ps_max o <= Z.max 8 (2 * Z.of_nat (length (ps_list o))) /\
  exists kvs, prop_views m (ps_list o) kvs /\ NoDup kvs.*1 /\ in_props f = list_to_map kvs.

(** The strings of an object. *)
Definition prop_ptrs (l : list (Z * Z)) : list Z := concat (map (fun q => [q.1; q.2]) l).
Definition ptrs (o : PeerServer) : list Z := (if ps_id o =? 0 then [] else [ps_id o]) ++ prop_ptrs (ps_list o).

(** [ow] maps each string to the object that owns it, or to 0 if it is owned by a client. *)
Record owns (objs : gmap Z PeerServer) (m : gmap Z (list Z)) (ow : gmap Z Z) (C : gmap Z (list Z)) : Prop := {
  ow_strs q : is_Some (ow !! q) <-> is_Some (m !! q);
  ow_objs p o : objs !! p = Some o -> p <> 0 /\ NoDup (ptrs o) /\ forall q, q ∈ ptrs o <-> ow !! q = Some p;
  ow_live q p : ow !! q = Some p -> p = 0 \/ is_Some (objs !! p);
  ow_clients q t : C !! q = Some t <-> ow !! q = Some 0 /\ m !! q = Some t;
  ow_null : m !! 0 = None }.

Section Heap.
Context {W : Type}.
Implicit Types s : PeerState W.

(** The objects are the views [V], and the strings of clients are [C]. *)
Definition heap s (V : gmap Z view) (C : gmap Z (list Z)) : Prop :=
  (forall p, option_Forall2 (obj_view (pr_strs s)) (pr_objs s !! p) (V !! p)) /\
  (exists ow, owns (pr_objs s) (pr_strs s) ow C) /\
  0 < pr_next s /\ (forall p, pr_next s <= p -> pr_objs s !! p = None /\ pr_strs s !! p = None).

Lemma heap_obj s V C p v : heap s V C -> V !! p = Some v -> exists o, pr_objs s !! p = Some o /\ obj_view (pr_strs s) o v /\ p <> 0.
Proof.
  intros (Hv & [ow Hw] & _) Hp. specialize (Hv p). rewrite Hp in Hv. inversion Hv as [o v' Ho|]; subst. exists o.
  by destruct (ow_objs _ _ _ _ Hw p o) as [? _].
Qed.

Lemma heap_none s V C p : heap s V C -> V !! p = None -> pr_objs s !! p = None.
Proof. intros (Hv & _) Hp. specialize (Hv p). rewrite Hp in Hv. by inversion Hv. Qed.

(** ** Frames *)

Lemma elem_prop_ptrs l x q : x ∈ l -> q = x.1 \/ q = x.2 -> q ∈ prop_ptrs l.
Proof.
  intros Hx Hq. unfold prop_ptrs. apply list_elem_of_In, in_concat. exists [x.1; x.2]. split; [|destruct Hq as [->| ->]; simpl; auto].
  apply in_map_iff. exists x. split; [done|]. by apply list_elem_of_In.
Qed.

Lemma prop_views_frame m m' l kvs : (forall q, q ∈ prop_ptrs l -> m' !! q = m !! q) -> prop_views m l kvs -> prop_views m' l kvs.
Proof.
  intros Hq H. apply Forall2_same_length_lookup_2; [by eapply Forall2_length|]. intros i x kv Hx Hkv.
  destruct (Forall2_lookup_lr _ _ _ _ _ _ H Hx Hkv) as [E1 E2]. apply list_elem_of_lookup_2 in Hx.
  rewrite !Hq; [done|by eapply elem_prop_ptrs; eauto..].
Qed.

Lemma obj_view_frame m m' o v : m !! 0 = None -> (forall q, q ∈ ptrs o -> m' !! q = m !! q) -> obj_view m o v -> obj_view m' o v.
Proof.
  destruct v as [[b i] f]. intros H0 Hq (? & Hi & ? & ? & ? & ? & kvs & Hk & ? & ?). unfold ptrs in Hq. split_and!; try done; try lia.
  - destruct i as [t|]; [|done]. cbn in *. rewrite Hq; [done|]. destruct (Z.eqb_spec (ps_id o) 0) as [E|]; [by rewrite E, H0 in Hi|]. set_solver.
  - exists kvs. split; [|done]. eapply prop_views_frame; [|done]. intros q ?. apply Hq. set_solver.
Qed.

(** ** Changes of what is owned *)

Definition del_all {A} (qs : list Z) (m : gmap Z A) : gmap Z A := foldl (fun m q => delete q m) m qs.

Lemma lookup_del_all {A} qs (m : gmap Z A) q : del_all qs m !! q = if bool_decide (q ∈ qs) then None else m !! q.
Proof.
  revert m. induction qs as [|q' qs IH]; intros m; [done|]. cbn [del_all foldl]. fold (del_all qs (delete q' m)). rewrite IH.
  destruct (decide (q ∈ qs)); [by rewrite !bool_decide_true by set_solver|]. rewrite bool_decide_false by done.
  destruct (decide (q = q')) as [->|]; [by rewrite lookup_delete_eq, bool_decide_true by set_solver|].
  by rewrite lookup_delete_ne, bool_decide_false by set_solver.
Qed.

Definition take_all (p : Z) (qs : list Z) (ow : gmap Z Z) : gmap Z Z := foldr (fun q => <[q := p]>) ow qs.

Lemma lookup_take_all p qs ow q : take_all p qs ow !! q = if bool_decide (q ∈ qs) then Some p else ow !! q.
Proof.
  induction qs as [|q' qs IH]; [done|]. cbn [take_all foldr]. fold (take_all p qs ow).
  destruct (decide (q = q')) as [->|]; [by rewrite lookup_insert_eq, bool_decide_true by set_solver|].
  rewrite lookup_insert_ne, IH by done. destruct (decide (q ∈ qs)); [by rewrite !bool_decide_true by set_solver|by rewrite !bool_decide_false by set_solver].
Qed.

(** An object is changed, made or freed: strings of it and of clients are freed, and strings of clients become its own. *)
Lemma owns_change objs objs' m ow C p freed taken :
  owns objs m ow C -> p <> 0 -> (forall p', p' <> p -> objs' !! p' = objs !! p') ->
  let old := from_option ptrs [] (objs !! p) in
  let new := from_option ptrs [] (objs' !! p) in
  NoDup new -> (forall q, q ∈ new <-> q ∈ old /\ q ∉ freed \/ q ∈ taken) ->
  (forall q, q ∈ taken -> ow !! q = Some 0 /\ q ∉ freed) -> (forall q, q ∈ freed -> q ∈ old \/ ow !! q = Some 0) ->
  owns objs' (del_all freed m) (take_all p taken (del_all freed ow)) (del_all (freed ++ taken) C).
Proof.
  intros Hw Hp0 Hne old new Hnd Hnew Htaken Hfreed.
  assert (Hold : forall q, q ∈ old <-> ow !! q = Some p).
  { intros q. unfold old. destruct (objs !! p) as [o|] eqn:E; [by apply (ow_objs _ _ _ _ Hw p o)|]. cbn. split; [set_solver|].
    intros Hq. destruct (ow_live _ _ _ _ Hw q p Hq) as [|[? ?]]; [done|congruence]. }
  assert (Hlook : forall q, take_all p taken (del_all freed ow) !! q = if bool_decide (q ∈ taken) then Some p else if bool_decide (q ∈ freed) then None else ow !! q)
    by (intros q; by rewrite lookup_take_all, lookup_del_all).
  split.
  - intros q. rewrite Hlook, lookup_del_all. destruct (decide (q ∈ taken)) as [Hq|Hq].
    + rewrite bool_decide_true by done. destruct (Htaken q Hq) as [E Hf]. rewrite bool_decide_false by done.
      split; [|done]. intros _. apply (ow_strs _ _ _ _ Hw). by rewrite E.
    + rewrite bool_decide_false by done. destruct (decide (q ∈ freed)); [by rewrite bool_decide_true by done|]. rewrite bool_decide_false by done. apply (ow_strs _ _ _ _ Hw).
  - intros p' o' Hp'. destruct (decide (p' = p)) as [->|Hpp].
    + unfold new in *. rewrite Hp' in *. cbn in *. split; [done|]. split; [done|]. intros q. rewrite Hnew, Hold, Hlook.
      destruct (decide (q ∈ taken)); [rewrite bool_decide_true by done; naive_solver|]. rewrite (bool_decide_false (q ∈ taken)) by done.
      destruct (decide (q ∈ freed)); [rewrite bool_decide_true by done|rewrite bool_decide_false by done]; naive_solver.
    + rewrite Hne in Hp' by done. destruct (ow_objs _ _ _ _ Hw p' o' Hp') as (? & ? & Hq). split_and!; [done..|]. intros q. rewrite Hlook, Hq.
      destruct (decide (q ∈ taken)) as [Ht|]; [rewrite bool_decide_true by done; destruct (Htaken q Ht); naive_solver|]. rewrite (bool_decide_false (q ∈ taken)) by done.
      destruct (decide (q ∈ freed)) as [Hf|]; [|by rewrite bool_decide_false by done]. rewrite bool_decide_true by done.
      destruct (Hfreed q Hf) as [Ho|]; [rewrite Hold in Ho|]; naive_solver.
  - intros q p'. rewrite Hlook. destruct (decide (q ∈ taken)) as [Ht|].
    + rewrite bool_decide_true by done. intros [= <-]. right. assert (Hq : q ∈ new) by (rewrite Hnew; by right). unfold new in Hq.
      destruct (objs' !! p); [done|]. cbn in Hq. set_solver.
    + rewrite bool_decide_false by done. destruct (decide (q ∈ freed)); [by rewrite bool_decide_true by done|]. rewrite bool_decide_false by done.
      intros Hq. destruct (decide (p' = p)) as [->|].
      * right. assert (Hn : q ∈ new) by (rewrite Hnew; left; by rewrite Hold). unfold new in Hn. destruct (objs' !! p); [done|]. cbn in Hn. set_solver.
      * destruct (ow_live _ _ _ _ Hw q p' Hq); [by left|right]. by rewrite Hne.
  - intros q t. rewrite !lookup_del_all, Hlook. destruct (decide (q ∈ taken)) as [Ht|].
    + rewrite bool_decide_true by set_solver. rewrite (bool_decide_true (q ∈ taken)) by done. naive_solver.
    + rewrite (bool_decide_false (q ∈ taken)) by done. destruct (decide (q ∈ freed)).
      * rewrite !bool_decide_true by set_solver. naive_solver.
      * rewrite !bool_decide_false by set_solver. apply (ow_clients _ _ _ _ Hw).
  - rewrite lookup_del_all, (ow_null _ _ _ _ Hw). by destruct (bool_decide _).
Qed.

(** The same for views. *)
Lemma heap_change s s' V V' C p freed taken :
  heap s V C -> p <> 0 -> pr_strs s' = del_all freed (pr_strs s) -> (forall p', p' <> p -> pr_objs s' !! p' = pr_objs s !! p') ->
  (forall p', p' <> p -> V' !! p' = V !! p') -> option_Forall2 (obj_view (pr_strs s')) (pr_objs s' !! p) (V' !! p) ->
  pr_next s <= pr_next s' -> (is_Some (pr_objs s' !! p) -> p < pr_next s') ->
  let old := from_option ptrs [] (pr_objs s !! p) in
  let new := from_option ptrs [] (pr_objs s' !! p) in
  NoDup new -> (forall q, q ∈ new <-> q ∈ old /\ q ∉ freed \/ q ∈ taken) ->
  (forall q, q ∈ taken -> is_Some (C !! q) /\ q ∉ freed) -> (forall q, q ∈ freed -> q ∈ old \/ is_Some (C !! q)) ->
  heap s' V' (del_all (freed ++ taken) C).
Proof.
  intros (Hv & [ow Hw] & Hn0 & Hfresh) Hp0 Hstrs Hne HVne Hview Hn Hlt old new Hnd Hnew Htaken Hfreed.
  assert (Hc : forall q, is_Some (C !! q) -> ow !! q = Some 0) by (intros q [t Ht]; by apply (ow_clients _ _ _ _ Hw) in Ht as [? _]).
  split_and!; [|exists (take_all p taken (del_all freed ow)); rewrite Hstrs; by apply (owns_change (pr_objs s)); [..|naive_solver|naive_solver]|lia|].
  - intros p'. destruct (decide (p' = p)) as [->|Hpp]; [done|]. rewrite Hne, HVne by done. specialize (Hv p').
    inversion Hv as [o v Ho E1 E2|]; subst; constructor. eapply obj_view_frame; [apply (ow_null _ _ _ _ Hw)| |done]. intros q Hq. rewrite Hstrs, lookup_del_all.
    rewrite bool_decide_false; [done|]. intros Hf.
    destruct (ow_objs _ _ _ _ Hw p' o (eq_sym E1)) as (Hp' & _ & Hown). apply Hown in Hq.
    destruct (Hfreed q Hf) as [Ho'|Ho']; [|rewrite (Hc q Ho') in Hq; congruence].
    unfold old in Ho'. destruct (pr_objs s !! p) as [o'|] eqn:E; [|cbn in Ho'; set_solver].
    apply (ow_objs _ _ _ _ Hw p o' E) in Ho'. congruence.
  - intros p' Hp'. split.
    + destruct (decide (p' = p)) as [->|]; [|by rewrite Hne; [apply Hfresh; lia|]]. destruct (pr_objs s' !! p) eqn:E; [|done].
      assert (p < pr_next s') by (apply Hlt; by eexists). lia.
    + rewrite Hstrs, lookup_del_all. destruct (Hfresh p') as [_ ->]; [lia|]. by destruct (bool_decide _).
Qed.

(** ** Operations on memory *)

Lemma runs_load s p o : pr_objs s !! p = Some o -> runs (load_peer p) s o s.
Proof. intros E. unfold runs, load_peer, bind, gets. by rewrite E. Qed.

Lemma runs_update f s p o : pr_objs s !! p = Some o -> runs (update_peer f p) s tt (set_objs <[p := f o]> s).
Proof. intros E. unfold runs, update_peer, load_peer, bind, gets. by rewrite E. Qed.

Lemma runs_the_str s q t : pr_strs s !! q = Some t -> runs (the_str q) s t s.
Proof. intros E. unfold runs, the_str, bind, gets. by rewrite E. Qed.

Lemma runs_free_str s q t : pr_strs s !! q = Some t -> q <> 0 -> runs (free_str q) s tt (set_strs (delete q) s).
Proof. intros E Hq. unfold free_str. rewrite (proj2 (Z.eqb_neq _ _) Hq). eapply runs_bind; [by apply runs_the_str|]. apply runs_modify. Qed.

Lemma runs_free_props l s : NoDup (prop_ptrs l) -> (forall q, q ∈ prop_ptrs l -> q <> 0 /\ is_Some (pr_strs s !! q)) ->
  runs (free_props l) s tt (set_strs (del_all (prop_ptrs l)) s).
Proof.
  revert s. induction l as [|[pn pv] l IH]; intros s Hnd Hs; [by destruct s|]. change (prop_ptrs ((pn, pv) :: l)) with (pn :: pv :: prop_ptrs l) in *.
  apply NoDup_cons in Hnd as [Hn Hnd]. apply NoDup_cons in Hnd as [Hv Hnd].
  destruct (Hs pn) as [? [tn En]]; [set_solver|]. destruct (Hs pv) as [? [tv Ev]]; [set_solver|].
  cbn [free_props]. eapply runs_bind; [by eapply runs_free_str|]. cbn beta. eapply runs_bind; [eapply runs_free_str; [|done]|].
  - cbn. rewrite lookup_delete_ne by set_solver. exact Ev.
  - cbn beta. apply (IH (set_strs (delete pv) (set_strs (delete pn) s))); [done|]. intros q Hq. split; [apply Hs; set_solver|].
    cbn. rewrite !lookup_delete_ne by set_solver. apply Hs. set_solver.
Qed.

Lemma ptrs_owned s V C p o q : heap s V C -> pr_objs s !! p = Some o -> q ∈ ptrs o -> q <> 0 /\ is_Some (pr_strs s !! q) /\ C !! q = None.
Proof.
  intros (_ & [ow Hw] & _) Ho Hq. destruct (ow_objs _ _ _ _ Hw p o Ho) as (Hp & _ & Hown). apply Hown in Hq.
  assert (Hs : is_Some (pr_strs s !! q)) by (apply (ow_strs _ _ _ _ Hw); by eexists). split_and!; [|done|].
  - intros ->. rewrite (ow_null _ _ _ _ Hw) in Hs. by destruct Hs.
  - destruct (C !! q) as [t|] eqn:E; [|done]. apply (ow_clients _ _ _ _ Hw) in E as [E _]. rewrite E in Hq. injection Hq as <-. done.
Qed.

Lemma client_str s V C q t : heap s V C -> C !! q = Some t -> pr_strs s !! q = Some t /\ q <> 0.
Proof.
  intros (_ & [ow Hw] & _) Hq. apply (ow_clients _ _ _ _ Hw) in Hq as [_ E]. split; [done|]. intros ->. by rewrite (ow_null _ _ _ _ Hw) in E.
Qed.

Lemma heap_nodup s V C p o : heap s V C -> pr_objs s !! p = Some o -> NoDup (ptrs o).
Proof. intros (_ & [ow Hw] & _) Ho. by apply (ow_objs _ _ _ _ Hw p o). Qed.

Lemma heap_nonnull s V C p o : heap s V C -> pr_objs s !! p = Some o -> p <> 0.
Proof. intros (_ & [ow Hw] & _) Ho. by destruct (ow_objs _ _ _ _ Hw p o Ho). Qed.

Lemma heap_below s V C p : heap s V C -> is_Some (pr_objs s !! p) -> p < pr_next s.
Proof.
  intros (_ & _ & _ & Hf) [o Ho]. destruct (Z.lt_ge_cases p (pr_next s)) as [|Hge]; [done|]. destruct (Hf p Hge). congruence.
Qed.

(** Fields that own nothing. *)
Lemma heap_fields s V C p o (f : PeerServer -> PeerServer) v : heap s V C -> pr_objs s !! p = Some o -> ptrs (f o) = ptrs o ->
  obj_view (pr_strs s) (f o) v -> heap (set_objs <[p := f o]> s) (<[p := v]> V) C.
Proof.
  intros Hh Ho Hp Hv. apply (heap_change s _ V _ C p [] []); try done.
  - by eapply heap_nonnull.
  - intros p' ?. cbn. by rewrite lookup_insert_ne.
  - intros p' ?. by rewrite lookup_insert_ne.
  - cbn. rewrite !lookup_insert_eq. by constructor.
  - intros _. cbn. eapply heap_below; [done|by eexists].
  - cbn. rewrite lookup_insert_eq. cbn. rewrite Hp. by eapply heap_nodup.
  - cbn. rewrite lookup_insert_eq, Ho. cbn. rewrite Hp. set_solver.
  - set_solver.
  - set_solver.
Qed.

Lemma heap_new_str s V C t : heap s V C ->
  runs (new_str t) s (pr_next s) (set_strs <[pr_next s := t]> (set_next (pr_next s + 1) s)) /\
  heap (set_strs <[pr_next s := t]> (set_next (pr_next s + 1) s)) V (<[pr_next s := t]> C).
Proof.
  intros (Hv & [ow Hw] & Hn & Hf). split; [done|]. destruct (Hf (pr_next s)) as [Ho Hs]; [lia|].
  assert (Hown : ow !! pr_next s = None).
  { destruct (ow !! pr_next s) eqn:E; [|done]. assert (is_Some (pr_strs s !! pr_next s)) as [? ?]; [|congruence]. apply (ow_strs _ _ _ _ Hw). by eexists. }
  split_and!; [| |cbn; lia|].
  - intros p. specialize (Hv p). cbn. inversion Hv as [o v Hov E1 E2|]; subst; constructor. eapply obj_view_frame; [apply (ow_null _ _ _ _ Hw)| |done].
    intros q Hq. rewrite lookup_insert_ne; [done|]. intros <-. apply (ow_objs _ _ _ _ Hw p o (eq_sym E1)) in Hq. congruence.
  - exists (<[pr_next s := 0]> ow). cbn. split.
    + intros q. destruct (decide (q = pr_next s)) as [->|]; [by rewrite !lookup_insert_eq|]. rewrite !lookup_insert_ne by done. apply (ow_strs _ _ _ _ Hw).
    + intros p o Hp. destruct (ow_objs _ _ _ _ Hw p o Hp) as (? & ? & Hq). split_and!; [done..|]. intros q. destruct (decide (q = pr_next s)) as [->|].
      * rewrite Hq, Hown, lookup_insert_eq. split; [done|]. by intros [= <-].
      * by rewrite lookup_insert_ne.
    + intros q p. destruct (decide (q = pr_next s)) as [->|]; [rewrite lookup_insert_eq; intros [= <-]; by left|]. rewrite lookup_insert_ne by done. apply (ow_live _ _ _ _ Hw).
    + intros q x. destruct (decide (q = pr_next s)) as [->|]; [rewrite !lookup_insert_eq; naive_solver|]. rewrite !lookup_insert_ne by done. apply (ow_clients _ _ _ _ Hw).
    + rewrite lookup_insert_ne by lia. apply (ow_null _ _ _ _ Hw).
  - intros p Hp. cbn in *. rewrite lookup_insert_ne by lia. apply Hf. lia.
Qed.

Lemma heap_alloc s V C : heap s V C -> exists s', runs peer_server_alloc s (pr_next s) s' /\
  s' = set_objs <[pr_next s := mkPS 0 8 [] 0 0 0 0 false]> (set_next (pr_next s + 1) s) /\
  heap s' (<[pr_next s := (false, None, no_info)]> V) C.
Proof.
  intros Hh. destruct Hh as (Hv & How & Hn & Hf). destruct (Hf (pr_next s)) as [Ho Hs]; [lia|]. eexists. split; [done|]. split; [done|].
  apply (heap_change s _ V _ C (pr_next s) [] []); try done.
  - lia.
  - intros p' ?. cbn. by rewrite lookup_insert_ne.
  - intros p' ?. by rewrite lookup_insert_ne.
  - cbn. rewrite !lookup_insert_eq. constructor. cbn. split_and!; try done. exists []. split_and!; [constructor|constructor|done].
  - cbn. lia.
  - cbn. lia.
  - cbn. rewrite lookup_insert_eq. constructor.
  - cbn. rewrite lookup_insert_eq, Ho. cbn. set_solver.
  - set_solver.
  - set_solver.
Qed.

Lemma prop_ptrs_app l k : prop_ptrs (l ++ k) = prop_ptrs l ++ prop_ptrs k.
Proof. unfold prop_ptrs. by rewrite map_app, concat_app. Qed.

Lemma prop_ptrs_rev l : Permutation (prop_ptrs (rev l)) (prop_ptrs l).
Proof.
  induction l as [|x l IH]; [done|]. cbn [rev]. rewrite prop_ptrs_app, IH. change (prop_ptrs (x :: l)) with ([x.1; x.2] ++ prop_ptrs l).
  apply Permutation_app_comm.
Qed.

Lemma del_all_none {A} qs (m : gmap Z A) : (forall q, q ∈ qs -> m !! q = None) -> del_all qs m = m.
Proof.
  intros Hq. apply map_eq. intros q. rewrite lookup_del_all. destruct (decide (q ∈ qs)); [rewrite bool_decide_true by done; by rewrite Hq|by rewrite bool_decide_false].
Qed.

Lemma heap_free s V C p i f : heap s V C -> V !! p = Some (false, i, f) -> exists qs, let s' := set_objs (delete p) (set_strs (del_all qs) s) in
  runs (peer_server_free p) s tt s' /\ heap s' (delete p V) C.
Proof.
  intros Hh Hp. destruct (heap_obj s V C p _ Hh Hp) as (o & Ho & (Hl & Hi & _) & Hp0).
  pose proof (heap_nodup s V C p o Hh Ho) as Hnd. unfold ptrs in Hnd.
  assert (Hq : forall q, q ∈ ptrs o -> q <> 0 /\ is_Some (pr_strs s !! q) /\ C !! q = None) by (intros q; by eapply ptrs_owned). unfold ptrs in Hq.
  set (qs := prop_ptrs (rev (ps_list o)) ++ (if ps_id o =? 0 then [] else [ps_id o])). exists qs. cbn zeta.
  assert (Hqs : forall q, q ∈ qs <-> q ∈ ptrs o) by (intros q; unfold qs, ptrs; rewrite (prop_ptrs_rev (ps_list o)); set_solver).
  split.
  - unfold runs, peer_server_free. rewrite (bind_runs _ _ _ _ _ (runs_load s p o Ho)). rewrite Hl. cbn [negb cassert]. rewrite (bind_runs _ _ _ _ _ (runs_ret tt s)).
    apply NoDup_app in Hnd as (_ & Hdis & Hnd).
    assert (R1 : runs (free_props (rev (ps_list o))) s tt (set_strs (del_all (prop_ptrs (rev (ps_list o)))) s)).
    { apply runs_free_props; [by rewrite prop_ptrs_rev|]. intros q Hq'. rewrite prop_ptrs_rev in Hq'. split; apply Hq; set_solver. }
    rewrite (bind_runs _ _ _ _ _ R1).
    destruct (Z.eqb_spec (ps_id o) 0) as [E|E].
    + unfold free_str. rewrite E. cbn [Z.eqb]. rewrite (bind_runs _ _ _ _ _ (runs_ret tt _)). unfold modify, qs. by rewrite app_nil_r.
    + destruct (Hq (ps_id o)) as (_ & [t Ht] & _); [set_solver|].
      assert (R2 : runs (free_str (ps_id o)) (set_strs (del_all (prop_ptrs (rev (ps_list o)))) s) tt (set_strs (del_all qs) s)).
      { replace (set_strs (del_all qs) s) with (set_strs (delete (ps_id o)) (set_strs (del_all (prop_ptrs (rev (ps_list o)))) s)).
        - eapply runs_free_str; [|done]. cbn. rewrite lookup_del_all, bool_decide_false; [exact Ht|]. rewrite prop_ptrs_rev. set_solver.
        - unfold set_strs. cbn. f_equal. unfold qs, del_all. by rewrite foldl_app. }
      rewrite (bind_runs _ _ _ _ _ R2). reflexivity.
  - assert (E : del_all (qs ++ []) C = C) by (apply del_all_none; intros q Hq'; rewrite app_nil_r in Hq'; apply Hq; by apply Hqs).
    rewrite <- E. apply (heap_change s _ V _ C p qs []); try done.
    + intros p' ?. cbn. by rewrite lookup_delete_ne.
    + intros p' ?. by rewrite lookup_delete_ne.
    + cbn. rewrite !lookup_delete_eq. constructor.
    + cbn. rewrite lookup_delete_eq. by intros [? ?].
    + cbn. rewrite lookup_delete_eq. constructor.
    + cbn. rewrite lookup_delete_eq, Ho. cbn. intros q. rewrite <- Hqs. set_solver.
    + set_solver.
    + rewrite Ho. cbn. intros q ?. left. by apply Hqs.
Qed.

(** ** Properties *)

Lemma runs_find_place l kvs n i s : prop_views (pr_strs s) l kvs -> exists r, runs (find_place l n i) s r s /\
  match r with
  | Some j => exists k v, (j = i + k)%nat /\ kvs !! k = Some (n, v)
  | None => n ∉ kvs.*1
  end.
Proof.
  revert kvs i. induction l as [|[pn pv] l IH]; intros kvs i H; inversion H as [|x [n' v'] l' kvs' [E1 E2] Hk]; subst; [exists None; split; [done|set_solver]|].
  cbn [find_place fst snd] in *. unfold runs at 1. setoid_rewrite (bind_runs _ _ _ _ _ (runs_the_str s pn n' E1)). destruct (streq_spec n' n) as [->|Hne].
  - exists (Some i). split; [done|]. exists 0%nat, v'. split; [lia|done].
  - destruct (IH kvs' (S i) Hk) as (r & Hr & Hpost). exists r. split; [exact Hr|]. destruct r as [j|].
    + destruct Hpost as (k & v & -> & Hkv). exists (S k), v. split; [lia|done].
    + cbn. set_solver.
Qed.

Lemma runs_find_name l kvs n s : prop_views (pr_strs s) l kvs -> NoDup kvs.*1 -> exists r, runs (find_name l n) s r s /\
  match r with
  | Some q => exists v, pr_strs s !! q = Some v /\ (list_to_map kvs : gmap _ _) !! n = Some v
  | None => (list_to_map kvs : gmap (list Z) (list Z)) !! n = None
  end.
Proof.
  revert kvs. induction l as [|[pn pv] l IH]; intros kvs H Hnd; inversion H as [|x [n' v'] l' kvs' [E1 E2] Hk]; subst; [exists None; done|].
  cbn [fmap list_fmap fst] in Hnd. apply NoDup_cons in Hnd as [Hn Hnd].
  cbn [find_name fst snd] in *. unfold runs at 1. setoid_rewrite (bind_runs _ _ _ _ _ (runs_the_str s pn n' E1)). destruct (streq_spec n n') as [->|Hne].
  - exists (Some pv). split; [done|]. exists v'. split; [done|]. cbn. by rewrite lookup_insert_eq.
  - destruct (IH kvs' Hk Hnd) as (r & Hr & Hpost). exists r. split; [exact Hr|]. cbn. rewrite lookup_insert_ne by done. exact Hpost.
Qed.

Definition with_prop (n t : list Z) (f : Info) : Info := mkInfo (<[n := t]> (in_props f)) (in_flags f) (in_creation f) (in_expires f).

(** Only one object has changed, and strings. *)
Definition only_peer (p : Z) s s' : Prop :=
  exists objs strs, s' = set_objs (fun _ => objs) (set_strs (fun _ => strs) s) /\ forall p', p' <> p -> objs !! p' = pr_objs s !! p'.

Lemma insert_kvs (kvs : list (list Z * list Z)) k n v t : NoDup kvs.*1 -> kvs !! k = Some (n, v) ->
  (<[k := (n, t)]> kvs).*1 = kvs.*1 /\ (list_to_map (<[k := (n, t)]> kvs) : gmap _ _) = <[n := t]> (list_to_map kvs).
Proof.
  revert k. induction kvs as [|[n' v'] kvs IH]; intros k Hnd Hk; [done|]. cbn [fmap list_fmap fst] in Hnd. apply NoDup_cons in Hnd as [Hn Hnd].
  destruct k as [|k]; cbn in Hk.
  - injection Hk as -> ->. cbn. split; [done|]. by rewrite insert_insert_eq.
  - destruct (IH k Hnd Hk) as [E1 E2]. change (<[S k := (n, t)]> ((n', v') :: kvs)) with ((n', v') :: <[k := (n, t)]> kvs).
    rewrite !list_to_map_cons, E2. split; [rewrite !fmap_cons; by f_equal|]. apply insert_insert_ne. intros ->. apply Hn.
    apply list_elem_of_fmap. exists (n, v). split; [done|]. by eapply list_elem_of_lookup_2.
Qed.

Lemma prop_ptrs_insert l k pn pv q : l !! k = Some (pn, pv) -> exists rest, Permutation (prop_ptrs l) (pv :: rest) /\ Permutation (prop_ptrs (<[k := (pn, q)]> l)) (q :: rest).
Proof.
  intros Hk. rewrite insert_take_drop by (by eapply lookup_lt_Some). pose proof (take_drop_middle l k _ Hk) as E.
  remember (take k l) as l1. remember (drop (S k) l) as l2. rewrite <- E. exists (prop_ptrs l1 ++ pn :: prop_ptrs l2). rewrite !prop_ptrs_app.
  change (prop_ptrs ((pn, pv) :: l2)) with (pn :: pv :: prop_ptrs l2). change (prop_ptrs ((pn, q) :: l2)) with (pn :: q :: prop_ptrs l2).
  split; rewrite (Permutation_swap _ pn); symmetry; apply Permutation_middle.
Qed.

(** The identifier. *)
Lemma runs_set_id s V C p i f o name value : heap s V C -> V !! p = Some (false, i, f) -> pr_objs s !! p = Some o -> C !! name = Some (str "ID") ->
  runs (peer_server_addprop p name value) s tt (set_objs <[p := ps_set_id value o]> (set_strs (delete name) s)).
Proof.
  intros Hh Hp Ho Hn. destruct (heap_obj s V C p _ Hh Hp) as (o' & Ho' & (Hl & _) & _). assert (o' = o) as -> by congruence.
  destruct (client_str s V C _ _ Hh Hn) as [Sn Nn].
  unfold runs, peer_server_addprop. rewrite (bind_runs _ _ _ _ _ (runs_load s p o Ho)). rewrite Hl. rewrite (bind_runs _ _ _ _ _ (runs_ret tt s)).
  rewrite (bind_runs _ _ _ _ _ (runs_the_str s name _ Sn)). change (streq (str "ID") (str "ID")) with true. cbn iota.
  rewrite (bind_runs _ _ _ _ _ (runs_free_str s name _ Sn Nn)). apply runs_update. exact Ho.
Qed.

Lemma heap_set_id s V C p f o name value t : heap s V C -> V !! p = Some (false, None, f) -> pr_objs s !! p = Some o ->
  C !! name = Some (str "ID") -> C !! value = Some t -> name <> value ->
  heap (set_objs <[p := ps_set_id value o]> (set_strs (delete name) s)) (<[p := (false, Some t, f)]> V) (delete name (delete value C)).
Proof.
  intros Hh Hp Ho Hn Ht Hne. destruct (heap_obj s V C p _ Hh Hp) as (o' & Ho' & (Hl & Hi & Hrest) & Hp0). assert (o' = o) as -> by congruence.
  destruct (client_str s V C _ _ Hh Hn) as [Sn Nn]. destruct (client_str s V C _ _ Hh Ht) as [St Nt].
  assert (Hptr : forall q, q ∈ ptrs o -> C !! q = None) by (intros q Hq; by eapply ptrs_owned).
  assert (E : del_all ([name] ++ [value]) C = delete name (delete value C)) by (cbn; apply delete_delete). rewrite <- E.
  apply (heap_change s _ V _ C p [name] [value]); try done.
  - intros p' ?. cbn. by rewrite lookup_insert_ne.
  - intros p' ?. by rewrite lookup_insert_ne.
  - cbn [pr_objs pr_strs set_objs set_strs]. rewrite !lookup_insert_eq. constructor. split; [done|]. split; [cbn; by rewrite lookup_delete_ne|].
    destruct Hrest as (? & ? & ? & ? & kvs & Hk & ? & ?). do 4 (split; [done|]). exists kvs. split; [|done]. eapply prop_views_frame; [|exact Hk].
    intros q Hq. rewrite lookup_delete_ne; [done|]. intros <-. rewrite Hptr in Hn; [done|]. unfold ptrs. set_solver.
  - intros _. cbn. eapply heap_below; [done|by eexists].
  - cbn. rewrite lookup_insert_eq. cbn. unfold ptrs. cbn. rewrite (proj2 (Z.eqb_neq _ _) Nt). cbn. constructor.
    + intros Hq. rewrite Hptr in Ht; [done|]. unfold ptrs. set_solver.
    + pose proof (heap_nodup s V C p o Hh Ho) as Hnd. unfold ptrs in Hnd. by apply NoDup_app in Hnd as (_ & _ & ?).
  - cbn. rewrite lookup_insert_eq, Ho. cbn. unfold ptrs at 1. cbn. rewrite (proj2 (Z.eqb_neq _ _) Nt). cbn in Hi.
    unfold ptrs. rewrite Hi. cbn. intros q. split; [|set_solver]. intros [->|Hq]%elem_of_cons; [set_solver|]. left. split; [done|].
    intros ->%list_elem_of_singleton. rewrite Hptr in Hn; [done|]. unfold ptrs. set_solver.
  - intros q ->%list_elem_of_singleton. split; [by eexists|]. set_solver.
  - intros q ->%list_elem_of_singleton. right. by eexists.
Qed.

(** Without its identifier, an object no longer owns the string, which is then nobody's: it is counted with those of clients. *)
Lemma heap_lose_id s V C p t f o : heap s V C -> V !! p = Some (false, Some t, f) -> pr_objs s !! p = Some o ->
  C !! ps_id o = None /\ heap (set_objs <[p := ps_set_id 0 o]> s) (<[p := (false, None, f)]> V) (<[ps_id o := t]> C).
Proof.
  intros Hh Hp Ho. destruct (heap_obj s V C p _ Hh Hp) as (o' & Ho' & (Hl & Hi & Hrest) & Hp0). assert (o' = o) as -> by congruence. cbn in Hi.
  pose proof (heap_nodup s V C p o Hh Ho) as Hnd. pose proof Hh as (Hv & [ow Hw] & Hn & Hf).
  assert (Hi0 : ps_id o <> 0) by (intros E; rewrite E, (ow_null _ _ _ _ Hw) in Hi; done).
  assert (Ep : ptrs o = ps_id o :: prop_ptrs (ps_list o)) by (unfold ptrs; by rewrite (proj2 (Z.eqb_neq _ _) Hi0)).
  rewrite Ep in Hnd. apply NoDup_cons in Hnd as [Hni Hnd]. destruct (ow_objs _ _ _ _ Hw p o Ho) as (_ & _ & Hown). rewrite Ep in Hown.
  assert (Hoi : ow !! ps_id o = Some p) by (apply Hown; set_solver).
  split; [by apply (ptrs_owned s V C p o); [| |rewrite Ep; set_solver]|]. split_and!; [| |done|].
  - intros p'. cbn. destruct (decide (p' = p)) as [->|]; [|rewrite !lookup_insert_ne by done; apply Hv]. rewrite !lookup_insert_eq. constructor.
    split; [done|]. split; [done|]. exact Hrest.
  - exists (<[ps_id o := 0]> ow). cbn. split.
    + intros q. destruct (decide (q = ps_id o)) as [->|]; [rewrite lookup_insert_eq, Hi; split; by eexists|]. rewrite lookup_insert_ne by done. apply (ow_strs _ _ _ _ Hw).
    + intros p' o1 [[<- <-]|[Hpp Ho1]]%lookup_insert_Some.
      * split; [done|]. split; [exact Hnd|]. intros q. change (ptrs (ps_set_id 0 o)) with (prop_ptrs (ps_list o)).
        destruct (decide (q = ps_id o)) as [->|Hq]; [rewrite lookup_insert_eq; split; [done|by intros [= <-]]|]. rewrite lookup_insert_ne, <- Hown by done. set_solver.
      * destruct (ow_objs _ _ _ _ Hw p' o1 Ho1) as (? & ? & Hq). split_and!; [done..|]. intros q. rewrite Hq.
        destruct (decide (q = ps_id o)) as [->|]; [rewrite lookup_insert_eq, Hoi; split; intros [= E]; congruence|]. by rewrite lookup_insert_ne.
    + intros q p'. intros [[<- <-]|[_ Hq]]%lookup_insert_Some; [by left|]. destruct (ow_live _ _ _ _ Hw q p' Hq) as [|[o1 Ho1]]; [by left|right].
      apply lookup_insert_is_Some'. right. by eexists.
    + intros q x. destruct (decide (q = ps_id o)) as [->|]; [rewrite !lookup_insert_eq, Hi; naive_solver|]. rewrite !lookup_insert_ne by done. apply (ow_clients _ _ _ _ Hw).
    + apply (ow_null _ _ _ _ Hw).
  - intros p' Hp'. destruct (Hf p' Hp') as [E1 E2]. cbn in *. split; [|done]. rewrite lookup_insert_ne; [done|]. intros <-. congruence.
Qed.

Lemma prop_views_snoc m l kvs pn pv n t : prop_views m l kvs -> m !! pn = Some n -> m !! pv = Some t -> prop_views m (l ++ [(pn, pv)]) (kvs ++ [(n, t)]).
Proof. intros H En Et. apply Forall2_app; [done|]. by repeat constructor. Qed.

(** A new property is added at the end of the list. *)
Lemma heap_add_prop s V C p i f o kvs name value n t : heap s V C -> V !! p = Some (false, i, f) ->
  pr_objs s !! p = Some o -> prop_views (pr_strs s) (ps_list o) kvs -> in_props f = list_to_map kvs -> NoDup kvs.*1 -> n ∉ kvs.*1 ->
  C !! name = Some n -> C !! value = Some t -> name <> value -> forall max, Z.max 8 (Z.of_nat (S (length (ps_list o)))) <= max <= Z.max 8 (2 * Z.of_nat (S (length (ps_list o)))) ->
  heap (set_objs <[p := ps_set_list max (ps_list o ++ [(name, value)]) o]> s) (<[p := (false, i, with_prop n t f)]> V) (delete name (delete value C)).
Proof.
  intros Hh Hp Ho Hk Hf Hnd Hnew Hn Ht Hne max Hmax. destruct (heap_obj s V C p _ Hh Hp) as (o' & Ho' & Hv & Hp0). simplify_eq.
  destruct (client_str s V C _ _ Hh Hn) as [Sn _]. destruct (client_str s V C _ _ Hh Ht) as [St _].
  assert (Hptr : forall q, q ∈ ptrs o -> C !! q = None) by (intros q Hq; by eapply ptrs_owned).
  assert (E : del_all ([] ++ [name; value]) C = delete name (delete value C)) by (cbn; apply delete_delete). rewrite <- E.
  assert (Hpn : ptrs (ps_set_list max (ps_list o ++ [(name, value)]) o) = ptrs o ++ [name; value]) by (unfold ptrs; cbn [ps_list ps_id ps_set_list]; by rewrite prop_ptrs_app, app_assoc).
  apply (heap_change s _ V _ C p [] [name; value]); try done.
  - intros p' ?. cbn. by rewrite lookup_insert_ne.
  - intros p' ?. by rewrite lookup_insert_ne.
  - cbn [pr_objs pr_strs set_objs]. rewrite !lookup_insert_eq. constructor. destruct Hv as (? & ? & ? & ? & ? & ? & _).
    do 5 (split; [done|]). split; [cbn; rewrite length_app; cbn; lia|]. exists (kvs ++ [(n, t)]). cbn. split; [by apply prop_views_snoc|].
    rewrite fmap_app, list_to_map_snoc, Hf by done. split; [|done]. apply NoDup_app. split_and!; [done|set_solver|apply NoDup_singleton].
  - intros _. cbn. eapply heap_below; [done|by eexists].
  - cbn. rewrite lookup_insert_eq. cbn. rewrite Hpn. apply NoDup_app. split_and!; [by eapply heap_nodup| |].
    + intros q Hq. pose proof (Hptr q Hq). rewrite elem_of_cons, list_elem_of_singleton. intros [->| ->]; congruence.
    + apply NoDup_cons. split; [set_solver|apply NoDup_singleton].
  - cbn. rewrite lookup_insert_eq, Ho. cbn. rewrite Hpn. set_solver.
  - intros q. rewrite elem_of_cons, list_elem_of_singleton. intros [->| ->]; (split; [by eexists|set_solver]).
  - set_solver.
Qed.

(** The value of a property is replaced. *)
Lemma heap_replace_prop s V C p i f o kvs k name pn pv value n v t : heap s V C -> V !! p = Some (false, i, f) ->
  pr_objs s !! p = Some o -> prop_views (pr_strs s) (ps_list o) kvs -> in_props f = list_to_map kvs -> NoDup kvs.*1 -> kvs !! k = Some (n, v) -> ps_list o !! k = Some (pn, pv) ->
  C !! name = Some n -> C !! value = Some t -> name <> value ->
  heap (set_objs <[p := ps_set_list (ps_max o) (<[k := (pn, value)]> (ps_list o)) o]> (set_strs (del_all [name; pv]) s))
    (<[p := (false, i, with_prop n t f)]> V) (delete name (delete value C)).
Proof.
  intros Hh Hp Ho Hk Hf Hnd Hkv Hl Hn Ht Hne. destruct (heap_obj s V C p _ Hh Hp) as (o' & Ho' & Hv & Hp0). simplify_eq.
  destruct (client_str s V C _ _ Hh Ht) as [St _].
  assert (Hptr : forall q, q ∈ ptrs o -> C !! q = None) by (intros q Hq; by eapply ptrs_owned).
  destruct (prop_ptrs_insert (ps_list o) k pn pv value Hl) as (rest & Hold & Hnew).
  set (o1 := ps_set_list (ps_max o) (<[k := (pn, value)]> (ps_list o)) o).
  set (ids := if ps_id o =? 0 then [] else [ps_id o]).
  assert (Po : Permutation (ptrs o) (pv :: ids ++ rest)) by (unfold ptrs; fold ids; rewrite Hold; symmetry; apply Permutation_middle).
  assert (Pn : Permutation (ptrs o1) (value :: ids ++ rest)) by (unfold ptrs; cbn; fold ids; rewrite Hnew; symmetry; apply Permutation_middle).
  pose proof (heap_nodup s V C p o Hh Ho) as Hndo. rewrite Po in Hndo. apply NoDup_cons in Hndo as [Hpv Hrest].
  assert (Cpv : C !! pv = None) by (apply Hptr; rewrite Po; set_solver).
  assert (Cr : forall q, q ∈ ids ++ rest -> C !! q = None) by (intros q Hq; apply Hptr; rewrite Po; set_solver).
  assert (E : del_all ([name; pv] ++ [value]) C = delete name (delete value C)).
  { apply map_eq. intros q. rewrite lookup_del_all. destruct (decide (q = pv)) as [->|].
    - rewrite bool_decide_true by set_solver. symmetry. rewrite !lookup_delete_None. auto.
    - destruct (decide (q = name)) as [->|]; [by rewrite lookup_delete_eq, bool_decide_true by set_solver|]. rewrite lookup_delete_ne by done.
      destruct (decide (q = value)) as [->|]; [by rewrite lookup_delete_eq, bool_decide_true by set_solver|]. by rewrite lookup_delete_ne, bool_decide_false by set_solver. }
  rewrite <- E. destruct (insert_kvs kvs k n v t Hnd Hkv) as [E1 E2].
  apply (heap_change s _ V _ C p [name; pv] [value]); try done.
  - intros p' ?. cbn. by rewrite lookup_insert_ne.
  - intros p' ?. by rewrite lookup_insert_ne.
  - cbn [pr_objs pr_strs set_objs set_strs]. rewrite !lookup_insert_eq. constructor. destruct Hv as (? & Hi & ? & ? & ? & ? & _).
    assert (Hfr : forall q, q ∈ ptrs o1 -> (del_all [name; pv] (pr_strs s) : gmap _ _) !! q = pr_strs s !! q).
    { intros q Hq. rewrite lookup_del_all, bool_decide_false; [done|]. rewrite Pn in Hq. rewrite elem_of_cons, list_elem_of_singleton.
      apply elem_of_cons in Hq as [->|Hq]; [intros [->| ->]; [done|by rewrite Cpv in Ht]|]. intros [->| ->]; [by rewrite Cr in Hn|done]. }
    apply (obj_view_frame (pr_strs s)); [by destruct Hh as (_ & [ow Hw] & _); apply (ow_null _ _ _ _ Hw)|done|].
    do 5 (split; [done|]). split; [cbn; by rewrite length_insert|]. exists (<[k := (n, t)]> kvs). rewrite E1, E2. cbn. rewrite Hf. split; [|done].
    apply Forall2_insert; [done|]. cbn. split; [|done]. by destruct (Forall2_lookup_lr _ _ _ _ _ _ Hk Hl Hkv).
  - intros _. cbn. eapply heap_below; [done|by eexists].
  - cbn. rewrite lookup_insert_eq. cbn. fold o1. rewrite Pn. apply NoDup_cons. split; [|done]. intros Hq. by rewrite (Cr _ Hq) in Ht.
  - cbn. rewrite lookup_insert_eq, Ho. cbn. fold o1. intros q. rewrite Pn, Po, !elem_of_cons, !elem_of_nil. split.
    + intros [->|Hq]; [right; by left|]. left. split; [by right|]. intros [->|[->|[]]]; [by rewrite Cr in Hn|done].
    + intros [[[->|Hq] Hf']|[->|[]]]; [|by right|by left]. exfalso. apply Hf'. auto.
  - intros q ->%list_elem_of_singleton. split; [by eexists|]. rewrite !elem_of_cons, elem_of_nil. intros [->|[->|[]]]; [done|by rewrite Cpv in Ht].
  - intros q. rewrite elem_of_cons, list_elem_of_singleton. intros [->| ->]; [right; by eexists|]. left. rewrite Ho. cbn. rewrite Po. set_solver.
Qed.

(** [peer_server_addprop] with the strings of a client. *)
Definition add_prop (n t : list Z) (v : option (list Z) * Info) : option (list Z) * Info :=
  if streq n (str "ID") then (Some t, v.2) else (v.1, with_prop n t v.2).

(** The identifier that another one replaces, which is not freed. *)
Definition replaced (n : list Z) (v : option (list Z) * Info) : list (list Z) :=
  if streq n (str "ID") then match v.1 with Some t => [t] | None => [] end else [].

(** The strings [C'] of clients after their string are gone, and those that are lost. *)
Definition strings_after (C C' : gmap Z (list Z)) (name value : Z) (lost : list (list Z)) : Prop :=
  match lost with
  | [] => C' = delete name (delete value C)
  | t :: _ => exists q, C !! q = None /\ C' = <[q := t]> (delete name (delete value C))
  end.

Lemma heap_addprop s V C p i f name value n t : heap s V C -> V !! p = Some (false, i, f) -> C !! name = Some n -> C !! value = Some t -> name <> value ->
  Z.of_nat (size (in_props f)) < 2 ^ 31 ->
  exists s' C', runs (peer_server_addprop p name value) s tt s' /\ strings_after C C' name value (replaced n (i, f)) /\
    heap s' (<[p := (false, (add_prop n t (i, f)).1, (add_prop n t (i, f)).2)]> V) C' /\ only_peer p s s'.
Proof.
  intros Hh Hp Hn Ht Hne Hsize. unfold add_prop, replaced. destruct (streq_spec n (str "ID")) as [->|Hnid].
  { destruct (heap_obj s V C p _ Hh Hp) as (o & Ho & _ & _). exists (set_objs <[p := ps_set_id value o]> (set_strs (delete name) s)).
    assert (Hof : only_peer p s (set_objs <[p := ps_set_id value o]> (set_strs (delete name) s))).
    { eexists _, _. split; [reflexivity|]. intros p' ?. cbn. by rewrite lookup_insert_ne. }
    destruct i as [t0|]; cbn [fst snd].
    - destruct (heap_lose_id s V C p t0 f o Hh Hp Ho) as [Hq Hh1]. exists (<[ps_id o := t0]> (delete name (delete value C))).
      assert (N1 : ps_id o <> name) by congruence. assert (N2 : ps_id o <> value) by congruence.
      split; [by eapply runs_set_id|]. split; [by exists (ps_id o)|]. split; [|done].
      pose proof (heap_set_id _ _ _ p f (ps_set_id 0 o) name value t Hh1) as Hh2.
      rewrite insert_insert_eq, (lookup_insert_ne C (ps_id o) name), (lookup_insert_ne C (ps_id o) value), !delete_insert_ne in Hh2 by done. specialize (Hh2 (lookup_insert_eq _ _ _) (lookup_insert_eq _ _ _) Hn Ht Hne).
      replace (set_objs <[p := ps_set_id value (ps_set_id 0 o)]> (set_strs (delete name) (set_objs <[p := ps_set_id 0 o]> s)))
        with (set_objs <[p := ps_set_id value o]> (set_strs (delete name) s)) in Hh2; [done|]. unfold set_objs, set_strs. cbn. by rewrite insert_insert_eq.
    - exists (delete name (delete value C)). split; [by eapply runs_set_id|]. split; [done|]. split; [|done]. by apply heap_set_id. }
  destruct (heap_obj s V C p _ Hh Hp) as (o & Ho & Hv & Hp0). destruct Hv as (Hl & _ & _ & _ & _ & Hmax & kvs & Hk & Hnd & Hf).
  destruct (client_str s V C _ _ Hh Hn) as [Sn Nn]. destruct (client_str s V C _ _ Hh Ht) as [St Nt].
  assert (Hptr : forall q, q ∈ ptrs o -> C !! q = None) by (intros q Hq; by eapply ptrs_owned).
  assert (Hlen : length (ps_list o) = size (in_props f)) by (rewrite Hf, map_size_list_to_map by done; by eapply Forall2_length).
  assert (Enid : streq n (str "ID") = false) by (by destruct (streq_spec n (str "ID"))).
  unfold runs, peer_server_addprop. setoid_rewrite (bind_runs _ _ _ _ _ (runs_load s p o Ho)). rewrite Hl. cbn [negb cassert].
  setoid_rewrite (bind_runs _ _ _ _ _ (runs_ret tt s)). setoid_rewrite (bind_runs _ _ _ _ _ (runs_the_str s name _ Sn)). rewrite Enid.
  destruct (runs_find_place (ps_list o) kvs n 0 s Hk) as (r & Hr & Hpost). setoid_rewrite (bind_runs _ _ _ _ _ Hr). destruct r as [j|].
  - destruct Hpost as (k & v & -> & Hkv). setoid_rewrite (bind_runs _ _ _ _ _ (runs_free_str s name _ Sn Nn)). cbn [Nat.add].
    destruct (Forall2_lookup_r _ _ _ _ _ Hk Hkv) as ([pn pv] & Hlk & _ & Epv). rewrite Hlk. cbn in Epv.
    assert (Hpv : pv ∈ ptrs o) by (unfold ptrs; apply elem_of_app; right; eapply elem_prop_ptrs; [by eapply list_elem_of_lookup_2|by right]).
    assert (Hpn : pv <> name) by (intros ->; by rewrite Hptr in Hn).
    assert (R : runs (free_str pv) (set_strs (delete name) s) tt (set_strs (del_all [name; pv]) s)).
    { apply (runs_free_str (set_strs (delete name) s) pv v); [cbn; by rewrite lookup_delete_ne|]. by eapply ptrs_owned. }
    setoid_rewrite (bind_runs _ _ _ _ _ R). eexists _, _. split; [by apply runs_update|]. split; [done|]. split; [by eapply heap_replace_prop|].
    eexists _, _. split; [reflexivity|]. intros p' ?. cbn. by rewrite lookup_insert_ne.
  - set (max := if _ =? _ then _ else _).
    assert (Hm : Z.max 8 (Z.of_nat (S (length (ps_list o)))) <= max <= Z.max 8 (2 * Z.of_nat (S (length (ps_list o))))).
    { change (2 ^ 31) with 2147483648 in Hsize. assert (E32 : 2 ^ 32 = 4294967296) by done. unfold max. destruct (Z.eqb_spec (Z.of_nat (length (ps_list o))) (ps_max o)); [rewrite uwrap_small by lia|]; lia. }
    rewrite (proj2 (Z.ltb_lt (Z.of_nat (length (ps_list o))) max)) by lia. cbn [cassert]. setoid_rewrite (bind_runs _ _ _ _ _ (runs_ret tt s)).
    eexists _, _. split; [by apply runs_update|]. split; [done|]. split; [by eapply heap_add_prop|].
    eexists _, _. split; [reflexivity|]. intros p' ?. cbn. by rewrite lookup_insert_ne.
Qed.
End Heap.
