(* ===== verification/PeerLists.v ===== *)
(** * The list of peers (Peers.v, framework/peer.c)

    The linked list of peers in memory, its changes, and the calls of listeners. *)

From S2P Require Import Prelude Peers PeerProps.

(** The peers [l] are linked from [p] to [q]. *)
Fixpoint seg (m : gmap Z PeerServer) (p : Z) (l : list Z) (q : Z) : Prop :=
  match l with
  | [] => p = q
  | x :: l' => p = x /\ x <> 0 /\ exists o, m !! x = Some o /\ seg m (ps_next o) l' q
  end.

Definition lastp (l : list Z) : Z := default 0 (last l).
Definition headp (l : list Z) : Z := default 0 (head l).

Lemma seg_app m p l1 l2 q : seg m p (l1 ++ l2) q <-> exists r, seg m p l1 r /\ seg m r l2 q.
Proof.
  revert p. induction l1 as [|x l1 IH]; intros p; cbn; [naive_solver|]. setoid_rewrite IH. naive_solver.
Qed.

Lemma seg_frame m m' p l q : (forall x o, x ∈ l -> m !! x = Some o -> exists o', m' !! x = Some o' /\ ps_next o' = ps_next o) -> seg m p l q -> seg m' p l q.
Proof.
  revert p. induction l as [|x l IH]; intros p H; [done|]. cbn. intros (-> & ? & o & Ho & Hs). destruct (H x o) as (o' & Ho' & E); [set_solver|done|].
  split_and!; [done..|]. exists o'. split; [done|]. rewrite E. apply IH; [|done]. set_solver.
Qed.

Lemma seg_head m p l : seg m p l 0 -> p = headp l.
Proof. destruct l; cbn; naive_solver. Qed.

Lemma seg_nonzero m p l q x : seg m p l q -> x ∈ l -> x <> 0.
Proof. revert p. induction l as [|y l IH]; intros p; cbn; [set_solver|]. intros (-> & ? & o & ? & Hs) [->|Hx]%elem_of_cons; [done|by eapply IH]. Qed.

Lemma seg_some m p l q x : seg m p l q -> x ∈ l -> is_Some (m !! x).
Proof. revert p. induction l as [|y l IH]; intros p; cbn; [set_solver|]. intros (-> & ? & o & ? & Hs) [->|Hx]%elem_of_cons; [by eexists|by eapply IH]. Qed.

Lemma lastp_snoc l x : lastp (l ++ [x]) = x.
Proof. unfold lastp. by rewrite last_snoc. Qed.

Section Lists.
Context {W : Type}.
Implicit Types s : PeerState W.

(** Objects, strings and the list [l]. *)
Definition store s (V : gmap Z view) (C : gmap Z (list Z)) (l : list Z) : Prop :=
  heap s V C /\ seg (pr_objs s) (pr_peers s) l 0 /\ NoDup l.

(** What operations on the store do not change. *)
Definition others s := (pr_next s, pr_listeners s, pr_listeners_max s, pr_stale_timer_active s, pr_timers s, pr_calls s).

Lemma heap_ext s s' V C : pr_objs s' = pr_objs s -> pr_strs s' = pr_strs s -> pr_next s' = pr_next s -> heap s V C -> heap s' V C.
Proof. unfold heap. by intros -> -> ->. Qed.

Lemma store_ext s s' V C l : pr_objs s' = pr_objs s -> pr_strs s' = pr_strs s -> pr_next s' = pr_next s -> pr_peers s' = pr_peers s -> store s V C l -> store s' V C l.
Proof. unfold store. intros E1 E2 E3 E4 (? & ? & ?). split_and!; [by eapply heap_ext|by rewrite E1, E4|done]. Qed.

Lemma runs_get_link s V C l1 l2 : store s V C (l1 ++ l2) -> runs (get_link (lastp l1)) s (headp l2) s.
Proof.
  intros (_ & Hs & _). destruct l1 as [|x l1 _] using rev_ind.
  - cbn in *. unfold get_link, lastp. cbn. apply seg_head in Hs as <-. apply runs_gets.
  - rewrite lastp_snoc. apply seg_app in Hs as (r & H1 & H2). apply seg_app in H1 as (r' & _ & -> & Hx & o & Ho & Hr). cbn in Hr. subst r.
    apply seg_head in H2 as <-. unfold get_link. rewrite (proj2 (Z.eqb_neq _ _) Hx). eapply runs_bind; [by apply runs_load|]. apply runs_ret.
Qed.

(** Fields of an object; its place in the list stays if its link does. *)
Lemma store_fields s V C l p o (f : PeerServer -> PeerServer) v : store s V C l -> pr_objs s !! p = Some o -> ptrs (f o) = ptrs o ->
  obj_view (pr_strs s) (f o) v -> (p ∈ l -> ps_next (f o) = ps_next o) -> store (set_objs <[p := f o]> s) (<[p := v]> V) C l.
Proof.
  intros (Hh & Hs & Hn) Ho Hp Hv Hnext. split_and!; [by eapply heap_fields| |done]. cbn. eapply seg_frame; [|done].
  intros x o' Hx Ho'. destruct (decide (x = p)) as [->|]; [|exists o'; by rewrite lookup_insert_ne]. rewrite lookup_insert_eq. simplify_eq. eauto.
Qed.

(** A view stays the same if only the link changes. *)
Lemma heap_next s V C p q o : heap s V C -> pr_objs s !! p = Some o -> heap (set_objs <[p := ps_set_next q o]> s) V C.
Proof.
  intros Hh Ho. destruct (V !! p) as [v|] eqn:E; [|by rewrite (heap_none s V C p Hh E) in Ho].
  destruct (heap_obj s V C p v Hh E) as (o' & Ho' & Hv & _). assert (o' = o) as -> by congruence. rewrite <- (insert_id V p v) by done.
  apply (heap_fields s V C p o (ps_set_next q)); [done..|]. by destruct v as [[? ?] ?].
Qed.

Lemma store_unlink s V C l1 x l2 o : store s V C (l1 ++ x :: l2) -> pr_objs s !! x = Some o ->
  exists s', runs (set_link (lastp l1) (ps_next o)) s tt s' /\ store s' V C (l1 ++ l2) /\ others s' = others s /\ pr_objs s' !! x = Some o /\ pr_strs s' = pr_strs s.
Proof.
  intros (Hh & Hs & Hnd) Ho. apply seg_app in Hs as (r & H1 & -> & Hx & o' & Ho' & H2). assert (o' = o) as -> by congruence.
  assert (Hnd' : NoDup (l1 ++ l2)) by (apply NoDup_app in Hnd as (? & Hd & [_ ?]%NoDup_cons); apply NoDup_app; set_solver).
  destruct l1 as [|y l1 _] using rev_ind.
  - exists (set_peers (ps_next o) s). unfold set_link, lastp. cbn in *. split_and!; try done; by eapply heap_ext.
  - rewrite lastp_snoc. apply seg_app in H1 as (y' & H1 & -> & Hy & oy & Hoy & Hr). cbn in Hr.
    assert (Hxy : x <> y) by (intros ->; apply NoDup_app in Hnd as (_ & Hd & _); set_solver).
    exists (set_objs <[y := ps_set_next (ps_next o) oy]> s). split_and!; try done.
    + unfold set_link. rewrite (proj2 (Z.eqb_neq _ _) Hy). by apply (runs_update (ps_set_next (ps_next o))).
    + split_and!; [by apply heap_next| |done]. cbn. rewrite <- app_assoc in Hnd' |- *. apply seg_app. exists y. split.
      * eapply seg_frame; [|exact H1]. intros z oz Hz Hoz. exists oz. rewrite lookup_insert_ne; [done|]. intros <-. apply NoDup_app in Hnd' as (_ & Hd & _). set_solver.
      * cbn. split_and!; [done..|]. exists (ps_set_next (ps_next o) oy). rewrite lookup_insert_eq. split; [done|]. cbn. eapply seg_frame; [|exact H2].
        intros z oz Hz Hoz. exists oz. rewrite lookup_insert_ne; [done|]. intros <-. apply NoDup_app in Hnd' as (_ & _ & Hd). apply NoDup_cons in Hd. set_solver.
    + cbn. by rewrite lookup_insert_ne.
Qed.

Lemma store_free s V C l p i f : store s V C l -> p ∉ l -> V !! p = Some (false, i, f) ->
  exists s', runs (peer_server_free p) s tt s' /\ store s' (delete p V) C l /\ others s' = others s.
Proof.
  intros (Hh & Hs & Hnd) Hp Hv. destruct (heap_free s V C p i f Hh Hv) as (qs & R & Hh'). eexists. split; [exact R|]. split; [|done]. split_and!; [done| |done].
  cbn. eapply seg_frame; [|done]. intros x o Hx Ho. exists o. rewrite lookup_delete_ne; [done|]. by intros <-.
Qed.

(** A peer that is in the list no more, and is not in use. *)
Lemma store_unlist s V C l p i f : store s V C l -> p ∉ l -> V !! p = Some (true, i, f) ->
  exists s', runs (update_peer (ps_set_listed false) p ;! peer_server_free p) s tt s' /\ store s' (delete p V) C l /\ others s' = others s.
Proof.
  intros Hst Hp Hv. pose proof Hst as (Hh & _). destruct (heap_obj s V C p _ Hh Hv) as (o & Ho & Hov & _).
  destruct (store_free (set_objs <[p := ps_set_listed false o]> s) (<[p := (false, i, f)]> V) C l p i f) as (s' & R & Hs' & E).
  - apply (store_fields s V C l p o (ps_set_listed false)); [done..| |done]. destruct Hov as (? & ?). by split.
  - done.
  - by rewrite lookup_insert_eq.
  - exists s'. rewrite delete_insert_eq in Hs'. split; [|done]. eapply runs_bind; [by apply (runs_update (ps_set_listed false))|exact R].
Qed.
End Lists.

(** ** Comparison *)

Section Same.
Context {W : Type}.
Implicit Types s : PeerState W.

Lemma runs_same_props s l kvs b kvsb : prop_views (pr_strs s) l kvs -> prop_views (pr_strs s) b kvsb -> NoDup kvsb.*1 ->
  exists r, runs (same_props l b) s r s /\ (r = true <-> Forall (fun kv => (list_to_map kvsb : gmap (list Z) (list Z)) !! kv.1 = Some kv.2) kvs).
Proof.
  intros Hl Hb Hnd. revert kvs Hl. induction l as [|[pn pv] l IH]; intros kvs Hl; inversion Hl as [|x [n v] l' kvs' [E1 E2] Hk]; subst; [exists true; split; [done|by split]|].
  cbn [same_props fst snd] in *. unfold runs at 1. setoid_rewrite (bind_runs _ _ _ _ _ (runs_the_str s pn n E1)).
  destruct (runs_find_name b kvsb n s Hb Hnd) as (r & Hr & Hpost). setoid_rewrite (bind_runs _ _ _ _ _ Hr). destruct r as [q|].
  - destruct Hpost as (w & Hq & Hw). setoid_rewrite (bind_runs _ _ _ _ _ (runs_the_str s pv v E2)). setoid_rewrite (bind_runs _ _ _ _ _ (runs_the_str s q w Hq)).
    destruct (streq_spec v w) as [->|Hne]; cbn [negb].
    + destruct (IH kvs' Hk) as (r & Hr' & Hiff). exists r. split; [exact Hr'|]. rewrite Forall_cons, Hiff. naive_solver.
    + exists false. split; [done|]. split; [done|]. intros [H _]%Forall_cons. cbn in H. congruence.
  - exists false. split; [done|]. split; [done|]. intros [H _]%Forall_cons. cbn in H. congruence.
Qed.

Lemma submap_of_list (kvs : list (list Z * list Z)) (m : gmap (list Z) (list Z)) : NoDup kvs.*1 ->
  Forall (fun kv => m !! kv.1 = Some kv.2) kvs <-> list_to_map kvs ⊆ m.
Proof.
  intros Hnd. rewrite Forall_forall, map_subseteq_spec. split.
  - intros H n v Hv. apply elem_of_list_to_map in Hv; [|done]. by apply (H (n, v)).
  - intros H [n v] Hv. apply H. by apply elem_of_list_to_map.
Qed.

(** [is_same] compares the properties. *)
Lemma runs_is_same s V C p1 p2 b1 b2 i1 i2 f1 f2 : heap s V C -> V !! p1 = Some (b1, i1, f1) -> V !! p2 = Some (b2, i2, f2) ->
  runs (is_same p1 p2) s (bool_decide (in_props f1 = in_props f2)) s.
Proof.
  intros Hh H1 H2. destruct (heap_obj s V C p1 _ Hh H1) as (o1 & Ho1 & (_ & _ & _ & _ & _ & _ & k1 & Hk1 & Hn1 & E1) & _).
  destruct (heap_obj s V C p2 _ Hh H2) as (o2 & Ho2 & (_ & _ & _ & _ & _ & _ & k2 & Hk2 & Hn2 & E2) & _).
  unfold runs, is_same. rewrite (bind_runs _ _ _ _ _ (runs_load s p1 o1 Ho1)), (bind_runs _ _ _ _ _ (runs_load s p2 o2 Ho2)).
  rewrite (Forall2_length _ _ _ Hk1), (Forall2_length _ _ _ Hk2).
  assert (S1 : size (in_props f1) = length k1) by (by rewrite E1, map_size_list_to_map).
  assert (S2 : size (in_props f2) = length k2) by (by rewrite E2, map_size_list_to_map).
  destruct (Nat.eqb_spec (length k1) (length k2)) as [El|Hne]; cbn [negb].
  - destruct (runs_same_props s (ps_list o1) k1 (ps_list o2) k2 Hk1 Hk2 Hn2) as (r & Hr & Hiff).
    rewrite Hr. f_equal. f_equal. rewrite submap_of_list in Hiff by done. rewrite <- E1, <- E2 in Hiff.
    apply Bool.eq_iff_eq_true. rewrite bool_decide_eq_true, Hiff. split; [|by intros ->]. intros Hs. apply map_subseteq_size_eq; [done|lia].
  - rewrite bool_decide_false; [done|]. intros E. rewrite E in S1. lia.
Qed.
End Same.

(** ** Listeners *)

Section Listeners.
Context {W : Type}.
Implicit Types s : PeerState W.
Variable call_listener : Z -> Z -> Z -> Z -> M (PeerState W) unit.

(** Listeners look at the peers and change the rest of the agent. *)
Hypothesis listeners_run : forall fnp p type arg s V C l id f, store s V C l -> V !! p = Some (true, Some id, f) ->
  exists w, runs (call_listener fnp p type arg) s tt (set_world w s).
Variable fuel : nat.

(** The calls for an event. *)
Definition tell (ls : list (Z * Z)) (id : list Z) (type : Z) : list (Z * list Z * Z) := map (fun l => (l.1, id, type)) ls.

Definition with_calls (cs : list (Z * list Z * Z)) (w : W) s : PeerState W :=
  mkPeers (pr_objs s) (pr_strs s) (pr_next s) (pr_peers s) (pr_listeners s) (pr_listeners_max s) (pr_stale_timer_active s) (pr_timers s) (pr_calls s ++ cs) w.

Lemma runs_notify_loop V C l p type id f n i s : store s V C l -> V !! p = Some (true, Some id, f) -> (length (pr_listeners s) - i < n)%nat ->
  exists w, runs (notify_loop call_listener n i p type) s tt (with_calls (tell (drop i (pr_listeners s)) id type) w s).
Proof.
  intros Hst Hv. revert s i Hst. induction n as [|n IH]; intros s i Hst Hn; [lia|]. cbn [notify_loop]. unfold runs at 1.
  assert (Hid : id_text p s = id) by (destruct (heap_obj s V C p _ (proj1 Hst) Hv) as (o & Ho & (_ & Hi & _) & _); unfold id_text; by rewrite Ho, Hi). setoid_rewrite (bind_runs _ _ _ _ _ (runs_gets pr_listeners s)).
  destruct (pr_listeners s !! i) as [[fnp arg]|] eqn:E.
  - assert (Hlt := lookup_lt_Some _ _ _ E). setoid_rewrite (bind_runs _ _ _ _ _ (runs_modify _ s)).
    set (s1 := add_call (fnp, id_text p s, type) s).
    assert (Hst1 : store s1 V C l) by (by apply (store_ext s)). destruct (listeners_run fnp p type arg s1 V C l id f Hst1 Hv) as [w1 R1]. setoid_rewrite (bind_runs _ _ _ _ _ R1).
    destruct (IH (set_world w1 s1) (S i)) as [w R]; [by apply (store_ext s1)|cbn; lia|]. exists w. unfold runs in R. rewrite R. rewrite (drop_S _ _ _ E).
    unfold with_calls. cbn. by rewrite Hid, <- app_assoc.
  - exists (pr_world s). rewrite drop_ge by (by apply lookup_ge_None). unfold with_calls. cbn. rewrite app_nil_r. by destruct s.
Qed.

Lemma runs_notify s V C l p id f type : store s V C l -> V !! p = Some (true, Some id, f) -> (length (pr_listeners s) < fuel)%nat ->
  exists w, runs (notify_listeners call_listener fuel p type) s tt (with_calls (tell (pr_listeners s) id type) w s).
Proof.
  intros Hst Hv Hf. destruct (heap_obj s V C p _ (proj1 Hst) Hv) as (o & Ho & (Hl & Hi & _) & _).
  destruct (runs_notify_loop V C l p type id f fuel 0 s Hst Hv) as [w R]; [lia|]. exists w. rewrite drop_0 in R.
  unfold runs, notify_listeners. rewrite (bind_runs _ _ _ _ _ (runs_load s p o Ho)), Hl. cbn [cassert]. by rewrite (bind_runs _ _ _ _ _ (runs_ret tt s)).
Qed.

Lemma store_with_calls cs w s V C l : store s V C l -> store (with_calls cs w s) V C l.
Proof. by apply store_ext. Qed.

(** A peer is taken out of the list and freed, and the listeners are told. *)
Lemma runs_remove_peer s V C l1 x l2 id f : store s V C (l1 ++ x :: l2) -> V !! x = Some (true, Some id, f) -> (length (pr_listeners s) < fuel)%nat ->
  exists s', runs (remove_peer call_listener fuel (lastp l1) x) s tt s' /\ store s' (delete x V) C (l1 ++ l2) /\
    others s' = (pr_next s, pr_listeners s, pr_listeners_max s, pr_stale_timer_active s, pr_timers s, pr_calls s ++ tell (pr_listeners s) id PS_EVENT_REMOVED).
Proof.
  intros Hst Hv Hf. pose proof Hst as (Hh & _ & Hnd). destruct (heap_obj s V C x _ Hh Hv) as (o & Ho & _ & _).
  destruct (store_unlink s V C l1 x l2 o Hst Ho) as (s1 & R1 & Hs1 & E1 & _).
  assert (El : pr_listeners s1 = pr_listeners s) by (unfold others in E1; congruence).
  destruct (runs_notify s1 V C (l1 ++ l2) x id f PS_EVENT_REMOVED Hs1 Hv) as [w R2]; [by rewrite El|].
  apply (store_with_calls (tell (pr_listeners s1) id PS_EVENT_REMOVED) w) in Hs1.
  assert (Hx : x ∉ l1 ++ l2) by (apply NoDup_app in Hnd as (_ & Hd & [? _]%NoDup_cons); set_solver).
  destruct (store_unlist _ V C (l1 ++ l2) x (Some id) f Hs1 Hx Hv) as (s2 & R3 & Hs2 & E2). exists s2. split; [|split; [done|]].
  - unfold runs, remove_peer. rewrite (bind_runs _ _ _ _ _ (runs_load s x o Ho)), (bind_runs _ _ _ _ _ R1), (bind_runs _ _ _ _ _ R2). exact R3.
  - rewrite E2. unfold others in *. cbn. congruence.
Qed.
End Listeners.
