(* ===== verification/PeerRefine.v ===== *)
(** * Peers as a table (Peers.v, framework/peer.c)

    The specification of peer.c is a table of peers by identifier, and peers that clients have made and not yet added.  Every operation
    of peer.c does what the specification says, and its memory holds nothing else. *)

From S2P Require Import Prelude Peers PeerProps PeerLists.

(** ** Specification *)

(** The table, the last peer first; drafts of clients by address with their identifiers; strings of clients; whether
    the timer has been posted; the calls of listeners; the identifiers that another one has replaced, whose strings nobody frees. *)
Record Spec := mkSpec {
  sp_peers : list (list Z * Info);
  sp_drafts : gmap Z (option (list Z) * Info);
  sp_strings : gmap Z (list Z);
  sp_next : Z;
  sp_listeners : list (Z * Z);
  sp_timer : bool;
  sp_calls : list (Z * list Z * Z);
  sp_lost : list (list Z) }.

Fixpoint assoc (id : list Z) (es : list (list Z * Info)) : option Info :=
  match es with
  | [] => None
  | (i, f) :: es' => if streq i id then Some f else assoc id es'
  end.

Definition drop_peer (id : list Z) (es : list (list Z * Info)) : list (list Z * Info) := List.filter (fun e => negb (streq e.1 id)) es.
Definition set_peer (id : list Z) (f : Info) (es : list (list Z * Info)) : list (list Z * Info) := map (fun e => if streq e.1 id then (e.1, f) else e) es.

Definition with_times (creation expires : Z) (f : Info) : Info := mkInfo (in_props f) (in_flags f) creation expires.
Definition with_flags (flags : Z) (f : Info) : Info := mkInfo (in_props f) flags (in_creation f) (in_expires f).

(** A peer that is known stays if it is local and the new one is not, or if nothing has changed. *)
Definition keeps (old new : Info) : bool :=
  has_flag PS_FLAG_LOCAL (in_flags old) && negb (has_flag PS_FLAG_LOCAL (in_flags new)) || bool_decide (in_props old = in_props new).

Definition heart_beat (now delta : Z) (old new : Info) : Info :=
  with_times (in_creation old) (expires now delta) (if has_flag PS_FLAG_LOCAL (in_flags old) then old else with_flags (in_flags new) old).

Definition live (now : Z) (e : list Z * Info) : bool := now <? in_expires e.2.

Inductive op :=
  | OString (t : list Z)
  | OAlloc
  | OAddprop (p name value : Z)
  | OFlags (p flags : Z)
  | OFree (p : Z)
  | OAdd (now p delta : Z)
  | ORemove (id : list Z)
  | OTimer (now : Z)
  | OListener (fnp arg : Z).

Definition spec_add (now p delta : Z) (id : list Z) (n : Info) (a : Spec) : Spec :=
  let ds := delete p (sp_drafts a) in
  let insert type es := mkSpec ((id, with_times now (expires now delta) n) :: es) ds (sp_strings a) (sp_next a) (sp_listeners a) true (sp_calls a ++ tell (sp_listeners a) id type) (sp_lost a) in
  match assoc id (sp_peers a) with
  | None => insert PS_EVENT_ADDED (sp_peers a)
  | Some old =>
      if keeps old n then
        mkSpec (set_peer id (heart_beat now delta old n) (sp_peers a)) ds (sp_strings a) (sp_next a) (sp_listeners a) (sp_timer a) (sp_calls a ++ tell (sp_listeners a) id PS_EVENT_HEART_BEAT) (sp_lost a)
      else insert PS_EVENT_CHANGED (drop_peer id (sp_peers a))
  end.

Definition spec_step (a : Spec) (o : op) : Spec :=
  let drafts ds ss := mkSpec (sp_peers a) ds ss (sp_next a) (sp_listeners a) (sp_timer a) (sp_calls a) (sp_lost a) in
  let fresh ds ss := mkSpec (sp_peers a) ds ss (sp_next a + 1) (sp_listeners a) (sp_timer a) (sp_calls a) (sp_lost a) in
  match o with
  | OString t => fresh (sp_drafts a) (<[sp_next a := t]> (sp_strings a))
  | OAlloc => fresh (<[sp_next a := (None, no_info)]> (sp_drafts a)) (sp_strings a)
  | OAddprop p name value =>
      match sp_drafts a !! p, sp_strings a !! name, sp_strings a !! value with
      | Some d, Some n, Some t =>
          mkSpec (sp_peers a) (<[p := add_prop n t d]> (sp_drafts a)) (delete name (delete value (sp_strings a))) (sp_next a) (sp_listeners a) (sp_timer a)
            (sp_calls a) (sp_lost a ++ replaced n d)
      | _, _, _ => a
      end
  | OFlags p flags =>
      match sp_drafts a !! p with
      | Some d => drafts (<[p := (d.1, with_flags flags d.2)]> (sp_drafts a)) (sp_strings a)
      | None => a
      end
  | OFree p => drafts (delete p (sp_drafts a)) (sp_strings a)
  | OAdd now p delta => match sp_drafts a !! p with Some (Some id, n) => spec_add now p delta id n a | _ => a end
  | ORemove id =>
      mkSpec (drop_peer id (sp_peers a)) (sp_drafts a) (sp_strings a) (sp_next a) (sp_listeners a) (sp_timer a)
        (sp_calls a ++ match assoc id (sp_peers a) with Some _ => tell (sp_listeners a) id PS_EVENT_REMOVED | None => [] end) (sp_lost a)
  | OTimer now =>
      let es := List.filter (live now) (sp_peers a) in
      mkSpec es (sp_drafts a) (sp_strings a) (sp_next a) (sp_listeners a) (negb (Nat.eqb (length es) 0))
        (sp_calls a ++ concat (map (fun e => tell (sp_listeners a) e.1 PS_EVENT_REMOVED) (List.filter (fun e => negb (live now e)) (sp_peers a)))) (sp_lost a)
  | OListener fnp arg => mkSpec (sp_peers a) (sp_drafts a) (sp_strings a) (sp_next a) (sp_listeners a ++ [(fnp, arg)]) (sp_timer a) (sp_calls a) (sp_lost a)
  end.

(** What clients do: names and values are strings of their own, a peer has an identifier before it is added, and is not used by them
    after it is added or freed; a peer has less than 2^31 properties, there are less than 2^30 listeners, and the event loop calls the timer
    that has been posted. *)
Definition op_ok (fuel : nat) (a : Spec) (o : op) : Prop :=
  match o with
  | OString _ | OAlloc => True
  | OAddprop p name value =>
      name <> value /\ exists d n, sp_drafts a !! p = Some d /\ sp_strings a !! name = Some n /\ is_Some (sp_strings a !! value) /\
        Z.of_nat (size (in_props d.2)) < 2 ^ 31
  | OFlags p _ | OFree p => is_Some (sp_drafts a !! p)
  | OAdd _ p _ => (exists id n, sp_drafts a !! p = Some (Some id, n)) /\ (length (sp_peers a) < fuel)%nat /\ (length (sp_listeners a) < fuel)%nat
  | ORemove _ => (length (sp_peers a) < fuel)%nat /\ (length (sp_listeners a) < fuel)%nat
  | OTimer _ => sp_timer a = true /\ (length (sp_peers a) < fuel)%nat /\ (length (sp_listeners a) < fuel)%nat
  | OListener _ _ => Z.of_nat (length (sp_listeners a)) < 2 ^ 30
  end.

Fixpoint ops_ok (fuel : nat) (a : Spec) (os : list op) : Prop :=
  match os with
  | [] => True
  | o :: os' => op_ok fuel a o /\ ops_ok fuel (spec_step a o) os'
  end.

(** The same as a program, for concrete sequences. *)
Definition op_okb (fuel : nat) (a : Spec) (o : op) : bool :=
  let small := (length (sp_peers a) <? fuel)%nat && (length (sp_listeners a) <? fuel)%nat in
  match o with
  | OString _ | OAlloc => true
  | OAddprop p name value =>
      match sp_drafts a !! p, sp_strings a !! name, sp_strings a !! value with
      | Some d, Some n, Some _ =>
          negb (name =? value) && (Z.of_nat (size (in_props d.2)) <? 2 ^ 31)
      | _, _, _ => false
      end
  | OFlags p _ | OFree p => match sp_drafts a !! p with Some _ => true | None => false end
  | OAdd _ p _ => match sp_drafts a !! p with Some (Some _, _) => small | _ => false end
  | ORemove _ => small
  | OTimer _ => sp_timer a && small
  | OListener _ _ => Z.of_nat (length (sp_listeners a)) <? 2 ^ 30
  end.

Fixpoint ops_okb (fuel : nat) (a : Spec) (os : list op) : bool :=
  match os with
  | [] => true
  | o :: os' => op_okb fuel a o && ops_okb fuel (spec_step a o) os'
  end.

Lemma op_okb_spec fuel a o : op_okb fuel a o = true -> op_ok fuel a o.
Proof.
  destruct o as [t| |p name value|p flags|p|now p delta|id|now|fnp arg]; cbn [op_okb op_ok]; try done.
  - destruct (sp_drafts a !! p) as [d|]; [|done]. destruct (sp_strings a !! name) as [n|]; [|done]. destruct (sp_strings a !! value) as [t|]; [|done].
    intros [Hne Hs]%andb_true_iff. split; [by apply negb_true_iff, Z.eqb_neq in Hne|]. exists d, n. split_and!; [done|done|by eexists|by apply Z.ltb_lt].
  - by destruct (sp_drafts a !! p).
  - by destruct (sp_drafts a !! p).
  - destruct (sp_drafts a !! p) as [[[id|] n]|]; try done. intros [?%Nat.ltb_lt ?%Nat.ltb_lt]%andb_true_iff. split; [by exists id, n|done].
  - intros [?%Nat.ltb_lt ?%Nat.ltb_lt]%andb_true_iff. done.
  - intros [? [?%Nat.ltb_lt ?%Nat.ltb_lt]%andb_true_iff]%andb_true_iff. done.
  - apply Z.ltb_lt.
Qed.

Lemma ops_okb_spec fuel a os : ops_okb fuel a os = true -> ops_ok fuel a os.
Proof. revert a. induction os as [|o os IH]; intros a; [done|]. cbn. intros [?%op_okb_spec ?%IH]%andb_true_iff. done. Qed.

(** ** Tables *)

Lemma assoc_split id es : NoDup es.*1 ->
  (assoc id es = None /\ id ∉ es.*1 /\ drop_peer id es = es) \/
  exists es1 f es2, es = es1 ++ (id, f) :: es2 /\ id ∉ es1.*1 /\ id ∉ es2.*1 /\ assoc id es = Some f /\ drop_peer id es = es1 ++ es2 /\
    forall f', set_peer id f' es = es1 ++ (id, f') :: es2.
Proof.
  induction es as [|[i f] es IH]; intros Hnd; [left; set_solver|]. cbn [fmap list_fmap fst] in Hnd. apply NoDup_cons in Hnd as [Hi Hnd].
  cbn [assoc]. unfold drop_peer in *. cbn [List.filter fst]. destruct (streq_spec i id) as [->|Hne]; cbn [negb].
  - right. exists [], f, es. assert (Hother : forall e, e ∈ es -> streq e.1 id = false).
    { intros e He. destruct (streq_spec e.1 id) as [<-|]; [|done]. exfalso. apply Hi. apply list_elem_of_fmap. by exists e. }
    split_and!; [done|set_solver|done|done| |].
    + apply forallb_filter_id, forallb_forall. intros e He. apply list_elem_of_In in He. by rewrite Hother.
    + intros f'. unfold set_peer. cbn [map fst app]. destruct (streq_spec id id) as [_|]; [|done]. f_equal. rewrite <- (map_id es) at 2. apply map_ext_in.
      intros e He. apply list_elem_of_In in He. by rewrite Hother.
  - destruct (IH Hnd) as [(E & Hn & Hd)|(es1 & g & es2 & -> & H1 & H2 & E & Hd & Hset)].
    + left. split_and!; [done|set_solver|by rewrite Hd].
    + right. exists ((i, f) :: es1), g, es2. rewrite Hd. split_and!; [done|set_solver|done|done|done|].
      intros f'. unfold set_peer in *. cbn [map app fst]. rewrite Hset. by destruct (streq_spec i id).
Qed.

(** ** The relation *)

Section Refine.
Context {W : Type}.
Implicit Types s : PeerState W.
Variable call_listener : Z -> Z -> Z -> Z -> M (PeerState W) unit.
Hypothesis listeners_run : forall fnp p type arg s V C l id f, store s V C l -> V !! p = Some (true, Some id, f) ->
  exists w, runs (call_listener fnp p type arg) s tt (set_world w s).
Variable fuel : nat.

(** The peers at the addresses [l] are the table. *)
Definition table (V : gmap Z view) (l : list Z) (es : list (list Z * Info)) : Prop := Forall2 (fun p e => V !! p = Some (true, Some e.1, e.2)) l es.

(** The strings [C] that no object owns are those of clients and the lost ones. *)
Definition unowned (C ss : gmap Z (list Z)) (lost : list (list Z)) : Prop :=
  exists L, C = ss ∪ L /\ ss ##ₘ L /\ (map_to_list L).*2 ≡ₚ lost.

Record related (V : gmap Z view) (C : gmap Z (list Z)) (l : list Z) s (a : Spec) : Prop := {
  re_store : store s V C l;
  re_strings : unowned C (sp_strings a) (sp_lost a);
  re_table : table V l (sp_peers a);
  re_ids : NoDup (sp_peers a).*1;
  re_listed p i f : V !! p = Some (true, i, f) -> p ∈ l;
  re_drafts p d : sp_drafts a !! p = Some d <-> V !! p = Some (false, d.1, d.2);
  re_next : pr_next s = sp_next a;
  re_listeners : pr_listeners s = sp_listeners a;
  re_max : pr_listeners_max s = 0 /\ sp_listeners a = [] \/ Z.max 4 (Z.of_nat (length (sp_listeners a))) <= pr_listeners_max s <= Z.max 4 (2 * Z.of_nat (length (sp_listeners a)));
  re_timer : pr_stale_timer_active s = sp_timer a /\ pr_timers s = Z.b2z (sp_timer a) /\ (sp_peers a <> [] -> sp_timer a = true);
  re_calls : pr_calls s = sp_calls a }.

Definition refines s a : Prop := exists V C l, related V C l s a.

Definition run_op (o : op) : M (PeerState W) unit :=
  match o with
  | OString t => new_str t ;! ret tt
  | OAlloc => peer_server_alloc ;! ret tt
  | OAddprop p name value => peer_server_addprop p name value
  | OFlags p flags => update_peer (ps_set_flags flags) p
  | OFree p => peer_server_free p
  | OAdd now p delta => peer_server_add call_listener fuel now p delta ;! ret tt
  | ORemove id => peer_server_remove call_listener fuel id
  | OTimer now => dispatch_stale_timer call_listener fuel now
  | OListener fnp arg => peer_server_add_listener fnp arg
  end.

Fixpoint run_ops (os : list op) : M (PeerState W) unit :=
  match os with
  | [] => ret tt
  | o :: os' => run_op o ;! run_ops os'
  end.

(** ** Operations of clients on drafts *)

Lemma draft_unlisted V C l s a p d : related V C l s a -> sp_drafts a !! p = Some d -> V !! p = Some (false, d.1, d.2) /\ p ∉ l.
Proof.
  intros H Hd. apply (re_drafts _ _ _ _ _ H) in Hd. split; [done|]. intros Hp. apply list_elem_of_lookup in Hp as [i Hi].
  destruct (Forall2_lookup_l _ _ _ _ _ (re_table _ _ _ _ _ H) Hi) as (e & _ & He). congruence.
Qed.

Lemma table_frame V V' l es : (forall p, p ∈ l -> V' !! p = V !! p) -> table V l es -> table V' l es.
Proof.
  intros Hp H. apply Forall2_same_length_lookup_2; [by eapply Forall2_length|]. intros i p e Hl He.
  rewrite Hp by (by eapply list_elem_of_lookup_2). exact (Forall2_lookup_lr _ _ _ _ _ _ H Hl He).
Qed.

(** A draft has changed, or is gone. *)
Lemma related_draft V V' C C' l s s' a p ds ss lost : related V C l s a -> p ∉ l ->
  store s' V' C' l -> unowned C' ss lost -> others s' = others s -> (forall p', p' <> p -> V' !! p' = V !! p') -> (forall p', p' <> p -> ds !! p' = sp_drafts a !! p') ->
  (forall d, ds !! p = Some d <-> V' !! p = Some (false, d.1, d.2)) -> (forall i f, V' !! p <> Some (true, i, f)) ->
  related V' C' l s' (mkSpec (sp_peers a) ds ss (sp_next a) (sp_listeners a) (sp_timer a) (sp_calls a) lost).
Proof.
  intros H Hp Hst Hun Ho HV Hds Hd Hl. unfold others in Ho. injection Ho as E1 E2 E3 E4 E5 E6. destruct H. split; cbn; try congruence; try done.
  - eapply table_frame; [|done]. intros p' ?. apply HV. by intros ->.
  - intros p' i f Hp'. destruct (decide (p' = p)) as [->|]; [by apply Hl in Hp'|]. rewrite HV in Hp' by done. eauto.
  - intros p' d. destruct (decide (p' = p)) as [->|]; [done|]. by rewrite HV, Hds.
Qed.

Lemma unowned_client C ss lost q t : unowned C ss lost -> ss !! q = Some t -> C !! q = Some t.
Proof. intros (L & -> & _) Hq. by apply lookup_union_Some_l. Qed.

Lemma unowned_new C ss lost q t : unowned C ss lost -> C !! q = None -> unowned (<[q := t]> C) (<[q := t]> ss) lost.
Proof.
  intros (L & -> & Hd & HL) [_ HLq]%lookup_union_None. exists L. split_and!; [by rewrite insert_union_l| |done]. by apply map_disjoint_insert_l_2.
Qed.

Lemma unowned_after C C' ss lost name value n t ids : unowned C ss lost -> ss !! name = Some n -> ss !! value = Some t ->
  strings_after C C' name value ids -> (length ids <= 1)%nat -> unowned C' (delete name (delete value ss)) (lost ++ ids).
Proof.
  intros (L & -> & Hd & HL) Hn Ht Ha Hl.
  assert (E : delete name (delete value (ss ∪ L)) = delete name (delete value ss) ∪ L).
  { rewrite !delete_union. f_equal. rewrite (delete_id L value), (delete_id L name); [done|exact (map_disjoint_Some_l _ _ _ _ Hd Hn)|exact (map_disjoint_Some_l _ _ _ _ Hd Ht)]. }
  assert (Hd' : delete name (delete value ss) ##ₘ L) by (by do 2 apply map_disjoint_delete_l).
  destruct ids as [|x [|y ids]]; cbn [strings_after] in Ha; [| |cbn in Hl; lia].
  - subst C'. exists L. rewrite app_nil_r. by rewrite E.
  - destruct Ha as (q & [Hq HLq]%lookup_union_None & ->). exists (<[q := x]> L). rewrite E. split_and!.
    + rewrite insert_union_r; [done|]. rewrite !lookup_delete_None. auto.
    + apply map_disjoint_insert_r_2; [|done]. rewrite !lookup_delete_None. auto.
    + rewrite map_to_list_insert by done. cbn. rewrite HL. apply Permutation_cons_append.
Qed.

Lemma replaced_length n d : (length (replaced n d) <= 1)%nat.
Proof. unfold replaced. destruct (streq _ _), d.1; cbn; lia. Qed.

(** Strings and drafts are made. *)
Lemma refines_string s a t : refines s a -> exists s', runs (run_op (OString t)) s tt s' /\ refines s' (spec_step a (OString t)).
Proof.
  intros (V & C & l & H). pose proof (re_store _ _ _ _ _ H) as (Hh & Hseg & Hnd). destruct (heap_new_str s V _ t Hh) as [R Hh'].
  eexists. split; [eapply runs_bind; [exact R|]; apply runs_ret|]. exists V, (<[pr_next s := t]> C), l. destruct H. split; cbn; try done; [|by rewrite re_next0..].
  rewrite <- re_next0. apply unowned_new; [done|]. destruct (C !! pr_next s) as [x|] eqn:E; [|done]. destruct (client_str s V C _ _ Hh E) as [Es _].
  destruct Hh as (_ & _ & _ & Hf). destruct (Hf (pr_next s)); [lia|]. congruence.
Qed.

Lemma refines_alloc s a : refines s a -> exists s', runs (run_op OAlloc) s tt s' /\ refines s' (spec_step a OAlloc).
Proof.
  intros (V & C & l & H). pose proof (re_store _ _ _ _ _ H) as (Hh & Hseg & Hnd). destruct (heap_alloc s V _ Hh) as (s' & R & E & Hh').
  assert (Hnew : V !! pr_next s = None).
  { destruct Hh as (Hv & _ & _ & Hf). destruct (Hf (pr_next s)) as [Ho _]; [lia|]. specialize (Hv (pr_next s)). rewrite Ho in Hv. by inversion Hv. }
  assert (Hl : pr_next s ∉ l).
  { intros Hin. apply list_elem_of_lookup in Hin as [i Hi]. destruct (Forall2_lookup_l _ _ _ _ _ (re_table _ _ _ _ _ H) Hi) as (e & _ & He). congruence. }
  exists s'. split; [eapply runs_bind; [exact R|]; apply runs_ret|]. exists (<[pr_next s := (false, None, no_info)]> V), C, l.
  destruct H. subst s'. split; cbn; try done; [| | | |by rewrite re_next0].
  - split_and!; [done| |done]. cbn. eapply seg_frame; [|done]. intros x o Hx Ho. exists o. rewrite lookup_insert_ne; [done|]. by intros <-.
  - eapply table_frame; [|done]. intros p Hp. rewrite lookup_insert_ne; [done|]. by intros <-.
  - intros p i f Hp. destruct (decide (p = pr_next s)) as [->|]; [by rewrite lookup_insert_eq in Hp|]. rewrite lookup_insert_ne in Hp by done. eauto.
  - intros p [i f]. rewrite <- re_next0. destruct (decide (p = pr_next s)) as [->|]; [rewrite !lookup_insert_eq; naive_solver|]. by rewrite !lookup_insert_ne.
Qed.

Lemma refines_addprop s a p name value : refines s a -> op_ok fuel a (OAddprop p name value) ->
  exists s', runs (run_op (OAddprop p name value)) s tt s' /\ refines s' (spec_step a (OAddprop p name value)).
Proof.
  intros (V & C & l & H) (Hne & [i f] & n & Hd & Hn & [t Ht] & Hsize). destruct (draft_unlisted _ _ _ _ _ _ _ H Hd) as [Hv Hp].
  pose proof (re_store _ _ _ _ _ H) as (Hh & Hseg & Hnd).
  pose proof (re_strings _ _ _ _ _ H) as Hun. pose proof (unowned_client _ _ _ _ _ Hun Hn) as Cn. pose proof (unowned_client _ _ _ _ _ Hun Ht) as Ct.
  destruct (heap_addprop s V _ p i f name value n t Hh Hv Cn Ct Hne Hsize) as (s' & C' & R & Ha & Hh' & objs & strs & -> & Ho).
  eexists. split; [exact R|]. cbn [spec_step]. rewrite Hd, Hn, Ht. eexists _, C', l. eapply (related_draft V _ C _ l s _ a p); [done..| | |done| | | |].
  - split_and!; [exact Hh'| |done]. cbn. eapply seg_frame; [|done]. intros x o Hx Hox. exists o. rewrite Ho; [done|]. by intros ->.
  - by eapply unowned_after; [..|apply replaced_length].
  - intros p' ?. by rewrite lookup_insert_ne.
  - intros p' ?. by rewrite lookup_insert_ne.
  - intros [i' f']. rewrite !lookup_insert_eq. destruct (add_prop n t (i, f)). naive_solver.
  - intros i' f'. by rewrite lookup_insert_eq.
Qed.

Lemma refines_flags s a p flags : refines s a -> op_ok fuel a (OFlags p flags) ->
  exists s', runs (run_op (OFlags p flags)) s tt s' /\ refines s' (spec_step a (OFlags p flags)).
Proof.
  intros (V & C & l & H) [[i f] Hd]. destruct (draft_unlisted _ _ _ _ _ _ _ H Hd) as [Hv Hp]. pose proof (re_store _ _ _ _ _ H) as Hst.
  destruct (heap_obj s V _ p _ (proj1 Hst) Hv) as (o & Ho & Hov & _). eexists. split; [by apply (runs_update (ps_set_flags flags))|].
  cbn [spec_step]. rewrite Hd. eexists _, C, l. eapply (related_draft V _ C _ l s _ a p); [done..| |apply H|done| | | |].
  - apply (store_fields s V _ l p o (ps_set_flags flags) (false, i, with_flags flags f)); [done..| |done]. destruct Hov as (? & ? & ? & Hrest). do 3 (split; [done|]); exact Hrest.
  - intros p' ?. by rewrite lookup_insert_ne.
  - intros p' ?. by rewrite lookup_insert_ne.
  - intros [i' f']. rewrite !lookup_insert_eq. naive_solver.
  - intros i' f'. by rewrite lookup_insert_eq.
Qed.

Lemma refines_free s a p : refines s a -> op_ok fuel a (OFree p) -> exists s', runs (run_op (OFree p)) s tt s' /\ refines s' (spec_step a (OFree p)).
Proof.
  intros (V & C & l & H) [[i f] Hd]. destruct (draft_unlisted _ _ _ _ _ _ _ H Hd) as [Hv Hp].
  destruct (store_free s V _ l p i f (re_store _ _ _ _ _ H) Hp Hv) as (s' & R & Hst & E). exists s'. split; [exact R|].
  eexists _, C, l. eapply (related_draft V _ C _ l s _ a p); [done..|exact Hst|apply H|done| | | |].
  - intros p' ?. by rewrite lookup_delete_ne.
  - intros p' ?. by rewrite lookup_delete_ne.
  - intros [i' f']. by rewrite !lookup_delete_eq.
  - intros i' f'. by rewrite lookup_delete_eq.
Qed.

Lemma refines_listener s a fnp arg : refines s a -> op_ok fuel a (OListener fnp arg) ->
  exists s', runs (run_op (OListener fnp arg)) s tt s' /\ refines s' (spec_step a (OListener fnp arg)).
Proof.
  intros (V & C & l & H) Hlen. cbn in Hlen. pose proof (re_max _ _ _ _ _ H) as Hmax. change (2 ^ 30) with 1073741824 in Hlen.
  set (max := if pr_listeners_max s =? 0 then 4 else if Z.of_nat (length (pr_listeners s)) =? pr_listeners_max s then swrap 32 (pr_listeners_max s * 2) else pr_listeners_max s).
  assert (Hm : Z.max 4 (Z.of_nat (S (length (sp_listeners a)))) <= max <= Z.max 4 (2 * Z.of_nat (S (length (sp_listeners a))))).
  { unfold max. rewrite (re_listeners _ _ _ _ _ H). destruct Hmax as [[-> ->]|Hmax]; [done|]. rewrite (proj2 (Z.eqb_neq _ 0)) by lia.
    destruct (Z.eqb_spec (Z.of_nat (length (sp_listeners a))) (pr_listeners_max s)); [|lia]. rewrite swrap_small; [lia|done|]. change (2 ^ (32 - 1)) with 2147483648. lia. }
  exists (set_listeners (pr_listeners s ++ [(fnp, arg)]) max s). split.
  - unfold runs, run_op, peer_server_add_listener. rewrite (bind_runs _ _ _ _ _ (runs_gets pr_listeners s)), (bind_runs _ _ _ _ _ (runs_gets pr_listeners_max s)).
    fold max. rewrite (proj2 (Z.ltb_lt (Z.of_nat (length (pr_listeners s))) max)) by (rewrite (re_listeners _ _ _ _ _ H); lia). cbn [cassert].
    by rewrite (bind_runs _ _ _ _ _ (runs_ret tt s)).
  - exists V, C, l. destruct H. split; cbn; try done.
    + by rewrite re_listeners0.
    + right. rewrite length_app. cbn. lia.
Qed.

(** ** The table *)

Lemma visit s V C l0 x l2 i f : store s V C (l0 ++ x :: l2) -> V !! x = Some (true, Some i, f) ->
  runs (get_link (lastp l0)) s x s /\ (x =? 0) = false /\
  exists o, pr_objs s !! x = Some o /\ pr_strs s !! ps_id o = Some i /\ ps_flags o = in_flags f /\ ps_expiration_time o = in_expires f.
Proof.
  intros Hst Hx. pose proof Hst as (Hh & _). destruct (heap_obj s V C x _ Hh Hx) as (o & Ho & (_ & Hi & ? & _ & ? & _) & Hx0).
  split; [exact (runs_get_link s V C l0 (x :: l2) Hst)|]. split; [by apply Z.eqb_neq|]. by exists o.
Qed.

Lemma visit_end s V C l0 : store s V C l0 -> runs (get_link (lastp l0)) s 0 s.
Proof. intros Hst. apply (runs_get_link s V C l0 []). by rewrite app_nil_r. Qed.

Lemma table_split V l es1 e es2 : table V l (es1 ++ e :: es2) -> exists l1 x l2, l = l1 ++ x :: l2 /\ table V l1 es1 /\ V !! x = Some (true, Some e.1, e.2) /\ table V l2 es2.
Proof. intros H. apply Forall2_app_inv_r in H as (l1 & l' & H1 & H' & ->). inversion H' as [|x ? l2]; subst. by exists l1, x, l2. Qed.

Lemma related_removed V C l1 x l2 s s' a id f es1 es2 cs : related V C (l1 ++ x :: l2) s a -> sp_peers a = es1 ++ (id, f) :: es2 -> table V l1 es1 -> table V l2 es2 ->
  store s' (delete x V) C (l1 ++ l2) -> V !! x = Some (true, Some id, f) ->
  others s' = (pr_next s, pr_listeners s, pr_listeners_max s, pr_stale_timer_active s, pr_timers s, pr_calls s ++ cs) ->
  related (delete x V) C (l1 ++ l2) s' (mkSpec (es1 ++ es2) (sp_drafts a) (sp_strings a) (sp_next a) (sp_listeners a) (sp_timer a) (sp_calls a ++ cs) (sp_lost a)).
Proof.
  intros H Ea Ht1 Ht2 Hst Hx Ho. pose proof (re_store _ _ _ _ _ H) as (_ & _ & Hnd). assert (Hxl : x ∉ l1 ++ l2) by (apply NoDup_app in Hnd as (_ & ? & [? _]%NoDup_cons); set_solver).
  unfold others in Ho. injection Ho as E1 E2 E3 E4 E5 E6. destruct H. rewrite Ea in *. split; cbn; try congruence.
  - eapply table_frame; [|by apply Forall2_app]. intros p Hp. rewrite lookup_delete_ne; [done|]. by intros <-.
  - rewrite !fmap_app, fmap_cons in *. apply NoDup_app in re_ids0 as (? & Hd & [_ ?]%NoDup_cons). apply NoDup_app. split_and!; [done| |done]. intros i Hi. specialize (Hd i Hi). set_solver.
  - intros p i g Hp. apply lookup_delete_Some in Hp as [Hne Hp]. apply re_listed0 in Hp. set_solver.
  - intros p d. rewrite re_drafts0. destruct (decide (p = x)) as [->|]; [|by rewrite lookup_delete_ne]. rewrite lookup_delete_eq, Hx. naive_solver.
  - rewrite E4, E5. destruct re_timer0 as (? & ? & Ht). split_and!; [done..|]. intros _. apply Ht. by destruct es1.
Qed.

Lemma remove_skip s V C l0 l1 l2 es1 id k : store s V C (l0 ++ l1 ++ l2) -> table V l1 es1 -> id ∉ es1.*1 ->
  remove_loop call_listener fuel (length l1 + k) id (lastp l0) s = remove_loop call_listener fuel k id (lastp (l0 ++ l1)) s.
Proof.
  revert l0 es1. induction l1 as [|x l1 IH]; intros l0 es1 Hst Ht Hid; [by rewrite app_nil_r|]. inversion Ht as [|y [i f] l' es' Hx Ht']; subst. cbn [fst snd] in Hx.
  rewrite fmap_cons in Hid. destruct (visit s V C l0 x (l1 ++ l2) i f Hst Hx) as (R & Hx0 & o & Ho & Hi & _).
  cbn [length Nat.add remove_loop]. rewrite (bind_runs _ _ _ _ _ R), Hx0. rewrite (bind_runs _ _ _ _ _ (runs_load s x o Ho)), (bind_runs _ _ _ _ _ (runs_the_str s _ i Hi)).
  destruct (streq_spec i id) as [->|_]; [cbn in Hid; set_solver|].
  specialize (IH (l0 ++ [x]) es'). rewrite lastp_snoc, <- !app_assoc in IH. apply IH; [done..|]. cbn in Hid. set_solver.
Qed.

Lemma refines_remove s a id : refines s a -> op_ok fuel a (ORemove id) -> exists s', runs (run_op (ORemove id)) s tt s' /\ refines s' (spec_step a (ORemove id)).
Proof.
  intros (V & C & l & H) [Hf1 Hf2]. pose proof (re_store _ _ _ _ _ H) as Hst. pose proof (re_table _ _ _ _ _ H) as Ht. rewrite <- (Forall2_length _ _ _ Ht) in Hf1.
  assert (Hl : (length (pr_listeners s) < fuel)%nat) by (by rewrite (re_listeners _ _ _ _ _ H)).
  cbn [run_op spec_step]. unfold peer_server_remove. destruct (assoc_split id _ (re_ids _ _ _ _ _ H)) as [(E & Hid & Hd)|(es1 & f & es2 & Ea & Hi1 & _ & E & Hd & _)]; rewrite E, Hd.
  - exists s. split.
    + pose proof (remove_skip s V C [] l [] (sp_peers a) id (fuel - length l)) as Hskip. rewrite app_nil_r in Hskip. specialize (Hskip Hst Ht Hid).
      replace (length l + (fuel - length l))%nat with fuel in Hskip by lia. unfold runs. change 0 with (lastp []). rewrite Hskip.
      destruct (fuel - length l)%nat eqn:Ek; [lia|]. cbn [remove_loop app]. by rewrite (bind_runs _ _ _ _ _ (visit_end s V _ l Hst)).
    + exists V, C, l. destruct H. split; cbn; try done. by rewrite app_nil_r.
  - rewrite Ea in Ht. destruct (table_split V l es1 _ es2 Ht) as (l1 & x & l2 & -> & Ht1 & Hx & Ht2). cbn [fst snd] in Hx.
    destruct (visit s V _ l1 x l2 id f Hst Hx) as (R & Hx0 & o & Ho & Hi & _).
    destruct (runs_remove_peer call_listener listeners_run fuel s V _ l1 x l2 id f Hst Hx Hl) as (s' & Rr & Hst' & Ho'). exists s'. split.
    + pose proof (remove_skip s V C [] l1 (x :: l2) es1 id (fuel - length l1) Hst Ht1 Hi1) as Hskip. rewrite length_app in Hf1. cbn in Hf1.
      replace (length l1 + (fuel - length l1))%nat with fuel in Hskip by lia. unfold runs. change 0 with (lastp []). rewrite Hskip.
      destruct (fuel - length l1)%nat eqn:Ek; [lia|]. cbn [remove_loop app]. rewrite (bind_runs _ _ _ _ _ R), Hx0.
      rewrite (bind_runs _ _ _ _ _ (runs_load s x o Ho)), (bind_runs _ _ _ _ _ (runs_the_str s _ id Hi)). destruct (streq_spec id id) as [_|]; [exact Rr|done].
    + exists (delete x V), C, (l1 ++ l2). eapply (related_removed V C l1 x l2 s); [exact H|exact Ea|done..|]. by rewrite Ho', (re_listeners _ _ _ _ _ H).
Qed.

(** ** The timer *)

Lemma clear_runs now es2 : forall l1 l2 s V C k keep, store s V C (l1 ++ l2) -> table V l2 es2 -> (length l2 < k)%nat -> (length (pr_listeners s) < fuel)%nat ->
  exists s' V' l2', runs (clear_loop call_listener fuel k now (lastp l1) keep) s (keep || negb (Nat.eqb (length (List.filter (live now) es2)) 0)) s' /\
    store s' V' C (l1 ++ l2') /\ table V' l2' (List.filter (live now) es2) /\
    (forall p, p ∉ l2 -> V' !! p = V !! p) /\ (forall p, p ∈ l2 -> V' !! p = None \/ p ∈ l2' /\ V' !! p = V !! p) /\
    others s' = (pr_next s, pr_listeners s, pr_listeners_max s, pr_stale_timer_active s, pr_timers s,
      pr_calls s ++ concat (map (fun e => tell (pr_listeners s) e.1 PS_EVENT_REMOVED) (List.filter (fun e => negb (live now e)) es2))).
Proof.
  induction es2 as [|[id f] es2 IH]; intros l1 l2 s V C k keep Hst Ht Hk Hf; (destruct k as [|k]; [lia|]); inversion Ht as [|x ? l2r ? Hx Ht']; subst.
  - exists s, V, []. rewrite app_nil_r in Hst. cbn [clear_loop]. split_and!; try done; [|by rewrite app_nil_r|set_solver|cbn; by rewrite app_nil_r].
    unfold runs. rewrite (bind_runs _ _ _ _ _ (visit_end s V _ l1 Hst)). cbn. by rewrite orb_false_r.
  - cbn [fst snd] in Hx. destruct (visit s V C l1 x l2r id f Hst Hx) as (R & Hx0 & o & Ho & _ & _ & He). cbn [length] in Hk.
    assert (Hxn : x ∉ l2r) by (destruct Hst as (_ & _ & (_ & _ & [? _]%NoDup_cons)%NoDup_app); done).
    cbn [clear_loop List.filter]. unfold runs. setoid_rewrite (bind_runs _ _ _ _ _ R). rewrite Hx0. setoid_rewrite (bind_runs _ _ _ _ _ (runs_load s x o Ho)).
    rewrite He. destruct (Z.leb_spec (in_expires f) now) as [Hd|Hl].
    + assert (Hlive : live now (id, f) = false) by (by apply Z.ltb_ge). rewrite Hlive. cbn [negb].
      destruct (runs_remove_peer call_listener listeners_run fuel s V C l1 x l2r id f Hst Hx Hf) as (s1 & R1 & Hst1 & E1). setoid_rewrite (bind_runs _ _ _ _ _ R1).
      assert (El : pr_listeners s1 = pr_listeners s) by (unfold others in E1; congruence).
      destruct (IH l1 l2r s1 (delete x V) C k keep Hst1) as (s' & V' & l2' & R' & Hst' & Ht2 & Hout & Hin & E'); [|lia|by rewrite El|].
      { eapply table_frame; [|done]. intros p Hp. rewrite lookup_delete_ne; [done|]. by intros <-. }
      exists s', V', l2'. split; [exact R'|]. split_and!; [done|done| | |].
      * intros p Hp. rewrite Hout by set_solver. rewrite lookup_delete_ne; [done|]. set_solver.
      * intros p [->|Hp]%elem_of_cons; [left; by rewrite Hout, lookup_delete_eq|]. destruct (Hin p Hp) as [|[? E]]; [by left|right]. split; [done|].
        rewrite E, lookup_delete_ne; [done|]. by intros <-.
      * rewrite E'. unfold others in E1. injection E1 as -> -> -> -> -> ->. cbn [map concat]. by rewrite app_assoc.
    + assert (Hlive : live now (id, f) = true) by (by apply Z.ltb_lt). rewrite Hlive. cbn [negb length Nat.eqb]. rewrite orb_true_r.
      destruct (IH (l1 ++ [x]) l2r s V C k true) as (s' & V' & l2' & R' & Hst' & Ht2 & Hout & Hin & E'); [by rewrite <- app_assoc|done|lia|done|].
      rewrite lastp_snoc in R'. cbn [orb] in R'. exists s', V', (x :: l2'). split; [exact R'|]. rewrite <- app_assoc in Hst'. split_and!; [done| | | |done].
      * constructor; [|done]. cbn. by rewrite Hout.
      * intros p Hp. apply Hout. set_solver.
      * intros p [->|Hp]%elem_of_cons; [right; split; [set_solver|by apply Hout]|]. destruct (Hin p Hp) as [|[? ?]]; [by left|right]. split; [set_solver|done].
Qed.

Lemma refines_timer s a now : refines s a -> op_ok fuel a (OTimer now) -> exists s', runs (run_op (OTimer now)) s tt s' /\ refines s' (spec_step a (OTimer now)).
Proof.
  intros (V & C & l & H) (Htimer & Hf1 & Hf2). pose proof (re_table _ _ _ _ _ H) as Ht. rewrite <- (Forall2_length _ _ _ Ht) in Hf1.
  destruct (re_timer _ _ _ _ _ H) as (Ha & Hn & _). rewrite Htimer in Ha, Hn. cbn in Hn.
  set (s0 := set_timer true 0 s).
  assert (Hst : store s0 V C l) by (apply (store_ext s); [done..|apply H]).
  assert (Hl : (length (pr_listeners s0) < fuel)%nat) by (cbn; by rewrite (re_listeners _ _ _ _ _ H)).
  destruct (clear_runs now (sp_peers a) [] l s0 V C fuel false Hst Ht Hf1 Hl) as (s1 & V' & l' & R & Hst' & Ht' & Hout & Hin & E).
  cbn [orb app] in *. set (es := List.filter (live now) (sp_peers a)) in *.
  exists (set_timer (negb (Nat.eqb (length es) 0)) (Z.b2z (negb (Nat.eqb (length es) 0))) s1). unfold others in E. injection E as E1 E2 E3 E4 E5 E6. cbn in *. split.
  - unfold runs, dispatch_stale_timer. rewrite (bind_runs _ _ _ _ _ (runs_gets pr_timers s)). rewrite Hn. cbn [cassert Z.ltb Z.compare].
    rewrite (bind_runs _ _ _ _ _ (runs_ret tt s)), (bind_runs _ _ _ _ _ (runs_modify _ s)). rewrite Hn, Ha. change (1 - 1) with 0. fold s0.
    unfold clear_stale_peers. change 0 with (lastp []) at 1. rewrite (bind_runs _ _ _ _ _ R).
    destruct (Nat.eqb (length es) 0) eqn:Ee; cbn [negb]; unfold post_stale_timer, modify, set_timer; cbn; by rewrite ?E4, ?E5.
  - exists V', C, l'. destruct H. split; cbn; try congruence; try done.
    + unfold es. clear -re_ids0. induction (sp_peers a) as [|e l IH]; [constructor|]. rewrite fmap_cons in re_ids0. apply NoDup_cons in re_ids0 as [Hn Hd].
      cbn. destruct (live now e); [|by apply IH]. rewrite fmap_cons. apply NoDup_cons. split; [|by apply IH]. intros (e' & E & He)%list_elem_of_fmap.
      apply Hn. apply list_elem_of_fmap. exists e'. split; [done|]. apply list_elem_of_In, filter_In in He as [He _]. by apply list_elem_of_In.
    + intros p i f Hp. destruct (decide (p ∈ l)) as [Hpl|Hpl]; [|rewrite Hout in Hp by done; by apply re_listed0 in Hp]. destruct (Hin p Hpl) as [E|[? _]]; [congruence|done].
    + intros p d. rewrite re_drafts0. destruct (decide (p ∈ l)) as [Hpl|Hpl]; [|by rewrite Hout].
      apply list_elem_of_lookup in Hpl as Hpl'. destruct Hpl' as [i Hi]. destruct (Forall2_lookup_l _ _ _ _ _ re_table0 Hi) as (e & _ & He). cbn in He.
      rewrite He. destruct (Hin p Hpl) as [E|[_ E]]; rewrite E; [naive_solver|]. by rewrite He.
    + split_and!; [done..|]. by destruct (List.filter (live now) (sp_peers a)).
    + by rewrite E6, re_listeners0, re_calls0.
Qed.

(** ** Adding a peer *)

Lemma add_skip s V C l0 l1 l2 es1 now n d id f b k : store s V C (l0 ++ l1 ++ l2) -> table V l1 es1 -> id ∉ es1.*1 -> V !! n = Some (b, Some id, f) ->
  add_loop call_listener fuel (length l1 + k) now n d (lastp l0) s = add_loop call_listener fuel k now n d (lastp (l0 ++ l1)) s.
Proof.
  revert l0 es1. induction l1 as [|x l1 IH]; intros l0 es1 Hst Ht Hid Hn; [by rewrite app_nil_r|]. inversion Ht as [|y [i g] l' es' Hx Ht']; subst. cbn [fst snd] in Hx.
  rewrite fmap_cons in Hid. destruct (visit s V C l0 x (l1 ++ l2) i g Hst Hx) as (R & Hx0 & o & Ho & Hi & _).
  destruct (heap_obj s V C n _ (proj1 Hst) Hn) as (on & Hon & (_ & Hin & _) & _).
  cbn [length Nat.add add_loop]. rewrite (bind_runs _ _ _ _ _ R), Hx0. rewrite (bind_runs _ _ _ _ _ (runs_load s x o Ho)), (bind_runs _ _ _ _ _ (runs_load s n on Hon)).
  rewrite (bind_runs _ _ _ _ _ (runs_the_str s _ i Hi)), (bind_runs _ _ _ _ _ (runs_the_str s _ id Hin)).
  destruct (streq_spec i id) as [->|_]; [cbn in Hid; set_solver|].
  specialize (IH (l0 ++ [x]) es'). rewrite lastp_snoc, <- !app_assoc in IH. apply IH; [done..| |done]. cbn in Hid. set_solver.
Qed.

(** The loop gets to a peer with the identifier. *)
Lemma add_found s V C l1 x l2 es1 now n d id f old b : store s V C (l1 ++ x :: l2) -> table V l1 es1 -> id ∉ es1.*1 ->
  V !! x = Some (true, Some id, old) -> V !! n = Some (b, Some id, f) -> (length (l1 ++ x :: l2) < fuel)%nat ->
  exists os on, pr_objs s !! x = Some os /\ pr_objs s !! n = Some on /\ ps_flags os = in_flags old /\ ps_flags on = in_flags f /\
  add_loop call_listener fuel fuel now n d 0 s =
    (if keeps old f then
       update_peer (fun o => ps_set_times (ps_creation_time o) (expires now d) o) x ;!
       (if negb (has_flag PS_FLAG_LOCAL (ps_flags os)) then update_peer (ps_set_flags (ps_flags on)) x else ret tt) ;!
       peer_server_free n ;!
       notify_listeners call_listener fuel x PS_EVENT_HEART_BEAT ;!
       ret (inl x)
     else
       set_link (lastp l1) (ps_next os) ;!
       update_peer (ps_set_listed false) x ;!
       peer_server_free x ;!
       ret (inr PS_EVENT_CHANGED)) s.
Proof.
  intros Hst Ht Hid Hx Hn Hk. destruct (visit s V C l1 x l2 id old Hst Hx) as (R & Hx0 & os & Ho & Hi & Hfl & _).
  destruct (heap_obj s V C n _ (proj1 Hst) Hn) as (on & Hon & (_ & Hin & Hfn & _) & _). exists os, on. split_and!; [done..|].
  pose proof (add_skip s V C [] l1 (x :: l2) es1 now n d id f b (fuel - length l1) Hst Ht Hid Hn) as Hskip. rewrite length_app in Hk. cbn in Hk.
  replace (length l1 + (fuel - length l1))%nat with fuel in Hskip by lia. change 0 with (lastp []) at 1. rewrite Hskip.
  destruct (fuel - length l1)%nat eqn:Ek; [lia|]. cbn [add_loop app]. rewrite (bind_runs _ _ _ _ _ R), Hx0.
  rewrite (bind_runs _ _ _ _ _ (runs_load s x os Ho)), (bind_runs _ _ _ _ _ (runs_load s n on Hon)).
  rewrite (bind_runs _ _ _ _ _ (runs_the_str s _ id Hi)), (bind_runs _ _ _ _ _ (runs_the_str s _ id Hin)).
  destruct (streq_spec id id) as [_|]; [|done].
  assert (Rk : runs (if has_flag PS_FLAG_LOCAL (ps_flags os) && negb (has_flag PS_FLAG_LOCAL (ps_flags on)) then ret true else is_same x n) s (keeps old f) s).
  { unfold keeps. rewrite Hfl, Hfn. destruct (_ && _); [done|]. by eapply runs_is_same; [apply Hst|..]. }
  by rewrite (bind_runs _ _ _ _ _ Rk).
Qed.

(** The new peer becomes the first one of the list. *)
Lemma runs_insert s V C l n id f now d type : store s V C l -> n ∉ l -> V !! n = Some (false, Some id, f) -> (length (pr_listeners s) < fuel)%nat ->
  pr_timers s = Z.b2z (pr_stale_timer_active s) ->
  exists s', runs (let! first := gets pr_peers in
      update_peer (fun o => ps_set_next first (ps_set_times now (expires now d) (ps_set_listed true o))) n ;!
      modify (set_peers n) ;!
      notify_listeners call_listener fuel n type ;!
      let! active := gets pr_stale_timer_active in
      (if negb active then modify (fun s => set_timer true (pr_timers s) s) ;! post_stale_timer else ret tt) ;!
      ret n) s n s' /\
    store s' (<[n := (true, Some id, with_times now (expires now d) f)]> V) C (n :: l) /\
    others s' = (pr_next s, pr_listeners s, pr_listeners_max s, true, 1, pr_calls s ++ tell (pr_listeners s) id type).
Proof.
  intros Hst Hn Hv Hf Htimer. destruct (heap_obj s V C n _ (proj1 Hst) Hv) as (o & Ho & Hov & Hn0).
  set (f1 := fun o => ps_set_next (pr_peers s) (ps_set_times now (expires now d) (ps_set_listed true o))).
  set (v1 := (true, Some id, with_times now (expires now d) f)).
  assert (Hst1 : store (set_objs <[n := f1 o]> s) (<[n := v1]> V) C l).
  { apply (store_fields s V C l n o f1); [done..| |done]. destruct Hov as (? & ? & ? & ? & ? & Hrest). do 5 (split; [done|]). exact Hrest. }
  set (s2 := set_peers n (set_objs <[n := f1 o]> s)).
  assert (Hst2 : store s2 (<[n := v1]> V) C (n :: l)).
  { destruct Hst1 as (Hh1 & Hs1 & Hnd1). split_and!; [by eapply heap_ext| |by constructor]. cbn in *. split; [done|]. split; [done|].
    exists (f1 o). by rewrite lookup_insert_eq. }
  destruct (runs_notify call_listener listeners_run fuel s2 _ C (n :: l) n id _ type Hst2 (lookup_insert_eq _ _ _)) as [w R]; [done|].
  apply (store_with_calls (tell (pr_listeners s2) id type) w) in Hst2. set (s3 := with_calls _ w s2) in *.
  exists (if pr_stale_timer_active s then s3 else set_timer true 1 s3). split; [|split].
  - unfold runs. rewrite (bind_runs _ _ _ _ _ (runs_gets pr_peers s)), (bind_runs _ _ _ _ _ (runs_update f1 s n o Ho)), (bind_runs _ _ _ _ _ (runs_modify _ _)). fold s2.
    rewrite (bind_runs _ _ _ _ _ R), (bind_runs _ _ _ _ _ (runs_gets pr_stale_timer_active s3)). change (pr_stale_timer_active s3) with (pr_stale_timer_active s).
    destruct (pr_stale_timer_active s) eqn:Ea; [done|]. cbn in Htimer. unfold bind, modify, post_stale_timer, ret, set_timer. cbn. by rewrite Htimer.
  - destruct (pr_stale_timer_active s); [done|]. by apply (store_ext s3).
  - unfold others. destruct (pr_stale_timer_active s) eqn:Ea; cbn; rewrite ?Ea, ?Htimer; done.
Qed.

Lemma related_inserted V C l s s' a n id f g type : related V C l s a -> sp_drafts a !! n = Some (Some id, f) -> id ∉ (sp_peers a).*1 ->
  store s' (<[n := (true, Some id, g)]> V) C (n :: l) ->
  others s' = (pr_next s, pr_listeners s, pr_listeners_max s, true, 1, pr_calls s ++ tell (pr_listeners s) id type) ->
  related (<[n := (true, Some id, g)]> V) C (n :: l) s'
    (mkSpec ((id, g) :: sp_peers a) (delete n (sp_drafts a)) (sp_strings a) (sp_next a) (sp_listeners a) true (sp_calls a ++ tell (sp_listeners a) id type) (sp_lost a)).
Proof.
  intros H Hd Hid Hst Ho. destruct (draft_unlisted _ _ _ _ _ _ _ H Hd) as [Hv Hn]. unfold others in Ho. injection Ho as E1 E2 E3 E4 E5 E6.
  destruct H. split; cbn; try congruence; try done.
  - constructor; [by rewrite lookup_insert_eq|]. eapply table_frame; [|done]. intros p Hp. rewrite lookup_insert_ne; [done|]. by intros <-.
  - by apply NoDup_cons.
  - intros p i h Hp. destruct (decide (p = n)) as [->|]; [set_solver|]. rewrite lookup_insert_ne in Hp by done. apply re_listed0 in Hp. set_solver.
  - intros p e. destruct (decide (p = n)) as [->|]; [rewrite lookup_delete_eq, lookup_insert_eq; naive_solver|]. by rewrite lookup_delete_ne, lookup_insert_ne.
Qed.

(** A peer that is known and stays. *)
Lemma related_kept V C l1 x l2 s a n id f old now d : related V C (l1 ++ x :: l2) s a -> sp_drafts a !! n = Some (Some id, f) ->
  V !! x = Some (true, Some id, old) -> (length (pr_listeners s) < fuel)%nat -> forall os on, pr_objs s !! x = Some os -> ps_flags os = in_flags old -> ps_flags on = in_flags f ->
  exists s', runs (update_peer (fun o => ps_set_times (ps_creation_time o) (expires now d) o) x ;!
       (if negb (has_flag PS_FLAG_LOCAL (ps_flags os)) then update_peer (ps_set_flags (ps_flags on)) x else ret tt) ;!
       peer_server_free n ;!
       notify_listeners call_listener fuel x PS_EVENT_HEART_BEAT ;!
       ret (@inl Z Z x)) s (inl x) s' /\
    store s' (delete n (<[x := (true, Some id, heart_beat now d old f)]> V)) C (l1 ++ x :: l2) /\
    others s' = (pr_next s, pr_listeners s, pr_listeners_max s, pr_stale_timer_active s, pr_timers s, pr_calls s ++ tell (pr_listeners s) id PS_EVENT_HEART_BEAT).
Proof.
  intros H Hd Hx Hf os on Ho Hfl Hfn. destruct (draft_unlisted _ _ _ _ _ _ _ H Hd) as [Hv Hn]. pose proof (re_store _ _ _ _ _ H) as Hst.
  assert (Hnx : n <> x) by (intros ->; congruence).
  destruct (heap_obj s V _ x _ (proj1 Hst) Hx) as (o & Ho' & Hov & _). assert (o = os) as -> by congruence.
  set (f1 := fun o => ps_set_times (ps_creation_time o) (expires now d) o). set (s1 := set_objs <[x := f1 os]> s).
  assert (Hst1 : store s1 (<[x := (true, Some id, with_times (in_creation old) (expires now d) old)]> V) C (l1 ++ x :: l2)).
  { apply (store_fields s V _ _ x os f1); [done..| |done]. destruct Hov as (? & ? & ? & ? & ? & Hrest). do 5 (split; [done|]). exact Hrest. }
  assert (Ho1 : pr_objs s1 !! x = Some (f1 os)) by (cbn; by rewrite lookup_insert_eq).
  set (hb := heart_beat now d old f).
  assert (Hs2 : exists s2, runs (if negb (has_flag PS_FLAG_LOCAL (ps_flags os)) then update_peer (ps_set_flags (ps_flags on)) x else ret tt) s1 tt s2 /\
    store s2 (<[x := (true, Some id, hb)]> V) C (l1 ++ x :: l2) /\ others s2 = others s).
  { unfold hb, heart_beat. rewrite Hfl. destruct (has_flag PS_FLAG_LOCAL (in_flags old)); [by exists s1|].
    exists (set_objs <[x := ps_set_flags (ps_flags on) (f1 os)]> s1). split; [by apply (runs_update (ps_set_flags (ps_flags on)))|]. split; [|done].
    rewrite <- (insert_insert_eq V x _ (true, Some id, with_times (in_creation old) (expires now d) old)). eapply (store_fields s1 _ _ _ x (f1 os) (ps_set_flags (ps_flags on))); [done..| |done].
    destruct (heap_obj s1 _ _ x _ (proj1 Hst1) (lookup_insert_eq _ _ _)) as (o1 & Ho1' & (? & ? & _ & ? & ? & Hrest) & _). assert (o1 = f1 os) as -> by congruence.
    split; [done|]. split; [done|]. split; [done|]. do 2 (split; [done|]). exact Hrest. }
  destruct Hs2 as (s2 & R2 & Hst2 & E2).
  destruct (store_free s2 _ _ _ n (Some id) f Hst2 Hn) as (s3 & R3 & Hst3 & E3); [by rewrite lookup_insert_ne|].
  assert (El : pr_listeners s3 = pr_listeners s) by (unfold others in *; congruence).
  destruct (runs_notify call_listener listeners_run fuel s3 _ _ _ x id hb PS_EVENT_HEART_BEAT Hst3) as [w R4]; [by rewrite lookup_delete_ne, lookup_insert_eq|by rewrite El|].
  exists (with_calls (tell (pr_listeners s3) id PS_EVENT_HEART_BEAT) w s3). split; [|split; [by apply store_with_calls|unfold others in *; cbn; congruence]].
  unfold runs. rewrite (bind_runs _ _ _ _ _ (runs_update f1 s x os Ho)). fold s1. by rewrite (bind_runs _ _ _ _ _ R2), (bind_runs _ _ _ _ _ R3), (bind_runs _ _ _ _ _ R4).
Qed.

Lemma related_beat V C l1 x l2 s s' a n id f old hb es1 es2 cs : related V C (l1 ++ x :: l2) s a -> sp_drafts a !! n = Some (Some id, f) ->
  sp_peers a = es1 ++ (id, old) :: es2 -> table V l1 es1 -> table V l2 es2 -> V !! x = Some (true, Some id, old) ->
  store s' (delete n (<[x := (true, Some id, hb)]> V)) C (l1 ++ x :: l2) ->
  others s' = (pr_next s, pr_listeners s, pr_listeners_max s, pr_stale_timer_active s, pr_timers s, pr_calls s ++ cs) ->
  related (delete n (<[x := (true, Some id, hb)]> V)) C (l1 ++ x :: l2) s'
    (mkSpec (es1 ++ (id, hb) :: es2) (delete n (sp_drafts a)) (sp_strings a) (sp_next a) (sp_listeners a) (sp_timer a) (sp_calls a ++ cs) (sp_lost a)).
Proof.
  intros H Hd Ea Ht1 Ht2 Hx Hst Ho. destruct (draft_unlisted _ _ _ _ _ _ _ H Hd) as [Hv Hn]. pose proof (re_store _ _ _ _ _ H) as (_ & _ & Hnd).
  assert (Hnx : n <> x) by (intros ->; congruence). unfold others in Ho. injection Ho as E1 E2 E3 E4 E5 E6. destruct H. rewrite Ea in *.
  apply NoDup_app in Hnd as (_ & Hd1 & [Hx2 _]%NoDup_cons). split; cbn; try congruence; try done.
  - apply Forall2_app; [|constructor].
    + eapply table_frame; [|exact Ht1]. intros p Hp. rewrite lookup_delete_ne, lookup_insert_ne; [done|intros <-; set_solver|intros <-; set_solver].
    + by rewrite lookup_delete_ne, lookup_insert_eq.
    + eapply table_frame; [|exact Ht2]. intros p Hp. rewrite lookup_delete_ne, lookup_insert_ne; [done|intros <-; set_solver|intros <-; set_solver].
  - by rewrite fmap_app, fmap_cons in *.
  - intros p i g Hp. apply lookup_delete_Some in Hp as [? Hp]. destruct (decide (p = x)) as [->|]; [set_solver|]. rewrite lookup_insert_ne in Hp by done. eauto.
  - intros p d. destruct (decide (p = n)) as [->|]; [by rewrite !lookup_delete_eq|]. rewrite !lookup_delete_ne by done. rewrite re_drafts0.
    destruct (decide (p = x)) as [->|]; [rewrite lookup_insert_eq; naive_solver|]. by rewrite lookup_insert_ne.
  - rewrite E4, E5. destruct re_timer0 as (? & ? & Ht). split_and!; [done..|]. intros _. apply Ht. by destruct es1.
Qed.

Lemma refines_add s a now p d : refines s a -> op_ok fuel a (OAdd now p d) -> exists s', runs (run_op (OAdd now p d)) s tt s' /\ refines s' (spec_step a (OAdd now p d)).
Proof.
  intros (V & C & l & H) ((id & f & Hd) & Hf1 & Hf2). pose proof (re_store _ _ _ _ _ H) as Hst. pose proof (re_table _ _ _ _ _ H) as Ht.
  destruct (draft_unlisted _ _ _ _ _ _ _ H Hd) as [Hv Hn]. cbn [fst snd] in Hv. rewrite <- (Forall2_length _ _ _ Ht) in Hf1.
  assert (Hl : (length (pr_listeners s) < fuel)%nat) by (by rewrite (re_listeners _ _ _ _ _ H)).
  assert (Htm : pr_timers s = Z.b2z (pr_stale_timer_active s)) by (destruct (re_timer _ _ _ _ _ H) as (-> & ? & _); done).
  destruct (heap_obj s V _ p _ (proj1 Hst) Hv) as (o & Ho & (Hlo & _) & _).
  cbn [run_op spec_step]. rewrite Hd. unfold spec_add, runs, peer_server_add, bind at 1. setoid_rewrite (bind_runs _ _ _ _ _ (runs_load s p o Ho)). rewrite Hlo. cbn [negb cassert].
  setoid_rewrite (bind_runs _ _ _ _ _ (runs_ret tt s)).
  destruct (assoc_split id _ (re_ids _ _ _ _ _ H)) as [(E & Hid & _)|(es1 & old & es2 & Ea & Hi1 & Hi2 & E & Hdrop & Hset)]; rewrite E.
  - destruct (runs_insert s V _ l p id f now d PS_EVENT_ADDED Hst Hn Hv Hl Htm) as (s' & R & Hst' & Ho').
    exists s'. split; [|eexists _, C, (p :: l); by eapply related_inserted].
    pose proof (add_skip s V C [] l [] (sp_peers a) now p d id f false (fuel - length l)) as Hskip. rewrite app_nil_r in Hskip. specialize (Hskip Hst Ht Hid Hv).
    replace (length l + (fuel - length l))%nat with fuel in Hskip by lia. change 0 with (lastp []) at 1. unfold bind at 1. rewrite Hskip.
    destruct (fuel - length l)%nat eqn:Ek; [lia|]. cbn [add_loop app]. rewrite (bind_runs _ _ _ _ _ (visit_end s V _ l Hst)). cbn [Z.eqb ret].
    unfold runs in R. by rewrite R.
  - rewrite Ea in Ht. destruct (table_split V l es1 _ es2 Ht) as (l1 & x & l2 & -> & Ht1 & Hx & Ht2). cbn [fst snd] in Hx.
    destruct (add_found s V _ l1 x l2 es1 now p d id f old false Hst Ht1 Hi1 Hx Hv Hf1) as (os & on & Hos & Hon & Hfl & Hfn & Hloop).
    destruct (keeps old f).
    + destruct (related_kept V C l1 x l2 s a p id f old now d H Hd Hx Hl os on Hos Hfl Hfn) as (s' & R & Hst' & Ho').
      exists s'. split; [unfold bind at 1; rewrite Hloop; unfold runs in R; by rewrite R|]. rewrite Hset. eexists _, C, _. eapply related_beat; [done..|]. by rewrite Ho', (re_listeners _ _ _ _ _ H).
    + destruct (store_unlink s V _ l1 x l2 os Hst Hos) as (s1 & R1 & Hst1 & E1 & _).
      assert (Hxn : x ∉ l1 ++ l2) by (destruct Hst as (_ & _ & Hnd); apply NoDup_app in Hnd as (_ & ? & [? _]%NoDup_cons); set_solver).
      destruct (store_unlist s1 V _ (l1 ++ l2) x (Some id) old Hst1 Hxn Hx) as (s2 & R2 & Hst2 & E2).
      assert (Eo : others s2 = (pr_next s, pr_listeners s, pr_listeners_max s, pr_stale_timer_active s, pr_timers s, pr_calls s ++ [])) by (rewrite E2, E1, app_nil_r; done).
      pose proof (related_removed V C l1 x l2 s s2 a id old es1 es2 [] H Ea Ht1 Ht2 Hst2 Hx Eo) as H2. unfold others in Eo. rewrite app_nil_r in Eo. injection Eo as Q1 Q2 Q3 Q4 Q5 Q6.
      assert (Hnx : p <> x) by (intros ->; congruence).
      destruct (runs_insert s2 (delete x V) _ (l1 ++ l2) p id f now d PS_EVENT_CHANGED Hst2) as (s3 & R3 & Hst3 & Eo3); [set_solver|by rewrite lookup_delete_ne|by rewrite Q2|by rewrite Q5, Q4|].
      exists s3. split.
      * unfold bind at 1. rewrite Hloop, (bind_runs _ _ _ _ _ R1). unfold runs, bind in R2. unfold bind at 1 2. destruct (update_peer _ x s1) as [[] ?]; try discriminate.
        rewrite R2. cbn [ret]. unfold runs in R3. by rewrite R3.
      * eexists _, C, _. rewrite Hdrop. rewrite app_nil_r in H2. eapply (related_inserted (delete x V) C _ s2 _ (mkSpec _ _ _ _ _ _ _ _)); [exact H2|done| |done|done].
        change (id ∉ (es1 ++ es2).*1). rewrite fmap_app. by apply not_elem_of_app.
Qed.

(** ** Sequences of operations *)

Lemma op_refines s a o : refines s a -> op_ok fuel a o -> exists s', runs (run_op o) s tt s' /\ refines s' (spec_step a o).
Proof.
  intros H Ho. destruct o; [by apply refines_string|by apply refines_alloc|by apply refines_addprop|by apply refines_flags|by apply refines_free
    |by apply refines_add|by apply refines_remove|by apply refines_timer|by apply refines_listener].
Qed.

(** What is left in memory belongs to somebody, or is an identifier that has been replaced. *)
Lemma nothing_lost s a : refines s a -> sp_peers a = [] -> sp_drafts a = ∅ -> sp_strings a = ∅ -> pr_objs s = ∅ /\ (map_to_list (pr_strs s)).*2 ≡ₚ sp_lost a.
Proof.
  intros (V & C & l & H) Hp Hd Hs. pose proof (re_store _ _ _ _ _ H) as ((Hv & [ow Hw] & _) & _). pose proof (re_table _ _ _ _ _ H) as Ht. rewrite Hp in Ht. inversion Ht; subst l.
  assert (HV : forall p, V !! p = None).
  { intros p. destruct (V !! p) as [[[[] i] f]|] eqn:E; [|assert (Hdp : sp_drafts a !! p = Some (i, f)) by (by apply (re_drafts _ _ _ _ _ H)); by rewrite Hd in Hdp|done].
    apply (re_listed _ _ _ _ _ H) in E. set_solver. }
  assert (Ho : pr_objs s = ∅) by (apply map_empty; intros p; specialize (Hv p); rewrite HV in Hv; by inversion Hv). split; [done|].
  destruct (re_strings _ _ _ _ _ H) as (L & -> & _ & HL). rewrite Hs, map_empty_union in Hw.
  replace (pr_strs s) with L; [done|]. apply map_eq. intros q. apply option_eq. intros t. rewrite (ow_clients _ _ _ _ Hw). split; [by intros [_ ?]|].
  intros E. split; [|done]. assert (is_Some (ow !! q)) as [p Hq] by (apply (ow_strs _ _ _ _ Hw); by eexists).
  destruct (ow_live _ _ _ _ Hw q p Hq) as [->|[o Hpo]]; [done|by rewrite Ho in Hpo].
Qed.

Lemma ops_refine os s a : refines s a -> ops_ok fuel a os -> exists s', runs (run_ops os) s tt s' /\ refines s' (fold_left spec_step os a).
Proof.
  revert s a. induction os as [|o os IH]; intros s a H Hok; [by exists s|]. destruct Hok as [Ho Hok].
  destruct (op_refines s a o H Ho) as (s1 & R1 & H1). destruct (IH s1 _ H1 Hok) as (s2 & R2 & H2). exists s2. split; [|done]. by eapply runs_bind.
Qed.

(** C11: The list of peers is a table.  Any sequence of operations of clients that use their own peers and strings ([op_ok]) and of the timer
    runs without a fault, and does what the specification says: peers are added, replaced, kept alive and removed by their identifiers, the
    listeners are told of each change in order, the timer is posted once as long as there are peers, and every peer owns its strings.  When
    there are no peers, no drafts and no strings of clients any more, nothing is left in the memory but the strings of identifiers that were replaced by
    another one in the same peer, each of which is lost. *)
Theorem peers_refine os s a : refines s a -> ops_ok fuel a os ->
  exists s', runs (run_ops os) s tt s' /\ refines s' (fold_left spec_step os a) /\
    (sp_peers (fold_left spec_step os a) = [] -> sp_drafts (fold_left spec_step os a) = ∅ -> sp_strings (fold_left spec_step os a) = ∅ ->
     pr_objs s' = ∅ /\ (map_to_list (pr_strs s')).*2 ≡ₚ sp_lost (fold_left spec_step os a)).
Proof.
  intros H Hok. destruct (ops_refine os s a H Hok) as (s' & R & H'). exists s'. split_and!; [done|done|]. by apply nothing_lost.
Qed.

(** ** Lookups *)

Lemma find_runs s V C id es : forall l0 l k, store s V C (l0 ++ l) -> table V l es -> (length l < k)%nat ->
  exists p, runs (find_loop k id (headp l)) s p s /\
  match assoc id es with Some f => V !! p = Some (true, Some id, f) | None => p = 0 end.
Proof.
  induction es as [|[i f] es IH]; intros l0 l k Hst Ht Hk; (destruct k as [|k]; [lia|]); inversion Ht as [|x ? l' ? Hx Ht']; subst; [by exists 0|].
  cbn [fst snd] in Hx. destruct (visit s V C l0 x l' i f Hst Hx) as (R & Hx0 & o & Ho & Hi & _). cbn [length] in Hk.
  destruct Hst as (Hh & Hs & Hnd). pose proof Hs as Hs'. apply seg_app in Hs' as (r & _ & -> & _ & o' & Ho' & Hs2). assert (o' = o) as -> by congruence.
  change (headp (x :: l')) with x. cbn [find_loop assoc]. rewrite Hx0. unfold runs. setoid_rewrite (bind_runs _ _ _ _ _ (runs_load s x o Ho)). setoid_rewrite (bind_runs _ _ _ _ _ (runs_the_str s _ i Hi)).
  destruct (streq_spec i id) as [->|_]; [by exists x|]. rewrite (seg_head _ _ _ Hs2). apply (IH (l0 ++ [x]) l' k); [split_and!; by rewrite <- ?app_assoc|done|lia].
Qed.

(** C40: A peer is found by its identifier, and its properties by their names: [peer_server_find] gives the peer of the table or a null
    pointer, and [peer_server_getprop] the value of the property or the default. *)
Theorem peer_lookup s a id : refines s a -> (length (sp_peers a) < fuel)%nat ->
  exists p, runs (peer_server_find fuel id) s p s /\
  match assoc id (sp_peers a) with
  | None => p = 0
  | Some f => p <> 0 /\ forall name d, exists q, runs (peer_server_getprop p name d) s q s /\
      match in_props f !! name with Some t => pr_strs s !! q = Some t | None => q = d end
  end.
Proof.
  intros (V & C & l & H) Hf. pose proof (re_store _ _ _ _ _ H) as Hst. pose proof (re_table _ _ _ _ _ H) as Ht. rewrite <- (Forall2_length _ _ _ Ht) in Hf.
  destruct (find_runs s V C id (sp_peers a) [] l fuel Hst Ht Hf) as (p & R & Hp). exists p. split.
  - unfold runs, peer_server_find. rewrite (bind_runs _ _ _ _ _ (runs_gets pr_peers s)). destruct Hst as (_ & Hs & _). by rewrite (seg_head _ _ _ Hs).
  - destruct (assoc id (sp_peers a)) as [f|]; [|done]. destruct (heap_obj s V _ p _ (proj1 Hst) Hp) as (o & Ho & (_ & _ & _ & _ & _ & _ & kvs & Hk & Hnd & E) & Hp0).
    split; [done|]. intros name d. destruct (runs_find_name (ps_list o) kvs name s Hk Hnd) as (r & Rn & Hr). exists (default d r). split.
    + unfold runs, peer_server_getprop. by rewrite (bind_runs _ _ _ _ _ (runs_load s p o Ho)), (bind_runs _ _ _ _ _ Rn).
    + rewrite E. destruct r as [q|]; cbn; [destruct Hr as (t & Hq & ->); done|by rewrite Hr].
Qed.
End Refine.

(** No peers. *)
Definition peers_init {W} (w : W) : PeerState W := mkPeers ∅ ∅ 1 0 [] 0 false 0 [] w.
Definition spec_init : Spec := mkSpec [] ∅ ∅ 1 [] false [] [].

Lemma refines_init {W} (w : W) : refines (peers_init w) spec_init.
Proof.
  exists ∅, ∅, []. split; cbn; try done; [|by exists ∅; rewrite map_empty_union|constructor|constructor|by left].
  split_and!; [|done|constructor]. split_and!; [intros p; cbn; rewrite !lookup_empty; constructor| |cbn; lia|done].
  exists ∅. split; cbn; try done.
  - intros q. by rewrite !lookup_empty.
  - intros q t. rewrite !lookup_empty. naive_solver.
Qed.

Module PeerExample.

(** A listener that counts the events it gets. *)
Definition count_events (fnp p type arg : Z) : M (PeerState Z) unit := modify (fun s => set_world (pr_world s + 1) s).

Lemma count_events_run fnp p type arg (s : PeerState Z) (V : gmap Z (bool * option (list Z) * Info)) C l id f : store s V C l -> V !! p = Some (true, Some id, f) ->
  exists w, runs (count_events fnp p type arg) s tt (set_world w s).
Proof. intros _ _. by exists (pr_world s + 1). Qed.

(** A listener; a peer with a port, which is then heard of again and later with another port; another
    peer, which is sent with two identifiers, as [udp_receive_ack_info] takes them from the net; the timer; and the removal of the first one. *)
Definition make (p : Z) (id port : string) : list op :=
  [OAlloc; OString (str "ID"); OString (str id); OAddprop p (p + 1) (p + 2);
   OString (str "Port"); OString (str port); OAddprop p (p + 3) (p + 4); OFlags p PS_FLAG_DISCOVERABLE].

Definition os : list op :=
  [OListener 7 0] ++ make 1 "A" "1534" ++ [OAdd 100 1 60] ++ make 6 "A" "1534" ++ [OAdd 110 6 60] ++ make 11 "A" "1535" ++ [OAdd 120 11 60] ++
  make 16 "C" "1534" ++ [OString (str "ID"); OString (str "B"); OAddprop 16 21 22; OAdd 130 16 10; OTimer 150; ORemove (str "A"); OTimer 165].

Lemma os_ok : ops_ok 10 spec_init os.
Proof. apply ops_okb_spec. vm_compute. reflexivity. Qed.

Lemma os_events : map (fun c => (c.1.2, c.2)) (sp_calls (fold_left spec_step os spec_init)) =
  [(str "A", PS_EVENT_ADDED); (str "A", PS_EVENT_HEART_BEAT); (str "A", PS_EVENT_CHANGED); (str "B", PS_EVENT_ADDED); (str "B", PS_EVENT_REMOVED); (str "A", PS_EVENT_REMOVED)].
Proof. vm_compute. reflexivity. Qed.

Lemma peers_refine_witness : exists s', runs (run_ops count_events 10 os) (peers_init 0) tt s' /\ pr_objs s' = ∅ /\ (map_to_list (pr_strs s')).*2 ≡ₚ [str "C"].
Proof.
  destruct (peers_refine count_events count_events_run 10 os (peers_init 0) spec_init (refines_init 0) os_ok) as (s' & R & _ & Hlost).
  exists s'. split; [exact R|]. apply Hlost; vm_compute; reflexivity.
Defined.

Definition made : list op := [OListener 7 0] ++ make 1 "A" "1534" ++ [OAdd 100 1 60].

Lemma made_ok : ops_ok 10 spec_init made.
Proof. apply ops_okb_spec. vm_compute. reflexivity. Qed.

Lemma peer_lookup_witness : exists (s : PeerState Z) p, runs (peer_server_find 10 (str "A")) s p s /\ p <> 0 /\
  exists q, runs (peer_server_getprop p (str "Port") 0) s q s /\ pr_strs s !! q = Some (str "1534").
Proof.
  destruct (ops_refine count_events count_events_run 10 made (peers_init 0) spec_init (refines_init 0) made_ok) as (s & _ & Hs).
  exists s. destruct (peer_lookup 10 s _ (str "A") Hs) as (p & R & Hp); [vm_compute; lia|]. exists p. split; [exact R|].
  vm_compute in Hp.
  destruct Hp as [Hp Hprop]. split; [exact Hp|]. destruct (Hprop (str "Port") 0) as (q & Rq & Hq). exists q. split; [exact Rq|]. exact Hq.
Defined.
End PeerExample.
