(* ===== verification/Locator.v ===== *)
(** * The Locator service (services/discovery.c)

    The commands that tell the peer what peers are known, and the events for changes of them. *)

From S2P Require Import Prelude Streams JsonWrite JsonRead JsonStruct ChannelOut ContextQuery ContextService.
From S2P Require Import Peers PeerProps PeerLists PeerRefine.

Section Service.
Context {IS OS : Type} `{InputStream IS} `{OutputStream OS}.
Variable fuel : nat.
Variable write_error_object : Z -> M OS unit.

(** The streams of the channel of a command, the stream of the broadcast group, and [peer_cnt]. *)
Record LocatorStreams := mkStreams { st_inp : Json IS; st_out : OS; st_bcg : OS; st_peer_cnt : Z }.

Notation X := (M (PeerState LocatorStreams)).

Definition in_world {A} (m : M LocatorStreams A) : X A := zoom pr_world set_world m.
Definition on_linp {A} (m : M (Json IS) A) : X A := in_world (zoom st_inp (fun i w => mkStreams i (st_out w) (st_bcg w) (st_peer_cnt w)) m).

(** A stream by its address: that of the broadcast group, or that of the channel. *)
Definition on_stream {A} (bcg : bool) (m : M OS A) : X A :=
  in_world (if bcg then zoom st_bcg (fun o w => mkStreams (st_inp w) (st_out w) o (st_peer_cnt w)) m
            else zoom st_out (fun o w => mkStreams (st_inp w) o (st_bcg w) (st_peer_cnt w)) m).

Definition set_peer_cnt (n : Z) : X unit := in_world (modify (fun w => mkStreams (st_inp w) (st_out w) (st_bcg w) n)).

(** A string that may be a null pointer. *)
Definition str_arg (q : Z) : X (option (list Z)) := if q =? 0 then ret None else let! t := the_str q in ret (Some t).

Definition write_str (out : bool) (q : Z) : X unit := let! t := str_arg q in on_stream out (json_write_string t).

Fixpoint props_loop (out : bool) (l : list (Z * Z)) : X unit :=
  match l with
  | [] => ret tt
  | (pn, pv) :: l' =>
      on_stream out (write_stream ch_comma) ;!
      write_str out pn ;!
      on_stream out (write_stream ch_colon) ;!
      write_str out pv ;!
      props_loop out l'
  end.

Definition write_peer_properties (out : bool) (ps : Z) : X Z :=
  let! cnt := gets (fun s => st_peer_cnt (pr_world s)) in
  (if 0 <? cnt then on_stream out (write_stream ch_comma) else ret tt) ;!
  let! o := load_peer ps in
  on_stream out (write_stream ch_lcur ;! json_write_string (Some (str "ID")) ;! write_stream ch_colon) ;!
  write_str out (ps_id o) ;!
  props_loop out (ps_list o) ;!
  on_stream out (write_stream ch_rcur) ;!
  set_peer_cnt (cnt + 1) ;!
  ret 0.

Definition reply_head (token : list Z) : X unit := on_stream false (write_stringz (str "R") ;! write_stringz token ;! write_errno write_error_object 0).
Definition end_message (out : bool) : X unit := on_stream out (write_stream 0 ;! write_stream MARKER_EOM).

Definition command_sync (token : list Z) : X unit :=
  on_linp (json_test_char fuel MARKER_EOM) ;!
  reply_head token ;!
  on_stream false (write_stream MARKER_EOM).

Definition command_get_peers (token : list Z) : X unit :=
  on_linp (json_test_char fuel MARKER_EOM) ;!
  reply_head token ;!
  on_stream false (write_stream ch_lbra) ;!
  set_peer_cnt 0 ;!
  peer_server_iter fuel (write_peer_properties false) ;!
  on_stream false (write_stream ch_rbra) ;!
  end_message false.

(** [agent_id]: the result of [get_agent_id]. *)
Definition command_get_agent_id (agent_id token : list Z) : X unit :=
  on_linp (json_test_char fuel MARKER_EOM) ;!
  reply_head token ;!
  on_stream false (json_write_string (Some agent_id)) ;!
  end_message false.

(** The listener of the service. *)
Definition peer_change_event (ps type : Z) : X unit :=
  let! o := load_peer ps in
  if negb (has_flag PS_FLAG_DISCOVERABLE (ps_flags o)) then ret tt
  else
    on_stream true (write_stringz (str "E") ;! write_stringz (str "Locator")) ;!
    (if type =? PS_EVENT_ADDED then
       on_stream true (write_stringz (str "peerAdded")) ;! set_peer_cnt 0 ;! write_peer_properties true ps ;! ret tt
     else if type =? PS_EVENT_CHANGED then
       on_stream true (write_stringz (str "peerChanged")) ;! set_peer_cnt 0 ;! write_peer_properties true ps ;! ret tt
     else if type =? PS_EVENT_HEART_BEAT then
       on_stream true (write_stringz (str "peerHeartBeat")) ;! write_str true (ps_id o)
     else if type =? PS_EVENT_REMOVED then
       on_stream true (write_stringz (str "peerRemoved")) ;! write_str true (ps_id o)
     else ret tt) ;!
    end_message true.
End Service.

(** ** Texts *)

(** The members of a peer after its identifier. *)
Fixpoint members_text (kvs : list (list Z * list Z)) : list Z :=
  match kvs with
  | [] => []
  | (n, v) :: kvs' => ch_comma :: string_text (Some n) ++ ch_colon :: string_text (Some v) ++ members_text kvs'
  end.

Definition peer_text (id : list Z) (kvs : list (list Z * list Z)) : list Z :=
  ch_lcur :: string_text (Some (str "ID")) ++ ch_colon :: string_text (Some id) ++ members_text kvs ++ [ch_rcur].

(** The properties of a peer in some order. *)
Definition in_order (f : Info) (kvs : list (list Z * list Z)) : Prop := NoDup kvs.*1 /\ in_props f = list_to_map kvs.

(** Strings that the JSON writer can write. *)
Definition peer_writable (e : list Z * Info) : Prop := writable e.1 /\ forall n v, in_props e.2 !! n = Some v -> writable n /\ writable v.

Section Says.
Context {IS OS : Type} `{InputStreamLaws IS} `{OutputStreamLaws OS}.

Notation W := (LocatorStreams (IS := IS) (OS := OS)).
Notation X := (M (PeerState W)).
Implicit Types (s : PeerState W) (w : W).

Definition stream_of (out : bool) w : OS := if out then st_bcg w else st_out w.

(** [m] writes the symbols [bs] to a stream, in the memory of [s], and changes the counter of peers; the peers stay as they are. *)
Definition says {A} s (out : bool) (m : X A) (a : A) (bs : list Z) (c c' : Z) : Prop :=
  forall w l, emits (stream_of out w) l -> st_peer_cnt w = c ->
    exists w', runs m (set_world w s) a (set_world w' s) /\ emits (stream_of out w') (l ++ bs) /\
      st_inp w' = st_inp w /\ stream_of (negb out) w' = stream_of (negb out) w /\ st_peer_cnt w' = c'.

Lemma says_ret {A} s out (a : A) c : says s out (ret a) a [] c c.
Proof. intros w l He Hc. exists w. by rewrite app_nil_r. Qed.

Lemma says_bind {A B} s out (m : X A) (k : A -> X B) a b b1 b2 c c1 c2 : says s out m a b1 c c1 -> says s out (k a) b b2 c1 c2 -> says s out (bind m k) b (b1 ++ b2) c c2.
Proof.
  intros Hm Hk w l He Hc. destruct (Hm w l He Hc) as (w1 & R1 & E1 & I1 & O1 & C1). destruct (Hk w1 _ E1 C1) as (w2 & R2 & E2 & I2 & O2 & C2).
  exists w2. split_and!; [by eapply runs_bind|by rewrite app_assoc|congruence|congruence|done].
Qed.

Lemma says_stream s out (m : M OS unit) bs c : writes m bs -> says s out (on_stream out m) tt bs c c.
Proof.
  intros Hm w l He Hc. destruct (Hm _ l He) as (o' & R & E'). unfold runs in R.
  exists (if out then mkStreams (st_inp w) (st_out w) o' (st_peer_cnt w) else mkStreams (st_inp w) o' (st_bcg w) (st_peer_cnt w)).
  split_and!; [|by destruct out..]. unfold runs, on_stream, in_world, zoom. cbn. destruct out; cbn in *; by rewrite R.
Qed.

Lemma says_gets {A} s out (f : PeerState W -> A) a c : (forall w, st_peer_cnt w = c -> f (set_world w s) = a) -> says s out (gets f) a [] c c.
Proof. intros Hf w l He Hc. exists w. rewrite app_nil_r. split_and!; try done. unfold runs, gets. by rewrite Hf. Qed.

Lemma says_cnt s out n c : says s out (set_peer_cnt n) tt [] c n.
Proof. intros w l He Hc. exists (mkStreams (st_inp w) (st_out w) (st_bcg w) n). rewrite app_nil_r. split_and!; try done; by destruct out. Qed.

Lemma says_load s out p o c : pr_objs s !! p = Some o -> says s out (load_peer p) o [] c c.
Proof. intros Ho w l He Hc. exists w. rewrite app_nil_r. split_and!; try done. by apply runs_load. Qed.

Lemma says_str s out q t c : pr_strs s !! q = Some t -> q <> 0 -> writable t -> says s out (write_str out q) tt (string_text (Some t)) c c.
Proof.
  intros Hq Hq0 Ht. unfold write_str. apply (says_bind _ _ _ _ (Some t) _ [] _ _ c); [|by apply says_stream, writes_json_string].
  intros w l He Hc. exists w. rewrite app_nil_r. split_and!; try done. unfold str_arg. rewrite (proj2 (Z.eqb_neq _ _) Hq0).
  eapply runs_bind; [by apply runs_the_str|]. apply runs_ret.
Qed.

(** ** Peers *)

Lemma says_members s out l kvs c : prop_views (pr_strs s) l kvs -> (forall q, q ∈ prop_ptrs l -> q <> 0) -> Forall (fun kv => writable kv.1 /\ writable kv.2) kvs ->
  says s out (props_loop out l) tt (members_text kvs) c c.
Proof.
  intros Hv. revert Hv. revert kvs. induction l as [|[pn pv] l IH]; intros kvs Hv Hq Hw; inversion Hv as [|x [n v] l' kvs' [En Ev] Hv']; subst; [apply says_ret|].
  apply Forall_cons in Hw as [[Wn Wv] Hw]. cbn [fst snd] in *. change (prop_ptrs ((pn, pv) :: l)) with (pn :: pv :: prop_ptrs l) in Hq. cbn [props_loop members_text].
  apply (says_bind _ _ _ _ tt _ [ch_comma] _ _ c); [apply says_stream, writes_byte; unfold is_byte; lia|].
  apply (says_bind _ _ _ _ tt _ _ _ _ c); [apply says_str; [done|apply Hq; rewrite !elem_of_cons; auto|done]|].
  apply (says_bind _ _ _ _ tt _ [ch_colon] _ _ c); [apply says_stream, writes_byte; unfold is_byte; lia|].
  apply (says_bind _ _ _ _ tt _ _ _ _ c); [apply says_str; [done|apply Hq; rewrite !elem_of_cons; auto|done]|].
  apply IH; [done| |done]. intros q Hin. apply Hq. rewrite !elem_of_cons. auto.
Qed.

Lemma says_peer s out V C p b id f c : heap s V C -> V !! p = Some (b, Some id, f) -> peer_writable (id, f) -> 0 <= c ->
  exists kvs, in_order f kvs /\ says s out (write_peer_properties out p) 0 ((if 0 <? c then [ch_comma] else []) ++ peer_text id kvs) c (c + 1).
Proof.
  intros Hh Hv [Wi Wp] Hc. destruct (heap_obj s V C p _ Hh Hv) as (o & Ho & (_ & Hi & _ & _ & _ & _ & kvs & Hk & Hnd & Hf) & _). exists kvs. split; [done|].
  assert (Hq : forall q, q ∈ ptrs o -> q <> 0) by (intros q Hq; by eapply ptrs_owned).
  assert (Hw : Forall (fun kv => writable kv.1 /\ writable kv.2) kvs).
  { apply Forall_forall. intros [n v] Hin. apply (Wp n v). cbn [snd]. rewrite Hf. by apply elem_of_list_to_map. }
  assert (Hid : ps_id o <> 0) by (intros E; cbn in Hi; rewrite E in Hi; destruct Hh as (_ & [ow Hw'] & _); by rewrite (ow_null _ _ _ _ Hw') in Hi).
  unfold write_peer_properties, peer_text.
  apply (says_bind _ _ _ _ c _ [] _ _ c); [by apply says_gets|].
  apply (says_bind _ _ _ _ tt _ _ _ _ c); [destruct (0 <? c); [apply says_stream, writes_byte; unfold is_byte; lia|apply says_ret]|].
  apply (says_bind _ _ _ _ o _ [] _ _ c); [by apply says_load|].
  change (ch_lcur :: string_text (Some (str "ID")) ++ ch_colon :: string_text (Some id) ++ members_text kvs ++ [ch_rcur])
    with ((ch_lcur :: string_text (Some (str "ID")) ++ [ch_colon]) ++ string_text (Some id) ++ members_text kvs ++ [ch_rcur]) || rewrite (app_assoc _ [ch_colon]).
  apply (says_bind _ _ _ _ tt _ _ _ _ c).
  { apply says_stream. apply writes_cons; [unfold is_byte; lia|]. apply writes_bind; [|apply writes_byte; unfold is_byte; lia]. apply writes_json_string, str_writable; by vm_compute. }
  apply (says_bind _ _ _ _ tt _ _ _ _ c); [by apply says_str|].
  apply (says_bind _ _ _ _ tt _ _ _ _ c); [apply says_members; [done| |done]; intros q Hin; apply Hq; unfold ptrs; set_solver|].
  apply (says_bind _ _ _ _ tt _ [ch_rcur] [] _ c); [apply says_stream, writes_byte; unfold is_byte; lia|].
  apply (says_bind _ _ _ _ tt _ [] [] _ (c + 1)); [apply says_cnt|apply says_ret].
Qed.

(** The loop of [peer_server_iter] after [n] peers. *)
Lemma more_peers (es : list (list Z * Info)) kvss : Forall2 (fun e kvs => in_order e.2 kvs) es kvss ->
  more_text (zip_with (fun e kvs => peer_text e.1 kvs) es kvss) = (if (0 <? length es)%nat then [ch_comma] else []) ++ sep_text (zip_with (fun e kvs => peer_text e.1 kvs) es kvss).
Proof. by intros [|]. Qed.

Lemma says_iter s V C es : forall l0 l k n, store s V C (l0 ++ l) -> table V l es -> (length l < k)%nat -> Forall peer_writable es -> 0 <= n ->
  exists kvss, Forall2 (fun e kvs => in_order e.2 kvs) es kvss /\
  says s false (iter_loop k (write_peer_properties false) (headp l)) 0
    ((if (0 <? n) && (0 <? length es)%nat then [ch_comma] else []) ++ sep_text (zip_with (fun e kvs => peer_text e.1 kvs) es kvss)) n (n + Z.of_nat (length es)).
Proof.
  induction es as [|[id f] es IH]; intros l0 l k n Hst Ht Hk Hw Hn; (destruct k as [|k]; [lia|]); inversion Ht as [|x ? l' ? Hx Ht']; subst.
  - exists []. split; [constructor|]. rewrite andb_false_r, Z.add_0_r. apply says_ret.
  - cbn [fst snd] in Hx. apply Forall_cons in Hw as [Hwf Hw]. destruct Hst as (Hh & Hs & Hnd). pose proof Hs as Hs'.
    apply seg_app in Hs' as (r & _ & -> & Hx0 & o & Ho & Hs2). cbn [length] in Hk.
    destruct (says_peer s false V C x true id f n Hh Hx Hwf Hn) as (kvs & Hord & Hsay).
    destruct (IH (l0 ++ [x]) l' k (n + 1)) as (kvss & Hall & Hrest); [split_and!; by rewrite <- ?app_assoc|done|lia|done|lia|].
    exists (kvs :: kvss). split; [by constructor|]. change (headp (x :: l')) with x. cbn [iter_loop zip_with fst]. rewrite (proj2 (Z.eqb_neq _ _) Hx0).
    rewrite andb_true_r, sep_text_cons, app_assoc. apply (says_bind _ _ _ _ 0 _ _ _ _ (n + 1)); [exact Hsay|]. cbn [Z.eqb negb].
    rewrite <- (app_nil_l (more_text _)). apply (says_bind _ _ _ _ o _ [] _ _ (n + 1)); [by apply says_load|].
    rewrite (seg_head _ _ _ Hs2), (more_peers _ _ Hall). rewrite (proj2 (Z.ltb_lt 0 (n + 1))) in Hrest by lia. cbn [andb] in Hrest.
    replace (n + Z.of_nat (length ((id, f) :: es))) with (n + 1 + Z.of_nat (length es)) by (cbn [length]; lia). exact Hrest.
Qed.

Lemma refines_world s w a : refines s a -> refines (set_world w s) a.
Proof. intros (V & C & l & H'). exists V, C, l. destruct H'. split; try done. Qed.

Lemma says_end s out c : os_sym MARKER_EOM -> says s out (end_message out) tt [0; MARKER_EOM] c c.
Proof. intros Hm. apply says_stream. apply writes_cons; [unfold is_byte; lia|]. by apply writes_stream. Qed.

Lemma says_reply s (werr : Z -> M OS unit) token c : bytes token -> says s false (reply_head werr token) tt (str "R" ++ [0] ++ token ++ [0] ++ [0]) c c.
Proof.
  intros Ht. apply says_stream. rewrite (app_assoc (str "R")). apply writes_bind; [by apply writes_stringz_lem, str_bytes|].
  rewrite (app_assoc token). apply writes_bind; [by apply writes_stringz_lem|]. apply writes_no_error.
Qed.

(** ** The command *)

(** C13: "getPeers" replies with all peers that are known, in the order of the table: each one as an object with its identifier and its
    properties, in an array.  The peers stay as they are. *)
Theorem get_peers_reply fuel (werr : Z -> M OS unit) token s a rest l : refines s a -> (length (sp_peers a) < fuel)%nat ->
  Forall peer_writable (sp_peers a) -> bytes token -> os_sym MARKER_EOM ->
  yields (js_inp (st_inp (pr_world s))) (MARKER_EOM :: rest) -> emits (st_out (pr_world s)) l ->
  exists s' kvss, runs (command_get_peers fuel werr token) s tt s' /\ refines s' a /\ Forall2 (fun e kvs => in_order e.2 kvs) (sp_peers a) kvss /\
    yields (js_inp (st_inp (pr_world s'))) rest /\
    emits (st_out (pr_world s')) (l ++ (str "R" ++ [0] ++ token ++ [0] ++ [0]) ++ array_text (zip_with (fun e kvs => peer_text e.1 kvs) (sp_peers a) kvss) ++ [0; MARKER_EOM]).
Proof.
  intros Hr Hf Hw Htok Hm Hy He. pose proof Hr as (V & C & ps & Hrel). pose proof (re_store _ _ _ _ _ Hrel) as Hst. pose proof (re_table _ _ _ _ _ Hrel) as Htab.
  assert (Hf' : (length ps < fuel)%nat) by (by rewrite (Forall2_length _ _ _ Htab)).
  destruct (says_iter s V _ (sp_peers a) [] ps fuel 0 Hst Htab Hf' Hw) as (kvss & Hord & Hsay); [lia|]. cbn [Z.ltb Z.compare andb app] in Hsay.
  destruct (json_test_char_runs fuel MARKER_EOM _ rest eq_refl (ltac:(lia)) Hy) as (j & Rj & Yj).
  set (w := pr_world s) in *. set (w1 := mkStreams j (st_out w) (st_bcg w) (st_peer_cnt w)).
  assert (R1 : runs (on_linp (json_test_char fuel MARKER_EOM)) s tt (set_world w1 s)).
  { unfold runs in Rj. unfold runs, on_linp, in_world, zoom. cbn. fold w. by rewrite Rj. }
  set (texts := zip_with (fun e kvs => peer_text e.1 kvs) (sp_peers a) kvss) in *.
  assert (Hall : says s false (reply_head werr token ;! on_stream false (write_stream ch_lbra) ;! set_peer_cnt 0 ;!
      peer_server_iter fuel (write_peer_properties false) ;! on_stream false (write_stream ch_rbra) ;! end_message false) tt
      ((str "R" ++ [0] ++ token ++ [0] ++ [0]) ++ [ch_lbra] ++ [] ++ sep_text texts ++ [ch_rbra] ++ [0; MARKER_EOM]) (st_peer_cnt w) (Z.of_nat (length (sp_peers a)))).
  { apply (says_bind _ _ _ _ tt _ _ _ _ (st_peer_cnt w)); [by apply says_reply|].
    apply (says_bind _ _ _ _ tt _ _ _ _ (st_peer_cnt w)); [apply says_stream, writes_byte; unfold is_byte; lia|].
    apply (says_bind _ _ _ _ tt _ _ _ _ 0); [apply says_cnt|].
    apply (says_bind _ _ _ _ 0 _ _ _ _ (Z.of_nat (length (sp_peers a)))).
    - unfold peer_server_iter. rewrite <- (app_nil_l (sep_text texts)). apply (says_bind _ _ _ _ (headp ps) _ [] _ _ 0); [|exact Hsay].
      apply says_gets. intros w' _. destruct Hst as (_ & Hs & _). by apply seg_head in Hs.
    - apply (says_bind _ _ _ _ tt _ _ _ _ (Z.of_nat (length (sp_peers a)))); [apply says_stream, writes_byte; unfold is_byte; lia|by apply says_end]. }
  destruct (Hall w1 l He eq_refl) as (w2 & R2 & E2 & I2 & _). exists (set_world w2 s), kvss.
  split_and!; [eapply runs_bind; [exact R1|exact R2]|by apply refines_world|done|cbn; by rewrite I2|].
  unfold array_text. fold texts. revert E2. cbn. rewrite <- !app_assoc. done.
Qed.

(** ** The events *)

Definition event_name (type : Z) : list Z :=
  if type =? PS_EVENT_ADDED then str "peerAdded" else if type =? PS_EVENT_CHANGED then str "peerChanged"
  else if type =? PS_EVENT_HEART_BEAT then str "peerHeartBeat" else str "peerRemoved".

Definition event_body (type : Z) (id : list Z) (kvs : list (list Z * list Z)) : list Z :=
  if (type =? PS_EVENT_ADDED) || (type =? PS_EVENT_CHANGED) then peer_text id kvs else string_text (Some id).

Definition event_text (type : Z) (id : list Z) (kvs : list (list Z * list Z)) : list Z :=
  str "E" ++ [0] ++ str "Locator" ++ [0] ++ event_name type ++ [0] ++ event_body type id kvs ++ [0; MARKER_EOM].

Lemma says_event s V C l p id f type cnt : store s V C l -> V !! p = Some (true, Some id, f) -> peer_writable (id, f) ->
  type ∈ [PS_EVENT_ADDED; PS_EVENT_CHANGED; PS_EVENT_HEART_BEAT; PS_EVENT_REMOVED] -> os_sym MARKER_EOM ->
  exists kvs cnt', in_order f kvs /\ says s true (peer_change_event p type) tt
    (if has_flag PS_FLAG_DISCOVERABLE (in_flags f) then event_text type id kvs else []) cnt cnt'.
Proof.
  intros Hst Hv Hw Htype Hm. pose proof Hst as (Hh & _). destruct (heap_obj s V C p _ Hh Hv) as (o & Ho & (_ & Hi & Hfl & _) & _).
  destruct (says_peer s true V C p true id f 0 Hh Hv Hw) as (kvs & Hord & Hsay); [lia|]. cbn [Z.ltb Z.compare app] in Hsay.
  assert (Hid : ps_id o <> 0) by (intros E; cbn in Hi; rewrite E in Hi; destruct Hh as (_ & [ow Hw'] & _); by rewrite (ow_null _ _ _ _ Hw') in Hi).
  assert (Hname : forall t c, bytes t -> says s true (on_stream true (write_stringz t)) tt (t ++ [0]) c c) by (intros t c Ht; by apply says_stream, writes_stringz_lem).
  exists kvs. unfold peer_change_event, event_text. rewrite <- Hfl. destruct (has_flag PS_FLAG_DISCOVERABLE (ps_flags o)) eqn:Ef.
  2:{ exists cnt. split; [done|]. apply (says_bind _ _ _ _ o _ [] [] _ cnt); [by apply says_load|]. rewrite Ef. apply says_ret. }
  assert (Hbody : exists c', says s true (if type =? PS_EVENT_ADDED then
       on_stream true (write_stringz (str "peerAdded")) ;! set_peer_cnt 0 ;! write_peer_properties true p ;! ret tt
     else if type =? PS_EVENT_CHANGED then
       on_stream true (write_stringz (str "peerChanged")) ;! set_peer_cnt 0 ;! write_peer_properties true p ;! ret tt
     else if type =? PS_EVENT_HEART_BEAT then
       on_stream true (write_stringz (str "peerHeartBeat")) ;! write_str true (ps_id o)
     else if type =? PS_EVENT_REMOVED then
       on_stream true (write_stringz (str "peerRemoved")) ;! write_str true (ps_id o)
     else ret tt) tt ((event_name type ++ [0]) ++ event_body type id kvs) cnt c').
  { assert (Hprops : says s true (set_peer_cnt 0 ;! write_peer_properties true p ;! ret tt) tt (peer_text id kvs) cnt 1).
    { rewrite <- (app_nil_l (peer_text id kvs)), <- (app_nil_r (peer_text id kvs)). apply (says_bind _ _ _ _ tt _ [] _ _ 0); [apply says_cnt|].
      apply (says_bind _ _ _ _ 0 _ _ [] _ 1); [exact Hsay|apply says_ret]. }
    assert (Hstr : says s true (write_str true (ps_id o)) tt (string_text (Some id)) cnt cnt) by (apply says_str; [done|done|apply Hw]).
    rewrite !elem_of_cons, elem_of_nil in Htype. destruct Htype as [->|[->|[->|[->|[]]]]]; [exists 1|exists 1|exists cnt|exists cnt];
      (apply (says_bind _ _ _ _ tt _ _ _ _ cnt); [by apply Hname, str_bytes|done]). }
  destruct Hbody as (c' & Hbody). exists c'. split; [done|].
  assert (E : str "E" ++ [0] ++ str "Locator" ++ [0] ++ event_name type ++ [0] ++ event_body type id kvs ++ [0; MARKER_EOM] =
    [] ++ ((str "E" ++ [0]) ++ (str "Locator" ++ [0])) ++ ((event_name type ++ [0]) ++ event_body type id kvs) ++ [0; MARKER_EOM]) by (by rewrite <- !app_assoc).
  rewrite E. apply (says_bind _ _ _ _ o _ [] _ _ cnt); [by apply says_load|]. rewrite Ef. cbn [negb].
  apply (says_bind _ _ _ _ tt _ _ _ _ cnt); [apply says_stream; apply writes_bind; by apply writes_stringz_lem, str_bytes|].
  apply (says_bind _ _ _ _ tt _ _ _ _ c'); [exact Hbody|by apply says_end].
Qed.

Lemma set_world_same s : set_world (pr_world s) s = s.
Proof. by destruct s. Qed.

(** C12: The listener of the service tells all peers on the broadcast stream of a change of a peer that is discoverable, with the
    peer if it is new or has changed, else with its identifier; it says nothing about other peers. *)
Theorem peer_event_broadcast s V C l p id f type text : store s V C l -> V !! p = Some (true, Some id, f) -> peer_writable (id, f) ->
  type ∈ [PS_EVENT_ADDED; PS_EVENT_CHANGED; PS_EVENT_HEART_BEAT; PS_EVENT_REMOVED] -> os_sym MARKER_EOM ->
  emits (st_bcg (pr_world s)) text ->
  exists s' kvs, runs (peer_change_event p type) s tt s' /\ in_order f kvs /\ (forall a, refines s a -> refines s' a) /\
    emits (st_bcg (pr_world s')) (text ++ if has_flag PS_FLAG_DISCOVERABLE (in_flags f) then event_text type id kvs else []) /\
    st_inp (pr_world s') = st_inp (pr_world s) /\ st_out (pr_world s') = st_out (pr_world s).
Proof.
  intros Hst Hv Hw Htype Hm He. destruct (says_event s V C l p id f type (st_peer_cnt (pr_world s)) Hst Hv Hw Htype Hm) as (kvs & c' & Hord & Hsay).
  destruct (Hsay (pr_world s) text He eq_refl) as (w & R & E & I & O & _). exists (set_world w s), kvs. rewrite set_world_same in R.
  split_and!; [exact R|done|intros a; apply refines_world|exact E|exact I|exact O].
Qed.
End Says.

Module LocatorExample.
Notation State := (PeerState (LocatorStreams (IS := ByteArrayInputStream) (OS := ChannelTCP))).
Definition no_listener (fnp p type arg : Z) : M State unit := ret tt.

Definition streams : LocatorStreams := mkStreams (json_of [MARKER_EOM]) (new_output true) (new_output true) 7.

(** Two peers. *)
Definition two_peers : list op :=
  PeerExample.make 1 "A" "1534" ++ [OAdd 100 1 60] ++ PeerExample.make 6 "B" "1535" ++ [OAdd 110 6 60].

Lemma two_peers_ok : ops_ok 10 spec_init two_peers.
Proof. apply ops_okb_spec. vm_compute. reflexivity. Qed.

Definition table_of_two : Spec := fold_left spec_step two_peers spec_init.

Lemma known : exists s, refines s table_of_two /\ pr_world s = streams.
Proof.
  destruct (ops_refine no_listener) with (fuel := 10%nat) (os := two_peers) (s := peers_init streams) (a := spec_init) as (s & _ & Hs);
    [|apply refines_init|apply two_peers_ok|].
  - intros fnp p type arg s V C l id f _ _. exists (pr_world s). by destruct s.
  - exists (set_world streams s). split; [by apply refines_world|done].
Qed.

Lemma known_writable : Forall peer_writable (sp_peers table_of_two).
Proof.
  apply Forall_impl with (P := fun e => writable e.1 /\ Forall (fun kv => writable kv.1 /\ writable kv.2) (map_to_list (in_props e.2))).
  - apply (bool_decide_unpack _). vm_compute. exact I.
  - intros e [He Hkv]. split; [done|]. intros n v Hin. apply elem_of_map_to_list in Hin. by apply (proj1 (Forall_forall _ _) Hkv) in Hin.
Qed.

Lemma get_peers_reply_witness : exists (s s' : State) kvss, runs (command_get_peers 10 (fun _ => ret tt) (str "5")) s tt s' /\
  emits (st_out (pr_world s')) ((str "R" ++ [0] ++ str "5" ++ [0] ++ [0]) ++
    array_text (zip_with (fun id kvs => peer_text id kvs) [str "B"; str "A"] kvss) ++ [0; MARKER_EOM]).
Proof.
  destruct known as (s & Hs & Hw). exists s.
  destruct (get_peers_reply 10 (fun _ => ret tt) (str "5") s table_of_two [] []) as (s' & kvss & R & _ & _ & _ & E);
    [exact Hs|vm_compute; lia|apply known_writable|apply str_bytes|exact sym_eom| | |].
  - rewrite Hw. exists 0%nat. cbn [replicate]. by rewrite !app_nil_r.
  - rewrite Hw. apply new_output_emits.
  - exists s', kvss. split; [exact R|]. destruct kvss as [|k1 [|k2 [|k3 kvss]]]; exact E.
Defined.

Lemma known_first : exists e es, sp_peers table_of_two = e :: es /\ e.1 = str "B" /\ has_flag PS_FLAG_DISCOVERABLE (in_flags e.2) = true.
Proof.
  assert (H : match sp_peers table_of_two with e :: _ => bool_decide (e.1 = str "B") && has_flag PS_FLAG_DISCOVERABLE (in_flags e.2) | [] => false end = true)
    by (vm_compute; reflexivity).
  destruct (sp_peers table_of_two) as [|e es]; [done|]. apply andb_true_iff in H as [He Hf]. apply bool_decide_eq_true in He. by exists e, es.
Qed.

Lemma peer_event_broadcast_witness : exists (s s' : State) p kvs, runs (peer_change_event p PS_EVENT_ADDED) s tt s' /\
  emits (st_bcg (pr_world s')) (event_text PS_EVENT_ADDED (str "B") kvs).
Proof.
  destruct known as (s & (V & C & l & Hrel) & Hw). pose proof (re_table _ _ _ _ _ Hrel) as Ht. pose proof (re_store _ _ _ _ _ Hrel) as Hst.
  pose proof known_writable as Hwr. destruct known_first as ([id f] & es & Ee & Hid & Hf). cbn [fst snd] in Hid, Hf. unfold table in Ht. rewrite Ee in Ht, Hwr.
  apply Forall2_cons_inv_r in Ht as (p & l' & Hp & _ & ->). apply Forall_cons in Hwr as [Hwr _].
  destruct (peer_event_broadcast s V _ _ p id f PS_EVENT_ADDED [] Hst Hp Hwr) as (s' & kvs & R & _ & _ & E & _).
  - by left.
  - exact sym_eom.
  - rewrite Hw. apply new_output_emits.
  - rewrite Hf, Hid in E. exists s, s', p, kvs. split; [exact R|exact E].
Defined.
End LocatorExample.
